(* ===== verification/_CoqProject ===== *)
-Q . S2P
Prelude.v
Float64.v
GoText.v
Model.v
MarketHours.v
Aggregator.v
TfBuilder.v
CircuitBreaker.v
Errors.v
Oms.v
Fill.v
RateLimiter.v
Underlying.v
Positions.v
Exec.v
Placement.v
ExecOps.v
Executor.v
Settlement.v
Signals.v
ExecFrame.v
ExecInvariant.v
ExecSafety.v
ExecAccounts.v
Portfolio.v
FeedMerger.v
FeedPacket.v
FeedSocket.v
FeedSocketOk.v
FeedGroup.v
Indicators.v
IndicatorEngine.v
IndicatorRecovery.v
ExitPolicy.v
RangeContext.v
SrContext.v
RangeBars.v
Nifty50SrState.v
Nifty50Sr.v
Nifty50SrEntry.v
Nifty50SrExit.v
Nifty50SrTrading.v
Nifty50SrRuns.v
ExitLevels.v
ExitScore.v
ExitTracker.v
ExitRunner.v
ExitRuns.v
ExitWatch.v
ExitWatchOk.v
ExitWatchTotal.v
ExitReplay.v
TgSignal.v
TgRuns.v
Regex.v
TgParse.v
TgPrompt.v
TgDecide.v
TgContexts.v
LlmScheduler.v
LlmSchedulerOk.v
TgRouter.v
TgRouterOk.v
TgPublished.v
StrategyEngine.v
OptionMath.v
OptionPicker.v
SrView.v
OptionModel.v
Backtest.v
BacktestOk.v
BacktestTotal.v
BacktestStats.v
StrikeCompare.v
PnlLedger.v
Analyst.v
