(* ===== verification/Prelude.v ===== *)
(** * The trading backend, verified

    A model in Rocq of the Go backend under src/backend: market data in,
    candles and indicators, the SR strategy, order execution, the order
    ledger, and the books.  This file holds what every other file shares;
    this comment documents the whole development.

    ** How the program is put together

    Ticks arrive over parallel broker sockets and are merged into one stream;
    they become one-second candles, these become timeframe candles, and
    indicators are computed over them.  The SR strategy turns one-minute
    candles of an index into signals to buy an option, advise it, or exit; the
    Telegram strategy trades calls read from chat messages by patterns and a
    language model; the strategy engine runs strategies and hands on what they
    signal; the option picker chooses the contract; the backtest replays a
    strategy over recorded candles.  Signals reach the order executor, which guards them (risk, rate, breaker,
    one position per side), places orders at the broker or on paper, protects
    positions with stops at the exchange, and settles orders whose outcome was
    open.  Every order passes through a ledger that can be rebuilt from its
    journal, and fills move the portfolio's positions, P&L and risk limits.
    The exit watch follows every open position and asks for its exit.  Beside
    them, the analyst reads levels and breakouts out of the same candles, and
    the P&L ledger keeps the fills across restarts.

    ** Files

    Each file names the Go files it models in its own header; definitions
    have the source's names, prefixed where two would clash.

    - Prelude: 64-bit integers with wrap-around, time, map order, channels,
      record update, tactics.  Float64: IEEE doubles.  GoText: strconv,
      strings, fmt.  Errors: error values.
    - Model (internal/model), MarketHours (internal/markethours), Underlying
      (internal/underlying, orderexec/underlying.go): the domain's data.
    - FeedSocket (one broker socket: its connections and goroutines,
      pkg/smartconnect/websocket.go), FeedPacket (its frames, and the ticks
      read from them in marketdata/ws/ingest.go), FeedGroup (the sockets of a
      feed, marketdata/ws), FeedSocketOk (the socket's proofs); FeedMerger
      (marketdata/ws/dedup.go), Aggregator
      (marketdata/agg), TfBuilder (marketdata/tfbuilder): from ticks to
      candles.
    - Indicators, IndicatorEngine, IndicatorRecovery (internal/indicator).
    - RangeContext, SrContext, RangeBars, Nifty50SrState,
      Nifty50Sr (the strategy), Nifty50SrEntry, Nifty50SrExit,
      Nifty50SrTrading, Nifty50SrRuns (its proofs): internal/strategy.
    - CircuitBreaker, RateLimiter (with the pushed order updates), Oms (state
      machine, ledger, journal), Fill (broker rows and rupees), Positions
      (comparing with the broker): the parts of execution that stand alone.
    - Exec (state, environment, monad), Placement (one order attempt),
      ExecOps, Executor, Settlement, Signals (the operations): the executor,
      internal/orderexec; ExecFrame, ExecInvariant, ExecSafety, ExecAccounts
      are its proofs.
    - Portfolio (internal/portfolio), ExitPolicy (internal/exitpolicy).
    - ExitLevels, ExitScore, ExitTracker, ExitRunner, ExitWatch (the exit
      watch, internal/exitwatch), ExitReplay (its replay); ExitRuns,
      ExitWatchOk, ExitWatchTotal are their proofs.
    - TgSignal and TgRuns (the Telegram strategy,
      strategy/telegram_signal.go).  Regex (a matcher for the patterns, proved
      against its relation), TgParse, TgPrompt, TgDecide (reading a
      message), TgContexts (the calls' threads), LlmScheduler, LlmSchedulerOk
      (the queue of model reads), TgRouter, TgRouterOk (messages through their
      mailboxes), TgPublished (which calls they publish): internal/tgsignal.
    - StrategyEngine (strategy/engine.go); OptionMath (internal/optionmath),
      OptionPicker (internal/optionpicker).
    - SrView (strategy/sr_view.go): what the strategy shows of itself.
    - OptionModel (premiums), Backtest (the replay), BacktestStats (its
      figures), StrikeCompare (what other strikes would have made), and the
      proofs BacktestOk, BacktestTotal: internal/backtest.
    - PnlLedger: stratengine/pnl_ledger.go and pnlstore/store.go.
    - Analyst: internal/analyst.

    ** How code becomes definitions

    A Go int or int64 is a [Z], every sum, difference and product wrapped by
    [i64]; a float64 is the Standard Library's executable binary64, each
    operation rounded on its own; a string is a byte string.  A struct is a
    record, a map a [gmap], the order of ranging over a map any order
    ([MapOrder]).  A method is a function that returns the new state.  A
    panic is [None]; an [error] is a value of an option or sum.  A mutex held
    for a whole method makes the method one step.  Where a method releases
    its mutex, or waits, or calls out, the model has a point at which other
    goroutines may act: [begin]/[end] pairs in CircuitBreaker, the parts of
    [OnMinute] in ExitPolicy, and in the executor [env_other], an arbitrary
    change of the state that keeps the invariant and leaves alone the position
    whose lock is held.  A goroutine the executor starts is a task in its
    state.  The workers of LlmScheduler and StrategyEngine are step relations
    over the places a goroutine can stand; the handlers of TgRouter and the
    goroutines of FeedSocket are programs, trees of atomic actions, and a run
    interleaves them freely.  Clocks, environment variables, broker answers
    and the database's answers are arguments or streams with no assumption on
    their values except those a theorem states.

    Interfaces are classes: [Store] (an append-only journal with laws; the
    SQLite journal is an instance) under the ledger, [OrderLedger] under the
    executor, [Env] for the broker and the other collaborators, [Frame] and
    [Stable] for what executor operations leave alone, the indicator
    interfaces in Indicators, [TFStrategy] with its laws [TFStrategyLaws]
    between the strategy engine and the strategies, [backtestStrategy] with
    [backtestLaws] between the backtest and the strategy it replays (the SR
    strategy is an instance).  Unicode's tables, the
    local zone, Go's %q, the parsing of a logged reading and of a socket's text
    frames are classes without laws ([UnicodeTables], [LocalZone], [GoQuote],
    [ReadingJSON], [FrameJSON]): the theorems hold for any.

    ** What the theorems show

    - Execution: in every reachable state at most one side of an underlying
      is open, entries are locked to their contracts, legs stay on paper
      (ExecInvariant); a real BUY is recorded durably before it is sent, an
      exit of a real position is sent, for what its protective stop is found
      to have left, or put off while that stop may still rest, a retried exit
      never sells more than is held, paper never reaches the broker (ExecSafety); what an
      exit reports and what is left add up (ExecAccounts); one attempt places
      at most two requests, the second only when the first is known not to
      have reached the broker (Placement).
    - Order ledger: terminal states are final, each event changes exactly its
      order, an intent is granted once, and a ledger reopened on its journal
      is the ledger that crashed (Oms).
    - Market data: a packet decodes to the fields it was built from, and any
      bytes at all without a panic (FeedPacket); a socket reconnects
      one at a time, closes each connection once and stays closed once told to
      (FeedSocketOk); a group of sockets counts those that are up, accounts
      for every tick its read loops take, step by step, and redials sparingly
      (FeedGroup); no second is finalised
      twice and each candle summarises its ticks (Aggregator), timeframe candles summarise their bucket's candles
      and no expired bucket reopens (TfBuilder), the merged stream is in order
      (FeedMerger), the strategy's N-minute bars are the buckets of its
      minutes (RangeBars).
    - Indicators: a snapshot and a replay after a crash compute what no crash
      would have (IndicatorRecovery).
    - Strategy: over any run, restarts included, nothing panics, the signals
      of an instrument follow its position, every state is well typed, and a
      candle decides by the day's account as it was and within its limits
      (Nifty50SrRuns).
    - Money: rupees and paise round trip, stop prices lie on the tick grid
      (Fill); realized P&L is cash up to rounding, corrections act as if the
      fill had been right, the risk gate is exact (Portfolio).
    - Exit watch: an exit is final and asked for at most once while the
      position is open, a runner is held only above its lock (ExitRuns,
      ExitWatchOk); nothing panics while tick times do not go back
      (ExitWatchTotal).
    - Telegram: the strategy's signals follow its position, over restarts too,
      it buys only valid calls within their limits, and a stop only rises
      (TgRuns).  A decision has a call exactly when the readings allow it
      (TgDecide); the router publishes one only on the pattern's complete
      reading, at once, or on the sure model's where the pattern reads none,
      and it is tradeable (TgPublished); every model read is answered once and can always finish
      (LlmSchedulerOk); however messages, readings and reports interleave, no
      message is lost or ended twice (TgRouterOk).
    - The engine loses no signal silently (StrategyEngine); a pick is the
      best there is, the universe asks once, and searches end
      (OptionPicker).
    - Backtest: trades follow one another, each bought and sold at its
      contract's premium and left on its day or at the next day's open, none
      left open (BacktestOk); with the SR strategy it
      completes (BacktestTotal); the figures agree with the trades
      (BacktestStats), and a comparison of strikes accounts for every trade
      (StrikeCompare).
    - P&L ledger: the queued ledger refines booking each fill straight into
      its tables, and a restart reads back the open entries (PnlLedger).
    - Analyst: its levels are well formed, a breakout runs its course and is
      settled in twelve candles, and only breaks near their level are
      published (Analyst).
    - The breaker, the rate limiter, market hours, exit policy: their
      contracts, in their files.

    ** Bounds and fuel

    Loops are structural wherever the code's are (over a list, a slice of
    attempts, the days of a bounded search).  The loops with a counter take
    the code's own bound: the resend and confirmation loops their configured
    attempts, the search for the next trading day its number of days, with
    theorems that the bound is enough or a result when it is not.  Digits of
    a number are produced with the number's own size as fuel, and the round
    trips show it suffices.  Configurations are assumed sane where a theorem
    says so (periods positive and below 2^31), with the default shown to be.

    ** Not modelled

    Log lines; the text of an alert past its leading words; JSON encodings
    (what a snapshot carries is modelled, not its bytes); the monotonic clock;
    duplicate entries in a timeframe or indicator list, which share one object
    in the code; case mapping outside ASCII; fusing a product with a sum in
    one rounding (amd64 does not).  SHA-256, the hash in an intent's id, is a
    parameter.  Whole parts not modelled are listed in the manifest with the
    reason; mostly they are services around this core: dialling, HTTP handlers,
    Redis, SQLite and Telegram clients, dashboards, notifications, command-line
    tools.  Of the trading logic what is left is strike selection from the
    instrument master and the wiring of the strategy engine's service; of the
    backtest its queries and printed reports, of the analyst its
    configuration and Redis streams, of the P&L ledger the look-up of a fill's
    contract. *)
From stdpp Require Export base gmap strings list fin_maps.
From Stdlib Require Export ZArith Lia.
From Stdlib Require Import Sorted.

#[global] Open Scope Z_scope.

(** * 64-bit integers

    Go's [int64] and [int] (64-bit on the supported platforms) wrap around
    on overflow.  Values are [Z]; every arithmetic operation of the source
    is followed by [i64], the two's complement reading of the low 64 bits. *)

Definition min_i64 : Z := - 2 ^ 63.
Definition max_i64 : Z := 2 ^ 63 - 1.

Definition i64 (z : Z) : Z := (z + 2 ^ 63) mod 2 ^ 64 - 2 ^ 63.

Definition in_i64 (z : Z) : Prop := min_i64 <= z <= max_i64.

#[global] Instance in_i64_dec z : Decision (in_i64 z).
Proof. unfold in_i64. apply _. Defined.

Declare Scope go_scope.
Delimit Scope go_scope with go.
Notation "a +! b" := (i64 (a + b)) (at level 50, left associativity) : go_scope.
Notation "a -! b" := (i64 (a - b)) (at level 50, left associativity) : go_scope.
Notation "a *! b" := (i64 (a * b)) (at level 40, left associativity) : go_scope.
Notation "-! a" := (i64 (- a)) (at level 35, right associativity) : go_scope.
(** Go's [/] and [%] truncate towards zero; a zero divisor panics, so the
    definitions that divide by a variable guard it or return an option. *)
Notation "a /! b" := (i64 (Z.quot a b)) (at level 40, left associativity) : go_scope.
Notation "a %! b" := (Z.rem a b) (at level 40, left associativity) : go_scope.
#[global] Open Scope go_scope.

Ltac i64_unfold := unfold in_i64, min_i64, max_i64 in *.

Lemma i64_range z : in_i64 (i64 z).
Proof.
  i64_unfold. unfold i64.
  pose proof (Z.mod_pos_bound (z + 2 ^ 63) (2 ^ 64)). lia.
Qed.

Lemma i64_id z : in_i64 z -> i64 z = z.
Proof. i64_unfold. intros ?. unfold i64. rewrite Z.mod_small; lia. Qed.

Lemma i64_idemp z : i64 (i64 z) = i64 z.
Proof. apply i64_id, i64_range. Qed.

Lemma i64_add_l a b : i64 (i64 a + b) = i64 (a + b).
Proof.
  unfold i64. f_equal.
  replace ((a + 2 ^ 63) mod 2 ^ 64 - 2 ^ 63 + b + 2 ^ 63)
    with ((a + 2 ^ 63) mod 2 ^ 64 + b) by lia.
  rewrite Zplus_mod_idemp_l. f_equal. lia.
Qed.

Lemma i64_add_r a b : i64 (a + i64 b) = i64 (a + b).
Proof. rewrite Z.add_comm, i64_add_l. f_equal. lia. Qed.

(** Discharges a range side condition, or rewrites a wrapped value whose
    argument is provably in range. *)
Ltac i64_side := solve [assumption | i64_unfold; lia | i64_unfold; nia].
Ltac i64_simpl :=
  repeat match goal with
  | |- context [i64 ?z] => rewrite (i64_id z) by i64_side
  | H : context [i64 ?z] |- _ => rewrite (i64_id z) in H by i64_side
  end.
Ltac go_lia := i64_simpl; i64_unfold; lia.

(** * Time

    A [time.Time] is its number of nanoseconds since the Unix epoch (zones
    and monotonic readings are not part of it); the zero [Time] is
    0001-01-01 00:00:00 UTC.  A [time.Duration] is an [int64] of ns. *)

Abbreviation Time := Z (only parsing).
Abbreviation Duration := Z (only parsing).

Definition Nanosecond : Duration := 1.
Definition Millisecond : Duration := 1000000.
Definition Second : Duration := 1000000000.
Definition Minute : Duration := 60000000000.
Definition Hour : Duration := 3600000000000.

Definition zero_time : Time := -62135596800 * 1000000000.
Definition t_is_zero (t : Time) : bool := t =? zero_time.
Definition t_after (t u : Time) : bool := u <? t.
Definition t_before (t u : Time) : bool := t <? u.
(** [Time.Sub] saturates at the ends of the [Duration] range. *)
Definition t_sub (t u : Time) : Duration := Z.max min_i64 (Z.min max_i64 (t - u)).
Definition t_add (t : Time) (d : Duration) : Time := t + d.
Definition t_unix (t : Time) : Z := t / Second.
Definition t_unix_milli (t : Time) : Z := t / Millisecond.
Definition t_unix_nano (t : Time) : Z := i64 t.
Definition t_of_unix (sec : Z) : Time := sec * Second.
Definition d_milliseconds (d : Duration) : Z := Z.quot d Millisecond.

Lemma t_sub_exact t u : in_i64 (t - u) -> t_sub t u = t - u.
Proof. i64_unfold. unfold t_sub, min_i64, max_i64. lia. Qed.

Lemma t_sub_mono t t' u : t <= t' -> t_sub t u <= t_sub t' u.
Proof. unfold t_sub. lia. Qed.

Lemma t_sub_range t u : in_i64 (t_sub t u).
Proof. unfold t_sub. i64_unfold. lia. Qed.

Lemma t_unix_of_unix s : t_unix (t_of_unix s) = s.
Proof. unfold t_unix, t_of_unix. apply Z.div_mul. discriminate. Qed.

(** IST is UTC+5:30 with no daylight saving: wall-clock fields are those of
    the shifted instant. *)
Definition ist_offset : Duration := (5 * 3600 + 30 * 60) * Second.
Definition day_ns : Duration := 24 * Hour.
(** [time.Date(y, m, d, 0, 0, 0, 0, IST)] of the IST day holding [t]. *)
Definition ist_midnight (t : Time) : Time := (t + ist_offset) / day_ns * day_ns - ist_offset.

Lemma ist_midnight_le t : ist_midnight t <= t < ist_midnight t + day_ns.
Proof.
  unfold ist_midnight. assert (0 < day_ns) by (vm_compute; done).
  pose proof (Z.div_mod (t + ist_offset) day_ns).
  pose proof (Z.mod_pos_bound (t + ist_offset) day_ns). lia.
Qed.

(** * Map iteration

    Go leaves the order of [range] over a map unspecified: the model takes
    it as a parameter, any function that lists a map's bindings once each.
    Theorems about code that ranges over a map hold for every instance. *)

Class MapOrder := {
  range : ∀ {A : Type}, gmap string A → list (string * A);
  range_perm : ∀ {A : Type} (m : gmap string A), range m ≡ₚ map_to_list m;
}.

(** The order a concrete run can use. *)
Definition canonical_order : MapOrder :=
  {| range := fun A m => map_to_list m; range_perm := fun A m => Permutation_refl _ |}.

Section map_order.
Context `{MO : MapOrder} {A : Type}.
Implicit Types (m : gmap string A).

Lemma elem_of_range m k x : (k, x) ∈ range m ↔ m !! k = Some x.
Proof. rewrite (range_perm m). apply elem_of_map_to_list. Qed.

Lemma range_nodup_keys m : NoDup ((range m).*1).
Proof. rewrite (range_perm m). apply NoDup_fst_map_to_list. Qed.

Lemma range_empty : range (∅ : gmap string A) = [].
Proof. apply Permutation_nil. symmetry. rewrite (range_perm ∅). by rewrite map_to_list_empty. Qed.
End map_order.

(** * Sorting

    [sort.Slice] is not stable: equal elements end up in any order.  The model
    takes it as a parameter, any function that sorts by a key. *)

Class SliceSort := {
  slice_sort : ∀ {A : Type} (key : A → Z), list A → list A;
  slice_sort_perm : ∀ {A : Type} (key : A → Z) (l : list A), slice_sort key l ≡ₚ l;
  slice_sort_sorted : ∀ {A : Type} (key : A → Z) (l : list A), StronglySorted (λ x y, key x <= key y) (slice_sort key l);
}.

(** Insertion sort: a sort a concrete run can use. *)
Fixpoint sorted_insert {A} (key : A → Z) (x : A) (l : list A) : list A :=
  match l with
  | [] => [x]
  | y :: l' => if key x <=? key y then x :: l else y :: sorted_insert key x l'
  end.

Lemma sorted_insert_perm {A} (key : A → Z) x l : sorted_insert key x l ≡ₚ x :: l.
Proof. induction l as [|y l IH]; simpl; [done|]. destruct (_ <=? _); [done|]. rewrite IH. constructor. Qed.

Lemma sorted_insert_sorted {A} (key : A → Z) x l :
  StronglySorted (λ x y, key x <= key y) l → StronglySorted (λ x y, key x <= key y) (sorted_insert key x l).
Proof.
  induction 1 as [|y l Hl IH Hy]; simpl; [by repeat constructor|]. destruct (Z.leb_spec (key x) (key y)).
  - constructor; [by constructor|]. constructor; [done|]. eapply Forall_impl; [exact Hy|]. simpl. lia.
  - constructor; [done|]. rewrite sorted_insert_perm. constructor; [lia|done].
Qed.

Definition insertion_sort : SliceSort.
Proof.
  refine {| slice_sort := λ A key l, foldr (sorted_insert key) [] l |}.
  - intros A key l. induction l as [|x l IH]; simpl; [done|]. by rewrite sorted_insert_perm, IH.
  - intros A key l. induction l as [|x l IH]; simpl; [constructor|]. by apply sorted_insert_sorted.
Defined.

(** * Channels

    A buffered channel is its capacity and its queue; a non-blocking send
    ([select] with a [default]) either appends or does nothing. *)

Record chan (A : Type) := Chan { ch_cap : nat; ch_buf : list A }.
Arguments Chan {A}. Arguments ch_cap {A}. Arguments ch_buf {A}.

Definition try_send {A} (c : chan A) (x : A) : option (chan A) :=
  if decide (length (ch_buf c) < ch_cap c)%nat
  then Some (Chan (ch_cap c) (ch_buf c ++ [x])) else None.

Lemma try_send_spec {A} (c c' : chan A) x :
  try_send c x = Some c' → ch_cap c' = ch_cap c ∧ ch_buf c' = ch_buf c ++ [x].
Proof. unfold try_send. case_decide; naive_solver. Qed.

(** * Lists *)

Lemma filter_Forall {A} (P : A → Prop) `{∀ x, Decision (P x)} (l : list A) :
  Forall P l → filter P l = l.
Proof. induction 1; [done|]. rewrite filter_cons. case_decide; [by f_equal|done]. Qed.

Lemma foldr_max_snoc p l x : foldr Z.max p (l ++ [x]) = Z.max (foldr Z.max p l) x.
Proof. induction l as [|y l IH]; simpl; [lia|]. rewrite IH. lia. Qed.
Lemma foldr_min_snoc p l x : foldr Z.min p (l ++ [x]) = Z.min (foldr Z.min p l) x.
Proof. induction l as [|y l IH]; simpl; [lia|]. rewrite IH. lia. Qed.

(** Filing the elements of a list under their keys. *)
Lemma file_lookup {A} (f : A → string) (l : list A) (m : gmap string A) x :
  NoDup (f <$> l) → x ∈ l → foldl (λ m s, <[f s := s]> m) m l !! f x = Some x.
Proof.
  revert m. induction l as [|y l IH] using rev_ind; intros m Hn Hx; [by apply not_elem_of_nil in Hx|].
  rewrite foldl_app. simpl. rewrite fmap_app in Hn. apply NoDup_app in Hn as (Hn & Hdis & _).
  apply elem_of_app in Hx as [Hx|Hx%list_elem_of_singleton]; [|subst; apply lookup_insert_eq].
  rewrite lookup_insert_ne; [by apply IH|]. intros Heq. apply (Hdis (f y)); [|by apply list_elem_of_singleton].
  rewrite Heq. apply list_elem_of_fmap. by exists x.
Qed.

(** Putting a map's bindings, in any order, into another map. *)
Lemma foldl_insert_union {A} (l : list (string * A)) (m0 m : gmap string A) :
  l ≡ₚ map_to_list m → foldl (λ m0 '(k, x), <[k := x]> m0) m0 l = m ∪ m0.
Proof.
  revert m. induction l as [|[k x] l IH] using rev_ind; intros m Hl.
  - assert (m = ∅) as -> by (apply map_to_list_empty_iff, Permutation_nil; done). by rewrite (left_id_L ∅ (∪)).
  - rewrite foldl_app. simpl.
    assert (m !! k = Some x) as Hk.
    { apply elem_of_map_to_list. rewrite <-Hl. apply elem_of_app. right. by apply list_elem_of_singleton. }
    rewrite (IH (delete k m)).
    + rewrite insert_union_l. by rewrite insert_delete_id.
    + apply (Permutation_cons_inv (a := (k, x))). rewrite <-(map_to_list_delete m k x) in * by done.
      by rewrite Permutation_cons_append.
Qed.

(** * Record update

    [r <| f := v |>] is [r] with its field [f] set to [v].  A record type
    declares how it is rebuilt from its own fields ([Settable]); the setter of
    a field is derived from that. *)

Class Settable (R : Type) := rebuild : R → R.
Class Setter {R T : Type} (field : R → T) := update_field : (T → T) → R → R.
Arguments update_field {R T} field {_} / _ _.

Ltac derive_setter :=
  lazymatch goal with
  | |- @Setter ?R _ ?field =>
      let inst := constr:(_ : Settable R) in
      let build := eval hnf in inst in
      lazymatch eval pattern field in build with
      | ?abstracted _ => exact (fun change r => abstracted (fun _ => change (field r)) r)
      end
  end.
#[export] Hint Extern 1 (Setter _) => derive_setter : typeclass_instances.
Notation "r <| f := v |>" := (update_field f (λ _, v) r) (at level 12, left associativity).

(** * Automation *)

Create HintDb go discriminated.
Create Rewrite HintDb go.
#[export] Hint Resolve i64_range t_sub_range : go.
#[export] Hint Rewrite i64_idemp i64_add_l i64_add_r : go.

(** Closed comparisons, by evaluation. *)
Ltac z_compute := vm_compute; repeat split; solve [done | discriminate].

(** Case analysis on the matches and conditionals of an executable
    definition, with the boolean tests turned into propositions. *)
Ltac bool_prop :=
  repeat match goal with
  | H : andb _ _ = true |- _ => apply andb_true_iff in H as [? ?]
  | H : andb _ _ = false |- _ => apply andb_false_iff in H
  | H : orb _ _ = true |- _ => apply orb_true_iff in H
  | H : orb _ _ = false |- _ => apply orb_false_iff in H as [? ?]
  | H : negb _ = true |- _ => apply negb_true_iff in H
  | H : negb _ = false |- _ => apply negb_false_iff in H
  | H : (_ <? _) = true |- _ => apply Z.ltb_lt in H
  | H : (_ <? _) = false |- _ => apply Z.ltb_ge in H
  | H : (_ <=? _) = true |- _ => apply Z.leb_le in H
  | H : (_ <=? _) = false |- _ => apply Z.leb_gt in H
  | H : (_ =? _) = true |- _ => apply Z.eqb_eq in H
  | H : (_ =? _) = false |- _ => apply Z.eqb_neq in H
  | H : String.eqb _ _ = true |- _ => apply String.eqb_eq in H
  | H : String.eqb _ _ = false |- _ => apply String.eqb_neq in H
  | H : bool_decide _ = true |- _ => apply bool_decide_eq_true in H
  | H : bool_decide _ = false |- _ => apply bool_decide_eq_false in H
  end.

Ltac split_step :=
  match goal with
  | |- context [match ?x with _ => _ end] =>
      lazymatch x with context [match _ with _ => _ end] => fail | _ => destruct x eqn:? end
  end.
Ltac split_all := repeat (split_step; simpl in *; try congruence).

Ltac hyp_split_step H :=
  match type of H with
  | context [match ?x with _ => _ end] =>
      lazymatch x with context [match _ with _ => _ end] => fail | _ => destruct x eqn:? end
  end.
