(* ===== verification/Float64.v ===== *)
(** Go's [float64]: the Standard Library's executable IEEE 754 binary64
    (round to nearest, ties to even), with the conversions and the functions
    of package math the source uses.  Every operation is rounded on its own, as
    on amd64 (Go allows a product and a sum to be fused elsewhere). *)
From Stdlib Require Import SpecFloat.
From stdpp Require Import lexico.
From S2P Require Import Prelude.
#[local] Open Scope Z_scope.

Abbreviation float64 := spec_float (only parsing).

Definition f64_of_int (z : Z) : float64 := binary_normalize 53 1024 z 0 false.
Definition f64_add (a b : float64) : float64 := SFadd 53 1024 a b.
Definition f64_sub (a b : float64) : float64 := SFsub 53 1024 a b.
Definition f64_mul (a b : float64) : float64 := SFmul 53 1024 a b.
Definition f64_div (a b : float64) : float64 := SFdiv 53 1024 a b.
Definition f64_sqrt (a : float64) : float64 := SFsqrt 53 1024 a.
Definition f64_abs (a : float64) : float64 := SFabs a.
Definition f64_neg (a : float64) : float64 := SFopp a.
Definition f64_eqb (a b : float64) : bool := SFeqb a b.
Definition f64_ltb (a b : float64) : bool := SFltb a b.
Definition f64_leb (a b : float64) : bool := SFleb a b.
Definition f64_is_nan (a : float64) : bool := match a with S754_nan => true | _ => false end.
Definition f64_zero : float64 := S754_zero false.

#[global] Arguments f64_of_int : simpl never.
#[global] Arguments f64_add : simpl never.
#[global] Arguments f64_sub : simpl never.
#[global] Arguments f64_mul : simpl never.
#[global] Arguments f64_div : simpl never.
#[global] Arguments f64_sqrt : simpl never.
#[global] Arguments f64_ltb : simpl never.
#[global] Arguments f64_leb : simpl never.
#[global] Arguments f64_eqb : simpl never.

(** [math.Exp], [math.Log] and [math.Erfc], whose last bits differ between
    platforms, are parameters. *)
Class MathExp := math_exp : float64 → float64.
Class MathLog := math_log : float64 → float64.
Class MathErfc := math_erfc : float64 → float64.

Notation "x ⊕ y" := (f64_add x y) (at level 50, left associativity) : go_scope.
Notation "x ⊖ y" := (f64_sub x y) (at level 50, left associativity) : go_scope.
Notation "x ⊗ y" := (f64_mul x y) (at level 40, left associativity) : go_scope.
Notation "x ⊘ y" := (f64_div x y) (at level 40, left associativity) : go_scope.
Notation "x <. y" := (f64_ltb x y) (at level 70) : go_scope.
Notation "'#' z" := (f64_of_int z) (at level 8, format "'#' z") : go_scope.

(** The constant [n/d], for [n] and [d] below [2^53]. *)
Definition f64_frac (n d : Z) : float64 := f64_div (f64_of_int n) (f64_of_int d).

Definition signed (s : bool) (z : Z) : Z := if s then - z else z.

(** [math.Round]: to the nearest integer, halves away from zero. *)
Definition f64_round (f : float64) : float64 :=
  match f with
  | S754_finite s m e =>
      if 0 <=? e then f
      else
        let q := (2 * Zpos m + 2 ^ (- e)) / (2 * 2 ^ (- e)) in
        if q =? 0 then S754_zero s else f64_of_int (signed s q)
  | _ => f
  end.

(** [math.Max]. *)
Definition f64_max (a b : float64) : float64 :=
  match a, b with
  | S754_infinity false, _ | _, S754_infinity false => S754_infinity false
  | S754_nan, _ | _, S754_nan => S754_nan
  | S754_zero true, S754_zero _ => b
  | S754_zero false, S754_zero _ => a
  | _, _ => if f64_ltb b a then a else b
  end.

(** The integer part, towards zero; [None] for what is not finite. *)
Definition f64_trunc (f : float64) : option Z :=
  match f with
  | S754_zero _ => Some 0
  | S754_finite s m e => Some (signed s (if 0 <=? e then Zpos m * 2 ^ e else Zpos m / 2 ^ (- e)))
  | _ => None
  end.

(** [int64(f)].  Out of range the result is implementation-specific: here
    that of amd64, the smallest int64. *)
Definition f64_to_int (f : float64) : Z :=
  match f64_trunc f with
  | Some z => if bool_decide (in_i64 z) then z else min_i64
  | None => min_i64
  end.

Lemma f64_to_int_range f : in_i64 (f64_to_int f).
Proof.
  unfold f64_to_int. case_match; [case_bool_decide; [done|]|]; i64_unfold; lia.
Qed.
#[export] Hint Resolve f64_to_int_range : go.

Example f64_round_half : f64_to_int (f64_round (f64_frac (-5) 2)) = -3.
Proof. vm_compute. reflexivity. Qed.
Example f64_tenths : f64_eqb (f64_add (f64_frac 1 10) (f64_frac 2 10)) (f64_frac 3 10) = false.
Proof. vm_compute. reflexivity. Qed.

(** ** The order of floats

    Comparing two floats that are not NaN compares keys in a total order. *)

Definition f64_key (f : float64) : Z * (Z * Z) :=
  match f with
  | S754_zero _ => (0, (0, 0))
  | S754_infinity s => (signed s 2, (0, 0))
  | S754_nan => (3, (0, 0))
  | S754_finite s m e => (signed s 1, (signed s e, signed s (Zpos m)))
  end.

Lemma lexico3 (a b c x y z : Z) :
  lexico (a, (b, c)) (x, (y, z)) ↔ a < x ∨ a = x ∧ (b < y ∨ b = y ∧ c < z).
Proof. unfold lexico, prod_lexico. cbn. unfold lexico, prod_lexico, Z_lexico. cbn. tauto. Qed.

Lemma f64_compare_key f g :
  f64_is_nan f = false → f64_is_nan g = false →
  match SFcompare f g with
  | Some Lt => lexico (f64_key f) (f64_key g)
  | Some Eq => f64_key f = f64_key g
  | Some Gt => lexico (f64_key g) (f64_key f)
  | None => False
  end.
Proof.
  intros Hf Hg. destruct f as [[]|[]| |[] m e], g as [[]|[]| |[] n k]; try done; cbn [SFcompare f64_key signed].
  all: try (apply lexico3; lia).
  all: destruct (Z.compare_spec e k) as [->|Hek|Hek]; [|apply lexico3; lia..].
  all: change (Pos.compare_cont Eq m n) with (Pos.compare m n).
  all: destruct (Pos.compare_spec m n) as [->|Hmn|Hmn]; cbn [CompOpp]; [done|apply lexico3; lia..].
Qed.

Lemma f64_ltb_key f g : f64_is_nan f = false → f64_is_nan g = false → f64_ltb f g = true ↔ lexico (f64_key f) (f64_key g).
Proof.
  intros Hf Hg. assert (H := f64_compare_key f g Hf Hg). unfold f64_ltb, SFltb.
  destruct (SFcompare f g) as [[]|]; [|done| |done]; (split; [done|]); intros Hlt.
  - rewrite H in Hlt. by apply irreflexivity in Hlt; [|apply _].
  - exfalso. apply (irreflexivity lexico (f64_key f)). by etrans.
Qed.

Lemma f64_eqb_key f g : f64_is_nan f = false → f64_is_nan g = false → f64_eqb f g = true ↔ f64_key f = f64_key g.
Proof.
  intros Hf Hg. assert (H := f64_compare_key f g Hf Hg). unfold f64_eqb, SFeqb.
  destruct (SFcompare f g) as [[]|]; try done; (split; [done|]); intros Heq; rewrite Heq in H;
    by apply irreflexivity in H; [|apply _].
Qed.

Lemma f64_ltb_asym f g : f64_ltb f g = true → f64_ltb g f = false.
Proof.
  destruct (f64_is_nan f) eqn:Hf; [by destruct f|]. destruct (f64_is_nan g) eqn:Hg; [by destruct f, g|].
  intros H%f64_ltb_key; [|done..]. destruct (f64_ltb g f) eqn:H'; [|done]. apply f64_ltb_key in H'; [|done..].
  exfalso. apply (irreflexivity lexico (f64_key f)). by etrans.
Qed.
