(* ===== verification/GoText.v ===== *)
(** Text: the parts of Go's [strconv], [strings] and [fmt] the modelled code
    uses, with the round trips between numbers and their decimal text.
    Strings are byte strings; case mapping and spaces are the ASCII ones. *)
From stdpp Require Export pretty.
From Stdlib Require Export Ascii.
From S2P Require Import Prelude Float64.

(** ** Decimal numbers *)

(** [strconv.FormatInt(n, 10)] and [fmt]'s [%d]. *)
Definition format_int (n : Z) : string := pretty n.

(** Decimal digits of a fixed number, zero padded. *)
Fixpoint zero_pad (width : nat) (s : string) : string :=
  match width with O => s | S w => if (String.length s <=? w)%nat then String "0" (zero_pad w s) else s end.

(** [fmt]'s [%.nf]: the exact value rounded to [n] decimals, ties to even. *)
Definition format_fixed (n : nat) (f : float64) : string :=
  let decimals k := match n with O => "" | _ => "." +:+ zero_pad n (format_int k) end in
  match f with
  | SpecFloat.S754_nan => "NaN"
  | SpecFloat.S754_infinity neg => if neg then "-Inf" else "+Inf"
  | SpecFloat.S754_zero neg => (if neg then "-" else "") +:+ "0" +:+ decimals 0
  | SpecFloat.S754_finite neg m e =>
      let unit := 10 ^ Z.of_nat n in
      let num := unit * Zpos m * 2 ^ Z.max 0 e in
      let den := 2 ^ Z.max 0 (- e) in
      let q := num / den in
      let r := num mod den in
      let q := if (den <? 2 * r) || ((2 * r =? den) && Z.odd q) then q + 1 else q in
      (if neg then "-" else "") +:+ format_int (q / unit) +:+ decimals (q mod unit)
  end.

(** [Duration.String]: "1h2m3.5s"; below a second in ms, µs or ns. *)
Fixpoint trim_zeros (s : string) : string :=
  match s with
  | EmptyString => ""
  | String c s => let s := trim_zeros s in if String.eqb s "" && Ascii.eqb c "0" then "" else String c s
  end.

Definition with_fraction (prec : nat) (v : Z) (unit : string) : string :=
  let frac := trim_zeros (zero_pad prec (format_int (v mod 10 ^ Z.of_nat prec))) in
  format_int (v / 10 ^ Z.of_nat prec) +:+ (if String.eqb frac "" then "" else "." +:+ frac) +:+ unit.

Definition format_duration (d : Duration) : string :=
  let u := Z.abs d in
  (if d <? 0 then "-" else "") +:+
  (if u =? 0 then "0s"
   else if u <? 1000 then format_int u +:+ "ns"
   else if u <? Millisecond then with_fraction 3 u "µs"
   else if u <? Second then with_fraction 6 u "ms"
   else
     let m := u / Minute in let h := m / 60 in
     (if 0 <? h then format_int h +:+ "h" else "") +:+ (if 0 <? m then format_int (m mod 60) +:+ "m" else "") +:+
     with_fraction 9 (u mod Minute) "s").

(** [fmt]'s [%02d]: zero padding to two characters, the sign counted. *)
Definition format_02d (n : Z) : string :=
  if (0 <=? n) && (n <? 10) then "0" +:+ format_int n else format_int n.

(** [fmt]'s [%q], for text without characters that need escaping. *)
Definition format_q (s : string) : string :=
  String "034"%char s +:+ String "034"%char EmptyString.

Definition digit_of (c : ascii) : option N :=
  let n := N_of_ascii c in
  if ((48 <=? n) && (n <=? 57))%N then Some (n - 48)%N else None.

(** Digits only, with an accumulator; leading zeros are accepted. *)
Fixpoint parse_digits (acc : N) (s : string) : option N :=
  match s with
  | EmptyString => Some acc
  | String c s => d ← digit_of c; parse_digits (acc * 10 + d)%N s
  end.

Definition parse_nat (s : string) : option N :=
  match s with EmptyString => None | _ => parse_digits 0 s end.

(** An optional sign, then digits. *)
Definition parse_signed (s : string) : option Z :=
  match s with
  | String "-" s => n ← parse_nat s; Some (- Z.of_N n)
  | String "+" s => n ← parse_nat s; Some (Z.of_N n)
  | _ => n ← parse_nat s; Some (Z.of_N n)
  end.

(** [strconv.ParseInt(s, 10, 64)]; [None] is a syntax or range error. *)
Definition parse_int (s : string) : option Z :=
  z ← parse_signed s; if decide (in_i64 z) then Some z else None.

(** ** Searching and cutting *)

Fixpoint has_prefix (p s : string) : bool :=
  match p, s with
  | EmptyString, _ => true
  | String a p, String b s => Ascii.eqb a b && has_prefix p s
  | _, _ => false
  end.

(** [strings.HasSuffix]. *)
Fixpoint has_suffix (suffix s : string) : bool :=
  String.eqb s suffix || match s with EmptyString => false | String _ s => has_suffix suffix s end.

(** [strings.CutPrefix]. *)
Fixpoint cut_prefix (p s : string) : option string :=
  match p, s with
  | EmptyString, _ => Some s
  | String a p, String b s => if Ascii.eqb a b then cut_prefix p s else None
  | _, _ => None
  end.

(** [strings.Contains(s, sub)]. *)
Fixpoint contains (sub s : string) : bool :=
  has_prefix sub s || match s with EmptyString => false | String _ s => contains sub s end.

Definition contains_any (subs : list string) (s : string) : bool :=
  existsb (λ sub, contains sub s) subs.

(** [strings.Cut] at a one-byte separator: before, after, found. *)
Fixpoint cut_at (sep : ascii) (s : string) : string * string * bool :=
  match s with
  | EmptyString => ("", "", false)
  | String c s =>
      if Ascii.eqb c sep then ("", s, true)
      else let '(a, b, found) := cut_at sep s in (String c a, b, found)
  end.

(** [strings.TrimSuffix] for a one-byte suffix. *)
Fixpoint trim_suffix (sep : ascii) (s : string) : string :=
  match s with
  | EmptyString => ""
  | String c EmptyString => if Ascii.eqb c sep then "" else s
  | String c s' => String c (trim_suffix sep s')
  end.

Definition lower_char (c : ascii) : ascii :=
  let n := N_of_ascii c in
  if ((65 <=? n) && (n <=? 90))%N then ascii_of_N (n + 32)%N else c.

Fixpoint to_lower (s : string) : string :=
  match s with EmptyString => "" | String c s => String (lower_char c) (to_lower s) end.

Definition upper_char (c : ascii) : ascii :=
  let n := N_of_ascii c in
  if ((97 <=? n) && (n <=? 122))%N then ascii_of_N (n - 32)%N else c.

Fixpoint to_upper (s : string) : string :=
  match s with EmptyString => "" | String c s => String (upper_char c) (to_upper s) end.

(** [strings.EqualFold], for ASCII text. *)
Definition equal_fold (a b : string) : bool := String.eqb (to_lower a) (to_lower b).

(** [strings.Split] at a one-byte separator. *)
Fixpoint str_split (sep : ascii) (s : string) : list string :=
  match s with
  | EmptyString => [""]
  | String c s =>
      if Ascii.eqb c sep then "" :: str_split sep s
      else match str_split sep s with
           | w :: ws => String c w :: ws
           | [] => [String c ""]
           end
  end.

Definition is_space (c : ascii) : bool :=
  let n := N_of_ascii c in (n =? 32)%N || ((9 <=? n) && (n <=? 13))%N.

Fixpoint trim_left (s : string) : string :=
  match s with
  | EmptyString => ""
  | String c s' => if is_space c then trim_left s' else s
  end.

Definition all_space (s : string) : bool := String.eqb (trim_left s) "".

Fixpoint trim_right (s : string) : string :=
  match s with
  | EmptyString => ""
  | String c s' => if all_space s then "" else String c (trim_right s')
  end.

Definition trim_space (s : string) : string := trim_right (trim_left s).

(** [strings.Repeat], a prefix [s[:n]], and [strings.Join]. *)
Fixpoint str_repeat (s : string) (n : nat) : string :=
  match n with O => "" | S n => s +:+ str_repeat s n end.
Fixpoint str_take (n : nat) (s : string) : string :=
  match n, s with S n, String c s => String c (str_take n s) | _, _ => "" end.
Fixpoint str_join (sep : string) (l : list string) : string :=
  match l with
  | [] => ""
  | [s] => s
  | s :: l => s +:+ sep +:+ str_join sep l
  end.

(** Number of occurrences of a byte. *)
Fixpoint count_char (c : ascii) (s : string) : nat :=
  match s with
  | EmptyString => 0
  | String d s => (if Ascii.eqb c d then 1 else 0) + count_char c s
  end%nat.

(** ** Round trips *)

Lemma digit_of_pretty_char x : (x < 10)%N → digit_of (pretty_N_char x) = Some x.
Proof.
  intros ?.
  assert (x = 0 ∨ x = 1 ∨ x = 2 ∨ x = 3 ∨ x = 4 ∨ x = 5 ∨ x = 6 ∨ x = 7 ∨ x = 8 ∨ x = 9)%N by lia.
  by destruct_or?; subst.
Qed.

Lemma parse_pretty_go x s : parse_digits 0 (pretty_N_go x s) = parse_digits x s.
Proof.
  revert s. induction (N.lt_wf_0 x) as [x _ IH]; intros s.
  destruct (decide (x = 0)%N) as [->|]; [done|].
  rewrite pretty_N_go_step by lia. rewrite IH by (apply N.div_lt; lia).
  simpl. rewrite digit_of_pretty_char by (apply N.mod_lt; done). simpl. f_equal.
  pose proof (N.div_mod x 10). lia.
Qed.

Lemma pretty_N_go_not_nil x s : s ≠ "" → pretty_N_go x s ≠ "".
Proof.
  revert s. induction (N.lt_wf_0 x) as [x _ IH]; intros s Hs.
  destruct (decide (x = 0)%N) as [->|]; [done|].
  rewrite pretty_N_go_step by lia. apply IH; [apply N.div_lt; lia|done].
Qed.

Lemma parse_nat_pretty (x : N) : parse_nat (pretty x) = Some x.
Proof.
  unfold pretty, pretty_N. case_decide as Hx; [by subst|].
  assert (pretty_N_go x "" ≠ "") as Hne.
  { rewrite pretty_N_go_step by lia. by apply pretty_N_go_not_nil. }
  pose proof (parse_pretty_go x "") as Hp. simpl in Hp.
  unfold parse_nat. destruct (pretty_N_go x ""); done.
Qed.

(** A printed natural starts with a digit, so never with a sign. *)
Lemma pretty_N_go_head x c s :
  is_Some (digit_of c) → ∃ c' s', pretty_N_go x (String c s) = String c' s' ∧ is_Some (digit_of c').
Proof.
  revert c s. induction (N.lt_wf_0 x) as [x _ IH]; intros c s Hc.
  destruct (decide (x = 0)%N) as [->|]; [eauto|].
  rewrite pretty_N_go_step by lia. apply IH; [apply N.div_lt; lia|].
  rewrite digit_of_pretty_char by (apply N.mod_lt; done). eauto.
Qed.

Lemma pretty_N_head (x : N) : ∃ c s, pretty x = String c s ∧ is_Some (digit_of c).
Proof.
  unfold pretty, pretty_N. case_decide as Hx; [eexists _, _; split; [done|eexists; done]|].
  rewrite pretty_N_go_step by lia. apply pretty_N_go_head.
  rewrite digit_of_pretty_char by (apply N.mod_lt; done). eauto.
Qed.

Lemma parse_signed_pretty (x : N) : parse_signed (pretty x) = Some (Z.of_N x).
Proof.
  pose proof (parse_nat_pretty x) as Hp.
  destruct (pretty_N_head x) as (c & s' & Heq & Hc). rewrite Heq in *.
  assert (c ≠ "-"%char ∧ c ≠ "+"%char) as [Hm Hpl].
  { split; intros ->; vm_compute in Hc; by destruct Hc. }
  unfold parse_signed. destruct c as [[] [] [] [] [] [] [] []]; try done; rewrite Hp; done.
Qed.

Lemma parse_signed_neg s : parse_signed ("-" +:+ s) = (n ← parse_nat s; Some (- Z.of_N n)).
Proof. done. Qed.

(** Every [int64] survives printing and parsing. *)
Lemma parse_format_int n : in_i64 n → parse_int (format_int n) = Some n.
Proof.
  intros Hn. unfold parse_int, format_int.
  destruct n as [|p|p].
  - done.
  - change (pretty (Z.pos p)) with (pretty (N.pos p)).
    rewrite parse_signed_pretty. simpl. by rewrite decide_True.
  - change (pretty (Z.neg p)) with ("-" +:+ pretty (N.pos p)).
    rewrite parse_signed_neg, parse_nat_pretty. simpl. by rewrite decide_True.
Qed.

Lemma str_app_nil s : s +:+ "" = s.
Proof. induction s as [|c s IH]; [done|]. by rewrite <-IH at 2. Qed.

Lemma count_char_app c a b : count_char c (a +:+ b) = (count_char c a + count_char c b)%nat.
Proof. induction a as [|d a IH]; [done|]. simpl in *. rewrite IH. lia. Qed.

(** ** Text made of digits *)

Definition is_digit (c : ascii) : bool := match digit_of c with Some _ => true | None => false end.
Fixpoint str_all (P : ascii → bool) (s : string) : bool :=
  match s with EmptyString => true | String c s => P c && str_all P s end.

Lemma str_all_app P a b : str_all P (a +:+ b) = str_all P a && str_all P b.
Proof. induction a as [|c a IH]; [done|]. simpl in *. by rewrite IH, andb_assoc. Qed.

Lemma parse_digits_all acc s n : parse_digits acc s = Some n → str_all is_digit s = true.
Proof.
  revert acc. induction s as [|c s IH]; intros acc; [done|]. simpl. unfold is_digit at 1.
  destruct (digit_of c); simpl; [apply IH|done].
Qed.

Lemma format_int_digits n : 0 <= n → str_all is_digit (format_int n) = true ∧ format_int n ≠ "".
Proof.
  intros Hn. unfold format_int. destruct n as [|p|p]; [done| |lia].
  change (pretty (Z.pos p)) with (pretty (N.pos p)). pose proof (parse_nat_pretty (N.pos p)) as Hp.
  destruct (pretty (N.pos p)) as [|c s]; [done|]. split; [|done]. by eapply parse_digits_all.
Qed.

Lemma str_all_impl (P Q : ascii → bool) s :
  (∀ c, P c = true → Q c = true) → str_all P s = true → str_all Q s = true.
Proof.
  intros HPQ. induction s as [|c s IH]; [done|]. simpl. rewrite !andb_true_iff. intros [? ?]. auto.
Qed.

Lemma count_char_none c s : str_all (λ d, negb (Ascii.eqb c d)) s = true → count_char c s = 0%nat.
Proof.
  induction s as [|d s IH]; [done|]. simpl. rewrite andb_true_iff, negb_true_iff. intros [-> ?].
  by rewrite IH.
Qed.

Lemma is_digit_range c : is_digit c = true → (48 <= N_of_ascii c <= 57)%N.
Proof.
  unfold is_digit, digit_of. destruct (_ && _)%N eqn:E; [|done]. intros _.
  apply andb_true_iff in E as [?%N.leb_le ?%N.leb_le]. lia.
Qed.

Lemma digits_count_char c s : is_digit c = false → str_all is_digit s = true → count_char c s = 0%nat.
Proof.
  intros Hc Hs. apply count_char_none. eapply str_all_impl; [|exact Hs]. intros d Hd.
  apply negb_true_iff, Ascii.eqb_neq. congruence.
Qed.

Lemma trim_left_id s : str_all (λ c, negb (is_space c)) s = true → trim_left s = s.
Proof. destruct s as [|c s]; [done|]. simpl. rewrite andb_true_iff, negb_true_iff. by intros [-> _]. Qed.

Lemma trim_space_id s : str_all (λ c, negb (is_space c)) s = true → trim_space s = s.
Proof.
  intros Hs. unfold trim_space. rewrite trim_left_id by done.
  induction s as [|c s IH]; [done|]. cbn [trim_right]. unfold all_space. rewrite trim_left_id by done.
  simpl in *. apply andb_true_iff in Hs as [_ Hs]. by rewrite IH.
Qed.

Lemma digit_not_space c : is_digit c = true → is_space c = false.
Proof.
  intros Hc%is_digit_range. unfold is_space.
  apply orb_false_iff. split; [apply N.eqb_neq; lia|]. apply andb_false_iff. right. apply N.leb_gt. lia.
Qed.

Lemma cut_at_app sep a b :
  count_char sep a = 0%nat → cut_at sep (a +:+ String sep b) = (a, b, true).
Proof.
  induction a as [|c a IH]; simpl.
  - intros _. by rewrite Ascii.eqb_refl.
  - intros Hc. rewrite Ascii.eqb_sym. destruct (Ascii.eqb sep c); [lia|]. by rewrite IH by lia.
Qed.

Lemma cut_at_join sep s a b : cut_at sep s = (a, b, true) → s = a +:+ String sep b.
Proof.
  revert a b. induction s as [|c s IH]; intros a b; simpl; [done|].
  destruct (Ascii.eqb_spec c sep) as [->|]; [by intros [= <- <-]|].
  destruct (cut_at sep s) as [[a' b'] f]. intros [= <- <- ->]. by rewrite (IH a' b' eq_refl).
Qed.

(** Two-digit numbers, by cases. *)
Lemma format_02d_spec n : 0 <= n < 100 →
  String.length (format_02d n) = 2%nat ∧ parse_int (format_02d n) = Some n ∧
  str_all is_digit (format_02d n) = true.
Proof.
  intros Hn. assert (Forall (λ n, String.length (format_02d n) = 2%nat ∧ parse_int (format_02d n) = Some n ∧
    str_all is_digit (format_02d n) = true) (seqZ 0 100)) as Hall.
  { apply (bool_decide_unpack _). vm_compute. exact I. }
  rewrite Forall_forall in Hall. apply Hall. apply elem_of_seqZ. lia.
Qed.

Example format_duration_90m : format_duration (90 * Minute + 1500 * Millisecond) = "1h30m1.5s".
Proof. vm_compute. reflexivity. Qed.
Example format_duration_us : format_duration (-1500) = "-1.5µs".
Proof. vm_compute. reflexivity. Qed.
