(* ===== verification/Model.v ===== *)
(** Domain model (internal/model): ticks, candles, timeframe buckets,
    signals and positions.  Records have the fields of the Go structs the
    modelled code reads or writes, under the source's names with a prefix
    per struct.  Prices are paise. *)
From S2P Require Import Prelude Float64 GoText.
#[local] Open Scope Z_scope.
#[local] Open Scope go_scope.

(** ** Itoa (conv.go) *)

(** The digit loop [for n > 0] writes into a 20-byte buffer from its end:
    [fuel] is the number of free bytes. *)
Fixpoint itoa_digits (fuel : nat) (n : Z) (acc : string) : string :=
  match fuel with
  | O => acc
  | S fuel =>
      if 0 <? n then itoa_digits fuel (n /! 10) (String (pretty_N_char (Z.to_N (n %! 10))) acc)
      else acc
  end.

Definition Itoa (n : Z) : string :=
  if n =? 0 then "0"
  else
    let neg := n <? 0 in
    let n := if neg then -! n else n in
    let digits := itoa_digits 20 n "" in
    if neg then "-" +:+ digits else digits.

(** ** Tick (tick.go) *)

Record Tick := {
  tick_Token : string;
  tick_Exchange : string;
  tick_Price : Z;
  tick_Qty : Z;
  tick_DayVolume : Z;
  tick_TickTS : Time;
  tick_EventTS : Time;
  tick_BestBid : Z;
  tick_BestAsk : Z;
  tick_OI : Z;
  tick_QuoteTS : Time;
}.

Definition CanonicalTS (t : Tick) : Time :=
  if negb (t_is_zero (tick_EventTS t)) then tick_EventTS t else tick_TickTS t.

(** "exchange:token", the key every component uses for an instrument. *)
Definition instrument_key (exchange token : string) : string := exchange +:+ ":" +:+ token.

(** ** Position contexts (poscontext.go) *)

Record PositionContext := {
  pc_Strategy : string; pc_Side : string; pc_IndexToken : string; pc_IndexEntry : Z; pc_TargetLevel : Z; pc_StopLevel : Z;
  pc_FNOToken : string; pc_FNOEntryPrice : Z; pc_EntryTS : Time }.

Definition PositionContext_Key (p : PositionContext) : string := pc_Strategy p +:+ "|" +:+ pc_Side p +:+ "|" +:+ pc_FNOToken p.

(** ** Exit requests (exitrequest.go) *)

Record ExitRequest := {
  er_Strategy : string; er_Side : string; er_IndexToken : string; er_FNOToken : string; er_Reason : string; er_TS : Time }.

Definition RealOrderStrategy : string := "NIFTY50_FNO".

(** ** Candle (candle.go) and TFCandle (tfcandle.go) *)

Record Candle := {
  c_Token : string;
  c_Exchange : string;
  c_TS : Time;
  c_Open : Z; c_High : Z; c_Low : Z; c_Close : Z;
  c_Volume : Z;
  c_TicksCount : Z;
}.

Definition Candle_Key (c : Candle) : string := instrument_key (c_Exchange c) (c_Token c).

(** [StreamID], which the stream reader sets for the consumers' checkpoints
    and nothing here reads, is left out. *)
Record TFCandle := {
  tfc_Token : string;
  tfc_Exchange : string;
  tfc_TF : Z;
  tfc_TS : Time;
  tfc_Open : Z; tfc_High : Z; tfc_Low : Z; tfc_Close : Z;
  tfc_Volume : Z;
  tfc_Count : Z;
  tfc_Forming : bool;
}.

Definition TFCandle_Key (c : TFCandle) : string := instrument_key (tfc_Exchange c) (tfc_Token c).

Definition TFCandle_StreamKey (c : TFCandle) : string :=
  "candle:" +:+ Itoa (tfc_TF c) +:+ "s:" +:+ tfc_Exchange c +:+ ":" +:+ tfc_Token c.

Record IndicatorResult := {
  ir_Name : string; ir_Token : string; ir_Exchange : string; ir_TF : Z; ir_Value : float64; ir_TS : Time;
  ir_Ready : bool; ir_Live : bool;
}.

Definition IndicatorResult_StreamKey (r : IndicatorResult) : string :=
  "ind:" +:+ ir_Name r +:+ ":" +:+ Itoa (ir_TF r) +:+ "s:" +:+ ir_Exchange r +:+ ":" +:+ ir_Token r.

(** The price part of a candle is consistent: the low is at most, and the
    high at least, every other price. *)
Definition ohlc_ok (o h l c : Z) : Prop := l <= o <= h ∧ l <= c <= h.

(** ** Timeframe buckets (tfbucket.go) *)

Definition sessionOpenOfDay : Z := 3 * 3600 + 45 * 60.

Definition sessionAlignedTFs (tf : Z) : bool := (tf =? 600) || (tf =? 1800) || (tf =? 3600).

Definition TFBucket (ts tf : Z) : Z :=
  if tf <=? 0 then ts
  else if sessionAlignedTFs tf then
    let off := sessionOpenOfDay %! tf in
    ts -! ((((ts -! off) %! tf) +! tf) %! tf)
  else ts -! (ts %! tf).

Definition TFOffset (tf : Z) : Z :=
  if (0 <? tf) && sessionAlignedTFs tf then sessionOpenOfDay %! tf else 0.

(** ** Signals (signal.go) *)

Definition Action := string.
Definition ActionBuy : Action := "BUY".
Definition ActionSell : Action := "SELL".
Definition ActionExit : Action := "EXIT".
Definition ActionWatchBuy : Action := "WATCH_BUY".

Definition PositionSide := string.
Definition SideNone : PositionSide := "NONE".
Definition SideCall : PositionSide := "CALL".
Definition SidePut : PositionSide := "PUT".

Record LegSpec := {
  leg_Leg : string;
  leg_Strike : Z;
  leg_OptionType : string;
  leg_Short : bool;
  leg_Token : string;
  leg_Symbol : string;
}.

Definition LegSpec_Side (l : LegSpec) : PositionSide :=
  if String.eqb (leg_OptionType l) "PE" then SidePut else SideCall.

Record Signal := {
  sig_StrategyName : string;
  sig_Action : Action;
  sig_Side : PositionSide;
  sig_ReverseTo : PositionSide;
  sig_Token : string;
  sig_Exchange : string;
  sig_Qty : Z;
  sig_Price : Z;
  sig_EntryFNOPrice : Z;
  sig_MarketState : string;
  sig_Reason : string;
  sig_Warnings : list string;
  sig_Legs : list LegSpec;
  sig_Leg : string;
  sig_FNOToken : string;
  sig_FNOSymbol : string;
  sig_Strike : Z;
  sig_Short : bool;
  sig_Pick : string;
  sig_PickAlt : string;
  sig_TargetMove : Z;
  sig_SameDayExpiry : bool;
  sig_SignalTS : Time;
}.

#[export] Instance Signal_settable : Settable Signal := λ s, {|
  sig_StrategyName := sig_StrategyName s; sig_Action := sig_Action s; sig_Side := sig_Side s; sig_ReverseTo := sig_ReverseTo s;
  sig_Token := sig_Token s; sig_Exchange := sig_Exchange s; sig_Qty := sig_Qty s; sig_Price := sig_Price s;
  sig_EntryFNOPrice := sig_EntryFNOPrice s; sig_MarketState := sig_MarketState s; sig_Reason := sig_Reason s;
  sig_Warnings := sig_Warnings s; sig_Legs := sig_Legs s; sig_Leg := sig_Leg s; sig_FNOToken := sig_FNOToken s;
  sig_FNOSymbol := sig_FNOSymbol s; sig_Strike := sig_Strike s; sig_Short := sig_Short s; sig_Pick := sig_Pick s;
  sig_PickAlt := sig_PickAlt s; sig_TargetMove := sig_TargetMove s; sig_SameDayExpiry := sig_SameDayExpiry s;
  sig_SignalTS := sig_SignalTS s |}.

Definition zero_Signal : Signal := {|
  sig_StrategyName := ""; sig_Action := ""; sig_Side := ""; sig_ReverseTo := ""; sig_Token := ""; sig_Exchange := "";
  sig_Qty := 0; sig_Price := 0; sig_EntryFNOPrice := 0; sig_MarketState := ""; sig_Reason := ""; sig_Warnings := [];
  sig_Legs := []; sig_Leg := ""; sig_FNOToken := ""; sig_FNOSymbol := ""; sig_Strike := 0; sig_Short := false; sig_Pick := "";
  sig_PickAlt := ""; sig_TargetMove := 0; sig_SameDayExpiry := false; sig_SignalTS := zero_time |}.

(** A hand edit of an open trade's levels (internal/strategy/sr_levels.go):
    positive sets, negative clears, zero leaves. *)
Record LevelEdit := { le_IndexStop : Z; le_IndexTarget : Z; le_IndexTrail : Z; le_FNOSL : Z; le_FNOTarget : Z }.

(** ** Position (position.go) *)

Record Position := {
  pos_Token : string;
  pos_Exchange : string;
  pos_Qty : Z;
  pos_AvgPrice : Z;
  pos_LastPrice : Z;
  pos_RealizedPnL : Z;
}.

Definition UnrealizedPnL (p : Position) : Z :=
  (pos_LastPrice p -! pos_AvgPrice p) *! pos_Qty p.

(** ** Itoa prints like the standard library *)

Lemma itoa_digits_spec (x : N) fuel acc :
  (x < 10 ^ N.of_nat fuel)%N → Z.of_N x <= max_i64 →
  itoa_digits fuel (Z.of_N x) acc = pretty_N_go x acc.
Proof.
  revert x acc. induction fuel as [|fuel IH]; intros x acc Hx Hm.
  - assert (x = 0)%N as -> by (simpl in Hx; lia). done.
  - simpl. case_match eqn:Hpos; bool_prop.
    + rewrite pretty_N_go_step by lia.
      replace (Z.quot (Z.of_N x) 10) with (Z.of_N (x / 10)%N)
        by (rewrite N2Z.inj_div, Z.quot_div_nonneg; lia).
      replace (Z.rem (Z.of_N x) 10) with (Z.of_N (x mod 10)%N)
        by (rewrite N2Z.inj_mod, Z.rem_mod_nonneg; lia).
      assert (0 <= Z.of_N (x / 10)%N <= Z.of_N x).
      { rewrite N2Z.inj_div. split; [apply Z.div_pos; lia|]. apply Z.div_le_upper_bound; lia. }
      rewrite i64_id by (i64_unfold; lia). rewrite N2Z.id.
      apply IH; [|lia].
      apply N.Div0.div_lt_upper_bound.
      rewrite <-N.pow_succ_r'. by rewrite <-Nat2N.inj_succ.
    + assert (x = 0)%N as -> by lia. done.
Qed.

Lemma itoa_20 (p : positive) :
  Z.pos p <= max_i64 → itoa_digits 20 (Z.pos p) "" = pretty (Z.pos p).
Proof.
  intros Hp. change (Z.pos p) with (Z.of_N (N.pos p)) at 1. rewrite itoa_digits_spec.
  - done.
  - change (10 ^ N.of_nat 20)%N with 100000000000000000000%N. i64_unfold. lia.
  - i64_unfold. lia.
Qed.

(** [Itoa] prints every [int] as [strconv.Itoa] does, except the
    smallest one, whose negation overflows: it prints as a bare "-". *)
Theorem Itoa_correct n :
  in_i64 n → Itoa n = if decide (n = min_i64) then "-" else format_int n.
Proof.
  intros Hn. case_decide as Hmin; [by subst; vm_compute|].
  unfold Itoa, format_int. destruct n as [|p|p]; [done| |].
  - change (Z.pos p =? 0) with false. change (Z.pos p <? 0) with false. cbv iota zeta.
    apply itoa_20. unfold in_i64 in Hn. lia.
  - change (Z.neg p =? 0) with false. change (Z.neg p <? 0) with true. cbv iota zeta.
    rewrite i64_id by (i64_unfold; lia). change (- Z.neg p) with (Z.pos p).
    rewrite itoa_20 by (i64_unfold; lia). done.
Qed.

Lemma Itoa_correct_witness : Itoa (-1800) = "-1800" ∧ Itoa min_i64 = "-".
Proof.
  split.
  - rewrite (Itoa_correct (-1800)); [reflexivity|]. z_compute.
  - rewrite (Itoa_correct min_i64); [reflexivity|]. z_compute.
Defined.

(** ** Buckets are aligned intervals *)

(** The instants for which no intermediate of [TFBucket] overflows. *)
Definition ts_ok (ts : Z) : Prop := 0 <= ts <= 2 ^ 62.
Definition tf_ok (tf : Z) : Prop := 0 < tf <= 2 ^ 31.

Lemma aligned_offset tf : sessionAlignedTFs tf = true → 0 <= sessionOpenOfDay %! tf < tf.
Proof. unfold sessionAlignedTFs. intros. repeat (bool_prop; destruct_or?); subst; z_compute. Qed.

(** [TFBucket] in unbounded arithmetic: the last point of the grid
    [TFOffset tf + k * tf] at or before [ts]. *)
Lemma TFBucket_floor ts tf :
  ts_ok ts → tf_ok tf → TFBucket ts tf = ts - (ts - TFOffset tf) mod tf.
Proof.
  unfold ts_ok, tf_ok. intros Hts Htf. unfold TFBucket, TFOffset.
  rewrite (proj2 (Z.leb_gt tf 0)), (proj2 (Z.ltb_lt 0 tf)) by lia. simpl.
  destruct (sessionAlignedTFs tf) eqn:Ha.
  - pose proof (aligned_offset tf Ha). set (off := sessionOpenOfDay %! tf) in *.
    rewrite (i64_id (ts - off)) by (i64_unfold; lia).
    assert (- tf < Z.rem (ts - off) tf < tf) by (pose proof (Z.rem_bound_abs (ts - off) tf); lia).
    rewrite (i64_id (_ + tf)) by (i64_unfold; lia).
    rewrite (Z.rem_mod_nonneg (_ + tf)) by lia.
    replace ((Z.rem (ts - off) tf + tf) mod tf) with ((ts - off) mod tf).
    + pose proof (Z.mod_pos_bound (ts - off) tf). apply i64_id. i64_unfold. lia.
    + rewrite (Z.quot_rem' (ts - off) tf) at 1.
      replace (Z.rem (ts - off) tf + tf) with (Z.rem (ts - off) tf + 1 * tf) by lia.
      rewrite Z.mod_add by lia. rewrite Z.add_comm, Z.mul_comm. by rewrite Z.mod_add by lia.
  - rewrite Z.rem_mod_nonneg by lia. rewrite Z.sub_0_r.
    pose proof (Z.mod_pos_bound ts tf). apply i64_id. i64_unfold. lia.
Qed.

(** A bucket of a timeframe holds its instant, is as long as the
    timeframe and starts on the timeframe's grid (09:15-aligned for 10m,
    30m and 1h, clock-aligned otherwise); the bucket of a bucket's start is
    the same bucket, and buckets are ordered like their instants. *)
Theorem TFBucket_grid ts ts' tf :
  ts_ok ts → ts_ok ts' → tf_ok tf → ts <= ts' →
  TFBucket ts tf <= ts < TFBucket ts tf + tf ∧
  (TFBucket ts tf - TFOffset tf) mod tf = 0 ∧
  (ts_ok (TFBucket ts tf) → TFBucket (TFBucket ts tf) tf = TFBucket ts tf) ∧
  TFBucket ts tf <= TFBucket ts' tf.
Proof.
  intros Hts Hts' Htf Hle. assert (0 < tf) as Hpos by (unfold tf_ok in Htf; lia).
  assert (∀ u, (u - (u - TFOffset tf) mod tf - TFOffset tf) mod tf = 0) as Hgrid.
  { intros u. replace (u - (u - TFOffset tf) mod tf - TFOffset tf)
      with ((u - TFOffset tf) / tf * tf)
      by (pose proof (Z.div_mod (u - TFOffset tf) tf); lia).
    apply Z.mod_mul. lia. }
  pose proof (Z.mod_pos_bound (ts - TFOffset tf) tf) as H1.
  pose proof (Z.mod_pos_bound (ts' - TFOffset tf) tf) as H2.
  rewrite !(TFBucket_floor ts), !(TFBucket_floor ts') by done.
  split; [lia|]. split; [apply Hgrid|]. split.
  - intros Hb. rewrite TFBucket_floor by done. rewrite Hgrid. lia.
  - pose proof (Z.div_mod (ts - TFOffset tf) tf). pose proof (Z.div_mod (ts' - TFOffset tf) tf).
    assert ((ts - TFOffset tf) / tf <= (ts' - TFOffset tf) / tf) by (apply Z.div_le_mono; lia).
    nia.
Qed.

Lemma TFBucket_grid_witness : TFBucket 1735703999 1800 = 1735703100 ∧ TFBucket 1735703100 1800 = 1735703100.
Proof.
  destruct (TFBucket_grid 1735703999 1735704000 1800) as (H1 & H2 & H3 & H4);
    [z_compute|z_compute|z_compute|lia|].
  assert (TFBucket 1735703999 1800 = 1735703100) as E by reflexivity.
  rewrite E in H3. split; [done|]. apply H3. z_compute.
Defined.
