(* ===== verification/MarketHours.v ===== *)
(** Market hours (internal/markethours).  An instant's IST calendar day is
    its number of days since 1970-01-01 IST; the holiday set the process
    loaded ([holidaySet], keyed by date text in the code) is the set of
    those day numbers. *)
From S2P Require Import Prelude.
#[local] Open Scope Z_scope.

Definition OpenHour : Z := 9.
Definition OpenMinute : Z := 15.
Definition CloseHour : Z := 15.
Definition CloseMinute : Z := 30.
Definition PreOpenMinutesBefore : Z := 5.
Definition WSConnectMinutesBefore : Z := 1.

(** IST fields of an instant. *)
Definition ist_day (t : Time) : Z := (t + ist_offset) / day_ns.
Definition ist_of_day (t : Time) : Duration := (t + ist_offset) mod day_ns.
(** [time.Weekday]: Sunday is 0; 1970-01-01 was a Thursday. *)
Definition Weekday (t : Time) : Z := (ist_day t + 4) mod 7.
Definition minute_of_day (t : Time) : Z := ist_of_day t / Minute.
(** [time.Date(year, month, day, h, m, 0, 0, IST)] of a day number. *)
Definition ist_date (day h m : Z) : Time := day * day_ns - ist_offset + h * Hour + m * Minute.

(** A holiday list entry: its day and its name. *)
Record HolidayEntry := { he_Day : Z; he_Name : string }.

(** [applyHolidays] replaces the set. *)
Definition applyHolidays (hs : list HolidayEntry) : gmap Z string :=
  foldl (λ newSet h, <[he_Day h := he_Name h]> newSet) ∅ hs.

(** ** Loading the holidays *)

(** The civil year of a day number (proleptic Gregorian calendar). *)
Definition year_of_day (day : Z) : Z :=
  let z := day + 719468 in
  let era := z / 146097 in
  let doe := z mod 146097 in
  let yoe := (doe - doe / 1460 + doe / 36524 - doe / 146096) / 365 in
  let doy := doe - (365 * yoe + yoe / 4 - yoe / 100) in
  let mp := (5 * doy + 2) / 153 in
  yoe + era * 400 + (if mp <? 10 then 0 else 1).

(** The cache file: its fetch time is what [time.Parse] makes of
    [FetchedAt] ([None]: empty or malformed). *)
Record HolidayCache := {
  hc_Year : Z;
  hc_FetchedAt : option Time;
  hc_Holidays : list HolidayEntry;
}.

Definition isCacheFresh (fetchedAt : option Time) (now : Time) : bool :=
  match fetchedAt with
  | None => false
  | Some t =>
      let recent8AM := ist_date (ist_day now) 8 0 in
      let recent8AM := if t_before now recent8AM then recent8AM - day_ns else recent8AM in
      t_after t recent8AM
  end.

Definition non_empty {A} (l : list A) : bool := match l with [] => false | _ => true end.

(** What one load does: the list it applies and the list it saves. *)
Record HolidayLoad := { hl_applied : option (list HolidayEntry); hl_saved : option (list HolidayEntry) }.

(** [InitHolidays]: [err] and [cache] are what [LoadHolidayCache] returned,
    [fetched] what [FetchNSEHolidays] returns ([None]: an error). *)
Definition InitHolidays (now : Time) (err : bool) (cache : HolidayCache)
    (fetched : option (list HolidayEntry)) : HolidayLoad :=
  let currentYear := year_of_day (ist_day now) in
  let fresh := isCacheFresh (hc_FetchedAt cache) now in
  if negb err && (hc_Year cache =? currentYear) && non_empty (hc_Holidays cache) && fresh
  then {| hl_applied := Some (hc_Holidays cache); hl_saved := None |}
  else
    let stale :=
      if negb err && non_empty (hc_Holidays cache)
      then {| hl_applied := Some (hc_Holidays cache); hl_saved := None |}
      else {| hl_applied := None; hl_saved := None |} in
    match fetched with
    | Some hs => if non_empty hs then {| hl_applied := Some hs; hl_saved := Some hs |} else stale
    | None => stale
    end.

(** One tick of [StartBackgroundRefresher]: the two attempts in order. *)
Definition refresh_tick (now : Time) (err : bool) (cache : HolidayCache)
    (fetched1 fetched2 : option (list HolidayEntry)) : HolidayLoad :=
  let attempt (fetched : option (list HolidayEntry)) (prev : HolidayLoad) : HolidayLoad :=
    match fetched with
    | Some hs => if non_empty hs then {| hl_applied := Some hs; hl_saved := Some hs |} else prev
    | None => prev
    end in
  let r := {| hl_applied := None; hl_saved := None |} in
  let r := if negb err && non_empty (hc_Holidays cache) && negb (isCacheFresh (hc_FetchedAt cache) now)
           then attempt fetched1 r else r in
  if err then attempt fetched2 r else r.

Section hours.
Context (holidaySet : gmap Z string).

Definition IsHoliday (t : Time) : bool := bool_decide (is_Some (holidaySet !! ist_day t)).

(** The holiday's name and whether there is one. *)
Definition TodayHoliday (t : Time) : string * bool :=
  (default ""%string (holidaySet !! ist_day t), IsHoliday t).

Definition IsWeekday (t : Time) : bool := (1 <=? Weekday t) && (Weekday t <=? 5).

Definition IsMarketOpen (t : Time) : bool :=
  if (Weekday t =? 6) || (Weekday t =? 0) then false
  else if IsHoliday t then false
  else
    let hm := minute_of_day t in
    (OpenHour * 60 + OpenMinute <=? hm) && (hm <? CloseHour * 60 + CloseMinute).

Definition IsTradingDay (t : Time) : bool := IsWeekday t && negb (IsHoliday t).

(** The loop of [NextOpen] over the following days: [n] days are left. *)
Fixpoint next_open_loop (n : nat) (d : Time) : option Time :=
  match n with
  | O => None
  | S n =>
      if IsTradingDay d then Some (ist_date (ist_day d) OpenHour OpenMinute)
      else next_open_loop n (d + day_ns)
  end.

Definition NextOpen (t : Time) : Time :=
  let todayOpen := ist_date (ist_day t) OpenHour OpenMinute in
  if t_before t todayOpen && IsTradingDay t then todayOpen
  else default (ist_date (ist_day t + 1) OpenHour OpenMinute) (next_open_loop 10 (t + day_ns)).

Definition NextPreOpen (t : Time) : Time := t_add (NextOpen t) (- (PreOpenMinutesBefore * Minute)).

Definition WSConnectTime (openTime : Time) : Time := t_add openTime (- (WSConnectMinutesBefore * Minute)).

Definition TodayClose (t : Time) : Time := ist_date (ist_day t) CloseHour CloseMinute.

Definition TimeUntilClose (t : Time) : Duration :=
  let d := t_sub (TodayClose t) t in if d <? 0 then 0 else d.

Definition TimeUntilOpen (t : Time) : Duration := t_sub (NextOpen t) t.

(** The loop of [NextTradingDay]: [n] iterations are left. *)
Fixpoint next_trading_loop (n : nat) (d : Time) : Time :=
  match n with
  | O => d
  | S n => let d := d + day_ns in if IsTradingDay d then d else next_trading_loop n d
  end.

Definition NextTradingDay (t : Time) : Time := next_trading_loop 15 (ist_midnight t).

(** ** Lemmas *)

Definition trading_day (d : Z) : bool :=
  let w := (d + 4) mod 7 in (1 <=? w) && (w <=? 5) && negb (bool_decide (is_Some (holidaySet !! d))).

Lemma IsTradingDay_day t : IsTradingDay t = trading_day (ist_day t).
Proof. done. Qed.

Lemma ist_day_add t n : ist_day (t + n * day_ns) = ist_day t + n.
Proof.
  unfold ist_day. replace (t + n * day_ns + ist_offset) with (t + ist_offset + n * day_ns) by lia.
  by rewrite Z.div_add.
Qed.

Lemma ist_day_date d h m : 0 <= h < 24 → 0 <= m < 60 → ist_day (ist_date d h m) = d.
Proof.
  intros. unfold ist_day, ist_date, Hour, Minute in *.
  replace (_ + ist_offset) with (h * 3600000000000 + m * 60000000000 + d * day_ns) by lia.
  rewrite Z.div_add by done. rewrite Z.div_small; [lia|]. unfold day_ns, Hour. lia.
Qed.

Lemma minute_of_date d h m : 0 <= h < 24 → 0 <= m < 60 → minute_of_day (ist_date d h m) = h * 60 + m.
Proof.
  intros. unfold minute_of_day, ist_of_day, ist_date, Hour, Minute in *.
  replace (_ + ist_offset) with ((h * 60 + m) * 60000000000 + d * day_ns) by lia.
  rewrite Z.mod_add by done. rewrite Z.mod_small by (unfold day_ns, Hour; lia).
  by rewrite Z.div_mul.
Qed.

(** The open market in terms of the calendar day and the time of day. *)
Lemma IsMarketOpen_spec t :
  IsMarketOpen t = true ↔
  trading_day (ist_day t) = true ∧
  ist_date (ist_day t) OpenHour OpenMinute <= t < ist_date (ist_day t) CloseHour CloseMinute.
Proof.
  unfold IsMarketOpen, trading_day, Weekday, IsHoliday.
  pose proof (Z.mod_pos_bound (ist_day t + 4) 7).
  assert (t = ist_day t * day_ns - ist_offset + ist_of_day t ∧ 0 <= ist_of_day t < day_ns) as [Ht Hb].
  { unfold ist_day, ist_of_day. pose proof (Z.div_mod (t + ist_offset) day_ns).
    pose proof (Z.mod_pos_bound (t + ist_offset) day_ns). unfold day_ns, Hour in *. lia. }
  unfold ist_date, minute_of_day, OpenHour, OpenMinute, CloseHour, CloseMinute, Hour, Minute in *.
  pose proof (Z.div_mod (ist_of_day t) 60000000000).
  pose proof (Z.mod_pos_bound (ist_of_day t) 60000000000).
  set (w := (ist_day t + 4) mod 7) in *. set (q := ist_of_day t / 60000000000) in *.
  destruct (Z.eqb_spec w 6), (Z.eqb_spec w 0), (Z.leb_spec 1 w), (Z.leb_spec w 5); simpl; try lia;
    try (split; [done|intros [? ?]; done]).
  case_bool_decide; simpl; [split; [done|intros [? ?]; done]|].
  rewrite andb_true_iff, Z.leb_le, Z.ltb_lt. lia.
Qed.

Lemma next_open_loop_spec n d o :
  next_open_loop n d = Some o →
  ∃ k, 0 <= k < Z.of_nat n ∧ trading_day (ist_day d + k) = true ∧
    o = ist_date (ist_day d + k) OpenHour OpenMinute ∧
    ∀ j, 0 <= j < k → trading_day (ist_day d + j) = false.
Proof.
  revert d. induction n as [|n IH]; intros d; [done|]. cbn [next_open_loop]. rewrite IsTradingDay_day.
  destruct (trading_day (ist_day d)) eqn:E.
  - intros [= <-]. exists 0. rewrite Z.add_0_r. repeat split; auto; lia.
  - intros Ho. apply IH in Ho as (k & Hk & Ht & -> & Hj).
    replace (d + day_ns) with (d + 1 * day_ns) in * by lia. rewrite ist_day_add in *.
    exists (k + 1). replace (ist_day d + (k + 1)) with (ist_day d + 1 + k) by lia.
    repeat split; auto; try lia. intros j Hjk. destruct (decide (j = 0)) as [->|]; [by rewrite Z.add_0_r|].
    replace (ist_day d + j) with (ist_day d + 1 + (j - 1)) by lia. apply Hj. lia.
Qed.

Lemma next_open_loop_none n d :
  next_open_loop n d = None → ∀ k, 0 <= k < Z.of_nat n → trading_day (ist_day d + k) = false.
Proof.
  revert d. induction n as [|n IH]; intros d; [lia|]. cbn [next_open_loop]. rewrite IsTradingDay_day.
  destruct (trading_day (ist_day d)) eqn:E; [done|]. intros Ho k Hk.
  destruct (decide (k = 0)) as [->|]; [by rewrite Z.add_0_r|].
  specialize (IH _ Ho (k - 1)). replace (d + day_ns) with (d + 1 * day_ns) in IH by lia.
  rewrite ist_day_add in IH. replace (ist_day d + k) with (ist_day d + 1 + (k - 1)) by lia. apply IH. lia.
Qed.

Lemma ist_day_bounds t : ist_date (ist_day t) 0 0 <= t < ist_date (ist_day t + 1) 0 0.
Proof.
  unfold ist_date, ist_day. pose proof (Z.div_mod (t + ist_offset) day_ns).
  pose proof (Z.mod_pos_bound (t + ist_offset) day_ns). unfold day_ns, Hour in *. lia.
Qed.

Lemma ist_date_mono d d' h m h' m' :
  d < d' → 0 <= h < 24 → 0 <= m < 60 → 0 <= h' < 24 → 0 <= m' < 60 → ist_date d h m < ist_date d' h' m'.
Proof. unfold ist_date, day_ns, Hour, Minute. nia. Qed.

Lemma applyHolidays_lookup hs d :
  is_Some (applyHolidays hs !! d) ↔ ∃ h, h ∈ hs ∧ he_Day h = d.
Proof.
  unfold applyHolidays. induction hs as [|h hs IH] using rev_ind; simpl.
  - rewrite lookup_empty. split; [by intros [? ?]|]. intros (h & Hh & _). by apply not_elem_of_nil in Hh.
  - rewrite foldl_app. simpl. destruct (decide (he_Day h = d)) as [E|E].
    + rewrite E, lookup_insert_eq. split; [|by eexists]. intros _. exists h. set_solver.
    + rewrite lookup_insert_ne by done. rewrite IH. set_solver.
Qed.

(** The loaders only ever apply a list with an entry in it: the fetched one,
    or the one a readable cache holds. *)
Lemma InitHolidays_applies now err cache fetched hs :
  hl_applied (InitHolidays now err cache fetched) = Some hs →
  hs ≠ [] ∧ (fetched = Some hs ∨ err = false ∧ hs = hc_Holidays cache).
Proof.
  unfold InitHolidays. destruct err, (hc_Holidays cache) eqn:E, fetched as [[]|]; simpl;
    repeat (case_match; simpl in * ); intros ?; simplify_eq; bool_prop; auto 10 with congruence.
Qed.

Lemma refresh_tick_applies now err cache f1 f2 hs :
  hl_applied (refresh_tick now err cache f1 f2) = Some hs →
  hs ≠ [] ∧ hl_saved (refresh_tick now err cache f1 f2) = Some hs ∧ (f1 = Some hs ∨ f2 = Some hs).
Proof.
  unfold refresh_tick. destruct err, (hc_Holidays cache) eqn:E, f1 as [[]|], f2 as [[]|]; simpl;
    repeat (case_match; simpl in * ); intros ?; simplify_eq; bool_prop; auto 10 with congruence.
Qed.

(** [NextTradingDay] is a trading day when one of the next fifteen days is,
    and no day in between is one. *)
Lemma next_trading_loop_spec n d :
  (∃ k, 1 <= k <= Z.of_nat n ∧ trading_day (ist_day d + k) = true) →
  ∃ k, 1 <= k <= Z.of_nat n ∧ next_trading_loop n d = d + k * day_ns ∧
    trading_day (ist_day d + k) = true ∧ ∀ j, 1 <= j < k → trading_day (ist_day d + j) = false.
Proof.
  revert d. induction n as [|n IH]; intros d (k & Hk & Ht); [lia|]. cbn [next_trading_loop].
  rewrite IsTradingDay_day. replace (d + day_ns) with (d + 1 * day_ns) by lia. rewrite ist_day_add.
  destruct (trading_day (ist_day d + 1)) eqn:E.
  - exists 1. repeat split; auto; try lia.
  - destruct (IH (d + 1 * day_ns)) as (k' & Hk' & -> & Ht' & Hj).
    { exists (k - 1). rewrite ist_day_add. replace (ist_day d + 1 + (k - 1)) with (ist_day d + k) by lia.
      split; [|done]. assert (k ≠ 1) by congruence. lia. }
    rewrite ist_day_add in *. exists (k' + 1).
    replace (ist_day d + (k' + 1)) with (ist_day d + 1 + k') by lia.
    repeat split; auto; try lia. intros j Hjk. destruct (decide (j = 1)) as [->|]; [done|].
    replace (ist_day d + j) with (ist_day d + 1 + (j - 1)) by lia. apply Hj. lia.
Qed.

(** [NextOpen] is the next opening: as long as one of the ten days after
    [t] is a trading day, the market opens at [NextOpen t], which is after
    [t], and from the close of [t]'s own session (from [t] itself when the
    market is shut at [t]) until then it is never open. *)
Theorem NextOpen_is_next t u :
  (∃ k, 1 <= k <= 10 ∧ trading_day (ist_day t + k) = true) →
  IsMarketOpen (NextOpen t) = true ∧ t < NextOpen t ∧
  (t <= u < NextOpen t → IsMarketOpen u = true → ist_day u = ist_day t ∧ IsMarketOpen t = true).
Proof.
  intros (k0 & Hk0 & Hk0t). unfold NextOpen, t_before. rewrite IsTradingDay_day.
  assert (∀ d, trading_day d = true → IsMarketOpen (ist_date d OpenHour OpenMinute) = true) as Hopen.
  { intros d Hd. apply IsMarketOpen_spec. rewrite ist_day_date by (vm_compute; done).
    split; [done|]. unfold ist_date. unfold OpenHour, OpenMinute, CloseHour, CloseMinute, Hour, Minute. lia. }
  pose proof (ist_day_bounds t) as Hbt. pose proof (ist_day_bounds u) as Hbu.
  destruct ((t <? ist_date (ist_day t) OpenHour OpenMinute) && trading_day (ist_day t)) eqn:Hnow; bool_prop.
  - split; [auto|]. split; [done|]. intros Hu Hou.
    apply IsMarketOpen_spec in Hou as [_ Hou]. exfalso.
    assert (ist_day u = ist_day t) as E; [|rewrite E in Hou; lia].
    unfold ist_date, OpenHour, OpenMinute, day_ns, Hour, Minute in *. nia.
  - destruct (next_open_loop 10 (t + day_ns)) as [o|] eqn:Ho; simpl.
    + apply next_open_loop_spec in Ho as (k & Hk & Ht & -> & Hj).
      replace (t + day_ns) with (t + 1 * day_ns) in * by lia. rewrite ist_day_add in *.
      split; [auto|]. split.
      { pose proof (ist_date_mono (ist_day t) (ist_day t + 1 + k) 0 0 9 15).
        unfold ist_date, OpenHour, OpenMinute, day_ns, Hour, Minute in *. lia. }
      intros Hu Hou. apply IsMarketOpen_spec in Hou as [Hd Hou].
      assert (ist_day t <= ist_day u < ist_day t + 1 + k) as [Hlo Hhi].
      { unfold ist_date, OpenHour, OpenMinute, day_ns, Hour, Minute in *. nia. }
      destruct (decide (ist_day u = ist_day t)) as [E|Hne].
      * split; [done|]. apply IsMarketOpen_spec. rewrite <-E. split; [done|].
        rewrite E in *. destruct Hnow as [Hnow|Hnow]; [|congruence]. bool_prop. lia.
      * exfalso. specialize (Hj (ist_day u - (ist_day t + 1))).
        replace (ist_day t + 1 + (ist_day u - (ist_day t + 1))) with (ist_day u) in Hj by lia.
        rewrite Hj in Hd by lia. done.
    + apply next_open_loop_none with (k := k0 - 1) in Ho; [|lia].
      replace (t + day_ns) with (t + 1 * day_ns) in * by lia. rewrite ist_day_add in *.
      replace (ist_day t + 1 + (k0 - 1)) with (ist_day t + k0) in Ho by lia. congruence.
Qed.
End hours.

(** A Friday evening, the Monday after a holiday: the market next opens on Tuesday. *)
Lemma NextOpen_is_next_witness :
  let friday := ist_date 20651 18 0 in
  let hs := applyHolidays [{| he_Day := 20654; he_Name := "Holiday" |}] in
  Weekday friday = 5 ∧ NextOpen hs friday = ist_date 20655 9 15 ∧
  IsMarketOpen hs (NextOpen hs friday) = true.
Proof.
  split; [vm_compute; reflexivity|]. split; [vm_compute; reflexivity|].
  apply (NextOpen_is_next (applyHolidays [{| he_Day := 20654; he_Name := "Holiday" |}])
           (ist_date 20651 18 0) 0).
  exists 4. split; [lia|]. vm_compute. reflexivity.
Defined.
