(* ===== verification/Aggregator.v ===== *)
(** One-second candle aggregator (internal/marketdata/agg).  The aggregator's
    two maps are finite maps keyed by the code's strings; the output channel
    is part of the state, and the hooks the code calls ([OnCandle],
    [OnDroppedTick], [OnLateTick]) are recorded, newest first, in a log. *)
From S2P Require Import Prelude GoText Model MarketHours.
#[local] Open Scope Z_scope.
#[local] Open Scope go_scope.

Record candleState := {
  cs_bucket : Z;
  cs_tok : string;
  cs_candle : Candle;
}.

Record tokenClock := {
  tc_maxEventMs : Z;
  tc_wall : Time;
  tc_finalBefore : Z;
  tc_lastEmitted : Z;
  tc_lastDayVol : Z;
}.

(** [&tokenClock{}] *)
Definition new_clock : tokenClock := {|
  tc_maxEventMs := 0; tc_wall := zero_time; tc_finalBefore := 0; tc_lastEmitted := 0;
  tc_lastDayVol := 0 |}.

Inductive AggEvent :=
  | Sent (c : Candle)      (** sent to candleCh: OnCandle *)
  | Dropped (c : Candle)   (** candleCh full: OnDroppedTick *)
  | LateTick.              (** OnLateTick *)

Record Aggregator := {
  ag_states : gmap string candleState;
  ag_clocks : gmap string tokenClock;
  ag_watermark : Z;
  ag_ReorderBuffer : Duration;
  ag_MarketCloseGate : bool;
  ag_candleCh : chan Candle;
  ag_log : list AggEvent;
}.

Definition New (gate : bool) (cap : nat) : Aggregator := {|
  ag_states := ∅; ag_clocks := ∅; ag_watermark := 0; ag_ReorderBuffer := 300 * Millisecond;
  ag_MarketCloseGate := gate; ag_candleCh := Chan cap []; ag_log := [] |}.

Definition set_states (f : gmap string candleState → gmap string candleState) (a : Aggregator) :=
  {| ag_states := f (ag_states a); ag_clocks := ag_clocks a; ag_watermark := ag_watermark a;
     ag_ReorderBuffer := ag_ReorderBuffer a; ag_MarketCloseGate := ag_MarketCloseGate a;
     ag_candleCh := ag_candleCh a; ag_log := ag_log a |}.
Definition set_clocks (f : gmap string tokenClock → gmap string tokenClock) (a : Aggregator) :=
  {| ag_states := ag_states a; ag_clocks := f (ag_clocks a); ag_watermark := ag_watermark a;
     ag_ReorderBuffer := ag_ReorderBuffer a; ag_MarketCloseGate := ag_MarketCloseGate a;
     ag_candleCh := ag_candleCh a; ag_log := ag_log a |}.
Definition set_watermark (w : Z) (a : Aggregator) :=
  {| ag_states := ag_states a; ag_clocks := ag_clocks a; ag_watermark := w;
     ag_ReorderBuffer := ag_ReorderBuffer a; ag_MarketCloseGate := ag_MarketCloseGate a;
     ag_candleCh := ag_candleCh a; ag_log := ag_log a |}.
Definition set_out (ch : chan Candle) (e : AggEvent) (a : Aggregator) :=
  {| ag_states := ag_states a; ag_clocks := ag_clocks a; ag_watermark := ag_watermark a;
     ag_ReorderBuffer := ag_ReorderBuffer a; ag_MarketCloseGate := ag_MarketCloseGate a;
     ag_candleCh := ch; ag_log := e :: ag_log a |}.

Definition WatermarkDelay (a : Aggregator) (now : Time) : Duration :=
  if ag_watermark a =? 0 then 0 else t_sub now (ag_watermark a * Millisecond).

(** The volume a tick adds, and the clock with its new baseline. *)
Definition tickVolume (tc : tokenClock) (t : Tick) : Z * tokenClock :=
  if tick_DayVolume t <=? 0 then (tick_Qty t, tc)
  else
    let prev := tc_lastDayVol tc in
    if tick_DayVolume t <=? prev then (0, tc)
    else
      let tc := {| tc_maxEventMs := tc_maxEventMs tc; tc_wall := tc_wall tc;
                   tc_finalBefore := tc_finalBefore tc; tc_lastEmitted := tc_lastEmitted tc;
                   tc_lastDayVol := tick_DayVolume t |} in
      if prev =? 0 then (0, tc) else (tick_DayVolume t -! prev, tc).

(** A candle with the tick's price merged and [vol] added. *)
Definition merge_tick (c : Candle) (price vol : Z) : Candle := {|
  c_Token := c_Token c; c_Exchange := c_Exchange c; c_TS := c_TS c; c_Open := c_Open c;
  c_High := if c_High c <? price then price else c_High c;
  c_Low := if price <? c_Low c then price else c_Low c;
  c_Close := price;
  c_Volume := c_Volume c +! vol;
  c_TicksCount := c_TicksCount c +! 1 |}.

(** A tick's first candle of a bucket. *)
Definition new_candle (t : Tick) (bucket vol : Z) : Candle := {|
  c_Token := tick_Token t; c_Exchange := tick_Exchange t; c_TS := t_of_unix bucket;
  c_Open := tick_Price t; c_High := tick_Price t; c_Low := tick_Price t; c_Close := tick_Price t;
  c_Volume := vol; c_TicksCount := 1 |}.

Definition finalBucket (a : Aggregator) (eventMs : Z) : Z :=
  (eventMs -! d_milliseconds (ag_ReorderBuffer a)) /! 1000.

(** [emit] marks the bucket final for its token, then sends without blocking. *)
Definition emit (state : candleState) (a : Aggregator) : Aggregator :=
  let a :=
    match ag_clocks a !! cs_tok state with
    | Some tc =>
        if tc_lastEmitted tc <? cs_bucket state
        then set_clocks <[cs_tok state :=
               {| tc_maxEventMs := tc_maxEventMs tc; tc_wall := tc_wall tc;
                  tc_finalBefore := tc_finalBefore tc; tc_lastEmitted := cs_bucket state;
                  tc_lastDayVol := tc_lastDayVol tc |}]> a
        else a
    | None => a
    end in
  match try_send (ag_candleCh a) (cs_candle state) with
  | Some ch => set_out ch (Sent (cs_candle state)) a
  | None => set_out (ag_candleCh a) (Dropped (cs_candle state)) a
  end.

(** The part of [processTick] that advances the token's event clock. *)
Definition advance_clock (key : string) (canonicalTS now : Time) (a : Aggregator) :
    tokenClock * Aggregator :=
  let tc := default new_clock (ag_clocks a !! key) in
  let eventMs := t_unix_milli canonicalTS in
  if tc_maxEventMs tc <? eventMs then
    let tc := {| tc_maxEventMs := eventMs; tc_wall := now; tc_finalBefore := tc_finalBefore tc;
                 tc_lastEmitted := tc_lastEmitted tc; tc_lastDayVol := tc_lastDayVol tc |} in
    let wm := eventMs -! d_milliseconds (ag_ReorderBuffer a) in
    let a := if ag_watermark a <? wm then set_watermark wm a else a in
    (tc, set_clocks <[key := tc]> a)
  else (tc, set_clocks <[key := tc]> a).

(** Is [bucket] final for the token? *)
Definition tick_late (a : Aggregator) (tc : tokenClock) (bucket : Z) : bool :=
  let watermark := finalBucket a (tc_maxEventMs tc) in
  let watermark := if watermark <? tc_finalBefore tc then tc_finalBefore tc else watermark in
  ((0 <? watermark) && (bucket <? watermark)) || ((0 <? tc_lastEmitted tc) && (bucket <=? tc_lastEmitted tc)).

Definition secondary_key (key : string) (bucket : Z) : string := key +:+ ":" +:+ format_int bucket.

(** The last part of [processTick]: the tick goes into its bucket's candle. *)
Definition place_tick (tick : Tick) (key : string) (bucket vol : Z) (a : Aggregator) : Aggregator :=
  let fresh := {| cs_bucket := bucket; cs_tok := key; cs_candle := new_candle tick bucket vol |} in
  let merged st := {| cs_bucket := cs_bucket st; cs_tok := cs_tok st;
                      cs_candle := merge_tick (cs_candle st) (tick_Price tick) vol |} in
  match ag_states a !! key with
  | Some state =>
      if bucket <? cs_bucket state then
        let secKey := secondary_key key bucket in
        match ag_states a !! secKey with
        | Some secState => set_states <[secKey := merged secState]> a
        | None => set_states <[secKey := fresh]> a
        end
      else if cs_bucket state <? bucket then
        set_states <[key := fresh]> (set_states (delete key) (emit state a))
      else set_states <[key := merged state]> a
  | None => set_states <[key := fresh]> a
  end.

Section aggregator.
Context `{MO : MapOrder} (holidaySet : gmap Z string).

Definition processTick (tick : Tick) (now : Time) (a : Aggregator) : Aggregator :=
  let canonicalTS := CanonicalTS tick in
  let bucket := t_unix canonicalTS in
  let key := tick_Exchange tick +:+ ":" +:+ tick_Token tick in
  if ag_MarketCloseGate a && negb (IsMarketOpen holidaySet canonicalTS) then
    match ag_states a !! key with
    | Some state =>
        let '(vol, a) :=
          match ag_clocks a !! key with
          | Some tc => let '(vol, tc) := tickVolume tc tick in (vol, set_clocks <[key := tc]> a)
          | None => (0, a)
          end in
        set_states <[key := {| cs_bucket := cs_bucket state; cs_tok := cs_tok state;
                               cs_candle := merge_tick (cs_candle state) (tick_Price tick) vol |}]> a
    | None => a
    end
  else
    let '(tc, a) := advance_clock key canonicalTS now a in
    if tick_late a tc bucket then set_out (ag_candleCh a) LateTick a
    else
      let '(vol, tc) := tickVolume tc tick in
      place_tick tick key bucket vol (set_clocks <[key := tc]> a).

(** One entry of [flushOld]'s range. *)
Definition flush_entry (now : Time) (a : Aggregator) (entry : string * candleState) : Aggregator :=
  let '(key, state) := entry in
  match ag_clocks a !! cs_tok state with
  | None =>
      if cs_bucket state <? t_unix now then set_states (delete key) (emit state a) else a
  | Some tc =>
      let wm := finalBucket a (tc_maxEventMs tc +! d_milliseconds (t_sub now (tc_wall tc))) in
      if cs_bucket state <? wm then
        let a := set_states (delete key) (emit state a) in
        match ag_clocks a !! cs_tok state with
        | Some tc =>
            if tc_finalBefore tc <? wm
            then set_clocks <[cs_tok state :=
                   {| tc_maxEventMs := tc_maxEventMs tc; tc_wall := tc_wall tc;
                      tc_finalBefore := wm; tc_lastEmitted := tc_lastEmitted tc;
                      tc_lastDayVol := tc_lastDayVol tc |}]> a
            else a
        | None => a
        end
      else a
  end.

Definition flushOld (now : Time) (a : Aggregator) : Aggregator :=
  foldl (flush_entry now) a (range (ag_states a)).

Definition flushAll (a : Aggregator) : Aggregator :=
  foldl (λ a '(key, state), set_states (delete key) (emit state a)) a (range (ag_states a)).

Definition FlushSession (a : Aggregator) : Aggregator := set_clocks (λ _, ∅) (flushAll a).

(** ** Runs

    The steps of [Run]'s select loop, with the wall clock each reads, and
    the consumer's receive on candleCh. *)
Inductive AggOp :=
  | OpTick (t : Tick) (now : Time)
  | OpTimer (now : Time)
  | OpStop
  | OpRecv.

Definition agg_step (op : AggOp) (a : Aggregator) : Aggregator :=
  match op with
  | OpTick t now => processTick t now a
  | OpTimer now => flushOld now a
  | OpStop => flushAll a
  | OpRecv =>
      {| ag_states := ag_states a; ag_clocks := ag_clocks a; ag_watermark := ag_watermark a;
         ag_ReorderBuffer := ag_ReorderBuffer a; ag_MarketCloseGate := ag_MarketCloseGate a;
         ag_candleCh := Chan (ch_cap (ag_candleCh a)) (tail (ch_buf (ag_candleCh a)));
         ag_log := ag_log a |}
  end.

Definition agg_run (ops : list AggOp) (a : Aggregator) : Aggregator :=
  foldl (λ a op, agg_step op a) a ops.

(** The seconds finalised so far, newest first: instrument and start time. *)
Definition finalised (log : list AggEvent) : list (string * Time) :=
  omap (λ e, match e with Sent c | Dropped c => Some (Candle_Key c, c_TS c) | LateTick => None end) log.

(** ** No second is finalised twice *)

(** Instruments whose names hold no colon, and instants after the epoch. *)
Definition tick_ok (t : Tick) : Prop :=
  count_char ":"%char (tick_Exchange t) = 0%nat ∧ count_char ":"%char (tick_Token t) = 0%nat ∧
  0 < t_unix (CanonicalTS t).

Definition op_ok (op : AggOp) : Prop := match op with OpTick t _ => tick_ok t | _ => True end.

Definition last_emitted (a : Aggregator) (tok : string) : Z :=
  default 0 (tc_lastEmitted <$> ag_clocks a !! tok).

(** A live state: either its token's primary candle, newer than everything
    emitted, or a secondary one, older than the primary or than the newest
    emitted second. *)
Record state_inv (a : Aggregator) (k : string) (st : candleState) : Prop := {
  si_tok : count_char ":"%char (cs_tok st) = 1%nat;
  si_key : Candle_Key (cs_candle st) = cs_tok st;
  si_ts : c_TS (cs_candle st) = t_of_unix (cs_bucket st);
  si_pos : 0 < cs_bucket st;
  si_clock : is_Some (ag_clocks a !! cs_tok st);
  si_place :
    (k = cs_tok st ∧ last_emitted a (cs_tok st) < cs_bucket st) ∨
    (k = secondary_key (cs_tok st) (cs_bucket st) ∧
     (cs_bucket st <= last_emitted a (cs_tok st) ∨
      ∃ p, ag_states a !! cs_tok st = Some p ∧ cs_bucket st < cs_bucket p));
  si_fresh : (cs_tok st, t_of_unix (cs_bucket st)) ∉ finalised (ag_log a);
}.

Record agg_inv (a : Aggregator) : Prop := {
  ai_state k st : ag_states a !! k = Some st → state_inv a k st;
  ai_emitted tok ts : (tok, ts) ∈ finalised (ag_log a) →
    is_Some (ag_clocks a !! tok) ∧ ∃ b, ts = t_of_unix b ∧ 0 < b <= last_emitted a tok;
  ai_nodup : NoDup (finalised (ag_log a));
}.

Lemma t_of_unix_inj x y : t_of_unix x = t_of_unix y → x = y.
Proof. unfold t_of_unix, Second. lia. Qed.

Lemma primary_key_tok a k st :
  state_inv a k st → count_char ":"%char k = 1%nat → k = cs_tok st.
Proof.
  intros H Hk. destruct (si_place _ _ _ H) as [[-> _]|[-> _]]; [done|].
  unfold secondary_key in Hk. rewrite !count_char_app, (si_tok _ _ _ H) in Hk.
  assert (count_char ":"%char ":" = 1%nat) as E by done. rewrite E in Hk. lia.
Qed.

Lemma last_set_states f a tok : last_emitted (set_states f a) tok = last_emitted a tok.
Proof. done. Qed.

Lemma emit_finalised st a :
  finalised (ag_log (emit st a)) = (Candle_Key (cs_candle st), c_TS (cs_candle st)) :: finalised (ag_log a).
Proof. unfold emit. repeat case_match; done. Qed.

Lemma emit_states st a : ag_states (emit st a) = ag_states a.
Proof. unfold emit. repeat case_match; done. Qed.

Lemma emit_clock st a tok : is_Some (ag_clocks a !! tok) → is_Some (ag_clocks (emit st a) !! tok).
Proof.
  unfold emit. intros ?. repeat case_match; simpl; try done;
    destruct (decide (cs_tok st = tok)) as [->|]; rewrite ?lookup_insert_eq, ?lookup_insert_ne by done; eauto.
Qed.

Lemma emit_last_other st a tok : tok ≠ cs_tok st → last_emitted (emit st a) tok = last_emitted a tok.
Proof.
  intros ?. unfold emit, last_emitted. repeat case_match; simpl; by rewrite ?lookup_insert_ne by done.
Qed.

Lemma emit_last_same st a :
  is_Some (ag_clocks a !! cs_tok st) →
  last_emitted (emit st a) (cs_tok st) = Z.max (last_emitted a (cs_tok st)) (cs_bucket st).
Proof.
  intros [tc Htc]. unfold emit, last_emitted. rewrite Htc. simpl.
  destruct (tc_lastEmitted tc <? cs_bucket st) eqn:E; bool_prop;
    case_match; simpl; rewrite ?lookup_insert_eq, ?Htc; simpl; lia.
Qed.

Lemma emit_last_mono st a tok : last_emitted a tok <= last_emitted (emit st a) tok.
Proof.
  destruct (decide (tok = cs_tok st)) as [->|]; [|rewrite emit_last_other; done].
  destruct (ag_clocks a !! cs_tok st) eqn:E; [rewrite emit_last_same by eauto; lia|].
  unfold emit, last_emitted. rewrite E. case_match; simpl; by rewrite E.
Qed.

(** Two live states are of different seconds or different instruments. *)
Lemma live_distinct a k k' st st' :
  (∀ k st, ag_states a !! k = Some st → state_inv a k st) →
  ag_states a !! k = Some st → ag_states a !! k' = Some st' → k ≠ k' →
  cs_tok st = cs_tok st' → cs_bucket st ≠ cs_bucket st'.
Proof.
  intros Hall Hk Hk' Hne Ht Hb. pose proof (Hall _ _ Hk) as H. pose proof (Hall _ _ Hk') as H'.
  destruct (si_place _ _ _ H) as [[-> ?]|[-> Hs]], (si_place _ _ _ H') as [[-> ?]|[-> Hs']].
  - congruence.
  - destruct Hs' as [?|(p & Hp & ?)]; [rewrite Ht in *; lia|]. rewrite <-Ht, Hk in Hp.
    simplify_eq. lia.
  - destruct Hs as [?|(p & Hp & ?)]; [rewrite Ht in *; lia|]. rewrite Ht, Hk' in Hp.
    simplify_eq. lia.
  - congruence.
Qed.

Lemma finalise_inv a k st :
  agg_inv a → ag_states a !! k = Some st → agg_inv (set_states (delete k) (emit st a)).
Proof.
  intros [Hs He Hn] Hk. pose proof (Hs _ _ Hk) as Hst. split; simpl.
  - intros k' st' Hk'. rewrite emit_states, lookup_delete_Some in Hk'. destruct Hk' as [Hne Hk'].
    pose proof (Hs _ _ Hk') as []. split; auto.
    + by apply emit_clock.
    + destruct (decide (cs_tok st' = cs_tok st)) as [E|E].
      * assert (last_emitted (set_states (delete k) (emit st a)) (cs_tok st') =
                Z.max (last_emitted a (cs_tok st)) (cs_bucket st)) as ->
          by (rewrite E; apply emit_last_same, si_clock with k, Hst).
        simpl. rewrite emit_states. destruct si_place0 as [[-> ?]|[-> Hp]]; [left|right]; (split; [done|]).
        -- destruct (si_place _ _ _ Hst) as [[-> ?]|[-> [?|(p & Hp & ?)]]]; [congruence|rewrite E in *; lia|].
           rewrite <-E, Hk' in Hp. simplify_eq. rewrite E in *. lia.
        -- destruct Hp as [?|(p & Hp & ?)]; [rewrite E in *; lia|].
           destruct (decide (k = cs_tok st')) as [->|]; [|rewrite lookup_delete_ne by done; eauto].
           left. simplify_eq. lia.
      * rewrite last_set_states, emit_last_other by done. simpl. rewrite emit_states.
        destruct si_place0 as [?|[-> [?|(p & Hp & ?)]]]; [by left|right; auto|right].
        split; [done|right]. exists p. split; [|done].
        rewrite lookup_delete_ne; [done|]. intros Heq. apply E.
        rewrite <-Heq. apply (primary_key_tok a); [done|by rewrite Heq].
    + change (ag_log (set_states _ ?x)) with (ag_log x). rewrite emit_finalised, elem_of_cons.
      rewrite (si_key _ _ _ Hst), (si_ts _ _ _ Hst). intros [[= Ht Hb]|?]; [|done].
      apply t_of_unix_inj in Hb. by apply (live_distinct a k k' st st').
  - intros tok ts. rewrite emit_finalised, elem_of_cons.
    rewrite (si_key _ _ _ Hst), (si_ts _ _ _ Hst). intros [Heq|Hin].
    + simplify_eq. split; [apply emit_clock, si_clock with k, Hst|].
      exists (cs_bucket st). split; [done|].
      rewrite last_set_states. rewrite emit_last_same by (eapply si_clock, Hst). pose proof (si_pos _ _ _ Hst). lia.
    + destruct (He _ _ Hin) as (? & b & ? & ?). split; [by apply emit_clock|]. exists b.
      rewrite last_set_states.
      pose proof (emit_last_mono st a tok). split; [done|lia].
  - rewrite emit_finalised, (si_key _ _ _ Hst), (si_ts _ _ _ Hst). constructor; [|done].
    apply (si_fresh _ _ _ Hst).
Qed.

(** Steps that leave every token's newest emitted second alone. *)
Lemma quiet_inv a a' :
  agg_inv a → ag_states a' = ag_states a → finalised (ag_log a') = finalised (ag_log a) →
  (∀ tok, is_Some (ag_clocks a !! tok) → is_Some (ag_clocks a' !! tok)) →
  (∀ tok, last_emitted a' tok = last_emitted a tok) → agg_inv a'.
Proof.
  intros [Hs He Hn] E1 E2 E3 E4. split; rewrite ?E2.
  - intros k st. rewrite E1. intros Hk. destruct (Hs _ _ Hk). split; rewrite ?E1, ?E2, ?E4; auto.
  - intros tok ts Hin. destruct (He _ _ Hin). rewrite E4. auto.
  - done.
Qed.

Lemma clock_inv a tok tc :
  agg_inv a → tc_lastEmitted tc = last_emitted a tok → agg_inv (set_clocks <[tok := tc]> a).
Proof.
  intros Hinv Htc. apply (quiet_inv a); try done; intros tok'; simpl; unfold last_emitted; simpl;
    destruct (decide (tok = tok')) as [<-|]; rewrite ?lookup_insert_eq, ?lookup_insert_ne by done; eauto.
Qed.

(** A fresh state, or a merge into a live one that keeps its identity. *)
Lemma insert_inv a k st :
  agg_inv a → state_inv a k st →
  (∀ st0, ag_states a !! k = Some st0 → cs_bucket st0 = cs_bucket st) →
  agg_inv (set_states <[k := st]> a).
Proof.
  intros [Hs He Hn] Hst Hold. split; [|done..].
  assert (∀ k' st', state_inv a k' st' → state_inv (set_states <[k := st]> a) k' st') as Hmono.
  { intros k' st' []. split; auto. destruct si_place0 as [?|[-> [?|(p & Hp & ?)]]]; [by left|right; auto|].
    right. split; [done|]. right. simpl. destruct (decide (k = cs_tok st')) as [->|].
    - exists st. rewrite lookup_insert_eq. split; [done|]. rewrite <-(Hold p) by done. done.
    - exists p. by rewrite lookup_insert_ne by done. }
  intros k' st'. simpl. rewrite lookup_insert_Some. intros [[<- <-]|[? Hk]]; auto.
Qed.

Lemma new_tick_not_finalised a tok b :
  agg_inv a → last_emitted a tok < b → (tok, t_of_unix b) ∉ finalised (ag_log a).
Proof.
  intros Hinv Hlt Hin. destruct (ai_emitted _ Hinv _ _ Hin) as (_ & b' & Hb & ?).
  apply t_of_unix_inj in Hb. lia.
Qed.

Lemma place_tick_inv a tick bucket vol :
  let key := tick_Exchange tick +:+ ":" +:+ tick_Token tick in
  agg_inv a → count_char ":"%char key = 1%nat → 0 < bucket → last_emitted a key < bucket →
  is_Some (ag_clocks a !! key) → agg_inv (place_tick tick key bucket vol a).
Proof.
  intros key Hinv Hkey Hpos Hlast Hclk. unfold place_tick.
  pose proof (new_tick_not_finalised a key bucket Hinv Hlast) as Hfresh.
  assert (∀ k st, ag_states a !! k = Some st → state_inv a k
    {| cs_bucket := cs_bucket st; cs_tok := cs_tok st;
       cs_candle := merge_tick (cs_candle st) (tick_Price tick) vol |}) as Hmerge.
  { intros k st Hk. destruct (ai_state _ Hinv _ _ Hk). by split. }
  destruct (ag_states a !! key) as [state|] eqn:Hstate.
  - assert (key = cs_tok state) as Htok by (apply (primary_key_tok a); [by apply ai_state|done]).
    destruct (Z.ltb_spec bucket (cs_bucket state)).
    + destruct (ag_states a !! secondary_key key bucket) eqn:Hsec.
      * apply insert_inv; [done|by apply Hmerge|]. intros ?. rewrite Hsec. by intros [= <-].
      * apply insert_inv; [done| |by rewrite Hsec]. split; auto; simpl. right.
        split; [done|]. right. eauto.
    + destruct (Z.ltb_spec (cs_bucket state) bucket).
      * apply insert_inv; [by apply finalise_inv| |].
        -- split; simpl; auto; [by apply emit_clock|left|].
           ++ rewrite last_set_states. split; [done|]. rewrite Htok. rewrite emit_last_same by by rewrite <-Htok.
              rewrite <-Htok. lia.
           ++ apply (new_tick_not_finalised (set_states (delete key) (emit state a))); [by apply finalise_inv|]. rewrite last_set_states, Htok.
              rewrite emit_last_same by by rewrite <-Htok. rewrite <-Htok. lia.
        -- simpl. by rewrite lookup_delete_eq.
      * apply insert_inv; [done|by apply Hmerge|]. intros ?. rewrite Hstate. by intros [= <-].
  - apply insert_inv; [done| |by rewrite Hstate]. split; auto; by left.
Qed.

Lemma tickVolume_last tc t : tc_lastEmitted (tickVolume tc t).2 = tc_lastEmitted tc.
Proof. unfold tickVolume. by repeat case_match. Qed.

Lemma advance_clock_inv key ts now a tc a' :
  agg_inv a → advance_clock key ts now a = (tc, a') →
  agg_inv a' ∧ tc_lastEmitted tc = last_emitted a' key ∧ ag_clocks a' !! key = Some tc ∧
  ag_states a' = ag_states a ∧ ag_log a' = ag_log a.
Proof.
  intros Hinv. unfold advance_clock.
  assert (tc_lastEmitted (default new_clock (ag_clocks a !! key)) = last_emitted a key) as Hl.
  { unfold last_emitted. by destruct (ag_clocks a !! key). }
  destruct (_ <? _); intros [= <- <-]; (split; [apply clock_inv|]);
    try (case_match; [apply (quiet_inv a); done|done]); try done; simpl; try case_match; auto;
    unfold last_emitted; simpl; rewrite ?lookup_insert_eq; auto.
Qed.

Lemma late_bound a tc bucket :
  tick_late a tc bucket = false → 0 < bucket → tc_lastEmitted tc < bucket.
Proof. unfold tick_late. intros ? ?. bool_prop. destruct_or?; bool_prop; lia. Qed.

Lemma processTick_inv tick now a : tick_ok tick → agg_inv a → agg_inv (processTick tick now a).
Proof.
  intros (H1 & H2 & Hpos) Hinv. unfold processTick.
  set (key := tick_Exchange tick +:+ ":" +:+ tick_Token tick).
  assert (count_char ":"%char key = 1%nat) as Hkey.
  { unfold key. rewrite !count_char_app, H1, H2. done. }
  destruct (ag_MarketCloseGate a && _).
  - destruct (ag_states a !! key) as [state|] eqn:Hst; [|done].
    assert (∀ a' vol, agg_inv a' → ag_states a' = ag_states a → agg_inv (set_states <[key :=
      {| cs_bucket := cs_bucket state; cs_tok := cs_tok state;
         cs_candle := merge_tick (cs_candle state) (tick_Price tick) vol |}]> a')) as Hm.
    { intros a' vol Hinv' E. rewrite <-E in Hst. apply insert_inv; [done| |].
      - destruct (ai_state _ Hinv' _ _ Hst). by split.
      - intros ?. rewrite Hst. by intros [= <-]. }
    destruct (ag_clocks a !! key) as [tc|] eqn:Htc; [|by apply Hm].
    destruct (tickVolume tc tick) as [vol tc'] eqn:Hv. apply Hm; [|done]. apply clock_inv; [done|].
    pose proof (tickVolume_last tc tick) as E. rewrite Hv in E. simpl in E. rewrite E.
    unfold last_emitted. by rewrite Htc.
  - destruct (advance_clock key _ now a) as [tc a'] eqn:Hadv.
    apply advance_clock_inv in Hadv as (Hinv' & Hlast & Hclk & _ & _); [|done].
    destruct (tick_late a' tc _) eqn:Hlate; [by apply (quiet_inv a')|].
    apply late_bound in Hlate; [|done].
    destruct (tickVolume tc tick) as [vol tc'] eqn:Hv.
    pose proof (tickVolume_last tc tick) as E. rewrite Hv in E. simpl in E.
    apply place_tick_inv; auto; simpl.
    + apply clock_inv; congruence.
    + unfold last_emitted. simpl. rewrite lookup_insert_eq. simpl. lia.
    + rewrite lookup_insert_eq. eauto.
Qed.

(** A range that, for each entry, finalises it or leaves it: the entries
    still to come stay live, since each step deletes its own key only. *)
Lemma flush_range_inv (f : Aggregator → string * candleState → Aggregator) l a :
  (∀ a k st, agg_inv a → ag_states a !! k = Some st →
     agg_inv (f a (k, st)) ∧ ∀ k', k' ≠ k → ag_states (f a (k, st)) !! k' = ag_states a !! k') →
  NoDup l.*1 → (∀ k st, (k, st) ∈ l → ag_states a !! k = Some st) →
  agg_inv a → agg_inv (foldl f a l).
Proof.
  intros Hf. revert a. induction l as [|[k st] l IH]; intros a Hnd Hl Hinv; [done|]. simpl in *.
  apply NoDup_cons in Hnd as [Hk Hnd].
  destruct (Hf a k st) as [Hinv' Hrest]; [done|apply Hl; set_solver|].
  apply IH; auto. intros k' st' Hin. rewrite Hrest; [apply Hl; set_solver|].
  intros ->. apply Hk, list_elem_of_fmap. by exists (k, st').
Qed.

Lemma flush_entry_inv now a k st :
  agg_inv a → ag_states a !! k = Some st →
  agg_inv (flush_entry now a (k, st)) ∧
  ∀ k', k' ≠ k → ag_states (flush_entry now a (k, st)) !! k' = ag_states a !! k'.
Proof.
  intros Hinv Hk. pose proof (finalise_inv a k st Hinv Hk) as Hinv'. unfold flush_entry.
  set (a' := set_states (delete k) (emit st a)) in *.
  assert (∀ k', k' ≠ k → ag_states a' !! k' = ag_states a !! k') as Hst.
  { intros k' ?. simpl. by rewrite emit_states, lookup_delete_ne. }
  destruct (ag_clocks a !! cs_tok st) as [tc|]; case_match; auto.
  destruct (ag_clocks a' !! cs_tok st) as [tc'|] eqn:Htc'; [|auto].
  case_match; [|auto]. split; [|done]. apply clock_inv; [done|]. unfold last_emitted. by rewrite Htc'.
Qed.

Lemma range_entries (a : Aggregator) k st : (k, st) ∈ range (ag_states a) → ag_states a !! k = Some st.
Proof. apply elem_of_range. Qed.

Lemma agg_step_inv op a : op_ok op → agg_inv a → agg_inv (agg_step op a).
Proof.
  intros Hop Hinv. destruct op; simpl.
  - by apply processTick_inv.
  - unfold flushOld. apply flush_range_inv; auto using range_nodup_keys, range_entries.
    intros. by apply flush_entry_inv.
  - unfold flushAll. apply flush_range_inv; auto using range_nodup_keys, range_entries.
    intros a' k st ? Hk. split; [by apply finalise_inv|]. intros k' ?. simpl.
    by rewrite emit_states, lookup_delete_ne.
  - by apply (quiet_inv a).
Qed.

Lemma agg_run_inv ops a : Forall op_ok ops → agg_inv a → agg_inv (agg_run ops a).
Proof.
  unfold agg_run. intros Hops. revert a. induction Hops; intros a Ha; [done|]. simpl.
  apply IHHops, agg_step_inv; done.
Qed.

(** C10: Within a session no second of an instrument is finalised twice, sent
    or dropped: whatever the arrival order of the ticks, the timer flushes
    and the receiver's pace, and whether or not the closing gate is set.
    A session starts from no candles and no clocks, as [New] and
    [FlushSession] leave the aggregator. *)
Theorem seconds_finalised_once ops a :
  Forall op_ok ops → ag_states a = ∅ → ag_clocks a = ∅ → ag_log a = [] →
  NoDup (finalised (ag_log (agg_run ops a))).
Proof.
  intros Hops Hs Hc Hl. apply ai_nodup, agg_run_inv; [done|]. split.
  - intros k st. by rewrite Hs, lookup_empty.
  - rewrite Hl. intros tok ts Hin. by apply elem_of_nil in Hin.
  - rewrite Hl. constructor.
Qed.

(** ** What a candle holds *)

Definition candle_ok (c : Candle) : Prop := ohlc_ok (c_Open c) (c_High c) (c_Low c) (c_Close c).

Lemma new_candle_ok t b v : candle_ok (new_candle t b v).
Proof. unfold candle_ok, ohlc_ok. simpl. lia. Qed.

Lemma merge_tick_ok c p v : candle_ok c → candle_ok (merge_tick c p v).
Proof.
  unfold candle_ok, ohlc_ok. simpl. intros.
  destruct (Z.ltb_spec (c_High c) p), (Z.ltb_spec p (c_Low c)); lia.
Qed.

Definition event_candle_ok (e : AggEvent) : Prop :=
  match e with Sent c | Dropped c => candle_ok c | LateTick => True end.

Definition candles_ok (a : Aggregator) : Prop :=
  map_Forall (λ _ st, candle_ok (cs_candle st)) (ag_states a) ∧ Forall event_candle_ok (ag_log a).

Lemma emit_candles_ok st a : candle_ok (cs_candle st) → candles_ok a → candles_ok (emit st a).
Proof.
  unfold emit, candles_ok. intros ? [? ?]. repeat case_match; simpl; split; auto.
Qed.

Lemma insert_candles_ok k st a :
  candle_ok (cs_candle st) → candles_ok a → candles_ok (set_states <[k := st]> a).
Proof. intros ? [? ?]. split; [|done]. by apply map_Forall_insert_2. Qed.

Lemma delete_candles_ok k a : candles_ok a → candles_ok (set_states (delete k) a).
Proof. intros [? ?]. split; [|done]. by apply map_Forall_delete. Qed.

Lemma clocks_candles_ok f a : candles_ok a → candles_ok (set_clocks f a).
Proof. done. Qed.

Lemma lookup_candle_ok a k st : candles_ok a → ag_states a !! k = Some st → candle_ok (cs_candle st).
Proof. intros [H _] Hk. apply (H k st Hk). Qed.

#[local] Hint Resolve new_candle_ok merge_tick_ok emit_candles_ok insert_candles_ok delete_candles_ok
  clocks_candles_ok lookup_candle_ok : go.

Lemma processTick_candles_ok tick now a : candles_ok a → candles_ok (processTick tick now a).
Proof.
  intros Ha. unfold processTick. case_match.
  - case_match; [|done]. destruct (ag_clocks a !! _) as [tc|]; [|eauto with go].
    destruct (tickVolume tc tick). eauto with go.
  - destruct (advance_clock _ _ _ a) as [tc a'] eqn:Hadv.
    assert (candles_ok a') as Ha'.
    { unfold advance_clock in Hadv. repeat case_match; simplify_eq; done. }
    case_match; [split; [apply Ha'|constructor; [done|apply Ha']]|].
    destruct (tickVolume tc tick) as [vol tc']. unfold place_tick.
    repeat case_match; apply insert_candles_ok; eauto 6 with go.
Qed.

Lemma flush_range_candles_ok (f : Aggregator → string * candleState → Aggregator) l a :
  (∀ a k st, candle_ok (cs_candle st) → candles_ok a → candles_ok (f a (k, st))) →
  Forall (λ p : string * candleState, candle_ok (cs_candle p.2)) l → candles_ok a → candles_ok (foldl f a l).
Proof. intros Hf Hl. revert a. induction Hl as [|[k st] l]; intros a ?; simpl; auto. Qed.

Lemma range_candles_ok a :
  candles_ok a → Forall (λ p : string * candleState, candle_ok (cs_candle p.2)) (range (ag_states a)).
Proof.
  intros [H _]. apply Forall_forall. intros [k st] Hin. apply elem_of_range in Hin. apply (H k st Hin).
Qed.

(** Every candle the aggregator holds or has sent or dropped is well
    formed: its low is at most, and its high at least, its open and close. *)
Theorem candles_well_formed ops a : candles_ok a → candles_ok (agg_run ops a).
Proof.
  unfold agg_run. revert a. induction ops as [|op ops IH]; intros a Ha; [done|]. simpl. apply IH.
  destruct op; simpl.
  - by apply processTick_candles_ok.
  - apply flush_range_candles_ok; auto using range_candles_ok. intros a' k st ? ?. unfold flush_entry.
    repeat case_match; eauto with go.
  - apply flush_range_candles_ok; auto using range_candles_ok. eauto with go.
  - done.
Qed.

(** ** A second's candle is the summary of its ticks *)

(** Volumes of consecutive ticks, from a baseline. *)
Fixpoint tick_volumes (base : Z) (ts : list Tick) : list Z :=
  match ts with
  | [] => []
  | t :: ts =>
      if tick_DayVolume t <=? 0 then tick_Qty t :: tick_volumes base ts
      else if tick_DayVolume t <=? base then 0 :: tick_volumes base ts
      else (if base =? 0 then 0 else tick_DayVolume t -! base) :: tick_volumes (tick_DayVolume t) ts
  end.

Lemma tickVolume_volumes tc t ts :
  tick_volumes (tc_lastDayVol tc) (t :: ts) =
  (tickVolume tc t).1 :: tick_volumes (tc_lastDayVol (tickVolume tc t).2) ts.
Proof. simpl. unfold tickVolume. by repeat case_match. Qed.

Definition day_volume_ok (t : Tick) : Prop := 0 < tick_DayVolume t <= max_i64.

Lemma tick_volumes_sum base ts :
  0 < base <= max_i64 → Forall day_volume_ok ts →
  foldr Z.add 0 (tick_volumes base ts) = foldr Z.max base (tick_DayVolume <$> ts) - base ∧
  base <= foldr Z.max base (tick_DayVolume <$> ts).
Proof.
  intros Hb Hts. revert base Hb. induction Hts as [|t ts [Ht1 Ht2] _ IH]; intros base Hb; cbn [tick_volumes foldr fmap list_fmap].
  { lia. }
  assert (∀ b1 b2 l, foldr Z.max (Z.max b1 b2) l = Z.max b1 (foldr Z.max b2 l)) as Hmax.
  { clear. intros b1 b2 l. induction l as [|x l IH]; simpl; [done|]. rewrite IH. lia. }
  destruct (Z.leb_spec (tick_DayVolume t) 0), (Z.leb_spec (tick_DayVolume t) base); try lia; simpl foldr.
  - destruct (IH base Hb). lia.
  - destruct (IH (tick_DayVolume t)) as [IH1 IH2]; [lia|]. destruct (Z.eqb_spec base 0); [lia|].
    rewrite i64_id by (i64_unfold; lia). simpl foldr. rewrite IH1.
    specialize (Hmax (tick_DayVolume t) base (tick_DayVolume <$> ts)).
    rewrite Z.max_l in Hmax by lia. lia.
Qed.

(** With a cumulative day volume on every tick, what the ticks of a fresh
    token add up to is exactly the rise of the day volume from the first
    tick to its highest value, whatever the order the packets arrive in. *)
Theorem tick_volume_telescopes t ts :
  day_volume_ok t → Forall day_volume_ok ts →
  foldr Z.add 0 (tick_volumes (tc_lastDayVol new_clock) (t :: ts)) =
  foldr Z.max (tick_DayVolume t) (tick_DayVolume <$> ts) - tick_DayVolume t.
Proof.
  intros [Ht1 Ht2] Hts. cbn [tick_volumes new_clock tc_lastDayVol].
  destruct (Z.leb_spec (tick_DayVolume t) 0); [lia|]. rewrite Z.eqb_refl. simpl foldr.
  destruct (tick_volumes_sum (tick_DayVolume t) ts); [lia|done|]. lia.
Qed.

(** A candle built from its ticks' prices and volumes. *)
Definition candle_of_ticks (key_token key_exchange : string) (b : Z) (p : Z) (v : Z) (pvs : list (Z * Z)) : Candle := {|
  c_Token := key_token; c_Exchange := key_exchange; c_TS := t_of_unix b;
  c_Open := p;
  c_High := foldr Z.max p pvs.*1;
  c_Low := foldr Z.min p pvs.*1;
  c_Close := default p (last pvs.*1);
  c_Volume := foldl (λ acc v, acc +! v) v pvs.*2;
  c_TicksCount := foldl (λ acc _, acc +! 1) 1 pvs |}.

Lemma merge_candle_of_ticks tok ex b p v pvs p' v' :
  merge_tick (candle_of_ticks tok ex b p v pvs) p' v' = candle_of_ticks tok ex b p v (pvs ++ [(p', v')]).
Proof.
  unfold merge_tick, candle_of_ticks. simpl. rewrite !fmap_app, !foldl_app. simpl.
  rewrite foldr_max_snoc, foldr_min_snoc, last_snoc. simpl. f_equal.
  - destruct (Z.ltb_spec (foldr Z.max p pvs.*1) p'); lia.
  - destruct (Z.ltb_spec p' (foldr Z.min p pvs.*1)); lia.
Qed.

(** The clock of a token whose second [b] is still open. *)
Definition clock_open (b : Z) (tc : tokenClock) : Prop :=
  0 <= tc_maxEventMs tc < (b + 1) * 1000 ∧ tc_finalBefore tc <= b ∧ tc_lastEmitted tc < b.

(** A tick of second [b] of the instrument, that the gate lets through. *)
Definition tick_of (tok ex : string) (b : Z) (t : Tick) : Prop :=
  tick_Token t = tok ∧ tick_Exchange t = ex ∧ t_unix (CanonicalTS t) = b ∧
  IsMarketOpen holidaySet (CanonicalTS t) = true.

Lemma unix_milli_bounds t b : t_unix t = b → b * 1000 <= t_unix_milli t < (b + 1) * 1000.
Proof.
  unfold t_unix, t_unix_milli, Second, Millisecond. intros <-.
  pose proof (Z.div_mod t 1000000000). pose proof (Z.mod_pos_bound t 1000000000).
  split.
  - apply Z.div_le_lower_bound; lia.
  - apply Z.div_lt_upper_bound; lia.
Qed.

Lemma open_not_late a tc b :
  clock_open b tc → 0 <= ag_ReorderBuffer a → in_i64 (ag_ReorderBuffer a) → 0 < b <= 2 ^ 50 → tick_late a tc b = false.
Proof.
  intros (Hm & Hf & Hl) Hr Hri Hb. unfold tick_late, finalBucket, d_milliseconds, Millisecond.
  assert (0 <= Z.quot (ag_ReorderBuffer a) 1000000 <= max_i64).
  { i64_unfold. pose proof (Z.quot_pos (ag_ReorderBuffer a) 1000000).
    pose proof (Z.quot_le_upper_bound (ag_ReorderBuffer a) 1000000 (2 ^ 63 - 1)). lia. }
  rewrite (i64_id (_ - _)) by (i64_unfold; lia).
  assert (- 2 ^ 63 < tc_maxEventMs tc - Z.quot (ag_ReorderBuffer a) 1000000 < (b + 1) * 1000) as Hx
    by (i64_unfold; lia).
  generalize dependent (tc_maxEventMs tc - Z.quot (ag_ReorderBuffer a) 1000000). intros x Hx. assert (Z.quot x 1000 <= b ∧ - 2 ^ 62 <= Z.quot x 1000) as [Hq Hq'].
  { pose proof (Z.quot_rem' x 1000). pose proof (Z.rem_bound_abs x 1000). pose proof (Z.rem_bound_pos x 1000). lia. }
  rewrite i64_id by (i64_unfold; lia).
  destruct (Z.ltb_spec (Z.quot x 1000) (tc_finalBefore tc));
    apply orb_false_iff; split; apply andb_false_iff; right; apply Z.ltb_ge || apply Z.leb_gt; lia.
Qed.

Lemma advance_clock_open a key t now b tc a' :
  t_unix t = b → 0 < b → clock_open b (default new_clock (ag_clocks a !! key)) →
  advance_clock key t now a = (tc, a') →
  clock_open b tc ∧ tc_lastDayVol tc = tc_lastDayVol (default new_clock (ag_clocks a !! key)) ∧
  ag_states a' = ag_states a ∧ ag_clocks a' = <[key := tc]> (ag_clocks a) ∧
  ag_ReorderBuffer a' = ag_ReorderBuffer a.
Proof.
  intros Ht Hb (? & ? & ?). apply unix_milli_bounds in Ht. unfold advance_clock.
  destruct (_ <? t_unix_milli t) eqn:E; intros [= <- <-]; unfold clock_open; simpl;
    repeat split; try case_match; simpl; auto; lia.
Qed.

(** One tick of an open second. *)
Lemma processTick_open tok ex b t now a :
  let key := instrument_key ex tok in
  let tc := default new_clock (ag_clocks a !! key) in
  tick_of tok ex b t → 0 < b <= 2 ^ 50 → clock_open b tc →
  0 <= ag_ReorderBuffer a → in_i64 (ag_ReorderBuffer a) →
  (∀ st, ag_states a !! key = Some st → cs_bucket st = b ∧ cs_tok st = key) →
  let a' := processTick t now a in
  let tc' := default new_clock (ag_clocks a' !! key) in
  clock_open b tc' ∧ tc_lastDayVol tc' = tc_lastDayVol (tickVolume tc t).2 ∧
  ag_ReorderBuffer a' = ag_ReorderBuffer a ∧
  ag_states a' !! key = Some {| cs_bucket := b; cs_tok := key; cs_candle :=
    match ag_states a !! key with
    | Some st => merge_tick (cs_candle st) (tick_Price t) (tickVolume tc t).1
    | None => new_candle t b (tickVolume tc t).1
    end |}.
Proof.
  intros key tc (Htok & Hex & Hb & Hopen) Hpos Hclk Hr Hri Hst. unfold processTick.
  rewrite Hopen, andb_false_r, Hb, Hex, Htok. fold (instrument_key ex tok). fold key.
  destruct (advance_clock key _ now a) as [tc1 a1] eqn:Hadv.
  apply (advance_clock_open _ _ _ _ b) in Hadv as (Hclk1 & Hdv & Es & Ec & Er); [|done|lia|done].
  rewrite open_not_late by (rewrite ?Er; done).
  assert (∀ tc, (tickVolume tc t).1 = hd 0 (tick_volumes (tc_lastDayVol tc) [t])) as Hv1
    by (intros; by rewrite tickVolume_volumes).
  assert (tc_lastDayVol (tickVolume tc1 t).2 = tc_lastDayVol (tickVolume tc t).2) as Hv2.
  { unfold tickVolume. rewrite Hdv. fold tc. by repeat case_match. }
  rewrite (Hv1 tc). assert (clock_open b (tickVolume tc1 t).2) as Hclk2.
  { unfold tickVolume. by repeat case_match. }
  destruct (tickVolume tc1 t) as [vol tc2] eqn:Hv. simpl in Hv2, Hclk2.
  assert (vol = hd 0 (tick_volumes (tc_lastDayVol tc) [t])) as <-.
  { unfold tc. rewrite <-Hdv, <-Hv1, Hv. done. }
  unfold place_tick. simpl. rewrite Es.
  destruct (ag_states a !! key) as [st|] eqn:E.
  - destruct (Hst st eq_refl) as [-> Htk]. rewrite !Z.ltb_irrefl. simpl.
    rewrite !lookup_insert_eq. simpl. by rewrite Htk.
  - simpl. by rewrite !lookup_insert_eq.
Qed.

Lemma second_candle_tail tok ex b p v ts a pvs :
  let key := instrument_key ex tok in
  let tc := default new_clock (ag_clocks a !! key) in
  Forall (tick_of tok ex b) ts.*1 → 0 < b <= 2 ^ 50 → clock_open b tc →
  0 <= ag_ReorderBuffer a → in_i64 (ag_ReorderBuffer a) →
  ag_states a !! key =
    Some {| cs_bucket := b; cs_tok := key; cs_candle := candle_of_ticks tok ex b p v pvs |} →
  ag_states (agg_run ((λ tn, OpTick tn.1 tn.2) <$> ts) a) !! key =
  Some {| cs_bucket := b; cs_tok := key; cs_candle :=
    candle_of_ticks tok ex b p v (pvs ++ zip (tick_Price <$> ts.*1) (tick_volumes (tc_lastDayVol tc) ts.*1)) |}.
Proof.
  intros key. revert a pvs. induction ts as [|[t now] ts IH]; intros a pvs tc Hts Hb Hclk Hr Hri Hst.
  { simpl. by rewrite app_nil_r. }
  apply Forall_cons in Hts as [Ht Hts]. cbn [fst] in Ht.
  destruct (processTick_open tok ex b t now a) as (Hclk1 & Hdv & Hr1 & Hst1); auto.
  { fold key. rewrite Hst. by intros ? [= <-]. }
  fold key in Hst1, Hdv, Hclk1. rewrite Hst in Hst1. cbn [cs_candle] in Hst1.
  rewrite merge_candle_of_ticks in Hst1. fold tc in Hst1, Hdv.
  cbn [fmap list_fmap fst snd]. rewrite tickVolume_volumes, <-Hdv. cbn [zip zip_with].
  rewrite cons_middle, app_assoc. unfold agg_run. cbn [foldl agg_step].
  apply IH; auto; rewrite Hr1; done.
Qed.

(** C11: The ticks of one second of an instrument, in any order within the
    second, build one candle with the first tick's price as open, the last
    one's as close, the highest and lowest prices, the volumes of
    [tickVolume] summed and the number of ticks. *)
Theorem second_candle_summarises tok ex b t now ts a :
  let key := instrument_key ex tok in
  let tc := default new_clock (ag_clocks a !! key) in
  let vols := tick_volumes (tc_lastDayVol tc) (t :: ts.*1) in
  tick_of tok ex b t → Forall (tick_of tok ex b) ts.*1 → 0 < b <= 2 ^ 50 → clock_open b tc →
  0 <= ag_ReorderBuffer a → in_i64 (ag_ReorderBuffer a) → ag_states a !! key = None →
  ag_states (agg_run (OpTick t now :: ((λ tn, OpTick tn.1 tn.2) <$> ts)) a) !! key =
  Some {| cs_bucket := b; cs_tok := key; cs_candle :=
    candle_of_ticks tok ex b (tick_Price t) (hd 0 vols) (zip (tick_Price <$> ts.*1) (tail vols)) |}.
Proof.
  intros key tc vols Ht Hts Hb Hclk Hr Hri Hnone.
  destruct (processTick_open tok ex b t now a) as (Hclk1 & Hdv & Hr1 & Hst); auto.
  { fold key. rewrite Hnone. done. }
  fold key in Hst, Hdv, Hclk1. rewrite Hnone in Hst. fold tc in Hst, Hdv.
  unfold vols. rewrite tickVolume_volumes. cbn [hd tail]. rewrite <-Hdv.
  unfold agg_run. cbn [foldl agg_step]. set (a1 := processTick t now a) in *.
  assert (new_candle t b (tickVolume tc t).1 =
    candle_of_ticks tok ex b (tick_Price t) (tickVolume tc t).1 []) as E.
  { destruct Ht as (<- & <- & _). done. }
  rewrite E in Hst. change (zip _ _) with ([] ++ zip (tick_Price <$> ts.*1)
    (tick_volumes (tc_lastDayVol (default new_clock (ag_clocks a1 !! key))) ts.*1)).
  apply second_candle_tail; auto; rewrite Hr1; done.
Qed.

(** A late tick, one behind its token's watermark or for a second already
    emitted, changes no candle and sends nothing: it is only counted. *)
Theorem late_tick_changes_no_candle tick now a tc a1 :
  let key := instrument_key (tick_Exchange tick) (tick_Token tick) in
  advance_clock key (CanonicalTS tick) now a = (tc, a1) →
  ag_MarketCloseGate a = false ∨ IsMarketOpen holidaySet (CanonicalTS tick) = true →
  tick_late a1 tc (t_unix (CanonicalTS tick)) = true →
  let a' := processTick tick now a in
  ag_states a' = ag_states a ∧ ag_candleCh a' = ag_candleCh a ∧ ag_log a' = LateTick :: ag_log a ∧
  (∀ tok, last_emitted a' tok = last_emitted a tok).
Proof.
  intros key Hadv Hgate Hlate a'. unfold a', processTick.
  replace (ag_MarketCloseGate a && negb _) with false
    by (symmetry; apply andb_false_iff; destruct Hgate as [->| ->]; auto).
  fold (instrument_key (tick_Exchange tick) (tick_Token tick)). fold key. rewrite Hadv, Hlate.
  unfold advance_clock in Hadv. destruct (_ <? _); simplify_eq; simpl.
  all: repeat split; try (case_match; done).
  all: intros tok; unfold last_emitted; simpl; destruct (decide (key = tok)) as [<-|];
    rewrite ?lookup_insert_eq, ?lookup_insert_ne by done; simpl;
    try (case_match; simpl; rewrite ?lookup_insert_eq, ?lookup_insert_ne by done); simpl;
    by destruct (ag_clocks a !! _).
Qed.

End aggregator.

(** ** Concrete runs *)

(** A tick at [ms] milliseconds after 10:00 IST on Monday 2026-07-20. *)
Definition sample_tick (ms price vol : Z) : Tick := {|
  tick_Token := "2885"; tick_Exchange := "NSE"; tick_Price := price; tick_Qty := 1;
  tick_DayVolume := vol; tick_TickTS := zero_time;
  tick_EventTS := ist_date 20654 10 0 + ms * Millisecond;
  tick_BestBid := 0; tick_BestAsk := 0; tick_OI := 0; tick_QuoteTS := zero_time |}.

Definition sample_now (ms : Z) : Time := ist_date 20654 10 0 + ms * Millisecond.

(** The seconds arrive out of order, and the first one comes back late. *)
Definition sample_ops : list AggOp :=
  [OpTick (sample_tick 1100 5000 10) (sample_now 1150);
   OpTick (sample_tick 900 4990 8) (sample_now 1160);
   OpTick (sample_tick 2500 5010 15) (sample_now 2600);
   OpTick (sample_tick 950 4000 9) (sample_now 2610);
   OpTimer (sample_now 9000)].

Lemma seconds_finalised_once_witness :
  NoDup (finalised (ag_log (agg_run (MO := canonical_order) ∅ sample_ops (New true 8)))) ∧
  length (ag_log (agg_run (MO := canonical_order) ∅ sample_ops (New true 8))) = 4%nat.
Proof.
  split; [|vm_compute; reflexivity].
  apply (seconds_finalised_once (MO := canonical_order) ∅ sample_ops (New true 8)); try reflexivity.
  repeat apply Forall_cons_2; try apply Forall_nil_2; vm_compute; auto.
Defined.

Lemma candles_well_formed_witness :
  candles_ok (agg_run (MO := canonical_order) ∅ sample_ops (New true 8)).
Proof.
  apply (candles_well_formed (MO := canonical_order) ∅ sample_ops (New true 8)).
  split; [apply map_Forall_empty|apply Forall_nil_2].
Defined.

Lemma tick_volume_telescopes_witness :
  foldr Z.add 0 (tick_volumes 0 [sample_tick 0 1 10; sample_tick 1 1 25; sample_tick 2 1 20; sample_tick 3 1 31]) = 21.
Proof.
  apply (tick_volume_telescopes (sample_tick 0 1 10)
    [sample_tick 1 1 25; sample_tick 2 1 20; sample_tick 3 1 31]).
  - z_compute.
  - repeat apply Forall_cons_2; try apply Forall_nil_2; z_compute.
Defined.

Lemma second_candle_summarises_witness :
  cs_candle <$> ag_states (agg_run (MO := canonical_order) ∅
    [OpTick (sample_tick 100 5000 10) (sample_now 100); OpTick (sample_tick 700 5020 14) (sample_now 700);
     OpTick (sample_tick 300 4980 12) (sample_now 710)] (New true 8)) !! "NSE:2885" =
  Some {| c_Token := "2885"; c_Exchange := "NSE"; c_TS := ist_date 20654 10 0; c_Open := 5000;
          c_High := 5020; c_Low := 4980; c_Close := 4980; c_Volume := 4; c_TicksCount := 3 |}.
Proof.
  rewrite (second_candle_summarises (MO := canonical_order) ∅ "2885" "NSE" (t_unix (sample_now 0))
    (sample_tick 100 5000 10) (sample_now 100)
    [(sample_tick 700 5020 14, sample_now 700); (sample_tick 300 4980 12, sample_now 710)] (New true 8)).
  - vm_compute. reflexivity.
  - repeat split; vm_compute; reflexivity.
  - repeat apply Forall_cons_2; try apply Forall_nil_2; repeat split; vm_compute; reflexivity.
  - z_compute.
  - z_compute.
  - z_compute.
  - z_compute.
  - reflexivity.
Defined.

Lemma late_tick_changes_no_candle_witness :
  let a := agg_run (MO := canonical_order) ∅ (take 3 sample_ops) (New true 8) in
  ag_log (processTick ∅ (sample_tick 950 4000 9) (sample_now 2610) a) = LateTick :: ag_log a.
Proof.
  set (a := agg_run (MO := canonical_order) ∅ (take 3 sample_ops) (New true 8)). cbv zeta.
  destruct (late_tick_changes_no_candle ∅ (sample_tick 950 4000 9) (sample_now 2610) a
    (advance_clock "NSE:2885" (sample_now 950) (sample_now 2610) a).1
    (advance_clock "NSE:2885" (sample_now 950) (sample_now 2610) a).2) as (_ & _ & H & _).
  - apply surjective_pairing.
  - right. vm_compute. reflexivity.
  - vm_compute. reflexivity.
  - exact H.
Defined.
