(* ===== verification/TfBuilder.v ===== *)
(** Timeframe resampler (internal/marketdata/tfbuilder): one-second candles
    into timeframe candles.  [tb_tfs] and [tb_states] are the code's two
    parallel slices.  The wall clock is a stream of readings, one consumed by
    every [b.now()]; channels and hooks are recorded, newest first, in a log. *)
From S2P Require Import Prelude GoText Model.
#[local] Open Scope Z_scope.
#[local] Open Scope go_scope.

Record tfState := {
  ts_bucket : Z;
  ts_candle : TFCandle;
  ts_started : bool;
}.

Record eventClock := {
  ec_maxEventTS : Z;
  ec_wall : Time;
}.

Inductive TfEvent :=
  | OutSent (c : TFCandle)               (** delivered to outCh *)
  | FinalSent (c : TFCandle)             (** delivered to FinalOut *)
  | OnDrop (final : bool) (c : TFCandle)
  | OnTFCandle (c : TFCandle)
  | OnStaleCandle
  | OnLateCandle.

Record Builder := {
  tb_tfs : list Z;
  tb_states : list (gmap string tfState);
  tb_StaleTolerance : Duration;
  tb_FlushGrace : Z;
  tb_clocks : gmap string eventClock;
  tb_FinalOut : bool;      (** is FinalOut set? *)
  tb_outCh : chan TFCandle;
  tb_reads : nat;          (** readings taken of the wall clock *)
  tb_log : list TfEvent;
}.

Definition New (tfs : list Z) (finalOut : bool) (cap : nat) : Builder := {|
  tb_tfs := tfs; tb_states := replicate (length tfs) ∅; tb_StaleTolerance := 2 * Second;
  tb_FlushGrace := 2; tb_clocks := ∅; tb_FinalOut := finalOut; tb_outCh := Chan cap [];
  tb_reads := 0; tb_log := [] |}.

Definition set_tfs_states (tfs : list Z) (ss : list (gmap string tfState)) (b : Builder) : Builder := {|
  tb_tfs := tfs; tb_states := ss; tb_StaleTolerance := tb_StaleTolerance b;
  tb_FlushGrace := tb_FlushGrace b; tb_clocks := tb_clocks b; tb_FinalOut := tb_FinalOut b;
  tb_outCh := tb_outCh b; tb_reads := tb_reads b; tb_log := tb_log b |}.
Definition set_clocks (cl : gmap string eventClock) (b : Builder) : Builder := {|
  tb_tfs := tb_tfs b; tb_states := tb_states b; tb_StaleTolerance := tb_StaleTolerance b;
  tb_FlushGrace := tb_FlushGrace b; tb_clocks := cl; tb_FinalOut := tb_FinalOut b;
  tb_outCh := tb_outCh b; tb_reads := tb_reads b; tb_log := tb_log b |}.
Definition set_reads (n : nat) (b : Builder) : Builder := {|
  tb_tfs := tb_tfs b; tb_states := tb_states b; tb_StaleTolerance := tb_StaleTolerance b;
  tb_FlushGrace := tb_FlushGrace b; tb_clocks := tb_clocks b; tb_FinalOut := tb_FinalOut b;
  tb_outCh := tb_outCh b; tb_reads := n; tb_log := tb_log b |}.
Definition log_out (ch : chan TFCandle) (e : TfEvent) (b : Builder) : Builder := {|
  tb_tfs := tb_tfs b; tb_states := tb_states b; tb_StaleTolerance := tb_StaleTolerance b;
  tb_FlushGrace := tb_FlushGrace b; tb_clocks := tb_clocks b; tb_FinalOut := tb_FinalOut b;
  tb_outCh := ch; tb_reads := tb_reads b; tb_log := e :: tb_log b |}.
Definition hook (e : TfEvent) (b : Builder) : Builder := log_out (tb_outCh b) e b.

(** [b.states[i]] and its update. *)
Definition state_map (i : nat) (b : Builder) : gmap string tfState := default ∅ (tb_states b !! i).
Definition set_state_map (i : nat) (m : gmap string tfState) (b : Builder) : Builder :=
  set_tfs_states (tb_tfs b) (<[i := m]> (tb_states b)) b.

Definition tfc_final (c : TFCandle) : TFCandle := {|
  tfc_Token := tfc_Token c; tfc_Exchange := tfc_Exchange c; tfc_TF := tfc_TF c; tfc_TS := tfc_TS c;
  tfc_Open := tfc_Open c; tfc_High := tfc_High c; tfc_Low := tfc_Low c; tfc_Close := tfc_Close c;
  tfc_Volume := tfc_Volume c; tfc_Count := tfc_Count c; tfc_Forming := false |}.

(** [st.candle.Forming = false] *)
Definition finalise (st : tfState) : tfState :=
  {| ts_bucket := ts_bucket st; ts_candle := tfc_final (ts_candle st); ts_started := ts_started st |}.

(** The OHLCV merge of a one-second candle. *)
Definition merge_candle (fc : TFCandle) (c : Candle) : TFCandle := {|
  tfc_Token := tfc_Token fc; tfc_Exchange := tfc_Exchange fc; tfc_TF := tfc_TF fc; tfc_TS := tfc_TS fc;
  tfc_Open := tfc_Open fc;
  tfc_High := if tfc_High fc <? c_High c then c_High c else tfc_High fc;
  tfc_Low := if c_Low c <? tfc_Low fc then c_Low c else tfc_Low fc;
  tfc_Close := c_Close c;
  tfc_Volume := tfc_Volume fc +! c_Volume c;
  tfc_Count := tfc_Count fc +! 1;
  tfc_Forming := tfc_Forming fc |}.

Definition new_tfcandle (c : Candle) (tf bucket : Z) : TFCandle := {|
  tfc_Token := c_Token c; tfc_Exchange := c_Exchange c; tfc_TF := tf; tfc_TS := t_of_unix bucket;
  tfc_Open := c_Open c; tfc_High := c_High c; tfc_Low := c_Low c; tfc_Close := c_Close c;
  tfc_Volume := c_Volume c; tfc_Count := 1; tfc_Forming := true |}.

Section builder.
Context `{MO : MapOrder}.
(** The wall clock's successive readings, and, for each final candle sent to
    FinalOut, whether it is delivered before Done closes. *)
Context (wall : nat → Time) (delivered : TFCandle → bool).

Definition now (b : Builder) : Time * Builder := (wall (tb_reads b), set_reads (S (tb_reads b)) b).

Definition eventNow (key : string) (b : Builder) : Z * Builder :=
  match tb_clocks b !! key with
  | None => (0, b)
  | Some c =>
      if ec_maxEventTS c =? 0 then (0, b)
      else
        let '(t, b) := now b in
        (ec_maxEventTS c +! (t_sub t (ec_wall c) /! Second), b)
  end.

Definition emit (c : TFCandle) (b : Builder) : Builder :=
  let final := negb (tfc_Forming c) in
  if final && tb_FinalOut b then
    if delivered c then hook (FinalSent c) b else hook (OnDrop final c) b
  else
    match try_send (tb_outCh b) c with
    | Some ch => log_out ch (OutSent c) b
    | None => hook (OnDrop final c) b
    end.

Definition flushExpiredState (i : nat) (tf : Z) (key : string) (b : Builder) : Builder :=
  match state_map i b !! key with
  | None => b
  | Some st =>
      if negb (ts_started st) then set_state_map i (delete key (state_map i b)) b
      else
        let '(n, b) := eventNow key b in
        if n =? 0 then b
        else if ts_bucket st +! tf +! tb_FlushGrace b <=? n then
          let b := emit (tfc_final (ts_candle st)) b in
          let b := hook (OnTFCandle (tfc_final (ts_candle st))) b in
          set_state_map i (delete key (state_map i b)) b
        else b
  end.

(** [for i, tf := range b.tfs] *)
Definition for_tfs (f : nat → Z → Builder → Builder) (b : Builder) : Builder :=
  foldl (λ b '(i, tf), f i tf b) b (imap pair (tb_tfs b)).

Definition flushExpiredKey (key : string) (b : Builder) : Builder :=
  for_tfs (λ i tf, flushExpiredState i tf key) b.

Definition flushExpired (b : Builder) : Builder :=
  for_tfs (λ i tf b, foldl (λ b '(key, _), flushExpiredState i tf key b) b (range (state_map i b))) b.

Definition flushAll (b : Builder) : Builder :=
  for_tfs (λ i _ b,
    foldl (λ b '(key, st),
      let b := if ts_started st then emit (tfc_final (ts_candle st)) b else b in
      set_state_map i (delete key (state_map i b)) b) b (range (state_map i b))) b.

Definition FlushSession (b : Builder) : Builder := set_clocks ∅ (flushAll b).

(** No candle is forming for the bucket: open it, unless its time is over. *)
Definition open_bucket (c : Candle) (i : nat) (tf bucket : Z) (b : Builder) : Builder :=
  let key := Candle_Key c in
  let '(n, b) := eventNow key b in
  if bucket +! tf +! tb_FlushGrace b <=? n then hook OnLateCandle b
  else
    let st := {| ts_bucket := bucket; ts_started := true; ts_candle := new_tfcandle c tf bucket |} in
    emit (ts_candle st) (set_state_map i (<[key := st]> (state_map i b)) b).

(** One candle against one timeframe: the body of [process]'s loop. *)
Definition process_tf (c : Candle) (i : nat) (tf : Z) (b : Builder) : Builder :=
  let key := Candle_Key c in
  let bucket := TFBucket (t_unix (c_TS c)) tf in
  match state_map i b !! key with
  | None => open_bucket c i tf bucket b
  | Some st =>
      if (0 <? tb_StaleTolerance b) && (bucket <? ts_bucket st) &&
         (tb_StaleTolerance b <? (ts_bucket st -! bucket) *! Second)
      then hook OnStaleCandle b
      else if ts_bucket st <? bucket then
        let b := set_state_map i (<[key := finalise st]> (state_map i b)) b in
        let b := emit (tfc_final (ts_candle st)) b in
        open_bucket c i tf bucket (hook (OnTFCandle (tfc_final (ts_candle st))) b)
      else
        let st := {| ts_bucket := ts_bucket st; ts_started := ts_started st;
                     ts_candle := merge_candle (ts_candle st) c |} in
        emit (ts_candle st) (set_state_map i (<[key := st]> (state_map i b)) b)
  end.

Definition process (c : Candle) (b : Builder) : Builder :=
  let ts := t_unix (c_TS c) in
  let key := Candle_Key c in
  let b := set_clocks (<[key := default {| ec_maxEventTS := 0; ec_wall := zero_time |} (tb_clocks b !! key)]>
                        (tb_clocks b)) b in
  let '(n, b) := eventNow key b in
  let b :=
    if n <? ts then
      let '(w, b) := now b in
      flushExpiredKey key (set_clocks (<[key := {| ec_maxEventTS := ts; ec_wall := w |}]> (tb_clocks b)) b)
    else b in
  for_tfs (process_tf c) b.

Definition UpdateTFs (newTFs : list Z) (b : Builder) : Builder :=
  let b := for_tfs (λ i tf b,
    if bool_decide (tf ∈ newTFs) then b
    else foldl (λ b '(_, st), if ts_started st then emit (tfc_final (ts_candle st)) b else b)
           b (range (state_map i b))) b in
  let oldStates : gmap Z (gmap string tfState) :=
    foldl (λ m '(i, tf), <[tf := state_map i b]> m) ∅ (imap pair (tb_tfs b)) in
  set_tfs_states newTFs ((λ tf, default ∅ (oldStates !! tf)) <$> newTFs) b.

(** ** Runs: candles, timer ticks, session ends and receives on outCh. *)
Inductive TfOp := OpCandle (c : Candle) | OpTimer | OpFlushSession | OpUpdateTFs (tfs : list Z) | OpRecv.

Definition tf_step (op : TfOp) (b : Builder) : Builder :=
  match op with
  | OpCandle c => process c b
  | OpTimer => flushExpired b
  | OpFlushSession => FlushSession b
  | OpUpdateTFs tfs => UpdateTFs tfs b
  | OpRecv =>
      {| tb_tfs := tb_tfs b; tb_states := tb_states b; tb_StaleTolerance := tb_StaleTolerance b;
         tb_FlushGrace := tb_FlushGrace b; tb_clocks := tb_clocks b; tb_FinalOut := tb_FinalOut b;
         tb_outCh := Chan (ch_cap (tb_outCh b)) (tail (ch_buf (tb_outCh b)));
         tb_reads := tb_reads b; tb_log := tb_log b |}
  end.

Definition tf_run (ops : list TfOp) (b : Builder) : Builder := foldl (λ b op, tf_step op b) b ops.

(** ** What every operation leaves alone *)

Record same_config (b b' : Builder) : Prop := {
  sc_tfs : tb_tfs b' = tb_tfs b;
  sc_grace : tb_FlushGrace b' = tb_FlushGrace b;
  sc_clocks : tb_clocks b' = tb_clocks b;
  sc_reads : (tb_reads b <= tb_reads b')%nat;
}.

#[local] Instance same_config_preorder : PreOrder same_config.
Proof.
  split; [by split|]. intros x y z [] []. split; [congruence..|lia].
Qed.

(** What became of the states: each one is as before, gone, or satisfies [P]. *)
Definition states_step (P : nat → string → tfState → Prop) (b b' : Builder) : Prop :=
  ∀ i k st', state_map i b' !! k = Some st' →
    (∃ st, state_map i b !! k = Some st ∧ ts_bucket st' = ts_bucket st) ∨ P i k st'.

Lemma states_step_refl P b b' : tb_states b' = tb_states b → states_step P b b'.
Proof. unfold states_step, state_map. intros -> i k st' ?. eauto. Qed.

Lemma states_step_trans (P : nat → string → tfState → Prop) b1 b2 b3 :
  (∀ i k st st', P i k st → ts_bucket st' = ts_bucket st → P i k st') →
  states_step P b1 b2 → states_step P b2 b3 → states_step P b1 b3.
Proof.
  intros HP H12 H23 i k st' Hst'. destruct (H23 i k st' Hst') as [(st & Hst & E)|]; [|by right].
  destruct (H12 i k st Hst) as [(st0 & Hst0 & E0)|]; [left; exists st0; split; [done|congruence]|right; eauto].
Qed.

Lemma emit_config c b : same_config b (emit c b) ∧ tb_states (emit c b) = tb_states b.
Proof. unfold emit. repeat case_match; split; done. Qed.

Lemma eventNow_config key b :
  same_config b (eventNow key b).2 ∧ tb_states (eventNow key b).2 = tb_states b.
Proof. unfold eventNow, now. repeat case_match; simplify_eq; repeat split; simpl; done || lia. Qed.

Lemma set_map_lookup i j m b :
  state_map j (set_state_map i m b) = if decide (i = j ∧ (i < length (tb_states b))%nat) then m else state_map j b.
Proof.
  unfold state_map, set_state_map. simpl. case_decide as H.
  - destruct H as [<- H]. by rewrite list_lookup_insert_eq.
  - destruct (decide (i = j)) as [->|]; [|by rewrite list_lookup_insert_ne].
    rewrite list_insert_ge; [done|]. lia.
Qed.

Lemma set_map_config i m b : same_config b (set_state_map i m b).
Proof. by split. Qed.

Lemma set_map_step P i m b :
  (∀ k st', m !! k = Some st' →
     (∃ st, state_map i b !! k = Some st ∧ ts_bucket st' = ts_bucket st) ∨ P i k st') →
  states_step P b (set_state_map i m b).
Proof.
  intros Hm j k st'. rewrite set_map_lookup. case_decide as H; [destruct H as [<- _]; eauto|]. eauto.
Qed.

Lemma foldl_config {A} (f : Builder → A → Builder) (P : nat → string → tfState → Prop) l b :
  (∀ i k st st', P i k st → ts_bucket st' = ts_bucket st → P i k st') →
  (∀ b x, x ∈ l → same_config b (f b x) ∧ states_step P b (f b x)) →
  same_config b (foldl f b l) ∧ states_step P b (foldl f b l).
Proof.
  intros HP. revert b. induction l as [|x l IH]; intros b Hf; simpl.
  - split; [done|]. by apply states_step_refl.
  - destruct (Hf b x) as [H1 H2]; [set_solver|].
    destruct (IH (f b x)) as [H3 H4]; [intros; apply Hf; set_solver|].
    split; [by etrans|]. by eapply states_step_trans.
Qed.

Lemma flushExpiredState_frame i tf key b :
  same_config b (flushExpiredState i tf key b) ∧
  states_step (λ _ _ _, False) b (flushExpiredState i tf key b).
Proof.
  unfold flushExpiredState. destruct (state_map i b !! key) as [st|] eqn:E; [|by split; [|apply states_step_refl]].
  assert (∀ b', states_step (λ _ _ _, False) b' (set_state_map i (delete key (state_map i b')) b')) as Hdel.
  { intros b'. apply set_map_step. intros k st'. rewrite lookup_delete_Some. intros [_ ?]. eauto. }
  destruct (negb (ts_started st)); [by split; [|apply Hdel]|].
  destruct (eventNow_config key b) as [H1 H2]. destruct (eventNow key b) as [n b1]. simpl in *.
  destruct (n =? 0); [by split; [|apply states_step_refl]|].
  destruct (_ <=? n); [|by split; [|apply states_step_refl]].
  destruct (emit_config (tfc_final (ts_candle st)) b1) as [H3 H4].
  set (b2 := hook (OnTFCandle (tfc_final (ts_candle st))) (emit (tfc_final (ts_candle st)) b1)).
  assert (same_config b b2 ∧ tb_states b2 = tb_states b) as [H5 H6].
  { split; [|by simpl; rewrite H4]. do 2 (etrans; [eassumption|]). by split. }
  split; [etrans; [apply H5|by split]|].
  intros j k st'. intros Hst. destruct (Hdel b2 j k st' Hst) as [(st0 & Hst0 & ?)|[]].
  left. exists st0. unfold state_map in *. by rewrite H6 in Hst0.
Qed.

Lemma for_tfs_frame f b P :
  (∀ i k st st', P i k st → ts_bucket st' = ts_bucket st → P i k st') →
  (∀ i tf b', tb_tfs b !! i = Some tf → same_config b b' →
     same_config b' (f i tf b') ∧ states_step P b' (f i tf b')) →
  same_config b (for_tfs f b) ∧ states_step P b (for_tfs f b).
Proof.
  intros HP Hf. unfold for_tfs.
  assert (∀ l b', (∀ i tf, (i, tf) ∈ l → tb_tfs b !! i = Some tf) → same_config b b' →
    same_config b' (foldl (λ b '(i, tf), f i tf b) b' l) ∧
    states_step P b' (foldl (λ b '(i, tf), f i tf b) b' l)) as Hl.
  { induction l as [|[i tf] l IH]; intros b' Hin Hb'; simpl.
    - split; [done|by apply states_step_refl].
    - destruct (Hf i tf b') as [H1 H2]; [apply Hin; set_solver|done|].
      destruct (IH (f i tf b')) as [H3 H4]; [intros; apply Hin; set_solver|by etrans|].
      split; [by etrans|by eapply states_step_trans]. }
  apply Hl; [|done]. intros i tf Hin. apply elem_of_lookup_imap in Hin as (j & y & [= -> ->] & ?). done.
Qed.

Lemma flushExpiredKey_frame key b :
  same_config b (flushExpiredKey key b) ∧ states_step (λ _ _ _, False) b (flushExpiredKey key b).
Proof. apply for_tfs_frame; [done|]. intros. apply flushExpiredState_frame. Qed.

Lemma flushExpired_frame b :
  same_config b (flushExpired b) ∧ states_step (λ _ _ _, False) b (flushExpired b).
Proof.
  apply for_tfs_frame; [done|]. intros i tf b' _ _.
  apply (foldl_config (λ b '(key, _), flushExpiredState i tf key b)); [done|].
  intros b'' [k st] _. apply flushExpiredState_frame.
Qed.

(** ** Expired buckets stay closed *)

(** The token's event clock, as the next reading of the wall clock gives it. *)
Definition clock_at (key : string) (b : Builder) : Z := (eventNow key b).1.

Definition clocks_ok (b : Builder) : Prop :=
  map_Forall (λ _ c, 0 <= ec_maxEventTS c <= 2 ^ 40 ∧
    (ec_maxEventTS c ≠ 0 → ec_wall c <= wall (tb_reads b))) (tb_clocks b).

(** Magnitudes for which no sum of the code overflows. *)
Definition builder_ok (b : Builder) : Prop :=
  clocks_ok b ∧ 0 <= tb_FlushGrace b <= 2 ^ 31 ∧ Forall tf_ok (tb_tfs b).

Definition candle_ts_ok (c : Candle) : Prop := 0 <= t_unix (c_TS c) <= 2 ^ 32.

Lemma candle_ts_40 c : candle_ts_ok c → 0 <= t_unix (c_TS c) <= 2 ^ 40.
Proof. unfold candle_ts_ok. lia. Qed.

Context (wall_mono : ∀ n m, (n <= m)%nat → wall n <= wall m).

Lemma clocks_ok_config b b' : same_config b b' → clocks_ok b → clocks_ok b'.
Proof.
  intros [? ? E ?] Hok k c. rewrite E. intros Hc. destruct (Hok k c Hc) as [? Hw]. split; [done|].
  intros Hm. etrans; [by apply Hw|]. by apply wall_mono.
Qed.

Lemma elapsed_bounds t u : 0 <= Z.quot (t_sub t u) Second <= 2 ^ 63 ∨ t < u.
Proof.
  destruct (Z.lt_ge_cases t u) as [|]; [by right|left].
  assert (0 <= t_sub t u) by (unfold t_sub, min_i64, max_i64; lia).
  pose proof (t_sub_range t u). i64_unfold. unfold Second.
  pose proof (Z.quot_pos (t_sub t u) 1000000000).
  pose proof (Z.quot_le_upper_bound (t_sub t u) 1000000000 (2 ^ 63)). lia.
Qed.

Lemma clock_at_val key b :
  clocks_ok b →
  clock_at key b =
    match tb_clocks b !! key with
    | Some c => if ec_maxEventTS c =? 0 then 0
                else ec_maxEventTS c + Z.quot (t_sub (wall (tb_reads b)) (ec_wall c)) Second
    | None => 0
    end.
Proof.
  intros Hok. unfold clock_at, eventNow, now. destruct (tb_clocks b !! key) as [c|] eqn:E; [|done].
  destruct (Z.eqb_spec (ec_maxEventTS c) 0); [done|]. simpl.
  destruct (Hok key c E) as [? Hw]. specialize (Hw ltac:(done)).
  pose proof (t_sub_range (wall (tb_reads b)) (ec_wall c)). i64_unfold.
  assert (0 <= t_sub (wall (tb_reads b)) (ec_wall c)) by (unfold t_sub, min_i64, max_i64; lia).
  set (x := t_sub (wall (tb_reads b)) (ec_wall c)) in *. unfold Second.
  assert (0 <= Z.quot x 1000000000 <= 2 ^ 62).
  { split; [apply Z.quot_pos; lia|]. apply Z.quot_le_upper_bound; lia. }
  rewrite (i64_id (Z.quot _ _)) by (i64_unfold; lia). apply i64_id. i64_unfold. lia.
Qed.

Lemma clock_at_mono key b b' : same_config b b' → clocks_ok b → clock_at key b <= clock_at key b'.
Proof.
  intros Hcfg Hok. pose proof (clocks_ok_config _ _ Hcfg Hok) as Hok'. rewrite !clock_at_val by done.
  destruct Hcfg as [? ? -> Hr]. destruct (tb_clocks b !! key) as [c|]; [|done]. case_match; [done|].
  apply Zplus_le_compat_l, Z.quot_le_mono; [done|]. apply t_sub_mono, wall_mono. done.
Qed.

(** [e] is a time the token's clock has passed, in a builder of the same setup. *)
Record passed (key : string) (e : Z) (b0 b : Builder) : Prop := {
  pa_tfs : tb_tfs b = tb_tfs b0;
  pa_grace : tb_FlushGrace b = tb_FlushGrace b0;
  pa_ok : builder_ok b;
  pa_clock : e <= clock_at key b;
}.

Lemma passed_config key e b0 b b' : passed key e b0 b → same_config b b' → passed key e b0 b'.
Proof.
  intros [Ht Hg [Hc Hb] He] Hcfg. split.
  - rewrite (sc_tfs _ _ Hcfg). done.
  - rewrite (sc_grace _ _ Hcfg). done.
  - split; [by apply (clocks_ok_config b)|]. by rewrite (sc_grace _ _ Hcfg), (sc_tfs _ _ Hcfg).
  - etrans; [apply He|]. by apply clock_at_mono.
Qed.

(** A candle state that was open when the clock read [e]. *)
Definition not_expired (key : string) (e : Z) (b0 : Builder) (i : nat) (k : string) (st : tfState) : Prop :=
  k = key → ∀ tf, tb_tfs b0 !! i = Some tf → e < ts_bucket st + tf + tb_FlushGrace b0.

Lemma bucket_bounds ts tf : 0 <= ts <= 2 ^ 40 → tf_ok tf → ts - tf < TFBucket ts tf <= ts.
Proof.
  intros Hts Htf. rewrite TFBucket_floor by (unfold ts_ok in *; auto; lia).
  unfold tf_ok in Htf. pose proof (Z.mod_pos_bound (ts - TFOffset tf) tf). lia.
Qed.

(** Replacing the bucket's candle keeps every state's bucket. *)
Lemma replace_frame (P : nat → string → tfState → Prop) i k st st0 cc e' b :
  state_map i b !! k = Some st0 → ts_bucket st = ts_bucket st0 →
  let b1 := emit cc (set_state_map i (<[k := st]> (state_map i b)) b) in
  let b2 := hook e' b1 in
  same_config b b2 ∧ states_step P b b2 ∧ same_config b b1 ∧ states_step P b b1.
Proof.
  intros Hst Hb b1 b2.
  destruct (emit_config cc (set_state_map i (<[k := st]> (state_map i b)) b)) as [H3 H4].
  assert (same_config b b1) as H1 by (etrans; [|apply H3]; by split).
  assert (states_step P b b1) as H2.
  { intros j k' st'. unfold state_map at 1. fold b1 in H4. rewrite H4.
    fold (state_map j (set_state_map i (<[k := st]> (state_map i b)) b)). rewrite set_map_lookup.
    case_decide as Hd; [|eauto]. destruct Hd as [<- _]. rewrite lookup_insert_Some.
    intros [[<- <-]|[_ ?]]; eauto. }
  split; [etrans; [apply H1|by split]|]. split; [|done]. apply H2.
Qed.

Lemma open_bucket_frame key e b0 c i tf b :
  candle_ts_ok c → tb_tfs b0 !! i = Some tf → passed key e b0 b →
  let b' := open_bucket c i tf (TFBucket (t_unix (c_TS c)) tf) b in
  same_config b b' ∧ states_step (not_expired key e b0) b b'.
Proof.
  intros Hc Htf Hp. unfold open_bucket. set (bucket := TFBucket (t_unix (c_TS c)) tf).
  destruct (eventNow_config (Candle_Key c) b) as [H1 H2].
  destruct (eventNow (Candle_Key c) b) as [n b1] eqn:En. simpl in H1, H2.
  assert (∀ j, state_map j b1 = state_map j b) as Esm by (intros; unfold state_map; by rewrite H2).
  destruct (Z.leb_spec (bucket +! tf +! tb_FlushGrace b1) n) as [|Hn].
  { split; [|by apply states_step_refl]. etrans; [done|]. by split. }
  set (st := {| ts_bucket := bucket; ts_candle := _; ts_started := true |}).
  destruct (emit_config (ts_candle st) (set_state_map i (<[Candle_Key c := st]> (state_map i b1)) b1)) as [H3 H4].
  split; [etrans; [done|]; etrans; [|apply H3]; by split|].
  intros j k st'. unfold state_map at 1. rewrite H4.
  fold (state_map j (set_state_map i (<[Candle_Key c := st]> (state_map i b1)) b1)).
  rewrite set_map_lookup, !Esm. case_decide as Hd; [|rewrite ?Esm; eauto]. destruct Hd as [<- _].
  rewrite lookup_insert_Some. intros [[<- <-]|[_ Hk]]; [right|eauto].
  intros Hkey tf' Htf'. simplify_eq. simpl.
  pose proof (pa_clock _ _ _ _ Hp) as He. unfold clock_at in He. rewrite En in He. simpl in He.
  destruct (pa_ok _ _ _ _ Hp) as (_ & Hg & Htfs). rewrite (pa_tfs _ _ _ _ Hp) in Htfs.
  pose proof (Forall_lookup_1 _ _ _ _ Htfs Htf) as Htfok.
  pose proof (bucket_bounds _ _ (candle_ts_40 c Hc) Htfok) as Hbb. fold bucket in Hbb.
  unfold tf_ok in Htfok. unfold candle_ts_ok in Hc.
  rewrite <-(pa_grace _ _ _ _ Hp). rewrite (sc_grace _ _ H1) in Hn.
  rewrite (i64_id (bucket + tf)), i64_id in Hn by (i64_unfold; lia). lia.
Qed.

Lemma not_expired_mono key e b0 i k st st' :
  not_expired key e b0 i k st → ts_bucket st' = ts_bucket st → not_expired key e b0 i k st'.
Proof. unfold not_expired. intros H ->. done. Qed.

Lemma process_tf_frame key e b0 c i tf b :
  candle_ts_ok c → tb_tfs b0 !! i = Some tf → passed key e b0 b →
  same_config b (process_tf c i tf b) ∧ states_step (not_expired key e b0) b (process_tf c i tf b).
Proof.
  intros Hc Htf Hp. unfold process_tf.
  destruct (state_map i b !! Candle_Key c) as [st|] eqn:Hst; [|by apply open_bucket_frame].
  case_match; [by split; [|apply states_step_refl]|]. case_match.
  - destruct (replace_frame (not_expired key e b0) i (Candle_Key c) (finalise st) st
      (tfc_final (ts_candle st)) (OnTFCandle (tfc_final (ts_candle st))) b) as (H1 & H2 & _); [done..|].
    match goal with |- context [open_bucket c i tf _ ?bb] => set (b1 := bb) in * end.
    destruct (open_bucket_frame key e b0 c i tf b1) as [H3 H4]; [done..|by eapply passed_config|].
    split; [by etrans|]. eapply states_step_trans; [|done..]. apply not_expired_mono.
  - match goal with |- context [<[_ := ?st']> _] =>
      destruct (replace_frame (not_expired key e b0) i (Candle_Key c) st' st
        (merge_candle (ts_candle st) c) OnLateCandle b) as (_ & _ & H1 & H2); [done..|] end.
    by split.
Qed.

Lemma process_frame key e b0 c b :
  candle_ts_ok c → passed key e b0 b →
  passed key e b0 (process c b) ∧ states_step (not_expired key e b0) b (process c b).
Proof.
  intros Hc Hp. unfold process. set (k := Candle_Key c).
  set (b1 := set_clocks _ b).
  assert (passed key e b0 b1 ∧ tb_states b1 = tb_states b) as [Hp1 Hs1].
  { destruct Hp as [Ht Hg [Hok Hb] He]. split; [|done]. 
    assert (clocks_ok b1) as Hok1.
    { intros k' c'. simpl. rewrite lookup_insert_Some. intros [[<- <-]|[_ ?]]; [|by apply (Hok k')].
      destruct (tb_clocks b !! k) as [c0|] eqn:E; simpl; [by apply (Hok k)|]. split; [lia|done]. }
    split; auto; [by split|]. rewrite clock_at_val in He |- * by done. simpl.
    destruct (decide (k = key)) as [->|]; [|by rewrite lookup_insert_ne].
    rewrite lookup_insert_eq. by destruct (tb_clocks b !! key). }
  destruct (eventNow_config k b1) as [H1 H2]. destruct (eventNow k b1) as [n b2] eqn:En. simpl in H1, H2.
  match goal with |- context [for_tfs _ ?bb] => set (b3 := bb) end.
  assert (passed key e b0 b3 ∧ states_step (not_expired key e b0) b b3) as [Hp3 Hs3].
  { unfold b3. clear b3. pose proof (passed_config _ _ _ _ _ Hp1 H1) as Hp2. destruct (Z.ltb_spec n (t_unix (c_TS c))) as [Hlt|].
    - unfold now. cbv zeta. 
      match goal with |- context [flushExpiredKey k ?bb] => set (b4 := bb) end.
      destruct (flushExpiredKey_frame k b4) as [H5 H6].
      assert (passed key e b0 b4) as Hp4; [|split; [by eapply passed_config|]].
      + destruct Hp2 as [Ht Hg [Hok Hb] He].
        assert (clocks_ok b4) as Hok4.
        { intros k' c'. simpl. rewrite lookup_insert_Some. intros [[<- <-]|[_ Hk']].
          - simpl. split; [by apply candle_ts_40|]. intros _. apply wall_mono. lia.
          - destruct (Hok k' c' Hk') as [? Hw]. split; [done|]. intros Hm. etrans; [by apply Hw|]. apply wall_mono. simpl. lia. }
        split; auto; [by split|].
        destruct (decide (k = key)) as [->|].
        * pose proof (pa_clock _ _ _ _ Hp1) as He1. unfold clock_at in He1. rewrite En in He1. simpl in He1.
          rewrite clock_at_val by done. simpl. rewrite lookup_insert_eq. simpl.
          case_match; [unfold candle_ts_ok in Hc; bool_prop; lia|].
          destruct (elapsed_bounds (wall (S (tb_reads b2))) (wall (tb_reads b2))) as [?|?]; [lia|].
          pose proof (wall_mono (tb_reads b2) (S (tb_reads b2))). lia.
        * etrans; [apply He|]. rewrite !clock_at_val by done. simpl. rewrite lookup_insert_ne by done.
          destruct (tb_clocks b2 !! key); [|done]. case_match; [done|].
          apply Zplus_le_compat_l, Z.quot_le_mono; [done|]. apply t_sub_mono, wall_mono. lia.
      + intros i k' st' Hst. destruct (H6 i k' st' Hst) as [(st & Hst0 & ?)|[]]. left. exists st.
        split; [|done]. unfold state_map in *. simpl in Hst0. by rewrite H2 in Hst0.
    - split; [done|]. apply states_step_refl. congruence. }
  destruct (for_tfs_frame (process_tf c) b3 (not_expired key e b0)) as [H7 H8].
  - apply not_expired_mono.
  - intros i tf b' Hi Hcfg. apply process_tf_frame; [done| |by eapply passed_config].
    by rewrite <-(pa_tfs _ _ _ _ Hp3).
  - split; [by eapply passed_config|]. eapply states_step_trans; [|done..]. apply not_expired_mono.
Qed.

(** Candles and timer ticks: the steps within a session. *)
Definition session_op (op : TfOp) : Prop :=
  match op with OpCandle c => candle_ts_ok c | OpTimer | OpRecv => True | _ => False end.

Lemma tf_step_frame key e b0 op b :
  session_op op → passed key e b0 b →
  passed key e b0 (tf_step op b) ∧ states_step (not_expired key e b0) b (tf_step op b).
Proof.
  intros Hop Hp. destruct op; simpl; try done.
  - by apply process_frame.
  - destruct (flushExpired_frame b) as [H1 H2]. split; [by eapply passed_config|].
    intros i k st' Hst. destruct (H2 i k st' Hst) as [?|[]]. by left.
  - split; [|by apply states_step_refl]. eapply passed_config; [done|]. by split.
Qed.

Lemma tf_run_frame key e b0 ops b :
  Forall session_op ops → passed key e b0 b →
  passed key e b0 (tf_run ops b) ∧ states_step (not_expired key e b0) b (tf_run ops b).
Proof.
  unfold tf_run. intros Hops. revert b. induction Hops as [|op ops Hop _ IH]; intros b Hp; simpl.
  - split; [done|by apply states_step_refl].
  - destruct (tf_step_frame key e b0 op b Hop Hp) as [H1 H2]. destruct (IH _ H1) as [H3 H4].
    split; [done|]. eapply states_step_trans; [|done..]. apply not_expired_mono.
Qed.

(** A token's event clock never runs backward, and a bucket that had
    expired on it, end and grace passed, is never opened again, however late
    its candles arrive: any candle later forming for the token is one that
    was already forming or whose bucket had not expired. *)
Theorem expired_bucket_never_reopened ops key b i tf st :
  Forall session_op ops → builder_ok b → tb_tfs b !! i = Some tf →
  let b' := tf_run ops b in
  clock_at key b <= clock_at key b' ∧
  (state_map i b' !! key = Some st →
   (∃ st0, state_map i b !! key = Some st0 ∧ ts_bucket st = ts_bucket st0) ∨
   clock_at key b < ts_bucket st + tf + tb_FlushGrace b).
Proof.
  intros Hops Hok Htf b'. destruct (tf_run_frame key (clock_at key b) b ops b) as [Hp Hs]; [done|by split|].
  split; [apply (pa_clock _ _ _ _ Hp)|]. intros Hst. destruct (Hs i key st Hst) as [?|Hne]; [by left|right].
  by apply Hne.
Qed.

(** ** A timeframe candle is the summary of its one-second candles *)

Definition tf_summary (x : Candle) (l : list Candle) (tf : Z) (ts : Time) (forming : bool) : TFCandle := {|
  tfc_Token := c_Token x; tfc_Exchange := c_Exchange x; tfc_TF := tf; tfc_TS := ts;
  tfc_Open := c_Open x;
  tfc_High := foldr Z.max (c_High x) (c_High <$> l);
  tfc_Low := foldr Z.min (c_Low x) (c_Low <$> l);
  tfc_Close := default (c_Close x) (last (c_Close <$> l));
  tfc_Volume := foldl (λ v y, v +! c_Volume y) (c_Volume x) l;
  tfc_Count := foldl (λ n _, n +! 1) 1 l;
  tfc_Forming := forming |}.

Definition in_bucket (c : TFCandle) (y : Candle) : Prop :=
  Candle_Key y = TFCandle_Key c ∧ t_of_unix (TFBucket (t_unix (c_TS y)) (tfc_TF c)) = tfc_TS c.

(** [c] sums up candles of its own bucket, each taken once and in order, out
    of the history [H] of the candles processed. *)
Definition summarises (H : list Candle) (c : TFCandle) : Prop :=
  ∃ x l, x :: l `sublist_of` H ∧ Forall (in_bucket c) (x :: l) ∧
    c = tf_summary x l (tfc_TF c) (tfc_TS c) (tfc_Forming c).

Definition event_summarises (H : list Candle) (e : TfEvent) : Prop :=
  match e with
  | OutSent c | FinalSent c | OnDrop _ c | OnTFCandle c => summarises H c
  | _ => True
  end.

(** A state of timeframe [tf] under its key. *)
Definition state_summarises (H : list Candle) (tf : Z) (key : string) (st : tfState) : Prop :=
  summarises H (ts_candle st) ∧ tfc_TF (ts_candle st) = tf ∧ TFCandle_Key (ts_candle st) = key ∧
  tfc_TS (ts_candle st) = t_of_unix (ts_bucket st) ∧ (ts_bucket st - TFOffset tf) mod tf = 0 ∧
  ts_bucket st <= 2 ^ 32.

Lemma summarises_more H c y : summarises H c → summarises (H ++ [y]) c.
Proof. intros (x & l & ? & ?). exists x, l. split; [by apply sublist_inserts_r|done]. Qed.

Lemma summarises_final H c : summarises H c → summarises H (tfc_final c).
Proof.
  intros (x & l & Hl & Hin & E). exists x, l. split; [done|]. split; [done|].
  rewrite E at 1. done.
Qed.

Lemma summarises_new H c tf :
  summarises (H ++ [c]) (new_tfcandle c tf (TFBucket (t_unix (c_TS c)) tf)).
Proof.
  exists c, []. split; [by apply sublist_inserts_l|]. split; [|done].
  apply Forall_singleton. done.
Qed.

Lemma merge_summary x l tf ts f y :
  merge_candle (tf_summary x l tf ts f) y = tf_summary x (l ++ [y]) tf ts f.
Proof.
  unfold merge_candle, tf_summary. simpl. rewrite !fmap_app, !foldl_app. simpl.
  rewrite foldr_max_snoc, foldr_min_snoc, last_snoc. simpl. f_equal.
  - destruct (Z.ltb_spec (foldr Z.max (c_High x) (c_High <$> l)) (c_High y)); lia.
  - destruct (Z.ltb_spec (c_Low y) (foldr Z.min (c_Low x) (c_Low <$> l))); lia.
Qed.

Lemma summarises_merge H c y : summarises H c → in_bucket c y → summarises (H ++ [y]) (merge_candle c y).
Proof.
  intros (x & l & Hl & Hin & E) Hy. exists x, (l ++ [y]). split; [|split].
  - rewrite app_comm_cons. by apply sublist_app.
  - rewrite app_comm_cons. apply Forall_app. split; [done|]. by apply Forall_singleton.
  - rewrite E at 1. rewrite merge_summary. done.
Qed.

(** Two grid points less than a timeframe apart, [tf] at least the tolerance. *)
Lemma older_bucket_gap ts tf b :
  0 <= ts <= 2 ^ 40 → tf_ok tf → (b - TFOffset tf) mod tf = 0 → TFBucket ts tf < b → TFBucket ts tf + tf <= b.
Proof.
  intros Hts Htf Hb Hlt. assert (ts_ok ts) as Hok by (unfold ts_ok; lia).
  destruct (TFBucket_grid ts ts tf) as (_ & Hg & _); [done..|].
  unfold tf_ok in Htf. pose proof (Z.div_mod (b - TFOffset tf) tf). pose proof (Z.div_mod (TFBucket ts tf - TFOffset tf) tf).
  assert ((TFBucket ts tf - TFOffset tf) / tf < (b - TFOffset tf) / tf) by nia. nia.
Qed.

Lemma grid_new ts tf : 0 <= ts <= 2 ^ 40 → tf_ok tf → (TFBucket ts tf - TFOffset tf) mod tf = 0.
Proof.
  intros Hts Htf. assert (ts_ok ts) as Hok by (unfold ts_ok; lia). by destruct (TFBucket_grid ts ts tf) as (_ & ? & _).
Qed.

Definition log_ok (H : list Candle) (b : Builder) : Prop := Forall (event_summarises H) (tb_log b).

Lemma emit_log_ok H c b : summarises H c → log_ok H b → log_ok H (emit c b).
Proof. unfold emit, log_ok. intros. repeat case_match; simpl; constructor; done. Qed.

Lemma eventNow_log key b : tb_log (eventNow key b).2 = tb_log b.
Proof. unfold eventNow, now. by repeat case_match; simplify_eq. Qed.

(** [b'] is [b] with a new map for timeframe [i], and more logged. *)
Record only_at (i : nat) (b b' : Builder) : Prop := {
  oa_tfs : tb_tfs b' = tb_tfs b;
  oa_tol : tb_StaleTolerance b' = tb_StaleTolerance b;
  oa_rest j : j ≠ i → state_map j b' = state_map j b;
}.

#[local] Instance only_at_preorder i : PreOrder (only_at i).
Proof.
  split; [by split|]. intros x y z [Ht1 Hl1 H1] [Ht2 Hl2 H2]. split; [congruence..|].
  intros j Hj. rewrite H2, H1; done.
Qed.

Lemma set_map_only i m b : only_at i b (set_state_map i m b).
Proof. split; [done..|]. intros j ?. rewrite set_map_lookup. case_decide; naive_solver. Qed.

Lemma same_only i b b' :
  tb_tfs b' = tb_tfs b → tb_StaleTolerance b' = tb_StaleTolerance b → tb_states b' = tb_states b → only_at i b b'.
Proof. split; [done..|]. intros. unfold state_map. congruence. Qed.

Lemma emit_only i c b : only_at i b (emit c b).
Proof. apply same_only; unfold emit; by repeat case_match. Qed.
Lemma hook_only i e b : only_at i b (hook e b).
Proof. by apply same_only. Qed.
Lemma eventNow_only i key b : only_at i b (eventNow key b).2.
Proof. apply same_only; unfold eventNow, now; by repeat case_match; simplify_eq. Qed.

Definition at_ok (H : list Candle) (i : nat) (tf : Z) (b : Builder) : Prop :=
  map_Forall (state_summarises H tf) (state_map i b).

Lemma set_map_at_ok H i tf m b :
  map_Forall (state_summarises H tf) m → at_ok H i tf b → at_ok H i tf (set_state_map i m b).
Proof. unfold at_ok. intros ? ?. rewrite set_map_lookup. by case_decide. Qed.

Lemma same_at_ok H i tf b b' : tb_states b' = tb_states b → at_ok H i tf b → at_ok H i tf b'.
Proof. unfold at_ok, state_map. by intros ->. Qed.

Lemma insert_at_ok H i tf key st b :
  state_summarises H tf key st → at_ok H i tf b → at_ok H i tf (set_state_map i (<[key := st]> (state_map i b)) b).
Proof. intros. apply set_map_at_ok; [by apply map_Forall_insert_2|done]. Qed.

Lemma delete_at_ok H i tf key b : at_ok H i tf b → at_ok H i tf (set_state_map i (delete key (state_map i b)) b).
Proof. intros. apply set_map_at_ok; [by apply map_Forall_delete|done]. Qed.

Lemma at_ok_more H i tf b c : at_ok H i tf b → at_ok (H ++ [c]) i tf b.
Proof. intros Hat k st Hk. destruct (Hat k st Hk) as (? & ?). split; [by apply summarises_more|done]. Qed.

Lemma log_ok_more H b c : log_ok H b → log_ok (H ++ [c]) b.
Proof.
  intros Hlog. eapply Forall_impl; [exact Hlog|]. intros e. destruct e; simpl; try done; apply summarises_more.
Qed.

Lemma hook_log_ok H e b : event_summarises H e → log_ok H b → log_ok H (hook e b).
Proof. intros. by constructor. Qed.

Lemma open_bucket_ok H c i tf b :
  candle_ts_ok c → tf_ok tf →
  at_ok (H ++ [c]) i tf b → log_ok (H ++ [c]) b →
  let b' := open_bucket c i tf (TFBucket (t_unix (c_TS c)) tf) b in
  only_at i b b' ∧ at_ok (H ++ [c]) i tf b' ∧ log_ok (H ++ [c]) b'.
Proof.
  intros Hc Htf Hat Hlog. unfold open_bucket.
  pose proof (eventNow_only i (Candle_Key c) b) as H1. pose proof (eventNow_log (Candle_Key c) b) as H2.
  destruct (eventNow_config (Candle_Key c) b) as [_ H3].
  destruct (eventNow (Candle_Key c) b) as [n b1]. simpl in *.
  assert (at_ok (H ++ [c]) i tf b1 ∧ log_ok (H ++ [c]) b1) as [Hat1 Hlog1].
  { split; [by eapply same_at_ok|]. unfold log_ok. by rewrite H2. }
  case_match.
  - split; [etrans; [done|apply hook_only]|]. split; [done|]. by apply hook_log_ok.
  - pose proof (summarises_new H c tf) as Hnew.
    set (st := {| ts_bucket := _; ts_candle := _; ts_started := true |}).
    split; [etrans; [done|]; etrans; [apply set_map_only|apply emit_only]|].
    split; [|by apply emit_log_ok].
    apply (same_at_ok _ _ _ (set_state_map i (<[Candle_Key c := st]> (state_map i b1)) b1)); [apply emit_config|].
    apply insert_at_ok; [|done]. split; [done|]. repeat split.
    + apply grid_new; [by apply candle_ts_40|done].
    + pose proof (bucket_bounds _ tf (candle_ts_40 c Hc) Htf). unfold candle_ts_ok in Hc. simpl. lia.
Qed.

Lemma process_tf_ok H c i tf b :
  candle_ts_ok c → tf_ok tf → 0 < tb_StaleTolerance b < tf * Second →
  at_ok H i tf b → log_ok (H ++ [c]) b →
  only_at i b (process_tf c i tf b) ∧ at_ok (H ++ [c]) i tf (process_tf c i tf b) ∧
  log_ok (H ++ [c]) (process_tf c i tf b).
Proof.
  intros Hc Htf Htol Hat Hlog. pose proof (at_ok_more _ _ _ _ c Hat) as Hat'. unfold process_tf.
  set (bucket := TFBucket (t_unix (c_TS c)) tf).
  destruct (state_map i b !! Candle_Key c) as [st|] eqn:Hst; [|by apply open_bucket_ok].
  destruct (Hat _ _ Hst) as (Hsum & Etf & Ekey & Ets & Hgrid & Hle).
  destruct (_ && _ && _) eqn:Hstale.
  { split; [apply hook_only|]. split; [done|]. by apply hook_log_ok. }
  pose proof (summarises_final _ _ (summarises_more _ _ c Hsum)) as Hfin.
  destruct (Z.ltb_spec (ts_bucket st) bucket).
  - match goal with |- context [open_bucket c i tf _ ?bb] => set (b1 := bb) in * end.
    assert (only_at i b b1 ∧ at_ok (H ++ [c]) i tf b1 ∧ log_ok (H ++ [c]) b1) as (H1 & H2 & H3).
    { unfold b1. split; [etrans; [apply set_map_only|]; etrans; [apply emit_only|apply hook_only]|].
      split; [|by apply hook_log_ok, emit_log_ok].
      apply (same_at_ok _ _ _ (set_state_map i (<[Candle_Key c := finalise st]> (state_map i b)) b));
        [simpl; apply emit_config|]. apply insert_at_ok; [|done]. by repeat split. }
    destruct (open_bucket_ok H c i tf b1) as (H4 & ?); [done..|]. split; [by etrans|done].
  - assert (ts_bucket st = bucket) as Eb.
    { destruct (decide (bucket < ts_bucket st)) as [Hlt|]; [|lia].
      pose proof (older_bucket_gap _ tf (ts_bucket st) (candle_ts_40 c Hc) Htf Hgrid Hlt) as Hgap.
      pose proof (bucket_bounds _ tf (candle_ts_40 c Hc) Htf) as Hbb. fold bucket in Hgap, Hbb.
      unfold candle_ts_ok in Hc.
      exfalso. revert Hstale. rewrite (proj2 (Z.ltb_lt 0 _)), (proj2 (Z.ltb_lt bucket _)) by lia.
      unfold tf_ok, Second in *. simpl. rewrite (i64_id (_ - _)) by (i64_unfold; lia).
      rewrite i64_id by (i64_unfold; lia). intros Hlag. bool_prop. lia. }
    assert (in_bucket (ts_candle st) c) as Hin.
    { split; [by rewrite Ekey|]. rewrite Etf, Ets, Eb. done. }
    pose proof (summarises_merge _ _ _ Hsum Hin) as Hm.
    set (st' := {| ts_bucket := ts_bucket st; ts_candle := merge_candle (ts_candle st) c; ts_started := _ |}).
    split; [etrans; [apply set_map_only|apply emit_only]|]. split; [|by apply emit_log_ok].
    apply (same_at_ok _ _ _ (set_state_map i (<[Candle_Key c := st']> (state_map i b)) b)); [apply emit_config|].
    apply insert_at_ok; [|done]. by repeat split.
Qed.

(** Timeframes longer than the default staleness tolerance. *)
Definition long_tf (tf : Z) : Prop := 2 < tf <= 2 ^ 31.

Record history_ok (H : list Candle) (b : Builder) : Prop := {
  ho_tfs : Forall long_tf (tb_tfs b);
  ho_tol : tb_StaleTolerance b = 2 * Second;
  ho_at i tf : tb_tfs b !! i = Some tf → at_ok H i tf b;
  ho_log : log_ok H b;
}.

(** A step that works on one timeframe's map at a time. *)
Definition tf_step_ok (H H' : list Candle) (f : nat → Z → Builder → Builder) : Prop :=
  ∀ i tf b, long_tf tf → tb_StaleTolerance b = 2 * Second → at_ok H i tf b → log_ok H' b →
  only_at i b (f i tf b) ∧ at_ok H' i tf (f i tf b) ∧ log_ok H' (f i tf b).

Lemma only_at_other H i j tf b b' : i ≠ j → only_at i b b' → at_ok H j tf b → at_ok H j tf b'.
Proof. intros Hne Ho. unfold at_ok. by rewrite (oa_rest _ _ _ Ho). Qed.

Lemma for_tfs_ok H H' f b :
  tf_step_ok H H' f → Forall long_tf (tb_tfs b) → tb_StaleTolerance b = 2 * Second →
  (∀ i tf, tb_tfs b !! i = Some tf → at_ok H i tf b) → log_ok H' b → history_ok H' (for_tfs f b).
Proof.
  clear wall_mono.
  intros Hf Htfs Htol Hat Hlog. unfold for_tfs.
  assert (∀ l b' (done_ : list nat), NoDup l.*1 → (∀ i tf, (i, tf) ∈ l → tb_tfs b !! i = Some tf ∧ i ∉ done_) →
    (∀ i tf, tb_tfs b !! i = Some tf → i ∈ done_ ∨ (i, tf) ∈ l) →
    tb_tfs b' = tb_tfs b → tb_StaleTolerance b' = 2 * Second →
    (∀ i tf, tb_tfs b !! i = Some tf → at_ok (if decide (i ∈ done_) then H' else H) i tf b') → log_ok H' b' →
    history_ok H' (foldl (λ b '(i, tf), f i tf b) b' l)) as Hl.
  { induction l as [|[i tf] l IH]; intros b' done_ Hnd Hin Hall Ht Hto Hat' Hlog'; simpl.
    - split; rewrite ?Ht; auto. intros i tf Hi. specialize (Hat' i tf Hi).
      destruct (Hall i tf Hi) as [Hd|Hn]; [by rewrite decide_True in Hat'|by apply elem_of_nil in Hn].
    - simpl in Hnd. apply NoDup_cons in Hnd as [Hni Hnd].
      destruct (Hin i tf) as [Hi Hid]; [set_solver|]. pose proof (Hat' i tf Hi) as Hati.
      rewrite decide_False in Hati by done.
      destruct (Hf i tf b') as (Ho & Ha & Hlo); auto.
      { by eapply Forall_lookup_1. }
      apply (IH (f i tf b') (i :: done_)); auto.
      + intros j tf' Hj. destruct (Hin j tf') as [? ?]; [set_solver|]. split; [done|].
        intros [->|?]%elem_of_cons; [|done]. apply Hni, list_elem_of_fmap. by exists (i, tf').
      + intros j tf' Hj. destruct (Hall j tf' Hj) as [?|Hc]; [left; set_solver|].
        apply elem_of_cons in Hc as [[= -> ->]|?]; [left; set_solver|by right].
      + by rewrite (oa_tfs _ _ _ Ho).
      + by rewrite (oa_tol _ _ _ Ho).
      + intros j tf' Hj. destruct (decide (j = i)) as [->|Hne].
        * simplify_eq. rewrite decide_True by set_solver. done.
        * pose proof (Hat' j tf' Hj) as Hatj.
          rewrite (decide_ext (j ∈ i :: done_) (j ∈ done_)) by set_solver.
          by eapply only_at_other. }
  apply (Hl _ b []); auto.
  - rewrite fmap_imap. apply NoDup_alt. intros x y z Hx Hy. rewrite list_lookup_imap in Hx, Hy.
    destruct (tb_tfs b !! x), (tb_tfs b !! y); simplify_eq/=; done.
  - intros i tf Hi. apply elem_of_lookup_imap in Hi as (j & y & [= -> ->] & Hy). split; [done|set_solver].
  - intros i tf Hi. right. apply elem_of_lookup_imap. eauto.
Qed.

Lemma flushExpiredState_ok H key : tf_step_ok H H (λ i tf, flushExpiredState i tf key).
Proof.
  intros i tf b Htf Htol Hat Hlog. unfold flushExpiredState.
  destruct (state_map i b !! key) as [st|] eqn:Hst; [|done].
  destruct (negb (ts_started st)).
  { split; [apply set_map_only|]. split; [by apply delete_at_ok|done]. }
  pose proof (eventNow_only i key b) as H1. pose proof (eventNow_log key b) as H2.
  destruct (eventNow_config key b) as [_ H3]. destruct (eventNow key b) as [n b1]. simpl in *.
  assert (at_ok H i tf b1 ∧ log_ok H b1) as [Hat1 Hlog1].
  { split; [by eapply same_at_ok|]. unfold log_ok. by rewrite H2. }
  case_match; [done|]. case_match; [|done].
  pose proof (summarises_final _ _ (proj1 (Hat _ _ Hst))) as Hfin.
  split; [do 3 (etrans; [|apply set_map_only || apply hook_only || apply emit_only]); done|].
  split; [|by apply hook_log_ok, emit_log_ok].
  apply delete_at_ok. eapply same_at_ok; [|exact Hat1]. simpl. apply emit_config.
Qed.

(** A range over one timeframe's map, each entry handled by such a step. *)
Lemma range_ok {A} H (f : nat → Z → A → Builder → Builder) (l : list A) i tf b :
  (∀ x, x ∈ l → tf_step_ok H H (λ i tf, f i tf x)) → long_tf tf → tb_StaleTolerance b = 2 * Second →
  at_ok H i tf b → log_ok H b →
  let b' := foldl (λ b x, f i tf x b) b l in only_at i b b' ∧ at_ok H i tf b' ∧ log_ok H b'.
Proof.
  clear wall_mono.
  revert b. induction l as [|x l IH]; intros b Hf Htf Htol Hat Hlog; simpl; [done|].
  destruct (Hf x ltac:(set_solver) i tf b) as (H1 & H2 & H3); auto.
  destruct (IH (f i tf x b)) as (? & ?); auto.
  - intros y Hy. apply Hf. set_solver.
  - by rewrite (oa_tol _ _ _ H1).
  - split; [by etrans|done].
Qed.

Lemma emit_final_ok H i tf b st :
  summarises H (ts_candle st) → at_ok H i tf b → log_ok H b →
  let b' := if ts_started st then emit (tfc_final (ts_candle st)) b else b in
  only_at i b b' ∧ at_ok H i tf b' ∧ log_ok H b'.
Proof.
  intros Hs Hat Hlog. cbv zeta. case_match; [|done]. split; [apply emit_only|]. split.
  - eapply same_at_ok; [apply emit_config|done].
  - by apply emit_log_ok, Hlog; apply summarises_final.
Qed.

Lemma flushAll_step_ok H :
  tf_step_ok H H (λ i _ b,
    foldl (λ b '(key, st),
      let b := if ts_started st then emit (tfc_final (ts_candle st)) b else b in
      set_state_map i (delete key (state_map i b)) b) b (range (state_map i b))).
Proof.
  clear wall_mono.
  intros i tf b Htf Htol Hat Hlog.
  assert (∀ e : string * tfState, e ∈ range (state_map i b) → summarises H (ts_candle e.2)) as Hr.
  { intros [k st] Hin. apply elem_of_range in Hin. apply (Hat _ _ Hin). }
  generalize dependent (range (state_map i b)). intros l Hl.
  enough (∀ b', tb_StaleTolerance b' = 2 * Second → at_ok H i tf b' → log_ok H b' →
    let b'' := foldl (λ b '(key, st),
      let b := if ts_started st then emit (tfc_final (ts_candle st)) b else b in
      set_state_map i (delete key (state_map i b)) b) b' l in
    only_at i b' b'' ∧ at_ok H i tf b'' ∧ log_ok H b'') by auto.
  clear -Hl. induction l as [|[k st] l IH]; intros b Htol Hat Hlog; simpl; [done|].
  destruct (emit_final_ok H i tf b st) as (H1 & H2 & H3); [apply (Hl (k, st)); set_solver|done..|].
  set (b1 := if ts_started st then emit _ b else b) in *.
  destruct (IH ltac:(intros; apply Hl; set_solver) (set_state_map i (delete k (state_map i b1)) b1)) as (H4 & ?).
  - simpl. by rewrite (oa_tol _ _ _ H1).
  - by apply delete_at_ok.
  - done.
  - split; [|done]. etrans; [done|]. etrans; [apply set_map_only|done].
Qed.

Lemma UpdateTFs_flush_ok H (newTFs : list Z) :
  tf_step_ok H H (λ i tf b,
    if bool_decide (tf ∈ newTFs) then b
    else foldl (λ b '(_, st), if ts_started st then emit (tfc_final (ts_candle st)) b else b)
           b (range (state_map i b))).
Proof.
  clear wall_mono.
  intros i tf b Htf Htol Hat Hlog. case_match; [done|].
  assert (∀ e : string * tfState, e ∈ range (state_map i b) → summarises H (ts_candle e.2)) as Hr.
  { intros [k st] Hin. apply elem_of_range in Hin. apply (Hat _ _ Hin). }
  generalize dependent (range (state_map i b)). intros l Hl. clear Htol.
  revert b Hat Hlog. induction l as [|[k st] l IH]; intros b Hat Hlog; simpl; [done|].
  destruct (emit_final_ok H i tf b st) as (H1 & H2 & H3); [apply (Hl (k, st)); set_solver|done..|].
  destruct (IH ltac:(intros; apply Hl; set_solver) _ H2 H3) as (H4 & ?). split; [by etrans|done].
Qed.

Lemma old_states_lookup b (l : list (nat * Z)) (m0 : gmap Z (gmap string tfState)) tf m :
  foldl (λ m '(i, tf), <[tf := state_map i b]> m) m0 l !! tf = Some m →
  m0 !! tf = Some m ∨ ∃ i, (i, tf) ∈ l ∧ m = state_map i b.
Proof.
  clear wall_mono.
  revert m0. induction l as [|[i tf'] l IH]; intros m0; simpl; [by left|]. intros Hm.
  destruct (IH _ Hm) as [Hm0|(j & ? & ?)]; [|right; exists j; set_solver].
  apply lookup_insert_Some in Hm0 as [[<- <-]|[_ ?]]; [right; exists i; set_solver|by left].
Qed.

(** The timeframes an update may bring: distinct, each longer than the tolerance. *)
Definition tf_op_ok (op : TfOp) : Prop :=
  match op with
  | OpCandle c => candle_ts_ok c
  | OpUpdateTFs tfs => Forall long_tf tfs ∧ NoDup tfs
  | _ => True
  end.

Definition processed (op : TfOp) : list Candle := match op with OpCandle c => [c] | _ => [] end.

Lemma UpdateTFs_ok H newTFs b :
  Forall long_tf newTFs → history_ok H b → history_ok H (UpdateTFs newTFs b).
Proof.
  clear wall_mono.
  intros Hnew [Htfs Htol Hat Hlog]. unfold UpdateTFs.
  pose proof (for_tfs_ok H H _ b (UpdateTFs_flush_ok H newTFs) Htfs Htol Hat Hlog) as [Htfs1 Htol1 Hat1 Hlog1].
  match goal with |- context [imap pair (tb_tfs ?bb)] => set (b1 := bb) in * end.
  split; [done..| |done]. simpl. intros i tf Hi key st. unfold state_map. simpl.
  rewrite list_lookup_fmap, Hi. simpl.
  destruct (foldl _ ∅ _ !! tf) as [m|] eqn:Hm; simpl; [|by rewrite lookup_empty].
  apply old_states_lookup in Hm as [Hm|(j & Hj & ->)]; [by rewrite lookup_empty in Hm|].
  apply elem_of_lookup_imap in Hj as (j' & y & [= -> ->] & Hj). by apply (Hat1 _ _ Hj).
Qed.

Lemma tf_step_history H op b :
  tf_op_ok op → history_ok H b → history_ok (H ++ processed op) (tf_step op b).
Proof.
  clear wall_mono.
  intros Hop Hok. pose proof Hok as [Htfs Htol Hat Hlog]. destruct op; simpl; rewrite ?app_nil_r.
  - unfold process. set (b1 := set_clocks _ b).
    pose proof (eventNow_only 0 (Candle_Key c) b1) as H1. pose proof (eventNow_log (Candle_Key c) b1) as H2.
    destruct (eventNow_config (Candle_Key c) b1) as [_ H3]. destruct (eventNow (Candle_Key c) b1) as [n b2]. simpl in *.
    match goal with |- context [for_tfs _ ?bb] => set (b3 := bb) end.
    assert (history_ok H b3) as [Htfs3 Htol3 Hat3 Hlog3].
    { assert (∀ b2', tb_tfs b2' = tb_tfs b2 → tb_StaleTolerance b2' = tb_StaleTolerance b2 →
        tb_states b2' = tb_states b2 → tb_log b2' = tb_log b2 → history_ok H b2') as Hsame.
      { intros b2' E1 E2 E3 E4. split.
        - by rewrite E1, (oa_tfs _ _ _ H1).
        - by rewrite E2, (oa_tol _ _ _ H1).
        - intros i tf. rewrite E1, (oa_tfs _ _ _ H1). intros Hi. apply (same_at_ok _ _ _ b); [congruence|auto].
        - unfold log_ok. by rewrite E4, H2. }
      unfold b3, now. clear b3. case_match; [|by apply Hsame].
      match goal with |- context [flushExpiredKey _ ?bb] => set (b4 := bb) end.
      destruct (Hsame b4) as []; [done..|].
      apply (for_tfs_ok H H (λ i tf, flushExpiredState i tf (Candle_Key c))); auto. apply flushExpiredState_ok. }
    apply (for_tfs_ok H); auto using log_ok_more.
    intros i tf b' Htf Htol' Hat' Hlog'. unfold long_tf in Htf. apply process_tf_ok; auto.
    + unfold tf_ok. lia.
    + rewrite Htol'. unfold Second. lia.
  - apply (for_tfs_ok H); auto. intros i tf b' Htf Htol' Hat' Hlog'.
    apply (range_ok H (λ i tf x b, let '(key, _) := x in flushExpiredState i tf key b)); auto.
    intros [k st] _. apply flushExpiredState_ok.
  - unfold FlushSession. destruct (for_tfs_ok H H _ b (flushAll_step_ok H) Htfs Htol Hat Hlog) as [].
    by split.
  - apply UpdateTFs_ok; [apply Hop|done].
  - by split.
Qed.

(** C12: Every timeframe candle the resampler emits, forming or final, and every
    one it holds, is the summary of one-second candles it processed, all of
    its own instrument and bucket, each counted once and in their order of
    arrival: the first one's open, the last one's close, the highest high,
    the lowest low, the volumes added and their number.  The default
    staleness tolerance keeps older candles out as long as the timeframes
    are longer than it. *)
Theorem tf_candles_summarise ops b :
  Forall tf_op_ok ops → Forall long_tf (tb_tfs b) → tb_StaleTolerance b = 2 * Second →
  tb_log b = [] → (∀ i, state_map i b = ∅) →
  let H := concat (processed <$> ops) in
  let b' := tf_run ops b in
  Forall (event_summarises H) (tb_log b') ∧
  ∀ i tf key st, tb_tfs b' !! i = Some tf → state_map i b' !! key = Some st →
    summarises H (ts_candle st) ∧ tfc_TF (ts_candle st) = tf ∧ TFCandle_Key (ts_candle st) = key.
Proof.
  clear wall_mono.
  intros Hops Htfs Htol Hlog Hst H b'.
  assert (history_ok ([] ++ H) b') as [Htfs' Htol' Hat' Hlog'].
  { assert (history_ok [] b) as Hb.
    { split; auto; [|unfold log_ok; by rewrite Hlog]. intros i tf Hi k st. by rewrite Hst, lookup_empty. }
    unfold b', H, tf_run. clear -Hops Hb. generalize dependent (@nil Candle). revert b.
    induction Hops as [|op ops Hop _ IH]; intros b Hh Hb; simpl; [by rewrite app_nil_r|].
    rewrite app_assoc. apply IH. by apply tf_step_history. }
  split; [done|]. intros i tf key st Hi Hk. by destruct (Hat' i tf Hi key st Hk) as (? & ? & ? & ?).
Qed.

End builder.

(** ** Concrete runs *)

Definition sample_candle (ts price : Z) : Candle := {|
  c_Token := "2885"; c_Exchange := "NSE"; c_TS := t_of_unix ts; c_Open := price; c_High := price + 5;
  c_Low := price - 5; c_Close := price + 1; c_Volume := 10; c_TicksCount := 2 |}.

(** A wall clock that has stood at [t] seconds since the second reading: the
    feed delivered its backlog after a pause. *)
Definition paused_wall (t : Z) (n : nat) : Time := if decide (n < 2)%nat then 0 else t * Second.

Lemma paused_wall_mono t : 0 <= t → ∀ n m, (n <= m)%nat → paused_wall t n <= paused_wall t m.
Proof. unfold paused_wall, Second. intros ? n m ?. repeat case_decide; lia. Qed.

Lemma expired_bucket_never_reopened_witness :
  let b := tf_run (MO := canonical_order) (paused_wall 400) (λ _, true) [OpCandle (sample_candle 6000 100); OpTimer]
             (New [60] false 8) in
  clock_at (paused_wall 400) "NSE:2885" b = 6400 ∧
  clock_at (paused_wall 400) "NSE:2885" b <=
    clock_at (paused_wall 400) "NSE:2885"
      (tf_run (MO := canonical_order) (paused_wall 400) (λ _, true) [OpCandle (sample_candle 6030 100)] b).
Proof.
  set (b := tf_run _ _ _ _). cbv zeta. split; [vm_compute; reflexivity|].
  apply (expired_bucket_never_reopened (paused_wall 400) (λ _, true) (paused_wall_mono 400 ltac:(lia))
    [OpCandle (sample_candle 6030 100)] "NSE:2885" b 0 60
    {| ts_bucket := 0; ts_candle := new_tfcandle (sample_candle 0 0) 0 0; ts_started := true |}).
  - repeat constructor; vm_compute; discriminate.
  - split; [|split; [z_compute|repeat constructor; vm_compute; done || discriminate]].
    intros k c Hc. assert (tb_clocks b = {["NSE:2885" := {| ec_maxEventTS := 6000; ec_wall := 0 |}]}) as E
      by (vm_compute; reflexivity).
    rewrite E in Hc. apply lookup_singleton_Some in Hc as [_ <-]. split; [simpl; lia|].
    intros _. vm_compute. discriminate.
  - reflexivity.
Defined.

Lemma tf_candles_summarise_witness :
  let ops := [OpCandle (sample_candle 6000 100); OpCandle (sample_candle 6001 120); OpCandle (sample_candle 6002 90);
              OpFlushSession] in
  Forall (event_summarises (concat (processed <$> ops)))
    (tb_log (tf_run (MO := canonical_order) (paused_wall 0) (λ _, true) ops (New [60; 300] false 32))) ∧
  head (tb_log (tf_run (MO := canonical_order) (paused_wall 0) (λ _, true) ops (New [60; 300] false 32))) =
    Some (OutSent {| tfc_Token := "2885"; tfc_Exchange := "NSE"; tfc_TF := 300; tfc_TS := t_of_unix 6000;
      tfc_Open := 100; tfc_High := 125; tfc_Low := 85; tfc_Close := 91; tfc_Volume := 30; tfc_Count := 3;
      tfc_Forming := false |}).
Proof.
  cbv zeta. split; [|vm_compute; reflexivity].
  apply (tf_candles_summarise (MO := canonical_order) (paused_wall 0) (λ _, true)
    [OpCandle (sample_candle 6000 100); OpCandle (sample_candle 6001 120); OpCandle (sample_candle 6002 90);
     OpFlushSession] (New [60; 300] false 32)).
  - repeat constructor; vm_compute; discriminate.
  - repeat constructor; vm_compute; done || discriminate.
  - reflexivity.
  - reflexivity.
  - intros i. destruct i as [|[|i]]; reflexivity.
Defined.

(** A final candle can go out twice: a candle of a new bucket finalises the
    forming candle, but when its own bucket has already expired on the event
    clock the finalised state stays in the map, and the next candle (or the
    timer) finalises it again. *)
Definition finals (log : list TfEvent) : list Time :=
  omap (λ e, match e with OutSent c => if tfc_Forming c then None else Some (tfc_TS c) | _ => None end) log.

Theorem final_candle_sent_twice :
  finals (tb_log (tf_run (MO := canonical_order) (paused_wall 400) (λ _, true)
    [OpCandle (sample_candle 6010 100); OpCandle (sample_candle 6080 100); OpCandle (sample_candle 6081 100)]
    (New [60] false 8))) = [t_of_unix 6000; t_of_unix 6000].
Proof. vm_compute. reflexivity. Qed.
