(* ===== verification/CircuitBreaker.v ===== *)
(** Circuit breaker (internal/circuitbreaker/circuitbreaker.go).

    [CircuitBreaker] is the struct without its mutex; the calls to the
    optional [OnStateChange] callback are returned as a list of
    (from, to) pairs.  [Execute] runs the caller's function between two
    critical sections, so it is modelled as [execute_begin] (admission) and
    [execute_end] (outcome), with [execute] the composition for a caller
    that nothing interleaves with.  The instants read with [time.Now] are
    arguments. *)
From S2P Require Import Prelude.

(** [State]; [String] renders it for logs. *)
Inductive State := StateClosed | StateOpen | StateHalfOpen.

#[export] Instance State_eq_dec : EqDecision State.
Proof. solve_decision. Defined.

Definition State_String (s : State) : string :=
  match s with
  | StateClosed => "closed" | StateOpen => "open" | StateHalfOpen => "half-open"
  end.

Record CircuitBreaker := {
  state : State;
  failures : Z;
  maxFailures : Z;
  resetTimeout : Duration;
  lastFailure : Time;
}.

Definition NewCircuitBreaker (maxFailures : Z) (resetTimeout : Duration) : CircuitBreaker :=
  {| state := StateClosed; failures := 0; maxFailures := maxFailures;
     resetTimeout := resetTimeout; lastFailure := zero_time |}.

(** What [OnStateChange] is told. *)
Abbreviation changes := (list (State * State)) (only parsing).

Definition transition (to : State) (cb : CircuitBreaker) : CircuitBreaker * changes :=
  ({| state := to;
      failures := if decide (to = StateClosed) then 0 else failures cb;
      maxFailures := maxFailures cb; resetTimeout := resetTimeout cb;
      lastFailure := lastFailure cb |}, [(state cb, to)]).

Definition set_failures (n : Z) (cb : CircuitBreaker) : CircuitBreaker :=
  {| state := state cb; failures := n; maxFailures := maxFailures cb;
     resetTimeout := resetTimeout cb; lastFailure := lastFailure cb |}.

(** [cb.failures++; cb.lastFailure = time.Now()]. *)
Definition count_failure (now : Time) (cb : CircuitBreaker) : CircuitBreaker :=
  {| state := state cb; failures := failures cb +! 1; maxFailures := maxFailures cb;
     resetTimeout := resetTimeout cb; lastFailure := now |}.

Definition timeout_elapsed (now : Time) (cb : CircuitBreaker) : bool :=
  resetTimeout cb <? t_sub now (lastFailure cb).

(** First critical section of [Execute]: [false] is [ErrCircuitOpen]. *)
Definition execute_begin (now : Time) (cb : CircuitBreaker) : bool * CircuitBreaker * changes :=
  match state cb with
  | StateOpen =>
      if timeout_elapsed now cb
      then let '(cb, ch) := transition StateHalfOpen cb in (true, cb, ch)
      else (false, cb, [])
  | StateHalfOpen => (true, cb, [])
  | StateClosed => (true, cb, [])
  end.

(** Second critical section of [Execute]; [failed] says [fn] returned an
    error, which [Execute] passes on. *)
Definition execute_end (now : Time) (failed : bool) (cb : CircuitBreaker) : CircuitBreaker * changes :=
  if failed then
    let cb := count_failure now cb in
    if decide (state cb = StateHalfOpen) then transition StateOpen cb
    else if maxFailures cb <=? failures cb then transition StateOpen cb
    else (cb, [])
  else
    let '(cb, ch) := if decide (state cb = StateHalfOpen) then transition StateClosed cb else (cb, []) in
    (set_failures 0 cb, ch).

(** What a call of [Execute] returned. *)
Inductive outcome := ErrCircuitOpen | Ran (failed : bool).

Definition execute (before after : Time) (failed : bool) (cb : CircuitBreaker) : outcome * CircuitBreaker * changes :=
  let '(ok, cb, ch1) := execute_begin before cb in
  if negb ok then (ErrCircuitOpen, cb, ch1)
  else let '(cb, ch2) := execute_end after failed cb in (Ran failed, cb, ch1 ++ ch2).

(** [ExecuteAlways] after [fn] returned. *)
Definition execute_always (now : Time) (failed : bool) (cb : CircuitBreaker) : CircuitBreaker * changes :=
  if failed then
    let cb := count_failure now cb in
    if negb (bool_decide (state cb = StateOpen)) && (maxFailures cb <=? failures cb)
    then transition StateOpen cb else (cb, [])
  else
    let '(cb, ch) := if decide (state cb = StateClosed) then (cb, []) else transition StateClosed cb in
    (set_failures 0 cb, ch).

Definition Allow (now : Time) (cb : CircuitBreaker) : bool * CircuitBreaker * changes :=
  if negb (bool_decide (state cb = StateOpen)) then (true, cb, [])
  else if timeout_elapsed now cb
  then let '(cb, ch) := transition StateHalfOpen cb in (true, cb, ch)
  else (false, cb, []).

Definition CurrentState (cb : CircuitBreaker) : State := state cb.
Definition Failures (cb : CircuitBreaker) : Z := failures cb.

(** ** Runs of calls *)

(** One operation on the breaker, with the instants it read. *)
Inductive op :=
| OpBegin (now : Time)
| OpEnd (now : Time) (failed : bool)
| OpAlways (now : Time) (failed : bool)
| OpAllow (now : Time).

Definition step (cb : CircuitBreaker) (o : op) : CircuitBreaker * changes :=
  match o with
  | OpBegin t => let '(_, cb, ch) := execute_begin t cb in (cb, ch)
  | OpEnd t f => execute_end t f cb
  | OpAlways t f => execute_always t f cb
  | OpAllow t => let '(_, cb, ch) := Allow t cb in (cb, ch)
  end.

Fixpoint run (cb : CircuitBreaker) (os : list op) : CircuitBreaker * changes :=
  match os with
  | [] => (cb, [])
  | o :: os => let '(cb, ch) := step cb o in let '(cb, ch') := run cb os in (cb, ch ++ ch')
  end.

(** ** Invariant *)

(** A closed breaker has not reached its failure limit, and the counter
    is never negative. *)
Definition wf (cb : CircuitBreaker) : Prop :=
  0 <= failures cb <= max_i64 ∧ (state cb = StateClosed → failures cb < maxFailures cb).

Lemma step_config cb o :
  maxFailures (step cb o).1 = maxFailures cb ∧ resetTimeout (step cb o).1 = resetTimeout cb.
Proof.
  destruct o as [t|t f|t f|t]; unfold step, execute_begin, execute_end, execute_always, Allow, transition;
    repeat (case_decide || case_match || destruct f || simplify_eq/=); done.
Qed.

Lemma step_wf cb o : 0 < maxFailures cb → failures cb < max_i64 → wf cb → wf (step cb o).1.
Proof.
  intros Hmax Hlt [Hf Hc].
  assert (i64 (failures cb + 1) = failures cb + 1) as Hi by (apply i64_id; i64_unfold; lia).
  destruct o as [t|t f|t f|t]; unfold step, execute_begin, execute_end, execute_always, Allow, transition,
    count_failure, set_failures, wf;
    repeat (case_decide || case_match || destruct f || simplify_eq/=); bool_prop;
    rewrite ?Hi in *; unfold max_i64 in *; simplify_eq/=; split; try lia; intros; try lia; try congruence.
  all: try (destruct_or?; bool_prop; try congruence; lia).
  all: specialize (Hc ltac:(congruence)); lia.
Qed.

(** ** The callback reports the whole history *)

Fixpoint path (s : State) (ch : list (State * State)) (s' : State) : Prop :=
  match ch with
  | [] => s = s'
  | (a, b) :: ch => a = s ∧ path b ch s'
  end.

Lemma path_app s ch1 s1 ch2 s2 : path s ch1 s1 → path s1 ch2 s2 → path s (ch1 ++ ch2) s2.
Proof.
  revert s. induction ch1 as [|[a b] ch1 IH]; simpl; intros s; [by intros ->|].
  intros [-> ?] ?. eauto.
Qed.

Lemma step_path cb o : path (state cb) (step cb o).2 (state (step cb o).1).
Proof.
  destruct o as [t|t f|t f|t]; unfold step, execute_begin, execute_end, execute_always, Allow, transition;
    repeat (case_decide || case_match || destruct f || simplify_eq/=); bool_prop; naive_solver congruence.
Qed.

(** ** Consecutive failures *)

(** A failing call of [Execute]: begin, then end with an error. *)
Definition failing_calls (ts : list (Time * Time)) : list op :=
  ts ≫= λ t, [OpBegin t.1; OpEnd t.2 true].

Lemma failing_run ts cb :
  state cb = StateClosed → 0 <= failures cb → maxFailures cb <= max_i64 →
  failures cb + Z.of_nat (length ts) < maxFailures cb →
  state (run cb (failing_calls ts)).1 = StateClosed ∧
  failures (run cb (failing_calls ts)).1 = failures cb + Z.of_nat (length ts) ∧
  maxFailures (run cb (failing_calls ts)).1 = maxFailures cb.
Proof.
  revert cb. induction ts as [|[t1 t2] ts IH]; intros cb Hc H0 Hm Hlt; [simpl; repeat split; auto; simpl; lia|].
  cbn [length] in Hlt.
  unfold failing_calls; cbn -[Z.of_nat]. fold (failing_calls ts).
  unfold execute_begin. rewrite Hc. cbn -[Z.of_nat].
  unfold execute_end, count_failure. cbn -[Z.of_nat]. rewrite Hc.
  assert (i64 (failures cb + 1) = failures cb + 1) as Hi by (apply i64_id; i64_unfold; lia).
  case_decide; [done|]. rewrite Hi.
  rewrite (proj2 (Z.leb_gt (maxFailures cb) (failures cb + 1))) by lia.
  set (cb' := Build_CircuitBreaker _ _ _ _ _).
  destruct (IH cb') as (? & ? & ?); unfold cb' in *; simpl in *; try done; try lia.
  destruct (run _ (failing_calls ts)). simpl in *. repeat split; auto; lia.
Qed.

(** From a closed breaker with no counted failure and a positive limit
    that fits an [int], calls of [Execute] that fail one after the other
    leave it closed until the limit-th one, which opens it and records when
    it failed; every failure short of the limit is only counted. *)
Theorem breaker_trips_at_limit cb ts t1 t2 :
  state cb = StateClosed → failures cb = 0 → maxFailures cb <= max_i64 →
  maxFailures cb = Z.of_nat (length ts) + 1 →
  let mid := (run cb (failing_calls ts)).1 in
  let '(res, fin, ch) := execute t1 t2 true mid in
  state mid = StateClosed ∧ failures mid = Z.of_nat (length ts) ∧
  res = Ran true ∧ state fin = StateOpen ∧ failures fin = maxFailures cb ∧ lastFailure fin = t2 ∧
  ch = [(StateClosed, StateOpen)].
Proof.
  intros Hc H0 Hm Hlen.
  destruct (failing_run ts cb) as (Hs & Hf & Hmx); [done|lia|done|lia|].
  cbv zeta. set (mid := (run cb (failing_calls ts)).1) in *.
  unfold execute, execute_begin. rewrite Hs. simpl.
  unfold execute_end, count_failure. simpl. rewrite Hs. case_decide; [done|].
  rewrite (i64_id (failures mid + 1)) by (i64_unfold; lia).
  rewrite (proj2 (Z.leb_le (maxFailures mid) (failures mid + 1))) by lia.
  simpl. rewrite ?Hs. repeat split; auto; lia.
Qed.

(** An open breaker whose reset timeout has not passed refuses
    [Execute] and [Allow] and does not change; once it has passed, [Execute]
    runs the call as a probe: success closes the breaker with no failure
    counted, failure opens it again and restarts the timeout. *)
Theorem open_breaker_rejects_then_probes cb before after failed :
  state cb = StateOpen →
  if timeout_elapsed before cb then
    (Allow before cb).1.1 = true ∧
    let '(res, cb', ch) := execute before after failed cb in
    res = Ran failed ∧
    (if failed then state cb' = StateOpen ∧ lastFailure cb' = after ∧
                    ch = [(StateOpen, StateHalfOpen); (StateHalfOpen, StateOpen)]
     else state cb' = StateClosed ∧ failures cb' = 0 ∧
          ch = [(StateOpen, StateHalfOpen); (StateHalfOpen, StateClosed)])
  else execute before after failed cb = (ErrCircuitOpen, cb, []) ∧ Allow before cb = (false, cb, []).
Proof.
  intros Ho. unfold execute, execute_begin, Allow. rewrite !Ho. simpl.
  destruct (timeout_elapsed before cb); [|done].
  destruct failed; simpl; rewrite Ho; done.
Qed.

(** Over any sequence of operations, interleaved calls included, the
    state changes reported to [OnStateChange] form an unbroken path from the
    first state to the last, so a listener that follows them always knows
    the breaker's state. *)
Theorem callbacks_track_state cb os : path (state cb) (run cb os).2 (state (run cb os).1).
Proof.
  revert cb. induction os as [|o os IH]; intros cb; [done|]. simpl.
  pose proof (step_path cb o) as Hp. destruct (step cb o) as [cb1 ch1]. simpl in Hp.
  specialize (IH cb1). destruct (run cb1 os) as [cb2 ch2]. simpl in *. by eapply path_app.
Qed.

(** ** Half-open concurrency *)

(** The mutex is released while [fn] runs, so a half-open breaker admits
    every call that begins before the first probe has ended. *)
Lemma half_open_admits_several cb ts :
  state cb = StateHalfOpen →
  Forall (λ t, (execute_begin t cb).1.1 = true) ts ∧ (run cb (OpBegin <$> ts)).1 = cb.
Proof.
  intros Hh. assert (∀ t, execute_begin t cb = (true, cb, [])) as Hb
    by (intros; unfold execute_begin; by rewrite Hh).
  split.
  - apply Forall_forall. intros t _. by rewrite Hb.
  - induction ts as [|t ts IH]; [done|]. cbn [fmap list_fmap run step]. rewrite Hb.
    by destruct (run cb (OpBegin <$> ts)).
Qed.

Lemma breaker_trips_at_limit_witness :
  let '(res, fin, ch) := execute 5 6 true (run (NewCircuitBreaker 3 30) (failing_calls [(1, 2); (3, 4)])).1 in
  state fin = StateOpen ∧ lastFailure fin = 6.
Proof.
  pose proof (breaker_trips_at_limit (NewCircuitBreaker 3 30) [(1, 2); (3, 4)] 5 6) as H.
  specialize (H eq_refl eq_refl ltac:(vm_compute; discriminate) eq_refl). cbv zeta in H.
  destruct (execute 5 6 true _) as [[res fin] ch]. destruct H as (_ & _ & _ & ? & _ & ? & _). by split.
Defined.

Lemma open_breaker_rejects_then_probes_witness :
  let cb := {| state := StateOpen; failures := 3; maxFailures := 3; resetTimeout := 30; lastFailure := 100 |} in
  (execute 130 131 false cb).1.1 = ErrCircuitOpen ∧ state (execute 131 132 false cb).1.2 = StateClosed.
Proof.
  intros cb. split.
  - pose proof (open_breaker_rejects_then_probes cb 130 131 false eq_refl) as H.
    vm_compute in H. destruct H as [H _]. vm_compute. congruence.
  - pose proof (open_breaker_rejects_then_probes cb 131 132 false eq_refl) as H.
    vm_compute in H. vm_compute. reflexivity.
Defined.
