(* ===== verification/Errors.v ===== *)
(** Error values.  A Go [error] is its text and the sentinel errors
    [errors.Is] finds in its chain; [nil] is [None]. *)
From S2P Require Import Prelude.

Inductive sentinel :=
| ErrIllegalTransition | ErrUnknownOrder           (* internal/oms *)
| ErrOutcomeUnknown                                (* pkg/smartconnect *)
| ErrBreakerOpen                                   (* internal/circuitbreaker *)
| ErrOrderStateUnknown | errNotInBook | errNoSession
| ErrNotLive | ErrRateLimited | errNoLotSizer.     (* internal/orderexec *)

#[export] Instance sentinel_eq_dec : EqDecision sentinel.
Proof. solve_decision. Defined.

Record gerror := { e_is : list sentinel; e_text : string }.

#[export] Instance gerror_eq_dec : EqDecision gerror.
Proof. solve_decision. Defined.

(** [errors.New(text)] bound to a package variable, [errors.New] of a text
    no caller compares with, and [fmt.Errorf] with one [%w] verb. *)
Definition err_sentinel (s : sentinel) (text : string) : gerror := {| e_is := [s]; e_text := text |}.
Definition err_new (text : string) : gerror := {| e_is := []; e_text := text |}.
Definition err_wrap (before : string) (e : gerror) (after : string) : gerror :=
  {| e_is := e_is e; e_text := before +:+ e_text e +:+ after |}.

(** [errors.Is(err, s)]. *)
Definition errors_is (s : sentinel) (e : gerror) : bool := bool_decide (s ∈ e_is e).

Lemma errors_is_wrap s b e a : errors_is s (err_wrap b e a) = errors_is s e.
Proof. done. Qed.
#[export] Hint Rewrite errors_is_wrap : go.
