(* ===== verification/Oms.v ===== *)
(** Order management core (internal/oms): the order state machine
    (state.go), the ledger that applies broker evidence to it (ledger.go)
    and the durable journal behind it (journal.go).

    The ledger is written against the [Store] interface, here a class whose
    laws say what a durable append-only store promises; [Journal] is the
    SQLite implementation, and its instance discharges the laws. *)
From S2P Require Import Prelude GoText Errors.
#[local] Open Scope Z_scope.
#[local] Open Scope go_scope.

(** ** State machine (state.go) *)

Inductive State :=
| StateSubmitting | StateOpen | StatePartial | StateFilled
| StateRejected | StateCancelled | StateUnknown | StateAbsent.

#[export] Instance State_eq_dec : EqDecision State.
Proof. solve_decision. Defined.

(** The constants' string values, used in error texts. *)
Definition State_text (s : State) : string :=
  match s with
  | StateSubmitting => "SUBMITTING" | StateOpen => "OPEN" | StatePartial => "PARTIAL"
  | StateFilled => "FILLED" | StateRejected => "REJECTED" | StateCancelled => "CANCELLED"
  | StateUnknown => "UNKNOWN" | StateAbsent => "ABSENT"
  end.

Definition Terminal (s : State) : bool :=
  match s with
  | StateFilled | StateRejected | StateCancelled | StateAbsent => true
  | _ => false
  end.

Definition transitions (s : State) : list State :=
  match s with
  | StateSubmitting =>
      [StateOpen; StatePartial; StateFilled; StateRejected; StateCancelled; StateUnknown; StateAbsent]
  | StateUnknown => [StateOpen; StatePartial; StateFilled; StateRejected; StateCancelled; StateAbsent]
  | StateOpen => [StatePartial; StateFilled; StateRejected; StateCancelled]
  | StatePartial => [StatePartial; StateFilled; StateCancelled]
  | _ => []
  end.

Definition CanTransition (from to : State) : bool := existsb (λ s, bool_decide (s = to)) (transitions from).

(** ** Events and orders (ledger.go) *)

Record Event := {
  ev_ClientOrderID : string;
  ev_BrokerOrderID : string;
  ev_Strategy : string;
  ev_PositionKey : string;
  ev_Side : string;
  ev_Symbol : string;
  ev_Token : string;
  ev_State : State;
  ev_Qty : Z;
  ev_FilledQty : Z;
  ev_AvgPricePaise : Z;
  ev_Reason : string;
  ev_Source : string;
  ev_TS : Time;
}.

Record Order := {
  o_ClientOrderID : string;
  o_BrokerOrderID : string;
  o_Strategy : string;
  o_PositionKey : string;
  o_Side : string;
  o_Symbol : string;
  o_Token : string;
  o_State : State;
  o_Qty : Z;
  o_FilledQty : Z;
  o_AvgPricePaise : Z;
  o_Reason : string;
  o_Created : Time;
  o_Updated : Time;
}.

#[export] Instance Event_eq_dec : EqDecision Event.
Proof. solve_decision. Defined.
#[export] Instance Order_eq_dec : EqDecision Order.
Proof. solve_decision. Defined.

Definition with_state (ev : Event) (s : State) : Event :=
  {| ev_ClientOrderID := ev_ClientOrderID ev; ev_BrokerOrderID := ev_BrokerOrderID ev;
     ev_Strategy := ev_Strategy ev; ev_PositionKey := ev_PositionKey ev; ev_Side := ev_Side ev;
     ev_Symbol := ev_Symbol ev; ev_Token := ev_Token ev; ev_State := s; ev_Qty := ev_Qty ev;
     ev_FilledQty := ev_FilledQty ev; ev_AvgPricePaise := ev_AvgPricePaise ev;
     ev_Reason := ev_Reason ev; ev_Source := ev_Source ev; ev_TS := ev_TS ev |}.

Definition with_client (ev : Event) (id : string) : Event :=
  {| ev_ClientOrderID := id; ev_BrokerOrderID := ev_BrokerOrderID ev;
     ev_Strategy := ev_Strategy ev; ev_PositionKey := ev_PositionKey ev; ev_Side := ev_Side ev;
     ev_Symbol := ev_Symbol ev; ev_Token := ev_Token ev; ev_State := ev_State ev; ev_Qty := ev_Qty ev;
     ev_FilledQty := ev_FilledQty ev; ev_AvgPricePaise := ev_AvgPricePaise ev;
     ev_Reason := ev_Reason ev; ev_Source := ev_Source ev; ev_TS := ev_TS ev |}.

Definition with_ts (ev : Event) (ts : Time) : Event :=
  {| ev_ClientOrderID := ev_ClientOrderID ev; ev_BrokerOrderID := ev_BrokerOrderID ev;
     ev_Strategy := ev_Strategy ev; ev_PositionKey := ev_PositionKey ev; ev_Side := ev_Side ev;
     ev_Symbol := ev_Symbol ev; ev_Token := ev_Token ev; ev_State := ev_State ev; ev_Qty := ev_Qty ev;
     ev_FilledQty := ev_FilledQty ev; ev_AvgPricePaise := ev_AvgPricePaise ev;
     ev_Reason := ev_Reason ev; ev_Source := ev_Source ev; ev_TS := ts |}.

(** ** The store interface *)

Class Store (S : Type) := {
  store_ClaimIntent : string → Time → S → (bool * option gerror) * S;
  store_Append : Event → S → option gerror * S;
  store_Events : Time → S → ((list Event) + gerror)%type;
}.

(** What the ledger relies on: an intent is claimed at most once, an append that returned no error is in the
    log after it, one that returned an error left the log alone, and
    [Events] returns the log from an instant on, in journal order. *)
Class StoreLaws (S : Type) `{Store S} := {
  store_log : S → list Event;
  store_claimed : S → gset string;
  claim_true : ∀ id t s, (store_ClaimIntent id t s).1.1 = true →
    (id ∉ store_claimed s) ∧ (id ∈ store_claimed (store_ClaimIntent id t s).2);
  claim_mono : ∀ id t s, store_claimed s ⊆ store_claimed (store_ClaimIntent id t s).2;
  append_claimed : ∀ ev s, store_claimed (store_Append ev s).2 = store_claimed s;
  claim_log : ∀ id t s, store_log (store_ClaimIntent id t s).2 = store_log s;
  append_ok : ∀ ev s, in_i64 (ev_TS ev) → (store_Append ev s).1 = None →
    store_log (store_Append ev s).2 = store_log s ++ [ev];
  append_failed : ∀ ev s, (store_Append ev s).1 ≠ None →
    store_log (store_Append ev s).2 = store_log s;
  events_log : ∀ since s evs, in_i64 since → store_Events since s = inl evs →
    evs = filter (λ ev, since <= ev_TS ev) (store_log s);
}.

(** ** Ledger (ledger.go) *)

(** The in-memory side: orders by client order id, and the client order id
    of each known broker order id. *)
Record Book := { orders : gmap string Order; byBroker : gmap string string }.

#[export] Instance Book_eq_dec : EqDecision Book.
Proof. solve_decision. Defined.

Definition empty_book : Book := {| orders := ∅; byBroker := ∅ |}.

(** [setStr]: an empty string keeps the old value. *)
Definition setStr (old v : string) : string := if String.eqb v "" then old else v.

(** The zero [Order] that [fold] starts a new order from. *)
Definition new_order (id : string) (created : Time) : Order :=
  {| o_ClientOrderID := id; o_BrokerOrderID := ""; o_Strategy := ""; o_PositionKey := "";
     o_Side := ""; o_Symbol := ""; o_Token := ""; o_State := StateSubmitting; o_Qty := 0;
     o_FilledQty := 0; o_AvgPricePaise := 0; o_Reason := ""; o_Created := created; o_Updated := zero_time |}.

Definition update_order (o : Order) (ev : Event) : Order :=
  {| o_ClientOrderID := o_ClientOrderID o;
     o_BrokerOrderID := setStr (o_BrokerOrderID o) (ev_BrokerOrderID ev);
     o_Strategy := setStr (o_Strategy o) (ev_Strategy ev);
     o_PositionKey := setStr (o_PositionKey o) (ev_PositionKey ev);
     o_Side := setStr (o_Side o) (ev_Side ev);
     o_Symbol := setStr (o_Symbol o) (ev_Symbol ev);
     o_Token := setStr (o_Token o) (ev_Token ev);
     o_State := ev_State ev;
     o_Qty := if 0 <? ev_Qty ev then ev_Qty ev else o_Qty o;
     o_FilledQty := if 0 <? ev_FilledQty ev then ev_FilledQty ev else o_FilledQty o;
     o_AvgPricePaise := if 0 <? ev_AvgPricePaise ev then ev_AvgPricePaise ev else o_AvgPricePaise o;
     o_Reason := ev_Reason ev;
     o_Created := o_Created o;
     o_Updated := ev_TS ev |}.

Definition fold_event (b : Book) (ev : Event) : Book :=
  let o := default (new_order (ev_ClientOrderID ev) (ev_TS ev)) (orders b !! ev_ClientOrderID ev) in
  let o := update_order o ev in
  {| orders := <[ev_ClientOrderID ev := o]> (orders b);
     byBroker := if String.eqb (o_BrokerOrderID o) "" then byBroker b
                 else <[o_BrokerOrderID o := o_ClientOrderID o]> (byBroker b) |}.

(** Rebuilding a book from journaled events. *)
Definition replay (evs : list Event) : Book := fold_left fold_event evs empty_book.

(** [findLocked]: by client id, by the base of a retry tag, by broker id. *)
Definition findLocked (ev : Event) (b : Book) : option Order :=
  let by_broker :=
    if String.eqb (ev_BrokerOrderID ev) "" then None
    else match byBroker b !! ev_BrokerOrderID ev with Some cid => orders b !! cid | None => None end in
  let id := ev_ClientOrderID ev in
  if String.eqb id "" then by_broker
  else match orders b !! id with
       | Some o => Some o
       | None => match orders b !! trim_suffix "R"%char id with Some o => Some o | None => by_broker end
       end.

(** A repeat of the order's current state, which [Apply] ignores. *)
Definition is_repeat (o : Order) (ev : Event) : bool :=
  bool_decide (o_State o = ev_State ev) &&
  (negb (bool_decide (ev_State ev = StatePartial)) || (ev_FilledQty ev <=? o_FilledQty o)).

Definition replayWindow : Duration := 7 * 24 * Hour.

Definition err_unknown_order (ev : Event) : gerror :=
  err_wrap "" (err_sentinel ErrUnknownOrder "unknown order")
    (": client=" +:+ format_q (ev_ClientOrderID ev) +:+ " broker=" +:+ format_q (ev_BrokerOrderID ev)).
Definition err_illegal (o : Order) (ev : Event) : gerror :=
  err_wrap "" (err_sentinel ErrIllegalTransition "illegal order state transition")
    (": " +:+ o_ClientOrderID o +:+ " " +:+ State_text (o_State o) +:+ " → " +:+ State_text (ev_State ev)).

Section ledger.
Context {S : Type} `{ST : Store S}.

Record Ledger := { store : S; book : Book }.

(** [NewLedger] at time [now]. *)
Definition NewLedger (now : Time) (s : S) : Ledger + gerror :=
  match store_Events (t_add now (- replayWindow)) s with
  | inl evs => inl {| store := s; book := replay evs |}
  | inr e => inr (err_wrap "oms: replay journal: " e "")
  end.

Definition ClaimIntent (now : Time) (id : string) (l : Ledger) : (bool * option gerror) * Ledger :=
  let '(r, s) := store_ClaimIntent id now (store l) in (r, {| store := s; book := book l |}).

Definition stamp (now : Time) (ev : Event) : Event :=
  if t_is_zero (ev_TS ev) then with_ts ev now else ev.

(** Journal, then change memory. *)
Definition journal_and_fold (what : string) (ev : Event) (l : Ledger) : option gerror * Ledger :=
  match store_Append ev (store l) with
  | (Some e, s) => (Some (err_wrap what e ""), {| store := s; book := book l |})
  | (None, s) => (None, {| store := s; book := fold_event (book l) ev |})
  end.

Definition Submit (now : Time) (ev : Event) (l : Ledger) : option gerror * Ledger :=
  if String.eqb (ev_ClientOrderID ev) "" then (Some (err_new "oms: submit without client order id"), l)
  else
    let ev := stamp now (with_state ev StateSubmitting) in
    match orders (book l) !! ev_ClientOrderID ev with
    | Some o => (Some (err_new ("oms: order " +:+ ev_ClientOrderID ev +:+ " already exists in "
                                +:+ State_text (o_State o))), l)
    | None => journal_and_fold ("oms: journal submit " +:+ ev_ClientOrderID ev +:+ ": ") ev l
    end.

Definition Apply (now : Time) (ev : Event) (l : Ledger) : option gerror * Ledger :=
  let ev := stamp now ev in
  match findLocked ev (book l) with
  | None => (Some (err_unknown_order ev), l)
  | Some o =>
      let ev := with_client ev (o_ClientOrderID o) in
      let journal := journal_and_fold ("oms: journal " +:+ o_ClientOrderID o +:+ " → "
                                       +:+ State_text (ev_State ev) +:+ ": ") ev l in
      if is_repeat o ev then
        if String.eqb (ev_BrokerOrderID ev) "" || String.eqb (ev_BrokerOrderID ev) (o_BrokerOrderID o)
        then (None, l) else journal
      else if negb (CanTransition (o_State o) (ev_State ev)) then (Some (err_illegal o ev), l)
      else journal
  end.

Definition get_order (id : string) (l : Ledger) : option Order := orders (book l) !! id.

Definition Working `{MapOrder} (l : Ledger) : list Order :=
  filter (λ o, Terminal (o_State o) = false) ((range (orders (book l))).*2).

Definition HasUnknown `{MapOrder} (strategy : string) (l : Ledger) : bool :=
  existsb (λ o, String.eqb (o_Strategy o) strategy && bool_decide (o_State o = StateUnknown))
    ((range (orders (book l))).*2).
End ledger.
Arguments Ledger : clear implicits.

(** ** Journal (journal.go): the SQLite store

    The database is its two tables; [INSERT OR IGNORE] and [ORDER BY seq]
    have their SQL meaning.  [faults] scripts which statements fail: each
    statement consumes one entry, [true] being an error of the driver. *)

Record Row := {
  row_ts : Z;
  row_client_order_id : string;
  row_broker_order_id : string;
  row_strategy : string;
  row_position_key : string;
  row_side : string;
  row_symbol : string;
  row_token : string;
  row_state : State;  (* the TEXT column holds the state's constant *)
  row_qty : Z;
  row_filled_qty : Z;
  row_avg_price_paise : Z;
  row_reason : string;
  row_source : string;
}.

Record Journal := {
  intents : gmap string Z;
  order_events : list Row;  (* by seq *)
  faults : list bool;
}.

Definition err_sql : gerror := err_new "sql".

Definition statement (j : Journal) : bool * Journal :=
  match faults j with
  | [] => (false, j)
  | f :: fs => (f, {| intents := intents j; order_events := order_events j; faults := fs |})
  end.

Definition row_of_event (ev : Event) : Row :=
  {| row_ts := t_unix_nano (ev_TS ev); row_client_order_id := ev_ClientOrderID ev;
     row_broker_order_id := ev_BrokerOrderID ev; row_strategy := ev_Strategy ev;
     row_position_key := ev_PositionKey ev; row_side := ev_Side ev; row_symbol := ev_Symbol ev;
     row_token := ev_Token ev; row_state := ev_State ev; row_qty := ev_Qty ev;
     row_filled_qty := ev_FilledQty ev; row_avg_price_paise := ev_AvgPricePaise ev;
     row_reason := ev_Reason ev; row_source := ev_Source ev |}.

(** The scan loop of [Events] for one row. *)
Definition event_of_row (r : Row) : Event :=
  {| ev_ClientOrderID := row_client_order_id r; ev_BrokerOrderID := row_broker_order_id r;
     ev_Strategy := row_strategy r; ev_PositionKey := row_position_key r; ev_Side := row_side r;
     ev_Symbol := row_symbol r; ev_Token := row_token r; ev_State := row_state r;
     ev_Qty := row_qty r; ev_FilledQty := row_filled_qty r; ev_AvgPricePaise := row_avg_price_paise r;
     ev_Reason := row_reason r; ev_Source := row_source r; ev_TS := row_ts r |}.

Definition Journal_ClaimIntent (id : string) (at_ : Time) (j : Journal) : (bool * option gerror) * Journal :=
  let '(f, j) := statement j in
  if f then ((false, Some err_sql), j)
  else match intents j !! id with
       | Some _ => ((false, None), j)
       | None => ((true, None), {| intents := <[id := t_unix_nano at_]> (intents j);
                                   order_events := order_events j; faults := faults j |})
       end.

Definition Journal_Append (ev : Event) (j : Journal) : option gerror * Journal :=
  let '(f, j) := statement j in
  if f then (Some err_sql, j)
  else (None, {| intents := intents j; order_events := order_events j ++ [row_of_event ev]; faults := faults j |}).

Definition Journal_Events (since : Time) (j : Journal) : list Event + gerror :=
  let '(f, j) := statement j in
  if f then inr err_sql
  else inl (event_of_row <$> filter (λ r, t_unix_nano since <= row_ts r) (order_events j)).

#[export] Instance Journal_Store : Store Journal :=
  {| store_ClaimIntent := Journal_ClaimIntent; store_Append := Journal_Append; store_Events := Journal_Events |}.

Lemma event_of_row_of_event ev : in_i64 (ev_TS ev) → event_of_row (row_of_event ev) = ev.
Proof. intros H. destruct ev. unfold event_of_row, row_of_event, t_unix_nano. simpl in *. by rewrite i64_id. Qed.

Lemma statement_tables j : intents (statement j).2 = intents j ∧ order_events (statement j).2 = order_events j.
Proof. unfold statement. by destruct (faults j). Qed.

#[export, refine] Instance Journal_StoreLaws : StoreLaws Journal :=
  {| store_log j := event_of_row <$> order_events j; store_claimed j := dom (intents j) |}.
Proof.
  - intros id t j. cbn. unfold Journal_ClaimIntent. destruct (statement_tables j) as [Hi _].
    destruct (statement j) as [[] j']; simpl in *; [done|]. rewrite Hi.
    destruct (intents j !! id) eqn:E; [done|]. intros _. simpl. split; [by apply not_elem_of_dom|set_solver].
  - intros id t j. cbn. unfold Journal_ClaimIntent. destruct (statement_tables j) as [Hi _].
    destruct (statement j) as [[] j']; simpl in *; [by rewrite Hi|]. rewrite Hi.
    destruct (intents j !! id); simpl; [by rewrite Hi|]. set_solver.
  - intros ev j. cbn. unfold Journal_Append. destruct (statement_tables j) as [Hi _].
    by destruct (statement j) as [[] j']; simpl in *; rewrite Hi.
  - intros id t j. cbn. unfold Journal_ClaimIntent. destruct (statement_tables j) as [Hi Hr].
    destruct (statement j) as [[] j']; simpl in *; [by rewrite Hr|].
    by destruct (intents j' !! id); simpl; rewrite Hr.
  - intros ev j Hts. cbn. unfold Journal_Append. destruct (statement_tables j) as [_ Hr].
    destruct (statement j) as [[] j']; simpl in *; [done|]. intros _.
    by rewrite Hr, fmap_app, fmap_cons, event_of_row_of_event.
  - intros ev j. cbn. unfold Journal_Append. destruct (statement_tables j) as [_ Hr].
    destruct (statement j) as [[] j']; simpl in *; [by rewrite Hr|done].
  - intros since j evs Hs. cbn. unfold Journal_Events. destruct (statement_tables j) as [_ Hr].
    destruct (statement j) as [[] j']; simpl in *; [done|]. intros [= <-]. rewrite Hr.
    unfold t_unix_nano. rewrite (i64_id since) by done.
    clear Hr. induction (order_events j) as [|r rs IH]; [done|]. rewrite fmap_cons, !filter_cons.
    cbn [ev_TS event_of_row]. destruct (decide (since <= row_ts r)).
    + rewrite fmap_cons, IH. done.
    + done.
Defined.

(** ** Properties of the ledger *)

(** The key of an order in the book is its client order id. *)
Definition book_ok (b : Book) : Prop :=
  ∀ id o, orders b !! id = Some o → o_ClientOrderID o = id.

Lemma fold_event_ok b ev : book_ok b → book_ok (fold_event b ev).
Proof.
  intros Hb id o. unfold fold_event. simpl. rewrite lookup_insert. case_decide as Hid.
  - intros [= <-]. subst. simpl. destruct (orders b !! _) eqn:E; simpl; eauto.
  - apply Hb.
Qed.

Lemma fold_event_lookup b ev id :
  orders (fold_event b ev) !! id =
  if decide (ev_ClientOrderID ev = id)
  then Some (update_order (default (new_order id (ev_TS ev)) (orders b !! id)) ev)
  else orders b !! id.
Proof. unfold fold_event. simpl. rewrite lookup_insert. by case_decide; subst. Qed.

Lemma replay_snoc evs ev : replay (evs ++ [ev]) = fold_event (replay evs) ev.
Proof. unfold replay. by rewrite fold_left_app. Qed.

Lemma replay_ok evs : book_ok (replay evs).
Proof.
  induction evs as [|ev evs IH] using rev_ind; [done|]. rewrite replay_snoc. by apply fold_event_ok.
Qed.

Lemma findLocked_in_book ev b o :
  findLocked ev b = Some o → ∃ id, orders b !! id = Some o.
Proof. unfold findLocked. intros H. repeat case_match; simplify_eq; eauto. Qed.

(** A retry is sent under the first attempt's tag with an "R" appended; its
    events reach the order of the first attempt. *)
Lemma trim_suffix_R id : trim_suffix "R"%char (id +:+ "R") = id.
Proof.
  induction id as [|c id IH]; [done|].
  change (trim_suffix "R" (String c (id +:+ "R")) = String c id).
  cbn. rewrite IH. by destruct id.
Qed.

Lemma findLocked_retry ev b id :
  id ≠ "" → ev_ClientOrderID ev = id +:+ "R" → orders b !! (id +:+ "R") = None →
  is_Some (orders b !! id) → findLocked ev b = orders b !! id.
Proof.
  intros Hid He Hn [o Ho]. unfold findLocked. rewrite He, Hn, trim_suffix_R, Ho.
  destruct (String.eqb_spec (id +:+ "R") "") as [E|_]; [|done]. by destruct id.
Qed.

Section ledger_facts.
Context {S : Type} `{SL : StoreLaws S}.

Inductive op :=
| OClaim (now : Time) (id : string)
| OSubmit (now : Time) (ev : Event)
| OApply (now : Time) (ev : Event).

Definition step (l : Ledger S) (o : op) : Ledger S :=
  match o with
  | OClaim t id => (ClaimIntent t id l).2
  | OSubmit t ev => (Submit t ev l).2
  | OApply t ev => (Apply t ev l).2
  end.

Definition run (l : Ledger S) (os : list op) : Ledger S := fold_left step os l.

(** The instant the ledger stamps the event with fits the journal's
    64-bit nanosecond column. *)
Definition op_ts_ok (o : op) : Prop :=
  match o with
  | OClaim _ _ => True
  | OSubmit t ev | OApply t ev => in_i64 (ev_TS (stamp t ev))
  end.

(** Memory is the fold of the journal. *)
Definition coherent (l : Ledger S) : Prop := book l = replay (store_log (store l)).

Lemma journal_and_fold_coherent what ev l :
  in_i64 (ev_TS ev) → coherent l → coherent (journal_and_fold what ev l).2.
Proof.
  intros Hts Hc. unfold journal_and_fold, coherent in *.
  pose proof (append_ok ev (store l) Hts) as Hok. pose proof (append_failed ev (store l)) as Hf.
  destruct (store_Append ev (store l)) as [[e|] s]; simpl in *.
  - by rewrite Hf.
  - rewrite Hok by done. by rewrite replay_snoc, Hc.
Qed.

Lemma step_coherent l o : op_ts_ok o → coherent l → coherent (step l o).
Proof.
  destruct o as [t id|t ev|t ev]; simpl; intros Hts Hc.
  - unfold ClaimIntent. pose proof (claim_log id t (store l)) as Hl.
    destruct (store_ClaimIntent id t (store l)) as [r s]. simpl in *. unfold coherent in *. simpl.
    by rewrite Hl.
  - unfold Submit. case_match; [done|]. case_match; [done|].
    apply journal_and_fold_coherent; [|done].
    unfold stamp in *. simpl in *. by destruct (t_is_zero (ev_TS ev)).
  - unfold Apply. case_match; [|done]. repeat case_match; try done; by apply journal_and_fold_coherent.
Qed.

Lemma run_coherent l os : Forall op_ts_ok os → coherent l → coherent (run l os).
Proof.
  revert l. induction os as [|o os IH]; intros l Hos Hc; [done|].
  inversion_clear Hos. apply IH; [done|]. by apply step_coherent.
Qed.

(** C4: A ledger survives a crash. Whatever sequence of claims, submissions
    and applied events it went through, and whichever store writes failed
    on the way, a ledger opened later on the same store has the same
    orders and the same broker ids, provided the journal holds no event
    older than the replay window of the two openings. *)
Theorem ledger_crash_recovery s0 t0 l0 os t l' :
  in_i64 (t_add t0 (- replayWindow)) → in_i64 (t_add t (- replayWindow)) →
  NewLedger t0 s0 = inl l0 → Forall op_ts_ok os →
  Forall (λ ev, t_add t0 (- replayWindow) <= ev_TS ev) (store_log s0) →
  Forall (λ ev, t_add t (- replayWindow) <= ev_TS ev) (store_log (store (run l0 os))) →
  NewLedger t (store (run l0 os)) = inl l' → book l' = book (run l0 os).
Proof.
  intros Ht0 Ht H0 Hos Hw0 Hw H'. unfold NewLedger in *.
  destruct (store_Events (t_add t0 _) s0) as [evs0|] eqn:E0; [|done].
  destruct (store_Events (t_add t _) (store (run l0 os))) as [evs|] eqn:E; [|done].
  apply events_log in E0; [|done]. apply events_log in E; [|done]. simplify_eq. simpl.
  rewrite !filter_Forall in * by done.
  set (l0 := {| store := s0; book := replay (store_log s0) |}) in *.
  symmetry. by apply (run_coherent l0 os).
Qed.

(** *** What one call does *)

Lemma Apply_ok now ev l l' :
  Apply now ev l = (None, l') →
  l' = l ∨
  ∃ o, findLocked (stamp now ev) (book l) = Some o ∧
    (o_State o = ev_State ev ∨ CanTransition (o_State o) (ev_State ev) = true) ∧
    book l' = fold_event (book l) (with_client (stamp now ev) (o_ClientOrderID o)).
Proof.
  unfold Apply. destruct (findLocked (stamp now ev) (book l)) as [o|] eqn:Hf; [|done].
  assert (ev_State (stamp now ev) = ev_State ev) as Hst by (unfold stamp; by case_match).
  unfold journal_and_fold, is_repeat.
  repeat case_match; simplify_eq/=; intros ?; simplify_eq/=; eauto; bool_prop;
    right; exists o; (split; [done|split; [|done]]); rewrite ?Hst in *; eauto.
Qed.

Lemma Apply_failed now ev l e l' : Apply now ev l = (Some e, l') → book l' = book l.
Proof.
  unfold Apply, journal_and_fold. repeat case_match; intros ?; simplify_eq/=; done.
Qed.

Lemma Submit_effect now ev l :
  (Submit now ev l).1 = None →
  orders (book l) !! ev_ClientOrderID ev = None ∧
  book (Submit now ev l).2 = fold_event (book l) (stamp now (with_state ev StateSubmitting)).
Proof.
  unfold Submit, journal_and_fold.
  assert (ev_ClientOrderID (stamp now (with_state ev StateSubmitting)) = ev_ClientOrderID ev) as ->
    by (unfold stamp; by case_match).
  repeat case_match; simplify_eq/=; done.
Qed.

Lemma Submit_failed now ev l e : (Submit now ev l).1 = Some e → book (Submit now ev l).2 = book l.
Proof. unfold Submit, journal_and_fold. repeat case_match; simplify_eq/=; done. Qed.

Lemma terminal_no_transition s s' : Terminal s = true → CanTransition s s' = false.
Proof. by destruct s. Qed.

Lemma step_ok l o : book_ok (book l) → book_ok (book (step l o)).
Proof.
  intros Hb. destruct o as [t id|t ev|t ev]; simpl.
  - unfold ClaimIntent. by destruct (store_ClaimIntent id t (store l)).
  - destruct (Submit t ev l).1 as [e|] eqn:E; [by rewrite (Submit_failed _ _ _ _ E)|].
    destruct (Submit_effect _ _ _ E) as [_ ->]. by apply fold_event_ok.
  - destruct (Apply t ev l) as [[e|] l'] eqn:E; simpl; [by rewrite (Apply_failed _ _ _ _ _ E)|].
    destruct (Apply_ok _ _ _ _ E) as [->|(o & _ & _ & ->)]; [done|]. by apply fold_event_ok.
Qed.

Lemma step_terminal l o id ord :
  book_ok (book l) → orders (book l) !! id = Some ord → Terminal (o_State ord) = true →
  ∃ ord', orders (book (step l o)) !! id = Some ord' ∧ o_State ord' = o_State ord.
Proof.
  intros Hb Ho Ht. destruct o as [t i|t ev|t ev]; simpl.
  - unfold ClaimIntent. destruct (store_ClaimIntent i t (store l)). simpl. eauto.
  - destruct (Submit t ev l).1 as [e|] eqn:E; [rewrite (Submit_failed _ _ _ _ E); eauto|].
    destruct (Submit_effect _ _ _ E) as [Hn ->]. rewrite fold_event_lookup.
    case_decide as Hid; [|eauto]. exfalso. revert Hid. unfold stamp. intros Hid.
    assert (ev_ClientOrderID ev = id) as Hid' by (destruct (t_is_zero _); exact Hid). congruence.
  - destruct (Apply t ev l) as [[e|] l'] eqn:E; simpl; [rewrite (Apply_failed _ _ _ _ _ E); eauto|].
    destruct (Apply_ok _ _ _ _ E) as [->|(o & Hf & Hst & ->)]; [eauto|].
    rewrite fold_event_lookup. simpl. case_decide as Hid; [|eauto].
    destruct (findLocked_in_book _ _ _ Hf) as [id' Ho']. pose proof (Hb _ _ Ho') as Hid'.
    assert (o = ord) as -> by congruence. rewrite Ho. simpl. eexists; split; [done|]. simpl.
    assert (ev_State (stamp t ev) = ev_State ev) as -> by (unfold stamp; by case_match).
    destruct Hst as [Hst|Hst]; [done|]. by rewrite terminal_no_transition in Hst.
Qed.

(** Terminal states are final. Once an order is FILLED, REJECTED,
    CANCELLED or ABSENT, no sequence of ledger operations, whatever the
    broker events say and whichever client, retry or broker id they carry,
    ever moves it to another state or removes it. *)
Theorem terminal_states_are_final l os id ord :
  book_ok (book l) → orders (book l) !! id = Some ord → Terminal (o_State ord) = true →
  ∃ ord', orders (book (run l os)) !! id = Some ord' ∧ o_State ord' = o_State ord.
Proof.
  revert l ord. induction os as [|o os IH]; intros l ord Hb Ho Ht; [eauto|]. simpl.
  destruct (step_terminal l o id ord Hb Ho Ht) as (ord1 & H1 & Hs1).
  destruct (IH (step l o) ord1) as (ord2 & H2 & Hs2); [by apply step_ok|done|by rewrite Hs1|].
  exists ord2. split; [done|congruence].
Qed.

(** C5: [Apply] accepts exactly the legal moves. On an order it finds, an
    event whose state is neither the order's own nor reachable by
    [CanTransition] is refused with [ErrIllegalTransition] and changes
    nothing; an event for no known order is refused with
    [ErrUnknownOrder]; an accepted one that changes memory moves that one
    order to the event's state and leaves every other order alone. *)
Theorem Apply_spec now ev l :
  book_ok (book l) →
  match findLocked (stamp now ev) (book l) with
  | None => ∃ e, Apply now ev l = (Some e, l) ∧ errors_is ErrUnknownOrder e = true
  | Some o =>
      (o_State o ≠ ev_State ev → CanTransition (o_State o) (ev_State ev) = false →
       ∃ e, Apply now ev l = (Some e, l) ∧ errors_is ErrIllegalTransition e = true) ∧
      ((Apply now ev l).1 = None → (Apply now ev l).2 ≠ l →
       ∃ o', orders (book (Apply now ev l).2) !! o_ClientOrderID o = Some o' ∧
         o_State o' = ev_State ev ∧
         ∀ id, id ≠ o_ClientOrderID o →
           orders (book (Apply now ev l).2) !! id = orders (book l) !! id)
  end.
Proof.
  intros Hb. assert (ev_State (stamp now ev) = ev_State ev) as Hst by (unfold stamp; by case_match).
  destruct (findLocked (stamp now ev) (book l)) as [o|] eqn:Hf.
  - split.
    + intros Hne Hct. unfold Apply. rewrite Hf. unfold is_repeat. simpl. rewrite Hst.
      rewrite bool_decide_eq_false_2 by done. simpl. rewrite Hct. simpl. eauto.
    + destruct (Apply now ev l) as [r l'] eqn:E. simpl. intros -> Hl.
      destruct (Apply_ok _ _ _ _ E) as [?|(o1 & Hf1 & _ & Hbk)]; [done|]. simplify_eq.
      destruct (findLocked_in_book _ _ _ Hf) as [id Ho]. pose proof (Hb _ _ Ho) as Hid.
      eexists. rewrite Hbk, fold_event_lookup, decide_True by done.
      split; [done|]. split; [done|]. intros id' Hne.
      by rewrite fold_event_lookup, decide_False.
  - unfold Apply. rewrite Hf. eauto.
Qed.

(** *** Intents *)

Definition claims_won (id : string) (l : Ledger S) (o : op) : nat :=
  match o with
  | OClaim t i => if String.eqb i id && (ClaimIntent t i l).1.1 then 1 else 0
  | _ => 0
  end%nat.

Fixpoint total_won (id : string) (l : Ledger S) (os : list op) : nat :=
  match os with
  | [] => 0
  | o :: os => claims_won id l o + total_won id (step l o) os
  end%nat.

Lemma step_claimed l o : store_claimed (store l) ⊆ store_claimed (store (step l o)).
Proof.
  destruct o as [t i|t ev|t ev]; simpl.
  - unfold ClaimIntent. pose proof (claim_mono i t (store l)).
    by destruct (store_ClaimIntent i t (store l)).
  - unfold Submit, journal_and_fold. pose proof (append_claimed (stamp t (with_state ev StateSubmitting)) (store l)).
    repeat case_match; simplify_eq/=; set_solver.
  - unfold Apply, journal_and_fold. case_match; [|done].
    pose proof (append_claimed (with_client (stamp t ev) (o_ClientOrderID o)) (store l)).
    repeat case_match; simplify_eq/=; set_solver.
Qed.

Lemma total_won_claimed id l os : id ∈ store_claimed (store l) → total_won id l os = 0%nat.
Proof.
  revert l. induction os as [|o os IH]; intros l Hin; [done|]. simpl.
  rewrite IH by (by apply (step_claimed l o)). rewrite Nat.add_0_r.
  destruct o as [t i| |]; simpl; try done. destruct (String.eqb_spec i id) as [->|]; [|done]. simpl.
  unfold ClaimIntent. pose proof (claim_true id t (store l)) as Hc.
  destruct (store_ClaimIntent id t (store l)) as [[[] e] s]; simpl in *; [|done].
  destruct Hc as [? _]; [done|]. done.
Qed.

(** C6: An intent is granted at most once: over any sequence of ledger
    operations, failing store writes included, [ClaimIntent] answers true
    for a given intent id no more than one time. *)
Theorem intent_claimed_at_most_once id l os : (total_won id l os <= 1)%nat.
Proof.
  revert l. induction os as [|o os IH]; intros l; [simpl; lia|]. simpl.
  destruct (claims_won id l o) eqn:Hw; [apply IH|].
  destruct o as [t i| |]; simpl in Hw; try done.
  destruct (String.eqb_spec i id) as [->|]; [|done]. simpl in *.
  unfold ClaimIntent in *. pose proof (claim_true id t (store l)) as Hc.
  destruct (store_ClaimIntent id t (store l)) as [[[] e] s]; simpl in *; [|done].
  destruct Hc as [_ Hin]; [done|]. rewrite total_won_claimed by done. lia.
Qed.
End ledger_facts.

(** ** Concrete runs *)

Definition sample_event (client broker : string) (st : State) (qty filled avg : Z) : Event :=
  {| ev_ClientOrderID := client; ev_BrokerOrderID := broker; ev_Strategy := "NIFTY50_SR";
     ev_PositionKey := "NIFTY50_SR|CALL"; ev_Side := "BUY"; ev_Symbol := "NIFTY24200CE"; ev_Token := "4242";
     ev_State := st; ev_Qty := qty; ev_FilledQty := filled; ev_AvgPricePaise := avg; ev_Reason := "";
     ev_Source := "executor"; ev_TS := zero_time |}.

(** One write fails: the second event is not journaled and not applied. *)
Definition sample_journal : Journal := {| intents := ∅; order_events := []; faults := [false; false; false; false; true] |}.
Definition sample_ledger : Ledger Journal := {| store := sample_journal; book := empty_book |}.
Definition sample_ops : list op :=
  [OClaim 5 "abc"; OSubmit 6 (sample_event "abc" "" StateSubmitting 75 0 0);
   OApply 7 (sample_event "abc" "B1" StateOpen 0 0 0);
   OApply 8 (sample_event "" "B1" StatePartial 0 50 10000);
   OApply 9 (sample_event "" "B1" StateFilled 0 75 10050);
   OApply 10 (sample_event "abcR" "" StateFilled 0 75 10050)].

Lemma ledger_crash_recovery_witness :
  let fin := run sample_ledger sample_ops in
  (∃ l', NewLedger 1000 (store fin) = inl l' ∧ book l' = book fin) ∧
  o_State <$> orders (book fin) !! "abc" = Some StateFilled.
Proof.
  intros fin. split; [|vm_compute; reflexivity].
  destruct (NewLedger 1000 (store fin)) as [l'|e] eqn:E; [|vm_compute in E; discriminate].
  exists l'. split; [reflexivity|].
  apply (ledger_crash_recovery (S:=Journal) sample_journal 0 sample_ledger sample_ops 1000 l').
  - z_compute.
  - z_compute.
  - reflexivity.
  - repeat constructor; z_compute.
  - apply Forall_nil. exact I.
  - change (run sample_ledger sample_ops) with fin.
    vm_compute. repeat constructor; discriminate.
  - exact E.
Defined.

Lemma terminal_states_are_final_witness :
  let fin := run sample_ledger sample_ops in
  ∃ o, orders (book (run fin [OApply 20 (sample_event "abc" "B1" StateCancelled 0 0 0);
                               OApply 21 (sample_event "" "B1" StateOpen 0 0 0)])) !! "abc" = Some o ∧
       o_State o = StateFilled.
Proof.
  intros fin.
  destruct (orders (book fin) !! "abc") as [ord|] eqn:E; [|vm_compute in E; discriminate].
  assert (o_State ord = StateFilled) as Hs by (vm_compute in E; injection E as <-; reflexivity).
  assert (book fin = replay (store_log (store fin))) as Hc by (vm_compute; reflexivity).
  destruct (terminal_states_are_final (S:=Journal) fin
    [OApply 20 (sample_event "abc" "B1" StateCancelled 0 0 0); OApply 21 (sample_event "" "B1" StateOpen 0 0 0)]
    "abc" ord) as (o & H1 & H2).
  - rewrite Hc. apply replay_ok.
  - exact E.
  - rewrite Hs. reflexivity.
  - exists o. split; [exact H1|]. rewrite H2. exact Hs.
Defined.

Lemma Apply_spec_witness :
  ∃ e, Apply 20 (sample_event "abc" "" StateOpen 0 0 0) (run sample_ledger sample_ops)
       = (Some e, run sample_ledger sample_ops) ∧ errors_is ErrIllegalTransition e = true.
Proof.
  pose proof (Apply_spec (S:=Journal) 20 (sample_event "abc" "" StateOpen 0 0 0) (run sample_ledger sample_ops)) as H.
  assert (book (run sample_ledger sample_ops) = replay (store_log (store (run sample_ledger sample_ops)))) as Hc
    by (vm_compute; reflexivity).
  specialize (H ltac:(rewrite Hc; apply replay_ok)).
  assert (∃ o, findLocked (stamp 20 (sample_event "abc" "" StateOpen 0 0 0)) (book (run sample_ledger sample_ops))
               = Some o ∧ o_State o = StateFilled) as (o & E & Hs)
    by (vm_compute; eexists; split; reflexivity).
  rewrite E in H. destruct H as [H _].
  apply H; rewrite Hs; [discriminate|reflexivity].
Defined.

Lemma intent_claimed_at_most_once_witness :
  (total_won "abc" sample_ledger (sample_ops ++ [OClaim 30 "abc"; OClaim 31 "abc"]) <= 1)%nat ∧
  total_won "abc" sample_ledger [OClaim 30 "abc"; OClaim 31 "abc"] = 1%nat.
Proof. split; [apply (intent_claimed_at_most_once (S:=Journal))|vm_compute; reflexivity]. Defined.
