(* ===== verification/Fill.v ===== *)
(** Broker responses and money (internal/orderexec/fill.go and the price
    helpers of executor.go, chase.go): JSON values as the Go client hands
    them over, order-book rows, and the conversion between rupee text and
    paise.  No float arithmetic touches a price here, and none does in the
    code. *)
From S2P Require Import Prelude GoText Errors.
#[local] Open Scope Z_scope.
#[local] Open Scope go_scope.

(** ** JSON values

    An [any] decoded by encoding/json.  [ANum m e] is the float64 whose
    shortest decimal text is [m / 10^e] with [e] decimals (magnitudes below
    1e21, which print without an exponent); a map's bindings are listed in
    key order, the order [fmt] prints them in. *)
Inductive any :=
  | ANil
  | ABool (b : bool)
  | AStr (s : string)
  | ANum (m : Z) (e : nat)
  | AList (l : list any)
  | AMap (kv : list (string * any)).

(** [strconv.FormatFloat(v, 'f', -1, 64)]. *)
Definition format_decimal (m : Z) (e : nat) : string :=
  match e with
  | O => format_int m
  | _ =>
      let p := 10 ^ Z.of_nat e in
      let frac := format_int (Z.abs m mod p) in
      (if m <? 0 then "-" else "") +:+ format_int (Z.abs m / p) +:+ "." +:+
        str_repeat "0" (e - String.length frac) +:+ frac
  end.

(** [fmt.Sprint(v)]. *)
Fixpoint sprint (v : any) : string :=
  match v with
  | ANil => "<nil>"
  | ABool true => "true"
  | ABool false => "false"
  | AStr s => s
  | ANum m e => format_decimal m e
  | AList l => "[" +:+ str_join " " (map sprint l) +:+ "]"
  | AMap kv => "map[" +:+ str_join " " (map (λ '(k, v), k +:+ ":" +:+ sprint v) kv) +:+ "]"
  end.

Definition toStr (v : any) : string := match v with ANil => "" | _ => sprint v end.

(** A [map[string]any]; indexing a missing key gives [nil]. *)
Abbreviation row := (list (string * any)) (only parsing).
Definition get (r : row) (k : string) : any :=
  match list_find (λ kv, kv.1 = k) r with Some (_, (_, v)) => v | None => ANil end.

(** The type assertions the code uses: [v.(string)], [v.(bool)],
    [v.(map[string]any)], with the zero value when the type differs. *)
Definition as_string (v : any) : string := match v with AStr s => s | _ => "" end.
Definition as_map (v : any) : row := match v with AMap kv => kv | _ => [] end.
(** [rows, _ := book["data"].([]any)], keeping the entries that are maps. *)
Definition book_rows (book : row) : list row :=
  match get book "data" with
  | AList l => omap (λ v, match v with AMap kv => Some kv | _ => None end) l
  | _ => []
  end.
(** [v == s] for a string [s]. *)
Definition any_is (v : any) (s : string) : bool :=
  match v with AStr t => String.eqb t s | _ => false end.

Definition statusOK (res : row) : bool := match get res "status" with ABool b => b | _ => false end.

(** ** Rupees and paise *)

Definition err_price (s : string) : gerror := err_new ("price " +:+ format_q s +:+ ": strconv.ParseInt").

Definition parse_rupees (s : string) : Z + gerror :=
  let '(whole, frac, _) := cut_at "."%char s in
  let '(roundUp, frac) :=
    if (2 <? String.length frac)%nat
    then (match String.get 2 frac with Some c => (53 <=? N_of_ascii c)%N | None => false end,
          str_take 2 frac)
    else (false, frac) in
  let frac := frac +:+ str_repeat "0" (2 - String.length frac) in
  match parse_int whole with
  | None => inr (err_price s)
  | Some w =>
      match parse_int frac with
      | None => inr (err_price s)
      | Some f =>
          let p := w *! 100 +! f in
          inl (if roundUp then p +! 1 else p)
      end
  end.

Definition rupeesToPaise (v : any) : Z + gerror :=
  match v with
  | ANum m e => parse_rupees (format_decimal m e)
  | AStr s => parse_rupees (trim_space s)
  | _ => inr (err_new "unsupported price type")
  end.

Definition paiseToRupees (p : Z) : string := format_int (p /! 100) +:+ "." +:+ format_02d (p %! 100).

(** ** Ticks (executor.go) *)

Definition floorTick (p tick : Z) : Z := if tick <=? 1 then p else p /! tick *! tick.
Definition ceilTick (p tick : Z) : Z := if tick <=? 1 then p else (p +! tick -! 1) /! tick *! tick.

Definition gttTargetPaise (entryPaise bps tickPaise : Z) : Z :=
  floorTick (entryPaise *! (10000 +! bps) /! 10000) tickPaise.

Definition gttStopLossPaise (entryPaise slPaise tickPaise : Z) : Z * Z :=
  let trigger := ceilTick (entryPaise -! slPaise) tickPaise in
  let limit := floorTick (trigger -! 50) tickPaise in
  (trigger, if limit <=? 0 then trigger else limit).

(** ** Fill results *)

Record fillResult := {
  f_Status : string;
  f_AvgPricePaise : Z;
  f_FilledQty : Z;
  f_Text : string;
}.

(** [fillResult{}] *)
Definition no_fill : fillResult := {| f_Status := ""; f_AvgPricePaise := 0; f_FilledQty := 0; f_Text := "" |}.

#[export] Instance fillResult_eq_dec : EqDecision fillResult.
Proof. solve_decision. Defined.

Definition Rejected (f : fillResult) : bool :=
  String.eqb (f_Status f) "rejected" || (String.eqb (f_Status f) "cancelled" && (f_FilledQty f =? 0)).
Definition Partial (f : fillResult) : bool :=
  String.eqb (f_Status f) "cancelled" && (0 <? f_FilledQty f).
Definition terminal (f : fillResult) : bool :=
  String.eqb (f_Status f) "complete" || String.eqb (f_Status f) "rejected" || String.eqb (f_Status f) "cancelled".

Definition parseFillRow (r : row) : fillResult :=
  let status := to_lower (sprint (get r "orderstatus")) in
  let filled := default 0 (parse_int (trim_space (toStr (get r "filledshares")))) in
  let avg :=
    if String.eqb status "complete" || (0 <? filled)
    then match rupeesToPaise (get r "averageprice") with inl p => p | inr _ => 0 end
    else 0 in
  {| f_Status := status; f_AvgPricePaise := avg; f_FilledQty := filled; f_Text := toStr (get r "text") |}.

Definition findOrderByID (book : row) (orderID : string) : option row :=
  head (filter (λ r, any_is (get r "orderid") orderID = true) (book_rows book)).

Definition findOrderByTag (book : row) (tag : string) : option row :=
  head (filter (λ r, any_is (get r "ordertag") tag = true) (book_rows book)).

Definition rowRejected (r : row) : bool :=
  let s := to_lower (sprint (get r "orderstatus")) in String.eqb s "rejected" || String.eqb s "cancelled".

(** [matchByTags]: the first live row among the tags, else a rejected one
    (the last tag's). *)
Fixpoint matchByTags_from (fallback : option row) (tags : list string) (book : row) : option row :=
  match tags with
  | [] => fallback
  | t :: tags =>
      match findOrderByTag book t with
      | Some r => if negb (rowRejected r) then Some r else matchByTags_from (Some r) tags book
      | None => matchByTags_from fallback tags book
      end
  end.
Definition matchByTags (tags : list string) (book : row) : option row := matchByTags_from None tags book.

(** ** Rupee text and paise agree *)

Lemma parse_rupees_paise p : 0 <= p <= max_i64 → parse_rupees (paiseToRupees p) = inl p.
Proof.
  intros Hp. unfold parse_rupees, paiseToRupees.
  assert (0 <= Z.quot p 100 ∧ p = 100 * Z.quot p 100 + Z.rem p 100 ∧ 0 <= Z.rem p 100 < 100) as (Hq & Hp' & Hr).
  { rewrite Z.quot_div_nonneg, Z.rem_mod_nonneg by lia. pose proof (Z.div_mod p 100).
    pose proof (Z.mod_pos_bound p 100). lia. }
  rewrite (i64_id (Z.quot p 100)) by (i64_unfold; lia).
  destruct (format_02d_spec (Z.rem p 100) Hr) as (Hlen & Hparse & Hdig).
  change ("." +:+ format_02d (p %! 100)) with (String "." (format_02d (p %! 100))).
  rewrite cut_at_app by (apply digits_count_char; [done|by apply format_int_digits]).
  cbv beta iota zeta. rewrite !Hlen. cbn [Nat.ltb Nat.leb]. rewrite ?Hlen.
  change (2 - 2)%nat with 0%nat. simpl.
  rewrite str_app_nil, parse_format_int, Hparse by (i64_unfold; lia).
  rewrite (i64_id (_ * _)) by (i64_unfold; lia). rewrite i64_id by (i64_unfold; lia). f_equal. lia.
Qed.

Lemma paiseToRupees_no_space p : 0 <= p → str_all (λ c, negb (is_space c)) (paiseToRupees p) = true.
Proof.
  intros Hp. unfold paiseToRupees.
  assert (∀ s, str_all is_digit s = true → str_all (λ c, negb (is_space c)) s = true) as Hd.
  { intros s. apply str_all_impl. intros c Hc. by rewrite digit_not_space. }
  assert (0 <= Z.quot p 100 ∧ 0 <= Z.rem p 100 < 100) as (Hq & Hr).
  { split; [apply Z.quot_pos; lia|]. apply Z.rem_bound_pos; lia. }
  rewrite !str_all_app, !andb_true_iff. repeat split.
  - destruct (decide (p <= max_i64)).
    + apply Hd, format_int_digits. rewrite i64_id; [done|]. i64_unfold.
      pose proof (Z.quot_le_upper_bound p 100 max_i64). unfold max_i64 in *. lia.
    + generalize (i64 (Z.quot p 100)). intros z. unfold format_int. destruct z as [|q|q]; [done| |].
      * apply Hd. by apply (format_int_digits (Z.pos q)).
      * change (pretty (Z.neg q)) with ("-" +:+ pretty (N.pos q)). rewrite str_all_app. simpl.
        apply Hd. by apply (format_int_digits (Z.pos q)).
  - apply Hd. by apply format_02d_spec.
Qed.

(** A JSON number of at most two decimals, in paise. *)
Definition json_paise (m : Z) (e : nat) : Z :=
  match e with O => m * 100 | 1%nat => m * 10 | _ => m end.

Lemma json_rupees m e : (e <= 2)%nat → 0 <= m → json_paise m e <= max_i64 →
  parse_rupees (format_decimal m e) = inl (json_paise m e).
Proof.
  intros He Hm Hle. destruct e as [|[|[|e]]]; [| | |lia]; unfold json_paise in *.
  - unfold format_decimal, parse_rupees. destruct (format_int_digits m Hm) as [Hd _].
    assert (cut_at "."%char (format_int m) = (format_int m, "", false)) as ->.
    { revert Hd. generalize (format_int m). intros s. induction s as [|c s IH]; [done|]. simpl.
      rewrite andb_true_iff. intros [Hc Hs]. destruct (Ascii.eqb_spec c "."); [subst; done|]. by rewrite IH. }
    simpl. rewrite parse_format_int by (i64_unfold; lia). simpl.
    rewrite (i64_id (m * 100)) by (i64_unfold; lia). rewrite Z.add_0_r. by rewrite i64_id by (i64_unfold; lia).
  - unfold format_decimal, parse_rupees. rewrite (proj2 (Z.ltb_ge m 0)), Z.abs_eq by lia.
    change (10 ^ Z.of_nat 1) with 10. pose proof (Z.mod_pos_bound m 10 ltac:(lia)) as Hr.
    pose proof (Z.div_mod m 10 ltac:(lia)) as Hdm. pose proof (Z.div_pos m 10 Hm ltac:(lia)).
    change ("." +:+ ?x) with (String "." x). change ("" +:+ ?x) with x.
    rewrite cut_at_app by (apply digits_count_char; [done|by apply format_int_digits]).
    assert (Forall (λ d, String.length (str_repeat "0" (1 - String.length (format_int d)) +:+ format_int d) = 1%nat ∧
      parse_int ((str_repeat "0" (1 - String.length (format_int d)) +:+ format_int d) +:+ "0") = Some (10 * d))
      (seqZ 0 10)) as Hall by (apply (bool_decide_unpack _); vm_compute; exact I).
    rewrite Forall_forall in Hall. destruct (Hall (m mod 10)) as [Hlen Hp]; [apply elem_of_seqZ; lia|].
    cbv beta iota zeta. rewrite !Hlen. cbn [Nat.ltb Nat.leb]. rewrite Hlen. cbn [Nat.sub str_repeat].
    change ("0" +:+ "") with "0". rewrite Hp, parse_format_int by (i64_unfold; lia).
    rewrite (i64_id (_ * 100)) by (i64_unfold; lia). rewrite i64_id by (i64_unfold; lia). f_equal. lia.
  - assert (format_decimal m 2 = paiseToRupees m) as ->; [|apply parse_rupees_paise; lia].
    unfold format_decimal, paiseToRupees. rewrite (proj2 (Z.ltb_ge m 0)), Z.abs_eq by lia.
    change (10 ^ Z.of_nat 2) with 100. rewrite Z.quot_div_nonneg, Z.rem_mod_nonneg by lia.
    assert (0 <= m / 100 <= max_i64).
    { split; [apply Z.div_pos; lia|]. apply Z.div_le_upper_bound; unfold max_i64 in *; lia. }
    rewrite i64_id by (i64_unfold; lia). change ("" +:+ ?x) with x. do 2 f_equal.
    pose proof (Z.mod_pos_bound m 100 ltac:(lia)).
    assert (Forall (λ d, str_repeat "0" (2 - String.length (format_int d)) +:+ format_int d = format_02d d)
      (seqZ 0 100)) as Hall by (apply (bool_decide_unpack _); vm_compute; exact I).
    rewrite Forall_forall in Hall. apply Hall, elem_of_seqZ. lia.
Qed.

(** Prices survive the broker's text: an amount of paise printed as
    rupees, as the order requests carry it, reads back unchanged, and a
    broker amount of at most two decimals, as text or as a JSON number,
    reads as exactly its paise. *)
Theorem rupees_round_trip p m e :
  0 <= p <= max_i64 → (e <= 2)%nat → 0 <= m → json_paise m e <= max_i64 →
  rupeesToPaise (AStr (paiseToRupees p)) = inl p ∧
  rupeesToPaise (ANum m e) = inl (json_paise m e).
Proof.
  intros Hp He Hm Hle. split; [|by apply json_rupees].
  simpl. rewrite trim_space_id by (apply paiseToRupees_no_space; lia). by apply parse_rupees_paise.
Qed.

Lemma rupees_round_trip_witness :
  rupeesToPaise (AStr (paiseToRupees 12345)) = inl 12345 ∧ rupeesToPaise (ANum 1205 1) = inl 12050.
Proof. apply (rupees_round_trip 12345 1205 1); first [z_compute | lia]. Defined.

(** Below zero the sign applies to the rupees alone: minus 1.50 rupees
    reads as minus 50 paise. *)
Lemma negative_rupees_misread : rupeesToPaise (AStr "-1.50") = inl (-50).
Proof. reflexivity. Qed.

(** ** Tick arithmetic *)

(** Prices and ticks for which nothing overflows. *)
Definition price_ok (p : Z) : Prop := 0 <= p <= 2 ^ 60.
Definition tick_size_ok (t : Z) : Prop := 1 <= t <= 2 ^ 30.

Lemma floorTick_spec p t : price_ok p → tick_size_ok t →
  0 <= floorTick p t <= p ∧ p < floorTick p t + t ∧ floorTick p t mod t = 0.
Proof.
  unfold price_ok, tick_size_ok. intros Hp Ht. unfold floorTick.
  destruct (Z.leb_spec t 1).
  { assert (t = 1) as -> by lia. rewrite Z.mod_1_r. lia. }
  rewrite Z.quot_div_nonneg by lia. pose proof (Z.div_mod p t). pose proof (Z.mod_pos_bound p t).
  pose proof (Z.div_pos p t). assert (p / t <= p) by nia.
  rewrite (i64_id (p / t)) by (i64_unfold; lia). rewrite i64_id by (i64_unfold; nia).
  rewrite Z.mod_mul by lia. nia.
Qed.

Lemma ceilTick_spec p t : price_ok p → tick_size_ok t →
  p <= ceilTick p t < p + t ∧ ceilTick p t mod t = 0.
Proof.
  unfold price_ok, tick_size_ok. intros Hp Ht. unfold ceilTick.
  destruct (Z.leb_spec t 1).
  { assert (t = 1) as -> by lia. rewrite Z.mod_1_r. lia. }
  rewrite (i64_id (p + t)), (i64_id (p + t - 1)) by (i64_unfold; lia).
  rewrite Z.quot_div_nonneg by lia. pose proof (Z.div_mod (p + t - 1) t).
  pose proof (Z.mod_pos_bound (p + t - 1) t). pose proof (Z.div_pos (p + t - 1) t).
  assert ((p + t - 1) / t <= p + t - 1) by nia.
  rewrite (i64_id (_ / t)) by (i64_unfold; lia). rewrite i64_id by (i64_unfold; nia).
  rewrite Z.mod_mul by lia. nia.
Qed.

(** A protective stop never fires later than configured and never more
    than a tick early: its trigger is on the tick grid, at or above entry
    minus the stop distance and less than one tick above it; its limit is
    positive, on the grid and, unless that would not be positive, 50 paise
    to 50 paise and a tick below the trigger. *)
Theorem stop_prices_on_grid entry sl tick :
  0 < sl < entry → entry <= 2 ^ 59 → tick_size_ok tick →
  let '(trigger, limit) := gttStopLossPaise entry sl tick in
  entry - sl <= trigger < entry - sl + tick ∧ trigger mod tick = 0 ∧
  0 < limit <= trigger ∧ limit mod tick = 0 ∧
  (limit = trigger ∨ trigger - 50 - tick < limit <= trigger - 50).
Proof.
  intros Hsl Hp Ht. unfold gttStopLossPaise.
  rewrite (i64_id (entry - sl)) by (i64_unfold; lia).
  destruct (ceilTick_spec (entry - sl) tick) as [H1 H2]; [unfold price_ok, tick_size_ok in *; lia|done|].
  set (tr := ceilTick (entry - sl) tick) in *. unfold tick_size_ok in Ht.
  rewrite (i64_id (tr - 50)) by (i64_unfold; lia).
  destruct (Z.leb_spec (floorTick (tr - 50) tick) 0) as [|Hpos].
  - repeat split; auto; lia.
  - destruct (decide (50 <= tr)).
    + destruct (floorTick_spec (tr - 50) tick) as (? & ? & ?); [unfold price_ok; lia|unfold tick_size_ok; lia|].
      repeat split; auto; lia.
    + exfalso. unfold floorTick in Hpos. destruct (tick <=? 1); [lia|].
      assert (-1000 <= Z.quot (tr - 50) tick <= 0) as Hq.
      { replace (tr - 50) with (- (50 - tr)) by lia. rewrite Z.quot_opp_l by lia.
        pose proof (Z.quot_pos (50 - tr) tick). pose proof (Z.quot_le_upper_bound (50 - tr) tick 1000). nia. }
      rewrite (i64_id (Z.quot _ _)) in Hpos by (i64_unfold; lia).
      rewrite i64_id in Hpos by (i64_unfold; nia). nia.
Qed.

Lemma stop_prices_on_grid_witness :
  gttStopLossPaise 12345 1000 5 = (11345, 11295) ∧ 12345 - 1000 <= 11345 < 12345 - 1000 + 5.
Proof.
  assert (gttStopLossPaise 12345 1000 5 = (11345, 11295)) as E by reflexivity.
  split; [exact E|].
  pose proof (stop_prices_on_grid 12345 1000 5 ltac:(lia) ltac:(lia) ltac:(z_compute)) as H.
  rewrite E in H. exact (proj1 H).
Defined.
