(* ===== verification/RateLimiter.v ===== *)
(** Sliding-window rate limiter (internal/orderexec/ratelimiter.go) and the
    terminal statuses pushed by the order-status socket
    (internal/orderexec/push.go). *)
From Stdlib Require Import Sorted.
From S2P Require Import Prelude Fill.
#[local] Open Scope Z_scope.
#[local] Open Scope go_scope.

(** ** RateLimiter *)

Record RateLimiter := {
  rl_maxOrders : Z;
  rl_window : Duration;
  rl_orders : list Time;
}.

Definition NewRateLimiter (maxOrders : Z) (window : Duration) : RateLimiter :=
  {| rl_maxOrders := maxOrders; rl_window := window; rl_orders := [] |}.

(** [true] is a nil error, [false] is [ErrRateLimited]. *)
Definition rl_Allow (now : Time) (rl : RateLimiter) : bool * RateLimiter :=
  let cutoff := t_add now (- rl_window rl) in
  let valid := filter (λ t, t_after t cutoff = true) (rl_orders rl) in
  if rl_maxOrders rl <=? Z.of_nat (length valid)
  then (false, {| rl_maxOrders := rl_maxOrders rl; rl_window := rl_window rl; rl_orders := valid |})
  else (true, {| rl_maxOrders := rl_maxOrders rl; rl_window := rl_window rl; rl_orders := valid ++ [now] |}).

Definition rl_Count (now : Time) (rl : RateLimiter) : Z :=
  Z.of_nat (length (filter (λ t, t_after t (t_add now (- rl_window rl)) = true) (rl_orders rl))).

(** Successive calls at the given times, and the times that were allowed. *)
Fixpoint rl_run (times : list Time) (rl : RateLimiter) : list Time * RateLimiter :=
  match times with
  | [] => ([], rl)
  | t :: times =>
      let '(ok, rl) := rl_Allow t rl in
      let '(allowed, rl) := rl_run times rl in
      (if ok then t :: allowed else allowed, rl)
  end.

(** Orders allowed in the window that ends at [T]. *)
Definition in_window (window : Duration) (T : Time) (allowed : list Time) : list Time :=
  filter (λ t, T - window < t <= T) allowed.

Lemma filter_length_impl {A} (P Q : A → Prop) `{∀ x, Decision (P x), ∀ x, Decision (Q x)} (l : list A) :
  (∀ x, x ∈ l → P x → Q x) → (length (filter P l) <= length (filter Q l))%nat.
Proof.
  induction l as [|x l IH]; intros Himp; [done|]. rewrite !filter_cons.
  pose proof (IH ltac:(intros; apply Himp; set_solver)).
  pose proof (Himp x ltac:(set_solver)). repeat case_decide; simpl; try lia. naive_solver.
Qed.

Lemma rl_run_window hist times rl c T :
  0 < rl_window rl → rl_orders rl = filter (λ t, c < t) hist →
  Forall (λ t, ∀ h, h ∈ hist → h <= t) times → Forall (λ t, c <= t - rl_window rl) times → Sorted Z.le times →
  (∀ T, Z.of_nat (length (in_window (rl_window rl) T hist)) <= Z.max 0 (rl_maxOrders rl)) →
  Z.of_nat (length (in_window (rl_window rl) T (hist ++ (rl_run times rl).1))) <= Z.max 0 (rl_maxOrders rl).
Proof.
  revert hist rl c. induction times as [|t times IH]; intros hist rl c Hw Hord Hge Hc Hsort HW; simpl.
  { by rewrite app_nil_r. }
  apply Forall_cons in Hge as [Ht Hge], Hc as [Hct Hc]. apply Sorted_StronglySorted in Hsort; [|intros ???; lia].
  apply StronglySorted_inv in Hsort as [Hsort Hle]. apply StronglySorted_Sorted in Hsort.
  unfold rl_Allow. set (cut := t_add t (- rl_window rl)).
  assert (filter (λ x, t_after x cut = true) (rl_orders rl) = filter (λ x, cut < x) hist) as Hv.
  { rewrite Hord, list_filter_filter. apply list_filter_iff. intros x.
    unfold t_after, cut, t_add. rewrite Z.ltb_lt. split; [tauto|]. intros ?. split; [done|]. lia. }
  rewrite Hv. assert (∀ t', t' ∈ times → t <= t') as Hle'. { by apply Forall_forall. }
  destruct (rl_maxOrders rl <=? _) eqn:Hmax.
  - set (rl' := {| rl_maxOrders := _ |}). pose proof (IH hist rl' cut) as Hrun.
    destruct (rl_run times rl') as [allowed rl'']. simpl in *. apply Hrun; auto.
    apply Forall_forall. intros t' Hin. specialize (Hle' t' Hin). unfold cut, t_add. lia.
  - set (rl' := {| rl_maxOrders := _ |}). pose proof (IH (hist ++ [t]) rl' cut) as Hrun.
    destruct (rl_run times rl') as [allowed rl'']. simpl in *. bool_prop.
    rewrite cons_middle, app_assoc. apply Hrun; auto.
    + rewrite filter_app, filter_cons. destruct (decide (cut < t)) as [|Hneg]; [by rewrite filter_nil|].
      unfold cut, t_add in Hneg. lia.
    + apply Forall_forall. intros t' Hin h. rewrite elem_of_app, list_elem_of_singleton.
      rewrite Forall_forall in Hge. intros [?| ->]; [by apply Hge|by apply Hle'].
    + apply Forall_forall. intros t' Hin. specialize (Hle' t' Hin). unfold cut, t_add. lia.
    + intros T'. unfold in_window. rewrite filter_app, length_app, filter_cons, filter_nil.
      case_decide as Hin; simpl; [|rewrite Nat.add_0_r; apply HW].
      pose proof (filter_length_impl (λ x, T' - rl_window rl < x <= T') (λ x, cut < x) hist) as Hlen.
      unfold cut, t_add in *. lapply Hlen; [lia|]. intros x _ ?. lia.
Qed.

(** However the orders are spaced, no window of the configured length,
    wherever it ends, holds more than the configured number of allowed
    orders. *)
Theorem rate_limit_respected maxOrders window times T :
  0 < window → 0 <= maxOrders → Sorted Z.le times →
  Z.of_nat (length (in_window window T (rl_run times (NewRateLimiter maxOrders window)).1)) <= maxOrders.
Proof.
  intros Hw Hm Hs. set (rl := NewRateLimiter maxOrders window).
  pose proof (rl_run_window [] times rl (hd 0 times - window) T) as H. simpl in H.
  rewrite Z.max_r in H by done. apply H; try done.
  - apply Forall_forall. intros t _ h Hin. by apply elem_of_nil in Hin.
  - destruct times as [|t times]; [constructor|]. simpl.
    apply Sorted_StronglySorted, StronglySorted_inv in Hs as [_ Hs]; [|intros ???; lia].
    constructor; [lia|]. eapply Forall_impl; [exact Hs|]. simpl. lia.
Qed.

Lemma rate_limit_respected_witness :
  let times := [0; 10; 20; 61; 62] in
  (rl_run times (NewRateLimiter 2 60)).1 = [0; 10; 61] ∧
  Z.of_nat (length (in_window 60 62 (rl_run times (NewRateLimiter 2 60)).1)) <= 2.
Proof.
  cbv zeta. split; [vm_compute; reflexivity|].
  apply (rate_limit_respected 2 60 [0; 10; 20; 61; 62] 62); [lia|lia|].
  repeat constructor; lia.
Defined.

(** ** pushBook

    The waiters of the code only cut a wait short; waiting is part of the
    executor's environment, so the book is its rows. *)

Record pushedRow := { pr_f : fillResult; pr_at : Time }.
Abbreviation pushBook := (gmap string pushedRow) (only parsing).

Definition pushKeep : Duration := 24 * Hour.

(** [put]: the first terminal status of an order wins. *)
Definition push_put (now : Time) (orderID : string) (f : fillResult) (p : pushBook) : bool * pushBook :=
  match p !! orderID with
  | Some _ => (false, p)
  | None =>
      let kept := filter (λ kr : string * pushedRow, t_sub now (pr_at kr.2) <= pushKeep) p in
      (true, <[orderID := {| pr_f := f; pr_at := now |}]> kept)
  end.

(** [terminal]. *)
Definition push_terminal (orderID : string) (p : pushBook) : option fillResult :=
  if String.eqb orderID "" then None else pr_f <$> p !! orderID.

Fixpoint push_run (ups : list (Time * string * fillResult)) (p : pushBook) : pushBook :=
  match ups with
  | [] => p
  | (now, id, f) :: ups => push_run ups (push_put now id f p).2
  end.

(** A stored status never changes; it can only expire, a day after it came. *)
Lemma push_status_final ups p id r :
  p !! id = Some r →
  Forall (λ u : Time * string * fillResult, t_sub u.1.1 (pr_at r) <= pushKeep) ups →
  push_run ups p !! id = Some r.
Proof.
  intros Hr Hups. revert p Hr. induction Hups as [|[[now id'] f] ups Hnow _ IH]; intros p Hr; [done|]. simpl.
  apply IH. unfold push_put. destruct (p !! id') eqn:E; [done|]. simpl.
  rewrite lookup_insert_ne by congruence. by apply map_lookup_filter_Some_2.
Qed.
