(* ===== verification/Underlying.v ===== *)
(** The tradable underlyings (internal/underlying) and how the executor maps
    a contract or strategy to one (internal/orderexec/underlying.go).  The
    process environment is a function from variable names to values. *)
From S2P Require Import Prelude GoText.
#[local] Open Scope Z_scope.
#[local] Open Scope go_scope.

Record Profile := {
  p_Key : string;
  p_IndexExchange : string;
  p_IndexToken : string;
  p_IndexExchType : Z;
  p_OptionName : string;
  p_FNOExchange : string;
  p_FNOExchType : Z;
  p_StrikeStep : Z;
  p_LotFallback : Z;
  p_FreezeQty : Z;
  p_ExpiryWeekday : Z;
  p_StrategyName : string;
  p_BrokerGreeks : bool;
  p_ScaleNum : Z;
  p_ScaleDen : Z;
}.

Definition IndexKey (p : Profile) : string := p_IndexExchange p +:+ ":" +:+ p_IndexToken p.
Definition IndexSubscribeToken (p : Profile) : string :=
  format_int (p_IndexExchType p) +:+ ":" +:+ p_IndexToken p.

(** [Scale]: a zero denominator leaves the amount alone. *)
Definition Scale (p : Profile) (paise : Z) : Z :=
  if p_ScaleDen p =? 0 then paise else paise *! p_ScaleNum p /! p_ScaleDen p.

Definition nifty : Profile :=
  {| p_Key := "NIFTY"; p_IndexExchange := "NSE"; p_IndexToken := "99926000"; p_IndexExchType := 1;
     p_OptionName := "NIFTY"; p_FNOExchange := "NFO"; p_FNOExchType := 2; p_StrikeStep := 50;
     p_LotFallback := 65; p_FreezeQty := 1800; p_ExpiryWeekday := 2; p_StrategyName := "NIFTY50_SR";
     p_BrokerGreeks := true; p_ScaleNum := 1; p_ScaleDen := 1 |}.

Definition builtin : list (string * Profile) :=
  [("NIFTY", nifty);
   ("SENSEX", {| p_Key := "SENSEX"; p_IndexExchange := "BSE"; p_IndexToken := "99919000"; p_IndexExchType := 3;
       p_OptionName := "SENSEX"; p_FNOExchange := "BFO"; p_FNOExchType := 4; p_StrikeStep := 100;
       p_LotFallback := 20; p_FreezeQty := 1000; p_ExpiryWeekday := 4; p_StrategyName := "SENSEX_SR";
       p_BrokerGreeks := false; p_ScaleNum := 33; p_ScaleDen := 10 |})].

Definition builtin_get (key : string) : option Profile :=
  snd <$> head (filter (λ kp, kp.1 = key) builtin).

(** [keyOfIndex]: a bare token means NSE. *)
Definition keyOfIndex (entry : string) : option string :=
  let entry := trim_space entry in
  if String.eqb entry "" then None
  else
    let '(ex, tok, ok) := cut_at ":"%char entry in
    let '(ex, tok) := if ok then (ex, tok) else ("NSE", entry) in
    let ex := to_upper (trim_space ex) in
    let tok := trim_space tok in
    fst <$> head (filter (λ kp : string * Profile, p_IndexExchange kp.2 = ex ∧ p_IndexToken kp.2 = tok) builtin).

Definition weekday_names : list string :=
  ["Sunday"; "Monday"; "Tuesday"; "Wednesday"; "Thursday"; "Friday"; "Saturday"].
Definition parseWeekday (s : string) : option Z :=
  (λ r, Z.of_nat r.1) <$>
    list_find (λ name, equal_fold s name || equal_fold s (str_take 3 name) = true) weekday_names.

(** [parseScale]: "33/10" or a whole number. *)
Definition parseScale (s : string) : option (Z * Z) :=
  let '(a, b, hasDen) := cut_at "/"%char s in
  match parse_int (trim_space a) with
  | Some num =>
      if num <=? 0 then None
      else if hasDen then
        match parse_int (trim_space b) with
        | Some den => if den <=? 0 then None else Some (num, den)
        | None => None
        end
      else Some (num, 1)
  | None => None
  end.

Section underlying.
Context (getenv : string → string).

Definition envInt (key : string) (fallback : Z) : Z :=
  match parse_int (trim_space (getenv key)) with
  | Some n => if 0 <? n then n else fallback
  | None => fallback
  end.

Definition Get (key : string) : Profile :=
  let p := default nifty (builtin_get (to_upper key)) in
  let k := p_Key p in
  let is_nifty := String.eqb k "NIFTY" in
  let lot := if is_nifty then envInt "NIFTY_LOT_SIZE" (p_LotFallback p) else p_LotFallback p in
  let freeze := if is_nifty then envInt "STRAT_FREEZE_QTY" (p_FreezeQty p) else p_FreezeQty p in
  let fno := let v := trim_space (getenv "STRAT_FNO_EXCHANGE") in
             if is_nifty && negb (String.eqb v "") then v else p_FNOExchange p in
  let expiry := let v := trim_space (getenv (k +:+ "_EXPIRY_WEEKDAY")) in
                if String.eqb v "" then p_ExpiryWeekday p else default (p_ExpiryWeekday p) (parseWeekday v) in
  let scale := let v := trim_space (getenv (k +:+ "_SCALE")) in
               if String.eqb v "" then (p_ScaleNum p, p_ScaleDen p)
               else default (p_ScaleNum p, p_ScaleDen p) (parseScale v) in
  {| p_Key := k; p_IndexExchange := p_IndexExchange p; p_IndexToken := p_IndexToken p;
     p_IndexExchType := p_IndexExchType p; p_OptionName := p_OptionName p; p_FNOExchange := fno;
     p_FNOExchType := p_FNOExchType p;
     p_StrikeStep := envInt (k +:+ "_STRIKE_STEP") (p_StrikeStep p);
     p_LotFallback := envInt (k +:+ "_LOT_SIZE") lot;
     p_FreezeQty := envInt (k +:+ "_FREEZE_QTY") freeze;
     p_ExpiryWeekday := expiry; p_StrategyName := p_StrategyName p; p_BrokerGreeks := p_BrokerGreeks p;
     p_ScaleNum := scale.1; p_ScaleDen := scale.2 |}.

Definition Primary : Profile := Get "NIFTY".

(** [add]: the keys seen so far, in order. *)
Definition add_key (keys : list string) (key : string) : list string :=
  if bool_decide (is_Some (builtin_get key)) && bool_decide (key ∉ keys) then keys ++ [key] else keys.

Definition All_keys : list string :=
  let keys := foldl (λ keys e, match keyOfIndex e with Some key => add_key keys key | None => keys end)
                ["NIFTY"] (tail (str_split ","%char (getenv "INDEX_TOKEN"))) in
  foldl (λ keys k, add_key keys (to_upper (trim_space k))) keys (str_split ","%char (getenv "UNDERLYINGS")).

Definition All : list Profile := Get <$> All_keys.

Definition find_profile (test : Profile → bool) : option Profile := head (filter (λ p, test p = true) All).
Definition ByStrategy (name : string) : option Profile := find_profile (λ p, String.eqb (p_StrategyName p) name).
Definition ByIndexKey (key : string) : option Profile := find_profile (λ p, equal_fold (IndexKey p) key).
Definition ByIndexToken (token : string) : option Profile := find_profile (λ p, String.eqb (p_IndexToken p) token).
Definition ByFNOExchange (ex : string) : option Profile := find_profile (λ p, equal_fold (p_FNOExchange p) ex).

(** ** The executor's view *)

Definition extraProfileOf (symbol : string) : option Profile :=
  head (filter (λ p, has_prefix (p_OptionName p) symbol = true) (tail All)).

Definition underlyingOfStrategy (name : string) : string :=
  match ByStrategy name with Some p => p_Key p | None => p_Key Primary end.

(** NIFTY comes first, and no underlying is listed twice. *)
Lemma All_keys_ok : NoDup All_keys ∧ head All_keys = Some "NIFTY".
Proof.
  unfold All_keys.
  assert (∀ keys key, NoDup keys ∧ head keys = Some "NIFTY" →
    NoDup (add_key keys key) ∧ head (add_key keys key) = Some "NIFTY") as Hadd.
  { intros keys key [Hnd Hh]. unfold add_key. case_match eqn:E; [|done]. bool_prop.
    split; [|by destruct keys]. apply NoDup_app. split; [done|]. split; [|apply NoDup_singleton].
    intros x Hx. rewrite list_elem_of_singleton. by intros ->. }
  assert (∀ (f : list string → string → list string) l keys,
    (∀ keys x, NoDup keys ∧ head keys = Some "NIFTY" → NoDup (f keys x) ∧ head (f keys x) = Some "NIFTY") →
    NoDup keys ∧ head keys = Some "NIFTY" → NoDup (foldl f keys l) ∧ head (foldl f keys l) = Some "NIFTY") as Hfold.
  { intros f l. induction l as [|x l IH]; intros keys Hf Hk; [done|]. simpl. apply IH; auto. }
  apply Hfold; [intros; by apply Hadd|]. apply Hfold.
  - intros keys e Hk. destruct (keyOfIndex e); auto.
  - split; [apply NoDup_singleton|done].
Qed.

(** A profile's strategy maps back to its key. *)
Lemma underlyingOfStrategy_primary : p_Key Primary = "NIFTY".
Proof. done. Qed.
End underlying.
