(* ===== verification/Positions.v ===== *)
(** Comparing the executor's positions with the broker's (the pure part of
    internal/orderexec/positions.go). *)
From S2P Require Import Prelude GoText Errors Fill.
#[local] Open Scope Z_scope.
#[local] Open Scope go_scope.

Record expectedPosition := { ep_Symbol : string; ep_Qty : Z }.
Definition no_position : expectedPosition := {| ep_Symbol := ""; ep_Qty := 0 |}.

Record PositionMismatch := {
  pm_Exchange : string;
  pm_Token : string;
  pm_Symbol : string;
  pm_Expected : Z;
  pm_Broker : Z;
}.

Definition posBookKey (exchange token : string) : string := exchange +:+ ":" +:+ token.

(** The broker's net positions by segment and token: the first loop. *)
Fixpoint broker_positions (defaultExchange : string) (rows : list row)
    (broker : gmap string expectedPosition) : gmap string expectedPosition + gerror :=
  match rows with
  | [] => inl broker
  | r :: rows =>
      let token := sprint (get r "symboltoken") in
      match parse_int (trim_space (sprint (get r "netqty"))) with
      | None => inr (err_new ("position " +:+ token +:+ " netqty " +:+ sprint (get r "netqty") +:+ ": strconv.ParseInt"))
      | Some qty =>
          let ex := as_string (get r "exchange") in
          let ex := if String.eqb ex "" then defaultExchange else ex in
          let k := posBookKey ex token in
          let b := default no_position (broker !! k) in
          broker_positions defaultExchange rows
            (<[k := {| ep_Symbol := sprint (get r "tradingsymbol"); ep_Qty := ep_Qty b +! qty |}]> broker)
      end
  end.

(** [strings.Cut(k, ":")]: exchange and token of a key. *)
Definition split_key (k : string) : string * string :=
  let '(ex, tok, _) := cut_at ":"%char k in (ex, tok).

Definition mismatch_before (a b : PositionMismatch) : bool :=
  if String.eqb (pm_Token a) (pm_Token b) then String.leb (pm_Exchange a) (pm_Exchange b)
  else String.leb (pm_Token a) (pm_Token b).

(** [sort.Slice]: insertion by the same order. *)
Fixpoint insert_mismatch (m : PositionMismatch) (l : list PositionMismatch) : list PositionMismatch :=
  match l with
  | [] => [m]
  | x :: l' => if mismatch_before m x then m :: l else x :: insert_mismatch m l'
  end.
Definition sort_mismatches (l : list PositionMismatch) : list PositionMismatch :=
  foldr insert_mismatch [] l.

Section compare.
Context `{MO : MapOrder}.

Definition comparePositions (expected : gmap string expectedPosition) (book : row) (defaultExchange : string) :
    list PositionMismatch + gerror :=
  match broker_positions defaultExchange (book_rows book) ∅ with
  | inr e => inr e
  | inl broker =>
      let differing := omap (λ '(k, e),
        let b := default no_position (broker !! k) in
        if ep_Qty b =? ep_Qty e then None
        else let '(ex, tok) := split_key k in
             Some {| pm_Exchange := ex; pm_Token := tok; pm_Symbol := ep_Symbol e;
                     pm_Expected := ep_Qty e; pm_Broker := ep_Qty b |}) (range expected) in
      let unknown := omap (λ '(k, b),
        if bool_decide (is_Some (expected !! k)) || (ep_Qty b =? 0) then None
        else let '(ex, tok) := split_key k in
             Some {| pm_Exchange := ex; pm_Token := tok; pm_Symbol := ep_Symbol b;
                     pm_Expected := 0; pm_Broker := ep_Qty b |}) (range broker) in
      inl (sort_mismatches (differing ++ unknown))
  end.

Lemma insert_mismatch_perm m l : insert_mismatch m l ≡ₚ m :: l.
Proof.
  induction l as [|x l IH]; [done|]. simpl. case_match; [done|]. rewrite IH. apply Permutation_swap.
Qed.

Lemma sort_mismatches_perm l : sort_mismatches l ≡ₚ l.
Proof. induction l as [|m l IH]; [done|]. simpl. by rewrite insert_mismatch_perm, IH. Qed.

Definition position_qty (m : gmap string expectedPosition) (k : string) : Z :=
  ep_Qty (default no_position (m !! k)).

(** [comparePositions] reports exactly the disagreements: a mismatch is
    listed for an instrument if and only if the quantity expected there (0
    when none is) differs from the broker's net quantity (0 when the broker
    lists none), and each one carries the two quantities.  So no report
    means the two sides agree on every instrument. *)
Theorem comparePositions_exact expected book ex broker out :
  broker_positions ex (book_rows book) ∅ = inl broker →
  comparePositions expected book ex = inl out →
  (∀ k, position_qty expected k ≠ position_qty broker k →
     ∃ m, m ∈ out ∧ (pm_Exchange m, pm_Token m) = split_key k ∧
       pm_Expected m = position_qty expected k ∧ pm_Broker m = position_qty broker k) ∧
  (∀ m, m ∈ out → ∃ k, (pm_Exchange m, pm_Token m) = split_key k ∧
       pm_Expected m = position_qty expected k ∧ pm_Broker m = position_qty broker k ∧
       pm_Expected m ≠ pm_Broker m).
Proof.
  intros Hb. unfold comparePositions. rewrite Hb. intros [= <-]. unfold position_qty.
  assert (∀ (m : PositionMismatch) l, m ∈ sort_mismatches l ↔ m ∈ l) as Hsort.
  { intros m l. by rewrite sort_mismatches_perm. }
  split.
  - intros k Hne. destruct (split_key k) as [kx kt] eqn:Hk. destruct (expected !! k) as [e|] eqn:He.
    + exists {| pm_Exchange := kx; pm_Token := kt; pm_Symbol := ep_Symbol e; pm_Expected := ep_Qty e;
                pm_Broker := ep_Qty (default no_position (broker !! k)) |}. simpl in *.
      split; [|done]. apply Hsort, elem_of_app. left. apply list_elem_of_omap.
      exists (k, e). split; [by apply elem_of_range|]. rewrite Hk.
      rewrite (proj2 (Z.eqb_neq _ _)); [done|]. simpl in *. congruence.
    + simpl in Hne. destruct (broker !! k) as [b|] eqn:Hbk; [|done]. simpl in *.
      exists {| pm_Exchange := kx; pm_Token := kt; pm_Symbol := ep_Symbol b; pm_Expected := 0;
                pm_Broker := ep_Qty b |}. split; [|done].
      apply Hsort, elem_of_app. right. apply list_elem_of_omap. exists (k, b).
      split; [by apply elem_of_range|]. rewrite Hk, He. rewrite bool_decide_false by (by intros [? ?]).
      simpl. rewrite (proj2 (Z.eqb_neq _ _)); [done|]. congruence.
  - intros m Hm. apply Hsort, elem_of_app in Hm. destruct Hm as [Hm|Hm];
      apply list_elem_of_omap in Hm as ([k e] & Hin & Heq); apply elem_of_range in Hin;
      exists k; destruct (split_key k) as [kx kt]; rewrite Hin; simpl.
    + destruct (Z.eqb_spec (ep_Qty (default no_position (broker !! k))) (ep_Qty e)) as [|Hne]; [done|].
      simplify_eq; simpl. repeat split; auto.
    + destruct (_ || _) eqn:Hcond; [done|]. apply orb_false_iff in Hcond as [Hno Hne].
      apply bool_decide_eq_false in Hno. apply Z.eqb_neq in Hne.
      destruct (expected !! k) eqn:He; [exfalso; by apply Hno|]. simplify_eq; simpl. repeat split; auto.
Qed.
End compare.

Lemma comparePositions_exact_witness :
  let book := [("data", AList [AMap [("exchange", AStr "NFO"); ("netqty", AStr "50"); ("symboltoken", AStr "43001");
                                     ("tradingsymbol", AStr "NIFTY25CE")]])] in
  ∃ out, comparePositions (MO := canonical_order) {["NFO:43001" := {| ep_Symbol := "NIFTY25CE"; ep_Qty := 75 |}]}
           book "NFO" = inl out ∧ (∃ m, m ∈ out ∧ pm_Expected m = 75 ∧ pm_Broker m = 50).
Proof.
  cbv zeta.
  set (book := [("data", AList _)]).
  assert (∃ broker, broker_positions "NFO" (book_rows book) ∅ = inl broker ∧ position_qty broker "NFO:43001" = 50)
    as (broker & Hb & Hq) by (eexists; split; reflexivity).
  destruct (comparePositions (MO := canonical_order) {["NFO:43001" := {| ep_Symbol := "NIFTY25CE"; ep_Qty := 75 |}]}
    book "NFO") as [out|e] eqn:Hc; [|vm_compute in Hc; discriminate].
  exists out. split; [done|].
  destruct (comparePositions_exact (MO := canonical_order) _ _ _ _ _ Hb Hc) as [H _].
  destruct (H "NFO:43001") as (m & Hm & _ & H1 & H2).
  - rewrite Hq. vm_compute. discriminate.
  - exists m. split; [done|]. rewrite H1, H2, Hq. split; reflexivity.
Defined.
