(* ===== verification/Exec.v ===== *)
(** The order executor's state and its environment (internal/orderexec):
    the fields of [OrderExecutor], the broker and the other collaborators it
    calls, and the small state monad the operations are written in.

    An operation is a function on [World]: the executor, a trace of
    everything it did to the outside (newest first), and a counter of the
    environment's answers.  [Env] answers each call by a function of that
    counter, so no two answers are tied to each other.  The executor runs
    several goroutines: every call to the outside and every wait also lets
    the others act on the executor, by [env_other]. *)
From S2P Require Import Prelude GoText Model Errors Fill RateLimiter Underlying Positions Oms CircuitBreaker.
#[local] Open Scope Z_scope.
#[local] Open Scope go_scope.

(** ** Configuration *)

Record Config := {
  LiveOrders : bool;
  cfg_Qty : Z;
  LiveStrategies : list string;
  LiveLots : Z;
  FreezeQty : Z;
  MaxDayLossPaise : Z;
  MaxDayLossTotalPaise : Z;
  RequireJournal : bool;
  CallFNOToken : string;
  CallFNOSymbol : string;
  PutFNOToken : string;
  PutFNOSymbol : string;
  FNOExchange : string;
  FNOOrderType : string;
  FNOProductType : string;
  FNOStopLossPaise : Z;
  GTTTargetBps : Z;
  ProtectionMode : string;
  ExecMode : string;
  ChaseTicks : Z;
  ChaseReprices : Z;
  ChaseMaxBps : Z;
  MarginBufferPct : Z;
  FNOTickPaise : Z;
  AngelAPIKey : string;
  AngelClientID : string;
  PaperSlippageBps : Z;
  PaperSlippageMinPaise : Z;
  CBMaxFailures : Z;
  CBResetTimeout : Duration;
  RLMaxOrders : Z;
  RLWindow : Duration;
  SessionManager : bool;   (** is one configured? *)
}.

(** ** Positions *)

Record fnoInstrument := { fi_Token : string; fi_Symbol : string }.

Record OrderRecord := {
  r_OrderID : string;
  r_ClientOrderID : string;
  r_Symbol : string;
  r_Token : string;
  r_Side : string;
  r_Quantity : Z;
  r_Price : Z;
  r_Timestamp : Time;
  r_StrategyName : string;
  r_PositionSide : string;
  r_IndexToken : string;
  r_IndexExchange : string;
  r_GttRuleID : string;
  r_GttSLRuleID : string;
  r_SLOrderID : string;
  r_SLPlacedAt : Time;
  r_Real : bool;
  r_Pending : bool;
  r_ExitOrderID : string;
  r_ExitRequested : bool;
  r_Leg : string;
  r_Short : bool;
}.

#[export] Instance OrderRecord_eq_dec : EqDecision OrderRecord.
Proof. solve_decision. Defined.

Record inflightBuy := { ib_strategy : string; ib_side : PositionSide; ib_real : bool }.

Record marginCache := { mc_paise : Z; mc_at : Time }.

Record FillReport := {
  fr_Signal : Signal;
  fr_Direction : string;
  fr_FillPricePaise : Z;
  fr_Qty : Z;
  fr_Real : bool;
}.

(** A request to the broker: the code's [map[string]any]. *)
Abbreviation Params := (gmap string any) (only parsing).

(** ** Background work

    The closures the code hands to its goroutines, as data. *)

(** How a followed order is found in the book. *)
Inductive PollMatch := MatchID (orderID : string) | MatchTags (tags : list string).
(** What to do with its terminal status. *)
Inductive PollDone :=
  | DoneBuy (sig : Signal)                                  (** onBuySettled *)
  | DoneExit (sig : Signal) (orderID : option string).      (** applyExitResult, under the given id *)
(** What to do when it never shows up. *)
Inductive PollAbsent :=
  | AbsentUnknownBuy (sig : Signal) (key : string)
  | AbsentUnknownSell (posKey key : string)
  | AbsentRestoredBuy (sig : Signal)
  | AbsentRestoredExit (sig : Signal) (posKey : string).

Inductive Task :=
  | TaskPoll (posKey orderID : string) (m : PollMatch) (done_ : PollDone) (absent : option PollAbsent)
  | TaskExitRetry (sig : Signal) (attempt : Z)
  | TaskSweepStop (posKey orderID : string).

(** ** The order ledger the executor writes to *)

Class OrderLedger (L : Type) := {
  ol_ClaimIntent : Time → string → L → (bool * option gerror) * L;
  ol_Submit : Time → Event → L → option gerror * L;
  ol_Apply : Time → Event → L → option gerror * L;
}.

(** [*oms.Ledger] satisfies it. *)
#[export] Instance oms_ledger {S : Type} `{Store S} : OrderLedger (Ledger S) := {|
  ol_ClaimIntent := ClaimIntent;
  ol_Submit := Submit;
  ol_Apply := Apply;
|}.

(** ** The executor *)

Record Exec (L : Type) := {
  ex_ltp : gmap string Z;
  ex_inst : gmap string fnoInstrument;
  ex_entries : gmap string OrderRecord;
  ex_inflight : gmap string inflightBuy;
  ex_retries : gmap string Z;
  ex_cb : CircuitBreaker.CircuitBreaker;
  ex_rl : RateLimiter;
  ex_margin : marginCache;
  ex_drift : gmap string Z;
  ex_pushes : gmap string pushedRow;
  ex_ledger : option L;
  ex_live : bool;
  ex_sessionOK : bool;
  ex_api : bool;             (** is there a broker client? *)
  ex_tasks : list Task;      (** goroutines started and not yet run *)
}.
Arguments ex_ltp {L}.
Arguments ex_inst {L}.
Arguments ex_entries {L}.
Arguments ex_inflight {L}.
Arguments ex_retries {L}.
Arguments ex_cb {L}.
Arguments ex_rl {L}.
Arguments ex_margin {L}.
Arguments ex_drift {L}.
Arguments ex_pushes {L}.
Arguments ex_ledger {L}.
Arguments ex_live {L}.
Arguments ex_sessionOK {L}.
Arguments ex_api {L}.
Arguments ex_tasks {L}.

(** Field updates. *)
Definition on_ltp {L} (f : gmap string Z → gmap string Z) (x : Exec L) : Exec L :=
  {| ex_ltp := f (ex_ltp x); ex_inst := ex_inst x; ex_entries := ex_entries x; ex_inflight :=
     ex_inflight x; ex_retries := ex_retries x; ex_cb := ex_cb x; ex_rl := ex_rl x; ex_margin :=
     ex_margin x; ex_drift := ex_drift x; ex_pushes := ex_pushes x; ex_ledger := ex_ledger x;
     ex_live := ex_live x; ex_sessionOK := ex_sessionOK x; ex_api := ex_api x; ex_tasks := ex_tasks
     x |}.
Definition on_inst {L} (f : gmap string fnoInstrument → gmap string fnoInstrument) (x : Exec L) : Exec L :=
  {| ex_ltp := ex_ltp x; ex_inst := f (ex_inst x); ex_entries := ex_entries x; ex_inflight :=
     ex_inflight x; ex_retries := ex_retries x; ex_cb := ex_cb x; ex_rl := ex_rl x; ex_margin :=
     ex_margin x; ex_drift := ex_drift x; ex_pushes := ex_pushes x; ex_ledger := ex_ledger x;
     ex_live := ex_live x; ex_sessionOK := ex_sessionOK x; ex_api := ex_api x; ex_tasks := ex_tasks
     x |}.
Definition on_entries {L} (f : gmap string OrderRecord → gmap string OrderRecord) (x : Exec L) : Exec L :=
  {| ex_ltp := ex_ltp x; ex_inst := ex_inst x; ex_entries := f (ex_entries x); ex_inflight :=
     ex_inflight x; ex_retries := ex_retries x; ex_cb := ex_cb x; ex_rl := ex_rl x; ex_margin :=
     ex_margin x; ex_drift := ex_drift x; ex_pushes := ex_pushes x; ex_ledger := ex_ledger x;
     ex_live := ex_live x; ex_sessionOK := ex_sessionOK x; ex_api := ex_api x; ex_tasks := ex_tasks
     x |}.
Definition on_inflight {L} (f : gmap string inflightBuy → gmap string inflightBuy) (x : Exec L) : Exec L :=
  {| ex_ltp := ex_ltp x; ex_inst := ex_inst x; ex_entries := ex_entries x; ex_inflight := f
     (ex_inflight x); ex_retries := ex_retries x; ex_cb := ex_cb x; ex_rl := ex_rl x; ex_margin :=
     ex_margin x; ex_drift := ex_drift x; ex_pushes := ex_pushes x; ex_ledger := ex_ledger x;
     ex_live := ex_live x; ex_sessionOK := ex_sessionOK x; ex_api := ex_api x; ex_tasks := ex_tasks
     x |}.
Definition on_retries {L} (f : gmap string Z → gmap string Z) (x : Exec L) : Exec L :=
  {| ex_ltp := ex_ltp x; ex_inst := ex_inst x; ex_entries := ex_entries x; ex_inflight :=
     ex_inflight x; ex_retries := f (ex_retries x); ex_cb := ex_cb x; ex_rl := ex_rl x; ex_margin :=
     ex_margin x; ex_drift := ex_drift x; ex_pushes := ex_pushes x; ex_ledger := ex_ledger x;
     ex_live := ex_live x; ex_sessionOK := ex_sessionOK x; ex_api := ex_api x; ex_tasks := ex_tasks
     x |}.
Definition on_cb {L} (f : CircuitBreaker.CircuitBreaker → CircuitBreaker.CircuitBreaker) (x : Exec L) : Exec L :=
  {| ex_ltp := ex_ltp x; ex_inst := ex_inst x; ex_entries := ex_entries x; ex_inflight :=
     ex_inflight x; ex_retries := ex_retries x; ex_cb := f (ex_cb x); ex_rl := ex_rl x; ex_margin :=
     ex_margin x; ex_drift := ex_drift x; ex_pushes := ex_pushes x; ex_ledger := ex_ledger x;
     ex_live := ex_live x; ex_sessionOK := ex_sessionOK x; ex_api := ex_api x; ex_tasks := ex_tasks
     x |}.
Definition on_rl {L} (f : RateLimiter → RateLimiter) (x : Exec L) : Exec L :=
  {| ex_ltp := ex_ltp x; ex_inst := ex_inst x; ex_entries := ex_entries x; ex_inflight :=
     ex_inflight x; ex_retries := ex_retries x; ex_cb := ex_cb x; ex_rl := f (ex_rl x); ex_margin :=
     ex_margin x; ex_drift := ex_drift x; ex_pushes := ex_pushes x; ex_ledger := ex_ledger x;
     ex_live := ex_live x; ex_sessionOK := ex_sessionOK x; ex_api := ex_api x; ex_tasks := ex_tasks
     x |}.
Definition on_margin {L} (f : marginCache → marginCache) (x : Exec L) : Exec L :=
  {| ex_ltp := ex_ltp x; ex_inst := ex_inst x; ex_entries := ex_entries x; ex_inflight :=
     ex_inflight x; ex_retries := ex_retries x; ex_cb := ex_cb x; ex_rl := ex_rl x; ex_margin := f
     (ex_margin x); ex_drift := ex_drift x; ex_pushes := ex_pushes x; ex_ledger := ex_ledger x;
     ex_live := ex_live x; ex_sessionOK := ex_sessionOK x; ex_api := ex_api x; ex_tasks := ex_tasks
     x |}.
Definition on_drift {L} (f : gmap string Z → gmap string Z) (x : Exec L) : Exec L :=
  {| ex_ltp := ex_ltp x; ex_inst := ex_inst x; ex_entries := ex_entries x; ex_inflight :=
     ex_inflight x; ex_retries := ex_retries x; ex_cb := ex_cb x; ex_rl := ex_rl x; ex_margin :=
     ex_margin x; ex_drift := f (ex_drift x); ex_pushes := ex_pushes x; ex_ledger := ex_ledger x;
     ex_live := ex_live x; ex_sessionOK := ex_sessionOK x; ex_api := ex_api x; ex_tasks := ex_tasks
     x |}.
Definition on_pushes {L} (f : gmap string pushedRow → gmap string pushedRow) (x : Exec L) : Exec L :=
  {| ex_ltp := ex_ltp x; ex_inst := ex_inst x; ex_entries := ex_entries x; ex_inflight :=
     ex_inflight x; ex_retries := ex_retries x; ex_cb := ex_cb x; ex_rl := ex_rl x; ex_margin :=
     ex_margin x; ex_drift := ex_drift x; ex_pushes := f (ex_pushes x); ex_ledger := ex_ledger x;
     ex_live := ex_live x; ex_sessionOK := ex_sessionOK x; ex_api := ex_api x; ex_tasks := ex_tasks
     x |}.
Definition on_ledger {L} (f : option L → option L) (x : Exec L) : Exec L :=
  {| ex_ltp := ex_ltp x; ex_inst := ex_inst x; ex_entries := ex_entries x; ex_inflight :=
     ex_inflight x; ex_retries := ex_retries x; ex_cb := ex_cb x; ex_rl := ex_rl x; ex_margin :=
     ex_margin x; ex_drift := ex_drift x; ex_pushes := ex_pushes x; ex_ledger := f (ex_ledger x);
     ex_live := ex_live x; ex_sessionOK := ex_sessionOK x; ex_api := ex_api x; ex_tasks := ex_tasks
     x |}.
Definition on_live {L} (f : bool → bool) (x : Exec L) : Exec L :=
  {| ex_ltp := ex_ltp x; ex_inst := ex_inst x; ex_entries := ex_entries x; ex_inflight :=
     ex_inflight x; ex_retries := ex_retries x; ex_cb := ex_cb x; ex_rl := ex_rl x; ex_margin :=
     ex_margin x; ex_drift := ex_drift x; ex_pushes := ex_pushes x; ex_ledger := ex_ledger x;
     ex_live := f (ex_live x); ex_sessionOK := ex_sessionOK x; ex_api := ex_api x; ex_tasks :=
     ex_tasks x |}.
Definition on_sessionOK {L} (f : bool → bool) (x : Exec L) : Exec L :=
  {| ex_ltp := ex_ltp x; ex_inst := ex_inst x; ex_entries := ex_entries x; ex_inflight :=
     ex_inflight x; ex_retries := ex_retries x; ex_cb := ex_cb x; ex_rl := ex_rl x; ex_margin :=
     ex_margin x; ex_drift := ex_drift x; ex_pushes := ex_pushes x; ex_ledger := ex_ledger x;
     ex_live := ex_live x; ex_sessionOK := f (ex_sessionOK x); ex_api := ex_api x; ex_tasks :=
     ex_tasks x |}.
Definition on_api {L} (f : bool → bool) (x : Exec L) : Exec L :=
  {| ex_ltp := ex_ltp x; ex_inst := ex_inst x; ex_entries := ex_entries x; ex_inflight :=
     ex_inflight x; ex_retries := ex_retries x; ex_cb := ex_cb x; ex_rl := ex_rl x; ex_margin :=
     ex_margin x; ex_drift := ex_drift x; ex_pushes := ex_pushes x; ex_ledger := ex_ledger x;
     ex_live := ex_live x; ex_sessionOK := ex_sessionOK x; ex_api := f (ex_api x); ex_tasks :=
     ex_tasks x |}.
Definition on_tasks {L} (f : list Task → list Task) (x : Exec L) : Exec L :=
  {| ex_ltp := ex_ltp x; ex_inst := ex_inst x; ex_entries := ex_entries x; ex_inflight :=
     ex_inflight x; ex_retries := ex_retries x; ex_cb := ex_cb x; ex_rl := ex_rl x; ex_margin :=
     ex_margin x; ex_drift := ex_drift x; ex_pushes := ex_pushes x; ex_ledger := ex_ledger x;
     ex_live := ex_live x; ex_sessionOK := ex_sessionOK x; ex_api := ex_api x; ex_tasks := f
     (ex_tasks x) |}.

(** Updates of a record, one per field the code assigns. *)
Definition set_ExitOrderID (v : string) (r : OrderRecord) : OrderRecord :=
  {| r_OrderID := r_OrderID r; r_ClientOrderID := r_ClientOrderID r; r_Symbol := r_Symbol r; r_Token
     := r_Token r; r_Side := r_Side r; r_Quantity := r_Quantity r; r_Price := r_Price r; r_Timestamp
     := r_Timestamp r; r_StrategyName := r_StrategyName r; r_PositionSide := r_PositionSide r;
     r_IndexToken := r_IndexToken r; r_IndexExchange := r_IndexExchange r; r_GttRuleID :=
     r_GttRuleID r; r_GttSLRuleID := r_GttSLRuleID r; r_SLOrderID := r_SLOrderID r; r_SLPlacedAt :=
     r_SLPlacedAt r; r_Real := r_Real r; r_Pending := r_Pending r; r_ExitOrderID := v;
     r_ExitRequested := r_ExitRequested r; r_Leg := r_Leg r; r_Short := r_Short r |}.
Definition set_ExitRequested (v : bool) (r : OrderRecord) : OrderRecord :=
  {| r_OrderID := r_OrderID r; r_ClientOrderID := r_ClientOrderID r; r_Symbol := r_Symbol r; r_Token
     := r_Token r; r_Side := r_Side r; r_Quantity := r_Quantity r; r_Price := r_Price r; r_Timestamp
     := r_Timestamp r; r_StrategyName := r_StrategyName r; r_PositionSide := r_PositionSide r;
     r_IndexToken := r_IndexToken r; r_IndexExchange := r_IndexExchange r; r_GttRuleID :=
     r_GttRuleID r; r_GttSLRuleID := r_GttSLRuleID r; r_SLOrderID := r_SLOrderID r; r_SLPlacedAt :=
     r_SLPlacedAt r; r_Real := r_Real r; r_Pending := r_Pending r; r_ExitOrderID := r_ExitOrderID r;
     r_ExitRequested := v; r_Leg := r_Leg r; r_Short := r_Short r |}.
Definition set_Pending (v : bool) (r : OrderRecord) : OrderRecord :=
  {| r_OrderID := r_OrderID r; r_ClientOrderID := r_ClientOrderID r; r_Symbol := r_Symbol r; r_Token
     := r_Token r; r_Side := r_Side r; r_Quantity := r_Quantity r; r_Price := r_Price r; r_Timestamp
     := r_Timestamp r; r_StrategyName := r_StrategyName r; r_PositionSide := r_PositionSide r;
     r_IndexToken := r_IndexToken r; r_IndexExchange := r_IndexExchange r; r_GttRuleID :=
     r_GttRuleID r; r_GttSLRuleID := r_GttSLRuleID r; r_SLOrderID := r_SLOrderID r; r_SLPlacedAt :=
     r_SLPlacedAt r; r_Real := r_Real r; r_Pending := v; r_ExitOrderID := r_ExitOrderID r;
     r_ExitRequested := r_ExitRequested r; r_Leg := r_Leg r; r_Short := r_Short r |}.
Definition set_Quantity (v : Z) (r : OrderRecord) : OrderRecord :=
  {| r_OrderID := r_OrderID r; r_ClientOrderID := r_ClientOrderID r; r_Symbol := r_Symbol r; r_Token
     := r_Token r; r_Side := r_Side r; r_Quantity := v; r_Price := r_Price r; r_Timestamp :=
     r_Timestamp r; r_StrategyName := r_StrategyName r; r_PositionSide := r_PositionSide r;
     r_IndexToken := r_IndexToken r; r_IndexExchange := r_IndexExchange r; r_GttRuleID :=
     r_GttRuleID r; r_GttSLRuleID := r_GttSLRuleID r; r_SLOrderID := r_SLOrderID r; r_SLPlacedAt :=
     r_SLPlacedAt r; r_Real := r_Real r; r_Pending := r_Pending r; r_ExitOrderID := r_ExitOrderID r;
     r_ExitRequested := r_ExitRequested r; r_Leg := r_Leg r; r_Short := r_Short r |}.
Definition set_Price (v : Z) (r : OrderRecord) : OrderRecord :=
  {| r_OrderID := r_OrderID r; r_ClientOrderID := r_ClientOrderID r; r_Symbol := r_Symbol r; r_Token
     := r_Token r; r_Side := r_Side r; r_Quantity := r_Quantity r; r_Price := v; r_Timestamp :=
     r_Timestamp r; r_StrategyName := r_StrategyName r; r_PositionSide := r_PositionSide r;
     r_IndexToken := r_IndexToken r; r_IndexExchange := r_IndexExchange r; r_GttRuleID :=
     r_GttRuleID r; r_GttSLRuleID := r_GttSLRuleID r; r_SLOrderID := r_SLOrderID r; r_SLPlacedAt :=
     r_SLPlacedAt r; r_Real := r_Real r; r_Pending := r_Pending r; r_ExitOrderID := r_ExitOrderID r;
     r_ExitRequested := r_ExitRequested r; r_Leg := r_Leg r; r_Short := r_Short r |}.
Definition set_OrderID (v : string) (r : OrderRecord) : OrderRecord :=
  {| r_OrderID := v; r_ClientOrderID := r_ClientOrderID r; r_Symbol := r_Symbol r; r_Token :=
     r_Token r; r_Side := r_Side r; r_Quantity := r_Quantity r; r_Price := r_Price r; r_Timestamp :=
     r_Timestamp r; r_StrategyName := r_StrategyName r; r_PositionSide := r_PositionSide r;
     r_IndexToken := r_IndexToken r; r_IndexExchange := r_IndexExchange r; r_GttRuleID :=
     r_GttRuleID r; r_GttSLRuleID := r_GttSLRuleID r; r_SLOrderID := r_SLOrderID r; r_SLPlacedAt :=
     r_SLPlacedAt r; r_Real := r_Real r; r_Pending := r_Pending r; r_ExitOrderID := r_ExitOrderID r;
     r_ExitRequested := r_ExitRequested r; r_Leg := r_Leg r; r_Short := r_Short r |}.
Definition set_SL (id : string) (at_ : Time) (r : OrderRecord) : OrderRecord :=
  {| r_OrderID := r_OrderID r; r_ClientOrderID := r_ClientOrderID r; r_Symbol := r_Symbol r; r_Token
     := r_Token r; r_Side := r_Side r; r_Quantity := r_Quantity r; r_Price := r_Price r; r_Timestamp
     := r_Timestamp r; r_StrategyName := r_StrategyName r; r_PositionSide := r_PositionSide r;
     r_IndexToken := r_IndexToken r; r_IndexExchange := r_IndexExchange r; r_GttRuleID :=
     r_GttRuleID r; r_GttSLRuleID := r_GttSLRuleID r; r_SLOrderID := id; r_SLPlacedAt := at_; r_Real
     := r_Real r; r_Pending := r_Pending r; r_ExitOrderID := r_ExitOrderID r; r_ExitRequested :=
     r_ExitRequested r; r_Leg := r_Leg r; r_Short := r_Short r |}.
Definition set_SLOrderID (id : string) (r : OrderRecord) : OrderRecord :=
  {| r_OrderID := r_OrderID r; r_ClientOrderID := r_ClientOrderID r; r_Symbol := r_Symbol r; r_Token
     := r_Token r; r_Side := r_Side r; r_Quantity := r_Quantity r; r_Price := r_Price r; r_Timestamp
     := r_Timestamp r; r_StrategyName := r_StrategyName r; r_PositionSide := r_PositionSide r;
     r_IndexToken := r_IndexToken r; r_IndexExchange := r_IndexExchange r; r_GttRuleID :=
     r_GttRuleID r; r_GttSLRuleID := r_GttSLRuleID r; r_SLOrderID := id; r_SLPlacedAt :=
     r_SLPlacedAt r; r_Real := r_Real r; r_Pending := r_Pending r; r_ExitOrderID := r_ExitOrderID r;
     r_ExitRequested := r_ExitRequested r; r_Leg := r_Leg r; r_Short := r_Short r |}.
Definition set_GttRuleID (v : string) (r : OrderRecord) : OrderRecord :=
  {| r_OrderID := r_OrderID r; r_ClientOrderID := r_ClientOrderID r; r_Symbol := r_Symbol r; r_Token
     := r_Token r; r_Side := r_Side r; r_Quantity := r_Quantity r; r_Price := r_Price r; r_Timestamp
     := r_Timestamp r; r_StrategyName := r_StrategyName r; r_PositionSide := r_PositionSide r;
     r_IndexToken := r_IndexToken r; r_IndexExchange := r_IndexExchange r; r_GttRuleID := v;
     r_GttSLRuleID := r_GttSLRuleID r; r_SLOrderID := r_SLOrderID r; r_SLPlacedAt := r_SLPlacedAt r;
     r_Real := r_Real r; r_Pending := r_Pending r; r_ExitOrderID := r_ExitOrderID r; r_ExitRequested
     := r_ExitRequested r; r_Leg := r_Leg r; r_Short := r_Short r |}.
Definition set_GttSLRuleID (v : string) (r : OrderRecord) : OrderRecord :=
  {| r_OrderID := r_OrderID r; r_ClientOrderID := r_ClientOrderID r; r_Symbol := r_Symbol r; r_Token
     := r_Token r; r_Side := r_Side r; r_Quantity := r_Quantity r; r_Price := r_Price r; r_Timestamp
     := r_Timestamp r; r_StrategyName := r_StrategyName r; r_PositionSide := r_PositionSide r;
     r_IndexToken := r_IndexToken r; r_IndexExchange := r_IndexExchange r; r_GttRuleID :=
     r_GttRuleID r; r_GttSLRuleID := v; r_SLOrderID := r_SLOrderID r; r_SLPlacedAt := r_SLPlacedAt
     r; r_Real := r_Real r; r_Pending := r_Pending r; r_ExitOrderID := r_ExitOrderID r;
     r_ExitRequested := r_ExitRequested r; r_Leg := r_Leg r; r_Short := r_Short r |}.
Definition set_Index (token exchange : string) (r : OrderRecord) : OrderRecord :=
  {| r_OrderID := r_OrderID r; r_ClientOrderID := r_ClientOrderID r; r_Symbol := r_Symbol r; r_Token
     := r_Token r; r_Side := r_Side r; r_Quantity := r_Quantity r; r_Price := r_Price r; r_Timestamp
     := r_Timestamp r; r_StrategyName := r_StrategyName r; r_PositionSide := r_PositionSide r;
     r_IndexToken := token; r_IndexExchange := exchange; r_GttRuleID := r_GttRuleID r; r_GttSLRuleID
     := r_GttSLRuleID r; r_SLOrderID := r_SLOrderID r; r_SLPlacedAt := r_SLPlacedAt r; r_Real :=
     r_Real r; r_Pending := r_Pending r; r_ExitOrderID := r_ExitOrderID r; r_ExitRequested :=
     r_ExitRequested r; r_Leg := r_Leg r; r_Short := r_Short r |}.

(** ** What the executor does to the outside *)

Inductive Ev :=
  | EvPlace (p : Params) (r : string + gerror)
  | EvModify (p : Params)
  | EvCancel (orderID variety : string)
  | EvGTTCreate (p : Params)
  | EvGTTCancel (id : string)
  | EvBook (r : row + gerror)          (** an order-book read and what it gave *)
  | EvPosition (r : row + gerror)
  | EvRMS
  | EvRefresh (ok : bool)
  | EvClaim (key : string) (claimed : bool)
  | EvSubmit (ev : Event) (ok : bool)
  | EvApply (ev : Event) (ok : bool)
  | EvPersist (ok : bool)
  | EvFill (f : FillReport)
  | EvAlert (what : string)
  | EvState.

(** Orders and rules sent to, or changed at, the broker. *)
Definition broker_write (e : Ev) : bool :=
  match e with EvPlace _ _ | EvModify _ | EvCancel _ _ | EvGTTCreate _ | EvGTTCancel _ => true | _ => false end.

Record World (L : Type) := {
  w_ex : Exec L;
  w_tr : list Ev;
  w_n : nat;
}.
Arguments w_ex {L}. Arguments w_tr {L}. Arguments w_n {L}. Arguments Build_World {L}.

(** The environment: configuration, clocks, the broker client, and the
    other collaborators. *)
Class Env (L : Type) := {
  cfg : Config;
  env_now : nat → Time;
  env_place : nat → Params → string + gerror;
  env_modify : nat → Params → row + gerror;
  env_cancel : nat → string → string → row + gerror;
  env_gtt_create : nat → Params → string + gerror;
  env_gtt_cancel : nat → string → option gerror;
  env_book : nat → row + gerror;
  env_position : nat → row + gerror;
  env_rms : nat → row + gerror;
  env_refresh : nat → option gerror;          (** SessionManager or a new login *)
  env_lot : nat → string → Z + gerror;        (** Config.LotSizeOf *)
  env_pnl : nat → option (string → Z);        (** the P&L tracker, if attached *)
  env_quote : nat → string → option (Z * Z);  (** a fresh bid and ask, if there is one *)
  env_picker : nat → PositionSide → option (string * string);  (** a resolved strike *)
  env_persist : nat → option gerror;          (** the intent persister; none set: no error *)
  env_digest : string → string;               (** first 8 bytes of SHA-256, in hex *)
  env_getenv : string → string;
  env_other : nat → Exec L → Exec L;          (** the other goroutines *)
}.

(** ** The monad *)

Definition M (L A : Type) : Type := World L → A * World L.

#[export] Instance M_ret L : MRet (M L) := λ A x w, (x, w).
#[export] Instance M_bind L : MBind (M L) := λ A B f m w, let '(x, w) := m w in f x w.

Notation "'do' x ← m ; k" := (mbind (M := M _) (λ x, k) m)
  (at level 20, x pattern, m at level 100, k at level 200, right associativity) : go_scope.
Notation "m ;; k" := (mbind (M := M _) (λ _, k) m) (at level 100, k at level 200, right associativity) : go_scope.

Section prims.
Context {L : Type} {E : Env L}.

Definition gets {A} (f : Exec L → A) : M L A := λ w, (f (w_ex w), w).
Definition modify (f : Exec L → Exec L) : M L () :=
  λ w, ((), {| w_ex := f (w_ex w); w_tr := w_tr w; w_n := w_n w |}).
Definition log (e : Ev) : M L () := λ w, ((), {| w_ex := w_ex w; w_tr := e :: w_tr w; w_n := w_n w |}).
Definition fresh : M L nat := λ w, (w_n w, {| w_ex := w_ex w; w_tr := w_tr w; w_n := S (w_n w) |}).
Definition when (b : bool) (m : M L ()) : M L () := if b then m else mret ().
(** [for _, x := range l]. *)
Definition for_each {A} (f : A → M L ()) (l : list A) : M L () :=
  foldr (λ x k, f x ;; k) (mret ()) l.

(** [time.Now()]. *)
Definition now : M L Time := do n ← fresh; mret (env_now n).
(** The other goroutines run. *)
Definition others : M L () := do n ← fresh; modify (env_other n).
(** Taking a position's lock: the others run until it is free. *)
Definition lock : M L () := others.
(** [time.Sleep(d)]. *)
Definition sleep (d : Duration) : M L () := when (0 <? d) others.
(** A call to the outside: the others run while it is under way. *)
Definition call {A} (answer : nat → A) (ev : A → Ev) : M L A :=
  others ;; do n ← fresh; log (ev (answer n)) ;; mret (answer n).
(** A question to a collaborator in this process. *)
Definition ask {A} (answer : nat → A) : M L A := do n ← fresh; mret (answer n).

Definition alertf (what : string) : M L () := log (EvAlert what).
Definition notifyState : M L () := log EvState.
Definition spawn (t : Task) : M L () := modify (on_tasks (λ ts, ts ++ [t])).
End prims.

(** ** Relations every operation keeps

    [keeps R m]: running [m] relates the worlds before and after by [R].
    With [R] reflexive and transitive, a composite operation keeps [R] when
    its parts do, which [keeps_auto] proves from the hint database [keeps]. *)

Definition keeps {L A} (R : World L → World L → Prop) (m : M L A) : Prop := ∀ w, R w (m w).2.

Create HintDb keeps discriminated.

Section keeps.
Context {L : Type} (R : World L → World L → Prop) {R_pre : PreOrder R}.

Lemma keeps_ret {A} (x : A) : keeps R (mret x).
Proof. intros w. reflexivity. Qed.

Lemma keeps_bind {A B} (m : M L A) (f : A → M L B) :
  keeps R m → (∀ x, keeps R (f x)) → keeps R (m ≫= f).
Proof.
  intros Hm Hf w. unfold mbind, M_bind. specialize (Hm w). destruct (m w) as [x w'].
  etrans; [exact Hm|apply Hf].
Qed.

(** The continuation only runs on what [m] can return. *)
Lemma keeps_bind_returns {A B} (Q : A → Prop) (m : M L A) (f : A → M L B) :
  keeps R m → (∀ w, Q (m w).1) → (∀ x, Q x → keeps R (f x)) → keeps R (m ≫= f).
Proof.
  intros Hm HQ Hf w. unfold mbind, M_bind. specialize (Hm w). specialize (HQ w). destruct (m w) as [x w'].
  etrans; [exact Hm|by apply Hf].
Qed.

Lemma keeps_when b m : (b = true → keeps R m) → keeps R (when b m).
Proof. destruct b; [auto|intros _; apply keeps_ret]. Qed.

Lemma keeps_for_each {A} (f : A → M L ()) l :
  (∀ x, x ∈ l → keeps R (f x)) → keeps R (for_each f l).
Proof.
  induction l as [|x l IH]; intros Hf; [apply keeps_ret|]. simpl. apply keeps_bind.
  - apply Hf. set_solver.
  - intros _. apply IH. intros y Hy. apply Hf. set_solver.
Qed.

Lemma keeps_gets {A} (f : Exec L → A) : keeps R (gets f).
Proof. intros w. reflexivity. Qed.
End keeps.

#[export] Hint Resolve keeps_ret keeps_gets : keeps.
#[export] Hint Extern 0 (PreOrder _) => apply _ : keeps.

(** One sequence: its first operation and its continuation are left. *)
Ltac seq := apply keeps_bind; try lazymatch goal with |- PreOrder _ => apply _ end.

(** The step of [keeps_auto]: a sequence, a conditional, a loop, or a
    known operation. *)
Ltac keeps_step :=
  match goal with
  | |- PreOrder _ => apply _
  | |- ∀ _, _ => intros ?
  | |- keeps _ (mbind _ _) => apply keeps_bind
  | |- keeps _ (when _ _) => apply keeps_when; try (intros ?)
  | |- keeps _ (for_each _ _) => apply keeps_for_each; try (intros ? ?)
  | |- keeps _ (let '_ := ?x in _) => destruct x
  | |- keeps _ (match ?x with _ => _ end) => destruct x eqn:?
  | |- keeps _ (if ?x then _ else _) => destruct x eqn:?
  end.
Ltac keeps_auto := repeat first [solve [eauto 3 with keeps] | keeps_step].

(** *** Events *)

(** Everything [m] adds to the trace satisfies [P]. *)
Definition adds {L} (P : Ev → Prop) (w w' : World L) : Prop :=
  ∃ evs, w_tr w' = evs ++ w_tr w ∧ Forall P evs.

#[export] Instance adds_preorder {L} P : PreOrder (@adds L P).
Proof.
  split; [by exists []|]. intros w1 w2 w3 (e1 & H1 & HP1) (e2 & H2 & HP2).
  exists (e2 ++ e1). rewrite H2, H1, app_assoc. split; [done|]. by apply Forall_app.
Qed.

Lemma adds_impl {L} (P Q : Ev → Prop) (w w' : World L) : (∀ e, P e → Q e) → adds P w w' → adds Q w w'.
Proof. intros HPQ (evs & ? & ?). exists evs. split; [done|]. by eapply Forall_impl. Qed.

Section adds.
Context {L : Type} {E : Env L} (P : Ev → Prop).

Lemma adds_modify f : keeps (L := L) (adds P) (modify f).
Proof. intros w. by exists []. Qed.
Lemma adds_fresh : keeps (L := L) (adds P) fresh.
Proof. intros w. by exists []. Qed.
Lemma adds_log e : P e → keeps (L := L) (adds P) (log e).
Proof. intros He w. exists [e]. split; [done|]. by constructor. Qed.
Lemma adds_now : keeps (L := L) (adds P) now.
Proof. intros w. by exists []. Qed.
Lemma adds_others : keeps (L := L) (adds P) others.
Proof. intros w. by exists []. Qed.
Lemma adds_lock : keeps (L := L) (adds P) lock.
Proof. apply adds_others. Qed.
Lemma adds_sleep d : keeps (L := L) (adds P) (sleep d).
Proof. apply keeps_when; [apply _|]. intros _. apply adds_others. Qed.
Lemma adds_call {A} (answer : nat → A) ev : (∀ x, P (ev x)) → keeps (L := L) (adds P) (call answer ev).
Proof.
  intros Hev. apply keeps_bind; [apply _|apply adds_others|]. intros _.
  apply keeps_bind; [apply _|apply adds_fresh|]. intros n.
  apply keeps_bind; [apply _|apply adds_log, Hev|]. intros _. apply keeps_ret, _.
Qed.
Lemma adds_ask {A} (answer : nat → A) : keeps (L := L) (adds P) (ask answer).
Proof. intros w. by exists []. Qed.
Lemma adds_spawn t : keeps (L := L) (adds P) (spawn t).
Proof. apply adds_modify. Qed.
End adds.
#[export] Hint Resolve adds_modify adds_fresh adds_now adds_others adds_lock adds_sleep adds_ask adds_spawn : keeps.
#[export] Hint Extern 2 (keeps (adds _) (log _)) => apply adds_log; done : keeps.
#[export] Hint Extern 2 (keeps (adds _) (alertf _)) => apply adds_log; done : keeps.
#[export] Hint Extern 2 (keeps (adds _) notifyState) => apply adds_log; done : keeps.
#[export] Hint Extern 2 (keeps (adds _) (call _ _)) => apply adds_call; done : keeps.

(** ** A concrete environment, for runs *)

Definition sample_cfg : Config := {|
  LiveOrders := true; cfg_Qty := 75; LiveStrategies := ["NIFTY50_SR"]; LiveLots := 1; FreezeQty := 1800;
  MaxDayLossPaise := 500000; MaxDayLossTotalPaise := 0; RequireJournal := true;
  CallFNOToken := "43001"; CallFNOSymbol := "NIFTY25CE"; PutFNOToken := "43002"; PutFNOSymbol := "NIFTY25PE";
  FNOExchange := "NFO"; FNOOrderType := "MARKET"; FNOProductType := "INTRADAY"; FNOStopLossPaise := 1000;
  GTTTargetBps := 0; ProtectionMode := "sl"; ExecMode := "market"; ChaseTicks := 2; ChaseReprices := 3;
  ChaseMaxBps := 200; MarginBufferPct := 5; FNOTickPaise := 5; AngelAPIKey := ""; AngelClientID := "";
  PaperSlippageBps := 10; PaperSlippageMinPaise := 5; CBMaxFailures := 3; CBResetTimeout := 30 * Second;
  RLMaxOrders := 10; RLWindow := 60 * Second; SessionManager := true |}.

Definition ok_row : row := [("status", ABool true)].

(** A broker scripted by its answers to placements, order-book reads and
    position reads; everything else answers plainly, nobody interferes. *)
Definition sample_env {L} (c : Config) (place : nat → gmap string any → string + gerror)
    (book position : nat → row + gerror) : Env L := {|
  cfg := c;
  env_now := λ n, 1784520000 * Second + Z.of_nat n * Millisecond;
  env_place := place;
  env_modify := λ _ _, inl ok_row;
  env_cancel := λ _ _ _, inl ok_row;
  env_gtt_create := λ _ _, inl "GTT1";
  env_gtt_cancel := λ _ _, None;
  env_book := book;
  env_position := position;
  env_rms := λ _, inl ok_row;
  env_refresh := λ _, None;
  env_lot := λ _ _, inl 75;
  env_pnl := λ _, None;
  env_quote := λ _ _, None;
  env_picker := λ _ _, None;
  env_persist := λ _, None;
  env_digest := λ s, "K" +:+ format_int (Z.of_nat (String.length s));
  env_getenv := λ _, "";
  env_other := λ _ x, x |}.

Definition sample_exec {L} (ledger : option L) : Exec L := {|
  ex_ltp := {["43001" := 12000]}; ex_inst := ∅; ex_entries := ∅; ex_inflight := ∅; ex_retries := ∅;
  ex_cb := NewCircuitBreaker 3 (30 * Second); ex_rl := NewRateLimiter 10 (60 * Second);
  ex_margin := {| mc_paise := 0; mc_at := zero_time |}; ex_drift := ∅; ex_pushes := ∅; ex_ledger := ledger;
  ex_live := true; ex_sessionOK := true; ex_api := true; ex_tasks := [] |}.

Definition sample_world {L} (x : Exec L) : World L := {| w_ex := x; w_tr := []; w_n := 0 |}.

(** An order-book answer. *)
Definition book_of (rows : list row) : row := [("data", AList (AMap <$> rows)); ("status", ABool true)].
