(* ===== verification/Placement.v ===== *)
(** Placing one order (internal/orderexec/reconcile.go): the broker's
    ambiguous answers are settled from the order book before anything is
    resent.  Also the session refresh, the rate-limited order-book reader
    (book_reader.go) and the classification of broker errors. *)
From S2P Require Import Prelude GoText Model Errors Fill RateLimiter Underlying Positions Oms CircuitBreaker Exec.
#[local] Open Scope Z_scope.
#[local] Open Scope go_scope.

(** ** Broker errors *)

Definition isSessionError (err : gerror) : bool :=
  contains_any ["tokenexception"; "invalid token"; "ag8001"; "ag8002"; "ag8003"; "session expired"]
    (to_lower (e_text err)).

Definition isPositionFlatError (err : gerror) : bool :=
  contains_any ["ab1018"; "ab1014"; "no holdings"; "net quantity"; "no position"; "insufficient holdings"; "square off"]
    (to_lower (e_text err)).

Definition isBrokerFault (err : gerror) : bool :=
  errors_is ErrOrderStateUnknown err || errors_is ErrOutcomeUnknown err || errors_is errNoSession err ||
  isSessionError err || contains_any ["refresh failed"; "rate limit"] (to_lower (e_text err)).

Definition gttAlreadyGone (err : gerror) : bool :=
  contains_any ["triggered"; "not found"; "does not exist"; "already cancelled"; "invalid rule"]
    (to_lower (e_text err)).

(** A cancel refused because the order is already done. *)
Definition orderAlreadyDone (msg : string) : bool :=
  contains_any ["complete"; "cancelled"; "canceled"; "rejected"; "not found"; "does not exist"] (to_lower msg).

Definition err_no_session : gerror := err_sentinel errNoSession "no broker session".
Definition err_state_unknown : gerror := err_sentinel ErrOrderStateUnknown "order state unknown".
Definition err_not_in_book : gerror := err_sentinel errNotInBook "order not in book".

Definition retryTag (tag : string) : string := tag +:+ "R".

Definition defaultLookupDelays : list Duration := [0; Second; 2 * Second].

Section placement.
Context {L : Type} {E : Env L}.

Definition brokerAPI : M L bool := gets ex_api.
Definition liveSession : M L bool := gets (λ x, ex_live x && ex_sessionOK x && ex_api x).

(** [acquire] waits for the reader's turn; then one read.  A book with
    status false is an unreadable one. *)
Definition readOrderBook : M L (row + gerror) :=
  others ;;
  do api ← brokerAPI;
  if negb api then mret (inr err_no_session)
  else call (λ n,
    match env_book n with
    | inr e => inr e
    | inl book =>
        if statusOK book then inl book
        else inr (err_new ("order book status=false: " +:+ sprint (get book "message") +:+ " ("
                           +:+ sprint (get book "errorcode") +:+ ")"))
    end) EvBook.

(** [RefreshSession]: the session manager's, or a login of our own. *)
Definition RefreshSession : M L (option gerror) :=
  if SessionManager cfg then call env_refresh (λ r, EvRefresh (bool_decide (r = None)))
  else if String.eqb (AngelAPIKey cfg) "" || String.eqb (AngelClientID cfg) ""
  then mret (Some (err_new "missing Angel credentials"))
  else
    do r ← call env_refresh (λ r, EvRefresh (bool_decide (r = None)));
    match r with
    | Some e => mret (Some (err_wrap "SmartConnect login: " e ""))
    | None => modify (λ x, on_sessionOK (λ _, true) (on_api (λ _, true) x)) ;; mret None
    end.

(** Sending one order request. *)
Definition broker_place (p : Params) : M L (string + gerror) :=
  do api ← brokerAPI;
  if negb api then mret (inr err_no_session)
  else call (λ n, env_place n p) (EvPlace p).

(** ** orderAttempt *)

Record orderAttempt := {
  oa_tag : string;
  oa_place : string → M L (string + gerror);
  oa_orderBook : M L (row + gerror);
  oa_refresh : M L (option gerror);
  oa_isFinal : gerror → bool;
  oa_lookupDelays : list Duration;
}.

(** The lookups of [settle]; [lookupErr] is the last unreadable one. *)
Fixpoint settle_lookups (a : orderAttempt) (tag : string) (err : gerror) (delays : list Duration)
    (lookupErr : option gerror) : M L (string + gerror) :=
  match delays with
  | [] =>
      mret (inr match lookupErr with
        | Some be => err_wrap "" err_state_unknown
                       (": tag=" +:+ tag +:+ " placement " +:+ e_text err +:+ ", order book " +:+ e_text be)
        | None => err_wrap "" err_not_in_book (": tag=" +:+ tag +:+ ": " +:+ e_text err)
        end)
  | d :: delays =>
      sleep d ;;
      do b ← oa_orderBook a;
      match b with
      | inr berr => settle_lookups a tag err delays (Some berr)
      | inl book =>
          match findOrderByTag book tag with
          | None => settle_lookups a tag err delays lookupErr
          | Some r =>
              let oid := as_string (get r "orderid") in
              if rowRejected r
              then mret (inr (err_new ("order " +:+ oid +:+ " " +:+ sprint (get r "orderstatus") +:+ " by broker: "
                                       +:+ sprint (get r "text"))))
              else mret (inl oid)
          end
      end
  end.

Definition settle (a : orderAttempt) (tag : string) (res : string + gerror) : M L (string + gerror) :=
  match res with
  | inl _ => mret res
  | inr err =>
      if negb (errors_is ErrOutcomeUnknown err) then mret res
      else settle_lookups a tag err (match oa_lookupDelays a with [] => [0] | ds => ds end) None
  end.

(** The last look before a resend: an order found, a reason to stop, or
    nothing. *)
Definition last_look (a : orderAttempt) : M L (option (string + gerror)) :=
  do b ← oa_orderBook a;
  match b with
  | inr berr => mret (Some (inr (err_wrap "" err_state_unknown
      (": tag=" +:+ oa_tag a +:+ " order book unreadable before resend: " +:+ e_text berr))))
  | inl book =>
      match findOrderByTag book (oa_tag a) with
      | Some r => if negb (rowRejected r) then mret (Some (inl (as_string (get r "orderid")))) else mret None
      | None => mret None
      end
  end.

(** A second ambiguous failure with nothing in the book stops there. *)
Definition resend_outcome (a : orderAttempt) (r : string + gerror) : string + gerror :=
  match r with
  | inr err =>
      if errors_is errNotInBook err
      then inr (err_wrap "" err_state_unknown
             (": tags=" +:+ oa_tag a +:+ "," +:+ retryTag (oa_tag a) +:+ " not in order book after retry"))
      else r
  | inl _ => r
  end.

Definition resend (a : orderAttempt) : M L (string + gerror) :=
  let rt := retryTag (oa_tag a) in
  do r ← oa_place a rt;
  do r ← settle a rt r;
  mret (resend_outcome a r).

Definition run (a : orderAttempt) : M L (string + gerror) :=
  do r0 ← oa_place a (oa_tag a);
  let ambiguous := match r0 with inr err => errors_is ErrOutcomeUnknown err | inl _ => false end in
  do r ← settle a (oa_tag a) r0;
  match r with
  | inl _ => mret r
  | inr err =>
      if oa_isFinal a err || errors_is ErrOrderStateUnknown err then mret r
      else if negb (errors_is errNotInBook err) && negb (isSessionError err) then mret (inr err)
      else
        do rerr ← oa_refresh a;
        match rerr with
        | Some _ => mret (inr (err_wrap "order+refresh failed: " err ""))
        | None =>
            if ambiguous then
              do early ← last_look a;
              match early with Some r => mret r | None => resend a end
            else resend a
        end
  end.

(** The attempt every caller makes: the request under a tag, the executor's
    own book and session. *)
Definition attempt_of (tag : string) (params : string → Params) (isFinal : gerror → bool) : orderAttempt := {|
  oa_tag := tag;
  oa_place := λ t, broker_place (params t);
  oa_orderBook := readOrderBook;
  oa_refresh := RefreshSession;
  oa_isFinal := isFinal;
  oa_lookupDelays := defaultLookupDelays;
|}.

End placement.
Arguments orderAttempt L : clear implicits.

(** ** A resend is never a copy *)

(** Requests sent, newest first, with the broker's answers. *)
Definition placements (evs : list Ev) : list (gmap string any * (string + gerror)) :=
  omap (λ e, match e with EvPlace p r => Some (p, r) | _ => None end) evs.

Definition not_place (e : Ev) : Prop := match e with EvPlace _ _ => False | _ => True end.

Lemma placements_app a b : placements (a ++ b) = placements a ++ placements b.
Proof. apply omap_app. Qed.

Lemma placements_none evs : Forall not_place evs → placements evs = [].
Proof.
  induction 1 as [|e evs He _ IH]; [done|]. unfold placements in *. simpl. by destruct e.
Qed.

Definition no_live_order (book : row) (tag : string) : Prop :=
  match findOrderByTag book tag with Some r => rowRejected r = true | None => True end.

Section placement_facts.
Context {L : Type} {E : Env L}.

Lemma readOrderBook_quiet : keeps (adds not_place) readOrderBook.
Proof. unfold readOrderBook, brokerAPI. keeps_auto. Qed.
Lemma RefreshSession_quiet : keeps (adds not_place) RefreshSession.
Proof. unfold RefreshSession. keeps_auto. Qed.

#[local] Hint Resolve readOrderBook_quiet RefreshSession_quiet : keeps.

Lemma settle_quiet tag params isFinal t res :
  keeps (adds not_place) (settle (attempt_of tag params isFinal) t res).
Proof.
  unfold settle. destruct res as [id|err]; [keeps_auto|].
  case_match; [keeps_auto|]. generalize (@None gerror).
  match goal with |- context [settle_lookups _ _ _ ?ds] => generalize ds end. intros delays.
  induction delays as [|d delays IH]; intros le; simpl; keeps_auto.
Qed.

(** An order that was not placed (no session) leaves no trace. *)
Lemma broker_place_trace p w r w' :
  broker_place p w = (r, w') →
  (w_tr w' = w_tr w ∧ r = inr err_no_session) ∨
  (w_tr w' = EvPlace p r :: w_tr w ∧ ∃ n, r = env_place n p).
Proof.
  unfold broker_place, brokerAPI, gets, call, others, modify, fresh, log, mbind, M_bind, mret, M_ret.
  destruct (ex_api (w_ex w)); simpl; intros [= <- <-]; eauto.
Qed.

Lemma last_look_none tag params isFinal w w' :
  last_look (attempt_of tag params isFinal) w = (None, w') →
  ∃ book, w_tr w' = EvBook (inl book) :: w_tr w ∧ no_live_order book tag.
Proof.
  unfold last_look. simpl. unfold readOrderBook, brokerAPI, gets, call, others, modify, fresh, log, mbind, M_bind, mret, M_ret.
  simpl. destruct (ex_api (env_other (w_n w) (w_ex w))); simpl; [|congruence].
  destruct (env_book (S (S (w_n w)))) as [book|e]; [|congruence].
  destruct (statusOK book); [|congruence].
  destruct (findOrderByTag book tag) as [r|] eqn:Hf.
  - destruct (rowRejected r) eqn:Hr; simpl; [|congruence]. intros [= <-]. exists book.
    split; [done|]. unfold no_live_order. by rewrite Hf.
  - intros [= <-]. exists book. split; [done|]. unfold no_live_order. by rewrite Hf.
Qed.

Lemma last_look_quiet tag params isFinal : keeps (adds not_place) (last_look (attempt_of tag params isFinal)).
Proof. unfold last_look. simpl. keeps_auto. Qed.

Lemma settle_definite_ok a tag id w : settle (L := L) a tag (inl id) w = (inl id, w).
Proof. done. Qed.

Lemma settle_definite a tag e w :
  errors_is ErrOutcomeUnknown e = false → settle (L := L) a tag (inr e) w = (inr e, w).
Proof. unfold settle. by intros ->. Qed.

(** The broker client's errors are its own: they wrap none of the sentinels
    this package defines. *)
Definition broker_errors_foreign : Prop :=
  ∀ n p e, env_place (L := L) n p = inr e → errors_is errNotInBook e = false.

(** The shapes a whole attempt's events can have, newest first. *)
Definition attempt_trace (tag : string) (params : string → gmap string any) (evs : list Ev) : Prop :=
  placements evs = [] ∨ (∃ r1, placements evs = [(params tag, r1)]) ∨
  ∃ r2 e1 post pre, evs = post ++ EvPlace (params (retryTag tag)) r2 :: pre ∧
    placements post = [] ∧ placements pre = [(params tag, inr e1)] ∧
    if errors_is ErrOutcomeUnknown e1
    then ∃ book pre', pre = EvBook (inl book) :: pre' ∧ no_live_order book tag
    else isSessionError e1 = true.

Lemma attempt_trace_quiet tag params q evs :
  Forall not_place q → attempt_trace tag params evs → attempt_trace tag params (q ++ evs).
Proof.
  intros Hq. pose proof (placements_none q Hq) as Hpq.
  intros [H|[(r1 & H)|(r2 & e1 & post & pre & -> & Hpost & H)]].
  - left. by rewrite placements_app, Hpq, H.
  - right. left. exists r1. by rewrite placements_app, Hpq, H.
  - right. right. exists r2, e1, (q ++ post), pre. rewrite app_assoc, placements_app, Hpq. auto.
Qed.

(** The resend, after the first request's error [e1]. *)
Lemma resend_trace tag params isFinal w pre e1 tr0 :
  w_tr w = pre ++ tr0 → placements pre = [(params tag, inr e1)] →
  (if errors_is ErrOutcomeUnknown e1
   then ∃ book pre', pre = EvBook (inl book) :: pre' ∧ no_live_order book tag
   else isSessionError e1 = true) →
  ∃ evs, w_tr (resend (attempt_of tag params isFinal) w).2 = evs ++ tr0 ∧ attempt_trace tag params evs.
Proof.
  intros Hpre Hpl Hwhy. unfold resend. cbn [oa_place oa_tag attempt_of]. unfold mbind at 1, M_bind at 1.
  destruct (broker_place (params (retryTag tag)) w) as [r w1] eqn:Hp.
  unfold mbind, M_bind.
  pose proof (settle_quiet tag params isFinal (retryTag tag) r w1) as (q & Hevs & Hq).
  destruct (settle _ (retryTag tag) r w1) as [r2 w2]. simpl in Hevs |- *. rewrite Hevs.
  apply broker_place_trace in Hp as [[-> _]|[-> _]]; rewrite Hpre.
  - exists (q ++ pre). rewrite app_assoc. split; [done|]. apply attempt_trace_quiet; [done|].
    right. left. by exists (inr e1).
  - exists (q ++ EvPlace (params (retryTag tag)) r :: pre). rewrite <-app_assoc. split; [done|].
    apply attempt_trace_quiet; [done|]. right. right. by exists r, e1, [], pre.
Qed.

(** The first request and its settlement. *)
Lemma first_trace tag params isFinal w r0 w1 r1 w2 :
  broker_place (params tag) w = (r0, w1) → settle (attempt_of tag params isFinal) tag r0 w1 = (r1, w2) →
  ∃ pre, w_tr w2 = pre ++ w_tr w ∧
    ((pre = [] ∧ r1 = inr err_no_session) ∨ placements pre = [(params tag, r0)]).
Proof.
  intros Hp Hs. pose proof (settle_quiet tag params isFinal tag r0 w1) as (q & Hevs & Hq).
  rewrite Hs in Hevs. simpl in Hevs. apply broker_place_trace in Hp as [[Ht ->]|[Ht _]].
  - exists []. rewrite settle_definite in Hs by done. simplify_eq. rewrite Ht. auto.
  - exists (q ++ [EvPlace (params tag) r0]). rewrite Hevs, Ht, <-app_assoc. split; [done|]. right.
    rewrite placements_app, placements_none by done. done.
Qed.

(** C13: An order attempt places at most two requests, the second under the
    retry tag and only when it cannot duplicate the first: either the broker
    definitely refused the first for an expired session, or the first's
    outcome was unknown and the very last thing seen before the resend was a
    readable order book without a live order under the first tag. *)
Theorem resend_is_safe tag params isFinal w :
  broker_errors_foreign →
  ∃ evs, w_tr (run (attempt_of tag params isFinal) w).2 = evs ++ w_tr w ∧
    (placements evs = [] ∨ (∃ r1, placements evs = [(params tag, r1)]) ∨
     ∃ r2 e1 post pre, evs = post ++ EvPlace (params (retryTag tag)) r2 :: pre ∧
       placements post = [] ∧ placements pre = [(params tag, inr e1)] ∧
       if errors_is ErrOutcomeUnknown e1
       then ∃ book pre', pre = EvBook (inl book) :: pre' ∧ no_live_order book tag
       else isSessionError e1 = true).
Proof.
  intros Hforeign. change (∃ evs, w_tr (run (attempt_of tag params isFinal) w).2 = evs ++ w_tr w ∧ attempt_trace tag params evs).
  unfold run. cbn [oa_place oa_tag attempt_of oa_isFinal oa_refresh]. unfold mbind at 1, M_bind at 1.
  destruct (broker_place (params tag) w) as [r0 w1] eqn:Hp.
  unfold mbind at 1, M_bind at 1.
  destruct (settle (attempt_of tag params isFinal) tag r0 w1) as [r1 w2] eqn:Hs.
  destruct (first_trace _ _ _ _ _ _ _ _ Hp Hs) as (pre & Hpre & Hcase).
  assert (∀ w3, adds not_place w2 w3 → ∃ evs, w_tr w3 = evs ++ w_tr w ∧ attempt_trace tag params evs) as Hstop.
  { intros w3 (q & Hq3 & Hq). exists (q ++ pre). rewrite Hq3, Hpre, app_assoc. split; [done|].
    apply attempt_trace_quiet; [done|]. destruct Hcase as [[-> _]|Hpl]; [by left|right; left; eauto]. }
  destruct r1 as [id|err]; [by apply Hstop|]. case_match; [by apply Hstop|].
  destruct (negb (errors_is errNotInBook err) && negb (isSessionError err)) eqn:Hwhy; [by apply Hstop|].
  destruct Hcase as [[_ Herr]|Hpl]; [simplify_eq; by vm_compute in Hwhy|].
  unfold mbind at 1, M_bind at 1. pose proof (RefreshSession_quiet w2) as Hrq.
  destruct (RefreshSession w2) as [rerr w3]. simpl in Hrq.
  destruct rerr; [by apply Hstop|].
  assert (∃ pre3, w_tr w3 = pre3 ++ w_tr w ∧ placements pre3 = [(params tag, r0)]) as (pre3 & Hpre3 & Hpl3).
  { destruct Hrq as (q & Hq3 & Hq). exists (q ++ pre). rewrite Hq3, Hpre, app_assoc. split; [done|].
    by rewrite placements_app, placements_none. }
  destruct r0 as [id0|e1]; [by rewrite (settle_definite_ok) in Hs|].
  destruct (errors_is ErrOutcomeUnknown e1) eqn:Hamb.
  - unfold mbind, M_bind.
    destruct (last_look (attempt_of tag params isFinal) w3) as [early w4] eqn:Hl.
    destruct early as [r|].
    + pose proof (last_look_quiet tag params isFinal w3) as Hlq. rewrite Hl in Hlq. apply Hstop. by etrans.
    + apply last_look_none in Hl as (book & Hbook & Hno).
      apply (resend_trace _ _ _ _ (EvBook (inl book) :: pre3) e1); [by rewrite Hbook, Hpre3|done|].
      rewrite Hamb. eauto.
  - rewrite settle_definite in Hs by done. simplify_eq.
    apply (resend_trace _ _ _ _ pre3 err); [done|done|]. rewrite Hamb.
    assert (errors_is errNotInBook err = false) as Hno.
    { apply broker_place_trace in Hp as [[_ [= ->]]|[_ [n Hn]]]; [done|]. by eapply Hforeign. }
    rewrite Hno in Hwhy. by apply negb_false_iff in Hwhy.
Qed.
End placement_facts.

(** The first request times out and the book stays empty: one resend. *)
Definition lossy_env : Env unit :=
  sample_env sample_cfg
    (λ n _, if decide (n < 5)%nat then inr (err_sentinel ErrOutcomeUnknown "request outcome unknown: timeout")
            else inl "ORD2")
    (λ _, inl (book_of [])) (λ _, inl (book_of [])).

Lemma resend_is_safe_witness :
  let params t : gmap string any := {["ordertag" := AStr t]} in
  ∃ evs, (run (E := lossy_env) (attempt_of (E := lossy_env) "K1" params (λ _, false))
            (sample_world (sample_exec None))).1 = inl "ORD2" ∧
    placements evs = [({["ordertag" := AStr "K1R"]}, inl "ORD2");
                      ({["ordertag" := AStr "K1"]}, inr (err_sentinel ErrOutcomeUnknown "request outcome unknown: timeout"))].
Proof.
  intros params.
  destruct (resend_is_safe (E := lossy_env) "K1" params (λ _, false) (sample_world (sample_exec None)))
    as (evs & Hevs & _).
  { intros n p e. simpl. case_decide; [by intros [= <-]|done]. }
  exists evs. split; [vm_compute; reflexivity|].
  change (w_tr (sample_world _)) with (@nil Ev) in Hevs. rewrite app_nil_r in Hevs. rewrite <-Hevs. vm_compute. reflexivity.
Defined.
