(* ===== verification/ExecOps.v ===== *)
(** The executor's building blocks (internal/orderexec): its position
    records, journal, prices and margin, fill confirmation, protective stops
    and GTT rules.  Log lines are not modelled; an alert carries its leading
    words. *)
From S2P Require Import Prelude GoText Model Errors Fill RateLimiter Underlying Positions Oms CircuitBreaker Exec Placement.
#[local] Open Scope Z_scope.
#[local] Open Scope go_scope.

(** [time.Time{}], [Signal{}] and [OrderRecord{}]. *)
Definition no_signal : Signal := zero_Signal.
Definition no_record : OrderRecord := {|
  r_OrderID := ""; r_ClientOrderID := ""; r_Symbol := ""; r_Token := ""; r_Side := ""; r_Quantity := 0;
  r_Price := 0; r_Timestamp := zero_time; r_StrategyName := ""; r_PositionSide := ""; r_IndexToken := "";
  r_IndexExchange := ""; r_GttRuleID := ""; r_GttSLRuleID := ""; r_SLOrderID := ""; r_SLPlacedAt := zero_time;
  r_Real := false; r_Pending := false; r_ExitOrderID := ""; r_ExitRequested := false; r_Leg := "";
  r_Short := false |}.
(** An event with the fields the executor sets; the rest are zero. *)
Definition ledger_event (key orderID : string) (st : Oms.State) (filled avg : Z) (reason source : string) : Event := {|
  ev_ClientOrderID := key; ev_BrokerOrderID := orderID; ev_Strategy := ""; ev_PositionKey := ""; ev_Side := "";
  ev_Symbol := ""; ev_Token := ""; ev_State := st; ev_Qty := 0; ev_FilledQty := filled; ev_AvgPricePaise := avg;
  ev_Reason := reason; ev_Source := source; ev_TS := zero_time |}.
Definition submit_event (key strategy posKey side symbol token : string) (qty : Z) (reason source : string) : Event := {|
  ev_ClientOrderID := key; ev_BrokerOrderID := ""; ev_Strategy := strategy; ev_PositionKey := posKey; ev_Side := side;
  ev_Symbol := symbol; ev_Token := token; ev_State := StateSubmitting; ev_Qty := qty; ev_FilledQty := 0;
  ev_AvgPricePaise := 0; ev_Reason := reason; ev_Source := source; ev_TS := zero_time |}.

Definition positionKey (sig : Signal) : string :=
  if negb (String.eqb (sig_Leg sig) "")
  then sig_StrategyName sig +:+ "|" +:+ sig_Side sig +:+ "|" +:+ sig_Leg sig
  else sig_StrategyName sig +:+ "|" +:+ sig_Side sig.

Definition opposite (side : PositionSide) : PositionSide :=
  if String.eqb side SideCall then SidePut else SideCall.

(** [signalFor]: the identity of the signal that opened a position. *)
Definition signalFor (rec : OrderRecord) : Signal := {|
  sig_StrategyName := r_StrategyName rec; sig_Action := ""; sig_Side := r_PositionSide rec;
  sig_Token := r_IndexToken rec; sig_Exchange := r_IndexExchange rec; sig_Price := 0; sig_Reason := "";
  sig_Leg := ""; sig_FNOToken := ""; sig_FNOSymbol := ""; sig_Short := false;
  sig_ReverseTo := ""; sig_Qty := 0; sig_EntryFNOPrice := 0; sig_MarketState := ""; sig_Warnings := [];
  sig_Legs := []; sig_Strike := 0; sig_Pick := ""; sig_PickAlt := ""; sig_TargetMove := 0;
  sig_SameDayExpiry := false;
  sig_SignalTS := zero_time |}.

(** The exit signal of a deferred or retried exit. *)
Definition exit_signal (sig : Signal) (reason : string) : Signal := {|
  sig_StrategyName := sig_StrategyName sig; sig_Action := ActionExit; sig_Side := sig_Side sig;
  sig_Token := sig_Token sig; sig_Exchange := sig_Exchange sig; sig_Price := sig_Price sig; sig_Reason := reason;
  sig_Leg := sig_Leg sig; sig_FNOToken := sig_FNOToken sig; sig_FNOSymbol := sig_FNOSymbol sig;
  sig_Short := sig_Short sig;
  sig_ReverseTo := sig_ReverseTo sig; sig_Qty := sig_Qty sig; sig_EntryFNOPrice := sig_EntryFNOPrice sig;
  sig_MarketState := sig_MarketState sig; sig_Warnings := sig_Warnings sig; sig_Legs := sig_Legs sig;
  sig_Strike := sig_Strike sig; sig_Pick := sig_Pick sig; sig_PickAlt := sig_PickAlt sig;
  sig_TargetMove := sig_TargetMove sig; sig_SameDayExpiry := sig_SameDayExpiry sig;
  sig_SignalTS := zero_time |}.

Definition stopVariety : string := "STOPLOSS".
Definition stopCancelDelays : list Duration := [0; 300 * Millisecond; 700 * Millisecond; Second].
Definition defaultFillPollDelays : list Duration :=
  [200 * Millisecond; 300 * Millisecond; 500 * Millisecond; Second; Second].
Definition chasePollDelays : list Duration := [300 * Millisecond; 500 * Millisecond; 700 * Millisecond].
Definition exitRetryDelays : list Duration := [5 * Second; 15 * Second; 30 * Second; 60 * Second].
Definition marginMaxAge : Duration := 3 * Minute.

Definition err_not_live : gerror := err_sentinel ErrNotLive "order executor not live".
Definition err_circuit_open : gerror := err_sentinel ErrBreakerOpen "circuit breaker is open".

Section ops.
Context {L : Type} {LO : OrderLedger L} {E : Env L} {MO : MapOrder}.

(** ** Configuration *)

Definition stopMode : bool := String.eqb (ProtectionMode cfg) "sl".
Definition chaseMode : bool := String.eqb (ExecMode cfg) "chase".
Definition chaseTicks : Z := if 0 <? ChaseTicks cfg then ChaseTicks cfg else 2.
Definition tickPaise : Z := if 0 <? FNOTickPaise cfg then FNOTickPaise cfg else 5.

Definition liveStrategies : list string :=
  remove_dups (filter (λ name, name ≠ "") (trim_space <$> LiveStrategies cfg)).
Definition IsRealStrategy (name : string) : bool := bool_decide (name ∈ liveStrategies).

Definition exchangeFor (symbol : string) : string :=
  match extraProfileOf env_getenv symbol with Some p => p_FNOExchange p | None => FNOExchange cfg end.
Definition freezeQtyFor (symbol : string) : Z :=
  match extraProfileOf env_getenv symbol with
  | Some p => if 0 <? p_FreezeQty p then p_FreezeQty p else FreezeQty cfg
  | None => FreezeQty cfg
  end.
Definition bookExchange (symbol : string) : string :=
  let ex := exchangeFor symbol in if negb (String.eqb ex "") then ex else "NFO".

Definition realEntryQty (symbol : string) : M L (Z + gerror) :=
  do lot ← ask (λ n, env_lot n symbol);
  match lot with
  | inr e => mret (inr (err_wrap ("lot size unknown for " +:+ symbol +:+ ": ") e ""))
  | inl lot =>
      if lot <=? 0 then mret (inr (err_new "lot size is not positive"))
      else
        let qty := LiveLots cfg *! lot in
        if freezeQtyFor symbol <? qty then mret (inr (err_new "qty exceeds freeze qty"))
        else mret (inl qty)
  end.

Definition paperQtyFor (symbol : string) : M L Z :=
  match extraProfileOf env_getenv symbol with
  | None => mret (cfg_Qty cfg)
  | Some p =>
      do lot ← ask (λ n, env_lot n symbol);
      let lot := match lot with inl l => if l <=? 0 then p_LotFallback p else l | inr _ => p_LotFallback p end in
      mret (LiveLots cfg *! lot)
  end.

Definition dayLossBlocked (strategyName : string) : M L bool :=
  do tracker ← ask env_pnl;
  match tracker with
  | None => mret false
  | Some pnl =>
      if (0 <? MaxDayLossPaise cfg) && (pnl strategyName <=? -! MaxDayLossPaise cfg) then mret true
      else if 0 <? MaxDayLossTotalPaise cfg then
        let total := foldl (λ total name, total +! pnl name) 0 liveStrategies in
        mret (total <=? -! MaxDayLossTotalPaise cfg)
      else mret false
  end.

(** ** Position records *)

Definition entry (posKey : string) : M L (option OrderRecord) := gets (λ x, ex_entries x !! posKey).
Definition updateEntry (posKey : string) (fn : OrderRecord → OrderRecord) : M L () :=
  modify (on_entries (λ m, match m !! posKey with Some r => <[posKey := fn r]> m | None => m end)).
Definition GetLTP (token : string) : M L Z := gets (λ x, default 0 (ex_ltp x !! token)).
Definition UpdateLTP (tick : Tick) : M L () := modify (on_ltp <[tick_Token tick := tick_Price tick]>).

Definition setPositionInstrument (sig : Signal) (token symbol : string) : M L () :=
  modify (on_inst <[positionKey sig := {| fi_Token := token; fi_Symbol := symbol |}]>).
Definition clearPositionInstrument (sig : Signal) : M L () := modify (on_inst (delete (positionKey sig))).

Definition storeEntry (sig : Signal) (rec : OrderRecord) : M L () :=
  let rec := if String.eqb (r_IndexToken rec) "" then set_Index (sig_Token sig) (sig_Exchange sig) rec else rec in
  setPositionInstrument sig (r_Token rec) (r_Symbol rec) ;;
  modify (on_entries <[positionKey sig := rec]>).

(** A position that conflicts with a BUY of [sig]. *)
Definition oppositeConflict (sig : Signal) (real : bool) (x : Exec L) : bool :=
  let opp := opposite (sig_Side sig) in
  let und := underlyingOfStrategy env_getenv (sig_StrategyName sig) in
  existsb (λ kr : string * OrderRecord, let r := kr.2 in
    String.eqb (r_Leg r) "" && String.eqb (r_PositionSide r) opp &&
    (String.eqb (r_StrategyName r) (sig_StrategyName sig) ||
     (real && r_Real r && String.eqb (underlyingOfStrategy env_getenv (r_StrategyName r)) und)))
    (range (ex_entries x)) ||
  existsb (λ kb : string * inflightBuy, let b := kb.2 in
    String.eqb (ib_side b) opp &&
    (String.eqb (ib_strategy b) (sig_StrategyName sig) ||
     (real && ib_real b && String.eqb (underlyingOfStrategy env_getenv (ib_strategy b)) und)))
    (range (ex_inflight x)).

Definition sideOpen (side : PositionSide) (x : Exec L) : bool :=
  existsb (λ kr : string * OrderRecord, String.eqb (r_PositionSide kr.2) side) (range (ex_entries x)) ||
  existsb (λ kb : string * inflightBuy, String.eqb (ib_side kb.2) side) (range (ex_inflight x)).

Definition reportFill (sig : Signal) (direction : string) (pricePaise qty : Z) (real : bool) : M L () :=
  if pricePaise <=? 0 then mret ()
  else log (EvFill {| fr_Signal := sig; fr_Direction := direction; fr_FillPricePaise := pricePaise;
                      fr_Qty := qty; fr_Real := real |}).

Definition persistIntentNow : M L (option gerror) :=
  call env_persist (λ r, EvPersist (bool_decide (r = None))).

(** [generateIdempotencyKey]: the same entry signal gives the same key. *)
Definition generateIdempotencyKey (sig : Signal) : M L string :=
  do t ← now;
  let head := sig_StrategyName sig +:+ ":" +:+ sig_Side sig +:+ ":" +:+ sig_Action sig +:+ ":" in
  let data :=
    if String.eqb (sig_Action sig) ActionBuy && negb (t_is_zero (sig_SignalTS sig))
    then head +:+ sig_Token sig +:+ ":" +:+ format_int (t_unix_nano (sig_SignalTS sig))
    else head +:+ format_int (t_unix_nano t) in
  mret (env_digest data).

(** ** Journal (journal.go) *)

Definition ledgerApply (ev : Event) : M L () :=
  do l ← gets ex_ledger;
  match l with
  | None => mret ()
  | Some l =>
      do t ← now;
      let '(err, l) := ol_Apply t ev l in
      modify (on_ledger (λ _, Some l)) ;;
      log (EvApply ev (bool_decide (err = None))) ;;
      match err with
      | None => mret ()
      | Some e => if errors_is ErrUnknownOrder e then mret () else alertf "order journal"
      end
  end.

(** [l.Submit] on the attached ledger. *)
Definition ledger_submit (ev : Event) (l : L) : M L (option gerror) :=
  do t ← now;
  let '(err, l) := ol_Submit t ev l in
  modify (on_ledger (λ _, Some l)) ;;
  log (EvSubmit ev (bool_decide (err = None))) ;;
  mret err.

Definition journalEntryIntent (sig : Signal) (posKey token symbol : string) (qty : Z) (key : string) : M L bool :=
  do l ← gets ex_ledger;
  match l with
  | None => if RequireJournal cfg then alertf "BUY NOT sent: no order journal attached" ;; mret false else mret true
  | Some l =>
      do t ← now;
      let '(claim, l) := ol_ClaimIntent t key l in
      modify (on_ledger (λ _, Some l)) ;;
      log (EvClaim key (fst claim)) ;;
      match claim with
      | (_, Some _) => alertf "BUY NOT sent: intent could not be claimed" ;; mret false
      | (false, None) => alertf "BUY NOT sent: intent already used" ;; mret false
      | (true, None) =>
          do err ← ledger_submit (submit_event key (sig_StrategyName sig) posKey "BUY" symbol token qty "" "executor") l;
          match err with
          | Some _ => alertf "BUY NOT sent: order could not be journaled" ;; mret false
          | None => mret true
          end
      end
  end.

Definition journalExitIntent (sig : Signal) (posKey token symbol : string) (qty : Z) (key : string) : M L () :=
  do l ← gets ex_ledger;
  match l with
  | None => mret ()
  | Some l =>
      do err ← ledger_submit (submit_event key (sig_StrategyName sig) posKey "SELL" symbol token qty "" "executor") l;
      match err with Some _ => alertf "EXIT not journaled — sending anyway" | None => mret () end
  end.

Definition journalPlacement (key orderID : string) (err : option gerror) (positionFlat : bool) : M L () :=
  let ev st reason := ledger_event key orderID st 0 0 reason "executor" in
  ledgerApply
    (if positionFlat then ev StateRejected "position already flat at broker"
     else match err with
          | None => ev Oms.StateOpen ""
          | Some e =>
              if errors_is ErrOrderStateUnknown e then ev StateUnknown (e_text e)
              else if errors_is ErrBreakerOpen e then ev StateAbsent "not sent: circuit open"
              else ev StateRejected (e_text e)
          end).

Definition journalFill (tag orderID : string) (f : fillResult) (source : string) : M L () :=
  let ev st := ledger_event tag orderID st (f_FilledQty f) (f_AvgPricePaise f) (f_Text f) source in
  if String.eqb (f_Status f) "complete" then ledgerApply (ev StateFilled)
  else if String.eqb (f_Status f) "rejected" then ledgerApply (ev StateRejected)
  else if String.eqb (f_Status f) "cancelled" then ledgerApply (ev StateCancelled)
  else if 0 <? f_FilledQty f then ledgerApply (ev StatePartial)
  else mret ().

(** ** Fill confirmation (fill.go, push.go) *)

(** [pushes.wait]: returns at once when the order's status is there. *)
Definition push_wait (orderID : string) (d : Duration) : M L () :=
  if d <=? 0 then mret ()
  else
    do here ← gets (λ x, negb (String.eqb orderID "") && bool_decide (is_Some (ex_pushes x !! orderID)));
    when (negb here) others.

Definition pushed (orderID : string) : M L (option fillResult) := gets (λ x, push_terminal orderID (ex_pushes x)).

Fixpoint confirmFill_loop (orderID : string) (last : fillResult) (lastErr : option gerror) (seen : bool)
    (delays : list Duration) : M L (fillResult + gerror) :=
  match delays with
  | [] =>
      if seen then mret (inl last)
      else
        let e := default (err_new "order not found in order book") lastErr in
        mret (inr (err_wrap ("confirm fill " +:+ orderID +:+ ": ") e ""))
  | d :: delays =>
      push_wait orderID d ;;
      do p ← pushed orderID;
      match p with
      | Some f => mret (inl f)
      | None =>
          do b ← readOrderBook;
          match b with
          | inr err => confirmFill_loop orderID last (Some err) seen delays
          | inl book =>
              match findOrderByID book orderID with
              | None => confirmFill_loop orderID last lastErr seen delays
              | Some r =>
                  let last := parseFillRow r in
                  if terminal last then mret (inl last) else confirmFill_loop orderID last lastErr true delays
              end
          end
      end
  end.
Definition confirmFill (orderID : string) (delays : list Duration) : M L (fillResult + gerror) :=
  confirmFill_loop orderID no_fill None false delays.

Definition fillPriceOr (f : fillResult) (token : string) : M L Z :=
  if 0 <? f_AvgPricePaise f then mret (f_AvgPricePaise f) else GetLTP token.

(** ** Prices (chase.go, executor.go) *)

Definition marketablePrice (direction token : string) (ltp : Z) : M L Z :=
  do q ← ask (λ n, env_quote n token);
  let base :=
    match q with
    | Some (bid, ask) =>
        if String.eqb direction "BUY" && (0 <? ask) then ask
        else if String.eqb direction "SELL" && (0 <? bid) then bid
        else ltp
    | None => ltp
    end in
  if base <=? 0 then mret 0
  else
    let through := chaseTicks *! tickPaise in
    if String.eqb direction "BUY" then mret (ceilTick (base +! through) tickPaise)
    else
      let p := floorTick (base -! through) tickPaise in
      mret (if tickPaise <=? p then p else tickPaise).

Definition orderPrice (direction token : string) (ltp : Z) : M L Z :=
  if chaseMode || equal_fold (FNOOrderType cfg) "LIMIT" then marketablePrice direction token ltp else mret 0.

Definition paperFillPrice (direction : string) (ltp : Z) : Z :=
  if ltp <=? 0 then 0
  else
    let slip := ltp *! PaperSlippageBps cfg /! 10000 in
    let slip := if slip <? PaperSlippageMinPaise cfg then PaperSlippageMinPaise cfg else slip in
    if slip <=? 0 then ltp
    else if String.eqb direction "BUY" then ltp +! slip
    else let p := ltp -! slip in if 5 <? p then p else 5.

(** [paperFill] and [paperFillLocked]: the quote when fresh, else LTP with slippage. *)
Definition paperFill (direction token : string) (ltp : Z) : M L Z :=
  do q ← ask (λ n, env_quote n token);
  match q with
  | Some (bid, ask) => mret (if String.eqb direction "BUY" then ask else bid)
  | None => mret (paperFillPrice direction ltp)
  end.

Definition PaperSlippage (ltp : Z) : Z := if ltp <=? 0 then 0 else paperFillPrice "BUY" ltp -! ltp.

Definition buildOrderParams (fnoSymbol fnoToken direction : string) (price qty : Z) (tag : string) : gmap string any :=
  let params : gmap string any :=
    {[ "variety" := AStr "NORMAL"; "tradingsymbol" := AStr fnoSymbol; "symboltoken" := AStr fnoToken;
       "transactiontype" := AStr direction; "exchange" := AStr (exchangeFor fnoSymbol);
       "ordertype" := AStr (if 0 <? price then "LIMIT" else "MARKET");
       "producttype" := AStr (FNOProductType cfg); "duration" := AStr "DAY";
       "quantity" := AStr (format_int qty); "ordertag" := AStr tag ]} in
  if 0 <? price then <["price" := AStr (paiseToRupees price)]> params else params.

(** [placeOrder]. *)
Definition placeOrder (fnoSymbol fnoToken direction : string) (price qty : Z) (tag : string) : M L (string + gerror) :=
  broker_place (buildOrderParams fnoSymbol fnoToken direction price qty tag).

Definition modifyOrder (orderID symbol token orderType : string) (qty price : Z) : M L (option gerror) :=
  do api ← brokerAPI;
  if negb api then mret (Some err_no_session)
  else
    let params : gmap string any :=
      {[ "variety" := AStr "NORMAL"; "orderid" := AStr orderID; "ordertype" := AStr orderType;
         "producttype" := AStr (FNOProductType cfg); "duration" := AStr "DAY";
         "quantity" := AStr (format_int qty); "tradingsymbol" := AStr symbol; "symboltoken" := AStr token;
         "exchange" := AStr (exchangeFor symbol); "price" := AStr "0" ]} in
    let params := if 0 <? price then <["price" := AStr (paiseToRupees price)]> params else params in
    do res ← call (λ n, env_modify n params) (λ _, EvModify params);
    match res with
    | inr e => mret (Some e)
    | inl r => mret (if statusOK r then None else Some (err_new ("modify refused: " +:+ sprint (AMap r))))
    end.

(** The re-pricing loop of [awaitFill]: [n] re-prices are left, [first] and
    [price] are the first and current limit.  [None] is a [break]. *)
Fixpoint chase_loop (orderID direction symbol token : string) (qty first : Z) (n : nat) (price : Z) :
    M L (option fillResult) :=
  do r ← confirmFill orderID chasePollDelays;
  let done_ := match r with inl f => terminal f | inr _ => false end in
  if done_ then mret (match r with inl f => Some f | inr _ => None end)
  else
    match n with
    | O => mret None
    | S n =>
        do ltp ← GetLTP token;
        do next ← marketablePrice direction token ltp;
        if (next <=? 0) || (next =? price) then chase_loop orderID direction symbol token qty first n price
        else if String.eqb direction "BUY" && (0 <? ChaseMaxBps cfg) &&
                (first *! ChaseMaxBps cfg <? (next -! first) *! 10000)
        then mret None
        else
          do err ← modifyOrder orderID symbol token "LIMIT" qty next;
          match err with
          | Some _ => chase_loop orderID direction symbol token qty first n price
          | None => chase_loop orderID direction symbol token qty first n next
          end
    end.

Definition broker_cancel (orderID variety : string) : M L (row + gerror) :=
  call (λ n, env_cancel n orderID variety) (λ _, EvCancel orderID variety).

Definition awaitFill (orderID direction symbol token : string) (qty price : Z) : M L (fillResult + gerror) :=
  if negb chaseMode || (price <=? 0) then confirmFill orderID defaultFillPollDelays
  else
    do r ← chase_loop orderID direction symbol token qty price (Z.to_nat (ChaseReprices cfg)) price;
    match r with
    | Some f => mret (inl f)
    | None =>
        if String.eqb direction "BUY" then
          do api ← brokerAPI;
          if negb api then mret (inr err_no_session)
          else broker_cancel orderID "NORMAL" ;; confirmFill orderID defaultFillPollDelays
        else
          modifyOrder orderID symbol token "MARKET" qty 0 ;; confirmFill orderID defaultFillPollDelays
    end.

(** ** Margin (margin.go) *)

Definition RefreshMargin : M L (option gerror) :=
  do live ← liveSession;
  if negb live || (MarginBufferPct cfg <? 0) then mret None
  else
    do res ← call env_rms (λ _, EvRMS);
    match res with
    | inr e => mret (Some (err_wrap "rms limits: " e ""))
    | inl res =>
        if negb (statusOK res) then mret (Some (err_new ("rms limits status=false: " +:+ sprint (get res "message"))))
        else
          let data := as_map (get res "data") in
          let v := get data "net" in
          let v := if String.eqb (as_string v) "" then get data "availablecash" else v in
          match rupeesToPaise v with
          | inr e => mret (Some (err_wrap ("rms limits net " +:+ sprint v +:+ ": ") e ""))
          | inl p =>
              do t ← now;
              modify (on_margin (λ _, {| mc_paise := p; mc_at := t |})) ;; mret None
          end
    end.

(** What the entry needs with the buffer, what is there, and whether that is
    known to be too little. *)
Definition marginShort (pricePaise qty : Z) : M L (Z * Z * bool) :=
  if (MarginBufferPct cfg <? 0) || (pricePaise <=? 0) || (qty <=? 0) then mret (0, 0, false)
  else
    do m ← gets ex_margin;
    let need := pricePaise *! qty *! (100 +! MarginBufferPct cfg) /! 100 in
    if t_is_zero (mc_at m) then mret (need, mc_paise m, false)
    else
      do t ← now;
      if marginMaxAge <? t_sub t (mc_at m) then mret (need, mc_paise m, false)
      else mret (need, mc_paise m, mc_paise m <? need).

End ops.
