(* ===== verification/Executor.v ===== *)
(** The order executor (internal/orderexec): protection at the exchange
    (protection.go), entries and exits of a real position (executor.go,
    position_state.go).  Each operation is one definition, in the order they
    call each other; what runs in the background is in Settlement.v, the
    entry point in Signals.v. *)
From S2P Require Import Prelude GoText Model Errors Fill RateLimiter Underlying Positions Oms CircuitBreaker Exec Placement ExecOps.
#[local] Open Scope Z_scope.
#[local] Open Scope go_scope.

(** [stopOutcome] (protection.go). *)
Inductive stopOutcome := stopGone | stopFilled | stopUnknown.

Section executor.
Context {L : Type} {LO : OrderLedger L} {E : Env L} {MO : MapOrder}.

(** [startOfTodayIST], from a reading of the clock. *)
Definition startOfTodayIST : M L Time := do t ← now; mret (ist_midnight t).

(** ** GTT rules (executor.go) *)

Definition gtt_params (fnoSymbol fnoToken price trigger : string) (qty : Z) : gmap string any :=
  {[ "tradingsymbol" := AStr fnoSymbol; "symboltoken" := AStr fnoToken; "exchange" := AStr (exchangeFor fnoSymbol);
     "transactiontype" := AStr "SELL"; "producttype" := AStr (FNOProductType cfg); "price" := AStr price;
     "triggerprice" := AStr trigger; "qty" := AStr (format_int qty); "timeperiod" := ANum 365 0 ]}.

Definition gtt_create (p : gmap string any) : M L (string + gerror) :=
  call (λ n, env_gtt_create n p) (λ _, EvGTTCreate p).

Definition placeTargetGTT (fnoSymbol fnoToken : string) (entryPricePaise qty : Z) : M L string :=
  if GTTTargetBps cfg <=? 0 then mret ""
  else
    do api ← brokerAPI;
    if negb api || (entryPricePaise <=? 0) then alertf "GTT TARGET not placed" ;; mret ""
    else
      let target := paiseToRupees (gttTargetPaise entryPricePaise (GTTTargetBps cfg) tickPaise) in
      do r ← gtt_create (gtt_params fnoSymbol fnoToken target target qty);
      match r with
      | inr _ => alertf "GTT TARGET failed" ;; mret ""
      | inl id => mret id
      end.

Definition placeStopLossGTT (fnoSymbol fnoToken : string) (entryPricePaise qty : Z) : M L string :=
  if FNOStopLossPaise cfg <=? 0 then mret ""
  else
    do api ← brokerAPI;
    if negb api || (entryPricePaise <=? 0) then alertf "GTT STOPLOSS not placed" ;; mret ""
    else if entryPricePaise -! FNOStopLossPaise cfg <=? 0 then alertf "GTT STOPLOSS skipped" ;; mret ""
    else
      let '(trigger, limit) := gttStopLossPaise entryPricePaise (FNOStopLossPaise cfg) tickPaise in
      do r ← gtt_create (gtt_params fnoSymbol fnoToken (paiseToRupees limit) (paiseToRupees trigger) qty);
      match r with
      | inr _ => alertf "GTT STOPLOSS failed" ;; mret ""
      | inl id => mret id
      end.

(** One cancel, repeated once when it fails. *)
Fixpoint gtt_cancel_attempts (n : nat) (id : string) (err : option gerror) : M L (option gerror) :=
  match n with
  | O => mret err
  | S n =>
      do err ← call (λ k, env_gtt_cancel k id) (λ _, EvGTTCancel id);
      match err with None => mret None | Some _ => gtt_cancel_attempts n id err end
  end.

Definition cancelPairedGTTs (posKey : string) : M L () :=
  do api ← brokerAPI;
  if negb api then mret ()
  else
    do e ← entry posKey;
    match e with
    | None => mret ()
    | Some rec =>
        if String.eqb (r_GttRuleID rec) "" && String.eqb (r_GttSLRuleID rec) "" then mret ()
        else for_each (λ id : string,
          if String.eqb id "" then mret ()
          else
            do err ← gtt_cancel_attempts 2 id None;
            match err with
            | None => mret ()
            | Some e => if gttAlreadyGone e then mret () else alertf "GTT rule not cancelled"
            end) [r_GttRuleID rec; r_GttSLRuleID rec]
    end.

(** ** Protective stop (protection.go) *)

Definition stop_params (rec : OrderRecord) (trigger limit : Z) (tag : string) : gmap string any :=
  {[ "variety" := AStr stopVariety; "tradingsymbol" := AStr (r_Symbol rec); "symboltoken" := AStr (r_Token rec);
     "transactiontype" := AStr "SELL"; "exchange" := AStr (exchangeFor (r_Symbol rec));
     "ordertype" := AStr "STOPLOSS_LIMIT"; "producttype" := AStr (FNOProductType cfg); "duration" := AStr "DAY";
     "price" := AStr (paiseToRupees limit); "triggerprice" := AStr (paiseToRupees trigger);
     "quantity" := AStr (format_int (r_Quantity rec)); "ordertag" := AStr tag ]}.

Definition placeStop (posKey : string) (rec : OrderRecord) : M L string :=
  if FNOStopLossPaise cfg <=? 0 then mret ""
  else if (r_Price rec <=? 0) || (r_Price rec -! FNOStopLossPaise cfg <=? 0) || (r_Quantity rec <=? 0)
  then alertf "STOP not placed: price or quantity unusable" ;; mret ""
  else
    do api ← brokerAPI;
    if negb api then alertf "STOP not placed: no broker session" ;; mret ""
    else
      let '(trigger, limit) := gttStopLossPaise (r_Price rec) (FNOStopLossPaise cfg) tickPaise in
      do tag ← generateIdempotencyKey {|
        sig_StrategyName := r_StrategyName rec; sig_Action := "STOP"; sig_Side := r_PositionSide rec; sig_Token := "";
        sig_Exchange := ""; sig_Price := 0; sig_Reason := ""; sig_Leg := ""; sig_FNOToken := ""; sig_FNOSymbol := "";
        sig_Short := false;
  sig_ReverseTo := ""; sig_Qty := 0; sig_EntryFNOPrice := 0; sig_MarketState := ""; sig_Warnings := [];
  sig_Legs := []; sig_Strike := 0; sig_Pick := ""; sig_PickAlt := ""; sig_TargetMove := 0;
  sig_SameDayExpiry := false;
  sig_SignalTS := zero_time |};
      do l ← gets ex_ledger;
      match l with
      | None => mret ()
      | Some l =>
          do err ← ledger_submit (submit_event tag (r_StrategyName rec) posKey "SELL" (r_Symbol rec) (r_Token rec)
                                    (r_Quantity rec) "protective stop" "protection") l;
          match err with Some _ => alertf "STOP not journaled — placing anyway" | None => mret () end
      end ;;
      do r ← run (attempt_of tag (stop_params rec trigger limit) (λ _, false));
      match r with
      | inr e => journalPlacement tag "" (Some e) false ;; alertf "STOP failed" ;; mret ""
      | inl id => journalPlacement tag id None false ;; mret id
      end.

Definition rearmStop (posKey : string) : M L () :=
  if negb stopMode then mret ()
  else
    do e ← entry posKey;
    match e with
    | None => mret ()
    | Some rec =>
        if negb (r_Real rec) || r_Pending rec || negb (String.eqb (r_SLOrderID rec) "") ||
           negb (String.eqb (r_ExitOrderID rec) "")
        then mret ()
        else
          do id ← placeStop posKey rec;
          if String.eqb id "" then mret ()
          else do t ← now; updateEntry posKey (set_SL id t)
    end.

Definition cancelStopQuiet (posKey : string) : M L () :=
  do e ← entry posKey;
  match e with
  | None => mret ()
  | Some rec =>
      if String.eqb (r_SLOrderID rec) "" then mret ()
      else
        do api ← brokerAPI;
        if negb api then mret ()
        else
          do res ← broker_cancel (r_SLOrderID rec) stopVariety;
          let '(refused, msg) :=
            match res with
            | inr e => (true, e_text e +:+ " map[]")
            | inl r => (negb (statusOK r), "<nil> " +:+ sprint (AMap r))
            end in
          when (refused && negb (orderAlreadyDone msg)) (alertf "stop of closed position not cancelled")
  end.

(** ** Entries (position_state.go) *)

Definition dropEntry (sig : Signal) : M L () :=
  let posKey := positionKey sig in
  cancelPairedGTTs posKey ;;
  cancelStopQuiet posKey ;;
  modify (on_entries (delete posKey)) ;;
  modify (on_retries (delete posKey)) ;;
  clearPositionInstrument sig.

Definition finalizeExit (sig : Signal) : M L () := dropEntry sig.

Definition commitEntry (sig : Signal) (rec : OrderRecord) : M L () :=
  let posKey := positionKey sig in
  let rec := set_Pending false rec in
  if stopMode then
    do rec ←
      (if String.eqb (r_SLOrderID rec) "" then
         do id ← placeStop posKey rec;
         if String.eqb id "" then mret rec else do t ← now; mret (set_SL id t rec)
       else mret rec);
    storeEntry sig rec
  else
    do rec ←
      (if String.eqb (r_GttRuleID rec) "" then
         do id ← placeTargetGTT (r_Symbol rec) (r_Token rec) (r_Price rec) (r_Quantity rec);
         mret (set_GttRuleID id rec)
       else mret rec);
    do rec ←
      (if String.eqb (r_GttSLRuleID rec) "" then
         do id ← placeStopLossGTT (r_Symbol rec) (r_Token rec) (r_Price rec) (r_Quantity rec);
         mret (set_GttSLRuleID id rec)
       else mret rec);
    storeEntry sig rec.

Definition filledEntry (rec : OrderRecord) (f : fillResult) : OrderRecord * bool :=
  if Rejected f then (rec, false)
  else
    let rec := if 0 <? f_AvgPricePaise f then set_Price (f_AvgPricePaise f) rec else rec in
    let rec := if Partial f then set_Quantity (f_FilledQty f) rec else rec in
    (rec, true).

(** ** Confirming a stop's cancel (protection.go) *)

(** What is made of the order found for a stop whose cancellation was asked
    for. *)
Definition stop_settled (sig : Signal) (posKey : string) (rec : OrderRecord) (r : fillResult + gerror) : M L stopOutcome :=
  match r with
  | inl f => journalFill "" (r_SLOrderID rec) f "protection"
  | inr _ => mret ()
  end ;;
  do old ← (match r with
            | inr _ => do t ← startOfTodayIST; mret (t_before (r_SLPlacedAt rec) t)
            | inl _ => mret false
            end);
  match r with
  | inr _ =>
      if old : bool then updateEntry posKey (set_SLOrderID "") ;; mret stopGone
      else alertf "stop not confirmed cancelled — exit held back" ;; mret stopUnknown
  | inl f =>
      if negb (terminal f) then alertf "stop not confirmed cancelled — exit held back" ;; mret stopUnknown
      else if String.eqb (f_Status f) "complete" then
        updateEntry posKey (set_SLOrderID "") ;;
        finalizeExit sig ;;
        do p ← fillPriceOr f (r_Token rec);
        reportFill sig "SELL" p (r_Quantity rec) true ;;
        mret stopFilled
      else
        updateEntry posKey (set_SLOrderID "") ;;
        if 0 <? f_FilledQty f then
          let left := r_Quantity rec -! f_FilledQty f in
          do p ← fillPriceOr f (r_Token rec);
          reportFill sig "SELL" p (f_FilledQty f) true ;;
          if left <=? 0 then finalizeExit sig ;; mret stopFilled
          else updateEntry posKey (set_Quantity left) ;; mret stopGone
        else mret stopGone
  end.

Definition cancelStopForExit (sig : Signal) (posKey : string) : M L stopOutcome :=
  do e ← entry posKey;
  match e with
  | None => mret stopGone
  | Some rec =>
      if String.eqb (r_SLOrderID rec) "" then mret stopGone
      else
        do api ← brokerAPI;
        if negb api then mret stopUnknown
        else
          broker_cancel (r_SLOrderID rec) stopVariety ;;
          do r ← confirmFill (r_SLOrderID rec) stopCancelDelays;
          stop_settled sig posKey rec r
  end.

(** ** Exits (position_state.go) *)

Definition scheduleExitRetry (sig : Signal) : M L () :=
  let posKey := positionKey sig in
  do n ← gets (λ x, default 0 (ex_retries x !! posKey));
  if Z.of_nat (length exitRetryDelays) <=? n then alertf "EXIT still not done after automatic retries"
  else
    modify (on_retries <[posKey := n +! 1]>) ;;
    spawn (TaskExitRetry sig (n +! 1)).

Definition applyExitResult (sig : Signal) (f : fillResult) : M L () :=
  let posKey := positionKey sig in
  do e ← entry posKey;
  let rec := default no_record e in
  if Rejected f then
    updateEntry posKey (set_ExitOrderID "") ;;
    rearmStop posKey ;;
    alertf "EXIT rejected by broker — position still OPEN" ;;
    scheduleExitRetry sig
  else if Partial f && (f_FilledQty f <? r_Quantity rec) then
    let left := r_Quantity rec -! f_FilledQty f in
    updateEntry posKey (λ r, set_Quantity left (set_ExitOrderID "" r)) ;;
    rearmStop posKey ;;
    alertf "EXIT only partly filled" ;;
    do p ← fillPriceOr f (r_Token rec);
    reportFill sig "SELL" p (f_FilledQty f) true ;;
    scheduleExitRetry sig
  else
    finalizeExit sig ;;
    do p ← fillPriceOr f (r_Token rec);
    reportFill sig "SELL" p (r_Quantity rec) true.

(** [pollOrderAsync]: starts the goroutine. *)
Definition pollOrderAsync (posKey orderID : string) (m : PollMatch) (done_ : PollDone) (absent : option PollAbsent) :
    M L () :=
  do api ← brokerAPI;
  if negb api then alertf "no broker session to settle order"
  else spawn (TaskPoll posKey orderID m done_ absent).

(** [brokerNetQty] (positions.go). *)
Definition read_positions : M L (row + gerror) :=
  call (λ n,
    match env_position n with
    | inr e => inr (err_wrap "broker positions: " e "")
    | inl book =>
        match get book "status" with
        | ABool false => inr (err_new ("broker positions status=false: " +:+ sprint (get book "message")))
        | _ => inl book
        end
    end) EvPosition.

Definition net_qty (symbol token : string) (book : row) : Z + gerror :=
  let ex := bookExchange symbol in
  match comparePositions {[posBookKey ex token := no_position]} book (bookExchange "") with
  | inr e => inr e
  | inl mm =>
      inl (match head (filter (λ m, pm_Token m = token ∧ pm_Exchange m = ex) mm) with
           | Some m => pm_Broker m
           | None => 0
           end)
  end.

Definition brokerNetQty (symbol token : string) : M L (Z + gerror) :=
  do api ← brokerAPI;
  if negb api then mret (inr err_not_live)
  else
    do b ← read_positions;
    mret (match b with inr e => inr e | inl book => net_qty symbol token book end).

(** ** Sending a real order (executor.go) *)

(** The provisional record of a BUY whose outcome is not known yet. *)
Definition pending_buy (sig : Signal) (fnoToken fnoSymbol : string) (ltp qty : Z) (key : string) (t : Time) : OrderRecord := {|
  r_OrderID := ""; r_ClientOrderID := key; r_Symbol := fnoSymbol; r_Token := fnoToken; r_Side := "BUY";
  r_Quantity := qty; r_Price := ltp; r_Timestamp := t; r_StrategyName := sig_StrategyName sig;
  r_PositionSide := sig_Side sig; r_IndexToken := ""; r_IndexExchange := ""; r_GttRuleID := ""; r_GttSLRuleID := "";
  r_SLOrderID := ""; r_SLPlacedAt := zero_time; r_Real := true; r_Pending := true; r_ExitOrderID := "";
  r_ExitRequested := false; r_Leg := ""; r_Short := false |}.

Definition settleUnknown (sig : Signal) (posKey direction fnoToken fnoSymbol : string) (ltp qty : Z) (key : string) : M L () :=
  alertf "ORDER STATE UNKNOWN" ;;
  let m := MatchTags [key; retryTag key] in
  if String.eqb direction "BUY" then
    do t ← now;
    storeEntry sig (pending_buy sig fnoToken fnoSymbol ltp qty key t) ;;
    pollOrderAsync posKey "" m (DoneBuy sig) (Some (AbsentUnknownBuy sig key))
  else
    updateEntry posKey (set_ExitOrderID ("tag:" +:+ key)) ;;
    pollOrderAsync posKey "" m (DoneExit sig None) (Some (AbsentUnknownSell posKey key)).

(** What the breaker-guarded attempt established: the order id, a SELL
    refused as flat, or a refusal on the order's merits. *)
Record sendResult := { sr_orderID : string; sr_flat : bool; sr_reject : option gerror; sr_err : option gerror }.

(** The closure given to the circuit breaker. *)
Definition send_attempt (isExit : bool) (fnoSymbol fnoToken direction : string) (limitPrice qty : Z) (key : string) :
    M L sendResult :=
  do r ← run (attempt_of key (buildOrderParams fnoSymbol fnoToken direction limitPrice qty)
                (λ err, isExit && isPositionFlatError err));
  mret match r with
  | inl id => {| sr_orderID := id; sr_flat := false; sr_reject := None; sr_err := None |}
  | inr err =>
      if isExit && isPositionFlatError err
      then {| sr_orderID := ""; sr_flat := true; sr_reject := None; sr_err := None |}
      else if negb (isBrokerFault err)
      then {| sr_orderID := ""; sr_flat := false; sr_reject := Some err; sr_err := None |}
      else {| sr_orderID := ""; sr_flat := false; sr_reject := None; sr_err := Some err |}
  end.

(** [cb.Execute] around an entry, [cb.ExecuteAlways] around an exit. *)
Definition run_breaker (isExit : bool) (fn : M L sendResult) : M L sendResult :=
  let failed r := match sr_err r with Some _ => true | None => false end in
  if isExit then
    do r ← fn;
    do t ← now;
    modify (on_cb (λ cb, (execute_always t (failed r) cb).1)) ;;
    mret r
  else
    do t ← now;
    do ok ← gets (λ x, (execute_begin t (ex_cb x)).1.1);
    modify (on_cb (λ cb, (execute_begin t cb).1.2)) ;;
    if negb ok
    then mret {| sr_orderID := ""; sr_flat := false; sr_reject := None; sr_err := Some err_circuit_open |}
    else
      do r ← fn;
      do t ← now;
      modify (on_cb (λ cb, (execute_end t (failed r) cb).1)) ;;
      mret r.

(** First part of [executeReal]: the stop, the price and the margin.  The
    quantity and limit price to send, or nothing. *)
Definition real_prepare (sig : Signal) (posKey direction fnoToken fnoSymbol : string) (ltp qty : Z) : M L (option (Z * Z)) :=
  let isExit := String.eqb direction "SELL" in
  do qty ←
    (if isExit && stopMode then
       do o ← cancelStopForExit sig posKey;
       match o with
       | stopFilled => mret None
       | stopUnknown => scheduleExitRetry sig ;; mret None
       | stopGone =>
           do e ← entry posKey;
           mret (Some match e with
             | Some rec => if (0 <? r_Quantity rec) && (r_Quantity rec <? qty) then r_Quantity rec else qty
             | None => qty
             end)
       end
     else mret (Some qty));
  match qty with
  | None => mret None
  | Some qty =>
      do limitPrice ← orderPrice direction fnoToken ltp;
      if (limitPrice <=? 0) && negb isExit && chaseMode then alertf "real BUY refused: no price" ;; mret None
      else if negb isExit then
        let est := if limitPrice <=? 0 then ltp else limitPrice in
        do m ← marginShort est qty;
        if (m.2 : bool) then alertf "real BUY refused: margin" ;; mret None
        else mret (Some (qty, limitPrice))
      else mret (Some (qty, limitPrice))
  end.

(** Second part: the intent, recorded and persisted before anything is
    sent.  [false] stops the order. *)
Definition real_intent (sig : Signal) (posKey direction fnoToken fnoSymbol : string) (ltp qty : Z) (key : string) : M L bool :=
  if String.eqb direction "SELL" then
    updateEntry posKey (set_ExitOrderID ("tag:" +:+ key)) ;;
    journalExitIntent sig posKey fnoToken fnoSymbol qty key ;;
    persistIntentNow ;;
    mret true
  else
    do ok ← journalEntryIntent sig posKey fnoToken fnoSymbol qty key;
    if negb ok then mret false
    else
      do t ← now;
      storeEntry sig (pending_buy sig fnoToken fnoSymbol ltp qty key t) ;;
      do err ← persistIntentNow;
      match err with
      | None => mret true
      | Some _ =>
          dropEntry sig ;;
          ledgerApply (ledger_event key "" StateAbsent 0 0 "not sent: snapshot persist failed" "") ;;
          alertf "BUY NOT sent: order intent could not be persisted" ;;
          mret false
      end.

(** Third part: an attempt that failed. *)
Definition real_failed (sig : Signal) (posKey direction fnoToken fnoSymbol : string) (ltp qty : Z) (key : string)
    (err : gerror) : M L () :=
  let isExit := String.eqb direction "SELL" in
  if errors_is ErrOrderStateUnknown err
  then settleUnknown sig posKey direction fnoToken fnoSymbol ltp qty key
  else if isExit then
    updateEntry posKey (set_ExitOrderID "") ;;
    rearmStop posKey ;;
    when (negb (bool_decide (err = err_circuit_open))) (alertf "EXIT FAILED") ;;
    scheduleExitRetry sig
  else dropEntry sig.

(** A SELL the broker refused as flat: only its net position says so. *)
Definition real_flat (sig : Signal) (posKey direction fnoToken fnoSymbol : string) (ltp qty : Z) : M L () :=
  do held ← brokerNetQty fnoSymbol fnoToken;
  match held with
  | inr _ =>
      updateEntry posKey (set_ExitOrderID "") ;; rearmStop posKey ;; alertf "SELL rejected as flat, positions unreadable"
  | inl held =>
      if negb (held =? 0)
      then updateEntry posKey (set_ExitOrderID "") ;; rearmStop posKey ;; alertf "SELL rejected as flat, broker still holds"
      else finalizeExit sig ;; reportFill sig direction ltp qty true
  end.

(** Last part: the fill of an accepted order. *)
Definition real_accepted (sig : Signal) (posKey direction fnoToken fnoSymbol : string) (ltp qty limitPrice : Z)
    (key orderID : string) : M L () :=
  let isExit := String.eqb direction "SELL" in
  do r ← awaitFill orderID direction fnoSymbol fnoToken qty limitPrice;
  match r with
  | inl fill => journalFill key orderID fill "fill-confirm"
  | inr _ => mret ()
  end ;;
  let rejected := match r with inl f => Rejected f | inr _ => false end in
  let cut_short := match r with inl f => terminal f && negb (String.eqb (f_Status f) "complete") | inr _ => false end in
  let fill := match r with inl f => f | inr _ => no_fill end in
  if rejected && negb isExit then dropEntry sig
  else if isExit && cut_short then applyExitResult sig fill
  else
    let filled := match r with inl f => String.eqb (f_Status f) "complete" || Partial f | inr _ => false end in
    let fillPrice := if filled && (0 <? f_AvgPricePaise fill) then f_AvgPricePaise fill else ltp in
    if negb isExit then
      do t ← now;
      let rec := set_Pending false (set_OrderID orderID (set_Price fillPrice
                   (pending_buy sig fnoToken fnoSymbol ltp qty key t))) in
      if filled then
        let rec := (filledEntry rec fill).1 in
        commitEntry sig rec ;;
        reportFill sig direction (r_Price rec) (r_Quantity rec) true
      else
        storeEntry sig (set_Pending true rec) ;;
        pollOrderAsync posKey orderID (MatchID orderID) (DoneBuy sig) None
    else if filled && String.eqb (f_Status fill) "complete" then
      finalizeExit sig ;; reportFill sig direction fillPrice qty true
    else
      updateEntry posKey (set_ExitOrderID orderID) ;;
      pollOrderAsync posKey orderID (MatchID orderID) (DoneExit sig (Some orderID)) None.

Definition executeReal (sig : Signal) (posKey direction fnoToken fnoSymbol : string) (ltp qty : Z) (key : string) : M L () :=
  let isExit := String.eqb direction "SELL" in
  do p ← real_prepare sig posKey direction fnoToken fnoSymbol ltp qty;
  match p with
  | None => mret ()
  | Some (qty, limitPrice) =>
      do go ← real_intent sig posKey direction fnoToken fnoSymbol ltp qty key;
      if negb go then mret ()
      else
        do r ← run_breaker isExit (send_attempt isExit fnoSymbol fnoToken direction limitPrice qty key);
        let cbErr := match sr_err r with Some e => Some e | None => sr_reject r end in
        journalPlacement key (sr_orderID r) cbErr (sr_flat r) ;;
        match cbErr with
        | Some e => real_failed sig posKey direction fnoToken fnoSymbol ltp qty key e
        | None =>
            if sr_flat r then real_flat sig posKey direction fnoToken fnoSymbol ltp qty
            else real_accepted sig posKey direction fnoToken fnoSymbol ltp qty limitPrice key (sr_orderID r)
        end
  end.
End executor.
