(* ===== verification/Settlement.v ===== *)
(** What the executor does in the background (internal/orderexec): settling
    orders whose outcome was open, retrying exits, sweeping protective
    stops, order updates pushed by the broker, and reconciling positions. *)
From S2P Require Import Prelude GoText Model Errors Fill RateLimiter Underlying Positions Oms CircuitBreaker Exec Placement ExecOps Executor.
#[local] Open Scope Z_scope.
#[local] Open Scope go_scope.

Definition asyncPollEvery : Duration := 2 * Second.
Definition asyncPollTries : nat := 60.
Definition asyncSlowEvery : Duration := 30 * Second.
Definition asyncSlowTries : nat := 480.

Record ReconcileResult := { rr_Fixed : list string; rr_Waiting : list PositionMismatch; rr_Unsafe : list PositionMismatch }.

Section settlement.
Context {L : Type} {LO : OrderLedger L} {E : Env L} {MO : MapOrder}.

(** ** Entries and exits that settle (position_state.go) *)

Definition sendDeferredExit (sig : Signal) : M L () :=
  let posKey := positionKey sig in
  do e ← entry posKey;
  match e with
  | None => mret ()
  | Some rec =>
      updateEntry posKey (set_ExitRequested false) ;;
      do live ← liveSession;
      if negb live then alertf "deferred EXIT cannot be sent: no live broker session"
      else
        let exit := exit_signal sig "deferred exit (arrived while BUY was settling)" in
        do key ← generateIdempotencyKey exit;
        do ltp ← GetLTP (r_Token rec);
        executeReal exit posKey "SELL" (r_Token rec) (r_Symbol rec) ltp (r_Quantity rec) key
  end.

Definition onBuySettled (sig : Signal) (orderID : string) (f : fillResult) : M L () :=
  let posKey := positionKey sig in
  do e ← entry posKey;
  match e with
  | None => alertf "BUY settled but its entry is gone"
  | Some cur =>
      let '(rec, filled) := filledEntry cur f in
      if negb filled then dropEntry sig
      else
        let rec := set_OrderID orderID rec in
        commitEntry sig rec ;;
        reportFill sig "BUY" (r_Price rec) (r_Quantity rec) true ;;
        when (r_ExitRequested rec) (sendDeferredExit sig)
  end.

(** The sell quantity of a retried exit: what is tracked, at most what the
    broker holds. *)
Definition retry_qty (tracked held : Z) : Z := if held <? tracked then held else tracked.

Definition retryExitLocked (sig : Signal) (attempt : Z) : M L () :=
  let posKey := positionKey sig in
  do e ← entry posKey;
  match e with
  | None => mret ()
  | Some rec =>
      if negb (r_Real rec) || r_Pending rec || negb (String.eqb (r_ExitOrderID rec) "") then mret ()
      else
        do live ← liveSession;
        if negb live then alertf "exit retry: no live broker session" ;; scheduleExitRetry sig
        else
          do held ← brokerNetQty (r_Symbol rec) (r_Token rec);
          match held with
          | inr _ => scheduleExitRetry sig
          | inl held =>
              if held <? 0 then alertf "exit retry: broker shows SHORT — not selling"
              else if held =? 0 then
                finalizeExit sig ;;
                do ltp ← GetLTP (r_Token rec);
                reportFill sig "SELL" ltp (r_Quantity rec) true
              else
                let exit := exit_signal sig ("automatic exit retry " +:+ format_int attempt) in
                do key ← generateIdempotencyKey exit;
                do ltp ← GetLTP (r_Token rec);
                executeReal exit posKey "SELL" (r_Token rec) (r_Symbol rec) ltp
                  (retry_qty (r_Quantity rec) held) key
          end
  end.

Definition settleStalePending (sig : Signal) (rec : OrderRecord) : M L () :=
  let posKey := positionKey sig in
  lock ;;
  do held ← brokerNetQty (r_Symbol rec) (r_Token rec);
  match held with
  | inr _ => alertf "pending BUY from a previous day could not be checked"
  | inl held =>
      if 0 <? held then
        updateEntry posKey (λ r, set_Quantity held (set_Pending false r)) ;;
        (if stopMode then rearmStop posKey ;; alertf "pending BUY from a previous day kept OPEN; stop placed"
         else alertf "pending BUY from a previous day kept OPEN without GTT protection")
      else dropEntry sig ;; alertf "pending BUY from a previous day: broker holds none — dropped"
  end ;;
  notifyState.

Definition beforeTodayIST (t : Time) : M L bool := do now_ ← now; mret (t_before t (ist_midnight now_)).

Definition resume_one (rec : OrderRecord) : M L () :=
  let sig := signalFor rec in
  let posKey := positionKey sig in
  do stale ← (if r_Pending rec then beforeTodayIST (r_Timestamp rec) else mret false);
  if stale : bool then settleStalePending sig rec
  else if r_Pending rec then
    let m := if negb (String.eqb (r_OrderID rec) "") then MatchID (r_OrderID rec)
             else MatchTags [r_ClientOrderID rec; retryTag (r_ClientOrderID rec)] in
    pollOrderAsync posKey (r_OrderID rec) m (DoneBuy sig) (Some (AbsentRestoredBuy sig))
  else
    let '(exitID, m) :=
      match cut_prefix "tag:" (r_ExitOrderID rec) with
      | Some tag => ("", MatchTags [tag; retryTag tag])
      | None => (r_ExitOrderID rec, MatchID (r_ExitOrderID rec))
      end in
    pollOrderAsync posKey exitID m (DoneExit sig None) (Some (AbsentRestoredExit sig posKey)).

Definition ResumeSettlement : M L () :=
  do recs ← gets (λ x, filter (λ r, r_Real r && (r_Pending r || negb (String.eqb (r_ExitOrderID r) "")) = true)
                         ((range (ex_entries x)).*2));
  for_each resume_one recs.

(** ** Following one order: the goroutine of [pollOrderAsync] *)

Definition poll_match (m : PollMatch) (book : row) : option row :=
  match m with MatchID id => findOrderByID book id | MatchTags tags => matchByTags tags book end.

Definition poll_done (d : PollDone) (orderID : string) (f : fillResult) : M L () :=
  match d with
  | DoneBuy sig => onBuySettled sig orderID f
  | DoneExit sig _ => applyExitResult sig f
  end.

Definition poll_absent (a : PollAbsent) : M L () :=
  match a with
  | AbsentUnknownBuy sig key =>
      ledgerApply (ledger_event key "" StateAbsent 0 0 "not in order book" "poll") ;; dropEntry sig
  | AbsentUnknownSell posKey key =>
      ledgerApply (ledger_event key "" StateAbsent 0 0 "not in order book" "poll") ;;
      updateEntry posKey (set_ExitOrderID "") ;;
      rearmStop posKey ;;
      alertf "unknown SELL never reached broker"
  | AbsentRestoredBuy sig => dropEntry sig
  | AbsentRestoredExit sig posKey =>
      updateEntry posKey (set_ExitOrderID "") ;;
      rearmStop posKey ;;
      alertf "restored EXIT never reached broker" ;;
      scheduleExitRetry sig
  end.

(** Iteration [i] of the loop and the ones after it; [n] are left.  The
    result says whether the order settled. *)
Fixpoint poll_loop (orderID : string) (m : PollMatch) (d : PollDone) (absent : option PollAbsent)
    (n : nat) (i : nat) (seen : bool) : M L bool :=
  match n with
  | O => alertf "gave up following the order" ;; mret false
  | S n =>
      when (bool_decide (i = asyncPollTries)) (alertf "not settled — still following it slowly") ;;
      push_wait orderID (if decide (i < asyncPollTries)%nat then asyncPollEvery else asyncSlowEvery) ;;
      do p ← pushed orderID;
      match p with
      | Some f => lock ;; poll_done d orderID f ;; notifyState ;; mret true
      | None =>
          do b ← readOrderBook;
          match b with
          | inr _ => poll_loop orderID m d absent n (S i) seen
          | inl book =>
              match poll_match m book with
              | None =>
                  match absent with
                  | Some a =>
                      if negb seen && bool_decide (S i = asyncPollTries)
                      then lock ;; poll_absent a ;; notifyState ;; mret true
                      else poll_loop orderID m d absent n (S i) seen
                  | None => poll_loop orderID m d absent n (S i) seen
                  end
              | Some r =>
                  let f := parseFillRow r in
                  if negb (terminal f) then poll_loop orderID m d absent n (S i) true
                  else
                    let oid := toStr (get r "orderid") in
                    journalFill (toStr (get r "ordertag")) oid f "poll" ;;
                    lock ;;
                    poll_done d oid f ;;
                    notifyState ;;
                    mret true
              end
          end
      end
  end.

(** ** Sweeping the stops (protection.go, push.go) *)

Definition sweepOne (posKey : string) : M L () :=
  do e ← entry posKey;
  match e with
  | None => mret ()
  | Some rec =>
      if negb (r_Real rec) || r_Pending rec || negb (String.eqb (r_ExitOrderID rec) "") then mret ()
      else if String.eqb (r_SLOrderID rec) "" then rearmStop posKey
      else
        do p ← pushed (r_SLOrderID rec);
        do f ←
          (match p with
           | Some f => mret (Some f)
           | None =>
               do b ← readOrderBook;
               match b with
               | inr _ => mret None
               | inl book =>
                   match findOrderByID book (r_SLOrderID rec) with
                   | None =>
                       do t ← startOfTodayIST;
                       when (t_before (r_SLPlacedAt rec) t)
                         (updateEntry posKey (set_SLOrderID "") ;; rearmStop posKey) ;;
                       mret None
                   | Some r =>
                       let f := parseFillRow r in
                       journalFill "" (r_SLOrderID rec) f "sweep" ;;
                       mret (Some f)
                   end
               end
           end);
        let sig := signalFor rec in
        match f with
        | None => mret ()
        | Some f =>
            if String.eqb (f_Status f) "complete" then
              updateEntry posKey (set_SLOrderID "") ;;
              finalizeExit sig ;;
              do price ← fillPriceOr f (r_Token rec);
              reportFill sig "SELL" price (r_Quantity rec) true
            else if terminal f then
              let left := r_Quantity rec -! f_FilledQty f in
              (if 0 <? f_FilledQty f then
                 do price ← fillPriceOr f (r_Token rec);
                 reportFill sig "SELL" price (f_FilledQty f) true
               else mret ()) ;;
              if left <=? 0 then updateEntry posKey (set_SLOrderID "") ;; finalizeExit sig
              else
                updateEntry posKey (λ r, set_Quantity left (set_SLOrderID "" r)) ;;
                alertf "stop ended — placing a new stop" ;;
                rearmStop posKey
            else mret ()
        end
  end.

Definition SweepProtection : M L () :=
  do live ← liveSession;
  if negb stopMode || negb live then mret ()
  else
    do keys ← gets (λ x, (filter (λ kr : string * OrderRecord, let r := kr.2 in
                 r_Real r && negb (r_Pending r) && String.eqb (r_ExitOrderID r) "" && String.eqb (r_Leg r) "" = true)
                 (range (ex_entries x))).*1);
    for_each (λ k, lock ;; sweepOne k) keys ;;
    when (match keys with [] => false | _ => true end) notifyState.

Definition sweepStop (posKey orderID : string) : M L () :=
  do live ← liveSession;
  if negb stopMode || negb live then mret ()
  else
    lock ;;
    do e ← entry posKey;
    match e with
    | None => mret ()
    | Some rec =>
        when (String.eqb (r_SLOrderID rec) orderID) (sweepOne posKey) ;;
        notifyState
    end.

(** [HandleOrderUpdate]: one pushed order row. *)
Definition HandleOrderUpdate (r : row) : M L () :=
  let orderID := toStr (get r "orderid") in
  if String.eqb orderID "" then mret ()
  else
    let f := parseFillRow r in
    do fresh_ ←
      (if terminal f then
         do t ← now;
         do res ← gets (λ x, push_put t orderID f (ex_pushes x));
         modify (on_pushes (λ _, res.2)) ;;
         mret res.1
       else mret true);
    if negb fresh_ then mret ()
    else
      journalFill (toStr (get r "ordertag")) orderID f "push" ;;
      if negb (terminal f) then mret ()
      else
        do stop ← gets (λ x, head (filter (λ kr : string * OrderRecord,
                    r_Real kr.2 && String.eqb (r_SLOrderID kr.2) orderID = true) (range (ex_entries x))));
        match stop with
        | Some (k, _) => spawn (TaskSweepStop k orderID)
        | None => mret ()
        end.

(** ** Goroutines *)

(** A started goroutine, run under its position's lock. *)
Definition run_task (t : Task) : M L () :=
  match t with
  | TaskPoll _ orderID m d absent =>
      poll_loop orderID m d absent (asyncPollTries + asyncSlowTries) 0 false ;; mret ()
  | TaskExitRetry sig n =>
      sleep (nth (Z.to_nat (n -! 1)) exitRetryDelays 0) ;;
      lock ;;
      retryExitLocked sig n ;;
      notifyState
  | TaskSweepStop posKey orderID => sweepStop posKey orderID
  end.

(** ** Reconciliation (positions.go) *)

(** Expected positions and settling keys from the entries. *)
Definition expected_of (entries : list OrderRecord) : gmap string expectedPosition * list string :=
  foldl (λ '(expected, settling) rec,
    let k := posBookKey (bookExchange (r_Symbol rec)) (r_Token rec) in
    let settling := if r_Real rec && r_Pending rec then k :: settling else settling in
    if negb (r_Real rec) || r_Pending rec then (expected, settling)
    else
      let e := default no_position (expected !! k) in
      (<[k := {| ep_Symbol := r_Symbol rec; ep_Qty := ep_Qty e +! r_Quantity rec |}]> expected, settling))
    (∅, []) entries.

Definition ReconcilePositions : M L (list PositionMismatch + gerror) :=
  do x ← gets (λ x, (ex_live x && ex_sessionOK x && ex_api x, (range (ex_entries x)).*2));
  let '(live, entries) := x in
  let '(expected, settling) := expected_of entries in
  if negb live then mret (inr err_not_live)
  else
    do b ← read_positions;
    mret match b with
    | inr e => inr e
    | inl book =>
        match comparePositions expected book (bookExchange "") with
        | inr e => inr e
        | inl mm => inl (filter (λ m, posBookKey (pm_Exchange m) (pm_Token m) ∉ settling) mm)
        end
    end.

(** [shrinkTo]: [None] is a drift left to a human. *)
Definition shrinkTo (token : string) (held : Z) : M L (option string) :=
  do keys ← gets (λ x, (filter (λ kr : string * OrderRecord, r_Real kr.2 && String.eqb (r_Token kr.2) token = true)
                          (range (ex_entries x))).*1);
  match keys with
  | [posKey] =>
      lock ;;
      do e ← entry posKey;
      match e with
      | None => mret None
      | Some rec =>
          if r_Pending rec || negb (String.eqb (r_ExitOrderID rec) "") then mret None
          else
            let sig := signalFor rec in
            do stop ←
              (if stopMode && negb (String.eqb (r_SLOrderID rec) "") then
                 do o ← cancelStopForExit sig posKey;
                 match o with
                 | stopFilled => mret (inr (Some "closed by its stop"))
                 | stopUnknown => mret (inr None)
                 | stopGone =>
                     do e ← entry posKey;
                     mret (match e with Some rec => inl rec | None => inr (Some "closed by its stop") end)
                 end
               else mret (inl rec));
            match stop with
            | inr answer => mret answer
            | inl rec =>
                let sold := r_Quantity rec -! held in
                (if 0 <? sold then
                   do ltp ← GetLTP (r_Token rec);
                   reportFill sig "SELL" ltp sold true
                 else mret ()) ;;
                if held <=? 0 then finalizeExit sig ;; mret (Some "broker flat — closed")
                else
                  updateEntry posKey (set_Quantity held) ;;
                  rearmStop posKey ;;
                  mret (Some "reduced")
            end
      end
  | _ => mret None
  end.

(** The loop of [ReconcileAndFix] over the mismatches: the result so far and
    the readings to remember. *)
Fixpoint fix_loop (prev : gmap string Z) (mm : list PositionMismatch) (seen : gmap string Z) (res : ReconcileResult) :
    M L (ReconcileResult * gmap string Z) :=
  match mm with
  | [] => mret (res, seen)
  | m :: mm =>
      let seen := <[pm_Token m := pm_Broker m]> seen in
      if (pm_Expected m <=? 0) || (pm_Broker m <? 0) || (pm_Expected m <=? pm_Broker m) then
        fix_loop prev mm seen {| rr_Fixed := rr_Fixed res; rr_Waiting := rr_Waiting res; rr_Unsafe := rr_Unsafe res ++ [m] |}
      else if negb (bool_decide (prev !! pm_Token m = Some (pm_Broker m))) then
        fix_loop prev mm seen {| rr_Fixed := rr_Fixed res; rr_Waiting := rr_Waiting res ++ [m]; rr_Unsafe := rr_Unsafe res |}
      else
        do r ← shrinkTo (pm_Token m) (pm_Broker m);
        match r with
        | Some msg =>
            fix_loop prev mm (delete (pm_Token m) seen)
              {| rr_Fixed := rr_Fixed res ++ [msg]; rr_Waiting := rr_Waiting res; rr_Unsafe := rr_Unsafe res |}
        | None =>
            fix_loop prev mm seen
              {| rr_Fixed := rr_Fixed res; rr_Waiting := rr_Waiting res; rr_Unsafe := rr_Unsafe res ++ [m] |}
        end
  end.

Definition ReconcileAndFix : M L (ReconcileResult + gerror) :=
  do r ← ReconcilePositions;
  match r with
  | inr e => mret (inr e)
  | inl mm =>
      do prev ← gets ex_drift;
      do rs ← fix_loop prev mm ∅ {| rr_Fixed := []; rr_Waiting := []; rr_Unsafe := [] |};
      modify (on_drift (λ _, rs.2)) ;;
      when (match rr_Fixed rs.1 with [] => false | _ => true end) notifyState ;;
      mret (inl rs.1)
  end.
End settlement.
