(* ===== verification/Signals.v ===== *)
(** The executor's entry point (internal/orderexec/executor.go, legs.go):
    [ExecuteSignal] with its routing and position gate, paper orders, paper
    legs, and the executor's construction and restore. *)
From S2P Require Import Prelude GoText Model Errors Fill RateLimiter Underlying Positions Oms CircuitBreaker Exec Placement ExecOps Executor.
#[local] Open Scope Z_scope.
#[local] Open Scope go_scope.

(** [legDirection]. *)
Definition legDirection (short closing : bool) : string :=
  if negb (Bool.eqb short closing) then "SELL" else "BUY".

(** [NewOrderExecutor]: the configuration with its defaults resolved. *)
Definition resolve_config (c : Config) : Config := {|
  LiveOrders := LiveOrders c; cfg_Qty := cfg_Qty c; LiveStrategies := LiveStrategies c;
  LiveLots := if LiveLots c <=? 0 then 1 else LiveLots c;
  FreezeQty := if FreezeQty c <=? 0 then 1800 else FreezeQty c;
  MaxDayLossPaise := MaxDayLossPaise c; MaxDayLossTotalPaise := MaxDayLossTotalPaise c;
  RequireJournal := RequireJournal c; CallFNOToken := CallFNOToken c; CallFNOSymbol := CallFNOSymbol c;
  PutFNOToken := PutFNOToken c; PutFNOSymbol := PutFNOSymbol c; FNOExchange := FNOExchange c;
  FNOOrderType := FNOOrderType c; FNOProductType := FNOProductType c; FNOStopLossPaise := FNOStopLossPaise c;
  GTTTargetBps := GTTTargetBps c; ProtectionMode := ProtectionMode c; ExecMode := ExecMode c;
  ChaseTicks := ChaseTicks c; ChaseReprices := ChaseReprices c; ChaseMaxBps := ChaseMaxBps c;
  MarginBufferPct := MarginBufferPct c; FNOTickPaise := FNOTickPaise c; AngelAPIKey := AngelAPIKey c;
  AngelClientID := AngelClientID c; PaperSlippageBps := PaperSlippageBps c;
  PaperSlippageMinPaise := PaperSlippageMinPaise c;
  CBMaxFailures := if CBMaxFailures c <=? 0 then 3 else CBMaxFailures c;
  CBResetTimeout := if CBResetTimeout c <=? 0 then 30 * Second else CBResetTimeout c;
  RLMaxOrders := if RLMaxOrders c <=? 0 then 10 else RLMaxOrders c;
  RLWindow := if RLWindow c <=? 0 then 60 * Second else RLWindow c;
  SessionManager := SessionManager c |}.

(** The new executor.  [managed] says the session manager has a client;
    [login] that a login of our own succeeded. *)
Definition new_executor {L} (c : Config) (managed login : bool) : Exec L :=
  let c := resolve_config c in
  let credentials := negb (String.eqb (AngelAPIKey c) "" || String.eqb (AngelClientID c) "") in
  let session := if SessionManager c then managed else credentials && login in
  {| ex_ltp := ∅; ex_inst := ∅; ex_entries := ∅; ex_inflight := ∅; ex_retries := ∅;
     ex_cb := NewCircuitBreaker (CBMaxFailures c) (CBResetTimeout c);
     ex_rl := NewRateLimiter (RLMaxOrders c) (RLWindow c);
     ex_margin := {| mc_paise := 0; mc_at := zero_time |}; ex_drift := ∅; ex_pushes := ∅; ex_ledger := None;
     ex_live := LiveOrders c && (SessionManager c || session);
     ex_sessionOK := LiveOrders c && session; ex_api := LiveOrders c && session; ex_tasks := [] |}.

Section signals.
Context {L : Type} {LO : OrderLedger L} {E : Env L} {MO : MapOrder}.

(** [Snapshot] keeps, and [Restore] brings back, instruments and entries. *)
Definition Snapshot (x : Exec L) : gmap string fnoInstrument * gmap string OrderRecord := (ex_inst x, ex_entries x).
Definition Restore (snap : gmap string fnoInstrument * gmap string OrderRecord) : M L () :=
  modify (λ x, on_entries (λ _, snap.2) (on_inst (λ _, snap.1) x)).

(** [SetOrderLedger]. *)
Definition SetOrderLedger (l : L) : M L () := modify (on_ledger (λ _, Some l)).

(** [resolveInstrument]: token and symbol; [None] when there is none. *)
Definition resolveInstrument (sig : Signal) (direction : string) : M L (option (string * string)) :=
  let isCall := String.eqb (sig_Side sig) SideCall in
  let isPut := String.eqb (sig_Side sig) SidePut in
  if negb isCall && negb isPut then mret None
  else
    do locked ← gets (λ x, ex_inst x !! positionKey sig);
    match (if String.eqb direction "SELL" then locked else None) with
    | Some inst => mret (Some (fi_Token inst, fi_Symbol inst))
    | None =>
        if String.eqb direction "BUY" && negb (String.eqb (sig_FNOToken sig) "")
        then mret (Some (sig_FNOToken sig, sig_FNOSymbol sig))
        else
          do picked ← ask (λ n, env_picker n (if isCall then SideCall else SidePut));
          match picked with
          | Some c => mret (Some c)
          | None =>
              let '(token, symbol) :=
                if isCall then (CallFNOToken cfg, CallFNOSymbol cfg) else (PutFNOToken cfg, PutFNOSymbol cfg) in
              if String.eqb token "" then mret None else mret (Some (token, symbol))
          end
    end.

(** ** Paper *)

Definition executePaper (sig : Signal) (posKey direction fnoToken fnoSymbol : string) (ltp : Z) (key : string) : M L () :=
  do t ← now;
  let dryRunOrderID := "PAPER_" +:+ sig_StrategyName sig +:+ "_" +:+ direction +:+ "_" +:+ format_int (t_unix_milli t) in
  do qty ← paperQtyFor fnoSymbol;
  do ltp ← paperFill direction fnoToken ltp;
  if String.eqb direction "BUY" then
    setPositionInstrument sig fnoToken fnoSymbol ;;
    do t ← now;
    modify (on_entries <[posKey := {|
      r_OrderID := dryRunOrderID; r_ClientOrderID := key; r_Symbol := fnoSymbol; r_Token := fnoToken;
      r_Side := direction; r_Quantity := qty; r_Price := ltp; r_Timestamp := t;
      r_StrategyName := sig_StrategyName sig; r_PositionSide := sig_Side sig; r_IndexToken := sig_Token sig;
      r_IndexExchange := sig_Exchange sig; r_GttRuleID := ""; r_GttSLRuleID := ""; r_SLOrderID := "";
      r_SLPlacedAt := zero_time; r_Real := false; r_Pending := false; r_ExitOrderID := ""; r_ExitRequested := false;
      r_Leg := ""; r_Short := false |}]>) ;;
    reportFill sig direction ltp qty false
  else
    do e ← entry posKey;
    modify (on_entries (delete posKey)) ;;
    clearPositionInstrument sig ;;
    match e with
    | Some entryOrder => reportFill sig direction ltp (r_Quantity entryOrder) false
    | None => mret ()
    end.

(** One leg of a multi-leg signal (legs.go). *)
Definition executeLegPaper (sig : Signal) : M L () :=
  if negb (String.eqb (sig_Side sig) SideCall) && negb (String.eqb (sig_Side sig) SidePut) then mret ()
  else if String.eqb (sig_Action sig) ActionExit || String.eqb (sig_Action sig) ActionSell then
    let posKey := positionKey sig in
    lock ;;
    do e ← entry posKey;
    match e with
    | None => mret ()
    | Some rec =>
        let closeDir := legDirection (r_Short rec) true in
        do ltp ← GetLTP (r_Token rec);
        do ltp ← paperFill closeDir (r_Token rec) ltp;
        modify (λ x, on_inst (delete posKey) (on_entries (delete posKey) x)) ;;
        let closeSig := {|
          sig_StrategyName := sig_StrategyName sig; sig_Action := sig_Action sig; sig_Side := sig_Side sig;
          sig_Token := sig_Token sig; sig_Exchange := sig_Exchange sig; sig_Price := sig_Price sig;
          sig_Reason := sig_Reason sig; sig_Leg := sig_Leg sig; sig_FNOToken := r_Token rec;
          sig_FNOSymbol := r_Symbol rec; sig_Short := r_Short rec;
  sig_ReverseTo := sig_ReverseTo sig; sig_Qty := sig_Qty sig; sig_EntryFNOPrice := sig_EntryFNOPrice sig;
  sig_MarketState := sig_MarketState sig; sig_Warnings := sig_Warnings sig; sig_Legs := sig_Legs sig;
  sig_Strike := sig_Strike sig; sig_Pick := sig_Pick sig; sig_PickAlt := sig_PickAlt sig;
  sig_TargetMove := sig_TargetMove sig; sig_SameDayExpiry := sig_SameDayExpiry sig;
  sig_SignalTS := sig_SignalTS sig |} in
        reportFill closeSig closeDir ltp (r_Quantity rec) false
    end
  else if String.eqb (sig_Action sig) ActionBuy then
    let posKey := positionKey sig in
    let openDir := legDirection (sig_Short sig) false in
    lock ;;
    if String.eqb (sig_FNOToken sig) "" then mret ()
    else
      do e ← entry posKey;
      match e with
      | Some _ => mret ()
      | None =>
          do ltp ← GetLTP (sig_FNOToken sig);
          do ltp ← paperFill openDir (sig_FNOToken sig) ltp;
          do t ← now;
          let orderID := "PAPER_" +:+ sig_StrategyName sig +:+ "_" +:+ sig_Leg sig +:+ "_" +:+ openDir +:+ "_"
                         +:+ format_int (t_unix_milli t) in
          do key ← generateIdempotencyKey sig;
          do t ← now;
          modify (λ x, on_entries <[posKey := {|
            r_OrderID := orderID; r_ClientOrderID := key; r_Symbol := sig_FNOSymbol sig; r_Token := sig_FNOToken sig;
            r_Side := openDir; r_Quantity := cfg_Qty cfg; r_Price := ltp; r_Timestamp := t;
            r_StrategyName := sig_StrategyName sig; r_PositionSide := sig_Side sig; r_IndexToken := sig_Token sig;
            r_IndexExchange := sig_Exchange sig; r_GttRuleID := ""; r_GttSLRuleID := ""; r_SLOrderID := "";
            r_SLPlacedAt := zero_time; r_Real := false; r_Pending := false; r_ExitOrderID := "";
            r_ExitRequested := false; r_Leg := sig_Leg sig; r_Short := sig_Short sig |}]>
            (on_inst <[posKey := {| fi_Token := sig_FNOToken sig; fi_Symbol := sig_FNOSymbol sig |}]> x)) ;;
          reportFill sig openDir ltp (cfg_Qty cfg) false
      end
  else mret ().

(** ** ExecuteSignal *)

(** The routing of an exit: whether it goes to the broker, or [None] when
    nothing more is done with it. *)
Definition route_exit (posKey : string) (live : bool) (e : option OrderRecord) : M L (option bool) :=
  let realEntry := match e with Some rec => r_Real rec | None => false end in
  let rec := default no_record e in
  if realEntry && negb (String.eqb (r_ExitOrderID rec) "") then mret None
  else if realEntry && r_Pending rec then updateEntry posKey (set_ExitRequested true) ;; mret None
  else if realEntry && negb live then alertf "EXIT for REAL position but no live broker session" ;; mret None
  else mret (Some (realEntry && live)).

(** The position gate of an entry: [true] reserves the position. *)
Definition position_gate (sig : Signal) (posKey : string) (hasEntry real : bool) : M L bool :=
  do blocked ← gets (λ x, hasEntry || bool_decide (is_Some (ex_inst x !! posKey)) || oppositeConflict sig real x);
  if blocked : bool then mret false
  else
    modify (on_inflight <[posKey := {| ib_strategy := sig_StrategyName sig; ib_side := sig_Side sig; ib_real := real |}]>) ;;
    mret true.

(** The guards of a real entry: rate limiter, breaker, daily loss. *)
Definition real_entry_guards (sig : Signal) : M L bool :=
  do t ← now;
  do ok ← gets (λ x, (rl_Allow t (ex_rl x)).1);
  modify (on_rl (λ rl, (rl_Allow t rl).2)) ;;
  if negb (ok : bool) then mret false
  else
    do t ← now;
    do ok ← gets (λ x, (Allow t (ex_cb x)).1.1);
    modify (on_cb (λ cb, (Allow t cb).1.2)) ;;
    if negb (ok : bool) then mret false
    else
      do blocked ← dayLossBlocked (sig_StrategyName sig);
      if (blocked : bool) then alertf "DAY LOSS LIMIT: real BUY refused" ;; mret false
      else mret true.

(** From the guards to the order: the rest of [ExecuteSignal]. *)
Definition dispatch (sig : Signal) (posKey direction fnoToken fnoSymbol key : string) (sendReal : bool)
    (e : option OrderRecord) : M L () :=
  let isExit := String.eqb direction "SELL" in
  do go ← (if negb isExit && sendReal then real_entry_guards sig else mret true);
  if negb (go : bool) then mret ()
  else
    do ltp ← GetLTP fnoToken;
    if negb sendReal then executePaper sig posKey direction fnoToken fnoSymbol ltp key
    else if isExit then
      let qty := match e with
                 | Some rec => if r_Real rec && (0 <? r_Quantity rec) then r_Quantity rec else cfg_Qty cfg
                 | None => cfg_Qty cfg
                 end in
      executeReal sig posKey direction fnoToken fnoSymbol ltp qty key
    else
      do q ← realEntryQty fnoSymbol;
      match q with
      | inr _ => alertf "real BUY refused: quantity"
      | inl qty => executeReal sig posKey direction fnoToken fnoSymbol ltp qty key
      end.

(** The routed signal: its instrument, the gate, the order. *)
Definition execute_routed (sig : Signal) (isBuy : bool) (e : option OrderRecord) (sendReal : bool) : M L () :=
  let direction := if isBuy then "BUY" else "SELL" in
  let posKey := positionKey sig in
  do inst ← resolveInstrument sig direction;
  match inst with
  | None => mret ()
  | Some (fnoToken, fnoSymbol) =>
      do key ← generateIdempotencyKey sig;
      if isBuy then
        do ok ← position_gate sig posKey (bool_decide (is_Some e)) sendReal;
        if negb (ok : bool) then mret ()
        else
          dispatch sig posKey direction fnoToken fnoSymbol key sendReal e ;;
          modify (on_inflight (delete posKey))
      else dispatch sig posKey direction fnoToken fnoSymbol key sendReal e
  end.

(** [ExecuteSignal] from the moment it holds the position's lock. *)
Definition execute_locked (sig : Signal) (isBuy : bool) : M L () :=
  let posKey := positionKey sig in
  do live ← liveSession;
  do e ← entry posKey;
  do route ← (if isBuy then mret (Some (IsRealStrategy (sig_StrategyName sig) && live))
              else route_exit posKey live e);
  match route with
  | None => mret ()
  | Some sendReal => execute_routed sig isBuy e sendReal
  end.

Definition ExecuteSignal (sig : Signal) : M L () :=
  if negb (String.eqb (sig_Leg sig) "") then executeLegPaper sig
  else
    let isBuy := String.eqb (sig_Action sig) ActionBuy in
    let isExit := String.eqb (sig_Action sig) ActionExit || String.eqb (sig_Action sig) ActionSell in
    if negb isBuy && negb isExit then mret ()
    else if negb (String.eqb (sig_Side sig) SideCall) && negb (String.eqb (sig_Side sig) SidePut) then mret ()
    else lock ;; execute_locked sig isBuy.
End signals.
