(* ===== verification/ExecFrame.v ===== *)
(** What every executor operation leaves alone.  A property of the state is
    [Stable] when it survives each kind of update the executor makes outside
    the opening of a position; every operation of internal/orderexec is then
    shown to keep a stable property, by composing its parts.  The invariants
    of ExecInvariant.v are instances. *)
From S2P Require Import Prelude GoText Model Errors Fill RateLimiter Underlying Positions Oms CircuitBreaker Exec Placement ExecOps Executor Settlement Signals.
#[local] Open Scope Z_scope.
#[local] Open Scope go_scope.

(** What a position is, as opposed to what state it is in. *)
Definition identity (r : OrderRecord) : (string * string * string) * (string * string * bool) :=
  ((r_StrategyName r, r_PositionSide r, r_Leg r), (r_Token r, r_Symbol r, r_Real r)).

Definition update_at (k : string) (fn : OrderRecord → OrderRecord) (m : gmap string OrderRecord) : gmap string OrderRecord :=
  match m !! k with Some r => <[k := fn r]> m | None => m end.

Definition is_retry (t : Task) : bool := match t with TaskExitRetry _ _ => true | _ => false end.

(** Two states with the same positions and the same background work. *)
Definition same_positions {L} (x x' : Exec L) : Prop :=
  ex_entries x' = ex_entries x ∧ ex_inst x' = ex_inst x ∧ ex_inflight x' = ex_inflight x ∧
  ex_retries x' = ex_retries x ∧ ex_tasks x' = ex_tasks x.

(** Changes of the executor that no position and no background work sees, and
    that do not lose the session. *)
Definition internal {L} (f : Exec L → Exec L) : Prop :=
  ∀ x, same_positions x (f x) ∧ (ex_api x = true → ex_api (f x) = true).

(** Everything but orders and fill reports. *)
Definition quiet (e : Ev) : Prop := match e with EvPlace _ _ | EvFill _ => False | _ => True end.

(** ** Frames

    A relation on worlds is a frame when the executor's primitive steps keep
    it; the classes add the steps on positions.  Whatever is composed of them
    keeps it too: the lemmas below go through every operation once, for any
    frame. *)
Class Frame {L} {E : Env L} (R : World L → World L → Prop) := {
  #[export] fr_pre :: PreOrder R;
  fr_internal : ∀ f, internal f → keeps R (modify f);
  fr_fresh : keeps R fresh;
  fr_others : keeps R others;
  fr_log : ∀ e, quiet e → keeps R (log e);
}.

(** Protective stops. *)
Class FrameStops {L} {E : Env L} (R : World L → World L → Prop) := {
  #[export] fr_frame :: Frame R;
  fr_set_stop : ∀ k id t, keeps R (updateEntry k (set_SL id t));
  fr_stop : ∀ rec trigger limit tag r, keeps R (log (EvPlace (stop_params rec trigger limit tag) r));
}.

(** Updates that leave every position there, and fill reports. *)
Class FrameUpdates {L} {E : Env L} (R : World L → World L → Prop) := {
  #[export] fr_stops :: FrameStops R;
  fr_fill : ∀ f, keeps R (log (EvFill f));
  fr_update : ∀ k fn, (∀ r, identity (fn r) = identity r) → keeps R (updateEntry k fn);
  fr_spawn : ∀ t, is_retry t = false → keeps R (spawn t);
}.

(** Closing positions and scheduling exits. *)
Class FrameExits {L} {E : Env L} (R : World L → World L → Prop) := {
  #[export] fr_updates :: FrameUpdates R;
  fr_close : ∀ sig, keeps R (modify (on_entries (delete (positionKey sig))) ;;
                             modify (on_retries (delete (positionKey sig))) ;; clearPositionInstrument sig);
  fr_schedule : ∀ sig, keeps R (scheduleExitRetry sig);
}.

(** Sell orders. *)
Class FrameSells {L} {E : Env L} (R : World L → World L → Prop) := {
  #[export] fr_exits :: FrameExits R;
  fr_sell : ∀ s t price qty tag r, keeps R (log (EvPlace (buildOrderParams s t "SELL" price qty tag) r));
}.

(** The frame of the goal is an instance. *)
Ltac framed :=
  try lazymatch goal with
  | |- PreOrder _ => apply _ | |- Frame _ => apply _ | |- FrameStops _ => apply _ | |- FrameUpdates _ => apply _
  | |- FrameExits _ => apply _ | |- FrameSells _ => apply _
  end.

#[export] Hint Extern 0 (Frame _) => apply _ : keeps.
#[export] Hint Extern 0 (FrameStops _) => apply _ : keeps.
#[export] Hint Extern 0 (FrameUpdates _) => apply _ : keeps.
#[export] Hint Extern 0 (FrameExits _) => apply _ : keeps.
#[export] Hint Extern 0 (FrameSells _) => apply _ : keeps.

Section primitives.
Context {L : Type} {LO : OrderLedger L} {E : Env L} {MO : MapOrder} (R : World L → World L → Prop) {FR : Frame R}.
Notation kept := (keeps (L := L) R).

Lemma kept_lock : kept lock.
Proof. apply fr_others. Qed.
Lemma kept_now : kept now.
Proof. seq; [apply fr_fresh|intros n; apply keeps_ret, _]. Qed.
Lemma kept_sleep d : kept (sleep d).
Proof. apply keeps_when; [apply _|]. intros _. apply fr_others. Qed.
Lemma kept_ask {A} (answer : nat → A) : kept (ask answer).
Proof. seq; [apply fr_fresh|intros n; apply keeps_ret, _]. Qed.
Lemma kept_call {A} (answer : nat → A) ev : (∀ x, kept (log (ev x))) → kept (call answer ev).
Proof.
  intros Hev. seq; [apply fr_others|intros _]. seq; [apply fr_fresh|intros n].
  seq; [apply Hev|intros _]. apply keeps_ret, _.
Qed.
End primitives.

#[export] Hint Resolve fr_fresh fr_others kept_lock kept_now kept_sleep kept_ask fr_schedule fr_set_stop fr_stop fr_fill fr_sell : keeps.
#[export] Hint Extern 2 (keeps _ (log _)) => apply fr_log; framed; exact I : keeps.
#[export] Hint Extern 2 (keeps _ (alertf _)) => apply fr_log; framed; exact I : keeps.
#[export] Hint Extern 2 (keeps _ notifyState) => apply fr_log; framed; exact I : keeps.
#[export] Hint Extern 2 (keeps _ (modify _)) => apply fr_internal; framed; intros ?; repeat split; done : keeps.
#[export] Hint Extern 2 (keeps _ (spawn _)) => apply fr_spawn; framed; reflexivity : keeps.
#[export] Hint Extern 2 (keeps _ (updateEntry _ _)) => apply fr_update; framed; intros ?; reflexivity : keeps.
#[export] Hint Extern 2 (keeps _ (call _ _)) => apply kept_call; framed; intros ?; solve [eauto 3 with keeps] : keeps.

(** ** Order attempts and the building blocks *)

Section frame_ops.
Context {L : Type} {LO : OrderLedger L} {E : Env L} {MO : MapOrder} (R : World L → World L → Prop) {FR : Frame R}.
Notation kept := (keeps (L := L) R).

Lemma kept_readOrderBook : kept readOrderBook.
Proof. unfold readOrderBook, brokerAPI. keeps_auto. Qed.
Lemma kept_RefreshSession : kept RefreshSession.
Proof. unfold RefreshSession. keeps_auto. Qed.
Lemma kept_broker_place p : (∀ r, kept (log (EvPlace p r))) → kept (broker_place p).
Proof. intros Hp. unfold broker_place, brokerAPI. keeps_auto. Qed.
#[local] Hint Resolve kept_readOrderBook kept_RefreshSession : keeps.

Lemma kept_settle tag params isFinal t r : kept (settle (attempt_of tag params isFinal) t r).
Proof.
  unfold settle. destruct r; [keeps_auto|]. case_match; [keeps_auto|]. generalize (@None gerror).
  match goal with |- context [settle_lookups _ _ _ ?ds] => generalize ds end. intros delays.
  induction delays as [|d delays IH]; intros le; simpl; keeps_auto.
Qed.
#[local] Hint Resolve kept_settle : keeps.
Lemma kept_run tag params isFinal :
  (∀ t r, t ∈ [tag; retryTag tag] → kept (log (EvPlace (params t) r))) → kept (run (attempt_of tag params isFinal)).
Proof.
  intros Hp. assert (∀ t, t ∈ [tag; retryTag tag] → kept (broker_place (params t))) as Hp'.
  { intros t Ht. apply kept_broker_place. auto. }
  assert (kept (broker_place (params tag))) by (apply Hp'; set_solver).
  assert (kept (broker_place (params (retryTag tag)))) by (apply Hp'; set_solver). clear Hp Hp'.
  unfold run, last_look, resend. cbn [oa_place oa_orderBook oa_refresh oa_tag oa_isFinal attempt_of]. keeps_auto.
Qed.

Lemma kept_ledgerApply ev : kept (ledgerApply ev).
Proof. unfold ledgerApply. keeps_auto. Qed.
Lemma kept_ledger_submit ev l : kept (ledger_submit ev l).
Proof. unfold ledger_submit. keeps_auto. Qed.
#[local] Hint Resolve kept_ledgerApply kept_ledger_submit : keeps.
Lemma kept_journalEntryIntent sig k t s q key : kept (journalEntryIntent sig k t s q key).
Proof. unfold journalEntryIntent. keeps_auto. Qed.
Lemma kept_journalExitIntent sig k t s q key : kept (journalExitIntent sig k t s q key).
Proof. unfold journalExitIntent. keeps_auto. Qed.
Lemma kept_journalPlacement key id err flat : kept (journalPlacement key id err flat).
Proof. unfold journalPlacement. keeps_auto. Qed.
Lemma kept_journalFill tag id f s : kept (journalFill tag id f s).
Proof. unfold journalFill. keeps_auto. Qed.
Lemma kept_persistIntentNow : kept persistIntentNow.
Proof. unfold persistIntentNow. keeps_auto. Qed.
Lemma kept_key sig : kept (generateIdempotencyKey sig).
Proof. unfold generateIdempotencyKey. keeps_auto. Qed.
Lemma kept_fillPriceOr f t : kept (fillPriceOr f t).
Proof. unfold fillPriceOr, GetLTP. keeps_auto. Qed.
Lemma kept_push_wait id d : kept (push_wait id d).
Proof. unfold push_wait. keeps_auto. Qed.
Lemma kept_marketablePrice d t p : kept (marketablePrice d t p).
Proof. unfold marketablePrice. keeps_auto. Qed.
Lemma kept_paperFill d t p : kept (paperFill d t p).
Proof. unfold paperFill. keeps_auto. Qed.
Lemma kept_modifyOrder id s t o q p : kept (modifyOrder id s t o q p).
Proof. unfold modifyOrder, brokerAPI. keeps_auto. Qed.
Lemma kept_broker_cancel id v : kept (broker_cancel id v).
Proof. unfold broker_cancel. keeps_auto. Qed.
Lemma kept_marginShort p q : kept (marginShort p q).
Proof. unfold marginShort. keeps_auto. Qed.
Lemma kept_dayLossBlocked s : kept (dayLossBlocked s).
Proof. unfold dayLossBlocked. keeps_auto. Qed.
Lemma kept_realEntryQty s : kept (realEntryQty s).
Proof. unfold realEntryQty. keeps_auto. Qed.
Lemma kept_paperQtyFor s : kept (paperQtyFor s).
Proof. unfold paperQtyFor. keeps_auto. Qed.
End frame_ops.

#[export] Hint Resolve kept_readOrderBook kept_RefreshSession kept_ledgerApply
  kept_ledger_submit kept_journalEntryIntent kept_journalExitIntent kept_journalPlacement kept_journalFill
  kept_persistIntentNow kept_key kept_fillPriceOr kept_push_wait kept_marketablePrice
  kept_paperFill kept_modifyOrder kept_broker_cancel kept_marginShort kept_dayLossBlocked kept_realEntryQty
  kept_paperQtyFor : keeps.

Section frame_ops2.
Context {L : Type} {LO : OrderLedger L} {E : Env L} {MO : MapOrder} (R : World L → World L → Prop) {FR : Frame R}.
Notation kept := (keeps (L := L) R).

Lemma kept_orderPrice d t p : kept (orderPrice d t p).
Proof. unfold orderPrice. keeps_auto. Qed.
Lemma kept_confirmFill id ds : kept (confirmFill id ds).
Proof.
  unfold confirmFill. generalize no_fill (@None gerror) false.
  induction ds as [|d ds IH]; intros last le seen; simpl; unfold pushed; keeps_auto.
Qed.
#[local] Hint Resolve kept_confirmFill : keeps.
Lemma kept_chase_loop id d s t q first n p : kept (chase_loop id d s t q first n p).
Proof. revert p. induction n as [|n IH]; intros p; simpl; unfold GetLTP; keeps_auto. Qed.
#[local] Hint Resolve kept_chase_loop : keeps.
Lemma kept_awaitFill id d s t q p : kept (awaitFill id d s t q p).
Proof. unfold awaitFill, brokerAPI. keeps_auto. Qed.

Lemma kept_placeTargetGTT s t p q : kept (placeTargetGTT s t p q).
Proof. unfold placeTargetGTT, gtt_create, brokerAPI. keeps_auto. Qed.
Lemma kept_placeStopLossGTT s t p q : kept (placeStopLossGTT s t p q).
Proof. unfold placeStopLossGTT, gtt_create, brokerAPI. keeps_auto. Qed.
Lemma kept_gtt_cancel_attempts n id err : kept (gtt_cancel_attempts n id err).
Proof. revert err. induction n as [|n IH]; intros err; simpl; keeps_auto. Qed.
#[local] Hint Resolve kept_gtt_cancel_attempts : keeps.
Lemma kept_cancelPairedGTTs k : kept (cancelPairedGTTs k).
Proof. unfold cancelPairedGTTs, brokerAPI, entry. keeps_auto. Qed.
Lemma kept_cancelStopQuiet k : kept (cancelStopQuiet k).
Proof. unfold cancelStopQuiet, brokerAPI, entry. keeps_auto. Qed.
Lemma kept_brokerNetQty s t : kept (brokerNetQty s t).
Proof. unfold brokerNetQty, brokerAPI, read_positions. keeps_auto. Qed.
Lemma kept_run_breaker isExit fn : kept fn → kept (run_breaker isExit fn).
Proof. intros Hfn. unfold run_breaker. keeps_auto. Qed.
Lemma kept_send_attempt x s t d p q key :
  (∀ tag r, tag ∈ [key; retryTag key] → kept (log (EvPlace (buildOrderParams s t d p q tag) r))) →
  kept (send_attempt x s t d p q key).
Proof.
  intros Hp. assert (∀ isFinal, kept (run (attempt_of key (buildOrderParams s t d p q) isFinal))) as Hr.
  { intros isFinal. apply kept_run; framed; done. }
  unfold send_attempt. keeps_auto.
Qed.
End frame_ops2.

#[export] Hint Resolve kept_orderPrice kept_confirmFill kept_awaitFill kept_placeTargetGTT kept_placeStopLossGTT
  kept_cancelPairedGTTs kept_cancelStopQuiet kept_brokerNetQty : keeps.

(** ** Operations on positions *)

Section frame_stops.
Context {L : Type} {LO : OrderLedger L} {E : Env L} {MO : MapOrder} (R : World L → World L → Prop) {FR : FrameStops R}.
Notation kept := (keeps (L := L) R).

Lemma kept_placeStop k r : kept (placeStop k r).
Proof.
  assert (∀ tr lim tag isFinal, kept (run (attempt_of tag (stop_params r tr lim) isFinal))) as Hr.
  { intros *. apply kept_run; framed. intros tag' r' _. apply fr_stop. }
  unfold placeStop, brokerAPI. keeps_auto.
Qed.
#[local] Hint Resolve kept_placeStop : keeps.
Lemma kept_rearmStop k : kept (rearmStop k).
Proof. unfold rearmStop, entry. keeps_auto. Qed.
End frame_stops.
#[export] Hint Resolve kept_placeStop kept_rearmStop : keeps.

Section frame_updates.
Context {L : Type} {LO : OrderLedger L} {E : Env L} {MO : MapOrder} (R : World L → World L → Prop) {FR : FrameUpdates R}.
Notation kept := (keeps (L := L) R).

Lemma kept_reportFill sig d p q r : kept (reportFill sig d p q r).
Proof. unfold reportFill. keeps_auto. Qed.
Lemma kept_pollOrderAsync k id m d a : kept (pollOrderAsync k id m d a).
Proof. unfold pollOrderAsync, brokerAPI. keeps_auto. Qed.

Lemma filledEntry_identity rec f : identity (filledEntry rec f).1 = identity rec.
Proof. unfold filledEntry. by repeat case_match. Qed.

Lemma kept_commitEntry sig rec :
  (∀ rec', identity rec' = identity rec → kept (storeEntry sig rec')) → kept (commitEntry sig rec).
Proof.
  intros Hst. unfold commitEntry. set (same := λ rec' : OrderRecord, identity rec' = identity rec).
  assert (same (set_Pending false rec)) as H1 by done. generalize dependent (set_Pending false rec). intros r1 H1.
  destruct stopMode.
  - apply (keeps_bind_returns _ same); [keeps_auto| |auto].
    intros w. case_match; [|done]. unfold mbind, M_bind. destruct (placeStop _ _ w) as [id w1].
    by destruct (String.eqb id "").
  - apply (keeps_bind_returns _ same); [keeps_auto| |].
    { intros w. case_match; [|done]. unfold mbind, M_bind. by destruct (placeTargetGTT _ _ _ _ w). }
    intros r2 H2. apply (keeps_bind_returns _ same); [keeps_auto| |auto].
    intros w. case_match; [|done]. unfold mbind, M_bind. by destruct (placeStopLossGTT _ _ _ _ w).
Qed.
End frame_updates.
#[export] Hint Resolve kept_reportFill kept_pollOrderAsync : keeps.

Section frame_exits.
Context {L : Type} {LO : OrderLedger L} {E : Env L} {MO : MapOrder} (R : World L → World L → Prop) {FR : FrameExits R}.
Notation kept := (keeps (L := L) R).

Lemma kept_dropEntry sig : kept (dropEntry sig).
Proof. unfold dropEntry. seq; [keeps_auto|intros _]. seq; [keeps_auto|intros _]. apply fr_close. Qed.
#[local] Hint Resolve kept_dropEntry : keeps.
Lemma kept_finalizeExit sig : kept (finalizeExit sig).
Proof. apply kept_dropEntry. Qed.
#[local] Hint Resolve kept_finalizeExit : keeps.
Lemma kept_stop_settled sig k rec r : kept (stop_settled sig k rec r).
Proof. unfold stop_settled, startOfTodayIST. keeps_auto. Qed.
#[local] Hint Resolve kept_stop_settled : keeps.
Lemma kept_cancelStopForExit sig k : kept (cancelStopForExit sig k).
Proof. unfold cancelStopForExit, brokerAPI, entry. keeps_auto. Qed.
Lemma kept_applyExitResult sig f : kept (applyExitResult sig f).
Proof. unfold applyExitResult, entry. keeps_auto. Qed.
End frame_exits.

#[export] Hint Resolve kept_dropEntry kept_finalizeExit kept_stop_settled kept_cancelStopForExit kept_applyExitResult : keeps.

(** ** Running the parts *)

Section running.
Context {L : Type} {LO : OrderLedger L} {E : Env L} {MO : MapOrder}.

Lemma run_bind {A B} (m : M L A) (f : A → M L B) w : (m ≫= f) w = f (m w).1 (m w).2.
Proof. unfold mbind, M_bind. by destruct (m w). Qed.

(** A position that is finalised is off the book. *)
Lemma dropEntry_gone sig (w : World L) : ex_entries (w_ex (dropEntry sig w).2) !! positionKey sig = None.
Proof.
  unfold dropEntry, mbind, M_bind. destruct (cancelPairedGTTs _ w) as [[] w1]. destruct (cancelStopQuiet _ w1) as [[] w2].
  simpl. apply lookup_delete_eq.
Qed.
End running.

(** ** Orders *)

Definition opened_by (sig : Signal) (real : bool) (rec : OrderRecord) : Prop :=
  r_StrategyName rec = sig_StrategyName sig ∧ r_PositionSide rec = sig_Side sig ∧ r_Leg rec = "" ∧ r_Real rec = real.

Lemma opened_by_identity sig real rec rec' :
  identity rec' = identity rec → opened_by sig real rec → opened_by sig real rec'.
Proof. unfold opened_by, identity. intros [= -> -> -> _ _ ->]. done. Qed.

Section frame_orders.
Context {L : Type} {LO : OrderLedger L} {E : Env L} {MO : MapOrder} (R : World L → World L → Prop) {FR : FrameExits R}.
Notation kept := (keeps (L := L) R).

(** [R] survives the opening of [sig]'s position. *)
Definition opens (sig : Signal) : Prop := ∀ rec, opened_by sig true rec → kept (storeEntry sig rec).

(** ... and the orders an operation sends: at most [qty]. *)
Definition sends (s t d : string) (qty : Z) (key : string) : Prop :=
  ∀ price q tag r, q ≤ qty → (d ≠ "SELL" → q = qty) → tag ∈ [key; retryTag key] → kept (log (EvPlace (buildOrderParams s t d price q tag) r)).

Lemma opens_commit sig rec : opens sig → opened_by sig true rec → kept (commitEntry sig rec).
Proof. intros Hop Hrec. apply kept_commitEntry; framed. intros rec' Hid. apply Hop. by eapply opened_by_identity. Qed.

Lemma kept_settleUnknown sig k d t s p q key :
  (d ≠ "BUY" ∨ opens sig) → kept (settleUnknown sig k d t s p q key).
Proof.
  intros Hop. unfold settleUnknown. destruct (String.eqb_spec d "BUY") as [->|_]; [|keeps_auto].
  destruct Hop as [|Hop]; [done|]. keeps_auto. by apply Hop.
Qed.
Lemma kept_real_prepare sig k d t s p q : kept (real_prepare sig k d t s p q).
Proof. unfold real_prepare, entry. keeps_auto. Qed.
Lemma kept_real_flat sig k d t s p q : kept (real_flat sig k d t s p q).
Proof. unfold real_flat. keeps_auto. Qed.
Lemma kept_real_intent sig k d t s p q key :
  (d = "SELL" ∨ opens sig) → kept (real_intent sig k d t s p q key).
Proof.
  intros Hop. unfold real_intent. destruct (String.eqb_spec d "SELL") as [->|]; [keeps_auto|].
  destruct Hop as [|Hop]; [done|]. keeps_auto. by apply Hop.
Qed.
Lemma kept_real_failed sig k d t s p q key err :
  (d ≠ "BUY" ∨ opens sig) → kept (real_failed sig k d t s p q key err).
Proof. intros Hop. unfold real_failed. pose proof (kept_settleUnknown sig k d t s p q key Hop). keeps_auto. Qed.
Lemma kept_real_accepted sig k d t s p q lp key id :
  (d = "SELL" ∨ opens sig) → kept (real_accepted sig k d t s p q lp key id).
Proof.
  intros Hop. unfold real_accepted.
  seq; [keeps_auto|intros r]. seq; [keeps_auto|intros _]. cbv zeta.
  destruct (String.eqb_spec d "SELL") as [->|Hd]; [cbn [negb andb]; keeps_auto|].
  destruct Hop as [|Hop]; [done|]. cbn [negb andb]. rewrite andb_true_r. keeps_step; [keeps_auto|].
  seq; [keeps_auto|intros now_]. keeps_step.
  - seq; [|intros _; keeps_auto]. apply opens_commit; [done|].
    eapply opened_by_identity; [apply filledEntry_identity|done].
  - seq; [by apply Hop|intros _; keeps_auto].
Qed.

(** What is sent is what was asked for, or the smaller position left by a
    stop. *)
Lemma real_prepare_qty sig k d t s p q w q' lp :
  (real_prepare sig k d t s p q w).1 = Some (q', lp) → q' ≤ q ∧ (d ≠ "SELL" → q' = q).
Proof.
  assert (∀ (m : M L (option Z)) (f : Z → M L (option (Z * Z))) w, (∀ w x, (m w).1 = Some x → x ≤ q ∧ (d ≠ "SELL" → x = q)) →
    (∀ x w, (f x w).1 = None ∨ ∃ y, (f x w).1 = Some (x, y)) →
    ((do x ← m; match x with None => mret None | Some x => f x end) w).1 = Some (q', lp) →
    q' ≤ q ∧ (d ≠ "SELL" → q' = q)) as Hgen.
  { intros m f w0 Hm Hf. unfold mbind, M_bind. specialize (Hm w0). destruct (m w0) as [[x|] w1]; [|done].
    intros H1. destruct (Hf x w1) as [H2|[y H2]]; rewrite H2 in H1; [done|]. simplify_eq. by apply Hm. }
  unfold real_prepare. apply Hgen; clear.
  - intros w x. destruct (String.eqb_spec d "SELL") as [->|Hd]; simpl; [|intros [= ->]; split; [lia|done]].
    destruct stopMode; simpl; [|intros [= ->]; split; [lia|done]].
    unfold mbind, M_bind. destruct (cancelStopForExit sig k w) as [[] w1]; simpl.
    + destruct (ex_entries (w_ex w1) !! k) as [rec|]; simpl; [|intros [= ->]; split; [lia|done]].
      destruct (_ && _) eqn:Hq; intros [= <-]; split; try done; lia.
    + done.
    + by destruct (scheduleExitRetry sig w1).
  - intros x w. unfold mbind, M_bind. destruct (orderPrice d t p w) as [lp' w1].
    destruct ((lp' <=? 0) && _ && _); [by left|].
    destruct (negb _); [|right; eauto]. destruct (marginShort _ x w1) as [m w2]. destruct m.2; [by left|right; eauto].
Qed.

Lemma kept_executeReal sig k d t s p q key :
  (d = "SELL" ∨ opens sig) → sends s t d q key → kept (executeReal sig k d t s p q key).
Proof.
  intros Hop Hs. assert (d ≠ "BUY" ∨ opens sig) as Hop' by (destruct Hop as [->|]; [left|right]; done).
  unfold executeReal. cbv zeta.
  apply (keeps_bind_returns _ (λ pr, ∀ q' lp, pr = Some (q', lp) → q' ≤ q ∧ (d ≠ "SELL" → q' = q)));
    [apply kept_real_prepare|intros w q' lp; apply real_prepare_qty|].
  intros [[qty lp]|] Hq; [|keeps_auto]. destruct (Hq qty lp eq_refl) as [Hle Hbuy].
  seq; [by apply kept_real_intent|intros go].
  destruct (negb go); [keeps_auto|].
  seq; [apply kept_run_breaker; framed; apply kept_send_attempt; framed; intros tag r Htag; by apply Hs|intros r].
  seq; [keeps_auto|intros _].
  destruct (match sr_err r with Some e => Some e | None => sr_reject r end) as [e|]; [by apply kept_real_failed|].
  destruct (sr_flat r); [apply kept_real_flat|by apply kept_real_accepted].
Qed.
End frame_orders.

Section frame_background.
Context {L : Type} {LO : OrderLedger L} {E : Env L} {MO : MapOrder} (R : World L → World L → Prop) {FR : FrameSells R}.
Notation kept := (keeps (L := L) R).

Lemma kept_sell sig k t s p q key : kept (executeReal sig k "SELL" t s p q key).
Proof. apply kept_executeReal; framed; [by left|]. intros price q' tag r _ _ _. apply fr_sell. Qed.
#[local] Hint Resolve kept_sell : keeps.
Lemma kept_sendDeferredExit sig : kept (sendDeferredExit sig).
Proof. unfold sendDeferredExit, entry, liveSession, GetLTP. keeps_auto. Qed.
Lemma kept_retryExitLocked sig n : kept (retryExitLocked sig n).
Proof. unfold retryExitLocked, entry, liveSession, GetLTP. keeps_auto. Qed.
Lemma kept_settleStalePending sig r : kept (settleStalePending sig r).
Proof. unfold settleStalePending. keeps_auto. Qed.
#[local] Hint Resolve kept_retryExitLocked kept_settleStalePending : keeps.
Lemma kept_resume_one r : kept (resume_one r).
Proof. unfold resume_one, beforeTodayIST. keeps_auto. Qed.
#[local] Hint Resolve kept_resume_one : keeps.
Lemma kept_ResumeSettlement : kept ResumeSettlement.
Proof. unfold ResumeSettlement. keeps_auto. Qed.
Lemma kept_poll_absent a : kept (poll_absent a).
Proof. unfold poll_absent. keeps_auto. Qed.
#[local] Hint Resolve kept_poll_absent : keeps.
Lemma kept_poll_loop id m d a n i seen :
  (∀ id f, kept (poll_done d id f)) → kept (poll_loop id m d a n i seen).
Proof.
  intros Hd. revert i seen. induction n as [|n IH]; intros i seen; simpl; unfold pushed; keeps_auto.
Qed.
Lemma kept_sweepOne k : kept (sweepOne k).
Proof. unfold sweepOne, entry, pushed, startOfTodayIST. keeps_auto. Qed.
#[local] Hint Resolve kept_sweepOne : keeps.
Lemma kept_SweepProtection : kept SweepProtection.
Proof. unfold SweepProtection, liveSession. keeps_auto. Qed.
Lemma kept_sweepStop k id : kept (sweepStop k id).
Proof. unfold sweepStop, liveSession, entry. keeps_auto. Qed.
#[local] Hint Resolve kept_sweepStop : keeps.
Lemma kept_HandleOrderUpdate r : kept (HandleOrderUpdate r).
Proof. unfold HandleOrderUpdate. keeps_auto. Qed.
Lemma kept_run_task t :
  (∀ k id m sig a, t = TaskPoll k id m (DoneBuy sig) a → ∀ id' f, kept (onBuySettled sig id' f)) → kept (run_task t).
Proof.
  intros Hbuy. destruct t as [k id m d a|sig n|k id]; cbn [run_task]; [|keeps_auto|keeps_auto].
  generalize (asyncPollTries + asyncSlowTries)%nat. intros tries.
  seq; [|intros _; apply keeps_ret, _]. apply kept_poll_loop. intros id' f.
  destruct d as [sig|sig o]; cbn [poll_done]; [by eapply Hbuy|keeps_auto].
Qed.
Lemma kept_shrinkTo t h : kept (shrinkTo t h).
Proof. unfold shrinkTo, entry, GetLTP. keeps_auto. Qed.
#[local] Hint Resolve kept_shrinkTo : keeps.
Lemma kept_fix_loop prev mm seen res : kept (fix_loop prev mm seen res).
Proof. revert seen res. induction mm as [|m mm IH]; intros seen res; simpl; keeps_auto. Qed.
#[local] Hint Resolve kept_fix_loop : keeps.
Lemma kept_ReconcilePositions : kept ReconcilePositions.
Proof.
  unfold ReconcilePositions, read_positions. seq; [apply keeps_gets, _|intros [live entries]].
  destruct (expected_of entries) as [expected settling]. destruct (negb live); [apply keeps_ret, _|].
  seq; [keeps_auto|intros b]. apply keeps_ret, _.
Qed.
#[local] Hint Resolve kept_ReconcilePositions : keeps.
Lemma kept_ReconcileAndFix : kept ReconcileAndFix.
Proof. unfold ReconcileAndFix. keeps_auto. Qed.
End frame_background.
#[export] Hint Resolve kept_sell kept_sendDeferredExit : keeps.

Section frame_signals.
Context {L : Type} {LO : OrderLedger L} {E : Env L} {MO : MapOrder} (R : World L → World L → Prop) {FR : FrameUpdates R}.
Notation kept := (keeps (L := L) R).

Lemma kept_route_exit k live e : kept (route_exit k live e).
Proof. unfold route_exit. keeps_auto. Qed.
Lemma kept_resolveInstrument sig d : kept (resolveInstrument sig d).
Proof. unfold resolveInstrument. keeps_auto. Qed.
Lemma kept_real_entry_guards sig : kept (real_entry_guards sig).
Proof. unfold real_entry_guards. keeps_auto. Qed.
End frame_signals.
#[export] Hint Resolve kept_route_exit kept_resolveInstrument kept_real_entry_guards : keeps.

(** ** Guarded properties of the state
    [n0] is the answer counter from which on the environment is trusted to
    keep [J]: the moment the operation holds its position's lock.  [Steady]:
    [J] survives changes that leave every position there. *)
Class Steady {L} {E : Env L} (n0 : nat) (J : Exec L → Prop) := {
  st_same : ∀ x x', same_positions x x' → J x → J x';
  st_other : ∀ n x, (n0 ≤ n)%nat → J x → J (env_other n x);
  st_update : ∀ k fn x, (∀ r, identity (fn r) = identity r) → J x → J (on_entries (update_at k fn) x);
  st_spawn : ∀ t x, is_retry t = false → J x → J (on_tasks (λ ts, ts ++ [t]) x);
}.

(** [Stable]: also the closing of positions and the scheduling of exits. *)
Class Stable {L} {E : Env L} (n0 : nat) (J : Exec L → Prop) := {
  #[export] st_steady :: Steady n0 J;
  st_delete : ∀ k x, J x → J (on_inst (delete k) (on_entries (delete k) x));
  st_forget : ∀ k x, J x → J (on_retries (delete k) x);
  st_schedule : ∀ sig x, J x → let n := default 0 (ex_retries x !! positionKey sig) in n < 4 →
    J (on_tasks (λ ts, ts ++ [TaskExitRetry sig (n +! 1)]) (on_retries <[positionKey sig := n +! 1]> x));
}.

Definition guarded {L} (n0 : nat) (J : Exec L → Prop) (w w' : World L) : Prop :=
  (n0 ≤ w_n w)%nat → J (w_ex w) → (n0 ≤ w_n w')%nat ∧ J (w_ex w').

#[export] Instance guarded_preorder {L} n0 J : PreOrder (@guarded L n0 J).
Proof.
  split; [by intros w ??|]. intros w1 w2 w3 H12 H23 Hn HJ. destruct (H12 Hn HJ). by apply H23.
Qed.

(** What is read from the state holds of the state that goes on. *)
Lemma guarded_gets {L A B} n0 (J : Exec L → Prop) (g : Exec L → A) (f : A → M L B) :
  (∀ w, (n0 ≤ w_n w)%nat → J (w_ex w) → guarded n0 J w (f (g (w_ex w)) w).2) →
  keeps (guarded n0 J) (do x ← gets g; f x).
Proof. intros Hf w Hn HJ. by apply (Hf w Hn HJ). Qed.

Section guarded.
Context {L : Type} {LO : OrderLedger L} {E : Env L} {MO : MapOrder} (n0 : nat) (J : Exec L → Prop).

Lemma guarded_modify f : (∀ x, J x → J (f x)) → keeps (guarded n0 J) (modify f).
Proof. intros Hf w Hn HJ. split; [done|]. by apply Hf. Qed.

#[export] Instance guarded_updates : Steady n0 J → FrameUpdates (guarded n0 J).
Proof.
  intros SJ. split; [split; [split|..]|..].
  - apply _.
  - intros f Hf. apply guarded_modify. intros x. apply st_same, Hf.
  - intros w Hn HJ. simpl. split; [lia|done].
  - intros w Hn HJ. simpl. split; [lia|]. by apply st_other.
  - by intros e _ w.
  - intros k id t. apply guarded_modify. intros x. by apply st_update.
  - by intros rec tr lim tag r w.
  - by intros f w.
  - intros k fn Hfn. apply guarded_modify. intros x. by apply st_update.
  - intros t Ht. apply guarded_modify. intros x. by apply st_spawn.
Qed.

#[export] Instance guarded_sells : Stable n0 J → FrameSells (guarded n0 J).
Proof.
  intros SJ. split; [split|].
  - apply _.
  - intros sig w Hn HJ. split; [done|]. simpl. set (k := positionKey sig).
    change (J (on_retries (delete k) (on_inst (delete k) (on_entries (delete k) (w_ex w))))).
    by apply st_forget, st_delete.
  - intros sig w Hn HJ. unfold scheduleExitRetry, gets, mbind, M_bind.
    change (Z.of_nat (length exitRetryDelays)) with 4.
    destruct (4 <=? _) eqn:Hlim; [done|]. simpl. split; [done|]. apply st_schedule; [done|]. lia.
  - by intros s t p q tag r w.
Qed.
End guarded.

(** What [storeEntry] leaves behind. *)
Definition stored {L} (k : string) (rec : OrderRecord) (x : Exec L) : Exec L :=
  on_entries <[k := rec]> (on_inst <[k := {| fi_Token := r_Token rec; fi_Symbol := r_Symbol rec |}]> x).

Lemma guarded_storeEntry {L} n0 (J : Exec L → Prop) sig rec :
  (∀ rec' x, identity rec' = identity rec → J x → J (stored (positionKey sig) rec' x)) →
  keeps (L := L) (guarded n0 J) (storeEntry sig rec).
Proof. intros Hst w Hn HJ. split; [done|]. unfold storeEntry. case_match; by apply Hst. Qed.

(** While a position's lock is held, no other goroutine touches it. *)
Definition lock_held {L} {E : Env L} (n0 : nat) (k : string) : Prop := ∀ n (x : Exec L), (n0 ≤ n)%nat →
  ex_entries (env_other n x) !! k = ex_entries x !! k ∧ ex_inst (env_other n x) !! k = ex_inst x !! k ∧
  ex_inflight (env_other n x) !! k = ex_inflight x !! k.

Lemma update_at_lookup k fn m k' :
  update_at k fn m !! k' = if decide (k' = k) then fn <$> m !! k else m !! k'.
Proof.
  unfold update_at. case_decide as Hk; [subst k'|].
  - destruct (m !! k) eqn:Hm; [by rewrite lookup_insert_eq|done].
  - destruct (m !! k); [by rewrite lookup_insert_ne|done].
Qed.

(** [J], with a record of the given identity at [k]. *)
Definition with_entry {L} (J : Exec L → Prop) (k : string) (r0 : OrderRecord) (x : Exec L) : Prop :=
  J x ∧ ∃ r, ex_entries x !! k = Some r ∧ identity r = identity r0.

#[export] Instance with_entry_steady {L} {E : Env L} n0 J k r0 :
  Steady n0 J → lock_held n0 k → Steady n0 (with_entry J k r0).
Proof.
  intros SJ Hk. split.
  - intros x x' Hx [HJ Hr]. pose proof Hx as (He & _). split; [by apply (st_same x x')|]. by rewrite He.
  - intros n x Hn [HJ Hr]. split; [by apply st_other|]. by destruct (Hk n x Hn) as (-> & _).
  - intros k' fn x Hfn [HJ (r & Hr & Hid)]. split; [by apply st_update|]. simpl. rewrite update_at_lookup.
    case_decide; subst; rewrite Hr; simpl; eexists; split; try done. by rewrite Hfn.
  - intros t x Ht [HJ Hr]. split; [by apply st_spawn|done].
Qed.

Section guarded_settlement.
Context {L : Type} {LO : OrderLedger L} {E : Env L} {MO : MapOrder} (n0 : nat) (J : Exec L → Prop) {SJ : Stable n0 J}.
Notation kept := (keeps (L := L) (guarded n0 J)).

(** [J] survives storing a record of the same identity. *)
Definition reopens : Prop := ∀ k r rec x,
  J x → ex_entries x !! k = Some r → identity rec = identity r → J (stored k rec x).

Lemma guarded_onBuySettled sig id f : reopens → lock_held n0 (positionKey sig) → kept (onBuySettled sig id f).
Proof.
  intros Hre Hk. unfold onBuySettled, entry. apply guarded_gets. intros w Hn HJ.
  destruct (ex_entries (w_ex w) !! positionKey sig) as [cur|] eqn:Hcur; [|by apply fr_log].
  pose proof (filledEntry_identity cur f) as Hid. destruct (filledEntry cur f) as [rec filled]. simpl in Hid.
  destruct filled; [|apply (kept_dropEntry (guarded n0 J))]. cbn [negb].
  assert (Steady n0 (with_entry J (positionKey sig) rec)) as SJ2 by (apply with_entry_steady; [apply _|done]).
  unfold mbind at 1, M_bind at 1.
  assert (guarded n0 (with_entry J (positionKey sig) rec) w (commitEntry sig (set_OrderID id rec) w).2) as Hc.
  { apply kept_commitEntry; [apply _|]. intros rec1 Hid1. apply guarded_storeEntry.
    intros rec' x Hid' [HJx (r & Hr & Hidr)]. split.
    - apply (Hre _ r); [done|done|]. rewrite Hid', Hid1, Hidr. done.
    - exists rec'. simpl. rewrite lookup_insert_eq. split; [done|]. by rewrite Hid', Hid1. }
  destruct Hc as [Hn1 [HJ1 _]]; [done|split; [done|exists cur; split; congruence]|].
  destruct (commitEntry _ _ w) as [[] w1]. simpl in Hn1, HJ1. intros _ _. revert w1 Hn1 HJ1.
  change (kept (reportFill sig "BUY" (r_Price (set_OrderID id rec)) (r_Quantity (set_OrderID id rec)) true ;;
    when (r_ExitRequested (set_OrderID id rec)) (sendDeferredExit sig))). keeps_auto.
Qed.

(** The key a task's settlement works on. *)
Definition settles (t : Task) : option string :=
  match t with TaskPoll _ _ _ (DoneBuy sig) _ => Some (positionKey sig) | _ => None end.

Lemma guarded_run_task t : reopens → (∀ k, settles t = Some k → lock_held n0 k) → kept (run_task t).
Proof.
  intros Hre Hk. apply kept_run_task; framed. intros k id m sig a -> id' f. apply guarded_onBuySettled; [done|]. by apply Hk.
Qed.
End guarded_settlement.
