(* ===== verification/ExecInvariant.v ===== *)
(** The invariant of the order executor: mutual exclusion of opposite-side
    positions, entries locked to their contracts, legs on paper, exit retries
    within their schedule.  Every operation of internal/orderexec keeps it,
    whatever the broker answers and whatever the other goroutines do, as long
    as they keep it too and leave alone the position whose lock is held. *)
From S2P Require Import Prelude GoText Model Errors Fill RateLimiter Underlying Positions Oms CircuitBreaker Exec Placement ExecOps Executor Settlement Signals ExecFrame.
#[local] Open Scope Z_scope.
#[local] Open Scope go_scope.

Section invariant.
Context {L : Type} {LO : OrderLedger L} {E : Env L} {MO : MapOrder}.

(** ** What the positions claim *)

Definition claim_of (r : OrderRecord) : inflightBuy :=
  {| ib_strategy := r_StrategyName r; ib_side := r_PositionSide r; ib_real := r_Real r |}.

(** A directional position held, pending or being entered under a key. *)
Definition claimed (x : Exec L) (k : string) (c : inflightBuy) : Prop :=
  ex_inflight x !! k = Some c ∨ ∃ r, ex_entries x !! k = Some r ∧ r_Leg r = "" ∧ claim_of r = c.

(** Two claims that must not coexist: opposite sides of one strategy, or two
    real ones on the same underlying. *)
Definition conflict (a b : inflightBuy) : Prop :=
  ib_side a = opposite (ib_side b) ∧ ib_side b = opposite (ib_side a) ∧
  (ib_strategy a = ib_strategy b ∨
   ib_real a = true ∧ ib_real b = true ∧
   underlyingOfStrategy env_getenv (ib_strategy a) = underlyingOfStrategy env_getenv (ib_strategy b)).

Definition rec_key (r : OrderRecord) : string :=
  if negb (String.eqb (r_Leg r) "")
  then r_StrategyName r +:+ "|" +:+ r_PositionSide r +:+ "|" +:+ r_Leg r
  else r_StrategyName r +:+ "|" +:+ r_PositionSide r.

Record exec_inv (x : Exec L) : Prop := {
  inv_exclusive : ∀ k1 k2 c1 c2, claimed x k1 c1 → claimed x k2 c2 → ¬ conflict c1 c2;
  inv_contract : ∀ k r, ex_entries x !! k = Some r →
    ex_inst x !! k = Some {| fi_Token := r_Token r; fi_Symbol := r_Symbol r |};
  inv_key : ∀ k r, ex_entries x !! k = Some r → k = rec_key r;
  inv_legs : ∀ k r, ex_entries x !! k = Some r → r_Leg r ≠ "" → r_Real r = false;
  inv_retries : ∀ k n, ex_retries x !! k = Some n → 1 ≤ n ≤ 4;
  inv_tasks : ∀ sig n, TaskExitRetry sig n ∈ ex_tasks x → 1 ≤ n ≤ 4;
}.

Lemma identity_same r r' : identity r' = identity r →
  claim_of r' = claim_of r ∧ r_Leg r' = r_Leg r ∧ r_Token r' = r_Token r ∧ r_Symbol r' = r_Symbol r ∧
  rec_key r' = rec_key r ∧ r_Real r' = r_Real r.
Proof. unfold identity, claim_of, rec_key. intros [= -> -> -> -> -> ->]. done. Qed.

Lemma conflict_irrefl c : ¬ conflict c c.
Proof.
  intros (H & _ & _). unfold opposite in H. destruct (String.eqb_spec (ib_side c) SideCall) as [Hs|Hs]; [rewrite Hs in H; discriminate|congruence].
Qed.

(** Fewer claims, the same rules. *)
Lemma exec_inv_fewer x x' :
  (∀ k r, ex_entries x' !! k = Some r → ∃ r0, ex_entries x !! k = Some r0 ∧ identity r = identity r0) →
  (∀ k c, ex_inflight x' !! k = Some c → ex_inflight x !! k = Some c) →
  (∀ k r, ex_entries x' !! k = Some r → ex_inst x' !! k = ex_inst x !! k) →
  (∀ k n, ex_retries x' !! k = Some n → ex_retries x !! k = Some n) →
  (∀ t, is_retry t = true → t ∈ ex_tasks x' → t ∈ ex_tasks x) →
  exec_inv x → exec_inv x'.
Proof.
  intros He Hf Hi Hr Ht Hx.
  assert (∀ k c, claimed x' k c → claimed x k c) as Hc.
  { intros k c [Hk|(r & Hk & Hleg & <-)]; [left; auto|]. destruct (He k r Hk) as (r0 & Hk0 & Hid).
    apply identity_same in Hid as (-> & Hleg0 & _). right. exists r0. repeat split; congruence. }
  split.
  - intros k1 k2 c1 c2 H1 H2. eapply inv_exclusive; eauto.
  - intros k r Hk. rewrite (Hi k r Hk). destruct (He k r Hk) as (r0 & Hk0 & Hid).
    apply identity_same in Hid as (_ & _ & -> & -> & _). by apply inv_contract.
  - intros k r Hk. destruct (He k r Hk) as (r0 & Hk0 & Hid).
    apply identity_same in Hid as (_ & _ & _ & _ & -> & _). by eapply inv_key.
  - intros k r Hk. destruct (He k r Hk) as (r0 & Hk0 & Hid).
    apply identity_same in Hid as (_ & -> & _ & _ & _ & ->). by eapply inv_legs.
  - intros k n Hk. eapply inv_retries; eauto.
  - intros sig n Hn. apply (inv_tasks x Hx sig). by apply Ht.
Qed.

(** The other goroutines keep the invariant. *)
Definition others_keep : Prop := ∀ n (x : Exec L), exec_inv x → exec_inv (env_other n x).

#[export] Instance exec_inv_steady n0 : others_keep → Steady n0 exec_inv.
Proof.
  intros Ho. split.
  - intros x x' (He & Hi & Hf & Hr & Ht). apply exec_inv_fewer; rewrite ?He, ?Hi, ?Hf, ?Hr, ?Ht; eauto.
  - intros n x _. apply Ho.
  - intros k fn x Hfn. apply exec_inv_fewer; simpl; eauto. intros k' r. rewrite update_at_lookup. case_decide; subst; [|eauto].
    destruct (ex_entries x !! k); [|done]. intros [= <-]. eauto.
  - intros t x Ht. apply exec_inv_fewer; simpl; eauto. intros t' Ht' [?|Hin]%elem_of_app; [done|].
    apply list_elem_of_singleton in Hin as ->. congruence.
Qed.

#[export] Instance exec_inv_stable n0 : others_keep → Stable n0 exec_inv.
Proof.
  intros Ho. split; [by apply exec_inv_steady|..].
  - intros k x. apply exec_inv_fewer; simpl; eauto.
    + intros k' r. rewrite lookup_delete_Some. naive_solver.
    + intros k' r. rewrite lookup_delete_Some. intros [Hne _]. by rewrite lookup_delete_ne.
  - intros k x. apply exec_inv_fewer; simpl; eauto. intros k' n. rewrite lookup_delete_Some. naive_solver.
  - intros sig x Hx n Hn.
    assert (0 ≤ n) as Hn0.
    { subst n. destruct (ex_retries x !! positionKey sig) as [n|] eqn:Hk; simpl; [|lia].
      apply (inv_retries x Hx) in Hk. lia. }
    assert (n +! 1 = n + 1) as Hn1 by (apply i64_id; i64_unfold; lia).
    assert (exec_inv (on_retries (λ _, ∅) (on_tasks (λ _, []) x))) as Hbase.
    { revert Hx. apply exec_inv_fewer; simpl; eauto; [|set_solver]. intros k m. by rewrite lookup_empty. }
    destruct Hbase. split; simpl in *; eauto.
    + intros k m. destruct (decide (k = positionKey sig)) as [->|Hne].
      * rewrite lookup_insert_eq. intros [= <-]. lia.
      * rewrite lookup_insert_ne by done. apply (inv_retries x Hx).
    + intros sig' m [Hin|Hin]%elem_of_app; [by eapply (inv_tasks x Hx)|].
      apply list_elem_of_singleton in Hin. simplify_eq. lia.
Qed.

(** ** Opening positions *)

Lemma stored_inv k rec x :
  exec_inv x → k = rec_key rec →
  (if String.eqb (r_Leg rec) "" then claimed x k (claim_of rec) else r_Real rec = false) →
  exec_inv (stored k rec x).
Proof.
  intros Hx Hkey Hclaim.
  assert (∀ k' c, claimed (stored k rec x) k' c → claimed x k' c) as Hc.
  { intros k' c [Hk|(r & Hk & Hleg & Hc)]; [by left|]. simpl in Hk. destruct (decide (k' = k)) as [->|Hne].
    - rewrite lookup_insert_eq in Hk. simplify_eq. by rewrite Hleg in Hclaim.
    - rewrite lookup_insert_ne in Hk by done. right. eauto. }
  destruct Hx as [H1 H2 H3 H4 H5 H6]. split; simpl; auto.
  - intros k1 k2 c1 c2 Hc1 Hc2. eapply H1; eauto.
  - intros k' r. destruct (decide (k' = k)) as [->|Hne].
    + rewrite !lookup_insert_eq. by intros [= ->].
    + rewrite !lookup_insert_ne by done. apply H2.
  - intros k' r. destruct (decide (k' = k)) as [->|Hne].
    + rewrite lookup_insert_eq. congruence.
    + rewrite lookup_insert_ne by done. apply H3.
  - intros k' r. destruct (decide (k' = k)) as [->|Hne].
    + rewrite lookup_insert_eq. intros [= <-] Hleg. by destruct (String.eqb_spec (r_Leg rec) "").
    + rewrite lookup_insert_ne by done. apply H4.
Qed.

Lemma exec_inv_reopens : reopens exec_inv.
Proof.
  intros k r rec x Hx Hk Hid. apply identity_same in Hid as (Hc & Hleg & _ & _ & Hkey & Hreal).
  apply stored_inv; [done|rewrite Hkey; by eapply inv_key|]. rewrite Hleg, Hreal, Hc.
  destruct (String.eqb_spec (r_Leg r) ""); [right; eauto|by eapply inv_legs].
Qed.

(** The claim of an entry signal. *)
Definition claim_for (sig : Signal) (real : bool) : inflightBuy :=
  {| ib_strategy := sig_StrategyName sig; ib_side := sig_Side sig; ib_real := real |}.

(** The position is reserved for the signal. *)
Definition reserved (sig : Signal) (real : bool) (x : Exec L) : Prop :=
  exec_inv x ∧ ex_inflight x !! positionKey sig = Some (claim_for sig real).

#[export] Instance reserved_stable n0 sig real :
  others_keep → lock_held n0 (positionKey sig) → Stable n0 (reserved sig real).
Proof.
  intros Ho Hk. assert (Stable n0 exec_inv) as SI by by apply exec_inv_stable.
  split; [split|..].
  - intros x x' Hx [HJ Hr]. pose proof Hx as (_ & _ & He & _). split; [by apply (st_same x x')|]. by rewrite He.
  - intros n x Hn [HJ Hr]. split; [by apply st_other|]. by destruct (Hk n x Hn) as (_ & _ & ->).
  - intros k fn x Hfn [HJ Hr]. split; [by apply st_update|done].
  - intros t x Ht [HJ Hr]. split; [by apply st_spawn|done].
  - intros k x [HJ Hr]. split; [by apply st_delete|done].
  - intros k x [HJ Hr]. split; [by apply st_forget|done].
  - intros s x [HJ Hr] n Hn. split; [by apply st_schedule|done].
Qed.

Lemma opened_key sig real rec : sig_Leg sig = "" → opened_by sig real rec → positionKey sig = rec_key rec.
Proof.
  intros Hleg (Hs & Hside & Hl & _). unfold positionKey, rec_key. by rewrite Hs, Hside, Hl, Hleg.
Qed.

Lemma reserved_stored sig real rec x :
  sig_Leg sig = "" → opened_by sig real rec → reserved sig real x → reserved sig real (stored (positionKey sig) rec x).
Proof.
  intros Hleg Hop [Hx Hr]. split; [|done]. pose proof (opened_key sig real rec Hleg Hop) as Hkey.
  apply stored_inv; [done|done|]. destruct Hop as (Hs & Hside & Hl & Hreal). rewrite Hl. left.
  unfold claim_of. by rewrite Hs, Hside, Hreal.
Qed.

Lemma existsb_range {A} (f : string * A → bool) (m : gmap string A) k v :
  existsb f (range m) = false → m !! k = Some v → f (k, v) = false.
Proof.
  intros Hf Hk. apply not_true_iff_false. intros Ht. apply not_true_iff_false in Hf. apply Hf.
  apply existsb_exists. exists (k, v). split; [|done]. apply list_elem_of_In. by apply elem_of_range.
Qed.

(** The gate lets nothing in that conflicts. *)
Lemma gate_no_conflict sig real x k c :
  oppositeConflict sig real x = false → claimed x k c → ¬ conflict c (claim_for sig real).
Proof.
  intros Hg Hc (Hside & _ & Hsame). unfold oppositeConflict in Hg. apply orb_false_iff in Hg as [Hge Hgi].
  simpl in Hside, Hsame. destruct Hc as [Hk|(r & Hk & Hleg & <-)].
  - apply (existsb_range _ _ _ _ Hgi) in Hk. simpl in Hk. rewrite Hside, String.eqb_refl in Hk. simpl in Hk.
    apply orb_false_iff in Hk as [Hs Hu]. apply String.eqb_neq in Hs.
    destruct Hsame as [|(Hr1 & Hr2 & Hund)]; [done|]. by rewrite Hr1, Hr2, Hund, String.eqb_refl in Hu.
  - apply (existsb_range _ _ _ _ Hge) in Hk. simpl in Hk, Hside, Hsame.
    rewrite Hleg, Hside, !String.eqb_refl in Hk. simpl in Hk.
    apply orb_false_iff in Hk as [Hs Hu]. apply String.eqb_neq in Hs.
    destruct Hsame as [|(Hr1 & Hr2 & Hund)]; [done|]. by rewrite Hr1, Hr2, Hund, String.eqb_refl in Hu.
Qed.

Lemma conflict_sym a b : conflict a b → conflict b a.
Proof. unfold conflict. intuition. Qed.

Lemma reserve_inv sig real x :
  exec_inv x → oppositeConflict sig real x = false →
  reserved sig real (on_inflight <[positionKey sig := claim_for sig real]> x).
Proof.
  intros Hx Hg. split; [|simpl; by rewrite lookup_insert_eq].
  assert (∀ k c, claimed (on_inflight <[positionKey sig := claim_for sig real]> x) k c →
                 claimed x k c ∨ c = claim_for sig real) as Hc.
  { intros k c [Hk|Hk]; [|left; by right]. simpl in Hk. destruct (decide (k = positionKey sig)) as [->|Hne].
    - rewrite lookup_insert_eq in Hk. right. congruence.
    - rewrite lookup_insert_ne in Hk by done. left. by left. }
  split; simpl; try apply Hx.
  intros k1 k2 c1 c2 [H1| ->]%Hc [H2| ->]%Hc.
  - by eapply inv_exclusive.
  - by eapply gate_no_conflict.
  - intros Hcf. apply conflict_sym in Hcf. by eapply (gate_no_conflict _ _ _ _ _ Hg).
  - apply conflict_irrefl.
Qed.

(** ** ExecuteSignal *)

Section guards.
Context (n0 : nat) (J : Exec L → Prop) {SJ : Stable n0 J}.
Notation kept := (keeps (L := L) (guarded n0 J)).

(** [J] survives the opening of [sig]'s position. *)
Definition survives (sig : Signal) (real : bool) : Prop :=
  ∀ rec x, opened_by sig real rec → J x → J (stored (positionKey sig) rec x).

Lemma survives_opens sig : survives sig true → opens (guarded n0 J) sig.
Proof.
  intros Hs rec Hrec. apply guarded_storeEntry. intros rec' x Hid. apply Hs. by eapply opened_by_identity.
Qed.

Lemma kept_executePaper sig d t s p key :
  (d ≠ "BUY" ∨ survives sig false) → sig_Leg sig = "" → kept (executePaper sig (positionKey sig) d t s p key).
Proof.
  intros Hop Hleg. unfold executePaper.
  seq; [keeps_auto|intros t1]. seq; [keeps_auto|intros qty].
  seq; [keeps_auto|intros ltp]. destruct (String.eqb_spec d "BUY") as [->|Hd].
  - destruct Hop as [|Hop]; [done|]. intros w. set (w1 := (setPositionInstrument sig t s w).2).
    intros Hn HJ. unfold mbind at 1 2 3, M_bind at 1 2 3. simpl.
    match goal with |- context [reportFill _ _ _ _ _ ?w'] => pose proof (kept_reportFill (guarded n0 J) sig "BUY" ltp qty false w') as Hr end.
    apply Hr; simpl; [lia|].
    match goal with |- J (on_entries <[_ := ?r]> _) => exact (Hop r (w_ex w) ltac:(by repeat split) HJ) end.
  - seq; [apply keeps_gets, _|intros e]. intros w.
    unfold mbind, M_bind, modify, clearPositionInstrument. simpl.
    set (w1 := Build_World _ _ _). assert (guarded n0 J w w1) as H1.
    { intros Hn HJ. split; [done|]. simpl. by apply st_delete. }
    etrans; [exact H1|]. clearbody w1. clear H1. destruct e; [by apply (kept_reportFill (guarded n0 J))|done].
Qed.

Lemma kept_dispatch sig d t s key real e :
  (d = "SELL" ∨ d = "BUY" ∧ survives sig real) → sig_Leg sig = "" → kept (dispatch sig (positionKey sig) d t s key real e).
Proof.
  intros Hop Hleg. unfold dispatch.
  seq; [keeps_auto|intros go]. destruct (negb go); [keeps_auto|].
  seq; [unfold GetLTP; keeps_auto|intros ltp]. destruct real; cbn [negb].
  - destruct Hop as [->|[-> Hop]]; cbn [String.eqb Ascii.eqb Bool.eqb]; [keeps_auto|].
    assert (∀ lt q, kept (executeReal sig (positionKey sig) "BUY" t s lt q key)) as Hbuy.
    { intros lt q. apply kept_executeReal; framed; [by right; apply survives_opens|]. by intros ** w. }
    keeps_auto.
  - apply kept_executePaper; [|done]. destruct Hop as [->|[-> Hop]]; [by left|by right].
Qed.
End guards.

Lemma kept_execute_locked n0 sig isBuy :
  others_keep → lock_held n0 (positionKey sig) → sig_Leg sig = "" →
  keeps (guarded n0 exec_inv) (execute_locked sig isBuy).
Proof.
  intros Ho Hk Hleg. assert (Stable n0 exec_inv) as SI by by apply exec_inv_stable.
  unfold execute_locked, execute_routed, liveSession, entry.
  seq; [keeps_auto|intros live]. seq; [keeps_auto|intros e].
  seq; [keeps_auto|intros [sendReal|]]; [|keeps_auto].
  seq; [keeps_auto|intros [[t s]|]]; [|keeps_auto].
  seq; [keeps_auto|intros key].
  destruct isBuy; [|by apply kept_dispatch; [apply _|left|]].
  unfold position_gate. intros w. unfold mbind, M_bind, gets, modify.
  destruct (orb (orb (bool_decide (is_Some e)) (bool_decide (is_Some (ex_inst (w_ex w) !! positionKey sig)))) (oppositeConflict sig sendReal (w_ex w))) eqn:Hg; [done|]. apply orb_false_iff in Hg as [_ Hg].
  cbn [negb mret M_ret]. intros Hn HJ.
  assert (Stable n0 (reserved sig sendReal)) as SR by by apply reserved_stable.
  assert (keeps (guarded n0 (reserved sig sendReal)) (dispatch sig (positionKey sig) "BUY" t s key sendReal e)) as Hd.
  { apply kept_dispatch; [done| |done]. right. split; [done|]. intros rec x. by apply reserved_stored. }
  match goal with |- context [dispatch _ _ _ _ _ _ _ _ ?w'] => specialize (Hd w'); destruct (dispatch _ _ _ _ _ _ _ _ w') as [[] w2] end.
  destruct Hd as [Hn2 [HJ2 _]]; [done|by apply reserve_inv|]. simpl in *. split; [done|].
  revert HJ2. apply exec_inv_fewer; simpl; eauto. intros k c. rewrite lookup_delete_Some. naive_solver.
Qed.

Lemma kept_executeLegPaper n0 sig :
  others_keep → sig_Leg sig ≠ "" → keeps (guarded n0 exec_inv) (executeLegPaper sig).
Proof.
  intros Ho Hleg. assert (Stable n0 exec_inv) as SI by by apply exec_inv_stable.
  unfold executeLegPaper, entry, GetLTP. destruct (_ && _); [keeps_auto|].
  destruct (String.eqb (sig_Action sig) ActionExit || _).
  - keeps_auto. all: apply guarded_modify; intros y; apply st_delete.
  - destruct (String.eqb (sig_Action sig) ActionBuy); [|keeps_auto].
    keeps_auto. all: apply guarded_modify; intros y Hy.
    all: match goal with |- exec_inv (on_entries <[?k := ?r]> _) => apply (stored_inv k r y Hy) end; simpl.
    all: apply String.eqb_neq in Hleg; unfold positionKey, rec_key; simpl; by rewrite Hleg.
Qed.

(** ** All operations *)

(** What the rest of the program calls on the executor, and what its own
    goroutines do. *)
Inductive Op :=
  | OpSignal (sig : Signal)
  | OpTask (t : Task)
  | OpUpdate (r : row)
  | OpSweep
  | OpResume
  | OpReconcile
  | OpTick (t : Tick)
  | OpMargin
  | OpRefresh
  | OpLedger (l : L).

Definition run_op (op : Op) : M L () :=
  match op with
  | OpSignal sig => ExecuteSignal sig
  | OpTask t => run_task t
  | OpUpdate r => HandleOrderUpdate r
  | OpSweep => SweepProtection
  | OpResume => ResumeSettlement
  | OpReconcile => ReconcileAndFix ;; mret ()
  | OpTick t => UpdateLTP t
  | OpMargin => RefreshMargin ;; mret ()
  | OpRefresh => RefreshSession ;; mret ()
  | OpLedger l => SetOrderLedger l
  end.

(** The other goroutines leave alone the position an operation opens, from
    the moment it holds the lock. *)
Definition locks (op : Op) (w : World L) : Prop :=
  match op with
  | OpSignal sig => lock_held (S (w_n w)) (positionKey sig)
  | OpTask t => ∀ k, settles t = Some k → lock_held (w_n w) k
  | _ => True
  end.

Lemma ExecuteSignal_inv sig w :
  others_keep → lock_held (S (w_n w)) (positionKey sig) → exec_inv (w_ex w) → exec_inv (w_ex (ExecuteSignal sig w).2).
Proof.
  intros Ho Hk Hx. unfold ExecuteSignal. destruct (String.eqb_spec (sig_Leg sig) "") as [Hleg|Hleg]; cbn [negb].
  - destruct (_ && _); [done|]. destruct (_ && _); [done|].
    apply (kept_execute_locked (S (w_n w)) sig (String.eqb (sig_Action sig) ActionBuy) Ho Hk Hleg (others w).2);
      [simpl; lia|by apply Ho].
  - by apply (kept_executeLegPaper (w_n w) sig Ho Hleg w).
Qed.

Lemma run_op_inv op w :
  others_keep → locks op w → exec_inv (w_ex w) → exec_inv (w_ex (run_op op w).2).
Proof.
  intros Ho Hk Hx. assert (Stable (w_n w) exec_inv) as SI by by apply exec_inv_stable.
  assert (∀ (m : M L ()), keeps (guarded (w_n w) exec_inv) m → exec_inv (w_ex (m w).2)) as Hm.
  { intros m Hm. by apply (Hm w). }
  destruct op; simpl in Hk; cbn [run_op].
  - by apply ExecuteSignal_inv.
  - apply Hm, guarded_run_task; [done|apply exec_inv_reopens|done].
  - apply Hm, kept_HandleOrderUpdate, _.
  - apply Hm, kept_SweepProtection, _.
  - apply Hm, kept_ResumeSettlement, _.
  - apply Hm. seq; [apply kept_ReconcileAndFix, _|intros; apply keeps_ret, _].
  - apply Hm. unfold UpdateLTP. keeps_auto.
  - apply Hm. unfold RefreshMargin, liveSession. keeps_auto.
  - apply Hm. keeps_auto.
  - apply Hm. unfold SetOrderLedger. keeps_auto.
Qed.

(** The states the program can reach: a new executor, any operation, other
    goroutines, a restart from a snapshot. *)
Inductive reachable : World L → Prop :=
  | reach_new c managed login tr n : reachable {| w_ex := new_executor c managed login; w_tr := tr; w_n := n |}
  | reach_op w op : reachable w → locks op w → reachable (run_op op w).2
  | reach_others w : reachable w → reachable (others w).2
  | reach_restart w c managed login :
      reachable w →
      reachable (Restore (Snapshot (w_ex w)) {| w_ex := new_executor c managed login; w_tr := w_tr w; w_n := w_n w |}).2.

(** C1: In every reachable state, whatever the broker answered and however
    the goroutines interleaved: no two positions held, pending or being
    entered conflict (opposite sides of one strategy, or two real ones on the
    same underlying); every entry is locked to its own contract; a leg is
    never real; automatic exits stay within their four tries. *)
Theorem executor_invariant w : others_keep → reachable w → exec_inv (w_ex w).
Proof.
  intros Ho Hw. induction Hw as [c m l tr n|w op Hw IH Hk|w Hw IH|w c m l Hw IH]; simpl.
  - split; simpl; intros *; rewrite ?lookup_empty; try done; [|set_solver].
    intros [H|(r & H & _)]; simpl in H; by rewrite lookup_empty in H.
  - by apply run_op_inv.
  - by apply Ho.
  - revert IH. apply exec_inv_fewer; simpl; eauto; [| |set_solver]; intros *; by rewrite lookup_empty.
Qed.
End invariant.

(** A live run: the CALL is bought and fills; the PUT of the same strategy is
    then refused. *)
Definition signal_of (action side : string) : Signal := {|
  sig_StrategyName := "NIFTY50_SR"; sig_Action := action; sig_Side := side; sig_Token := "99926000";
  sig_Exchange := "NSE"; sig_Price := 2450000; sig_Reason := "test"; sig_Leg := ""; sig_FNOToken := "";
  sig_FNOSymbol := ""; sig_Short := false;
  sig_ReverseTo := ""; sig_Qty := 0; sig_EntryFNOPrice := 0; sig_MarketState := ""; sig_Warnings := [];
  sig_Legs := []; sig_Strike := 0; sig_Pick := ""; sig_PickAlt := ""; sig_TargetMove := 0;
  sig_SameDayExpiry := false;
  sig_SignalTS := 1784519990 * Second |}.

Definition filled_row : row :=
  [("orderid", AStr "ORD1"); ("orderstatus", AStr "complete"); ("status", AStr "complete");
   ("filledshares", AStr "75"); ("unfilledshares", AStr "0"); ("averageprice", ANum 12005 2); ("ordertag", AStr "T")].

Definition filling_env : Env (Ledger Journal) :=
  sample_env sample_cfg (λ _ _, inl "ORD1") (λ _, inl (book_of [filled_row])) (λ _, inl (book_of [])).
#[local] Existing Instance canonical_order.
#[local] Existing Instance filling_env.

Definition clean_ledger : Ledger Journal :=
  {| store := {| intents := ∅; order_events := []; faults := [] |}; book := empty_book |}.

Definition sample_tick : Tick := {|
  tick_Token := "43001"; tick_Exchange := "NFO"; tick_Price := 12000; tick_Qty := 0;
  tick_DayVolume := 0; tick_TickTS := 0; tick_EventTS := 0;
  tick_BestBid := 0; tick_BestAsk := 0; tick_OI := 0; tick_QuoteTS := zero_time |}.

(** A new live executor, its journal attached, a price for the CALL. *)
Definition start_world : World (Ledger Journal) :=
  (run_op (OpTick sample_tick) (run_op (OpLedger clean_ledger)
    {| w_ex := new_executor sample_cfg true false; w_tr := []; w_n := 0 |}).2).2.
Definition after_call := (run_op (OpSignal (signal_of ActionBuy SideCall)) start_world).2.
Definition after_put := (run_op (OpSignal (signal_of ActionBuy SidePut)) after_call).2.

Lemma filling_env_keeps : others_keep (L := Ledger Journal).
Proof. by intros n x. Qed.

Lemma filling_env_locks n0 k : lock_held (L := Ledger Journal) n0 k.
Proof. by intros n x. Qed.

Lemma executor_invariant_witness :
  reachable after_put ∧ exec_inv (w_ex after_put) ∧
  (r_Quantity <$> ex_entries (w_ex after_put) !! "NIFTY50_SR|CALL") = Some 75 ∧
  ex_entries (w_ex after_put) !! "NIFTY50_SR|PUT" = None.
Proof.
  assert (reachable after_put) as Hr.
  { apply reach_op; [apply reach_op; [apply reach_op; [apply reach_op; [apply reach_new|done]|done]|]|];
      apply filling_env_locks. }
  split; [done|]. split; [apply executor_invariant; [apply filling_env_keeps|done]|].
  split; vm_compute; reflexivity.
Defined.
