(* ===== verification/ExecSafety.v ===== *)
(** What the executor sends to the broker, and when (internal/orderexec):
    paper stays on paper, a real entry is recorded before it is sent, a
    retried exit never sells more than is held, and an exit of a real
    position is sent, with what its protective stop left to sell. *)
From S2P Require Import Prelude GoText Model Errors Fill RateLimiter Underlying Positions Oms CircuitBreaker Exec Placement ExecOps Executor Settlement Signals ExecFrame ExecInvariant.
#[local] Open Scope Z_scope.
#[local] Open Scope go_scope.

(** ** Events as a frame *)

Section adds_frames.
Context {L : Type} {LO : OrderLedger L} {E : Env L} {MO : MapOrder} (P : Ev → Prop).
Hypothesis P_quiet : ∀ e, quiet e → P e.

#[export] Instance adds_frame : Frame (L := L) (adds P).
Proof.
  split; [apply _| | | |].
  - intros f _. apply adds_modify.
  - apply adds_fresh.
  - apply adds_others.
  - intros e He. apply adds_log. auto.
Qed.

Hypothesis P_fill : ∀ f, P (EvFill f).
Hypothesis P_stop : ∀ rec trigger limit tag r, P (EvPlace (stop_params rec trigger limit tag) r).

#[export] Instance adds_exits : FrameExits (L := L) (adds P).
Proof.
  split; [split; [split; [apply _| |]| | |]| |].
  - intros **. apply adds_modify.
  - intros **. apply adds_log, P_stop.
  - intros **. apply adds_log, P_fill.
  - intros **. apply adds_modify.
  - intros **. apply adds_modify.
  - intros sig. unfold clearPositionInstrument. keeps_auto.
  - intros sig. unfold scheduleExitRetry. seq; [keeps_auto|intros n]. destruct (_ <=? n); keeps_auto.
Qed.

Lemma adds_opens sig : opens (L := L) (adds P) sig.
Proof. intros rec _. unfold storeEntry, setPositionInstrument. keeps_auto. Qed.

Hypothesis P_sell : ∀ s t price q tag r, P (EvPlace (buildOrderParams s t "SELL" price q tag) r).

#[export] Instance adds_sells : FrameSells (L := L) (adds P).
Proof. split; [apply _|]. intros *. apply adds_log, P_sell. Qed.
End adds_frames.

Lemma adds_all_frame {L} {LO : OrderLedger L} {E : Env L} {MO : MapOrder} : FrameSells (L := L) (adds (λ _, True)).
Proof. by apply adds_sells. Qed.

(** ** Paper stays on paper *)

Section paper.
Context {L : Type} {LO : OrderLedger L} {E : Env L} {MO : MapOrder}.

(** Reports of paper fills and alerts: nothing a broker or the journal sees. *)
Definition paper_event (e : Ev) : Prop :=
  match e with EvFill f => fr_Real f = false | EvAlert _ => True | _ => False end.
Notation on_paper := (keeps (L := L) (adds paper_event)).

Lemma paper_paperFill d t p : on_paper (paperFill d t p).
Proof. unfold paperFill. keeps_auto. Qed.
Lemma paper_key sig : on_paper (generateIdempotencyKey sig).
Proof. unfold generateIdempotencyKey. keeps_auto. Qed.
Lemma paper_qty s : on_paper (paperQtyFor s).
Proof. unfold paperQtyFor. keeps_auto. Qed.
Lemma paper_report sig d p q : on_paper (reportFill sig d p q false).
Proof. unfold reportFill. keeps_auto. Qed.
#[local] Hint Resolve paper_paperFill paper_key paper_qty paper_report : keeps.

Lemma paper_leg sig : on_paper (executeLegPaper sig).
Proof. unfold executeLegPaper, entry, GetLTP. keeps_auto. Qed.
Lemma paper_executePaper sig k d t s p key : on_paper (executePaper sig k d t s p key).
Proof. unfold executePaper, entry, setPositionInstrument, clearPositionInstrument. keeps_auto. Qed.
#[local] Hint Resolve paper_executePaper : keeps.
Lemma paper_dispatch sig k d t s key e : on_paper (dispatch sig k d t s key false e).
Proof. unfold dispatch, GetLTP. rewrite andb_false_r. cbn [negb]. keeps_auto. Qed.
Lemma paper_resolve sig d : on_paper (resolveInstrument sig d).
Proof. unfold resolveInstrument. keeps_auto. Qed.
Lemma paper_gate sig k h r : on_paper (position_gate sig k h r).
Proof. unfold position_gate. keeps_auto. Qed.
#[local] Hint Resolve paper_dispatch paper_resolve paper_gate : keeps.

Lemma paper_routed sig isBuy e : on_paper (execute_routed sig isBuy e false).
Proof. unfold execute_routed. keeps_auto. Qed.

(** May this signal send a real order, by the state at its lock? *)
Definition may_be_real (sig : Signal) (x : Exec L) : bool :=
  let live := ex_live x && ex_sessionOK x && ex_api x in
  String.eqb (sig_Leg sig) "" && live &&
  (if String.eqb (sig_Action sig) ActionBuy then IsRealStrategy (sig_StrategyName sig)
   else match ex_entries x !! positionKey sig with
        | Some rec => r_Real rec && negb (r_Pending rec) && String.eqb (r_ExitOrderID rec) ""
        | None => false
        end).

Lemma paper_route sig isBuy x w :
  may_be_real sig x = false → sig_Leg sig = "" → isBuy = String.eqb (sig_Action sig) ActionBuy →
  let live := ex_live x && ex_sessionOK x && ex_api x in
  let route : M L (option bool) := if isBuy then mret (Some (IsRealStrategy (sig_StrategyName sig) && live))
               else route_exit (positionKey sig) live (ex_entries x !! positionKey sig) in
  adds paper_event w (route w).2 ∧ ((route w).1 = None ∨ (route w).1 = Some false).
Proof.
  intros Hm Hleg -> live route. unfold may_be_real in Hm. rewrite Hleg in Hm. cbn [String.eqb andb] in Hm.
  fold live in Hm. subst route. destruct (String.eqb (sig_Action sig) ActionBuy).
  - split; [done|]. right. simpl. f_equal. by rewrite andb_comm.
  - split.
    + assert (on_paper (route_exit (positionKey sig) live (ex_entries x !! positionKey sig))) as Hr
        by (unfold route_exit; keeps_auto). apply Hr.
    + unfold route_exit. destruct (ex_entries x !! positionKey sig) as [rec|]; simpl; [|by right].
      destruct (r_Real rec); simpl; [|by right]. destruct (String.eqb (r_ExitOrderID rec) ""); simpl; [|by left].
      destruct (r_Pending rec); simpl; [by left|]. destruct live; simpl in *; [done|by left].
Qed.

(** C9: A signal that may not be real (a leg, an entry of a strategy that is
    not allowlisted or without a live session, an exit without a settled real
    entry or with an exit already pending) leads to paper fills and alerts
    only: nothing is sent to the broker and nothing is journaled. *)
Theorem paper_stays_on_paper sig w :
  may_be_real sig (w_ex (lock w).2) = false → adds paper_event w (ExecuteSignal sig w).2.
Proof.
  intros Hm. unfold ExecuteSignal. destruct (String.eqb_spec (sig_Leg sig) "") as [Hleg|Hleg]; [|apply paper_leg].
  cbn [negb]. destruct (_ && _); [done|]. destruct (_ && _); [done|].
  change (adds paper_event (lock w).2 (execute_locked sig (String.eqb (sig_Action sig) ActionBuy) (lock w).2).2).
  generalize dependent (lock w).2. clear w. intros w Hm.
  pose proof (paper_route sig _ (w_ex w) w Hm Hleg eq_refl) as [Hadd Hres].
  unfold execute_locked, liveSession, entry, gets. unfold mbind at 1 2 3, M_bind at 1 2 3. cbn iota beta in *.
  match type of Hres with (fst (?r w) = _ ∨ _) => destruct (r w) as [route w1] end. simpl in Hadd, Hres.
  etrans; [exact Hadd|]. destruct Hres as [-> | ->]; [done|apply paper_routed].
Qed.
End paper.

(** ** A real entry is recorded before it is sent *)

Definition is_buy (p : gmap string any) : Prop := p !! "transactiontype" = Some (AStr "BUY").
Definition no_buy (e : Ev) : Prop := match e with EvPlace p _ => ¬ is_buy p | _ => True end.

Section recorded.
Context {L : Type} {LO : OrderLedger L} {E : Env L} {MO : MapOrder}.

(** The record of the request [p], among the events before it. *)
Definition recorded_for (p : gmap string any) (before : list Ev) : Prop :=
  EvPersist true ∈ before ∧
  ∃ key, p !! "ordertag" ∈ [Some (AStr key); Some (AStr (retryTag key))] ∧
    (RequireJournal cfg = true →
     EvClaim key true ∈ before ∧
     ∃ ev, EvSubmit ev true ∈ before ∧ ev_ClientOrderID ev = key ∧ ev_Side ev = "BUY" ∧
       p !! "tradingsymbol" = Some (AStr (ev_Symbol ev)) ∧ p !! "symboltoken" = Some (AStr (ev_Token ev)) ∧
       p !! "quantity" = Some (AStr (format_int (ev_Qty ev)))).

(** Every BUY among the events, newest first, comes after its record. *)
Definition buys_recorded (evs : list Ev) : Prop :=
  ∀ post p r pre, evs = post ++ EvPlace p r :: pre → is_buy p → recorded_for p pre.

Definition records (w w' : World L) : Prop := ∃ evs, w_tr w' = evs ++ w_tr w ∧ buys_recorded evs.

Lemma recorded_more p pre older : recorded_for p pre → recorded_for p (pre ++ older).
Proof.
  intros (Hp & key & Htag & Hj). split; [apply elem_of_app; by left|]. exists key. split; [done|].
  intros Hr. destruct (Hj Hr) as (Hc & ev & Hs & Hrest). split; [apply elem_of_app; by left|].
  exists ev. split; [apply elem_of_app; by left|done].
Qed.

Lemma no_buy_recorded evs : Forall no_buy evs → buys_recorded evs.
Proof.
  intros Hq post p r pre -> Hb. apply Forall_app in Hq as [_ Hq]. by apply Forall_cons in Hq as [Hq _].
Qed.

Lemma split_at {A} (a b post : list A) (x : A) (pre : list A) :
  a ++ b = post ++ x :: pre → (∃ pre', a = post ++ x :: pre' ∧ pre = pre' ++ b) ∨ (∃ post', b = post' ++ x :: pre ∧ post = a ++ post').
Proof.
  revert post. induction a as [|y a IH]; intros [|z post]; simpl.
  - intros ->. right. by exists [].
  - intros ->. right. by exists (z :: post).
  - intros [= -> <-]. left. by exists a.
  - intros [= -> H]. destruct (IH post H) as [(pre' & -> & ->)|(post' & -> & ->)]; [left; eauto|right; eauto].
Qed.

Lemma buys_recorded_app a b : buys_recorded a → buys_recorded b → buys_recorded (a ++ b).
Proof.
  intros Ha Hb post p r pre H Hbuy. destruct (split_at _ _ _ _ _ H) as [(pre' & -> & ->)|(post' & -> & ->)].
  - apply recorded_more. by eapply Ha.
  - by eapply Hb.
Qed.

#[export] Instance records_preorder : PreOrder records.
Proof.
  split; [by exists []; split; [|apply no_buy_recorded]|]. intros w1 w2 w3 (e1 & H1 & HP1) (e2 & H2 & HP2).
  exists (e2 ++ e1). rewrite H2, H1, app_assoc. split; [done|]. by apply buys_recorded_app.
Qed.

Lemma no_buy_records w w' : adds no_buy w w' → records w w'.
Proof. intros (evs & H & Hq). exists evs. split; [done|by apply no_buy_recorded]. Qed.
Lemma keeps_no_buy {A} (m : M L A) : keeps (adds no_buy) m → keeps records m.
Proof. intros Hm w. apply no_buy_records, Hm. Qed.

Lemma no_buy_sells : FrameSells (L := L) (adds no_buy).
Proof.
  apply adds_sells; unfold no_buy, is_buy.
  - by intros [].
  - done.
  - intros rec tr lim tag r. unfold stop_params. by simplify_map_eq.
  - intros s t price q tag r. unfold buildOrderParams. destruct (0 <? price); by simplify_map_eq.
Qed.
#[local] Existing Instance no_buy_sells.

(** An intent that lets the order go has left its record. *)
Lemma real_intent_records sig k d t s p q key w w' :
  d ≠ "SELL" → real_intent sig k d t s p q key w = (true, w') →
  ∃ evs, w_tr w' = evs ++ w_tr w ∧ Forall no_buy evs ∧
    EvPersist true ∈ evs ∧
    (RequireJournal cfg = true → EvClaim key true ∈ evs ∧
      EvSubmit (submit_event key (sig_StrategyName sig) k "BUY" s t q "" "executor") true ∈ evs).
Proof.
  intros Hd. apply String.eqb_neq in Hd. unfold real_intent. rewrite Hd.
  unfold mbind at 1, M_bind at 1. destruct (journalEntryIntent sig k t s q key w) as [ok w1] eqn:Hj.
  assert (ok = true → ∃ ej, w_tr w1 = ej ++ w_tr w ∧ Forall no_buy ej ∧ (RequireJournal cfg = true → EvClaim key true ∈ ej ∧
    EvSubmit (submit_event key (sig_StrategyName sig) k "BUY" s t q "" "executor") true ∈ ej)) as Hjr.
  { intros ->. revert Hj. unfold journalEntryIntent, ledger_submit, alertf, gets, now, fresh, modify, log, mbind, M_bind, mret, M_ret.
    destruct (ex_ledger (w_ex w)) as [l|]; [|destruct (RequireJournal cfg); intros [= <-]; by exists []].
    simpl. destruct (ol_ClaimIntent _ key l) as [[claimed [e|]] l1]; simpl; [by destruct claimed|]. destruct claimed; [|done].
    destruct (ol_Submit _ _ l1) as [[e|] l2]; simpl; [done|]. intros [= <-].
    eexists [_; _]. split; [done|]. split; [by repeat constructor|]. intros _. split; set_solver. }
  destruct ok; cbn [negb]; [|done]. destruct (Hjr eq_refl) as (ej & Hw1 & Hq & Hrec). clear Hjr Hj.
  unfold now, fresh, storeEntry, setPositionInstrument, persistIntentNow, call, others, modify, log, mbind, M_bind, mret, M_ret.
  simpl. destruct (env_persist _) as [e|]; simpl.
  - clear. destruct (dropEntry sig _) as [[] w2]. simpl. destruct (ledgerApply _ w2) as [[] w3]. done.
  - intros [= <-]. exists (EvPersist true :: ej). simpl. rewrite Hw1. split; [done|].
    split; [by constructor|]. split; [set_solver|]. intros Hr.
    destruct (Hrec Hr). split; set_solver.
Qed.

Lemma records_executeReal sig k d t s p q key :
  d = "BUY" → keeps records (executeReal sig k d t s p q key).
Proof.
  intros ->. assert (opens (L := L) (adds no_buy) sig) as Hop by apply adds_opens.
  unfold executeReal. cbv zeta.
  apply (keeps_bind_returns _ (λ pr, ∀ q' lp, pr = Some (q', lp) → q' = q));
    [apply keeps_no_buy; eauto with keeps| |].
  { apply kept_real_prepare, _. }
  { intros w q' lp Hq. by apply real_prepare_qty in Hq as [_ ->]. }
  intros [[qty lp]|] Hq; [|apply keeps_ret, _]. rewrite (Hq qty lp eq_refl). clear Hq qty.
  intros w. unfold mbind at 1, M_bind at 1.
  destruct (real_intent sig k "BUY" t s p q key w) as [go w1] eqn:Hi.
  destruct go; cbn [negb].
  - apply real_intent_records in Hi as (ei & Hw1 & Hqi & Hpers & Hj); [|done].
    unfold mbind at 1, M_bind at 1.
    pose (mine := λ e, match e with EvPlace pr _ => ∃ tag, tag ∈ [key; retryTag key] ∧ pr = buildOrderParams s t "BUY" lp q tag | _ => True end).
    assert (Frame (L := L) (adds mine)) as Hfm by (apply adds_frame; by intros []).
    pose proof (kept_run_breaker (adds mine) (String.eqb "BUY" "SELL") (send_attempt (String.eqb "BUY" "SELL") s t "BUY" lp q key)) as Hsend.
    destruct (Hsend ltac:(apply kept_send_attempt; [done|]; intros tag r Htag; apply adds_log; by exists tag) w1) as (es & Hws & Hes).
    clear Hsend. destruct (run_breaker _ _ w1) as [r w2]. simpl in Hws.
    assert (records w w2) as Hw2.
    { exists (es ++ ei). rewrite Hws, Hw1, app_assoc. split; [done|]. intros post pr r' pre Heq Hbuy.
      destruct (split_at _ _ _ _ _ Heq) as [(pre' & -> & ->)|(post' & -> & ->)].
      - apply Forall_app in Hes as [_ Hes]. apply Forall_cons in Hes as [(tag & Htag & ->) _].
        split; [set_solver|]. exists key. split.
        { unfold buildOrderParams. destruct (0 <? lp); simplify_map_eq; set_solver. }
        intros Hr. destruct (Hj Hr) as [Hc Hs]. split; [set_solver|].
        eexists. split; [apply elem_of_app; right; exact Hs|]. unfold buildOrderParams.
        destruct (0 <? lp); by simplify_map_eq.
      - apply Forall_app in Hqi as [_ Hqi]. by apply Forall_cons in Hqi as [Hqi _]. }
    etrans; [exact Hw2|]. generalize w2. clear -Hop.
    match goal with |- ∀ w2, records w2 (?m w2).2 => change (keeps records m) end.
    apply keeps_no_buy. seq; [keeps_auto|intros _].
    destruct (match sr_err r with Some e => Some e | None => sr_reject r end) as [e|].
    + apply kept_real_failed; framed. by right.
    + destruct (sr_flat r); [apply kept_real_flat, _|]. apply kept_real_accepted; framed. by right.
  - apply no_buy_records. pose proof (kept_real_intent (adds no_buy) sig k "BUY" t s p q key (or_intror Hop) w) as Hkeep.
    by rewrite Hi in Hkeep.
Qed.

Lemma paper_no_buy (w w' : World L) : adds paper_event w w' → adds no_buy w w'.
Proof. apply adds_impl. intros [] He; try done. Qed.
Lemma keeps_paper_no_buy {A} (m : M L A) : keeps (adds paper_event) m → keeps (adds no_buy) m.
Proof. intros Hm w. apply paper_no_buy, Hm. Qed.

Lemma records_dispatch sig k d t s key real e :
  d = "BUY" ∨ d = "SELL" → keeps records (dispatch sig k d t s key real e).
Proof.
  intros Hd. destruct real; [|apply keeps_no_buy, keeps_paper_no_buy, paper_dispatch].
  unfold dispatch, GetLTP. seq; [apply keeps_no_buy; keeps_auto|intros go].
  destruct (negb go); [apply keeps_ret, _|]. seq; [apply keeps_gets, _|intros ltp]. cbn [negb].
  destruct (String.eqb_spec d "SELL") as [->|Hne]; [apply keeps_no_buy, kept_sell, _|].
  seq; [apply keeps_no_buy; keeps_auto|intros [q|]]; [|apply keeps_no_buy; keeps_auto].
  apply records_executeReal. naive_solver.
Qed.

Lemma records_locked sig isBuy : keeps records (execute_locked sig isBuy).
Proof.
  unfold execute_locked, execute_routed, liveSession, entry.
  seq; [apply keeps_gets, _|intros live]. seq; [apply keeps_gets, _|intros e].
  seq; [apply keeps_no_buy; keeps_auto|intros [real|]]; [|apply keeps_ret, _].
  seq; [apply keeps_no_buy; keeps_auto|intros [[t s]|]]; [|apply keeps_ret, _].
  seq; [apply keeps_no_buy; keeps_auto|intros key].
  destruct isBuy; [|apply records_dispatch; by right].
  seq; [apply keeps_no_buy, keeps_paper_no_buy, paper_gate|intros ok].
  destruct (negb ok); [apply keeps_ret, _|]. seq; [apply records_dispatch; by left|intros _].
  apply keeps_no_buy. intros w. apply adds_modify.
Qed.

(** C2: A real BUY is written down before it is sent: whenever ExecuteSignal
    sends one, the intent snapshot was persisted earlier in the same call,
    and, where a journal is required, the intent was claimed and the order
    journaled under the request's own tag, with its symbol, token and
    quantity. *)
Theorem real_buy_recorded_first sig w :
  ∃ evs, w_tr (ExecuteSignal sig w).2 = evs ++ w_tr w ∧
    ∀ post p r pre, evs = post ++ EvPlace p r :: pre → is_buy p → recorded_for p pre.
Proof.
  unfold ExecuteSignal. destruct (negb _); [apply no_buy_records, paper_no_buy, paper_leg|].
  destruct (_ && _); [by apply no_buy_records|]. destruct (_ && _); [by apply no_buy_records|].
  match goal with |- ∃ _, w_tr (?m w).2 = _ ∧ _ => enough (keeps records m) as Hm by apply Hm end.
  seq; [apply keeps_no_buy; keeps_auto|intros _]. apply records_locked.
Qed.
End recorded.

(** ** A retried exit never sells more than is held *)

Section retry.
Context {L : Type} {LO : OrderLedger L} {E : Env L} {MO : MapOrder}.

(** An order of [rec]'s contract: a protective stop, or an exit of at most
    [bound]. *)
Definition exit_order (rec : OrderRecord) (bound : Z) (p : gmap string any) : Prop :=
  (∃ stop trigger limit tag, p = stop_params stop trigger limit tag) ∨
  ∃ price qty tag, p = buildOrderParams (r_Symbol rec) (r_Token rec) "SELL" price qty tag ∧ qty ≤ bound.

Definition exit_event (rec : OrderRecord) (bound : Z) (e : Ev) : Prop :=
  match e with EvPlace p _ => exit_order rec bound p | _ => True end.

Lemma exit_event_exits rec bound : FrameExits (L := L) (adds (exit_event rec bound)).
Proof. apply adds_exits; [by intros []|done|]. intros stop tr lim tag r. left. eauto. Qed.
#[local] Existing Instance exit_event_exits.

Lemma brokerNetQty_held s t w held w' :
  brokerNetQty s t w = (inl held, w') →
  ∃ book evs, w_tr w' = evs ++ w_tr w ∧ Forall not_place evs ∧ EvPosition (inl book) ∈ evs ∧ net_qty s t book = inl held.
Proof.
  unfold brokerNetQty, brokerAPI, read_positions, call, others, gets, fresh, modify, log, mbind, M_bind, mret, M_ret.
  simpl. destruct (ex_api (w_ex w)); simpl; [|done].
  destruct (env_position (S (w_n w))) as [book|e]; [|done].
  destruct (match get book "status" with ABool false => _ | _ => _ end) as [book'|e] eqn:Hb; [|done].
  intros [= Hnet <-]. exists book', [EvPosition (inl book')].
  split; [done|]. split; [by constructor|]. split; [set_solver|done].
Qed.

Lemma not_place_frame : Frame (L := L) (adds not_place).
Proof. apply adds_frame. by intros []. Qed.
#[local] Existing Instance not_place_frame.
Lemma quiet_dropEntry sig : keeps (L := L) (adds not_place) (dropEntry sig).
Proof. unfold dropEntry, clearPositionInstrument. keeps_auto. Qed.
Lemma quiet_scheduleExitRetry sig : keeps (L := L) (adds not_place) (scheduleExitRetry sig).
Proof. unfold scheduleExitRetry. seq; [keeps_auto|intros n]. destruct (_ <=? n); keeps_auto. Qed.
Lemma quiet_reportFill sig d p q r : keeps (L := L) (adds not_place) (reportFill sig d p q r).
Proof. unfold reportFill. keeps_auto. Qed.
#[local] Hint Resolve quiet_dropEntry quiet_scheduleExitRetry quiet_reportFill : keeps.

(** C7: A retried exit sells at most what is tracked and at most what the
    broker reported as held, in the entry's own contract, and only after
    that report; every other order of the retry is a protective stop. *)
Theorem retry_never_oversells sig attempt (w : World L) rec :
  ex_entries (w_ex w) !! positionKey sig = Some rec →
  ∃ evs, w_tr (retryExitLocked sig attempt w).2 = evs ++ w_tr w ∧
    ∀ p r, EvPlace p r ∈ evs →
      ∃ book held, EvPosition (inl book) ∈ evs ∧ net_qty (r_Symbol rec) (r_Token rec) book = inl held ∧ 0 < held ∧
        exit_order rec (Z.min (r_Quantity rec) held) p.
Proof.
  intros Hrec. set (goal := λ w' : World L, ∃ evs, w_tr w' = evs ++ w_tr w ∧
    ∀ p r, EvPlace p r ∈ evs → ∃ book held, EvPosition (inl book) ∈ evs ∧
      net_qty (r_Symbol rec) (r_Token rec) book = inl held ∧ 0 < held ∧ exit_order rec (Z.min (r_Quantity rec) held) p).
  change (goal (retryExitLocked sig attempt w).2).
  assert (∀ w', adds not_place w w' → goal w') as Hquiet.
  { intros w' (evs & Hevs & Hq). exists evs. split; [done|]. intros p r Hin. rewrite Forall_forall in Hq. by apply Hq in Hin. }
  unfold retryExitLocked, entry, liveSession, gets. unfold mbind at 1, M_bind at 1. cbn iota beta. rewrite Hrec.
  destruct (_ || _); [by apply Hquiet|]. unfold mbind at 1, M_bind at 1. cbn iota beta.
  destruct (negb _). { apply Hquiet. revert w Hrec goal Hquiet. intros w _ _ _. revert w.
    change (keeps (L := L) (adds not_place) (alertf "exit retry: no live broker session" ;; scheduleExitRetry sig)). keeps_auto. }
  unfold mbind at 1, M_bind at 1. destruct (brokerNetQty (r_Symbol rec) (r_Token rec) w) as [held w1] eqn:Hb.
  pose proof (kept_brokerNetQty (adds not_place) (r_Symbol rec) (r_Token rec) w) as Hq1. rewrite Hb in Hq1. simpl in Hq1.
  assert (∀ m : M L (), keeps (adds not_place) m → goal (m w1).2) as Hquiet1.
  { intros m Hm. apply Hquiet. etrans; [exact Hq1|apply Hm]. }
  destruct held as [held|e]; [|apply Hquiet1; keeps_auto].
  destruct (Z.ltb_spec held 0); [apply Hquiet1; keeps_auto|].
  destruct (Z.eqb_spec held 0) as [->|Hne]; [apply Hquiet1; unfold finalizeExit, GetLTP; keeps_auto|].
  apply brokerNetQty_held in Hb as (book & evs1 & Hw1 & Hnp & Hpos & Hnet).
  assert (∀ m : M L (), keeps (adds (exit_event rec (Z.min (r_Quantity rec) held))) m → goal (m w1).2) as Hsell.
  { intros m Hm. destruct (Hm w1) as (evs2 & Hw2 & Hx). exists (evs2 ++ evs1). rewrite Hw2, Hw1, app_assoc. split; [done|].
    intros p r [Hin|Hin]%elem_of_app.
    - rewrite Forall_forall in Hx. apply Hx in Hin. exists book, held. split; [apply elem_of_app; by right|]. split; [done|]. split; [lia|done].
    - rewrite Forall_forall in Hnp. by apply Hnp in Hin. }
  apply Hsell. seq; [keeps_auto|intros key]. seq; [unfold GetLTP; keeps_auto|intros ltp].
  apply kept_executeReal; framed; [by left|]. intros price q tag r Hle _ _. apply adds_log. right.
  exists price, q, tag. split; [done|]. unfold retry_qty in Hle. destruct (held <? r_Quantity rec) eqn:Hh; lia.
Qed.
End retry.

(** ** An exit of a real position is always sent *)

Section liveness.
Context {L : Type} {LO : OrderLedger L} {E : Env L} {MO : MapOrder}.

(** Running [m] from [w] does something that satisfies [P]. *)
Definition does {A} (P : Ev → Prop) (m : M L A) (w : World L) : Prop :=
  ∃ evs e, w_tr (m w).2 = evs ++ w_tr w ∧ e ∈ evs ∧ P e.

Notation grows := (keeps (L := L) (adds (λ _, True))).

Lemma does_first {A B} P (m : M L A) (f : A → M L B) w :
  does P m w → (∀ x, grows (f x)) → does P (m ≫= f) w.
Proof.
  intros (evs & e & Hw & He & HP) Hf. unfold does, mbind, M_bind. destruct (m w) as [x w1]. simpl in Hw.
  destruct (Hf x w1) as (evs2 & Hw2 & _). exists (evs2 ++ evs), e. rewrite Hw2, Hw, app_assoc.
  split; [done|]. split; [apply elem_of_app; by right|done].
Qed.

Lemma does_then {A B} P (m : M L A) (f : A → M L B) w :
  grows m → does P (f (m w).1) (m w).2 → does P (m ≫= f) w.
Proof.
  intros Hm (evs & e & Hw & He & HP). destruct (Hm w) as (evs1 & Hw1 & _). unfold does, mbind, M_bind.
  destruct (m w) as [x w1]. simpl in *. exists (evs ++ evs1), e. rewrite Hw, Hw1, app_assoc.
  split; [done|]. split; [apply elem_of_app; by left|done].
Qed.

#[local] Existing Instance adds_all_frame.

(** The other goroutines never lose the broker client. *)
Definition client_kept : Prop := ∀ n (x : Exec L), ex_api x = true → ex_api (env_other n x) = true.

Definition api_on (w w' : World L) : Prop := ex_api (w_ex w) = true → ex_api (w_ex w') = true.
#[export] Instance api_on_preorder : PreOrder api_on.
Proof. split; [by intros w H|]. intros w1 w2 w3 H1 H2 H. by apply H2, H1. Qed.

Lemma api_on_frame : client_kept → FrameSells api_on.
Proof.
  intros Hc. assert (∀ f, (∀ x, ex_api (f x) = ex_api x) → keeps api_on (modify f)) as Hm.
  { intros f Hf w Hw. simpl. by rewrite Hf. }
  assert (∀ e, keeps api_on (log e)) as Hl by by intros e w H.
  split; [split; [split; [split; [split|..]|..]|..]|]; try (intros; apply Hl); try (intros; by apply Hm).
  - apply _.
  - intros f Hf w. exact (proj2 (Hf (w_ex w))).
  - by intros w H.
  - intros w H. by apply Hc.
  - intros sig. unfold scheduleExitRetry. seq; [by intros w H|intros n]. by destruct (_ <=? n); intros w H.
Qed.

Lemma does_place P p w : ex_api (w_ex w) = true → (∀ r, P (EvPlace p r)) → does P (broker_place p) w.
Proof.
  intros Hapi HP. unfold does, broker_place, brokerAPI, call, others, gets, fresh, modify, log, mbind, M_bind, mret, M_ret.
  rewrite Hapi. simpl. eexists [_], _. split; [done|]. split; [by apply list_elem_of_singleton|done].
Qed.

Lemma does_run P tag params isFinal w :
  ex_api (w_ex w) = true → (∀ r, P (EvPlace (params tag) r)) → does P (run (attempt_of tag params isFinal)) w.
Proof.
  intros Hapi HP. unfold run. cbn [oa_place oa_tag attempt_of]. apply does_first; [by apply does_place|].
  intros r0. unfold last_look, resend. cbn [oa_place oa_orderBook oa_refresh oa_tag oa_isFinal attempt_of].
  assert (∀ p, grows (broker_place p)) as Hp by (intros p; apply kept_broker_place; [apply _|]; intros r; by apply adds_log).
  pose proof (λ t r, kept_settle (adds (λ _, True)) tag params isFinal t r) as Hs. keeps_auto.
Qed.

Definition sells (symbol token : string) (qty : Z) (e : Ev) : Prop :=
  match e with EvPlace p _ => ∃ price tag, p = buildOrderParams symbol token "SELL" price qty tag | _ => False end.

(** *** The resting stop

    What the exit finds of the stop whose cancellation it asked for: the
    quantity left to sell, none when the stop may still be resting.  An order
    of an earlier day that is not in the book is gone. *)
Definition left_of_stop (rec : OrderRecord) (seen : fillResult + gerror) (today : Time) : option Z :=
  match seen with
  | inr _ => if t_before (r_SLPlacedAt rec) today then Some (r_Quantity rec) else None
  | inl f =>
      if negb (terminal f) then None
      else if String.eqb (f_Status f) "complete" then Some 0
      else if 0 <? f_FilledQty f then Some (Z.max 0 (Z.min (r_Quantity rec) (r_Quantity rec -! f_FilledQty f)))
      else Some (r_Quantity rec)
  end.

(** While the position's lock is held, its record stays, and so does the
    client. *)
Definition holding (k : string) (rec : OrderRecord) (x : Exec L) : Prop := ex_entries x !! k = Some rec ∧ ex_api x = true.

Lemma holding_frame n0 k rec : client_kept → lock_held n0 k → Frame (guarded n0 (holding k rec)).
Proof.
  intros Hc Hk. split.
  - apply _.
  - intros f Hf w Hn [He Ha]. split; [done|]. destruct (Hf (w_ex w)) as ((Hsame & _) & Hapi). simpl.
    split; [by rewrite Hsame|by apply Hapi].
  - intros w Hn HJ. simpl. split; [lia|done].
  - intros w Hn [He Ha]. simpl. split; [lia|]. destruct (Hk (w_n w) (w_ex w) Hn) as (Hsame & _).
    split; [by rewrite Hsame|by apply Hc].
  - by intros e _ w.
Qed.

(** [m] ran from [w]: what it gave, and a longer trace. *)
Lemma grows_run {A} (m : M L A) w : grows m → ∃ evs, w_tr (m w).2 = evs ++ w_tr w.
Proof. intros Hm. destruct (Hm w) as (evs & Hw & _). by exists evs. Qed.

Definition entry_after (sig : Signal) (rec : OrderRecord) (q : Z) (w : World L) : Prop :=
  ∃ rec', ex_entries (w_ex w) !! positionKey sig = Some rec' ∧
    q = if (0 <? r_Quantity rec') && (r_Quantity rec' <? r_Quantity rec) then r_Quantity rec' else r_Quantity rec.

Definition stop_outcome_spec (sig : Signal) (rec : OrderRecord) (left : option Z) (o : stopOutcome) (post : list Ev) (w : World L) : Prop :=
  match left with
  | None => o = stopUnknown ∧ EvAlert "stop not confirmed cancelled — exit held back" ∈ post
  | Some q =>
      if q =? 0 then o = stopFilled ∧ ex_entries (w_ex w) !! positionKey sig = None
      else o = stopGone ∧ entry_after sig rec q w
  end.

Lemma updateEntry_at k fn rec w :
  ex_entries (w_ex w) !! k = Some rec → ex_entries (w_ex (updateEntry (L := L) k fn w).2) !! k = Some (fn rec).
Proof. intros Hrec. simpl. rewrite Hrec. apply lookup_insert_eq. Qed.

(** Reading a price and reporting a sale change no state. *)
Lemma price_and_report sig f rec q (w : World L) :
  w_ex ((do p ← fillPriceOr f (r_Token rec); reportFill sig "SELL" p q true) w).2 = w_ex w.
Proof. unfold fillPriceOr, GetLTP, reportFill. rewrite run_bind. repeat case_match; done. Qed.

Lemma price_then_report {A} sig f rec q (m : M L A) (w : World L) :
  (do p ← fillPriceOr f (r_Token rec); reportFill sig "SELL" p q true ;; m) w =
  m ((do p ← fillPriceOr f (r_Token rec); reportFill sig "SELL" p q true) w).2.
Proof. unfold mbind, M_bind. destruct (fillPriceOr _ _ w) as [p w1]. by destruct (reportFill _ _ _ _ _ w1). Qed.

Lemma stop_settled_spec n0 sig rec r w :
  let k := positionKey sig in
  client_kept → lock_held n0 k → (n0 ≤ w_n w)%nat → holding k rec (w_ex w) → 0 < r_Quantity rec →
  ∃ post, let w' := (stop_settled sig k rec r w).2 in w_tr w' = post ++ w_tr w ∧
    stop_outcome_spec sig rec (left_of_stop rec r (ist_midnight (env_now (w_n w)))) (stop_settled sig k rec r w).1 post w'.
Proof.
  intros k Hc Hk Hn Hh Hq. pose proof (holding_frame n0 k rec Hc Hk) as FR.
  destruct (grows_run (stop_settled sig k rec r) w (kept_stop_settled _ sig k rec r)) as (post & Hpost).
  exists post. cbn zeta. split; [done|]. revert Hpost. unfold stop_settled, left_of_stop.
  destruct r as [f|e].
  - rewrite run_bind. destruct (kept_journalFill (guarded n0 (holding k rec)) "" (r_SLOrderID rec) f "protection" w Hn Hh) as (_ & Hrec & _).
    destruct (grows_run _ w (kept_journalFill (adds (λ _, True)) "" (r_SLOrderID rec) f "protection")) as (pre & Hpre).
    destruct (journalFill _ _ _ _ w) as [[] w1]. cbn [fst snd] in *. rewrite run_bind. cbn [fst snd mret M_ret].
    destruct (terminal f); cbn [negb].
    2:{ intros Hpost. split; [done|]. rewrite run_bind in Hpost. cbn in Hpost. rewrite Hpre in Hpost. apply (app_inv_tail (w_tr w) (_ :: pre)) in Hpost as <-. set_solver. }
    destruct (String.eqb _ "complete"); intros _.
    { cbn [Z.eqb stop_outcome_spec]. rewrite run_bind, run_bind, price_then_report. split; [done|]. cbn [snd mret M_ret].
      rewrite price_and_report. apply dropEntry_gone. }
    rewrite run_bind. assert (Hrec' := updateEntry_at k (set_SLOrderID "") rec w1 Hrec).
    set (w2 := (updateEntry k _ w1).2) in *. destruct (0 <? f_FilledQty f) eqn:Hf.
    2:{ cbn [stop_outcome_spec]. rewrite (proj2 (Z.eqb_neq _ _)) by lia. split; [done|]. eexists. split; [exact Hrec'|].
        cbn. by rewrite Z.ltb_irrefl, andb_false_r. }
    cbv zeta. rewrite price_then_report. set (w3 := (_ w2).2). assert (w_ex w3 = w_ex w2) as Hw3 by apply price_and_report.
    destruct (Z.leb_spec (r_Quantity rec -! f_FilledQty f) 0) as [Hl|Hl]; cbn [stop_outcome_spec].
    + replace (Z.max 0 _) with 0 by lia. rewrite run_bind. split; [done|]. apply dropEntry_gone.
    + rewrite (proj2 (Z.eqb_neq _ _)) by lia. rewrite run_bind. split; [done|]. eexists.
      rewrite <-Hw3 in Hrec'. split; [exact (updateEntry_at k _ _ w3 Hrec')|]. cbn.
      destruct (Z.ltb_spec 0 (r_Quantity rec -! f_FilledQty f)); [|lia].
      destruct (Z.ltb_spec (r_Quantity rec -! f_FilledQty f) (r_Quantity rec)); cbn [andb]; lia.
  - rewrite run_bind. cbn [fst snd mret M_ret]. rewrite run_bind.
    assert (∃ w1, (do t ← startOfTodayIST; mret (t_before (r_SLPlacedAt rec) t)) w = (t_before (r_SLPlacedAt rec) (ist_midnight (env_now (w_n w))), w1)
      ∧ w_tr w1 = w_tr w ∧ w_ex w1 = w_ex w) as (w1 & -> & Htr & Hex) by (eexists; split; [reflexivity|done]).
    cbn [fst snd]. rewrite <-Hex in Hh. rewrite <-Htr.
    destruct (t_before _ _); intros Hpost; cbn [stop_outcome_spec].
    + rewrite (proj2 (Z.eqb_neq _ _)) by lia. rewrite run_bind. split; [done|]. eexists. split; [exact (updateEntry_at k _ _ _ (proj1 Hh))|].
      cbn. by rewrite Z.ltb_irrefl, andb_false_r.
    + rewrite run_bind. split; [done|]. rewrite run_bind in Hpost. cbn in Hpost. apply (app_inv_tail (w_tr w1) [_]) in Hpost as <-. set_solver.
Qed.

Lemma cancel_spec n0 sig rec w :
  let k := positionKey sig in let id := r_SLOrderID rec in
  client_kept → lock_held n0 k → (n0 ≤ w_n w)%nat → holding k rec (w_ex w) → 0 < r_Quantity rec → id ≠ "" →
  let looked := confirmFill id stopCancelDelays (broker_cancel id stopVariety w).2 in
  ∃ post, let w' := (cancelStopForExit sig k w).2 in w_tr w' = (post ++ [EvCancel id stopVariety]) ++ w_tr w ∧
    stop_outcome_spec sig rec (left_of_stop rec looked.1 (ist_midnight (env_now (w_n looked.2))))
      (cancelStopForExit sig k w).1 post w'.
Proof.
  intros k id Hc Hk Hn Hh Hq Hid looked. subst looked. pose proof (holding_frame n0 k rec Hc Hk) as FR.
  assert (cancelStopForExit sig k w =
    (do r ← confirmFill id stopCancelDelays; stop_settled sig k rec r) (broker_cancel id stopVariety w).2) as ->.
  { unfold cancelStopForExit, entry, brokerAPI. rewrite run_bind. cbn [fst snd gets]. rewrite (proj1 Hh).
    fold id. rewrite (proj2 (String.eqb_neq _ _) Hid), run_bind. cbn [fst snd gets]. rewrite (proj2 Hh). cbn [negb]. by rewrite run_bind. }
  destruct (kept_broker_cancel (guarded n0 (holding k rec)) id stopVariety w Hn Hh) as [Hn1 Hh1].
  assert (w_tr (broker_cancel id stopVariety w).2 = [EvCancel id stopVariety] ++ w_tr w) as Htr by done.
  generalize dependent (broker_cancel id stopVariety w).2. intros w1 Hn1 Hh1 Htr. rewrite run_bind.
  destruct (kept_confirmFill (guarded n0 (holding k rec)) id stopCancelDelays w1 Hn1 Hh1) as [Hn2 Hh2].
  destruct (grows_run _ w1 (kept_confirmFill (adds (λ _, True)) id stopCancelDelays)) as (pre & Hpre).
  destruct (confirmFill id stopCancelDelays w1) as [r w2]. cbn [fst snd] in *.
  destruct (stop_settled_spec n0 sig rec r w2 Hc Hk Hn2 Hh2 Hq) as (post & Hpost & Hspec).
  exists (post ++ pre). cbn zeta in *. fold k in Hpost, Hspec. rewrite Hpost, Hpre, Htr, !app_assoc. split; [done|].
  revert Hspec. unfold stop_outcome_spec. case_match; [done|]. intros [Ho Hin]. split; [done|]. set_solver.
Qed.

(** Nothing of this sends an order. *)
#[local] Existing Instance not_place_frame.
Lemma unsent_updateEntry k fn : keeps (L := L) (adds not_place) (updateEntry k fn).
Proof. apply adds_modify. Qed.
#[local] Hint Resolve quiet_dropEntry quiet_scheduleExitRetry quiet_reportFill unsent_updateEntry : keeps.
Lemma unsent_cancel sig k : keeps (L := L) (adds not_place) (cancelStopForExit sig k).
Proof.
  unfold cancelStopForExit, stop_settled, finalizeExit, brokerAPI, entry, startOfTodayIST, fillPriceOr, GetLTP. keeps_auto.
Qed.

(** Events seen to be unsent. *)
Lemma unsent_events {A} (m : M L A) w evs : keeps (adds not_place) m → w_tr (m w).2 = evs ++ w_tr w → Forall not_place evs.
Proof. intros Hm Hw. destruct (Hm w) as (evs' & Hw' & Hq). rewrite Hw in Hw'. by apply app_inv_tail in Hw' as ->. Qed.

(** ** The exit *)

(** Preparing a sale asks for what is left to sell and gives it up for no
    price and no margin. *)
Lemma prepare_gone sig k t s p q rec' w :
  (cancelStopForExit sig k w).1 = stopGone → ex_entries (w_ex (cancelStopForExit sig k w).2) !! k = Some rec' → stopMode = true →
  ∃ lp, real_prepare sig k "SELL" t s p q w =
    (Some (if (0 <? r_Quantity rec') && (r_Quantity rec' <? q) then r_Quantity rec' else q, lp),
     (orderPrice "SELL" t p (cancelStopForExit sig k w).2).2).
Proof.
  intros Ho Hrec Hm. unfold real_prepare. rewrite Hm. cbn [String.eqb Ascii.eqb Bool.eqb andb negb]. rewrite !run_bind.
  destruct (cancelStopForExit sig k w) as [o w1]. cbn [fst snd] in *. subst o. unfold entry. rewrite run_bind. cbn [fst snd gets mret M_ret].
  rewrite Hrec, run_bind. destruct (orderPrice _ _ _ w1) as [lp w2]. cbn [fst snd]. rewrite andb_false_r. by exists lp.
Qed.

Lemma prepare_off sig k t s p q w :
  stopMode = false → ∃ lp, real_prepare sig k "SELL" t s p q w = (Some (q, lp), (orderPrice "SELL" t p w).2).
Proof.
  intros Hm. unfold real_prepare. rewrite Hm. cbn [String.eqb Ascii.eqb Bool.eqb andb negb]. rewrite !run_bind. cbn [fst snd mret M_ret].
  rewrite run_bind. destruct (orderPrice _ _ _ w) as [lp w2]. cbn [fst snd]. rewrite andb_false_r. by exists lp.
Qed.

Lemma prepare_stopped sig k t s p q w :
  stopMode = true →
  real_prepare sig k "SELL" t s p q w =
    match (cancelStopForExit sig k w).1 with
    | stopFilled => (None, (cancelStopForExit sig k w).2)
    | stopUnknown => (None, (scheduleExitRetry sig (cancelStopForExit sig k w).2).2)
    | stopGone => real_prepare sig k "SELL" t s p q w
    end.
Proof.
  intros Hm. destruct (cancelStopForExit sig k w).1 eqn:Ho; [done|..];
    unfold real_prepare; rewrite Hm; cbn [String.eqb Ascii.eqb Bool.eqb andb negb]; rewrite !run_bind, Ho; by rewrite ?run_bind.
Qed.

(** The sale, once prepared. *)
Lemma does_executeReal sig k t s p q q' lp key w w1 :
  client_kept → real_prepare sig k "SELL" t s p q w = (Some (q', lp), w1) → ex_api (w_ex w1) = true →
  ∃ evs e, w_tr (executeReal sig k "SELL" t s p q key w).2 = evs ++ w_tr w1 ∧ e ∈ evs ∧ sells s t q' e.
Proof.
  intros Hc Hprep Hapi. pose proof (api_on_frame Hc) as Hon. unfold executeReal. cbv zeta. rewrite run_bind, Hprep. cbn [fst snd].
  clear Hprep w. rename w1 into w.
  match goal with |- ∃ evs e, w_tr (?m w).2 = _ ∧ _ => change (does (sells s t q') m w) end.
  apply does_then; [apply kept_real_intent; [apply _|by left]|].
  pose proof (kept_real_intent api_on sig k "SELL" t s p q' key (or_introl eq_refl) w Hapi) as Hapi1.
  assert ((real_intent sig k "SELL" t s p q' key w).1 = true) as ->.
  { unfold real_intent. simpl. unfold mbind, M_bind. simpl. destruct (journalExitIntent _ _ _ _ _ _ _) as [[] w1].
    by destruct (persistIntentNow w1). }
  cbn [negb]. generalize dependent (real_intent sig k "SELL" t s p q' key w).2. clear w Hapi. intros w Hapi.
  apply does_first.
  - unfold run_breaker. cbn [String.eqb Ascii.eqb Bool.eqb]. apply does_first; [|intros r; keeps_auto].
    unfold send_attempt. apply does_first; [|intros r; apply keeps_ret, _]. apply does_run; [done|].
    intros r. by exists lp, key.
  - intros r. seq; [keeps_auto|intros _].
    destruct (match sr_err r with Some e => Some e | None => sr_reject r end) as [e|].
    + apply kept_real_failed; [apply _|by left].
    + destruct (sr_flat r); [apply kept_real_flat, _|]. apply kept_real_accepted; [apply _|by left].
Qed.

(** Giving an exit up until later: a retry, or the owner is called. *)
Lemma retried sig (w : World L) :
  let w' := (scheduleExitRetry sig w).2 in
  ∃ post, w_tr w' = post ++ w_tr w ∧
    ((∃ n, TaskExitRetry sig n ∈ ex_tasks (w_ex w')) ∨ EvAlert "EXIT still not done after automatic retries" ∈ post).
Proof.
  cbn zeta. unfold scheduleExitRetry. rewrite run_bind. cbn [fst snd gets]. destruct (_ <=? _).
  - exists [EvAlert "EXIT still not done after automatic retries"]. split; [done|]. right. set_solver.
  - exists []. split; [done|]. left. eexists. simpl. apply elem_of_app. right. by apply list_elem_of_singleton.
Qed.

Definition sold_in (rec : OrderRecord) (qty : Z) (evs : list Ev) : Prop :=
  ∃ price tag r, EvPlace (buildOrderParams (r_Symbol rec) (r_Token rec) "SELL" price qty tag) r ∈ evs.

(** What an exit of [rec] must have done, from [w0] where its order is begun,
    by the time it returns in [w'] with the events [evs].  Without a resting stop
    the whole position is sold.  A resting stop is cancelled first; what it
    left is sold; nothing when it had sold all, and the position is off the
    book; and when it may still be resting nothing is sold now, the owner is
    told, and the exit is retried for as long as retries are left. *)
Definition exit_done (sig : Signal) (rec : OrderRecord) (w0 : World L) (evs : list Ev) (w' : World L) : Prop :=
  let id := r_SLOrderID rec in
  if stopMode && negb (String.eqb id "") then
    let looked := confirmFill id stopCancelDelays (broker_cancel id stopVariety w0).2 in
    ∃ post, evs = post ++ [EvCancel id stopVariety] ∧
    match left_of_stop rec looked.1 (ist_midnight (env_now (w_n looked.2))) with
    | Some q => if q =? 0 then Forall not_place evs ∧ ex_entries (w_ex w') !! positionKey sig = None else sold_in rec q post
    | None =>
        Forall not_place evs ∧ EvAlert "stop not confirmed cancelled — exit held back" ∈ post ∧
        ((∃ n, TaskExitRetry sig n ∈ ex_tasks (w_ex w')) ∨ EvAlert "EXIT still not done after automatic retries" ∈ post)
    end
  else sold_in rec (r_Quantity rec) evs.

Lemma executeReal_exits n0 sig p key rec w :
  client_kept → lock_held n0 (positionKey sig) → (n0 ≤ w_n w)%nat → holding (positionKey sig) rec (w_ex w) → 0 < r_Quantity rec →
  let w' := (executeReal sig (positionKey sig) "SELL" (r_Token rec) (r_Symbol rec) p (r_Quantity rec) key w).2 in
  ∃ evs, w_tr w' = evs ++ w_tr w ∧ exit_done sig rec w evs w'.
Proof.
  intros Hc Hk Hn Hh Hq. cbn zeta. set (k := positionKey sig) in *. pose proof (api_on_frame Hc) as Hon.
  assert (∀ w1 post q lp, w_tr w1 = post ++ w_tr w → ex_api (w_ex w1) = true →
    real_prepare sig k "SELL" (r_Token rec) (r_Symbol rec) p (r_Quantity rec) w =
      (Some (q, lp), (orderPrice "SELL" (r_Token rec) p w1).2) →
    ∃ more, w_tr (executeReal sig k "SELL" (r_Token rec) (r_Symbol rec) p (r_Quantity rec) key w).2 = (more ++ post) ++ w_tr w ∧
      sold_in rec q more) as Hsold.
  { intros w1 post q lp Hw1 Hapi Hprep.
    pose proof (kept_orderPrice api_on "SELL" (r_Token rec) p w1 Hapi) as Hapi2.
    destruct (grows_run _ w1 (kept_orderPrice (adds (λ _, True)) "SELL" (r_Token rec) p)) as (mid & Hmid).
    destruct (does_executeReal _ _ _ _ _ _ _ _ key _ _ Hc Hprep Hapi2) as (evs & e & Hevs & He & Hs).
    exists (evs ++ mid). rewrite Hevs, Hmid, Hw1, !app_assoc. split; [done|].
    destruct e; try done. destruct Hs as (price & tag & ->). exists price, tag, r. set_solver. }
  unfold exit_done. destruct stopMode eqn:Hm; cbn [andb].
  2:{ destruct (prepare_off sig k (r_Token rec) (r_Symbol rec) p (r_Quantity rec) w Hm) as (lp & Hprep).
      destruct (Hsold w [] _ lp eq_refl (proj2 Hh) Hprep) as (more & Hw & Hs). rewrite app_nil_r in Hw. by exists more. }
  destruct (String.eqb_spec (r_SLOrderID rec) "") as [Hid|Hid]; cbn [negb].
  { assert (cancelStopForExit sig k w = (stopGone, w)) as Hcs.
    { unfold cancelStopForExit, entry. rewrite run_bind. cbn [fst snd gets]. by rewrite (proj1 Hh), Hid. }
    destruct (prepare_gone sig k (r_Token rec) (r_Symbol rec) p (r_Quantity rec) rec w) as (lp & Hprep); [by rewrite Hcs|rewrite Hcs; apply Hh|done|].
    rewrite Hcs, Z.ltb_irrefl, andb_false_r in Hprep.
    destruct (Hsold w [] _ lp eq_refl (proj2 Hh) Hprep) as (more & Hw & Hs). rewrite app_nil_r in Hw. by exists more. }
  destruct (cancel_spec n0 sig rec w Hc Hk Hn Hh Hq Hid) as (post & Hpost & Hspec). fold k in Hpost, Hspec.
  pose proof (kept_cancelStopForExit api_on sig k w (proj2 Hh)) as Hapi.
  pose proof (prepare_stopped sig k (r_Token rec) (r_Symbol rec) p (r_Quantity rec) w Hm) as Hprep.
  unfold stop_outcome_spec in Hspec. fold k in Hspec. destruct (left_of_stop _ _ _) as [q|] eqn:Hleft; [destruct (q =? 0) eqn:Hq0|].
  - destruct Hspec as [Ho Hgone]. rewrite Ho in Hprep. unfold executeReal. rewrite run_bind, Hprep. cbn [fst snd mret M_ret].
    eexists. split; [exact Hpost|]. exists post. split; [done|]. split; [|done]. by apply (unsent_events _ w _ (unsent_cancel sig k)).
  - destruct Hspec as (Ho & rec' & Hrec' & Hq'). clear Hprep.
    destruct (prepare_gone sig k (r_Token rec) (r_Symbol rec) p (r_Quantity rec) rec' w Ho Hrec' Hm) as (lp & Hprep).
    rewrite <-Hq' in Hprep. destruct (Hsold _ _ _ _ Hpost Hapi Hprep) as (more & Hw & Hs).
    eexists. split; [exact Hw|]. exists (more ++ post). split; [by rewrite app_assoc|].
    destruct Hs as (price & tag & r & Hin). exists price, tag, r. set_solver.
  - destruct Hspec as [Ho Hal]. rewrite Ho in Hprep. unfold executeReal. rewrite run_bind, Hprep. cbn [fst snd mret M_ret].
    destruct (retried sig (cancelStopForExit sig k w).2) as (more & Hw & Hre). cbn zeta in *.
    eexists. split; [rewrite Hw, Hpost; apply app_assoc|]. exists (more ++ post). split; [by rewrite app_assoc|].
    split; [|split; [set_solver|destruct Hre as [Hre|Hre]; [by left|right; set_solver]]].
    apply Forall_app. split; [|by apply (unsent_events _ w _ (unsent_cancel sig k))].
    by apply (unsent_events _ _ _ (quiet_scheduleExitRetry sig)) in Hw.
Qed.

(** Where the order of a signal is begun: its key has read the clock. *)
Definition at_order (w : World L) : World L := {| w_ex := w_ex w; w_tr := w_tr w; w_n := S (w_n w) |}.

(** C3: An exit of a settled real position is never lost.  With a live
    session at the position's lock, ExecuteSignal sells the whole position in
    its own contract, whatever the rate limiter, the circuit breaker, the loss
    limits, the margin, the journal and the snapshot say.  Where a protective
    stop rests it is cancelled first, and what is done next follows from what
    is found of it: what it left is sold, nothing when it sold all, and when
    it may still rest the exit is put off, the owner told and a retry
    scheduled while retries are left. *)
Theorem live_exit_is_sent sig w rec :
  sig_Leg sig = "" → sig_Action sig ∈ [ActionExit; ActionSell] → sig_Side sig ∈ [SideCall; SidePut] →
  client_kept → lock_held (S (w_n w)) (positionKey sig) →
  let x := w_ex (lock w).2 in
  ex_live x = true → ex_sessionOK x = true → ex_api x = true →
  ex_entries x !! positionKey sig = Some rec →
  ex_inst x !! positionKey sig = Some {| fi_Token := r_Token rec; fi_Symbol := r_Symbol rec |} →
  r_Real rec = true → r_Pending rec = false → r_ExitOrderID rec = "" → 0 < r_Quantity rec →
  ∃ evs, w_tr (ExecuteSignal sig w).2 = evs ++ w_tr w ∧
    exit_done sig rec (at_order (lock w).2) evs (ExecuteSignal sig w).2.
Proof.
  intros Hleg Hact Hside Hc Hk x Hlive Hok Hapi Hrec Hinst Hreal Hpend Hexit Hqty.
  assert (∃ key p, (ExecuteSignal sig w).2 =
    (executeReal sig (positionKey sig) "SELL" (r_Token rec) (r_Symbol rec) p (r_Quantity rec) key (at_order (lock w).2)).2) as (key & p & Hrun).
  2:{ destruct (executeReal_exits (S (w_n w)) sig p key rec (at_order (lock w).2)) as (evs & Hevs & Hdone); [done|done|apply Nat.le_succ_diag_r|done|done|].
      rewrite <-Hrun in *. by exists evs. }
  rewrite !elem_of_cons, elem_of_nil in Hact, Hside.
  unfold ExecuteSignal. rewrite Hleg. cbn [String.eqb negb].
  assert (String.eqb (sig_Action sig) ActionBuy = false) as -> by (by destruct Hact as [->|[->|[]]]).
  assert ((String.eqb (sig_Action sig) ActionExit || String.eqb (sig_Action sig) ActionSell) = true) as ->
    by (by destruct Hact as [->|[->|[]]]).
  assert ((negb (String.eqb (sig_Side sig) SideCall) && negb (String.eqb (sig_Side sig) SidePut)) = false) as Hcp
    by (by destruct Hside as [->|[->|[]]]).
  rewrite Hcp. cbn [negb andb]. rewrite run_bind.
  subst x. generalize dependent (lock w).2. intros w1 Hlive Hok Hapi Hrec Hinst. clear Hact Hside.
  unfold execute_locked, liveSession, entry. rewrite !run_bind. cbn [fst snd gets]. rewrite Hlive, Hok, Hapi, Hrec. cbn [andb].
  unfold route_exit. change (default no_record (Some rec)) with rec. rewrite Hreal, Hpend, Hexit. cbn [String.eqb andb negb].
  rewrite ?run_bind. cbn [fst snd mret M_ret].
  unfold execute_routed. rewrite run_bind.
  assert (resolveInstrument sig "SELL" w1 = (Some (r_Token rec, r_Symbol rec), w1)) as ->
    by (unfold resolveInstrument; rewrite Hcp, run_bind; cbn [fst snd gets]; by rewrite Hinst).
  cbn [fst snd]. rewrite run_bind. destruct (generateIdempotencyKey sig w1) as [key w2] eqn:Hkey. cbn [fst snd].
  unfold generateIdempotencyKey, now, fresh in Hkey. rewrite !run_bind in Hkey.
  assert (w2 = at_order w1) as -> by (by injection Hkey).
  clear Hkey. unfold dispatch. cbn [String.eqb Ascii.eqb Bool.eqb negb andb]. rewrite run_bind. cbn [fst snd mret M_ret negb].
  unfold GetLTP. rewrite run_bind. cbn [fst snd gets]. rewrite Hreal. replace (0 <? r_Quantity rec) with true by lia. cbn [andb].
  eexists _, _. reflexivity.
Qed.

End liveness.

(** ** Runs *)

#[local] Existing Instance canonical_order.

(** A BUY of a strategy that is not allowlisted, and a filled real one. *)
Definition other_strategy : Signal := {|
  sig_StrategyName := "NIFTY50_EMA"; sig_Action := ActionBuy; sig_Side := SideCall; sig_Token := "99926000";
  sig_Exchange := "NSE"; sig_Price := 2450000; sig_Reason := "test"; sig_Leg := ""; sig_FNOToken := "";
  sig_FNOSymbol := ""; sig_Short := false;
  sig_ReverseTo := ""; sig_Qty := 0; sig_EntryFNOPrice := 0; sig_MarketState := ""; sig_Warnings := [];
  sig_Legs := []; sig_Strike := 0; sig_Pick := ""; sig_PickAlt := ""; sig_TargetMove := 0;
  sig_SameDayExpiry := false;
  sig_SignalTS := 1784519990 * Second |}.

Lemma paper_stays_on_paper_witness :
  let w := start_world in
  may_be_real (E := filling_env) other_strategy (w_ex (lock (E := filling_env) w).2) = false ∧
  ∃ evs f, w_tr (ExecuteSignal (E := filling_env) other_strategy w).2 = evs ++ w_tr w ∧ evs = [EvFill f] ∧ fr_Real f = false.
Proof.
  intros w. assert (may_be_real (E := filling_env) other_strategy (w_ex (lock (E := filling_env) w).2) = false) as Hm
    by (vm_compute; reflexivity).
  split; [exact Hm|]. destruct (paper_stays_on_paper (E := filling_env) other_strategy w Hm) as (evs & Hevs & Hp).
  exists evs. assert (w_tr w = []) as Hw by (vm_compute; reflexivity). rewrite Hw, app_nil_r in Hevs.
  eexists. rewrite Hw, app_nil_r. split; [exact Hevs|]. rewrite <-Hevs. split; vm_compute; reflexivity.
Defined.

Lemma real_buy_recorded_first_witness :
  let w := start_world in
  ∃ evs post p r pre, w_tr (ExecuteSignal (E := filling_env) (signal_of ActionBuy SideCall) w).2 = evs ++ w_tr w ∧
    evs = post ++ EvPlace p r :: pre ∧ is_buy p ∧ recorded_for (E := filling_env) p pre.
Proof.
  intros w. destruct (real_buy_recorded_first (E := filling_env) (signal_of ActionBuy SideCall) w) as (evs & Hevs & Hrec).
  assert (w_tr w = []) as Hw by (vm_compute; reflexivity).
  assert (∃ p r, evs = take 7 evs ++ EvPlace p r :: drop 8 evs ∧ is_buy p) as (p & r & Heq & Hbuy).
  { rewrite Hw, app_nil_r in Hevs. rewrite <-Hevs. eexists _, _. split; vm_compute; reflexivity. }
  exists evs, (take 7 evs), p, r, (drop 8 evs). split; [exact Hevs|]. split; [exact Heq|]. split; [exact Hbuy|].
  exact (Hrec _ _ _ _ Heq Hbuy).
Defined.

(** A tracked CALL of 75, of which the broker still holds 50. *)
Definition held_record : OrderRecord := {|
  r_OrderID := "ORD1"; r_ClientOrderID := "K1"; r_Symbol := "NIFTY25CE"; r_Token := "43001"; r_Side := "BUY";
  r_Quantity := 75; r_Price := 12005; r_Timestamp := 1784519990 * Second; r_StrategyName := "NIFTY50_SR";
  r_PositionSide := SideCall; r_IndexToken := "99926000"; r_IndexExchange := "NSE"; r_GttRuleID := "";
  r_GttSLRuleID := ""; r_SLOrderID := ""; r_SLPlacedAt := zero_time; r_Real := true; r_Pending := false;
  r_ExitOrderID := ""; r_ExitRequested := false; r_Leg := ""; r_Short := false |}.

Definition held_world : World (Ledger Journal) :=
  sample_world (on_entries (λ _, {["NIFTY50_SR|CALL" := held_record]})
    (on_inst (λ _, {["NIFTY50_SR|CALL" := {| fi_Token := "43001"; fi_Symbol := "NIFTY25CE" |}]}) (sample_exec None))).

Definition fifty_env : Env (Ledger Journal) :=
  sample_env sample_cfg (λ _ _, inl "ORD2") (λ _, inl (book_of []))
    (λ _, inl (book_of [[("exchange", AStr "NFO"); ("netqty", AStr "50"); ("symboltoken", AStr "43001");
                         ("tradingsymbol", AStr "NIFTY25CE")]])).

Lemma retry_never_oversells_witness :
  ∃ evs p r, w_tr (retryExitLocked (E := fifty_env) (signal_of ActionExit SideCall) 1 held_world).2 = evs ++ w_tr held_world ∧
    EvPlace p r ∈ evs ∧ p !! "quantity" = Some (AStr "50") ∧
    ∃ held, 0 < held ∧ exit_order (E := fifty_env) held_record (Z.min 75 held) p.
Proof.
  destruct (retry_never_oversells (E := fifty_env) (signal_of ActionExit SideCall) 1 held_world held_record)
    as (evs & Hevs & Hex); [vm_compute; reflexivity|].
  assert (∃ p r, evs !! 5%nat = Some (EvPlace p r) ∧ p !! "quantity" = Some (AStr "50")) as (p & r & Hin & Hq).
  { change (w_tr held_world) with (@nil Ev) in Hevs. rewrite app_nil_r in Hevs. rewrite <-Hevs.
    eexists _, _. split; vm_compute; reflexivity. }
  apply list_elem_of_lookup_2 in Hin. exists evs, p, r. split; [exact Hevs|]. split; [exact Hin|]. split; [exact Hq|].
  destruct (Hex p r Hin) as (book & held & _ & _ & Hpos & Ho). exists held. split; [exact Hpos|exact Ho].
Defined.

(** The CALL of 75 with a stop resting, which sold 25 before it was found
    cancelled. *)
Definition stopped_record : OrderRecord := set_SL "SL1" (1784519995 * Second) held_record.
Definition stopped_world : World (Ledger Journal) :=
  sample_world (on_entries (λ _, {["NIFTY50_SR|CALL" := stopped_record]})
    (on_inst (λ _, {["NIFTY50_SR|CALL" := {| fi_Token := "43001"; fi_Symbol := "NIFTY25CE" |}]}) (sample_exec None))).
Definition stop_env : Env (Ledger Journal) :=
  sample_env sample_cfg (λ _ _, inl "ORD2")
    (λ _, inl (book_of [[("orderid", AStr "SL1"); ("orderstatus", AStr "cancelled"); ("filledshares", AStr "25");
                         ("averageprice", AStr "95.5")]]))
    (λ _, inl (book_of [])).

(** The stop is cancelled, and the 50 it left are sold. *)
Lemma live_exit_is_sent_witness :
  ∃ post, w_tr (ExecuteSignal (E := stop_env) (signal_of ActionExit SideCall) stopped_world).2 = post ++ [EvCancel "SL1" stopVariety] ∧
    sold_in (E := stop_env) stopped_record 50 post.
Proof.
  destruct (live_exit_is_sent (E := stop_env) (signal_of ActionExit SideCall) stopped_world stopped_record) as (evs & Hevs & Hdone);
    [reflexivity|set_solver|set_solver|by intros n x|by intros n x|vm_compute; reflexivity..|].
  destruct Hdone as (post & -> & Hleft). exists post. split; [rewrite Hevs; apply app_nil_r|].
  cbn zeta in Hleft. match type of Hleft with match ?l with _ => _ end => assert (Hl : l = Some 50) by (vm_compute; reflexivity) end.
  rewrite Hl in Hleft. exact Hleft.
Defined.
