(* ===== verification/ExecAccounts.v ===== *)
(** What an exit's outcome does to the position (position_state.go,
    protection.go): what is reported as sold and what is left add up to what
    was tracked. *)
From S2P Require Import Prelude GoText Model Errors Fill RateLimiter Underlying Positions Oms CircuitBreaker Exec Placement ExecOps Executor Settlement Signals ExecFrame ExecInvariant ExecSafety.
#[local] Open Scope Z_scope.
#[local] Open Scope go_scope.

(** The fills reported among the events, oldest first. *)
Definition fills (evs : list Ev) : list FillReport :=
  rev (omap (λ e, match e with EvFill f => Some f | _ => None end) evs).

Definition no_fill_event (e : Ev) : Prop := match e with EvFill _ => False | _ => True end.

Lemma fills_none evs : Forall no_fill_event evs → fills evs = [].
Proof.
  unfold fills. induction 1 as [|e evs He _ IH]; [done|]. simpl. destruct e; try done; simpl; exact IH.
Qed.

Lemma fills_app a b : fills (a ++ b) = fills b ++ fills a.
Proof. unfold fills. by rewrite omap_app, rev_app_distr. Qed.

Section accounts.
Context {L : Type} {LO : OrderLedger L} {E : Env L} {MO : MapOrder}.

(** What of a record an exit's outcome is about. *)
Definition account (r : OrderRecord) : Z * string := (r_Quantity r, r_ExitOrderID r).

(** From answer [n0] on, under the lock of [k], nobody but the operation
    changes the account of the entry there. *)
Definition account_kept (n0 : nat) (k : string) (w w' : World L) : Prop :=
  (n0 ≤ w_n w)%nat → (n0 ≤ w_n w')%nat ∧ account <$> ex_entries (w_ex w') !! k = account <$> ex_entries (w_ex w) !! k.

#[export] Instance account_kept_preorder n0 k : PreOrder (account_kept n0 k).
Proof.
  split; [by intros w|]. intros w1 w2 w3 H12 H23 H. destruct (H12 H) as [Hn H1]. destruct (H23 Hn) as [Hn2 H2].
  split; [done|congruence].
Qed.

Lemma account_frame n0 k : lock_held n0 k → FrameStops (account_kept n0 k).
Proof.
  intros Hk. assert (∀ f, (∀ x, account <$> ex_entries (f x) !! k = account <$> ex_entries x !! k) → keeps (account_kept n0 k) (modify f)) as Hm.
  { intros f Hf w Hn. split; [done|]. apply Hf. }
  split; [split|..].
  - apply _.
  - intros f Hf. apply Hm. intros x. destruct (Hf x) as [(He & _) _]. by rewrite He.
  - intros w Hn. simpl. split; [lia|done].
  - intros w Hn. simpl. split; [lia|]. by destruct (Hk (w_n w) (w_ex w) Hn) as (-> & _).
  - by intros e _ w Hn.
  - intros k' id t. apply Hm. intros x. simpl. fold (update_at k' (set_SL id t) (ex_entries x)). rewrite update_at_lookup.
    case_decide; [subst|done]. by destruct (ex_entries x !! k').
  - by intros rec tr lim tag r w Hn.
Qed.

Lemma account_schedule n0 k sig : keeps (account_kept n0 k) (scheduleExitRetry sig).
Proof.
  intros w Hn. unfold scheduleExitRetry, gets, mbind, M_bind. by destruct (_ <=? _).
Qed.

Lemma no_fill_frame : FrameStops (L := L) (adds no_fill_event).
Proof.
  split; [apply adds_frame; by intros []| |]; intros **; [apply adds_modify|by apply adds_log].
Qed.
#[local] Existing Instance no_fill_frame.

(** [m] reports exactly [fs]. *)
Definition reports {A} (m : M L A) (w : World L) (fs : list FillReport) : Prop :=
  ∃ evs, w_tr (m w).2 = evs ++ w_tr w ∧ fills evs = fs.

Lemma reports_none {A} (m : M L A) w : keeps (adds no_fill_event) m → reports m w [].
Proof. intros Hm. destruct (Hm w) as (evs & Hw & Hq). exists evs. split; [done|by apply fills_none]. Qed.

Lemma reports_bind {A B} (m : M L A) (f : A → M L B) w fs fs' :
  reports m w fs → reports (f (m w).1) (m w).2 fs' → reports (m ≫= f) w (fs ++ fs').
Proof.
  intros (e1 & H1 & <-) (e2 & H2 & <-). unfold reports, mbind, M_bind. destruct (m w) as [x w1]. simpl in *.
  exists (e2 ++ e1). rewrite H2, H1, app_assoc. split; [done|by rewrite fills_app].
Qed.

Lemma no_fill_dropEntry sig : keeps (L := L) (adds no_fill_event) (dropEntry sig).
Proof. unfold dropEntry, clearPositionInstrument. keeps_auto. Qed.
Lemma no_fill_schedule sig : keeps (L := L) (adds no_fill_event) (scheduleExitRetry sig).
Proof. unfold scheduleExitRetry. seq; [keeps_auto|intros n]. destruct (_ <=? n); keeps_auto. Qed.

(** A sale at the broker's average price. *)
Definition sale (sig : Signal) (f : fillResult) (qty : Z) : FillReport :=
  {| fr_Signal := sig; fr_Direction := "SELL"; fr_FillPricePaise := f_AvgPricePaise f; fr_Qty := qty; fr_Real := true |}.

Lemma report_sale sig f t qty (w : World L) :
  0 < f_AvgPricePaise f →
  (do p ← fillPriceOr f t; reportFill sig "SELL" p qty true) w =
    ((), {| w_ex := w_ex w; w_tr := EvFill (sale sig f qty) :: w_tr w; w_n := w_n w |}).
Proof.
  intros Hp. unfold fillPriceOr. replace (0 <? f_AvgPricePaise f) with true by lia.
  unfold mbind, M_bind, mret, M_ret, reportFill. by replace (f_AvgPricePaise f <=? 0) with false by lia.
Qed.

(** The entry is there with this account; the fills so far. *)
Definition left_with (k : string) (w0 : World L) (acc : Z * string) (fs : list FillReport) (w : World L) : Prop :=
  (∃ evs, w_tr w = evs ++ w_tr w0 ∧ fills evs = fs) ∧ account <$> ex_entries (w_ex w) !! k = Some acc.

Lemma left_with_step {A} n0 k w0 acc fs (m : M L A) w :
  (n0 ≤ w_n w)%nat → keeps (adds no_fill_event) m → keeps (account_kept n0 k) m →
  left_with k w0 acc fs w → left_with k w0 acc fs (m w).2 ∧ (n0 ≤ w_n (m w).2)%nat.
Proof.
  intros Hn Hf Ha [(evs & Hw & Hfs) Hacc]. destruct (Hf w) as (evs' & Hw' & Hq). destruct (Ha w Hn) as [Hn' Ha'].
  split; [|done]. split; [|by rewrite Ha']. exists (evs' ++ evs). rewrite Hw', Hw, app_assoc. split; [done|].
  by rewrite fills_app, (fills_none evs'), app_nil_r.
Qed.

Lemma left_with_update k w0 acc acc' fs fn w :
  (∀ r, account r = acc → account (fn r) = acc') →
  left_with k w0 acc fs w → left_with k w0 acc' fs (updateEntry k fn w).2.
Proof.
  intros Hfn [Hevs Hacc]. split; [done|]. simpl. fold (update_at k fn (ex_entries (w_ex w))). rewrite update_at_lookup.
  rewrite decide_True by done. destruct (ex_entries (w_ex w) !! k) as [r|]; [|done]. simpl in *. f_equal. apply Hfn. congruence.
Qed.

Lemma left_with_rearm k w0 acc fs w :
  lock_held (w_n w) k → left_with k w0 acc fs w → left_with k w0 acc fs (rearmStop k w).2.
Proof.
  intros Hk H. pose proof (account_frame (w_n w) k Hk) as Hfr.
  apply (left_with_step (w_n w) k w0 acc fs (rearmStop k) w); [done|keeps_auto|keeps_auto|done].
Qed.

Lemma left_with_alert k w0 acc fs w what : left_with k w0 acc fs w → left_with k w0 acc fs (alertf what w).2.
Proof.
  intros [(evs & Hw & Hfs) Hacc]. split; [|done]. exists (EvAlert what :: evs). simpl. by rewrite Hw.
Qed.

Lemma left_with_schedule k w0 acc fs w sig :
  left_with k w0 acc fs w → left_with k w0 acc fs (scheduleExitRetry sig w).2.
Proof.
  intros H. apply (left_with_step (w_n w) k w0 acc fs (scheduleExitRetry sig) w);
    [done|apply no_fill_schedule|apply account_schedule|done].
Qed.

Lemma left_with_sale k w0 acc fs w sig f t qty :
  0 < f_AvgPricePaise f → left_with k w0 acc fs w →
  left_with k w0 acc (fs ++ [sale sig f qty]) (reportFill sig "SELL" (fillPriceOr f t w).1 qty true (fillPriceOr f t w).2).2.
Proof.
  intros Hp [(evs & Hw & Hfs) Hacc]. pose proof (report_sale sig f t qty w Hp) as Hr. rewrite run_bind in Hr. rewrite Hr. split; [|done].
  exists (EvFill (sale sig f qty) :: evs). simpl. rewrite Hw. split; [done|].
  change (EvFill ?e :: evs) with ([EvFill e] ++ evs). by rewrite fills_app, Hfs.
Qed.

(** C8: The outcome of an exit accounts for the whole position.  A rejected
    exit sells nothing and leaves the tracked quantity open to a new exit; a
    partial one reports what it sold, and sold and left add up to what was
    tracked; any other outcome reports the whole quantity sold and the
    position is gone. *)
Theorem exit_result_accounts sig f (w : World L) rec :
  let k := positionKey sig in
  ex_entries (w_ex w) !! k = Some rec → lock_held (w_n w) k → in_i64 (r_Quantity rec) → 0 < f_AvgPricePaise f →
  let w' := (applyExitResult sig f w).2 in
  let left q fs := left_with k w (q, "") fs w' in
  if Rejected f then left (r_Quantity rec) []
  else if Partial f && (f_FilledQty f <? r_Quantity rec)
  then left (r_Quantity rec - f_FilledQty f) [sale sig f (f_FilledQty f)] ∧ 0 < f_FilledQty f < r_Quantity rec
  else (∃ evs, w_tr w' = evs ++ w_tr w ∧ fills evs = [sale sig f (r_Quantity rec)]) ∧ ex_entries (w_ex w') !! k = None.
Proof.
  intros k Hrec Hk Hq Hp w' left. subst w' left.
  assert (left_with k w (account rec) [] w) as H0.
  { split; [by exists []|]. by rewrite Hrec. }
  unfold applyExitResult, entry, gets. fold k. rewrite run_bind. cbn [fst snd]. rewrite Hrec.
  change (default no_record (Some rec)) with rec.
  destruct (Rejected f); [|destruct (Partial f && (f_FilledQty f <? r_Quantity rec)) eqn:Hpart].
  - rewrite !run_bind. apply left_with_schedule, left_with_alert, left_with_rearm; [done|].
    eapply left_with_update; [|exact H0]. intros r [= Hr _]. unfold account. simpl. by rewrite Hr.
  - apply andb_true_iff in Hpart as [Hpart Hlt]. unfold Partial in Hpart. apply andb_true_iff in Hpart as [_ Hpos].
    assert (r_Quantity rec -! f_FilledQty f = r_Quantity rec - f_FilledQty f) as Hsub by (apply i64_id; i64_unfold; lia).
    split; [|lia]. cbv zeta. rewrite !run_bind, Hsub. apply left_with_schedule.
    apply (left_with_sale k w _ [] _ sig f (r_Token rec) (f_FilledQty f) Hp), left_with_alert, left_with_rearm; [done|].
    eapply left_with_update; [|exact H0]. by intros r [= _ _].
  - rewrite !run_bind. unfold finalizeExit.
    destruct (no_fill_dropEntry sig w) as (evs & Hw & Hnf). pose proof (dropEntry_gone sig w) as Hgone. fold k in Hgone.
    destruct (dropEntry sig w) as [[] w1]. cbn [fst snd] in *.
    pose proof (report_sale sig f (r_Token rec) (r_Quantity rec) w1 Hp) as Hr. rewrite run_bind in Hr. rewrite Hr.
    cbn [snd w_tr w_ex]. split; [|done].
    exists (EvFill (sale sig f (r_Quantity rec)) :: evs). rewrite Hw. split; [done|].
    change (EvFill ?e :: evs) with ([EvFill e] ++ evs). by rewrite fills_app, (fills_none evs).
Qed.
End accounts.

#[local] Existing Instance canonical_order.

(** 50 of 75 sold: 25 are left. *)
Lemma exit_result_accounts_witness :
  let f := {| f_Status := "cancelled"; f_FilledQty := 50; f_AvgPricePaise := 12500; f_Text := "" |} in
  left_with (L := Ledger Journal) "NIFTY50_SR|CALL" held_world (25, "") [sale (signal_of ActionExit SideCall) f 50]
    (applyExitResult (E := fifty_env) (signal_of ActionExit SideCall) f held_world).2.
Proof.
  intros f.
  destruct (exit_result_accounts (E := fifty_env) (signal_of ActionExit SideCall) f held_world held_record) as [H _].
  - vm_compute. reflexivity.
  - by intros n x.
  - vm_compute. split; discriminate.
  - vm_compute. reflexivity.
  - exact H.
Defined.
