(* ===== verification/Portfolio.v ===== *)
(** Positions, profit and loss, and risk limits (internal/portfolio:
    portfolio.go, pnl.go, risk.go).  The mutexes are the atomicity of each
    operation; the JSON of the snapshots is not modelled, a snapshot is what
    it carries.  *)
From Stdlib Require Import SpecFloat.
From S2P Require Import Prelude Float64 GoText Model.
#[local] Open Scope Z_scope.
#[local] Open Scope go_scope.

(** ** Portfolio (portfolio.go) *)

Record Position := {
  pf_Token : string;
  pf_Exchange : string;
  pf_Qty : Z;
  pf_AvgPrice : Z;
  pf_LastLTP : Z;
}.

Definition Position_UnrealizedPnL (p : Position) : Z := (pf_LastLTP p -! pf_AvgPrice p) *! pf_Qty p.

Abbreviation Portfolio := (gmap string Position) (only parsing).
Definition New : Portfolio := ∅.

Definition OpenPosition (token exchange : string) (qty price : Z) (pf : Portfolio) : Portfolio :=
  let key := exchange +:+ ":" +:+ token in
  match pf !! key with
  | Some pos =>
      let totalCost := pf_AvgPrice pos *! pf_Qty pos +! price *! qty in
      let q := pf_Qty pos +! qty in
      <[key := {| pf_Token := pf_Token pos; pf_Exchange := pf_Exchange pos; pf_Qty := q;
                  pf_AvgPrice := if q =? 0 then pf_AvgPrice pos else totalCost /! q;
                  pf_LastLTP := pf_LastLTP pos |}]> pf
  | None =>
      <[key := {| pf_Token := token; pf_Exchange := exchange; pf_Qty := qty; pf_AvgPrice := price; pf_LastLTP := 0 |}]> pf
  end.

Definition ClosePosition (token exchange : string) (pf : Portfolio) : option Position * Portfolio :=
  let key := exchange +:+ ":" +:+ token in
  match pf !! key with Some pos => (Some pos, delete key pf) | None => (None, pf) end.

Definition UpdatePrice (c : Candle) (pf : Portfolio) : Portfolio :=
  let key := c_Exchange c +:+ ":" +:+ c_Token c in
  match pf !! key with
  | Some pos => <[key := {| pf_Token := pf_Token pos; pf_Exchange := pf_Exchange pos; pf_Qty := pf_Qty pos;
                            pf_AvgPrice := pf_AvgPrice pos; pf_LastLTP := c_Close c |}]> pf
  | None => pf
  end.

Section portfolio.
Context {MO : MapOrder}.

Definition GetPositions (pf : Portfolio) : list Position := (range pf).*2.
Definition PositionCount (pf : Portfolio) : Z := Z.of_nat (size pf).

Definition TotalExposure (pf : Portfolio) : Z :=
  foldl (λ total p,
    let exp := pf_Qty p *! pf_AvgPrice p in
    total +! (if exp <? 0 then -! exp else exp)) 0 (GetPositions pf).

Definition TotalUnrealizedPnL (pf : Portfolio) : Z :=
  foldl (λ total p, total +! Position_UnrealizedPnL p) 0 (GetPositions pf).

Definition RestorePositions (positions : list Position) : Portfolio :=
  foldl (λ pf p, <[pf_Exchange p +:+ ":" +:+ pf_Token p := p]> pf) ∅ positions.
End portfolio.

(** ** Profit and loss (pnl.go) *)

Record Trade := {
  tr_Token : string;
  tr_Exchange : string;
  tr_Action : string;
  tr_Qty : Z;
  tr_Price : Z;
  tr_Timestamp : Time;
  tr_StrategyName : string;
  tr_Short : bool;
}.

Record costEntry := { ce_Qty : Z; ce_AvgPrice : Z }.
Definition no_cost : costEntry := {| ce_Qty := 0; ce_AvgPrice := 0 |}.

Record PnLTracker := {
  p_trades : list Trade;
  p_realizedPnL : Z;
  p_costBasis : gmap string costEntry;
  p_dailyTradeCount : Z;
  p_dailyWins : Z;
  p_dailyLosses : Z;
  p_dailyLargestWin : Z;
  p_dailyLargestLoss : Z;
  p_strategyDailyPnL : gmap string Z;
}.

Definition NewPnLTracker : PnLTracker := {|
  p_trades := []; p_realizedPnL := 0; p_costBasis := ∅; p_dailyTradeCount := 0; p_dailyWins := 0;
  p_dailyLosses := 0; p_dailyLargestWin := 0; p_dailyLargestLoss := 0; p_strategyDailyPnL := ∅ |}.

Definition trade_key (t : Trade) : string := tr_Exchange t +:+ ":" +:+ tr_Token t.

Definition set_cost (key : string) (e : costEntry) (p : PnLTracker) : PnLTracker := {|
  p_trades := p_trades p; p_realizedPnL := p_realizedPnL p; p_costBasis := <[key := e]> (p_costBasis p);
  p_dailyTradeCount := p_dailyTradeCount p; p_dailyWins := p_dailyWins p; p_dailyLosses := p_dailyLosses p;
  p_dailyLargestWin := p_dailyLargestWin p; p_dailyLargestLoss := p_dailyLargestLoss p;
  p_strategyDailyPnL := p_strategyDailyPnL p |}.

(** The realized total and the strategy's share of it. *)
Definition add_realized (strategyName : string) (pnl : Z) (p : PnLTracker) : PnLTracker := {|
  p_trades := p_trades p; p_realizedPnL := p_realizedPnL p +! pnl; p_costBasis := p_costBasis p;
  p_dailyTradeCount := p_dailyTradeCount p; p_dailyWins := p_dailyWins p; p_dailyLosses := p_dailyLosses p;
  p_dailyLargestWin := p_dailyLargestWin p; p_dailyLargestLoss := p_dailyLargestLoss p;
  p_strategyDailyPnL :=
    if String.eqb strategyName "" then p_strategyDailyPnL p
    else <[strategyName := default 0 (p_strategyDailyPnL p !! strategyName) +! pnl]> (p_strategyDailyPnL p) |}.

Definition bookRealizedLocked (strategyName : string) (pnl : Z) (p : PnLTracker) : PnLTracker :=
  let p := add_realized strategyName pnl p in {|
  p_trades := p_trades p; p_realizedPnL := p_realizedPnL p; p_costBasis := p_costBasis p;
  p_dailyTradeCount := p_dailyTradeCount p;
  p_dailyWins := if 0 <? pnl then p_dailyWins p +! 1 else p_dailyWins p;
  p_dailyLosses := if pnl <? 0 then p_dailyLosses p +! 1 else p_dailyLosses p;
  p_dailyLargestWin := if (0 <? pnl) && (p_dailyLargestWin p <? pnl) then pnl else p_dailyLargestWin p;
  p_dailyLargestLoss := if (pnl <? 0) && (pnl <? p_dailyLargestLoss p) then pnl else p_dailyLargestLoss p;
  p_strategyDailyPnL := p_strategyDailyPnL p |}.

(** The short leg: realized P&L, the new entry, the tracker.  [None] is the
    division by zero of a sale that brings the short back to nothing. *)
Definition recordShortLocked (t : Trade) (e : costEntry) (p : PnLTracker) : option (Z * costEntry * PnLTracker) :=
  if String.eqb (tr_Action t) "SELL" then
    let held := -! ce_Qty e in
    if held <=? 0 then Some (0, {| ce_Qty := -! tr_Qty t; ce_AvgPrice := tr_Price t |}, p)
    else
      let total := ce_AvgPrice e *! held +! tr_Price t *! tr_Qty t in
      let qty := ce_Qty e -! tr_Qty t in
      if -! qty =? 0 then None
      else Some (0, {| ce_Qty := qty; ce_AvgPrice := total /! (-! qty) |}, p)
  else
    let held := -! ce_Qty e in
    let cover := if held <? tr_Qty t then held else tr_Qty t in
    if cover <=? 0 then Some (0, e, p)
    else
      let realized := (ce_AvgPrice e -! tr_Price t) *! cover in
      let qty := ce_Qty e +! cover in
      Some (realized, if 0 <=? qty then no_cost else {| ce_Qty := qty; ce_AvgPrice := ce_AvgPrice e |},
            bookRealizedLocked (tr_StrategyName t) realized p).

(** The trade list and the day's count. *)
Definition append_trade (t : Trade) (p : PnLTracker) : PnLTracker := {|
  p_trades := p_trades p ++ [t]; p_realizedPnL := p_realizedPnL p; p_costBasis := p_costBasis p;
  p_dailyTradeCount := p_dailyTradeCount p +! 1; p_dailyWins := p_dailyWins p; p_dailyLosses := p_dailyLosses p;
  p_dailyLargestWin := p_dailyLargestWin p; p_dailyLargestLoss := p_dailyLargestLoss p;
  p_strategyDailyPnL := p_strategyDailyPnL p |}.

Definition RecordTrade (t : Trade) (p : PnLTracker) : option (Z * PnLTracker) :=
  let p := append_trade t p in
  let key := trade_key t in
  let e := default no_cost (p_costBasis p !! key) in
  if tr_Short t then
    '(realized, e, p) ← recordShortLocked t e p; Some (realized, set_cost key e p)
  else if String.eqb (tr_Action t) "BUY" then
    let e' :=
      if ce_Qty e =? 0 then {| ce_Qty := tr_Qty t; ce_AvgPrice := tr_Price t |}
      else
        let totalCost := ce_AvgPrice e *! ce_Qty e +! tr_Price t *! tr_Qty t in
        let qty := ce_Qty e +! tr_Qty t in
        {| ce_Qty := qty; ce_AvgPrice := if 0 <? qty then totalCost /! qty else ce_AvgPrice e |} in
    Some (0, set_cost key e' p)
  else
    let sellQty := if ce_Qty e <? tr_Qty t then ce_Qty e else tr_Qty t in
    let realized := (tr_Price t -! ce_AvgPrice e) *! sellQty in
    let qty := ce_Qty e -! sellQty in
    let e' := if qty <=? 0 then no_cost else {| ce_Qty := qty; ce_AvgPrice := ce_AvgPrice e |} in
    Some (realized, set_cost key e' (bookRealizedLocked (tr_StrategyName t) realized p)).

(** The newest trade that matches, with what comes before and after it. *)
Fixpoint last_match (m : Trade → bool) (ts : list Trade) : option (list Trade * Trade * list Trade) :=
  match ts with
  | [] => None
  | t :: ts =>
      match last_match m ts with
      | Some (before, x, after) => Some (t :: before, x, after)
      | None => if m t then Some ([], t, ts) else None
      end
  end.

Definition set_price (price : Z) (t : Trade) : Trade := {|
  tr_Token := tr_Token t; tr_Exchange := tr_Exchange t; tr_Action := tr_Action t; tr_Qty := tr_Qty t;
  tr_Price := price; tr_Timestamp := tr_Timestamp t; tr_StrategyName := tr_StrategyName t; tr_Short := tr_Short t |}.

Definition set_trades (ts : list Trade) (p : PnLTracker) : PnLTracker := {|
  p_trades := ts; p_realizedPnL := p_realizedPnL p; p_costBasis := p_costBasis p;
  p_dailyTradeCount := p_dailyTradeCount p; p_dailyWins := p_dailyWins p; p_dailyLosses := p_dailyLosses p;
  p_dailyLargestWin := p_dailyLargestWin p; p_dailyLargestLoss := p_dailyLargestLoss p;
  p_strategyDailyPnL := p_strategyDailyPnL p |}.

Definition CorrectLastFill (strategyName exchange token action : string) (fillPrice : Z) (p : PnLTracker) :
    Z * bool * PnLTracker :=
  let m t := String.eqb (tr_StrategyName t) strategyName && String.eqb (tr_Exchange t) exchange &&
             String.eqb (tr_Token t) token && String.eqb (tr_Action t) action in
  match last_match m (p_trades p) with
  | None => (0, false, p)
  | Some (before, tr, after) =>
      let diff := fillPrice -! tr_Price tr in
      let p := set_trades (before ++ set_price fillPrice tr :: after) p in
      if diff =? 0 then (0, true, p)
      else
        let key := exchange +:+ ":" +:+ token in
        let e := default no_cost (p_costBasis p !! key) in
        if String.eqb action "BUY" && (0 <? ce_Qty e) then
          (0, true, set_cost key {| ce_Qty := ce_Qty e; ce_AvgPrice := ce_AvgPrice e +! diff *! tr_Qty tr /! ce_Qty e |} p)
        else
          let delta := if String.eqb action "BUY" then -! diff *! tr_Qty tr else diff *! tr_Qty tr in
          (delta, true, add_realized strategyName delta p)
  end.

Definition GetStrategyDailyPnL (strategyName : string) (p : PnLTracker) : Z :=
  default 0 (p_strategyDailyPnL p !! strategyName).

Definition ResetDaily (p : PnLTracker) : PnLTracker := {|
  p_trades := p_trades p; p_realizedPnL := p_realizedPnL p; p_costBasis := p_costBasis p;
  p_dailyTradeCount := 0; p_dailyWins := 0; p_dailyLosses := 0; p_dailyLargestWin := 0; p_dailyLargestLoss := 0;
  p_strategyDailyPnL := ∅ |}.

Record DailyStats := {
  ds_TradeCount : Z; ds_Wins : Z; ds_Losses : Z; ds_WinRate : float64; ds_LargestWin : Z; ds_LargestLoss : Z }.

Definition GetDailyStats (p : PnLTracker) : DailyStats :=
  let total := p_dailyWins p +! p_dailyLosses p in {|
  ds_TradeCount := p_dailyTradeCount p; ds_Wins := p_dailyWins p; ds_Losses := p_dailyLosses p;
  ds_WinRate := if 0 <? total
                then f64_mul (f64_div (f64_of_int (p_dailyWins p)) (f64_of_int total)) (f64_of_int 100)
                else f64_of_int 0;
  ds_LargestWin := p_dailyLargestWin p; ds_LargestLoss := p_dailyLargestLoss p |}.

Record PnLSummary := {
  ps_RealizedPnL : Z; ps_UnrealizedPnL : Z; ps_TotalPnL : Z; ps_TotalTrades : Z; ps_OpenPositions : Z }.

Section pnl.
Context {MO : MapOrder}.

Definition GetUnrealizedPnL (currentPrices : gmap string Z) (p : PnLTracker) : Z :=
  foldl (λ acc '(key, e),
    if ce_Qty e =? 0 then acc
    else match currentPrices !! key with
         | Some price => acc +! (price -! ce_AvgPrice e) *! ce_Qty e
         | None => acc
         end) 0 (range (p_costBasis p)).

Definition GetSummary (currentPrices : gmap string Z) (p : PnLTracker) : PnLSummary :=
  let unrealized := GetUnrealizedPnL currentPrices p in {|
  ps_RealizedPnL := p_realizedPnL p; ps_UnrealizedPnL := unrealized; ps_TotalPnL := p_realizedPnL p +! unrealized;
  ps_TotalTrades := Z.of_nat (length (p_trades p));
  ps_OpenPositions := Z.of_nat (length (filter (λ ke : string * costEntry, ce_Qty ke.2 ≠ 0) (range (p_costBasis p)))) |}.
End pnl.

(** [RestorePnL] of the snapshot of [snap]: an empty strategy map is left out
    of the JSON and then not restored. *)
Definition RestorePnL (snap p : PnLTracker) : PnLTracker := {|
  p_trades := p_trades snap; p_realizedPnL := p_realizedPnL snap; p_costBasis := p_costBasis snap;
  p_dailyTradeCount := p_dailyTradeCount snap; p_dailyWins := p_dailyWins snap; p_dailyLosses := p_dailyLosses snap;
  p_dailyLargestWin := p_dailyLargestWin snap; p_dailyLargestLoss := p_dailyLargestLoss snap;
  p_strategyDailyPnL := if decide (p_strategyDailyPnL snap = ∅) then p_strategyDailyPnL p else p_strategyDailyPnL snap |}.

(** ** Risk (risk.go) *)

Record RiskLimits := {
  MaxPositionSize : Z; MaxDailyLoss : Z; MaxOpenPositions : Z; MaxExposure : Z; MaxDrawdownPct : float64 }.

Definition DefaultRiskLimits : RiskLimits := {|
  MaxPositionSize := 100; MaxDailyLoss := 500000; MaxOpenPositions := 5; MaxExposure := 10000000;
  MaxDrawdownPct := f64_of_int 5 |}.

Record RiskManager := {
  rm_limits : RiskLimits;
  rm_dailyPnL : Z;
  rm_equity : Z;
  rm_peakEquity : Z;
  rm_killSwitch : bool;
  rm_winStreak : Z;
  rm_lossStreak : Z;
  rm_currentStreakType : string;
}.

Definition NewRiskManager (limits : RiskLimits) (initialEquity : Z) : RiskManager := {|
  rm_limits := limits; rm_dailyPnL := 0; rm_equity := initialEquity; rm_peakEquity := initialEquity;
  rm_killSwitch := false; rm_winStreak := 0; rm_lossStreak := 0; rm_currentStreakType := "" |}.

Definition drawdown (rm : RiskManager) : float64 :=
  f64_mul (f64_div (f64_of_int (rm_peakEquity rm -! rm_equity rm)) (f64_of_int (rm_peakEquity rm))) (f64_of_int 100).

Definition CanTrade `{MO : MapOrder} (token exchange : string) (qty : Z) (pf : Portfolio) (rm : RiskManager) : bool * string :=
  if rm_killSwitch rm then (false, "kill switch is active")
  else
    let positions := GetPositions pf in
    let key := exchange +:+ ":" +:+ token in
    let isNew := negb (existsb (λ pos, String.eqb (pf_Exchange pos +:+ ":" +:+ pf_Token pos) key) positions) in
    if isNew && (MaxOpenPositions (rm_limits rm) <=? Z.of_nat (length positions)) then (false, "max open positions reached")
    else if (MaxPositionSize (rm_limits rm) <? qty) || (qty <? -! MaxPositionSize (rm_limits rm))
    then (false, "position size exceeds limit")
    else if rm_dailyPnL rm <? -! MaxDailyLoss (rm_limits rm) then (false, "max daily loss reached")
    else if (0 <? rm_peakEquity rm) && f64_ltb (MaxDrawdownPct (rm_limits rm)) (drawdown rm) then (false, "max drawdown exceeded")
    else if MaxExposure (rm_limits rm) <=? TotalExposure pf then (false, "max exposure reached")
    else (true, "").

Definition RecordPnL (pnl : Z) (rm : RiskManager) : RiskManager :=
  let equity := rm_equity rm +! pnl in
  let win := String.eqb (rm_currentStreakType rm) "win" in
  let loss := String.eqb (rm_currentStreakType rm) "loss" in {|
  rm_limits := rm_limits rm;
  rm_dailyPnL := rm_dailyPnL rm +! pnl;
  rm_equity := equity;
  rm_peakEquity := if rm_peakEquity rm <? equity then equity else rm_peakEquity rm;
  rm_killSwitch := rm_killSwitch rm;
  rm_winStreak := if 0 <? pnl then (if win then rm_winStreak rm +! 1 else 1)
                  else if pnl <? 0 then (if loss then rm_winStreak rm else 0) else rm_winStreak rm;
  rm_lossStreak := if 0 <? pnl then (if win then rm_lossStreak rm else 0)
                   else if pnl <? 0 then (if loss then rm_lossStreak rm +! 1 else 1) else rm_lossStreak rm;
  rm_currentStreakType := if 0 <? pnl then "win" else if pnl <? 0 then "loss" else rm_currentStreakType rm |}.

Definition RiskResetDaily (rm : RiskManager) : RiskManager := {|
  rm_limits := rm_limits rm; rm_dailyPnL := 0; rm_equity := rm_equity rm; rm_peakEquity := rm_peakEquity rm;
  rm_killSwitch := rm_killSwitch rm; rm_winStreak := rm_winStreak rm; rm_lossStreak := rm_lossStreak rm;
  rm_currentStreakType := rm_currentStreakType rm |}.

Definition SetKillSwitch (active : bool) (rm : RiskManager) : RiskManager := {|
  rm_limits := rm_limits rm; rm_dailyPnL := rm_dailyPnL rm; rm_equity := rm_equity rm; rm_peakEquity := rm_peakEquity rm;
  rm_killSwitch := active; rm_winStreak := rm_winStreak rm; rm_lossStreak := rm_lossStreak rm;
  rm_currentStreakType := rm_currentStreakType rm |}.

(** [RestoreRisk]: everything but the limits comes from the snapshot. *)
Definition RestoreRisk (snap rm : RiskManager) : RiskManager := {|
  rm_limits := rm_limits rm; rm_dailyPnL := rm_dailyPnL snap; rm_equity := rm_equity snap;
  rm_peakEquity := rm_peakEquity snap; rm_killSwitch := rm_killSwitch snap; rm_winStreak := rm_winStreak snap;
  rm_lossStreak := rm_lossStreak snap; rm_currentStreakType := rm_currentStreakType snap |}.

(** ** Sums over a map *)

Definition map_sum {A} (f : A → Z) (m : gmap string A) : Z := map_fold (λ _ x acc, f x + acc) 0 m.

Lemma map_sum_empty {A} (f : A → Z) : map_sum f ∅ = 0.
Proof. apply map_fold_empty. Qed.

Lemma map_sum_delete {A} (f : A → Z) m k x : m !! k = Some x → map_sum f m = f x + map_sum f (delete k m).
Proof. intros Hk. unfold map_sum. apply (map_fold_delete_L (λ _ x acc, f x + acc)); [|done]. intros. lia. Qed.

Lemma map_sum_insert {A} (f : A → Z) m k x :
  map_sum f (<[k := x]> m) = map_sum f m - from_option f 0 (m !! k) + f x.
Proof.
  rewrite (map_sum_delete f (<[k := x]> m) k x) by apply lookup_insert_eq. rewrite delete_insert_eq.
  destruct (m !! k) as [y|] eqn:Hk; simpl.
  - rewrite (map_sum_delete f m k y) by done. lia.
  - rewrite delete_id by done. lia.
Qed.

(** ** Realized P&L is cash up to rounding *)

(** What a day of long trades is worth, without averages: held quantities,
    cash, and the paise an average can lose. *)
Record account := { ac_held : gmap string Z; ac_cash : Z; ac_slack : Z }.
Definition no_account : account := {| ac_held := ∅; ac_cash := 0; ac_slack := 0 |}.

Definition settle_trade (a : account) (t : Trade) : account :=
  let k := trade_key t in
  let held := default 0 (ac_held a !! k) in
  if String.eqb (tr_Action t) "BUY" then {|
    ac_held := <[k := held + tr_Qty t]> (ac_held a);
    ac_cash := ac_cash a - tr_Price t * tr_Qty t;
    ac_slack := if held =? 0 then ac_slack a else ac_slack a + (held + tr_Qty t - 1) |}
  else
    let sold := Z.min held (tr_Qty t) in {|
    ac_held := <[k := held - sold]> (ac_held a);
    ac_cash := ac_cash a + tr_Price t * sold;
    ac_slack := ac_slack a |}.

(** Trades of the sizes the system makes: unflagged, up to 10,000 units at up
    to a lakh rupees each. *)
Definition trade_ok (t : Trade) : Prop :=
  tr_Short t = false ∧ 0 < tr_Qty t <= 10 ^ 4 ∧ 0 <= tr_Price t <= 10 ^ 7.

Fixpoint record_all (ts : list Trade) (p : PnLTracker) : option PnLTracker :=
  match ts with
  | [] => Some p
  | t :: ts => '(_, p) ← RecordTrade t p; record_all ts p
  end.

(** What the open positions cost, by the tracker's averages. *)
Definition book_value (p : PnLTracker) : Z := map_sum (λ e, ce_AvgPrice e * ce_Qty e) (p_costBasis p).

Definition cost_at (p : PnLTracker) (k : string) : costEntry := default no_cost (p_costBasis p !! k).

Record books (n : Z) (p : PnLTracker) (a : account) : Prop := {
  bk_qty : ∀ k, ce_Qty (cost_at p k) = default 0 (ac_held a !! k);
  bk_bounds : ∀ k, 0 <= ce_Qty (cost_at p k) <= n * 10 ^ 4 ∧ 0 <= ce_AvgPrice (cost_at p k) <= 10 ^ 7;
  bk_realized : - n * 10 ^ 11 <= p_realizedPnL p <= n * 10 ^ 11;
  bk_cash : 0 <= p_realizedPnL p - (ac_cash a + book_value p) <= ac_slack a;
}.

Lemma book_value_set k e p :
  book_value (set_cost k e p) =
  book_value p - ce_AvgPrice (cost_at p k) * ce_Qty (cost_at p k) + ce_AvgPrice e * ce_Qty e.
Proof.
  unfold book_value, cost_at. simpl. rewrite map_sum_insert. by destruct (p_costBasis p !! k).
Qed.

Lemma cost_at_set k e p k' : cost_at (set_cost k e p) k' = if decide (k' = k) then e else cost_at p k'.
Proof.
  unfold cost_at. simpl. case_decide; [subst; by rewrite lookup_insert_eq|by rewrite lookup_insert_ne].
Qed.

(** The books after a step that sets one entry. *)
Lemma books_step n p p0 a a' k e :
  books n p a → 0 <= n →
  p_costBasis p0 = p_costBasis p →
  ac_held a' = <[k := ce_Qty e]> (ac_held a) →
  0 <= ce_Qty e <= (n + 1) * 10 ^ 4 → 0 <= ce_AvgPrice e <= 10 ^ 7 →
  - (n + 1) * 10 ^ 11 <= p_realizedPnL p0 <= (n + 1) * 10 ^ 11 →
  0 <= p_realizedPnL p0 - p_realizedPnL p - (ac_cash a' - ac_cash a) -
       (ce_AvgPrice e * ce_Qty e - ce_AvgPrice (cost_at p k) * ce_Qty (cost_at p k)) <= ac_slack a' - ac_slack a →
  books (n + 1) (set_cost k e p0) a'.
Proof.
  intros [Hq Hb Hr Hc] Hn Hsame Hheld Heq Hea Hr' Hc'.
  assert (∀ k', cost_at p0 k' = cost_at p k') as Hcost by (intros k'; unfold cost_at; by rewrite Hsame).
  assert (book_value p0 = book_value p) as Hbv by (unfold book_value; by rewrite Hsame).
  split.
  - intros k'. rewrite cost_at_set, Hheld. case_decide as Hk; [subst; by rewrite lookup_insert_eq|].
    rewrite lookup_insert_ne, Hcost by done. apply Hq.
  - intros k'. rewrite cost_at_set. case_decide; [done|]. rewrite Hcost. specialize (Hb k'). lia.
  - done.
  - rewrite book_value_set, Hcost, Hbv. simpl. lia.
Qed.

Lemma average_bounds avg q price qty :
  0 <= avg <= 10 ^ 7 → 0 < q <= 10 ^ 10 → 0 <= price <= 10 ^ 7 → 0 < qty <= 10 ^ 4 →
  let total := avg *! q +! price *! qty in
  let a := total /! (q + qty) in
  0 <= a <= 10 ^ 7 ∧ 0 <= avg * q + price * qty - a * (q + qty) <= q + qty - 1.
Proof.
  intros Ha Hq Hp Hqty total a.
  assert (0 <= avg * q <= 10 ^ 17) by nia. assert (0 <= price * qty <= 10 ^ 11) by nia.
  assert (total = avg * q + price * qty) as Ht.
  { subst total. rewrite (i64_id (avg * q)), (i64_id (price * qty)) by (i64_unfold; lia). apply i64_id. i64_unfold. lia. }
  assert (a = total / (q + qty)) as Hdiv.
  { subst a. rewrite Z.quot_div_nonneg by lia. apply i64_id. i64_unfold.
    pose proof (Z.div_pos total (q + qty)). pose proof (Z.div_le_upper_bound total (q + qty) (10 ^ 18)). nia. }
  rewrite Hdiv. pose proof (Z.div_mod total (q + qty)). pose proof (Z.mod_pos_bound total (q + qty)).
  split; [|lia]. split; [apply Z.div_pos; lia|]. apply Z.div_le_upper_bound; nia.
Qed.

Lemma RecordTrade_books n t p a :
  0 <= n < 10 ^ 6 → trade_ok t → books n p a →
  ∃ r p', RecordTrade t p = Some (r, p') ∧ books (n + 1) p' (settle_trade a t).
Proof.
  intros Hn (Hshort & Hqty & Hprice) HB. pose proof HB as [Hq Hb Hr _].
  unfold RecordTrade. rewrite Hshort. change (p_costBasis (append_trade t p)) with (p_costBasis p).
  fold (cost_at p (trade_key t)). unfold settle_trade. rewrite <-Hq.
  destruct (Hb (trade_key t)) as [Hbq Hba]. set (e := cost_at p (trade_key t)) in *.
  destruct (String.eqb (tr_Action t) "BUY"); do 2 eexists; (split; [reflexivity|]).
  - destruct (Z.eqb_spec (ce_Qty e) 0) as [Hz|Hz].
    + apply (books_step n p _ a); simpl; try done; try lia; fold e; rewrite ?Hz; [done|lia..].
    + assert (ce_Qty e +! tr_Qty t = ce_Qty e + tr_Qty t) as Hadd by (apply i64_id; i64_unfold; lia). rewrite Hadd.
      replace (0 <? ce_Qty e + tr_Qty t) with true by lia.
      destruct (average_bounds (ce_AvgPrice e) (ce_Qty e) (tr_Price t) (tr_Qty t)) as [Havg Hround]; try lia.
      apply (books_step n p _ a); simpl; try done; try lia. fold e. lia.
  - assert (∀ x y, (if x <? y then x else y) = Z.min x y) as Hmin by (intros x y; destruct (Z.ltb_spec x y); lia).
    rewrite Hmin. set (sold := Z.min (ce_Qty e) (tr_Qty t)).
    assert (0 <= sold <= 10 ^ 4 ∧ sold <= ce_Qty e) as [Hs Hsq] by lia.
    assert (tr_Price t -! ce_AvgPrice e = tr_Price t - ce_AvgPrice e) as -> by (apply i64_id; i64_unfold; lia).
    assert (- 10 ^ 11 <= (tr_Price t - ce_AvgPrice e) * sold <= 10 ^ 11) as Hreal by nia.
    rewrite (i64_id ((tr_Price t - ce_AvgPrice e) * sold)) by (i64_unfold; lia).
    assert (ce_Qty e -! sold = ce_Qty e - sold) as -> by (apply i64_id; i64_unfold; lia).
    assert (p_realizedPnL p +! (tr_Price t - ce_AvgPrice e) * sold = p_realizedPnL p + (tr_Price t - ce_AvgPrice e) * sold) as Hsum
      by (apply i64_id; i64_unfold; lia).
    apply (books_step n p _ a); simpl; rewrite ?Hsum; try done; try lia; fold e.
    + case_match; simpl; [|done]. do 2 f_equal. lia.
    + case_match; simpl; lia.
    + case_match; simpl; lia.
    + case_match; simpl; [|lia]. assert (ce_Qty e = sold) as -> by lia. lia.
Qed.

Lemma no_books : books 0 NewPnLTracker no_account.
Proof.
  assert (∀ k, cost_at NewPnLTracker k = no_cost) as Hc by (intros k; unfold cost_at; simpl; by rewrite lookup_empty).
  split.
  - intros k. rewrite Hc. simpl. by rewrite lookup_empty.
  - intros k. rewrite Hc. simpl. lia.
  - simpl. lia.
  - assert (book_value NewPnLTracker = 0) as -> by apply map_sum_empty. simpl. lia.
Qed.

Lemma record_all_books ts n p a :
  0 <= n → n + Z.of_nat (length ts) <= 10 ^ 6 → Forall trade_ok ts → books n p a →
  ∃ p', record_all ts p = Some p' ∧ books (n + Z.of_nat (length ts)) p' (foldl settle_trade a ts).
Proof.
  revert n p a. induction ts as [|t ts IH]; intros n p a Hn Hlen Hok HB.
  - exists p. split; [done|]. simpl. by rewrite Z.add_0_r.
  - apply Forall_cons in Hok as [Ht Hok]. cbn [length] in Hlen.
    destruct (RecordTrade_books n t p a) as (r & p1 & Hrec & HB1); [lia|done|done|].
    destruct (IH (n + 1) p1 (settle_trade a t)) as (p' & Hall & HB'); [lia|lia|done|done|].
    exists p'. simpl. rewrite Hrec. simpl. split; [done|]. cbn [length].
    by replace (n + Z.of_nat (S (length ts))) with (n + 1 + Z.of_nat (length ts)) by lia.
Qed.

(** C14: Realized P&L is cash up to rounding.  After any day of long trades
    (up to a million), the tracker has not failed, holds exactly the
    quantities bought and not sold, and its realized P&L is what the trades
    brought in plus what the open positions cost by its averages, overstated
    by at most the paise the averages rounded away: less than one paisa per
    unit held at each averaging BUY. *)
Theorem realized_is_cash_up_to_rounding ts :
  Forall trade_ok ts → Z.of_nat (length ts) <= 10 ^ 6 →
  let a := foldl settle_trade no_account ts in
  ∃ p, record_all ts NewPnLTracker = Some p ∧
    (∀ k, ce_Qty (cost_at p k) = default 0 (ac_held a !! k)) ∧
    0 <= p_realizedPnL p - (ac_cash a + book_value p) <= ac_slack a.
Proof.
  intros Hok Hlen a. destruct (record_all_books ts 0 NewPnLTracker no_account) as (p & Hp & [Hq _ _ Hc]);
    [lia|lia|done|apply no_books|]. by exists p.
Qed.

Definition long_trade (action : string) (qty price : Z) : Trade := {|
  tr_Token := "43001"; tr_Exchange := "NFO"; tr_Action := action; tr_Qty := qty; tr_Price := price;
  tr_Timestamp := 0; tr_StrategyName := "NIFTY50_SR"; tr_Short := false |}.

(** 75 at 120.05, 75 at 130.00: the average is rounded down to 125.02, and
    150 sold at 140.00 realize 75 paise too much. *)
Lemma realized_is_cash_up_to_rounding_witness :
  let ts := [long_trade "BUY" 75 12005; long_trade "BUY" 75 13000; long_trade "SELL" 150 14000] in
  ∃ p, record_all ts NewPnLTracker = Some p ∧ p_realizedPnL p = 224700 ∧
    ac_cash (foldl settle_trade no_account ts) = 224625 ∧
    0 <= p_realizedPnL p - (ac_cash (foldl settle_trade no_account ts) + book_value p) <= 149.
Proof.
  intros ts. destruct (realized_is_cash_up_to_rounding ts) as (p & Hp & _ & Hc).
  - repeat constructor; vm_compute; congruence.
  - vm_compute. discriminate.
  - exists p. split; [exact Hp|]. assert (Some (p_realizedPnL p) = Some 224700) as [= Hr].
    { change (Some (p_realizedPnL p)) with (p_realizedPnL <$> Some p). rewrite <-Hp. vm_compute. reflexivity. }
    split; [exact Hr|]. split; [vm_compute; reflexivity|]. exact Hc.
Defined.

(** ** Correcting a fill *)

(** Two trackers that differ in their win and loss tallies at most. *)
Definition same_books (p p' : PnLTracker) : Prop :=
  p_trades p = p_trades p' ∧ p_realizedPnL p = p_realizedPnL p' ∧ p_costBasis p = p_costBasis p' ∧
  p_strategyDailyPnL p = p_strategyDailyPnL p' ∧ p_dailyTradeCount p = p_dailyTradeCount p'.

Lemma last_match_snoc m ts t : m t = true → last_match m (ts ++ [t]) = Some (ts, t, []).
Proof. intros Hm. induction ts as [|x ts IH]; simpl; [by rewrite Hm|by rewrite IH]. Qed.

(** Correcting the trade just recorded finds that trade. *)
Lemma correct_last t price ts q :
  p_trades q = ts ++ [t] →
  CorrectLastFill (tr_StrategyName t) (tr_Exchange t) (tr_Token t) (tr_Action t) price q =
  let p := set_trades (ts ++ [set_price price t]) q in
  let diff := price -! tr_Price t in
  if diff =? 0 then (0, true, p)
  else
    let e := cost_at q (trade_key t) in
    if String.eqb (tr_Action t) "BUY" && (0 <? ce_Qty e) then
      (0, true, set_cost (trade_key t) {| ce_Qty := ce_Qty e; ce_AvgPrice := ce_AvgPrice e +! diff *! tr_Qty t /! ce_Qty e |} p)
    else
      let delta := if String.eqb (tr_Action t) "BUY" then -! diff *! tr_Qty t else diff *! tr_Qty t in
      (delta, true, add_realized (tr_StrategyName t) delta p).
Proof. intros Hq. unfold CorrectLastFill. rewrite Hq, last_match_snoc by (rewrite !String.eqb_refl; done). done. Qed.

(** Setting an entry twice keeps the second. *)
Lemma set_cost_twice k e e' p :
  p_costBasis (set_cost k e' (set_cost k e p)) = p_costBasis (set_cost k e' p).
Proof. simpl. apply insert_insert_eq. Qed.

(** C15: A correction puts the books where they would be had the trade been
    recorded at the broker's price: for an opening BUY, and for a SELL of no
    more than is held, the trades, the realized P&L, the cost basis and the
    strategy's day are those of recording the trade at the fill price (the
    win and loss tallies are left as they were), and the delta reported is
    what the two realized amounts differ by. *)
Theorem correction_is_as_if_filled t price p :
  trade_ok t → 0 <= price <= 10 ^ 7 → let e := cost_at p (trade_key t) in
  (if String.eqb (tr_Action t) "BUY" then ce_Qty e = 0 else tr_Qty t <= ce_Qty e) → 0 <= ce_AvgPrice e <= 10 ^ 7 →
  ∃ r p1 d p2 r' p', RecordTrade t p = Some (r, p1) ∧
    CorrectLastFill (tr_StrategyName t) (tr_Exchange t) (tr_Token t) (tr_Action t) price p1 = (d, true, p2) ∧
    RecordTrade (set_price price t) p = Some (r', p') ∧ same_books p2 p' ∧ d = r' - r.
Proof.
  intros (Hshort & Hqty & Hprice) Hp e Hheld Havg.
  assert (∀ x, 0 <= x <= 10 ^ 7 → (x -! ce_AvgPrice e) *! tr_Qty t = (x - ce_AvgPrice e) * tr_Qty t) as Hpnl.
  { intros x Hx. rewrite (i64_id (x - ce_AvgPrice e)) by (i64_unfold; lia). apply i64_id. i64_unfold. nia. }
  assert (price -! tr_Price t = price - tr_Price t) as Hdiff by (apply i64_id; i64_unfold; lia).
  assert ((price - tr_Price t) *! tr_Qty t = (price - tr_Price t) * tr_Qty t) as Hdq by (apply i64_id; i64_unfold; nia).
  unfold RecordTrade. change (trade_key (set_price price t)) with (trade_key t). simpl. rewrite Hshort.
  fold (cost_at p (trade_key t)). fold e.
  destruct (String.eqb (tr_Action t) "BUY") eqn:Hact.
  - rewrite Hheld. simpl. destruct (Z.eqb_spec (price - tr_Price t) 0) as [Hz|Hz].
    + assert (price = tr_Price t) as -> by lia.
      do 6 eexists. split; [reflexivity|]. rewrite (correct_last t (tr_Price t) (p_trades p)) by done.
      cbv zeta. rewrite Hdiff, (proj2 (Z.eqb_eq _ _) Hz). by repeat split.
    + do 6 eexists. split; [reflexivity|]. rewrite (correct_last t price (p_trades p)) by done.
      cbv zeta. rewrite Hdiff, (proj2 (Z.eqb_neq _ _) Hz), Hact, cost_at_set, decide_True by done. simpl.
      replace (0 <? tr_Qty t) with true by lia. rewrite Hdq, Z.quot_mul by lia.
      split; [reflexivity|]. split; [reflexivity|]. split; [|done]. repeat split; simpl; [|done..].
      rewrite insert_insert_eq. do 2 f_equal. rewrite (i64_id (price - tr_Price t)) by (i64_unfold; lia).
      transitivity (tr_Price t + (price - tr_Price t)); [apply i64_id; i64_unfold; lia|lia].
  - replace (if ce_Qty e <? tr_Qty t then ce_Qty e else tr_Qty t) with (tr_Qty t) by (destruct (Z.ltb_spec (ce_Qty e) (tr_Qty t)); lia).
    rewrite !Hpnl by lia.
    destruct (Z.eqb_spec (price - tr_Price t) 0) as [Hz|Hz].
    + assert (price = tr_Price t) as -> by lia.
      do 6 eexists. split; [reflexivity|]. rewrite (correct_last t (tr_Price t) (p_trades p)) by done.
      cbv zeta. rewrite Hdiff, (proj2 (Z.eqb_eq _ _) Hz). repeat split. lia.
    + do 6 eexists. split; [reflexivity|]. rewrite (correct_last t price (p_trades p)) by done.
      cbv zeta. rewrite Hdiff, (proj2 (Z.eqb_neq _ _) Hz), Hact, Hdq. simpl.
      split; [reflexivity|]. split; [reflexivity|]. split; [|lia]. repeat split; simpl; [|].
      * rewrite i64_add_l. f_equal. lia.
      * case_match; [done|]. rewrite lookup_insert_eq, insert_insert_eq. simpl. rewrite i64_add_l. do 2 f_equal. lia.
Qed.

(** A BUY booked at 120.00 and filled at 120.05: the entry costs what the
    broker says. *)
Lemma correction_is_as_if_filled_witness :
  let t := long_trade "BUY" 75 12000 in
  ∃ r p1 d p2 r' p', RecordTrade t NewPnLTracker = Some (r, p1) ∧
    CorrectLastFill "NIFTY50_SR" "NFO" "43001" "BUY" 12005 p1 = (d, true, p2) ∧
    RecordTrade (set_price 12005 t) NewPnLTracker = Some (r', p') ∧ same_books p2 p' ∧ d = r' - r.
Proof.
  intros t. apply (correction_is_as_if_filled t 12005 NewPnLTracker).
  - repeat split; vm_compute; congruence.
  - vm_compute. split; discriminate.
  - vm_compute. reflexivity.
  - vm_compute. split; discriminate.
Defined.

(** A SELL of more than is held realizes on what is held, but its correction
    counts every unit it asked for: 75 held at 100, a SELL of 150 at 110
    corrected to 111 adds 150 paise for the 75 units sold. *)
Lemma oversell_corrected_in_full :
  (p ← record_all [long_trade "BUY" 75 100; long_trade "SELL" 150 110] NewPnLTracker;
   Some (p_realizedPnL p, (CorrectLastFill "NIFTY50_SR" "NFO" "43001" "SELL" 111 p).1)) = Some (750, (150, true)).
Proof. vm_compute. reflexivity. Qed.

(** ** The portfolio and the risk gate *)

Inductive portfolio_op :=
  | OpOpen (token exchange : string) (qty price : Z)
  | OpClose (token exchange : string)
  | OpPrice (c : Candle).

Definition portfolio_step (pf : Portfolio) (op : portfolio_op) : Portfolio :=
  match op with
  | OpOpen token exchange qty price => OpenPosition token exchange qty price pf
  | OpClose token exchange => (ClosePosition token exchange pf).2
  | OpPrice c => UpdatePrice c pf
  end.

Definition position_key (p : Position) : string := pf_Exchange p +:+ ":" +:+ pf_Token p.

(** Every position is filed under its own instrument. *)
Definition keyed (pf : Portfolio) : Prop := map_Forall (λ k p, position_key p = k) pf.

Lemma keyed_run ops pf : keyed pf → keyed (foldl portfolio_step pf ops).
Proof.
  revert pf. induction ops as [|op ops IH]; intros pf Hpf; [done|]. apply IH.
  destruct op as [token exchange qty price|token exchange|c]; simpl.
  - unfold OpenPosition. case_match; apply map_Forall_insert_2; try done. by apply (Hpf _ p).
  - unfold ClosePosition. case_match; [by apply map_Forall_delete|done].
  - unfold UpdatePrice. case_match; [apply map_Forall_insert_2; [by apply (Hpf _ p)|done]|done].
Qed.

(** What the open positions are worth at their averages. *)
Definition exposure_of (p : Position) : Z := Z.abs (pf_Qty p * pf_AvgPrice p).

Definition list_sum {A} (f : A → Z) (l : list A) : Z := foldr (λ x acc, f x + acc) 0 l.

Lemma list_sum_perm {A} (f : A → Z) (l k : list A) : l ≡ₚ k → list_sum f l = list_sum f k.
Proof. unfold list_sum. induction 1; simpl in *; lia. Qed.

(** A sum over the positions, whatever the order of the map's range. *)
Lemma range_sum `{MO : MapOrder} (f : Position → Z) (pf : Portfolio) : list_sum f (GetPositions pf) = map_sum f pf.
Proof.
  unfold GetPositions, map_sum. rewrite map_fold_foldr. rewrite (list_sum_perm f _ _ (fmap_Permutation snd _ _ (range_perm pf))).
  induction (map_to_list pf) as [|[k p] l IH]; [done|].
  change (list_sum f ((k, p) :: l).*2) with (f p + list_sum f l.*2). by rewrite IH.
Qed.

Lemma list_sum_nonneg l : 0 <= list_sum exposure_of l.
Proof. unfold list_sum, exposure_of. induction l; simpl; lia. Qed.

(** The exposure loop adds without overflow while the sum is an int64. *)
Lemma exposure_loop l total :
  0 <= total → total + list_sum exposure_of l <= max_i64 →
  foldl (λ total p, let exp := pf_Qty p *! pf_AvgPrice p in total +! (if exp <? 0 then -! exp else exp)) total l =
  total + list_sum exposure_of l.
Proof.
  revert total. induction l as [|p l IH]; intros total Ht Hmax; [simpl; lia|].
  change (list_sum exposure_of (p :: l)) with (exposure_of p + list_sum exposure_of l) in *.
  pose proof (list_sum_nonneg l). unfold exposure_of at 1 in Hmax.
  assert (pf_Qty p *! pf_AvgPrice p = pf_Qty p * pf_AvgPrice p) as Hexp by (apply i64_id; i64_unfold; lia).
  cbn [foldl]. rewrite Hexp.
  assert (total +! (if pf_Qty p * pf_AvgPrice p <? 0 then -! (pf_Qty p * pf_AvgPrice p) else pf_Qty p * pf_AvgPrice p) =
          total + exposure_of p) as ->.
  { unfold exposure_of. destruct (Z.ltb_spec (pf_Qty p * pf_AvgPrice p) 0).
    - rewrite (i64_id (- _)) by (i64_unfold; lia). rewrite i64_id by (i64_unfold; lia). lia.
    - rewrite i64_id by (i64_unfold; lia). lia. }
  unfold exposure_of at 1. rewrite IH; unfold exposure_of in *; lia.
Qed.

Lemma TotalExposure_sum `{MO : MapOrder} (pf : Portfolio) :
  map_sum exposure_of pf <= max_i64 → TotalExposure pf = map_sum exposure_of pf.
Proof. intros H. rewrite <-range_sum in *. unfold TotalExposure. by rewrite exposure_loop by lia. Qed.

Lemma isNew_lookup `{MO : MapOrder} (pf : Portfolio) key :
  keyed pf → existsb (λ pos, String.eqb (pf_Exchange pos +:+ ":" +:+ pf_Token pos) key) (GetPositions pf) =
  bool_decide (is_Some (pf !! key)).
Proof.
  intros Hpf. apply Bool.eq_iff_eq_true. rewrite existsb_exists, bool_decide_eq_true. unfold GetPositions. split.
  - intros (p & Hin & Hk). apply String.eqb_eq in Hk.
    apply list_elem_of_In, list_elem_of_fmap in Hin as ([k p'] & -> & Hr%elem_of_range).
    assert (k = key) as <- by (rewrite <-Hk; symmetry; exact (Hpf k p' Hr)). by exists p'.
  - intros [p Hp]. exists p. split; [|apply String.eqb_eq; exact (Hpf key p Hp)].
    apply list_elem_of_In, list_elem_of_fmap. exists (key, p). split; [done|]. by apply elem_of_range.
Qed.

Lemma GetPositions_length `{MO : MapOrder} (pf : Portfolio) : Z.of_nat (length (GetPositions pf)) = PositionCount pf.
Proof.
  unfold GetPositions, PositionCount. rewrite length_fmap, (Permutation_length (range_perm pf)), length_map_to_list. done.
Qed.

(** One test of the gate. *)
Lemma gate_step (b : bool) reason (rest : bool * string) :
  (if b then (false, reason) else rest).1 = true ↔ b = false ∧ rest.1 = true.
Proof. destruct b; naive_solver. Qed.

(** The risk gate.  On any portfolio its operations build, a trade passes
    exactly when the kill switch is off, its instrument is already held or a
    position slot is free, its size is within the limit either way, the day's
    loss is within its limit, the drawdown from the peak is within its limit,
    and the exposure of all positions together is below its limit, whatever
    the order of the map's range. *)
Theorem CanTrade_exact `{MO : MapOrder} ops token exchange qty rm :
  let pf := foldl portfolio_step New ops in
  map_sum exposure_of pf <= max_i64 →
  0 <= MaxPositionSize (rm_limits rm) <= max_i64 → 0 <= MaxDailyLoss (rm_limits rm) <= max_i64 →
  (CanTrade token exchange qty pf rm).1 = true ↔
  rm_killSwitch rm = false ∧
  (is_Some (pf !! (exchange +:+ ":" +:+ token)) ∨ PositionCount pf < MaxOpenPositions (rm_limits rm)) ∧
  Z.abs qty <= MaxPositionSize (rm_limits rm) ∧
  - MaxDailyLoss (rm_limits rm) <= rm_dailyPnL rm ∧
  ¬ (0 < rm_peakEquity rm ∧ f64_ltb (MaxDrawdownPct (rm_limits rm)) (drawdown rm) = true) ∧
  map_sum exposure_of pf < MaxExposure (rm_limits rm).
Proof.
  intros pf Hexp Hsize Hloss. assert (keyed pf) as Hpf by (apply keyed_run, map_Forall_empty).
  unfold CanTrade. rewrite (isNew_lookup pf _ Hpf), GetPositions_length, (TotalExposure_sum pf Hexp).
  rewrite !(i64_id (- _)) by (i64_unfold; lia).
  rewrite !gate_step, negb_false_iff || rewrite !gate_step. simpl.
  rewrite !andb_false_iff, orb_false_iff, negb_false_iff, bool_decide_eq_true, !Z.ltb_ge, !Z.leb_gt.
  assert (∀ b, b = false ↔ ¬ b = true) as Hb by (intros []; naive_solver). rewrite (Hb (f64_ltb _ _)).
  assert (∀ s : Prop, Decision s → rm_peakEquity rm <= 0 ∨ ¬ s ↔ ¬ (0 < rm_peakEquity rm ∧ s)) as Hdd.
  { intros s Hs. destruct Hs, (decide (0 < rm_peakEquity rm)); intuition lia. }
  rewrite Hdd by apply _. rewrite Z.abs_le. tauto.
Qed.

(** 75 bought at 12.00 with an equity of a lakh down 4%: the same contract may
    be traded, and at 4.99% of a 5% limit still; one paisa more is refused. *)
Lemma CanTrade_exact_witness :
  let pf := foldl portfolio_step New [OpOpen "43001" "NFO" 75 1200] in
  let rm := RecordPnL (-400000) (NewRiskManager DefaultRiskLimits 10000000) in
  map_sum exposure_of pf = 90000 ∧
  (@CanTrade canonical_order "43001" "NFO" 75 pf rm).1 = true ∧
  (@CanTrade canonical_order "43001" "NFO" 101 pf rm).1 = false ∧
  (@CanTrade canonical_order "43001" "NFO" 75 pf (RecordPnL (-100001) rm)).1 = false.
Proof.
  pose proof (@CanTrade_exact canonical_order [OpOpen "43001" "NFO" 75 1200] "43001" "NFO" 75
    (RecordPnL (-400000) (NewRiskManager DefaultRiskLimits 10000000))) as H.
  split; [vm_compute; reflexivity|]. split; [|split; vm_compute; reflexivity].
  apply H.
  - vm_compute. discriminate.
  - vm_compute. split; discriminate.
  - vm_compute. split; discriminate.
  - vm_compute. repeat split; try discriminate; [right; reflexivity|]. intros [_ [=]].
Defined.

(** ** Equity and streaks *)

(** How many of the latest results, newest first, have the given sign before
    one of the other sign; results of zero are skipped. *)
Fixpoint streak (win : bool) (newest_first : list Z) : Z :=
  match newest_first with
  | [] => 0
  | pnl :: l => if pnl =? 0 then streak win l
                else if Bool.eqb (0 <? pnl) win then 1 + streak win l else 0
  end.

(** The largest value the equity has had. *)
Fixpoint peak (equity : Z) (newest_first : list Z) : Z :=
  match newest_first with
  | [] => equity
  | pnl :: l => Z.max (equity + list_sum id newest_first) (peak equity l)
  end.

Definition streak_type (newest_first : list Z) : string :=
  if 0 <? streak true newest_first then "win" else if 0 <? streak false newest_first then "loss" else "".

Lemma streak_bounds win l : 0 <= streak win l <= Z.of_nat (length l).
Proof. induction l as [|x l IH]; [simpl; lia|]. cbn [streak length]. repeat case_match; lia. Qed.

Lemma streaks_exclusive l : streak true l = 0 ∨ streak false l = 0.
Proof. induction l as [|x l IH]; [by left|]. cbn [streak]. destruct (x =? 0), (0 <? x); simpl; auto. Qed.

Lemma list_sum_bound l b : 0 <= b → Forall (λ x, Z.abs x <= b) l → Z.abs (list_sum id l) <= b * Z.of_nat (length l).
Proof.
  intros Hb. induction 1 as [|x l Hx _ IH]; [simpl; lia|]. change (list_sum id (x :: l)) with (x + list_sum id l).
  cbn [length]. lia.
Qed.

(** The cases of one more result: its sign, and which streak is running. *)
Ltac destruct_signs x l :=
  destruct (Z.ltb_spec 0 x), (Z.ltb_spec x 0), (Z.eqb_spec x 0),
    (Z.ltb_spec 0 (streak true l)), (Z.ltb_spec 0 (streak false l)); simpl; try done; try lia;
  repeat match goal with |- context [0 <? ?z] => destruct (Z.ltb_spec 0 z) end; done || lia.

(** One result, on books that are right. *)
Lemma risk_books_newest limits equity l :
  Z.of_nat (length l) <= 10 ^ 9 → Z.abs equity <= 10 ^ 9 → Forall (λ pnl, Z.abs pnl <= 10 ^ 9) l →
  foldr RecordPnL (NewRiskManager limits equity) l = {|
    rm_limits := limits;
    rm_dailyPnL := list_sum id l;
    rm_equity := equity + list_sum id l;
    rm_peakEquity := peak equity l;
    rm_killSwitch := false;
    rm_winStreak := streak true l;
    rm_lossStreak := streak false l;
    rm_currentStreakType := streak_type l |}.
Proof.
  intros Hlen Heq. induction 1 as [|x l Hx Hl IH]; [by rewrite Z.add_0_r|].
  cbn [length] in Hlen. pose proof (list_sum_bound l (10 ^ 9)) as Hsum. specialize (Hsum ltac:(lia) Hl).
  cbn [foldr]. rewrite IH by lia. unfold RecordPnL. simpl.
  change (list_sum id (x :: l)) with (x + list_sum id l) in *.
  rewrite (i64_id (list_sum id l + x)), (i64_id (equity + list_sum id l + x)) by (i64_unfold; lia).
  unfold streak_type. cbn [streak].
  pose proof (streak_bounds true l). pose proof (streak_bounds false l). pose proof (streaks_exclusive l).
  assert (∀ win, streak win l +! 1 = streak win l + 1) as Hi.
  { intros win. pose proof (streak_bounds win l). apply i64_id. i64_unfold. lia. }
  rewrite !Hi.
  f_equal; [lia|lia| |destruct_signs x l..].
  replace (equity + (x + list_sum id l)) with (equity + list_sum id l + x) by lia.
  destruct (Z.ltb_spec (peak equity l) (equity + list_sum id l + x)); lia.
Qed.

(** The risk manager's books.  After any list of results, of up to a
    billion results of up to a crore rupees each from a start of that size,
    the day's P&L is their sum, the equity is the start plus it, the peak is
    the highest equity there ever was, and the streak that is running counts
    the results since the last of the other sign, zeros aside, the other
    streak being zero. *)
Theorem risk_books limits equity pnls :
  Z.of_nat (length pnls) <= 10 ^ 9 → Z.abs equity <= 10 ^ 9 → Forall (λ pnl, Z.abs pnl <= 10 ^ 9) pnls →
  let newest_first := rev pnls in
  foldl (λ rm pnl, RecordPnL pnl rm) (NewRiskManager limits equity) pnls = {|
    rm_limits := limits;
    rm_dailyPnL := list_sum id pnls;
    rm_equity := equity + list_sum id pnls;
    rm_peakEquity := peak equity newest_first;
    rm_killSwitch := false;
    rm_winStreak := streak true newest_first;
    rm_lossStreak := streak false newest_first;
    rm_currentStreakType := streak_type newest_first |}.
Proof.
  intros Hlen Heq Hall newest_first.
  rewrite (list_sum_perm id pnls newest_first) by apply Permutation_rev.
  rewrite <-(risk_books_newest limits equity newest_first).
  - unfold newest_first. clear. induction pnls as [|x l IH] using rev_ind; [done|].
    by rewrite foldl_app, rev_app_distr, IH.
  - unfold newest_first. by rewrite length_rev.
  - done.
  - unfold newest_first. by rewrite <-Permutation_rev.
Qed.

(** Two wins, a scratch and a loss: down from the peak, one loss running. *)
Lemma risk_books_witness :
  let rm := foldl (λ rm pnl, RecordPnL pnl rm) (NewRiskManager DefaultRiskLimits 10000000) [5000; 2500; 0; -3000] in
  rm_dailyPnL rm = 4500 ∧ rm_equity rm = 10004500 ∧ rm_peakEquity rm = 10007500 ∧
  rm_winStreak rm = 0 ∧ rm_lossStreak rm = 1 ∧ rm_currentStreakType rm = "loss".
Proof.
  intros rm. unfold rm. rewrite (risk_books DefaultRiskLimits 10000000 [5000; 2500; 0; -3000]).
  - vm_compute. repeat split.
  - vm_compute. discriminate.
  - vm_compute. discriminate.
  - repeat constructor; vm_compute; discriminate.
Defined.
