(* ===== verification/FeedMerger.v ===== *)
(** Merging parallel feed sockets into one tick stream
    (internal/marketdata/ws/dedup.go).  [m.mu] is the atomicity of [accept];
    the clock and the last-frame times other goroutines keep are arguments of
    each call. *)
From stdpp Require Import sorting.
From S2P Require Import Prelude Model.
#[local] Open Scope Z_scope.
#[local] Open Scope go_scope.

Definition primaryFailover : Duration := 1500 * Millisecond.
Definition lagFailover : Duration := Second.
Definition switchGuard : Duration := 5 * Second.

Definition hwKey : Type := Z * string.

Record lagProbe := { lp_conn : Z; lp_seq : Z; lp_at : Time }.
Record mergeMark := { mm_seq : Z; mm_eventNs : Z }.

Record feedMerger := {
  fm_failover : Duration;
  fm_guard : Duration;
  fm_lag : Duration;
  fm_primary : Z;
  fm_switchedAt : Time;
  fm_last : gmap string mergeMark;
  fm_hw : gmap hwKey Z;
  fm_probes : gmap string lagProbe;
}.

Definition newFeedMerger : feedMerger := {|
  fm_failover := primaryFailover; fm_guard := switchGuard; fm_lag := lagFailover;
  fm_primary := 0; fm_switchedAt := zero_time; fm_last := ∅; fm_hw := ∅; fm_probes := ∅ |}.

Definition set_seqs (hw : gmap hwKey Z) (probes : gmap string lagProbe) (m : feedMerger) : feedMerger := {|
  fm_failover := fm_failover m; fm_guard := fm_guard m; fm_lag := fm_lag m; fm_primary := fm_primary m;
  fm_switchedAt := fm_switchedAt m; fm_last := fm_last m; fm_hw := hw; fm_probes := probes |}.

Definition switch_to (conn : Z) (now : Time) (m : feedMerger) : feedMerger := {|
  fm_failover := fm_failover m; fm_guard := fm_guard m; fm_lag := fm_lag m; fm_primary := conn;
  fm_switchedAt := now; fm_last := fm_last m; fm_hw := fm_hw m; fm_probes := ∅ |}.

Definition set_last (key : string) (cur : mergeMark) (m : feedMerger) : feedMerger := {|
  fm_failover := fm_failover m; fm_guard := fm_guard m; fm_lag := fm_lag m; fm_primary := fm_primary m;
  fm_switchedAt := fm_switchedAt m; fm_last := <[key := cur]> (fm_last m); fm_hw := fm_hw m; fm_probes := fm_probes m |}.

Definition trackSeq (conn : Z) (exchange : string) (seq : Z) (now : Time) (m : feedMerger) : feedMerger :=
  let k : hwKey := (conn, exchange) in
  let hw := if default 0 (fm_hw m !! k) <? seq then <[k := seq]> (fm_hw m) else fm_hw m in
  let probe := fm_probes m !! exchange in
  let probes :=
    if conn =? fm_primary m then
      match probe with
      | Some p => if lp_seq p <=? seq then delete exchange (fm_probes m) else fm_probes m
      | None => fm_probes m
      end
    else
      match probe with
      | Some _ => fm_probes m
      | None => if default 0 (hw !! (fm_primary m, exchange)) <? seq
                then <[exchange := {| lp_conn := conn; lp_seq := seq; lp_at := now |}]> (fm_probes m)
                else fm_probes m
      end in
  set_seqs hw probes m.

Definition primaryFailed (lastFrame : Z → Time) (conn : Z) (exchange : string) (now : Time) (m : feedMerger) : bool :=
  let lf := lastFrame (fm_primary m) in
  if t_is_zero lf || (fm_failover m <=? t_sub now lf) then true
  else match fm_probes m !! exchange with
       | Some p => (lp_conn p =? conn) && (fm_lag m <=? t_sub now (lp_at p))
       | None => false
       end.

Definition older (cur prev : mergeMark) : bool :=
  if (0 <? mm_seq cur) && (0 <? mm_seq prev) then mm_seq cur <? mm_seq prev
  else mm_eventNs cur <? mm_eventNs prev.

Definition mark_of (tick : Tick) (seq : Z) : mergeMark := {|
  mm_seq := seq;
  mm_eventNs := if t_is_zero (tick_EventTS tick) then 0 else t_unix_nano (tick_EventTS tick) |}.

Definition tick_key (tick : Tick) : string := tick_Exchange tick +:+ ":" +:+ tick_Token tick.

(** Whether the tick passes, and the primary it replaced or -1. *)
Definition accept (lastFrame : Z → Time) (now : Time) (conn : Z) (tick : Tick) (seq : Z) (m : feedMerger) :
    bool * Z * feedMerger :=
  let key := tick_key tick in
  let cur := mark_of tick seq in
  let m := if 0 <? seq then trackSeq conn (tick_Exchange tick) seq now m else m in
  let go switched m :=
    if match fm_last m !! key with
       | Some prev => negb (t_is_zero (fm_switchedAt m)) && (t_sub now (fm_switchedAt m) <? fm_guard m) && older cur prev
       | None => false
       end
    then (false, switched, m)
    else (true, switched, set_last key cur m) in
  if conn =? fm_primary m then go (-1) m
  else if negb (primaryFailed lastFrame conn (tick_Exchange tick) now m) then (false, -1, m)
  else go (fm_primary m) (switch_to conn now m).

Definition Primary (m : feedMerger) : Z := fm_primary m.

(** ** Runs *)

(** A call of [accept], with what it reads of the clock and the sockets. *)
Record delivery := { d_lastFrame : Z → Time; d_now : Time; d_conn : Z; d_tick : Tick; d_seq : Z }.

Definition deliver (m : feedMerger) (d : delivery) : bool * Z * feedMerger :=
  accept (d_lastFrame d) (d_now d) (d_conn d) (d_tick d) (d_seq d) m.

(** The deliveries that pass, in order. *)
Fixpoint merged (m : feedMerger) (ds : list delivery) : list delivery :=
  match ds with
  | [] => []
  | d :: ds => let '(ok, _, m) := deliver m d in if ok then d :: merged m ds else merged m ds
  end.

(** No tick of an instrument predates the one of that instrument before it. *)
Fixpoint ordered (last : gmap string delivery) (ds : list delivery) : Prop :=
  match ds with
  | [] => True
  | d :: ds =>
      (∀ d0, last !! tick_key (d_tick d) = Some d0 →
         older (mark_of (d_tick d) (d_seq d)) (mark_of (d_tick d0) (d_seq d0)) = false) ∧
      ordered (<[tick_key (d_tick d) := d]> last) ds
  end.

(** What the feeds owe: the clock does not run backward, a socket delivers
    an instrument's ticks in order, and no socket is behind another by the
    length of the guard. *)
Definition timely (d1 d2 : delivery) : Prop :=
  d_now d1 <= d_now d2 ∧
  (tick_key (d_tick d1) = tick_key (d_tick d2) →
   d_conn d1 = d_conn d2 ∨ switchGuard <= d_now d2 - d_now d1 →
   older (mark_of (d_tick d2) (d_seq d2)) (mark_of (d_tick d1) (d_seq d1)) = false).

(** ** Order *)

(** The last delivery passed for each instrument: it came from the primary,
    or before the last switch. *)
Record merge_inv (m : feedMerger) (last : gmap string delivery) : Prop := {
  mi_guard : fm_guard m = switchGuard;
  mi_last : fm_last m = (λ d, mark_of (d_tick d) (d_seq d)) <$> last;
  mi_key : ∀ k d, last !! k = Some d → tick_key (d_tick d) = k;
  mi_from : ∀ k d, last !! k = Some d →
    d_conn d = fm_primary m ∨ (t_is_zero (fm_switchedAt m) = false ∧ d_now d <= fm_switchedAt m);
}.

Lemma trackSeq_inv conn exchange seq now m last :
  merge_inv m last → merge_inv (trackSeq conn exchange seq now m) last.
Proof. intros [? ? ? ?]. by split. Qed.

Lemma switch_inv conn now m last :
  t_is_zero now = false → (∀ k d, last !! k = Some d → d_now d <= now) →
  merge_inv m last → merge_inv (switch_to conn now m) last.
Proof. intros Hz Hle [Hg Hl Hk Hf]. split; try done. intros k d Hd. right. split; [done|]. by apply (Hle k). Qed.

(** A tick from the primary that passes the guard. *)
Lemma pass_inv m last d :
  merge_inv m last → d_conn d = fm_primary m → map_Forall (λ _ d0, timely d0 d) last →
  let cur := mark_of (d_tick d) (d_seq d) in
  match fm_last m !! tick_key (d_tick d) with
  | Some prev => negb (t_is_zero (fm_switchedAt m)) && (t_sub (d_now d) (fm_switchedAt m) <? fm_guard m) && older cur prev
  | None => false
  end = false →
  merge_inv (set_last (tick_key (d_tick d)) cur m) (<[tick_key (d_tick d) := d]> last) ∧
  (∀ d0, last !! tick_key (d_tick d) = Some d0 → older cur (mark_of (d_tick d0) (d_seq d0)) = false).
Proof.
  intros [Hg Hl Hk Hf] Hconn Htimely cur Hpass. split.
  - split; simpl; [done|by rewrite Hl, fmap_insert| |].
    + intros k d0 [[<- <-]|[_ H0]]%lookup_insert_Some; [done|by apply Hk].
    + intros k d0 [[<- <-]|[_ H0]]%lookup_insert_Some; [by left|by apply (Hf k)].
  - intros d0 H0. rewrite Hl, lookup_fmap, H0 in Hpass. simpl in Hpass.
    destruct (Htimely _ _ H0) as [_ Hord]. specialize (Hord (Hk _ _ H0)).
    destruct (Hf _ _ H0) as [Hc|[Hz Hle]]; [apply Hord; left; congruence|].
    rewrite Hz, Hg in Hpass. simpl in Hpass. apply andb_false_iff in Hpass as [Hlt%Z.ltb_ge|?]; [|done].
    apply Hord. right. unfold t_sub, switchGuard, min_i64, max_i64 in *. unfold Second in *. lia.
Qed.

Lemma merged_ordered ds m last :
  merge_inv m last → StronglySorted timely ds → Forall (λ d, t_is_zero (d_now d) = false) ds →
  Forall (λ d, map_Forall (λ _ d0, timely d0 d) last) ds → ordered last (merged m ds).
Proof.
  revert m last. induction ds as [|d ds IH]; intros m last HI Hs Hz Hl; [done|].
  apply StronglySorted_inv in Hs as [Hs Hd]. apply Forall_cons in Hz as [Hzd Hz]. apply Forall_cons in Hl as [Hld Hl].
  assert (∀ m' : feedMerger, merge_inv m' last → ordered last (merged m' ds)) as Hskip by (intros; by apply IH).
  assert (Forall (λ d', map_Forall (λ _ d0, timely d0 d') (<[tick_key (d_tick d) := d]> last)) ds) as Hl'.
  { rewrite Forall_forall in *. intros d' Hin. apply map_Forall_insert_2; [by apply Hd|by apply Hl]. }
  cbn [merged]. unfold deliver, accept.
  set (m1 := if 0 <? d_seq d then _ else m).
  assert (merge_inv m1 last) as HI1 by (unfold m1; case_match; [by apply trackSeq_inv|done]).
  assert (∀ m2 : feedMerger, merge_inv m2 last → d_conn d = fm_primary m2 → ∀ sw : Z,
    ordered last (let '(ok, _, m) :=
      if match fm_last m2 !! tick_key (d_tick d) with
         | Some prev => negb (t_is_zero (fm_switchedAt m2)) && (t_sub (d_now d) (fm_switchedAt m2) <? fm_guard m2) &&
                        older (mark_of (d_tick d) (d_seq d)) prev
         | None => false
         end
      then (false, sw, m2) else (true, sw, set_last (tick_key (d_tick d)) (mark_of (d_tick d) (d_seq d)) m2) in
      if ok then d :: merged m ds else merged m ds)) as Hgo.
  { intros m2 HI2 Hc sw. destruct (match fm_last m2 !! _ with Some _ => _ | None => _ end) eqn:Hp; [by apply Hskip|].
    destruct (pass_inv m2 last d HI2 Hc Hld Hp) as [HI3 Hord]. simpl. split; [exact Hord|]. by apply IH. }
  destruct (Z.eqb_spec (d_conn d) (fm_primary m1)) as [Hc|Hc]; [by apply Hgo|].
  destruct (primaryFailed _ _ _ _ _); simpl negb; cbv iota; [|by apply Hskip].
  apply Hgo; [|done]. apply switch_inv; [done| |done]. intros k d0 H0. by destruct (Hld k d0 H0).
Qed.

(** C16: The merged stream is in order.  When every socket delivers an
    instrument's ticks in order and no socket runs behind another by the
    length of the switch guard, the ticks that pass [accept], whichever
    sockets fail over to whichever, never go back in time for an instrument. *)
Theorem merged_stream_in_order ds :
  StronglySorted timely ds → Forall (λ d, t_is_zero (d_now d) = false) ds →
  ordered ∅ (merged newFeedMerger ds).
Proof.
  intros Hs Hz. apply merged_ordered; [|done|done|].
  - split; simpl; [done|by rewrite fmap_empty|by intros k d ?%lookup_empty_Some..].
  - apply Forall_forall. intros d _. apply map_Forall_empty.
Qed.

(** Two sockets: 0 delivers number 7 and falls silent; 1 delivers its copy
    (dropped), takes over with number 8, and what 0 then sends is a copy. *)
Definition sample_tick (ms : Z) : Tick := {|
  tick_Token := "26000"; tick_Exchange := "NSE"; tick_Price := 2450000; tick_Qty := 1; tick_DayVolume := 0;
  tick_TickTS := t_of_unix 1790000000 + ms * Millisecond; tick_EventTS := t_of_unix 1790000000 + ms * Millisecond;
  tick_BestBid := 0; tick_BestAsk := 0; tick_OI := 0; tick_QuoteTS := zero_time |}.
Definition sample_delivery (ms conn seq stamp : Z) : delivery := {|
  d_lastFrame := λ i, t_of_unix 1790000000 + (if i =? 0 then 0 else ms * Millisecond); d_now := t_of_unix 1790000000 + ms * Millisecond;
  d_conn := conn; d_tick := sample_tick stamp; d_seq := seq |}.

Lemma merged_stream_in_order_witness :
  let ds := [sample_delivery 1 0 7 0; sample_delivery 2 1 7 0; sample_delivery 2000 1 8 100; sample_delivery 2001 0 9 120] in
  (λ d, (d_conn d, d_seq d)) <$> merged newFeedMerger ds = [(0, 7); (1, 8)] ∧
  ordered ∅ (merged newFeedMerger ds).
Proof.
  intros ds. split; [vm_compute; reflexivity|]. apply (merged_stream_in_order ds).
  - repeat constructor; vm_compute; try discriminate; reflexivity.
  - repeat constructor; vm_compute; reflexivity.
Defined.

(** Right after a switch the guard drops what the old primary already
    delivered. *)
Lemma replay_after_switch_dropped :
  let ds := [sample_delivery 1 0 7 0; sample_delivery 2000 1 6 (-100); sample_delivery 2001 1 8 100] in
  (λ d, (d_conn d, d_seq d)) <$> merged newFeedMerger ds = [(0, 7); (1, 8)].
Proof. vm_compute. reflexivity. Qed.
