(* ===== verification/FeedPacket.v ===== *)
(** Frames of the market-data socket, from bytes to a tick: the decoding of
    pkg/smartconnect/websocket.go and parseTick of
    internal/marketdata/ws/ingest.go.

    Bytes are [Byte.byte]; a slice expression out of range is a panic ([None]).
    A decoded frame is a Go map of dynamically typed values.  The decoding of
    JSON text frames is a class without laws.

    Decoding the feed's frames: any bytes decode to a message or an error, a
    packet laid out as the feed's binary format has it decodes to its own
    fields and its own tick, and a tick's times and quotes are what they are
    meant to be. *)
From Stdlib Require Import Strings.Byte SpecFloat.
From coqutil Require Import Byte Word.LittleEndianList.
From S2P Require Import Prelude Float64 GoText Model.
#[local] Open Scope Z_scope.
#[local] Open Scope go_scope.

(** ** encoding/binary, little endian *)

(** A [w]-bit two's complement reading. *)
Definition to_signed (w z : Z) : Z := (z + 2 ^ (w - 1)) mod 2 ^ w - 2 ^ (w - 1).

(** [b[lo:hi]]. *)
Definition sub_bytes (b : list byte) (lo hi : nat) : option (list byte) :=
  if (lo <=? hi)%nat && (hi <=? length b)%nat then Some (take (hi - lo) (drop lo b)) else None.

(** [binary.LittleEndian.UintN(b)] reads the first bytes of [b]. *)
Definition Uint (n : nat) (b : list byte) : option Z := le_combine <$> sub_bytes b 0 n.

Definition int64_at (b : list byte) (lo : nat) : option Z := p ← sub_bytes b lo (lo + 8); to_signed 64 <$> Uint 8 p.
Definition uint16_at (b : list byte) (lo : nat) : option Z := p ← sub_bytes b lo (lo + 2); Uint 2 p.
Definition int32_at (b : list byte) (lo : nat) : option Z := p ← sub_bytes b lo (lo + 4); to_signed 32 <$> Uint 4 p.
Definition int16_at (b : list byte) (lo : nat) : option Z := p ← sub_bytes b lo (lo + 2); to_signed 16 <$> Uint 2 p.

(** [math.Float64frombits]. *)
Definition f64_of_bits (z : Z) : float64 :=
  let s := Z.testbit z 63 in
  let e := Z.land (Z.shiftr z 52) 2047 in
  let m := Z.land z (2 ^ 52 - 1) in
  if e =? 2047 then (if m =? 0 then S754_infinity s else S754_nan)
  else if e =? 0 then match m with Zpos p => S754_finite s p (-1074) | _ => S754_zero s end
  else match m + 2 ^ 52 with Zpos p => S754_finite s p (e - 1075) | _ => S754_nan end.
Definition f64_at (b : list byte) (lo : nat) : option float64 := p ← sub_bytes b lo (lo + 8); f64_of_bits <$> Uint 8 p.

(** ** Decoded frames *)

Inductive scalar := SInt (z : Z) | SInt64 (z : Z) | SInt32 (z : Z) | SInt16 (z : Z) | SFloat64 (f : float64) | SString (s : string) | SOther.
Abbreviation object := (gmap string scalar) (only parsing).
Inductive value := Scalar (s : scalar) | Objects (os : list object).
Abbreviation message := (gmap string value) (only parsing).

Definition put (k : string) (s : scalar) (m : message) : message := <[k := Scalar s]> m.

Definition ModeLTP : Z := 1.
Definition ModeQuote : Z := 2.
Definition ModeSnapQuote : Z := 3.
Definition ModeDepth : Z := 4.

(** The bytes up to the first zero. *)
Fixpoint parseTokenValue (b : list byte) : string :=
  match b with
  | [] => ""
  | c :: b => if Byte.eqb c x00 then "" else String (ascii_of_byte c) (parseTokenValue b)
  end.

(** Numbers at their offsets, in the order they are read. *)
Fixpoint int64_fields (b : list byte) (fields : list (string * nat)) (out : message) : option message :=
  match fields with
  | [] => Some out
  | (k, lo) :: fields => z ← int64_at b lo; int64_fields b fields (put k (SInt64 z) out)
  end.

Definition quote_fields (b : list byte) (out : message) : option message :=
  out ← int64_fields b [("last_traded_quantity", 51%nat); ("average_traded_price", 59%nat); ("volume_trade_for_the_day", 67%nat)] out;
  tbq ← f64_at b 75;
  tsq ← f64_at b 83;
  int64_fields b [("open_price_of_the_day", 91%nat); ("high_price_of_the_day", 99%nat); ("low_price_of_the_day", 107%nat);
                  ("closed_price", 115%nat)]
    (put "total_sell_quantity" (SFloat64 tsq) (put "total_buy_quantity" (SFloat64 tbq) out)).

(** The packets of twenty bytes; a short last one is left out. *)
Fixpoint packets_of (n : nat) (fuel : nat) (b : list byte) : list (list byte) :=
  match fuel, b with
  | _, [] | O, _ => []
  | S fuel, _ => take n b :: packets_of n fuel (drop n b)
  end.

(** One level, and whether it is a buy. *)
Definition best5_level (p : list byte) : option (bool * object) :=
  flag ← uint16_at p 0;
  quantity ← int64_at p 2;
  price ← int64_at p 10;
  numOrders ← uint16_at p 18;
  Some (flag =? 1, <["flag" := SInt flag]> (<["quantity" := SInt64 quantity]> (<["price" := SInt64 price]>
                     (<["no_of_orders" := SInt numOrders]> ∅)))).

Fixpoint best5_levels (packets : list (list byte)) : option (list object * list object) :=
  match packets with
  | [] => Some ([], [])
  | p :: packets =>
      if (length p <? 20)%nat then best5_levels packets
      else '(buys, each) ← best5_level p;
           '(buy, sell) ← best5_levels packets;
           Some (if buys : bool then (each :: buy, sell) else (buy, each :: sell))
  end.
Definition parseBest5BuySell (b : list byte) : option (list object * list object) := best5_levels (packets_of 20 (length b) b).

Definition depth_level (b : list byte) (at_ : nat) : option object :=
  q ← int32_at b at_;
  p ← int32_at b (at_ + 4);
  n ← int16_at b (at_ + 8);
  Some (<["quantity" := SInt32 q]> (<["price" := SInt32 p]> (<["num_of_orders" := SInt16 n]> ∅))).

(** The levels that lie within the bytes. *)
Fixpoint depth_levels (b : list byte) (offsets : list nat) : option (list object) :=
  match offsets with
  | [] => Some []
  | at_ :: offsets =>
      if (at_ + 10 <=? length b)%nat then l ← depth_level b at_; ls ← depth_levels b offsets; Some (l :: ls)
      else depth_levels b offsets
  end.
Definition parseDepth20 (b : list byte) : option (list object * list object) :=
  buy ← depth_levels b ((λ i, i * 10)%nat <$> seq 0 20);
  sell ← depth_levels b ((λ i, 200 + i * 10)%nat <$> seq 0 20);
  Some (buy, sell).

Definition snap_fields (b : list byte) (out : message) : option message :=
  out ← int64_fields b [("last_traded_timestamp", 123%nat); ("open_interest", 131%nat); ("open_interest_change_percentage", 139%nat)] out;
  best ← sub_bytes b 147 347;
  '(buy, sell) ← parseBest5BuySell best;
  int64_fields b [("upper_circuit_limit", 347%nat); ("lower_circuit_limit", 355%nat); ("52_week_high_price", 363%nat);
                  ("52_week_low_price", 371%nat)]
    (<["best_5_sell_data" := Objects sell]> (<["best_5_buy_data" := Objects buy]> out)).

Definition depth_fields (b : list byte) (exTs : Z) (out : message) : option message :=
  let out := put "packet_received_time" (SInt64 exTs) out in
  if (243 <=? length b)%nat then
    rest ← sub_bytes b 43 (length b);
    '(buy, sell) ← parseDepth20 rest;
    Some (<["depth_20_sell_data" := Objects sell]> (<["depth_20_buy_data" := Objects buy]> out))
  else Some out.

(** [None] is a panic, [inl] an error. *)
Definition parseBinaryData (b : list byte) : option (string + message) :=
  if (length b <? 51)%nat then Some (inl "binary payload too short") else
  subMode ← byte.unsigned <$> b !! 0%nat;
  exType ← byte.unsigned <$> b !! 1%nat;
  tokenBytes ← sub_bytes b 2 27;
  seq ← int64_at b 27;
  exTs ← int64_at b 35;
  ltp ← int64_at b 43;
  let out := put "last_traded_price" (SInt64 ltp) (put "exchange_timestamp" (SInt64 exTs) (put "sequence_number" (SInt64 seq)
               (put "token" (SString (parseTokenValue tokenBytes)) (put "exchange_type" (SInt exType)
                 (put "subscription_mode" (SInt subMode) ∅))))) in
  out ← if ((subMode =? ModeQuote) || (subMode =? ModeSnapQuote)) && (123 <=? length b)%nat then quote_fields b out else Some out;
  out ← if (subMode =? ModeSnapQuote) && (379 <=? length b)%nat then snap_fields b out else Some out;
  out ← if subMode =? ModeDepth then depth_fields b exTs out else Some out;
  Some (inr out).

(** ** One frame of the read loop *)

(** [json.Unmarshal] of a text frame into a map; [None] is its error.  What is
    not a number or a string is [SOther]: a JSON array is no slice of maps. *)
Class FrameJSON := decode_frame : string → option object.

Inductive ws_frame := BinaryFrame (b : list byte) | TextFrame (s : string) | OtherFrame.
Inductive socket_call := CallData (m : message) | CallControl (m : message) | CallPong | CallPing | LogParse (e : string).

(** readLoop between two reads; the callbacks that are set are arguments. *)
Definition on_frame `{FrameJSON} (hasData hasControl : bool) (f : ws_frame) : option (list socket_call) :=
  match f with
  | BinaryFrame b =>
      parsed ← parseBinaryData b;
      Some (match parsed with
            | inl e => [LogParse e]
            | inr m =>
                match m !! "subscription_mode" with
                | None =>
                    (if hasControl then [CallControl m] else []) ++
                    match m !! "subscription_mode" with
                    | Some (Scalar (SInt sm)) => (if sm =? 0 then [CallPong] else []) ++ (if sm =? 1 then [CallPing] else [])
                    | _ => []
                    end
                | Some _ => if hasData then [CallData m] else []
                end
            end)
  | TextFrame s =>
      Some (if String.eqb s "pong" then [CallPong]
            else match decode_frame s with Some m => if hasData then [CallData (Scalar <$> m)] else [] | None => [] end)
  | OtherFrame => Some []
  end.

(** ** The tick of a frame (ingest.go) *)

Definition exchangeTypeToName (t : Z) : string :=
  match t with 1 => "NSE" | 2 => "NFO" | 3 => "BSE" | 4 => "BFO" | 5 => "MCX" | 7 => "NCX" | 13 => "CDE" | _ => "" end.

(** [n, _ := strconv.ParseInt]: out of range [n] is the nearest int64. *)
Definition parse_int_lax (s : string) : Z :=
  match parse_signed s with Some z => Z.max min_i64 (Z.min max_i64 z) | None => 0 end.

Definition scalar_int (s : option scalar) : Z :=
  match s with
  | Some (SInt z) | Some (SInt64 z) => z
  | Some (SFloat64 f) => f64_to_int f
  | Some (SString s) => parse_int_lax s
  | _ => 0
  end.
Definition scalar_of (v : option value) : option scalar := match v with Some (Scalar s) => Some s | _ => None end.
(** Both [toInt] and [toInt64]: an int has 64 bits. *)
Definition toInt64 (v : option value) : Z := scalar_int (scalar_of v).

Definition price_level (lvl : object) : option Z :=
  if scalar_int (lvl !! "quantity") <=? 0 then None else Some (scalar_int (lvl !! "price")).

(** The best price so far, if any level had one. *)
Definition better (max : bool) (best : option Z) (price : Z) : option Z :=
  match best with
  | None => Some price
  | Some b => if max && (b <? price) then Some price else if negb max && (price <? b) then Some price else Some b
  end.
Definition bestPrice (v : option value) (max : bool) : Z :=
  match v with
  | Some (Objects levels) =>
      default 0 (foldl (λ best lvl, match price_level lvl with Some p => better max best p | None => best end) None levels)
  | _ => 0
  end.
Definition bestBid (v : option value) : Z := bestPrice v true.
Definition bestAsk (v : option value) : Z := bestPrice v false.

Definition parseTick (msg : message) (recvTS : Time) : string + Tick :=
  let token := match msg !! "token" with Some (Scalar (SString s)) => s | _ => "" end in
  if String.eqb token "" then inl "missing token" else
  let exType := toInt64 (msg !! "exchange_type") in
  let exchange := if String.eqb (exchangeTypeToName exType) "" then "EX_" +:+ format_int exType else exchangeTypeToName exType in
  let exTS := toInt64 (msg !! "exchange_timestamp") in
  let eventTS := if 0 <? exTS then exTS *! Millisecond else zero_time in
  let bid := bestBid (msg !! "best_5_buy_data") in
  let ask := bestAsk (msg !! "best_5_sell_data") in
  inr {| tick_Token := token; tick_Exchange := exchange; tick_Price := toInt64 (msg !! "last_traded_price");
         tick_Qty := toInt64 (msg !! "last_traded_quantity"); tick_DayVolume := toInt64 (msg !! "volume_trade_for_the_day");
         tick_TickTS := recvTS; tick_EventTS := eventTS; tick_BestBid := bid; tick_BestAsk := ask;
         tick_OI := toInt64 (msg !! "open_interest"); tick_QuoteTS := if (0 <? bid) || (0 <? ask) then recvTS else zero_time |}.

Definition maxEventSkew : Duration := 5 * Second.
Definition maxFutureSkew : Duration := Second.

Definition with_EventTS (ts : Time) (t : Tick) : Tick := {|
  tick_Token := tick_Token t; tick_Exchange := tick_Exchange t; tick_Price := tick_Price t; tick_Qty := tick_Qty t;
  tick_DayVolume := tick_DayVolume t; tick_TickTS := tick_TickTS t; tick_EventTS := ts; tick_BestBid := tick_BestBid t;
  tick_BestAsk := tick_BestAsk t; tick_OI := tick_OI t; tick_QuoteTS := tick_QuoteTS t |}.

(** Whether the event time was changed. *)
Definition sanitizeEventTS (t : Tick) : bool * Tick :=
  if t_is_zero (tick_EventTS t) then (false, t) else
  let d := t_sub (tick_EventTS t) (tick_TickTS t) in
  if (maxEventSkew <? d) || (d <? - maxEventSkew) then (true, with_EventTS (tick_TickTS t) t)
  else if maxFutureSkew <? d then (true, with_EventTS (t_add (tick_TickTS t) maxFutureSkew) t)
  else (false, t).

(** ** Reading numbers *)

Lemma to_signed_id w z : 0 < w → - 2 ^ (w - 1) <= z < 2 ^ (w - 1) → to_signed w (z mod 2 ^ w) = z.
Proof.
  intros Hw Hz. unfold to_signed. rewrite Zplus_mod_idemp_l.
  assert (2 ^ w = 2 * 2 ^ (w - 1)) as -> by (rewrite <-Z.pow_succ_r by lia; f_equal; lia). rewrite Z.mod_small; lia.
Qed.

Lemma to_signed_range w z : 0 < w → - 2 ^ (w - 1) <= to_signed w z < 2 ^ (w - 1).
Proof.
  intros Hw. unfold to_signed. pose proof (Z.mod_pos_bound (z + 2 ^ (w - 1)) (2 ^ w) ltac:(apply Z.pow_pos_nonneg; lia)).
  assert (2 ^ w = 2 * 2 ^ (w - 1)) by (rewrite <-Z.pow_succ_r by lia; f_equal; lia). lia.
Qed.

Lemma sub_bytes_some b lo hi : (lo <= hi)%nat → (hi <= length b)%nat → ∃ p, sub_bytes b lo hi = Some p ∧ length p = (hi - lo)%nat.
Proof.
  intros H1 H2. unfold sub_bytes. rewrite (proj2 (Nat.leb_le _ _) H1), (proj2 (Nat.leb_le _ _) H2). simpl.
  eexists. split; [done|]. rewrite length_take, length_drop. lia.
Qed.

Lemma Uint_some n b : (n <= length b)%nat → ∃ z, Uint n b = Some z ∧ 0 <= z < 2 ^ (8 * Z.of_nat n).
Proof.
  intros Hn. unfold Uint. destruct (sub_bytes_some b 0 n) as (p & -> & Hp); [lia|done|]. simpl. eexists. split; [done|].
  pose proof (le_combine_bound p). rewrite Hp in *. replace (n - 0)%nat with n in * by lia. lia.
Qed.

Lemma int64_at_some b lo : (lo + 8 <= length b)%nat → ∃ z, int64_at b lo = Some z ∧ in_i64 z.
Proof.
  intros H. unfold int64_at. destruct (sub_bytes_some b lo (lo + 8)) as (p & -> & Hp); [lia|done|]. simpl.
  destruct (Uint_some 8 p) as (z & -> & _); [lia|]. simpl. eexists. split; [done|]. pose proof (to_signed_range 64 z). i64_unfold. lia.
Qed.

Lemma f64_at_some b lo : (lo + 8 <= length b)%nat → is_Some (f64_at b lo).
Proof.
  intros H. unfold f64_at. destruct (sub_bytes_some b lo (lo + 8)) as (p & -> & Hp); [lia|done|]. simpl.
  destruct (Uint_some 8 p) as (z & -> & _); [lia|]. by eexists.
Qed.

Lemma uint16_at_some b lo : (lo + 2 <= length b)%nat → is_Some (uint16_at b lo).
Proof.
  intros H. unfold uint16_at. destruct (sub_bytes_some b lo (lo + 2)) as (p & -> & Hp); [lia|done|]. simpl.
  destruct (Uint_some 2 p) as (z & -> & _); [lia|]. by eexists.
Qed.

Lemma int32_at_some b lo : (lo + 4 <= length b)%nat → is_Some (int32_at b lo).
Proof.
  intros H. unfold int32_at. destruct (sub_bytes_some b lo (lo + 4)) as (p & -> & Hp); [lia|done|]. simpl.
  destruct (Uint_some 4 p) as (z & -> & _); [lia|]. by eexists.
Qed.

Lemma int16_at_some b lo : (lo + 2 <= length b)%nat → is_Some (int16_at b lo).
Proof.
  intros H. unfold int16_at. destruct (sub_bytes_some b lo (lo + 2)) as (p & -> & Hp); [lia|done|]. simpl.
  destruct (Uint_some 2 p) as (z & -> & _); [lia|]. by eexists.
Qed.

(** ** Nothing panics *)

Lemma int64_fields_some b fs out : Forall (λ f : string * nat, (f.2 + 8 <= length b)%nat) fs → is_Some (int64_fields b fs out).
Proof.
  intros Hfs. revert out. induction Hfs as [|[k lo] fs H _ IH]; intros out; simpl; [by eexists|].
  destruct (int64_at_some b lo H) as (z & -> & _). simpl. apply IH.
Qed.

Lemma quote_fields_some b out : (123 <= length b)%nat → is_Some (quote_fields b out).
Proof.
  intros H. unfold quote_fields. match goal with |- context [int64_fields b ?fs out] => destruct (int64_fields_some b fs out) as [o1 ->] end.
  { repeat constructor; simpl; lia. }
  cbn [mbind option_bind]. destruct (f64_at_some b 75) as [tbq ->]; [lia|]. destruct (f64_at_some b 83) as [tsq ->]; [lia|].
  cbn [mbind option_bind].
  apply (int64_fields_some b). repeat constructor; simpl; lia.
Qed.

Lemma best5_levels_some ps : is_Some (best5_levels ps).
Proof.
  induction ps as [|p ps [[buy sell] IH]]; simpl; [by eexists|]. destruct (Nat.ltb_spec (length p) 20); [by rewrite IH; eexists|].
  unfold best5_level. destruct (uint16_at_some p 0) as [fl ->]; [lia|]. destruct (int64_at_some p 2) as (q & -> & _); [lia|].
  destruct (int64_at_some p 10) as (pr & -> & _); [lia|]. destruct (uint16_at_some p 18) as [no ->]; [lia|]. simpl. rewrite IH. by eexists.
Qed.

Lemma snap_fields_some b out : (379 <= length b)%nat → is_Some (snap_fields b out).
Proof.
  intros H. unfold snap_fields. match goal with |- context [int64_fields b ?fs out] => destruct (int64_fields_some b fs out) as [o1 ->] end.
  { repeat constructor; simpl; lia. }
  cbn [mbind option_bind]. destruct (sub_bytes_some b 147 347) as (best & -> & _); [lia|lia|]. cbn [mbind option_bind].
  unfold parseBest5BuySell. destruct (best5_levels_some (packets_of 20 (length best) best)) as [[buy sell] ->]. cbn [mbind option_bind].
  apply (int64_fields_some b). repeat constructor; simpl; lia.
Qed.

Lemma depth_levels_some b os : is_Some (depth_levels b os).
Proof.
  induction os as [|o os IH]; simpl; [by eexists|]. destruct (Nat.leb_spec (o + 10) (length b)); [|done].
  unfold depth_level. destruct (int32_at_some b o) as [q ->]; [lia|]. destruct (int32_at_some b (o + 4)) as [p ->]; [lia|].
  destruct (int16_at_some b (o + 8)) as [n ->]; [lia|]. destruct IH as [ls ->]. by eexists.
Qed.

Lemma depth_fields_some b exTs out : is_Some (depth_fields b exTs out).
Proof.
  unfold depth_fields. destruct (Nat.leb_spec 243 (length b)); [|by eexists].
  destruct (sub_bytes_some b 43 (length b)) as (rest & -> & _); [lia|lia|]. simpl. unfold parseDepth20.
  destruct (depth_levels_some rest ((λ i, i * 10)%nat <$> seq 0 20)) as [buy ->].
  destruct (depth_levels_some rest ((λ i, 200 + i * 10)%nat <$> seq 0 20)) as [sell ->]. by eexists.
Qed.

Lemma optional_some {A} (c : bool) (f : option A) o : (c = true → is_Some f) → is_Some (if c then f else Some o).
Proof. destruct c; [auto|]. by eexists. Qed.

(** Every byte string decodes, to an error exactly when it is short. *)
Lemma parse_total b : ∃ r, parseBinaryData b = Some r ∧ (r = inl "binary payload too short" ↔ (length b < 51)%nat).
Proof.
  unfold parseBinaryData. destruct (Nat.ltb_spec (length b) 51) as [Hs|Hs]; [by eexists|].
  destruct (lookup_lt_is_Some_2 b 0) as [b0 ->]; [lia|]. destruct (lookup_lt_is_Some_2 b 1) as [b1 ->]; [lia|].
  destruct (sub_bytes_some b 2 27) as (tok & -> & _); [lia|lia|]. destruct (int64_at_some b 27) as (sq & -> & _); [lia|].
  destruct (int64_at_some b 35) as (ts & -> & _); [lia|]. destruct (int64_at_some b 43) as (ltp & -> & _); [lia|].
  cbn [mbind option_bind fmap option_fmap option_map].
  match goal with |- context [if ?c && (123 <=? _)%nat then quote_fields b ?o else _] => set (c1 := c); set (o1 := o) end.
  assert (is_Some (if c1 && (123 <=? length b)%nat then quote_fields b o1 else Some o1)) as [o2 ->].
  { apply optional_some. intros [_ ?%Nat.leb_le]%andb_prop. by apply quote_fields_some. }
  cbn [mbind option_bind].
  assert (is_Some (if (byte.unsigned b0 =? ModeSnapQuote) && (379 <=? length b)%nat then snap_fields b o2 else Some o2)) as [o3 ->].
  { apply optional_some. intros [_ ?%Nat.leb_le]%andb_prop. by apply snap_fields_some. }
  cbn [mbind option_bind].
  assert (is_Some (if byte.unsigned b0 =? ModeDepth then depth_fields b ts o3 else Some o3)) as [o4 ->].
  { apply optional_some. intros _. apply depth_fields_some. }
  cbn [mbind option_bind]. eexists. split; [done|]. split; [done|lia].
Qed.

(** ** The feed's layout *)

Record depthLevel := { dl_buy : bool; dl_qty : Z; dl_price : Z; dl_orders : Z }.
Record quoteBody := {
  qb_ltq : Z; qb_atp : Z; qb_volume : Z; qb_tbq : Z; qb_tsq : Z; qb_open : Z; qb_high : Z; qb_low : Z; qb_close : Z }.
Record snapBody := {
  sb_ltt : Z; sb_oi : Z; sb_oiChange : Z; sb_levels : list depthLevel; sb_upper : Z; sb_lower : Z; sb_high52 : Z; sb_low52 : Z }.
Inductive packetBody := LtpBody | QuoteBody (q : quoteBody) | SnapBody (q : quoteBody) (s : snapBody).
Record packet := { pk_exchange : Z; pk_token : string; pk_seq : Z; pk_time : Z; pk_ltp : Z; pk_body : packetBody }.

Definition enc64 (z : Z) : list byte := le_split 8 z.
Definition encode_level (l : depthLevel) : list byte :=
  le_split 2 (if dl_buy l then 1 else 0) ++ enc64 (dl_qty l) ++ enc64 (dl_price l) ++ le_split 2 (dl_orders l).
Fixpoint encode_token (n : nat) (s : string) : list byte :=
  match n, s with
  | O, _ => []
  | S n, String c s => byte_of_ascii c :: encode_token n s
  | S n, EmptyString => x00 :: encode_token n ""
  end.
Definition encode_quote (q : quoteBody) : list byte :=
  enc64 (qb_ltq q) ++ enc64 (qb_atp q) ++ enc64 (qb_volume q) ++ enc64 (qb_tbq q) ++ enc64 (qb_tsq q) ++ enc64 (qb_open q) ++
  enc64 (qb_high q) ++ enc64 (qb_low q) ++ enc64 (qb_close q).
Definition encode_snap (s : snapBody) : list byte :=
  enc64 (sb_ltt s) ++ enc64 (sb_oi s) ++ enc64 (sb_oiChange s) ++ (sb_levels s ≫= encode_level) ++ enc64 (sb_upper s) ++
  enc64 (sb_lower s) ++ enc64 (sb_high52 s) ++ enc64 (sb_low52 s).
Definition body_mode (b : packetBody) : Z :=
  match b with LtpBody => ModeLTP | QuoteBody _ => ModeQuote | SnapBody _ _ => ModeSnapQuote end.
Definition encode_body (b : packetBody) : list byte :=
  match b with LtpBody => [] | QuoteBody q => encode_quote q | SnapBody q s => encode_quote q ++ encode_snap s end.
Definition encode_packet (p : packet) : list byte :=
  [byte.of_Z (body_mode (pk_body p)); byte.of_Z (pk_exchange p)] ++ encode_token 25 (pk_token p) ++ enc64 (pk_seq p) ++ enc64 (pk_time p) ++
  enc64 (pk_ltp p) ++ encode_body (pk_body p).

(** The message a packet is. *)
Definition level_object (l : depthLevel) : gmap string scalar :=
  <["flag" := SInt (if dl_buy l then 1 else 0)]> (<["quantity" := SInt64 (dl_qty l)]> (<["price" := SInt64 (dl_price l)]>
    (<["no_of_orders" := SInt (dl_orders l)]> ∅))).
Definition side (buy : bool) (ls : list depthLevel) : list depthLevel := filter (λ l, dl_buy l = buy) ls.
Definition int_entries (kvs : list (string * Z)) (m : gmap string value) : gmap string value :=
  foldl (λ m kv, put kv.1 (SInt64 kv.2) m) m kvs.
Definition quote_message (q : quoteBody) (m : gmap string value) : gmap string value :=
  int_entries [("open_price_of_the_day", qb_open q); ("high_price_of_the_day", qb_high q); ("low_price_of_the_day", qb_low q);
               ("closed_price", qb_close q)]
    (put "total_sell_quantity" (SFloat64 (f64_of_bits (qb_tsq q))) (put "total_buy_quantity" (SFloat64 (f64_of_bits (qb_tbq q)))
      (int_entries [("last_traded_quantity", qb_ltq q); ("average_traded_price", qb_atp q); ("volume_trade_for_the_day", qb_volume q)] m))).
Definition snap_message (s : snapBody) (m : gmap string value) : gmap string value :=
  int_entries [("upper_circuit_limit", sb_upper s); ("lower_circuit_limit", sb_lower s); ("52_week_high_price", sb_high52 s);
               ("52_week_low_price", sb_low52 s)]
    (<["best_5_sell_data" := Objects (level_object <$> side false (sb_levels s))]>
      (<["best_5_buy_data" := Objects (level_object <$> side true (sb_levels s))]>
        (int_entries [("last_traded_timestamp", sb_ltt s); ("open_interest", sb_oi s); ("open_interest_change_percentage", sb_oiChange s)] m))).
Definition packet_message (p : packet) : gmap string value :=
  let head := int_entries [("sequence_number", pk_seq p); ("exchange_timestamp", pk_time p); ("last_traded_price", pk_ltp p)]
    (put "token" (SString (pk_token p)) (put "exchange_type" (SInt (pk_exchange p)) (put "subscription_mode" (SInt (body_mode (pk_body p))) ∅))) in
  match pk_body p with
  | LtpBody => head
  | QuoteBody q => quote_message q head
  | SnapBody q s => snap_message s (quote_message q head)
  end.

Definition u64_ok (z : Z) : Prop := 0 <= z < 2 ^ 64.
Definition level_ok (l : depthLevel) : Prop := in_i64 (dl_qty l) ∧ in_i64 (dl_price l) ∧ 0 <= dl_orders l < 2 ^ 16.
Definition quote_ok (q : quoteBody) : Prop :=
  (in_i64 (qb_ltq q) ∧ in_i64 (qb_atp q) ∧ in_i64 (qb_volume q)) ∧ (u64_ok (qb_tbq q) ∧ u64_ok (qb_tsq q)) ∧
  (in_i64 (qb_open q) ∧ in_i64 (qb_high q) ∧ in_i64 (qb_low q) ∧ in_i64 (qb_close q)).
Definition snap_ok (s : snapBody) : Prop :=
  (in_i64 (sb_ltt s) ∧ in_i64 (sb_oi s) ∧ in_i64 (sb_oiChange s)) ∧ (length (sb_levels s) = 10%nat ∧ Forall level_ok (sb_levels s)) ∧
  (in_i64 (sb_upper s) ∧ in_i64 (sb_lower s) ∧ in_i64 (sb_high52 s) ∧ in_i64 (sb_low52 s)).
Definition body_ok (b : packetBody) : Prop :=
  match b with LtpBody => True | QuoteBody q => quote_ok q | SnapBody q s => quote_ok q ∧ snap_ok s end.
(** The token has no zero byte and at most twenty-five. *)
Definition packet_ok (p : packet) : Prop :=
  0 <= pk_exchange p < 256 ∧ ((String.length (pk_token p) <= 25)%nat ∧ str_all (λ c, negb (Ascii.eqb c Ascii.zero)) (pk_token p) = true) ∧
  (in_i64 (pk_seq p) ∧ in_i64 (pk_time p) ∧ in_i64 (pk_ltp p)) ∧ body_ok (pk_body p).

(** ** Reading at an offset *)

Lemma sub_bytes_skip p b lo hi : (length p <= lo)%nat → (lo <= hi)%nat →
  sub_bytes (p ++ b) lo hi = sub_bytes b (lo - length p) (hi - length p).
Proof.
  intros H1 H2. unfold sub_bytes. rewrite length_app. replace (hi - length p - (lo - length p))%nat with (hi - lo)%nat by lia.
  rewrite drop_app_ge by lia. destruct (Nat.leb_spec lo hi); [|lia]. destruct (Nat.leb_spec (lo - length p) (hi - length p)); [|lia].
  destruct (Nat.leb_spec hi (length p + length b)), (Nat.leb_spec (hi - length p) (length b)); (lia || done).
Qed.

Lemma sub_bytes_here p b n : length p = n → sub_bytes (p ++ b) 0 n = Some p.
Proof.
  intros <-. unfold sub_bytes. rewrite length_app. destruct (Nat.leb_spec (length p) (length p + length b)); [|lia]. simpl.
  by rewrite drop_0, Nat.sub_0_r, take_app_length.
Qed.

Lemma int64_skip p b lo : (length p <= lo)%nat → int64_at (p ++ b) lo = int64_at b (lo - length p).
Proof. intros H. unfold int64_at. rewrite sub_bytes_skip by lia. by replace (lo + 8 - length p)%nat with (lo - length p + 8)%nat by lia. Qed.
Lemma f64_skip p b lo : (length p <= lo)%nat → f64_at (p ++ b) lo = f64_at b (lo - length p).
Proof. intros H. unfold f64_at. rewrite sub_bytes_skip by lia. by replace (lo + 8 - length p)%nat with (lo - length p + 8)%nat by lia. Qed.
Lemma uint16_skip p b lo : (length p <= lo)%nat → uint16_at (p ++ b) lo = uint16_at b (lo - length p).
Proof. intros H. unfold uint16_at. rewrite sub_bytes_skip by lia. by replace (lo + 2 - length p)%nat with (lo - length p + 2)%nat by lia. Qed.

Lemma Uint_split n z : Uint n (le_split n z) = Some (z mod 2 ^ (Z.of_nat n * 8)).
Proof.
  unfold Uint. pose proof (sub_bytes_here (le_split n z) [] n (length_le_split n z)) as H. rewrite app_nil_r in H. rewrite H. simpl.
  by rewrite le_combine_split.
Qed.

Lemma int64_here z b : in_i64 z → int64_at (enc64 z ++ b) 0 = Some z.
Proof.
  intros Hz. unfold int64_at, enc64. rewrite (sub_bytes_here _ _ _ (length_le_split 8 z)). cbn [mbind option_bind]. rewrite Uint_split.
  change (Z.of_nat 8 * 8) with 64. cbn [fmap option_fmap option_map]. f_equal. apply to_signed_id; [lia|]. i64_unfold. lia.
Qed.
Lemma f64_here z b : u64_ok z → f64_at (enc64 z ++ b) 0 = Some (f64_of_bits z).
Proof.
  intros Hz. unfold f64_at, enc64. rewrite (sub_bytes_here _ _ _ (length_le_split 8 z)). cbn [mbind option_bind]. rewrite Uint_split.
  change (Z.of_nat 8 * 8) with 64. cbn [fmap option_fmap option_map]. by rewrite Z.mod_small.
Qed.
Lemma uint16_here z b : 0 <= z < 2 ^ 16 → uint16_at (le_split 2 z ++ b) 0 = Some z.
Proof.
  intros Hz. unfold uint16_at. rewrite (sub_bytes_here _ _ _ (length_le_split 2 z)). cbn [mbind option_bind]. rewrite Uint_split.
  change (Z.of_nat 2 * 8) with 16. by rewrite Z.mod_small.
Qed.

Lemma length_enc64 z : length (enc64 z) = 8%nat.
Proof. apply length_le_split. Qed.
Lemma length_token n s : length (encode_token n s) = n.
Proof. revert s. induction n as [|n IH]; intros [|c s]; simpl; auto. Qed.
Lemma length_level l : length (encode_level l) = 20%nat.
Proof. unfold encode_level. by rewrite !length_app, !length_enc64, !length_le_split. Qed.
Lemma length_quote q : length (encode_quote q) = 72%nat.
Proof. unfold encode_quote. by rewrite !length_app, !length_enc64. Qed.
Lemma length_levels ls : length (ls ≫= encode_level) = (20 * length ls)%nat.
Proof. induction ls as [|l ls IH]; [done|]. rewrite bind_cons, length_app, length_level, IH. simpl. lia. Qed.

(** Goes to the field at the offset. *)
Ltac at_offset skip :=
  repeat (rewrite skip by (rewrite ?length_enc64, ?length_token, ?length_le_split, ?length_quote; simpl; lia);
          rewrite ?length_enc64, ?length_token, ?length_le_split; simpl Nat.sub).

Lemma token_back n s : (String.length s <= n)%nat → str_all (λ c, negb (Ascii.eqb c Ascii.zero)) s = true →
  parseTokenValue (encode_token n s) = s.
Proof.
  revert s. induction n as [|n IH]; intros [|c s]; simpl; intros Hl Hs; (done || lia || idtac).
  apply andb_prop in Hs as [Hc Hs]. destruct (Byte.eqb (byte_of_ascii c) x00) eqn:E.
  - apply Byte.byte_dec_bl in E. assert (c = Ascii.zero) as -> by (rewrite <-(ascii_of_byte_of_ascii c), E; done). done.
  - rewrite ascii_of_byte_of_ascii, IH by (done || lia). done.
Qed.

(** ** Decoding what was laid out *)

Ltac length_side := rewrite ?length_enc64, ?length_token, ?length_le_split, ?length_quote; simpl; lia.
Ltac skip_field lemma := rewrite lemma by length_side; rewrite ?length_enc64, ?length_token, ?length_le_split, ?length_quote.
(** Reads the fields one after the other, the lengths of two parts
    being known. *)
Ltac read_fields H1 H2 :=
  repeat (first [ rewrite int64_here by tauto | rewrite f64_here by tauto | rewrite uint16_here by tauto
                | skip_field int64_skip | skip_field f64_skip | skip_field uint16_skip ];
          rewrite ?H1, ?H2; cbn [Nat.sub Nat.mul mbind option_bind]).

Lemma quote_fields_back pre q post out : length pre = 51%nat → quote_ok q →
  quote_fields (pre ++ encode_quote q ++ post) out = Some (quote_message q out).
Proof.
  intros Hl ((? & ? & ?) & (? & ?) & (? & ? & ? & ?)). unfold quote_fields, encode_quote, int64_fields. rewrite <-!app_assoc.
  read_fields Hl Hl. done.
Qed.

Lemma level_back l post : level_ok l → best5_level (encode_level l ++ post) = Some (dl_buy l, level_object l).
Proof.
  intros (? & ? & ?). assert (0 <= (if dl_buy l then 1 else 0) < 2 ^ 16) by (destruct (dl_buy l); lia).
  unfold best5_level, encode_level. rewrite <-!app_assoc. read_fields (@eq_refl nat 0%nat) (@eq_refl nat 0%nat). unfold level_object. by destruct (dl_buy l).
Qed.

Lemma packets_back ls fuel : (length ls <= fuel)%nat → packets_of 20 fuel (ls ≫= encode_level) = encode_level <$> ls.
Proof.
  revert fuel. induction ls as [|l ls IH]; intros [|fuel] Hf; try done; [simpl in Hf; lia|]. rewrite bind_cons. simpl in Hf.
  assert (∃ c r, encode_level l ++ (ls ≫= encode_level) = c :: r) as (c & r & Hc).
  { destruct (encode_level l) as [|c r] eqn:E; [by apply (f_equal length) in E; rewrite length_level in E|]. by exists c, (r ++ (ls ≫= encode_level)). }
  rewrite fmap_cons. cbn [packets_of]. rewrite Hc, <-Hc. rewrite <-(length_level l), take_app_length, drop_app_length. f_equal.
  rewrite length_level. apply IH. lia.
Qed.

Lemma best5_back ls : Forall level_ok ls →
  best5_levels (encode_level <$> ls) = Some (level_object <$> side true ls, level_object <$> side false ls).
Proof.
  induction 1 as [|l ls Hl _ IH]; [done|]. rewrite fmap_cons. cbn [best5_levels]. rewrite length_level. cbn [Nat.ltb Nat.leb].
  pose proof (level_back l [] Hl) as Hb. rewrite app_nil_r in Hb. rewrite Hb. cbn [mbind option_bind]. rewrite IH. cbn [mbind option_bind].
  unfold side. rewrite !filter_cons. by destruct (dl_buy l).
Qed.

Lemma snap_fields_back pre s post out : length pre = 123%nat → snap_ok s →
  snap_fields (pre ++ encode_snap s ++ post) out = Some (snap_message s out).
Proof.
  intros Hp ((? & ? & ?) & (Hl & Hs) & (? & ? & ? & ?)). unfold snap_fields, encode_snap, int64_fields. rewrite <-!app_assoc.
  assert (length (sb_levels s ≫= encode_level) = 200%nat) as Hls by (by rewrite length_levels, Hl).
  read_fields Hp Hls.
  assert (∀ lo hi b, (147 <= lo)%nat → (lo <= hi)%nat →
    sub_bytes (pre ++ enc64 (sb_ltt s) ++ enc64 (sb_oi s) ++ enc64 (sb_oiChange s) ++ b) lo hi = sub_bytes b (lo - 147) (hi - 147)) as Hsub.
  { intros lo hi b ??. rewrite !sub_bytes_skip by (rewrite ?length_enc64; lia). rewrite !length_enc64, Hp. f_equal; lia. }
  rewrite Hsub by lia. change (147 - 147)%nat with 0%nat. change (347 - 147)%nat with 200%nat. rewrite sub_bytes_here by done.
  cbn [mbind option_bind]. unfold parseBest5BuySell. rewrite packets_back by (rewrite Hls, Hl; lia). rewrite best5_back by done.
  done.
Qed.

Lemma length_snap s : length (sb_levels s) = 10%nat → length (encode_snap s) = 256%nat.
Proof. intros Hl. unfold encode_snap. by rewrite !length_app, !length_enc64, length_levels, Hl. Qed.

Lemma read_byte z b : 0 <= z < 256 → byte.unsigned <$> (byte.of_Z z :: b) !! 0%nat = Some z.
Proof. intros Hz. cbn. f_equal. rewrite byte.unsigned_of_Z. by apply Z.mod_small. Qed.

(** A packet laid out as the feed does decodes to its message. *)
Lemma packet_back p : packet_ok p → parseBinaryData (encode_packet p) = Some (inr (packet_message p)).
Proof.
  intros (Hex & (Htl & Htk) & (Hsq & Htm & Hltp) & Hb). unfold packet_message, encode_packet.
  set (mode := body_mode (pk_body p)). assert (0 <= mode < 256) as Hm by (unfold mode; destruct (pk_body p); unfold body_mode, ModeLTP, ModeQuote, ModeSnapQuote; lia).
  set (head := [byte.of_Z mode; byte.of_Z (pk_exchange p)] ++ encode_token 25 (pk_token p) ++ enc64 (pk_seq p) ++ enc64 (pk_time p) ++ enc64 (pk_ltp p)).
  set (body := encode_body (pk_body p)).
  assert (length head = 51%nat) as Hhl by (unfold head; rewrite !length_app, length_token, !length_enc64; done).
  assert ([byte.of_Z mode; byte.of_Z (pk_exchange p)] ++ encode_token 25 (pk_token p) ++ enc64 (pk_seq p) ++ enc64 (pk_time p) ++ enc64 (pk_ltp p) ++
          body = head ++ body) as -> by (unfold head; by rewrite <-!app_assoc).
  unfold parseBinaryData. rewrite length_app, Hhl. destruct (Nat.ltb_spec (51 + length body) 51); [lia|].
  assert (byte.unsigned <$> (head ++ body) !! 0%nat = Some mode) as -> by (by apply read_byte).
  assert (byte.unsigned <$> (head ++ body) !! 1%nat = Some (pk_exchange p)) as -> by (by apply read_byte).
  assert (sub_bytes (head ++ body) 2 27 = Some (encode_token 25 (pk_token p)) ∧ int64_at (head ++ body) 27 = Some (pk_seq p) ∧
          int64_at (head ++ body) 35 = Some (pk_time p) ∧ int64_at (head ++ body) 43 = Some (pk_ltp p)) as (-> & -> & -> & ->).
  { unfold head. rewrite <-!app_assoc. split.
    - rewrite sub_bytes_skip by (simpl; lia). apply sub_bytes_here, length_token.
    - split; [|split]; rewrite int64_skip by (simpl; lia);
        repeat (rewrite int64_skip by (rewrite ?length_token, ?length_enc64; simpl; lia)); rewrite ?length_token, ?length_enc64; by apply int64_here. }
  cbn [mbind option_bind]. rewrite token_back by done. destruct (pk_body p) as [|q|q s] eqn:Hbody; unfold mode, body; cbn [body_mode encode_body].
  - done.
  - assert (Hq := λ out, quote_fields_back head q [] out Hhl Hb). rewrite app_nil_r in Hq. rewrite length_quote.
    change (((ModeQuote =? ModeQuote) || (ModeQuote =? ModeSnapQuote)) && (123 <=? 51 + 72)%nat) with true.
    change ((ModeQuote =? ModeSnapQuote) && (379 <=? 51 + 72)%nat) with false. change (ModeQuote =? ModeDepth) with false.
    cbn match. rewrite Hq. done.
  - destruct Hb as [Hqok Hsok]. pose proof (length_snap s (proj1 (proj1 (proj2 Hsok)))) as Hls.
    assert (Hq := λ out, quote_fields_back head q (encode_snap s) out Hhl Hqok).
    assert (length (head ++ encode_quote q) = 123%nat) as Hl2 by (rewrite length_app, Hhl, length_quote; done).
    assert (Hs := λ out, snap_fields_back (head ++ encode_quote q) s [] out Hl2 Hsok). rewrite app_nil_r, <-app_assoc in Hs.
    rewrite length_app, length_quote, Hls.
    change (((ModeSnapQuote =? ModeQuote) || (ModeSnapQuote =? ModeSnapQuote)) && (123 <=? 51 + (72 + 256))%nat) with true.
    change ((ModeSnapQuote =? ModeSnapQuote) && (379 <=? 51 + (72 + 256))%nat) with true. change (ModeSnapQuote =? ModeDepth) with false.
    cbn match. rewrite Hq. cbn [mbind option_bind]. rewrite Hs. done.
Qed.

(** ** Ticks *)

(** [b] is the best of the prices, 0 if there is none. *)
Definition best_of (better : Z → Z → Prop) (prices : list Z) (b : Z) : Prop :=
  (prices = [] ∧ b = 0) ∨ (b ∈ prices ∧ Forall (better b) prices).
(** The prices of a side with something to trade. *)
Definition quoted (buy : bool) (ls : list depthLevel) : list Z :=
  dl_price <$> filter (λ l, 0 < dl_qty l) (side buy ls).
Definition at_least (max : bool) (b p : Z) : Prop := if max then p <= b else b <= p.

Lemma better_best max prices : ∀ best,
  match foldl (λ b p, better max b p) best prices with
  | None => prices = [] ∧ best = None
  | Some b => (b ∈ prices ∨ best = Some b) ∧ Forall (at_least max b) prices ∧ (∀ b0, best = Some b0 → at_least max b b0)
  end.
Proof.
  induction prices as [|p prices IH]; intros best; simpl; [destruct best; [|done]; split; [by right|]; split; [done|]; intros ? [= <-];
    unfold at_least; by destruct max|].
  assert (∃ q, better max best p = Some q ∧ (q = p ∨ best = Some q) ∧ at_least max q p ∧ ∀ b0, best = Some b0 → at_least max q b0)
    as (q & Hq & Hin & Hp & Hb0).
  { unfold better, at_least. destruct best as [b0|]; [|exists p; split; [done|]; split; [auto|]; split; [destruct max; lia|done]].
    destruct max; simpl; [destruct (Z.ltb_spec b0 p)|destruct (Z.ltb_spec p b0)]; eexists; (split; [done|]); (split; [auto|]);
      (split; [lia|]); intros ? [= <-]; lia. }
  specialize (IH (better max best p)). destruct (foldl _ _ _) as [b|]; [|destruct IH as [_ H]; congruence].
  destruct IH as (H1 & H2 & H3).
  specialize (H3 q Hq). assert (∀ x, at_least max q x → at_least max b x) as Htr by (intros x; unfold at_least in *; destruct max; lia).
  split; [|split].
  - destruct H1 as [H1|H1]; [left; by right|]. rewrite Hq in H1. injection H1 as ->. destruct Hin as [->|Hin]; [left; by left|by right].
  - constructor; [by apply Htr|done].
  - intros b0 Hb. by apply Htr, Hb0.
Qed.

Lemma price_level_object l : price_level (level_object l) = if 0 <? dl_qty l then Some (dl_price l) else None.
Proof.
  unfold price_level, level_object. rewrite lookup_insert_ne by done. rewrite lookup_insert_eq.
  rewrite !(lookup_insert_ne _ _ "price") by done. rewrite lookup_insert_eq. simpl.
  destruct (Z.leb_spec (dl_qty l) 0), (Z.ltb_spec 0 (dl_qty l)); (done || lia).
Qed.

Lemma bestPrice_best buy max ls : best_of (at_least max) (quoted buy ls) (bestPrice (Some (Objects (level_object <$> side buy ls))) max).
Proof.
  unfold bestPrice. assert (∀ ls best, foldl (λ best lvl, match price_level lvl with Some p => better max best p | None => best end) best
    (level_object <$> ls) = foldl (λ b p, better max b p) best (dl_price <$> filter (λ l, 0 < dl_qty l) ls)) as ->.
  { clear. induction ls as [|l ls IH]; intros best; [done|]. rewrite fmap_cons, filter_cons. cbn [foldl]. rewrite price_level_object.
    destruct (Z.ltb_spec 0 (dl_qty l)); case_decide; (lia || done || apply IH). }
  pose proof (better_best max (quoted buy ls) None) as H. fold (quoted buy ls). destruct (foldl _ _ _) as [b|]; simpl.
  - destruct H as ([H|H] & H2 & _); [by right|done].
  - destruct H as [H _]. by left.
Qed.

(** What a packet says of its instrument. *)
Definition body_levels (b : packetBody) : list depthLevel := match b with SnapBody _ s => sb_levels s | _ => [] end.
Definition body_quote (b : packetBody) : option quoteBody := match b with LtpBody => None | QuoteBody q | SnapBody q _ => Some q end.
Definition body_oi (b : packetBody) : Z := match b with SnapBody _ s => sb_oi s | _ => 0 end.

Record tick_of_packet (p : packet) (recv : Time) (t : Tick) : Prop := {
  tp_token : tick_Token t = pk_token p;
  tp_exchange : tick_Exchange t = if String.eqb (exchangeTypeToName (pk_exchange p)) "" then "EX_" +:+ format_int (pk_exchange p)
                                  else exchangeTypeToName (pk_exchange p);
  tp_price : tick_Price t = pk_ltp p;
  tp_qty : tick_Qty t = from_option qb_ltq 0 (body_quote (pk_body p));
  tp_volume : tick_DayVolume t = from_option qb_volume 0 (body_quote (pk_body p));
  tp_oi : tick_OI t = body_oi (pk_body p);
  tp_recv : tick_TickTS t = recv;
  tp_event : tick_EventTS t = if 0 <? pk_time p then pk_time p *! Millisecond else zero_time;
  tp_bid : best_of (at_least true) (quoted true (body_levels (pk_body p))) (tick_BestBid t);
  tp_ask : best_of (at_least false) (quoted false (body_levels (pk_body p))) (tick_BestAsk t);
  tp_quote : tick_QuoteTS t = if (0 <? tick_BestBid t) || (0 <? tick_BestAsk t) then recv else zero_time }.

Ltac entry := repeat first [rewrite lookup_insert_eq | rewrite lookup_insert_ne by done]; rewrite ?lookup_empty.

(** What parseTick reads of a packet's message. *)
Lemma packet_lookups p (m := packet_message p) :
  m !! "token" = Some (Scalar (SString (pk_token p))) ∧ m !! "exchange_type" = Some (Scalar (SInt (pk_exchange p))) ∧
  m !! "last_traded_price" = Some (Scalar (SInt64 (pk_ltp p))) ∧ m !! "exchange_timestamp" = Some (Scalar (SInt64 (pk_time p))) ∧
  m !! "last_traded_quantity" = (Scalar ∘ SInt64 ∘ qb_ltq) <$> body_quote (pk_body p) ∧
  m !! "volume_trade_for_the_day" = (Scalar ∘ SInt64 ∘ qb_volume) <$> body_quote (pk_body p) ∧
  toInt64 (m !! "open_interest") = body_oi (pk_body p) ∧
  best_of (at_least true) (quoted true (body_levels (pk_body p))) (bestBid (m !! "best_5_buy_data")) ∧
  best_of (at_least false) (quoted false (body_levels (pk_body p))) (bestAsk (m !! "best_5_sell_data")).
Proof.
  unfold m, packet_message. destruct (pk_body p) as [|q|q s]; unfold snap_message, quote_message, int_entries, put; cbn [foldl fst snd];
    do 6 (split; [by entry|]); (split; [by entry|]); entry.
  1, 2: split; by left.
  split; apply bestPrice_best.
Qed.

(** C38: whatever bytes a socket delivers, decoding them panics never, and a
    packet laid out as the feed's format has it, in LTP, quote or snap-quote
    mode, decodes to exactly its own fields and to its own tick: its price,
    quantity, volume, open interest and time, the highest bid and the lowest
    ask of the levels with something to trade, and the quote's time when
    there is one. *)
Theorem packets_round_trip b p recv : packet_ok p → pk_token p ≠ "" →
  is_Some (parseBinaryData b) ∧ parseBinaryData (encode_packet p) = Some (inr (packet_message p)) ∧
  ∃ t, parseTick (packet_message p) recv = inr t ∧ tick_of_packet p recv t.
Proof.
  intros Hp Ht. split; [destruct (parse_total b) as (r & -> & _); by eexists|]. split; [by apply packet_back|].
  destruct (packet_lookups p) as (E1 & E2 & E3 & E4 & E5 & E6 & E7 & E8 & E9). unfold parseTick. rewrite E1, E2, E3, E4, E5, E6.
  destruct (String.eqb_spec (pk_token p) ""); [done|]. eexists. split; [reflexivity|]. split; try done; simpl; by destruct (body_quote _).
Qed.

(** A tick the ingest passes on is at most a second ahead of its receipt and
    at most five behind, or has no event time. *)
Lemma sanitize_window t : let t' := (sanitizeEventTS t).2 in
  tick_EventTS t' = zero_time ∨ tick_TickTS t - maxEventSkew <= tick_EventTS t' <= tick_TickTS t + maxFutureSkew.
Proof.
  unfold sanitizeEventTS. unfold t_is_zero. destruct (Z.eqb_spec (tick_EventTS t) zero_time) as [Hz|_]; [by left|right].
  unfold t_sub, t_add, maxEventSkew, maxFutureSkew, Second, min_i64, max_i64.
  destruct (Z.ltb_spec (5 * 1000000000) (Z.max (-2 ^ 63) (Z.min (2 ^ 63 - 1) (tick_EventTS t - tick_TickTS t)))); simpl; [lia|].
  destruct (Z.ltb_spec (Z.max (-2 ^ 63) (Z.min (2 ^ 63 - 1) (tick_EventTS t - tick_TickTS t))) (- (5 * 1000000000))); simpl; [lia|].
  destruct (Z.ltb_spec 1000000000 (Z.max (-2 ^ 63) (Z.min (2 ^ 63 - 1) (tick_EventTS t - tick_TickTS t)))); simpl; lia.
Qed.

(** ** Modes *)

Definition has_mode (m : gmap string value) : Prop := is_Some (m !! "subscription_mode").

Lemma has_insert k v m : has_mode m → has_mode (<[k := v]> m).
Proof.
  unfold has_mode. destruct (base.decide (k = "subscription_mode")) as [->|]; [rewrite lookup_insert_eq; by eexists|by rewrite lookup_insert_ne].
Qed.

Lemma has_fields b fs m m' : int64_fields b fs m = Some m' → has_mode m → has_mode m'.
Proof.
  revert m. induction fs as [|[k lo] fs IH]; simpl; intros m; [by intros [= <-]|]. destruct (int64_at b lo); [|done]. simpl. intros H Hm.
  eapply IH; [exact H|]. by apply has_insert.
Qed.

(** Takes a bind apart. *)
Ltac unbind H := repeat match type of H with (_ ≫= _) = Some _ => let E := fresh "E" in let x := fresh "x" in apply bind_Some in H as (x & E & H) end.

Lemma has_quote b m m' : quote_fields b m = Some m' → has_mode m → has_mode m'.
Proof.
  unfold quote_fields. intros H Hm. unbind H. eapply has_fields; [exact H|]. apply has_insert, has_insert. by eapply has_fields.
Qed.

Lemma has_snap b m m' : snap_fields b m = Some m' → has_mode m → has_mode m'.
Proof.
  unfold snap_fields. intros H Hm. unbind H. destruct x1 as [buy sell]. eapply has_fields; [exact H|]. apply has_insert, has_insert. by eapply has_fields.
Qed.

Lemma has_depth b ts m m' : depth_fields b ts m = Some m' → has_mode m → has_mode m'.
Proof.
  unfold depth_fields. intros H Hm. destruct (_ <=? _)%nat; [|injection H as <-; by apply has_insert]. unbind H. destruct x0 as [buy sell].
  injection H as <-. by apply has_insert, has_insert, has_insert.
Qed.

Lemma has_optional (c : bool) f m m' : (if c then f else Some m) = Some m' → has_mode m → (∀ m', f = Some m' → has_mode m') → has_mode m'.
Proof. destruct c; [eauto|]. by intros [= <-]. Qed.

(** A decoded frame always has its mode, so the branch for control messages
    is never taken. *)
Lemma parsed_has_mode b m : parseBinaryData b = Some (inr m) → has_mode m.
Proof.
  unfold parseBinaryData. destruct (_ <? 51)%nat; [done|]. intros H. unbind H. injection H as <-.
  assert (has_mode x5) as H5.
  { eapply has_optional; [eassumption|do 5 apply has_insert; eexists; apply lookup_insert_eq|]. intros m' Hq. eapply has_quote; [exact Hq|].
    do 5 apply has_insert. eexists. apply lookup_insert_eq. }
  assert (has_mode x6) as H6 by (eapply has_optional; [eassumption|done|]; intros m' Hs; by eapply has_snap).
  eapply has_optional; [eassumption|done|]. intros m' Hd. by eapply has_depth.
Qed.

Lemma no_control `{FrameJSON} hasData f calls : on_frame hasData true f = Some calls → Forall (λ c, ∀ m, c ≠ CallControl m) calls.
Proof.
  destruct f as [b|s|]; simpl.
  - destruct (parseBinaryData b) as [[e|m]|] eqn:Hb; [| |done]; simpl; intros [= <-]; [by repeat constructor|].
    destruct (parsed_has_mode b m Hb) as [v ->]. destruct hasData; by repeat constructor.
  - intros [= <-]. repeat case_match; by repeat constructor.
  - by intros [= <-].
Qed.

(** ** Packets *)

Definition sample_levels : list depthLevel :=
  [{| dl_buy := true; dl_qty := 75; dl_price := 10000; dl_orders := 2 |}; {| dl_buy := true; dl_qty := 150; dl_price := 10010; dl_orders := 1 |};
   {| dl_buy := true; dl_qty := 0; dl_price := 10020; dl_orders := 0 |}; {| dl_buy := false; dl_qty := 75; dl_price := 10030; dl_orders := 3 |};
   {| dl_buy := false; dl_qty := 75; dl_price := 10025; dl_orders := 3 |}] ++ replicate 5 {| dl_buy := false; dl_qty := 0; dl_price := 0; dl_orders := 0 |}.
Definition sample_quote : quoteBody := {|
  qb_ltq := 75; qb_atp := 10100; qb_volume := 123450; qb_tbq := 4607182418800017408; qb_tsq := 0; qb_open := 9900; qb_high := 10200;
  qb_low := 9800; qb_close := 10050 |}.
Definition sample_packet : packet := {|
  pk_exchange := 2; pk_token := "57710"; pk_seq := 42; pk_time := 1790000000000; pk_ltp := 10015;
  pk_body := SnapBody sample_quote {| sb_ltt := 1790000000; sb_oi := 9000; sb_oiChange := -5; sb_levels := sample_levels; sb_upper := 20000;
                                      sb_lower := 5; sb_high52 := 30000; sb_low52 := 5 |} |}.

Definition decoded_tick (b : list byte) (recv : Time) : option (string + Tick) :=
  match parseBinaryData b with Some (inr m) => Some (parseTick m recv) | _ => None end.

Lemma packets_round_trip_witness :
  option_map (λ r, match r with inr t => (tick_Token t, tick_Exchange t, tick_Price t, tick_BestBid t, tick_BestAsk t, tick_OI t) | _ => ("", "", 0, 0, 0, 0) end)
    (decoded_tick (encode_packet sample_packet) 0) = Some ("57710", "NFO", 10015, 10010, 10025, 9000) ∧
  length (encode_packet sample_packet) = 379%nat ∧
  is_Some (parseBinaryData []) ∧ parseBinaryData (encode_packet sample_packet) = Some (inr (packet_message sample_packet)) ∧
  ∃ t, parseTick (packet_message sample_packet) 0 = inr t ∧ tick_of_packet sample_packet 0 t.
Proof.
  split; [vm_compute; reflexivity|]. split; [vm_compute; reflexivity|]. apply (packets_round_trip [] sample_packet 0); [|discriminate].
  unfold packet_ok, body_ok, quote_ok, snap_ok, u64_ok. cbn. repeat split; try (i64_unfold; lia).
  repeat (constructor; [unfold level_ok; cbn; i64_unfold; lia|]). constructor.
Defined.

(** The last price of a depth packet is read out of its first level: here two
    lots at five rupees. *)
Definition depth_packet : list byte :=
  [byte.of_Z 4; byte.of_Z 1] ++ encode_token 25 "26000" ++ enc64 1 ++ enc64 1790000000000 ++
  le_split 4 2 ++ le_split 4 500 ++ le_split 2 1 ++ replicate 190 x00.
Example depth_price_misread :
  option_map (λ r, match r with inr t => tick_Price t | inl _ => 0 end) (decoded_tick depth_packet 0) = Some (500 * 2 ^ 32 + 2).
Proof. vm_compute. reflexivity. Qed.
