(* ===== verification/FeedSocket.v ===== *)
(** The market-data socket (pkg/smartconnect/websocket.go): what it is
    subscribed to, its connections, its goroutines.

    A goroutine is a [prog]: a sequence of actions, each one critical section
    of [s.mu], one atomic operation, one call of the connection or one
    callback, with what the world answers as its [senv]; it ends at a [place],
    where its loop goes on.  Any goroutine may act between two actions of
    another.  Connections are numbered as they are dialled.  Generations are
    [nat]s: a counter bumped twice a connection does not reach 2^64.  Left out:
    the request headers, the deadlines (a read or a write may fail at any
    time), [lastPongTimestamp] and the current retry count, which nothing
    reads.  [so_log] is what the socket called, wrote and waited, in order. *)
From S2P Require Import Prelude Float64 GoText FeedPacket.
#[local] Open Scope Z_scope.
#[local] Open Scope go_scope.

(** ** Subscriptions *)

Record TokenListEntry := { te_ExchangeType : Z; te_Tokens : list string }.

Definition SubscribeAction : Z := 1.
Definition UnsubscribeAction : Z := 0.
Definition QuotaDepthLimit : Z := 50.

(** mode -> exchange type -> tokens *)
Abbreviation modeMap := (gmap Z (list string)) (only parsing).
Abbreviation requestMap := (gmap Z (gmap Z (list string))) (only parsing).

Definition appendUnique (dst tokens : list string) : list string :=
  foldl (λ dst t, if existsb (String.eqb t) dst then dst else dst ++ [t]) dst tokens.

Definition addSubscription (mode : Z) (l : list TokenListEntry) (subs : requestMap) : requestMap :=
  <[mode := foldl (λ m tl, <[te_ExchangeType tl := appendUnique (default [] (m !! te_ExchangeType tl)) (te_Tokens tl)]> m)
                  (default ∅ (subs !! mode)) l]> subs.

Definition filterRemove (src remove : list string) : list string := filter (λ v, existsb (String.eqb v) remove = false) src.

Definition remove_entry (m : modeMap) (tl : TokenListEntry) : modeMap :=
  match m !! te_ExchangeType tl with
  | None => m
  | Some tokens =>
      match filterRemove tokens (te_Tokens tl) with
      | [] => delete (te_ExchangeType tl) m
      | newTokens => <[te_ExchangeType tl := newTokens]> m
      end
  end.
Definition removeSubscription (mode : Z) (l : list TokenListEntry) (subs : requestMap) : requestMap :=
  match subs !! mode with None => subs | Some m => <[mode := foldl remove_entry m l]> subs end.

(** The order of ranging over a map with int keys. *)
Class IntMapOrder := {
  int_range : ∀ {A : Type}, gmap Z A → list (Z * A);
  int_range_perm : ∀ {A : Type} (m : gmap Z A), int_range m ≡ₚ map_to_list m }.

Definition token_lists `{IntMapOrder} (mm : modeMap) : list TokenListEntry :=
  (λ et : Z * list string, {| te_ExchangeType := et.1; te_Tokens := et.2 |}) <$> filter (λ et : Z * list string, et.2 ≠ []) (int_range mm).

(** A copy of every stored subscription, by mode. *)
Definition Subscriptions `{IntMapOrder} (subs : requestMap) : gmap Z (list TokenListEntry) :=
  omap (λ mm, match token_lists mm with [] => None | l => Some l end) subs.

Record sub_request := { rq_action : Z; rq_mode : Z; rq_list : list TokenListEntry }.

(** What [Resubscribe] sends. *)
Definition resubscriptions `{IntMapOrder} (subs : requestMap) : list sub_request :=
  filter (λ r, rq_list r ≠ [])
    ((λ mm : Z * gmap Z (list string), {| rq_action := SubscribeAction; rq_mode := mm.1; rq_list := token_lists mm.2 |}) <$> int_range subs).

(** ** State *)

Inductive sock_error :=
  | ErrAuthRejected (status : string) | ErrConnLimit (status : string) | ErrDial (text : string) | ErrClosed | ErrNoConnection
  | ErrWrite | ErrQuota | ErrSubscribe (e : sock_error).

Inductive errCode := ErrCodeAuthRejected | ErrCodeRetryExhausted | ErrCodeConnLimit | MaxRetryReached.

Inductive sock_event :=
  | OnOpen (gen : nat) | OnClose (gen : nat) | OnError (code : errCode) | Called (c : socket_call) | Wrote (conn : nat) (r : sub_request)
  | Waited (d : Duration) | Panicked.

Record sockConfig := {
  sk_retryStrategy : Z; sk_retryDelay : Duration; sk_retryMultiplier : Z; sk_retryDuration : Duration; sk_maxRetryAttempt : Z;
  sk_onOpen : bool; sk_onClose : bool; sk_onError : bool; sk_onData : bool; sk_onControl : bool }.

(** Where a goroutine's loop stands.  A reconnect loop remembers when it began,
    its next attempt, whether the first one waits, and the generation whose
    read loop it came from, if any. *)
Inductive place :=
  | Stop | Reader (conn gen : nat) (reading : bool) | Heartbeat (conn gen : nat) | Redialling (gen : nat)
  | Retry (start : Time) (attempt : Z) (immediate : bool) (reader : option nat).

(** The goroutines the socket starts, and where they begin. *)
Inductive goroutine := GoReader (conn gen : nat) | GoHeartbeat (conn gen : nat) | GoRedial (gen : nat).
Definition begins (g : goroutine) : place :=
  match g with GoReader c gen => Reader c gen false | GoHeartbeat c gen => Heartbeat c gen | GoRedial gen => Redialling gen end.

Record socket := {
  so_Conn : option nat; so_gen : nat; so_connDone : option nat; so_stopped : list nat; so_closedGen : nat; so_cancelled : bool;
  so_requests : requestMap; so_resubscribeFlag : bool; so_disconnectFlag : bool; so_reconnecting : bool; so_lastFrame : Time;
  so_open : list nat; so_dials : nat; so_spawned : list goroutine; so_log : list sock_event }.
#[export] Instance socket_settable : Settable socket := λ s, {|
  so_Conn := so_Conn s; so_gen := so_gen s; so_connDone := so_connDone s; so_stopped := so_stopped s; so_closedGen := so_closedGen s;
  so_cancelled := so_cancelled s; so_requests := so_requests s; so_resubscribeFlag := so_resubscribeFlag s;
  so_disconnectFlag := so_disconnectFlag s; so_reconnecting := so_reconnecting s; so_lastFrame := so_lastFrame s; so_open := so_open s;
  so_dials := so_dials s; so_spawned := so_spawned s; so_log := so_log s |}.

Definition newSocket : socket := {|
  so_Conn := None; so_gen := 0; so_connDone := None; so_stopped := []; so_closedGen := 0; so_cancelled := false; so_requests := ∅;
  so_resubscribeFlag := false; so_disconnectFlag := true; so_reconnecting := false; so_lastFrame := zero_time; so_open := []; so_dials := 0;
  so_spawned := []; so_log := [] |}.

(** [retireLocked]: the detached connection; its heartbeat's channel is closed. *)
Definition retire (s : socket) : option nat * socket :=
  (so_Conn s, s <| so_Conn := None |> <| so_stopped := option_list (so_connDone s) ++ so_stopped s |> <| so_connDone := None |>
                <| so_gen := S (so_gen s) |>).

(** ** Programs *)

Inductive dial_answer := DialFailed (status : option (Z * string)) (text : string) | Dialled.
Inductive read_answer := ReadError | ReadControl | ReadFrame (f : ws_frame).
(** The clock; what dialling, reading and writing answer; which channel of a
    select is taken. *)
Record senv := { sv_now : Time; sv_dial : dial_answer; sv_read : read_answer; sv_writes : nat; sv_timer : bool }.

Inductive prog (A : Type) : Type :=
  | Ret (a : A)
  | Act (B : Type) (f : senv → socket → B * socket) (k : B → prog A).
Arguments Ret {A} a.
Arguments Act {A B} f k.

Fixpoint pbind {A B} (p : prog A) (k : A → prog B) : prog B :=
  match p with Ret a => k a | Act f k' => Act f (λ b, pbind (k' b) k) end.
Declare Scope sock_scope.
Delimit Scope sock_scope with sock.
Notation "'let*' x ':=' p 'in' q" := (pbind p (λ x, q)) (at level 200, x name, p at level 100, q at level 200) : sock_scope.
Notation "p ';;' q" := (pbind p (λ _, q)) (at level 100, q at level 200, right associativity) : sock_scope.
#[local] Open Scope sock_scope.

Definition act {A} (f : senv → socket → A * socket) : prog A := Act f Ret.
Definition change (f : senv → socket → socket) : prog unit := act (λ e s, (tt, f e s)).
Definition now : prog Time := act (λ e s, (sv_now e, s)).
Definition log (ev : sock_event) (s : socket) : socket := s <| so_log := so_log s ++ [ev] |>.
Definition logs (evs : list sock_event) (s : socket) : socket := s <| so_log := so_log s ++ evs |>.
Definition emit (on : bool) (ev : sock_event) : prog unit := if on then change (λ _, log ev) else Ret tt.
Definition spawn (g : goroutine) : prog unit := change (λ _ s, s <| so_spawned := so_spawned s ++ [g] |>).
Definition markFrame : prog unit := change (λ e s, s <| so_lastFrame := sv_now e |>).

(** [conn.Close()]. *)
Definition close_conn (conn : option nat) : prog unit :=
  match conn with None => Ret tt | Some c => change (λ _ s, s <| so_open := filter (λ c', c' ≠ c) (so_open s) |>) end.

(** The requests written before the first that fails; a closed connection
    takes none. *)
Definition write_all (conn : nat) (rs : list sub_request) (e : senv) (s : socket) : bool * socket :=
  let n := if bool_decide (conn ∈ so_open s) then sv_writes e else 0%nat in
  ((length rs <=? n)%nat, logs (Wrote conn <$> take n rs) s).

Class MathPow := math_pow : float64 → float64 → float64.

Definition maxRetryDelay : Duration := 60 * Second.

Section socket.
Context `{IO : IntMapOrder, FJ : FrameJSON, MP : MathPow} (cfg : sockConfig).

Definition retryBackoff (attempt : Z) : Duration :=
  let d := if sk_retryStrategy cfg =? 0 then sk_retryDelay cfg
           else f64_to_int (# (sk_retryDelay cfg) ⊗ math_pow (# (sk_retryMultiplier cfg)) (# (attempt - 1))) in
  if (maxRetryDelay <? d) || (d <? 0) then maxRetryDelay else d.

(** [Resubscribe], under the lock. *)
Definition resubscribe (e : senv) (s : socket) : option sock_error * socket :=
  match resubscriptions (so_requests s) with
  | [] => (None, s)
  | rs => match so_Conn s with
          | None => (Some ErrNoConnection, s)
          | Some c => let '(ok, s) := write_all c rs e s in (if ok then None else Some ErrWrite, s)
          end
  end.

Definition dial_error (status : option (Z * string)) (text : string) : sock_error :=
  match status with
  | Some (code, status) =>
      if (code =? 401) || (code =? 403) then ErrAuthRejected status else if code =? 429 then ErrConnLimit status else ErrDial text
  | None => ErrDial text
  end.

Definition dial : prog (sock_error + nat) :=
  act (λ e s, match sv_dial e with
              | DialFailed status text => (inl (dial_error status text), s)
              | Dialled => let c := so_dials s in (inr c, s <| so_dials := S c |> <| so_open := so_open s ++ [c] |>)
              end).

(** The new connection becomes the current one, unless the socket was closed
    meanwhile; the superseded one is returned. *)
Definition install (c : nat) : prog (option (nat * option nat)) :=
  act (λ _ s,
    if so_cancelled s then (None, s)
    else let '(old, s) := retire s in
         let gen := S (so_gen s) in
         (Some (gen, old), s <| so_gen := gen |> <| so_Conn := Some c |> <| so_connDone := Some gen |> <| so_disconnectFlag := false |>
                             <| so_resubscribeFlag := false |>)).

Definition Connect : prog (option sock_error) :=
  let* d := dial in
  match d with
  | inl e => Ret (Some e)
  | inr c =>
      let* r := install c in
      match r with
      | None => close_conn (Some c) ;; Ret (Some ErrClosed)
      | Some (gen, old) =>
          markFrame ;;
          close_conn old ;;
          spawn (GoReader c gen) ;;
          spawn (GoHeartbeat c gen) ;;
          emit (sk_onOpen cfg) (OnOpen gen) ;;
          let* err := act resubscribe in
          match err with
          | None => Ret None
          | Some e =>
              let* stale := act (λ _ s, if (so_gen s =? gen)%nat then retire s else (None, s)) in
              close_conn stale ;; Ret (Some (ErrSubscribe e))
          end
      end
  end.

Definition CloseConnection : prog unit :=
  change (λ _ s, s <| so_cancelled := true |>) ;;
  let* conn := act (λ _ s, retire (s <| so_resubscribeFlag := false |> <| so_disconnectFlag := true |>)) in
  close_conn conn.

(** At most one OnClose a generation. *)
Definition notifyClose (gen : nat) : prog unit :=
  let* due := act (λ _ s, if (gen <=? so_closedGen s)%nat then (false, s) else (true, s <| so_closedGen := gen |>)) in
  emit (due && sk_onClose cfg) (OnClose gen).

(** What is left of the goroutine once its reconnect returns. *)
Definition return_to (reader : option nat) : prog place :=
  match reader with Some gen => notifyClose gen ;; Ret Stop | None => Ret Stop end.
Definition end_reconnect (reader : option nat) : prog place :=
  change (λ _ s, s <| so_reconnecting := false |>) ;; return_to reader.

(** [reconnect] up to its loop; [handleError] is [reconnect gen false]. *)
Definition reconnect (gen : nat) (immediate : bool) (reader : option nat) : prog place :=
  let* won := act (λ _ s, if so_reconnecting s then (false, s) else (true, s <| so_reconnecting := true |>)) in
  if negb won then return_to reader
  else
    let* old := act (λ _ s,
      if negb (so_gen s =? gen)%nat || so_cancelled s then (None, s)
      else let '(old, s) := retire s in (Some old, s <| so_resubscribeFlag := true |>)) in
    match old with
    | None => end_reconnect reader
    | Some old =>
        close_conn old ;;
        notifyClose gen ;;
        let* start := now in
        Ret (Retry start 1 immediate reader)
    end.

(** Its loop, one attempt. *)
Definition retry (start : Time) (attempt : Z) (immediate : bool) (reader : option nat) : prog place :=
  let delay := if immediate && (attempt =? 1) then 0 else retryBackoff attempt in
  let* stop := act (λ e s, if so_cancelled s && negb (sv_timer e) then (true, s) else (false, log (Waited delay) s)) in
  if stop : bool then end_reconnect reader
  else
    let* cerr := Connect in
    match cerr with
    | None => end_reconnect reader
    | Some (ErrAuthRejected _) => emit (sk_onError cfg) (OnError ErrCodeAuthRejected) ;; end_reconnect reader
    | Some (ErrConnLimit _) => emit (sk_onError cfg) (OnError ErrCodeConnLimit) ;; end_reconnect reader
    | Some _ =>
        emit ((attempt =? sk_maxRetryAttempt cfg) && sk_onError cfg) (OnError MaxRetryReached) ;;
        let* t := now in
        if (0 <? sk_retryDuration cfg) && (sk_retryDuration cfg <=? t_sub t start)
        then emit (sk_onError cfg) (OnError ErrCodeRetryExhausted) ;; end_reconnect reader
        else Ret (Retry start (attempt + 1) immediate reader)
    end.

(** One turn of the read loop; a read on a connection that was closed fails. *)
Definition read_turn (c gen : nat) (reading : bool) : prog place :=
  let* cancelled := (if reading then Ret false else act (λ _ s, (so_cancelled s, s))) in
  if cancelled : bool then return_to (Some gen)
  else
    let* r := act (λ e s, (if bool_decide (c ∈ so_open s) then sv_read e else ReadError, s)) in
    match r with
    | ReadError => reconnect gen false (Some gen)
    | ReadControl => markFrame ;; Ret (Reader c gen true)
    | ReadFrame f =>
        markFrame ;;
        match on_frame (sk_onData cfg) (sk_onControl cfg) f with
        | None => emit true Panicked ;; Ret Stop
        | Some calls => change (λ _, logs (Called <$> calls)) ;; Ret (Reader c gen false)
        end
    end.

(** One turn of the heartbeat: the ticker, or one of the channels that end it. *)
Definition beat_turn (c gen : nat) : prog place :=
  let* ticked := act (λ e s, (if sv_timer e then Some true
                              else if so_cancelled s || bool_decide (gen ∈ so_stopped s) then None else Some false, s)) in
  match ticked with
  | None => Ret Stop
  | Some false => Ret (Heartbeat c gen)
  | Some true =>
      let* ok := act (λ e s, (bool_decide (c ∈ so_open s) && (0 <? sv_writes e)%nat, s)) in
      if ok : bool then Ret (Heartbeat c gen) else reconnect gen false None
  end.

Definition place_prog (pl : place) : prog place :=
  match pl with
  | Stop => Ret Stop
  | Reader c gen reading => read_turn c gen reading
  | Heartbeat c gen => beat_turn c gen
  | Redialling gen => reconnect gen true None
  | Retry start attempt immediate reader => retry start attempt immediate reader
  end.

(** ** Calls from outside *)

(** A request goes to the current connection. *)
Definition send_live (r : sub_request) (e : senv) (s : socket) : option sock_error * socket :=
  match so_Conn s with
  | None => (Some ErrNoConnection, s)
  | Some c => let '(ok, s) := write_all c [r] e s in if ok then (None, s <| so_resubscribeFlag := true |>) else (Some ErrWrite, s)
  end.

Definition Subscribe (mode : Z) (l : list TokenListEntry) : prog (option sock_error) :=
  if (mode =? ModeDepth) && (QuotaDepthLimit <? foldr (λ tl n, n + Z.of_nat (length (te_Tokens tl))) 0 l) then Ret (Some ErrQuota)
  else act (λ e s,
    send_live {| rq_action := SubscribeAction; rq_mode := mode; rq_list := l |} e
      (s <| so_requests := addSubscription mode l (so_requests s) |>)).

Definition Unsubscribe (mode : Z) (l : list TokenListEntry) : prog (option sock_error) :=
  act (λ e s,
    send_live {| rq_action := UnsubscribeAction; rq_mode := mode; rq_list := l |} e
      (s <| so_requests := removeSubscription mode l (so_requests s) |>)).

Definition AddSubscription (mode : Z) (l : list TokenListEntry) : prog unit :=
  change (λ _ s, s <| so_requests := addSubscription mode l (so_requests s) |>).

Definition Redial : prog unit := let* gen := act (λ _ s, (so_gen s, s)) in spawn (GoRedial gen).

Inductive sock_api :=
  | CallConnect | CallClose | CallSubscribe (mode : Z) (l : list TokenListEntry) | CallUnsubscribe (mode : Z) (l : list TokenListEntry)
  | CallAddSubscription (mode : Z) (l : list TokenListEntry) | CallRedial.
Definition api_prog (a : sock_api) : prog place :=
  match a with
  | CallConnect => Connect ;; Ret Stop
  | CallClose => CloseConnection ;; Ret Stop
  | CallSubscribe mode l => Subscribe mode l ;; Ret Stop
  | CallUnsubscribe mode l => Unsubscribe mode l ;; Ret Stop
  | CallAddSubscription mode l => AddSubscription mode l ;; Ret Stop
  | CallRedial => Redial ;; Ret Stop
  end.

(** ** Every interleaving *)

Record sock_world := { sw_sock : socket; sw_threads : list (prog place) }.

Definition new_world : sock_world := {| sw_sock := newSocket; sw_threads := [] |}.

(** A call from outside begins, or a goroutine makes its next action or goes on
    with its loop; those it starts begin at their place. *)
Inductive sched := Begin (a : sock_api) | Go (i : nat) (e : senv).

Definition thread_go (p : prog place) (e : senv) (s : socket) : prog place * socket :=
  match p with
  | Ret pl => (place_prog pl, s)
  | Act f k => let '(b, s) := f e s in (k b, s)
  end.

Definition sock_do (st : sched) (w : sock_world) : sock_world :=
  match st with
  | Begin a => {| sw_sock := sw_sock w; sw_threads := sw_threads w ++ [api_prog a] |}
  | Go i e =>
      match sw_threads w !! i with
      | None => w
      | Some p =>
          let '(p, s) := thread_go p e (sw_sock w) in
          {| sw_sock := s <| so_spawned := [] |>; sw_threads := <[i := p]> (sw_threads w) ++ ((Ret ∘ begins) <$> so_spawned s) |}
      end
  end.

Definition sock_run (sts : list sched) (w : sock_world) : sock_world := foldl (λ w st, sock_do st w) w sts.
End socket.
