(* ===== verification/FeedSocketOk.v ===== *)
(** The feed's socket keeps account of its connections, whatever the
    interleaving of its goroutines: no connection is left open but the current
    one, a generation closes once, one reconnect runs at a time, and a closed
    socket stays closed.

    A goroutine carries [tok]ens: the reconnecting flag, the connections it
    has to install or to close, the OnClose it owes.  [accounted] relates them
    to the state; [wp] says a program keeps it whatever the others do. *)
From S2P Require Import Prelude Float64 GoText FeedPacket FeedSocket.
#[local] Open Scope Z_scope.
#[local] Open Scope sock_scope.

Inductive tok := Flag | Held (c : nat) | Due (gen : nat).
#[local] Instance tok_eq_dec : EqDecision tok.
Proof. solve_decision. Defined.

Definition flags (D : list tok) : nat := length (filter (λ t, t = Flag) D).
Definition held (D : list tok) : list nat := omap (λ t, match t with Held c => Some c | _ => None end) D.
Definition dues (D : list tok) : list nat := omap (λ t, match t with Due g => Some g | _ => None end) D.
Definition closes (s : socket) : list nat := omap (λ ev, match ev with OnClose g => Some g | _ => None end) (so_log s).

Record accounted (s : socket) (D : list tok) : Prop := {
  ac_flag : flags D = (if so_reconnecting s then 1 else 0)%nat;
  ac_open : so_open s ≡ₚ option_list (so_Conn s) ++ held D;
  ac_fresh : NoDup (so_open s) ∧ Forall (λ c, c < so_dials s)%nat (so_open s);
  ac_closes : NoDup (closes s ++ dues D) ∧ Forall (λ g, g <= so_closedGen s)%nat (closes s ++ dues D);
  ac_done : so_connDone s = (if so_Conn s then Some (so_gen s) else None);
  ac_stopped : NoDup (so_stopped s) ∧ Forall (λ g, g <= so_gen s)%nat (so_stopped s) ∧ (so_Conn s ≠ None → so_gen s ∉ so_stopped s);
  ac_shut : so_disconnectFlag s = true → so_Conn s = None }.

Lemma flags_app D D' : flags (D ++ D') = (flags D + flags D')%nat.
Proof. unfold flags. by rewrite filter_app, length_app. Qed.
Lemma held_app D D' : held (D ++ D') = held D ++ held D'.
Proof. apply omap_app. Qed.
Lemma dues_app D D' : dues (D ++ D') = dues D ++ dues D'.
Proof. apply omap_app. Qed.

#[local] Instance flags_perm : Proper ((≡ₚ) ==> eq) flags.
Proof. intros D D' H. unfold flags. by rewrite H. Qed.
#[local] Instance held_perm : Proper ((≡ₚ) ==> (≡ₚ)) held.
Proof. intros D D' H. unfold held. by rewrite H. Qed.
#[local] Instance dues_perm : Proper ((≡ₚ) ==> (≡ₚ)) dues.
Proof. intros D D' H. unfold dues. by rewrite H. Qed.

Lemma accounted_perm s D D' : D ≡ₚ D' → accounted s D → accounted s D'.
Proof. intros HD [H1 H2 H3 H4 H5 H6 H7]. split; try done; [by rewrite <-HD|by rewrite <-HD|by rewrite <-HD]. Qed.

(** ** Programs that keep the account *)

(** CloseConnection has detached the connection. *)
Definition shut (s : socket) : Prop := so_cancelled s = true ∧ so_disconnectFlag s = true.

Fixpoint wp {A} (p : prog A) (Q : A → list tok → Prop) (D : list tok) : Prop :=
  match p with
  | Ret a => Q a D
  | Act f k => ∀ e s D', accounted s (D ++ D') → ∃ D1, (accounted (f e s).2 (D1 ++ D') ∧ (shut s → shut (f e s).2)) ∧ wp (k (f e s).1) Q D1
  end.

Lemma sock_mono {A} (p : prog A) (Q Q' : A → list tok → Prop) D : (∀ a D, Q a D → Q' a D) → wp p Q D → wp p Q' D.
Proof.
  intros HQ. revert D. induction p as [a|B f k IH]; intros D; simpl; [apply HQ|]. intros H e s D' Hs.
  destruct (H e s D' Hs) as (D1 & H1 & H2). exists D1. split; [done|]. by apply IH.
Qed.

Lemma sock_bind {A B} (p : prog A) (k : A → prog B) Q D : wp p (λ a D, wp (k a) Q D) D → wp (pbind p k) Q D.
Proof.
  revert D. induction p as [a|C f k' IH]; intros D; simpl; [done|]. intros H e s D' Hs.
  destruct (H e s D' Hs) as (D1 & H1 & H2). exists D1. split; [done|]. by apply IH.
Qed.

(** An action that leaves alone what the account is of. *)
Definition core (s : socket) := (so_Conn s, so_gen s, so_connDone s, so_stopped s, so_closedGen s, (so_cancelled s, so_disconnectFlag s, so_reconnecting s),
  (so_open s, so_dials s), closes s).

Lemma accounted_core s s' D : core s' = core s → accounted s D → accounted s' D.
Proof.
  intros E [H1 H2 H3 H4 H5 H6 H7]. injection E as E1 E2 E3 E4 E5 _ E6 E7 E8 E9 E10.
  split; rewrite ?E1, ?E2, ?E3, ?E4, ?E5, ?E6, ?E7, ?E8, ?E9, ?E10; done.
Qed.

Lemma shut_core s s' : core s' = core s → shut s → shut s'.
Proof. intros E [H1 H2]. injection E as _ _ _ _ _ E1 E2 _ _ _ _. split; congruence. Qed.

Lemma wp_same {A} f (Q : A → list tok → Prop) D : (∀ e s, core (f e s).2 = core s) → (∀ a, Q a D) → wp (act f) Q D.
Proof. intros Hf HQ e s D' Hs. exists D. split; [split; [eapply accounted_core; [apply Hf|done]|by apply shut_core]|apply HQ]. Qed.

Definition place_toks (pl : place) : list tok := match pl with Retry _ _ _ _ => [Flag] | _ => [] end.
Definition at_place (pl : place) (D : list tok) : Prop := D = place_toks pl.

Lemma closes_log ev s : (∀ g, ev ≠ OnClose g) → closes (log ev s) = closes s.
Proof. intros He. unfold closes, log. cbn. rewrite omap_app. destruct ev; cbn; rewrite ?app_nil_r; try done. by destruct (He gen). Qed.

Lemma closes_logs evs s : Forall (λ ev, ∀ g, ev ≠ OnClose g) evs → closes (logs evs s) = closes s.
Proof.
  intros He. unfold closes, logs. cbn. rewrite omap_app.
  assert (omap (λ ev, match ev with OnClose g => Some g | _ => None end) evs = []) as ->; [|by rewrite app_nil_r].
  induction He as [|ev evs H _ IH]; [done|]. cbn. destruct ev; try done. by destruct (H gen).
Qed.

Lemma core_log ev s : (∀ g, ev ≠ OnClose g) → core (log ev s) = core s.
Proof. intros He. unfold core. by rewrite closes_log. Qed.
Lemma core_logs evs s : Forall (λ ev, ∀ g, ev ≠ OnClose g) evs → core (logs evs s) = core s.
Proof. intros He. unfold core. by rewrite closes_logs. Qed.

Lemma write_core c rs e s : core (write_all c rs e s).2 = core s.
Proof. apply core_logs. apply Forall_fmap, Forall_true. by intros. Qed.

(** *** The actions that move tokens *)

Lemma retire_accounted s D : accounted s D → accounted (retire s).2 ((Held <$> option_list (so_Conn s)) ++ D).
Proof.
  intros [H1 H2 H3 H4 H5 [H6a [H6b H6c]] H7]. split; cbn; try done.
  - rewrite flags_app, H1. by destruct (so_Conn s).
  - rewrite H2, held_app. by destruct (so_Conn s).
  - rewrite dues_app. by destruct (so_Conn s).
  - rewrite H5. destruct (so_Conn s) as [c|]; cbn.
    + split; [constructor; [by apply H6c|done]|]. split; [|done]. constructor; [lia|]. eapply Forall_impl; [exact H6b|]. cbn. lia.
    + split; [done|]. split; [|done]. eapply Forall_impl; [exact H6b|]. cbn. lia.
Qed.

Lemma dial_accounted s D : accounted s D →
  accounted (s <| so_dials := S (so_dials s) |> <| so_open := so_open s ++ [so_dials s] |>) (Held (so_dials s) :: D).
Proof.
  intros [H1 H2 [H3a H3b] H4 H5 H6 H7]. split; cbn; try done.
  - rewrite H2. change (held (Held (so_dials s) :: D)) with (so_dials s :: held D). solve_Permutation.
  - split.
    + apply NoDup_app. split; [done|]. split; [|apply NoDup_singleton]. intros c Hc. rewrite list_elem_of_singleton. intros ->.
      rewrite Forall_forall in H3b. apply H3b in Hc. lia.
    + apply Forall_app. split; [eapply Forall_impl; [exact H3b|]; cbn; lia|]. constructor; [lia|done].
Qed.

Lemma filter_out (c : nat) (l : list nat) : c ∉ l → filter (λ c', c' ≠ c) l = l.
Proof. induction l as [|x l IH]; [done|]. intros Hc. rewrite filter_cons_True, IH; set_solver. Qed.

Lemma close_accounted c s D : accounted s (Held c :: D) → accounted (s <| so_open := filter (λ c', c' ≠ c) (so_open s) |>) D.
Proof.
  intros [H1 H2 [H3a H3b] H4 H5 H6 H7]. split; cbn; try done.
  - change (held (Held c :: D)) with (c :: held D) in H2. rewrite <-Permutation_middle in H2.
    assert (NoDup (c :: option_list (so_Conn s) ++ held D)) as [Hn _]%NoDup_cons by (by rewrite <-H2).
    rewrite H2, filter_cons_False by (intros Hf; by apply Hf). by rewrite filter_out.
  - split; [by apply NoDup_filter|]. rewrite Forall_forall in H3b |- *. intros c1 [_ ?]%list_elem_of_filter. by apply H3b.
Qed.

Lemma install_accounted c s D : accounted s (Held c :: D) → so_cancelled s = false →
  accounted (s <| so_Conn := Some c |> <| so_stopped := option_list (so_connDone s) ++ so_stopped s |> <| so_connDone := Some (S (S (so_gen s))) |>
               <| so_gen := S (S (so_gen s)) |> <| so_disconnectFlag := false |> <| so_resubscribeFlag := false |>)
    ((Held <$> option_list (so_Conn s)) ++ D).
Proof.
  intros Hs _. pose proof Hs as [H1 H2 H3 H4 H5 [H6a [H6b H6c]] H7]. split; cbn; try done.
  - rewrite flags_app, <-H1. change (flags (Held c :: D)) with (flags D). by destruct (so_Conn s).
  - rewrite H2, held_app. change (held (Held c :: D)) with (c :: held D). destruct (so_Conn s); cbn; solve_Permutation.
  - rewrite dues_app. change (dues (Held c :: D)) with (dues D) in H4. by destruct (so_Conn s).
  - rewrite H5. destruct (so_Conn s) as [c0|]; cbn.
    + split; [constructor; [by apply H6c|done]|]. split; [constructor; [lia|]; eapply Forall_impl; [exact H6b|]; cbn; lia|].
      intros _. rewrite not_elem_of_cons. split; [lia|]. rewrite Forall_forall in H6b. intros Hin%H6b. lia.
    + split; [done|]. split; [eapply Forall_impl; [exact H6b|]; cbn; lia|]. intros _. rewrite Forall_forall in H6b. intros Hin%H6b. lia.
Qed.

(** ** The operations *)

Section ok.
Context `{IO : IntMapOrder, FJ : FrameJSON, MP : MathPow} (cfg : sockConfig).

Lemma wp_emit on ev (Q : unit → list tok → Prop) D : (∀ g, ev ≠ OnClose g) → Q tt D → wp (emit on ev) Q D.
Proof. intros He HQ. destruct on; [|done]. apply wp_same; [intros e s; by apply core_log|by intros []]. Qed.

Lemma sock_change f (Q : unit → list tok → Prop) D : (∀ e s, core (f e s) = core s) → Q tt D → wp (change f) Q D.
Proof. intros Hf HQ. apply wp_same; [done|by intros []]. Qed.

Lemma wp_markFrame (Q : unit → list tok → Prop) D : Q tt D → wp markFrame Q D.
Proof. by apply sock_change. Qed.

Lemma wp_close conn (Q : unit → list tok → Prop) D : Q tt D → wp (close_conn conn) Q ((Held <$> option_list conn) ++ D).
Proof.
  intros HQ. destruct conn as [c|]; [|done]. intros e s D' Hs. exists D. split; [split; [by apply close_accounted|done]|done].
Qed.

(** The body's tokens are framed by what the goroutine holds besides. *)
Lemma wp_notifyClose gen (Q : unit → list tok → Prop) D : Q tt D → wp (notifyClose cfg gen) Q D.
Proof.
  intros HQ. apply sock_bind. intros e s D' Hs. simpl. destruct (Nat.leb_spec gen (so_closedGen s)) as [Hle|Hlt]; simpl.
  - exists D. split; [by split|done].
  - destruct (sk_onClose cfg) eqn:Hc; simpl.
    + exists (Due gen :: D). destruct Hs as [H1 H2 H3 [H4a H4b] H5 H6 H7]. split.
      * split; [|done]. split; cbn; try done. change (dues (Due gen :: D ++ D')) with (gen :: dues (D ++ D')). rewrite <-Permutation_middle.
        split; [constructor; [|done]; intros Hin; rewrite Forall_forall in H4b; apply H4b in Hin; lia|].
        constructor; [lia|]. eapply Forall_impl; [exact H4b|]. cbn. lia.
      * intros e1 s1 D1 [G1 G2 G3 [G4a G4b] G5 G6 G7]. exists D. split; [|done]. split; [|done]. split; cbn; try done.
        unfold closes, log in *. cbn. rewrite omap_app. cbn. change (dues ((Due gen :: D) ++ D1)) with (gen :: dues (D ++ D1)) in *.
        rewrite <-app_assoc. done.
    + exists D. split; [|done]. split; [|done]. destruct Hs as [H1 H2 H3 [H4a H4b] H5 H6 H7]. split; cbn; try done. split; [done|].
      eapply Forall_impl; [exact H4b|]. cbn. lia.
Qed.

Lemma wp_return_to reader D : D = [] → wp (return_to cfg reader) at_place D.
Proof. intros ->. destruct reader as [gen|]; [|done]. apply sock_bind, wp_notifyClose. done. Qed.

Lemma wp_end_reconnect reader : wp (end_reconnect cfg reader) at_place [Flag].
Proof.
  apply sock_bind. intros e s D' Hs. exists []. split; [|by apply wp_return_to]. split; [|done].
  destruct Hs as [H1 H2 H3 H4 H5 H6 H7]. split; cbn; try done. change (flags ([Flag] ++ D')) with (S (flags D')) in H1.
  destruct (so_reconnecting s); [by injection H1|done].
Qed.

Lemma wp_dial (Q : sock_error + nat → list tok → Prop) D : (∀ e, Q (inl e) D) → (∀ c, Q (inr c) (Held c :: D)) → wp dial Q D.
Proof.
  intros H1 H2 e s D' Hs. simpl. destruct (sv_dial e); simpl; [exists D; split; [by split|done]|].
  exists (Held (so_dials s) :: D). split; [split; [by apply dial_accounted|done]|apply H2].
Qed.

Lemma wp_install c (Q : option (nat * option nat) → list tok → Prop) D :
  Q None (Held c :: D) → (∀ gen old, Q (Some (gen, old)) ((Held <$> option_list old) ++ D)) → wp (install c) Q (Held c :: D).
Proof.
  intros H1 H2 e s D' Hs. simpl. destruct (so_cancelled s) eqn:Hc; simpl; [exists (Held c :: D); split; [by split|done]|].
  exists ((Held <$> option_list (so_Conn s)) ++ D). split; [|apply H2]. split; [|intros [Hx _]; rewrite Hc in Hx; discriminate]. rewrite <-app_assoc.
  eapply accounted_core; [|by apply (install_accounted c s (D ++ D'))]. unfold core. cbn. by rewrite Hc.
Qed.

Lemma wp_retire (b : socket → bool) f (Q : option nat → list tok → Prop) D :
  (∀ s, core (f s) = core s) → (∀ old, Q old ((Held <$> option_list old) ++ D)) →
  wp (act (λ _ s, if b s then retire (f s) else (None, s))) Q D.
Proof.
  intros Hf HQ e s D' Hs. simpl. destruct (b s); simpl; [|exists D; split; [by split|apply (HQ None)]].
  exists ((Held <$> option_list (so_Conn (f s))) ++ D). split; [|apply HQ]. split; [rewrite <-app_assoc|by apply (shut_core s (f s))].
  apply retire_accounted. eapply accounted_core; [apply Hf|done].
Qed.

Lemma resubscribe_core e s : core (resubscribe e s).2 = core s.
Proof.
  unfold resubscribe. destruct (resubscriptions _) as [|r rs] eqn:Hr; [done|]. destruct (so_Conn s) as [c|] eqn:Hc; [|done].
  pose proof (write_core c (r :: rs) e s) as Hw. by destruct (write_all _ _ _ _) as [[] s1].
Qed.

Lemma wp_Connect (Q : option sock_error → list tok → Prop) D : (∀ r, Q r D) → wp (Connect cfg) Q D.
Proof.
  intros HQ. apply sock_bind, wp_dial; [intros e; apply HQ|]. intros c. apply sock_bind, wp_install.
  - apply sock_bind. change (Held c :: D) with ((Held <$> option_list (Some c)) ++ D). apply wp_close, HQ.
  - intros gen old. apply sock_bind, wp_markFrame, sock_bind, wp_close, sock_bind, sock_change; [done|]. apply sock_bind, sock_change; [done|].
    apply sock_bind, wp_emit; [done|]. apply sock_bind, wp_same; [intros; apply resubscribe_core|]. intros [e|]; [|apply HQ].
    apply sock_bind, (wp_retire (λ s, so_gen s =? gen)%nat (λ s, s)); [done|]. intros stale. apply sock_bind, wp_close, HQ.
Qed.

(** The reconnecting flag is won or not. *)
Lemma wp_win (Q : bool → list tok → Prop) D : Q false D → Q true (Flag :: D) →
  wp (act (λ _ s, if so_reconnecting s then (false, s) else (true, s <| so_reconnecting := true |>))) Q D.
Proof.
  intros H1 H2 e s D' Hs. cbn beta. destruct (so_reconnecting s) eqn:Hr; [exists D; split; [by split|done]|]. exists (Flag :: D). split; [|done]. split; [|done].
  destruct Hs as [A1 A2 A3 A4 A5 A6 A7]. split; try done. change (S (flags (D ++ D')) = 1%nat). rewrite A1, Hr. done.
Qed.

Lemma wp_reconnect gen immediate reader : wp (reconnect cfg gen immediate reader) at_place [].
Proof.
  apply sock_bind, wp_win; [by apply wp_return_to|]. cbn match. apply sock_bind.
  intros e s D' Hs. cbn beta. destruct (negb _ || _); [exists [Flag]; split; [by split|apply wp_end_reconnect]|].
  exists ((Held <$> option_list (so_Conn s)) ++ [Flag]). split.
  { split; [|done]. rewrite <-app_assoc. eapply accounted_core; [|by apply retire_accounted]. done. }
  apply sock_bind, wp_close, sock_bind, wp_notifyClose, sock_bind, wp_same; [done|]. done.
Qed.

Lemma wp_retry start attempt immediate reader : wp (retry cfg start attempt immediate reader) at_place [Flag].
Proof.
  apply sock_bind, wp_same.
  { intros e s. destruct (so_cancelled s && negb (sv_timer e)); [done|]. by apply core_log. }
  intros [|]; [apply wp_end_reconnect|]. apply sock_bind, wp_Connect. intros r.
  assert (wp (emit ((attempt =? sk_maxRetryAttempt cfg) && sk_onError cfg) (OnError MaxRetryReached) ;;
          let* t := now in
          if (0 <? sk_retryDuration cfg) && (sk_retryDuration cfg <=? t_sub t start)
          then emit (sk_onError cfg) (OnError ErrCodeRetryExhausted) ;; end_reconnect cfg reader
          else Ret (Retry start (attempt + 1) immediate reader)) at_place [Flag]) as Hagain.
  { apply sock_bind, wp_emit; [done|]. apply sock_bind, wp_same; [done|]. intros t. destruct (_ && _); [|done].
    apply sock_bind, wp_emit; [done|]. apply wp_end_reconnect. }
  destruct r as [[]|]; try exact Hagain; [| |apply wp_end_reconnect]; (apply sock_bind, wp_emit; [done|]; apply wp_end_reconnect).
Qed.

Lemma wp_read_turn c gen reading : wp (read_turn cfg c gen reading) at_place [].
Proof.
  assert (∀ reading' : bool, wp (if reading' then return_to cfg (Some gen) else
    let* r := act (λ e s, (if bool_decide (c ∈ so_open s) then sv_read e else ReadError, s)) in
    match r with
    | ReadError => reconnect cfg gen false (Some gen)
    | ReadControl => markFrame ;; Ret (Reader c gen true)
    | ReadFrame f =>
        markFrame ;;
        match on_frame (sk_onData cfg) (sk_onControl cfg) f with
        | None => emit true Panicked ;; Ret Stop
        | Some calls => change (λ _, logs (Called <$> calls)) ;; Ret (Reader c gen false)
        end
    end) at_place []) as Hturn.
  { intros [|]; [by apply wp_return_to|]. apply sock_bind, wp_same; [done|]. intros [| |f].
    - apply wp_reconnect.
    - apply sock_bind, wp_markFrame. done.
    - apply sock_bind, wp_markFrame. destruct (on_frame _ _ _) as [calls|].
      + apply sock_bind, sock_change; [|done]. intros e s. apply core_logs, Forall_fmap, Forall_true. by intros.
      + apply sock_bind, wp_emit; [done|]. done. }
  apply sock_bind. destruct reading; [apply (Hturn false)|]. apply wp_same; [done|]. intros a. apply (Hturn a).
Qed.

Lemma wp_beat_turn c gen : wp (beat_turn cfg c gen) at_place [].
Proof.
  apply sock_bind, wp_same; [done|]. intros [[|]|]; [|done|done]. apply sock_bind, wp_same; [done|]. intros [|]; [done|]. apply wp_reconnect.
Qed.

Lemma wp_place pl : wp (place_prog cfg pl) at_place (place_toks pl).
Proof.
  destruct pl as [|c gen reading|c gen|gen|start attempt immediate reader]; cbn [place_prog place_toks].
  - done.
  - apply wp_read_turn.
  - apply wp_beat_turn.
  - apply wp_reconnect.
  - apply wp_retry.
Qed.

Lemma send_core r e s : core (send_live r e s).2 = core s.
Proof.
  unfold send_live. destruct (so_Conn s) as [c|]; [|done]. pose proof (write_core c [r] e s) as Hw. destruct (write_all _ _ _ _) as [[] s1]; exact Hw.
Qed.

Lemma wp_api a : wp (api_prog cfg a) at_place [].
Proof.
  destruct a as [| |mode l|mode l|mode l|]; apply sock_bind.
  - by apply wp_Connect.
  - apply sock_bind. intros e0 s0 D0 Hs0. exists []. split; [split; [by destruct Hs0|by intros [_ ?]]|].
    apply sock_bind. intros e s D' Hs. exists ((Held <$> option_list (so_Conn s)) ++ []). split.
    + split; [|by intros [? ?]]. rewrite <-app_assoc. destruct (retire_accounted s _ Hs) as [A1 A2 A3 A4 A5 A6 A7]. by split.
    + cbn beta iota delta [fst retire]. cbn [so_Conn]. by apply wp_close.
  - unfold Subscribe. destruct (_ && _); [done|]. apply wp_same; [|done]. intros e s. by rewrite send_core.
  - apply wp_same; [|done]. intros e s. by rewrite send_core.
  - by apply sock_change.
  - apply sock_bind, wp_same; [done|]. intros gen. by apply sock_change.
Qed.

(** ** Every interleaving *)

Definition world_ok (w : sock_world) : Prop :=
  ∃ Ds, Forall2 (λ p D, wp p at_place D) (sw_threads w) Ds ∧ accounted (sw_sock w) (concat Ds).

Lemma go_ok p e s D D' : wp p at_place D → accounted s (D ++ D') →
  ∃ D1, wp (thread_go cfg p e s).1 at_place D1 ∧ accounted (thread_go cfg p e s).2 (D1 ++ D') ∧ (shut s → shut (thread_go cfg p e s).2).
Proof.
  destruct p as [pl|B f k]; simpl; intros Hp Hs.
  - rewrite Hp in Hs. exists (place_toks pl). split; [apply wp_place|done].
  - destruct (Hp e s D' Hs) as (D1 & [H1 H3] & H2). exists D1. by destruct (f e s).
Qed.

Lemma begins_wp gs : Forall2 (λ p D, wp p at_place D) ((Ret ∘ begins) <$> gs) ((λ _, []) <$> gs).
Proof. induction gs as [|g gs IH]; [constructor|]. rewrite !fmap_cons. constructor; [by destruct g|done]. Qed.

Lemma concat_nils (gs : list goroutine) : concat ((λ _, []) <$> gs) = ([] : list tok).
Proof. by induction gs. Qed.

Lemma do_ok st w : world_ok w → world_ok (sock_do cfg st w) ∧ (shut (sw_sock w) → shut (sw_sock (sock_do cfg st w))).
Proof.
  intros (Ds & Hts & Hs). destruct st as [a|i e]; simpl.
  - split; [|done]. exists (Ds ++ [[]]). split; [apply Forall2_app; [done|]; repeat constructor; apply wp_api|]. rewrite concat_app. simpl. by rewrite app_nil_r.
  - destruct (sw_threads w !! i) as [p|] eqn:Hi; [|split; [by exists Ds|done]].
    destruct (Forall2_lookup_l _ _ _ _ _ Hts Hi) as (D & HD & Hp).
    assert (∀ D1, concat (<[i := D1]> Ds) ≡ₚ D1 ++ concat (delete i Ds)) as Hat.
    { intros D1. apply lookup_lt_Some in HD. clear -HD. revert i HD. induction Ds as [|D0 Ds IH]; intros [|i] Hlt; simpl in *; [lia|lia|done|].
      rewrite IH by lia. solve_Permutation. }
    assert (concat Ds ≡ₚ D ++ concat (delete i Ds)) as Hc by (rewrite <-Hat, list_insert_id; done).
    destruct (go_ok p e (sw_sock w) D (concat (delete i Ds)) Hp) as (D1 & H1 & H2 & H3); [by eapply accounted_perm|].
    destruct (thread_go cfg p e (sw_sock w)) as [p1 s1]. simpl in *. split; [|done]. exists (<[i := D1]> Ds ++ ((λ _, []) <$> so_spawned s1)). split.
    + apply Forall2_app; [by apply Forall2_insert|apply begins_wp].
    + rewrite concat_app, concat_nils, app_nil_r. eapply accounted_core; [|eapply accounted_perm; [symmetry; apply Hat|exact H2]]. done.
Qed.

Lemma run_ok sts w : world_ok w → world_ok (sock_run cfg sts w) ∧ (shut (sw_sock w) → shut (sw_sock (sock_run cfg sts w))).
Proof.
  revert w. induction sts as [|st sts IH]; intros w Hw; [done|]. destruct (do_ok st w Hw) as [H1 H2]. destruct (IH _ H1) as [H3 H4].
  split; [done|]. intros Hs. by apply H4, H2.
Qed.

Lemma new_ok : world_ok new_world.
Proof. exists []. split; [constructor|]. split; cbn; repeat (split || constructor); done. Qed.

(** Between two turns of every goroutine's loop, and none reconnecting. *)
Definition resting (p : prog place) : bool :=
  match p with Ret (Retry _ _ _ _) => false | Ret _ => true | Act _ _ => false end.
Definition waiting_to_retry (p : prog place) : bool := match p with Ret (Retry _ _ _ _) => true | _ => false end.

Lemma resting_nothing ts Ds : Forall2 (λ p D, wp p at_place D) ts Ds → forallb resting ts = true → concat Ds = [].
Proof.
  induction 1 as [|p D ts Ds Hp _ IH]; [done|]. simpl. intros [H1 H2]%andb_prop. rewrite (IH H2), app_nil_r.
  destruct p as [[]|]; simpl in *; try done.
Qed.

Lemma waiting_flags ts Ds : Forall2 (λ p D, wp p at_place D) ts Ds → (length (filter (λ p, waiting_to_retry p = true) ts) <= flags (concat Ds))%nat.
Proof.
  induction 1 as [|p D ts Ds Hp _ IH]; [done|]. simpl. rewrite filter_cons, flags_app. case_decide as Hw; [|lia].
  destruct p as [[]|]; simpl in *; try done. rewrite Hp. unfold place_toks. change (flags [Flag]) with 1%nat. lia.
Qed.

(** C39: whatever the dials, reads, writes and calls, and however the socket's
    goroutines interleave: OnClose is called at most once a connection and no
    done channel is closed twice; at most one goroutine is reconnecting; when
    none is at work no connection is left open but the current one; and once
    CloseConnection has run the socket stays closed, whatever was under way. *)
Theorem socket_keeps_account sts sts' :
  let w := sock_run cfg sts new_world in
  let s := sw_sock w in
  NoDup (closes s) ∧ NoDup (so_stopped s) ∧
  (length (filter (λ p, waiting_to_retry p = true) (sw_threads w)) <= 1)%nat ∧
  (forallb resting (sw_threads w) = true → so_open s = option_list (so_Conn s) ∧ so_reconnecting s = false) ∧
  (so_cancelled s = true → so_disconnectFlag s = true →
   let s' := sw_sock (sock_run cfg sts' w) in so_Conn s' = None ∧ so_cancelled s' = true ∧ so_disconnectFlag s' = true).
Proof.
  intros w s. destruct (run_ok sts new_world new_ok) as [(Ds & Hts & Ha) _]. fold w in Hts, Ha. fold s in Ha.
  pose proof Ha as [H1 H2 H3 [H4 _] H5 [H6 _] H7]. split; [by apply NoDup_app in H4 as [? _]|]. split; [done|]. split.
  { pose proof (waiting_flags _ _ Hts). rewrite H1 in *. destruct (so_reconnecting s); lia. }
  split.
  - intros Hr. rewrite (resting_nothing _ _ Hts Hr) in H1, H2. rewrite app_nil_r in H2. split; [|by destruct (so_reconnecting s)].
    destruct (so_Conn s) as [c|]; simpl in *; [by apply Permutation_singleton_r in H2|by apply Permutation_nil_r in H2].
  - intros Hc Hd s'. destruct (run_ok sts' w) as [(Ds' & _ & [_ _ _ _ _ _ Hshut]) Hk]; [by exists Ds|].
    destruct (Hk (conj Hc Hd)) as [? ?]. split; [by apply Hshut|by split].
Qed.
End ok.

(** ** Runs *)

#[local] Instance canonical_int_order : IntMapOrder := {| int_range := λ A m, map_to_list m; int_range_perm := λ A m, Permutation_refl _ |}.
#[local] Instance no_json : FrameJSON := λ _, None.
#[local] Instance doubling : MathPow := λ _ y, if f64_eqb y f64_zero then #1 else #2.

Definition demo_socket : sockConfig := {|
  sk_retryStrategy := 1; sk_retryDelay := 5 * Second; sk_retryMultiplier := 2; sk_retryDuration := 5 * Minute; sk_maxRetryAttempt := 5;
  sk_onOpen := true; sk_onClose := true; sk_onError := true; sk_onData := true; sk_onControl := false |}.
Definition fine : senv := {| sv_now := 0; sv_dial := Dialled; sv_read := ReadControl; sv_writes := 10; sv_timer := false |}.
Definition broken : senv := {| sv_now := 0; sv_dial := DialFailed None "timeout"; sv_read := ReadError; sv_writes := 0; sv_timer := true |}.

Definition go (i : nat) (n : nat) (e : senv) : list sched := replicate n (Go i e).
Definition nifty_tokens : list TokenListEntry := [{| te_ExchangeType := 1; te_Tokens := ["26000"; "26009"] |}].

(** Connected, the first connection is lost and the socket reconnects. *)
Definition reconnected : list sched :=
  [Begin (CallAddSubscription 2 nifty_tokens)] ++ go 0 1 fine ++ [Begin CallConnect] ++ go 1 7 fine ++
  go 2 3 broken ++ go 2 6 fine ++ go 2 12 fine.
Definition where_ (p : prog place) : option place := match p with Ret pl => Some pl | Act _ _ => None end.

Definition places_of (w : sock_world) : list (option place) := where_ <$> sw_threads w.
Definition log_of (w : sock_world) : list sock_event :=
  omap (λ ev, match ev with Wrote _ _ => None | _ => Some ev end) (so_log (sw_sock w)).

Example socket_reconnects :
  let w := sock_run demo_socket reconnected new_world in
  so_Conn (sw_sock w) = Some 1%nat ∧ so_open (sw_sock w) = [1%nat] ∧ log_of w = [OnOpen 2; OnClose 2; Waited (5 * Second); OnOpen 5] ∧
  places_of w = [Some Stop; Some Stop; Some Stop; Some (Heartbeat 0 2); Some (Reader 1 5 false); Some (Heartbeat 1 5)].
Proof. vm_compute. repeat split. Qed.

(** The connection a reconnect has just made dies before the reconnect is
    over: its read loop finds the flag taken and goes, and the reconnect ends
    without another attempt.  The dead connection stays the current one with
    no one reading it, and its OnClose came before its OnOpen. *)
Definition lost_reconnect : list sched :=
  [Begin (CallAddSubscription 2 nifty_tokens)] ++ go 0 1 fine ++ [Begin CallConnect] ++ go 1 7 fine ++
  go 2 3 broken ++ go 2 6 fine ++ go 2 6 fine ++ go 4 6 broken ++ go 2 5 fine.

Example reconnect_is_lost :
  let w := sock_run demo_socket lost_reconnect new_world in
  so_Conn (sw_sock w) = Some 1%nat ∧ so_reconnecting (sw_sock w) = false ∧
  log_of w = [OnOpen 2; OnClose 2; Waited (5 * Second); OnClose 5; OnOpen 5] ∧
  places_of w = [Some Stop; Some Stop; Some Stop; Some (Heartbeat 0 2); Some Stop; Some (Heartbeat 1 5)].
Proof. vm_compute. repeat split. Qed.
