(* ===== verification/FeedGroup.v ===== *)
(** The feed's sockets taken together (internal/marketdata/ws: ingest.go,
    feed_group.go): from a socket's messages to the tick channel, the state of
    the connections, the redialling of silent sockets, and what a lost socket
    leads to.

    A step is one critical section, one channel operation or one call of a
    hook; any goroutine may act between two steps of another.  A read loop is
    a number, and handles one message at a time; a socket may have any number
    of loops at once, as around a redial, and a slot any number of sockets, as
    around a rebuild.  [gr_log] is what the hooks were called with (an unset
    hook is a call without effect), the redials, and what became of each tick.

    What is proved of the feed group: every message is accounted for, ticks
    carry sane times, the hooks are told the truth as long as they are told in
    order, silent sockets are redialled sparingly, and a rebuilt socket keeps
    its subscriptions. *)
From S2P Require Import Prelude Float64 GoText Model FeedMerger FeedPacket FeedSocket FeedSocketOk.
#[local] Open Scope Z_scope.
#[local] Open Scope go_scope.

(** ** Sequence numbers *)

Definition seqGapLogInterval : Duration := 5 * Second.

Definition sequenceGap (last cur : Z) : Z := if (last =? 0) || (cur <=? last +! 1) then 0 else cur -! last -! 1.

Record seqTracker := { sq_last : gmap string Z; sq_lastLog : Time }.
Definition newSeqTracker : seqTracker := {| sq_last := ∅; sq_lastLog := zero_time |}.

Definition seq_observe (token : string) (seq : Z) (t : seqTracker) : Z * seqTracker :=
  (sequenceGap (default 0 (sq_last t !! token)) seq, {| sq_last := <[token := seq]> (sq_last t); sq_lastLog := sq_lastLog t |}).
Definition seq_reset (t : seqTracker) : seqTracker := {| sq_last := ∅; sq_lastLog := sq_lastLog t |}.
Definition shouldLog (now : Time) (t : seqTracker) : bool * seqTracker :=
  if t_sub now (sq_lastLog t) <? seqGapLogInterval then (false, t) else (true, {| sq_last := sq_last t; sq_lastLog := now |}).

(** ** Lost feeds *)

(** Every one wraps ErrFeedLost. *)
Inductive feed_error := LostConnect (e : sock_error) | LostSocket (code : errCode) (msg : string) | LostForced (reason : string).
Definition is_conn_limit (e : feed_error) : bool :=
  match e with LostConnect (ErrConnLimit _) | LostSocket ErrCodeConnLimit _ => true | _ => false end.
Definition is_auth_rejected (e : feed_error) : bool :=
  match e with LostConnect (ErrAuthRejected _) | LostSocket ErrCodeAuthRejected _ => true | _ => false end.

(** OnError: the code that ends the ingest, if it does. *)
Definition fatal_of (code : errCode) (msg : string) : option feed_error :=
  match code with MaxRetryReached => None | _ => Some (LostSocket code msg) end.

(** ** The group *)

Definition MaxFeedConns : Z := 3.
Definition connStallThreshold : Duration := 5 * Second.
Definition connRedialInterval : Duration := 15 * Second.
Definition slotRestartDelay : Duration := 5 * Second.
Definition slotRestartMaxDelay : Duration := 60 * Second.

(** What became of a tick in a read loop: parsed, passed or refused by the
    merger, shown to OnIngested, sent, or dropped and shown to OnDrop. *)
Inductive tick_event := Received | Passed | Refused | Ingested | Queued | Dropped.

Inductive feed_event :=
  | OnSeqGap (token : string) (missed : Z) | OnClockSkew | OnTick (token : string) (price : Z)
  | OnConnsUp (up : Z) | OnConnState (connected : bool) | OnReconnect | OnDuplicate | OnDelivered (conn : nat) | OnFailover (from to : Z)
  | OnRedial (conn : nat) (at_ : Time) | OfTick (loop : nat) (t : Tick) (e : tick_event).

(** A socket: its slot, its gap tracking and its pending fatal error. *)
Record ingest := { ig_slot : nat; ig_seq : seqTracker; ig_fatal : option feed_error }.
#[export] Instance ingest_settable : Settable ingest := λ s, {| ig_slot := ig_slot s; ig_seq := ig_seq s; ig_fatal := ig_fatal s |}.
Definition new_ingest (slot : nat) : ingest := {| ig_slot := slot; ig_seq := newSeqTracker; ig_fatal := None |}.

(** A message in its read loop, and the next thing the loop does with it. *)
Inductive stage :=
  | AtObserve | AtGap (missed : Z) | AtShouldLog | AtAccept | AtFailover (ok : bool) (from : Z) | AtVerdict (ok : bool)
  | AtSanitize | AtIngested | AtTick | AtSend | AtDrop.
Record message := { ms_sock : nat; ms_tick : Tick; ms_seq : Z; ms_recv : Time; ms_at : stage }.
#[export] Instance message_settable : Settable message := λ m, {|
  ms_sock := ms_sock m; ms_tick := ms_tick m; ms_seq := ms_seq m; ms_recv := ms_recv m; ms_at := ms_at m |}.

(** What a [setUp] has still to report: the count, if not reported yet, and the
    group's state if it changed. *)
Record report := { rp_up : option Z; rp_state : option bool }.

Record FeedGroup := {
  gr_merge : option feedMerger; gr_ings : list ingest; gr_conns : list nat; gr_up : list bool; gr_nUp : Z; gr_fatal : option feed_error;
  gr_lastRedial : list Time; gr_loops : gmap nat message; gr_ticks : list Tick; gr_taken : list Tick; gr_reports : list report;
  gr_watch : option nat; gr_log : list feed_event }.
#[export] Instance FeedGroup_settable : Settable FeedGroup := λ g, {|
  gr_merge := gr_merge g; gr_ings := gr_ings g; gr_conns := gr_conns g; gr_up := gr_up g; gr_nUp := gr_nUp g; gr_fatal := gr_fatal g;
  gr_lastRedial := gr_lastRedial g; gr_loops := gr_loops g; gr_ticks := gr_ticks g; gr_taken := gr_taken g; gr_reports := gr_reports g;
  gr_watch := gr_watch g; gr_log := gr_log g |}.

(** Socket [i] is slot [i]'s to begin with. *)
Definition NewGroup (n : Z) : FeedGroup :=
  let n := Z.to_nat (Z.min MaxFeedConns (Z.max 1 n)) in
  {| gr_merge := if (1 <? n)%nat then Some newFeedMerger else None; gr_ings := new_ingest <$> seq 0 n; gr_conns := seq 0 n;
     gr_up := replicate n false; gr_nUp := 0; gr_fatal := None; gr_lastRedial := replicate n zero_time; gr_loops := ∅; gr_ticks := [];
     gr_taken := []; gr_reports := []; gr_watch := None; gr_log := [] |}.

Definition Size (g : FeedGroup) : nat := length (gr_up g).
Definition glog (ev : feed_event) (g : FeedGroup) : FeedGroup := g <| gr_log := gr_log g ++ [ev] |>.
Definition on_ingest (s : nat) (f : ingest → ingest) (g : FeedGroup) : FeedGroup := g <| gr_ings := alter f s (gr_ings g) |>.
Definition slot_of (s : nat) (g : FeedGroup) : nat := default 0%nat (ig_slot <$> gr_ings g !! s).

(** [setUp] under the lock. *)
Definition setUp (i : nat) (connected : bool) (g : FeedGroup) : FeedGroup :=
  match gr_up g !! i with
  | None => g
  | Some up =>
      if Bool.eqb up connected then g
      else
        let before := gr_nUp g in
        let after := if connected then before +! 1 else before -! 1 in
        g <| gr_up := <[i := connected]> (gr_up g) |> <| gr_nUp := after |>
          <| gr_reports := gr_reports g ++
               [{| rp_up := Some after; rp_state := if Bool.eqb (before =? 0) (after =? 0) then None else Some (0 <? after) |}] |>
  end.
(** The next of its calls of the hooks. *)
Definition make_report (k : nat) (g : FeedGroup) : FeedGroup :=
  match gr_reports g !! k with
  | None => g
  | Some {| rp_up := Some up; rp_state := None |} => glog (OnConnsUp up) (g <| gr_reports := delete k (gr_reports g) |>)
  | Some {| rp_up := Some up; rp_state := Some b |} =>
      glog (OnConnsUp up) (g <| gr_reports := <[k := {| rp_up := None; rp_state := Some b |}]> (gr_reports g) |>)
  | Some {| rp_up := None; rp_state := Some b |} => glog (OnConnState b) (g <| gr_reports := delete k (gr_reports g) |>)
  | Some {| rp_up := None; rp_state := None |} => g <| gr_reports := delete k (gr_reports g) |>
  end.

(** ** A message, on its read loop *)

(** OnData up to its first shared action: a message that parses. *)
Definition begin_message (s : nat) (msg : gmap string value) (recv : Time) : option message :=
  match parseTick msg recv with
  | inl _ => None
  | inr tick =>
      let seqNo := toInt64 (msg !! "sequence_number") in
      Some {| ms_sock := s; ms_tick := tick; ms_seq := seqNo; ms_recv := recv; ms_at := if 0 <? seqNo then AtObserve else AtAccept |}
  end.

(** The gap tracker's two critical sections. *)
Definition track_seq (m : message) (g : FeedGroup) : message * FeedGroup :=
  match gr_ings g !! ms_sock m with
  | None => (m <| ms_at := AtAccept |>, g)
  | Some ig =>
      let '(missed, t) := seq_observe (tick_Token (ms_tick m)) (ms_seq m) (ig_seq ig) in
      (m <| ms_at := if 0 <? missed then AtGap missed else AtAccept |>, on_ingest (ms_sock m) (λ ig, ig <| ig_seq := t |>) g)
  end.
Definition log_gap (m : message) (g : FeedGroup) : FeedGroup :=
  on_ingest (ms_sock m) (λ ig, ig <| ig_seq := (shouldLog (ms_recv m) (ig_seq ig)).2 |>) g.

(** The merger's decision, which it makes under its lock; a lone socket has no
    merger. *)
Definition accept_tick (lastFrame : Z → Time) (now : Time) (k : nat) (m : message) (g : FeedGroup) : message * FeedGroup :=
  match gr_merge g with
  | None => (m <| ms_at := AtSanitize |>, glog (OfTick k (ms_tick m) Passed) g)
  | Some mg =>
      let '(ok, from, mg) := accept lastFrame now (Z.of_nat (slot_of (ms_sock m) g)) (ms_tick m) (ms_seq m) mg in
      (m <| ms_at := AtFailover ok from |>, glog (OfTick k (ms_tick m) (if ok then Passed else Refused)) (g <| gr_merge := Some mg |>))
  end.

(** The next step of loop [k]'s message, in a channel that holds [cap] ticks;
    [None] when the loop is done with it. *)
Definition on_data (cap : nat) (lastFrame : Z → Time) (now : Time) (k : nat) (m : message) (g : FeedGroup) : option message * FeedGroup :=
  let slot := slot_of (ms_sock m) g in
  match ms_at m with
  | AtObserve => let '(m, g) := track_seq m g in (Some m, g)
  | AtGap missed => (Some (m <| ms_at := AtShouldLog |>), glog (OnSeqGap (tick_Token (ms_tick m)) missed) g)
  | AtShouldLog => (Some (m <| ms_at := AtAccept |>), log_gap m g)
  | AtAccept => let '(m, g) := accept_tick lastFrame now k m g in (Some m, g)
  | AtFailover ok from => (Some (m <| ms_at := AtVerdict ok |>), if 0 <=? from then glog (OnFailover from (Z.of_nat slot)) g else g)
  | AtVerdict true => (Some (m <| ms_at := AtSanitize |>), glog (OnDelivered slot) g)
  | AtVerdict false => (None, glog OnDuplicate g)
  | AtSanitize =>
      let '(changed, tick) := sanitizeEventTS (ms_tick m) in
      (Some (m <| ms_tick := tick |> <| ms_at := AtIngested |>), if changed then glog OnClockSkew g else g)
  | AtIngested => (Some (m <| ms_at := AtTick |>), glog (OfTick k (ms_tick m) Ingested) g)
  | AtTick => (Some (m <| ms_at := AtSend |>), glog (OnTick (tick_Token (ms_tick m)) (tick_Price (ms_tick m))) g)
  | AtSend =>
      if (length (gr_ticks g) <? cap)%nat then (None, glog (OfTick k (ms_tick m) Queued) (g <| gr_ticks := gr_ticks g ++ [ms_tick m] |>))
      else (Some (m <| ms_at := AtDrop |>), g)
  | AtDrop => (None, glog (OfTick k (ms_tick m) Dropped) g)
  end.

(** ** Silent sockets *)

(** How long the socket has been silent, and whether it must be redialled. *)
Definition shouldRedial (marketOpen : Time → bool) (i : nat) (now lastFrame : Time) (lastRedial : list Time) :
    Duration * bool * list Time :=
  if t_is_zero lastFrame || negb (marketOpen now) then (0, false, lastRedial)
  else
    let silent := t_sub now lastFrame in
    let last := default zero_time (lastRedial !! i) in
    if silent <? connStallThreshold then (silent, false, lastRedial)
    else if negb (t_is_zero last) && (t_sub now last <? connRedialInterval) then (silent, false, lastRedial)
    else (silent, true, <[i := now]> lastRedial).

(** The watch finds a slot up, and then looks at its socket. *)
Definition watch_up (i : nat) (g : FeedGroup) : FeedGroup :=
  g <| gr_watch := match gr_up g !! i with Some true => Some i | _ => None end |>.
Definition watch_slot (marketOpen : Time → bool) (now lastFrame : Time) (g : FeedGroup) : FeedGroup :=
  match gr_watch g with
  | None => g
  | Some i =>
      let '(_, redial, lastRedial) := shouldRedial marketOpen i now lastFrame (gr_lastRedial g) in
      let g := g <| gr_watch := None |> <| gr_lastRedial := lastRedial |> in
      if redial then glog (OnRedial i now) g else g
  end.

(** ** Losing sockets *)

(** A socket's own fatal error, and the group's: a channel of one. *)
Definition slot_error (s : nat) (code : errCode) (msg : string) (g : FeedGroup) : FeedGroup :=
  match fatal_of code msg with
  | None => g
  | Some e => on_ingest s (λ ig, ig <| ig_fatal := match ig_fatal ig with None => Some e | Some e0 => Some e0 end |>) g
  end.
Definition ForceReconnect (reason : string) (g : FeedGroup) : FeedGroup :=
  g <| gr_fatal := match gr_fatal g with None => Some (LostForced reason) | Some e => Some e end |>.

(** What [runSlot] does when its socket's Start returns. *)
Inductive slot_next := SlotEnds (e : option feed_error) | SlotRebuilds (wait next : Duration).
Definition slot_after (cancelled : bool) (err : option feed_error) (delay : Duration) : slot_next :=
  match err with
  | None => SlotEnds None
  | Some e => if cancelled then SlotEnds None
              else if is_conn_limit e || is_auth_rejected e then SlotEnds (Some e)
              else SlotRebuilds delay (Z.min (delay *! 2) slotRestartMaxDelay)
  end.

(** A slot takes a new socket; the old one's loops may still be running. *)
Definition rebuild_slot (i : nat) (g : FeedGroup) : FeedGroup :=
  g <| gr_ings := gr_ings g ++ [new_ingest i] |> <| gr_conns := <[i := length (gr_ings g)]> (gr_conns g) |>.

(** [Start] once every slot has ended: an error other than the connection limit
    is preferred. *)
Definition last_error (results : list (option feed_error)) : option feed_error :=
  foldl (λ last r, match r with
                   | Some e => if bool_decide (last = None) || negb (is_conn_limit e) then Some e else last
                   | None => last
                   end) None results.

(** The subscriptions of a new socket: the configured list and the extra ones,
    by mode. *)
Definition wire_requests `{IntMapOrder} (mode : Z) (l : list TokenListEntry) (extra : gmap Z (list TokenListEntry)) : gmap Z (gmap Z (list string)) :=
  foldl (λ subs ml, if bool_decide (ml.2 = []) then subs else addSubscription ml.1 ml.2 subs) (addSubscription mode l ∅) (int_range extra).
(** A rebuilt socket takes over what the lost one held. *)
Definition rebuild_requests `{IntMapOrder} (mode : Z) (held : gmap Z (gmap Z (list string))) : gmap Z (gmap Z (list string)) :=
  wire_requests mode [] (Subscriptions held).

Definition newest_frame (frames : list Time) : Time := foldl (λ newest t, if t_after t newest then t else newest) zero_time frames.

(** [SubscribeTokens]: the errors if every socket failed. *)
Definition subscribe_result (results : list (option sock_error)) : option (list sock_error) :=
  let errs := omap id results in if (length errs =? length results)%nat then Some errs else None.

(** ** Steps *)

Inductive group_step :=
  | GSetUp (i : nat) (connected : bool) | GSeqReset (s : nat) | GReport (k : nat) | GReconnected
  | GMessage (k s : nat) (msg : gmap string value) (recv : Time) | GOnData (k : nat) (now : Time) (lastFrame : Z → Time) | GTake
  | GIsUp (i : nat) | GWatch (now lastFrame : Time) | GError (s : nat) (code : errCode) (msg : string) | GForce (reason : string) | GRebuild (i : nat).

(** The callbacks of socket [s] of slot [i]. *)
Definition on_open (i s : nat) : list group_step := [GSetUp i true; GSeqReset s].
Definition on_close (i : nat) : list group_step := [GSetUp i false; GReconnected].

Section group.
Context (cap : nat) (marketOpen : Time → bool).

Definition group_do (st : group_step) (g : FeedGroup) : FeedGroup :=
  match st with
  | GSetUp i connected => setUp i connected g
  | GSeqReset s => on_ingest s (λ ig, ig <| ig_seq := seq_reset (ig_seq ig) |>) g
  | GReport k => make_report k g
  | GReconnected => glog OnReconnect g
  | GMessage k s msg recv =>
      match gr_loops g !! k, gr_ings g !! s, begin_message s msg recv with
      | None, Some _, Some m => glog (OfTick k (ms_tick m) Received) (g <| gr_loops := <[k := m]> (gr_loops g) |>)
      | _, _, _ => g
      end
  | GOnData k now lastFrame =>
      match gr_loops g !! k with
      | None => g
      | Some m => let '(o, g) := on_data cap lastFrame now k m g in g <| gr_loops := partial_alter (λ _, o) k (gr_loops g) |>
      end
  | GTake => match gr_ticks g with t :: ts => g <| gr_ticks := ts |> <| gr_taken := gr_taken g ++ [t] |> | [] => g end
  | GIsUp i => watch_up i g
  | GWatch now lastFrame => watch_slot marketOpen now lastFrame g
  | GError s code msg => slot_error s code msg g
  | GForce reason => ForceReconnect reason g
  | GRebuild i => rebuild_slot i g
  end.
Definition group_run (sts : list group_step) (g : FeedGroup) : FeedGroup := foldl (λ g st, group_do st g) g sts.
End group.

(** ** What the hooks were told *)

Definition count_up (up : list bool) : Z := Z.of_nat (length (filter (λ b, b = true) up)).

Definition state_of (ev : feed_event) : option bool := match ev with OnConnState b => Some b | _ => None end.
Definition tick_of (ev : feed_event) : option (nat * Tick * tick_event) := match ev with OfTick k t e => Some (k, t, e) | _ => None end.
Definition redial_of (ev : feed_event) : option (nat * Time) := match ev with OnRedial j t => Some (j, t) | _ => None end.

Definition conn_states (g : FeedGroup) : list bool := omap state_of (gr_log g).
Definition tick_log (g : FeedGroup) : list (nat * Tick * tick_event) := omap tick_of (gr_log g).

(** Loop [k]'s ticks that something became of, in order. *)
Definition ticks_of (what : tick_event → bool) (k : nat) (g : FeedGroup) : list Tick :=
  omap (λ kte, if (kte.1.1 =? k)%nat && what kte.2 then Some kte.1.2 else None) (tick_log g).
Definition received : nat → FeedGroup → list Tick := ticks_of (λ e, match e with Received => true | _ => false end).
Definition judged : nat → FeedGroup → list Tick := ticks_of (λ e, match e with Passed | Refused => true | _ => false end).
Definition passed : nat → FeedGroup → list Tick := ticks_of (λ e, match e with Passed => true | _ => false end).
Definition ingested : nat → FeedGroup → list Tick := ticks_of (λ e, match e with Ingested => true | _ => false end).
Definition settled : nat → FeedGroup → list Tick := ticks_of (λ e, match e with Queued | Dropped => true | _ => false end).
(** The ticks sent, by any loop. *)
Definition queued (g : FeedGroup) : list Tick := omap (λ kte, match kte.2 with Queued => Some kte.1.2 | _ => None end) (tick_log g).

(** The tick loop [k] is at work on: not judged yet, passed and not settled
    yet, passed and shown to OnIngested already. *)
Definition at_stage (f : stage → bool) (k : nat) (g : FeedGroup) : list Tick :=
  match gr_loops g !! k with Some m => if f (ms_at m) then [ms_tick m] else [] | None => [] end.
Definition unjudged (st : stage) : bool := match st with AtObserve | AtGap _ | AtShouldLog | AtAccept => true | _ => false end.
Definition unsettled (st : stage) : bool :=
  match st with AtFailover ok _ | AtVerdict ok => ok | AtSanitize | AtIngested | AtTick | AtSend | AtDrop => true | _ => false end.
Definition shown (st : stage) : bool := match st with AtTick | AtSend | AtDrop => true | _ => false end.
Definition sanitized (t : Tick) : Tick := (sanitizeEventTS t).2.

Definition redials (i : nat) (g : FeedGroup) : list Time :=
  omap (λ jt : nat * Time, if (i =? jt.1)%nat then Some jt.2 else None) (omap redial_of (gr_log g)).

(** A tick the aggregator can bucket. *)
Definition sane_tick (t : Tick) : Prop :=
  tick_EventTS t = zero_time ∨ tick_TickTS t - maxEventSkew <= tick_EventTS t <= tick_TickTS t + maxFutureSkew.

(** The state after reports that start from [b], if each differs from the one
    before. *)
Fixpoint after_reports (b : bool) (l : list bool) : option bool :=
  match l with [] => Some b | x :: l => if Bool.eqb x b then None else after_reports x l end.

(** Each at least the interval after the one before it. *)
Fixpoint spaced (l : list Time) : Prop :=
  match l with t :: ((u :: _) as k) => t + connRedialInterval <= u ∧ spaced k | _ => True end.

Lemma after_reports_app b l k : after_reports b (l ++ k) = c ← after_reports b l; after_reports c k.
Proof. revert b. induction l as [|x l IH]; intros b; simpl; [done|]. by destruct (Bool.eqb x b). Qed.

Lemma spaced_snoc l u : spaced l → (∀ t, last l = Some t → t + connRedialInterval <= u) → spaced (l ++ [u]).
Proof.
  induction l as [|t [|t' l] IH]; intros Hl Hu; [done|simpl; auto|]. destruct Hl as [H1 H2]. split; [done|]. apply IH; [done|]. intros x Hx. by apply Hu.
Qed.

(** ** The invariant *)

Definition report_states (g : FeedGroup) : list bool := omap rp_state (gr_reports g).

(** What the sockets' accounting is of. *)
Definition gcore (g : FeedGroup) := (gr_up g, gr_nUp g, gr_lastRedial g, gr_reports g, gr_watch g, conn_states g, omap redial_of (gr_log g)).

Record group_ok (n : nat) (g : FeedGroup) : Prop := {
  go_size : length (gr_up g) = n ∧ length (gr_lastRedial g) = n ∧ (∀ i, gr_watch g = Some i → (i < n)%nat);
  go_count : gr_nUp g = count_up (gr_up g);
  go_redials : ∀ i, spaced (redials i g) ∧ (∀ t, last (redials i g) = Some t → t ≠ zero_time ∧ gr_lastRedial g !! i = Some t) }.

(** The reports made, and those still to make, in the order of the changes. *)
Definition reports_ok (g : FeedGroup) : Prop := after_reports false (conn_states g ++ report_states g) = Some (0 <? gr_nUp g).

Lemma group_ok_core n g g' : gcore g' = gcore g → group_ok n g → group_ok n g'.
Proof. intros E [H1 H2 H3]. injection E as E1 E2 E3 E4 E5 E6 E7. split; unfold redials in *; by rewrite ?E1, ?E2, ?E3, ?E5, ?E7. Qed.

Lemma reports_ok_core g g' : gcore g' = gcore g → reports_ok g → reports_ok g'.
Proof. intros E. injection E as E1 E2 E3 E4 E5 E6 E7. unfold reports_ok, report_states. by rewrite E2, E4, E6. Qed.

Lemma glog_core ev g : state_of ev = None → redial_of ev = None → gcore (glog ev g) = gcore g.
Proof. intros Hs Hr. unfold gcore, conn_states. cbn. rewrite !omap_app. cbn. by rewrite Hs, Hr, !app_nil_r. Qed.

(** What the ticks' accounting is of. *)
Definition tcore (g : FeedGroup) := (tick_log g, gr_loops g, gr_ticks g, gr_taken g).

Lemma glog_tcore ev g : tick_of ev = None → tcore (glog ev g) = tcore g.
Proof. intros He. unfold tcore, tick_log. cbn. rewrite omap_app. cbn. by rewrite He, app_nil_r. Qed.

(** A loop's step leaves the sockets' accounting alone. *)
Lemma on_data_core cap lastFrame now k m g : gcore (on_data cap lastFrame now k m g).2 = gcore g.
Proof.
  unfold on_data, track_seq, log_gap, accept_tick. destruct (ms_at m) as [|missed| | |ok from|[|]| | | | |].
  - destruct (gr_ings g !! _) as [ig|]; [|done]. by destruct (seq_observe _ _ _).
  - by apply glog_core.
  - done.
  - destruct (gr_merge g) as [mg|]; [|by apply glog_core]. destruct (accept _ _ _ _ _ mg) as [[ok from] mg']. cbn [snd]. by rewrite glog_core.
  - cbn [snd]. destruct (0 <=? from); [by apply glog_core|done].
  - by apply glog_core.
  - by apply glog_core.
  - destruct (sanitizeEventTS (ms_tick m)) as [[|] tick]; [by apply glog_core|done].
  - by apply glog_core.
  - by apply glog_core.
  - destruct (_ <? cap)%nat; [|done]. cbn [snd]. by rewrite glog_core.
  - by apply glog_core.
Qed.

(** ** What becomes of the ticks *)

Definition clean (st : stage) : bool := match st with AtIngested | AtTick | AtSend | AtDrop => true | _ => false end.

Record ticks_ok (g : FeedGroup) : Prop := {
  to_received : ∀ k, received k g = judged k g ++ at_stage unjudged k g;
  to_passed : ∀ k, sanitized <$> passed k g = settled k g ++ (sanitized <$> at_stage unsettled k g);
  to_shown : ∀ k, ingested k g = settled k g ++ at_stage shown k g;
  to_clean : ∀ k m, gr_loops g !! k = Some m → clean (ms_at m) = true → sanitized (ms_tick m) = ms_tick m;
  to_queue : gr_taken g ++ gr_ticks g = queued g;
  to_sane : Forall sane_tick (queued g) }.

Lemma ticks_ok_core g g' : tcore g' = tcore g → ticks_ok g → ticks_ok g'.
Proof.
  intros E [H1 H2 H3 H4 H5 H6]. injection E as E1 E2 E3 E4.
  split; unfold received, judged, passed, ingested, settled, ticks_of, at_stage, queued in *; by rewrite ?E1, ?E2, ?E3, ?E4.
Qed.

Lemma sanitized_near t d : 0 <= d <= maxFutureSkew →
  sanitized (with_EventTS (tick_TickTS t + d) t) = with_EventTS (tick_TickTS t + d) t.
Proof.
  intros Hd. unfold sanitized, sanitizeEventTS. destruct (t_is_zero _); [done|].
  change (tick_EventTS (with_EventTS (tick_TickTS t + d) t)) with (tick_TickTS t + d).
  change (tick_TickTS (with_EventTS (tick_TickTS t + d) t)) with (tick_TickTS t).
  unfold maxFutureSkew, maxEventSkew, Second in *. rewrite t_sub_exact by (i64_unfold; lia). replace (tick_TickTS t + d - tick_TickTS t) with d by lia.
  destruct (Z.ltb_spec (5 * 1000000000) d); [lia|]. destruct (Z.ltb_spec d (- (5 * 1000000000))); [lia|].
  destruct (Z.ltb_spec 1000000000 d); [lia|done].
Qed.

Lemma sanitized_idem t : sanitized (sanitized t) = sanitized t.
Proof.
  destruct (sanitizeEventTS t) as [c t'] eqn:E. change (sanitized t) with (sanitizeEventTS t).2. rewrite E. cbn [snd].
  unfold sanitizeEventTS in E. destruct (t_is_zero (tick_EventTS t)) eqn:Hz.
  { injection E as <- <-. unfold sanitized, sanitizeEventTS. by rewrite Hz. }
  destruct (_ || _) eqn:Ho; [|destruct (maxFutureSkew <? _) eqn:Hf]; injection E as <- <-.
  - rewrite <- (Z.add_0_r (tick_TickTS t)). apply sanitized_near. unfold maxFutureSkew, Second. lia.
  - apply sanitized_near. unfold maxFutureSkew, Second. lia.
  - unfold sanitized, sanitizeEventTS. by rewrite Hz, Ho, Hf.
Qed.

Lemma sanitized_sane t : sane_tick (sanitized t).
Proof.
  unfold sane_tick, sanitized. pose proof (sanitize_window t) as Hw.
  assert (tick_TickTS (sanitizeEventTS t).2 = tick_TickTS t) as ->; [|exact Hw].
  unfold sanitizeEventTS. destruct (t_is_zero _); [done|]. destruct (_ || _); [done|]. by destruct (maxFutureSkew <? _).
Qed.

(** What loop [k] adds to the account of loop [j]. *)
Lemma ticks_of_glog what j k t e g : ticks_of what j (glog (OfTick k t e) g) = ticks_of what j g ++ (if (k =? j)%nat && what e then [t] else []).
Proof. unfold ticks_of, tick_log. cbn. rewrite !omap_app. cbn. by destruct (_ && _). Qed.

Lemma queued_glog k t e g : queued (glog (OfTick k t e) g) = queued g ++ (match e with Queued => [t] | _ => [] end).
Proof. unfold queued, tick_log. cbn. rewrite !omap_app. cbn. by destruct e. Qed.

(** A loop's place changes nothing else. *)
Definition put_loop (k : nat) (o : option message) (g : FeedGroup) : FeedGroup := g <| gr_loops := partial_alter (λ _, o) k (gr_loops g) |>.

Lemma at_stage_put f j k o g :
  at_stage f j (put_loop k o g) = if (k =? j)%nat then match o with Some m => if f (ms_at m) then [ms_tick m] else [] | None => [] end else at_stage f j g.
Proof.
  unfold at_stage. cbn. destruct (Nat.eqb_spec k j) as [->|Hne]; [by rewrite lookup_partial_alter_eq|by rewrite lookup_partial_alter_ne].
Qed.

Lemma ticks_of_put what j k o g : ticks_of what j (put_loop k o g) = ticks_of what j g.
Proof. done. Qed.

(** One event of loop [k] and its new place: what is left to check is loop [k]'s
    own account. *)
Lemma ticks_ok_event k t e o g ts : ticks_ok g →
  (let g' := put_loop k o (glog (OfTick k t e) (g <| gr_ticks := ts |>)) in
   received k g' = judged k g' ++ at_stage unjudged k g' ∧
   sanitized <$> passed k g' = settled k g' ++ (sanitized <$> at_stage unsettled k g') ∧
   ingested k g' = settled k g' ++ at_stage shown k g') →
  (∀ m, o = Some m → clean (ms_at m) = true → sanitized (ms_tick m) = ms_tick m) →
  ts = gr_ticks g ++ (match e with Queued => [t] | _ => [] end) → (e = Queued → sane_tick t) →
  ticks_ok (put_loop k o (glog (OfTick k t e) (g <| gr_ticks := ts |>))).
Proof.
  intros [H1 H2 H3 H4 H5 H6] Hk Hc -> Hs. cbv zeta in Hk. destruct Hk as (K1 & K2 & K3).
  assert (∀ what j, k ≠ j → ticks_of what j (put_loop k o (glog (OfTick k t e) (g <| gr_ticks := gr_ticks g ++ (match e with Queued => [t] | _ => [] end) |>))) = ticks_of what j g) as Ho.
  { intros what j Hne. rewrite ticks_of_put, ticks_of_glog. apply Nat.eqb_neq in Hne as ->. by rewrite app_nil_r. }
  assert (∀ f j, k ≠ j → at_stage f j (put_loop k o (glog (OfTick k t e) (g <| gr_ticks := gr_ticks g ++ (match e with Queued => [t] | _ => [] end) |>))) = at_stage f j g) as Hp.
  { intros f j Hne. rewrite at_stage_put. by apply Nat.eqb_neq in Hne as ->. }
  split.
  - intros j. destruct (decide (k = j)) as [<-|Hne]; [done|]. unfold received, judged in *. rewrite !Ho, Hp by done. apply H1.
  - intros j. destruct (decide (k = j)) as [<-|Hne]; [done|]. unfold passed, settled in *. rewrite !Ho, Hp by done. apply H2.
  - intros j. destruct (decide (k = j)) as [<-|Hne]; [done|]. unfold ingested, settled in *. rewrite !Ho, Hp by done. apply H3.
  - intros j m. cbn. destruct (decide (k = j)) as [<-|Hne]; [rewrite lookup_partial_alter_eq; apply Hc|rewrite lookup_partial_alter_ne by done; apply H4].
  - change (queued (put_loop k o ?x)) with (queued x). rewrite queued_glog. cbn. rewrite app_assoc, H5. done.
  - change (queued (put_loop k o ?x)) with (queued x). rewrite queued_glog. apply Forall_app. split; [done|]. destruct e; try done. by constructor; [apply Hs|].
Qed.

(** A step of loop [k] that nothing becomes of its tick in. *)
Lemma ticks_ok_move k m m' g g1 : ticks_ok g → tcore g1 = tcore g → gr_loops g !! k = Some m →
  unjudged (ms_at m') = unjudged (ms_at m) → unsettled (ms_at m') = unsettled (ms_at m) → shown (ms_at m') = shown (ms_at m) →
  (ms_tick m' = ms_tick m ∨ ms_tick m' = sanitized (ms_tick m) ∧ unjudged (ms_at m) = false ∧ shown (ms_at m) = false) →
  (clean (ms_at m') = true → sanitized (ms_tick m') = ms_tick m') →
  ticks_ok (put_loop k (Some m') g1).
Proof.
  intros Hg Hc Hk Hu Hs Hsh Ht Hcl. apply (ticks_ok_core g g1 Hc) in Hg as [H1 H2 H3 H4 H5 H6].
  assert (gr_loops g1 !! k = Some m) as Hk1 by (injection Hc as _ -> _ _; done).
  assert (∀ f j, f (ms_at m') = f (ms_at m) → at_stage f j (put_loop k (Some m') g1) =
    if (k =? j)%nat then (if f (ms_at m) then [ms_tick m'] else []) else at_stage f j g1) as Hput by (intros f j E; by rewrite at_stage_put, E).
  assert (∀ f, at_stage f k g1 = if f (ms_at m) then [ms_tick m] else []) as Hold by (intros f; unfold at_stage; by rewrite Hk1).
  split; [| | | |done|done].
  - intros j. rewrite Hput by done. destruct (Nat.eqb_spec k j) as [<-|Hne]; [|apply H1].
    specialize (H1 k). rewrite Hold in H1. destruct Ht as [->|(_ & Hf & _)]; [apply H1|]. rewrite Hf in *. apply H1.
  - intros j. rewrite Hput by done. destruct (Nat.eqb_spec k j) as [<-|Hne]; [|apply H2].
    specialize (H2 k). rewrite Hold in H2. destruct Ht as [->|(-> & _ & _)]; [apply H2|].
    destruct (unsettled (ms_at m)); cbn [fmap list_fmap] in *; [rewrite sanitized_idem|]; apply H2.
  - intros j. rewrite Hput by done. destruct (Nat.eqb_spec k j) as [<-|Hne]; [|apply H3].
    specialize (H3 k). rewrite Hold in H3. destruct Ht as [->|(_ & _ & Hf)]; [apply H3|]. rewrite Hf in *. apply H3.
  - intros j m0. cbn. destruct (decide (k = j)) as [<-|Hne]; [rewrite lookup_partial_alter_eq; by intros [= <-]|rewrite lookup_partial_alter_ne by done; apply H4].
Qed.

(** A refused message is put down. *)
Lemma ticks_ok_put_down k m g g1 : ticks_ok g → tcore g1 = tcore g → gr_loops g !! k = Some m →
  unjudged (ms_at m) = false → unsettled (ms_at m) = false → shown (ms_at m) = false → ticks_ok (put_loop k None g1).
Proof.
  intros Hg Hc Hk Hu Hs Hsh. apply (ticks_ok_core g g1 Hc) in Hg as [H1 H2 H3 H4 H5 H6].
  assert (gr_loops g1 !! k = Some m) as Hk1 by (injection Hc as _ -> _ _; done).
  assert (∀ f j, f (ms_at m) = false → at_stage f j (put_loop k None g1) = at_stage f j g1) as Hput.
  { intros f j E. rewrite at_stage_put. destruct (Nat.eqb_spec k j) as [<-|]; [|done]. unfold at_stage. by rewrite Hk1, E. }
  split; [intros j; rewrite Hput by done..| |done|done]; [apply H1|apply H2|apply H3|].
  intros j m0. cbn. destruct (decide (k = j)) as [<-|Hne]; [by rewrite lookup_partial_alter_eq|rewrite lookup_partial_alter_ne by done; apply H4].
Qed.

(** ** The steps *)

Lemma count_up_insert (up : list bool) (i : nat) (b c : bool) : up !! i = Some b → b ≠ c → count_up (<[i := c]> up) = if c then count_up up + 1 else count_up up - 1.
Proof.
  intros Hi Hb. unfold count_up. revert i Hi. induction up as [|x up IH]; intros [|i] Hi; simpl in *; try done.
  - injection Hi as ->. rewrite !filter_cons. destruct b, c; try done; repeat case_decide; try done; simpl; lia.
  - specialize (IH i Hi). rewrite !filter_cons. destruct x, c; repeat case_decide; try done; simpl in *; lia.
Qed.

Lemma count_up_bounds up : 0 <= count_up up <= Z.of_nat (length up).
Proof. unfold count_up. assert (length (filter (λ b, b = true) up) <= length up)%nat by apply length_filter. lia. Qed.

Lemma setUp_cases n i b g : group_ok n g → (n <= 3)%nat →
  setUp i b g = g ∨
  ∃ r, setUp i b g = g <| gr_up := <[i := b]> (gr_up g) |> <| gr_nUp := (if b then gr_nUp g + 1 else gr_nUp g - 1) |>
                       <| gr_reports := gr_reports g ++ [r] |> ∧
       (if b then gr_nUp g + 1 else gr_nUp g - 1) = count_up (<[i := b]> (gr_up g)) ∧
       rp_state r = if Bool.eqb (0 <? gr_nUp g) (0 <? if b then gr_nUp g + 1 else gr_nUp g - 1) then None
                    else Some (0 <? if b then gr_nUp g + 1 else gr_nUp g - 1).
Proof.
  intros [[Hs _] Hc _] Hn. unfold setUp. destruct (gr_up g !! i) as [up|] eqn:Hi; [|by left].
  destruct (Bool.eqb up b) eqn:Hb; [by left|]. right. apply Bool.eqb_false_iff in Hb. pose proof (count_up_insert _ _ _ b Hi Hb) as Hins.
  pose proof (count_up_bounds (gr_up g)). pose proof (count_up_bounds (<[i := b]> (gr_up g))) as Hb2. rewrite length_insert, Hins in Hb2.
  assert ((if b then gr_nUp g +! 1 else gr_nUp g -! 1) = (if b then gr_nUp g + 1 else gr_nUp g - 1)) as -> by (destruct b; apply i64_id; i64_unfold; lia).
  eexists. split; [done|]. split; [rewrite Hins, Hc; by destruct b|]. cbn. rewrite Hc.
  assert (∀ z, 0 <= z → (z =? 0) = negb (0 <? z)) as Hz by (intros z ?; destruct (Z.eqb_spec z 0), (Z.ltb_spec 0 z); (lia || done)).
  rewrite !Hz by (destruct b; lia). by destruct (0 <? _), (0 <? _).
Qed.

Lemma setUp_ok n i b g : (n <= 3)%nat → group_ok n g → group_ok n (setUp i b g).
Proof.
  intros Hn Hg. destruct (setUp_cases n i b g Hg Hn) as [->|(r & -> & Hc & _)]; [done|]. destruct Hg as [(S1 & S2 & S3) H2 H3].
  split; cbn; try done. by rewrite length_insert.
Qed.

Lemma setUp_reports n i b g : (n <= 3)%nat → group_ok n g → reports_ok g → reports_ok (setUp i b g).
Proof.
  intros Hn Hg Hr. destruct (setUp_cases n i b g Hg Hn) as [->|(r & -> & _ & Hs)]; [done|].
  unfold reports_ok, conn_states, report_states in *. cbn. rewrite omap_app, app_assoc, after_reports_app, Hr. cbn. rewrite Hs.
  destruct (Bool.eqb _ _) eqn:E; cbn; [by apply Bool.eqb_prop in E as ->|]. apply Bool.eqb_false_iff in E.
  destruct (0 <? gr_nUp g), (0 <? _); done.
Qed.

Lemma make_report_fields k g : let g' := make_report k g in
  (gr_up g', gr_nUp g', gr_lastRedial g', gr_watch g', omap redial_of (gr_log g')) = (gr_up g, gr_nUp g, gr_lastRedial g, gr_watch g, omap redial_of (gr_log g)) ∧
  tcore g' = tcore g.
Proof.
  cbv zeta. unfold make_report. destruct (gr_reports g !! k) as [[[up|] [b|]]|]; (split; [|by rewrite ?glog_tcore by done]); cbn; rewrite ?omap_app; cbn; by rewrite ?app_nil_r.
Qed.

Lemma report_ok n k g : group_ok n g → group_ok n (make_report k g).
Proof.
  intros [H1 H2 H3]. destruct (make_report_fields k g) as [E _]. injection E as E1 E2 E3 E4 E5.
  split; unfold redials in *; by rewrite ?E1, ?E2, ?E3, ?E4, ?E5.
Qed.

Lemma report_reports g : reports_ok g → reports_ok (make_report 0 g).
Proof.
  unfold reports_ok, conn_states, report_states, make_report. destruct (gr_reports g) as [|[[up|] [b|]] rs] eqn:Hr; cbn; rewrite ?Hr; cbn; rewrite ?omap_app; cbn;
    rewrite ?app_nil_r, <- ?app_assoc; done.
Qed.

Lemma redials_log i j t g : redials i (glog (OnRedial j t) g) = redials i g ++ (if (i =? j)%nat then [t] else []).
Proof. unfold redials, glog. cbn. rewrite !omap_app. cbn. by destruct (i =? j)%nat. Qed.

Lemma t_sub_spaced now last : (t_sub now last <? connRedialInterval) = false → last + connRedialInterval <= now.
Proof. intros H%Z.ltb_ge. unfold t_sub, connRedialInterval, Second, min_i64, max_i64 in *. lia. Qed.

Lemma watch_ok marketOpen n now lastFrame g : zero_time < now → group_ok n g → group_ok n (watch_slot marketOpen now lastFrame g).
Proof.
  intros Hnow Hg. unfold watch_slot. destruct (gr_watch g) as [i|] eqn:Hw; [|done].
  destruct Hg as [(S1 & S3 & Hwn) S4 S6]. assert (i < length (gr_lastRedial g))%nat as Hi by (rewrite S3; by apply Hwn).
  assert (group_ok n (g <| gr_watch := None |> <| gr_lastRedial := gr_lastRedial g |>)) as Hsame by (by split).
  unfold shouldRedial. destruct (t_is_zero lastFrame || _); [exact Hsame|]. destruct (_ <? connStallThreshold); [exact Hsame|].
  destruct (negb _ && _) eqn:Hlast; [exact Hsame|].
  split; [|done|].
  - cbn. by rewrite length_insert.
  - intros j. rewrite redials_log. change (redials j (g <| gr_watch := None |> <| gr_lastRedial := <[i := now]> (gr_lastRedial g) |>)) with (redials j g).
    destruct (S6 j) as [Hsp Hl]. destruct (Nat.eqb_spec j i) as [->|Hne].
    + rewrite last_snoc. split; [|intros t [= <-]; split; [lia|];
        change (<[i := now]> (gr_lastRedial g) !! i = Some now); by apply list_lookup_insert_eq]. apply spaced_snoc; [done|]. intros t Ht.
      destruct (Hl t Ht) as [Hz Hlt]. rewrite Hlt in Hlast. simpl in Hlast. unfold t_is_zero in Hlast. destruct (Z.eqb_spec t zero_time); [done|]. simpl in Hlast.
      by apply t_sub_spaced.
    + rewrite app_nil_r. split; [done|]. intros t Ht. destruct (Hl t Ht) as [? ?]. split; [done|].
      change (<[i := now]> (gr_lastRedial g) !! j = Some t). by rewrite list_lookup_insert_ne.
Qed.

Section group.
Context (cap : nat) (marketOpen : Time → bool).

(** The watch's clock is after the zero time. *)
Definition step_ok (st : group_step) : Prop := match st with GWatch now _ => zero_time < now | _ => True end.
(** Reports are made in the order of the changes they report. *)
Definition in_order (st : group_step) : Prop := match st with GReport k => k = 0%nat | _ => True end.

Lemma do_group_ok n st g : (n <= 3)%nat → step_ok st → group_ok n g → group_ok n (group_do cap marketOpen st g).
Proof.
  intros Hn Hst Hg. destruct st as [i b|s|k| |k s msg recv|k now lastFrame| |i|now lastFrame|s code msg|reason|i]; simpl.
  - by apply setUp_ok.
  - eapply group_ok_core; [|exact Hg]; done.
  - by apply report_ok.
  - by eapply group_ok_core; [apply glog_core|].
  - repeat case_match; try done. eapply group_ok_core; [|exact Hg]. by rewrite glog_core.
  - destruct (gr_loops g !! k) as [m|]; [|done]. pose proof (on_data_core cap lastFrame now k m g) as Hc. destruct (on_data _ _ _ _ _ _) as [o g1].
    eapply group_ok_core; [|exact Hg]. exact Hc.
  - destruct (gr_ticks g) as [|t ts]; [done|]. eapply group_ok_core; [|exact Hg]; done.
  - destruct Hg as [(S1 & S2 & S3) H2 H3]. split; [|done|done]. cbn. split_and!; [done..|]. intros j. destruct (gr_up g !! i) as [[|]|] eqn:Hi; [|done|done].
    intros [= <-]. apply lookup_lt_Some in Hi. lia.
  - by apply watch_ok.
  - unfold slot_error. destruct (fatal_of _ _); [|done]. eapply group_ok_core; [|exact Hg]; done.
  - eapply group_ok_core; [|exact Hg]; done.
  - eapply group_ok_core; [|exact Hg]; done.
Qed.

Lemma do_reports_ok n st g : (n <= 3)%nat → in_order st → group_ok n g → reports_ok g → reports_ok (group_do cap marketOpen st g).
Proof.
  intros Hn Hst Hg Hr. destruct st as [i b|s|k| |k s msg recv|k now lastFrame| |i|now lastFrame|s code msg|reason|i]; simpl in *.
  - by eapply setUp_reports.
  - eapply reports_ok_core; [|exact Hr]; done.
  - subst k. by apply report_reports.
  - by eapply reports_ok_core; [apply glog_core|].
  - repeat case_match; try done. eapply reports_ok_core; [|exact Hr]. by rewrite glog_core.
  - destruct (gr_loops g !! k) as [m|]; [|done]. pose proof (on_data_core cap lastFrame now k m g) as Hc. destruct (on_data _ _ _ _ _ _) as [o g1].
    eapply reports_ok_core; [|exact Hr]. exact Hc.
  - by destruct (gr_ticks g).
  - done.
  - unfold watch_slot. destruct (gr_watch g); [|done]. destruct (shouldRedial _ _ _ _ _) as [[? []] lr]; [|done].
    unfold reports_ok, conn_states, report_states, glog in *. cbn. rewrite omap_app. cbn. by rewrite app_nil_r.
  - unfold slot_error. destruct (fatal_of _ _); [|done]. eapply reports_ok_core; [|exact Hr]; done.
  - done.
  - done.
Qed.

(** Loop [k]'s own account after an event. *)
Ltac own_account :=
  cbv zeta; unfold received, judged, passed, ingested, settled in *; rewrite !ticks_of_put, !ticks_of_glog, ?at_stage_put, !Nat.eqb_refl;
  repeat match goal with |- context [ticks_of ?w ?k (?g <| gr_ticks := ?ts |>)] => change (ticks_of w k (g <| gr_ticks := ts |>)) with (ticks_of w k g) end;
  cbn [andb ms_at ms_tick unjudged unsettled shown]; rewrite ?app_nil_r in *; rewrite ?fmap_app;
  repeat match goal with H : ?x = ?y |- context [?x] => rewrite H end; rewrite ?app_nil_r, <- ?app_assoc; split_and!; try done.

(** A loop's step. *)
Lemma on_data_ticks lastFrame now k m g : gr_loops g !! k = Some m → ticks_ok g →
  let '(o, g1) := on_data cap lastFrame now k m g in ticks_ok (put_loop k o g1).
Proof.
  intros Hk Hg. pose proof Hg as [H1 H2 H3 H4 H5 H6]. specialize (H1 k). specialize (H2 k). specialize (H3 k). specialize (H4 k m Hk).
  unfold at_stage in H1, H2, H3. rewrite Hk in H1, H2, H3.
  unfold on_data, track_seq, log_gap, accept_tick. destruct (ms_at m) as [|missed| | |ok from|[|]| | | | |] eqn:Hst; cbn [unjudged unsettled shown clean] in *.
  - destruct (gr_ings g !! _) as [ig|]; [destruct (seq_observe _ _ _) as [missed t]|]; cbv iota beta.
    + assert (∀ f, f (AtGap missed) = f AtAccept → f (if 0 <? missed then AtGap missed else AtAccept) = (f AtAccept : bool)) as Hf by (intros f E; by destruct (0 <? missed)).
      eapply ticks_ok_move; [exact Hg|done|exact Hk|cbn; rewrite Hst; by apply Hf..|by left|]. intros Hcl. cbn in Hcl. by rewrite Hf in Hcl.
    + eapply ticks_ok_move; [exact Hg|done|exact Hk|by cbn; rewrite Hst..|by left|done].
  - eapply ticks_ok_move; [exact Hg|by apply glog_tcore|exact Hk|by cbn; rewrite Hst..|by left|done].
  - eapply ticks_ok_move; [exact Hg|done|exact Hk|by cbn; rewrite Hst..|by left|done].
  - destruct (gr_merge g) as [mg|].
    + destruct (accept _ _ _ _ _ mg) as [[ok from] mg'].
      eapply (ticks_ok_core (put_loop k (Some (m <| ms_at := AtFailover ok from |>)) (glog (OfTick k (ms_tick m) (if ok then Passed else Refused)) (g <| gr_ticks := gr_ticks g |>)))); [done|].
      apply ticks_ok_event; [done| |by intros ? [= <-]|by destruct ok; rewrite app_nil_r|by destruct ok]. destruct ok; own_account.
    + eapply (ticks_ok_core (put_loop k (Some (m <| ms_at := AtSanitize |>)) (glog (OfTick k (ms_tick m) Passed) (g <| gr_ticks := gr_ticks g |>)))); [done|].
      apply ticks_ok_event; [done| |by intros ? [= <-]|by rewrite app_nil_r|done]. own_account.
  - eapply ticks_ok_move; [exact Hg|by destruct (0 <=? from); [apply glog_tcore|]|exact Hk|by cbn; rewrite Hst..|by left|done].
  - eapply ticks_ok_move; [exact Hg|by apply glog_tcore|exact Hk|by cbn; rewrite Hst..|by left|done].
  - eapply ticks_ok_put_down; [exact Hg|by apply glog_tcore|exact Hk|by rewrite Hst..].
  - destruct (sanitizeEventTS (ms_tick m)) as [changed tick] eqn:Hs. assert (tick = sanitized (ms_tick m)) as -> by (unfold sanitized; by rewrite Hs).
    eapply ticks_ok_move; [exact Hg|by destruct changed; [apply glog_tcore|]|exact Hk|by cbn; rewrite Hst..|right; by rewrite Hst|].
    intros _. apply sanitized_idem.
  - eapply (ticks_ok_core (put_loop k (Some (m <| ms_at := AtTick |>)) (glog (OfTick k (ms_tick m) Ingested) (g <| gr_ticks := gr_ticks g |>)))); [done|].
    apply ticks_ok_event; [done| |intros ? [= <-] _; by apply H4|by rewrite app_nil_r|done]. own_account.
  - eapply ticks_ok_move; [exact Hg|by apply glog_tcore|exact Hk|by cbn; rewrite Hst..|by left|]. intros _. by apply H4.
  - destruct (_ <? cap)%nat.
    + apply ticks_ok_event; [done| |done|done|intros _; rewrite <- H4 by done; apply sanitized_sane]. own_account. change (sanitized <$> [ms_tick m]) with [sanitized (ms_tick m)]. by rewrite H4.
    + eapply ticks_ok_move; [exact Hg|done|exact Hk|by cbn; rewrite Hst..|by left|]. intros _. by apply H4.
  - eapply (ticks_ok_core (put_loop k None (glog (OfTick k (ms_tick m) Dropped) (g <| gr_ticks := gr_ticks g |>)))); [done|].
    apply ticks_ok_event; [done| |done|by rewrite app_nil_r|done]. own_account. change (sanitized <$> [ms_tick m]) with [sanitized (ms_tick m)]. by rewrite H4.
Qed.

Lemma do_ticks_ok st g : ticks_ok g → ticks_ok (group_do cap marketOpen st g).
Proof.
  intros Hg. destruct st as [i b|s|k| |k s msg recv|k now lastFrame| |i|now lastFrame|s code msg|reason|i]; simpl.
  - unfold setUp. destruct (gr_up g !! i) as [up|]; [|done]. destruct (Bool.eqb up b); [done|]. eapply ticks_ok_core; [|exact Hg]; done.
  - eapply ticks_ok_core; [|exact Hg]; done.
  - eapply ticks_ok_core; [|exact Hg]. apply make_report_fields.
  - eapply ticks_ok_core; [by apply glog_tcore|done].
  - destruct (gr_loops g !! k) as [|] eqn:Hk; [done|]. destruct (gr_ings g !! s) as [|]; [|done]. destruct (begin_message s msg recv) as [m|] eqn:Hm; [|done].
    assert (unjudged (ms_at m) = true ∧ unsettled (ms_at m) = false ∧ shown (ms_at m) = false ∧ clean (ms_at m) = false) as (Hu & Hs & Hsh & Hc).
    { unfold begin_message in Hm. destruct (parseTick msg recv) as [|t]; [done|]. injection Hm as <-. cbn. by destruct (0 <? _). }
    eapply (ticks_ok_core (put_loop k (Some m) (glog (OfTick k (ms_tick m) Received) (g <| gr_ticks := gr_ticks g |>)))); [done|].
    pose proof Hg as [H1 H2 H3 _ _ _]. specialize (H1 k). specialize (H2 k). specialize (H3 k). unfold at_stage in H1, H2, H3. rewrite Hk in H1, H2, H3.
    apply ticks_ok_event; [done| |intros ? [= <-]; by rewrite Hc|by rewrite app_nil_r|done]. cbv zeta. rewrite !at_stage_put, Nat.eqb_refl, Hu, Hs, Hsh. own_account.
  - destruct (gr_loops g !! k) as [m|] eqn:Hk; [|done]. pose proof (on_data_ticks lastFrame now k m g Hk Hg) as H. destruct (on_data _ _ _ _ _ _) as [o g1]. exact H.
  - destruct (gr_ticks g) as [|t ts] eqn:Ht; [done|]. destruct Hg as [H1 H2 H3 H4 H5 H6]. split; try done.
    change ((gr_taken g ++ [t]) ++ ts = queued g). by rewrite <- H5, Ht, <- app_assoc.
  - eapply ticks_ok_core; [|exact Hg]; done.
  - unfold watch_slot. destruct (gr_watch g); [|done]. destruct (shouldRedial _ _ _ _ _) as [[? redial] lr].
    eapply ticks_ok_core; [|exact Hg]. destruct redial; [by rewrite glog_tcore|done].
  - unfold slot_error. destruct (fatal_of _ _); [|done]. eapply ticks_ok_core; [|exact Hg]; done.
  - eapply ticks_ok_core; [|exact Hg]; done.
  - eapply ticks_ok_core; [|exact Hg]; done.
Qed.

Lemma group_run_ok n sts g : (n <= 3)%nat → Forall step_ok sts → group_ok n g → ticks_ok g →
  group_ok n (group_run cap marketOpen sts g) ∧ ticks_ok (group_run cap marketOpen sts g) ∧
  (Forall in_order sts → reports_ok g → reports_ok (group_run cap marketOpen sts g)).
Proof.
  intros Hn Hsts. revert g. induction Hsts as [|st sts Hst _ IH]; intros g Hg Ht; [done|]. simpl.
  destruct (IH (group_do cap marketOpen st g)) as (H1 & H2 & H3); [by apply do_group_ok|by apply do_ticks_ok|]. split_and!; [done..|]. intros Hio Hr.
  apply Forall_cons in Hio as [Ho Hos]. apply H3; [done|]. by eapply do_reports_ok.
Qed.


Definition group_size (n : Z) : nat := Z.to_nat (Z.min MaxFeedConns (Z.max 1 n)).

Lemma NewGroup_ok n : group_ok (group_size n) (NewGroup n) ∧ ticks_ok (NewGroup n) ∧ reports_ok (NewGroup n).
Proof.
  split_and!; [|split; try done; by constructor|done].
  unfold NewGroup. fold (group_size n). split; unfold redials; cbn; rewrite ?length_replicate; try done.
  unfold count_up. induction (group_size n) as [|k IH]; [done|]. simpl. rewrite filter_cons. by case_decide.
Qed.

(** C40: whatever sockets open, close, fail, are rebuilt and deliver, and
    however their goroutines interleave: the group keeps between one and three
    slots and counts those that are up; a read loop asks the merger about every
    tick it parses; the ticks the merger passed it, and no others, it sends
    into the channel or drops and reports dropped, in order, each shown to
    OnIngested first, and its clock is sanitized once; the channel is what the
    loops sent, in the order of sending, with event times within five seconds
    behind and one ahead of receipt or none; a socket is redialled at most once
    in fifteen seconds; and as long as the changes are reported in their order,
    the connection states reported alternate and, once all are reported, say
    whether a socket is up.  (Nothing makes the reports come in order:
    [late_report_misleads].) *)
Theorem feed_group_keeps_account n sts : Forall step_ok sts →
  let g := group_run cap marketOpen sts (NewGroup n) in
  ((1 <= Size g <= 3)%nat ∧ gr_nUp g = count_up (gr_up g)) ∧
  (∀ k, received k g = judged k g ++ at_stage unjudged k g ∧
        sanitized <$> passed k g = settled k g ++ (sanitized <$> at_stage unsettled k g) ∧
        ingested k g = settled k g ++ at_stage shown k g) ∧
  (gr_taken g ++ gr_ticks g = queued g ∧ Forall sane_tick (queued g)) ∧
  (∀ i, spaced (redials i g)) ∧
  (Forall in_order sts → after_reports false (conn_states g ++ report_states g) = Some (0 <? gr_nUp g)).
Proof.
  intros Hsts g. destruct (NewGroup_ok n) as (H1 & H2 & H3). assert (1 <= group_size n <= 3)%nat as Hn by (unfold group_size, MaxFeedConns; lia).
  destruct (group_run_ok (group_size n) sts (NewGroup n)) as ([(S1 & _) S2 S3] & [T1 T2 T3 _ T5 T6] & Hr); [lia|done..|]. fold g in S1, S2, S3, T1, T2, T3, T5, T6, Hr.
  split; [unfold Size; split; [lia|done]|]. split; [done|]. split; [done|]. split; [intros i; apply S3|]. intros Ho. by apply Hr.
Qed.
End group.

(** ** Subscriptions are carried over *)

Definition held_tokens (subs : gmap Z (gmap Z (list string))) (mode ex : Z) : list string := default [] (subs !! mode ≫= (.!! ex)).
Definition subs_ok (subs : gmap Z (gmap Z (list string))) : Prop := ∀ mode ex, NoDup (held_tokens subs mode ex).

Lemma existsb_elem t l : existsb (String.eqb t) l = bool_decide (t ∈ l).
Proof.
  induction l as [|x l IH]; [done|]. simpl. rewrite IH. destruct (String.eqb_spec t x) as [->|Hne]; simpl.
  - symmetry. apply bool_decide_eq_true. by left.
  - apply bool_decide_ext. set_solver.
Qed.

Lemma appendUnique_fresh dst toks : NoDup (dst ++ toks) → appendUnique dst toks = dst ++ toks.
Proof.
  unfold appendUnique. revert dst. induction toks as [|t toks IH]; intros dst Hn; simpl; [by rewrite app_nil_r|].
  rewrite existsb_elem, bool_decide_false.
  - rewrite IH; by rewrite <-app_assoc.
  - intros Hin. apply NoDup_app in Hn as (_ & Hd & _). apply (Hd t Hin). by left.
Qed.

Lemma appendUnique_nodup dst toks : NoDup dst → NoDup (appendUnique dst toks) ∧ ∀ t, t ∈ appendUnique dst toks ↔ t ∈ dst ∨ t ∈ toks.
Proof.
  unfold appendUnique. revert dst. induction toks as [|x toks IH]; intros dst Hn; simpl; [split; [done|]; set_solver|].
  rewrite existsb_elem. case_bool_decide as Hx.
  - destruct (IH dst Hn) as [H1 H2]. split; [done|]. intros t. rewrite H2. set_solver.
  - destruct (IH (dst ++ [x])) as [H1 H2]; [apply NoDup_app; repeat split; [done|set_solver|apply NoDup_singleton]|].
    split; [done|]. intros t. rewrite H2. set_solver.
Qed.

(** Asking for tokens adds exactly those, once each. *)
Lemma addSubscription_tokens mode l subs : subs_ok subs →
  subs_ok (addSubscription mode l subs) ∧
  ∀ mode' ex t, t ∈ held_tokens (addSubscription mode l subs) mode' ex ↔
    t ∈ held_tokens subs mode' ex ∨ mode' = mode ∧ ∃ tl, tl ∈ l ∧ te_ExchangeType tl = ex ∧ t ∈ te_Tokens tl.
Proof.
  intros Hs.
  assert (∀ m, (∀ ex, NoDup (default [] (m !! ex))) → let m' := foldl (λ m tl, <[te_ExchangeType tl := appendUnique (default [] (m !! te_ExchangeType tl)) (te_Tokens tl)]> m) m l in
    (∀ ex, NoDup (default [] (m' !! ex))) ∧ ∀ ex t, t ∈ default [] (m' !! ex) ↔ t ∈ default [] ((m : gmap Z (list string)) !! ex) ∨ ∃ tl, tl ∈ l ∧ te_ExchangeType tl = ex ∧ t ∈ te_Tokens tl) as Hf.
  { clear. induction l as [|tl l IH]; intros m Hm; simpl; [split; [done|]; set_solver|].
    destruct (appendUnique_nodup (default [] (m !! te_ExchangeType tl)) (te_Tokens tl) (Hm _)) as [A1 A2].
    destruct (IH (<[te_ExchangeType tl := appendUnique (default [] (m !! te_ExchangeType tl)) (te_Tokens tl)]> m)) as [H1 H2].
    { intros ex. destruct (base.decide (te_ExchangeType tl = ex)) as [<-|Hne]; [by rewrite lookup_insert_eq|by rewrite lookup_insert_ne]. }
    split; [done|]. intros ex t. rewrite H2. destruct (base.decide (te_ExchangeType tl = ex)) as [<-|Hne].
    - rewrite lookup_insert_eq. simpl. rewrite A2. set_solver.
    - rewrite lookup_insert_ne by done. set_solver. }
  assert (∀ ex, default [] (default ∅ (subs !! mode) !! ex) = held_tokens subs mode ex) as Ht by (intros ex; unfold held_tokens; by destruct (subs !! mode)).
  destruct (Hf (default ∅ (subs !! mode))) as [H1 H2]; [intros ex; rewrite Ht; apply Hs|]. clear Hf.
  assert (∀ m' mode' ex, held_tokens (<[mode := m']> subs) mode' ex = if bool_decide (mode' = mode) then default [] (m' !! ex) else held_tokens subs mode' ex) as Hi.
  { intros m' mode' ex. unfold held_tokens. case_bool_decide as E; [subst; by rewrite lookup_insert_eq|by rewrite lookup_insert_ne]. }
  unfold addSubscription. split.
  - intros mode' ex. rewrite Hi. case_bool_decide; [apply H1|apply Hs].
  - intros mode' ex t. rewrite Hi. case_bool_decide as E; [subst; rewrite H2, Ht; set_solver|set_solver].
Qed.

Section rebuild.
Context `{IO : IntMapOrder}.

Lemma elem_of_int_range {A} (m : gmap Z A) k x : (k, x) ∈ int_range m ↔ m !! k = Some x.
Proof. rewrite (int_range_perm m). apply elem_of_map_to_list. Qed.

Lemma elem_of_token_lists mm tl : tl ∈ token_lists mm ↔ mm !! te_ExchangeType tl = Some (te_Tokens tl) ∧ te_Tokens tl ≠ [].
Proof.
  unfold token_lists. rewrite list_elem_of_fmap. setoid_rewrite list_elem_of_filter. split.
  - intros ([ex toks] & -> & Hne & Hin). simpl in *. by apply elem_of_int_range in Hin.
  - intros [Hl Hne]. exists (te_ExchangeType tl, te_Tokens tl). split; [by destruct tl|]. split; [done|]. by apply elem_of_int_range.
Qed.

Lemma lookup_Subscriptions held mode l : Subscriptions held !! mode = Some l ↔ ∃ mm, held !! mode = Some mm ∧ token_lists mm = l ∧ l ≠ [].
Proof.
  unfold Subscriptions. rewrite lookup_omap_Some. split; intros (mm & H); exists mm.
  - destruct H as [H1 H2]. destruct (token_lists mm); [done|]. by injection H1 as <-.
  - destruct H as (H1 & <- & H3). by destruct (token_lists mm).
Qed.

Lemma wire_tokens l subs : subs_ok subs →
  let subs' := foldl (λ subs ml, if bool_decide (ml.2 = []) then subs else addSubscription ml.1 ml.2 subs) subs l in
  subs_ok subs' ∧ ∀ mode ex t, t ∈ held_tokens subs' mode ex ↔ t ∈ held_tokens subs mode ex ∨
    ∃ ml, ml ∈ l ∧ mode = ml.1 ∧ ∃ tl, tl ∈ ml.2 ∧ te_ExchangeType tl = ex ∧ t ∈ te_Tokens tl.
Proof.
  revert subs. induction l as [|[mode0 l0] l IH]; intros subs Hs; simpl; [split; [done|]; set_solver|]. case_bool_decide as Hl.
  - subst l0. destruct (IH subs Hs) as [H1 H2]. split; [done|]. intros mode ex t. rewrite H2. apply or_iff_compat_l. split.
    + intros (ml & Hin & H). exists ml. split; [by right|done].
    + intros (ml & [->|Hin]%elem_of_cons & -> & tl & Htl & H); [by apply not_elem_of_nil in Htl|]. exists ml. split; [done|]. eauto.
  - destruct (addSubscription_tokens mode0 l0 subs Hs) as [A1 A2]. destruct (IH _ A1) as [H1 H2]. split; [done|].
    intros mode ex t. rewrite H2, A2, Logic.or_assoc. apply or_iff_compat_l. split.
    + intros [(-> & tl & H)|(ml & Hin & H)]; [exists (mode0, l0); split; [by left|eauto]|exists ml; split; [by right|done]].
    + intros (ml & [->|Hin]%elem_of_cons & H); [left; destruct H as (-> & tl & H); eauto|right; eauto].
Qed.

(** A rebuilt socket asks for exactly the tokens the lost one held. *)
Lemma rebuild_keeps mode0 held : subs_ok held →
  subs_ok (rebuild_requests mode0 held) ∧ ∀ mode ex t, t ∈ held_tokens (rebuild_requests mode0 held) mode ex ↔ t ∈ held_tokens held mode ex.
Proof.
  intros Hh. unfold rebuild_requests, wire_requests.
  destruct (wire_tokens (int_range (Subscriptions held)) (addSubscription mode0 [] ∅)) as [H1 H2].
  { apply addSubscription_tokens. intros mode ex. unfold held_tokens. rewrite lookup_empty. constructor. }
  split; [done|]. intros mode ex t. rewrite H2. split.
  - intros [Ht|([mode' l] & Hin & -> & tl & Htl & <- & Ht)].
    + unfold held_tokens, addSubscription in Ht. simpl in Ht. destruct (base.decide (mode0 = mode)) as [->|Hne];
        [rewrite lookup_insert_eq in Ht|rewrite lookup_insert_ne in Ht by done]; rewrite lookup_empty in Ht; simpl in Ht; try rewrite lookup_empty in Ht; set_solver.
    + apply elem_of_int_range, lookup_Subscriptions in Hin as (mm & Hmm & <- & _). apply elem_of_token_lists in Htl as [Hl _].
      unfold held_tokens. simpl. rewrite Hmm. simpl. by rewrite Hl.
  - unfold held_tokens. destruct (held !! mode) as [mm|] eqn:Hmm; [|set_solver]. simpl. destruct (mm !! ex) as [toks|] eqn:Hex; [|set_solver].
    simpl. intros Ht. right. assert (toks ≠ []) as Hne by (intros ->; by apply not_elem_of_nil in Ht).
    assert ({| te_ExchangeType := ex; te_Tokens := toks |} ∈ token_lists mm) as Hin by (by apply elem_of_token_lists).
    exists (mode, token_lists mm). split; [|split; [done|]].
    + apply elem_of_int_range, lookup_Subscriptions. exists mm. split; [done|]. split; [done|]. intros E. rewrite E in Hin. by apply not_elem_of_nil in Hin.
    + eexists. split; [exact Hin|]. by split.
Qed.

(** What a socket sends on a new connection is what it holds. *)
Lemma resubscriptions_all held mode ex t :
  t ∈ held_tokens held mode ex ↔ ∃ r tl, r ∈ resubscriptions held ∧ rq_mode r = mode ∧ rq_action r = SubscribeAction ∧ tl ∈ rq_list r ∧
                                     te_ExchangeType tl = ex ∧ t ∈ te_Tokens tl.
Proof.
  unfold resubscriptions, held_tokens. split.
  - destruct (held !! mode) as [mm|] eqn:Hmm; [|set_solver]. simpl. destruct (mm !! ex) as [toks|] eqn:Hex; [|set_solver]. simpl. intros Ht.
    assert ({| te_ExchangeType := ex; te_Tokens := toks |} ∈ token_lists mm) as Hin by (apply elem_of_token_lists; split; [done|]; simpl; intros ->; by apply not_elem_of_nil in Ht).
    exists {| rq_action := SubscribeAction; rq_mode := mode; rq_list := token_lists mm |}. eexists. split; [|by repeat split].
    apply list_elem_of_filter. split; [simpl; intros E; rewrite E in Hin; by apply not_elem_of_nil in Hin|]. apply list_elem_of_fmap. exists (mode, mm). split; [done|]. by apply elem_of_int_range.
  - intros (r & tl & [_ ([mode' mm] & -> & Hmm)%list_elem_of_fmap]%list_elem_of_filter & <- & _ & Htl & <- & Ht). simpl in *.
    apply elem_of_int_range in Hmm. apply elem_of_token_lists in Htl as [Hl _]. rewrite Hmm. simpl. by rewrite Hl.
Qed.
End rebuild.

(** ** Sockets that come and go *)

Definition demo_msg (token : string) (seq price ms : Z) : gmap string value :=
  put "token" (SString token) (put "exchange_type" (SInt 1) (put "sequence_number" (SInt64 seq) (put "last_traded_price" (SInt64 price)
    (put "exchange_timestamp" (SInt64 ms) ∅)))).
Definition noon : Time := 1790000000 * Second.
(** Loop [k] handles a message to its end. *)
Definition demo_loop (k : nat) (at_ : Time) : list group_step := replicate 8 (GOnData k at_ (λ _, at_)).
(** Two sockets deliver the same packet: the merger passes the first's copy.
    The first's next tick, its clock ahead, is dropped at the merger or capped;
    a message of socket 1 is under way when its slot is rebuilt. *)
Definition demo_steps : list group_step :=
  on_open 0 0 ++ [GReport 0; GReport 0] ++ on_open 1 1 ++ [GReport 0] ++
  [GMessage 0 0 (demo_msg "26000" 7 2500000 (1790000000 * 1000)) noon; GMessage 1 1 (demo_msg "26000" 7 2500000 (1790000000 * 1000)) noon] ++
  demo_loop 0 noon ++ demo_loop 1 noon ++
  [GMessage 2 0 (demo_msg "26000" 8 2500100 (1790000100 * 1000)) noon] ++ demo_loop 2 noon ++
  [GTake; GMessage 1 1 (demo_msg "26000" 9 2500200 (1790000000 * 1000)) noon; GRebuild 1; GOnData 1 noon (λ _, noon);
   GIsUp 0; GWatch (noon + 6 * Second) noon; GIsUp 0; GWatch (noon + 7 * Second) noon] ++
  on_close 0 ++ [GReport 0] ++ on_close 1 ++ [GReport 0; GReport 0].

Lemma feed_group_keeps_account_witness :
  let g := group_run 1000 (λ _, true) demo_steps (NewGroup 2) in
  (tick_Price <$> gr_taken g = [2500000] ∧ ((λ t, (tick_Price t, tick_EventTS t =? noon)) <$> gr_ticks g) = [(2500100, true)] ∧
   (tick_Price <$> judged 1 g) = [2500000] ∧ passed 1 g = [] ∧ (tick_Price <$> at_stage unjudged 1 g) = [2500200] ∧
   conn_states g = [true; false] ∧ redials 0 g = [noon + 6 * Second]) ∧
  ((1 <= Size g <= 3)%nat ∧ gr_nUp g = count_up (gr_up g)) ∧
  (∀ k, received k g = judged k g ++ at_stage unjudged k g ∧
        sanitized <$> passed k g = settled k g ++ (sanitized <$> at_stage unsettled k g) ∧
        ingested k g = settled k g ++ at_stage shown k g) ∧
  (gr_taken g ++ gr_ticks g = queued g ∧ Forall sane_tick (queued g)) ∧
  (∀ i, spaced (redials i g)) ∧
  (Forall in_order demo_steps → after_reports false (conn_states g ++ report_states g) = Some (0 <? gr_nUp g)).
Proof.
  cbv zeta. split; [vm_compute; repeat split|]. apply (feed_group_keeps_account 1000 (λ _, true) 2 demo_steps).
  repeat (constructor; [first [exact I|vm_compute; reflexivity]|]). constructor.
Defined.

(** Two changes reported the wrong way round: the group is down, and the last
    the hooks hear is that it is up. *)
Example late_report_misleads :
  let g := group_run 1000 (λ _, true) [GSetUp 0 true; GSetUp 0 false; GReport 1; GReport 1; GReport 0; GReport 0] (NewGroup 2) in
  gr_nUp g = 0 ∧ conn_states g = [false; true].
Proof. vm_compute. split; reflexivity. Qed.
