(* ===== verification/Indicators.v ===== *)
(** Technical indicators (internal/indicator: sma.go, ema.go, smma.go,
    rsi.go, atr.go, adx.go, vwap.go, bollinger.go).  [None] is a panic: a
    negative length given to make, an index out of range, an integer
    remainder by zero. *)
From S2P Require Import Prelude Float64 GoText Model.
#[local] Open Scope Z_scope.
#[local] Open Scope go_scope.


(** ** The interfaces (indicator.go, snapshot.go) *)

Record IndicatorSnapshot := {
  is_Type : string; is_Period : Z; is_Buf : list float64; is_Idx : Z; is_Count : Z; is_Sum : float64;
  is_Current : float64; is_Multiplier : float64; is_PrevClose : float64; is_AvgGain : float64; is_AvgLoss : float64;
  is_LastTS : Z;
}.

(** A snapshot with the fields every indicator sets; the rest are zero. *)
Definition plain_snapshot (type : string) (period count : Z) (sum current : float64) : IndicatorSnapshot := {|
  is_Type := type; is_Period := period; is_Buf := []; is_Idx := 0; is_Count := count; is_Sum := sum; is_Current := current;
  is_Multiplier := f64_zero; is_PrevClose := f64_zero; is_AvgGain := f64_zero; is_AvgLoss := f64_zero; is_LastTS := 0 |}.

Class Indicator (A : Type) := {
  ind_Name : string;
  Update : Candle → A → option A;
  Value : A → float64;
  Ready : A → bool;
  Peek : Z → A → option float64;
}.
Arguments ind_Name A {_}.

Class Snapshottable (A : Type) := {
  Snapshot : A → IndicatorSnapshot;
  RestoreFromSnapshot : IndicatorSnapshot → A → option A;
}.

(** [make([]float64, n)]. *)
Definition make_floats (n : Z) : option (list float64) :=
  if n <? 0 then None else Some (replicate (Z.to_nat n) f64_zero).

(** [buf[i]] and [buf[i] = x]. *)
Definition at_index (buf : list float64) (i : Z) : option float64 := if i <? 0 then None else buf !! Z.to_nat i.
Definition set_index (buf : list float64) (i : Z) (x : float64) : option (list float64) :=
  if (i <? 0) || (Z.of_nat (length buf) <=? i) then None else Some (<[Z.to_nat i := x]> buf).

(** ** SMA (sma.go) *)

Record SMA := { sma_period : Z; sma_buf : list float64; sma_idx : Z; sma_count : Z; sma_sum : float64; sma_current : float64 }.

Definition NewSMA (period : Z) : option SMA :=
  buf ← make_floats period;
  Some {| sma_period := period; sma_buf := buf; sma_idx := 0; sma_count := 0; sma_sum := f64_zero; sma_current := f64_zero |}.

Definition SMA_Update (candle : Candle) (s : SMA) : option SMA :=
  if (sma_period s =? 0) || bool_decide (length (sma_buf s) = 0%nat) then Some s
  else
    let price := #(c_Close candle) in
    sum ← (if sma_period s <=? sma_count s then old ← at_index (sma_buf s) (sma_idx s); Some (sma_sum s ⊖ old)
           else Some (sma_sum s));
    buf ← set_index (sma_buf s) (sma_idx s) price;
    let sum := sum ⊕ price in
    let count := sma_count s +! 1 in
    Some {| sma_period := sma_period s; sma_buf := buf; sma_idx := (sma_idx s +! 1) %! sma_period s; sma_count := count;
            sma_sum := sum; sma_current := if sma_period s <=? count then sum ⊘ #(sma_period s) else sma_current s |}.

Definition SMA_Peek (closePaise : Z) (s : SMA) : option float64 :=
  let price := #closePaise in
  if sma_count s <? sma_period s then Some ((sma_sum s ⊕ price) ⊘ #(sma_count s +! 1))
  else old ← at_index (sma_buf s) (sma_idx s); Some ((sma_sum s ⊖ old ⊕ price) ⊘ #(sma_period s)).

Definition SMA_Reset (s : SMA) : SMA := {|
  sma_period := sma_period s; sma_buf := replicate (length (sma_buf s)) f64_zero; sma_idx := 0; sma_count := 0;
  sma_sum := f64_zero; sma_current := f64_zero |}.

#[global] Instance SMA_indicator : Indicator SMA := {
  ind_Name := "SMA"; Update := SMA_Update; Value := sma_current; Ready s := sma_period s <=? sma_count s; Peek := SMA_Peek }.

Definition SMA_Snapshot (s : SMA) : IndicatorSnapshot := {|
  is_Type := "SMA"; is_Period := sma_period s; is_Buf := sma_buf s; is_Idx := sma_idx s; is_Count := sma_count s;
  is_Sum := sma_sum s; is_Current := sma_current s; is_Multiplier := f64_zero; is_PrevClose := f64_zero;
  is_AvgGain := f64_zero; is_AvgLoss := f64_zero; is_LastTS := 0 |}.

Definition SMA_Restore (snap : IndicatorSnapshot) (s : SMA) : option SMA :=
  buf ← (if bool_decide (length (is_Buf snap) = 0%nat) then make_floats (is_Period snap) else Some (is_Buf snap));
  Some {| sma_period := is_Period snap; sma_buf := buf; sma_idx := is_Idx snap; sma_count := is_Count snap;
          sma_sum := is_Sum snap; sma_current := is_Current snap |}.

#[global] Instance SMA_snapshottable : Snapshottable SMA := {
  Snapshot := SMA_Snapshot; RestoreFromSnapshot := SMA_Restore }.

(** ** EMA (ema.go) *)

Record EMA := { ema_period : Z; ema_multiplier : float64; ema_current : float64; ema_count : Z; ema_sum : float64 }.

Definition NewEMA (period : Z) : EMA := {|
  ema_period := period; ema_multiplier := #2 ⊘ #(period +! 1); ema_current := f64_zero; ema_count := 0; ema_sum := f64_zero |}.

(** [price*multiplier + current*(1 - multiplier)]. *)
Definition EMA_next (price : float64) (e : EMA) : float64 :=
  price ⊗ ema_multiplier e ⊕ ema_current e ⊗ (#1 ⊖ ema_multiplier e).

Definition EMA_Update (candle : Candle) (e : EMA) : EMA :=
  if ema_period e <=? 0 then e
  else
    let price := #(c_Close candle) in
    let count := ema_count e +! 1 in
    if count <=? ema_period e then
      let sum := ema_sum e ⊕ price in {|
      ema_period := ema_period e; ema_multiplier := ema_multiplier e;
      ema_current := if count =? ema_period e then sum ⊘ #(ema_period e) else ema_current e;
      ema_count := count; ema_sum := sum |}
    else {|
      ema_period := ema_period e; ema_multiplier := ema_multiplier e; ema_current := EMA_next price e;
      ema_count := count; ema_sum := ema_sum e |}.

Definition EMA_Ready (e : EMA) : bool := ema_period e <=? ema_count e.

Definition EMA_Peek (closePaise : Z) (e : EMA) : float64 :=
  if ema_period e <=? 0 then ema_current e
  else if ema_count e <? ema_period e then #closePaise
  else EMA_next #closePaise e.

Definition EMA_Reset (e : EMA) : EMA := {|
  ema_period := ema_period e; ema_multiplier := ema_multiplier e; ema_current := f64_zero; ema_count := 0; ema_sum := f64_zero |}.

#[global] Instance EMA_indicator : Indicator EMA := {
  ind_Name := "EMA"; Update c e := Some (EMA_Update c e); Value := ema_current; Ready := EMA_Ready;
  Peek p e := Some (EMA_Peek p e) }.

Definition EMA_Snapshot (e : EMA) : IndicatorSnapshot := {|
  is_Type := "EMA"; is_Period := ema_period e; is_Buf := []; is_Idx := 0; is_Count := ema_count e; is_Sum := ema_sum e;
  is_Current := ema_current e; is_Multiplier := ema_multiplier e; is_PrevClose := f64_zero; is_AvgGain := f64_zero;
  is_AvgLoss := f64_zero; is_LastTS := 0 |}.

Definition EMA_Restore (snap : IndicatorSnapshot) (e : EMA) : EMA :=
  if negb (String.eqb (is_Type snap) "EMA") || (is_Period snap <=? 0) then e
  else {|
    ema_period := is_Period snap;
    ema_multiplier := if f64_leb (is_Multiplier snap) f64_zero then #2 ⊘ #(is_Period snap +! 1) else is_Multiplier snap;
    ema_current := is_Current snap; ema_count := is_Count snap; ema_sum := is_Sum snap |}.

#[global] Instance EMA_snapshottable : Snapshottable EMA := {
  Snapshot := EMA_Snapshot; RestoreFromSnapshot snap e := Some (EMA_Restore snap e) }.

(** ** SMMA (smma.go) *)

Record SMMA := { smma_period : Z; smma_count : Z; smma_sum : float64; smma_current : float64 }.
Definition NewSMMA (period : Z) : SMMA := {| smma_period := period; smma_count := 0; smma_sum := f64_zero; smma_current := f64_zero |}.

Definition SMMA_next (price : float64) (s : SMMA) : float64 :=
  (smma_current s ⊗ #(smma_period s -! 1) ⊕ price) ⊘ #(smma_period s).

Definition SMMA_Update (candle : Candle) (s : SMMA) : SMMA :=
  let price := #(c_Close candle) in
  let count := smma_count s +! 1 in
  if count <=? smma_period s then
    let sum := smma_sum s ⊕ price in {|
    smma_period := smma_period s; smma_count := count; smma_sum := sum;
    smma_current := if count =? smma_period s then sum ⊘ #(smma_period s) else smma_current s |}
  else {|
    smma_period := smma_period s; smma_count := count; smma_sum := smma_sum s; smma_current := SMMA_next price s |}.

Definition SMMA_Peek (closePaise : Z) (s : SMMA) : float64 :=
  if smma_count s <? smma_period s then (smma_sum s ⊕ #closePaise) ⊘ #(smma_count s +! 1) else SMMA_next #closePaise s.

Definition SMMA_Reset (s : SMMA) : SMMA := {|
  smma_period := smma_period s; smma_count := 0; smma_sum := f64_zero; smma_current := f64_zero |}.

#[global] Instance SMMA_indicator : Indicator SMMA := {
  ind_Name := "SMMA"; Update c s := Some (SMMA_Update c s); Value := smma_current;
  Ready s := smma_period s <=? smma_count s; Peek p s := Some (SMMA_Peek p s) }.

Definition SMMA_Restore (snap : IndicatorSnapshot) : SMMA := {|
  smma_period := is_Period snap; smma_count := is_Count snap; smma_sum := is_Sum snap; smma_current := is_Current snap |}.

#[global] Instance SMMA_snapshottable : Snapshottable SMMA := {
  Snapshot s := plain_snapshot "SMMA" (smma_period s) (smma_count s) (smma_sum s) (smma_current s);
  RestoreFromSnapshot snap _ := Some (SMMA_Restore snap) }.

(** ** RSI (rsi.go) *)

Record RSI := {
  rsi_period : Z; rsi_count : Z; rsi_prevClose : float64; rsi_avgGain : float64; rsi_avgLoss : float64; rsi_current : float64 }.
Definition NewRSI (period : Z) : RSI := {|
  rsi_period := period; rsi_count := 0; rsi_prevClose := f64_zero; rsi_avgGain := f64_zero; rsi_avgLoss := f64_zero;
  rsi_current := f64_zero |}.

(** The gain and the loss of a change. *)
Definition gain_loss (delta : float64) : float64 * float64 :=
  if f64_zero <. delta then (delta, f64_zero) else (f64_zero, f64_neg delta).

Definition rsi_of (avgGain avgLoss : float64) : float64 :=
  if f64_eqb avgLoss f64_zero then #100 else #100 ⊖ #100 ⊘ (#1 ⊕ avgGain ⊘ avgLoss).

Definition RSI_Update (candle : Candle) (r : RSI) : RSI :=
  let price := #(c_Close candle) in
  let count := rsi_count r +! 1 in
  if count =? 1 then {|
    rsi_period := rsi_period r; rsi_count := count; rsi_prevClose := price; rsi_avgGain := rsi_avgGain r;
    rsi_avgLoss := rsi_avgLoss r; rsi_current := rsi_current r |}
  else
    let '(gain, loss) := gain_loss (price ⊖ rsi_prevClose r) in
    if count <=? rsi_period r +! 1 then
      let avgGain := rsi_avgGain r ⊕ gain in
      let avgLoss := rsi_avgLoss r ⊕ loss in
      if count =? rsi_period r +! 1 then
        let avgGain := avgGain ⊘ #(rsi_period r) in
        let avgLoss := avgLoss ⊘ #(rsi_period r) in {|
        rsi_period := rsi_period r; rsi_count := count; rsi_prevClose := price; rsi_avgGain := avgGain;
        rsi_avgLoss := avgLoss; rsi_current := rsi_of avgGain avgLoss |}
      else {|
        rsi_period := rsi_period r; rsi_count := count; rsi_prevClose := price; rsi_avgGain := avgGain;
        rsi_avgLoss := avgLoss; rsi_current := rsi_current r |}
    else
      let p := #(rsi_period r) in
      let avgGain := (rsi_avgGain r ⊗ (p ⊖ #1) ⊕ gain) ⊘ p in
      let avgLoss := (rsi_avgLoss r ⊗ (p ⊖ #1) ⊕ loss) ⊘ p in {|
      rsi_period := rsi_period r; rsi_count := count; rsi_prevClose := price; rsi_avgGain := avgGain;
      rsi_avgLoss := avgLoss; rsi_current := rsi_of avgGain avgLoss |}.

Definition RSI_Ready (r : RSI) : bool := rsi_period r <? rsi_count r.

Definition RSI_Peek (closePaise : Z) (r : RSI) : float64 :=
  if rsi_count r <=? rsi_period r then rsi_current r
  else
    let '(gain, loss) := gain_loss (#closePaise ⊖ rsi_prevClose r) in
    let p := #(rsi_period r) in
    rsi_of ((rsi_avgGain r ⊗ (p ⊖ #1) ⊕ gain) ⊘ p) ((rsi_avgLoss r ⊗ (p ⊖ #1) ⊕ loss) ⊘ p).

#[global] Instance RSI_indicator : Indicator RSI := {
  ind_Name := "RSI"; Update c r := Some (RSI_Update c r); Value := rsi_current; Ready := RSI_Ready;
  Peek p r := Some (RSI_Peek p r) }.

Definition RSI_Snapshot (r : RSI) : IndicatorSnapshot := {|
  is_Type := "RSI"; is_Period := rsi_period r; is_Buf := []; is_Idx := 0; is_Count := rsi_count r; is_Sum := f64_zero;
  is_Current := rsi_current r; is_Multiplier := f64_zero; is_PrevClose := rsi_prevClose r; is_AvgGain := rsi_avgGain r;
  is_AvgLoss := rsi_avgLoss r; is_LastTS := 0 |}.

Definition RSI_Restore (snap : IndicatorSnapshot) : RSI := {|
  rsi_period := is_Period snap; rsi_count := is_Count snap; rsi_prevClose := is_PrevClose snap;
  rsi_avgGain := is_AvgGain snap; rsi_avgLoss := is_AvgLoss snap; rsi_current := is_Current snap |}.

#[global] Instance RSI_snapshottable : Snapshottable RSI := {
  Snapshot := RSI_Snapshot; RestoreFromSnapshot snap _ := Some (RSI_Restore snap) }.

(** ** ATR (atr.go) *)

Record ATR := { atr_period : Z; atr_current : float64; atr_count : Z; atr_sum : float64; atr_prevClose : float64 }.
Definition NewATR (period : Z) : ATR := {|
  atr_period := period; atr_current := f64_zero; atr_count := 0; atr_sum := f64_zero; atr_prevClose := f64_zero |}.

(** max(h − l, |h − prevClose|, |l − prevClose|). *)
Definition true_range (h l prevClose : float64) : float64 :=
  f64_max (h ⊖ l) (f64_max (f64_abs (h ⊖ prevClose)) (f64_abs (l ⊖ prevClose))).

Definition ATR_Update (candle : Candle) (a : ATR) : ATR :=
  let h := #(c_High candle) in
  let l := #(c_Low candle) in
  let c := #(c_Close candle) in
  let count := atr_count a +! 1 in
  if count =? 1 then {|
    atr_period := atr_period a; atr_current := atr_current a; atr_count := count; atr_sum := h ⊖ l; atr_prevClose := c |}
  else
    let tr := true_range h l (atr_prevClose a) in
    if count <=? atr_period a then
      let sum := atr_sum a ⊕ tr in {|
      atr_period := atr_period a; atr_current := if count =? atr_period a then sum ⊘ #(atr_period a) else atr_current a;
      atr_count := count; atr_sum := sum; atr_prevClose := c |}
    else {|
      atr_period := atr_period a; atr_current := (atr_current a ⊗ #(atr_period a -! 1) ⊕ tr) ⊘ #(atr_period a);
      atr_count := count; atr_sum := atr_sum a; atr_prevClose := c |}.

Definition ATR_Ready (a : ATR) : bool := atr_period a <=? atr_count a.

Definition ATR_Reset (a : ATR) : ATR := NewATR (atr_period a).

#[global] Instance ATR_indicator : Indicator ATR := {
  ind_Name := "ATR"; Update c a := Some (ATR_Update c a); Value := atr_current; Ready := ATR_Ready;
  Peek _ a := Some (atr_current a) }.

Definition ATR_Snapshot (a : ATR) : IndicatorSnapshot := {|
  is_Type := "ATR"; is_Period := atr_period a; is_Buf := []; is_Idx := 0; is_Count := atr_count a; is_Sum := atr_sum a;
  is_Current := atr_current a; is_Multiplier := f64_zero; is_PrevClose := atr_prevClose a; is_AvgGain := f64_zero;
  is_AvgLoss := f64_zero; is_LastTS := 0 |}.

Definition ATR_Restore (snap : IndicatorSnapshot) : ATR := {|
  atr_period := is_Period snap; atr_current := is_Current snap; atr_count := is_Count snap; atr_sum := is_Sum snap;
  atr_prevClose := is_PrevClose snap |}.

#[global] Instance ATR_snapshottable : Snapshottable ATR := {
  Snapshot := ATR_Snapshot; RestoreFromSnapshot snap _ := Some (ATR_Restore snap) }.

(** ** ADX (adx.go) *)

Definition no_candle : Candle := {|
  c_Token := ""; c_Exchange := ""; c_TS := zero_time; c_Open := 0; c_High := 0; c_Low := 0; c_Close := 0; c_Volume := 0;
  c_TicksCount := 0 |}.

Record ADX := {
  adx_period : Z; adx_smoothedDXPlus : float64; adx_smoothedDXMinus : float64; adx_smoothedTR : float64; adx_sum : float64;
  adx_value : float64; adx_prevCandle : Candle; adx_count : Z; adx_dxCount : Z }.

Definition NewADX (period : Z) : ADX := {|
  adx_period := period; adx_smoothedDXPlus := f64_zero; adx_smoothedDXMinus := f64_zero; adx_smoothedTR := f64_zero;
  adx_sum := f64_zero; adx_value := f64_zero; adx_prevCandle := no_candle; adx_count := 0; adx_dxCount := 0 |}.

(** DX of the smoothed movements; [None] where the code leaves it out. *)
Definition adx_dx (plus minus tr : float64) : option float64 :=
  if f64_eqb tr f64_zero then None
  else
    let diPlus := #100 ⊗ plus ⊘ tr in
    let diMinus := #100 ⊗ minus ⊘ tr in
    let diSum := diPlus ⊕ diMinus in
    if f64_eqb diSum f64_zero then None else Some (#100 ⊗ f64_abs (diPlus ⊖ diMinus) ⊘ diSum).

(** The directional movements of a candle after another. *)
Definition adx_moves (prev candle : Candle) : float64 * float64 :=
  let upMove := #(c_High candle) ⊖ #(c_High prev) in
  let downMove := #(c_Low prev) ⊖ #(c_Low candle) in
  (if (downMove <. upMove) && (f64_zero <. upMove) then upMove else f64_zero,
   if (upMove <. downMove) && (f64_zero <. downMove) then downMove else f64_zero).

Definition ADX_Update (candle : Candle) (a : ADX) : ADX :=
  let count := adx_count a +! 1 in
  if count =? 1 then {|
    adx_period := adx_period a; adx_smoothedDXPlus := adx_smoothedDXPlus a; adx_smoothedDXMinus := adx_smoothedDXMinus a;
    adx_smoothedTR := adx_smoothedTR a; adx_sum := adx_sum a; adx_value := adx_value a; adx_prevCandle := candle;
    adx_count := count; adx_dxCount := adx_dxCount a |}
  else
    let tr := true_range #(c_High candle) #(c_Low candle) #(c_Close (adx_prevCandle a)) in
    let '(dmPlus, dmMinus) := adx_moves (adx_prevCandle a) candle in
    if count <=? adx_period a +! 1 then
      let sTR := adx_smoothedTR a ⊕ tr in
      let sPlus := adx_smoothedDXPlus a ⊕ dmPlus in
      let sMinus := adx_smoothedDXMinus a ⊕ dmMinus in
      let dx := if count =? adx_period a +! 1 then adx_dx sPlus sMinus sTR else None in {|
      adx_period := adx_period a; adx_smoothedDXPlus := sPlus; adx_smoothedDXMinus := sMinus; adx_smoothedTR := sTR;
      adx_sum := match dx with Some dx => adx_sum a ⊕ dx | None => adx_sum a end; adx_value := adx_value a;
      adx_prevCandle := candle; adx_count := count;
      adx_dxCount := match dx with Some _ => adx_dxCount a +! 1 | None => adx_dxCount a end |}
    else
      let p := #(adx_period a) in
      let sTR := adx_smoothedTR a ⊖ adx_smoothedTR a ⊘ p ⊕ tr in
      let sPlus := adx_smoothedDXPlus a ⊖ adx_smoothedDXPlus a ⊘ p ⊕ dmPlus in
      let sMinus := adx_smoothedDXMinus a ⊖ adx_smoothedDXMinus a ⊘ p ⊕ dmMinus in
      let dx := adx_dx sPlus sMinus sTR in
      let dxCount := match dx with Some _ => adx_dxCount a +! 1 | None => adx_dxCount a end in
      let seeding := dxCount <=? adx_period a in
      let sum := match dx with Some dx => if seeding then adx_sum a ⊕ dx else adx_sum a | None => adx_sum a end in {|
      adx_period := adx_period a; adx_smoothedDXPlus := sPlus; adx_smoothedDXMinus := sMinus; adx_smoothedTR := sTR;
      adx_sum := sum;
      adx_value := match dx with
                   | None => adx_value a
                   | Some dx =>
                       if seeding then (if dxCount =? adx_period a then sum ⊘ p else adx_value a)
                       else (adx_value a ⊗ (p ⊖ #1) ⊕ dx) ⊘ p
                   end;
      adx_prevCandle := candle; adx_count := count; adx_dxCount := dxCount |}.

Definition ADX_Ready (a : ADX) : bool := adx_period a <=? adx_dxCount a.
Definition ADX_Reset (a : ADX) : ADX := NewADX (adx_period a).

#[global] Instance ADX_indicator : Indicator ADX := {
  ind_Name := "ADX"; Update c a := Some (ADX_Update c a); Value := adx_value; Ready := ADX_Ready;
  Peek _ a := Some (adx_value a) }.

Definition ADX_Restore (snap : IndicatorSnapshot) (a : ADX) : ADX := {|
  adx_period := is_Period snap; adx_smoothedDXPlus := adx_smoothedDXPlus a; adx_smoothedDXMinus := adx_smoothedDXMinus a;
  adx_smoothedTR := adx_smoothedTR a; adx_sum := is_Sum snap; adx_value := is_Current snap;
  adx_prevCandle := adx_prevCandle a; adx_count := is_Count snap; adx_dxCount := adx_dxCount a |}.

#[global] Instance ADX_snapshottable : Snapshottable ADX := {
  Snapshot a := plain_snapshot "ADX" (adx_period a) (adx_count a) (adx_sum a) (adx_value a);
  RestoreFromSnapshot snap a := Some (ADX_Restore snap a) }.

(** ** VWAP (vwap.go) *)

Record VWAP := { vw_cumPriceVolume : float64; vw_cumVolume : float64; vw_current : float64; vw_count : Z }.
Definition NewVWAP : VWAP := {| vw_cumPriceVolume := f64_zero; vw_cumVolume := f64_zero; vw_current := f64_zero; vw_count := 0 |}.

Definition VWAP_Update (candle : Candle) (v : VWAP) : VWAP :=
  let typicalPrice := #(c_High candle +! c_Low candle +! c_Close candle) ⊘ #3 in
  let vol := #(c_Volume candle) in
  let vol := if f64_eqb vol f64_zero then #1 else vol in
  let pv := vw_cumPriceVolume v ⊕ typicalPrice ⊗ vol in
  let cv := vw_cumVolume v ⊕ vol in {|
  vw_cumPriceVolume := pv; vw_cumVolume := cv; vw_current := if f64_zero <. cv then pv ⊘ cv else vw_current v;
  vw_count := vw_count v +! 1 |}.

#[global] Instance VWAP_indicator : Indicator VWAP := {
  ind_Name := "VWAP"; Update c v := Some (VWAP_Update c v); Value := vw_current; Ready v := 1 <=? vw_count v;
  Peek _ v := Some (vw_current v) }.

Definition VWAP_Restore (snap : IndicatorSnapshot) (v : VWAP) : VWAP := {|
  vw_cumPriceVolume := is_Sum snap; vw_cumVolume := vw_cumVolume v; vw_current := is_Current snap; vw_count := is_Count snap |}.

#[global] Instance VWAP_snapshottable : Snapshottable VWAP := {
  Snapshot v := plain_snapshot "VWAP" 0 (vw_count v) (vw_cumPriceVolume v) (vw_current v);
  RestoreFromSnapshot snap v := Some (VWAP_Restore snap v) }.

(** ** Bollinger bands (bollinger.go) *)

Record Bollinger := {
  bb_period : Z; bb_multiplier : float64; bb_buf : list float64; bb_idx : Z; bb_count : Z; bb_sum : float64;
  bb_middle : float64; bb_upper : float64; bb_lower : float64; bb_bandwidth : float64; bb_prevBandwidth : float64 }.

Definition NewBollinger (period : Z) (multiplier : float64) : option Bollinger :=
  buf ← make_floats period;
  Some {| bb_period := period; bb_multiplier := multiplier; bb_buf := buf; bb_idx := 0; bb_count := 0; bb_sum := f64_zero;
          bb_middle := f64_zero; bb_upper := f64_zero; bb_lower := f64_zero; bb_bandwidth := f64_zero;
          bb_prevBandwidth := f64_zero |}.

Definition Bollinger_Update (candle : Candle) (b : Bollinger) : option Bollinger :=
  let price := #(c_Close candle) in
  let count := bb_count b +! 1 in
  old ← at_index (bb_buf b) (bb_idx b);
  buf ← set_index (bb_buf b) (bb_idx b) price;
  let sum := bb_sum b ⊖ old ⊕ price in
  if bb_period b =? 0 then None
  else
    let idx := (bb_idx b +! 1) %! bb_period b in
    if count <? bb_period b then
      Some {| bb_period := bb_period b; bb_multiplier := bb_multiplier b; bb_buf := buf; bb_idx := idx; bb_count := count;
              bb_sum := sum; bb_middle := bb_middle b; bb_upper := bb_upper b; bb_lower := bb_lower b;
              bb_bandwidth := bb_bandwidth b; bb_prevBandwidth := bb_prevBandwidth b |}
    else
      let middle := sum ⊘ #(bb_period b) in
      let variance := foldl (λ acc v, let d := v ⊖ middle in acc ⊕ d ⊗ d) f64_zero buf ⊘ #(bb_period b) in
      let stdDev := f64_sqrt variance in
      let upper := middle ⊕ bb_multiplier b ⊗ stdDev in
      let lower := middle ⊖ bb_multiplier b ⊗ stdDev in
      Some {| bb_period := bb_period b; bb_multiplier := bb_multiplier b; bb_buf := buf; bb_idx := idx; bb_count := count;
              bb_sum := sum; bb_middle := middle; bb_upper := upper; bb_lower := lower;
              bb_bandwidth := if f64_eqb middle f64_zero then bb_bandwidth b else (upper ⊖ lower) ⊘ middle ⊗ #100;
              bb_prevBandwidth := bb_bandwidth b |}.

Definition Bollinger_Ready (b : Bollinger) : bool := bb_period b <=? bb_count b.
Definition IsSqueezing (threshold : float64) (b : Bollinger) : bool := Bollinger_Ready b && (bb_bandwidth b <. threshold).
Definition IsSqueezeReleasing (threshold : float64) (b : Bollinger) : bool :=
  Bollinger_Ready b && (bb_prevBandwidth b <. threshold) && f64_leb threshold (bb_bandwidth b).
Definition BandwidthExpanding (b : Bollinger) : bool := Bollinger_Ready b && (bb_prevBandwidth b <. bb_bandwidth b).

#[global] Instance Bollinger_indicator : Indicator Bollinger := {
  ind_Name := "BB"; Update := Bollinger_Update; Value := bb_middle; Ready := Bollinger_Ready;
  Peek _ b := Some (bb_middle b) }.

Definition Bollinger_Restore (snap : IndicatorSnapshot) (b : Bollinger) : option Bollinger :=
  buf ← make_floats (is_Period snap);
  Some {| bb_period := is_Period snap; bb_multiplier := bb_multiplier b; bb_buf := buf; bb_idx := bb_idx b;
          bb_count := is_Count snap; bb_sum := is_Sum snap; bb_middle := is_Current snap; bb_upper := bb_upper b;
          bb_lower := bb_lower b; bb_bandwidth := bb_bandwidth b; bb_prevBandwidth := bb_prevBandwidth b |}.

#[global] Instance Bollinger_snapshottable : Snapshottable Bollinger := {
  Snapshot b := plain_snapshot "BB" (bb_period b) (bb_count b) (bb_sum b) (bb_middle b);
  RestoreFromSnapshot := Bollinger_Restore }.
