(* ===== verification/IndicatorEngine.v ===== *)
(** The indicator engine (internal/indicator: engine.go, snapshot.go,
    reload.go, restorer.go).  The three parallel slices of a
    [tokenIndicators] are one list of slots; a snapshot is what its JSON
    carries.  Instances a reload shares between equal entries of one
    configuration are not modelled: configurations list no entry twice. *)
From S2P Require Import Prelude Float64 GoText Model Indicators.
#[local] Open Scope Z_scope.
#[local] Open Scope go_scope.

(** ** Any indicator *)

Inductive AnyIndicator :=
  | AnySMA (i : SMA) | AnyEMA (i : EMA) | AnySMMA (i : SMMA) | AnyRSI (i : RSI)
  | AnyADX (i : ADX) | AnyATR (i : ATR) | AnyVWAP (i : VWAP) | AnyBollinger (i : Bollinger).

Definition any_name (a : AnyIndicator) : string :=
  match a with
  | AnySMA _ => ind_Name SMA | AnyEMA _ => ind_Name EMA | AnySMMA _ => ind_Name SMMA | AnyRSI _ => ind_Name RSI
  | AnyADX _ => ind_Name ADX | AnyATR _ => ind_Name ATR | AnyVWAP _ => ind_Name VWAP | AnyBollinger _ => ind_Name Bollinger
  end.

Definition any_update (c : Candle) (a : AnyIndicator) : option AnyIndicator :=
  match a with
  | AnySMA i => AnySMA <$> Update c i | AnyEMA i => AnyEMA <$> Update c i | AnySMMA i => AnySMMA <$> Update c i
  | AnyRSI i => AnyRSI <$> Update c i | AnyADX i => AnyADX <$> Update c i | AnyATR i => AnyATR <$> Update c i
  | AnyVWAP i => AnyVWAP <$> Update c i | AnyBollinger i => AnyBollinger <$> Update c i
  end.

Definition any_value (a : AnyIndicator) : float64 :=
  match a with
  | AnySMA i => Value i | AnyEMA i => Value i | AnySMMA i => Value i | AnyRSI i => Value i
  | AnyADX i => Value i | AnyATR i => Value i | AnyVWAP i => Value i | AnyBollinger i => Value i
  end.

Definition any_ready (a : AnyIndicator) : bool :=
  match a with
  | AnySMA i => Ready i | AnyEMA i => Ready i | AnySMMA i => Ready i | AnyRSI i => Ready i
  | AnyADX i => Ready i | AnyATR i => Ready i | AnyVWAP i => Ready i | AnyBollinger i => Ready i
  end.

Definition any_peek (p : Z) (a : AnyIndicator) : option float64 :=
  match a with
  | AnySMA i => Peek p i | AnyEMA i => Peek p i | AnySMMA i => Peek p i | AnyRSI i => Peek p i
  | AnyADX i => Peek p i | AnyATR i => Peek p i | AnyVWAP i => Peek p i | AnyBollinger i => Peek p i
  end.

Definition any_snapshot (a : AnyIndicator) : IndicatorSnapshot :=
  match a with
  | AnySMA i => Snapshot i | AnyEMA i => Snapshot i | AnySMMA i => Snapshot i | AnyRSI i => Snapshot i
  | AnyADX i => Snapshot i | AnyATR i => Snapshot i | AnyVWAP i => Snapshot i | AnyBollinger i => Snapshot i
  end.

Definition any_restore (snap : IndicatorSnapshot) (a : AnyIndicator) : option AnyIndicator :=
  match a with
  | AnySMA i => AnySMA <$> RestoreFromSnapshot snap i | AnyEMA i => AnyEMA <$> RestoreFromSnapshot snap i
  | AnySMMA i => AnySMMA <$> RestoreFromSnapshot snap i | AnyRSI i => AnyRSI <$> RestoreFromSnapshot snap i
  | AnyADX i => AnyADX <$> RestoreFromSnapshot snap i | AnyATR i => AnyATR <$> RestoreFromSnapshot snap i
  | AnyVWAP i => AnyVWAP <$> RestoreFromSnapshot snap i | AnyBollinger i => AnyBollinger <$> RestoreFromSnapshot snap i
  end.

(** ** The engine (engine.go) *)

Record IndicatorConfig := { ic_Type : string; ic_Period : Z }.
Record TFIndicatorConfig := { tc_TF : Z; tc_Indicators : list IndicatorConfig }.

#[global] Instance IndicatorConfig_eq_dec : EqDecision IndicatorConfig.
Proof. solve_decision. Defined.

(** One index of [indicators], [configs] and [lastTS]. *)
Record slot := { sl_ind : AnyIndicator; sl_config : IndicatorConfig; sl_lastTS : Time }.
Abbreviation tokenIndicators := (list slot) (only parsing).

Record Engine := {
  en_configs : list TFIndicatorConfig;
  en_state : list (gmap string tokenIndicators);
  en_tfIndex : gmap Z nat;
}.

Definition tf_index (configs : list TFIndicatorConfig) : gmap Z nat :=
  foldl (λ m '(i, c), <[tc_TF c := i]> m) ∅ (imap pair configs).

Definition NewEngine (configs : list TFIndicatorConfig) : Engine := {|
  en_configs := configs; en_state := replicate (length configs) ∅; en_tfIndex := tf_index configs |}.

Definition new_indicator (ic : IndicatorConfig) : option AnyIndicator :=
  let t := ic_Type ic in
  let p := ic_Period ic in
  if String.eqb t "SMA" then AnySMA <$> NewSMA p
  else if String.eqb t "EMA" then Some (AnyEMA (NewEMA p))
  else if String.eqb t "SMMA" then Some (AnySMMA (NewSMMA p))
  else if String.eqb t "RSI" then Some (AnyRSI (NewRSI p))
  else if String.eqb t "ADX" then Some (AnyADX (NewADX p))
  else if String.eqb t "ATR" then Some (AnyATR (NewATR p))
  else if String.eqb t "VWAP" then Some (AnyVWAP NewVWAP)
  else if String.eqb t "BOLLINGER" then AnyBollinger <$> NewBollinger p #2
  else AnySMA <$> NewSMA p.

Definition createTokenIndicators (cfg : TFIndicatorConfig) : option tokenIndicators :=
  mapM (λ ic, i ← new_indicator ic; Some {| sl_ind := i; sl_config := ic; sl_lastTS := zero_time |}) (tc_Indicators cfg).

(** [model.Candle] of a TF candle, as [Process] builds it. *)
Definition candle_of (tfc : TFCandle) : Candle := {|
  c_Token := tfc_Token tfc; c_Exchange := tfc_Exchange tfc; c_TS := tfc_TS tfc; c_Open := tfc_Open tfc;
  c_High := tfc_High tfc; c_Low := tfc_Low tfc; c_Close := tfc_Close tfc; c_Volume := tfc_Volume tfc; c_TicksCount := 0 |}.

(** A candle at or before the slot's last one is a replay. *)
Definition slot_replay (ts : Time) (s : slot) : bool := negb (t_is_zero (sl_lastTS s)) && negb (t_after ts (sl_lastTS s)).

Definition slot_update (tfc : TFCandle) (s : slot) : option (option IndicatorResult * slot) :=
  if slot_replay (tfc_TS tfc) s then Some (None, s)
  else
    i ← any_update (candle_of tfc) (sl_ind s);
    Some (Some {| ir_Name := any_name i +:+ "_" +:+ Itoa (ic_Period (sl_config s)); ir_Token := tfc_Token tfc;
                  ir_Exchange := tfc_Exchange tfc; ir_TF := tfc_TF tfc; ir_Value := any_value i; ir_TS := tfc_TS tfc;
                  ir_Ready := any_ready i; ir_Live := false |},
          {| sl_ind := i; sl_config := sl_config s; sl_lastTS := tfc_TS tfc |}).

Definition slots_update (tfc : TFCandle) (ti : tokenIndicators) : option (list IndicatorResult * tokenIndicators) :=
  l ← mapM (slot_update tfc) ti;
  Some (omap fst l, l.*2).

(** The state of a TF: [e.state[i]]. *)
Definition tf_state (i : nat) (e : Engine) : gmap string tokenIndicators := default ∅ (en_state e !! i).
Definition set_token (i : nat) (key : string) (ti : tokenIndicators) (e : Engine) : Engine := {|
  en_configs := en_configs e; en_state := alter <[key := ti]> i (en_state e); en_tfIndex := en_tfIndex e |}.

Definition Process (tfc : TFCandle) (e : Engine) : option (list IndicatorResult * Engine) :=
  match en_tfIndex e !! tfc_TF tfc with
  | None => Some ([], e)
  | Some i =>
      let key := TFCandle_Key tfc in
      ti ← (match tf_state i e !! key with
            | Some ti => Some ti
            | None => cfg ← en_configs e !! i; createTokenIndicators cfg
            end);
      '(results, ti) ← slots_update tfc ti;
      Some (results, set_token i key ti e)
  end.

Definition IsReplay (tfc : TFCandle) (e : Engine) : bool :=
  match en_tfIndex e !! tfc_TF tfc with
  | None => false
  | Some i =>
      match tf_state i e !! TFCandle_Key tfc with
      | None => false
      | Some ti => negb (bool_decide (length ti = 0%nat)) && forallb (slot_replay (tfc_TS tfc)) ti
      end
  end.

Definition ProcessPeek (tfc : TFCandle) (e : Engine) : option (list IndicatorResult) :=
  match en_tfIndex e !! tfc_TF tfc with
  | None => Some []
  | Some i =>
      match tf_state i e !! TFCandle_Key tfc with
      | None => Some []
      | Some ti =>
          mapM (λ s, v ← any_peek (tfc_Close tfc) (sl_ind s);
            Some {| ir_Name := any_name (sl_ind s) +:+ "_" +:+ Itoa (ic_Period (sl_config s)); ir_Token := tfc_Token tfc;
                    ir_Exchange := tfc_Exchange tfc; ir_TF := tfc_TF tfc; ir_Value := v; ir_TS := tfc_TS tfc;
                    ir_Ready := any_ready (sl_ind s); ir_Live := true |}) ti
      end
  end.

(** [Run]: closed candles are processed, results a full channel has no room
    for are dropped. *)
Definition run_candle (tfc : TFCandle) (e : Engine) (resultCh : chan IndicatorResult) : option (Engine * chan IndicatorResult) :=
  if tfc_Forming tfc then Some (e, resultCh)
  else
    '(results, e) ← Process tfc e;
    Some (e, foldl (λ ch r, default ch (try_send ch r)) resultCh results).

(** ** Snapshot and restore (snapshot.go) *)

Record TokenSnapshot := { tn_Token : string; tn_Exchange : string; tn_TF : Z; tn_Indicators : list IndicatorSnapshot }.
Record EngineSnapshot := { es_StreamID : string; es_StreamIDs : gmap string string; es_Tokens : list TokenSnapshot; es_Version : Z }.

Definition set_last_ts (ts : Z) (s : IndicatorSnapshot) : IndicatorSnapshot := {|
  is_Type := is_Type s; is_Period := is_Period s; is_Buf := is_Buf s; is_Idx := is_Idx s; is_Count := is_Count s;
  is_Sum := is_Sum s; is_Current := is_Current s; is_Multiplier := is_Multiplier s; is_PrevClose := is_PrevClose s;
  is_AvgGain := is_AvgGain s; is_AvgLoss := is_AvgLoss s; is_LastTS := ts |}.

Definition slot_snapshot (s : slot) : IndicatorSnapshot :=
  let snap := any_snapshot (sl_ind s) in
  if t_is_zero (sl_lastTS s) then snap else set_last_ts (t_unix (sl_lastTS s)) snap.

(** The key split at its first ':'; without one, or with nothing before it,
    it is all token. *)
Definition token_snapshot (tf : Z) (tokenKey : string) (ti : tokenIndicators) : TokenSnapshot :=
  let '(before, after, found) := cut_at ":" tokenKey in
  let whole := negb found || String.eqb before "" in {|
  tn_Token := if whole then tokenKey else after; tn_Exchange := if whole then "" else before; tn_TF := tf;
  tn_Indicators := slot_snapshot <$> ti |}.

Definition SnapshotEngine `{MO : MapOrder} (e : Engine) (streamID : string) : EngineSnapshot := {|
  es_StreamID := streamID; es_StreamIDs := ∅;
  es_Tokens := concat (zip_with (λ cfg st, (λ '(k, ti), token_snapshot (tc_TF cfg) k ti) <$> range st) (en_configs e) (en_state e));
  es_Version := 2 |}.

Definition lookup_key (type : string) (period : Z) : string := type +:+ ":" +:+ Itoa period.

(** The indicators of a token's snapshot, by type and period. *)
Definition snap_lookup (snaps : list IndicatorSnapshot) : gmap string IndicatorSnapshot :=
  foldl (λ m s, <[lookup_key (is_Type s) (is_Period s) := s]> m) ∅ snaps.

Definition slot_restore (snaps : gmap string IndicatorSnapshot) (s : slot) : option slot :=
  match snaps !! lookup_key (ic_Type (sl_config s)) (ic_Period (sl_config s)) with
  | None => Some s
  | Some snap =>
      i ← any_restore snap (sl_ind s);
      Some {| sl_ind := i; sl_config := sl_config s;
              sl_lastTS := if 0 <? is_LastTS snap then t_of_unix (is_LastTS snap) else sl_lastTS s |}
  end.

(** The first configuration of a TF. *)
Fixpoint find_tf (tf : Z) (configs : list TFIndicatorConfig) : option nat :=
  match configs with
  | [] => None
  | c :: cs => if tc_TF c =? tf then Some 0%nat else S <$> find_tf tf cs
  end.

Definition restore_token (ts : TokenSnapshot) (e : Engine) : option Engine :=
  match find_tf (tn_TF ts) (en_configs e) with
  | None => Some e
  | Some i =>
      cfg ← en_configs e !! i;
      ti ← createTokenIndicators cfg;
      ti ← mapM (slot_restore (snap_lookup (tn_Indicators ts))) ti;
      let key := if String.eqb (tn_Exchange ts) "" then tn_Token ts else tn_Exchange ts +:+ ":" +:+ tn_Token ts in
      Some (set_token i key ti e)
  end.

Definition RestoreEngine (configs : list TFIndicatorConfig) (snap : EngineSnapshot) : option Engine :=
  foldl (λ e ts, e ← e; restore_token ts e) (Some (NewEngine configs)) (es_Tokens snap).

(** [Restorer.RestoreFromSnap]. *)
Definition RestoreFromSnap (configs : list TFIndicatorConfig) (snap : option EngineSnapshot) : option Engine :=
  match snap with None => Some (NewEngine configs) | Some snap => RestoreEngine configs snap end.

(** ** Reload (reload.go) *)

Definition config_key (ic : IndicatorConfig) : string := ic_Type ic +:+ "_" +:+ Itoa (ic_Period ic).

Definition indicatorSetsEqual (a b : list IndicatorConfig) : bool :=
  if negb (Nat.eqb (length a) (length b)) then false
  else
    let setA : gset string := list_to_set (config_key <$> a) in
    forallb (λ ic, bool_decide (config_key ic ∈ setA)) b.

(** The last of a token's slots with the given key. *)
Definition slots_by_key (ti : tokenIndicators) : gmap string slot :=
  foldl (λ m s, <[config_key (sl_config s) := s]> m) ∅ ti.

Definition fresh_on_reload (ic : IndicatorConfig) : option AnyIndicator :=
  let t := ic_Type ic in
  let p := ic_Period ic in
  if String.eqb t "SMA" then AnySMA <$> NewSMA p
  else if String.eqb t "EMA" then Some (AnyEMA (NewEMA p))
  else if String.eqb t "SMMA" then Some (AnySMMA (NewSMMA p))
  else if String.eqb t "RSI" then Some (AnyRSI (NewRSI p))
  else AnySMA <$> NewSMA p.

Definition migrateTokenIndicators (oldTI : tokenIndicators) (newConfigs : list IndicatorConfig) : option tokenIndicators :=
  let oldByKey := slots_by_key oldTI in
  mapM (λ ic,
    match oldByKey !! config_key ic with
    | Some s => Some {| sl_ind := sl_ind s; sl_config := ic; sl_lastTS := sl_lastTS s |}
    | None => i ← fresh_on_reload ic; Some {| sl_ind := i; sl_config := ic; sl_lastTS := zero_time |}
    end) newConfigs.

(** The configuration and the state of a TF before the reload: the last of
    that TF. *)
Definition old_of_tf (tf : Z) (e : Engine) : option (TFIndicatorConfig * gmap string tokenIndicators) :=
  foldl (λ acc cs, if tc_TF cs.1 =? tf then Some cs else acc) None (zip (en_configs e) (en_state e)).

(** One TF of the new configuration: its state, and how many instances were
    preserved and created. *)
Definition reload_tf (e : Engine) (newCfg : TFIndicatorConfig) : option (gmap string tokenIndicators * Z * Z) :=
  match old_of_tf (tc_TF newCfg) e with
  | None => Some (∅, 0, 1)
  | Some (oldCfg, oldTFState) =>
      if indicatorSetsEqual (tc_Indicators oldCfg) (tc_Indicators newCfg) then Some (oldTFState, Z.of_nat (size oldTFState), 0)
      else
        migrated ← map_fold (λ k ti acc, m ← acc; ti ← migrateTokenIndicators ti (tc_Indicators newCfg); Some (<[k := ti]> m))
          (Some ∅) oldTFState;
        Some (migrated, Z.of_nat (size oldTFState), 1)
  end.

Definition ReloadConfigs (newConfigs : list TFIndicatorConfig) (e : Engine) : option (Z * Z * Engine) :=
  l ← mapM (reload_tf e) newConfigs;
  Some (foldr (λ r n, r.1.2 + n) 0 l, foldr (λ r n, r.2 + n) 0 l,
        {| en_configs := newConfigs; en_state := (λ r, r.1.1) <$> l; en_tfIndex := tf_index newConfigs |}).

Definition known_type (t : string) : bool :=
  String.eqb t "SMA" || String.eqb t "EMA" || String.eqb t "SMMA" || String.eqb t "RSI".

(** The first error of a TF's indicators. *)
Fixpoint validate_indicators (tf : Z) (ics : list IndicatorConfig) : option string :=
  match ics with
  | [] => None
  | ic :: ics =>
      if negb (known_type (ic_Type ic)) then
        Some ("unknown indicator type " +:+ format_q (ic_Type ic) +:+ " for TF=" +:+ format_int tf)
      else if ic_Period ic <=? 0 then
        Some ("invalid period=" +:+ format_int (ic_Period ic) +:+ " for " +:+ ic_Type ic +:+ " on TF=" +:+ format_int tf)
      else validate_indicators tf ics
  end.

Fixpoint validate_loop (seen : list Z) (configs : list TFIndicatorConfig) : option string :=
  match configs with
  | [] => None
  | c :: cs =>
      if tc_TF c <=? 0 then Some ("invalid TF=" +:+ format_int (tc_TF c) +:+ ": must be positive")
      else if bool_decide (tc_TF c ∈ seen) then Some ("duplicate TF=" +:+ format_int (tc_TF c))
      else match validate_indicators (tc_TF c) (tc_Indicators c) with
           | Some e => Some e
           | None => validate_loop (tc_TF c :: seen) cs
           end
  end.

Definition ValidateConfigs (configs : list TFIndicatorConfig) : option string := validate_loop [] configs.

(** ** Catching up (restorer.go) *)

Definition ReplayCandles (candles : list TFCandle) (e : Engine) : option (Z * Engine) :=
  foldl (λ acc tfc, '(n, e) ← acc;
    if tfc_Forming tfc then Some (n, e) else '(_, e) ← Process tfc e; Some (n +! 1, e)) (Some (0, e)) candles.

Definition close_candle (c : TFCandle) : TFCandle := {|
  tfc_Token := tfc_Token c; tfc_Exchange := tfc_Exchange c; tfc_TF := tfc_TF c; tfc_TS := tfc_TS c; tfc_Open := tfc_Open c;
  tfc_High := tfc_High c; tfc_Low := tfc_Low c; tfc_Close := tfc_Close c; tfc_Volume := tfc_Volume c;
  tfc_Count := tfc_Count c; tfc_Forming := false |}.

Definition maxPeriod (configs : list TFIndicatorConfig) : Z :=
  foldl (λ m cfg, foldl (λ m ic, if m <? ic_Period ic then ic_Period ic else m) m (tc_Indicators cfg)) 0 configs.

(** [BackfillFromSQLite]: the reader gives a TF's recent candles or fails;
    the batches of results go to the hook, here a log. *)
Definition BackfillFromSQLite (configs : list TFIndicatorConfig) (reader : option (Z → Z → option (list TFCandle))) (e : Engine) :
    option (Z * list (list IndicatorResult) * Engine) :=
  match reader with
  | None => Some (0, [], e)
  | Some read =>
      let n := maxPeriod configs in
      if n =? 0 then Some (0, [], e)
      else foldl (λ acc cfg, '(total, log, e) ← acc;
        match read (tc_TF cfg) n with
        | None => Some (total, log, e)
        | Some candles =>
            foldl (λ acc tfc, '(total, log, e) ← acc;
              '(results, e) ← Process (close_candle tfc) e;
              Some (total +! 1, if bool_decide (length results = 0%nat) then log else log ++ [results], e))
              (Some (total, log, e)) candles
        end) (Some (0, [], e)) configs
  end.
