(* ===== verification/IndicatorRecovery.v ===== *)
(** Restarting the indicator engine: a snapshot restores every indicator
    exactly, and redelivered candles change nothing, so a restart with a
    replay of the stream computes what no restart would have. *)
From S2P Require Import Prelude Float64 GoText Model Indicators IndicatorEngine.
#[local] Open Scope Z_scope.
#[local] Open Scope go_scope.

(** ** Well-formed indicators and engines *)

Definition config_ok (ic : IndicatorConfig) : Prop := known_type (ic_Type ic) = true ∧ 0 < ic_Period ic <= max_i64.

Definition sma_ok (p : Z) (s : SMA) : Prop := sma_period s = p ∧ Z.of_nat (length (sma_buf s)) = p ∧ 0 <= sma_idx s < p.

(** An indicator of its configuration. *)
Definition ind_ok (ic : IndicatorConfig) (a : AnyIndicator) : Prop :=
  match a with
  | AnySMA i => ic_Type ic = "SMA" ∧ sma_ok (ic_Period ic) i
  | AnyEMA i => ic_Type ic = "EMA" ∧ ema_period i = ic_Period ic ∧ ema_multiplier i = #2 ⊘ #(ic_Period ic +! 1)
  | AnySMMA i => ic_Type ic = "SMMA" ∧ smma_period i = ic_Period ic
  | AnyRSI i => ic_Type ic = "RSI" ∧ rsi_period i = ic_Period ic
  | _ => False
  end.

Definition slot_ok (s : slot) : Prop :=
  config_ok (sl_config s) ∧ ind_ok (sl_config s) (sl_ind s) ∧ ∃ u, 0 < u ∧ sl_lastTS s = t_of_unix u.

Lemma make_floats_pos n : 0 <= n → make_floats n = Some (replicate (Z.to_nat n) f64_zero).
Proof. intros Hn. unfold make_floats. by rewrite (proj2 (Z.ltb_ge n 0)) by lia. Qed.

Lemma new_indicator_ok ic : config_ok ic → ∃ a, new_indicator ic = Some a ∧ ind_ok ic a.
Proof.
  intros [Ht Hp]. unfold new_indicator, known_type in *.
  destruct (String.eqb_spec (ic_Type ic) "SMA"); simpl.
  { unfold NewSMA. rewrite make_floats_pos by lia. simpl. eexists. split; [done|]. split; [done|].
    split; simpl; [done|]. rewrite length_replicate. lia. }
  destruct (String.eqb_spec (ic_Type ic) "EMA"); simpl; [by eexists|].
  destruct (String.eqb_spec (ic_Type ic) "SMMA"); simpl; [by eexists|].
  destruct (String.eqb_spec (ic_Type ic) "RSI"); simpl; [by eexists|done].
Qed.

Lemma set_index_ok buf i x : 0 <= i < Z.of_nat (length buf) → set_index buf i x = Some (<[Z.to_nat i := x]> buf).
Proof. intros Hi. unfold set_index. rewrite (proj2 (Z.ltb_ge i 0)), (proj2 (Z.leb_gt _ _)) by lia. done. Qed.

Lemma at_index_ok buf i : 0 <= i < Z.of_nat (length buf) → ∃ x, at_index buf i = Some x.
Proof.
  intros Hi. unfold at_index. rewrite (proj2 (Z.ltb_ge i 0)) by lia. apply lookup_lt_is_Some. lia.
Qed.

(** An update does not panic and keeps the indicator well formed. *)
Lemma any_update_ok ic c a : config_ok ic → ind_ok ic a → ∃ a', any_update c a = Some a' ∧ ind_ok ic a'.
Proof.
  intros [_ Hp] Ha. destruct a as [s|e|s|r| | | |]; try done; simpl in *.
  - destruct Ha as (Ht & Hper & Hlen & Hidx). unfold SMA_Update.
    rewrite (proj2 (Z.eqb_neq (sma_period s) 0)), bool_decide_eq_false_2 by lia. simpl.
    rewrite set_index_ok by lia. destruct (at_index_ok (sma_buf s) (sma_idx s)) as [old Hold]; [lia|].
    assert (∃ sum, (if sma_period s <=? sma_count s then old ← at_index (sma_buf s) (sma_idx s); Some (sma_sum s ⊖ old)
           else Some (sma_sum s)) = Some sum) as [sum ->] by (case_match; [rewrite Hold|]; by eexists).
    simpl. eexists. split; [reflexivity|]. split; [done|]. split; simpl; [done|].
    rewrite length_insert. split; [done|].
    rewrite i64_id by (i64_unfold; lia). rewrite <-Hper in *. apply Z.rem_bound_pos; lia.
  - destruct Ha as (? & ? & ?). eexists. split; [reflexivity|]. simpl. unfold EMA_Update. by repeat case_match.
  - destruct Ha as (? & ?). eexists. split; [reflexivity|]. simpl. unfold SMMA_Update. by repeat case_match.
  - destruct Ha as (? & ?). eexists. split; [reflexivity|]. simpl. unfold RSI_Update. by repeat case_match.
Qed.

(** A snapshot names its configuration, and restores the indicator over any
    other of the same configuration. *)
Lemma any_snapshot_key ic a : ind_ok ic a → is_Type (any_snapshot a) = ic_Type ic ∧ is_Period (any_snapshot a) = ic_Period ic.
Proof. destruct a; simpl; try done; [intros (-> & -> & _)|intros (-> & -> & _)|intros (-> & ->)|intros (-> & ->)]; done. Qed.

Lemma any_restore_ok ic ts a fresh :
  config_ok ic → ind_ok ic a → ind_ok ic fresh → any_restore (set_last_ts ts (any_snapshot a)) fresh = Some a.
Proof.
  intros [_ Hp] Ha Hf. destruct a as [s|e|s|r| | | |], fresh; try done; simpl in *; try (by destruct Ha, Hf; congruence).
  - destruct Ha as (_ & Hper & Hlen & _). unfold SMA_Restore. simpl. rewrite bool_decide_eq_false_2 by lia. simpl.
    by destruct s.
  - destruct Ha as (_ & Hper & Hmul). unfold EMA_Restore. simpl. rewrite (proj2 (Z.leb_gt _ _)) by lia.
    destruct e; simpl in *. subst. by destruct (f64_leb _ _).
  - by destruct s.
  - by destruct r.
Qed.

(** ** Keys *)

Lemma itoa_pretty n : 0 < n <= max_i64 → Itoa n = pretty n.
Proof. intros Hn. destruct n as [|p|p]; [lia| |lia]. unfold Itoa. simpl Z.eqb. cbv iota. apply itoa_20. lia. Qed.

Lemma lookup_key_inj ic ic' :
  config_ok ic → config_ok ic' → lookup_key (ic_Type ic) (ic_Period ic) = lookup_key (ic_Type ic') (ic_Period ic') → ic = ic'.
Proof.
  intros [Ht Hp] [Ht' Hp']. unfold lookup_key. rewrite !itoa_pretty by done.
  destruct ic as [t p], ic' as [t' p']; simpl in *. unfold known_type in *.
  rewrite !orb_true_iff, !String.eqb_eq in *. intros Heq.
  destruct Ht as [[[->| ->]| ->]| ->], Ht' as [[[->| ->]| ->]| ->]; simpl in Heq; try discriminate;
    simplify_eq Heq; intros ?; f_equal; by apply (inj pretty).
Qed.

Lemma slot_snapshot_ok s :
  slot_ok s → slot_snapshot s = set_last_ts (t_unix (sl_lastTS s)) (any_snapshot (sl_ind s)) ∧
    is_Type (slot_snapshot s) = ic_Type (sl_config s) ∧ is_Period (slot_snapshot s) = ic_Period (sl_config s).
Proof.
  intros (Hc & Hi & u & Hu & Hts). unfold slot_snapshot. rewrite Hts.
  assert (t_is_zero (t_of_unix u) = false) as -> by (unfold t_is_zero, t_of_unix, zero_time, Second; lia).
  destruct (any_snapshot_key _ _ Hi). by repeat split.
Qed.

(** ** A token's slots *)

Record slots_ok (cfg : TFIndicatorConfig) (ti : list slot) : Prop := {
  so_configs : sl_config <$> ti = tc_Indicators cfg;
  so_slots : Forall slot_ok ti;
}.

Definition tf_config_ok (cfg : TFIndicatorConfig) : Prop := Forall config_ok (tc_Indicators cfg) ∧ NoDup (tc_Indicators cfg).

Lemma create_ok cfg : tf_config_ok cfg →
  ∃ ti, createTokenIndicators cfg = Some ti ∧ sl_config <$> ti = tc_Indicators cfg ∧
    Forall (λ s, config_ok (sl_config s) ∧ ind_ok (sl_config s) (sl_ind s) ∧ sl_lastTS s = zero_time) ti.
Proof.
  intros [Hok _]. unfold createTokenIndicators. induction Hok as [|ic l Hic _ IH]; [by eexists []|].
  destruct (new_indicator_ok ic Hic) as (a & Ha & Hi). destruct IH as (ti & Hm & Hcfg & Hall).
  eexists. simpl. rewrite Ha. simpl. rewrite Hm. simpl. split; [reflexivity|]. simpl. split; [by f_equal|].
  by apply Forall_cons.
Qed.

(** The restored slots are the ones snapshotted. *)
Lemma slots_restore_ok cfg ti fresh :
  tf_config_ok cfg → slots_ok cfg ti → sl_config <$> fresh = tc_Indicators cfg →
  Forall (λ s, config_ok (sl_config s) ∧ ind_ok (sl_config s) (sl_ind s) ∧ sl_lastTS s = zero_time) fresh →
  mapM (slot_restore (snap_lookup (slot_snapshot <$> ti))) fresh = Some ti.
Proof.
  intros [Hcok Hnd] [Hcfg Hslots] Hfcfg Hfresh.
  assert (∀ s, s ∈ ti → snap_lookup (slot_snapshot <$> ti) !! lookup_key (ic_Type (sl_config s)) (ic_Period (sl_config s)) =
    Some (slot_snapshot s)) as Hlook.
  { intros s Hs. rewrite Forall_forall in Hslots. destruct (slot_snapshot_ok s (Hslots s Hs)) as (_ & <- & <-).
    apply (file_lookup (λ s, lookup_key (is_Type s) (is_Period s))); [|by apply list_elem_of_fmap_2].
    rewrite <-list_fmap_compose. rewrite <-Hcfg in Hnd. clear -Hnd Hslots.
    induction ti as [|x ti IH]; [constructor|]. simpl in *. apply NoDup_cons in Hnd as [Hx Hnd]. apply NoDup_cons. split.
    - intros (y & Heq & Hy)%list_elem_of_fmap. simpl in Heq. apply Hx.
      destruct (slot_snapshot_ok x) as (_ & Ht & Hp); [by apply Hslots; left|].
      destruct (slot_snapshot_ok y) as (_ & Ht' & Hp'); [by apply Hslots; right|]. rewrite Ht, Hp, Ht', Hp' in Heq.
      apply lookup_key_inj in Heq; [rewrite Heq; by apply list_elem_of_fmap_2|..].
      + by destruct (Hslots x) as [? _]; [left|].
      + by destruct (Hslots y) as [? _]; [right|].
    - apply IH; [done|intros s Hs; apply Hslots; by right]. }
  clear Hnd Hcok. rewrite <-Hfcfg in Hcfg. clear Hfcfg. revert Hlook.
  generalize (snap_lookup (slot_snapshot <$> ti)). intros m Hlook.
  revert fresh Hfresh Hcfg. induction Hslots as [|s ti Hs _ IH]; intros fresh Hfresh Hcfg.
  - by destruct fresh.
  - destruct fresh as [|f fresh]; [done|]. injection Hcfg as Hc Hcfg. apply Forall_cons in Hfresh as [(Hfc & Hfi & Hfz) Hfresh].
    assert (slot_restore m f = Some s) as Hone.
    { unfold slot_restore. rewrite <-Hc, Hlook by by left.
      destruct (slot_snapshot_ok s Hs) as (-> & _). destruct Hs as (Hsc & Hsi & u & Hu & Hts).
      rewrite <-Hc in Hfi. rewrite (any_restore_ok _ _ _ _ Hsc Hsi Hfi). simpl. rewrite Hts, t_unix_of_unix.
      rewrite (proj2 (Z.ltb_lt 0 u)) by done. rewrite <-Hts. by destruct s. }
    simpl. rewrite Hone. simpl. by rewrite IH; [|intros s' Hs'; apply Hlook; right|..].
Qed.

(** ** The engine *)

Definition configs_ok (configs : list TFIndicatorConfig) : Prop :=
  Forall tf_config_ok configs ∧ NoDup (tc_TF <$> configs).

Record engine_ok (configs : list TFIndicatorConfig) (e : Engine) : Prop := {
  eo_configs : en_configs e = configs;
  eo_index : en_tfIndex e = tf_index configs;
  eo_len : length (en_state e) = length configs;
  eo_tokens : ∀ i cfg m, configs !! i = Some cfg → en_state e !! i = Some m → map_Forall (λ _ ti, slots_ok cfg ti) m;
}.

Definition candle_ok (c : TFCandle) : Prop := tfc_Forming c = false ∧ ∃ u, 0 < u ∧ tfc_TS c = t_of_unix u.

Lemma tf_index_spec configs tf i :
  NoDup (tc_TF <$> configs) → tf_index configs !! tf = Some i ↔ ∃ cfg, configs !! i = Some cfg ∧ tc_TF cfg = tf.
Proof.
  unfold tf_index. revert i. induction configs as [|c cs IH] using rev_ind; intros i Hn.
  - simpl. rewrite lookup_empty. split; [done|]. by intros (? & ? & _).
  - rewrite imap_app, foldl_app. simpl. rewrite fmap_app in Hn. apply NoDup_app in Hn as (Hn & Hdis & _).
    rewrite Nat.add_0_r. destruct (decide (tc_TF c = tf)) as [<-|Hne].
    + rewrite lookup_insert_eq. split.
      * intros [= <-]. exists c. by rewrite list_lookup_middle.
      * intros (cfg & Hi & Htf). apply lookup_app_Some in Hi as [Hi|[Hle Hi]].
        -- exfalso. apply (Hdis (tc_TF cfg)); [apply list_elem_of_fmap_2; by eapply list_elem_of_lookup_2|].
           rewrite Htf. by apply list_elem_of_singleton.
        -- apply list_lookup_singleton_Some in Hi as [Hi _]. f_equal. lia.
    + rewrite lookup_insert_ne, IH by done. split; intros (cfg & Hi & Htf); exists cfg; (split; [|done]).
      * by apply lookup_app_l_Some.
      * apply lookup_app_Some in Hi as [Hi|[_ Hi]]; [done|]. apply list_lookup_singleton_Some in Hi as [_ <-]. done.
Qed.

Lemma find_tf_spec configs i cfg :
  NoDup (tc_TF <$> configs) → configs !! i = Some cfg → find_tf (tc_TF cfg) configs = Some i.
Proof.
  revert i. induction configs as [|c cs IH]; intros i Hn Hi; [done|]. simpl in *. apply NoDup_cons in Hn as [Hc Hn].
  destruct i as [|i]; simpl in Hi; [injection Hi as ->; by rewrite Z.eqb_refl|].
  rewrite (proj2 (Z.eqb_neq _ _)), (IH i) by (done || (intros Heq; apply Hc; rewrite Heq; apply list_elem_of_fmap_2;
    by eapply list_elem_of_lookup_2)). done.
Qed.

Lemma set_token_ok configs e i cfg key ti :
  engine_ok configs e → configs !! i = Some cfg → slots_ok cfg ti → engine_ok configs (set_token i key ti e).
Proof.
  intros [Hc Hi Hl Ht] Hcfg Hti. split; simpl; try done; [by rewrite length_alter|].
  intros j cfg' m Hj Hm. destruct (decide (i = j)) as [<-|Hne].
  - rewrite list_lookup_alter_eq in Hm. apply fmap_Some in Hm as (m0 & Hm0 & ->). simplify_eq.
    apply map_Forall_insert_2; [done|by apply (Ht i)].
  - rewrite list_lookup_alter_ne in Hm by done. by apply (Ht j).
Qed.

Lemma tf_state_lookup configs e i cfg :
  engine_ok configs e → configs !! i = Some cfg → en_state e !! i = Some (tf_state i e).
Proof.
  intros [_ _ Hl _] Hcfg. unfold tf_state. destruct (lookup_lt_is_Some_2 (en_state e) i) as [m ->]; [|done].
  rewrite Hl. by eapply lookup_lt_Some.
Qed.

(** A slot after a candle: it is updated and dated, or has seen it. *)
Lemma slot_update_ok tfc s :
  candle_ok tfc → config_ok (sl_config s) → ind_ok (sl_config s) (sl_ind s) →
  sl_lastTS s = zero_time ∨ (∃ u, 0 < u ∧ sl_lastTS s = t_of_unix u) →
  ∃ r s', slot_update tfc s = Some (r, s') ∧ sl_config s' = sl_config s ∧ slot_ok s' ∧
    tfc_TS tfc <= sl_lastTS s' ∧ (slot_ok s → sl_lastTS s <= sl_lastTS s').
Proof.
  intros [_ (u & Hu & Hts)] Hc Hi Hlast. unfold slot_update, slot_replay, t_after.
  destruct (t_is_zero (sl_lastTS s)) eqn:Hz; simpl; [|destruct (Z.ltb_spec (sl_lastTS s) (tfc_TS tfc)) as [Hlt|Hge]; simpl].
  - destruct (any_update_ok _ (candle_of tfc) _ Hc Hi) as (a & -> & Ha). simpl. eexists _, _. split; [reflexivity|].
    split; [done|]. split; [split; [done|split; [done|by exists u]]|]. split; [simpl; lia|].
    intros (_ & _ & v & Hv & Heq). unfold t_is_zero in Hz. apply Z.eqb_eq in Hz. simpl.
    rewrite Hz. unfold zero_time. rewrite Hts. unfold t_of_unix, Second. lia.
  - destruct (any_update_ok _ (candle_of tfc) _ Hc Hi) as (a & -> & Ha). simpl. eexists _, _. split; [reflexivity|].
    split; [done|]. split; [split; [done|split; [done|by exists u]]|]. simpl. lia.
  - eexists _, _. split; [reflexivity|]. split; [done|]. split; [|split; [done|lia]].
    destruct Hlast as [Hl|Hl]; [|done]. rewrite Hl in Hz. done.
Qed.

Lemma slots_update_ok cfg tfc ti :
  candle_ok tfc → sl_config <$> ti = tc_Indicators cfg →
  Forall (λ s, config_ok (sl_config s) ∧ ind_ok (sl_config s) (sl_ind s) ∧
    (sl_lastTS s = zero_time ∨ ∃ u, 0 < u ∧ sl_lastTS s = t_of_unix u)) ti →
  ∃ r ti', slots_update tfc ti = Some (r, ti') ∧ slots_ok cfg ti' ∧ Forall (λ s, tfc_TS tfc <= sl_lastTS s) ti' ∧
    Forall2 (λ s s', slot_ok s → sl_lastTS s <= sl_lastTS s') ti ti'.
Proof.
  intros Hc Hcfg Hall. unfold slots_update.
  enough (∃ l, mapM (slot_update tfc) ti = Some l ∧ sl_config <$> l.*2 = sl_config <$> ti ∧ Forall slot_ok l.*2 ∧
    Forall (λ s, tfc_TS tfc <= sl_lastTS s) l.*2 ∧ Forall2 (λ s s', slot_ok s → sl_lastTS s <= sl_lastTS s') ti l.*2) as (l & -> & H1 & H2 & H3 & H4).
  { simpl. eexists _, _. split; [reflexivity|]. split; [split; [etrans; [exact H1|done]|done]|done]. }
  clear Hcfg. induction Hall as [|s ti (Hsc & Hsi & Hsl) _ IH]; [by exists []|].
  destruct (slot_update_ok tfc s Hc Hsc Hsi Hsl) as (r & s' & Hs & Hcfg & Hok & Hle & Hmono).
  destruct IH as (l & Hl & H1 & H2 & H3 & H4). exists ((r, s') :: l). simpl. rewrite Hs. simpl. rewrite Hl. simpl.
  split; [done|]. split; [by f_equal|]. split; [by apply Forall_cons|]. split; [by apply Forall_cons|]. by apply Forall2_cons.
Qed.

(** A candle the engine has applied: its token has slots, all dated at or
    after it. *)
Definition seen (e : Engine) (c : TFCandle) : Prop :=
  ∀ i, en_tfIndex e !! tfc_TF c = Some i →
    ∃ ti, tf_state i e !! TFCandle_Key c = Some ti ∧ Forall (λ s, tfc_TS c <= sl_lastTS s) ti.

Lemma set_token_state i j key ti e :
  is_Some (en_state e !! i) → tf_state j (set_token i key ti e) = if decide (j = i) then <[key := ti]> (tf_state i e) else tf_state j e.
Proof.
  intros [m Hm]. unfold tf_state. simpl. case_decide as Hj; [subst|by rewrite list_lookup_alter_ne].
  by rewrite list_lookup_alter_eq, Hm.
Qed.

Lemma Process_ok configs e tfc :
  configs_ok configs → engine_ok configs e → candle_ok tfc →
  ∃ r e', Process tfc e = Some (r, e') ∧ engine_ok configs e' ∧ seen e' tfc ∧ (∀ c, seen e c → seen e' c).
Proof.
  intros [Hcfgs Hnd] He Hc. unfold Process. destruct (en_tfIndex e !! tfc_TF tfc) as [i|] eqn:Hidx;
    [|eexists _, _; split; [reflexivity|]; split; [done|]; split; [intros i Hi; congruence|done]].
  pose proof Hidx as Hi. rewrite (eo_index _ _ He) in Hi. apply tf_index_spec in Hi as (cfg & Hcfg & _); [|done].
  pose proof (tf_state_lookup _ _ _ _ He Hcfg) as Hst.
  assert (tf_config_ok cfg) as Hcok by (rewrite Forall_lookup in Hcfgs; by eapply Hcfgs).
  assert (∃ ti, match tf_state i e !! TFCandle_Key tfc with
            | Some ti => Some ti
            | None => cfg ← en_configs e !! i; createTokenIndicators cfg
            end = Some ti ∧ sl_config <$> ti = tc_Indicators cfg ∧
    Forall (λ s, config_ok (sl_config s) ∧ ind_ok (sl_config s) (sl_ind s) ∧
      (sl_lastTS s = zero_time ∨ ∃ u, 0 < u ∧ sl_lastTS s = t_of_unix u)) ti ∧
    (∀ ti0, tf_state i e !! TFCandle_Key tfc = Some ti0 → ti0 = ti ∧ slots_ok cfg ti)) as (ti & -> & Hconf & Hall & Hold).
  { destruct (tf_state i e !! TFCandle_Key tfc) as [ti|] eqn:Hti.
    - pose proof (eo_tokens _ _ He _ _ _ Hcfg Hst _ _ Hti) as [Hconf Hs]. exists ti. split; [done|]. split; [done|].
      split; [eapply Forall_impl; [exact Hs|]; intros s (? & ? & ?); by auto|]. intros ti0 [= <-]. by split; [|split].
    - rewrite (eo_configs _ _ He), Hcfg. simpl. destruct (create_ok cfg Hcok) as (ti & -> & Hconf & Hall).
      exists ti. split; [done|]. split; [done|]. split; [|done].
      eapply Forall_impl; [exact Hall|]. intros s (? & ? & ?). by auto. }
  simpl. destruct (slots_update_ok cfg tfc ti Hc Hconf Hall) as (r & ti' & -> & Hok & Hdate & Hmono). simpl.
  eexists _, _. split; [reflexivity|]. split; [by eapply set_token_ok|]. split.
  - intros j Hj. simpl in Hj. assert (j = i) as -> by congruence. exists ti'. split; [|done].
    rewrite set_token_state, decide_True, lookup_insert_eq by done. done.
  - intros c Hseen j Hj. simpl in Hj. destruct (Hseen j Hj) as (tj & Htj & Hdj).
    rewrite set_token_state by done. case_decide as Hji; [subst j|by exists tj].
    destruct (decide (TFCandle_Key c = TFCandle_Key tfc)) as [Heq|Hne]; [|exists tj; by rewrite lookup_insert_ne].
    rewrite Heq, lookup_insert_eq. exists ti'. split; [done|]. rewrite Heq in Htj. destruct (Hold _ Htj) as [-> [_ Hs]].
    clear -Hdj Hs Hmono. induction Hmono as [|s s' l l' Hle _ IH]; [constructor|].
    apply Forall_cons in Hdj as [Hd Hdj]. apply Forall_cons in Hs as [Hs Hss]. apply Forall_cons.
    split; [|by apply IH]. specialize (Hle Hs). lia.
Qed.

Lemma no_results (ti : list slot) : let l := (λ s, (@None IndicatorResult, s)) <$> ti in omap fst l = [] ∧ l.*2 = ti.
Proof. induction ti as [|s ti [IH1 IH2]]; [done|]. simpl in *. split; [exact IH1|]. f_equal. exact IH2. Qed.

(** A replayed candle changes nothing. *)
Lemma Process_replay configs e c :
  configs_ok configs → engine_ok configs e → seen e c → Process c e = Some ([], e).
Proof.
  intros [_ Hnd] He Hseen. unfold Process. destruct (en_tfIndex e !! tfc_TF c) as [i|] eqn:Hidx; [|done].
  destruct (Hseen i Hidx) as (ti & Hti & Hdate). rewrite Hti. simpl.
  pose proof Hidx as Hi. rewrite (eo_index _ _ He) in Hi. apply tf_index_spec in Hi as (cfg & Hcfg & _); [|done].
  pose proof (tf_state_lookup _ _ _ _ He Hcfg) as Hst.
  pose proof (eo_tokens _ _ He _ _ _ Hcfg Hst _ _ Hti) as [_ Hs].
  assert (slots_update c ti = Some ([], ti)) as ->.
  { unfold slots_update.
    enough (mapM (slot_update c) ti = Some ((λ s, (None, s)) <$> ti)) as ->.
    { cbn [mbind option_bind]. by destruct (no_results ti) as [-> ->]. }
    clear Hti. induction Hdate as [|s l Hle _ IH]; [done|]. apply Forall_cons in Hs as [(_ & _ & u & Hu & Hts) Hs].
    assert (slot_update c s = Some (None, s)) as Hone.
    { unfold slot_update, slot_replay, t_after. rewrite (proj2 (Z.ltb_ge _ _)) by lia.
      assert (t_is_zero (sl_lastTS s) = false) as -> by (rewrite Hts; unfold t_is_zero, t_of_unix, zero_time, Second; lia).
      done. }
    simpl. rewrite Hone. simpl. by rewrite (IH Hs). }
  simpl. do 2 f_equal. unfold set_token. destruct e as [cs st ix]. f_equal. simpl in *. apply list_eq. intros j.
  destruct (decide (i = j)) as [<-|Hne]; [|by rewrite list_lookup_alter_ne].
  rewrite list_lookup_alter_eq, Hst. simpl. by rewrite insert_id.
Qed.

(** ** Runs, snapshots and restarts *)

Fixpoint feed (cs : list TFCandle) (e : Engine) : option Engine :=
  match cs with
  | [] => Some e
  | c :: cs => '(_, e) ← Process c e; feed cs e
  end.

Lemma feed_app cs1 cs2 e : feed (cs1 ++ cs2) e = (e ← feed cs1 e; feed cs2 e).
Proof. revert e. induction cs1 as [|c cs1 IH]; intros e; [done|]. simpl. destruct (Process c e) as [[? ?]|]; simpl; [apply IH|done]. Qed.

Lemma feed_ok configs cs e :
  configs_ok configs → engine_ok configs e → Forall candle_ok cs →
  ∃ e', feed cs e = Some e' ∧ engine_ok configs e' ∧ Forall (seen e') cs ∧ (∀ c, seen e c → seen e' c).
Proof.
  intros Hcfgs He Hcs. revert e He. induction Hcs as [|c cs Hc _ IH]; intros e He; [by exists e|].
  destruct (Process_ok _ _ _ Hcfgs He Hc) as (r & e1 & Hp & He1 & Hs & Hmono).
  destruct (IH e1 He1) as (e2 & Hf & He2 & Hseen & Hmono2). exists e2. simpl. rewrite Hp. simpl.
  split; [done|]. split; [done|]. split; [apply Forall_cons; by auto|auto].
Qed.

Lemma feed_replay configs cs e :
  configs_ok configs → engine_ok configs e → Forall (seen e) cs → feed cs e = Some e.
Proof.
  intros Hcfgs He. induction 1 as [|c cs Hc _ IH]; [done|]. simpl. by rewrite (Process_replay configs e c).
Qed.

(** [ReplayCandles] feeds the closed candles. *)
Lemma ReplayCandles_feed cs e : Forall candle_ok cs → snd <$> ReplayCandles cs e = feed cs e.
Proof.
  intros Hcs. unfold ReplayCandles. generalize 0 at 1. revert e. induction Hcs as [|c cs [Hc _] _ IH]; intros e n; [done|].
  simpl. rewrite Hc. destruct (Process c e) as [[r e']|]; simpl; [apply IH|].
  clear. by induction cs as [|c cs IH].
Qed.

(** One token's snapshot restores its slots into any engine. *)
Lemma restore_token_ok `{MO : MapOrder} configs e i cfg key ti :
  configs_ok configs → en_configs e = configs → configs !! i = Some cfg → slots_ok cfg ti →
  restore_token (token_snapshot (tc_TF cfg) key ti) e = Some (set_token i key ti e).
Proof.
  intros [Hcfgs Hnd] He Hcfg Hti. unfold restore_token, token_snapshot.
  destruct (cut_at ":" key) as [[before after] found] eqn:Hcut. simpl.
  rewrite He, (find_tf_spec configs i cfg Hnd Hcfg), Hcfg. simpl.
  assert (tf_config_ok cfg) as Hcok by (rewrite Forall_lookup in Hcfgs; by eapply Hcfgs).
  destruct (create_ok cfg Hcok) as (fresh & -> & Hf & Hfall). simpl.
  rewrite (slots_restore_ok cfg ti fresh) by done. simpl. do 2 f_equal.
  destruct found; simpl; [|done]. apply cut_at_join in Hcut. by destruct (String.eqb_spec before "") as [->|Hne]; simpl;
    [|rewrite (proj2 (String.eqb_neq _ _) Hne), Hcut].
Qed.

Lemma alter_middle {A} (f : A → A) (pre : list A) x post : alter f (length pre) (pre ++ x :: post) = pre ++ f x :: post.
Proof. induction pre as [|y pre IH]; simpl; [done|]. f_equal. exact IH. Qed.

Section restore.
Context `{MO : MapOrder} (configs : list TFIndicatorConfig) (Hcfgs : configs_ok configs).

Definition engine_with (st : list (gmap string (list slot))) : Engine := {|
  en_configs := configs; en_state := st; en_tfIndex := tf_index configs |}.

(** One TF's tokens restore its state. *)
Lemma restore_tf pre post cfg l m0 :
  configs !! length pre = Some cfg → Forall (λ kt : string * list slot, slots_ok cfg kt.2) l →
  foldl (λ e ts, e ← e; restore_token ts e) (Some (engine_with (pre ++ m0 :: post)))
    ((λ '(k, ti), token_snapshot (tc_TF cfg) k ti) <$> l) =
  Some (engine_with (pre ++ foldl (λ m '(k, ti), <[k := ti]> m) m0 l :: post)).
Proof.
  intros Hcfg Hl. revert m0. induction Hl as [|[k ti] l Hti _ IH]; intros m0; [done|]. cbn [fmap list_fmap foldl].
  cbn [mbind option_bind]. rewrite (restore_token_ok configs _ (length pre) cfg k ti) by done.
  unfold set_token, engine_with. simpl. rewrite alter_middle. apply IH.
Qed.

(** ... and all TFs' tokens the whole engine. *)
Lemma restore_all cfgs : ∀ pre sts,
  (∀ i, cfgs !! i = configs !! (length pre + i)%nat) → length sts = length cfgs →
  Forall2 (λ cfg st, map_Forall (λ _ ti, slots_ok cfg ti) st) cfgs sts →
  foldl (λ e ts, e ← e; restore_token ts e) (Some (engine_with (pre ++ replicate (length cfgs) ∅)))
    (concat (zip_with (λ cfg st, (λ '(k, ti), token_snapshot (tc_TF cfg) k ti) <$> range st) cfgs sts)) =
  Some (engine_with (pre ++ sts)).
Proof.
  induction cfgs as [|cfg cfgs IH]; intros pre sts Hsuf Hlen Hall.
  { destruct sts; [|done]. done. }
  destruct sts as [|st sts]; [done|]. apply Forall2_cons in Hall as [Hst Hall]. simpl in Hlen.
  cbn [zip_with concat length replicate]. rewrite foldl_app, (restore_tf pre (replicate (length cfgs) ∅) cfg).
  - rewrite (foldl_insert_union _ _ st) by apply range_perm. rewrite (right_id_L ∅ (∪)).
    rewrite (cons_middle st), (app_assoc pre), (IH (pre ++ [st]) sts); [by rewrite <-app_assoc|..].
    + intros i. rewrite length_app. simpl. rewrite <-Nat.add_assoc. exact (Hsuf (S i)).
    + lia.
    + done.
  - pose proof (Hsuf 0%nat) as H0. rewrite Nat.add_0_r in H0. by rewrite <-H0.
  - apply Forall_forall. intros [k ti] Hin%elem_of_range. by apply (Hst k).
Qed.

Lemma restore_snapshot e id : engine_ok configs e → RestoreEngine configs (SnapshotEngine e id) = Some e.
Proof.
  intros He. pose proof He as [Hc Hi Hl Ht]. unfold RestoreEngine, SnapshotEngine. cbn [es_Tokens]. rewrite Hc.
  change (NewEngine configs) with (engine_with ([] ++ replicate (length configs) ∅)).
  rewrite (restore_all configs [] (en_state e)); try done.
  - simpl. destruct e as [cs st ix]. simpl in *. by subst.
  - apply Forall2_same_length_lookup_2; [done|]. intros i cfg st Hcfg Hst. by apply (Ht i).
Qed.
End restore.

(** ** The restart *)

Lemma validate_indicators_ok tf ics :
  Forall (λ ic, ic_Period ic <= max_i64) ics → validate_indicators tf ics = None → Forall config_ok ics.
Proof.
  induction 1 as [|ic ics Hic _ IH]; [done|]. simpl. destruct (known_type (ic_Type ic)) eqn:Hk; [|done]. simpl.
  destruct (Z.leb_spec (ic_Period ic) 0); [done|]. intros Hv. apply Forall_cons. split; [|by apply IH]. split; [done|lia].
Qed.

Lemma validate_loop_ok seen configs :
  Forall (λ c, Forall (λ ic, ic_Period ic <= max_i64) (tc_Indicators c) ∧ NoDup (tc_Indicators c)) configs →
  validate_loop seen configs = None →
  Forall tf_config_ok configs ∧ NoDup (tc_TF <$> configs) ∧ Forall (λ c, tc_TF c ∉ seen) configs.
Proof.
  intros Hall. revert seen. induction Hall as [|c cs [Hp Hn] _ IH]; intros seen; [by repeat constructor|].
  simpl. destruct (tc_TF c <=? 0); [done|]. case_bool_decide as Hin; [done|].
  destruct (validate_indicators _ _) eqn:Hv; [done|]. intros Hrest.
  destruct (IH _ Hrest) as (H1 & H2 & H3). split; [|split].
  - apply Forall_cons. split; [split; [by eapply validate_indicators_ok|done]|done].
  - simpl. apply NoDup_cons. split; [|done]. intros (c' & Heq & Hc')%list_elem_of_fmap.
    rewrite Forall_forall in H3. apply (H3 c' Hc'). rewrite <-Heq. by left.
  - apply Forall_cons. split; [done|]. eapply Forall_impl; [exact H3|]. simpl. intros c' Hc' Hin'. apply Hc'. by right.
Qed.

(** C18: A restart is not noticed.  Under a validated configuration (no
    indicator listed twice for a timeframe), the engine runs over any closed
    candles without failing; if it is snapshotted after some of them, lost,
    restored from the snapshot and fed again from the stream, redelivering
    any of the candles the snapshot covers in any order, it ends in the very
    state it would have had without the restart. *)
Theorem engine_crash_recovery `{MO : MapOrder} configs before overlap after id :
  ValidateConfigs configs = None →
  Forall (λ c, Forall (λ ic, ic_Period ic <= max_i64) (tc_Indicators c) ∧ NoDup (tc_Indicators c)) configs →
  Forall candle_ok (before ++ after) → overlap ⊆ before →
  ∃ snapshotted restored final,
    snd <$> ReplayCandles before (NewEngine configs) = Some snapshotted ∧
    RestoreFromSnap configs (Some (SnapshotEngine snapshotted id)) = Some restored ∧
    snd <$> ReplayCandles (overlap ++ after) restored = Some final ∧
    snd <$> ReplayCandles (before ++ after) (NewEngine configs) = Some final.
Proof.
  intros Hv Hcfg Hall Hover. destruct (validate_loop_ok [] configs Hcfg Hv) as (Hc1 & Hc2 & _).
  assert (configs_ok configs) as Hcfgs by done.
  assert (engine_ok configs (NewEngine configs)) as H0.
  { split; simpl; [done|done|by rewrite length_replicate|].
    intros i cfg m _ [-> _]%lookup_replicate. apply map_Forall_empty. }
  pose proof Hall as [Hb Ha]%Forall_app.
  destruct (feed_ok configs before _ Hcfgs H0 Hb) as (e & He & Hok & Hseen & _).
  destruct (feed_ok configs after e Hcfgs Hok Ha) as (final & Hf & _).
  assert (Forall candle_ok overlap) as Ho by (rewrite !Forall_forall in *; auto).
  exists e, e, final. rewrite !ReplayCandles_feed by (try apply Forall_app; done). split; [done|].
  split; [by apply restore_snapshot|]. rewrite !feed_app, He. simpl. split; [|done].
  rewrite (feed_replay configs overlap e); [done..|]. rewrite !Forall_forall in *. auto.
Qed.

Definition sample_configs : list TFIndicatorConfig := [
  {| tc_TF := 60; tc_Indicators := [{| ic_Type := "SMA"; ic_Period := 2 |}; {| ic_Type := "RSI"; ic_Period := 2 |}] |};
  {| tc_TF := 300; tc_Indicators := [{| ic_Type := "EMA"; ic_Period := 3 |}] |}].

Definition sample_candle (tf u close : Z) : TFCandle := {|
  tfc_Token := "99926000"; tfc_Exchange := "NSE"; tfc_TF := tf; tfc_TS := t_of_unix u; tfc_Open := 2450000;
  tfc_High := close; tfc_Low := 2449000; tfc_Close := close; tfc_Volume := 0; tfc_Count := 1; tfc_Forming := false |}.

Lemma sample_candle_ok tf u close : 0 < u → candle_ok (sample_candle tf u close).
Proof. intros Hu. split; [done|]. by exists u. Qed.

Definition sample_before : list TFCandle := [
  sample_candle 60 1753069500 2451000; sample_candle 60 1753069560 2452000; sample_candle 60 1753069620 2450500;
  sample_candle 300 1753069500 2450500].
Definition sample_after : list TFCandle := [sample_candle 60 1753069680 2453000; sample_candle 900 1753069500 2453000].

Lemma engine_crash_recovery_witness :
  let overlap := [sample_candle 300 1753069500 2450500; sample_candle 60 1753069620 2450500] in
  overlap ⊆ sample_before ∧
  ∃ snapshotted restored final,
    snd <$> ReplayCandles sample_before (NewEngine sample_configs) = Some snapshotted ∧
    RestoreFromSnap sample_configs (Some (SnapshotEngine (MO := canonical_order) snapshotted "17-0")) = Some restored ∧
    snd <$> ReplayCandles (overlap ++ sample_after) restored = Some final ∧
    snd <$> ReplayCandles (sample_before ++ sample_after) (NewEngine sample_configs) = Some final.
Proof.
  intros overlap. assert (overlap ⊆ sample_before) as Hover.
  { intros c. unfold overlap, sample_before. rewrite !elem_of_cons. set_solver. }
  split; [exact Hover|].
  apply (engine_crash_recovery (MO := canonical_order) sample_configs sample_before overlap sample_after "17-0").
  - reflexivity.
  - unfold sample_configs. rewrite !Forall_cons, Forall_nil. simpl. rewrite !Forall_cons, Forall_nil.
    assert (2 <= max_i64) by (apply Z.leb_le; reflexivity). assert (3 <= max_i64) by (apply Z.leb_le; reflexivity).
    repeat split; try done; simpl; repeat (apply NoDup_cons; split; [set_solver|]); apply NoDup_nil_2.
  - unfold sample_before, sample_after. simpl app. rewrite !Forall_cons, Forall_nil.
    repeat split; try reflexivity; (eexists; split; [|reflexivity]; lia).
  - exact Hover.
Defined.
