(* ===== verification/ExitPolicy.v ===== *)
(** The exit policy (internal/exitpolicy: types.go, theta.go, arbiter.go,
    config.go).  A [*tracked] is its fields and an identity, the number of
    positions opened before it; [OnMinute] is the three parts between which
    the arbiter's mutex is free.  Reading the configuration file and the
    recorder's database are not modelled, and a validation error does not
    print the settings. *)
From S2P Require Import Prelude Float64 GoText Model.
#[local] Open Scope Z_scope.
#[local] Open Scope go_scope.

(** ** Types (types.go) *)

Definition ReasonTheta : string := "THETA".
Definition ModeOff : string := "off".
Definition ModeShadow : string := "shadow".
Definition ModeAct : string := "act".
Definition mode_valid (m : string) : bool := String.eqb m ModeOff || String.eqb m ModeShadow || String.eqb m ModeAct.
Definition sessionMinutes : Z := 375.

Record EntryGreeks := { eg_DeltaMilli : Z; eg_DecayPerDayPaise : Z; eg_ExpGainPaise : Z }.

Definition NewEntryGreeks (delta thetaRupeesPerDay : float64) (targetMovePaise : Z) : option EntryGreeks :=
  if f64_eqb delta f64_zero || (targetMovePaise <=? 0) || f64_is_nan delta || f64_is_nan thetaRupeesPerDay then None
  else Some {|
    eg_DeltaMilli := f64_to_int (f64_round (f64_mul delta (f64_of_int 1000)));
    eg_DecayPerDayPaise := f64_to_int (f64_round (f64_mul (f64_abs thetaRupeesPerDay) (f64_of_int 100)));
    eg_ExpGainPaise := f64_to_int (f64_round (f64_mul (f64_abs delta) (f64_of_int targetMovePaise))) |}.

Record Position := {
  po_Key : string; po_Strategy : string; po_Side : string; po_IndexToken : string; po_FNOToken : string;
  po_EntryTS : Time; po_IndexEntry : Z; po_PremEntry : Z; po_Greeks : option EntryGreeks;
}.

Record Snapshot := {
  sn_Now : Time; sn_IndexLTP : Z; sn_PremLTP : Z; sn_PremBest : Z; sn_PremBestTS : Time; sn_ProtectArmed : bool;
}.

Record Decision := {
  de_Position : Position; de_Reason : string; de_Text : string; de_Shadow : bool; de_Detail : gmap string Z; de_TS : Time;
}.

(** The [Rule] interface.  [Evaluate] is [None] where it panics, [Some None]
    where it does not fire. *)
Record Rule := {
  Name : string;
  Evaluate : Position → Snapshot → option (option Decision);
  ConfirmMinutes : Z;
}.

Record Plan := { pl_Mode : string; pl_Rules : list Rule }.

Definition rupees (paise : Z) : string :=
  let sign := if paise <? 0 then "-" else "" in
  let paise := if paise <? 0 then -! paise else paise in
  sign +:+ "₹" +:+ format_int (paise /! 100) +:+ "." +:+ format_02d (paise %! 100).

(** ** The theta rule (theta.go) *)

Record ThetaConfig := {
  MaxFlatMin : Z; DecayPctOfGain : Z; FlatProgressPct : Z; FallbackFlatPremPct : Z; ConfirmMin : Z; GivebackMin : Z;
}.

(** [int64(d.Minutes())]: [Minutes] adds the whole minutes and the rest as
    floats. *)
Definition whole_minutes (d : Duration) : Z :=
  f64_to_int (f64_add (f64_of_int (Z.quot d Minute)) (f64_div (f64_of_int (Z.rem d Minute)) (f64_of_int Minute))).

(** [t.In(istZone).Format("15:04")]. *)
Definition ist_clock (t : Time) : string :=
  let m := (t - ist_midnight t) / Minute in format_02d (m / 60) +:+ ":" +:+ format_02d (m mod 60).

Definition decide_theta (p : Position) (s : Snapshot) (text : string) (detail : gmap string Z) : Decision := {|
  de_Position := p; de_Reason := ReasonTheta; de_Text := text; de_Shadow := false;
  de_Detail := <["index_ltp" := sn_IndexLTP s]> (<["prem_ltp" := sn_PremLTP s]> detail); de_TS := sn_Now s |}.

Definition gaveBack (c : ThetaConfig) (g : EntryGreeks) (p : Position) (s : Snapshot) (held : Z) : option Decision :=
  if (GivebackMin c <=? 0) || t_is_zero (sn_PremBestTS s) then None
  else
    let gain := sn_PremLTP s -! po_PremEntry p in
    let stale := whole_minutes (t_sub (sn_Now s) (sn_PremBestTS s)) in
    if (eg_ExpGainPaise g *! FlatProgressPct c <=? gain *! 100) || (stale <? GivebackMin c) then None
    else Some (decide_theta p s
      ("THETA " +:+ po_Side p +:+ " gave back: best " +:+ rupees (sn_PremBest s) +:+ " at " +:+
       ist_clock (sn_PremBestTS s) +:+ ", now " +:+ rupees (sn_PremLTP s) +:+ ", no new best " +:+ format_int stale +:+ "m")
      (list_to_map [("held_min", held); ("best_gain", sn_PremBest s -! po_PremEntry p); ("gain", gain);
                    ("stale_min", stale); ("exp_gain", eg_ExpGainPaise g)])).

Definition theta_evaluate (c : ThetaConfig) (p : Position) (s : Snapshot) : option (option Decision) :=
  if (po_PremEntry p <=? 0) || (sn_PremLTP s <=? 0) || sn_ProtectArmed s || t_is_zero (po_EntryTS p) then Some None
  else
    let held := whole_minutes (t_sub (sn_Now s) (po_EntryTS p)) in
    let bestGain := sn_PremBest s -! po_PremEntry p in
    match po_Greeks p with
    | None =>
        if (po_PremEntry p *! FallbackFlatPremPct c <=? bestGain *! 100) || (held <? MaxFlatMin c) then Some None
        else Some (Some (decide_theta p s
          ("THETA " +:+ po_Side p +:+ " flat " +:+ format_int held +:+ "m (no greeks) best=" +:+ rupees bestGain)
          (list_to_map [("held_min", held); ("best_gain", bestGain)])))
    | Some g =>
        if eg_ExpGainPaise g *! FlatProgressPct c <=? bestGain *! 100 then Some (gaveBack c g p s held)
        else
          let modeled := eg_DecayPerDayPaise g *! held /! sessionMinutes in
          let realized :=
            if (0 <? sn_IndexLTP s) && (0 <? po_IndexEntry p) then
              let expected := po_PremEntry p +! eg_DeltaMilli g *! (sn_IndexLTP s -! po_IndexEntry p) /! 1000 in
              Z.max 0 (expected -! sn_PremLTP s)
            else 0 in
          let decay := if modeled <? realized then realized else modeled in
          let source := if modeled <? realized then "realized" else "modeled" in
          let overBudget := eg_ExpGainPaise g *! DecayPctOfGain c <=? decay *! 100 in
          if negb overBudget && (held <? MaxFlatMin c) then Some None
          else if eg_ExpGainPaise g =? 0 then None
          else Some (Some (decide_theta p s
            ("THETA " +:+ po_Side p +:+ " flat " +:+ format_int held +:+ "m decay=" +:+ rupees decay +:+ " (" +:+
             format_int (decay *! 100 /! eg_ExpGainPaise g) +:+ "% of exp gain " +:+ rupees (eg_ExpGainPaise g) +:+ ") " +:+ source)
            (list_to_map [("held_min", held); ("best_gain", bestGain); ("modeled", modeled); ("realized", realized);
                          ("decay", decay); ("exp_gain", eg_ExpGainPaise g)])))
    end.

Definition ThetaRule (c : ThetaConfig) : Rule := {|
  Name := ReasonTheta; Evaluate := theta_evaluate c; ConfirmMinutes := ConfirmMin c |}.

(** ** Configuration (config.go) *)

Record StrategyConfig := { sc_Mode : string; sc_Theta : ThetaConfig }.
Abbreviation Config := (gmap string StrategyConfig) (only parsing).

Definition DefaultThetaConfig : ThetaConfig := {|
  MaxFlatMin := 75; DecayPctOfGain := 25; FlatProgressPct := 30; FallbackFlatPremPct := 10; ConfirmMin := 2; GivebackMin := 0 |}.

Definition DefaultConfig : Config :=
  list_to_map [("NIFTY50_SR", {| sc_Mode := ModeAct; sc_Theta := DefaultThetaConfig |});
               ("SENSEX_SR", {| sc_Mode := ModeAct; sc_Theta := DefaultThetaConfig |})].

Definition strategy_error (name : string) (sc : StrategyConfig) : option string :=
  let t := sc_Theta sc in
  if negb (mode_valid (sc_Mode sc)) then Some (name +:+ ": unknown mode " +:+ format_q (sc_Mode sc))
  else if String.eqb name RealOrderStrategy && String.eqb (sc_Mode sc) ModeAct then
    Some (name +:+ " places real orders; exit policy may not act on it")
  else if (MaxFlatMin t <=? 0) || (ConfirmMin t <=? 0) || (DecayPctOfGain t <=? 0) || (FlatProgressPct t <=? 0) ||
          (FallbackFlatPremPct t <=? 0) then Some (name +:+ ": theta settings must all be > 0")
  else if GivebackMin t <? 0 then Some (name +:+ ": giveback_flat_min must be >= 0")
  else None.

(** The error of the first strategy of the map's range that has one. *)
Definition Validate `{MO : MapOrder} (c : Config) : option string :=
  foldr (λ '(name, sc) rest, match strategy_error name sc with Some e => Some e | None => rest end) None (range c).

Definition StrategyConfig_Plan (sc : StrategyConfig) : Plan := {| pl_Mode := sc_Mode sc; pl_Rules := [ThetaRule (sc_Theta sc)] |}.

Definition PlanFor (strategy : string) (c : Config) : option Plan :=
  match c !! strategy with
  | None => None
  | Some sc =>
      if String.eqb (sc_Mode sc) ModeOff then None
      else
        let plan := StrategyConfig_Plan sc in
        Some (if String.eqb strategy RealOrderStrategy then {| pl_Mode := ModeShadow; pl_Rules := pl_Rules plan |} else plan)
  end.

(** ** The arbiter (arbiter.go) *)

Record tracked := {
  tk_id : nat;
  tk_pos : Position;
  tk_plan : Plan;
  tk_indexLTP : Z;
  tk_premLTP : Z;
  tk_premBest : Z;
  tk_bestSeen : Z;
  tk_bestTS : Time;
  tk_streak : gmap string Z;
  tk_latched : bool;
}.

Record Arbiter := { ar_pos : gmap string tracked; ar_opened : nat }.
Definition NewArbiter : Arbiter := {| ar_pos := ∅; ar_opened := 0 |}.

Definition new_tracked (id : nat) (p : Position) (plan : Plan) : tracked := {|
  tk_id := id; tk_pos := p; tk_plan := plan; tk_indexLTP := 0; tk_premLTP := 0; tk_premBest := 0;
  tk_bestSeen := po_PremEntry p; tk_bestTS := po_EntryTS p; tk_streak := ∅; tk_latched := false |}.

Definition Open (p : Position) (plan : Plan) (a : Arbiter) : Arbiter :=
  let pos := delete (po_Key p) (ar_pos a) in
  if String.eqb (pl_Mode plan) ModeOff || String.eqb (pl_Mode plan) "" || bool_decide (length (pl_Rules plan) = 0%nat)
  then {| ar_pos := pos; ar_opened := ar_opened a |}
  else {| ar_pos := <[po_Key p := new_tracked (ar_opened a) p plan]> pos; ar_opened := S (ar_opened a) |}.

Definition Close (key : string) (a : Arbiter) : Arbiter := {| ar_pos := delete key (ar_pos a); ar_opened := ar_opened a |}.
Definition Len (a : Arbiter) : Z := Z.of_nat (size (ar_pos a)).

Definition tick_tracked (token : string) (price : Z) (t : tracked) : tracked :=
  let index := String.eqb token (po_IndexToken (tk_pos t)) in
  let prem := negb index && String.eqb token (po_FNOToken (tk_pos t)) in {|
  tk_id := tk_id t; tk_pos := tk_pos t; tk_plan := tk_plan t;
  tk_indexLTP := if index then price else tk_indexLTP t;
  tk_premLTP := if prem then price else tk_premLTP t;
  tk_premBest := if prem && (tk_premBest t <? price) then price else tk_premBest t;
  tk_bestSeen := tk_bestSeen t; tk_bestTS := tk_bestTS t; tk_streak := tk_streak t; tk_latched := tk_latched t |}.

Definition OnTick (token : string) (price : Z) (a : Arbiter) : Arbiter :=
  if price <=? 0 then a
  else {| ar_pos := tick_tracked token price <$> ar_pos a; ar_opened := ar_opened a |}.

(** The best premium as the minute sees it. *)
Definition see_best (now : Time) (t : tracked) : tracked :=
  let best := Z.max (tk_premBest t) (po_PremEntry (tk_pos t)) in
  let new := (tk_bestSeen t <? best) || t_is_zero (tk_bestTS t) in {|
  tk_id := tk_id t; tk_pos := tk_pos t; tk_plan := tk_plan t; tk_indexLTP := tk_indexLTP t; tk_premLTP := tk_premLTP t;
  tk_premBest := tk_premBest t; tk_bestSeen := if new then best else tk_bestSeen t;
  tk_bestTS := if new then now else tk_bestTS t; tk_streak := tk_streak t; tk_latched := tk_latched t |}.

Definition snapshot_of (now : Time) (armed : bool) (t : tracked) : Snapshot := {|
  sn_Now := now; sn_IndexLTP := tk_indexLTP t; sn_PremLTP := tk_premLTP t;
  sn_PremBest := Z.max (tk_premBest t) (po_PremEntry (tk_pos t)); sn_PremBestTS := tk_bestTS t; sn_ProtectArmed := armed |}.

(** The rules of one position, in plan order, up to the first that decides. *)
Fixpoint eval_rules (p : Position) (s : Snapshot) (rules : list Rule) (streak : gmap string Z) :
    option (option Decision * gmap string Z) :=
  match rules with
  | [] => Some (None, streak)
  | r :: rules =>
      fired ← Evaluate r p s;
      match fired with
      | None => eval_rules p s rules (<[Name r := 0]> streak)
      | Some d =>
          let n := default 0 (streak !! Name r) +! 1 in
          let streak := <[Name r := n]> streak in
          if n <? Z.max 1 (ConfirmMinutes r) then eval_rules p s rules streak else Some (Some d, streak)
      end
  end.

(** A decision under the plan's mode. *)
Definition under_mode (plan : Plan) (d : Decision) : Decision := {|
  de_Position := de_Position d; de_Reason := de_Reason d; de_Text := de_Text d;
  de_Shadow := negb (String.eqb (pl_Mode plan) ModeAct); de_Detail := de_Detail d; de_TS := de_TS d |}.

Definition evaluate_tracked (now : Time) (armed : bool) (t : tracked) : option (option Decision * tracked) :=
  let t := see_best now t in
  '(d, streak) ← eval_rules (tk_pos t) (snapshot_of now armed t) (pl_Rules (tk_plan t)) (tk_streak t);
  let t := {|
    tk_id := tk_id t; tk_pos := tk_pos t; tk_plan := tk_plan t; tk_indexLTP := tk_indexLTP t; tk_premLTP := tk_premLTP t;
    tk_premBest := tk_premBest t; tk_bestSeen := tk_bestSeen t; tk_bestTS := tk_bestTS t; tk_streak := streak;
    tk_latched := match d with Some _ => true | None => tk_latched t end |} in
  Some (option_map (under_mode (tk_plan t)) d, t).

(** The positions not latched, in the map's order: their identity and their
    (immutable) position. *)
Definition minute_collect `{MO : MapOrder} (a : Arbiter) : list (nat * Position) :=
  (λ kt : string * tracked, (tk_id kt.2, tk_pos kt.2)) <$> filter (λ kt, tk_latched kt.2 = false) (range (ar_pos a)).

(** The decisions, each with the identity of its position. *)
Fixpoint minute_eval (now : Time) (armed : Position → bool) (snaps : list (nat * Position)) (a : Arbiter) :
    option (list (nat * Decision) * Arbiter) :=
  match snaps with
  | [] => Some ([], a)
  | (id, p) :: snaps =>
      match ar_pos a !! po_Key p with
      | Some t =>
          if Nat.eqb (tk_id t) id then
            '(d, t) ← evaluate_tracked now (armed p) t;
            '(out, a) ← minute_eval now armed snaps {| ar_pos := <[po_Key p := t]> (ar_pos a); ar_opened := ar_opened a |};
            Some (match d with Some d => (id, d) :: out | None => out end, a)
          else minute_eval now armed snaps a
      | None => minute_eval now armed snaps a
      end
  end.

Definition OnMinute `{MO : MapOrder} (now : Time) (armed : option (Position → bool)) (a : Arbiter) :
    option (list Decision * Arbiter) :=
  match minute_eval now (default (λ _, false) armed) (minute_collect a) a with
  | Some (out, a) => Some (out.*2, a)
  | None => None
  end.

(** ** Runs of the arbiter *)

(** What the goroutines do: ticks, entries and exits at any time, and the one
    minute loop, whose evaluation may begin long before it ends. *)
Inductive arbiter_step :=
  | StepOpen (p : Position) (plan : Plan)
  | StepClose (key : string)
  | StepTick (token : string) (price : Z)
  | StepMinuteBegin
  | StepMinuteEnd (now : Time) (armed : Position → bool).

(** The arbiter, the positions the minute loop is looking at, the decisions
    so far and the positions tracked so far, in order. *)
Record run_state := {
  rs_arbiter : Arbiter;
  rs_snaps : list (nat * Position);
  rs_decided : list (nat * Decision);
  rs_tracked : list (Position * Plan);
}.

Definition run_start : run_state := {| rs_arbiter := NewArbiter; rs_snaps := []; rs_decided := []; rs_tracked := [] |}.

Section runs.
Context `{MO : MapOrder}.

Definition arbiter_run1 (st : run_state) (step : arbiter_step) : option run_state :=
  let a := rs_arbiter st in
  match step with
  | StepOpen p plan =>
      let a' := Open p plan a in
      Some {| rs_arbiter := a'; rs_snaps := rs_snaps st; rs_decided := rs_decided st;
              rs_tracked := if bool_decide (ar_opened a' = ar_opened a) then rs_tracked st else rs_tracked st ++ [(p, plan)] |}
  | StepClose key =>
      Some {| rs_arbiter := Close key a; rs_snaps := rs_snaps st; rs_decided := rs_decided st; rs_tracked := rs_tracked st |}
  | StepTick token price =>
      Some {| rs_arbiter := OnTick token price a; rs_snaps := rs_snaps st; rs_decided := rs_decided st; rs_tracked := rs_tracked st |}
  | StepMinuteBegin =>
      Some {| rs_arbiter := a; rs_snaps := minute_collect a; rs_decided := rs_decided st; rs_tracked := rs_tracked st |}
  | StepMinuteEnd now armed =>
      match minute_eval now armed (rs_snaps st) a with
      | Some (out, a') => Some {| rs_arbiter := a'; rs_snaps := []; rs_decided := rs_decided st ++ out; rs_tracked := rs_tracked st |}
      | None => None
      end
  end.

Fixpoint arbiter_run (st : run_state) (steps : list arbiter_step) : option run_state :=
  match steps with
  | [] => Some st
  | step :: steps => st ← arbiter_run1 st step; arbiter_run st steps
  end.
End runs.

(** Rules that do not panic on what the arbiter shows them: a best premium
    no lower than the entry's, of up to 10^15 paise. *)
Definition plan_safe (p : Position) (plan : Plan) : Prop :=
  Forall (λ r, ∀ s, po_PremEntry p <= sn_PremBest s <= 10 ^ 15 → Evaluate r p s ≠ None) (pl_Rules plan).

Definition step_ok (step : arbiter_step) : Prop :=
  match step with
  | StepOpen p plan => po_PremEntry p <= 10 ^ 15 ∧ plan_safe p plan
  | StepTick _ price => price <= 10 ^ 15
  | _ => True
  end.

(** The theta rule panics on no such snapshot: the division it prints is
    reached only when the expected gain is not zero. *)
Lemma theta_safe c p : plan_safe p {| pl_Mode := ModeAct; pl_Rules := [ThetaRule c] |}.
Proof.
  apply Forall_singleton. intros s Hbest. simpl. unfold theta_evaluate.
  destruct ((po_PremEntry p <=? 0) || _ || _ || _) eqn:Hout; [done|]. bool_prop.
  destruct (po_Greeks p) as [g|]; [|case_match; done].
  cbv zeta. destruct (eg_ExpGainPaise g *! FlatProgressPct c <=? (sn_PremBest s -! po_PremEntry p) *! 100) eqn:Hflat; [done|].
  match goal with |- (if ?b then _ else _) ≠ _ => destruct b; [done|] end.
  destruct (Z.eqb_spec (eg_ExpGainPaise g) 0) as [Hg|]; [|done]. bool_prop. rewrite Hg in Hflat.
  rewrite (i64_id (sn_PremBest s - po_PremEntry p)), !i64_id in Hflat by (i64_unfold; lia). lia.
Qed.

(** ** A position decides at most once *)

(** The parts of a tracked position an evaluation or a tick keeps. *)
Definition same_tracked (t t' : tracked) : Prop := tk_id t' = tk_id t ∧ tk_pos t' = tk_pos t ∧ tk_plan t' = tk_plan t.

Record entry_ok (st : run_state) (k : string) (t : tracked) : Prop := {
  en_key : po_Key (tk_pos t) = k;
  en_opened : rs_tracked st !! tk_id t = Some (tk_pos t, tk_plan t);
  en_safe : plan_safe (tk_pos t) (tk_plan t);
  en_best : tk_premBest t <= 10 ^ 15 ∧ po_PremEntry (tk_pos t) <= 10 ^ 15;
  en_fresh : tk_latched t = false → tk_id t ∉ (rs_decided st).*1;
  en_snap : ∀ p, (tk_id t, p) ∈ rs_snaps st → tk_latched t = false ∧ p = tk_pos t;
}.

Record run_inv (st : run_state) : Prop := {
  ri_count : length (rs_tracked st) = ar_opened (rs_arbiter st);
  ri_entries : map_Forall (entry_ok st) (ar_pos (rs_arbiter st));
  ri_unique : ∀ k1 k2 t1 t2, ar_pos (rs_arbiter st) !! k1 = Some t1 → ar_pos (rs_arbiter st) !! k2 = Some t2 →
    tk_id t1 = tk_id t2 → k1 = k2;
  ri_snaps : NoDup (rs_snaps st).*1 ∧ Forall (λ ip, (ip.1 < ar_opened (rs_arbiter st))%nat) (rs_snaps st);
  ri_once : NoDup (rs_decided st).*1;
  ri_decided : Forall (λ d : nat * Decision, ∃ p plan, rs_tracked st !! d.1 = Some (p, plan) ∧
    de_Shadow d.2 = negb (String.eqb (pl_Mode plan) ModeAct)) (rs_decided st);
}.

Lemma eval_rules_total p s rules streak :
  Forall (λ r, Evaluate r p s ≠ None) rules → ∃ d streak', eval_rules p s rules streak = Some (d, streak').
Proof.
  intros Hall. revert streak. induction Hall as [|r rules Hr _ IH]; intros streak; [by eexists _, _|].
  simpl. destruct (Evaluate r p s) as [[d|]|]; simpl; [|apply IH|done].
  case_match; [apply IH|by eexists _, _].
Qed.

(** An evaluation does not panic, and latches when it decides. *)
Lemma evaluate_tracked_spec now armed t :
  plan_safe (tk_pos t) (tk_plan t) → tk_premBest t <= 10 ^ 15 ∧ po_PremEntry (tk_pos t) <= 10 ^ 15 →
  ∃ d t', evaluate_tracked now armed t = Some (d, t') ∧ same_tracked t t' ∧ tk_premBest t' = tk_premBest t ∧
    tk_latched t' = (if d then true else tk_latched t) ∧
    ∀ d', d = Some d' → de_Shadow d' = negb (String.eqb (pl_Mode (tk_plan t)) ModeAct).
Proof.
  intros Hsafe Hbest. unfold evaluate_tracked. cbv zeta.
  destruct (eval_rules_total (tk_pos t) (snapshot_of now armed (see_best now t)) (pl_Rules (tk_plan t)) (tk_streak t)) as (d & streak & Hd).
  { eapply Forall_impl; [exact Hsafe|]. intros r Hr. apply Hr. simpl. lia. }
  change (tk_pos (see_best now t)) with (tk_pos t). change (tk_plan (see_best now t)) with (tk_plan t).
  change (tk_streak (see_best now t)) with (tk_streak t). rewrite Hd. simpl.
  eexists _, _. split; [reflexivity|]. repeat split; destruct d; simpl; try done. by intros d' [= <-].
Qed.

Lemma entry_ok_other st st' k t :
  rs_tracked st' = rs_tracked st → rs_decided st' = rs_decided st → (∀ ip, ip ∈ rs_snaps st' → ip ∈ rs_snaps st) →
  entry_ok st k t → entry_ok st' k t.
Proof. intros Ht Hd Hs [? ? ? ? ? ?]. split; rewrite ?Ht, ?Hd; try done. intros p Hp. auto. Qed.

(** The minute loop skips a position that was closed or reopened. *)
Lemma skip_snap_inv a snap snaps decided opened :
  run_inv {| rs_arbiter := a; rs_snaps := snap :: snaps; rs_decided := decided; rs_tracked := opened |} →
  run_inv {| rs_arbiter := a; rs_snaps := snaps; rs_decided := decided; rs_tracked := opened |}.
Proof.
  intros [Hc He Hu [Hn Hf] Ho Hd]. simpl in *. split; simpl; try done.
  - intros k t Ht. eapply (entry_ok_other _ _ k t); [..|by apply He]; simpl; try done. intros ip Hip. by right.
  - apply NoDup_cons in Hn as [_ Hn]. by apply Forall_cons in Hf as [_ Hf].
Qed.

(** ... and evaluates one that is the same. *)
Lemma eval_snap_inv a id p snaps decided opened t (d : option Decision) t' :
  run_inv {| rs_arbiter := a; rs_snaps := (id, p) :: snaps; rs_decided := decided; rs_tracked := opened |} →
  ar_pos a !! po_Key p = Some t → tk_id t = id → same_tracked t t' → tk_premBest t' = tk_premBest t →
  tk_latched t' = (if d then true else tk_latched t) →
  (∀ d', d = Some d' → de_Shadow d' = negb (String.eqb (pl_Mode (tk_plan t)) ModeAct)) →
  run_inv {| rs_arbiter := {| ar_pos := <[po_Key p := t']> (ar_pos a); ar_opened := ar_opened a |}; rs_snaps := snaps;
             rs_decided := decided ++ match d with Some d => [(id, d)] | None => [] end; rs_tracked := opened |}.
Proof.
  intros [Hc He Hu [Hn Hf] Ho Hd] Ht <- (Hid & Hpos & Hplan) Hbest Hlatch Hshadow. simpl in *.
  pose proof (He _ _ Ht) as [Hkey Hop Hsafe Hb Hfresh Hsnap]. simpl in *.
  destruct (Hsnap p) as [Hl ->]; [by left|].
  apply NoDup_cons in Hn as [Hnew Hn]. apply Forall_cons in Hf as [Hlt Hf].
  assert (∀ q, (tk_id t, q) ∉ snaps) as Hgone.
  { intros q Hq. apply Hnew. apply list_elem_of_fmap. by exists (tk_id t, q). }
  split; simpl; [done| | |done| |].
  - intros k t0 [[<- <-]|[Hk H0]]%lookup_insert_Some.
    + split; simpl; rewrite ?Hid, ?Hpos, ?Hplan, ?Hbest; try done.
      * rewrite Hlatch. destruct d; [done|]. intros _. rewrite app_nil_r. by apply Hfresh.
      * by intros q Hq%Hgone.
    + pose proof (He _ _ H0) as [? ? ? ? Hfresh0 Hsnap0]. split; simpl in *; try done.
      * intros Hl0. rewrite fmap_app, elem_of_app. intros [Hin|Hin]; [by apply Hfresh0|].
        destruct d; simpl in Hin; [|by apply not_elem_of_nil in Hin].
        apply list_elem_of_singleton in Hin. apply Hk. by apply (Hu _ _ t t0).
      * intros q Hq. apply Hsnap0. by right.
  - intros k1 k2 t1 t2. rewrite !lookup_insert_Some.
    intros [[<- <-]|[Hk1 H1]] [[<- <-]|[Hk2 H2]] Heq; [done| | |by apply (Hu _ _ t1 t2)]; rewrite Hid in Heq.
    + by apply (Hu _ _ t t2).
    + by apply (Hu _ _ t1 t).
  - rewrite fmap_app, NoDup_app. split_and!; [done| |destruct d; simpl; [apply NoDup_singleton|constructor]].
    intros i Hi Hin. destruct d; simpl in Hin; [|by apply not_elem_of_nil in Hin].
    apply list_elem_of_singleton in Hin as ->. by apply Hfresh.
  - rewrite Forall_app. split; [done|]. destruct d as [d|]; [|constructor].
    apply Forall_singleton. simpl. eexists _, _. split; [exact Hop|]. by apply Hshadow.
Qed.

Lemma minute_eval_inv now armed snaps a decided opened :
  run_inv {| rs_arbiter := a; rs_snaps := snaps; rs_decided := decided; rs_tracked := opened |} →
  ∃ out a', minute_eval now armed snaps a = Some (out, a') ∧
    run_inv {| rs_arbiter := a'; rs_snaps := []; rs_decided := decided ++ out; rs_tracked := opened |}.
Proof.
  revert a decided. induction snaps as [|[id p] snaps IH]; intros a decided HI; simpl.
  - eexists [], a. split; [done|]. by rewrite app_nil_r.
  - pose proof (skip_snap_inv _ _ _ _ _ HI) as Hskip.
    destruct (ar_pos a !! po_Key p) as [t|] eqn:Ht; [|by apply IH].
    destruct (Nat.eqb_spec (tk_id t) id) as [Hid|_]; [|by apply IH].
    pose proof (ri_entries _ HI _ _ Ht) as [_ _ Hsafe Hb _ _].
    destruct (evaluate_tracked_spec now (armed p) t Hsafe Hb) as (d & t' & -> & Hsame & Hbest & Hl & Hs). simpl.
    destruct (IH _ _ (eval_snap_inv a id p snaps decided opened t d t' HI Ht Hid Hsame Hbest Hl Hs)) as (out & a' & -> & HI').
    simpl. eexists _, _. split; [reflexivity|]. rewrite <-app_assoc in HI'. by destruct d.
Qed.

Lemma tick_tracked_same token price t : same_tracked t (tick_tracked token price t).
Proof. done. Qed.

Lemma open_inv st p plan :
  run_inv st → po_PremEntry p <= 10 ^ 15 → plan_safe p plan →
  ∃ st', arbiter_run1 (MO := canonical_order) st (StepOpen p plan) = Some st' ∧ run_inv st'.
Proof.
  intros [Hc He Hu Hs Ho Hd] Hp Hsafe. unfold arbiter_run1. eexists. split; [reflexivity|]. unfold Open.
  assert (map_Forall (entry_ok st) (delete (po_Key p) (ar_pos (rs_arbiter st)))) as Hdel by by apply map_Forall_delete.
  case_match; simpl.
  - rewrite bool_decide_eq_true_2 by done. split; simpl; try done.
    + intros k t Ht. by eapply (entry_ok_other st); [..|by apply Hdel].
    + intros k1 k2 t1 t2 [_ H1]%lookup_delete_Some [_ H2]%lookup_delete_Some. by apply (Hu _ _ t1 t2).
  - rewrite bool_decide_eq_false_2 by lia.
    assert (∀ k t, delete (po_Key p) (ar_pos (rs_arbiter st)) !! k = Some t → (tk_id t < ar_opened (rs_arbiter st))%nat) as Hold.
    { intros k t Ht. pose proof (Hdel _ _ Ht) as [_ Hop _ _ _ _]. apply lookup_lt_Some in Hop. lia. }
    destruct Hs as [Hn Hf]. split; simpl.
    + rewrite length_app. simpl. lia.
    + intros k t [[<- <-]|[_ Ht]]%lookup_insert_Some.
      * split; simpl; try done.
        -- by rewrite lookup_app_r, <-Hc, Nat.sub_diag by lia.
        -- intros _ Hin. apply list_elem_of_fmap in Hin as (d & Heq & Hin).
           rewrite Forall_forall in Hd. destruct (Hd d) as (q & pl & Hq & _); [done|].
           apply lookup_lt_Some in Hq. lia.
        -- intros q Hq. rewrite Forall_forall in Hf. specialize (Hf _ Hq). simpl in Hf. lia.
      * pose proof (Hdel _ _ Ht) as [? ? ? ? ? ?]. split; simpl; try done. by apply lookup_app_l_Some.
    + intros k1 k2 t1 t2. rewrite !lookup_insert_Some.
      intros [[<- <-]|[Hk1 H1]] [[<- <-]|[Hk2 H2]] Heq; simpl in Heq; try done.
      * apply Hold in H2. lia.
      * apply Hold in H1. lia.
      * apply lookup_delete_Some in H1 as [_ H1], H2 as [_ H2]. by apply (Hu _ _ t1 t2).
    + split; [done|]. eapply Forall_impl; [exact Hf|]. simpl. lia.
    + done.
    + eapply Forall_impl; [exact Hd|]. intros d (q & pl & Hq & Hsh). exists q, pl. split; [by apply lookup_app_l_Some|done].
Qed.

Lemma run1_inv `{MO : MapOrder} st step : run_inv st → step_ok step → ∃ st', arbiter_run1 st step = Some st' ∧ run_inv st'.
Proof.
  intros HI Hok. destruct step as [p plan|key|token price| |now armed].
  - destruct Hok. by apply open_inv.
  - destruct HI as [Hc He Hu Hs Ho Hd]. eexists. split; [reflexivity|]. split; simpl; try done.
    + intros k t [_ Ht]%lookup_delete_Some. by eapply (entry_ok_other st); [..|by apply He].
    + intros k1 k2 t1 t2 [_ H1]%lookup_delete_Some [_ H2]%lookup_delete_Some. by apply (Hu _ _ t1 t2).
  - pose proof HI as [Hc He Hu Hs Ho Hd]. eexists. split; [reflexivity|]. unfold OnTick. case_match; [by destruct st|].
    simpl in Hok. split; simpl; try done.
    + intros k t. rewrite lookup_fmap. intros (t0 & H0 & ->)%fmap_Some.
      destruct (He _ _ H0) as [? ? ? ? ? ?]. split; simpl; try done. split; [case_match; lia|lia].
    + intros k1 k2 t1 t2. rewrite !lookup_fmap. intros (u1 & H1 & ->)%fmap_Some (u2 & H2 & ->)%fmap_Some.
      by apply (Hu _ _ u1 u2).
  - pose proof HI as [Hc He Hu Hs Ho Hd]. eexists. split; [reflexivity|].
    assert (∀ ip, ip ∈ minute_collect (rs_arbiter st) → ∃ k t, ar_pos (rs_arbiter st) !! k = Some t ∧
      ip = (tk_id t, tk_pos t) ∧ tk_latched t = false) as Hcol.
    { intros ip ([k t] & -> & [Hl Hr]%list_elem_of_filter)%list_elem_of_fmap. exists k, t. split; [by apply elem_of_range|done]. }
    split; simpl; try done.
    + intros k t Ht. destruct (He _ _ Ht) as [? ? ? ? ? ?]. split; simpl; try done.
      intros p Hp. destruct (Hcol _ Hp) as (k' & t' & Ht' & [= Hid ->] & Hl).
      assert (k = k') as <- by by apply (Hu _ _ t t'). by simplify_eq.
    + split; [|apply Forall_forall; intros ip (k & t & Ht & -> & _)%Hcol; simpl;
               destruct (He _ _ Ht) as [_ Hop _ _ _ _]; apply lookup_lt_Some in Hop; lia].
      unfold minute_collect. rewrite <-list_fmap_compose. apply NoDup_fmap_2_strong.
      * intros [k1 t1] [k2 t2] [_ H1%elem_of_range]%list_elem_of_filter [_ H2%elem_of_range]%list_elem_of_filter Heq.
        simpl in Heq. assert (k1 = k2) as <- by by apply (Hu _ _ t1 t2). by simplify_eq.
      * apply NoDup_filter. apply (NoDup_fmap_1 fst), range_nodup_keys.
  - destruct st as [a snaps decided opened]. destruct (minute_eval_inv now armed snaps a decided opened HI) as (out & a' & He & HI').
    simpl. rewrite He. by eexists.
Qed.

(** C17: A position decides at most once.  Whatever the entries, exits, ticks
    and minutes, in any interleaving (an exit or a new entry may fall between
    the start and the end of a minute's evaluation), the arbiter does not
    panic, no position it has tracked decides twice, and a decision is to act
    exactly when the plan the position was opened under says so. *)
Theorem arbiter_decides_once `{MO : MapOrder} steps :
  Forall step_ok steps →
  ∃ st, arbiter_run run_start steps = Some st ∧ NoDup (rs_decided st).*1 ∧
    Forall (λ d : nat * Decision, ∃ p plan, rs_tracked st !! d.1 = Some (p, plan) ∧
      de_Shadow d.2 = negb (String.eqb (pl_Mode plan) ModeAct)) (rs_decided st).
Proof.
  intros Hok. assert (run_inv run_start) as HI.
  { split; simpl; [done|apply map_Forall_empty|by intros k1 k2 t1 t2 ?%lookup_empty_Some|split; constructor|constructor|constructor]. }
  revert HI. generalize run_start. induction Hok as [|step steps Hstep _ IH]; intros st HI.
  - exists st. destruct HI. done.
  - destruct (run1_inv st step HI Hstep) as (st' & Hrun & HI'). simpl. rewrite Hrun. simpl. by apply IH.
Qed.

(** A CALL bought at 100.00 at 10:00 IST that is to gain 20.00 and loses
    50.00 a day to time. *)
Definition sample_position : Position := {|
  po_Key := "NIFTY50_SR|CALL"; po_Strategy := "NIFTY50_SR"; po_Side := "CALL"; po_IndexToken := "26000"; po_FNOToken := "43001";
  po_EntryTS := t_of_unix 1790051400; po_IndexEntry := 2450000; po_PremEntry := 10000;
  po_Greeks := Some {| eg_DeltaMilli := 500; eg_DecayPerDayPaise := 5000; eg_ExpGainPaise := 2000 |} |}.
Definition sample_plan : Plan := {| pl_Mode := ModeAct; pl_Rules := [ThetaRule DefaultThetaConfig] |}.
Definition at_minute (n : Z) : Time := t_of_unix 1790051400 + n * Minute.

(** Decay reaches a quarter of the gain at the 38th minute: the third
    evaluation is the second in a row to fire and decides; the fourth does not. *)
Lemma arbiter_decides_once_witness :
  let steps := [StepOpen sample_position sample_plan; StepTick "43001" 10050; StepTick "26000" 2450500;
    StepMinuteBegin; StepMinuteEnd (at_minute 30) (λ _, false); StepMinuteBegin; StepMinuteEnd (at_minute 38) (λ _, false);
    StepMinuteBegin; StepMinuteEnd (at_minute 39) (λ _, false); StepMinuteBegin; StepMinuteEnd (at_minute 40) (λ _, false)] in
  (λ st, (λ d : nat * Decision, (d.1, de_Shadow d.2, de_Text d.2)) <$> rs_decided st) <$> arbiter_run (MO := canonical_order) run_start steps =
    Some [(0%nat, false, "THETA CALL flat 39m decay=₹5.20 (26% of exp gain ₹20.00) modeled")] ∧
  ∃ st, arbiter_run (MO := canonical_order) run_start steps = Some st ∧ NoDup (rs_decided st).*1.
Proof.
  intros steps. split; [vm_compute; reflexivity|].
  destruct (@arbiter_decides_once canonical_order steps) as (st & Hrun & Hn & _); [|exists st; exact (conj Hrun Hn)].
  unfold steps. rewrite !Forall_cons, Forall_nil. unfold step_ok.
  split_and!; try exact I; try (apply Z.leb_le; reflexivity). exact (theta_safe DefaultThetaConfig sample_position).
Defined.

(** ** A rule decides when it is confirmed *)

(** The life of one position: its ticks and its minutes.  Histories are
    written newest first. *)
Inductive life_event :=
  | LifeTick (token : string) (price : Z)
  | LifeMinute (now : Time) (armed : bool).

Definition life_step (st : tracked * option Decision) (e : life_event) : option (tracked * option Decision) :=
  let '(t, d) := st in
  match e with
  | LifeTick token price => Some (if price <=? 0 then t else tick_tracked token price t, d)
  | LifeMinute now armed =>
      if tk_latched t then Some (t, d)
      else '(d', t') ← evaluate_tracked now armed t; Some (t', d')
  end.

Fixpoint life (p : Position) (plan : Plan) (es : list life_event) : option (tracked * option Decision) :=
  match es with
  | [] => Some (new_tracked 0 p plan, None)
  | e :: es => st ← life p plan es; life_step st e
  end.

(** What the minutes are to see. *)
Fixpoint last_price (token : string) (es : list life_event) : Z :=
  match es with
  | [] => 0
  | LifeTick tok price :: es => if String.eqb tok token && (0 <? price) then price else last_price token es
  | LifeMinute _ _ :: es => last_price token es
  end.

Fixpoint best_price (p : Position) (es : list life_event) : Z :=
  match es with
  | [] => po_PremEntry p
  | LifeTick tok price :: es => if String.eqb tok (po_FNOToken p) then Z.max price (best_price p es) else best_price p es
  | LifeMinute _ _ :: es => best_price p es
  end.

(** The time of the first minute that saw the best price [b]. *)
Fixpoint best_since (b : Z) (now : Time) (h : list Snapshot) : Time :=
  match h with
  | [] => now
  | s :: h => if sn_PremBest s =? b then best_since b (sn_Now s) h else now
  end.

Fixpoint minutes (p : Position) (es : list life_event) : list Snapshot :=
  match es with
  | [] => []
  | LifeTick _ _ :: es => minutes p es
  | LifeMinute now armed :: es =>
      let h := minutes p es in
      let b := best_price p es in {|
      sn_Now := now; sn_IndexLTP := last_price (po_IndexToken p) es; sn_PremLTP := last_price (po_FNOToken p) es;
      sn_PremBest := b; sn_PremBestTS := if b =? po_PremEntry p then po_EntryTS p else best_since b now h;
      sn_ProtectArmed := armed |} :: h
  end.

(** What the rules are to decide on a history. *)
Definition fires (r : Rule) (p : Position) (s : Snapshot) : bool :=
  match Evaluate r p s with Some (Some _) => true | _ => false end.

Fixpoint run_length (r : Rule) (p : Position) (h : list Snapshot) : Z :=
  match h with
  | [] => 0
  | s :: h => if fires r p s then 1 + run_length r p h else 0
  end.

(** The first rule of the plan to have fired for its confirmation minutes. *)
Definition verdict (p : Position) (rules : list Rule) (s : Snapshot) (h : list Snapshot) : option Decision :=
  foldr (λ r rest,
    if Z.max 1 (ConfirmMinutes r) <=? run_length r p (s :: h)
    then match Evaluate r p s with Some d => d | None => None end else rest) None rules.

Fixpoint first_verdict (p : Position) (rules : list Rule) (h : list Snapshot) : option Decision :=
  match h with
  | [] => None
  | s :: h => match first_verdict p rules h with Some d => Some d | None => verdict p rules s h end
  end.

Lemma run_length_bounds r p h : 0 <= run_length r p h <= Z.of_nat (length h).
Proof. induction h as [|s h IH]; [done|]. cbn [run_length length]. case_match; lia. Qed.

Lemma minutes_length p es : (length (minutes p es) <= length es)%nat.
Proof. induction es as [|[] es IH]; simpl; lia. Qed.

Lemma best_price_bounds p es :
  po_PremEntry p <= 10 ^ 15 → Forall (λ e, match e with LifeTick _ price => price <= 10 ^ 15 | _ => True end) es →
  po_PremEntry p <= best_price p es <= 10 ^ 15.
Proof. intros Hp. induction 1 as [|[token price|now armed] es He _ IH]; simpl; [lia| |done]. case_match; lia. Qed.

(** The rules of one minute: the streaks count the run of each rule, and the
    decision is the verdict. *)
Lemma eval_rules_verdict p s h rules streak :
  NoDup (Name <$> rules) → Forall (λ r, Evaluate r p s ≠ None) rules → Z.of_nat (length h) < 2 ^ 62 →
  Forall (λ r, default 0 (streak !! Name r) = run_length r p h) rules →
  ∃ streak', eval_rules p s rules streak = Some (verdict p rules s h, streak') ∧
    (∀ name, name ∉ Name <$> rules → streak' !! name = streak !! name) ∧
    (verdict p rules s h = None → Forall (λ r, default 0 (streak' !! Name r) = run_length r p (s :: h)) rules).
Proof.
  intros Hn Hsafe Hlen Hst. revert streak Hst. induction rules as [|r rules IH]; intros streak Hst.
  { exists streak. by repeat split. }
  apply NoDup_cons in Hn as [Hr Hn]. apply Forall_cons in Hsafe as [Hsr Hsafe]. apply Forall_cons in Hst as [Hstr Hst].
  pose proof (run_length_bounds r p h) as Hb.
  assert (∀ n, Forall (λ r0, default 0 (<[Name r := n]> streak !! Name r0) = run_length r0 p h) rules) as Hst'.
  { intros n. rewrite Forall_forall in *. intros r0 Hr0. rewrite lookup_insert_ne; [by apply Hst|].
    intros Heq. apply Hr. rewrite Heq. apply list_elem_of_fmap. by exists r0. }
  unfold verdict. cbn [eval_rules foldr run_length]. fold (verdict p rules s h). unfold fires.
  assert (∀ n, n = run_length r p (s :: h) → ∃ streak',
    eval_rules p s rules (<[Name r := n]> streak) = Some (verdict p rules s h, streak') ∧
    (∀ name, name ∉ Name r :: (Name <$> rules) → streak' !! name = streak !! name) ∧
    (verdict p rules s h = None → Forall (λ r, default 0 (streak' !! Name r) = run_length r p (s :: h)) (r :: rules))) as Hgo.
  { intros n Hnr. destruct (IH Hn Hsafe (<[Name r := n]> streak) (Hst' n)) as (streak' & He & Hother & Hv).
    exists streak'. split; [exact He|]. split.
    - intros name [Hne Hni]%not_elem_of_cons. rewrite Hother by done. by rewrite lookup_insert_ne.
    - intros Hnone. apply Forall_cons. split; [|by apply Hv]. rewrite Hother by done. by rewrite lookup_insert_eq. }
  cbn [run_length] in Hgo. unfold fires in Hgo.
  destruct (Evaluate r p s) as [[d|]|] eqn:Hev; simpl; [| |done].
  - rewrite Hstr, (i64_id (run_length r p h + 1)) by (i64_unfold; lia).
    destruct (Z.ltb_spec (run_length r p h + 1) (Z.max 1 (ConfirmMinutes r))).
    + rewrite (proj2 (Z.leb_gt _ _)) by lia. destruct (Hgo (run_length r p h + 1)) as (streak' & ? & ? & ?); [lia|by exists streak'].
    + rewrite (proj2 (Z.leb_le _ _)) by lia. eexists. split; [done|]. split; [|done].
      intros name [Hne _]%not_elem_of_cons. by rewrite lookup_insert_ne.
  - rewrite (proj2 (Z.leb_gt _ _)) by lia. by apply Hgo.
Qed.

Record life_inv (p : Position) (plan : Plan) (es : list life_event) (t : tracked) : Prop := {
  li_pos : tk_pos t = p;
  li_plan : tk_plan t = plan;
  li_open : tk_latched t = false;
  li_index : tk_indexLTP t = last_price (po_IndexToken p) es;
  li_prem : tk_premLTP t = last_price (po_FNOToken p) es;
  li_best : Z.max (tk_premBest t) (po_PremEntry p) = best_price p es;
  li_seen : tk_bestSeen t = match minutes p es with [] => po_PremEntry p | s :: _ => sn_PremBest s end;
  li_mono : po_PremEntry p <= tk_bestSeen t <= best_price p es;
  li_since : tk_bestTS t = match minutes p es with [] => po_EntryTS p | s :: _ => sn_PremBestTS s end ∧ t_is_zero (tk_bestTS t) = false;
  li_since_spec : match minutes p es with
    | [] => True
    | s :: h => sn_PremBestTS s = if sn_PremBest s =? po_PremEntry p then po_EntryTS p else best_since (sn_PremBest s) (sn_Now s) h
    end;
  li_streak : Forall (λ r, default 0 (tk_streak t !! Name r) = run_length r p (minutes p es)) (pl_Rules plan);
}.

Lemma tick_life p plan es t token price :
  po_IndexToken p ≠ po_FNOToken p → 0 < po_PremEntry p → life_inv p plan es t →
  life_inv p plan (LifeTick token price :: es) (if price <=? 0 then t else tick_tracked token price t).
Proof.
  intros Htok Hp [Hpos Hplan Hl Hi Hpr Hb Hs Hm Hts Hspec Hst].
  assert (po_PremEntry p <= best_price p es) by lia.
  destruct (Z.leb_spec price 0) as [Hz|Hz].
  - split; simpl; rewrite ?(proj2 (Z.ltb_ge 0 price)), ?andb_false_r by lia; try done; destruct (String.eqb _ _); lia.
  - rewrite <-Hpos in *. split; simpl; rewrite ?(proj2 (Z.ltb_lt 0 price)), ?andb_true_r by lia; try done;
      destruct (String.eqb_spec token (po_IndexToken (tk_pos t))) as [->|]; simpl; try done;
      rewrite ?(proj2 (String.eqb_neq _ _) Htok); try done;
      destruct (String.eqb_spec token (po_FNOToken (tk_pos t))); simpl; try done; try lia; destruct (Z.ltb_spec (tk_premBest t) price); lia.
Qed.

(** The minute's view is the one the history says. *)
Lemma see_best_life p plan es t now armed :
  t_is_zero now = false → life_inv p plan es t →
  snapshot_of now armed (see_best now t) :: minutes p es = minutes p (LifeMinute now armed :: es).
Proof.
  intros Hz [Hpos Hplan Hl Hi Hpr Hb Hs Hm [Hts Hnz] Hspec Hst].
  cbn [minutes]. f_equal. unfold snapshot_of, see_best. cbn [tk_indexLTP tk_premLTP tk_premBest tk_bestTS tk_pos].
  rewrite Hi, Hpr, Hpos, Hb, Hnz, orb_false_r. f_equal.
  destruct (Z.ltb_spec (tk_bestSeen t) (best_price p es)) as [Hlt|Hge].
  - rewrite (proj2 (Z.eqb_neq (best_price p es) _)) by lia.
    destruct (minutes p es) as [|s h]; [done|]. simpl. by rewrite (proj2 (Z.eqb_neq (sn_PremBest s) _)) by lia.
  - assert (best_price p es = tk_bestSeen t) as -> by lia. rewrite Hs, Hts.
    destruct (minutes p es) as [|s h]; [by rewrite Z.eqb_refl|]. rewrite Hspec. simpl. by rewrite Z.eqb_refl.
Qed.

Lemma minute_life p plan es t now armed :
  t_is_zero now = false → NoDup (Name <$> pl_Rules plan) → plan_safe p plan → po_PremEntry p <= 10 ^ 15 →
  Forall (λ e, match e with LifeTick _ price => price <= 10 ^ 15 | _ => True end) es → Z.of_nat (length es) < 2 ^ 62 →
  life_inv p plan es t →
  let h := minutes p es in let s := snapshot_of now armed (see_best now t) in
  ∃ t', evaluate_tracked now armed t = Some (option_map (under_mode plan) (verdict p (pl_Rules plan) s h), t') ∧
    tk_latched t' = (if verdict p (pl_Rules plan) s h then true else false) ∧
    (verdict p (pl_Rules plan) s h = None → life_inv p plan (LifeMinute now armed :: es) t').
Proof.
  intros Hz Hn Hsafe Hp Hes Hlen HI h s. pose proof (see_best_life p plan es t now armed Hz HI) as Hview.
  destruct HI as [Hpos Hplan Hl Hi Hpr Hb Hs Hm [Hts Hnz] Hspec Hst].
  destruct (eval_rules_verdict p s h (pl_Rules plan) (tk_streak t)) as (streak' & He & _ & Hv); try done.
  { eapply Forall_impl; [exact Hsafe|]. intros r Hr. apply Hr. simpl. rewrite Hpos, Hb. by apply best_price_bounds. }
  { unfold h. pose proof (minutes_length p es). lia. }
  unfold evaluate_tracked. cbv zeta. change (tk_pos (see_best now t)) with (tk_pos t).
  change (tk_plan (see_best now t)) with (tk_plan t). change (tk_streak (see_best now t)) with (tk_streak t).
  fold s. rewrite Hpos, Hplan, He. simpl. eexists. split; [reflexivity|]. simpl.
  split; [by destruct (verdict _ _ _ _)|]. intros Hnone. rewrite Hnone.
  split; try done; cbn [tk_bestSeen tk_bestTS tk_premBest tk_streak tk_pos]; rewrite ?Hpos; rewrite <-?Hview;
    try (cbn [sn_PremBest sn_PremBestTS snapshot_of tk_bestTS tk_pos tk_premBest see_best]; rewrite Hnz, orb_false_r, ?Hpos, Hb;
         destruct (Z.ltb_spec (tk_bestSeen t) (best_price p es)); simpl; split_and?; done || lia).
  by apply Hv.
Qed.

(** A rule decides when it is confirmed.  A position opened under a plan
    decides at the first minute at which some rule of the plan has fired for
    its confirmation minutes in a row (at least one), with the first such
    rule in the plan's order, and never again; every minute sees the last
    price of the index and of the option, the best price since the entry and
    when it was first seen. *)
Theorem position_decides_when_confirmed p plan es :
  NoDup (Name <$> pl_Rules plan) → plan_safe p plan → po_IndexToken p ≠ po_FNOToken p →
  0 < po_PremEntry p <= 10 ^ 15 → t_is_zero (po_EntryTS p) = false → Z.of_nat (length es) < 2 ^ 62 →
  Forall (λ e, match e with LifeTick _ price => price <= 10 ^ 15 | LifeMinute now _ => t_is_zero now = false end) es →
  snd <$> life p plan es = Some (option_map (under_mode plan) (first_verdict p (pl_Rules plan) (minutes p es))).
Proof.
  intros Hn Hsafe Htok Hp Hz Hlen Hes.
  enough (∃ t, life p plan es = Some (t, option_map (under_mode plan) (first_verdict p (pl_Rules plan) (minutes p es))) ∧
    match first_verdict p (pl_Rules plan) (minutes p es) with Some _ => tk_latched t = true | None => life_inv p plan es t end)
    as (t & -> & _) by done.
  induction Hes as [|e es He Hes IH].
  - eexists. split; [reflexivity|]. split; simpl; try done; try lia. apply Forall_forall. intros r _. by rewrite lookup_empty.
  - destruct IH as (t & Hlife & HI); [cbn [length] in Hlen; lia|]. cbn [life]. rewrite Hlife. cbn [mbind option_bind life_step].
    destruct e as [token price|now armed].
    + eexists. split; [reflexivity|]. cbn [minutes]. destruct (first_verdict _ _ _).
      * by case_match.
      * apply tick_life; [done|lia|done].
    + destruct (first_verdict p (pl_Rules plan) (minutes p es)) as [d|] eqn:Hd; cbn [option_map] in *.
      * rewrite HI. eexists. cbn [minutes first_verdict]. rewrite Hd. by split.
      * destruct (minute_life p plan es t now armed) as (t' & Heval & Hl & HI'); try done; [lia| |cbn [length] in Hlen; lia|].
        { eapply Forall_impl; [exact Hes|]. by intros []. }
        rewrite <-(see_best_life p plan es t now armed He HI), (li_open _ _ _ _ HI), Heval. simpl. rewrite Hd.
        eexists. split; [reflexivity|]. by destruct (verdict _ _ _ _); [|apply HI'].
Qed.

(** Two firing minutes, the second after a new best premium: newest first. *)
Lemma position_decides_when_confirmed_witness :
  let es := [LifeMinute (at_minute 40) false; LifeMinute (at_minute 39) false; LifeTick "43001" 10060;
             LifeMinute (at_minute 38) false; LifeTick "43001" 10050; LifeMinute (at_minute 1) false] in
  (λ s, (sn_PremBest s, (sn_PremBestTS s - at_minute 0) / Minute)) <$> minutes sample_position es =
    [(10060, 39); (10060, 39); (10050, 38); (10000, 0)] ∧
  option_map de_Text (first_verdict sample_position (pl_Rules sample_plan) (minutes sample_position es)) =
    Some "THETA CALL flat 39m decay=₹5.20 (26% of exp gain ₹20.00) modeled" ∧
  snd <$> life sample_position sample_plan es =
    Some (option_map (under_mode sample_plan) (first_verdict sample_position (pl_Rules sample_plan) (minutes sample_position es))).
Proof.
  intros es. split; [vm_compute; reflexivity|]. split; [vm_compute; reflexivity|].
  apply (position_decides_when_confirmed sample_position sample_plan es).
  - apply NoDup_singleton.
  - exact (theta_safe DefaultThetaConfig sample_position).
  - vm_compute. discriminate.
  - split; [reflexivity|apply Z.leb_le; reflexivity].
  - reflexivity.
  - reflexivity.
  - unfold es. rewrite !Forall_cons, Forall_nil. split_and!; try reflexivity; try exact I; apply Z.leb_le; reflexivity.
Defined.

(** The real-order strategy never acts, whatever the configuration. *)
Lemma real_strategy_shadows c plan : PlanFor RealOrderStrategy c = Some plan → pl_Mode plan = ModeShadow.
Proof. unfold PlanFor. destruct (c !! _); [|done]. case_match; [done|]. by intros [= <-]. Qed.

(** What [PlanFor] gives is safe to run. *)
Lemma plan_for_safe strategy c plan p : PlanFor strategy c = Some plan → plan_safe p plan.
Proof.
  unfold PlanFor. destruct (c !! strategy) as [sc|]; [|done]. case_match; [done|]. case_match; intros [= <-]; apply (theta_safe (sc_Theta sc) p).
Qed.
