(* ===== verification/RangeContext.v ===== *)
(** The multi-timeframe picture of an index under the SR strategy
    (internal/strategy: candle_patterns.go, range_context.go).  A date text
    "2006-01-02" is its day number, the empty text [None].  [None] as a result
    is a panic: an index out of range, a negative length, a division by
    zero. *)
From stdpp Require Import sorting.
From S2P Require Import Prelude Float64 Model MarketHours Indicators.
#[local] Open Scope Z_scope.
#[local] Open Scope go_scope.

(** ** Candle patterns (candle_patterns.go) *)

Record ohlcv := { b_Open : Z; b_High : Z; b_Low : Z; b_Close : Z; b_Volume : Z }.

Definition no_bar : ohlcv := {| b_Open := 0; b_High := 0; b_Low := 0; b_Close := 0; b_Volume := 0 |}.

Definition absInt64 (x : Z) : Z := if x <? 0 then -! x else x.

Definition bar_rng (b : ohlcv) : Z := b_High b -! b_Low b.
Definition bar_body (b : ohlcv) : Z := if b_Open b <=? b_Close b then b_Close b -! b_Open b else b_Open b -! b_Close b.
Definition upperWick (b : ohlcv) : Z := b_High b -! Z.max (b_Open b) (b_Close b).
Definition lowerWick (b : ohlcv) : Z := Z.min (b_Open b) (b_Close b) -! b_Low b.
Definition bullish (b : ohlcv) : bool := b_Open b <? b_Close b.
Definition bearish (b : ohlcv) : bool := b_Close b <? b_Open b.

Definition isHammer (b : ohlcv) : bool :=
  let r := bar_rng b in
  if r <=? 0 then false
  else
    let body := bar_body b in
    let lw := lowerWick b in
    let uw := upperWick b in
    (body *! 100 <=? r *! 35) && (2 *! body <=? lw) && (r *! 60 <=? lw *! 100) && (uw *! 100 <=? r *! 15).

Definition isShootingStar (b : ohlcv) : bool :=
  let r := bar_rng b in
  if r <=? 0 then false
  else
    let body := bar_body b in
    let lw := lowerWick b in
    let uw := upperWick b in
    (body *! 100 <=? r *! 35) && (2 *! body <=? uw) && (r *! 60 <=? uw *! 100) && (lw *! 100 <=? r *! 15).

Definition isBullishEngulfing (prev cur : ohlcv) : bool :=
  bearish prev && bullish cur && (b_Open cur <=? b_Close prev) && (b_Open prev <=? b_Close cur) && (bar_body prev <? bar_body cur).
Definition isBearishEngulfing (prev cur : ohlcv) : bool :=
  bullish prev && bearish cur && (b_Close prev <=? b_Open cur) && (b_Close cur <=? b_Open prev) && (bar_body prev <? bar_body cur).

Definition bullishReversal (prev cur : ohlcv) : bool := isHammer cur || isBullishEngulfing prev cur.
Definition bearishReversal (prev cur : ohlcv) : bool := isShootingStar cur || isBearishEngulfing prev cur.

(** ** Bars of [Minutes] minutes (range_context.go) *)

Definition sessionOpenMin : Z := 9 * 60 + 15.

(** [minutesIST] and [hhmm]. *)
Definition minutesIST (ts : Time) : Z := minute_of_day ts.
Definition hhmm (h m : Z) : Z := h *! 60 +! m.

Record tfBar := { tb_bar : ohlcv; tb_TS : Time }.
Definition zero_tfBar : tfBar := {| tb_bar := no_bar; tb_TS := zero_time |}.

Record tfAggregator := { ta_Minutes : Z; ta_Cur : tfBar; ta_Has : bool; ta_Day : option Z; ta_Bucket : Z }.
#[export] Instance tfAggregator_settable : Settable tfAggregator := λ a, {|
  ta_Minutes := ta_Minutes a; ta_Cur := ta_Cur a; ta_Has := ta_Has a; ta_Day := ta_Day a; ta_Bucket := ta_Bucket a |}.

Definition newAggregator (minutes : Z) : tfAggregator := {|
  ta_Minutes := minutes; ta_Cur := zero_tfBar; ta_Has := false; ta_Day := None; ta_Bucket := 0 |}.

(** A bar with a later one added. *)
Definition bar_add (cur b : ohlcv) : ohlcv := {|
  b_Open := b_Open cur; b_High := Z.max (b_High cur) (b_High b); b_Low := Z.min (b_Low cur) (b_Low b);
  b_Close := b_Close b; b_Volume := b_Volume cur +! b_Volume b |}.

(** The bar that closed, if any; [ta_Minutes] is not zero. *)
Definition push (ts : Time) (b : ohlcv) (a : tfAggregator) : option tfBar * tfAggregator :=
  let mins := minutesIST ts -! sessionOpenMin in
  if mins <? 0 then (None, a)
  else
    let day := Some (ist_day ts) in
    let bucket := mins /! ta_Minutes a in
    let '(closed, a) :=
      if ta_Has a && (negb (bool_decide (day = ta_Day a)) || negb (bucket =? ta_Bucket a))
      then (Some (ta_Cur a), a <| ta_Has := false |>) else (None, a) in
    let a :=
      if negb (ta_Has a) then
        {| ta_Minutes := ta_Minutes a;
           ta_Cur := {| tb_bar := b;
                        tb_TS := t_add (ist_midnight ts) ((sessionOpenMin +! bucket *! ta_Minutes a) *! Minute) |};
           ta_Has := true; ta_Day := day; ta_Bucket := bucket |}
      else a <| ta_Cur := {| tb_bar := bar_add (tb_bar (ta_Cur a)) b; tb_TS := tb_TS (ta_Cur a) |} |> in
    if mins %! ta_Minutes a =? ta_Minutes a -! 1 then
      match closed with
      | Some _ => (closed, a)
      | None => (Some (ta_Cur a), a <| ta_Has := false |>)
      end
    else (closed, a).

(** ** The range context *)

Definition RangeClass := string.
Definition RangeNone : RangeClass := "".
Definition RangeNarrow : RangeClass := "NARROW".
Definition RangeMedium : RangeClass := "MEDIUM".
Definition RangeWide : RangeClass := "WIDE".

Record RangeContextConfig := {
  rg_ADXPeriod : Z; rg_MaxADX : float64; rg_EMAPeriod : Z; rg_FlatSlopeBars : Z; rg_FlatSlopePts : Z; rg_BBPeriod : Z;
  rg_BBMult : float64; rg_BBSqueezePct : float64; rg_RSIPeriod : Z; rg_VolAvgBars : Z; rg_VolAvgBars5 : Z; rg_ATRPeriod : Z;
  rg_RequireFlatEMA : bool; rg_EntryMinutes : Z; rg_HTFEMAPeriod : Z; rg_HTFLevels : bool; rg_SwingWindow : Z;
  rg_LevelLookbackBars : Z; rg_LevelTolerancePts : Z; rg_MinTouches : Z; rg_UsePrevDayLevels : bool; rg_MinRangePts : Z;
  rg_MaxRangePts : Z; rg_NarrowMaxPts : Z; rg_MediumMaxPts : Z;
}.

Definition DefaultRangeContextConfig : RangeContextConfig := {|
  rg_ADXPeriod := 14; rg_MaxADX := f64_of_int 25; rg_EMAPeriod := 20; rg_FlatSlopeBars := 4; rg_FlatSlopePts := 2500;
  rg_BBPeriod := 20; rg_BBMult := f64_of_int 2; rg_BBSqueezePct := f64_frac 8 10; rg_RSIPeriod := 14; rg_VolAvgBars := 20;
  rg_VolAvgBars5 := 12; rg_ATRPeriod := 14; rg_RequireFlatEMA := false; rg_EntryMinutes := 0; rg_HTFEMAPeriod := 20;
  rg_HTFLevels := false; rg_SwingWindow := 2; rg_LevelLookbackBars := 50; rg_LevelTolerancePts := 1500; rg_MinTouches := 2;
  rg_UsePrevDayLevels := true; rg_MinRangePts := 5000; rg_MaxRangePts := 30000; rg_NarrowMaxPts := 10000;
  rg_MediumMaxPts := 20000;
|}.

Record RangeState := {
  rs_InRange : bool; rs_Support : Z; rs_Resistance : Z; rs_SupTouches : Z; rs_ResTouches : Z; rs_Width : Z;
  rs_Class : RangeClass; rs_ADX : float64; rs_ADXReady : bool; rs_EMAFlat : bool; rs_Squeeze : bool; rs_RSI5 : float64;
  rs_RSIReady : bool; rs_ATR15 : Z; rs_HTFEMA : Z; rs_HTFTrend : Z;
}.

Definition zero_RangeState : RangeState := {|
  rs_InRange := false; rs_Support := 0; rs_Resistance := 0; rs_SupTouches := 0; rs_ResTouches := 0; rs_Width := 0;
  rs_Class := RangeNone; rs_ADX := f64_zero; rs_ADXReady := false; rs_EMAFlat := false; rs_Squeeze := false;
  rs_RSI5 := f64_zero; rs_RSIReady := false; rs_ATR15 := 0; rs_HTFEMA := 0; rs_HTFTrend := 0 |}.

Record rangeContext := {
  rc_cfg : RangeContextConfig;
  rc_agg5 : tfAggregator; rc_agg15 : tfAggregator; rc_aggE : tfAggregator; rc_agg60 : tfAggregator;
  rc_adx15 : ADX; rc_ema15 : EMA; rc_bb15 : Bollinger; rc_atr15 : ATR; rc_rsi5 : RSI; rc_ema60 : EMA;
  rc_closedE : bool; rc_barsE : list tfBar; rc_bars60 : list tfBar;
  rc_closed5 : bool;
  rc_extVol : gmap Z Z;
  rc_bars15 : list tfBar; rc_bars5 : list tfBar; rc_bars1 : list ohlcv; rc_emaHist : list Z;
  rc_curDay : option Z; rc_dayOpen : Z; rc_dayHigh : Z; rc_dayLow : Z; rc_prevDayHigh : Z; rc_prevDayLow : Z;
  rc_lastTS : Time;
  rc_state : RangeState;
}.

#[export] Instance rangeContext_settable : Settable rangeContext := λ r, {|
  rc_cfg := rc_cfg r; rc_agg5 := rc_agg5 r; rc_agg15 := rc_agg15 r; rc_aggE := rc_aggE r; rc_agg60 := rc_agg60 r;
  rc_adx15 := rc_adx15 r; rc_ema15 := rc_ema15 r; rc_bb15 := rc_bb15 r; rc_atr15 := rc_atr15 r; rc_rsi5 := rc_rsi5 r;
  rc_ema60 := rc_ema60 r; rc_closedE := rc_closedE r; rc_barsE := rc_barsE r; rc_bars60 := rc_bars60 r;
  rc_closed5 := rc_closed5 r; rc_extVol := rc_extVol r; rc_bars15 := rc_bars15 r; rc_bars5 := rc_bars5 r;
  rc_bars1 := rc_bars1 r; rc_emaHist := rc_emaHist r; rc_curDay := rc_curDay r; rc_dayOpen := rc_dayOpen r;
  rc_dayHigh := rc_dayHigh r; rc_dayLow := rc_dayLow r; rc_prevDayHigh := rc_prevDayHigh r;
  rc_prevDayLow := rc_prevDayLow r; rc_lastTS := rc_lastTS r; rc_state := rc_state r |}.

Definition entryMinutes (cfg : RangeContextConfig) : Z :=
  if (rg_EntryMinutes cfg =? 2) || (rg_EntryMinutes cfg =? 3) then rg_EntryMinutes cfg else 0.
Definition htfPeriod (cfg : RangeContextConfig) : Z := if 0 <? rg_HTFEMAPeriod cfg then rg_HTFEMAPeriod cfg else 20.
Definition atrPeriod (cfg : RangeContextConfig) : Z := if 0 <? rg_ATRPeriod cfg then rg_ATRPeriod cfg else 14.

Definition newRangeContext (cfg : RangeContextConfig) : option rangeContext :=
  bb ← NewBollinger (rg_BBPeriod cfg) (rg_BBMult cfg);
  Some {| rc_cfg := cfg; rc_agg5 := newAggregator 5; rc_agg15 := newAggregator 15; rc_aggE := newAggregator (entryMinutes cfg);
    rc_agg60 := newAggregator 60; rc_adx15 := NewADX (rg_ADXPeriod cfg); rc_ema15 := NewEMA (rg_EMAPeriod cfg); rc_bb15 := bb;
    rc_atr15 := NewATR (atrPeriod cfg); rc_rsi5 := NewRSI (rg_RSIPeriod cfg); rc_ema60 := NewEMA (htfPeriod cfg);
    rc_closedE := false; rc_barsE := []; rc_bars60 := []; rc_closed5 := false; rc_extVol := ∅; rc_bars15 := []; rc_bars5 := [];
    rc_bars1 := []; rc_emaHist := []; rc_curDay := None; rc_dayOpen := 0; rc_dayHigh := 0; rc_dayLow := 0;
    rc_prevDayHigh := 0; rc_prevDayLow := 0; rc_lastTS := zero_time; rc_state := zero_RangeState |}.

Definition addVolume (minute : Time) (vol : Z) (rc : rangeContext) : rangeContext :=
  if vol <=? 0 then rc
  else
    let k := t_unix minute in
    let m := <[k := default 0 (rc_extVol rc !! k) +! vol]> (rc_extVol rc) in
    rc <| rc_extVol := if 120 <? Z.of_nat (size m)
                       then filter (λ kv, ~ kv.1 < t_unix (t_add minute (- Hour))) m else m |>.

Definition toModelCandle (b : ohlcv) (ts : Time) : Candle := {|
  c_Token := ""; c_Exchange := ""; c_TS := ts; c_Open := b_Open b; c_High := b_High b; c_Low := b_Low b;
  c_Close := b_Close b; c_Volume := b_Volume b; c_TicksCount := 0 |}.
Definition bar_candle (bar : tfBar) : Candle := toModelCandle (tb_bar bar) (tb_TS bar).

(** [l[len(l)-keep:]] when [l] is longer than [keep]. *)
Definition keep_last {A} (keep : Z) (l : list A) : option (list A) :=
  if Z.of_nat (length l) <=? keep then Some l
  else if keep <? 0 then None
  else Some (drop (length l - Z.to_nat keep) l).

Definition on5m (bar : tfBar) (rc : rangeContext) : option rangeContext :=
  bars ← keep_last (rg_RSIPeriod (rc_cfg rc) *! 3) (rc_bars5 rc ++ [bar]);
  Some (rc <| rc_rsi5 := RSI_Update (bar_candle bar) (rc_rsi5 rc) |> <| rc_bars5 := bars |>).

Definition onEntry (bar : tfBar) (rc : rangeContext) : option rangeContext :=
  bars ← keep_last 64 (rc_barsE rc ++ [bar]);
  Some (rc <| rc_barsE := bars |>).

Definition on60m (bar : tfBar) (rc : rangeContext) : option rangeContext :=
  bars ← keep_last (htfPeriod (rc_cfg rc) *! 3) (rc_bars60 rc ++ [bar]);
  Some (rc <| rc_ema60 := EMA_Update (bar_candle bar) (rc_ema60 rc) |> <| rc_bars60 := bars |>).

Definition historyKeep15 (cfg : RangeContextConfig) : Z :=
  let n := rg_LevelLookbackBars cfg in
  let w := rg_ADXPeriod cfg *! 4 +! 2 in
  let n := if n <? w then w else n in
  if n <? rg_EMAPeriod cfg *! 3 then rg_EMAPeriod cfg *! 3 else n.

Definition on15m (bar : tfBar) (rc : rangeContext) : option rangeContext :=
  let c := bar_candle bar in
  let ema := EMA_Update c (rc_ema15 rc) in
  bb ← Bollinger_Update c (rc_bb15 rc);
  hist ← (if EMA_Ready ema
          then keep_last (rg_FlatSlopeBars (rc_cfg rc) +! 1) (rc_emaHist rc ++ [f64_to_int (ema_current ema)])
          else Some (rc_emaHist rc));
  bars ← keep_last (historyKeep15 (rc_cfg rc)) (rc_bars15 rc ++ [bar]);
  Some (rc <| rc_adx15 := ADX_Update c (rc_adx15 rc) |> <| rc_ema15 := ema |> <| rc_bb15 := bb |>
           <| rc_atr15 := ATR_Update c (rc_atr15 rc) |> <| rc_emaHist := hist |> <| rc_bars15 := bars |>).

(** ** Levels *)

Record levelCluster := { lc_level : Z; lc_touches : Z }.

(** [sort.Slice] on prices. *)
Definition sort_prices (points : list Z) : list Z := merge_sort Z.le points.

(** The loop of [clusterLevels] over sorted points. *)
Fixpoint cluster_loop (tol start sum count : Z) (points : list Z) : option (list levelCluster) :=
  let flush := if count =? 0 then None else Some {| lc_level := sum /! count; lc_touches := count |} in
  match points with
  | [] => c ← flush; Some [c]
  | p :: points =>
      if tol <? p -! start then
        c ← flush;
        rest ← cluster_loop tol p p 1 points;
        Some (c :: rest)
      else cluster_loop tol start (sum +! p) (count +! 1) points
  end.

Definition clusterLevels (points : list Z) (tol : Z) : option (list levelCluster) :=
  match sort_prices points with
  | [] => Some []
  | (p :: _) as sorted => cluster_loop tol p 0 0 sorted
  end.

(** The swing highs and lows of a list of bars: no bar within [w] on either
    side goes beyond. *)
Definition swings (w : Z) (bars : list tfBar) : option (list Z * list Z) :=
  if w <? 0 then None
  else
    let w := Z.to_nat w in
    let at_each (price : tfBar → Z) (beyond : Z → Z → bool) :=
      omap (λ i,
        bar ← bars !! i;
        let around := take (2 * w + 1) (drop (i - w) bars) in
        if existsb (λ b, beyond (price b) (price bar)) around then None else Some (price bar))
        (seq w (length bars - 2 * w)) in
    Some (at_each (λ b, b_High (tb_bar b)) (λ x y, y <? x), at_each (λ b, b_Low (tb_bar b)) (λ x y, x <? y)).

Definition swingOnly (rc : rangeContext) : option (list Z * list Z) :=
  bars ← keep_last (rg_LevelLookbackBars (rc_cfg rc)) (rc_bars15 rc);
  '(highs, lows) ← swings (rg_SwingWindow (rc_cfg rc)) bars;
  if rg_HTFLevels (rc_cfg rc) then
    '(h, l) ← swings (rg_SwingWindow (rc_cfg rc)) (rc_bars60 rc);
    Some (highs ++ h, lows ++ l)
  else Some (highs, lows).

Definition swingPoints (rc : rangeContext) : option (list Z * list Z) :=
  '(highs, lows) ← swingOnly rc;
  Some (if rg_UsePrevDayLevels (rc_cfg rc) && (0 <? rc_prevDayHigh rc)
        then (highs ++ [rc_prevDayHigh rc], lows ++ [rc_prevDayLow rc]) else (highs, lows)).

(** [levels]: support with its touches, resistance with its touches. *)
Definition range_levels (price : Z) (rc : rangeContext) : option (Z * Z * (Z * Z)) :=
  '(highs, lows) ← swingPoints rc;
  let tol := rg_LevelTolerancePts (rc_cfg rc) in
  let touched c := rg_MinTouches (rc_cfg rc) <=? lc_touches c in
  below ← clusterLevels lows tol;
  above ← clusterLevels highs tol;
  Some (foldl (λ '(sup, supT) c,
          if touched c && (lc_level c <=? price +! tol) && (sup <? lc_level c) then (lc_level c, lc_touches c)
          else (sup, supT)) (0, 0) below,
        foldl (λ '(res, resT) c,
          if touched c && (price -! tol <=? lc_level c) && ((res =? 0) || (lc_level c <? res)) then (lc_level c, lc_touches c)
          else (res, resT)) (0, 0) above).

(** ** The view *)

(** [l[i]] of a list of prices. *)
Definition price_at (l : list Z) (i : Z) : option Z := if i <? 0 then None else l !! Z.to_nat i.

Definition ema_flat (rc : rangeContext) : option bool :=
  let n := Z.of_nat (length (rc_emaHist rc)) in
  let back := rg_FlatSlopeBars (rc_cfg rc) in
  if back <? n then
    now ← price_at (rc_emaHist rc) (n -! 1);
    before ← price_at (rc_emaHist rc) (n -! 1 -! back);
    Some (absInt64 (now -! before) <=? rg_FlatSlopePts (rc_cfg rc))
  else Some false.

Definition range_class (cfg : RangeContextConfig) (width : Z) : RangeClass :=
  if width <? rg_NarrowMaxPts cfg then RangeNarrow else if width <? rg_MediumMaxPts cfg then RangeMedium else RangeWide.

Definition range_refresh (price : Z) (rc : rangeContext) : option rangeContext :=
  let cfg := rc_cfg rc in
  let adx := Value (rc_adx15 rc) in
  flat ← ema_flat rc;
  '(sup, supT, (res, resT)) ← range_levels price rc;
  let ranged := (0 <? sup) && (sup <? res) in
  let width := if ranged then res -! sup else 0 in
  let htf := if EMA_Ready (rc_ema60 rc) then f64_to_int (Value (rc_ema60 rc)) else 0 in
  Some (rc <| rc_state := {|
    rs_InRange := Ready (rc_adx15 rc) && (adx <. rg_MaxADX cfg) && (flat || negb (rg_RequireFlatEMA cfg)) &&
                  (rg_MinRangePts cfg <=? width) && (width <=? rg_MaxRangePts cfg);
    rs_Support := sup; rs_Resistance := res; rs_SupTouches := supT; rs_ResTouches := resT; rs_Width := width;
    rs_Class := if ranged then range_class cfg width else RangeNone;
    rs_ADX := adx; rs_ADXReady := Ready (rc_adx15 rc); rs_EMAFlat := flat;
    rs_Squeeze := IsSqueezing (rg_BBSqueezePct cfg) (rc_bb15 rc);
    rs_RSI5 := Value (rc_rsi5 rc); rs_RSIReady := Ready (rc_rsi5 rc);
    rs_ATR15 := if ATR_Ready (rc_atr15 rc) then f64_to_int (Value (rc_atr15 rc)) else 0;
    rs_HTFEMA := htf;
    rs_HTFTrend := if EMA_Ready (rc_ema60 rc)
                   then (if htf <? price then 1 else if price <? htf then -1 else 0) else 0 |} |>).

(** ** Feeding 1m candles *)

(** A series' aggregator is fed and what closes goes to its handler; true
    when a bar closed. *)
Definition feed_series (agg : rangeContext → tfAggregator) (store : tfAggregator → rangeContext → rangeContext)
    (on : tfBar → rangeContext → option rangeContext) (ts : Time) (b : ohlcv) (rc : rangeContext) : option (bool * rangeContext) :=
  let '(closed, a) := push ts b (agg rc) in
  let rc := store a rc in
  match closed with
  | Some bar => rc ← on bar rc; Some (true, rc)
  | None => Some (false, rc)
  end.

(** The day's open and extremes, and the day before's. *)
Definition roll_day (ts : Time) (b : ohlcv) (rc : rangeContext) : rangeContext :=
  let day := Some (ist_day ts) in
  if bool_decide (day ≠ rc_curDay rc) then
    let rc := if bool_decide (rc_curDay rc ≠ None)
              then rc <| rc_prevDayHigh := rc_dayHigh rc |> <| rc_prevDayLow := rc_dayLow rc |> else rc in
    rc <| rc_curDay := day |> <| rc_dayOpen := b_Open b |> <| rc_dayHigh := b_High b |> <| rc_dayLow := b_Low b |>
  else rc <| rc_dayHigh := Z.max (rc_dayHigh rc) (b_High b) |> <| rc_dayLow := Z.min (rc_dayLow rc) (b_Low b) |>.

(** The bar with the external volume of its minute, when it has none. *)
Definition fill_volume (ts : Time) (b : ohlcv) (rc : rangeContext) : ohlcv * rangeContext :=
  match (if b_Volume b =? 0 then rc_extVol rc !! t_unix ts else None) with
  | Some v => ({| b_Open := b_Open b; b_High := b_High b; b_Low := b_Low b; b_Close := b_Close b; b_Volume := v |},
               rc <| rc_extVol := delete (t_unix ts) (rc_extVol rc) |>)
  | None => (b, rc)
  end.

(** [update]: false for a duplicate or late candle. *)
Definition range_update (ts : Time) (b : ohlcv) (rc : rangeContext) : option (bool * rangeContext) :=
  if negb (t_is_zero (rc_lastTS rc)) && negb (t_after ts (rc_lastTS rc)) then Some (false, rc)
  else
    let rc := rc <| rc_lastTS := ts |> <| rc_closed5 := false |> <| rc_closedE := false |> in
    let '(b, rc) := fill_volume ts b rc in
    let rc := roll_day ts b rc in
    bars1 ← keep_last (rg_VolAvgBars (rc_cfg rc) +! 1) (rc_bars1 rc ++ [b]);
    let rc := rc <| rc_bars1 := bars1 |> in
    '(closed5, rc) ← feed_series rc_agg5 (λ a rc, rc <| rc_agg5 := a |>) on5m ts b rc;
    let rc := rc <| rc_closed5 := closed5 |> in
    '(_, rc) ← feed_series rc_agg15 (λ a rc, rc <| rc_agg15 := a |>) on15m ts b rc;
    rc ← (if 0 <? ta_Minutes (rc_aggE rc) then
            '(closedE, rc) ← feed_series rc_aggE (λ a rc, rc <| rc_aggE := a |>) onEntry ts b rc;
            Some (rc <| rc_closedE := closedE |>)
          else Some rc);
    '(_, rc) ← feed_series rc_agg60 (λ a rc, rc <| rc_agg60 := a |>) on60m ts b rc;
    rc ← range_refresh (b_Close b) rc;
    Some (true, rc).

(** ** Bars and volume for the setups *)

(** The last two elements. *)
Definition last_two {A} (l : list A) : option (A * A) :=
  match reverse l with cur :: prev :: _ => Some (prev, cur) | _ => None end.

Definition lastBars (rc : rangeContext) : option (ohlcv * ohlcv) := last_two (rc_bars1 rc).
Definition lastBars5 (rc : rangeContext) : option (ohlcv * ohlcv) :=
  '(prev, cur) ← last_two (rc_bars5 rc); Some (tb_bar prev, tb_bar cur).

Definition sum_volume (l : list ohlcv) : Z := foldl (λ sum b, sum +! b_Volume b) 0 l.

(** [volumeAtLeastSeries]: the last bar against the average of the [k]
    before it. *)
Definition volumeAtLeastSeries (bars : list tfBar) (k pct : Z) (required : bool) : bool :=
  let k := if k <=? 0 then 12 else k in
  let n := Z.of_nat (length bars) in
  match last_two (tb_bar <$> bars) with
  | None => negb required
  | Some (_, cur) =>
      let start := Z.max 0 (n -! 1 -! k) in
      let before := take (Z.to_nat (n - 1 - start)) (drop (Z.to_nat start) (tb_bar <$> bars)) in
      let avg := sum_volume before /! (n -! 1 -! start) in
      if avg <=? 0 then negb required else avg *! pct <=? b_Volume cur *! 100
  end.

Definition volumeAtLeast5 (pct : Z) (required : bool) (rc : rangeContext) : bool :=
  volumeAtLeastSeries (rc_bars5 rc) (rg_VolAvgBars5 (rc_cfg rc)) pct required.

Definition avgVolume (rc : rangeContext) : Z :=
  let n := length (rc_bars1 rc) in
  if (n <? 2)%nat then 0 else sum_volume (take (n - 1) (rc_bars1 rc)) /! (Z.of_nat n -! 1).

Definition volumeAtLeast (pct : Z) (required : bool) (rc : rangeContext) : bool :=
  let avg := avgVolume rc in
  match last (rc_bars1 rc) with
  | Some cur => if avg <=? 0 then negb required else avg *! pct <=? b_Volume cur *! 100
  | None => negb required
  end.

(** ** Snapshot and restore *)

Record rangeContextSnapshot := {
  rsn_Bars15 : list tfBar; rsn_Bars5 : list tfBar; rsn_Bars1 : list ohlcv; rsn_Agg5 : tfAggregator; rsn_Agg15 : tfAggregator;
  rsn_BarsE : list tfBar; rsn_AggE : tfAggregator; rsn_Bars60 : list tfBar; rsn_Agg60 : tfAggregator; rsn_CurDay : option Z;
  rsn_DayOpen : Z; rsn_DayHigh : Z; rsn_DayLow : Z; rsn_PrevDayHigh : Z; rsn_PrevDayLow : Z; rsn_LastTS : Time;
}.

Definition range_snapshot (rc : rangeContext) : rangeContextSnapshot := {|
  rsn_Bars15 := rc_bars15 rc; rsn_Bars5 := rc_bars5 rc; rsn_Bars1 := rc_bars1 rc; rsn_Agg5 := rc_agg5 rc;
  rsn_Agg15 := rc_agg15 rc; rsn_BarsE := rc_barsE rc; rsn_AggE := rc_aggE rc; rsn_Bars60 := rc_bars60 rc;
  rsn_Agg60 := rc_agg60 rc; rsn_CurDay := rc_curDay rc; rsn_DayOpen := rc_dayOpen rc; rsn_DayHigh := rc_dayHigh rc;
  rsn_DayLow := rc_dayLow rc; rsn_PrevDayHigh := rc_prevDayHigh rc; rsn_PrevDayLow := rc_prevDayLow rc;
  rsn_LastTS := rc_lastTS rc |}.

Definition replay_bars (on : tfBar → rangeContext → option rangeContext) (bars : list tfBar) (rc : rangeContext) :
    option rangeContext :=
  foldl (λ rc bar, rc ← rc; on bar rc) (Some rc) bars.

Definition restoreRangeContext (cfg : RangeContextConfig) (s : rangeContextSnapshot) : option rangeContext :=
  rc ← newRangeContext cfg;
  rc ← replay_bars on15m (rsn_Bars15 s) rc;
  rc ← replay_bars on5m (rsn_Bars5 s) rc;
  rc ← replay_bars on60m (rsn_Bars60 s) rc;
  rc ← replay_bars onEntry (rsn_BarsE s) rc;
  let rc := if 0 <? ta_Minutes (rsn_Agg60 s) then rc <| rc_agg60 := rsn_Agg60 s |> else rc in
  let rc := if (0 <? ta_Minutes (rsn_AggE s)) && (ta_Minutes (rsn_AggE s) =? ta_Minutes (rc_aggE rc))
            then rc <| rc_aggE := rsn_AggE s |> else rc in
  let rc := rc <| rc_bars1 := rsn_Bars1 s |> in
  let rc := if 0 <? ta_Minutes (rsn_Agg5 s) then rc <| rc_agg5 := rsn_Agg5 s |> else rc in
  let rc := if 0 <? ta_Minutes (rsn_Agg15 s) then rc <| rc_agg15 := rsn_Agg15 s |> else rc in
  let rc := rc <| rc_curDay := rsn_CurDay s |> <| rc_dayOpen := rsn_DayOpen s |> <| rc_dayHigh := rsn_DayHigh s |>
               <| rc_dayLow := rsn_DayLow s |> <| rc_prevDayHigh := rsn_PrevDayHigh s |>
               <| rc_prevDayLow := rsn_PrevDayLow s |> <| rc_lastTS := rsn_LastTS s |> in
  match last (rc_bars1 rc) with
  | Some b => range_refresh (b_Close b) rc
  | None => Some rc
  end.
