(* ===== verification/SrContext.v ===== *)
(** Support and resistance, VWAP and the market regime of an index
    (internal/strategy/sr_context.go), over the range context.

    The SR context never panics under a sensible configuration: what its
    updates and its restore need of the configuration, and the invariant of
    its state that carries it. *)
From stdpp Require Import sorting.
From S2P Require Import Prelude Float64 Model MarketHours Indicators RangeContext.
#[local] Open Scope Z_scope.
#[local] Open Scope go_scope.

Definition SRRegime := string.
Definition SRRegimeNone : SRRegime := "".
Definition SRRegimeRange : SRRegime := "RANGE".
Definition SRRegimeTrendUp : SRRegime := "TREND_UP".
Definition SRRegimeTrendDown : SRRegime := "TREND_DOWN".
Definition SRRegimeMixed : SRRegime := "MIXED".
Definition SRRegimeDead : SRRegime := "DEAD".

Definition SRLevelSwing : string := "SWING".
Definition SRLevelPrevDay : string := "PREV_DAY".
Definition SRLevelOpening : string := "OPENING".

Record SRLevel := { lv_Price : Z; lv_Touches : Z; lv_Source : string }.

Record SRContextConfig := {
  sx_Range : RangeContextConfig; sx_EMAFast : Z; sx_EMASlow : Z; sx_RangeMaxADX : float64; sx_TrendMinADX : float64;
  sx_VWAPSlopeBars : Z; sx_FlatVWAPSlopePts : Z; sx_MinVWAPCrosses : Z; sx_MinATRPts : Z; sx_OpeningRangeEndMin : Z;
}.

Definition DefaultSRContextConfig : SRContextConfig :=
  let rg := DefaultRangeContextConfig in {|
  sx_Range := {|
    rg_ADXPeriod := rg_ADXPeriod rg; rg_MaxADX := rg_MaxADX rg; rg_EMAPeriod := rg_EMAPeriod rg;
    rg_FlatSlopeBars := rg_FlatSlopeBars rg; rg_FlatSlopePts := rg_FlatSlopePts rg; rg_BBPeriod := rg_BBPeriod rg;
    rg_BBMult := rg_BBMult rg; rg_BBSqueezePct := rg_BBSqueezePct rg; rg_RSIPeriod := rg_RSIPeriod rg;
    rg_VolAvgBars := rg_VolAvgBars rg; rg_VolAvgBars5 := rg_VolAvgBars5 rg; rg_ATRPeriod := rg_ATRPeriod rg;
    rg_RequireFlatEMA := rg_RequireFlatEMA rg; rg_EntryMinutes := 5; rg_HTFEMAPeriod := rg_HTFEMAPeriod rg;
    rg_HTFLevels := rg_HTFLevels rg; rg_SwingWindow := rg_SwingWindow rg; rg_LevelLookbackBars := rg_LevelLookbackBars rg;
    rg_LevelTolerancePts := rg_LevelTolerancePts rg; rg_MinTouches := rg_MinTouches rg;
    rg_UsePrevDayLevels := rg_UsePrevDayLevels rg; rg_MinRangePts := rg_MinRangePts rg; rg_MaxRangePts := rg_MaxRangePts rg;
    rg_NarrowMaxPts := rg_NarrowMaxPts rg; rg_MediumMaxPts := rg_MediumMaxPts rg |};
  sx_EMAFast := 9; sx_EMASlow := 21; sx_RangeMaxADX := f64_of_int 22; sx_TrendMinADX := f64_of_int 25; sx_VWAPSlopeBars := 6;
  sx_FlatVWAPSlopePts := 1500; sx_MinVWAPCrosses := 2; sx_MinATRPts := 1200; sx_OpeningRangeEndMin := hhmm 9 30;
|}.

Record SRState := {
  ss_Range : RangeState; ss_Regime : SRRegime; ss_VWAP : Z; ss_VWAPSlope : Z; ss_Crosses : Z; ss_EMAFast : Z; ss_EMASlow : Z;
  ss_EMAReady : bool; ss_ORHigh : Z; ss_ORLow : Z; ss_PrevDayHigh : Z; ss_PrevDayLow : Z; ss_DayOpen : Z; ss_DayHigh : Z;
  ss_DayLow : Z; ss_Levels : list SRLevel;
}.

Definition zero_SRState : SRState := {|
  ss_Range := zero_RangeState; ss_Regime := SRRegimeNone; ss_VWAP := 0; ss_VWAPSlope := 0; ss_Crosses := 0; ss_EMAFast := 0;
  ss_EMASlow := 0; ss_EMAReady := false; ss_ORHigh := 0; ss_ORLow := 0; ss_PrevDayHigh := 0; ss_PrevDayLow := 0;
  ss_DayOpen := 0; ss_DayHigh := 0; ss_DayLow := 0; ss_Levels := [] |}.

#[export] Instance SRState_settable : Settable SRState := λ s, {|
  ss_Range := ss_Range s; ss_Regime := ss_Regime s; ss_VWAP := ss_VWAP s; ss_VWAPSlope := ss_VWAPSlope s;
  ss_Crosses := ss_Crosses s; ss_EMAFast := ss_EMAFast s; ss_EMASlow := ss_EMASlow s; ss_EMAReady := ss_EMAReady s;
  ss_ORHigh := ss_ORHigh s; ss_ORLow := ss_ORLow s; ss_PrevDayHigh := ss_PrevDayHigh s; ss_PrevDayLow := ss_PrevDayLow s;
  ss_DayOpen := ss_DayOpen s; ss_DayHigh := ss_DayHigh s; ss_DayLow := ss_DayLow s; ss_Levels := ss_Levels s |}.

Record srContext := {
  sc_cfg : SRContextConfig; sc_rc : rangeContext; sc_emaFast : EMA; sc_emaSlow : EMA; sc_day : option Z; sc_cumPV : Z;
  sc_cumV : Z; sc_vwapHist : list Z; sc_crosses : Z; sc_vwapSide : Z; sc_orHigh : Z; sc_orLow : Z; sc_orDone : bool;
  sc_state : SRState;
}.

#[export] Instance srContext_settable : Settable srContext := λ s, {|
  sc_cfg := sc_cfg s; sc_rc := sc_rc s; sc_emaFast := sc_emaFast s; sc_emaSlow := sc_emaSlow s; sc_day := sc_day s;
  sc_cumPV := sc_cumPV s; sc_cumV := sc_cumV s; sc_vwapHist := sc_vwapHist s; sc_crosses := sc_crosses s;
  sc_vwapSide := sc_vwapSide s; sc_orHigh := sc_orHigh s; sc_orLow := sc_orLow s; sc_orDone := sc_orDone s;
  sc_state := sc_state s |}.

Definition newSRContext (cfg : SRContextConfig) : option srContext :=
  rc ← newRangeContext (sx_Range cfg);
  Some {| sc_cfg := cfg; sc_rc := rc; sc_emaFast := NewEMA (sx_EMAFast cfg); sc_emaSlow := NewEMA (sx_EMASlow cfg);
    sc_day := None; sc_cumPV := 0; sc_cumV := 0; sc_vwapHist := []; sc_crosses := 0; sc_vwapSide := 0; sc_orHigh := 0;
    sc_orLow := 0; sc_orDone := false; sc_state := zero_SRState |}.

Definition vwap (sc : srContext) : Z := if sc_cumV sc =? 0 then 0 else sc_cumPV sc /! sc_cumV sc.

(** A 5m close against the VWAP: its side counts, and crossing it too. *)
Definition note_side (v : Z) (close : Z) (sc : srContext) : srContext :=
  let side := if v <? close then 1 else if close <? v then -1 else 0 in
  if side =? 0 then sc
  else
    let sc := if negb (sc_vwapSide sc =? 0) && negb (side =? sc_vwapSide sc)
              then sc <| sc_crosses := sc_crosses sc +! 1 |> else sc in
    sc <| sc_vwapSide := side |>.

Definition sr_on5m (bar : tfBar) (sc : srContext) : option srContext :=
  let c := bar_candle bar in
  let v := vwap sc in
  hist ← keep_last (sx_VWAPSlopeBars (sc_cfg sc) +! 1) (sc_vwapHist sc ++ [v]);
  Some (note_side v (b_Close (tb_bar bar))
    (sc <| sc_emaFast := EMA_Update c (sc_emaFast sc) |> <| sc_emaSlow := EMA_Update c (sc_emaSlow sc) |>
        <| sc_vwapHist := hist |>)).

(** ** Levels *)

(** The first of a list that satisfies a test, replaced; [None] when none
    does. *)
Fixpoint touch_first (near : SRLevel → bool) (l : list SRLevel) : option (list SRLevel) :=
  match l with
  | [] => None
  | x :: l =>
      if near x then Some ({| lv_Price := lv_Price x; lv_Touches := lv_Touches x +! 1; lv_Source := lv_Source x |} :: l)
      else cons x <$> touch_first near l
  end.

(** The first of a list that satisfies a test, taken out. *)
Fixpoint take_first {A} (P : A → bool) (l : list A) : option (A * list A) :=
  match l with
  | [] => None
  | x :: l => if P x then Some (x, l) else '(y, l) ← take_first P l; Some (y, x :: l)
  end.

(** [add] of [levels]: a price near a level touches it; otherwise it is a
    level of its own, with the touches of a weak cluster near it. *)
Definition add_level (tol p : Z) (src : string) (absorbWeak : bool) (lw : list SRLevel * list levelCluster) :
    list SRLevel * list levelCluster :=
  let '(out, weak) := lw in
  if p <=? 0 then (out, weak)
  else
    match touch_first (λ l, absInt64 (lv_Price l -! p) <=? tol) out with
    | Some out => (out, weak)
    | None =>
        let '(touches, weak) :=
          match (if absorbWeak then take_first (λ c, absInt64 (lc_level c -! p) <=? tol) weak else None) with
          | Some (c, weak) => (1 +! lc_touches c, weak)
          | None => (1, weak)
          end in
        (out ++ [{| lv_Price := p; lv_Touches := touches; lv_Source := src |}], weak)
    end.

(** [sort.Slice] by price; levels of one price keep their order. *)
Definition lv_le (a b : SRLevel) : Prop := lv_Price a <= lv_Price b.
#[export] Instance lv_le_dec : RelDecision lv_le := λ a b, Z.le_dec (lv_Price a) (lv_Price b).

Definition sr_levels (sc : srContext) : option (list SRLevel) :=
  let cfg := sx_Range (sc_cfg sc) in
  let tol := rg_LevelTolerancePts cfg in
  '(highs, lows) ← swingOnly (sc_rc sc);
  clusters ← clusterLevels (highs ++ lows) tol;
  let strong c := rg_MinTouches cfg <=? lc_touches c in
  let out := (λ c, {| lv_Price := lc_level c; lv_Touches := lc_touches c; lv_Source := SRLevelSwing |}) <$>
    filter (λ c, strong c = true) clusters in
  let lw := (out, filter (λ c, strong c = false) clusters) in
  let lw := if 0 <? rc_prevDayHigh (sc_rc sc) then
              add_level tol (rc_prevDayLow (sc_rc sc)) SRLevelPrevDay (rg_UsePrevDayLevels cfg)
                (add_level tol (rc_prevDayHigh (sc_rc sc)) SRLevelPrevDay (rg_UsePrevDayLevels cfg) lw) else lw in
  let lw := if sc_orDone sc then
              add_level tol (sc_orLow sc) SRLevelOpening false (add_level tol (sc_orHigh sc) SRLevelOpening false lw) else lw in
  Some (merge_sort lv_le lw.1).

(** ** Regime *)

Definition regime (cfg : SRContextConfig) (st : SRState) (price : Z) : SRRegime :=
  let rs := ss_Range st in
  if negb (rs_ADXReady rs) || negb (ss_EMAReady st) || (ss_VWAP st =? 0) || (rs_ATR15 rs =? 0) then SRRegimeNone
  else if rs_ATR15 rs <? sx_MinATRPts cfg then SRRegimeDead
  else
    let flat := absInt64 (ss_VWAPSlope st) <=? sx_FlatVWAPSlopePts cfg in
    if (rs_ADX rs <. sx_RangeMaxADX cfg) && flat && (sx_MinVWAPCrosses cfg <=? ss_Crosses st) then SRRegimeRange
    else if sx_TrendMinADX cfg <. rs_ADX rs then
      if (ss_VWAP st <? price) && (ss_EMASlow st <? ss_EMAFast st) && (0 <? ss_VWAPSlope st) && (0 <=? rs_HTFTrend rs)
      then SRRegimeTrendUp
      else if (price <? ss_VWAP st) && (ss_EMAFast st <? ss_EMASlow st) && (ss_VWAPSlope st <? 0) && (rs_HTFTrend rs <=? 0)
      then SRRegimeTrendDown
      else SRRegimeMixed
    else SRRegimeMixed.

Definition vwap_slope (sc : srContext) : option Z :=
  let n := Z.of_nat (length (sc_vwapHist sc)) in
  let back := sx_VWAPSlopeBars (sc_cfg sc) in
  if back <? n then
    now ← price_at (sc_vwapHist sc) (n -! 1);
    before ← price_at (sc_vwapHist sc) (n -! 1 -! back);
    Some (now -! before)
  else Some 0.

Definition sr_refresh (price : Z) (sc : srContext) : option srContext :=
  slope ← vwap_slope sc;
  levels ← sr_levels sc;
  let ready := EMA_Ready (sc_emaFast sc) && EMA_Ready (sc_emaSlow sc) in
  let rc := sc_rc sc in
  let st := {|
    ss_Range := rc_state rc; ss_Regime := SRRegimeNone; ss_VWAP := vwap sc; ss_VWAPSlope := slope; ss_Crosses := sc_crosses sc;
    ss_EMAFast := if ready then f64_to_int (Value (sc_emaFast sc)) else 0;
    ss_EMASlow := if ready then f64_to_int (Value (sc_emaSlow sc)) else 0; ss_EMAReady := ready;
    ss_ORHigh := if sc_orDone sc then sc_orHigh sc else 0; ss_ORLow := if sc_orDone sc then sc_orLow sc else 0;
    ss_PrevDayHigh := rc_prevDayHigh rc; ss_PrevDayLow := rc_prevDayLow rc; ss_DayOpen := rc_dayOpen rc;
    ss_DayHigh := rc_dayHigh rc; ss_DayLow := rc_dayLow rc; ss_Levels := levels |} in
  Some (sc <| sc_state := st <| ss_Regime := regime (sc_cfg sc) st price |> |>).

(** ** Feeding 1m candles *)

(** The day's sums, VWAP history and opening range start afresh. *)
Definition sr_roll_day (ts : Time) (sc : srContext) : srContext :=
  let day := Some (ist_day ts) in
  if bool_decide (day ≠ sc_day sc) then
    sc <| sc_day := day |> <| sc_cumPV := 0 |> <| sc_cumV := 0 |> <| sc_vwapHist := [] |> <| sc_crosses := 0 |>
       <| sc_vwapSide := 0 |> <| sc_orHigh := 0 |> <| sc_orLow := 0 |> <| sc_orDone := false |>
  else sc.

Definition opening_range (ts : Time) (bar : ohlcv) (sc : srContext) : srContext :=
  if sc_orDone sc then sc
  else
    let first := sc_orHigh sc =? 0 in
    sc <| sc_orHigh := if first then b_High bar else Z.max (sc_orHigh sc) (b_High bar) |>
       <| sc_orLow := if first then b_Low bar else Z.min (sc_orLow sc) (b_Low bar) |>
       <| sc_orDone := sx_OpeningRangeEndMin (sc_cfg sc) <=? minutesIST ts +! 1 |>.

Definition sr_update (ts : Time) (b : ohlcv) (sc : srContext) : option (bool * srContext) :=
  '(fed, rc) ← range_update ts b (sc_rc sc);
  let sc := sc <| sc_rc := rc |> in
  if negb fed then Some (false, sc)
  else
    bar ← last (rc_bars1 rc);
    let sc := sr_roll_day ts sc in
    let w := if b_Volume bar <=? 0 then 1 else b_Volume bar in
    let sc := sc <| sc_cumPV := sc_cumPV sc +! (b_High bar +! b_Low bar +! b_Close bar) /! 3 *! w |>
                 <| sc_cumV := sc_cumV sc +! w |> in
    let sc := opening_range ts bar sc in
    sc ← (if rc_closed5 rc then bar5 ← last (rc_bars5 rc); sr_on5m bar5 sc else Some sc);
    sc ← sr_refresh (b_Close bar) sc;
    Some (true, sc).

(** ** Levels around a price *)

Definition levelBelow (levels : list SRLevel) (price : Z) : Z :=
  foldl (λ best l, if (lv_Price l <? price) && (best <? lv_Price l) then lv_Price l else best) 0 levels.
Definition levelAbove (levels : list SRLevel) (price : Z) : Z :=
  foldl (λ best l, if (price <? lv_Price l) && ((best =? 0) || (lv_Price l <? best)) then lv_Price l else best) 0 levels.
Definition strongLevelBelow (levels : list SRLevel) (price minTouches : Z) : Z :=
  foldl (λ best l, if (minTouches <=? lv_Touches l) && (lv_Price l <? price) && (best <? lv_Price l) then lv_Price l else best)
    0 levels.
Definition strongLevelAbove (levels : list SRLevel) (price minTouches : Z) : Z :=
  foldl (λ best l, if (minTouches <=? lv_Touches l) && (price <? lv_Price l) && ((best =? 0) || (lv_Price l <? best))
                   then lv_Price l else best) 0 levels.

(** ** Snapshot and restore *)

Record srContextSnapshot := {
  sxs_Range : rangeContextSnapshot; sxs_Day : option Z; sxs_CumPV : Z; sxs_CumV : Z; sxs_VWAPHist : list Z; sxs_Crosses : Z;
  sxs_VWAPSide : Z; sxs_ORHigh : Z; sxs_ORLow : Z; sxs_ORDone : bool;
}.

Definition sr_snapshot (sc : srContext) : srContextSnapshot := {|
  sxs_Range := range_snapshot (sc_rc sc); sxs_Day := sc_day sc; sxs_CumPV := sc_cumPV sc; sxs_CumV := sc_cumV sc;
  sxs_VWAPHist := sc_vwapHist sc; sxs_Crosses := sc_crosses sc; sxs_VWAPSide := sc_vwapSide sc; sxs_ORHigh := sc_orHigh sc;
  sxs_ORLow := sc_orLow sc; sxs_ORDone := sc_orDone sc |}.

Definition restoreSRContext (cfg : SRContextConfig) (s : srContextSnapshot) : option srContext :=
  sc ← newSRContext cfg;
  rc ← restoreRangeContext (sx_Range cfg) (sxs_Range s);
  let emas := foldl (λ '(fast, slow) b, (EMA_Update (bar_candle b) fast, EMA_Update (bar_candle b) slow))
    (sc_emaFast sc, sc_emaSlow sc) (rc_bars5 rc) in
  let sc := sc <| sc_rc := rc |> <| sc_emaFast := emas.1 |> <| sc_emaSlow := emas.2 |> <| sc_day := sxs_Day s |>
               <| sc_cumPV := sxs_CumPV s |> <| sc_cumV := sxs_CumV s |> <| sc_vwapHist := sxs_VWAPHist s |>
               <| sc_crosses := sxs_Crosses s |> <| sc_vwapSide := sxs_VWAPSide s |> <| sc_orHigh := sxs_ORHigh s |>
               <| sc_orLow := sxs_ORLow s |> <| sc_orDone := sxs_ORDone s |> in
  match last (rc_bars1 rc) with
  | Some b => sr_refresh (b_Close b) sc
  | None => Some sc
  end.

Record range_cfg_ok (cfg : RangeContextConfig) : Prop := {
  rco_BBPeriod : 0 < rg_BBPeriod cfg <= 2 ^ 31;
  rco_FlatSlopeBars : 0 <= rg_FlatSlopeBars cfg <= 2 ^ 31;
  rco_RSIPeriod : 0 < rg_RSIPeriod cfg <= 2 ^ 31;
  rco_HTFEMAPeriod : rg_HTFEMAPeriod cfg <= 2 ^ 31;
  rco_LevelLookbackBars : 0 <= rg_LevelLookbackBars cfg <= 2 ^ 31;
  rco_VolAvgBars : 0 <= rg_VolAvgBars cfg <= 2 ^ 31;
  rco_SwingWindow : 0 <= rg_SwingWindow cfg;
  rco_LevelTolerancePts : 0 <= rg_LevelTolerancePts cfg;
}.

Record sr_cfg_ok (cfg : SRContextConfig) : Prop := {
  sco_Range : range_cfg_ok (sx_Range cfg);
  sco_VWAPSlopeBars : 0 <= sx_VWAPSlopeBars cfg <= 2 ^ 31;
}.

Lemma default_sr_cfg_ok : sr_cfg_ok DefaultSRContextConfig.
Proof. split; [split|]; simpl; lia. Qed.

(** ** Lists *)

Lemma last_drop_lt {A} n (l : list A) : (n < length l)%nat → last (drop n l) = last l.
Proof. intros Hn. rewrite !last_lookup, lookup_drop, length_drop. f_equal. lia. Qed.

Lemma keep_last_some {A} keep (l : list A) :
  0 <= keep → ∃ l', keep_last keep l = Some l' ∧ (0 < keep → last l' = last l) ∧ Z.of_nat (length l') <= keep.
Proof.
  intros Hk. unfold keep_last. destruct (Z.leb_spec (Z.of_nat (length l)) keep) as [|Hlt]; [by exists l|].
  rewrite (proj2 (Z.ltb_ge keep 0)) by lia. eexists. split; [done|]. rewrite length_drop.
  split; [intros Hpos; apply last_drop_lt|]; lia.
Qed.

Lemma last_is_some {A} (l : list A) x : is_Some (last (l ++ [x])).
Proof. rewrite last_snoc. by eexists. Qed.

Lemma price_at_some l i : 0 <= i < Z.of_nat (length l) → is_Some (price_at l i).
Proof. intros Hi. unfold price_at. rewrite (proj2 (Z.ltb_ge i 0)) by lia. apply lookup_lt_is_Some. lia. Qed.

(** ** Levels *)

Lemma cluster_loop_some tol start sum count points :
  0 <= tol → count ≠ 0 ∨ (∃ p rest, points = p :: rest ∧ p = start) → in_i64 count → 0 <= count →
  count + Z.of_nat (length points) <= max_i64 → is_Some (cluster_loop tol start sum count points).
Proof.
  intros Ht. revert start sum count. induction points as [|p points IH]; intros start sum count Hc Hi Hpos Hlen; simpl in *.
  - destruct Hc as [Hc|(? & ? & ? & _)]; [|done]. rewrite (proj2 (Z.eqb_neq count 0)) by done. by eexists.
  - assert (in_i64 (count + 1)) by (i64_unfold; lia). destruct (Z.ltb_spec tol (p -! start)) as [Hlt|Hge].
    + destruct Hc as [Hc|(? & ? & [= <- <-] & ->)]; [|exfalso; rewrite Z.sub_diag in Hlt; change (i64 0) with 0 in Hlt; lia].
      rewrite (proj2 (Z.eqb_neq count 0)) by done. simpl.
      destruct (IH p p 1) as [rest ->]; [by left|z_compute|lia|lia|]. by eexists.
    + apply IH; [left; rewrite i64_id by done; lia|by rewrite i64_id|rewrite i64_id by done; lia|rewrite i64_id by done; lia].
Qed.

Lemma clusterLevels_some points tol :
  0 <= tol → Z.of_nat (length points) <= max_i64 → is_Some (clusterLevels points tol).
Proof.
  intros Ht Hl. unfold clusterLevels. pose proof (merge_sort_Permutation Z.le points) as Hp. fold (sort_prices points) in Hp.
  apply Permutation_length in Hp. destruct (sort_prices points) as [|p l] eqn:Hs; [by eexists|].
  apply cluster_loop_some; [done|by right; exists p, l|z_compute|lia|]. simpl in *. lia.
Qed.

Lemma swings_some w bars :
  0 <= w → ∃ h l, swings w bars = Some (h, l) ∧ (length h <= length bars)%nat ∧ (length l <= length bars)%nat.
Proof.
  intros Hw. unfold swings. rewrite (proj2 (Z.ltb_ge w 0)) by done. eexists _, _. split; [done|].
  assert (∀ (f : nat → option Z) s n, (length (omap f (seq s n)) <= n)%nat) as Hlen.
  { intros f s n. revert s. induction n as [|n IH]; intros s; [done|]. cbn [seq]. cbn [omap list_omap].
    specialize (IH (S s)). destruct (f s); simpl; lia. }
  split; (etrans; [apply Hlen|lia]).
Qed.

(** ** The range context *)

Definition bb_ok (p : Z) (b : Bollinger) : Prop :=
  bb_period b = p ∧ Z.of_nat (length (bb_buf b)) = p ∧ 0 <= bb_idx b < p.

Record range_ok (cfg : RangeContextConfig) (rc : rangeContext) : Prop := {
  ro_cfg : rc_cfg rc = cfg;
  ro_bb : bb_ok (rg_BBPeriod cfg) (rc_bb15 rc);
  ro_bars60 : Z.of_nat (length (rc_bars60 rc)) <= 2 ^ 33;
  ro_emaHist : Z.of_nat (length (rc_emaHist rc)) <= 2 ^ 33;
}.

(** What a handler of closed bars leaves alone. *)
Definition same_frame (rc rc' : rangeContext) : Prop := rc_bars1 rc' = rc_bars1 rc ∧ rc_closed5 rc' = rc_closed5 rc.

Section range.
Context (cfg : RangeContextConfig) (Hcfg : range_cfg_ok cfg).

Lemma Bollinger_Update_ok p c b : 0 < p <= 2 ^ 31 → bb_ok p b → ∃ b', Bollinger_Update c b = Some b' ∧ bb_ok p b'.
Proof.
  intros Hp (Hper & Hlen & Hidx). unfold Bollinger_Update, at_index, set_index.
  rewrite (proj2 (Z.ltb_ge (bb_idx b) 0)), (proj2 (Z.leb_gt _ _)) by lia.
  destruct (lookup_lt_is_Some_2 (bb_buf b) (Z.to_nat (bb_idx b))) as [old ->]; [lia|]. simpl.
  rewrite (proj2 (Z.eqb_neq (bb_period b) 0)) by lia.
  assert (0 <= (bb_idx b +! 1) %! bb_period b < p).
  { rewrite i64_id by (i64_unfold; lia). rewrite Hper. apply Z.rem_bound_pos; lia. }
  case_match; eexists; (split; [reflexivity|]); split; simpl; rewrite ?length_insert; auto.
Qed.

Ltac keep l :=
  match goal with
  | |- context [keep_last ?k ?x] =>
      let H1 := fresh "Hlast" in let H2 := fresh "Hlen" in
      destruct (keep_last_some k x) as (l & -> & H1 & H2); [|simpl]
  end.

Lemma new_range_ok : ∃ rc, newRangeContext cfg = Some rc ∧ range_ok cfg rc.
Proof.
  destruct Hcfg as [Hbb _ _ _ _ _ _ _]. unfold newRangeContext, NewBollinger, make_floats.
  rewrite (proj2 (Z.ltb_ge _ 0)) by lia. simpl. eexists. split; [done|]. split; simpl; [done| |lia|lia].
  unfold bb_ok. simpl. rewrite length_replicate. lia.
Qed.

Lemma on5m_ok bar rc : range_ok cfg rc →
  ∃ rc', on5m bar rc = Some rc' ∧ range_ok cfg rc' ∧ same_frame rc rc' ∧ last (rc_bars5 rc') = Some bar.
Proof.
  intros [Hc Hb H60 Hem]. pose proof (rco_RSIPeriod _ Hcfg). unfold on5m. rewrite Hc.
  assert (0 < rg_RSIPeriod cfg *! 3) by (rewrite i64_id by (i64_unfold; lia); lia).
  keep l; [lia|]. eexists. split; [reflexivity|]. split; [by split|]. split; [done|]. simpl. by rewrite Hlast, last_snoc.
Qed.

Lemma onEntry_ok bar rc : range_ok cfg rc → ∃ rc', onEntry bar rc = Some rc' ∧ range_ok cfg rc' ∧ same_frame rc rc' ∧
  rc_bars5 rc' = rc_bars5 rc.
Proof. intros [Hc Hb H60 Hem]. unfold onEntry. keep l; [lia|]. eexists. split; [reflexivity|]. by split; [split|]. Qed.

Lemma on60m_ok bar rc : range_ok cfg rc → ∃ rc', on60m bar rc = Some rc' ∧ range_ok cfg rc' ∧ same_frame rc rc' ∧
  rc_bars5 rc' = rc_bars5 rc.
Proof.
  intros [Hc Hb H60 Hem]. pose proof (rco_HTFEMAPeriod _ Hcfg). unfold on60m, htfPeriod. rewrite Hc.
  set (n := if 0 <? _ then _ else _). assert (0 < n <= 2 ^ 31) by (subst n; case_match; bool_prop; lia).
  assert (n *! 3 = n * 3) as Hn by (rewrite i64_id; [done|i64_unfold; lia]).
  keep l; [lia|]. eexists. split; [reflexivity|]. split; [split; simpl; [done|done|lia|done]|done].
Qed.

Lemma on15m_ok bar rc : range_ok cfg rc → ∃ rc', on15m bar rc = Some rc' ∧ range_ok cfg rc' ∧ same_frame rc rc' ∧
  rc_bars5 rc' = rc_bars5 rc.
Proof.
  intros [Hc Hb H60 Hem]. unfold on15m. rewrite Hc.
  destruct (Bollinger_Update_ok _ (bar_candle bar) _ (rco_BBPeriod _ Hcfg) Hb) as (bb & -> & Hbb). simpl.
  assert (0 <= historyKeep15 cfg) as Hk.
  { pose proof (rco_LevelLookbackBars _ Hcfg). unfold historyKeep15. repeat case_match; bool_prop; lia. }
  assert (∃ hist, (if EMA_Ready (EMA_Update (bar_candle bar) (rc_ema15 rc))
     then keep_last (rg_FlatSlopeBars cfg +! 1) (rc_emaHist rc ++ [f64_to_int (ema_current (EMA_Update (bar_candle bar) (rc_ema15 rc)))])
     else Some (rc_emaHist rc)) = Some hist ∧ Z.of_nat (length hist) <= 2 ^ 33) as (hist & -> & Hh).
  { pose proof (rco_FlatSlopeBars _ Hcfg). assert (rg_FlatSlopeBars cfg +! 1 = rg_FlatSlopeBars cfg + 1) as Hn
      by (apply i64_id; i64_unfold; lia). case_match; [|by eexists]. keep l; [lia|]. eexists. split; [reflexivity|lia]. }
  simpl. keep l; [done|]. eexists. split; [reflexivity|]. by split; [split|].
Qed.

Lemma swingOnly_ok rc : range_ok cfg rc → ∃ h l, swingOnly rc = Some (h, l) ∧
  Z.of_nat (length h) <= 2 ^ 34 ∧ Z.of_nat (length l) <= 2 ^ 34.
Proof.
  intros [Hc Hb H60 Hem]. unfold swingOnly. rewrite Hc. pose proof (rco_LevelLookbackBars _ Hcfg).
  keep bars; [lia|]. destruct (swings_some (rg_SwingWindow cfg) bars) as (h & l & -> & Hh & Hl); [apply Hcfg|]. simpl.
  destruct (rg_HTFLevels cfg); [|eexists _, _; split; [done|lia]].
  destruct (swings_some (rg_SwingWindow cfg) (rc_bars60 rc)) as (h' & l' & -> & Hh' & Hl'); [apply Hcfg|]. simpl.
  eexists _, _. split; [done|]. rewrite !length_app. lia.
Qed.

Lemma range_levels_ok price rc : range_ok cfg rc → is_Some (range_levels price rc).
Proof.
  intros Hrc. destruct (swingOnly_ok rc Hrc) as (h & l & Hs & Hh & Hl). pose proof (rco_LevelTolerancePts _ Hcfg).
  unfold range_levels, swingPoints. rewrite Hs, (ro_cfg _ _ Hrc). simpl.
  match goal with |- context [if ?b then (?x, ?y) else (?x', ?y')] =>
    set (hs := if b then x else x'); set (ls := if b then y else y');
    replace (if b then (x, y) else (x', y')) with (hs, ls) by (subst hs ls; by destruct b) end.
  cbn [mbind option_bind].
  assert (Z.of_nat (length hs) <= max_i64 ∧ Z.of_nat (length ls) <= max_i64) as [??].
  { subst hs ls. i64_unfold. case_match; rewrite ?length_app; simpl; lia. }
  destruct (clusterLevels_some ls (rg_LevelTolerancePts cfg)) as [? ->]; [done|done|].
  destruct (clusterLevels_some hs (rg_LevelTolerancePts cfg)) as [? ->]; [done|done|]. by eexists.
Qed.

Lemma range_refresh_ok price rc : range_ok cfg rc → ∃ rc', range_refresh price rc = Some rc' ∧ range_ok cfg rc' ∧
  same_frame rc rc' ∧ rc_bars5 rc' = rc_bars5 rc.
Proof.
  intros Hrc. unfold range_refresh.
  assert (∃ flat, ema_flat rc = Some flat) as [flat ->].
  { unfold ema_flat. rewrite (ro_cfg _ _ Hrc). pose proof (rco_FlatSlopeBars _ Hcfg). case_match; [|by eexists]. bool_prop.
    pose proof (ro_emaHist _ _ Hrc). set (n := Z.of_nat (length (rc_emaHist rc))) in *.
    assert (n -! 1 = n - 1) as -> by (apply i64_id; i64_unfold; lia).
    assert (n - 1 -! rg_FlatSlopeBars cfg = n - 1 - rg_FlatSlopeBars cfg) as -> by (apply i64_id; i64_unfold; lia).
    destruct (price_at_some (rc_emaHist rc) (n - 1)) as [x ->]; [lia|].
    destruct (price_at_some (rc_emaHist rc) (n - 1 - rg_FlatSlopeBars cfg)) as [y ->]; [lia|]. by eexists. }
  destruct (range_levels_ok price rc Hrc) as [[[sup supT] [res resT]] ->]. simpl. destruct Hrc.
  eexists. split; [reflexivity|]. by split; [split|].
Qed.

Lemma feed_series_ok agg store on ts b rc :
  (∀ a rc, range_ok cfg rc → range_ok cfg (store a rc) ∧ same_frame rc (store a rc)) →
  (∀ bar rc, range_ok cfg rc → ∃ rc', on bar rc = Some rc' ∧ range_ok cfg rc' ∧ same_frame rc rc') →
  range_ok cfg rc → ∃ closed rc', feed_series agg store on ts b rc = Some (closed, rc') ∧ range_ok cfg rc' ∧ same_frame rc rc'.
Proof.
  intros Hst Hon Hrc. unfold feed_series. destruct (push ts b (agg rc)) as [[bar|] a]; destruct (Hst a rc Hrc) as [Ha Hf];
    [|by eexists _, _].
  destruct (Hon bar _ Ha) as (rc' & -> & Hr & Hf'). eexists _, _. split; [reflexivity|]. split; [done|].
  destruct Hf, Hf'. split; congruence.
Qed.

(** A closed 5m bar is the last one kept. *)
Definition closed5_kept (rc : rangeContext) : Prop := rc_closed5 rc = true → is_Some (last (rc_bars5 rc)).

Lemma feed_5m_ok ts b rc : range_ok cfg rc →
  ∃ closed rc', feed_series rc_agg5 (λ a rc, rc <| rc_agg5 := a |>) on5m ts b rc = Some (closed, rc') ∧ range_ok cfg rc' ∧
    same_frame rc rc' ∧ (closed = true → is_Some (last (rc_bars5 rc'))).
Proof.
  intros Hrc. unfold feed_series. destruct (push ts b (rc_agg5 rc)) as [[bar|] a].
  - destruct (on5m_ok bar (rc <| rc_agg5 := a |>)) as (rc' & -> & Hr & Hf & Hl); [by destruct Hrc; split|].
    eexists _, _. split; [reflexivity|]. split; [done|]. split; [exact Hf|]. intros _. by eexists.
  - eexists _, _. split; [reflexivity|]. by destruct Hrc; split; [split|].
Qed.

(** Another series leaves the 5m bars alone. *)
Lemma feed_other_ok agg store on ts b rc :
  (∀ a rc, range_ok cfg rc → range_ok cfg (store a rc) ∧ same_frame rc (store a rc) ∧ rc_bars5 (store a rc) = rc_bars5 rc) →
  (∀ bar rc, range_ok cfg rc → ∃ rc', on bar rc = Some rc' ∧ range_ok cfg rc' ∧ same_frame rc rc' ∧ rc_bars5 rc' = rc_bars5 rc) →
  range_ok cfg rc → ∃ closed rc', feed_series agg store on ts b rc = Some (closed, rc') ∧ range_ok cfg rc' ∧
    same_frame rc rc' ∧ rc_bars5 rc' = rc_bars5 rc.
Proof.
  intros Hst Hon Hrc. unfold feed_series. destruct (push ts b (agg rc)) as [[bar|] a]; destruct (Hst a rc Hrc) as (Ha & Hf & Hb);
    [|by eexists _, _].
  destruct (Hon bar _ Ha) as (rc' & -> & Hr & Hf' & Hb'). eexists _, _. split; [reflexivity|]. split; [done|].
  destruct Hf, Hf'. by split; [split; congruence|congruence].
Qed.

Lemma roll_day_ok ts b rc : range_ok cfg rc → range_ok cfg (roll_day ts b rc) ∧ same_frame rc (roll_day ts b rc) ∧
  rc_bars5 (roll_day ts b rc) = rc_bars5 rc.
Proof. intros []. unfold roll_day. by repeat case_bool_decide; (split; [split|]). Qed.

Lemma fill_volume_ok ts b rc : range_ok cfg rc → range_ok cfg (fill_volume ts b rc).2 ∧ same_frame rc (fill_volume ts b rc).2 ∧
  b_Close (fill_volume ts b rc).1 = b_Close b.
Proof. intros []. unfold fill_volume. case_match; by split; [split|]. Qed.

Lemma range_update_ok ts b rc : range_ok cfg rc →
  ∃ fed rc', range_update ts b rc = Some (fed, rc') ∧ range_ok cfg rc' ∧
    (if fed then is_Some (last (rc_bars1 rc')) ∧ closed5_kept rc' else rc' = rc).
Proof.
  intros Hrc. unfold range_update. case_match; [by eexists _, _|].
  set (rc1 := _ <| rc_closedE := false |>). assert (range_ok cfg rc1) as H1 by (by destruct Hrc; split).
  destruct (fill_volume ts b rc1) as [b' rc2] eqn:Hfv. pose proof (fill_volume_ok ts b rc1 H1) as (H2 & _ & _).
  rewrite Hfv in H2. simpl in H2. destruct (roll_day_ok ts b' rc2 H2) as (H3 & _ & _).
  set (rc3 := roll_day ts b' rc2) in *. pose proof (rco_VolAvgBars _ Hcfg).
  assert (rg_VolAvgBars (rc_cfg rc3) +! 1 = rg_VolAvgBars cfg + 1) as ->.
  { rewrite (ro_cfg _ _ H3). apply i64_id. i64_unfold. lia. }
  destruct (keep_last_some (rg_VolAvgBars cfg + 1) (rc_bars1 rc3 ++ [b'])) as (bars1 & -> & Hl & _); [lia|]. cbn [mbind option_bind].
  rewrite last_snoc in Hl. specialize (Hl ltac:(lia)).
  destruct (feed_5m_ok ts b' (rc3 <| rc_bars1 := bars1 |>)) as (c5 & rc4 & -> & H4 & [Hb4 _] & Hk4); [by destruct H3; split|].
  cbn [mbind option_bind]. set (rc5 := rc4 <| rc_closed5 := c5 |>).
  assert (range_ok cfg rc5 ∧ rc_bars1 rc5 = bars1 ∧ closed5_kept rc5) as (H5 & Hb5 & Hk5) by (by destruct H4; split; [split|]).
  destruct (feed_other_ok rc_agg15 (λ a rc, rc <| rc_agg15 := a |>) on15m ts b' rc5) as (c15 & rc6 & -> & H6 & [Hb6 Hc6] & Hs6);
    [by intros ?? []; split; [split|]|apply on15m_ok|done|]. cbn [mbind option_bind].
  assert (rc_bars1 rc6 = bars1 ∧ closed5_kept rc6) as [Hb6' Hk6] by (unfold closed5_kept; rewrite Hc6, Hs6; split; [congruence|done]).
  assert (∃ rc7, (if 0 <? ta_Minutes (rc_aggE rc6) then
            '(closedE, rc) ← feed_series rc_aggE (λ a rc, rc <| rc_aggE := a |>) onEntry ts b' rc6;
            Some (rc <| rc_closedE := closedE |>) else Some rc6) = Some rc7 ∧ range_ok cfg rc7 ∧ rc_bars1 rc7 = bars1 ∧
            closed5_kept rc7) as (rc7 & -> & Hr7 & Hb7 & Hk7).
  { case_match; [|by eexists]. destruct (feed_other_ok rc_aggE (λ a rc, rc <| rc_aggE := a |>) onEntry ts b' rc6)
      as (cE & rc7 & -> & Hr7 & [Hb7 Hc7] & Hs7); [by intros ?? []; split; [split|]|apply onEntry_ok|done|].
    eexists. split; [reflexivity|]. unfold closed5_kept. simpl. rewrite Hc7, Hs7. by destruct Hr7; split; [split|split; [congruence|]]. }
  cbn [mbind option_bind].
  destruct (feed_other_ok rc_agg60 (λ a rc, rc <| rc_agg60 := a |>) on60m ts b' rc7) as (c60 & rc8 & -> & Hr8 & [Hb8 Hc8] & Hs8);
    [by intros ?? []; split; [split|]|apply on60m_ok|done|]. cbn [mbind option_bind].
  destruct (range_refresh_ok (b_Close b') rc8 Hr8) as (rc9 & -> & Hr9 & [Hb9 Hc9] & Hs9). eexists _, _. split; [reflexivity|].
  split; [done|]. unfold closed5_kept. rewrite Hb9, Hc9, Hs9, Hb8, Hc8, Hs8, Hb7, Hl. split; [by eexists|exact Hk7].
Qed.

(** Replaying bars, and restoring a snapshot. *)
Lemma replay_bars_ok on bars rc :
  (∀ bar rc, range_ok cfg rc → ∃ rc', on bar rc = Some rc' ∧ range_ok cfg rc') →
  range_ok cfg rc → ∃ rc', replay_bars on bars rc = Some rc' ∧ range_ok cfg rc'.
Proof.
  intros Hon. unfold replay_bars. revert rc. induction bars as [|bar bars IH]; intros rc Hrc; [by eexists|]. simpl.
  destruct (Hon bar rc Hrc) as (rc' & -> & Hr). by apply IH.
Qed.

Lemma restoreRangeContext_ok s : ∃ rc, restoreRangeContext cfg s = Some rc ∧ range_ok cfg rc.
Proof.
  unfold restoreRangeContext. destruct new_range_ok as (rc0 & -> & H0). cbn [mbind option_bind].
  destruct (replay_bars_ok on15m (rsn_Bars15 s) rc0) as (rc1 & -> & H1); [|done|].
  { intros bar rc Hrc. destruct (on15m_ok bar rc Hrc) as (rc' & -> & Hr & _). by eexists. }
  cbn [mbind option_bind]. destruct (replay_bars_ok on5m (rsn_Bars5 s) rc1) as (rc2 & -> & H2); [|done|].
  { intros bar rc Hrc. destruct (on5m_ok bar rc Hrc) as (rc' & -> & Hr & _). by eexists. }
  cbn [mbind option_bind]. destruct (replay_bars_ok on60m (rsn_Bars60 s) rc2) as (rc3 & -> & H3); [|done|].
  { intros bar rc Hrc. destruct (on60m_ok bar rc Hrc) as (rc' & -> & Hr & _). by eexists. }
  cbn [mbind option_bind]. destruct (replay_bars_ok onEntry (rsn_BarsE s) rc3) as (rc4 & -> & H4); [|done|].
  { intros bar rc Hrc. destruct (onEntry_ok bar rc Hrc) as (rc' & -> & Hr & _). by eexists. }
  cbn [mbind option_bind]. cbv zeta.
  match goal with |- context [last (rc_bars1 ?rc)] => set (rc5 := rc) end.
  assert (range_ok cfg rc5) as H5 by (subst rc5; destruct H4; repeat case_match; by split).
  case_match; [|by eexists]. destruct (range_refresh_ok (b_Close o) rc5 H5) as (rc6 & -> & H6 & _). by eexists.
Qed.
End range.

(** ** The SR context *)

Record context_ok (cfg : SRContextConfig) (sc : srContext) : Prop := {
  co_cfg : sc_cfg sc = cfg;
  co_range : range_ok (sx_Range cfg) (sc_rc sc);
  co_vwapHist : Z.of_nat (length (sc_vwapHist sc)) <= 2 ^ 33;
}.

Section context.
Context (cfg : SRContextConfig) (Hcfg : sr_cfg_ok cfg).

Lemma newSRContext_ok : ∃ sc, newSRContext cfg = Some sc ∧ context_ok cfg sc.
Proof.
  unfold newSRContext. destruct (new_range_ok _ (sco_Range _ Hcfg)) as (rc & -> & Hr). simpl. eexists. split; [done|].
  split; simpl; [done|done|lia].
Qed.

Lemma add_level_length tol p src absorb lw :
  (length (add_level tol p src absorb lw).1 <= S (length lw.1))%nat.
Proof.
  destruct lw as [out weak]. unfold add_level. case_match; [simpl; lia|].
  destruct (touch_first _ out) as [out'|] eqn:Ht.
  - simpl. assert (length out' = length out) as ->; [|lia]. revert out' Ht. induction out as [|x out IH]; intros out' Ht; [done|].
    simpl in Ht. case_match; simplify_eq/=; [done|]. apply fmap_Some in Ht as (o & Ho & ->). simpl. f_equal. by apply IH.
  - repeat case_match; simpl; rewrite length_app; simpl; lia.
Qed.

Lemma sr_levels_ok sc : context_ok cfg sc → is_Some (sr_levels sc).
Proof.
  intros [Hc Hr _]. unfold sr_levels. destruct (swingOnly_ok _ (sco_Range _ Hcfg) _ Hr) as (h & l & -> & Hh & Hl).
  cbn [mbind option_bind]. rewrite Hc.
  destruct (clusterLevels_some (h ++ l) (rg_LevelTolerancePts (sx_Range cfg))) as [cs ->];
    [apply (sco_Range _ Hcfg)|rewrite length_app; i64_unfold; lia|]. by eexists.
Qed.

Lemma sr_refresh_ok price sc : context_ok cfg sc → ∃ sc', sr_refresh price sc = Some sc' ∧ context_ok cfg sc'.
Proof.
  intros Hsc. unfold sr_refresh. pose proof (sco_VWAPSlopeBars _ Hcfg). pose proof (co_vwapHist _ _ Hsc).
  assert (∃ slope, vwap_slope sc = Some slope) as [slope ->].
  { unfold vwap_slope. rewrite (co_cfg _ _ Hsc). case_match; [|by eexists]. bool_prop.
    set (n := Z.of_nat (length (sc_vwapHist sc))) in *.
    assert (n -! 1 = n - 1) as -> by (apply i64_id; i64_unfold; lia).
    assert (n - 1 -! sx_VWAPSlopeBars cfg = n - 1 - sx_VWAPSlopeBars cfg) as -> by (apply i64_id; i64_unfold; lia).
    destruct (price_at_some (sc_vwapHist sc) (n - 1)) as [x ->]; [lia|].
    destruct (price_at_some (sc_vwapHist sc) (n - 1 - sx_VWAPSlopeBars cfg)) as [y ->]; [lia|]. by eexists. }
  cbn [mbind option_bind]. destruct (sr_levels_ok sc Hsc) as [lv ->]. simpl. destruct Hsc.
  eexists. split; [reflexivity|]. by split.
Qed.

Lemma sr_on5m_ok bar sc : context_ok cfg sc → ∃ sc', sr_on5m bar sc = Some sc' ∧ context_ok cfg sc'.
Proof.
  intros [Hc Hr Hv]. unfold sr_on5m. rewrite Hc. pose proof (sco_VWAPSlopeBars _ Hcfg).
  assert (sx_VWAPSlopeBars cfg +! 1 = sx_VWAPSlopeBars cfg + 1) as Hn by (apply i64_id; i64_unfold; lia).
  destruct (keep_last_some (sx_VWAPSlopeBars cfg +! 1) (sc_vwapHist sc ++ [vwap sc])) as (hist & -> & _ & Hl); [lia|]. simpl.
  eexists. split; [reflexivity|]. unfold note_side. repeat case_match; split; simpl; done || lia.
Qed.

Lemma sr_update_ok ts b sc : context_ok cfg sc → ∃ fed sc', sr_update ts b sc = Some (fed, sc') ∧ context_ok cfg sc'.
Proof.
  intros [Hc Hr Hv]. unfold sr_update.
  destruct (range_update_ok _ (sco_Range _ Hcfg) ts b _ Hr) as (fed & rc & -> & Hrc & Hpost). cbn [mbind option_bind].
  destruct fed; simpl negb; cbv iota; [|by eexists _, _].
  destruct Hpost as [[bar Hbar] Hk]. rewrite Hbar. cbn [mbind option_bind]. cbv zeta.
  match goal with |- context [opening_range ts bar ?s] => set (sc1 := opening_range ts bar s) end.
  assert (context_ok cfg sc1) as H1.
  { subst sc1. unfold opening_range, sr_roll_day. repeat (case_bool_decide || case_match); split; simpl; done || lia. }
  assert (∃ sc2, (if rc_closed5 rc then bar5 ← last (rc_bars5 rc); sr_on5m bar5 sc1 else Some sc1) = Some sc2 ∧
    context_ok cfg sc2) as (sc2 & -> & H2).
  { case_match; [|by eexists]. destruct Hk as [bar5 ->]; [done|]. by apply sr_on5m_ok. }
  cbn [mbind option_bind]. destruct (sr_refresh_ok (b_Close bar) sc2 H2) as (sc3 & -> & H3). by eexists _, _.
Qed.

(** Volume of another instrument only changes the volumes in store. *)
Lemma addVolume_ok minute v sc : context_ok cfg sc → context_ok cfg (sc <| sc_rc := addVolume minute v (sc_rc sc) |>).
Proof.
  intros [Hc Hr Hv]. split; simpl; [done| |done]. unfold addVolume. case_match; [done|]. by destruct Hr; split.
Qed.

Lemma restoreSRContext_ok s : Z.of_nat (length (sxs_VWAPHist s)) <= 2 ^ 33 → ∃ sc, restoreSRContext cfg s = Some sc ∧ context_ok cfg sc.
Proof.
  intros Hv. unfold restoreSRContext. destruct newSRContext_ok as (sc0 & -> & H0). cbn [mbind option_bind].
  destruct (restoreRangeContext_ok _ (sco_Range _ Hcfg) (sxs_Range s)) as (rc & -> & Hrc). cbn [mbind option_bind]. cbv zeta.
  match goal with |- context [sr_refresh _ ?s] => set (sc1 := s) end.
  assert (context_ok cfg sc1) as H1 by (destruct H0; by split). case_match; [|by eexists]. by apply sr_refresh_ok.
Qed.
End context.
