(* ===== verification/RangeBars.v ===== *)
(** The bars of N minutes the strategy builds from 1m candles: what the
    aggregator gives out over a stream is what grouping the stream's minutes
    by bucket gives. *)
From stdpp Require Import sorting.
From S2P Require Import Prelude Float64 Model MarketHours Indicators RangeContext.
#[local] Open Scope Z_scope.
#[local] Open Scope go_scope.

(** ** The reference: one bar per bucket *)

Abbreviation minute_bar := (Time * ohlcv)%type (only parsing).

(** Where the bucket of an instant starts. *)
Definition bucket_start (n : Z) (ts : Time) : Time :=
  ist_midnight ts + (sessionOpenMin + (minutesIST ts - sessionOpenMin) / n * n) * Minute.

(** One bar of several: first open, highest high, lowest low, last close,
    volumes added. *)
Definition summary (b : ohlcv) (later : list ohlcv) : ohlcv := {|
  b_Open := b_Open b; b_High := foldr Z.max (b_High b) (b_High <$> later); b_Low := foldr Z.min (b_Low b) (b_Low <$> later);
  b_Close := b_Close (default b (last later)); b_Volume := foldl (λ v b, v +! b_Volume b) (b_Volume b) later |}.

(** A bucket's bar: of the minutes of the stream that fall into it. *)
Definition bucket_bar (n : Z) (stream : list minute_bar) (start : Time) : option tfBar :=
  match (filter (λ m, bucket_start n m.1 = start) stream).*2 with
  | [] => None
  | b :: later => Some {| tb_bar := summary b later; tb_TS := start |}
  end.

(** The starts of a stream's buckets, each once, in order. *)
Definition bucket_starts (n : Z) (stream : list minute_bar) : list Time := remove_dups (bucket_start n ∘ fst <$> stream).

(** ** The run of the aggregator *)

Definition push_all (n : Z) (stream : list minute_bar) : list tfBar * tfAggregator :=
  foldl (λ '(closed, a) '(ts, b), let '(bar, a) := push ts b a in (closed ++ option_list bar, a)) ([], newAggregator n) stream.

(** A stream of 1m candles: whole minutes of sessions, each after the one
    before. *)
Definition minute_ok (ts : Time) : Prop := ts mod Minute = 0 ∧ sessionOpenMin <= minutesIST ts.
Definition stream_ok (stream : list minute_bar) : Prop :=
  Forall (λ m, minute_ok m.1) stream ∧ StronglySorted (λ m m', m.1 < m'.1) stream.

(** The minute is the last of its bucket. *)
Definition ends_bucket (n : Z) (ts : Time) : Prop := (minutesIST ts - sessionOpenMin) mod n = n - 1.
#[export] Instance ends_bucket_dec n ts : Decision (ends_bucket n ts).
Proof. unfold ends_bucket. apply _. Defined.

(** ** Buckets *)

Section bars.
Context (n : Z) (Hn : 0 < n <= 1440).

Lemma minutesIST_range ts : 0 <= minutesIST ts < 1440.
Proof.
  unfold minutesIST, minute_of_day, ist_of_day.
  pose proof (Z.mod_pos_bound (ts + ist_offset) day_ns ltac:(done)) as Hm.
  change day_ns with (1440 * Minute) in *. split; [apply Z.div_pos; [lia|done]|].
  apply Z.div_lt_upper_bound; [done|]. lia.
Qed.

(** A whole minute in days and minutes. *)
Lemma minute_split ts : minute_ok ts → ts = ist_midnight ts + minutesIST ts * Minute.
Proof.
  intros [Hm _]. unfold ist_midnight, minutesIST, minute_of_day, ist_of_day.
  pose proof (Z.div_mod (ts + ist_offset) day_ns ltac:(done)) as Hd.
  assert ((ts + ist_offset) mod day_ns mod Minute = 0) as Hz.
  { change day_ns with (Minute * 1440) at 1. rewrite <-Znumtheory.Zmod_div_mod; [|done|done|by exists 1440].
    change ist_offset with (330 * Minute). by rewrite Z.mod_add. }
  pose proof (Z.div_mod ((ts + ist_offset) mod day_ns) Minute ltac:(done)). lia.
Qed.

Lemma ist_midnight_day ts : ist_midnight ts = ist_day ts * day_ns - ist_offset.
Proof. done. Qed.

Definition bucket_of (ts : Time) : Z := (minutesIST ts - sessionOpenMin) / n.

Lemma bucket_span ts : minute_ok ts →
  0 <= bucket_of ts ∧ bucket_of ts * n <= minutesIST ts - sessionOpenMin < bucket_of ts * n + n.
Proof.
  intros [_ Hs]. unfold bucket_of. split; [apply Z.div_pos; lia|].
  pose proof (Z.div_mod (minutesIST ts - sessionOpenMin) n ltac:(lia)).
  pose proof (Z.mod_pos_bound (minutesIST ts - sessionOpenMin) n). lia.
Qed.

Lemma bucket_start_eq ts ts' : minute_ok ts → minute_ok ts' →
  bucket_start n ts = bucket_start n ts' ↔ ist_day ts = ist_day ts' ∧ bucket_of ts = bucket_of ts'.
Proof.
  intros Hm Hm'. unfold bucket_start. fold (bucket_of ts) (bucket_of ts'). rewrite !ist_midnight_day.
  destruct (bucket_span ts Hm) as [Hb0 Hb1], (bucket_span ts' Hm') as [Hb0' Hb1'].
  pose proof (minutesIST_range ts). pose proof (minutesIST_range ts'). split; [|by intros [-> ->]].
  change day_ns with (1440 * Minute). intros Heq.
  assert (ist_day ts = ist_day ts') as Hd by (unfold sessionOpenMin, Minute in *; nia).
  split; [done|]. rewrite Hd in Heq. unfold Minute in Heq. nia.
Qed.

Lemma bucket_start_mono ts ts' : minute_ok ts → minute_ok ts' → ts < ts' →
  bucket_start n ts <= bucket_start n ts' ∧ (ends_bucket n ts → bucket_start n ts ≠ bucket_start n ts').
Proof.
  intros Hm Hm' Hlt. pose proof (minute_split ts Hm) as E. pose proof (minute_split ts' Hm') as E'.
  pose proof (minutesIST_range ts). pose proof (minutesIST_range ts').
  destruct (bucket_span ts Hm) as [Hb0 Hb1], (bucket_span ts' Hm') as [Hb0' Hb1'].
  rewrite ist_midnight_day in E, E'. change day_ns with (1440 * Minute) in E, E'.
  assert (ist_day ts < ist_day ts' ∨ (ist_day ts = ist_day ts' ∧ minutesIST ts < minutesIST ts')) as Hc
    by (unfold Minute in *; lia).
  split.
  - unfold bucket_start. fold (bucket_of ts) (bucket_of ts'). rewrite !ist_midnight_day. change day_ns with (1440 * Minute).
    unfold sessionOpenMin, Minute in *. destruct Hc as [Hc|[-> Hc]]; [lia|].
    assert (bucket_of ts <= bucket_of ts') by (unfold bucket_of; apply Z.div_le_mono; lia). nia.
  - intros Hend Heq. apply bucket_start_eq in Heq as [Hd Hb]; [|done..]. destruct Hc as [Hc|[_ Hc]]; [lia|].
    unfold ends_bucket in Hend. pose proof (Z.div_mod (minutesIST ts - sessionOpenMin) n ltac:(lia)) as Hdm.
    rewrite Hend in Hdm. fold (bucket_of ts) in Hdm. nia.
Qed.

(** ** The reference, one minute at a time *)

Lemma summary_one b : summary b [] = b.
Proof. by destruct b. Qed.

Lemma summary_snoc b later x : summary b (later ++ [x]) = bar_add (summary b later) x.
Proof.
  unfold summary, bar_add. simpl. rewrite !fmap_app, last_snoc, foldl_app. simpl.
  by rewrite foldr_max_snoc, foldr_min_snoc.
Qed.

Lemma bucket_bar_other stream m s : bucket_start n m.1 ≠ s → bucket_bar n (stream ++ [m]) s = bucket_bar n stream s.
Proof.
  intros Hne. unfold bucket_bar. rewrite filter_app. rewrite (filter_cons_False _ m) by done. by rewrite app_nil_r.
Qed.

Lemma bucket_bar_new stream m s : bucket_start n m.1 = s → s ∉ bucket_starts n stream →
  bucket_bar n (stream ++ [m]) s = Some {| tb_bar := m.2; tb_TS := s |}.
Proof.
  intros <- Hs. unfold bucket_bar. rewrite filter_app, (filter_cons_True _ m) by done.
  destruct (filter (λ m0, bucket_start n m0.1 = bucket_start n m.1) stream) as [|x l] eqn:E;
    [simpl; by rewrite summary_one|]. exfalso.
  assert (x ∈ filter (λ m0, bucket_start n m0.1 = bucket_start n m.1) stream) as (Hx & Hin)%list_elem_of_filter
    by (rewrite E; left).
  apply Hs. unfold bucket_starts. apply elem_of_remove_dups, list_elem_of_fmap. exists x. by rewrite <-Hx.
Qed.

Lemma bucket_bar_more stream m s bar : bucket_start n m.1 = s → bucket_bar n stream s = Some bar →
  bucket_bar n (stream ++ [m]) s = Some {| tb_bar := bar_add (tb_bar bar) m.2; tb_TS := tb_TS bar |}.
Proof.
  intros <-. unfold bucket_bar. rewrite filter_app, (filter_cons_True _ m) by done. rewrite fmap_app.
  destruct ((filter _ stream).*2) as [|b later]; [done|]. intros [= <-]. simpl. by rewrite summary_snoc.
Qed.

Lemma remove_dups_snoc (l : list Time) x : remove_dups (l ++ [x]) = filter (.≠ x) (remove_dups l) ++ [x].
Proof.
  induction l as [|y l IH]; [done|]. cbn [remove_dups app]. rewrite IH.
  destruct (decide_rel (∈) y l) as [Hy|Hy], (decide_rel (∈) y (l ++ [x])) as [Hy'|Hy']; rewrite ?filter_cons;
    try case_decide; rewrite elem_of_app, list_elem_of_singleton in Hy'; naive_solver.
Qed.

Lemma bucket_starts_snoc stream m :
  bucket_starts n (stream ++ [m]) = filter (.≠ bucket_start n m.1) (bucket_starts n stream) ++ [bucket_start n m.1].
Proof. unfold bucket_starts. rewrite fmap_app. apply remove_dups_snoc. Qed.

(** The bars of a stream, by the reference. *)
Definition bars_of (stream : list minute_bar) : list tfBar := omap (bucket_bar n stream) (bucket_starts n stream).

Lemma omap_ext_in {A B} (f g : A → option B) (l : list A) : (∀ x, x ∈ l → f x = g x) → omap f l = omap g l.
Proof.
  induction l as [|x l IH]; intros Hfg; [done|]. cbn [omap list_omap]. rewrite (Hfg x) by by left.
  rewrite IH; [done|]. intros y Hy. apply Hfg. by right.
Qed.

Lemma omap_snoc {A B} (f : A → option B) (l : list A) x : omap f (l ++ [x]) = omap f l ++ option_list (f x).
Proof. rewrite omap_app. cbn [omap list_omap]. by destruct (f x). Qed.

(** A minute of a new bucket adds a bar. *)
Lemma bars_of_new stream m : bucket_start n m.1 ∉ bucket_starts n stream →
  bars_of (stream ++ [m]) = bars_of stream ++ [{| tb_bar := m.2; tb_TS := bucket_start n m.1 |}].
Proof.
  intros Hnew. unfold bars_of. rewrite bucket_starts_snoc, omap_snoc, (bucket_bar_new _ _ _ eq_refl Hnew). f_equal.
  rewrite filter_Forall by (apply Forall_forall; naive_solver). apply omap_ext_in. intros s Hs. apply bucket_bar_other. naive_solver.
Qed.

(** A minute of the last bucket goes into its bar. *)
Lemma bars_of_last stream last m bars bar : bars_of (stream ++ [last]) = bars ++ [bar] →
  bucket_start n m.1 = bucket_start n last.1 →
  bars_of ((stream ++ [last]) ++ [m]) = bars ++ [{| tb_bar := bar_add (tb_bar bar) m.2; tb_TS := tb_TS bar |}].
Proof.
  intros Hbars Heq. unfold bars_of in *. rewrite (bucket_starts_snoc (stream ++ [last])), Heq.
  rewrite (bucket_starts_snoc stream last) in *. set (r := filter _ (bucket_starts n stream)) in *.
  assert (Forall (.≠ bucket_start n last.1) r) as Hr by (apply Forall_forall; intros s [? _]%list_elem_of_filter; done).
  rewrite omap_snoc in Hbars. rewrite filter_app, (filter_Forall _ r) by done.
  rewrite filter_cons_False by naive_solver. cbn [filter list_filter]. rewrite app_nil_r, omap_snoc.
  destruct (bucket_bar n (stream ++ [last]) (bucket_start n last.1)) as [b|] eqn:Hb.
  - simpl in Hbars. apply app_inj_2 in Hbars as [<- [= <-]]; [|done].
    rewrite (bucket_bar_more _ _ _ _ Heq Hb). simpl. f_equal. apply omap_ext_in. intros s Hs. apply bucket_bar_other.
    rewrite Heq. rewrite Forall_forall in Hr. intros <-. by apply (Hr _ Hs).
  - exfalso. unfold bucket_bar in Hb. rewrite filter_app, (filter_cons_True _ last), fmap_app in Hb by done.
    by destruct ((filter _ stream).*2).
Qed.

(** ** The aggregator follows the reference *)

Definition pending (a : tfAggregator) : list tfBar := if ta_Has a then [ta_Cur a] else [].

Record follows (stream : list minute_bar) (closed : list tfBar) (a : tfAggregator) : Prop := {
  fw_minutes : ta_Minutes a = n;
  fw_bars : closed ++ pending a = bars_of stream;
  fw_last : match last stream with
            | None => ta_Has a = false
            | Some m =>
                if ta_Has a then ta_Day a = Some (ist_day m.1) ∧ ta_Bucket a = bucket_of m.1 else ends_bucket n m.1
            end;
}.

Lemma push_eq ts b a : ta_Minutes a = n → minute_ok ts →
  push ts b a =
    let same := ta_Has a && bool_decide (ta_Day a = Some (ist_day ts) ∧ ta_Bucket a = bucket_of ts) in
    let a' := {| ta_Minutes := n;
      ta_Cur := if same then {| tb_bar := bar_add (tb_bar (ta_Cur a)) b; tb_TS := tb_TS (ta_Cur a) |}
                else {| tb_bar := b; tb_TS := bucket_start n ts |};
      ta_Has := true;
      ta_Day := if same then ta_Day a else Some (ist_day ts); ta_Bucket := if same then ta_Bucket a else bucket_of ts |} in
    if ta_Has a && negb same then (Some (ta_Cur a), a')
    else if bool_decide (ends_bucket n ts) then (Some (ta_Cur a'), a' <| ta_Has := false |>) else (None, a').
Proof.
  intros Hmin Hok. pose proof (minutesIST_range ts). destruct (bucket_span ts Hok) as [Hb0 Hb1]. pose proof (proj2 Hok).
  pose proof (Z.mul_nonneg_nonneg (bucket_of ts) (n - 1) Hb0 ltac:(lia)) as Hle.
  assert (minutesIST ts -! sessionOpenMin = minutesIST ts - sessionOpenMin) as E1
    by (unfold sessionOpenMin in *; apply i64_id; i64_unfold; lia).
  assert ((minutesIST ts - sessionOpenMin) /! n = bucket_of ts) as E2.
  { rewrite Z.quot_div_nonneg by lia. fold (bucket_of ts). apply i64_id. unfold sessionOpenMin in *. i64_unfold. lia. }
  assert (n -! 1 = n - 1) as E3 by (apply i64_id; i64_unfold; lia).
  assert (t_add (ist_midnight ts) ((sessionOpenMin +! bucket_of ts *! n) *! Minute) = bucket_start n ts) as E4.
  { unfold t_add, bucket_start. fold (bucket_of ts). unfold sessionOpenMin, Minute in *.
    rewrite (i64_id (bucket_of ts * n)), (i64_id (_ + bucket_of ts * n)), i64_id by (i64_unfold; lia). done. }
  assert ((Z.rem (minutesIST ts - sessionOpenMin) n =? n - 1) = bool_decide (ends_bucket n ts)) as E5.
  { rewrite Z.rem_mod_nonneg by lia. unfold ends_bucket. case_bool_decide; [by apply Z.eqb_eq|by apply Z.eqb_neq]. }
  destruct a as [mi cur has day bu]. simpl in Hmin. subst mi. unfold push. simpl ta_Minutes. simpl ta_Has.
  simpl ta_Day. simpl ta_Bucket. rewrite E1, E2, (proj2 (Z.ltb_ge _ 0)) by lia.
  assert ((negb (bool_decide (Some (ist_day ts) = day)) || negb (bucket_of ts =? bu)) =
    negb (bool_decide (day = Some (ist_day ts) ∧ bu = bucket_of ts))) as ->.
  { destruct (Z.eqb_spec (bucket_of ts) bu); repeat case_bool_decide; simpl; naive_solver. }
  destruct has; cbn [andb negb].
  - destruct (bool_decide (day = _ ∧ _)); cbn [negb]; simpl; rewrite E3, E5, ?E4; by destruct (bool_decide (ends_bucket n ts)).
  - simpl. rewrite E3, E5, E4. by destruct (bool_decide (ends_bucket n ts)).
Qed.

Lemma follows_push stream closed a ts b :
  stream_ok (stream ++ [(ts, b)]) → follows stream closed a →
  let '(bar, a') := push ts b a in follows (stream ++ [(ts, b)]) (closed ++ option_list bar) a'.
Proof.
  intros [Hok Hsort] [Hmin Hbars Hlast]. rewrite Forall_app, Forall_singleton in Hok. destruct Hok as [Hoks Hok]. simpl in Hok.
  rewrite push_eq by done. cbv zeta.
  destruct (last stream) as [m|] eqn:Hm; [apply last_Some in Hm as [pre ->]|apply last_None in Hm as ->].
  - assert (minute_ok m.1) as Hmok by (rewrite Forall_app, Forall_singleton in Hoks; by destruct Hoks).
    assert (m.1 < ts) as Hlt.
    { apply (StronglySorted_app_1_elem_of _ _ _ m (ts, b)) in Hsort; [done| |by left]. apply elem_of_app. right. by left. }
    destruct (bucket_start_mono m.1 ts Hmok Hok Hlt) as [Hle Hends].
    assert (∀ s, s ∈ bucket_starts n (pre ++ [m]) → s <= bucket_start n m.1) as Hmax.
    { intros s. unfold bucket_starts. rewrite elem_of_remove_dups, list_elem_of_fmap. intros (x & -> & Hx). simpl.
      apply elem_of_app in Hx as [Hx|Hx%list_elem_of_singleton]; [|by subst].
      apply bucket_start_mono; [|done|].
      - rewrite Forall_app, Forall_forall in Hoks. by apply Hoks.
      - apply StronglySorted_app in Hsort as (_ & Hsort & _).
        by apply (StronglySorted_app_1_elem_of _ _ _ x m) in Hsort; [| |left]. }
    destruct (ta_Has a) eqn:Hhas; simpl.
    + destruct Hlast as [Hday Hbu]. unfold pending in Hbars. rewrite Hhas in Hbars. case_bool_decide as Hsame; simpl.
      * assert (bucket_start n ts = bucket_start n m.1) as Heq.
        { apply bucket_start_eq; [done|done|]. rewrite Hday, Hbu in Hsame. destruct Hsame as [[= ?] ?]. by split. }
        pose proof (bars_of_last pre m (ts, b) _ _ (eq_sym Hbars) Heq) as Hnew. simpl in Hnew.
        case_bool_decide; split; simpl; rewrite ?last_snoc; unfold pending; simpl; rewrite ?app_nil_r; auto; by rewrite <-Hnew.
      * assert (bucket_start n ts ∉ bucket_starts n (pre ++ [m])) as Hnew.
        { intros Hin%Hmax. apply Hsame. rewrite Hday, Hbu.
          assert (bucket_start n ts = bucket_start n m.1) as Heq by lia.
          by apply bucket_start_eq in Heq as [-> ->]. }
        split; simpl; [done| |by rewrite last_snoc].
        by rewrite (bars_of_new _ (ts, b)), <-Hbars by done.
    + assert (bucket_start n ts ∉ bucket_starts n (pre ++ [m])) as Hnew.
      { intros Hin%Hmax. apply (Hends Hlast). lia. }
      unfold pending in Hbars. rewrite Hhas, app_nil_r in Hbars. pose proof (bars_of_new _ (ts, b) Hnew) as Hb. simpl in Hb.
      case_bool_decide; split; simpl; rewrite ?last_snoc; unfold pending; simpl; rewrite ?app_nil_r; auto; by rewrite Hb, <-Hbars.
  - rewrite Hlast. simpl. unfold pending in Hbars. rewrite Hlast, app_nil_r in Hbars.
    assert (bucket_start n ts ∉ bucket_starts n []) as Hnew by apply not_elem_of_nil.
    pose proof (bars_of_new [] (ts, b) Hnew) as Hb. change (bars_of []) with (@nil tfBar) in *. subst closed.
    case_bool_decide; split; simpl; auto.
Qed.

Lemma push_all_follows stream : stream_ok stream → follows stream (push_all n stream).1 (push_all n stream).2.
Proof.
  induction stream as [|[ts b] stream IH] using rev_ind; intros Hok; [by split|].
  assert (stream_ok stream) as Hok'.
  { destruct Hok as [Hf Hs]. rewrite Forall_app in Hf. apply StronglySorted_app_1_l in Hs. by destruct Hf. }
  unfold push_all. rewrite foldl_app. fold (push_all n stream). destruct (push_all n stream) as [closed a].
  pose proof (follows_push stream closed a ts b Hok (IH Hok')) as Hf. simpl in *. by destruct (push ts b a).
Qed.
End bars.

(** The bars of N minutes a strategy reads are the true ones.  Over any
    stream of whole-minute session candles in order, with whatever gaps, the
    bars the aggregator has closed, and the one it is building, are one bar
    per bucket that has a minute: anchored at 09:15 IST, in order, with the
    first open, highest high, lowest low, last close and summed volume of the
    bucket's minutes.  When the last minute ends its bucket and an earlier
    minute of that bucket had arrived, every bar is closed. *)
Theorem bars_are_buckets n stream :
  0 < n <= 1440 → stream_ok stream →
  let '(closed, a) := push_all n stream in
  closed ++ (if ta_Has a then [ta_Cur a] else []) = omap (bucket_bar n stream) (bucket_starts n stream) ∧
  ∀ earlier m m', stream = earlier ++ [m; m'] → bucket_start n m.1 = bucket_start n m'.1 → ends_bucket n m'.1 →
    closed = omap (bucket_bar n stream) (bucket_starts n stream).
Proof.
  intros Hn Hok. pose proof (push_all_follows n Hn stream Hok) as [Hm Hb Hl].
  destruct (push_all n stream) as [closed a] eqn:Hp. simpl in *. split; [exact Hb|].
  intros earlier m m' Hstr Heq Hend. replace (earlier ++ [m; m']) with ((earlier ++ [m]) ++ [m']) in Hstr by (by rewrite <-app_assoc).
  subst stream. unfold pending in Hb. destruct (ta_Has a) eqn:Hhas; [exfalso|by rewrite app_nil_r in Hb].
  assert (stream_ok (earlier ++ [m])) as Hok'.
  { destruct Hok as [Hf Hs]. rewrite Forall_app in Hf.
    apply StronglySorted_app_1_l in Hs. by destruct Hf. }
  assert (minute_ok m.1 ∧ minute_ok m'.1) as [Hm1 Hm2].
  { destruct Hok as [Hf _]. rewrite !Forall_app, !Forall_singleton in Hf. naive_solver. }
  pose proof (push_all_follows n Hn _ Hok') as [Hm0 _ Hl0]. rewrite last_snoc in Hl0.
  unfold push_all in Hp. rewrite foldl_app in Hp. fold (push_all n (earlier ++ [m])) in Hp.
  destruct (push_all n (earlier ++ [m])) as [closed0 a0]. destruct m' as [ts b]. simpl in *.
  rewrite (push_eq n Hn ts b a0 Hm0 Hm2) in Hp. cbv zeta in Hp.
  assert (ta_Has a0 = true) as Hh0.
  { destruct (ta_Has a0); [done|]. exfalso. apply (bucket_start_mono n Hn m.1 ts) in Hl0; try done.
    destruct Hok as [_ Hs].
    apply (StronglySorted_app_1_elem_of _ _ _ m (ts, b)) in Hs; [done| |by left]. apply elem_of_app. right. by left. }
  rewrite Hh0 in *. destruct Hl0 as [Hd Hbu]. apply (bucket_start_eq n Hn) in Heq as [Hd' Hb']; [|done..].
  rewrite bool_decide_eq_true_2 in Hp by (rewrite Hd, Hbu; by rewrite Hd', Hb'). simpl in Hp.
  rewrite bool_decide_eq_true_2 in Hp by done. simpl in Hp. by injection Hp as _ <-.
Qed.

(** 09:15 to 09:25, with 09:17 to 09:19 missing. *)
Definition sample_minute (i : Z) : Time * ohlcv :=
  (t_of_unix (1753069500 + 60 * i),
   {| b_Open := 2450000 + i; b_High := 2450100 + i * i; b_Low := 2449900 - i; b_Close := 2450010 + i; b_Volume := 10 * i |}).
Definition sample_stream : list (Time * ohlcv) := sample_minute <$> [0; 1; 5; 6; 7; 8; 9].

Lemma bars_are_buckets_witness :
  let '(closed, a) := push_all 5 sample_stream in
  closed = omap (bucket_bar 5 sample_stream) (bucket_starts 5 sample_stream) ∧ length closed = 2%nat.
Proof.
  pose proof (bars_are_buckets 5 sample_stream) as H.
  assert (stream_ok sample_stream) as Hok.
  { split.
    - unfold sample_stream. simpl. rewrite !Forall_cons, Forall_nil. unfold minute_ok. simpl fst.
      repeat split; try reflexivity; by apply Z.leb_le.
    - unfold sample_stream. simpl. repeat (apply SSorted_cons; [|rewrite ?Forall_cons, ?Forall_nil; simpl; repeat split; by apply Z.ltb_lt]).
      apply SSorted_nil. }
  specialize (H ltac:(lia) Hok). destruct (push_all 5 sample_stream) as [closed a] eqn:Hp. destruct H as [_ H]. split.
  - apply (H (take 5 sample_stream) (sample_minute 8) (sample_minute 9)); reflexivity.
  - assert (closed = (push_all 5 sample_stream).1) as -> by (by rewrite Hp). reflexivity.
Defined.
