(* ===== verification/Nifty50SrState.v ===== *)
(** Configuration, per-index state, sweeps and snapshot of the NIFTY50 SR
    strategy (internal/strategy: nifty50_sr_state.go, sr_scale.go,
    sr_sweep.go, sr_helpers.go).  The state's position block is a record of
    its own. *)
From S2P Require Import Prelude Float64 GoText Model MarketHours Indicators RangeContext SrContext.
#[local] Open Scope Z_scope.
#[local] Open Scope go_scope.

(** ** Configuration *)

Definition SRKindFade : string := "FADE".
Definition SRKindRetest : string := "BREAKOUT_RETEST".
Definition SRKindPullback : string := "PULLBACK".
Definition SRKindPullbackFast : string := "PULLBACK_FAST".
Definition SRKindContinue : string := "CONTINUE".
Definition SRGateWarn : string := "warn".
Definition SRGateBlock : string := "block".

Record Nifty50SRConfig := {
  nc_Context : SRContextConfig;
  nc_FadeEnabled : bool; nc_RetestEnabled : bool; nc_PullbackEnabled : bool;
  nc_MinConfirmations : Z; nc_EntryTFMinutes : Z;
  nc_TouchTolPts : Z; nc_BreakATRPct : Z; nc_BreakVolPct : Z; nc_RetestMinutes : Z; nc_FlatEMAPts : Z;
  nc_FadeRSIBuyMax : float64; nc_FadeRSISellMin : float64; nc_PullRSILo : float64; nc_PullRSIHi : float64;
  nc_StopATRPct : Z; nc_StopMinPts : Z; nc_DefaultTargetR : Z; nc_MinRewardRiskPct : Z; nc_BreakevenAtR : Z;
  nc_SupportStopMode : string; nc_SupportStopTouches : Z; nc_SupportStopZonePts : Z; nc_SupportStopZoneATRPct : Z;
  nc_SupportStopConfirm : Z;
  nc_NoProgressMin : Z; nc_NoProgressRPct : Z; nc_ReentryMinADX : float64;
  nc_DayExtremePct : Z; nc_DayRunPts : Z; nc_DayExtremePuts : bool; nc_DayExtremeFromMin : Z;
  nc_BoxBars : Z; nc_BoxATRPct : Z; nc_BoxFadeToo : bool; nc_GateMode : string; nc_RetestTolPts : Z;
  nc_SweepEnabled : bool; nc_SweepMinWickPts : Z; nc_SweepCooldownMin : Z; nc_SweepWarnMin : Z;
  nc_AdvicePullFastEMA : bool; nc_AdviceContinueMin : Z; nc_AdviceMaxRiskATRPct : Z; nc_StrongTrendADX : float64;
  nc_AdviceAsTrades : bool;
  nc_EntryFromMin : Z; nc_EntryToMin : Z; nc_TimeExitMin : Z; nc_MaxTradesPerDay : Z; nc_MaxConsecLosses : Z;
  nc_MaxDayLossPts : Z; nc_CooldownCandles : Z;
  nc_FNOHardSLPct : Z; nc_FNOTrailStartPct : Z; nc_FNOTrailSLPct : Z; nc_FNOTargetPct : Z;
  nc_StrikeStep : Z; nc_VolumeToken : string; nc_FNOCallToken : string; nc_FNOPutToken : string; nc_IndexToken : string;
  nc_NameOverride : string;
}.

#[export] Instance Nifty50SRConfig_settable : Settable Nifty50SRConfig := λ c, {|
  nc_Context := nc_Context c; nc_FadeEnabled := nc_FadeEnabled c; nc_RetestEnabled := nc_RetestEnabled c;
  nc_PullbackEnabled := nc_PullbackEnabled c; nc_MinConfirmations := nc_MinConfirmations c;
  nc_EntryTFMinutes := nc_EntryTFMinutes c; nc_TouchTolPts := nc_TouchTolPts c; nc_BreakATRPct := nc_BreakATRPct c;
  nc_BreakVolPct := nc_BreakVolPct c; nc_RetestMinutes := nc_RetestMinutes c; nc_FlatEMAPts := nc_FlatEMAPts c;
  nc_FadeRSIBuyMax := nc_FadeRSIBuyMax c; nc_FadeRSISellMin := nc_FadeRSISellMin c; nc_PullRSILo := nc_PullRSILo c;
  nc_PullRSIHi := nc_PullRSIHi c; nc_StopATRPct := nc_StopATRPct c; nc_StopMinPts := nc_StopMinPts c;
  nc_DefaultTargetR := nc_DefaultTargetR c; nc_MinRewardRiskPct := nc_MinRewardRiskPct c;
  nc_BreakevenAtR := nc_BreakevenAtR c; nc_SupportStopMode := nc_SupportStopMode c;
  nc_SupportStopTouches := nc_SupportStopTouches c; nc_SupportStopZonePts := nc_SupportStopZonePts c;
  nc_SupportStopZoneATRPct := nc_SupportStopZoneATRPct c; nc_SupportStopConfirm := nc_SupportStopConfirm c;
  nc_NoProgressMin := nc_NoProgressMin c; nc_NoProgressRPct := nc_NoProgressRPct c; nc_ReentryMinADX := nc_ReentryMinADX c;
  nc_DayExtremePct := nc_DayExtremePct c; nc_DayRunPts := nc_DayRunPts c; nc_DayExtremePuts := nc_DayExtremePuts c;
  nc_DayExtremeFromMin := nc_DayExtremeFromMin c; nc_BoxBars := nc_BoxBars c; nc_BoxATRPct := nc_BoxATRPct c;
  nc_BoxFadeToo := nc_BoxFadeToo c; nc_GateMode := nc_GateMode c; nc_RetestTolPts := nc_RetestTolPts c;
  nc_SweepEnabled := nc_SweepEnabled c; nc_SweepMinWickPts := nc_SweepMinWickPts c;
  nc_SweepCooldownMin := nc_SweepCooldownMin c; nc_SweepWarnMin := nc_SweepWarnMin c;
  nc_AdvicePullFastEMA := nc_AdvicePullFastEMA c; nc_AdviceContinueMin := nc_AdviceContinueMin c;
  nc_AdviceMaxRiskATRPct := nc_AdviceMaxRiskATRPct c; nc_StrongTrendADX := nc_StrongTrendADX c;
  nc_AdviceAsTrades := nc_AdviceAsTrades c; nc_EntryFromMin := nc_EntryFromMin c; nc_EntryToMin := nc_EntryToMin c;
  nc_TimeExitMin := nc_TimeExitMin c; nc_MaxTradesPerDay := nc_MaxTradesPerDay c;
  nc_MaxConsecLosses := nc_MaxConsecLosses c; nc_MaxDayLossPts := nc_MaxDayLossPts c;
  nc_CooldownCandles := nc_CooldownCandles c; nc_FNOHardSLPct := nc_FNOHardSLPct c;
  nc_FNOTrailStartPct := nc_FNOTrailStartPct c; nc_FNOTrailSLPct := nc_FNOTrailSLPct c; nc_FNOTargetPct := nc_FNOTargetPct c;
  nc_StrikeStep := nc_StrikeStep c; nc_VolumeToken := nc_VolumeToken c; nc_FNOCallToken := nc_FNOCallToken c;
  nc_FNOPutToken := nc_FNOPutToken c; nc_IndexToken := nc_IndexToken c; nc_NameOverride := nc_NameOverride c |}.

Definition DefaultNifty50SRConfig : Nifty50SRConfig := {|
  nc_Context := DefaultSRContextConfig;
  nc_FadeEnabled := true; nc_RetestEnabled := true; nc_PullbackEnabled := true;
  nc_MinConfirmations := 3; nc_EntryTFMinutes := 1;
  nc_TouchTolPts := 1000; nc_BreakATRPct := 25; nc_BreakVolPct := 120; nc_RetestMinutes := 30; nc_FlatEMAPts := 1000;
  nc_FadeRSIBuyMax := f64_of_int 40; nc_FadeRSISellMin := f64_of_int 60; nc_PullRSILo := f64_of_int 40;
  nc_PullRSIHi := f64_of_int 55;
  nc_StopATRPct := 100; nc_StopMinPts := 2000; nc_DefaultTargetR := 200; nc_MinRewardRiskPct := 150; nc_BreakevenAtR := 50;
  nc_SupportStopMode := "breakeven"; nc_SupportStopTouches := 3; nc_SupportStopZonePts := 300; nc_SupportStopZoneATRPct := 0;
  nc_SupportStopConfirm := 1;
  nc_NoProgressMin := 0; nc_NoProgressRPct := 0; nc_ReentryMinADX := f64_zero;
  nc_DayExtremePct := 80; nc_DayRunPts := 6000; nc_DayExtremePuts := false; nc_DayExtremeFromMin := hhmm 10 30;
  nc_BoxBars := 6; nc_BoxATRPct := 150; nc_BoxFadeToo := false; nc_GateMode := SRGateWarn; nc_RetestTolPts := 0;
  nc_SweepEnabled := true; nc_SweepMinWickPts := 500; nc_SweepCooldownMin := 15; nc_SweepWarnMin := 5;
  nc_AdvicePullFastEMA := true; nc_AdviceContinueMin := 15; nc_AdviceMaxRiskATRPct := 150; nc_StrongTrendADX := f64_of_int 30;
  nc_AdviceAsTrades := false;
  nc_EntryFromMin := hhmm 9 30; nc_EntryToMin := hhmm 14 45; nc_TimeExitMin := hhmm 15 10; nc_MaxTradesPerDay := 3;
  nc_MaxConsecLosses := 2; nc_MaxDayLossPts := 6000; nc_CooldownCandles := 10;
  nc_FNOHardSLPct := 20; nc_FNOTrailStartPct := 25; nc_FNOTrailSLPct := 10; nc_FNOTargetPct := 0;
  nc_StrikeStep := 50; nc_VolumeToken := ""; nc_FNOCallToken := ""; nc_FNOPutToken := ""; nc_IndexToken := "NSE:99926000";
  nc_NameOverride := "NIFTY50_SR";
|}.

(** [ScalePoints] on the range part. *)
Definition scale_range (scale : Z → Z) (r : RangeContextConfig) : RangeContextConfig := {|
  rg_ADXPeriod := rg_ADXPeriod r; rg_MaxADX := rg_MaxADX r; rg_EMAPeriod := rg_EMAPeriod r;
  rg_FlatSlopeBars := rg_FlatSlopeBars r; rg_FlatSlopePts := scale (rg_FlatSlopePts r); rg_BBPeriod := rg_BBPeriod r;
  rg_BBMult := rg_BBMult r; rg_BBSqueezePct := rg_BBSqueezePct r; rg_RSIPeriod := rg_RSIPeriod r;
  rg_VolAvgBars := rg_VolAvgBars r; rg_VolAvgBars5 := rg_VolAvgBars5 r; rg_ATRPeriod := rg_ATRPeriod r;
  rg_RequireFlatEMA := rg_RequireFlatEMA r; rg_EntryMinutes := rg_EntryMinutes r; rg_HTFEMAPeriod := rg_HTFEMAPeriod r;
  rg_HTFLevels := rg_HTFLevels r; rg_SwingWindow := rg_SwingWindow r; rg_LevelLookbackBars := rg_LevelLookbackBars r;
  rg_LevelTolerancePts := scale (rg_LevelTolerancePts r); rg_MinTouches := rg_MinTouches r;
  rg_UsePrevDayLevels := rg_UsePrevDayLevels r; rg_MinRangePts := scale (rg_MinRangePts r);
  rg_MaxRangePts := scale (rg_MaxRangePts r); rg_NarrowMaxPts := scale (rg_NarrowMaxPts r);
  rg_MediumMaxPts := scale (rg_MediumMaxPts r) |}.

Definition ScalePoints (scale : Z → Z) (c : Nifty50SRConfig) : Nifty50SRConfig :=
  let x := nc_Context c in
  c <| nc_TouchTolPts := scale (nc_TouchTolPts c) |> <| nc_FlatEMAPts := scale (nc_FlatEMAPts c) |>
    <| nc_StopMinPts := scale (nc_StopMinPts c) |> <| nc_SupportStopZonePts := scale (nc_SupportStopZonePts c) |>
    <| nc_DayRunPts := scale (nc_DayRunPts c) |> <| nc_RetestTolPts := scale (nc_RetestTolPts c) |>
    <| nc_MaxDayLossPts := scale (nc_MaxDayLossPts c) |> <| nc_SweepMinWickPts := scale (nc_SweepMinWickPts c) |>
    <| nc_Context := {|
      sx_Range := scale_range scale (sx_Range x); sx_EMAFast := sx_EMAFast x; sx_EMASlow := sx_EMASlow x;
      sx_RangeMaxADX := sx_RangeMaxADX x; sx_TrendMinADX := sx_TrendMinADX x; sx_VWAPSlopeBars := sx_VWAPSlopeBars x;
      sx_FlatVWAPSlopePts := scale (sx_FlatVWAPSlopePts x); sx_MinVWAPCrosses := sx_MinVWAPCrosses x;
      sx_MinATRPts := scale (sx_MinATRPts x); sx_OpeningRangeEndMin := sx_OpeningRangeEndMin x |} |>.

(** ** Sweeps (sr_sweep.go) *)

Definition SRSweepHigh : string := "HIGH".
Definition SRSweepLow : string := "LOW".
Definition SRSweepDayHigh : string := "DAY_HIGH".
Definition SRSweepDayLow : string := "DAY_LOW".
Definition maxSweepsKept : Z := 5.

Record SRSweep := {
  sw_Side : string; sw_Level : Z; sw_Source : string; sw_Wick : Z; sw_Extreme : Z; sw_Close : Z; sw_Touches : Z; sw_TS : Time }.

Record sweepLevel := { sl_price : Z; sl_source : string; sl_touches : Z }.

Definition sweepRank (source : string) : Z :=
  if String.eqb source SRLevelPrevDay then 4
  else if String.eqb source SRLevelOpening then 3
  else if String.eqb source SRSweepDayHigh || String.eqb source SRSweepDayLow then 2
  else 1.

Definition sweepLevels (ss : SRState) : list sweepLevel :=
  let add p src touches := if 0 <? p then [{| sl_price := p; sl_source := src; sl_touches := touches |}] else [] in
  add (ss_PrevDayHigh ss) SRLevelPrevDay 1 ++ add (ss_PrevDayLow ss) SRLevelPrevDay 1 ++
  add (ss_ORHigh ss) SRLevelOpening 1 ++ add (ss_ORLow ss) SRLevelOpening 1 ++
  (if (ss_DayLow ss <? ss_DayHigh ss) && (0 <? ss_DayLow ss)
   then add (ss_DayHigh ss) SRSweepDayHigh 1 ++ add (ss_DayLow ss) SRSweepDayLow 1 else []) ++
  concat ((λ l, add (lv_Price l) (lv_Source l) (lv_Touches l)) <$> ss_Levels ss).

(** The sweep a bar makes of one level. *)
Definition sweep_of (b : ohlcv) (ts : Time) (minWick : Z) (l : sweepLevel) : option SRSweep :=
  let p := sl_price l in
  let sweep side wick extreme := {|
    sw_Side := side; sw_Level := p; sw_Source := sl_source l; sw_Wick := wick; sw_Extreme := extreme; sw_Close := b_Close b;
    sw_Touches := sl_touches l; sw_TS := ts |} in
  if (b_Open b <=? p) && (b_Close b <=? p) && (minWick <=? b_High b -! p) then
    Some (sweep SRSweepHigh (b_High b -! p) (b_High b))
  else if (p <=? b_Open b) && (p <=? b_Close b) && (minWick <=? p -! b_Low b) then
    Some (sweep SRSweepLow (p -! b_Low b) (b_Low b))
  else None.

Definition better_sweep (c best : SRSweep) : bool :=
  if negb (String.eqb (sw_Side c) (sw_Side best)) then sw_Wick best <? sw_Wick c
  else if negb (sweepRank (sw_Source c) =? sweepRank (sw_Source best))
  then sweepRank (sw_Source best) <? sweepRank (sw_Source c)
  else if negb (sw_Touches c =? sw_Touches best) then sw_Touches best <? sw_Touches c
  else sw_Wick best <? sw_Wick c.

Definition detectSweep (b : ohlcv) (ts : Time) (levels : list sweepLevel) (minWick : Z) : option SRSweep :=
  if minWick <=? 0 then None
  else foldl (λ best l,
    match sweep_of b ts minWick l with
    | None => best
    | Some c => match best with Some o => if better_sweep c o then Some c else Some o | None => Some c end
    end) None levels.

(** ** State *)

Record srPosition := {
  ps_Side : PositionSide; ps_Kind : string; ps_Regime : SRRegime; ps_IndexEntry : Z; ps_StopLevel : Z; ps_TargetLevel : Z;
  ps_Risk : Z; ps_Breakeven : bool; ps_SupportLvl : Z; ps_BreakBars : Z; ps_EntryTS : Time; ps_MaxGain : Z;
  ps_Strike : Z; ps_FNOToken : string; ps_FNOEntryPrice : Z; ps_FNOBestPrice : Z; ps_FNOLastPrice : Z;
  ps_ManualLevels : bool; ps_FNOManualSL : Z; ps_FNOTarget : Z; ps_TrailDist : Z;
}.

#[export] Instance srPosition_settable : Settable srPosition := λ p, {|
  ps_Side := ps_Side p; ps_Kind := ps_Kind p; ps_Regime := ps_Regime p; ps_IndexEntry := ps_IndexEntry p;
  ps_StopLevel := ps_StopLevel p; ps_TargetLevel := ps_TargetLevel p; ps_Risk := ps_Risk p; ps_Breakeven := ps_Breakeven p;
  ps_SupportLvl := ps_SupportLvl p; ps_BreakBars := ps_BreakBars p; ps_EntryTS := ps_EntryTS p; ps_MaxGain := ps_MaxGain p;
  ps_Strike := ps_Strike p; ps_FNOToken := ps_FNOToken p; ps_FNOEntryPrice := ps_FNOEntryPrice p;
  ps_FNOBestPrice := ps_FNOBestPrice p; ps_FNOLastPrice := ps_FNOLastPrice p; ps_ManualLevels := ps_ManualLevels p;
  ps_FNOManualSL := ps_FNOManualSL p; ps_FNOTarget := ps_FNOTarget p; ps_TrailDist := ps_TrailDist p |}.

(** No position. *)
Definition flat_position : srPosition := {|
  ps_Side := SideNone; ps_Kind := ""; ps_Regime := SRRegimeNone; ps_IndexEntry := 0; ps_StopLevel := 0; ps_TargetLevel := 0;
  ps_Risk := 0; ps_Breakeven := false; ps_SupportLvl := 0; ps_BreakBars := 0; ps_EntryTS := zero_time; ps_MaxGain := 0;
  ps_Strike := 0; ps_FNOToken := ""; ps_FNOEntryPrice := 0; ps_FNOBestPrice := 0; ps_FNOLastPrice := 0;
  ps_ManualLevels := false; ps_FNOManualSL := 0; ps_FNOTarget := 0; ps_TrailDist := 0 |}.

Record nifty50SRState := {
  n5_ctx : srContext;
  n5_pos : srPosition;
  n5_PendingSide : PositionSide; n5_PendingLevel : Z; n5_PendingLeft : Z;
  n5_TradeDay : option Z; n5_TradesToday : Z; n5_ConsecLosses : Z; n5_DayPnLPts : Z; n5_LastSide : PositionSide;
  n5_LastADX : float64; n5_CooldownLeft : Z; n5_LastClose : Z;
  n5_AdviceToday : Z; n5_AdviceCooldown : Z;
  n5_Sweeps : list SRSweep; n5_sweepAt : gmap Z Time;
  n5_LastCloseTS : Time;
}.

#[export] Instance nifty50SRState_settable : Settable nifty50SRState := λ s, {|
  n5_ctx := n5_ctx s; n5_pos := n5_pos s; n5_PendingSide := n5_PendingSide s; n5_PendingLevel := n5_PendingLevel s;
  n5_PendingLeft := n5_PendingLeft s; n5_TradeDay := n5_TradeDay s; n5_TradesToday := n5_TradesToday s;
  n5_ConsecLosses := n5_ConsecLosses s; n5_DayPnLPts := n5_DayPnLPts s; n5_LastSide := n5_LastSide s;
  n5_LastADX := n5_LastADX s; n5_CooldownLeft := n5_CooldownLeft s; n5_LastClose := n5_LastClose s;
  n5_AdviceToday := n5_AdviceToday s; n5_AdviceCooldown := n5_AdviceCooldown s; n5_Sweeps := n5_Sweeps s;
  n5_sweepAt := n5_sweepAt s; n5_LastCloseTS := n5_LastCloseTS s |}.

(** The state around a context: everything else as it begins. *)
Definition fresh_state (ctx : srContext) : nifty50SRState := {|
  n5_ctx := ctx; n5_pos := flat_position; n5_PendingSide := SideNone; n5_PendingLevel := 0; n5_PendingLeft := 0;
  n5_TradeDay := None; n5_TradesToday := 0; n5_ConsecLosses := 0; n5_DayPnLPts := 0; n5_LastSide := ""; n5_LastADX := f64_zero;
  n5_CooldownLeft := 0; n5_LastClose := 0; n5_AdviceToday := 0; n5_AdviceCooldown := 0; n5_Sweeps := []; n5_sweepAt := ∅;
  n5_LastCloseTS := zero_time |}.

Definition newNifty50SRState (cfg : Nifty50SRConfig) : option nifty50SRState :=
  ctx ← newSRContext (nc_Context cfg); Some (fresh_state ctx).

(** [recordSweep]: [None] when the level was swept within the cooldown. *)
Definition recordSweep (sw : SRSweep) (cooldown : Duration) (st : nifty50SRState) : option nifty50SRState :=
  if match n5_sweepAt st !! sw_Level sw with Some last => t_sub (sw_TS sw) last <? cooldown | None => false end then None
  else
    let sweeps := n5_Sweeps st ++ [sw] in
    Some (st <| n5_sweepAt := <[sw_Level sw := sw_TS sw]> (n5_sweepAt st) |>
             <| n5_Sweeps := drop (length sweeps - Z.to_nat maxSweepsKept) sweeps |>).

(** The kept sweeps, newest first, within the window: the first that warns
    against the side. *)
Fixpoint sweep_warning_loop (side : PositionSide) (ts : Time) (window : Duration) (newest_first : list SRSweep) : string :=
  match newest_first with
  | [] => ""
  | sw :: rest =>
      if window <=? t_sub ts (sw_TS sw) then ""
      else if t_before ts (sw_TS sw) then sweep_warning_loop side ts window rest
      else if String.eqb side SideCall && String.eqb (sw_Side sw) SRSweepHigh then "sweep_high"
      else if String.eqb side SidePut && String.eqb (sw_Side sw) SRSweepLow then "sweep_low"
      else sweep_warning_loop side ts window rest
  end.

Definition sweepWarning (cfg : Nifty50SRConfig) (st : nifty50SRState) (side : PositionSide) (ts : Time) : string :=
  if nc_SweepWarnMin cfg <=? 0 then ""
  else sweep_warning_loop side ts (nc_SweepWarnMin cfg *! Minute) (reverse (n5_Sweeps st)).

(** ** Helpers (sr_helpers.go) *)

Record minuteVolume := { mv_minute : Time; mv_startVol : Z; mv_lastDayVol : Z; mv_initialized : bool }.
Definition zero_minuteVolume : minuteVolume := {|
  mv_minute := zero_time; mv_startVol := 0; mv_lastDayVol := 0; mv_initialized := false |}.

(** [ts.Truncate(time.Minute)]: the zero time is a whole minute. *)
Definition truncate_minute (ts : Time) : Time := ts / Minute * Minute.

Definition observe (ts : Time) (dayVol : Z) (m : minuteVolume) : option (Time * Z) * minuteVolume :=
  if dayVol <=? 0 then (None, m)
  else
    let minute := truncate_minute ts in
    if negb (mv_initialized m) then
      (None, {| mv_minute := minute; mv_startVol := dayVol; mv_lastDayVol := dayVol; mv_initialized := true |})
    else if dayVol <? mv_lastDayVol m then
      (None, {| mv_minute := minute; mv_startVol := 0; mv_lastDayVol := dayVol; mv_initialized := true |})
    else if t_after minute (mv_minute m) then
      (Some (mv_minute m, mv_lastDayVol m -! mv_startVol m),
       {| mv_minute := minute; mv_startVol := mv_lastDayVol m; mv_lastDayVol := dayVol; mv_initialized := true |})
    else (None, {| mv_minute := mv_minute m; mv_startVol := mv_startVol m; mv_lastDayVol := dayVol; mv_initialized := true |}).

Definition barOf (c : TFCandle) : ohlcv := {|
  b_Open := tfc_Open c; b_High := tfc_High c; b_Low := tfc_Low c; b_Close := tfc_Close c; b_Volume := tfc_Volume c |}.

(** [None]: a strike step of zero divides by zero. *)
Definition atmStrike (pricePaise step : Z) : option Z :=
  let unit := step *! 100 in
  if unit =? 0 then None else Some ((pricePaise +! unit /! 2) /! unit *! step).

Definition splitKey (key : string) : string * string :=
  let '(before, after, found) := cut_at ":" key in if found then (before, after) else ("", key).

(** ** Snapshot and restore *)

Record nifty50SRSnapshot := {
  nsn_Key : string; nsn_Context : srContextSnapshot;
  nsn_Side : PositionSide; nsn_Kind : string; nsn_Regime : SRRegime; nsn_IndexEntry : Z; nsn_StopLevel : Z;
  nsn_TargetLevel : Z; nsn_Risk : Z; nsn_Breakeven : bool; nsn_SupportLvl : Z; nsn_BreakBars : Z; nsn_EntryTS : Time;
  nsn_MaxGain : Z; nsn_Strike : Z; nsn_FNOToken : string; nsn_FNOEntryPrice : Z; nsn_FNOBestPrice : Z;
  nsn_ManualLevels : bool; nsn_FNOManualSL : Z; nsn_FNOTarget : Z; nsn_TrailDist : Z;
  nsn_PendingSide : PositionSide; nsn_PendingLevel : Z; nsn_PendingLeft : Z;
  nsn_TradeDay : option Z; nsn_TradesToday : Z; nsn_ConsecLosses : Z; nsn_DayPnLPts : Z; nsn_LastSide : PositionSide;
  nsn_LastADX : float64; nsn_CooldownLeft : Z; nsn_LastClose : Z; nsn_LastCloseTS : Time;
}.

Record nifty50SRStrategySnapshot := { sns_Version : Z; sns_Strategy : string; sns_Instruments : list nifty50SRSnapshot }.
Definition nifty50SRSnapshotVersion : Z := 1.

Definition snapshotNifty50SR (key : string) (s : nifty50SRState) : nifty50SRSnapshot :=
  let p := n5_pos s in {|
  nsn_Key := key; nsn_Context := sr_snapshot (n5_ctx s);
  nsn_Side := ps_Side p; nsn_Kind := ps_Kind p; nsn_Regime := ps_Regime p; nsn_IndexEntry := ps_IndexEntry p;
  nsn_StopLevel := ps_StopLevel p; nsn_TargetLevel := ps_TargetLevel p; nsn_Risk := ps_Risk p;
  nsn_Breakeven := ps_Breakeven p; nsn_SupportLvl := ps_SupportLvl p; nsn_BreakBars := ps_BreakBars p;
  nsn_EntryTS := ps_EntryTS p; nsn_MaxGain := ps_MaxGain p; nsn_Strike := ps_Strike p; nsn_FNOToken := ps_FNOToken p;
  nsn_FNOEntryPrice := ps_FNOEntryPrice p; nsn_FNOBestPrice := ps_FNOBestPrice p; nsn_ManualLevels := ps_ManualLevels p;
  nsn_FNOManualSL := ps_FNOManualSL p; nsn_FNOTarget := ps_FNOTarget p; nsn_TrailDist := ps_TrailDist p;
  nsn_PendingSide := n5_PendingSide s; nsn_PendingLevel := n5_PendingLevel s; nsn_PendingLeft := n5_PendingLeft s;
  nsn_TradeDay := n5_TradeDay s; nsn_TradesToday := n5_TradesToday s; nsn_ConsecLosses := n5_ConsecLosses s;
  nsn_DayPnLPts := n5_DayPnLPts s; nsn_LastSide := n5_LastSide s; nsn_LastADX := n5_LastADX s;
  nsn_CooldownLeft := n5_CooldownLeft s; nsn_LastClose := n5_LastClose s; nsn_LastCloseTS := n5_LastCloseTS s |}.

Definition side_or_none (s : PositionSide) : PositionSide := if String.eqb s "" then SideNone else s.

Definition restoreNifty50SR (cfg : Nifty50SRConfig) (snap : nifty50SRSnapshot) : option nifty50SRState :=
  ctx ← restoreSRContext (nc_Context cfg) (nsn_Context snap);
  Some {|
    n5_ctx := ctx;
    n5_pos := {|
      ps_Side := side_or_none (nsn_Side snap); ps_Kind := nsn_Kind snap; ps_Regime := nsn_Regime snap;
      ps_IndexEntry := nsn_IndexEntry snap; ps_StopLevel := nsn_StopLevel snap; ps_TargetLevel := nsn_TargetLevel snap;
      ps_Risk := nsn_Risk snap; ps_Breakeven := nsn_Breakeven snap; ps_SupportLvl := nsn_SupportLvl snap;
      ps_BreakBars := nsn_BreakBars snap; ps_EntryTS := nsn_EntryTS snap; ps_MaxGain := nsn_MaxGain snap;
      ps_Strike := nsn_Strike snap; ps_FNOToken := nsn_FNOToken snap; ps_FNOEntryPrice := nsn_FNOEntryPrice snap;
      ps_FNOBestPrice := nsn_FNOBestPrice snap; ps_FNOLastPrice := 0; ps_ManualLevels := nsn_ManualLevels snap;
      ps_FNOManualSL := nsn_FNOManualSL snap; ps_FNOTarget := nsn_FNOTarget snap; ps_TrailDist := nsn_TrailDist snap |};
    n5_PendingSide := side_or_none (nsn_PendingSide snap); n5_PendingLevel := nsn_PendingLevel snap;
    n5_PendingLeft := nsn_PendingLeft snap; n5_TradeDay := nsn_TradeDay snap; n5_TradesToday := nsn_TradesToday snap;
    n5_ConsecLosses := nsn_ConsecLosses snap; n5_DayPnLPts := nsn_DayPnLPts snap; n5_LastSide := nsn_LastSide snap;
    n5_LastADX := nsn_LastADX snap; n5_CooldownLeft := nsn_CooldownLeft snap; n5_LastClose := nsn_LastClose snap;
    n5_AdviceToday := 0; n5_AdviceCooldown := 0; n5_Sweeps := []; n5_sweepAt := ∅; n5_LastCloseTS := nsn_LastCloseTS snap |}.
