(* ===== verification/Nifty50Sr.v ===== *)
(** The NIFTY50 SR strategy (internal/strategy: nifty50_sr.go, sr_levels.go,
    position_context.go, live_order_state.go): setups, entries, exits and the
    operations around them.  Every operation holds the strategy's lock, so it
    is one step; log lines are left out, and what the sweep sink receives is
    kept as a list.  [None] is a panic. *)
From S2P Require Import Prelude Float64 GoText Model MarketHours Indicators RangeContext SrContext Nifty50SrState.
#[local] Open Scope Z_scope.
#[local] Open Scope go_scope.

Definition tf1m : Z := 60.

(** Refusals and warnings: of the run, of the day, and the last. *)
Record srTally := {
  tl_rejects : gmap string Z; tl_dayRejects : gmap string Z; tl_dayWarns : gmap string Z; tl_lastReject : string;
  tl_lastRejectTS : Time; tl_rejectDay : option Z; tl_barTS : Time }.

#[export] Instance srTally_settable : Settable srTally := λ t, {|
  tl_rejects := tl_rejects t; tl_dayRejects := tl_dayRejects t; tl_dayWarns := tl_dayWarns t;
  tl_lastReject := tl_lastReject t; tl_lastRejectTS := tl_lastRejectTS t; tl_rejectDay := tl_rejectDay t;
  tl_barTS := tl_barTS t |}.

Definition zero_tally : srTally := {|
  tl_rejects := ∅; tl_dayRejects := ∅; tl_dayWarns := ∅; tl_lastReject := ""; tl_lastRejectTS := zero_time;
  tl_rejectDay := None; tl_barTS := zero_time |}.

Record Nifty50SR := {
  sr_instruments : gmap string nifty50SRState; sr_qty : Z; sr_cfg : Nifty50SRConfig; sr_expiry : Time; sr_vol : minuteVolume;
  sr_tally : srTally; sr_swept : list (string * SRSweep) }.

#[export] Instance Nifty50SR_settable : Settable Nifty50SR := λ s, {|
  sr_instruments := sr_instruments s; sr_qty := sr_qty s; sr_cfg := sr_cfg s; sr_expiry := sr_expiry s; sr_vol := sr_vol s;
  sr_tally := sr_tally s; sr_swept := sr_swept s |}.

Definition NewNifty50SR (qty : Z) (cfg : Nifty50SRConfig) : Nifty50SR := {|
  sr_instruments := ∅; sr_qty := qty; sr_cfg := cfg; sr_expiry := zero_time; sr_vol := zero_minuteVolume;
  sr_tally := zero_tally; sr_swept := [] |}.

Definition sr_Name (cfg : Nifty50SRConfig) : string :=
  if String.eqb (nc_NameOverride cfg) "" then "NIFTY50_SR" else nc_NameOverride cfg.

(** ** One instrument's candle: a state monad over its state and the tallies *)

Record srWork := { wk_st : nifty50SRState; wk_tally : srTally }.
Definition srM (A : Type) : Type := srWork → option (A * srWork).

#[export] Instance srM_ret : MRet srM := λ A x w, Some (x, w).
#[export] Instance srM_bind : MBind srM := λ A B f m w,
  match m w with Some (x, w) => f x w | None => None end.

Definition getSt : srM nifty50SRState := λ w, Some (wk_st w, w).
Definition modSt (f : nifty50SRState → nifty50SRState) : srM unit :=
  λ w, Some (tt, {| wk_st := f (wk_st w); wk_tally := wk_tally w |}).
Definition modTally (f : srTally → srTally) : srM unit :=
  λ w, Some (tt, {| wk_st := wk_st w; wk_tally := f (wk_tally w) |}).
(** A value that may have panicked. *)
Definition orPanic {A} (x : option A) : srM A := λ w, match x with Some x => Some (x, w) | None => None end.

Definition bump (k : string) (m : gmap string Z) : gmap string Z := <[k := default 0 (m !! k) +! 1]> m.

Definition reject (reason : string) : srM unit := modTally (λ t,
  t <| tl_rejects := bump reason (tl_rejects t) |> <| tl_dayRejects := bump reason (tl_dayRejects t) |>
    <| tl_lastReject := reason |> <| tl_lastRejectTS := tl_barTS t |>).

(** Refusing without a signal. *)
Definition refuse {A} (reason : string) : srM (option A) := _ ← reject reason; mret None.

(** ** Texts *)

(** [fmt]'s [%.1f]. *)
Definition format_f1 (f : float64) : string := format_fixed 1 f.

(** [fmt]'s [%+d]. *)
Definition format_plus (n : Z) : string := if n <? 0 then format_int n else "+" +:+ format_int n.

Definition kindTag (kind : string) : string :=
  if String.eqb kind SRKindFade then "fade"
  else if String.eqb kind SRKindRetest then "retest"
  else if String.eqb kind SRKindPullback then "pullback"
  else if String.eqb kind SRKindPullbackFast then "pullback_fast"
  else if String.eqb kind SRKindContinue then "continue"
  else kind.

Definition srMarketState (r : SRRegime) : string :=
  if String.eqb r SRRegimeRange then "range"
  else if String.eqb r SRRegimeTrendUp || String.eqb r SRRegimeTrendDown then "trending"
  else "choppy".

Record confirmations := { cf_VWAP : bool; cf_EMA : bool; cf_RSI : bool; cf_Candle : bool }.

Definition cf_count (c : confirmations) : Z :=
  Z.b2z (cf_VWAP c) + Z.b2z (cf_EMA c) + Z.b2z (cf_RSI c) + Z.b2z (cf_Candle c).

Definition cf_String (c : confirmations) : string :=
  let mark b := if b : bool then "Y" else "n" in
  "vwap=" +:+ mark (cf_VWAP c) +:+ " ema=" +:+ mark (cf_EMA c) +:+ " rsi=" +:+ mark (cf_RSI c) +:+ " candle=" +:+
  mark (cf_Candle c).

Record srDayPos := {
  dp_Known : bool; dp_Pct : Z; dp_FromHigh : Z; dp_FromLow : Z; dp_VsPDH : Z; dp_VsPDL : Z; dp_VsOpen : Z; dp_HasPD : bool;
  dp_HasOpen : bool; dp_OR : string }.

Definition dayPosition (ss : SRState) (price : Z) : srDayPos :=
  let rng := ss_DayHigh ss -! ss_DayLow ss in
  let known := (0 <? ss_DayLow ss) && (0 <? rng) in
  let fromLow := price -! ss_DayLow ss in
  let hasPD := (0 <? ss_PrevDayHigh ss) && (0 <? ss_PrevDayLow ss) in
  let hasOpen := 0 <? ss_DayOpen ss in {|
  dp_Known := known; dp_Pct := if known then fromLow *! 100 /! rng else 0;
  dp_FromHigh := if known then ss_DayHigh ss -! price else 0; dp_FromLow := if known then fromLow else 0;
  dp_VsPDH := if hasPD then price -! ss_PrevDayHigh ss else 0; dp_VsPDL := if hasPD then price -! ss_PrevDayLow ss else 0;
  dp_VsOpen := if hasOpen then price -! ss_DayOpen ss else 0; dp_HasPD := hasPD; dp_HasOpen := hasOpen;
  dp_OR := if (0 <? ss_ORHigh ss) && (0 <? ss_ORLow ss)
           then (if ss_ORHigh ss <? price then "above" else if price <? ss_ORLow ss then "below" else "inside") else "" |}.

Definition dp_String (d : srDayPos) : string :=
  if negb (dp_Known d) then "day=unknown"
  else
    let p paise := format_plus (paise /! 100) in
    "day=pos:" +:+ format_int (dp_Pct d) +:+ "% hi:" +:+ p (-! dp_FromHigh d) +:+ " lo:" +:+ p (dp_FromLow d) +:+
    (if dp_HasPD d then " pdh:" +:+ p (dp_VsPDH d) +:+ " pdl:" +:+ p (dp_VsPDL d) else "") +:+
    (if dp_HasOpen d then " open:" +:+ p (dp_VsOpen d) else "") +:+
    (if String.eqb (dp_OR d) "" then "" else " or:" +:+ dp_OR d).

(** ** Exits and the position *)

(** An empty signal of the strategy. *)
Definition sr_signal (cfg : Nifty50SRConfig) (qty : Z) (action : Action) (side : PositionSide) (exch token reason : string) :
    Signal := {|
  sig_StrategyName := sr_Name cfg; sig_Action := action; sig_Side := side; sig_ReverseTo := ""; sig_Token := token;
  sig_Exchange := exch; sig_Qty := qty; sig_Price := 0; sig_EntryFNOPrice := 0; sig_MarketState := ""; sig_Reason := reason;
  sig_Warnings := []; sig_Legs := []; sig_Leg := ""; sig_FNOToken := ""; sig_FNOSymbol := ""; sig_Strike := 0;
  sig_Short := false; sig_Pick := ""; sig_PickAlt := ""; sig_TargetMove := 0; sig_SameDayExpiry := false;
  sig_SignalTS := zero_time |}.

#[export] Instance Signal_settable : Settable Signal := λ s, {|
  sig_StrategyName := sig_StrategyName s; sig_Action := sig_Action s; sig_Side := sig_Side s; sig_ReverseTo := sig_ReverseTo s;
  sig_Token := sig_Token s; sig_Exchange := sig_Exchange s; sig_Qty := sig_Qty s; sig_Price := sig_Price s;
  sig_EntryFNOPrice := sig_EntryFNOPrice s; sig_MarketState := sig_MarketState s; sig_Reason := sig_Reason s;
  sig_Warnings := sig_Warnings s; sig_Legs := sig_Legs s; sig_Leg := sig_Leg s; sig_FNOToken := sig_FNOToken s;
  sig_FNOSymbol := sig_FNOSymbol s; sig_Strike := sig_Strike s; sig_Short := sig_Short s; sig_Pick := sig_Pick s;
  sig_PickAlt := sig_PickAlt s; sig_TargetMove := sig_TargetMove s; sig_SameDayExpiry := sig_SameDayExpiry s;
  sig_SignalTS := sig_SignalTS s |}.

Section strategy.
Variables (cfg : Nifty50SRConfig) (qty : Z).

Definition set_pos (f : srPosition → srPosition) (st : nifty50SRState) : nifty50SRState := st <| n5_pos := f (n5_pos st) |>.

Definition open_side (st : nifty50SRState) : PositionSide := ps_Side (n5_pos st).
Definition is_side (side : PositionSide) (st : nifty50SRState) : bool := String.eqb (open_side st) side.

Definition resetPosition (st : nifty50SRState) : nifty50SRState :=
  st <| n5_pos := flat_position |> <| n5_CooldownLeft := nc_CooldownCandles cfg |>.

Definition book (st : nifty50SRState) : nifty50SRState :=
  if is_side SideNone st || (n5_LastClose st <=? 0) then st
  else
    let pnl := n5_LastClose st -! ps_IndexEntry (n5_pos st) in
    let pnl := if is_side SidePut st then -! pnl else pnl in
    st <| n5_DayPnLPts := n5_DayPnLPts st +! pnl |>
       <| n5_ConsecLosses := if pnl <? 0 then n5_ConsecLosses st +! 1 else 0 |>.

Definition sr_exit (exch token reason : string) (st : nifty50SRState) : Signal * nifty50SRState :=
  ((sr_signal cfg qty ActionExit (open_side st) exch token reason) <| sig_Price := n5_LastClose st |>, resetPosition (book st)).

(** ... with the price left to the engine. *)
Definition exit_unpriced (key reason : string) (st : nifty50SRState) : Signal * nifty50SRState :=
  let '(exch, token) := splitKey key in
  let '(sig, st) := sr_exit exch token reason st in (sig <| sig_Price := 0 |>, st).

Definition supportStopOn : bool :=
  String.eqb (nc_SupportStopMode cfg) "breakeven" || String.eqb (nc_SupportStopMode cfg) "trail".

Definition raiseSupportStop (close : Z) (st : nifty50SRState) : nifty50SRState :=
  let ss := sc_state (n5_ctx st) in
  let atr := rs_ATR15 (ss_Range ss) in
  let zone := if (0 <? nc_SupportStopZoneATRPct cfg) && (0 <? atr)
              then atr *! nc_SupportStopZoneATRPct cfg /! 100 else nc_SupportStopZonePts cfg in
  let long := is_side SideCall st in
  let lvl := if long then strongLevelBelow (ss_Levels ss) close (nc_SupportStopTouches cfg)
             else strongLevelAbove (ss_Levels ss) close (nc_SupportStopTouches cfg) in
  let stop := if long then lvl -! zone else lvl +! zone in
  let cur := ps_StopLevel (n5_pos st) in
  if (lvl =? 0) || (if long then stop <=? cur else cur <=? stop) then st
  else set_pos (λ p, p <| ps_StopLevel := stop |> <| ps_SupportLvl := lvl |> <| ps_BreakBars := 0 |>) st.

(** [trailStop] (sr_levels.go). *)
Definition trailStop (st : nifty50SRState) : nifty50SRState :=
  let p := n5_pos st in
  if (ps_TrailDist p <=? 0) || (n5_LastClose st <=? 0) then st
  else
    let put := is_side SidePut st in
    let stop := if put then n5_LastClose st +! ps_TrailDist p else n5_LastClose st -! ps_TrailDist p in
    if (ps_StopLevel p =? 0) || (if put then stop <? ps_StopLevel p else ps_StopLevel p <? stop)
    then set_pos (λ p, p <| ps_StopLevel := stop |>) st else st.

Definition noProgress (candle : TFCandle) (st : nifty50SRState) : bool :=
  let p := n5_pos st in
  if (nc_NoProgressMin cfg <=? 0) || t_is_zero (ps_EntryTS p) || ps_Breakeven p then false
  else if t_sub (tfc_TS candle) (ps_EntryTS p) <? nc_NoProgressMin cfg *! Minute then false
  else ps_MaxGain p *! 100 <? ps_Risk p *! nc_NoProgressRPct cfg.

Definition side_sign (st : nifty50SRState) : Z := if is_side SidePut st then -1 else 1.

Definition exit_at (candle : TFCandle) (reason : string) (st : nifty50SRState) : option Signal * nifty50SRState :=
  let '(sig, st) := sr_exit (tfc_Exchange candle) (tfc_Token candle) reason st in (Some sig, st).

Definition manualExit (candle : TFCandle) (close sign : Z) (st : nifty50SRState) : option Signal * nifty50SRState :=
  let stop := ps_StopLevel (n5_pos st) in
  let st := if (stop =? 0) || (0 <? (close -! stop) *! sign) then trailStop st else st in
  let p := n5_pos st in
  if (0 <? ps_StopLevel p) && ((close -! ps_StopLevel p) *! sign <=? 0) then
    exit_at candle ("SR " +:+ ps_Side p +:+ " STOP stop=" +:+ format_int (ps_StopLevel p) +:+ " close=" +:+ format_int close +:+
      " manual") st
  else if (0 <? ps_TargetLevel p) && (0 <=? (close -! ps_TargetLevel p) *! sign) then
    exit_at candle ("SR " +:+ ps_Side p +:+ " TARGET target=" +:+ format_int (ps_TargetLevel p) +:+ " close=" +:+
      format_int close +:+ " manual") st
  else (None, st).

(** The stop before the close is checked: to breakeven or under a support
    once the gain is there, further under "trail". *)
Definition manage_stop (close gain : Z) (st : nifty50SRState) : nifty50SRState :=
  let p := n5_pos st in
  if negb (ps_Breakeven p) && (0 <? nc_BreakevenAtR cfg) && (ps_Risk p *! nc_BreakevenAtR cfg <=? gain *! 100) then
    let st := set_pos (λ p, p <| ps_Breakeven := true |>) st in
    if supportStopOn then raiseSupportStop close st
    else set_pos (λ p, p <| ps_StopLevel := ps_IndexEntry p |>) st
  else if ps_Breakeven p && supportStopOn && String.eqb (nc_SupportStopMode cfg) "trail" then raiseSupportStop close st
  else st.

(** Whether the stop is hit, counting the closes beyond a support stop. *)
Definition stop_hit (close sign : Z) (st : nifty50SRState) : bool * nifty50SRState :=
  let p := n5_pos st in
  let beyond := (close -! ps_StopLevel p) *! sign <=? 0 in
  if beyond && negb (ps_SupportLvl p =? 0) then
    let bars := ps_BreakBars p +! 1 in
    (nc_SupportStopConfirm cfg <=? bars, set_pos (λ p, p <| ps_BreakBars := bars |>) st)
  else if negb beyond then (false, set_pos (λ p, p <| ps_BreakBars := 0 |>) st)
  else (true, st).

Definition evaluateExit (candle : TFCandle) (st : nifty50SRState) : option Signal * nifty50SRState :=
  if is_side SideNone st then (None, st)
  else
    let close := tfc_Close candle in
    let sign := side_sign st in
    let gain := (close -! ps_IndexEntry (n5_pos st)) *! sign in
    let st := if ps_MaxGain (n5_pos st) <? gain then set_pos (λ p, p <| ps_MaxGain := gain |>) st else st in
    if ps_ManualLevels (n5_pos st) then manualExit candle close sign st
    else
      let st := manage_stop close gain st in
      let '(hit, st) := stop_hit close sign st in
      let p := n5_pos st in
      if hit then
        exit_at candle ("SR " +:+ ps_Side p +:+ " STOP stop=" +:+ format_int (ps_StopLevel p) +:+ " close=" +:+ format_int close +:+
          (if negb (ps_SupportLvl p =? 0) then " support=" +:+ format_int (ps_SupportLvl p) +:+ " broke" else "")) st
      else if 0 <=? (close -! ps_TargetLevel p) *! sign then
        exit_at candle ("SR " +:+ ps_Side p +:+ " TARGET target=" +:+ format_int (ps_TargetLevel p) +:+ " close=" +:+
          format_int close) st
      else if noProgress candle st then
        exit_at candle ("SR " +:+ ps_Side p +:+ " NO PROGRESS " +:+ format_int (nc_NoProgressMin cfg) +:+ "m best=" +:+
          format_int (ps_MaxGain p) +:+ " need=" +:+ format_int (ps_Risk p *! nc_NoProgressRPct cfg /! 100) +:+ " close=" +:+
          format_int close) st
      else (None, st).

(** ** Entry checks *)

Definition entryTF : Z := if nc_EntryTFMinutes cfg =? 5 then 5 else 1.

Definition entryBarClosed (st : nifty50SRState) : bool := (entryTF =? 1) || rc_closed5 (sc_rc (n5_ctx st)).

Definition entryBars (st : nifty50SRState) : option (ohlcv * ohlcv) :=
  if entryTF =? 5 then lastBars5 (sc_rc (n5_ctx st)) else lastBars (sc_rc (n5_ctx st)).

Definition entryVolumeOK (pct : Z) (st : nifty50SRState) : bool :=
  if entryTF =? 5 then volumeAtLeast5 pct false (sc_rc (n5_ctx st)) else volumeAtLeast pct false (sc_rc (n5_ctx st)).

Definition retestBars : Z := let n := nc_RetestMinutes cfg /! entryTF in if n <? 1 then 1 else n.

Definition entryBlock (st : nifty50SRState) (closeMin : Z) : string :=
  if (closeMin <? nc_EntryFromMin cfg) || (nc_EntryToMin cfg <=? closeMin) then "time_window"
  else if nc_MaxTradesPerDay cfg <=? n5_TradesToday st then "trade_cap"
  else if (0 <? nc_MaxConsecLosses cfg) && (nc_MaxConsecLosses cfg <=? n5_ConsecLosses st) then "consec_losses"
  else if (0 <? nc_MaxDayLossPts cfg) && (n5_DayPnLPts st <=? -! nc_MaxDayLossPts cfg) then "day_loss"
  else if 0 <? n5_CooldownLeft st then "cooldown"
  else "".

Definition weakReentry (st : nifty50SRState) (side : PositionSide) (adx : float64) : bool :=
  if f64_leb (nc_ReentryMinADX cfg) f64_zero || negb (String.eqb (n5_LastSide st) side) then false
  else (adx <. nc_ReentryMinADX cfg) && f64_leb adx (n5_LastADX st).

Definition stopBuffer (ss : SRState) : Z :=
  let buf := rs_ATR15 (ss_Range ss) *! nc_StopATRPct cfg /! 100 in
  if buf <? nc_StopMinPts cfg then nc_StopMinPts cfg else buf.

Definition dayExtreme (d : srDayPos) (side : PositionSide) : bool :=
  if (nc_DayExtremePct cfg <=? 0) || negb (dp_Known d) then false
  else if String.eqb side SideCall then (nc_DayExtremePct cfg <=? dp_Pct d) && (nc_DayRunPts cfg <=? dp_FromLow d)
  else nc_DayExtremePuts cfg && (dp_Pct d <=? 100 -! nc_DayExtremePct cfg) && (nc_DayRunPts cfg <=? dp_FromHigh d).

(** The span of the last [BoxBars] 5m bars, and whether it is a box. *)
Definition sideways (st : nifty50SRState) (ss : SRState) : Z * bool :=
  let n := nc_BoxBars cfg in
  let bars := tb_bar <$> rc_bars5 (sc_rc (n5_ctx st)) in
  let atr := rs_ATR15 (ss_Range ss) in
  if (n <=? 0) || (nc_BoxATRPct cfg <=? 0) || (Z.of_nat (length bars) <? n) || (atr <=? 0) then (0, false)
  else
    match drop (length bars - Z.to_nat n) bars with
    | [] => (0, false)
    | first :: rest =>
        let hi := foldl (λ hi b, Z.max hi (b_High b)) (b_High first) rest in
        let lo := foldl (λ lo b, Z.min lo (b_Low b)) (b_Low first) rest in
        let box := hi -! lo in
        (box, box *! 100 <=? atr *! nc_BoxATRPct cfg)
    end.

Definition situationWarnings (st : nifty50SRState) (ss : SRState) (side : PositionSide) (kind : string) (day : srDayPos)
    (closeMin : Z) : list string :=
  (if (sideways st ss).2 && (negb (String.eqb kind SRKindFade) || nc_BoxFadeToo cfg) then ["sideways"] else []) ++
  (if (nc_DayExtremeFromMin cfg <=? closeMin) && dayExtreme day side then ["day_extreme"] else []).

Definition levelNear (levels : list SRLevel) (price tol : Z) : Z :=
  (foldl (λ '(best, bestD) l,
     let d := absInt64 (lv_Price l -! price) in
     if (d <=? tol) && ((best =? 0) || (d <? bestD)) then (lv_Price l, d) else (best, bestD)) (0, 0) levels).1.

Record entryPlan := {
  ep_entry : Z; ep_stop : Z; ep_target : Z; ep_risk : Z; ep_reward : Z; ep_day : srDayPos; ep_warns : list string }.

(** The target in R when there is no next level. *)
Definition default_target (side : PositionSide) (entry risk : Z) : Z :=
  let d := risk *! nc_DefaultTargetR cfg /! 100 in if String.eqb side SideCall then entry +! d else entry -! d.

(** The checks in the code's order: [inl] names the refusal. *)
Definition plan_entry (candle : TFCandle) (st : nifty50SRState) (ss : SRState) (side : PositionSide) (kind : string)
    (stop target : Z) (c : confirmations) (closeMin : Z) : string + entryPlan :=
  let tag why := kindTag kind +:+ ":" +:+ why in
  if cf_count c <? nc_MinConfirmations cfg then inl (tag ("confirmations_" +:+ format_int (cf_count c)))
  else
    let why := entryBlock st closeMin in
    if negb (String.eqb why "") then inl why
    else if weakReentry st side (rs_ADX (ss_Range ss)) then inl (tag "reentry_adx")
    else
      let day := dayPosition ss (tfc_Close candle) in
      let warns := situationWarnings st ss side kind day closeMin in
      match (if String.eqb (nc_GateMode cfg) SRGateBlock then head warns else None) with
      | Some w => inl (tag w)
      | None =>
          let w := sweepWarning cfg st side (tfc_TS candle) in
          let warns := if String.eqb w "" then warns else warns ++ [w] in
          let entry := tfc_Close candle in
          let risk := absInt64 (entry -! stop) in
          if (risk <=? 0) || (String.eqb side SideCall && (entry <=? stop)) || (String.eqb side SidePut && (stop <=? entry))
          then inl (tag "bad_stop")
          else
            let target := if target =? 0 then default_target side entry risk else target in
            let reward := if String.eqb side SidePut then entry -! target else target -! entry in
            if (reward <=? 0) || (reward *! 100 <? risk *! nc_MinRewardRiskPct cfg) then inl (tag "reward_risk")
            else inr {| ep_entry := entry; ep_stop := stop; ep_target := target; ep_risk := risk; ep_reward := reward;
                        ep_day := day; ep_warns := warns |}
      end.

Definition checkEntry (candle : TFCandle) (ss : SRState) (side : PositionSide) (kind : string) (stop target : Z)
    (c : confirmations) (closeMin : Z) : srM (option entryPlan) :=
  st ← getSt;
  match plan_entry candle st ss side kind stop target c closeMin with
  | inl why => refuse why
  | inr p => mret (Some p)
  end.

Definition entryReason (ss : SRState) (side : PositionSide) (kind : string) (level : Z) (c : confirmations) (p : entryPlan)
    (strike : Z) : string :=
  "SR " +:+ kind +:+ " " +:+ side +:+ " regime=" +:+ ss_Regime ss +:+ " level=" +:+ format_int level +:+ " stop=" +:+
  format_int (ep_stop p) +:+ " target=" +:+ format_int (ep_target p) +:+ " vwap=" +:+ format_int (ss_VWAP ss) +:+ " ema=" +:+
  format_int (ss_EMAFast ss) +:+ "/" +:+ format_int (ss_EMASlow ss) +:+ " rsi5=" +:+ format_f1 (rs_RSI5 (ss_Range ss)) +:+
  " adx=" +:+ format_f1 (rs_ADX (ss_Range ss)) +:+ " " +:+ cf_String c +:+ " " +:+ dp_String (ep_day p) +:+ " strike=" +:+
  format_int strike +:+ " close=" +:+ format_int (ep_entry p).

Definition with_warnings (reason : string) (warns : list string) : string :=
  match warns with [] => reason | _ => reason +:+ " warn=" +:+ str_join "," warns end.

(** The signal of an entry, or of advice to enter. *)
Definition entry_signal (action : Action) (candle : TFCandle) (ss : SRState) (side : PositionSide) (kind : string) (level : Z)
    (c : confirmations) (p : entryPlan) (strike : Z) : Signal :=
  (sr_signal cfg qty action side (tfc_Exchange candle) (tfc_Token candle)
     (with_warnings (entryReason ss side kind level c p strike) (ep_warns p)))
    <| sig_MarketState := srMarketState (ss_Regime ss) |> <| sig_Strike := strike |> <| sig_TargetMove := ep_reward p |>
    <| sig_Warnings := ep_warns p |>.

(** The position an entry opens. *)
Definition opened_position (candle : TFCandle) (ss : SRState) (side : PositionSide) (kind : string) (p : entryPlan)
    (strike : Z) : srPosition := {|
  ps_Side := side; ps_Kind := kind; ps_Regime := ss_Regime ss; ps_IndexEntry := ep_entry p; ps_StopLevel := ep_stop p;
  ps_TargetLevel := ep_target p; ps_Risk := ep_risk p; ps_Breakeven := false; ps_SupportLvl := 0; ps_BreakBars := 0;
  ps_EntryTS := tfc_TS candle; ps_MaxGain := 0; ps_Strike := strike; ps_FNOToken := ""; ps_FNOEntryPrice := 0;
  ps_FNOBestPrice := 0; ps_FNOLastPrice := 0; ps_ManualLevels := false; ps_FNOManualSL := 0; ps_FNOTarget := 0;
  ps_TrailDist := 0 |}.

Definition sr_open (candle : TFCandle) (ss : SRState) (side : PositionSide) (kind : string) (level : Z) (c : confirmations)
    (p : entryPlan) : srM (option Signal) :=
  strike ← orPanic (atmStrike (ep_entry p) (nc_StrikeStep cfg));
  _ ← modSt (λ st, st <| n5_pos := opened_position candle ss side kind p strike |> <| n5_LastSide := side |>
                      <| n5_LastADX := rs_ADX (ss_Range ss) |> <| n5_TradesToday := n5_TradesToday st +! 1 |>);
  _ ← modTally (λ t, t <| tl_dayWarns := foldl (λ m w, bump w m) (tl_dayWarns t) (ep_warns p) |>);
  mret (Some (entry_signal ActionBuy candle ss side kind level c p strike)).

Definition tryEnter (candle : TFCandle) (ss : SRState) (side : PositionSide) (kind : string) (level stop target : Z)
    (c : confirmations) (closeMin : Z) : srM (option Signal) :=
  p ← checkEntry candle ss side kind stop target c closeMin;
  match p with None => mret None | Some p => sr_open candle ss side kind level c p end.

Definition advise (candle : TFCandle) (ss : SRState) (side : PositionSide) (kind : string) (level stop target : Z)
    (c : confirmations) (closeMin : Z) : srM (option Signal) :=
  if nc_AdviceAsTrades cfg then tryEnter candle ss side kind level stop target c closeMin
  else
    let tag := kindTag kind in
    st ← getSt;
    if rs_ADX (ss_Range ss) <. nc_StrongTrendADX cfg then refuse (tag +:+ ":weak_adx")
    else if (sideways st ss).2 then refuse (tag +:+ ":sideways")
    else if 0 <? n5_AdviceCooldown st then refuse (tag +:+ ":advice_cooldown")
    else if nc_MaxTradesPerDay cfg <=? n5_AdviceToday st then refuse (tag +:+ ":advice_cap")
    else
      p ← checkEntry candle ss side kind stop target c closeMin;
      match p with
      | None => mret None
      | Some p =>
          _ ← modSt (λ st, st <| n5_AdviceToday := n5_AdviceToday st +! 1 |> <| n5_AdviceCooldown := nc_CooldownCandles cfg |>);
          strike ← orPanic (atmStrike (ep_entry p) (nc_StrikeStep cfg));
          mret (Some (entry_signal ActionWatchBuy candle ss side kind level c p strike))
      end.

(** ** Setups *)

Definition evaluateFade (candle : TFCandle) (ss : SRState) (prev cur : ohlcv) (closeMin : Z) : srM (option Signal) :=
  if negb (nc_FadeEnabled cfg) then mret None
  else
    let tol := nc_TouchTolPts cfg in
    let close := b_Close cur in
    let flat := absInt64 (ss_EMAFast ss -! ss_EMASlow ss) <=? nc_FlatEMAPts cfg in
    let buf := stopBuffer ss in
    let rs := ss_Range ss in
    let below := levelNear (ss_Levels ss) (b_Low cur) tol in
    let above := levelNear (ss_Levels ss) (b_High cur) tol in
    if (0 <? below) && (below <? close) then
      let c := {| cf_VWAP := close <? ss_VWAP ss; cf_EMA := flat || (ss_EMASlow ss <? ss_EMAFast ss);
                  cf_RSI := rs_RSIReady rs && (rs_RSI5 rs <. nc_FadeRSIBuyMax cfg); cf_Candle := bullishReversal prev cur |} in
      if negb (cf_Candle c) then refuse "fade:no_pattern"
      else tryEnter candle ss SideCall SRKindFade below (below -! buf) (levelAbove (ss_Levels ss) (close +! tol)) c closeMin
    else if (0 <? above) && (close <? above) then
      let c := {| cf_VWAP := ss_VWAP ss <? close; cf_EMA := flat || (ss_EMAFast ss <? ss_EMASlow ss);
                  cf_RSI := rs_RSIReady rs && (nc_FadeRSISellMin cfg <. rs_RSI5 rs); cf_Candle := bearishReversal prev cur |} in
      if negb (cf_Candle c) then refuse "fade:no_pattern"
      else tryEnter candle ss SidePut SRKindFade above (above +! buf) (levelBelow (ss_Levels ss) (close -! tol)) c closeMin
    else refuse "fade:not_at_level".

(** The level a strong close broke, with its side ("" for none). *)
Definition broken_level (ss : SRState) (prev cur : ohlcv) : PositionSide * Z :=
  let beyond := rs_ATR15 (ss_Range ss) *! nc_BreakATRPct cfg /! 100 in
  foldl (λ '(side, level) l,
    let p := lv_Price l in
    if bullish cur && (ss_VWAP ss <? b_Close cur) && (b_Close prev <=? p) && (p +! beyond <=? b_Close cur) then
      if negb (String.eqb side SideCall) || (level <? p) then (SideCall, p) else (side, level)
    else if bearish cur && (b_Close cur <? ss_VWAP ss) && (p <=? b_Close prev) && (b_Close cur <=? p -! beyond) then
      if negb (String.eqb side SidePut) || (p <? level) then (SidePut, p) else (side, level)
    else (side, level)) ("", 0) (ss_Levels ss).

Definition armBreak (ss : SRState) (prev cur : ohlcv) : srM bool :=
  st ← getSt;
  if negb (nc_RetestEnabled cfg) || (bar_rng cur <=? 0) || (bar_body cur *! 2 <? bar_rng cur) then mret false
  else if negb (entryVolumeOK (nc_BreakVolPct cfg) st) then mret false
  else
    let '(side, level) := broken_level ss prev cur in
    if String.eqb side SideNone || (level =? 0) then mret false
    else
      _ ← modSt (λ st, st <| n5_PendingSide := side |> <| n5_PendingLevel := level |> <| n5_PendingLeft := retestBars |>);
      mret true.

Definition disarm : srM unit := modSt (λ st, st <| n5_PendingSide := SideNone |>).

(** The stop and target of a broken level's setup. *)
Definition break_levels (ss : SRState) (long : bool) (level close : Z) : Z * Z :=
  let buf := stopBuffer ss in
  let tol := nc_TouchTolPts cfg in
  if long then (level -! buf, levelAbove (ss_Levels ss) (close +! tol))
  else (level +! buf, levelBelow (ss_Levels ss) (close -! tol)).

Definition evaluateContinue (candle : TFCandle) (ss : SRState) (cur : ohlcv) (closeMin : Z) : srM (option Signal) :=
  if nc_AdviceContinueMin cfg <=? 0 then mret None
  else
    st ← getSt;
    let wait := nc_AdviceContinueMin cfg /! entryTF in
    let wait := if wait <? 1 then 1 else wait in
    if negb (retestBars -! n5_PendingLeft st =? wait) then mret None
    else
      let side := n5_PendingSide st in
      let l := n5_PendingLevel st in
      let long := String.eqb side SideCall in
      let close := b_Close cur in
      let atr := rs_ATR15 (ss_Range ss) in
      let beyond := atr *! nc_BreakATRPct cfg /! 100 in
      let holding := if long then bullish cur && (l +! beyond <=? close) && (ss_VWAP ss <? close)
                     else bearish cur && (close <=? l -! beyond) && (close <? ss_VWAP ss) in
      let opposite := if long then String.eqb (ss_Regime ss) SRRegimeTrendDown else String.eqb (ss_Regime ss) SRRegimeTrendUp in
      if negb holding || opposite then refuse "continue:not_holding"
      else
        let '(stop, target) := break_levels ss long l close in
        if (0 <? nc_AdviceMaxRiskATRPct cfg) && (atr *! nc_AdviceMaxRiskATRPct cfg <? absInt64 (close -! stop) *! 100)
        then refuse "continue:risk"
        else
          let rs := ss_Range ss in
          let fifty := f64_of_int 50 in
          let c := {| cf_VWAP := true; cf_Candle := true;
                      cf_EMA := if long then ss_EMASlow ss <? ss_EMAFast ss else ss_EMAFast ss <? ss_EMASlow ss;
                      cf_RSI := rs_RSIReady rs && (if long then fifty <. rs_RSI5 rs else rs_RSI5 rs <. fifty) |} in
          advise candle ss side SRKindContinue l stop target c closeMin.

Definition evaluateRetest (candle : TFCandle) (ss : SRState) (prev cur : ohlcv) (closeMin : Z) : srM (option Signal) :=
  _ ← modSt (λ st, st <| n5_PendingLeft := n5_PendingLeft st -! 1 |>);
  st ← getSt;
  let side := n5_PendingSide st in
  let l := n5_PendingLevel st in
  let tol := nc_TouchTolPts cfg in
  let touchTol := if 0 <? nc_RetestTolPts cfg then nc_RetestTolPts cfg else tol in
  let long := String.eqb side SideCall in
  let close := b_Close cur in
  if (if long then close <? l -! tol else l +! tol <? close) then
    _ ← disarm; refuse "retest:failed"
  else
    let rs := ss_Range ss in
    let fifty := f64_of_int 50 in
    let touched := if long then (b_Low cur <=? l +! touchTol) && (l <? close)
                   else (l -! touchTol <=? b_High cur) && (close <? l) in
    let rejected := if long then bullishReversal prev cur || (bullish cur && (bar_body cur <=? lowerWick cur))
                    else bearishReversal prev cur || (bearish cur && (bar_body cur <=? upperWick cur)) in
    let c := if long then {| cf_VWAP := ss_VWAP ss <? close; cf_EMA := ss_EMASlow ss <? ss_EMAFast ss;
                             cf_RSI := rs_RSIReady rs && (fifty <. rs_RSI5 rs); cf_Candle := rejected |}
             else {| cf_VWAP := close <? ss_VWAP ss; cf_EMA := ss_EMAFast ss <? ss_EMASlow ss;
                     cf_RSI := rs_RSIReady rs && (rs_RSI5 rs <. fifty); cf_Candle := rejected |} in
    sig ← (if touched && rejected then
             let '(stop, target) := break_levels ss long l close in
             tryEnter candle ss side SRKindRetest l stop target c closeMin
           else mret None);
    match sig with
    | Some sig => _ ← disarm; mret (Some sig)
    | None =>
        sig ← evaluateContinue candle ss cur closeMin;
        match sig with
        | Some sig => _ ← disarm; mret (Some sig)
        | None =>
            st ← getSt;
            if n5_PendingLeft st <=? 0 then _ ← disarm; refuse "retest:expired" else mret None
        end
    end.

(** The pullback touches [a] and closes back beyond it. *)
Definition touches_anchor (long : bool) (tol : Z) (cur : ohlcv) (a : Z) : bool :=
  if long then (b_Low cur <=? a +! tol) && (a <? b_Close cur) else (a -! tol <=? b_High cur) && (b_Close cur <? a).

Definition pullback_anchor (ss : SRState) (long : bool) (cur : ohlcv) : Z * string :=
  let close := b_Close cur in
  let tol := nc_TouchTolPts cfg in
  let next := if long then levelBelow (ss_Levels ss) close else levelAbove (ss_Levels ss) close in
  match filter (λ a, (0 <? a) && touches_anchor long tol cur a = true) [ss_VWAP ss; ss_EMASlow ss; next] with
  | a :: _ => (a, SRKindPullback)
  | [] =>
      if nc_AdvicePullFastEMA cfg && (0 <? ss_EMAFast ss) && touches_anchor long tol cur (ss_EMAFast ss)
      then (ss_EMAFast ss, SRKindPullbackFast) else (0, SRKindPullback)
  end.

Definition evaluatePullback (candle : TFCandle) (ss : SRState) (prev cur : ohlcv) (closeMin : Z) : srM (option Signal) :=
  if negb (nc_PullbackEnabled cfg) then mret None
  else
    let close := b_Close cur in
    let long := String.eqb (ss_Regime ss) SRRegimeTrendUp in
    let side := if long then SideCall else SidePut in
    let '(anchor, kind) := pullback_anchor ss long cur in
    if anchor =? 0 then refuse "pullback:no_touch"
    else if negb (if long then bullish cur else bearish cur) then refuse (kindTag kind +:+ ":no_close_back")
    else
      let buf := stopBuffer ss in
      let rs := ss_Range ss in
      let rsi := rs_RSI5 rs in
      let hundred := f64_of_int 100 in
      let c := if long then {| cf_VWAP := ss_VWAP ss <? close; cf_EMA := ss_EMASlow ss <? ss_EMAFast ss;
                               cf_RSI := rs_RSIReady rs && f64_leb (nc_PullRSILo cfg) rsi &&
                                         f64_leb rsi (f64_add (nc_PullRSIHi cfg) (f64_of_int 5));
                               cf_Candle := bullishReversal prev cur || (bar_body cur <=? lowerWick cur) || (b_High prev <? close) |}
               else {| cf_VWAP := close <? ss_VWAP ss; cf_EMA := ss_EMAFast ss <? ss_EMASlow ss;
                       cf_RSI := rs_RSIReady rs && f64_leb rsi (f64_sub hundred (nc_PullRSILo cfg)) &&
                                 f64_leb (f64_sub (f64_sub hundred (nc_PullRSIHi cfg)) (f64_of_int 5)) rsi;
                       cf_Candle := bearishReversal prev cur || (bar_body cur <=? upperWick cur) || (close <? b_Low prev) |} in
      let stop := if long then Z.min anchor (b_Low cur) -! buf else Z.max anchor (b_High cur) +! buf in
      let risk := absInt64 (close -! stop) in
      let d := risk *! nc_DefaultTargetR cfg /! 100 in
      let target := if long then close +! d else close -! d in
      let next := if long then levelAbove (ss_Levels ss) close else levelBelow (ss_Levels ss) close in
      if (0 <? next) && (absInt64 (next -! close) *! 100 <? risk *! nc_MinRewardRiskPct cfg)
      then refuse (kindTag kind +:+ ":level_in_way")
      else if String.eqb kind SRKindPullbackFast then advise candle ss side kind anchor stop target c closeMin
      else tryEnter candle ss side kind anchor stop target c closeMin.

(** ** A closed 1m candle *)

(** A flat instrument's entry bar: a pending retest first, then arming, then
    the regime's setup. *)
Definition evaluate_entry (candle : TFCandle) (closeMin : Z) : srM (option Signal) :=
  st ← getSt;
  let ss := sc_state (n5_ctx st) in
  match entryBars st with
  | None => refuse "not_ready"
  | Some (prev, cur) =>
      if String.eqb (ss_Regime ss) SRRegimeNone then refuse "not_ready"
      else if String.eqb (ss_Regime ss) SRRegimeDead then _ ← disarm; refuse "regime_dead"
      else
        sig ← (if negb (String.eqb (n5_PendingSide st) SideNone) then evaluateRetest candle ss prev cur closeMin else mret None);
        match sig with
        | Some sig => mret (Some sig)
        | None =>
            st ← getSt;
            armed ← (if String.eqb (n5_PendingSide st) SideNone then armBreak ss prev cur else mret false);
            if armed : bool then mret None
            else if String.eqb (ss_Regime ss) SRRegimeRange then evaluateFade candle ss prev cur closeMin
            else if String.eqb (ss_Regime ss) SRRegimeTrendUp || String.eqb (ss_Regime ss) SRRegimeTrendDown
            then evaluatePullback candle ss prev cur closeMin
            else refuse "regime_mixed"
        end
  end.

(** A step of the position's part, lifted. *)
Definition liftSt {A} (f : nifty50SRState → A * nifty50SRState) : srM A :=
  λ w, let '(x, st) := f (wk_st w) in Some (x, {| wk_st := st; wk_tally := wk_tally w |}).

(** The candle once the day and the cooldowns are up to date. *)
Definition evaluate_candle (candle : TFCandle) (closeMin : Z) : srM (option Signal) :=
  st ← getSt;
  if nc_TimeExitMin cfg <=? closeMin then
    if negb (is_side SideNone st) then
      liftSt (exit_at candle ("SR " +:+ open_side st +:+ " TIME EXIT " +:+ format_02d (closeMin /! 60) +:+ ":" +:+
        format_02d (closeMin %! 60) +:+ " close=" +:+ format_int (tfc_Close candle)))
    else mret None
  else
    sig ← liftSt (evaluateExit candle);
    match sig with
    | Some sig => mret (Some sig)
    | None =>
        st ← getSt;
        if negb (entryBarClosed st) then mret None
        else if negb (is_side SideNone st) then _ ← disarm; mret None
        else evaluate_entry candle closeMin
    end.

(** A new day's counters. *)
Definition sr_new_day (day : option Z) (st : nifty50SRState) : nifty50SRState :=
  if bool_decide (n5_TradeDay st = day) then st
  else st <| n5_TradeDay := day |> <| n5_TradesToday := 0 |> <| n5_ConsecLosses := 0 |> <| n5_DayPnLPts := 0 |>
          <| n5_LastSide := SideNone |> <| n5_LastADX := f64_zero |> <| n5_PendingSide := SideNone |>
          <| n5_AdviceToday := 0 |> <| n5_AdviceCooldown := 0 |> <| n5_Sweeps := [] |> <| n5_sweepAt := ∅ |>.

Definition count_down (n : Z) : Z := if 0 <? n then n -! 1 else n.

Definition tally_day (ts : Time) (t : srTally) : srTally :=
  let day := Some (ist_day ts) in
  let t := t <| tl_barTS := ts |> in
  if bool_decide (tl_rejectDay t = day) then t
  else t <| tl_rejectDay := day |> <| tl_dayRejects := ∅ |> <| tl_dayWarns := ∅ |> <| tl_lastReject := "" |>
         <| tl_lastRejectTS := zero_time |>.

(** The levels before the bar, when the bar is not the day's first. *)
Definition pre_levels (ts : Time) (st : nifty50SRState) : list sweepLevel :=
  if nc_SweepEnabled cfg && negb (t_is_zero (n5_LastCloseTS st)) && (ist_day (n5_LastCloseTS st) =? ist_day ts)
  then sweepLevels (sc_state (n5_ctx st)) else [].

(** The state a candle is evaluated on. *)
Definition take_candle (candle : TFCandle) (st : nifty50SRState) : option nifty50SRState :=
  let st := st <| n5_LastCloseTS := tfc_TS candle |> in
  '(_, ctx) ← sr_update (tfc_TS candle) (barOf candle) (n5_ctx st);
  let st := sr_new_day (Some (ist_day (tfc_TS candle))) (st <| n5_ctx := ctx |> <| n5_LastClose := tfc_Close candle |>) in
  Some (st <| n5_CooldownLeft := count_down (n5_CooldownLeft st) |> <| n5_AdviceCooldown := count_down (n5_AdviceCooldown st) |>).

(** The sweep the bar made, kept unless within its cooldown. *)
Definition note_sweep (candle : TFCandle) (levels : list sweepLevel) (st : nifty50SRState) : option SRSweep * nifty50SRState :=
  match detectSweep (barOf candle) (tfc_TS candle) levels (nc_SweepMinWickPts cfg) with
  | None => (None, st)
  | Some sw =>
      match recordSweep sw (nc_SweepCooldownMin cfg *! Minute) st with
      | Some st => (Some sw, st)
      | None => (None, st)
      end
  end.

(** A candle of an instrument: the signal, the sweep, the work left. *)
Definition instrument_candle (candle : TFCandle) (st : nifty50SRState) (tally : srTally) :
    option (option Signal * option SRSweep * srWork) :=
  if negb (t_is_zero (n5_LastCloseTS st)) && negb (t_after (tfc_TS candle) (n5_LastCloseTS st)) then
    Some (None, None, {| wk_st := st; wk_tally := tally |})
  else
    let levels := pre_levels (tfc_TS candle) st in
    st ← take_candle candle st;
    let tally := tally_day (tfc_TS candle) tally in
    let closeMin := minutesIST (tfc_TS candle) +! 1 in
    if (closeMin <=? sessionOpenMin) || (hhmm 15 30 <? closeMin) then Some (None, None, {| wk_st := st; wk_tally := tally |})
    else
      let '(sweep, st) := note_sweep candle levels st in
      '(sig, w) ← evaluate_candle candle closeMin {| wk_st := st; wk_tally := tally |};
      Some (sig, sweep, w).
End strategy.

Definition getOrCreate (key : string) (s : Nifty50SR) : option nifty50SRState :=
  match sr_instruments s !! key with Some st => Some st | None => newNifty50SRState (sr_cfg s) end.

(** Not an index candle of the strategy's. *)
Definition other_index (key : string) (s : Nifty50SR) : bool :=
  negb (String.eqb (nc_IndexToken (sr_cfg s)) "") && negb (String.eqb key (nc_IndexToken (sr_cfg s))).

Definition OnTFCandle (candle : TFCandle) (s : Nifty50SR) : option (option Signal * Nifty50SR) :=
  let key := TFCandle_Key candle in
  if negb (tfc_TF candle =? tf1m) || other_index key s then Some (None, s)
  else
    st ← getOrCreate key s;
    '(sig, sweep, w) ← instrument_candle (sr_cfg s) (sr_qty s) candle st (sr_tally s);
    Some (sig, s <| sr_instruments := <[key := wk_st w]> (sr_instruments s) |> <| sr_tally := wk_tally w |>
                 <| sr_swept := sr_swept s ++ match sweep with Some sw => [(key, sw)] | None => [] end |>).

(** ** Warm-up *)

Definition warm_candle (c : TFCandle) (acc : Z * Nifty50SR) : option (Z * Nifty50SR) :=
  let '(n, s) := acc in
  let key := TFCandle_Key c in
  if negb (tfc_TF c =? tf1m) || tfc_Forming c || other_index key s then Some (n, s)
  else
    st ← getOrCreate key s;
    '(fed, ctx) ← sr_update (tfc_TS c) (barOf c) (n5_ctx st);
    let st := st <| n5_ctx := ctx |> in
    let st := if fed && t_after (tfc_TS c) (n5_LastCloseTS st) then st <| n5_LastCloseTS := tfc_TS c |> else st in
    Some (if fed then n +! 1 else n, s <| sr_instruments := <[key := st]> (sr_instruments s) |>).

Definition Warmup (candles : list TFCandle) (s : Nifty50SR) : option (Z * Nifty50SR) :=
  foldl (λ acc c, acc ← acc; warm_candle c acc) (Some (0, s)) candles.

(** ** Ticks *)

Definition heldToken (cfg : Nifty50SRConfig) (st : nifty50SRState) : string :=
  if negb (String.eqb (ps_FNOToken (n5_pos st)) "") then ps_FNOToken (n5_pos st)
  else if is_side SideCall st then nc_FNOCallToken cfg else nc_FNOPutToken cfg.

(** Why a premium closes the position, if it does. *)
Definition premium_exit (cfg : Nifty50SRConfig) (price : Z) (p : srPosition) : option string :=
  let entry := ps_FNOEntryPrice p in
  let best := ps_FNOBestPrice p in
  let text what := "SR " +:+ ps_Side p +:+ " FNO " +:+ what +:+ " premium=" +:+ format_int price in
  if (0 <? ps_FNOTarget p) && (ps_FNOTarget p <=? price) then
    Some (text "TARGET" +:+ " target=" +:+ format_int (ps_FNOTarget p))
  else if 0 <? ps_FNOManualSL p then
    if ps_FNOManualSL p <? price then None else Some (text "MANUAL SL" +:+ " sl=" +:+ format_int (ps_FNOManualSL p))
  else if (0 <? nc_FNOTrailSLPct cfg) && (entry *! nc_FNOTrailStartPct cfg <=? (best -! entry) *! 100) &&
          (best *! nc_FNOTrailSLPct cfg <=? (best -! price) *! 100) then
    Some (text "TRAIL SL" +:+ " best=" +:+ format_int best)
  else if (0 <? nc_FNOHardSLPct cfg) && (entry *! nc_FNOHardSLPct cfg <=? (entry -! price) *! 100) then
    Some (text "HARD SL" +:+ " entry=" +:+ format_int entry)
  else None.

Definition checkPremium (cfg : Nifty50SRConfig) (qty : Z) (key : string) (price : Z) (st : nifty50SRState) :
    option Signal * nifty50SRState :=
  if price <=? 0 then (None, st)
  else
    let st := set_pos (λ p, p <| ps_FNOBestPrice := Z.max (ps_FNOBestPrice p) price |> <| ps_FNOLastPrice := price |>) st in
    match premium_exit cfg price (n5_pos st) with
    | None => (None, st)
    | Some reason => let '(sig, st) := exit_unpriced cfg qty key reason st in (Some sig, st)
    end.

(** The first instrument, in the order of the map, that satisfies a test. *)
Definition find_instrument `{MO : MapOrder} (P : nifty50SRState → bool) (s : Nifty50SR) : option (string * nifty50SRState) :=
  head (filter (λ kst, P kst.2 = true) (range (sr_instruments s))).

Definition put_instrument (key : string) (st : nifty50SRState) (s : Nifty50SR) : Nifty50SR :=
  s <| sr_instruments := <[key := st]> (sr_instruments s) |>.

(** Every instrument changed. *)
Definition map_instruments (f : nifty50SRState → nifty50SRState) (s : Nifty50SR) : Nifty50SR :=
  s <| sr_instruments := f <$> sr_instruments s |>.

Definition holds_token (cfg : Nifty50SRConfig) (tickKey : string) (st : nifty50SRState) : bool :=
  negb (is_side SideNone st) && (0 <? ps_FNOEntryPrice (n5_pos st)) && negb (String.eqb (heldToken cfg st) "") &&
  String.eqb tickKey (heldToken cfg st).

Definition OnTick `{MO : MapOrder} (tick : Tick) (s : Nifty50SR) : option Signal * Nifty50SR :=
  let tickKey := instrument_key (tick_Exchange tick) (tick_Token tick) in
  if negb (String.eqb (nc_VolumeToken (sr_cfg s)) "") && String.eqb tickKey (nc_VolumeToken (sr_cfg s)) then
    let '(done, vol) := observe (CanonicalTS tick) (tick_DayVolume tick) (sr_vol s) in
    let s := s <| sr_vol := vol |> in
    (None, match done with
           | Some (minute, v) =>
               map_instruments (λ st, st <| n5_ctx := (n5_ctx st) <| sc_rc := addVolume minute v (sc_rc (n5_ctx st)) |> |>) s
           | None => s
           end)
  else
    match find_instrument (holds_token (sr_cfg s) tickKey) s with
    | None => (None, s)
    | Some (key, st) =>
        let '(sig, st) := checkPremium (sr_cfg s) (sr_qty s) key (tick_Price tick) st in (sig, put_instrument key st s)
    end.

(** ** Operations of the engine and the dashboard *)

Definition SetVolumeToken (token : string) (s : Nifty50SR) : Nifty50SR :=
  s <| sr_cfg := (sr_cfg s) <| nc_VolumeToken := token |> |> <| sr_vol := zero_minuteVolume |>.
Definition SetFNOTokens (callToken putToken : string) (s : Nifty50SR) : Nifty50SR :=
  s <| sr_cfg := (sr_cfg s) <| nc_FNOCallToken := callToken |> <| nc_FNOPutToken := putToken |> |>.
Definition SetExpiry (expiry : Time) (s : Nifty50SR) : Nifty50SR := s <| sr_expiry := expiry |>.

Definition SetFNOEntryPrice (price : Z) (s : Nifty50SR) : Nifty50SR :=
  map_instruments (λ st,
    if is_side SideNone st then st
    else set_pos (λ p, p <| ps_FNOEntryPrice := price |> <| ps_FNOBestPrice := price |> <| ps_FNOLastPrice := price |>
      <| ps_FNOManualSL := 0 |>
      <| ps_FNOTarget := if 0 <? nc_FNOTargetPct (sr_cfg s) then price *! (100 +! nc_FNOTargetPct (sr_cfg s)) /! 100 else 0 |>)
      st) s.

Definition SetPositionToken (token : string) (s : Nifty50SR) : Nifty50SR :=
  map_instruments (λ st, if is_side SideNone st then st else set_pos (λ p, p <| ps_FNOToken := token |>) st) s.

Definition CancelEntry (side : PositionSide) (s : Nifty50SR) : Nifty50SR :=
  map_instruments (λ st,
    if String.eqb side SideNone || negb (is_side side st) then st
    else (resetPosition (sr_cfg s) st) <| n5_CooldownLeft := 0 |>
           <| n5_TradesToday := if 0 <? n5_TradesToday st then n5_TradesToday st -! 1 else n5_TradesToday st |>) s.

Definition ResetPositions (s : Nifty50SR) : Nifty50SR :=
  map_instruments (λ st, (resetPosition (sr_cfg s) st) <| n5_CooldownLeft := 0 |> <| n5_PendingSide := SideNone |>) s.

(** The request names another contract than the one held. *)
Definition other_contract (fnoToken : string) (st : nifty50SRState) : bool :=
  let held := ps_FNOToken (n5_pos st) in
  negb (String.eqb fnoToken "") && negb (String.eqb held "") && negb (String.eqb held fnoToken) &&
  negb (has_suffix (":" +:+ fnoToken) held).

Definition ExitRequested `{MO : MapOrder} (side : PositionSide) (fnoToken reason : string) (s : Nifty50SR) :
    option Signal * Nifty50SR :=
  match find_instrument (is_side side) s with
  | None => (None, s)
  | Some (key, st) =>
      if other_contract fnoToken st then (None, s)
      else let '(sig, st) := exit_unpriced (sr_cfg s) (sr_qty s) key reason st in (Some sig, put_instrument key st s)
  end.

Definition ProtectArmed `{MO : MapOrder} (side : PositionSide) (s : Nifty50SR) : bool :=
  match find_instrument (is_side side) s with Some (_, st) => ps_Breakeven (n5_pos st) | None => false end.

(** [today]: [None] for every position, a day for those not from it. *)
Definition forceExit `{MO : MapOrder} (today : option Z) (reason : string) (s : Nifty50SR) : list Signal * Nifty50SR :=
  foldl (λ '(sigs, s) '(key, st),
    if is_side SideNone st || bool_decide (today ≠ None ∧ n5_TradeDay st = today) then (sigs, s)
    else let '(sig, st) := exit_unpriced (sr_cfg s) (sr_qty s) key reason st in (sigs ++ [sig], put_instrument key st s))
    ([], s) (range (sr_instruments s)).

Definition ForceExitAll `{MO : MapOrder} (reason : string) (s : Nifty50SR) : list Signal * Nifty50SR := forceExit None reason s.
Definition ForceExitStale `{MO : MapOrder} (today : option Z) (reason : string) (s : Nifty50SR) : list Signal * Nifty50SR :=
  forceExit today reason s.

(** *** Hand edits (sr_levels.go) *)

Definition maxTrailFrac : Z := 20.

Definition editLevel (cur edit : Z) : Z := if 0 <? edit then edit else if edit <? 0 then 0 else cur.

(** [None]: the edit is fine. *)
Definition checkLevelEdit (st : nifty50SRState) (e : LevelEdit) : option string :=
  let sign := side_sign st in
  let close := n5_LastClose st in
  let ltp := ps_FNOLastPrice (n5_pos st) in
  let index :=
    if (0 <? le_IndexStop e) || (0 <? le_IndexTarget e) || (0 <? le_IndexTrail e) then
      if close <=? 0 then Some "no index close yet"
      else if (0 <? le_IndexStop e) && ((close -! le_IndexStop e) *! sign <=? 0) then
        Some ("index stop " +:+ format_int (le_IndexStop e) +:+ " is not on the losing side of " +:+ format_int close)
      else if (0 <? le_IndexTarget e) && ((le_IndexTarget e -! close) *! sign <=? 0) then
        Some ("index target " +:+ format_int (le_IndexTarget e) +:+ " is not on the winning side of " +:+ format_int close)
      else if (0 <? le_IndexTrail e) && (close <=? le_IndexTrail e *! maxTrailFrac) then
        Some ("index trail " +:+ format_int (le_IndexTrail e) +:+ " is too wide for " +:+ format_int close)
      else None
    else None in
  match index with
  | Some err => Some err
  | None =>
      if (0 <? le_FNOSL e) || (0 <? le_FNOTarget e) then
        if ltp <=? 0 then Some "no option price yet"
        else if (0 <? le_FNOSL e) && (ltp <=? le_FNOSL e) then
          Some ("premium stop " +:+ format_int (le_FNOSL e) +:+ " is not below LTP " +:+ format_int ltp)
        else if (0 <? le_FNOTarget e) && (le_FNOTarget e <=? ltp) then
          Some ("premium target " +:+ format_int (le_FNOTarget e) +:+ " is not above LTP " +:+ format_int ltp)
        else None
      else None
  end.

Definition edit_index (e : LevelEdit) (p : srPosition) : srPosition :=
  p <| ps_StopLevel := editLevel (ps_StopLevel p) (le_IndexStop e) |>
    <| ps_TargetLevel := editLevel (ps_TargetLevel p) (le_IndexTarget e) |>
    <| ps_TrailDist := editLevel (ps_TrailDist p) (le_IndexTrail e) |>
    <| ps_ManualLevels := true |> <| ps_SupportLvl := 0 |> <| ps_BreakBars := 0 |>.

Definition edit_fno (e : LevelEdit) (p : srPosition) : srPosition :=
  p <| ps_FNOManualSL := if 0 <? le_FNOSL e then le_FNOSL e else ps_FNOManualSL p |>
    <| ps_FNOTarget := editLevel (ps_FNOTarget p) (le_FNOTarget e) |>.

Definition apply_edit (e : LevelEdit) (st : nifty50SRState) : nifty50SRState :=
  let st :=
    if negb (le_IndexStop e =? 0) || negb (le_IndexTarget e =? 0) || negb (le_IndexTrail e =? 0)
    then trailStop (set_pos (edit_index e) st) else st in
  set_pos (edit_fno e) st.

(** The error, if any. *)
Definition SetLevels `{MO : MapOrder} (side : PositionSide) (fnoToken : string) (e : LevelEdit) (s : Nifty50SR) :
    option string * Nifty50SR :=
  match (if String.eqb side SideNone then None else find_instrument (is_side side) s) with
  | None => (Some ("no open " +:+ side +:+ " position"), s)
  | Some (key, st) =>
      if other_contract fnoToken st then
        (Some ("position holds " +:+ ps_FNOToken (n5_pos st) +:+ ", not " +:+ fnoToken), s)
      else
        match checkLevelEdit st e with
        | Some err => (Some err, s)
        | None => (None, put_instrument key (apply_edit e st) s)
        end
  end.

(** *** Views of the position *)

Record LiveFNOPosition := {
  lf_Side : PositionSide; lf_Token : string; lf_EntryPrice : Z; lf_BestPrice : Z; lf_ManualSL : Z; lf_Target : Z;
  lf_IndexStop : Z; lf_IndexTarget : Z; lf_Manual : bool }.

Definition CurrentFNOPosition `{MO : MapOrder} (s : Nifty50SR) : option LiveFNOPosition :=
  match find_instrument (λ st, negb (is_side SideNone st) && negb (ps_FNOEntryPrice (n5_pos st) =? 0)) s with
  | None => None
  | Some (_, st) =>
      let p := n5_pos st in
      let token := heldToken (sr_cfg s) st in
      if String.eqb token "" then None
      else Some {| lf_Side := ps_Side p; lf_Token := token; lf_EntryPrice := ps_FNOEntryPrice p; lf_BestPrice := ps_FNOBestPrice p;
                   lf_ManualSL := ps_FNOManualSL p; lf_Target := ps_FNOTarget p; lf_IndexStop := ps_StopLevel p;
                   lf_IndexTarget := ps_TargetLevel p; lf_Manual := ps_ManualLevels p |}
  end.

(** What follows the last ':', everything when there is none. *)
Fixpoint bareToken (t : string) : string :=
  if contains ":" t then match t with EmptyString => "" | String _ t => bareToken t end else t.

Definition PositionContexts `{MO : MapOrder} (s : Nifty50SR) : list PositionContext :=
  omap (λ '(key, st),
    let p := n5_pos st in
    if is_side SideNone st || (ps_TargetLevel p =? 0) then None
    else Some {| pc_Strategy := sr_Name (sr_cfg s); pc_Side := ps_Side p; pc_IndexToken := bareToken key;
                 pc_IndexEntry := ps_IndexEntry p; pc_TargetLevel := ps_TargetLevel p; pc_StopLevel := ps_StopLevel p;
                 pc_FNOToken := bareToken (heldToken (sr_cfg s) st); pc_FNOEntryPrice := ps_FNOEntryPrice p;
                 pc_EntryTS := zero_time |})
    (range (sr_instruments s)).

(** ** Snapshot and restore *)

Definition sr_Snapshot `{MO : MapOrder} (s : Nifty50SR) : nifty50SRStrategySnapshot := {|
  sns_Version := nifty50SRSnapshotVersion; sns_Strategy := sr_Name (sr_cfg s);
  sns_Instruments := (λ '(k, st), snapshotNifty50SR k st) <$> range (sr_instruments s) |}.

(** [data]: what the JSON reads as, [None] when it does not.  The result
    tells whether it did. *)
Definition sr_Restore (data : option nifty50SRStrategySnapshot) (s : Nifty50SR) : option (bool * Nifty50SR) :=
  match data with
  | None => Some (false, s)
  | Some snap =>
      if negb (sns_Version snap =? nifty50SRSnapshotVersion) then Some (true, s)
      else
        m ← foldl (λ m inst, m ← m; st ← restoreNifty50SR (sr_cfg s) inst; Some (<[nsn_Key inst := st]> m)) (Some ∅)
              (sns_Instruments snap);
        Some (true, s <| sr_instruments := m |>)
  end.
