(* ===== verification/Nifty50SrEntry.v ===== *)
(** What one closed candle can do to an instrument of the SR strategy: the
    setups open a position only within the day's limits and with the stop on
    its losing side, and never fail; everything else leaves the position
    alone. *)
From S2P Require Import Prelude Float64 GoText Model MarketHours Indicators RangeContext SrContext Nifty50SrState Nifty50Sr.
#[local] Open Scope Z_scope.
#[local] Open Scope go_scope.

(** ** Reasoning about the monad *)

(** The program does not panic and ends in [Φ]. *)
Definition wp {A} (m : srM A) (Φ : A → srWork → Prop) (w : srWork) : Prop :=
  match m w with Some (x, w) => Φ x w | None => False end.

Lemma wp_ret {A} (x : A) (Φ : A → srWork → Prop) w : Φ x w → wp (mret x) Φ w.
Proof. done. Qed.

Lemma wp_bind {A B} (m : srM A) (f : A → srM B) Φ w : wp m (λ x, wp (f x) Φ) w → wp (m ≫= f) Φ w.
Proof. unfold wp, mbind, srM_bind. by destruct (m w) as [[x w']|]. Qed.

Lemma wp_mono {A} (m : srM A) (Φ Ψ : A → srWork → Prop) w : wp m Φ w → (∀ x w, Φ x w → Ψ x w) → wp m Ψ w.
Proof. unfold wp. destruct (m w) as [[x w']|]; [|done]. auto. Qed.

Lemma wp_getSt Φ w : Φ (wk_st w) w → wp getSt Φ w.
Proof. done. Qed.

Lemma wp_some {A} (m : srM A) Φ w : wp m Φ w → ∃ x w', m w = Some (x, w') ∧ Φ x w'.
Proof. unfold wp. destruct (m w) as [[x w']|]; [by eexists _, _|done]. Qed.

Ltac wp_if := match goal with |- wp (if ?b then _ else _) _ _ => destruct b end.

(** ** The state during an evaluation *)

Definition is_trade_side (d : PositionSide) : Prop := d = SideCall ∨ d = SidePut.

(** The pending break is on a side, or there is none. *)
Definition pend_ok (st : nifty50SRState) : Prop := n5_PendingSide st = SideNone ∨ is_trade_side (n5_PendingSide st).

(** Only the pending break and the advice counters differ. *)
Record same_core (st st' : nifty50SRState) : Prop := {
  sm_ctx : n5_ctx st' = n5_ctx st; sm_pos : n5_pos st' = n5_pos st; sm_TradeDay : n5_TradeDay st' = n5_TradeDay st;
  sm_TradesToday : n5_TradesToday st' = n5_TradesToday st; sm_ConsecLosses : n5_ConsecLosses st' = n5_ConsecLosses st;
  sm_DayPnLPts : n5_DayPnLPts st' = n5_DayPnLPts st; sm_LastSide : n5_LastSide st' = n5_LastSide st;
  sm_LastADX : n5_LastADX st' = n5_LastADX st; sm_CooldownLeft : n5_CooldownLeft st' = n5_CooldownLeft st;
  sm_LastClose : n5_LastClose st' = n5_LastClose st; sm_LastCloseTS : n5_LastCloseTS st' = n5_LastCloseTS st;
  sm_Sweeps : n5_Sweeps st' = n5_Sweeps st;
}.

#[export] Instance same_core_preorder : PreOrder same_core.
Proof. split; [by split|]. intros x y z [] []. split; congruence. Qed.

(** [st] is a stage of the evaluation begun on [st0]. *)
Definition stage (st0 st : nifty50SRState) : Prop := same_core st0 st ∧ pend_ok st.

(** The stop on its losing side and the target on the other, as the machine
    computes. *)
Definition stop_ok (side : PositionSide) (entry stop : Z) : Prop :=
  if String.eqb side SidePut then entry < stop else stop < entry.
Definition reward_of (side : PositionSide) (entry target : Z) : Z :=
  if String.eqb side SidePut then entry -! target else target -! entry.

Section entry.
Context (cfg : Nifty50SRConfig) (qty : Z) (candle : TFCandle) (closeMin : Z).

(** The signal opened a position on [st], giving [st']. *)
Record entered (st : nifty50SRState) (sig : Signal) (st' : nifty50SRState) : Prop := {
  en_action : sig_Action sig = ActionBuy;
  en_side : is_trade_side (sig_Side sig);
  en_limits : entryBlock cfg st closeMin = "";
  en_pos_side : ps_Side (n5_pos st') = sig_Side sig;
  en_entry : ps_IndexEntry (n5_pos st') = tfc_Close candle;
  en_risk : 0 < ps_Risk (n5_pos st');
  en_stop : stop_ok (sig_Side sig) (tfc_Close candle) (ps_StopLevel (n5_pos st'));
  en_reward : 0 < reward_of (sig_Side sig) (tfc_Close candle) (ps_TargetLevel (n5_pos st'));
  en_fresh : ps_Breakeven (n5_pos st') = false ∧ ps_SupportLvl (n5_pos st') = 0 ∧ ps_ManualLevels (n5_pos st') = false;
  en_trades : n5_TradesToday st' = n5_TradesToday st +! 1;
  en_ctx : n5_ctx st' = n5_ctx st;
  en_counters : n5_ConsecLosses st' = n5_ConsecLosses st ∧ n5_DayPnLPts st' = n5_DayPnLPts st ∧ n5_CooldownLeft st' = n5_CooldownLeft st;
}.

(** A setup's result on the evaluation begun on [st0]. *)
Definition setup_post (st0 : nifty50SRState) (x : option Signal) (w : srWork) : Prop :=
  pend_ok (wk_st w) ∧
  match x with
  | None => same_core st0 (wk_st w)
  | Some sig =>
      sig_Exchange sig = tfc_Exchange candle ∧ sig_Token sig = tfc_Token candle ∧
      (sig_Action sig = ActionWatchBuy ∧ is_trade_side (sig_Side sig) ∧ same_core st0 (wk_st w) ∨ entered st0 sig (wk_st w))
  end.

Lemma entered_core st0 st sig st' : same_core st0 st → entered st sig st' → entered st0 sig st'.
Proof.
  intros Hc []. split; try done; [|rewrite en_trades0; by rewrite (sm_TradesToday _ _ Hc)|by rewrite <-(sm_ctx _ _ Hc)|
    by rewrite <-(sm_ConsecLosses _ _ Hc), <-(sm_DayPnLPts _ _ Hc), <-(sm_CooldownLeft _ _ Hc)].
  rewrite <-en_limits0. unfold entryBlock. destruct Hc as [_ _ _ -> -> -> _ _ -> _ _ _]. done.
Qed.

Lemma wp_refuse st0 why w : stage st0 (wk_st w) → wp (refuse why) (setup_post st0) w.
Proof. by intros [? ?]. Qed.

Lemma plan_entry_ok st ss side kind stop target c p :
  is_trade_side side → plan_entry cfg candle st ss side kind stop target c closeMin = inr p →
  entryBlock cfg st closeMin = "" ∧ ep_entry p = tfc_Close candle ∧ 0 < ep_risk p ∧ stop_ok side (ep_entry p) (ep_stop p) ∧
  0 < reward_of side (ep_entry p) (ep_target p).
Proof.
  intros Hside. unfold plan_entry. destruct (_ <? _); [done|].
  destruct (String.eqb_spec (entryBlock cfg st closeMin) "") as [->|]; [|done]. simpl.
  destruct (weakReentry _ _ _ _); [done|]. destruct (if String.eqb _ SRGateBlock then _ else _); [done|].
  destruct (_ || _ || _) eqn:Hstop; [done|]. 
  match goal with |- (if ?b then _ else _) = _ → _ => destruct b eqn:Hrew end; [done|]. intros [= <-]. simpl.
  bool_prop. split; [done|]. split; [done|]. split; [done|].
  unfold stop_ok, reward_of. destruct Hside as [->| ->]; simpl in *; bool_prop; split; try done; destruct_or?; bool_prop; lia.
Qed.

(** ** The setups *)

Context (Hstep : 0 < nc_StrikeStep cfg <= 2 ^ 31).

Lemma atmStrike_some price : is_Some (atmStrike price (nc_StrikeStep cfg)).
Proof.
  unfold atmStrike. rewrite (i64_id (_ * 100)) by (i64_unfold; lia). rewrite (proj2 (Z.eqb_neq _ 0)) by lia. by eexists.
Qed.

Lemma wp_checkEntry st0 ss side kind stop target c w (Φ : option entryPlan → srWork → Prop) :
  is_trade_side side → stage st0 (wk_st w) →
  (∀ w', wk_st w' = wk_st w → Φ None w') →
  (∀ p, plan_entry cfg candle (wk_st w) ss side kind stop target c closeMin = inr p → Φ (Some p) w) →
  wp (checkEntry cfg candle ss side kind stop target c closeMin) Φ w.
Proof.
  intros Hside Hst Hnone Hsome. apply wp_bind, wp_getSt. destruct (plan_entry _ _ _ _ _ _ _ _ _ _) as [why|p] eqn:Hp.
  - by apply Hnone.
  - by apply Hsome.
Qed.

(** Without a signal the state is as it was. *)
Lemma wp_tryEnter_keeps st0 ss side kind level stop target c w :
  is_trade_side side → stage st0 (wk_st w) →
  wp (tryEnter cfg qty candle ss side kind level stop target c closeMin)
    (λ x w', setup_post st0 x w' ∧ (x = None → wk_st w' = wk_st w)) w.
Proof.
  intros Hside Hst. apply wp_bind. apply (wp_checkEntry st0); [done|done|..].
  { intros w' Hw'. destruct Hst. split; [|done]. by split; rewrite Hw'. }
  intros p Hp. apply plan_entry_ok in Hp as (Hlim & He & Hrisk & Hstop & Hrew); [|done].
  unfold sr_open. apply wp_bind. destruct (atmStrike_some (ep_entry p)) as [strike Hs]. unfold orPanic, wp at 1. rewrite Hs.
  destruct Hst as [Hc Hp]. split; [|done]. split; [exact Hp|]. split; [done|]. split; [done|]. right.
  apply (entered_core st0 (wk_st w)); [done|]. rewrite He in *. by split.
Qed.

Lemma wp_tryEnter st0 ss side kind level stop target c w :
  is_trade_side side → stage st0 (wk_st w) →
  wp (tryEnter cfg qty candle ss side kind level stop target c closeMin) (setup_post st0) w.
Proof. intros Hside Hst. eapply wp_mono; [by apply wp_tryEnter_keeps|]. by intros x w' []. Qed.

Lemma wp_advise st0 ss side kind level stop target c w :
  is_trade_side side → stage st0 (wk_st w) →
  wp (advise cfg qty candle ss side kind level stop target c closeMin) (setup_post st0) w.
Proof.
  intros Hside Hst. unfold advise. destruct (nc_AdviceAsTrades cfg); [by apply wp_tryEnter|]. apply wp_bind, wp_getSt.
  repeat (case_match; [by apply wp_refuse|]).
  apply wp_bind. apply (wp_checkEntry st0); [done|done|by intros w' Hw'; destruct Hst; split; rewrite Hw'|]. intros p _.
  apply wp_bind. apply wp_bind. unfold wp at 1, modSt. unfold orPanic. destruct (atmStrike_some (ep_entry p)) as [strike ->].
  destruct Hst as [Hc Hp]. split; [exact Hp|]. split; [done|]. split; [done|]. left. split; [done|]. split; [done|]. destruct Hc. by split.
Qed.

Lemma wp_evaluateFade st0 ss prev cur w : stage st0 (wk_st w) →
  wp (evaluateFade cfg qty candle ss prev cur closeMin) (setup_post st0) w.
Proof.
  intros Hst. unfold evaluateFade. destruct (negb _); [by destruct Hst|]. cbv zeta.
  repeat (case_match; try by apply wp_refuse); apply wp_tryEnter; try done; solve [by left|by right].
Qed.

Lemma wp_evaluatePullback st0 ss prev cur w : stage st0 (wk_st w) →
  wp (evaluatePullback cfg qty candle ss prev cur closeMin) (setup_post st0) w.
Proof.
  intros Hst. unfold evaluatePullback. destruct (negb (nc_PullbackEnabled cfg)); [by destruct Hst|]. cbv zeta.
  destruct (pullback_anchor _ _ _ _) as [anchor kind]. do 3 (wp_if; [by apply wp_refuse|]).
  wp_if; [apply wp_advise|apply wp_tryEnter]; try done; destruct (String.eqb _ _); solve [by left|by right].
Qed.

Lemma wp_evaluateContinue st0 ss cur w : stage st0 (wk_st w) → is_trade_side (n5_PendingSide (wk_st w)) →
  wp (evaluateContinue cfg qty candle ss cur closeMin) (setup_post st0) w.
Proof.
  intros Hst Hside. unfold evaluateContinue. destruct (nc_AdviceContinueMin cfg <=? 0); [by destruct Hst|].
  apply wp_bind, wp_getSt. cbv zeta. wp_if; [by destruct Hst|]. wp_if; [by apply wp_refuse|].
  destruct (break_levels _ _ _ _ _) as [stop target]. wp_if; [by apply wp_refuse|]. by apply wp_advise.
Qed.

(** Disarming after a signal, or with a refusal. *)
Lemma setup_post_disarm st0 sig w : setup_post st0 (Some sig) w →
  setup_post st0 (Some sig) {| wk_st := (wk_st w) <| n5_PendingSide := SideNone |>; wk_tally := wk_tally w |}.
Proof.
  intros (Hp & He & Ht & Hcase). split; [by left|]. split; [done|]. split; [done|].
  destruct Hcase as [(Ha & Hs & Hc)|He']; [left|right].
  - split; [done|]. split; [done|]. destruct Hc. by split.
  - destruct He'. by split.
Qed.

Lemma stage_disarm st0 st : stage st0 st → stage st0 (st <| n5_PendingSide := SideNone |>).
Proof. intros [[] _]. split; [by split|by left]. Qed.

Lemma wp_evaluateRetest st0 ss prev cur w : stage st0 (wk_st w) → is_trade_side (n5_PendingSide (wk_st w)) →
  wp (evaluateRetest cfg qty candle ss prev cur closeMin) (setup_post st0) w.
Proof.
  intros Hst Hside. unfold evaluateRetest. apply wp_bind. unfold wp at 1, modSt. apply wp_bind, wp_getSt. cbv zeta.
  set (w1 := {| wk_st := _; wk_tally := wk_tally w |}).
  assert (stage st0 (wk_st w1)) as H1 by (destruct Hst as [[] ?]; split; [by split|done]).
  assert (is_trade_side (n5_PendingSide (wk_st w1))) as Hs1 by done. clearbody w1.
  wp_if.
  { apply wp_bind. unfold wp at 1, disarm, modSt. apply wp_refuse, stage_disarm, H1. }
  apply wp_bind. eapply (wp_mono _ (λ x w', setup_post st0 x w' ∧ (x = None → wk_st w' = wk_st w1))).
  { wp_if; [|by destruct H1].
    destruct (break_levels _ _ _ _ _) as [stop target]. by apply wp_tryEnter_keeps. }
  intros [sig|] w2 [H2 Hkeep]; [by apply setup_post_disarm|]. apply wp_bind.
  eapply wp_mono; [apply wp_evaluateContinue; rewrite Hkeep; done|].
  intros [sig|] w3 H3; [by apply setup_post_disarm|]. destruct H3 as [Hp3 Hc3]. apply wp_bind, wp_getSt.
  wp_if; [|done]. apply wp_bind. unfold wp at 1, disarm, modSt. by apply wp_refuse, stage_disarm.
Qed.

Lemma broken_level_side ss prev cur : (broken_level cfg ss prev cur).2 = 0 ∨ is_trade_side (broken_level cfg ss prev cur).1.
Proof.
  unfold broken_level. cbv zeta. match goal with |- context [foldl ?f _ _] => set (step := f) end.
  assert (∀ l (sl : PositionSide * Z), sl.2 = 0 ∨ is_trade_side sl.1 →
    (foldl step sl l).2 = 0 ∨ is_trade_side (foldl step sl l).1) as Hgen; [|by apply (Hgen _ ("", 0)); left].
  induction l as [|x l IH]; intros [side level] Hsl; [done|]. cbn [foldl]. apply IH. unfold step.
  repeat case_match; simpl; try done; right; solve [by left|by right].
Qed.

Lemma wp_armBreak st0 ss prev cur w : stage st0 (wk_st w) →
  wp (armBreak cfg ss prev cur) (λ _ w', stage st0 (wk_st w')) w.
Proof.
  intros Hst. unfold armBreak. apply wp_bind, wp_getSt. wp_if; [done|]. wp_if; [done|].
  destruct (broken_level cfg ss prev cur) as [side level] eqn:Hb. pose proof (broken_level_side ss prev cur) as Hs. rewrite Hb in Hs.
  destruct (String.eqb side SideNone || (level =? 0)) eqn:Hz; [done|]. bool_prop. simpl in Hs.
  destruct Hs as [Hs|Hs]; [done|]. destruct Hst as [[] _]. split; [by split|by right].
Qed.

Lemma wp_evaluate_entry st0 w : stage st0 (wk_st w) → wp (evaluate_entry cfg qty candle closeMin) (setup_post st0) w.
Proof.
  intros Hst. unfold evaluate_entry. apply wp_bind, wp_getSt. cbv zeta.
  destruct (entryBars cfg (wk_st w)) as [[prev cur]|]; [|by apply wp_refuse].
  destruct (String.eqb _ SRRegimeNone); [by apply wp_refuse|].
  destruct (String.eqb _ SRRegimeDead); [apply wp_bind; unfold wp at 1, disarm, modSt; by apply wp_refuse, stage_disarm|].
  apply wp_bind. eapply (wp_mono _ (setup_post st0)).
  { destruct (String.eqb_spec (n5_PendingSide (wk_st w)) SideNone) as [Hn|Hn]; simpl; [by destruct Hst|].
    apply wp_evaluateRetest; [done|]. by destruct Hst as [_ [?|?]]. }
  intros [sig|] w1 H1; [done|]. apply wp_bind, wp_getSt. apply wp_bind.
  eapply (wp_mono _ (λ _ w', stage st0 (wk_st w'))).
  { destruct H1. destruct (String.eqb _ _); [by apply wp_armBreak|by split]. }
  intros [] w2 H2; [by destruct H2|]. wp_if; [by apply wp_evaluateFade|].
  wp_if; [by apply wp_evaluatePullback|by apply wp_refuse].
Qed.
End entry.
