(* ===== verification/Nifty50SrExit.v ===== *)
(** How the SR strategy manages and closes an open position: the stop only
    tightens, a close beyond it or at the target closes, and what closes is
    booked once. *)
From S2P Require Import Prelude Float64 GoText Model MarketHours Indicators RangeContext SrContext Nifty50SrState Nifty50Sr Nifty50SrEntry.
#[local] Open Scope Z_scope.
#[local] Open Scope go_scope.

(** ** Positions *)

(** A position is none at all, or on a side with a risk; one managed
    automatically has its target ahead of the entry and, until the stop has
    been moved, its stop behind it. *)
Record position_ok (p : srPosition) : Prop := {
  po_side : p = flat_position ∨ is_trade_side (ps_Side p);
  po_risk : ps_Side p ≠ SideNone → 0 < ps_Risk p;
  po_reward : ps_Side p ≠ SideNone → ps_ManualLevels p = false → 0 < reward_of (ps_Side p) (ps_IndexEntry p) (ps_TargetLevel p);
  po_stop : ps_Side p ≠ SideNone → ps_ManualLevels p = false → ps_Breakeven p = false →
    ps_SupportLvl p = 0 ∧ stop_ok (ps_Side p) (ps_IndexEntry p) (ps_StopLevel p);
}.

Lemma flat_position_ok : position_ok flat_position.
Proof. split; simpl; [by left|done..]. Qed.

(** A stop at least as tight. *)
Definition tighter (side : PositionSide) (old new : Z) : Prop := if String.eqb side SidePut then new <= old else old <= new.

#[export] Instance tighter_refl side : Reflexive (tighter side).
Proof. intros x. unfold tighter. by destruct (String.eqb side SidePut). Qed.
Lemma tighter_trans side : Transitive (tighter side).
Proof. intros x y z. unfold tighter. destruct (String.eqb side SidePut); lia. Qed.

(** What a candle may do to a position that stays open. *)
Record managed (p p' : srPosition) : Prop := {
  mg_side : ps_Side p' = ps_Side p; mg_entry : ps_IndexEntry p' = ps_IndexEntry p;
  mg_target : ps_TargetLevel p' = ps_TargetLevel p; mg_risk : ps_Risk p' = ps_Risk p;
  mg_manual : ps_ManualLevels p' = ps_ManualLevels p;
  mg_fno : ps_FNOToken p' = ps_FNOToken p ∧ ps_FNOEntryPrice p' = ps_FNOEntryPrice p ∧ ps_FNOBestPrice p' = ps_FNOBestPrice p ∧
    ps_FNOManualSL p' = ps_FNOManualSL p ∧ ps_FNOTarget p' = ps_FNOTarget p;
  mg_gain : ps_MaxGain p <= ps_MaxGain p';
  mg_breakeven : ps_Breakeven p = true → ps_Breakeven p' = true;
  mg_stop : ps_ManualLevels p = true ∧ ps_StopLevel p = 0 ∨ tighter (ps_Side p) (ps_StopLevel p) (ps_StopLevel p');
}.

Lemma managed_refl p : managed p p.
Proof. split; auto; [lia|by right]. Qed.

Lemma managed_trans p p' p'' :
  managed p p' → managed p' p'' → ps_StopLevel p' = ps_StopLevel p ∨ ps_ManualLevels p = false → managed p p''.
Proof.
  intros [] [] Hstop. split; try congruence; [naive_solver congruence|lia|auto|].
  rewrite mg_manual0, mg_side0 in *. destruct Hstop as [Heq|Hm]; [by rewrite Heq in *|right].
  rewrite Hm in *. destruct mg_stop0 as [[??]|H1], mg_stop1 as [[??]|H2]; try done. by eapply tighter_trans.
Qed.

(** Everything but the position is as it was. *)
Definition only_pos (st st' : nifty50SRState) : Prop := st' = set_pos (λ _, n5_pos st') st.

Lemma only_pos_set f st : only_pos st (set_pos f st).
Proof. by destruct st. Qed.
Lemma only_pos_refl st : only_pos st st.
Proof. by destruct st. Qed.
Lemma only_pos_trans a b c : only_pos a b → only_pos b c → only_pos a c.
Proof. unfold only_pos. destruct a, b, c. simpl. intros H1 H2. injection H1. injection H2. intros. by subst. Qed.

(** The case of the first conditional of the goal. *)
Ltac goal_if H := match goal with |- context [if ?b then _ else _] => destruct b eqn:H end.

(** The invariant of a position with some fields changed. *)
Ltac keep_ok Hok :=
  destruct Hok; split; simpl; solve [by right | auto | intros; congruence].

Section exit.
Context (cfg : Nifty50SRConfig) (qty : Z).

(** A step that keeps the position open and well formed. *)
Definition keeps (st st' : nifty50SRState) : Prop :=
  only_pos st st' ∧ managed (n5_pos st) (n5_pos st') ∧ position_ok (n5_pos st').

Lemma is_side_eq side st : is_side side st = true ↔ open_side st = side.
Proof. apply String.eqb_eq. Qed.

Lemma open_cases st : position_ok (n5_pos st) → open_side st ≠ SideNone → is_trade_side (open_side st).
Proof. intros [[Hf|?] _ _ _] Hn; [|done]. unfold open_side in *. by rewrite Hf in Hn. Qed.

(** Raising the support stop only tightens it. *)
Lemma raiseSupportStop_keeps close st :
  position_ok (n5_pos st) → open_side st ≠ SideNone → ps_Breakeven (n5_pos st) = true →
  keeps st (raiseSupportStop cfg close st).
Proof.
  intros Hok Hopen Hbe. unfold raiseSupportStop. cbv zeta.
  match goal with |- context [if ?b then st else _] => destruct b eqn:Hb end.
  { split; [apply only_pos_refl|]. split; [apply managed_refl|done]. }
  bool_prop. pose proof (open_cases st Hok Hopen) as Hs. split; [apply only_pos_set|]. split.
  - split; simpl; auto; [lia|]. right. unfold tighter. unfold is_side, open_side in *.
    destruct Hs as [Hs|Hs]; rewrite Hs in *; simpl in *; bool_prop; lia.
  - keep_ok Hok.
Qed.

(** Moving a stop by hand: the other fields decide. *)
Lemma position_ok_manual p p' :
  position_ok p → is_trade_side (ps_Side p) → ps_ManualLevels p' = true → ps_Side p' = ps_Side p → ps_Risk p' = ps_Risk p →
  position_ok p'.
Proof.
  intros [_ Hr _ _] Hs Hm Hside Hrisk. split; rewrite ?Hside, ?Hrisk, ?Hm; try done. by right.
Qed.

Lemma trailStop_keeps st :
  position_ok (n5_pos st) → is_trade_side (open_side st) → ps_ManualLevels (n5_pos st) = true → keeps st (trailStop st).
Proof.
  intros Hok Hs Hm. unfold trailStop. cbv zeta. destruct (_ || _); [split; [apply only_pos_refl|split; [apply managed_refl|done]]|].
  match goal with |- context [if ?b then set_pos _ st else _] => destruct b eqn:Hb end;
    [|split; [apply only_pos_refl|split; [apply managed_refl|done]]].
  split; [apply only_pos_set|]. split; [|by apply (position_ok_manual (n5_pos st))].
  split; simpl; auto; [lia|]. bool_prop. destruct Hb as [Hz|Hb]; [left; by bool_prop|right].
  unfold is_side, open_side, tighter in *. destruct (String.eqb _ SidePut); bool_prop; lia.
Qed.

(** ** The exit *)

(** The state after [st'] was closed by [sig]: flat, with the result booked
    against the day. *)
Record closed_by (st : nifty50SRState) (sig : Signal) (st' : nifty50SRState) : Prop := {
  cb_action : sig_Action sig = ActionExit;
  cb_side : sig_Side sig = open_side st;
  cb_price : sig_Price sig = n5_LastClose st;
  cb_state : st' = resetPosition cfg (book st);
}.

Lemma sr_exit_closes exch token reason st0 st :
  only_pos st0 st → ps_Side (n5_pos st) = ps_Side (n5_pos st0) → ps_IndexEntry (n5_pos st) = ps_IndexEntry (n5_pos st0) →
  closed_by st0 (sr_exit cfg qty exch token reason st).1 (sr_exit cfg qty exch token reason st).2.
Proof.
  intros Ho Hs He. destruct st0 as [ctx0 p0 ? ? ? ? ? ? ? ? ? ? ? ? ? ? ? ?], st as [ctx p ? ? ? ? ? ? ? ? ? ? ? ? ? ? ? ?].
  unfold only_pos in Ho. simpl in *. injection Ho. intros. subst. split; simpl; unfold open_side; simpl; auto.
  unfold resetPosition, book, is_side, open_side. simpl. rewrite Hs, He. by repeat case_match.
Qed.

Lemma sr_exit_closes' exch token reason st0 st sig st' :
  keeps st0 st → sr_exit cfg qty exch token reason st = (sig, st') → closed_by st0 sig st'.
Proof.
  intros (Ho & Hm & _) Heq. pose proof (sr_exit_closes exch token reason st0 st Ho (mg_side _ _ Hm) (mg_entry _ _ Hm)) as Hc.
  by rewrite Heq in Hc.
Qed.

Lemma keeps_refl st : position_ok (n5_pos st) → keeps st st.
Proof. intros Hok. split; [apply only_pos_refl|]. split; [apply managed_refl|done]. Qed.

Lemma keeps_trans a b c :
  keeps a b → keeps b c → ps_StopLevel (n5_pos b) = ps_StopLevel (n5_pos a) ∨ ps_ManualLevels (n5_pos a) = false → keeps a c.
Proof.
  intros (H1 & H2 & _) (H1' & H2' & H3) Hs. split; [by eapply only_pos_trans|]. split; [by eapply managed_trans|done].
Qed.

Lemma manage_stop_keeps close gain st :
  position_ok (n5_pos st) → is_trade_side (open_side st) → ps_ManualLevels (n5_pos st) = false →
  keeps st (manage_stop cfg close gain st).
Proof.
  intros Hok Hs Hm. assert (open_side st ≠ SideNone) as Hopen by (by destruct Hs as [-> | ->]).
  unfold manage_stop. cbv zeta. goal_if Hb.
  - bool_prop. set (st1 := set_pos _ st).
    assert (keeps st st1) as Hk1.
    { split; [apply only_pos_set|]. split; [split; simpl; auto; [lia|by right]|].
      keep_ok Hok. }
    destruct (supportStopOn cfg).
    + eapply keeps_trans; [exact Hk1|apply raiseSupportStop_keeps; [apply Hk1|done|done]|by left].
    + split; [apply only_pos_trans with st1; apply only_pos_set|].
      assert (ps_Breakeven (n5_pos st) = false) as Hbe by (by destruct (ps_Breakeven (n5_pos st))).
      destruct (po_stop _ Hok Hopen Hm Hbe) as [_ Hstop]. split.
      * split; simpl; auto; [lia|]. right. unfold tighter, stop_ok in *. destruct (String.eqb _ _); lia.
      * keep_ok Hok.
  - clear Hb. goal_if Hb; [|by apply keeps_refl]. bool_prop. by apply raiseSupportStop_keeps.
Qed.

Lemma stop_hit_keeps close sign st hit st' :
  position_ok (n5_pos st) → is_trade_side (open_side st) → stop_hit cfg close sign st = (hit, st') →
  keeps st st' ∧ ps_StopLevel (n5_pos st') = ps_StopLevel (n5_pos st) ∧
  (hit = false → 0 < (close -! ps_StopLevel (n5_pos st')) *! sign ∨
     ps_SupportLvl (n5_pos st') ≠ 0 ∧ ps_BreakBars (n5_pos st') < nc_SupportStopConfirm cfg).
Proof.
  intros Hok Hs. unfold stop_hit. cbv zeta.
  assert (∀ n, keeps st (set_pos (λ p, p <| ps_BreakBars := n |>) st)) as Hkeep.
  { intros n. split; [apply only_pos_set|]. split; [split; simpl; auto; [lia|by right]|].
    keep_ok Hok. }
  goal_if Hb; [|goal_if Hn]; intros [= <- <-].
  - bool_prop. split; [apply Hkeep|]. split; [done|]. intros Hc. right. simpl. bool_prop. done.
  - bool_prop. split; [apply Hkeep|]. split; [done|]. intros _. left. simpl. lia.
  - split; [by apply keeps_refl|]. by split.
Qed.

(** A position the candle left open: its close is ahead of the stop, or
    still within a support stop's patience, and short of the target. *)
Definition stays_open (close : Z) (st : nifty50SRState) : Prop :=
  let p := n5_pos st in
  let ahead level := (close -! level) *! side_sign st in
  if ps_ManualLevels p then (0 < ps_StopLevel p → 0 < ahead (ps_StopLevel p)) ∧ (0 < ps_TargetLevel p → ahead (ps_TargetLevel p) < 0)
  else (0 < ahead (ps_StopLevel p) ∨ ps_SupportLvl p ≠ 0 ∧ ps_BreakBars p < nc_SupportStopConfirm cfg) ∧
       ahead (ps_TargetLevel p) < 0.

Definition exit_post (candle : TFCandle) (st : nifty50SRState) (x : option Signal) (st' : nifty50SRState) : Prop :=
  match x with
  | Some sig => closed_by st sig st' ∧ sig_Exchange sig = tfc_Exchange candle ∧ sig_Token sig = tfc_Token candle
  | None => keeps st st' ∧ stays_open (tfc_Close candle) st'
  end.

Lemma exit_at_post candle reason st0 st : keeps st0 st →
  exit_post candle st0 (exit_at cfg qty candle reason st).1 (exit_at cfg qty candle reason st).2.
Proof.
  intros Hk. unfold exit_at. destruct (sr_exit cfg qty _ _ reason st) as [sig st'] eqn:He. simpl. split.
  - by eapply sr_exit_closes'.
  - unfold sr_exit in He. by injection He as <- <-.
Qed.

Lemma keeps_side a b : keeps a b → side_sign b = side_sign a.
Proof. intros (_ & Hm & _). unfold side_sign, is_side, open_side. by rewrite (mg_side _ _ Hm). Qed.

Lemma manualExit_post candle st0 st :
  keeps st0 st → ps_StopLevel (n5_pos st) = ps_StopLevel (n5_pos st0) → is_trade_side (open_side st0) →
  ps_ManualLevels (n5_pos st) = true →
  let r := manualExit cfg qty candle (tfc_Close candle) (side_sign st) st in exit_post candle st0 r.1 r.2.
Proof.
  intros Hk Hstop Hs Hm. cbv zeta. unfold manualExit. cbv zeta.
  assert (is_trade_side (open_side st)) as Hs' by (destruct Hk as (_ & Hmg & _); unfold open_side in *; by rewrite (mg_side _ _ Hmg)).
  set (st1 := if _ || _ then trailStop st else st).
  assert (keeps st st1) as Hk1.
  { subst st1. destruct (_ || _); [apply trailStop_keeps|apply keeps_refl]; try done; by destruct Hk as (_ & _ & ?). }
  assert (keeps st0 st1) as Hk2 by (eapply keeps_trans; [exact Hk|exact Hk1|by left]). clearbody st1.
  goal_if Hb1; [by apply exit_at_post|]. goal_if Hb2; [by apply exit_at_post|].
  simpl fst. simpl snd. split; [done|]. unfold stays_open. cbv zeta. rewrite (keeps_side _ _ Hk1).
  assert (ps_ManualLevels (n5_pos st1) = true) as -> by (destruct Hk1 as (_ & Hmg & _); by rewrite (mg_manual _ _ Hmg)).
  simpl. split; intros Hpos; bool_prop; destruct_or?; bool_prop; lia.
Qed.

Lemma evaluateExit_post candle st :
  position_ok (n5_pos st) → is_trade_side (open_side st) →
  exit_post candle st (evaluateExit cfg qty candle st).1 (evaluateExit cfg qty candle st).2.
Proof.
  intros Hok Hs. unfold evaluateExit.
  assert (is_side SideNone st = false) as -> by (unfold is_side; by destruct Hs as [-> | ->]). cbv zeta.
  set (gain := (tfc_Close candle -! ps_IndexEntry (n5_pos st)) *! side_sign st).
  set (st1 := if _ <? _ then set_pos _ st else st).
  assert (keeps st st1 ∧ ps_StopLevel (n5_pos st1) = ps_StopLevel (n5_pos st)) as [Hk1 Hstop1].
  { subst st1. destruct (Z.ltb_spec (ps_MaxGain (n5_pos st)) gain);
      [|split; [by apply keeps_refl|done]]. split; [|done].
    split; [apply only_pos_set|]. split; [split; simpl; auto; [lia|by right]|]. keep_ok Hok. }
  clearbody gain. rewrite <-(keeps_side _ _ Hk1). clearbody st1.
  pose proof (mg_side _ _ (proj1 (proj2 Hk1))) as Hside1.
  destruct (ps_ManualLevels (n5_pos st1)) eqn:Hm; [by apply manualExit_post|].
  assert (ps_ManualLevels (n5_pos st) = false) as Hm0 by (rewrite <-(mg_manual _ _ (proj1 (proj2 Hk1))); done).
  assert (is_trade_side (open_side st1)) as Hs1 by (unfold open_side in *; by rewrite Hside1).
  pose proof (manage_stop_keeps (tfc_Close candle) gain st1 (proj2 (proj2 Hk1)) Hs1 Hm) as Hk2.
  set (st2 := manage_stop cfg (tfc_Close candle) gain st1) in *. clearbody st2.
  assert (keeps st st2) as Hk02 by (eapply keeps_trans; [exact Hk1|exact Hk2|by left]).
  assert (is_trade_side (open_side st2)) as Hs2.
  { unfold open_side in *. by rewrite (mg_side _ _ (proj1 (proj2 Hk02))). }
  destruct (stop_hit cfg (tfc_Close candle) (side_sign st1) st2) as [hit st3] eqn:Hhit.
  apply stop_hit_keeps in Hhit as (Hk3 & Hstop3 & Hopen); [|apply Hk02|done].
  assert (keeps st st3) as Hk03 by (eapply keeps_trans; [exact Hk02|exact Hk3|by right]).
  destruct hit; [by apply exit_at_post|]. goal_if Ht; [by apply exit_at_post|].
  goal_if Hnp; [by apply exit_at_post|]. simpl fst. simpl snd. split; [done|]. unfold stays_open. cbv zeta.
  rewrite (mg_manual _ _ (proj1 (proj2 Hk03))), Hm0. bool_prop.
  rewrite (keeps_side _ _ Hk3), (keeps_side _ _ Hk2). split; [auto|lia].
Qed.
End exit.
