(* ===== verification/Nifty50SrTrading.v ===== *)
(** What a candle does to an instrument of the SR strategy: it keeps the
    state well formed and never panics, opens within the day's limits, and
    keeps or closes an open position. *)
From S2P Require Import Prelude Float64 GoText Model MarketHours Indicators RangeContext SrContext Nifty50SrState Nifty50Sr Nifty50SrEntry Nifty50SrExit.
#[local] Open Scope Z_scope.
#[local] Open Scope go_scope.

Record strat_cfg_ok (cfg : Nifty50SRConfig) : Prop := {
  sc_Context_ok : sr_cfg_ok (nc_Context cfg);
  sc_StrikeStep_ok : 0 < nc_StrikeStep cfg <= 2 ^ 31;
  sc_MaxTrades_ok : nc_MaxTradesPerDay cfg <= 2 ^ 31;
}.

Lemma default_strat_cfg_ok : strat_cfg_ok DefaultNifty50SRConfig.
Proof. split; [exact default_sr_cfg_ok|simpl; lia..]. Qed.

(** An instrument's state. *)
Record state_ok (cfg : Nifty50SRConfig) (st : nifty50SRState) : Prop := {
  so_ctx : context_ok (nc_Context cfg) (n5_ctx st);
  so_pos : position_ok (n5_pos st);
  so_pend : pend_ok st;
  so_trades : 0 <= n5_TradesToday st <= Z.max 0 (nc_MaxTradesPerDay cfg);
}.

Section candle.
Context (cfg : Nifty50SRConfig) (qty : Z) (Hcfg : strat_cfg_ok cfg).

Lemma newNifty50SRState_ok : ∃ st, newNifty50SRState cfg = Some st ∧ state_ok cfg st.
Proof.
  unfold newNifty50SRState. destruct (newSRContext_ok _ (sc_Context_ok _ Hcfg)) as (sc & -> & Hsc). simpl. eexists. split; [done|].
  split; simpl; [done|apply flat_position_ok|by left|lia].
Qed.

(** ** One candle *)

(** What evaluating a candle on [st] may give. *)
Inductive candle_effect (candle : TFCandle) (closeMin : Z) (st : nifty50SRState) : option Signal → nifty50SRState → Prop :=
  | effect_flat st' : open_side st = SideNone → same_core st st' → pend_ok st' → candle_effect candle closeMin st None st'
  | effect_advice sig st' :
      open_side st = SideNone → sig_Action sig = ActionWatchBuy → is_trade_side (sig_Side sig) → same_core st st' → pend_ok st' →
      candle_effect candle closeMin st (Some sig) st'
  | effect_entry sig st' :
      open_side st = SideNone → closeMin < nc_TimeExitMin cfg → entered cfg candle closeMin st sig st' → pend_ok st' →
      candle_effect candle closeMin st (Some sig) st'
  | effect_hold st1 st' :
      is_trade_side (open_side st) → closeMin < nc_TimeExitMin cfg → keeps st st1 → stays_open cfg (tfc_Close candle) st1 →
      same_core st1 st' → pend_ok st' → candle_effect candle closeMin st None st'
  | effect_exit sig st' : is_trade_side (open_side st) → closed_by cfg st sig st' → candle_effect candle closeMin st (Some sig) st'.

(** The signals of a candle name its instrument. *)
Definition of_candle (candle : TFCandle) (x : option Signal) : Prop :=
  match x with None => True | Some sig => sig_Exchange sig = tfc_Exchange candle ∧ sig_Token sig = tfc_Token candle end.

Lemma is_side_none st : position_ok (n5_pos st) → is_side SideNone st = false → is_trade_side (open_side st).
Proof. intros Hok Hs. apply open_cases; [done|]. intros Heq. unfold is_side in Hs. by rewrite Heq in Hs. Qed.

Lemma is_side_none_eq st : is_side SideNone st = true → open_side st = SideNone.
Proof. apply String.eqb_eq. Qed.

Lemma only_pos_pend st st' : only_pos st st' → pend_ok st → pend_ok st'.
Proof. intros ->. done. Qed.

Lemma evaluate_candle_effect candle closeMin st tally :
  state_ok cfg st →
  wp (evaluate_candle cfg qty candle closeMin)
    (λ x w, candle_effect candle closeMin st x (wk_st w) ∧ of_candle candle x) {| wk_st := st; wk_tally := tally |}.
Proof.
  intros [Hctx Hpos Hpend Htr]. unfold evaluate_candle. apply wp_bind, wp_getSt. simpl wk_st.
  destruct (nc_TimeExitMin cfg <=? closeMin) eqn:Htime.
  { destruct (is_side SideNone st) eqn:Hside; simpl negb; cbv iota.
    - split; [|done]. apply effect_flat; [by apply is_side_none_eq|reflexivity|done].
    - apply is_side_none in Hside; [|done]. unfold liftSt, wp. simpl wk_st.
      match goal with |- context [exit_at cfg qty candle ?r st] =>
        pose proof (exit_at_post cfg qty candle r st st (keeps_refl st Hpos)) as Hex; destruct (exit_at cfg qty candle r st) as [x st'] eqn:He end.
      simpl in *. unfold exit_at in He. destruct (sr_exit _ _ _ _ _ _) as [sig st'']. injection He as <- <-.
      destruct Hex as (Hc & H1 & H2). split; [by apply effect_exit|done]. }
  bool_prop. apply wp_bind. unfold wp at 1, liftSt. simpl wk_st.
  destruct (is_side SideNone st) eqn:Hside.
  - assert (evaluateExit cfg qty candle st = (None, st)) as -> by (unfold evaluateExit; by rewrite Hside).
    apply is_side_none_eq in Hside as Hside'. apply wp_bind, wp_getSt. simpl wk_st.
    destruct (entryBarClosed cfg st); simpl negb; cbv iota; [|split; [by apply effect_flat|done]].
    rewrite Hside. simpl negb. cbv iota.
    eapply wp_mono; [apply (wp_evaluate_entry cfg qty candle closeMin (sc_StrikeStep_ok _ Hcfg) st); by split|].
    intros [sig|] w [Hp Hx]; [|split; [by apply effect_flat|done]]. destruct Hx as (He & Ht & Hx). split; [|done].
    destruct Hx as [(Ha & Hs & Hc)|Hx]; [by apply effect_advice|by apply effect_entry].
  - apply is_side_none in Hside as Hs; [|done]. pose proof (evaluateExit_post cfg qty candle st Hpos Hs) as Hpost.
    destruct (evaluateExit cfg qty candle st) as [[sig|] st1]; simpl in Hpost.
    + destruct Hpost as (Hc & H1 & H2). split; [by apply effect_exit|done].
    + destruct Hpost as [Hk Hopen]. apply wp_bind, wp_getSt. simpl wk_st. destruct Hk as (Ho & Hm & Hok).
      assert (is_side SideNone st1 = false) as Hs1 by (unfold is_side, open_side in *; by rewrite (mg_side _ _ Hm)).
      pose proof (only_pos_pend _ _ Ho Hpend) as Hp1.
      destruct (entryBarClosed cfg st1); simpl negb; cbv iota; [|split; [by eapply (effect_hold _ _ _ st1)|done]].
      rewrite Hs1. simpl negb. cbv iota. split; [|done]. eapply (effect_hold _ _ _ st1); try done; solve [by left | by split].
Qed.

(** An entry is within every limit of the day. *)
Record within_limits (st : nifty50SRState) (closeMin : Z) : Prop := {
  wl_window : nc_EntryFromMin cfg <= closeMin < nc_EntryToMin cfg;
  wl_trades : n5_TradesToday st < nc_MaxTradesPerDay cfg;
  wl_losses : 0 < nc_MaxConsecLosses cfg → n5_ConsecLosses st < nc_MaxConsecLosses cfg;
  wl_day_loss : 0 < nc_MaxDayLossPts cfg → -! nc_MaxDayLossPts cfg < n5_DayPnLPts st;
  wl_cooldown : n5_CooldownLeft st <= 0;
}.

Lemma entryBlock_limits st closeMin : entryBlock cfg st closeMin = "" → within_limits st closeMin.
Proof.
  unfold entryBlock. intros H. repeat (case_match; [done|]). clear H. bool_prop.
  split; try lia; intros; destruct_or?; bool_prop; lia.
Qed.

Lemma entered_state_ok candle closeMin st sig st' :
  state_ok cfg st → entered cfg candle closeMin st sig st' → pend_ok st' → state_ok cfg st'.
Proof.
  intros [Hctx Hpos Hpend Htr] [] Hp. apply entryBlock_limits in en_limits as Hlim. pose proof (wl_trades _ _ Hlim).
  pose proof (sc_MaxTrades_ok _ Hcfg). destruct en_fresh as (Hbe & Hsup & Hman). split; [by rewrite en_ctx| |done|].
  - split; rewrite ?en_pos_side, ?en_entry; auto.
  - rewrite en_trades, i64_id by (i64_unfold; lia). lia.
Qed.

Lemma same_core_state_ok st st' : state_ok cfg st → same_core st st' → pend_ok st' → state_ok cfg st'.
Proof. intros [] [] Hp. split; [by rewrite sm_ctx|by rewrite sm_pos|done|by rewrite sm_TradesToday]. Qed.

Lemma keeps_state_ok st st' : state_ok cfg st → keeps st st' → state_ok cfg st'.
Proof. intros [] (-> & _ & Hok). by split. Qed.

Lemma reset_book_state_ok st : state_ok cfg st → state_ok cfg (resetPosition cfg (book st)).
Proof.
  intros []. unfold book. cbv zeta. case_match; split; simpl; try done; apply flat_position_ok.
Qed.

Lemma candle_effect_state_ok candle closeMin st x st' :
  state_ok cfg st → candle_effect candle closeMin st x st' → state_ok cfg st'.
Proof.
  intros Hok [st1 Hs Hc Hp|sig st1 Hs Ha Ht Hc Hp|sig st1 Hs Ht He Hp|st1 st2 Hs Ht Hk Ho Hc Hp|sig st1 Hs Hc].
  - by eapply same_core_state_ok.
  - by eapply same_core_state_ok.
  - by eapply entered_state_ok.
  - eapply same_core_state_ok; [by eapply keeps_state_ok|done..].
  - rewrite (cb_state _ _ _ _ Hc). by apply reset_book_state_ok.
Qed.

(** What the day's limits are judged by: trades, losses in a row, the result in
    points, and the cooldown. *)
Record day_account := { da_trades : Z; da_losses : Z; da_points : Z; da_cooldown : Z }.
Definition account (st : nifty50SRState) : day_account := {|
  da_trades := n5_TradesToday st; da_losses := n5_ConsecLosses st; da_points := n5_DayPnLPts st; da_cooldown := n5_CooldownLeft st |}.

(** The account a candle begins with: the one before it, or an empty one on a
    new day, with a candle less of the cooldown. *)
Definition at_candle (candle : TFCandle) (st : nifty50SRState) : day_account :=
  let a := account st in
  let cooldown := if 0 <? da_cooldown a then da_cooldown a -! 1 else da_cooldown a in
  if bool_decide (n5_TradeDay st = Some (ist_day (tfc_TS candle)))
  then {| da_trades := da_trades a; da_losses := da_losses a; da_points := da_points a; da_cooldown := cooldown |}
  else {| da_trades := 0; da_losses := 0; da_points := 0; da_cooldown := cooldown |}.

(** Taking in a candle: the position stays, the day rolls over. *)
Record taken (candle : TFCandle) (st st' : nifty50SRState) : Prop := {
  tk_ok : state_ok cfg st';
  tk_pos : n5_pos st' = n5_pos st;
  tk_close : n5_LastClose st' = tfc_Close candle;
  tk_ts : n5_LastCloseTS st' = tfc_TS candle;
  tk_day : n5_TradeDay st' = Some (ist_day (tfc_TS candle));
  tk_account : account st' = at_candle candle st;
}.

Lemma take_candle_ok candle st : state_ok cfg st → ∃ st', take_candle candle st = Some st' ∧ taken candle st st'.
Proof.
  intros []. unfold take_candle. cbv zeta. simpl n5_ctx.
  destruct (sr_update_ok _ (sc_Context_ok _ Hcfg) (tfc_TS candle) (barOf candle) _ so_ctx0) as (fed & ctx & -> & Hctx).
  cbn [mbind option_bind]. eexists. split; [reflexivity|]. unfold sr_new_day. case_bool_decide as Hd.
  - split; simpl; try done. simpl in Hd. by unfold account, at_candle; cbn; rewrite bool_decide_eq_true_2.
  - simpl in Hd. split; simpl; try done; [|by unfold account, at_candle; cbn; rewrite bool_decide_eq_false_2].
    split; simpl; [done|done|by left|lia].
Qed.

Lemma note_sweep_ok candle levels st0 st : taken candle st0 st → taken candle st0 (note_sweep cfg candle levels st).2.
Proof.
  intros Ht. unfold note_sweep. case_match; [|done]. unfold recordSweep. case_match; [|done]. case_match; simplify_eq.
  destruct Ht as [[] ? ? ? ? ?]. by split; [split|..].
Qed.

(** A candle of an instrument is a repeat, out of the session, or
    evaluated. *)
Inductive instrument_effect (candle : TFCandle) (st : nifty50SRState) : option Signal → nifty50SRState → Prop :=
  | repeated : tfc_TS candle <= n5_LastCloseTS st → instrument_effect candle st None st
  | outside st' : ¬ sessionOpenMin < minutesIST (tfc_TS candle) + 1 <= 930 → taken candle st st' → instrument_effect candle st None st'
  | evaluated st1 x st' : sessionOpenMin < minutesIST (tfc_TS candle) + 1 <= 930 → taken candle st st1 →
      candle_effect candle (minutesIST (tfc_TS candle) + 1) st1 x st' → instrument_effect candle st x st'.

Lemma instrument_candle_ok candle st tally :
  state_ok cfg st → ∃ x sweep w, instrument_candle cfg qty candle st tally = Some (x, sweep, w) ∧
    instrument_effect candle st x (wk_st w) ∧ of_candle candle x ∧ state_ok cfg (wk_st w).
Proof.
  intros Hok. unfold instrument_candle. case_match eqn:Hdup.
  { eexists _, _, _. split; [done|]. split; [|done]. apply repeated. unfold t_after in Hdup. bool_prop. done. }
  clear Hdup. cbv zeta. destruct (take_candle_ok candle st Hok) as (st1 & -> & Htk). cbn [mbind option_bind].
  assert (minutesIST (tfc_TS candle) +! 1 = minutesIST (tfc_TS candle) + 1) as ->.
  { pose proof (Z.mod_pos_bound (tfc_TS candle + ist_offset) day_ns ltac:(done)) as Hm. apply i64_id.
    unfold minutesIST, minute_of_day, ist_of_day. change day_ns with (1440 * Minute) in *.
    assert (0 <= (tfc_TS candle + ist_offset) mod (1440 * Minute) / Minute < 1440); [|i64_unfold; lia].
    split; [apply Z.div_pos; [lia|done]|apply Z.div_lt_upper_bound; [done|lia]]. }
  change (hhmm 15 30) with 930. destruct (_ || _) eqn:Hout.
  { eexists _, _, _. split; [done|]. split; [|split; [done|apply Htk]]. apply (outside _ _ st1); [|done]. destruct_or?; bool_prop; lia. }
  pose proof (note_sweep_ok candle (pre_levels cfg (tfc_TS candle) st) st st1 Htk) as Htk'.
  destruct (note_sweep cfg candle _ st1) as [sweep st2]. simpl in Htk'.
  pose proof (evaluate_candle_effect candle (minutesIST (tfc_TS candle) + 1) st2 (tally_day (tfc_TS candle) tally) (tk_ok _ _ _ Htk'))
    as Hwp. apply wp_some in Hwp as (x & w & -> & Heff & Hof). cbn [mbind option_bind]. eexists _, _, _. split; [done|].
  split; [|split; [done|by eapply candle_effect_state_ok, Heff; apply Htk']].
  apply (evaluated _ _ st2); [bool_prop; lia|done|done].
Qed.
End candle.
