(* ===== verification/Nifty50SrRuns.v ===== *)
(** Runs of the SR strategy: any sequence of candles, ticks, requests and
    restarts. *)
From S2P Require Import Prelude Float64 GoText Model MarketHours Indicators RangeContext SrContext Nifty50SrState Nifty50Sr Nifty50SrEntry Nifty50SrExit Nifty50SrTrading.
#[local] Open Scope Z_scope.
#[local] Open Scope go_scope.

(** ** Operations *)

Inductive sr_op :=
  | OpCandle (candle : TFCandle) | OpWarmup (candles : list TFCandle) | OpTick (tick : Tick)
  | OpExitRequested (side : PositionSide) (fnoToken reason : string) | OpForceExit (today : option Z) (reason : string)
  | OpCancelEntry (side : PositionSide) | OpResetPositions
  | OpSetFNOEntryPrice (price : Z) | OpSetPositionToken (token : string) | OpSetFNOTokens (call put : string)
  | OpSetVolumeToken (token : string) | OpSetExpiry (expiry : Time)
  | OpSetLevels (side : PositionSide) (fnoToken : string) (e : LevelEdit)
  | OpRestart.

Section runs.
Context `{MO : MapOrder}.

(** The signals of an operation and the strategy after it; a restart
    restores the strategy's snapshot into a new one. *)
Definition sr_step (op : sr_op) (s : Nifty50SR) : option (list Signal * Nifty50SR) :=
  match op with
  | OpCandle c => '(x, s) ← OnTFCandle c s; Some (option_list x, s)
  | OpWarmup cs => '(_, s) ← Warmup cs s; Some ([], s)
  | OpTick t => let '(x, s) := OnTick t s in Some (option_list x, s)
  | OpExitRequested side tok reason => let '(x, s) := ExitRequested side tok reason s in Some (option_list x, s)
  | OpForceExit today reason => Some (forceExit today reason s)
  | OpCancelEntry side => Some ([], CancelEntry side s)
  | OpResetPositions => Some ([], ResetPositions s)
  | OpSetFNOEntryPrice p => Some ([], SetFNOEntryPrice p s)
  | OpSetPositionToken t => Some ([], SetPositionToken t s)
  | OpSetFNOTokens c p => Some ([], SetFNOTokens c p s)
  | OpSetVolumeToken t => Some ([], SetVolumeToken t s)
  | OpSetExpiry e => Some ([], SetExpiry e s)
  | OpSetLevels side tok e => Some ([], (SetLevels side tok e s).2)
  | OpRestart => '(_, s) ← sr_Restore (Some (sr_Snapshot s)) (NewNifty50SR (sr_qty s) (sr_cfg s)); Some ([], s)
  end.

(** A run logs each operation with its signals. *)
Fixpoint sr_run (ops : list sr_op) (s : Nifty50SR) : option (list (sr_op * list Signal) * Nifty50SR) :=
  match ops with
  | [] => Some ([], s)
  | op :: ops => '(sigs, s) ← sr_step op s; '(log, s) ← sr_run ops s; Some ((op, sigs) :: log, s)
  end.
End runs.

(** ** What the signals must say *)

Definition position_side (s : Nifty50SR) (k : string) : PositionSide :=
  match sr_instruments s !! k with Some st => open_side st | None => SideNone end.

Definition signal_key (sig : Signal) : string := instrument_key (sig_Exchange sig) (sig_Token sig).

Definition is_call_or_put (d : PositionSide) : bool := String.eqb d SideCall || String.eqb d SidePut.

(** The side held after a signal: entries and advice come only when flat,
    exits only for the side held. *)
Definition trade_signal (held : PositionSide) (sig : Signal) : option PositionSide :=
  if String.eqb (sig_Action sig) ActionBuy then
    if String.eqb held SideNone && is_call_or_put (sig_Side sig) then Some (sig_Side sig) else None
  else if String.eqb (sig_Action sig) ActionWatchBuy then
    if String.eqb held SideNone && is_call_or_put (sig_Side sig) then Some held else None
  else if String.eqb (sig_Action sig) ActionExit then
    if is_call_or_put held && String.eqb (sig_Side sig) held then Some SideNone else None
  else None.

(** ... after the signals of an instrument. *)
Definition trade_signals (k : string) (held : PositionSide) (sigs : list Signal) : option PositionSide :=
  foldl (λ held sig, held ← held; trade_signal held sig) (Some held) (filter (λ sig, signal_key sig = k) sigs).

(** The side held after an operation with its signals for an instrument: a
    cancelled entry and a reset end the position without one. *)
Definition trade_op (k : string) (held : PositionSide) (entry : sr_op * list Signal) : option PositionSide :=
  let held :=
    match entry.1 with
    | OpCancelEntry d => if String.eqb held d then SideNone else held
    | OpResetPositions => SideNone
    | _ => held
    end in
  trade_signals k held entry.2.

Definition trade_log (k : string) (log : list (sr_op * list Signal)) : option PositionSide :=
  foldl (λ held entry, held ← held; trade_op k held entry) (Some SideNone) log.

(** Requests name a side. *)
Definition op_ok (op : sr_op) : Prop := match op with OpExitRequested side _ _ => side ≠ SideNone | _ => True end.

(** ** Keys *)

Definition keyed (k : string) : Prop := instrument_key (splitKey k).1 (splitKey k).2 = k.

Lemma instrument_key_keyed exch token : keyed (instrument_key exch token).
Proof.
  unfold keyed, splitKey, instrument_key. change (":" +:+ token) with (String ":" token).
  assert (∃ a b, cut_at ":" (exch +:+ String ":" token) = (a, b, true)) as (a & b & Hc).
  { induction exch as [|c exch (a & b & IH)]; [by eexists _, _|]. simpl. destruct (Ascii.eqb c ":"); [by eexists _, _|].
    change (exch +:+ String ":" token) with (String.append exch (String ":" token)) in *. rewrite IH. by eexists _, _. }
  rewrite Hc. simpl. apply cut_at_join in Hc. by rewrite Hc.
Qed.

Record strat_ok (s : Nifty50SR) : Prop := {
  sk_cfg : strat_cfg_ok (sr_cfg s);
  sk_instruments : ∀ k st, sr_instruments s !! k = Some st → state_ok (sr_cfg s) st ∧ keyed k;
}.

(** ** One instrument's step *)

(** [x] takes an instrument from holding [held] to [held']. *)
Definition traded (held : PositionSide) (x : option Signal) (held' : PositionSide) : Prop :=
  match x with None => held' = held | Some sig => trade_signal held sig = Some held' end.

Definition of_key (k : string) (x : option Signal) : Prop := match x with None => True | Some sig => signal_key sig = k end.

(** The signals take every instrument from the side it held to the one it
    holds. *)
Definition follows (s : Nifty50SR) (sigs : list Signal) (s' : Nifty50SR) : Prop :=
  ∀ k, trade_signals k (position_side s k) sigs = Some (position_side s' k).

Lemma follows_app s s1 s2 sigs1 sigs2 : follows s sigs1 s1 → follows s1 sigs2 s2 → follows s (sigs1 ++ sigs2) s2.
Proof. intros H1 H2 k. specialize (H1 k). specialize (H2 k). unfold trade_signals in *. by rewrite filter_app, foldl_app, H1. Qed.

Lemma follows_none s s' : (∀ k, position_side s' k = position_side s k) → follows s [] s'.
Proof. intros Hs k. by rewrite Hs. Qed.

Lemma position_side_insert s s' k0 st' k :
  sr_instruments s' = <[k0 := st']> (sr_instruments s) →
  position_side s' k = if decide (k0 = k) then open_side st' else position_side s k.
Proof.
  intros Hs'. unfold position_side at 1. rewrite Hs'. case_decide; subst; [by rewrite lookup_insert_eq|by rewrite lookup_insert_ne].
Qed.

(** One instrument changes and signals at most once. *)
Lemma follows_one s s' k0 x st' :
  sr_instruments s' = <[k0 := st']> (sr_instruments s) → of_key k0 x → traded (position_side s k0) x (open_side st') →
  follows s (option_list x) s'.
Proof.
  intros Hs' Hof Htr k. rewrite (position_side_insert s s' k0 st' k Hs'). unfold trade_signals.
  destruct x as [sig|]; simpl in *.
  - rewrite filter_cons, filter_nil. case_decide as Hk; case_decide as Hk'; simpl; subst; congruence.
  - case_decide; subst; congruence.
Qed.

Lemma is_call_or_put_spec d : is_trade_side d → is_call_or_put d = true.
Proof. by intros [-> | ->]. Qed.

Lemma trade_side_not_none d : is_trade_side d → d ≠ SideNone.
Proof. by intros [-> | ->]. Qed.

Lemma instrument_effect_traded cfg candle st x st' :
  state_ok cfg st → instrument_effect cfg candle st x st' → traded (open_side st) x (open_side st').
Proof.
  intros Hok [|st1 Hout Htk|st1 y st2 Hin Htk Heff]; [done|unfold open_side; by rewrite (tk_pos _ _ _ _ Htk)|].
  assert (open_side st1 = open_side st) as <- by (unfold open_side; by rewrite (tk_pos _ _ _ _ Htk)).
  destruct Heff as [st3 Hs Hc Hp|sig st3 Hs Ha Ht Hc Hp|sig st3 Hs Ht He Hp|st3 st4 Hs Ht Hk Ho Hc Hp|sig st3 Hs Hc]; simpl.
  - unfold open_side. by rewrite (sm_pos _ _ Hc).
  - unfold trade_signal. rewrite Ha, Hs, (is_call_or_put_spec _ Ht). simpl. unfold open_side in *. by rewrite (sm_pos _ _ Hc), Hs.
  - unfold trade_signal. rewrite (en_action _ _ _ _ _ _ He), Hs, (is_call_or_put_spec _ (en_side _ _ _ _ _ _ He)). simpl.
    unfold open_side. by rewrite (en_pos_side _ _ _ _ _ _ He).
  - destruct Hk as (_ & Hm & _). unfold open_side. by rewrite (sm_pos _ _ Hc), (mg_side _ _ Hm).
  - unfold trade_signal. rewrite (cb_action _ _ _ _ Hc), (cb_side _ _ _ _ Hc), (is_call_or_put_spec _ Hs). simpl.
    rewrite String.eqb_refl. by rewrite (cb_state _ _ _ _ Hc).
Qed.

Lemma exit_unpriced_ok cfg qty key reason st sig st' :
  state_ok cfg st → keyed key → is_trade_side (open_side st) → exit_unpriced cfg qty key reason st = (sig, st') →
  state_ok cfg st' ∧ signal_key sig = key ∧ traded (open_side st) (Some sig) (open_side st') ∧ st' = resetPosition cfg (book st).
Proof.
  intros Hok Hk Hs. unfold exit_unpriced, keyed in *. destruct (splitKey key) as [exch token]. unfold sr_exit.
  intros [= <- <-]. split; [by apply reset_book_state_ok|]. split; [done|]. split; [|done].
  simpl. unfold trade_signal. simpl. by rewrite (is_call_or_put_spec _ Hs), String.eqb_refl.
Qed.

(** ** The strategy's step *)

Record step_to (s : Nifty50SR) (sigs : list Signal) (s' : Nifty50SR) : Prop := {
  st_ok : strat_ok s';
  st_follows : follows s sigs s';
  st_cfg : sr_cfg s' = sr_cfg s;
}.

Lemma step_refl s : strat_ok s → step_to s [] s.
Proof. intros Hs. split; [done| |done]. by apply follows_none. Qed.

Lemma step_app s s1 s2 sigs1 sigs2 : step_to s sigs1 s1 → step_to s1 sigs2 s2 → step_to s (sigs1 ++ sigs2) s2.
Proof. intros [] []. split; [done|by eapply follows_app|congruence]. Qed.

Lemma strat_ok_insert s s' k st' :
  strat_ok s → sr_cfg s' = sr_cfg s → sr_instruments s' = <[k := st']> (sr_instruments s) → state_ok (sr_cfg s) st' → keyed k →
  strat_ok s'.
Proof.
  intros [Hc Hi] Hcfg Hs' Hst Hk. split; rewrite Hcfg; [done|]. rewrite Hs'. intros k' st'' [[<- <-]|[??]]%lookup_insert_Some; auto.
Qed.

(** One instrument, held on a side by the map or new, steps to [st']. *)
Lemma step_one s s' k held x st' :
  strat_ok s → sr_cfg s' = sr_cfg s → sr_instruments s' = <[k := st']> (sr_instruments s) → state_ok (sr_cfg s) st' → keyed k →
  position_side s k = held → of_key k x → traded held x (open_side st') → step_to s (option_list x) s'.
Proof.
  intros Hs Hcfg Hs' Hst Hk <- Hof Htr. split; [by eapply strat_ok_insert|by eapply follows_one|done].
Qed.

(** Every instrument is changed alike, its side kept. *)
Lemma strat_ok_map f s s' :
  strat_ok s → strat_cfg_ok (sr_cfg s') → sr_instruments s' = f <$> sr_instruments s →
  (∀ st, state_ok (sr_cfg s) st → state_ok (sr_cfg s') (f st)) → strat_ok s'.
Proof.
  intros [Hc Hi] Hc' Hs' Hf. split; [done|]. rewrite Hs'. intros k st' (st & <- & Hst)%lookup_fmap_Some. naive_solver.
Qed.

Lemma position_side_map f s s' k :
  sr_instruments s' = f <$> sr_instruments s → position_side s' k = match sr_instruments s !! k with Some st => open_side (f st) | None => SideNone end.
Proof. intros Hs'. unfold position_side. rewrite Hs', lookup_fmap. by destruct (_ !! _). Qed.

Lemma follows_map f s s' :
  strat_ok s → sr_instruments s' = f <$> sr_instruments s →
  (∀ st, state_ok (sr_cfg s) st → open_side (f st) = open_side st) → follows s [] s'.
Proof.
  intros Hs Hs' Hf. apply follows_none. intros k. rewrite (position_side_map f s s' k Hs'). unfold position_side.
  destruct (sr_instruments s !! k) eqn:Hk; [|done]. apply Hf, (sk_instruments _ Hs _ _ Hk).
Qed.

(** *** Candles *)

Lemma getOrCreate_ok key s : strat_ok s →
  ∃ st, getOrCreate key s = Some st ∧ state_ok (sr_cfg s) st ∧ open_side st = position_side s key.
Proof.
  intros Hs. unfold getOrCreate, position_side. destruct (sr_instruments s !! key) as [st|] eqn:Hk.
  - eexists. split; [done|]. split; [apply (sk_instruments _ Hs _ _ Hk)|done].
  - destruct (newNifty50SRState_ok _ (sk_cfg _ Hs)) as (st & Hst & Hok). exists st. split; [done|]. split; [done|].
    unfold newNifty50SRState in Hst. destruct (newSRContext _); [|done]. by injection Hst as <-.
Qed.

Lemma OnTFCandle_ok candle s : strat_ok s → ∃ x s', OnTFCandle candle s = Some (x, s') ∧ step_to s (option_list x) s'.
Proof.
  intros Hs. unfold OnTFCandle. cbv zeta. case_match; [by eexists _, _; split; [done|apply step_refl]|].
  destruct (getOrCreate_ok (TFCandle_Key candle) s Hs) as (st & -> & Hok & Hside). cbn [mbind option_bind].
  destruct (instrument_candle_ok _ (sr_qty s) (sk_cfg _ Hs) candle st (sr_tally s) Hok) as (x & sweep & w & -> & Heff & Hof & Hw).
  cbn [mbind option_bind]. eexists _, _. split; [done|]. eapply (step_one s _ _ _ x); try reflexivity; try done.
  - apply instrument_key_keyed.
  - destruct x as [sig|]; [|done]. destruct Hof as [H1 H2]. unfold of_key, signal_key, TFCandle_Key. by rewrite H1, H2.
  - rewrite <-Hside. by eapply instrument_effect_traded.
Qed.

Lemma state_ok_set_ctx cfg ctx st : state_ok cfg st → context_ok (nc_Context cfg) ctx → state_ok cfg (st <| n5_ctx := ctx |>).
Proof. intros [] ?. by split. Qed.

Lemma Warmup_ok cs s : strat_ok s → ∃ n s', Warmup cs s = Some (n, s') ∧ step_to s [] s'.
Proof.
  intros Hs. unfold Warmup. generalize 0. induction cs as [|c cs IH] using rev_ind; intros n0.
  - eexists _, _. split; [done|]. by apply step_refl.
  - destruct (IH n0) as (n1 & s1 & H1 & Hstep). rewrite foldl_app, H1. simpl.
    destruct (_ || _ || _); [by eexists _, _|]. pose proof (st_ok _ _ _ Hstep) as Hs1.
    destruct (getOrCreate_ok (TFCandle_Key c) s1 Hs1) as (st & -> & Hok & Hside). cbn [mbind option_bind].
    destruct (sr_update_ok _ (sc_Context_ok _ (sk_cfg _ Hs1)) (tfc_TS c) (barOf c) _ (so_ctx _ _ Hok)) as (fed & ctx & -> & Hctx).
    cbn [mbind option_bind]. eexists _, _. split; [done|]. apply (step_app s s1 _ [] []); [done|].
    eapply (step_one s1 _ _ _ None); [done|done|reflexivity| |apply instrument_key_keyed|done|done|].
    + case_match; [|by apply state_ok_set_ctx]. pose proof (state_ok_set_ctx _ _ _ Hok Hctx) as []. by split.
    + simpl. by case_match.
Qed.

(** *** Ticks and requests *)

(** A position with its levels as they were. *)
Record same_levels (p p' : srPosition) : Prop := {
  sl_side : ps_Side p' = ps_Side p; sl_entry : ps_IndexEntry p' = ps_IndexEntry p; sl_stop : ps_StopLevel p' = ps_StopLevel p;
  sl_target : ps_TargetLevel p' = ps_TargetLevel p; sl_risk : ps_Risk p' = ps_Risk p; sl_be : ps_Breakeven p' = ps_Breakeven p;
  sl_support : ps_SupportLvl p' = ps_SupportLvl p; sl_manual : ps_ManualLevels p' = ps_ManualLevels p;
}.

Lemma position_ok_levels p p' : same_levels p p' → position_ok p → is_trade_side (ps_Side p) → position_ok p'.
Proof.
  intros [H1 H2 H3 H4 H5 H6 H7 H8] [] Hs. split; rewrite ?H1, ?H2, ?H3, ?H4, ?H5, ?H6, ?H7, ?H8; auto.
Qed.

Lemma state_ok_set_pos cfg f st : state_ok cfg st → position_ok (f (n5_pos st)) → state_ok cfg (set_pos f st).
Proof. intros [] ?. by split. Qed.

(** Changing an open position's option prices and token. *)
Lemma state_ok_set_fno cfg f st :
  state_ok cfg st → is_trade_side (open_side st) → same_levels (n5_pos st) (f (n5_pos st)) →
  state_ok cfg (set_pos f st) ∧ open_side (set_pos f st) = open_side st.
Proof.
  intros Hok Hs Hl. split; [|apply (sl_side _ _ Hl)]. apply state_ok_set_pos; [done|].
  eapply position_ok_levels; [done|apply (so_pos _ _ Hok)|done].
Qed.

Lemma if_open_ok cfg f st :
  state_ok cfg st → (∀ p, same_levels p (f p)) →
  let st' := if is_side SideNone st then st else set_pos f st in state_ok cfg st' ∧ open_side st' = open_side st.
Proof.
  intros Hok Hf. cbv zeta. destruct (is_side SideNone st) eqn:Hs; [done|].
  apply state_ok_set_fno; [done|apply is_side_none; [apply Hok|done]|apply Hf].
Qed.

(** An exit without a price, of a key's instrument. *)
Lemma step_exit_unpriced s key reason st sig st' :
  strat_ok s → sr_instruments s !! key = Some st → is_trade_side (open_side st) →
  exit_unpriced (sr_cfg s) (sr_qty s) key reason st = (sig, st') → step_to s [sig] (put_instrument key st' s).
Proof.
  intros Hs Hk Hside He. destruct (sk_instruments _ Hs _ _ Hk) as [Hok Hkey].
  apply exit_unpriced_ok in He as (Hok' & Hsig & Htr & _); [|done..].
  apply (step_one s _ key (open_side st) (Some sig) st'); try done. unfold position_side. by rewrite Hk.
Qed.

Section requests.
Context `{MO : MapOrder}.

Lemma find_instrument_spec P s key st : find_instrument P s = Some (key, st) → sr_instruments s !! key = Some st ∧ P st = true.
Proof.
  unfold find_instrument. intros Hh. apply head_Some_elem_of, list_elem_of_filter in Hh as [HP Hin].
  by apply elem_of_range in Hin.
Qed.

(** Premiums of the instrument a tick is for. *)
Lemma checkPremium_ok s key price st x st' :
  strat_ok s → sr_instruments s !! key = Some st → is_trade_side (open_side st) →
  checkPremium (sr_cfg s) (sr_qty s) key price st = (x, st') → step_to s (option_list x) (put_instrument key st' s).
Proof.
  intros Hs Hk Hside. destruct (sk_instruments _ Hs _ _ Hk) as [Hok Hkey].
  assert (position_side s key = open_side st) as Hps by (unfold position_side; by rewrite Hk).
  unfold checkPremium. case_match; [intros [= <- <-]; by apply (step_one s _ key (open_side st) None st)|].
  set (f := λ p : srPosition, _ <| ps_FNOLastPrice := price |>).
  destruct (state_ok_set_fno (sr_cfg s) f st) as [Hok' Hside']; [done|done|by split|].
  case_match; [|intros [= <- <-]; by apply (step_one s _ key (open_side st) None (set_pos f st))].
  destruct (exit_unpriced _ _ _ _ _) as [sig st1] eqn:He. intros [= <- <-].
  apply exit_unpriced_ok in He as (Hok1 & Hsig & Htr & _); [|done|done|by rewrite Hside'].
  by apply (step_one s _ key (open_side st) (Some sig) st1).
Qed.

Lemma OnTick_ok tick s x s' : strat_ok s → OnTick tick s = (x, s') → step_to s (option_list x) s'.
Proof.
  intros Hs. unfold OnTick. cbv zeta. case_match.
  - destruct (observe _ _ _) as [done vol]. intros [= <- <-]. destruct done as [[minute v]|].
    + split; [|by eapply (follows_map _ s)|done]. eapply (strat_ok_map _ s); [done|apply Hs|reflexivity|].
      intros st Hst. apply state_ok_set_ctx; [done|]. apply (addVolume_ok (nc_Context (sr_cfg s)) minute v), Hst.
    + split; [|by apply follows_none|done]. destruct Hs. by split.
  - destruct (find_instrument _ _) as [[key st]|] eqn:Hf; [|intros [= <- <-]; by apply step_refl].
    apply find_instrument_spec in Hf as [Hk HP]. unfold holds_token in HP. bool_prop.
    destruct (checkPremium _ _ _ _ _) as [sig st'] eqn:Hc. intros [= <- <-]. eapply checkPremium_ok; try done.
    apply is_side_none; [apply (sk_instruments _ Hs _ _ Hk)|done].
Qed.

Lemma ExitRequested_ok side tok reason s x s' :
  strat_ok s → side ≠ SideNone → ExitRequested side tok reason s = (x, s') → step_to s (option_list x) s'.
Proof.
  intros Hs Hside. unfold ExitRequested. destruct (find_instrument _ _) as [[key st]|] eqn:Hf; [|intros [= <- <-]; by apply step_refl].
  apply find_instrument_spec in Hf as [Hk <-%String.eqb_eq].
  case_match; [intros [= <- <-]; by apply step_refl|]. destruct (exit_unpriced _ _ _ _ _) as [sig st'] eqn:He. intros [= <- <-].
  eapply step_exit_unpriced; try done. apply open_cases; [apply (sk_instruments _ Hs _ _ Hk)|done].
Qed.

Lemma forceExit_ok today reason s : strat_ok s → ∃ sigs s', forceExit today reason s = (sigs, s') ∧ step_to s sigs s'.
Proof.
  intros Hs. unfold forceExit.
  match goal with |- context [foldl ?f] => set (step := f) end.
  enough (∀ l s0 sigs0, NoDup l.*1 → (∀ k st, (k, st) ∈ l → sr_instruments s0 !! k = Some st) → step_to s sigs0 s0 →
    ∃ sigs s', foldl step (sigs0, s0) l = (sigs, s') ∧ step_to s sigs s') as Hl.
  { apply Hl; [apply range_nodup_keys|intros k st; apply elem_of_range|by apply step_refl]. }
  induction l as [|[k st] l IH]; intros s0 sigs0 Hn Hin H0; [by eexists _, _|].
  simpl in *. apply NoDup_cons in Hn as [Hk Hn]. assert (sr_instruments s0 !! k = Some st) as Hst by (apply Hin; by left).
  assert (∀ k' st', (k', st') ∈ l → k' ≠ k) as Hne.
  { intros k' st' Hl ->. apply Hk, list_elem_of_fmap. by exists (k, st'). }
  destruct (_ || _) eqn:Hskip; [apply IH; [done| |done]; intros; apply Hin; by right|].
  bool_prop. destruct (exit_unpriced _ _ _ _ _) as [sig st'] eqn:He. apply IH; [done| |].
  - intros k' st'' Hl. simpl. rewrite lookup_insert_ne by (by apply not_eq_sym, (Hne k' st'')). apply Hin. by right.
  - eapply step_app; [done|]. eapply step_exit_unpriced; try done; [apply H0|].
    apply is_side_none; [apply (sk_instruments _ (st_ok _ _ _ H0) _ _ Hst)|done].
Qed.
End requests.

Lemma trailStop_keeps_side st : open_side (trailStop st) = open_side st ∧ only_pos st (trailStop st) ∧
  ps_Risk (n5_pos (trailStop st)) = ps_Risk (n5_pos st) ∧ ps_ManualLevels (n5_pos (trailStop st)) = ps_ManualLevels (n5_pos st).
Proof.
  unfold trailStop. cbv zeta. repeat match goal with |- context [if ?b then _ else _] => destruct b end;
    (split; [done|split; [first [apply only_pos_set|apply only_pos_refl]|done]]).
Qed.

Lemma state_ok_only_pos cfg st st' : only_pos st st' → state_ok cfg st → position_ok (n5_pos st') → state_ok cfg st'.
Proof. intros -> Hok Hp. by apply state_ok_set_pos. Qed.

Lemma edit_index_fields e p : ps_Side (edit_index e p) = ps_Side p ∧ ps_Risk (edit_index e p) = ps_Risk p ∧
  ps_ManualLevels (edit_index e p) = true.
Proof. by destruct p. Qed.

Lemma edit_fno_levels e p : same_levels p (edit_fno e p).
Proof. by destruct p. Qed.

(** A hand edit keeps an open position well formed and on its side. *)
Lemma edited_ok cfg e st :
  state_ok cfg st → is_trade_side (open_side st) →
  let st' := trailStop (set_pos (edit_index e) st) in state_ok cfg st' ∧ open_side st' = open_side st.
Proof.
  intros Hok Hs. pose proof (edit_index_fields e (n5_pos st)) as (Hs2 & Hr & Hm). pose proof (only_pos_set (edit_index e) st) as Ho.
  change (edit_index e (n5_pos st)) with (n5_pos (set_pos (edit_index e) st)) in *.
  generalize dependent (set_pos (edit_index e) st). intros st2 Hs2 Hr Hm Ho. cbv zeta.
  destruct (trailStop_keeps_side st2) as (H1 & H2 & H3 & H4). unfold open_side in *. split; [|congruence].
  apply (state_ok_only_pos _ st); [by apply (only_pos_trans _ st2)|done|].
  apply (position_ok_manual (n5_pos st)); [apply Hok|done|congruence..].
Qed.

Lemma apply_edit_ok cfg e st :
  state_ok cfg st → is_trade_side (open_side st) → state_ok cfg (apply_edit e st) ∧ open_side (apply_edit e st) = open_side st.
Proof.
  intros Hok Hs. unfold apply_edit. cbv zeta. destruct (_ || _).
  - destruct (edited_ok cfg e st Hok Hs) as [Hok1 Hs1]. generalize dependent (trailStop (set_pos (edit_index e) st)).
    intros st1 Hok1 Hs1. rewrite <-Hs1. apply state_ok_set_fno; [done|by rewrite Hs1|apply edit_fno_levels].
  - apply state_ok_set_fno; [done|done|apply edit_fno_levels].
Qed.

Lemma SetLevels_ok `{MO : MapOrder} side tok e s : strat_ok s → step_to s [] (SetLevels side tok e s).2.
Proof.
  intros Hs. unfold SetLevels. destruct (String.eqb side SideNone) eqn:Hn; [by apply step_refl|].
  destruct (find_instrument _ _) as [[key st]|] eqn:Hf; [|by apply step_refl].
  apply find_instrument_spec in Hf as [Hk <-%String.eqb_eq]. bool_prop. repeat (case_match; [by apply step_refl|]). simpl.
  destruct (sk_instruments _ Hs _ _ Hk) as [Hok Hkey].
  destruct (apply_edit_ok (sr_cfg s) e st Hok) as [Hok' Hside]; [by apply open_cases; [apply Hok|]|].
  eapply (step_one s _ key (open_side st) None); try done. unfold position_side. by rewrite Hk.
Qed.

(** *** Setters, cancelled entries and resets *)

(** Every open position's option prices or token are set. *)
Lemma set_open_ok g s :
  strat_ok s → (∀ p, same_levels p (g p)) → step_to s [] (map_instruments (λ st, if is_side SideNone st then st else set_pos g st) s).
Proof.
  intros Hs Hg. set (f := λ st, if is_side SideNone st then st else set_pos g st). split; [|by apply (follows_map f s); [| |intros st Hst; by apply (if_open_ok (sr_cfg s))]|done].
  eapply (strat_ok_map f s); [done|apply Hs|done|]. intros st Hst. by apply (if_open_ok (sr_cfg s)).
Qed.

Lemma SetFNOEntryPrice_ok price s : strat_ok s → step_to s [] (SetFNOEntryPrice price s).
Proof. intros Hs. by apply set_open_ok. Qed.

Lemma SetPositionToken_ok token s : strat_ok s → step_to s [] (SetPositionToken token s).
Proof. intros Hs. by apply set_open_ok. Qed.

(** Settings that change no instrument. *)
Lemma same_instruments_ok s s' :
  strat_ok s → sr_instruments s' = sr_instruments s → nc_Context (sr_cfg s') = nc_Context (sr_cfg s) →
  nc_StrikeStep (sr_cfg s') = nc_StrikeStep (sr_cfg s) → nc_MaxTradesPerDay (sr_cfg s') = nc_MaxTradesPerDay (sr_cfg s) →
  strat_ok s' ∧ follows s [] s'.
Proof.
  intros [[] Hi] Hs' Hc Hst Hm. split.
  - split; [split; congruence|]. rewrite Hs'. intros k st Hk. destruct (Hi _ _ Hk) as [[] Hkey]. split; [|done].
    split; rewrite ?Hc, ?Hm; done.
  - apply follows_none. intros k. unfold position_side. by rewrite Hs'.
Qed.

Lemma flat_state_ok cfg ctx st :
  n5_pos st = flat_position → n5_ctx st = ctx → context_ok (nc_Context cfg) ctx → pend_ok st →
  0 <= n5_TradesToday st <= Z.max 0 (nc_MaxTradesPerDay cfg) → state_ok cfg st.
Proof. intros Hp <- Hc Hpend Ht. split; [done|rewrite Hp; apply flat_position_ok|done|done]. Qed.

Lemma CancelEntry_ok side s : strat_ok s →
  strat_ok (CancelEntry side s) ∧
  ∀ k, position_side (CancelEntry side s) k = if String.eqb (position_side s k) side then SideNone else position_side s k.
Proof.
  intros Hs. unfold CancelEntry. match goal with |- context [map_instruments ?g s] => set (f := g) end. split.
  - eapply (strat_ok_map f s); [done|apply Hs|reflexivity|]. intros st Hst. subst f. simpl. case_match; [done|].
    destruct Hst. eapply flat_state_ok; try done. simpl. pose proof (sc_MaxTrades_ok _ (sk_cfg _ Hs)).
    case_match; [|done]. bool_prop. rewrite i64_id by (i64_unfold; lia). lia.
  - intros k. rewrite (position_side_map f s); [|done]. unfold position_side. destruct (sr_instruments s !! k) as [st|].
    + subst f. simpl. unfold is_side. destruct (String.eqb side SideNone) eqn:Hn; simpl.
      * bool_prop. subst. case_match; bool_prop; done.
      * by destruct (String.eqb (open_side st) side).
    + by case_match.
Qed.

Lemma ResetPositions_ok s : strat_ok s → strat_ok (ResetPositions s) ∧ ∀ k, position_side (ResetPositions s) k = SideNone.
Proof.
  intros Hs. unfold ResetPositions. match goal with |- context [map_instruments ?g s] => set (f := g) end. split.
  - eapply (strat_ok_map f s); [done|apply Hs|reflexivity|]. intros st []. eapply flat_state_ok; try done. by left.
  - intros k. rewrite (position_side_map f s); [|done]. by destruct (sr_instruments s !! k).
Qed.

(** *** Restarts *)

Lemma restoreNifty50SR_ok cfg k st :
  strat_cfg_ok cfg → state_ok cfg st →
  ∃ st', restoreNifty50SR cfg (snapshotNifty50SR k st) = Some st' ∧ state_ok cfg st' ∧ open_side st' = open_side st.
Proof.
  intros Hcfg [Hctx Hpos Hpend Htr]. unfold restoreNifty50SR.
  destruct (restoreSRContext_ok _ (sc_Context_ok _ Hcfg) (sr_snapshot (n5_ctx st))) as (ctx & Hr & Hctx'); [apply Hctx|].
  simpl nsn_Context. rewrite Hr. cbn [mbind option_bind]. eexists. split; [done|].
  unfold open_side. cbn [n5_pos ps_Side nsn_Side snapshotNifty50SR].
  destruct (po_side _ Hpos) as [Hflat|Hs].
  - split; [|by rewrite Hflat]. eapply flat_state_ok; try done; simpl; [by rewrite Hflat|].
    unfold pend_ok. simpl. destruct Hpend as [-> |[-> | ->]]; [by left|by right; left|by right; right].
  - split; [|by destruct Hs as [-> | ->]]. split; simpl; try done.
    + eapply position_ok_levels; [|exact Hpos|exact Hs]. split; simpl; try done. by destruct Hs as [-> | ->].
    + unfold pend_ok. simpl. destruct Hpend as [-> |[-> | ->]]; [by left|by right; left|by right; right].
Qed.

Lemma restart_ok `{MO : MapOrder} s : strat_ok s →
  ∃ b s', sr_Restore (Some (sr_Snapshot s)) (NewNifty50SR (sr_qty s) (sr_cfg s)) = Some (b, s') ∧ step_to s [] s'.
Proof.
  intros Hs. unfold sr_Restore. simpl negb. cbv iota. cbn [sns_Instruments sr_Snapshot sr_cfg NewNifty50SR].
  match goal with |- context [foldl ?f] => set (step := f) end.
  enough (∀ l, NoDup l.*1 → (∀ k st, (k, st) ∈ l → sr_instruments s !! k = Some st) →
    ∃ m, foldl step (Some ∅) ((λ '(k, st), snapshotNifty50SR k st) <$> l) = Some m ∧
      ∀ k, match m !! k with
           | Some st' => ∃ st, (k, st) ∈ l ∧ state_ok (sr_cfg s) st' ∧ open_side st' = open_side st
           | None => ∀ st, (k, st) ∉ l end) as Hl.
  { destruct (Hl (range (sr_instruments s))) as (m & -> & Hm); [apply range_nodup_keys|intros k st; apply elem_of_range|].
    cbn [mbind option_bind]. eexists _, _. split; [done|]. split; [split; simpl; [apply Hs|]|apply follows_none|done].
    - intros k st Hk. specialize (Hm k). rewrite Hk in Hm. destruct Hm as (st0 & Hin & Hok & _). split; [done|].
      apply elem_of_range in Hin. apply (sk_instruments _ Hs _ _ Hin).
    - intros k. unfold position_side. simpl. specialize (Hm k). destruct (m !! k) as [st'|].
      + destruct Hm as (st0 & Hin & _ & Hside). apply elem_of_range in Hin. by rewrite Hin.
      + destruct (sr_instruments s !! k) as [st|] eqn:Hk; [|done]. apply elem_of_range in Hk. by destruct (Hm st). }
  induction l as [|[k st] l IH] using rev_ind; intros Hn Hin; [by eexists; split; [done|]; intros k; rewrite lookup_empty; intros st ?%not_elem_of_nil|].
  rewrite fmap_app in Hn. apply NoDup_app in Hn as (Hn & _ & _).
  destruct IH as (m & Hm & Hspec); [done|intros; apply Hin, elem_of_app; by left|].
  assert (sr_instruments s !! k = Some st) as Hk by (apply Hin, elem_of_app; right; by apply list_elem_of_singleton).
  destruct (restoreNifty50SR_ok _ k st (sk_cfg _ Hs) (proj1 (sk_instruments _ Hs _ _ Hk))) as (st' & Hst' & Hok & Hside).
  rewrite fmap_app, foldl_app, Hm. simpl. rewrite Hst'. cbn [mbind option_bind]. eexists. split; [done|].
  intros k'. destruct (decide (k = k')) as [<-|Hne].
  - simpl. rewrite lookup_insert_eq. exists st. split; [|done]. apply elem_of_app. right. by apply list_elem_of_singleton.
  - simpl. rewrite lookup_insert_ne by done. specialize (Hspec k'). destruct (m !! k') as [st1|].
    + destruct Hspec as (st0 & Hin0 & ?). exists st0. split; [|done]. apply elem_of_app. by left.
    + intros st0 [H0|[= -> ->]%list_elem_of_singleton]%elem_of_app; [by apply (Hspec st0)|done].
Qed.

(** ** Runs *)

Section runs_ok.
Context `{MO : MapOrder}.

Lemma step_op op s sigs s' :
  match op with OpCancelEntry _ | OpResetPositions => False | _ => True end → step_to s sigs s' →
  strat_ok s' ∧ ∀ k, trade_op k (position_side s k) (op, sigs) = Some (position_side s' k).
Proof. intros Hop []. split; [done|]. intros k. rewrite <-(st_follows0 k). by destruct op. Qed.

Lemma sr_step_ok op s : strat_ok s → op_ok op →
  ∃ sigs s', sr_step op s = Some (sigs, s') ∧ strat_ok s' ∧
    ∀ k, trade_op k (position_side s k) (op, sigs) = Some (position_side s' k).
Proof.
  intros Hs Hop.
  assert (∀ sigs s', step_to s sigs s' → sr_step op s = Some (sigs, s') →
    match op with OpCancelEntry _ | OpResetPositions => False | _ => True end → ∃ sigs s', sr_step op s = Some (sigs, s') ∧ strat_ok s' ∧
    ∀ k, trade_op k (position_side s k) (op, sigs) = Some (position_side s' k)) as Hsteps.
  { intros sigs s' Hst He Hn. exists sigs, s'. split; [done|]. by apply step_op. }
  assert (∀ s', strat_ok s' ∧ follows s [] s' → sr_step op s = Some ([], s') →
    match op with OpCancelEntry _ | OpResetPositions => False | _ => True end → ∃ sigs s', sr_step op s = Some (sigs, s') ∧ strat_ok s' ∧
    ∀ k, trade_op k (position_side s k) (op, sigs) = Some (position_side s' k)) as Hset.
  { intros s' [Hok Hf] He Hn. exists [], s'. split; [done|]. split; [done|]. intros k. rewrite <-(Hf k). by destruct op. }
  destruct op as [c|cs|t|side tok reason|today reason|side| |p|t|c p|t|e|side tok e|].
  - destruct (OnTFCandle_ok c s Hs) as (x & s' & He & Hst). eapply Hsteps; [exact Hst|simpl; by rewrite He|done].
  - destruct (Warmup_ok cs s Hs) as (n & s' & He & Hst). eapply Hsteps; [exact Hst|simpl; by rewrite He|done].
  - destruct (OnTick t s) as [x s'] eqn:He. eapply Hsteps; [by eapply OnTick_ok|simpl; by rewrite He|done].
  - destruct (ExitRequested side tok reason s) as [x s'] eqn:He. eapply Hsteps; [by eapply ExitRequested_ok|simpl; by rewrite He|done].
  - destruct (forceExit_ok today reason s Hs) as (sigs & s' & He & Hst). eapply Hsteps; [exact Hst|simpl; by rewrite He|done].
  - destruct (CancelEntry_ok side s Hs) as [Hok Hk]. eexists _, _. split; [reflexivity|]. split; [done|].
    intros k. by rewrite Hk.
  - destruct (ResetPositions_ok s Hs) as [Hok Hk]. eexists _, _. split; [reflexivity|]. split; [done|]. intros k. by rewrite Hk.
  - eapply Hsteps; [by apply SetFNOEntryPrice_ok|done|done].
  - eapply Hsteps; [by apply SetPositionToken_ok|done|done].
  - eapply Hset; [by apply (same_instruments_ok s (SetFNOTokens c p s))|done|done].
  - eapply Hset; [by apply (same_instruments_ok s (SetVolumeToken t s))|done|done].
  - eapply Hset; [by apply (same_instruments_ok s (SetExpiry e s))|done|done].
  - eapply Hsteps; [by apply SetLevels_ok|done|done].
  - destruct (restart_ok s Hs) as (b & s' & He & Hst). eapply Hsteps; [exact Hst|unfold sr_step; by rewrite He|done].
Qed.

Lemma new_strat_ok qty cfg : strat_cfg_ok cfg → strat_ok (NewNifty50SR qty cfg).
Proof. intros Hcfg. split; [done|]. intros k st Hk. simpl in Hk. by rewrite lookup_empty in Hk. Qed.

Lemma sr_run_ok ops s : strat_ok s → Forall op_ok ops →
  ∃ log s', sr_run ops s = Some (log, s') ∧ strat_ok s' ∧
    ∀ k, foldl (λ held entry, held ← held; trade_op k held entry) (Some (position_side s k)) log = Some (position_side s' k).
Proof.
  intros Hs Hops. revert s Hs. induction Hops as [|op ops Hop Hops IH]; intros s Hs; [by eexists _, _|].
  destruct (sr_step_ok op s Hs Hop) as (sigs & s1 & He & Hs1 & Hk1). destruct (IH s1 Hs1) as (log & s' & Hrun & Hs' & Hk').
  exists ((op, sigs) :: log), s'. simpl. rewrite He. simpl. rewrite Hrun. split; [done|]. split; [done|].
  intros k. rewrite Hk1. apply Hk'.
Qed.

Lemma sr_run_ops ops s log s' : sr_run ops s = Some (log, s') → log.*1 = ops.
Proof.
  revert s log. induction ops as [|op ops IH]; intros s log; simpl; [by intros [= <- <-]|].
  destruct (sr_step op s) as [[sigs s1]|]; [simpl|done]. destruct (sr_run ops s1) as [[log1 s2]|] eqn:Hr; [|done].
  simpl. intros [= <- <-]. simpl. f_equal. by eapply IH.
Qed.
End runs_ok.

(** ** A quick configuration, for concrete runs *)

Definition quick_range (r : RangeContextConfig) : RangeContextConfig := {|
  rg_ADXPeriod := 2; rg_MaxADX := rg_MaxADX r; rg_EMAPeriod := 2; rg_FlatSlopeBars := rg_FlatSlopeBars r;
  rg_FlatSlopePts := rg_FlatSlopePts r; rg_BBPeriod := 2; rg_BBMult := rg_BBMult r; rg_BBSqueezePct := rg_BBSqueezePct r;
  rg_RSIPeriod := 2; rg_VolAvgBars := 2; rg_VolAvgBars5 := 2; rg_ATRPeriod := 2; rg_RequireFlatEMA := rg_RequireFlatEMA r;
  rg_EntryMinutes := 0; rg_HTFEMAPeriod := 2; rg_HTFLevels := rg_HTFLevels r; rg_SwingWindow := 2; rg_LevelLookbackBars := 10;
  rg_LevelTolerancePts := rg_LevelTolerancePts r; rg_MinTouches := 2; rg_UsePrevDayLevels := false;
  rg_MinRangePts := rg_MinRangePts r; rg_MaxRangePts := rg_MaxRangePts r; rg_NarrowMaxPts := rg_NarrowMaxPts r;
  rg_MediumMaxPts := rg_MediumMaxPts r |}.

Definition quick_cfg : Nifty50SRConfig :=
  DefaultNifty50SRConfig <| nc_Context := {|
      sx_Range := quick_range DefaultRangeContextConfig; sx_EMAFast := 1; sx_EMASlow := 2; sx_RangeMaxADX := f64_of_int 5;
      sx_TrendMinADX := f64_of_int 10; sx_VWAPSlopeBars := 1; sx_FlatVWAPSlopePts := 0; sx_MinVWAPCrosses := 100;
      sx_MinATRPts := 1; sx_OpeningRangeEndMin := hhmm 9 30 |} |>
    <| nc_MinConfirmations := 0 |> <| nc_TouchTolPts := 50000 |> <| nc_RetestEnabled := false |>.

Lemma quick_cfg_ok : strat_cfg_ok quick_cfg.
Proof. split; [split; [split|]|..]; simpl; lia. Qed.

(** Minute [i] of a rising morning, from 09:15 IST of Monday 2026-01-05. *)
Definition rising_candle (i : Z) : TFCandle :=
  let p := 2000000 + 200 * i in {|
  tfc_Token := "99926000"; tfc_Exchange := "NSE"; tfc_TF := 60; tfc_TS := (20458 * 86400 + (3 * 60 + 45) * 60) * Second + i * Minute;
  tfc_Open := p; tfc_High := p + 250; tfc_Low := p - 50; tfc_Close := p + 200; tfc_Volume := 1; tfc_Count := 1;
  tfc_Forming := false |}.

Definition rising_candles (from n : nat) : list TFCandle := (λ i, rising_candle (Z.of_nat i)) <$> seq from n.

(** A warm-up, an entry, its option's price, a restart, and an exit request. *)
Definition rising_run : list sr_op :=
  OpWarmup (rising_candles 0 100) :: (OpCandle <$> rising_candles 100 2) ++
  [OpSetFNOEntryPrice 10000; OpRestart; OpExitRequested SideCall "" "user"].

Lemma rising_run_ok : Forall op_ok rising_run.
Proof. repeat (apply Forall_cons; split; [done|]). done. Qed.

(** The run enters and exits once. *)
Example rising_run_trades :
  (λ r, (λ sig, (sig_Action sig, sig_Side sig)) <$> concat r.1.*2) <$>
    sr_run (MO := canonical_order) rising_run (NewNifty50SR 75 quick_cfg)
  = Some [(ActionBuy, SideCall); (ActionExit, SideCall)].
Proof. vm_compute. reflexivity. Qed.

(** ** Properties *)

(** C19: over any run of the strategy from its construction, under a sensible
    configuration and with exit requests that name a side, nothing panics and
    the run returns, and the signals of each instrument follow its position:
    an entry or advice comes only when flat and for CALL or PUT, an exit only
    for the side held (so never twice), and after the last signal the side
    the log says is held is the side of the state; restarts included. *)
Theorem signals_follow_position `{MO : MapOrder} qty cfg ops :
  strat_cfg_ok cfg → Forall op_ok ops →
  ∃ log s, sr_run ops (NewNifty50SR qty cfg) = Some (log, s) ∧ log.*1 = ops ∧ ∀ k, trade_log k log = Some (position_side s k).
Proof.
  intros Hcfg Hops. destruct (sr_run_ok ops _ (new_strat_ok qty cfg Hcfg) Hops) as (log & s & Hrun & _ & Hlog).
  exists log, s. split; [done|]. split; [by eapply sr_run_ops|exact Hlog].
Qed.

Lemma signals_follow_position_witness :
  ∃ log s, sr_run (MO := canonical_order) rising_run (NewNifty50SR 75 quick_cfg) = Some (log, s) ∧
    log.*1 = rising_run ∧ ∀ k, trade_log k log = Some (position_side s k).
Proof. apply (signals_follow_position (MO := canonical_order)); [exact quick_cfg_ok|exact rising_run_ok]. Defined.

(** An instrument's state is well typed: no position at all, every field
    cleared, or one on CALL or PUT with a risk; managed automatically, its
    target is ahead of the entry, and its stop behind it until it has been
    moved. *)
Definition well_typed (cfg : Nifty50SRConfig) (st : nifty50SRState) : Prop :=
  let p := n5_pos st in
  (n5_pos st = flat_position ∨
   (ps_Side p = SideCall ∨ ps_Side p = SidePut) ∧ 0 < ps_Risk p ∧
   (ps_ManualLevels p = false → 0 < reward_of (ps_Side p) (ps_IndexEntry p) (ps_TargetLevel p)) ∧
   (ps_ManualLevels p = false → ps_Breakeven p = false → stop_ok (ps_Side p) (ps_IndexEntry p) (ps_StopLevel p))) ∧
  (n5_PendingSide st = SideNone ∨ n5_PendingSide st = SideCall ∨ n5_PendingSide st = SidePut) ∧
  0 <= n5_TradesToday st <= Z.max 0 (nc_MaxTradesPerDay cfg).

(** C20: every instrument of a strategy reached by a run is well typed: its
    position is cleared or on CALL or PUT with a positive risk, an
    automatically managed one has its target ahead of the entry and, until
    breakeven, its stop behind it; the pending break is on a side or none;
    the day's trades stay within the cap.  Candles, ticks, hand edits,
    cancelled entries, resets and restarts all keep it. *)
Theorem instruments_well_typed `{MO : MapOrder} qty cfg ops :
  strat_cfg_ok cfg → Forall op_ok ops →
  ∃ log s, sr_run ops (NewNifty50SR qty cfg) = Some (log, s) ∧
    ∀ k st, sr_instruments s !! k = Some st → well_typed (sr_cfg s) st.
Proof.
  intros Hcfg Hops. destruct (sr_run_ok ops _ (new_strat_ok qty cfg Hcfg) Hops) as (log & s & Hrun & Hs & _).
  exists log, s. split; [done|]. intros k st Hk. destruct (sk_instruments _ Hs _ _ Hk) as [[_ Hpos Hpend Htr] _].
  split; [|by split]. destruct (po_side _ Hpos) as [Hflat|Hside]; [by left|right].
  assert (ps_Side (n5_pos st) ≠ SideNone) as Hn by (by apply trade_side_not_none). split; [done|].
  split; [by apply Hpos|]. split; [by apply Hpos|]. intros Hm Hb. by apply (po_stop _ Hpos).
Qed.

Lemma instruments_well_typed_witness :
  ∃ log s, sr_run (MO := canonical_order) rising_run (NewNifty50SR 75 quick_cfg) = Some (log, s) ∧
    ∀ k st, sr_instruments s !! k = Some st → well_typed (sr_cfg s) st.
Proof. apply (instruments_well_typed (MO := canonical_order)); [exact quick_cfg_ok|exact rising_run_ok]. Defined.

(** The day's limits at the close of a candle. *)
Definition allows (cfg : Nifty50SRConfig) (closeMin : Z) (a : day_account) : Prop :=
  nc_EntryFromMin cfg <= closeMin < nc_EntryToMin cfg ∧ da_trades a < nc_MaxTradesPerDay cfg ∧
  (0 < nc_MaxConsecLosses cfg → da_losses a < nc_MaxConsecLosses cfg) ∧
  (0 < nc_MaxDayLossPts cfg → -! nc_MaxDayLossPts cfg < da_points a) ∧ da_cooldown a <= 0.

(** The account with a position's result at [close] booked, if there is a
    close, and the cooldown begun. *)
Definition points_of (p : srPosition) (close : Z) : Z :=
  if String.eqb (ps_Side p) SidePut then ps_IndexEntry p -! close else close -! ps_IndexEntry p.
Definition closed_account (cfg : Nifty50SRConfig) (p : srPosition) (close : Z) (a : day_account) : day_account :=
  let pts := points_of p close in
  if close <=? 0 then {| da_trades := da_trades a; da_losses := da_losses a; da_points := da_points a; da_cooldown := nc_CooldownCandles cfg |}
  else {| da_trades := da_trades a; da_losses := if pts <? 0 then da_losses a +! 1 else 0; da_points := da_points a +! pts;
          da_cooldown := nc_CooldownCandles cfg |}.

(** What a new candle of the session may decide, from [st] to [st']. *)
Definition decided (cfg : Nifty50SRConfig) (candle : TFCandle) (st : nifty50SRState) (x : option Signal) (st' : nifty50SRState) :
    Prop :=
  let closeMin := minutesIST (tfc_TS candle) + 1 in
  let a := at_candle candle st in
  match x with
  | None =>
      account st' = a ∧
      (open_side st = SideNone ∧ n5_pos st' = n5_pos st ∨
       open_side st ≠ SideNone ∧ closeMin < nc_TimeExitMin cfg ∧ managed (n5_pos st) (n5_pos st') ∧ stays_open cfg (tfc_Close candle) st')
  | Some sig =>
      sig_Exchange sig = tfc_Exchange candle ∧ sig_Token sig = tfc_Token candle ∧
      (sig_Action sig = ActionWatchBuy ∧ open_side st = SideNone ∧ n5_pos st' = n5_pos st ∧ account st' = a ∨
       sig_Action sig = ActionBuy ∧ open_side st = SideNone ∧ allows cfg closeMin a ∧ closeMin < nc_TimeExitMin cfg ∧
         ps_Side (n5_pos st') = sig_Side sig ∧ ps_IndexEntry (n5_pos st') = tfc_Close candle ∧
         stop_ok (sig_Side sig) (tfc_Close candle) (ps_StopLevel (n5_pos st')) ∧
         account st' = {| da_trades := da_trades a + 1; da_losses := da_losses a; da_points := da_points a; da_cooldown := da_cooldown a |} ∨
       sig_Action sig = ActionExit ∧ open_side st ≠ SideNone ∧ sig_Side sig = open_side st ∧ sig_Price sig = tfc_Close candle ∧
         n5_pos st' = flat_position ∧ account st' = closed_account cfg (n5_pos st) (tfc_Close candle) a)
  end.

Lemma account_core st st' : same_core st st' → account st' = account st.
Proof. intros []. unfold account. congruence. Qed.

Lemma account_only_pos st st' : only_pos st st' → account st' = account st.
Proof. by intros ->. Qed.

Lemma i64_opp a : -! (i64 a) = -! a.
Proof.
  unfold i64 at 2. rewrite Z.mod_eq by lia. set (q := (a + 2 ^ 63) / 2 ^ 64). unfold i64. f_equal.
  replace (- (a + 2 ^ 63 - 2 ^ 64 * q - 2 ^ 63) + 2 ^ 63) with (- a + 2 ^ 63 + q * 2 ^ 64) by lia. apply Z.mod_add. lia.
Qed.

Lemma account_exit cfg st : is_trade_side (open_side st) →
  account (resetPosition cfg (book st)) = closed_account cfg (n5_pos st) (n5_LastClose st) (account st).
Proof.
  intros Hs. assert (is_side SideNone st = false) as Hn by (unfold is_side; by destruct Hs as [->| ->]).
  unfold book, closed_account, points_of. rewrite Hn. cbn [orb]. destruct (_ <=? 0); [done|].
  unfold is_side, open_side in *. replace (if String.eqb (ps_Side (n5_pos st)) SidePut then -! (n5_LastClose st -! ps_IndexEntry (n5_pos st)) else n5_LastClose st -! ps_IndexEntry (n5_pos st))
    with (if String.eqb (ps_Side (n5_pos st)) SidePut then ps_IndexEntry (n5_pos st) -! n5_LastClose st else n5_LastClose st -! ps_IndexEntry (n5_pos st)); [reflexivity|].
  destruct (String.eqb (ps_Side (n5_pos st)) SidePut); [|reflexivity]. rewrite i64_opp. f_equal. lia.
Qed.

(** C21: a new candle of the session never panics and decides as it should, by
    the state before it and nothing else.  The day's account (trades, losses in
    a row, points, cooldown) starts over on a new day, and is otherwise the one
    before with a candle less of the cooldown.  With no position the candle
    opens one only within the day's window, trade cap, loss limits and cooldown
    and before the time exit, at the close with the stop on its losing side,
    counting the trade and nothing else; an open position is closed exactly
    once, at the close, with exactly its result booked and the cooldown begun,
    or it is kept, and then it is before the time exit, the stop was only
    tightened, and the close is short of the target and not beyond the stop
    (but for a support stop's patience).  Without a trade the account stays. *)
Theorem candle_decides cfg qty candle st tally :
  strat_cfg_ok cfg → state_ok cfg st → n5_LastCloseTS st < tfc_TS candle →
  sessionOpenMin < minutesIST (tfc_TS candle) + 1 <= 930 →
  ∃ x sweep w, instrument_candle cfg qty candle st tally = Some (x, sweep, w) ∧ decided cfg candle st x (wk_st w).
Proof.
  intros Hcfg Hok Hnew Hsess. destruct (instrument_candle_ok cfg qty Hcfg candle st tally Hok) as (x & sweep & w & He & Heff & Hof & _).
  exists x, sweep, w. split; [exact He|]. destruct Heff as [|? ?|st1 y st' _ Htk Heff]; [lia|done|].
  pose proof (tk_pos _ _ _ _ Htk) as Hpos. assert (open_side st1 = open_side st) as Hopen by (unfold open_side; by rewrite Hpos).
  pose proof (tk_account _ _ _ _ Htk) as Hacc. unfold decided. cbv zeta. rewrite <- Hacc, <- Hpos, <- Hopen. clear Hacc.
  assert (∀ d, is_trade_side d → d ≠ SideNone) as Hside by apply trade_side_not_none.
  destruct Heff as [st3 Hs Hc Hp|sig st3 Hs Ha Ht Hc Hp|sig st3 Hs Ht Hen Hp|st3 st4 Hs Ht Hk Ho Hc Hp|sig st3 Hs Hc]; cbv iota beta.
  - split; [by apply account_core|]. left. by rewrite (sm_pos _ _ Hc).
  - destruct Hof as [H1 H2]. split; [done|]. split; [done|]. left. rewrite (sm_pos _ _ Hc). split_and!; try done. by apply account_core.
  - destruct Hof as [H1 H2]. split; [done|]. split; [done|]. right. left.
    pose proof (entryBlock_limits _ _ _ (en_limits _ _ _ _ _ _ Hen)) as Hlim.
    assert (n5_TradesToday st1 +! 1 = n5_TradesToday st1 + 1) as Heq.
    { pose proof (wl_trades _ _ _ Hlim). pose proof (sc_MaxTrades_ok _ Hcfg). pose proof (so_trades _ _ (tk_ok _ _ _ _ Htk)).
      apply i64_id. i64_unfold. lia. }
    destruct Hen, Hlim, en_counters as (E1 & E2 & E3). split_and!; try done. unfold account. cbn. congruence.
  - assert (account st4 = account st1) as Ha by (rewrite (account_core _ _ Hc); apply account_only_pos, Hk).
    split; [exact Ha|]. right. split; [by apply Hside|]. split; [done|]. unfold stays_open, side_sign, is_side, open_side in *.
    rewrite (sm_pos _ _ Hc). split; [by apply Hk|done].
  - destruct Hof as [H1 H2]. split; [done|]. split; [done|]. right. right. destruct Hc. rewrite <- (tk_close _ _ _ _ Htk).
    rewrite cb_state. split_and!; try done; [by apply Hside|by apply account_exit].
Qed.

(** The instrument after a run of the example's strategy. *)
Definition reached (ops : list sr_op) : option nifty50SRState :=
  r ← sr_run (MO := canonical_order) ops (NewNifty50SR 75 quick_cfg); sr_instruments r.2 !! "NSE:99926000".

Lemma reached_ok ops st : Forall op_ok ops → sr_cfg ∘ snd <$> sr_run (MO := canonical_order) ops (NewNifty50SR 75 quick_cfg) = Some quick_cfg →
  reached ops = Some st → state_ok quick_cfg st.
Proof.
  intros Hops Hcfg. unfold reached. destruct (sr_run_ok (MO := canonical_order) ops _ (new_strat_ok 75 quick_cfg quick_cfg_ok) Hops) as (log & s & Hrun & Hs & _).
  rewrite Hrun in *. cbn in *. injection Hcfg as Hcfg. intros Hk. destruct (sk_instruments _ Hs _ _ Hk) as [Hok _]. by rewrite Hcfg in Hok.
Qed.

(** A candle that falls through the stop. *)
Definition falling_candle (i : Z) : TFCandle := let c := rising_candle i in {|
  tfc_Token := tfc_Token c; tfc_Exchange := tfc_Exchange c; tfc_TF := tfc_TF c; tfc_TS := tfc_TS c; tfc_Open := tfc_Open c; tfc_High := tfc_High c;
  tfc_Low := 1900000; tfc_Close := 1900000; tfc_Volume := 1; tfc_Count := 1; tfc_Forming := false |}.

(** An entry, and then an exit at a loss. *)
Definition before_entry : list sr_op := [OpWarmup (rising_candles 0 100)].
Definition before_exit : list sr_op := OpWarmup (rising_candles 0 100) :: (OpCandle <$> rising_candles 100 2).

Lemma entry_candle :
  (λ r : option Signal * option SRSweep * srWork, sig_Action <$> r.1.1) <$>
    (st ← reached before_entry; instrument_candle quick_cfg 75 (rising_candle 100) st zero_tally) = Some (Some ActionBuy).
Proof. vm_compute. reflexivity. Qed.
Lemma exit_candle :
  (λ r : option Signal * option SRSweep * srWork, (sig_Action <$> r.1.1, account (wk_st r.2))) <$>
    (st ← reached before_exit; instrument_candle quick_cfg 75 (falling_candle 102) st zero_tally) =
  Some (Some ActionExit, {| da_trades := 1; da_losses := 1; da_points := -120200; da_cooldown := 10 |}).
Proof. vm_compute. reflexivity. Qed.

Lemma candle_decides_witness :
  (∃ st x sweep w, reached before_entry = Some st ∧ instrument_candle quick_cfg 75 (rising_candle 100) st zero_tally = Some (x, sweep, w) ∧
    sig_Action <$> x = Some ActionBuy ∧ decided quick_cfg (rising_candle 100) st x (wk_st w)) ∧
  (∃ st x sweep w, reached before_exit = Some st ∧ instrument_candle quick_cfg 75 (falling_candle 102) st zero_tally = Some (x, sweep, w) ∧
    sig_Action <$> x = Some ActionExit ∧ account (wk_st w) = {| da_trades := 1; da_losses := 1; da_points := -120200; da_cooldown := 10 |} ∧
    decided quick_cfg (falling_candle 102) st x (wk_st w)).
Proof.
  assert (∀ ops c, Forall op_ok ops → sr_cfg ∘ snd <$> sr_run (MO := canonical_order) ops (NewNifty50SR 75 quick_cfg) = Some quick_cfg →
    (λ st, bool_decide (n5_LastCloseTS st < tfc_TS c)) <$> reached ops = Some true → sessionOpenMin < minutesIST (tfc_TS c) + 1 <= 930 →
    ∃ st x sweep w, reached ops = Some st ∧ instrument_candle quick_cfg 75 c st zero_tally = Some (x, sweep, w) ∧ decided quick_cfg c st x (wk_st w)) as H.
  { intros ops c Hops Hcfg Hnew Hsess. destruct (reached ops) as [st|] eqn:Hr; [|done]. cbn in Hnew. injection Hnew as Hnew%bool_decide_eq_true.
    destruct (candle_decides quick_cfg 75 c st zero_tally quick_cfg_ok (reached_ok ops st Hops Hcfg Hr) Hnew Hsess) as (x & sweep & w & Hi & Hd).
    by exists st, x, sweep, w. }
  split.
  - destruct (H before_entry (rising_candle 100)) as (st & x & sweep & w & Hr & Hi & Hd);
      [repeat (apply Forall_cons; split; [done|]); done|vm_compute; reflexivity|vm_compute; reflexivity|vm_compute; split; [reflexivity|discriminate]|].
        pose proof entry_candle as Hc. rewrite Hr in Hc. unfold mbind, option_bind in Hc. rewrite Hi in Hc. injection Hc as H1. exists st, x, sweep, w. exact (conj Hr (conj Hi (conj H1 Hd))).
  - destruct (H before_exit (falling_candle 102)) as (st & x & sweep & w & Hr & Hi & Hd);
      [repeat (apply Forall_cons; split; [done|]); done|vm_compute; reflexivity|vm_compute; reflexivity|vm_compute; split; [reflexivity|discriminate]|].
    pose proof exit_candle as Hc. rewrite Hr in Hc. unfold mbind, option_bind in Hc. rewrite Hi in Hc. apply (f_equal (default (None, account st))) in Hc. cbn [fmap option_fmap option_map default fst snd] in Hc.
    pose proof (f_equal fst Hc) as H1. pose proof (f_equal snd Hc) as H2. cbn [fst snd] in H1, H2. exists st, x, sweep, w. exact (conj Hr (conj Hi (conj H1 (conj H2 Hd)))).
Defined.

(** [ExitRequested] for no side finds a flat instrument and exits it: the
    signal asks to close a position that is not there. *)
Lemma exit_requested_none `{MO : MapOrder} reason s key st :
  find_instrument (is_side SideNone) s = Some (key, st) →
  ∃ sig s', ExitRequested SideNone "" reason s = (Some sig, s') ∧ sig_Action sig = ActionExit ∧ sig_Side sig = SideNone.
Proof.
  intros Hf. unfold ExitRequested. rewrite Hf. apply find_instrument_spec in Hf as [_ Hs%is_side_none_eq].
  unfold other_contract. simpl. unfold exit_unpriced. destruct (splitKey key) as [exch token]. unfold sr_exit.
  eexists _, _. split; [done|]. simpl. by rewrite Hs.
Qed.
