(* ===== verification/ExitLevels.v ===== *)
(** The level book of the exit watch (internal/exitwatch/levels.go, the level
    constructor of replay.go and the ATR of service.go): today's highs and
    lows, opening range, swings on three timeframes and the levels of others,
    merged into one sorted list.  A day text is its day number.  Lookbacks
    (fractal bars, days, minutes) come from the tuning file and are taken to
    be below 2^31, so that index arithmetic does not wrap.  The wall clock is
    an argument of what may rebuild the list. *)
From stdpp Require Import sorting.
From S2P Require Import Prelude GoText Model MarketHours RangeContext.
#[local] Open Scope Z_scope.
#[local] Open Scope go_scope.

Definition LevelDayHigh : string := "DAY_HIGH".
Definition LevelDayLow : string := "DAY_LOW".
Definition LevelORBHigh : string := "ORB_HIGH".
Definition LevelORBLow : string := "ORB_LOW".
Definition LevelSwingHigh : string := "SWING_HIGH".
Definition LevelSwingLow : string := "SWING_LOW".
Definition LevelMicroHigh : string := "MICRO_HIGH".
Definition LevelMicroLow : string := "MICRO_LOW".
Definition LevelSwingHigh5m : string := "SWING_HIGH_5M".
Definition LevelSwingLow5m : string := "SWING_LOW_5M".
Definition LevelSwingHigh1h : string := "SWING_HIGH_1H".
Definition LevelSwingLow1h : string := "SWING_LOW_1H".
Definition ourSRPrefix : string := "OUR_SR:".
Definition analystPrefix : string := "ANALYST:".

Record Level := {
  xl_Price : Z; xl_Type : string; xl_Since : Time; xl_Strong : bool; xl_Tags : string; xl_Touches : Z }.

#[export] Instance Level_settable : Settable Level := λ l, {|
  xl_Price := xl_Price l; xl_Type := xl_Type l; xl_Since := xl_Since l; xl_Strong := xl_Strong l; xl_Tags := xl_Tags l;
  xl_Touches := xl_Touches l |}.

Definition zero_Level : Level := {|
  xl_Price := 0; xl_Type := ""; xl_Since := zero_time; xl_Strong := false; xl_Tags := ""; xl_Touches := 0 |}.

Definition is_type (types : list string) (t : string) : bool := existsb (String.eqb t) types.

Definition levelPriority (t : string) : Z :=
  if has_prefix ourSRPrefix t then 50
  else if is_type [LevelSwingHigh1h; LevelSwingLow1h] t then 46
  else if is_type [LevelSwingHigh5m; LevelSwingLow5m] t then 43
  else if is_type [LevelSwingHigh; LevelSwingLow] t then 40
  else if is_type [LevelORBHigh; LevelORBLow] t then 30
  else if has_prefix analystPrefix t then 20
  else 10.

Definition SourceOurSR : string := "sr".
Definition Source5m : string := "5m".
Definition Source1h : string := "1h".

Definition levelSource (t : string) : string :=
  if is_type [LevelSwingHigh5m; LevelSwingLow5m] t then Source5m
  else if is_type [LevelSwingHigh1h; LevelSwingLow1h] t then Source1h
  else if has_prefix ourSRPrefix t then SourceOurSR
  else "".

Definition strongType (t : string) : bool := negb (String.eqb (levelSource t) "").

Definition qualifies (srcs : list string) (minTouches : Z) (l : Level) : bool :=
  existsb (λ t,
    let s := levelSource t in
    negb (String.eqb s "" || (String.eqb s SourceOurSR && (xl_Touches l <? minTouches))) && existsb (String.eqb s) srcs)
    (str_split "+" (xl_Tags l)).

Definition OurSRLevel (price : Z) (source : string) (touches : Z) : Level :=
  zero_Level <| xl_Price := price |> <| xl_Type := ourSRPrefix +:+ source |> <| xl_Touches := touches |>.

(** ** The book *)

(** What the book takes from the tuning. *)
Record BookTuning := {
  bt_FractalBars : Z; bt_ORBMin : Z; bt_LevelMergeTolPaise : Z; bt_HTFFractalBars : Z; bt_HTFLookbackDays : Z }.

Record htfSeries := { hs_bars : list TFCandle; hs_swings : list Level }.

Record LevelBook := {
  lb_fractalBars : Z; lb_htfFractalBars : Z; lb_htfDays : Z; lb_orbMin : Z; lb_mergeTol : Z;
  lb_day : option Z; lb_bars : list TFCandle; lb_dayHigh : Z; lb_dayLow : Z; lb_orbHigh : Z; lb_orbLow : Z;
  lb_orbDone : bool; lb_swings : list Level; lb_analyst : list Level; lb_ourSR : list Level; lb_htf : gmap Z htfSeries;
  lb_adx : SpecFloat.spec_float; lb_clock : Time; lb_seen : gmap Z Time; lb_merged : list Level; lb_dirty : bool;
  lb_version : Z }.

#[export] Instance LevelBook_settable : Settable LevelBook := λ b, {|
  lb_fractalBars := lb_fractalBars b; lb_htfFractalBars := lb_htfFractalBars b; lb_htfDays := lb_htfDays b;
  lb_orbMin := lb_orbMin b; lb_mergeTol := lb_mergeTol b; lb_day := lb_day b; lb_bars := lb_bars b;
  lb_dayHigh := lb_dayHigh b; lb_dayLow := lb_dayLow b; lb_orbHigh := lb_orbHigh b; lb_orbLow := lb_orbLow b;
  lb_orbDone := lb_orbDone b; lb_swings := lb_swings b; lb_analyst := lb_analyst b; lb_ourSR := lb_ourSR b; lb_htf := lb_htf b;
  lb_adx := lb_adx b; lb_clock := lb_clock b; lb_seen := lb_seen b; lb_merged := lb_merged b; lb_dirty := lb_dirty b;
  lb_version := lb_version b |}.

Definition bar_of (c : TFCandle) : Z * Z := (tfc_High c, tfc_Low c).

(** Whether bar [i]'s high and low are strictly beyond the [k] bars on each
    side. *)
Definition fractalAt (bars : list TFCandle) (i k : nat) : bool * bool :=
  match bars !! i with
  | None => (false, false)
  | Some b =>
      let near := take k (drop (i - k) bars) ++ take k (drop (S i) bars) in
      (forallb (λ c, tfc_High c <? tfc_High b) near, forallb (λ c, tfc_Low b <? tfc_Low c) near)
  end.

(** The swings of bar [i]. *)
Definition swings_at (hiType loType : string) (since : Time) (bars : list TFCandle) (i k : nat) : list Level :=
  match bars !! i with
  | None => []
  | Some b =>
      let '(hi, lo) := fractalAt bars i k in
      let level p t := zero_Level <| xl_Price := p |> <| xl_Type := t |> <| xl_Since := since |> in
      (if hi : bool then [level (tfc_High b) hiType] else []) ++ (if lo : bool then [level (tfc_Low b) loType] else [])
  end.

(** [("", "")] for a timeframe that is not used. *)
Definition htfTypes (tf : Z) : string * string :=
  if tf =? 300 then (LevelSwingHigh5m, LevelSwingLow5m)
  else if tf =? 3600 then (LevelSwingHigh1h, LevelSwingLow1h)
  else ("", "").

(** The last [htfDays] sessions' bars, and their swings. *)
Definition trimHTF (htfDays htfFractalBars tf : Z) (s : htfSeries) : htfSeries :=
  let max := Z.to_nat (htfDays *! (375 * 60 /! tf +! 1)) in
  let bars := drop (length (hs_bars s) - max) (hs_bars s) in
  let '(hiType, loType) := htfTypes tf in
  let k := Z.to_nat htfFractalBars in
  {| hs_bars := bars;
     hs_swings := concat ((λ i,
       match bars !! (i + k)%nat with
       | Some b => swings_at hiType loType (t_add (tfc_TS b) (tf *! Second)) bars i k
       | None => []
       end) <$> seq k (length bars - k - k)) |}.

Definition at_least_1 (n dflt : Z) : Z := if n <? 1 then dflt else n.

Definition configure (m : BookTuning) (b : LevelBook) : LevelBook :=
  let days := at_least_1 (bt_HTFLookbackDays m) 5 in
  let bars := at_least_1 (bt_HTFFractalBars m) 2 in
  b <| lb_fractalBars := at_least_1 (bt_FractalBars m) 2 |> <| lb_orbMin := bt_ORBMin m |>
    <| lb_mergeTol := bt_LevelMergeTolPaise m |> <| lb_htfFractalBars := bars |> <| lb_htfDays := days |>
    <| lb_htf := map_imap (λ tf s, Some (trimHTF days bars tf s)) (lb_htf b) |> <| lb_dirty := true |>.

Definition NewLevelBook (m : BookTuning) : LevelBook :=
  configure m {|
    lb_fractalBars := 0; lb_htfFractalBars := 0; lb_htfDays := 0; lb_orbMin := 0; lb_mergeTol := 0; lb_day := None;
    lb_bars := []; lb_dayHigh := 0; lb_dayLow := 0; lb_orbHigh := 0; lb_orbLow := 0; lb_orbDone := false; lb_swings := [];
    lb_analyst := []; lb_ourSR := []; lb_htf := ∅; lb_adx := SpecFloat.S754_zero false; lb_clock := zero_time; lb_seen := ∅;
    lb_merged := []; lb_dirty := false; lb_version := 0 |}.

Definition rollDay (ts : Time) (b : LevelBook) : LevelBook :=
  if bool_decide (lb_day b = Some (ist_day ts)) then b
  else b <| lb_day := Some (ist_day ts) |> <| lb_bars := [] |> <| lb_dayHigh := 0 |> <| lb_dayLow := 0 |>
         <| lb_orbHigh := 0 |> <| lb_orbLow := 0 |> <| lb_orbDone := false |> <| lb_swings := [] |> <| lb_seen := ∅ |>
         <| lb_dirty := true |>.

Definition advance_book (ts : Time) (b : LevelBook) : LevelBook :=
  if t_after ts (lb_clock b) then b <| lb_clock := ts |> else b.

(** [LevelBook.OnTick]. *)
Definition book_tick (price : Z) (ts : Time) (b : LevelBook) : LevelBook :=
  let b := advance_book ts (rollDay ts b) in
  let b := if (lb_dayHigh b =? 0) || (lb_dayHigh b <? price) then b <| lb_dayHigh := price |> <| lb_dirty := true |> else b in
  if (lb_dayLow b =? 0) || (price <? lb_dayLow b) then b <| lb_dayLow := price |> <| lb_dirty := true |> else b.

(** A high (or low) that 0 stands for unset. *)
Definition max0 (cur x : Z) : Z := if (cur =? 0) || (cur <? x) then x else cur.
Definition min0 (cur x : Z) : Z := if (cur =? 0) || (x <? cur) then x else cur.

Definition opening_bar (c : TFCandle) (b : LevelBook) : LevelBook :=
  let min := minutesIST (tfc_TS c) in
  let fin := sessionOpenMin +! lb_orbMin b in
  if (sessionOpenMin <=? min) && (min <? fin) then
    let b := b <| lb_orbHigh := max0 (lb_orbHigh b) (tfc_High c) |> <| lb_orbLow := min0 (lb_orbLow b) (tfc_Low c) |> in
    if min =? fin -! 1 then b <| lb_orbDone := true |> else b
  else if (fin <=? min) && (0 <? lb_orbHigh b) then b <| lb_orbDone := true |>
  else b.

(** [LevelBook.OnCandle]. *)
Definition book_candle (c : TFCandle) (b : LevelBook) : LevelBook :=
  if tfc_Forming c then b
  else
    let b := rollDay (tfc_TS c) b in
    if match last (lb_bars b) with Some l => negb (t_after (tfc_TS c) (tfc_TS l)) | None => false end then b
    else
      let b := advance_book (t_add (tfc_TS c) Minute) b in
      let b := b <| lb_bars := lb_bars b ++ [c] |> <| lb_dayHigh := max0 (lb_dayHigh b) (tfc_High c) |>
                 <| lb_dayLow := min0 (lb_dayLow b) (tfc_Low c) |> in
      let b := opening_bar c b in
      let k := Z.to_nat (lb_fractalBars b) in
      let b := if (k + k <? length (lb_bars b))%nat
               then b <| lb_swings := lb_swings b ++ swings_at LevelSwingHigh LevelSwingLow (tfc_TS c) (lb_bars b)
                                        (length (lb_bars b) - 1 - k) k |> else b in
      b <| lb_dirty := true |>.

Definition OnHTFCandle (c : TFCandle) (b : LevelBook) : LevelBook :=
  if tfc_Forming c || String.eqb (htfTypes (tfc_TF c)).1 "" then b
  else
    let s := default {| hs_bars := []; hs_swings := [] |} (lb_htf b !! tfc_TF c) in
    let with_series s := b <| lb_htf := <[tfc_TF c := s]> (lb_htf b) |> in
    if match last (hs_bars s) with Some l => negb (t_after (tfc_TS c) (tfc_TS l)) | None => false end then with_series s
    else
      with_series (trimHTF (lb_htfDays b) (lb_htfFractalBars b) (tfc_TF c)
        {| hs_bars := hs_bars s ++ [c]; hs_swings := hs_swings s |}) <| lb_dirty := true |>.

Definition SetAnalyst (ls : list Level) (b : LevelBook) : LevelBook := b <| lb_analyst := ls |> <| lb_dirty := true |>.
Definition SetOurSR (ls : list Level) (b : LevelBook) : LevelBook := b <| lb_ourSR := ls |> <| lb_dirty := true |>.
Definition SetTrend (adx : SpecFloat.spec_float) (b : LevelBook) : LevelBook := b <| lb_adx := adx |>.

(** ** Merging *)

(** Dating a raw level: the book remembers when it first saw a price. *)
Definition add_raw (now : Time) (src : Level) (acc : gmap Z Time * list Level) : gmap Z Time * list Level :=
  let '(seen, raw) := acc in
  if xl_Price src <=? 0 then acc
  else
    let '(since, seen) :=
      match seen !! xl_Price src with
      | Some first => (first, seen)
      | None => let since := if t_is_zero (xl_Since src) then now else xl_Since src in
                (since, <[xl_Price src := since]> seen)
      end in
    (seen, raw ++ [zero_Level <| xl_Price := xl_Price src |> <| xl_Type := xl_Type src |> <| xl_Since := since |>
                              <| xl_Touches := xl_Touches src |>]).

(** The levels merged, in the order they are added. *)
Definition raw_sources (b : LevelBook) : list Level :=
  let level p t := zero_Level <| xl_Price := p |> <| xl_Type := t |> in
  let untouched l := l <| xl_Touches := 0 |> in
  let series tf := match lb_htf b !! tf with Some s => untouched <$> hs_swings s | None => [] end in
  [level (lb_dayHigh b) LevelDayHigh; level (lb_dayLow b) LevelDayLow] ++
  (if lb_orbDone b then [level (lb_orbHigh b) LevelORBHigh; level (lb_orbLow b) LevelORBLow] else []) ++
  (untouched <$> lb_swings b) ++ (untouched <$> lb_analyst b) ++ lb_ourSR b ++ series 300 ++ series 3600.

(** The sorted levels in groups within [tol] of the group's first. *)
Fixpoint clusters (tol : Z) (first : Level) (members : list Level) (rest : list Level) : list (list Level) :=
  match rest with
  | [] => [first :: members]
  | l :: rest =>
      if xl_Price l -! xl_Price first <=? tol then clusters tol first (members ++ [l]) rest
      else (first :: members) :: clusters tol l [] rest
  end.

(** Whether any member is strong, and the distinct types, the label first. *)
Definition clusterTags (ms : list Level) (label : string) : bool * string :=
  (existsb (λ m, strongType (xl_Type m)) ms,
   str_join "+" (foldl (λ tags m, if existsb (String.eqb (xl_Type m)) tags then tags else tags ++ [xl_Type m]) [label] ms)).

Definition merge_cluster (ms : list Level) : list Level :=
  match ms with
  | [] => []
  | first :: rest =>
      let best := foldl (λ best m, if levelPriority (xl_Type best) <? levelPriority (xl_Type m) then m else best) first rest in
      let oldest := foldl (λ oldest m, if t_before (xl_Since m) oldest then xl_Since m else oldest) (xl_Since first) rest in
      let '(strong, tags) := clusterTags ms (xl_Type best) in
      [best <| xl_Since := oldest |> <| xl_Strong := strong |> <| xl_Tags := tags |>
            <| xl_Touches := foldl (λ n m, Z.max n (xl_Touches m)) 0 ms |>]
  end.

Definition merge_levels (tol : Z) (sorted : list Level) : list Level :=
  match sorted with [] => [] | first :: rest => concat (merge_cluster <$> clusters tol first [] rest) end.

Definition same_level (a b : Level) : bool :=
  (xl_Price a =? xl_Price b) && String.eqb (xl_Type a) (xl_Type b) && String.eqb (xl_Tags a) (xl_Tags b) &&
  (xl_Touches a =? xl_Touches b).
Fixpoint sameLevels (a b : list Level) : bool :=
  match a, b with
  | [], [] => true
  | x :: a, y :: b => same_level x y && sameLevels a b
  | _, _ => false
  end.

Section merging.
Context `{SS : SliceSort}.

Definition rebuild (wall : Time) (b : LevelBook) : LevelBook :=
  if negb (lb_dirty b) then b
  else
    let now := if t_is_zero (lb_clock b) then wall else lb_clock b in
    let '(seen, raw) := foldl (λ acc l, add_raw now l acc) (lb_seen b, []) (raw_sources b) in
    let out := merge_levels (lb_mergeTol b) (slice_sort xl_Price raw) in
    let b := b <| lb_dirty := false |> <| lb_seen := seen |> in
    if sameLevels out (lb_merged b) then b
    else b <| lb_merged := out |> <| lb_version := lb_version b +! 1 |>.

Definition Version (wall : Time) (b : LevelBook) : Z * LevelBook := let b := rebuild wall b in (lb_version b, b).
Definition Levels (wall : Time) (b : LevelBook) : list Level * LevelBook := let b := rebuild wall b in (lb_merged b, b).
End merging.

(** The first level more than [tol] beyond a price, up or down. *)
Definition nextLevel (ls : list Level) (price sign tol : Z) : option Level :=
  if 0 <? sign then head (filter (λ l, price +! tol < xl_Price l) ls)
  else head (filter (λ l, xl_Price l < price -! tol) (reverse ls)).

(** ** The average true range of 1m candles *)

Fixpoint true_ranges (prev : TFCandle) (cs : list TFCandle) : list Z :=
  match cs with
  | [] => []
  | c :: cs =>
      let tr := tfc_High c -! tfc_Low c in
      let tr := Z.max tr (tfc_High c -! tfc_Close prev) in
      Z.max tr (tfc_Close prev -! tfc_Low c) :: true_ranges c cs
  end.

Definition computeATR (cs : list TFCandle) : option Z :=
  match cs with
  | c :: (_ :: _) as cs' =>
      let trs := true_ranges c (tail cs') in Some (foldl (λ sum tr, sum +! tr) 0 trs /! Z.of_nat (length trs))
  | _ => None
  end.

(** ** The merged list *)

(** [r] is [src], dated. *)
Definition dated (src r : Level) : Prop :=
  xl_Price r = xl_Price src ∧ xl_Type r = xl_Type src ∧ xl_Touches r = xl_Touches src.

Lemma raw_dated now srcs seen raw0 :
  ∃ raw, (foldl (λ acc l, add_raw now l acc) (seen, raw0) srcs).2 = raw0 ++ raw ∧
    Forall2 dated (filter (λ s, 0 < xl_Price s) srcs) raw.
Proof.
  revert seen raw0. induction srcs as [|s srcs IH]; intros seen raw0; [exists []; by rewrite app_nil_r|].
  cbn [foldl]. rewrite filter_cons. unfold add_raw at 2. destruct (Z.leb_spec (xl_Price s) 0) as [Hle|Hpos].
  - rewrite decide_False by lia. apply IH.
  - rewrite decide_True by lia.
    destruct (match seen !! xl_Price s with Some first => _ | None => _ end) as [since seen'].
    destruct (IH seen' (raw0 ++ [zero_Level <| xl_Price := xl_Price s |> <| xl_Type := xl_Type s |> <| xl_Since := since |>
      <| xl_Touches := xl_Touches s |>])) as (raw & Hraw & Hall).
    rewrite <-app_assoc in Hraw. eexists. split; [exact Hraw|]. simpl. by constructor.
Qed.

Definition by_price (x y : Level) : Prop := xl_Price x <= xl_Price y.

(** A group of the merge: its members in price order, within [tol] of the
    first. *)
Definition grouped (tol : Z) (g : list Level) : Prop :=
  match g with [] => False | first :: rest => Forall (λ m, xl_Price first <= xl_Price m <= xl_Price first + tol) rest end.

Definition prices_ok (l : list Level) : Prop := Forall (λ m, 0 < xl_Price m <= max_i64) l.

Lemma price_sub a b : 0 < xl_Price a <= max_i64 → 0 < xl_Price b <= max_i64 → xl_Price a -! xl_Price b = xl_Price a - xl_Price b.
Proof. intros. apply i64_id. i64_unfold. lia. Qed.

(** Every level of one group is below every level of a later one. *)
Definition apart (g h : list Level) : Prop := ∀ x y, x ∈ g → y ∈ h → xl_Price x < xl_Price y.

Lemma elem_of_concat' {A} (x : A) ls : x ∈ concat ls ↔ ∃ l, l ∈ ls ∧ x ∈ l.
Proof. rewrite list_elem_of_In, in_concat. by setoid_rewrite list_elem_of_In. Qed.

Lemma clusters_spec tol first members rest :
  0 <= tol → prices_ok (first :: members ++ rest) → grouped tol (first :: members) →
  StronglySorted by_price (first :: members ++ rest) →
  concat (clusters tol first members rest) = first :: members ++ rest ∧ Forall (grouped tol) (clusters tol first members rest) ∧
  StronglySorted apart (clusters tol first members rest).
Proof.
  intros Ht. revert first members. induction rest as [|l rest IH]; intros first members Hp Hg Hs; simpl.
  - rewrite !app_nil_r. split; [done|]. split; [by constructor|]. by repeat constructor.
  - inversion_clear Hp as [|? ? Hpf Hpr]. apply Forall_app in Hpr as Hpm. destruct Hpm as [Hpm Hpl]. inversion_clear Hpl as [|? ? Hl Hpl'].
    inversion_clear Hs as [|? ? Hsr Hall]. apply Forall_app in Hall as Hall'. destruct Hall' as [Ham Hal]. inversion_clear Hal as [|? ? Hfl Hfr].
    rewrite price_sub by done. unfold by_price in Hfl. destruct (Z.leb_spec (xl_Price l - xl_Price first) tol) as [Hle|Hgt].
    + specialize (IH first (members ++ [l])). rewrite <-!app_assoc in IH. apply IH; [by constructor| |by constructor].
      unfold grouped in *. apply Forall_app. split; [done|]. constructor; [lia|constructor].
    + apply StronglySorted_app_1_r in Hsr as Hsl.
      destruct (IH l []) as (Hc & Hgs & Hap); [by constructor|constructor|done|]. simpl in Hc. split; [simpl; by rewrite Hc|]. split; [by constructor|].
      constructor; [done|]. apply Forall_forall. intros h Hh x y Hx Hy.
      assert (y ∈ l :: rest) as Hyl.
      { rewrite <-Hc. by apply elem_of_concat'; exists h. }
      assert (xl_Price l <= xl_Price y) as Hly.
      { apply elem_of_cons in Hyl as [->|Hyr]; [lia|]. inversion_clear Hsl as [|? ? _ Hlr]. by apply (proj1 (Forall_forall _ _) Hlr y). }
      apply elem_of_cons in Hx as [->|Hx]; [lia|]. pose proof (proj1 (Forall_forall _ _) Hg x Hx). simpl in *. lia.
Qed.

(** What a group is merged into. *)
Record merged_into (g : list Level) (m : Level) : Prop := {
  mi_from : ∃ src, src ∈ g ∧ xl_Price m = xl_Price src ∧ xl_Type m = xl_Type src;
  mi_best : ∀ src, src ∈ g → levelPriority (xl_Type src) <= levelPriority (xl_Type m);
  mi_touches : ∀ src, src ∈ g → xl_Touches src <= xl_Touches m;
  mi_oldest : ∀ src, src ∈ g → xl_Since m <= xl_Since src;
  mi_strong : xl_Strong m = existsb (λ src, strongType (xl_Type src)) g;
}.

Lemma foldl_best (l : list Level) b0 :
  let b := foldl (λ best m, if levelPriority (xl_Type best) <? levelPriority (xl_Type m) then m else best) b0 l in
  b ∈ b0 :: l ∧ ∀ src, src ∈ b0 :: l → levelPriority (xl_Type src) <= levelPriority (xl_Type b).
Proof.
  cbv zeta. revert b0. induction l as [|m l IH]; intros b0; simpl.
  - split; [by left|]. intros src [->|H%elem_of_nil]%elem_of_cons; [lia|done].
  - destruct (Z.ltb_spec (levelPriority (xl_Type b0)) (levelPriority (xl_Type m))) as [Hlt|Hge];
      match goal with |- context [foldl _ ?b l] => destruct (IH b) as [Hin Hmax]; pose proof (Hmax b ltac:(by left)) end;
      (split; [set_solver|]); intros src [->|[->|H']%elem_of_cons]%elem_of_cons; solve [lia | apply Hmax; by right].
Qed.

Lemma foldl_oldest (l : list Level) t0 :
  let t := foldl (λ oldest m, if t_before (xl_Since m) oldest then xl_Since m else oldest) t0 l in
  t <= t0 ∧ ∀ src, src ∈ l → t <= xl_Since src.
Proof.
  cbv zeta. unfold t_before. revert t0. induction l as [|m l IH]; intros t0; simpl; [split; [lia|by intros ? ?%elem_of_nil]|].
  destruct (Z.ltb_spec (xl_Since m) t0);
    match goal with |- context [foldl _ ?t l] => destruct (IH t) as [Hle Hall] end;
    (split; [lia|]); intros src [->|H']%elem_of_cons; solve [lia | auto].
Qed.

Lemma foldl_touches (l : list Level) n0 :
  let n := foldl (λ n m, Z.max n (xl_Touches m)) n0 l in n0 <= n ∧ ∀ src, src ∈ l → xl_Touches src <= n.
Proof.
  cbv zeta. revert n0. induction l as [|m l IH]; intros n0; simpl; [split; [lia|by intros ? ?%elem_of_nil]|].
  destruct (IH (Z.max n0 (xl_Touches m))) as [Hle Hall]. split; [lia|].
  intros src [->|H']%elem_of_cons; [lia|auto].
Qed.

Lemma merge_cluster_spec tol g : grouped tol g → ∃ m, merge_cluster g = [m] ∧ merged_into g m.
Proof.
  destruct g as [|first rest]; [done|]. intros _. unfold merge_cluster.
  destruct (foldl_best rest first) as [Hin Hbest]. cbv zeta in Hin, Hbest.
  set (best := foldl _ first rest) in *. destruct (clusterTags (first :: rest) (xl_Type best)) as [strong tags] eqn:Htags.
  eexists. split; [reflexivity|]. split; cbn -[foldl levelPriority].
  - by exists best.
  - exact Hbest.
  - apply (foldl_touches (first :: rest) 0).
  - destruct (foldl_oldest rest (xl_Since first)) as [Hle Hall].
    intros src [->|Hs]%elem_of_cons; [exact Hle|by apply Hall].
  - unfold clusterTags in Htags. by injection Htags as <- _.
Qed.

(** What readers of a level go by. *)
Definition level_view (l : Level) : Z * string * Z := (xl_Price l, xl_Type l, xl_Touches l).

Lemma sameLevels_view a b : sameLevels a b = true → level_view <$> a = level_view <$> b.
Proof.
  revert b. induction a as [|x a IH]; intros [|y b]; simpl; try done. unfold same_level, level_view. intros H. bool_prop.
  f_equal; [congruence|auto].
Qed.

(** The list [vs] of levels stands for the sources: sorted, each source
    within [tol] of a level of at least its priority and touches, each level
    a source's. *)
Definition merges (tol : Z) (srcs : list Level) (vs : list (Z * string * Z)) : Prop :=
  StronglySorted (λ v w, v.1.1 < w.1.1) vs ∧
  (∀ src, src ∈ srcs → 0 < xl_Price src → ∃ v, v ∈ vs ∧ Z.abs (v.1.1 - xl_Price src) <= tol ∧
     levelPriority (xl_Type src) <= levelPriority v.1.2 ∧ xl_Touches src <= v.2) ∧
  (∀ v, v ∈ vs → ∃ src, src ∈ srcs ∧ 0 < xl_Price src ∧ v.1 = (xl_Price src, xl_Type src)).

Lemma merge_groups tol gs :
  Forall (grouped tol) gs → ∃ ms, concat (merge_cluster <$> gs) = ms ∧ Forall2 merged_into gs ms.
Proof.
  induction 1 as [|g gs Hg _ (ms & Hms & IH)]; [by exists []|]. destruct (merge_cluster_spec tol g Hg) as (m & Hm & Hinto).
  exists (m :: ms). rewrite fmap_cons. cbn [concat]. rewrite Hm, Hms. split; [done|]. by constructor.
Qed.

Lemma grouped_near tol g x y : 0 <= tol → grouped tol g → x ∈ g → y ∈ g → Z.abs (xl_Price x - xl_Price y) <= tol.
Proof.
  destruct g as [|first rest]; [done|]. intros Ht Hg.
  assert (∀ z, z ∈ first :: rest → xl_Price first <= xl_Price z <= xl_Price first + tol) as Hz.
  { intros z [->|Hz]%elem_of_cons; [lia|]. by apply (proj1 (Forall_forall _ _) Hg). }
  intros Hx%Hz Hy%Hz. lia.
Qed.

Lemma Forall2_in_r {A B} (P : A → B → Prop) l k y : Forall2 P l k → y ∈ k → ∃ x, x ∈ l ∧ P x y.
Proof. induction 1; [by intros ?%elem_of_nil|]. intros [->|Hy]%elem_of_cons; set_solver. Qed.
Lemma Forall2_in_l {A B} (P : A → B → Prop) l k x : Forall2 P l k → x ∈ l → ∃ y, y ∈ k ∧ P x y.
Proof. induction 1; [by intros ?%elem_of_nil|]. intros [->|Hx]%elem_of_cons; set_solver. Qed.

Lemma groups_apart gs ms : Forall2 merged_into gs ms → StronglySorted apart gs → StronglySorted (λ v w, v.1.1 < w.1.1) (level_view <$> ms).
Proof.
  induction 1 as [|g m gs ms Hm Hms IH]; intros Ha; [constructor|]. inversion_clear Ha as [|? ? Ha' Hall].
  simpl. constructor; [by apply IH|]. apply Forall_forall. intros v (l & -> & Hl)%list_elem_of_fmap.
  destruct (Forall2_in_r _ _ _ _ Hms Hl) as (h & Hh & Hinto). destruct (mi_from _ _ Hm) as (x & Hx & Hxp & _).
  destruct (mi_from _ _ Hinto) as (y & Hy & Hyp & _). simpl. rewrite Hxp, Hyp. by apply (proj1 (Forall_forall _ _) Hall h).
Qed.

Lemma merge_levels_spec tol sorted :
  0 <= tol → prices_ok sorted → StronglySorted by_price sorted → merges tol sorted (level_view <$> merge_levels tol sorted).
Proof.
  intros Ht Hp Hs. unfold merge_levels. destruct sorted as [|first rest].
  { split; [constructor|]. split; [by intros ? ?%elem_of_nil|by intros ? ?%elem_of_nil]. }
  destruct (clusters_spec tol first [] rest) as (Hc & Hg & Ha); [done|done|constructor|done|]. simpl in Hc.
  cbv iota. destruct (merge_groups tol _ Hg) as (ms & -> & Hms). rewrite <-Hc in Hp |- *. clear Hc.
  revert Hg Ha Hp Hms. generalize (clusters tol first [] rest). clear -Ht. intros gs Hg Ha Hp Hms. split; [|split].
  - by eapply groups_apart.
  - intros src (g & Hgin & Hsrc)%elem_of_concat' Hpos. destruct (Forall2_in_l _ _ _ _ Hms Hgin) as (m & Hm & Hinto).
    exists (level_view m). split; [apply list_elem_of_fmap; by exists m|]. destruct (mi_from _ _ Hinto) as (x & Hx & Hxp & _).
    simpl. rewrite Hxp. split; [apply (grouped_near tol g); try done; by apply (proj1 (Forall_forall _ _) Hg)|].
    split; [by apply (mi_best _ _ Hinto)|by apply (mi_touches _ _ Hinto)].
  - intros v (m & -> & Hm)%list_elem_of_fmap. destruct (Forall2_in_r _ _ _ _ Hms Hm) as (g & Hgin & Hinto).
    destruct (mi_from _ _ Hinto) as (x & Hx & Hxp & Hxt). assert (x ∈ concat gs) as Hxs by (apply elem_of_concat'; by exists g).
    exists x. split; [done|]. split; [by apply (proj1 (Forall_forall _ _) Hp)|]. simpl. by rewrite Hxp, Hxt.
Qed.

Lemma merges_dated tol srcs raw sorted vs :
  Forall2 dated (filter (λ s, 0 < xl_Price s) srcs) raw → sorted ≡ₚ raw → merges tol sorted vs → merges tol srcs vs.
Proof.
  intros Hd Hperm (Hs & Hall & Hfrom). split; [done|]. split.
  - intros src Hin Hpos. assert (src ∈ filter (λ s, 0 < xl_Price s) srcs) as Hf by (by apply list_elem_of_filter).
    destruct (Forall2_in_l _ _ _ _ Hd Hf) as (r & Hr & Hp & Hty & Hto). destruct (Hall r) as (v & Hv & Hnear & Hprio & Htouch);
      [by rewrite Hperm|by rewrite Hp|]. rewrite Hp, Hty, Hto in *. by exists v.
  - intros v (r & Hr & Hpos & Hv)%Hfrom. rewrite Hperm in Hr. destruct (Forall2_in_r _ _ _ _ Hd Hr) as (src & Hf & Hp & Hty & _).
    apply list_elem_of_filter in Hf as [Hpos' Hin]. exists src. by rewrite <-Hp, <-Hty.
Qed.

Section merged_list.
Context `{SS : SliceSort}.

(** Reading the level book gives today's levels merged: one list in
    strictly rising price order in which every source (day range, opening
    range, swings, the analyst's and our strategy's levels) is within the
    merge tolerance of a level of at least its priority and its touches, and
    in which every level is the price and type of a source; reading it again
    changes nothing.  However the sort orders equal prices. *)
Theorem levels_merge_sources wall wall' b :
  lb_dirty b = true → 0 <= lb_mergeTol b → Forall (λ s, xl_Price s <= max_i64) (raw_sources b) →
  let '(ls, b') := Levels wall b in
  merges (lb_mergeTol b) (raw_sources b) (level_view <$> ls) ∧ Levels wall' b' = (ls, b').
Proof.
  intros Hdirty Ht Hp. unfold Levels, rebuild. rewrite Hdirty. simpl negb. cbv iota.
  set (now := if t_is_zero _ then wall else _). destruct (raw_dated now (raw_sources b) (lb_seen b) []) as (raw & Hraw & Hd).
  destruct (foldl _ _ _) as [seen raw'] eqn:Hfold. simpl in Hraw. subst raw'. simpl lb_merged at 1. clear Hfold.
  assert (prices_ok (slice_sort xl_Price raw)) as Hok.
  { unfold prices_ok. rewrite slice_sort_perm. apply Forall_forall. intros r Hr.
    destruct (Forall2_in_r _ _ _ _ Hd Hr) as (src & [Hpos Hin]%list_elem_of_filter & -> & _).
    by split; [|apply (proj1 (Forall_forall _ _) Hp)]. }
  pose proof (merge_levels_spec (lb_mergeTol b) _ Ht Hok (slice_sort_sorted xl_Price raw)) as Hm.
  apply (merges_dated _ _ _ _ _ Hd (slice_sort_perm _ _)) in Hm.
  destruct (sameLevels _ _) eqn:Hsame; simpl; [|by split].
  split; [|done]. by rewrite <-(sameLevels_view _ _ Hsame).
Qed.
End merged_list.

(** A book with an opening range, a 1h swing near the day's high and one of
    our levels. *)
Definition sample_book : LevelBook :=
  (SetOurSR [OurSRLevel 2500000 "SWING" 4]
    (book_tick 2510300 (20458 * 86400 * Second + 4 * Hour) (NewLevelBook {|
       bt_FractalBars := 2; bt_ORBMin := 15; bt_LevelMergeTolPaise := 500; bt_HTFFractalBars := 2; bt_HTFLookbackDays := 5 |})))
  <| lb_htf := {[ 3600 := {| hs_bars := []; hs_swings :=
     [zero_Level <| xl_Price := 2510000 |> <| xl_Type := LevelSwingHigh1h |> <| xl_Since := 20457 * 86400 * Second |>] |} ]} |>.

Lemma levels_merge_sources_witness :
  let '(ls, b') := Levels (SS := insertion_sort) 0 sample_book in
  merges (lb_mergeTol sample_book) (raw_sources sample_book) (level_view <$> ls) ∧
  Levels (SS := insertion_sort) 1 b' = (ls, b').
Proof.
  apply (levels_merge_sources (SS := insertion_sort) 0 1 sample_book); [reflexivity|vm_compute; discriminate|].
  apply (bool_decide_eq_true_1 _). vm_compute. reflexivity.
Defined.

(** The sample's two clusters. *)
Example sample_book_levels :
  level_view <$> (Levels (SS := insertion_sort) 0 sample_book).1 =
    [(2500000, "OUR_SR:SWING", 4); (2510000, LevelSwingHigh1h, 0)].
Proof. vm_compute. reflexivity. Qed.
