(* ===== verification/ExitScore.v ===== *)
(** Tuning, score and decision of the exit watch (internal/exitwatch:
    params.go, score.go).  The arrays indexed by feature are functions of the
    feature; [math.Exp], whose last bit differs between platforms, is a
    parameter.  The JSON of the tuning file is not modelled. *)
From S2P Require Import Prelude Float64 GoText ExitLevels.
#[local] Open Scope Z_scope.
#[local] Open Scope go_scope.

(** ** Tuning (params.go) *)

Inductive Feature :=
  | FGiveback | FStall | FVelocity | FImbalance | FLowerHighs | FWick | FPremDiv | FSpread | FOIChange | FPullbackATR
  | FTimePressure.

#[export] Instance Feature_eq_dec : EqDecision Feature.
Proof. solve_decision. Defined.

(** In index order. *)
Definition all_features : list Feature :=
  [FGiveback; FStall; FVelocity; FImbalance; FLowerHighs; FWick; FPremDiv; FSpread; FOIChange; FPullbackATR; FTimePressure].

Definition featureName (f : Feature) : string :=
  match f with
  | FGiveback => "giveback" | FStall => "stall" | FVelocity => "velocity" | FImbalance => "imbalance"
  | FLowerHighs => "lower_highs" | FWick => "wick" | FPremDiv => "prem_div" | FSpread => "spread"
  | FOIChange => "oi_change" | FPullbackATR => "pullback_atr" | FTimePressure => "time_pressure"
  end.

Record Params := {
  pr_Bias : float64; pr_Weights : gmap string float64;
  pr_ExitP : float64; pr_TightenP : float64; pr_ConfirmSec : float64; pr_MinPeakProgress : float64;
  pr_ProtectPeakProgress : float64; pr_ProtectGiveback : float64; pr_PremiumBufferPct : float64; pr_TightenKeepPct : float64;
  pr_TimeExitMin : Z;
  pr_RunnerLockPct : float64; pr_RunnerMinRoomPct : float64; pr_RejectATR : float64; pr_RejectMinPaise : Z;
  pr_LevelTolATR : float64; pr_LevelTolMinPaise : Z; pr_BreakHoldSec : float64; pr_RunnerGiveback : float64;
  pr_GhostMaxMin : Z; pr_GhostEndMin : Z;
  pr_EarlyFailWindowSec : Z; pr_EarlyFailRiskPct : float64; pr_EarlyFailMinPaise : Z; pr_EarlyFailMaxPeakPaise : Z;
  pr_PreRejectEnabled : bool; pr_PreRejectMinRoomPct : float64; pr_PreRejectMinMovePaise : Z; pr_PreRejectConfirmClose : bool;
  pr_PreRejectSources : list string; pr_PreRejectMaxADX : float64; pr_PreRejectMinTouches : Z;
  pr_FractalBars : Z; pr_ORBMin : Z; pr_LevelMergeTolPaise : Z; pr_HTFFractalBars : Z; pr_HTFLookbackDays : Z }.

#[export] Instance Params_settable : Settable Params := λ p, {|
  pr_Bias := pr_Bias p; pr_Weights := pr_Weights p; pr_ExitP := pr_ExitP p; pr_TightenP := pr_TightenP p;
  pr_ConfirmSec := pr_ConfirmSec p; pr_MinPeakProgress := pr_MinPeakProgress p;
  pr_ProtectPeakProgress := pr_ProtectPeakProgress p; pr_ProtectGiveback := pr_ProtectGiveback p;
  pr_PremiumBufferPct := pr_PremiumBufferPct p; pr_TightenKeepPct := pr_TightenKeepPct p; pr_TimeExitMin := pr_TimeExitMin p;
  pr_RunnerLockPct := pr_RunnerLockPct p; pr_RunnerMinRoomPct := pr_RunnerMinRoomPct p; pr_RejectATR := pr_RejectATR p;
  pr_RejectMinPaise := pr_RejectMinPaise p; pr_LevelTolATR := pr_LevelTolATR p; pr_LevelTolMinPaise := pr_LevelTolMinPaise p;
  pr_BreakHoldSec := pr_BreakHoldSec p; pr_RunnerGiveback := pr_RunnerGiveback p; pr_GhostMaxMin := pr_GhostMaxMin p;
  pr_GhostEndMin := pr_GhostEndMin p; pr_EarlyFailWindowSec := pr_EarlyFailWindowSec p;
  pr_EarlyFailRiskPct := pr_EarlyFailRiskPct p; pr_EarlyFailMinPaise := pr_EarlyFailMinPaise p;
  pr_EarlyFailMaxPeakPaise := pr_EarlyFailMaxPeakPaise p; pr_PreRejectEnabled := pr_PreRejectEnabled p;
  pr_PreRejectMinRoomPct := pr_PreRejectMinRoomPct p; pr_PreRejectMinMovePaise := pr_PreRejectMinMovePaise p;
  pr_PreRejectConfirmClose := pr_PreRejectConfirmClose p; pr_PreRejectSources := pr_PreRejectSources p;
  pr_PreRejectMaxADX := pr_PreRejectMaxADX p; pr_PreRejectMinTouches := pr_PreRejectMinTouches p;
  pr_FractalBars := pr_FractalBars p; pr_ORBMin := pr_ORBMin p; pr_LevelMergeTolPaise := pr_LevelMergeTolPaise p;
  pr_HTFFractalBars := pr_HTFFractalBars p; pr_HTFLookbackDays := pr_HTFLookbackDays p |}.

Definition DefaultParams : Params := {|
  pr_Bias := f64_of_int (-4);
  pr_Weights := list_to_map [
    ("giveback", f64_frac 5 2); ("stall", f64_of_int 1); ("velocity", f64_frac 3 2); ("imbalance", f64_of_int 1);
    ("lower_highs", f64_frac 8 10); ("wick", f64_frac 8 10); ("prem_div", f64_frac 12 10); ("spread", f64_frac 4 10);
    ("oi_change", f64_frac 3 10); ("pullback_atr", f64_of_int 1); ("time_pressure", f64_frac 8 10)];
  pr_ExitP := f64_frac 7 10; pr_TightenP := f64_frac 5 10; pr_ConfirmSec := f64_of_int 3; pr_MinPeakProgress := f64_frac 4 10;
  pr_ProtectPeakProgress := f64_frac 6 10; pr_ProtectGiveback := f64_frac 5 10; pr_PremiumBufferPct := f64_frac 5 100;
  pr_TightenKeepPct := f64_frac 3 10; pr_TimeExitMin := 15 * 60 + 10;
  pr_RunnerLockPct := f64_frac 7 10; pr_RunnerMinRoomPct := f64_frac 3 10; pr_RejectATR := f64_frac 25 100;
  pr_RejectMinPaise := 500; pr_LevelTolATR := f64_frac 1 10; pr_LevelTolMinPaise := 300; pr_BreakHoldSec := f64_of_int 30;
  pr_RunnerGiveback := f64_frac 5 10; pr_GhostMaxMin := 60; pr_GhostEndMin := 15 * 60 + 25;
  pr_EarlyFailWindowSec := 300; pr_EarlyFailRiskPct := f64_frac 5 10; pr_EarlyFailMinPaise := 800;
  pr_EarlyFailMaxPeakPaise := 500;
  pr_PreRejectEnabled := true; pr_PreRejectMinRoomPct := f64_frac 3 10; pr_PreRejectMinMovePaise := 1000;
  pr_PreRejectConfirmClose := true; pr_PreRejectSources := [SourceOurSR]; pr_PreRejectMaxADX := f64_zero;
  pr_PreRejectMinTouches := 0;
  pr_FractalBars := 2; pr_ORBMin := 15; pr_LevelMergeTolPaise := 500; pr_HTFFractalBars := 2; pr_HTFLookbackDays := 5 |}.

Definition featureIndex (name : string) : option Feature := head (filter (λ f, featureName f = name) all_features).

(** [Model]. *)
Record WatchModel := { wm_Params : Params; wm_W : Feature → float64; wm_confirmN : Z; wm_breakN : Z }.

Definition Compile (p : Params) : WatchModel := {|
  wm_Params := p; wm_W := λ f, default f64_zero (pr_Weights p !! featureName f);
  wm_confirmN := f64_to_int (f64_mul (pr_ConfirmSec p) (f64_of_int 1000000000));
  wm_breakN := f64_to_int (f64_mul (pr_BreakHoldSec p) (f64_of_int 1000000000)) |}.

Definition tuning_of (p : Params) : BookTuning := {|
  bt_FractalBars := pr_FractalBars p; bt_ORBMin := pr_ORBMin p; bt_LevelMergeTolPaise := pr_LevelMergeTolPaise p;
  bt_HTFFractalBars := pr_HTFFractalBars p; bt_HTFLookbackDays := pr_HTFLookbackDays p |}.

(** ** Score (score.go) *)

Definition Decision := string.
Definition DecisionHold : Decision := "HOLD".
Definition DecisionTighten : Decision := "TIGHTEN".
Definition DecisionExit : Decision := "EXIT".

Record Snapshot := {
  sn_Progress : float64; sn_PeakProgress : float64; sn_Giveback : float64; sn_Raw : Feature → float64;
  sn_Z : Feature → float64; sn_Present : Feature → bool }.

#[export] Instance Snapshot_settable : Settable Snapshot := λ s, {|
  sn_Progress := sn_Progress s; sn_PeakProgress := sn_PeakProgress s; sn_Giveback := sn_Giveback s; sn_Raw := sn_Raw s;
  sn_Z := sn_Z s; sn_Present := sn_Present s |}.

Definition zero_Snapshot : Snapshot := {|
  sn_Progress := f64_zero; sn_PeakProgress := f64_zero; sn_Giveback := f64_zero; sn_Raw := λ _, f64_zero; sn_Z := λ _, f64_zero;
  sn_Present := λ _, false |}.

Definition minReasonContrib : float64 := f64_frac 25 100.

(** The next best contribution above the floor, of features not yet used. *)
Definition best_feature (contrib : Feature → float64) (used : list Feature) : option Feature :=
  (foldl (λ '(best, bestV) f,
     if negb (bool_decide (f ∈ used)) && f64_ltb bestV (contrib f) then (Some f, contrib f) else (best, bestV))
     (None, minReasonContrib) all_features).1.

Fixpoint top_features (n : nat) (contrib : Feature → float64) (used : list Feature) : list Feature :=
  match n with
  | O => []
  | S n => match best_feature contrib used with None => [] | Some f => f :: top_features n contrib (f :: used) end
  end.

Section score.
Context `{ME : MathExp}.

(** The probability of a reversal and the top contributing features. *)
Definition score (m : WatchModel) (s : Snapshot) : float64 * list Feature :=
  let sum fs := foldl (λ t f, f64_add t (wm_W m f)) f64_zero fs in
  let total := sum all_features in
  let present := sum (filter (λ f, sn_Present s f = true) all_features) in
  let scale := if f64_ltb f64_zero present then f64_div total present else f64_of_int 1 in
  let contrib f := if sn_Present s f then f64_mul (f64_mul (wm_W m f) (sn_Z s f)) scale else f64_zero in
  let sum := foldl (λ t f, if sn_Present s f then f64_add t (contrib f) else t) (pr_Bias (wm_Params m)) all_features in
  (f64_div (f64_of_int 1) (f64_add (f64_of_int 1) (math_exp (f64_neg sum))), top_features 3 contrib []).
End score.

Record decider := { dc_aboveSince : Z; dc_latched : bool; dc_reason : string }.
Definition zero_decider : decider := {| dc_aboveSince := 0; dc_latched := false; dc_reason := "" |}.

Definition latch (reason : string) (d : decider) : decider := {|
  dc_aboveSince := dc_aboveSince d; dc_latched := true; dc_reason := reason |}.

(** [decider.step]. *)
Definition decide_step (m : WatchModel) (s : Snapshot) (p : float64) (premOK : bool) (now : Z) (d : decider) :
    Decision * string * decider :=
  let pr := wm_Params m in
  if dc_latched d then (DecisionExit, dc_reason d, d)
  else if f64_leb (pr_ProtectPeakProgress pr) (sn_PeakProgress s) && f64_leb (pr_ProtectGiveback pr) (sn_Giveback s) then
    (DecisionExit, "PROTECT", latch "PROTECT" d)
  else
    let advise d := if f64_leb (pr_TightenP pr) p then (DecisionTighten, "", d) else (DecisionHold, "", d) in
    let since t := {| dc_aboveSince := t; dc_latched := dc_latched d; dc_reason := dc_reason d |} in
    if f64_leb (pr_ExitP pr) p then
      let d := since (if dc_aboveSince d =? 0 then now else dc_aboveSince d) in
      if (wm_confirmN m <=? now -! dc_aboveSince d) && f64_leb (pr_MinPeakProgress pr) (sn_PeakProgress s) && premOK then
        (DecisionExit, "SCORE", latch "SCORE" d)
      else advise d
    else advise (since 0).

Definition clip01 (x : float64) : float64 :=
  if f64_ltb x f64_zero then f64_zero else if f64_ltb (f64_of_int 1) x then f64_of_int 1 else x.
