(* ===== verification/ExitTracker.v ===== *)
(** One position under the exit watch (internal/exitwatch: tracker.go,
    runner.go, prereject.go): its ring buffers of one-second bars and tick
    directions, the features, the pre-target rejection rule, the runner past
    the target, and the assessment.

    [None] is a panic (an index out of range).  A tracker's book is shared
    with the engine; an assessment rebuilds the book at most once and only
    reads it afterwards, so [Evaluate] takes the rebuilt list. *)
From S2P Require Import Prelude Float64 GoText Model MarketHours Indicators RangeContext ExitLevels ExitScore.
#[local] Open Scope Z_scope.
#[local] Open Scope go_scope.

(** ** Ring buffers *)

Record ring (A : Type) := { rg_items : list A; rg_head : Z; rg_count : Z }.
Arguments rg_items {A}. Arguments rg_head {A}. Arguments rg_count {A}.

Definition ring_new {A} (n : Z) (x : A) : ring A := {| rg_items := replicate (Z.to_nat n) x; rg_head := 0; rg_count := 0 |}.

Definition ring_push {A} (n : Z) (x : A) (r : ring A) : ring A :=
  let head := (rg_head r + 1) mod n in {|
  rg_items := <[Z.to_nat head := x]> (rg_items r); rg_head := head;
  rg_count := if rg_count r <? n then rg_count r + 1 else rg_count r |}.

(** The newest item changed in place. *)
Definition ring_alter {A} (f : A → A) (r : ring A) : ring A := {|
  rg_items := alter f (Z.to_nat (rg_head r)) (rg_items r); rg_head := rg_head r; rg_count := rg_count r |}.

(** The items kept, newest first: slot [(head - i + n) % n] for [i] below
    the count. *)
Definition ring_recent {A} (n : Z) (r : ring A) : list A :=
  omap (λ i, rg_items r !! Z.to_nat ((rg_head r - Z.of_nat i + n) mod n)) (seq 0 (Z.to_nat (rg_count r))).

(** ** State *)

Record microBar := { mb_sec : Z; mb_hi : Z; mb_lo : Z; mb_close : Z }.
Record tickDir := { td_ts : Z; td_dir : Z }.
Definition barRing : Z := 128.
Definition dirRing : Z := 1024.

Definition Phase := string.
Definition PhaseNormal : Phase := "NORMAL".
Definition PhaseRunner : Phase := "RUNNER".
Definition PhaseGhost : Phase := "GHOST".
Definition ActionWatchHold : string := "WATCH_HOLD".
Definition ActionWatchTighten : string := "WATCH_TIGHTEN".
Definition ActionWatchExit : string := "WATCH_EXIT".
Definition ReasonTargetTake : string := "TARGET_TAKE".
Definition ReasonLock : string := "LOCK".
Definition ReasonSRReject : string := "SR_REJECT".
Definition ReasonRunTrail : string := "RUN_TRAIL".
Definition ReasonEarlyFail : string := "EARLY_FAIL".
Definition ReasonPreReject : string := "SR_REJECT_PRE".

Record Event := { ev_Action : string; ev_Reason : string; ev_Text : string }.

Record runner := {
  rn_phase : Phase; rn_decided : bool; rn_start : Time; rn_lockMove : Z; rn_next : option Level; rn_runPeak : Z; rn_pbLow : Z;
  rn_touched : bool; rn_beyondSince : Z; rn_bookVer : Z; rn_micro : list Level }.

#[export] Instance runner_settable : Settable runner := λ r, {|
  rn_phase := rn_phase r; rn_decided := rn_decided r; rn_start := rn_start r; rn_lockMove := rn_lockMove r;
  rn_next := rn_next r; rn_runPeak := rn_runPeak r; rn_pbLow := rn_pbLow r; rn_touched := rn_touched r;
  rn_beyondSince := rn_beyondSince r; rn_bookVer := rn_bookVer r; rn_micro := rn_micro r |}.

(** [next] and [hasNext] are one option: the level is read only when there is
    one, except in the text of a rejection, where it was touched. *)
Definition zero_runner : runner := {|
  rn_phase := ""; rn_decided := false; rn_start := zero_time; rn_lockMove := 0; rn_next := None; rn_runPeak := 0; rn_pbLow := 0;
  rn_touched := false; rn_beyondSince := 0; rn_bookVer := 0; rn_micro := [] |}.

Record preReject := {
  pj_level : option Level; pj_touched : bool; pj_touchNs : Z; pj_peak : Z; pj_beyondSince : Z }.

#[export] Instance preReject_settable : Settable preReject := λ r, {|
  pj_level := pj_level r; pj_touched := pj_touched r; pj_touchNs := pj_touchNs r; pj_peak := pj_peak r;
  pj_beyondSince := pj_beyondSince r |}.

Definition zero_preReject : preReject := {|
  pj_level := None; pj_touched := false; pj_touchNs := 0; pj_peak := 0; pj_beyondSince := 0 |}.

Record Tracker := {
  tr_pos : PositionContext; tr_m : WatchModel; tr_sign : Z; tr_targetMove : Z;
  tr_haveIdx : bool; tr_idxLTP : Z; tr_lastMove : Z; tr_peakMove : Z; tr_peakTS : Z;
  tr_bars : ring microBar; tr_dirs : ring tickDir;
  tr_minute : Z; tr_mOpen : Z; tr_mHi : Z; tr_mLo : Z; tr_mClose : Z;
  tr_prem : Z; tr_peakPrem : Z; tr_spread : Z; tr_spreadAvg : float64; tr_oi : Z; tr_oiFirst : Z; tr_atr : Z;
  tr_dec : decider; tr_run : runner; tr_events : list Event; tr_exitText : string; tr_ghost : bool; tr_earlyFailSent : bool;
  tr_pre : preReject; tr_lastClose : Z; tr_lastCloseTS : Time }.

#[export] Instance Tracker_settable : Settable Tracker := λ t, {|
  tr_pos := tr_pos t; tr_m := tr_m t; tr_sign := tr_sign t; tr_targetMove := tr_targetMove t; tr_haveIdx := tr_haveIdx t;
  tr_idxLTP := tr_idxLTP t; tr_lastMove := tr_lastMove t; tr_peakMove := tr_peakMove t; tr_peakTS := tr_peakTS t;
  tr_bars := tr_bars t; tr_dirs := tr_dirs t; tr_minute := tr_minute t; tr_mOpen := tr_mOpen t; tr_mHi := tr_mHi t;
  tr_mLo := tr_mLo t; tr_mClose := tr_mClose t; tr_prem := tr_prem t; tr_peakPrem := tr_peakPrem t; tr_spread := tr_spread t;
  tr_spreadAvg := tr_spreadAvg t; tr_oi := tr_oi t; tr_oiFirst := tr_oiFirst t; tr_atr := tr_atr t; tr_dec := tr_dec t;
  tr_run := tr_run t; tr_events := tr_events t; tr_exitText := tr_exitText t; tr_ghost := tr_ghost t;
  tr_earlyFailSent := tr_earlyFailSent t; tr_pre := tr_pre t; tr_lastClose := tr_lastClose t;
  tr_lastCloseTS := tr_lastCloseTS t |}.

Definition zero_microBar : microBar := {| mb_sec := 0; mb_hi := 0; mb_lo := 0; mb_close := 0 |}.
Definition zero_tickDir : tickDir := {| td_ts := 0; td_dir := 0 |}.

(** [None]: an error, the position is not tracked. *)
Definition NewTracker (pos : PositionContext) (m : WatchModel) : option Tracker :=
  sign ← (if String.eqb (pc_Side pos) "CALL" then Some 1 else if String.eqb (pc_Side pos) "PUT" then Some (-1) else None);
  let tm := (pc_TargetLevel pos -! pc_IndexEntry pos) *! sign in
  if tm <=? 0 then None
  else Some {|
    tr_pos := pos; tr_m := m; tr_sign := sign; tr_targetMove := tm; tr_haveIdx := false; tr_idxLTP := 0; tr_lastMove := 0;
    tr_peakMove := 0; tr_peakTS := 0; tr_bars := ring_new barRing zero_microBar; tr_dirs := ring_new dirRing zero_tickDir;
    tr_minute := 0; tr_mOpen := 0; tr_mHi := 0; tr_mLo := 0; tr_mClose := 0; tr_prem := 0; tr_peakPrem := 0; tr_spread := 0;
    tr_spreadAvg := f64_zero; tr_oi := 0; tr_oiFirst := 0; tr_atr := 0; tr_dec := zero_decider; tr_run := zero_runner;
    tr_events := []; tr_exitText := ""; tr_ghost := false; tr_earlyFailSent := false; tr_pre := zero_preReject;
    tr_lastClose := 0; tr_lastCloseTS := zero_time |}.

Definition run_phase_normal (t : Tracker) : bool :=
  String.eqb (rn_phase (tr_run t)) PhaseNormal || String.eqb (rn_phase (tr_run t)) "".

Definition tracker_Phase (t : Tracker) : Phase :=
  if tr_ghost t then PhaseGhost
  else if String.eqb (rn_phase (tr_run t)) "" then PhaseNormal else rn_phase (tr_run t).

Definition InRunner (t : Tracker) : bool := String.eqb (rn_phase (tr_run t)) PhaseRunner.

Definition SetModel (m : WatchModel) (t : Tracker) : Tracker := t <| tr_m := m |>.
Definition SetATR (atr : Z) (t : Tracker) : Tracker := t <| tr_atr := atr |>.

Definition OnMinuteClose (close : Z) (ts : Time) (t : Tracker) : Tracker :=
  if t_after ts (tr_lastCloseTS t) then t <| tr_lastClose := close |> <| tr_lastCloseTS := ts |> else t.

(** ** Ticks *)

Definition moveOf (price : Z) (t : Tracker) : Z := (price -! pc_IndexEntry (tr_pos t)) *! tr_sign t.
Definition levelPrice (move : Z) (t : Tracker) : Z := pc_IndexEntry (tr_pos t) +! tr_sign t *! move.

Definition note_dir (now mv : Z) (t : Tracker) : Tracker :=
  if tr_haveIdx t && negb (mv =? tr_lastMove t)
  then t <| tr_dirs := ring_push dirRing {| td_ts := now; td_dir := if mv <? tr_lastMove t then -1 else 1 |} (tr_dirs t) |>
  else t.

Definition note_bar (now mv : Z) (t : Tracker) : Tracker :=
  let sec := now /! Second in
  let same := match head (ring_recent barRing (tr_bars t)) with Some b => mb_sec b =? sec | None => false end in
  if same then
    t <| tr_bars := ring_alter (λ b, {| mb_sec := mb_sec b; mb_hi := Z.max (mb_hi b) mv; mb_lo := Z.min (mb_lo b) mv;
                                         mb_close := mv |}) (tr_bars t) |>
  else t <| tr_bars := ring_push barRing {| mb_sec := sec; mb_hi := mv; mb_lo := mv; mb_close := mv |} (tr_bars t) |>.

Definition note_minute (now mv : Z) (t : Tracker) : Tracker :=
  let min := now /! Minute in
  let t := if min =? tr_minute t then t
           else t <| tr_minute := min |> <| tr_mOpen := mv |> <| tr_mHi := mv |> <| tr_mLo := mv |> in
  t <| tr_mHi := Z.max (tr_mHi t) mv |> <| tr_mLo := Z.min (tr_mLo t) mv |> <| tr_mClose := mv |>.

Definition OnIndexTick (price : Z) (ts : Time) (t : Tracker) : Tracker :=
  let now := t_unix_nano ts in
  let mv := moveOf price t in
  let t := note_dir now mv t in
  let t := if negb (tr_haveIdx t) || (tr_peakMove t <? mv) then t <| tr_peakMove := mv |> <| tr_peakTS := now |> else t in
  let t := t <| tr_haveIdx := true |> <| tr_idxLTP := price |> <| tr_lastMove := mv |> in
  note_minute now mv (note_bar now mv t).

Definition OnOptionTick (price bid ask oi : Z) (t : Tracker) : Tracker :=
  let t := if 0 <? price then t <| tr_prem := price |> <| tr_peakPrem := Z.max (tr_peakPrem t) price |> else t in
  let t :=
    if (0 <? bid) && (bid <? ask) then
      let spread := ask -! bid in
      t <| tr_spread := spread |>
        <| tr_spreadAvg := if f64_eqb (tr_spreadAvg t) f64_zero then #spread
                           else tr_spreadAvg t ⊕ f64_frac 5 100 ⊗ (#spread ⊖ tr_spreadAvg t) |>
    else t in
  if 0 <? oi then t <| tr_oi := oi |> <| tr_oiFirst := if tr_oiFirst t =? 0 then oi else tr_oiFirst t |> else t.

(** ** Features *)

(** Favourable move per second over the last seconds: against the newest bar
    old enough, the oldest kept when none is. *)
Fixpoint velocity_ref (target : Z) (older : list microBar) : option microBar :=
  match older with
  | [] => None
  | [b] => Some b
  | b :: older => if mb_sec b <=? target then Some b else velocity_ref target older
  end.

Definition velocity (window : Z) (t : Tracker) : option float64 :=
  match ring_recent barRing (tr_bars t) with
  | latest :: older =>
      ref ← velocity_ref (mb_sec latest -! window) older;
      if mb_sec latest =? mb_sec ref then None
      else Some (#(mb_close latest -! mb_close ref) ⊘ #(mb_sec latest -! mb_sec ref))
  | [] => None
  end.

Fixpoint take_while {A} (P : A → bool) (l : list A) : list A :=
  match l with x :: l => if P x then x :: take_while P l else [] | [] => [] end.

Definition imbalanceSec : Z := 30.
Definition minImbTicks : Z := 5.

Definition imbalance (now : Z) (t : Tracker) : option float64 :=
  let cut := now -! imbalanceSec * Second in
  let moves := take_while (λ d, cut <=? td_ts d) (ring_recent dirRing (tr_dirs t)) in
  let total := Z.of_nat (length moves) in
  let up := Z.of_nat (length (filter (λ d, 0 < td_dir d) moves)) in
  if total <? minImbTicks then None else Some (#(2 * up - total) ⊘ #total).

Definition lowerHighBlock : Z := 5.

(** The highest high of each five-second block, newest block first; [None]: a
    bar newer than the newest gives a negative index. *)
Fixpoint block_highs (latest : Z) (bars : list microBar) (hi : list (option Z)) : option (list (option Z)) :=
  match bars with
  | [] => Some hi
  | b :: bars =>
      let k := (latest -! mb_sec b) /! lowerHighBlock in
      if 6 <=? k then Some hi
      else if k <? 0 then None
      else
        let hi := match hi !! Z.to_nat k with
                  | Some (Some h) => if h <? mb_hi b then <[Z.to_nat k := Some (mb_hi b)]> hi else hi
                  | _ => <[Z.to_nat k := Some (mb_hi b)]> hi
                  end in
        block_highs latest bars hi
  end.

Fixpoint falling_from (a : Z) (older : list (option Z)) : Z :=
  match older with
  | Some b :: older => if b <=? a then 0 else 1 + falling_from b older
  | _ => 0
  end.
Definition falling (hi : list (option Z)) : Z := match hi with Some a :: older => falling_from a older | _ => 0 end.

Definition lowerHighs (t : Tracker) : option Z :=
  let bars := ring_recent barRing (tr_bars t) in
  match bars with
  | [] => Some 0
  | latest :: _ => hi ← block_highs (mb_sec latest) bars (replicate 6 None); Some (falling hi)
  end.

Definition velFloor : float64 := f64_of_int 20.
Definition stallScaleSec : float64 := f64_of_int 60.
Definition lowerHighMax : float64 := f64_of_int 4.
Definition minWickRange : Z := 500.
Definition premDivScale : float64 := f64_frac 15 100.
Definition spreadScale : float64 := f64_of_int 1.
Definition oiScale : float64 := f64_frac 2 10.
Definition pullbackATRMax : float64 := f64_of_int 1.
Definition timeWindowMin : float64 := f64_of_int 30.
Definition minPeakForGB : float64 := f64_frac 1 10.

Definition params (t : Tracker) : Params := wm_Params (tr_m t).

Definition set_feature (f : Feature) (raw z : float64) (s : Snapshot) : Snapshot :=
  let put {A} (x : A) (g : Feature → A) := λ f', if decide (f' = f) then x else g f' in {|
  sn_Progress := sn_Progress s; sn_PeakProgress := sn_PeakProgress s; sn_Giveback := sn_Giveback s;
  sn_Raw := put raw (sn_Raw s); sn_Z := put (clip01 z) (sn_Z s); sn_Present := put true (sn_Present s) |}.

Definition progress_features (now : Z) (t : Tracker) : Snapshot :=
  let tm := #(tr_targetMove t) in
  let peak := #(tr_peakMove t) ⊘ tm in
  let gb := f64_leb minPeakForGB peak in
  let giveback := if gb then #(tr_peakMove t -! tr_lastMove t) ⊘ #(tr_peakMove t) else f64_zero in
  let stall := #(now -! tr_peakTS t) ⊘ #1000000000 in
  set_feature FStall stall (stall ⊘ stallScaleSec)
    (set_feature FGiveback giveback giveback {|
       sn_Progress := #(tr_lastMove t) ⊘ tm; sn_PeakProgress := peak; sn_Giveback := giveback; sn_Raw := λ _, f64_zero;
       sn_Z := λ _, f64_zero; sn_Present := λ _, false |}).

Definition momentum_features (now : Z) (t : Tracker) (s : Snapshot) : option Snapshot :=
  let s := match velocity 10 t with
           | Some v10 =>
               let v60 := default f64_zero (velocity 60 t) in
               let r := v10 ⊘ ((if v60 <. f64_zero then f64_neg v60 else v60) ⊕ velFloor) in
               set_feature FVelocity r ((#1 ⊖ r) ⊘ #2) s
           | None => s
           end in
  let s := match imbalance now t with Some imb => set_feature FImbalance imb (f64_neg imb) s | None => s end in
  if 2 * lowerHighBlock <=? rg_count (tr_bars t)
  then lh ← lowerHighs t; Some (set_feature FLowerHighs #lh (#lh ⊘ lowerHighMax) s) else Some s.

Definition candle_features (t : Tracker) (s : Snapshot) : Snapshot :=
  let rng := tr_mHi t -! tr_mLo t in
  if 0 <? rng then
    let wick := #(tr_mHi t -! tr_mClose t) ⊘ #rng in
    let minRange := Z.max minWickRange (tr_atr t /! 4) in
    set_feature FWick wick (wick ⊗ clip01 (#rng ⊘ #minRange)) s
  else s.

Definition option_features (t : Tracker) (s : Snapshot) : Snapshot :=
  let s := if (0 <? tr_prem t) && (0 <? tr_peakPrem t) then
             let dd := #(tr_peakPrem t -! tr_prem t) ⊘ #(tr_peakPrem t) in
             let div := if sn_Giveback s <. f64_frac 25 100 then dd else f64_zero in
             set_feature FPremDiv div (div ⊘ premDivScale) s
           else s in
  let s := if (0 <? tr_spread t) && (f64_zero <. tr_spreadAvg t) then
             let r := #(tr_spread t) ⊘ tr_spreadAvg t ⊖ #1 in set_feature FSpread r (r ⊘ spreadScale) s
           else s in
  if (0 <? tr_oi t) && (0 <? tr_oiFirst t) then
    let chg := #(tr_oi t -! tr_oiFirst t) ⊘ #(tr_oiFirst t) in set_feature FOIChange chg (chg ⊘ oiScale) s
  else s.

Definition pullback_features (t : Tracker) (s : Snapshot) : Snapshot :=
  if (0 <? tr_atr t) && (0 <? tr_peakMove t) then
    let pb := #(tr_peakMove t -! tr_lastMove t) ⊘ #(tr_atr t) in set_feature FPullbackATR pb (pb ⊘ pullbackATRMax) s
  else s.

Definition time_features (now : Time) (t : Tracker) (s : Snapshot) : Snapshot :=
  let exit := pr_TimeExitMin (params t) in
  if 0 <? exit then
    let left := #(exit -! minutesIST now) in set_feature FTimePressure left (#1 ⊖ left ⊘ timeWindowMin) s
  else s.

Definition features (now : Time) (t : Tracker) : option Snapshot :=
  let ns := t_unix_nano now in
  s ← momentum_features ns t (progress_features ns t);
  Some (time_features now t (pullback_features t (option_features t (candle_features t s)))).

(** ** A ring is the front of a list *)

Record ring_wf {A} (n : Z) (r : ring A) : Prop := {
  rw_pos : 0 < n; rw_len : Z.of_nat (length (rg_items r)) = n; rw_head : 0 <= rg_head r < n; rw_count : 0 <= rg_count r <= n }.

Lemma omap_seq_lookup {A} (f : nat → option A) k n i :
  (∀ j, (k <= j < k + n)%nat → is_Some (f j)) → omap f (seq k n) !! i = if decide (i < n)%nat then f (k + i)%nat else None.
Proof.
  revert k i. induction n as [|n IH]; intros k i Hf; [by rewrite decide_False by lia|].
  destruct (Hf k) as [x Hx]; [lia|]. change (omap f (seq k (S n))) with
    (match f k with Some y => y :: omap f (seq (S k) n) | None => omap f (seq (S k) n) end).
  rewrite Hx. destruct i as [|i].
  - rewrite decide_True by lia. by rewrite Nat.add_0_r.
  - cbn [lookup list_lookup]. rewrite IH; [|intros; apply Hf; lia]. replace (k + S i)%nat with (S k + i)%nat by lia.
    destruct (decide (i < n)%nat); [by rewrite decide_True by lia|by rewrite decide_False by lia].
Qed.

Lemma ring_recent_lookup {A} n (r : ring A) i :
  ring_wf n r → ring_recent n r !! i =
    if decide (i < Z.to_nat (rg_count r))%nat then rg_items r !! Z.to_nat ((rg_head r - Z.of_nat i + n) mod n) else None.
Proof.
  intros [Hp Hl Hh Hc]. unfold ring_recent. rewrite omap_seq_lookup; [done|].
  intros j Hj. apply lookup_lt_is_Some. pose proof (Z.mod_pos_bound (rg_head r - Z.of_nat j + n) n Hp). lia.
Qed.

Lemma ring_recent_length {A} n (r : ring A) : ring_wf n r → length (ring_recent n r) = Z.to_nat (rg_count r).
Proof.
  intros Hr. pose proof (ring_recent_lookup n r) as Hl. apply (anti_symm (≤)%nat).
  - destruct (decide (Z.to_nat (rg_count r) < length (ring_recent n r))%nat) as [Hlt|]; [|lia].
    apply lookup_lt_is_Some in Hlt as [x Hx]. rewrite Hl, decide_False in Hx by (done || lia). done.
  - destruct (Z.to_nat (rg_count r)) as [|k] eqn:Hk; [lia|]. apply Nat.le_succ_l, lookup_lt_is_Some.
    rewrite Hl, decide_True by (done || lia). destruct Hr as [Hp Hlen Hh Hc]. apply lookup_lt_is_Some.
    pose proof (Z.mod_pos_bound (rg_head r - Z.of_nat k + n) n Hp). lia.
Qed.

Lemma ring_push_wf {A} n (x : A) r : ring_wf n r → ring_wf n (ring_push n x r).
Proof.
  intros [Hp Hl Hh Hc]. constructor; simpl; [done|by rewrite length_insert|by apply Z.mod_pos_bound|].
  destruct (Z.ltb_spec (rg_count r) n); lia.
Qed.

Lemma ring_slot n h j : 0 < n → 0 <= h < n → 0 <= j < n - 1 →
  ((h + 1) mod n - (j + 1) + n) mod n = (h - j + n) mod n ∧ (h - j + n) mod n ≠ (h + 1) mod n.
Proof.
  intros Hp Hh Hj. split.
  - replace ((h + 1) mod n - (j + 1) + n) with ((h + 1) mod n + (n - (j + 1))) by lia.
    rewrite Zplus_mod_idemp_l. f_equal. lia.
  - intros He. assert ((h + 1 - (h - j + n)) mod n = 0) as H0 by (rewrite Zminus_mod, He, Z.sub_diag; by apply Z.mod_0_l; lia).
    replace (h + 1 - (h - j + n)) with ((j + 1) + (-1) * n) in H0 by lia.
    rewrite Z.mod_add, Z.mod_small in H0 by lia. lia.
Qed.

Lemma ring_push_recent {A} n (x : A) r :
  ring_wf n r → ring_recent n (ring_push n x r) = take (Z.to_nat n) (x :: ring_recent n r).
Proof.
  intros Hr. pose proof (ring_push_wf n x r Hr) as Hr'. apply list_eq. intros i.
  rewrite ring_recent_lookup by done. pose proof Hr as [Hp Hl Hh Hc]. simpl.
  assert (Hcnt : (if rg_count r <? n then rg_count r + 1 else rg_count r) = Z.min (rg_count r + 1) n)
    by (destruct (Z.ltb_spec (rg_count r) n); lia).
  rewrite Hcnt. destruct (decide (i < Z.to_nat n)%nat) as [Hin|Hin].
  - rewrite lookup_take_lt by done. destruct i as [|j]; simpl.
    + rewrite decide_True by lia. rewrite Z.sub_0_r.
      replace ((rg_head r + 1) mod n + n) with ((rg_head r + 1) mod n + 1 * n) by lia.
      rewrite Z.mod_add, Z.mod_mod by lia. apply list_lookup_insert_eq. pose proof (Z.mod_pos_bound (rg_head r + 1) n Hp). lia.
    + rewrite ring_recent_lookup by done. destruct (decide (j < Z.to_nat (rg_count r))%nat).
      * rewrite decide_True by lia. destruct (ring_slot n (rg_head r) (Z.of_nat j)) as [He Hne]; [lia..|].
        replace (Z.of_nat (S j)) with (Z.of_nat j + 1) by lia. rewrite He. apply list_lookup_insert_ne.
        pose proof (Z.mod_pos_bound (rg_head r + 1) n Hp). pose proof (Z.mod_pos_bound (rg_head r - Z.of_nat j + n) n Hp). lia.
      * by rewrite decide_False by lia.
  - rewrite decide_False by lia. symmetry. apply lookup_take_ge. lia.
Qed.

Lemma ring_alter_wf {A} n (f : A → A) r : ring_wf n r → ring_wf n (ring_alter f r).
Proof. intros [Hp Hl Hh Hc]. constructor; simpl; [done|by rewrite length_alter|done|done]. Qed.

Lemma ring_alter_recent {A} n (f : A → A) r : ring_wf n r → ring_recent n (ring_alter f r) = alter f 0%nat (ring_recent n r).
Proof.
  intros Hr. pose proof (ring_alter_wf n f r Hr) as Hr'. apply list_eq. intros i. rewrite ring_recent_lookup by done. simpl.
  pose proof Hr as [Hp Hl Hh Hc]. destruct i as [|i].
  - rewrite list_lookup_alter_eq, ring_recent_lookup by done. destruct (decide _); [|done].
    rewrite Z.sub_0_r. replace (rg_head r + n) with (rg_head r + 1 * n) by lia. rewrite Z.mod_add, Z.mod_small by lia.
    apply list_lookup_alter_eq.
  - rewrite (list_lookup_alter_ne f (ring_recent n r) 0%nat), ring_recent_lookup by done. destruct (decide _); [|done]. apply list_lookup_alter_ne.
    intros He. destruct (ring_slot n ((rg_head r - 1) mod n) (Z.of_nat i)) as [Hslot Hne]; [done|by apply Z.mod_pos_bound|lia|].
    pose proof (Z.mod_pos_bound (rg_head r - Z.of_nat (S i) + n) n Hp).
    rewrite Zplus_mod_idemp_l, Z.sub_add, (Z.mod_small (rg_head r)) in Hslot, Hne by done.
    rewrite <-Hslot in Hne. replace (Z.of_nat i + 1) with (Z.of_nat (S i)) in Hne by lia. lia.
Qed.

Lemma ring_new_wf {A} n (x : A) : 0 < n → ring_wf n (ring_new n x).
Proof. intros. constructor; simpl; [done|rewrite length_replicate; lia|lia|lia]. Qed.
