(* ===== verification/ExitRunner.v ===== *)
(** What the exit watch decides about one position (internal/exitwatch:
    prereject.go, runner.go and Evaluate of tracker.go): rejection at a strong
    level before the target, the runner past it, the early-failure advice, and
    the assessment.

    A tracker shares its level book with the engine; one assessment rebuilds
    the book at most once and otherwise only reads it, so it takes what it
    reads ([book_view]; [None]: no book attached). *)
From S2P Require Import Prelude Float64 GoText Model MarketHours Indicators RangeContext ExitLevels ExitScore ExitTracker.
#[local] Open Scope Z_scope.
#[local] Open Scope go_scope.

Record book_view := { bv_levels : list Level; bv_version : Z; bv_adx : float64 }.

Definition pts (p : Z) : string := format_fixed 2 (#p ⊘ #100).

(** ** Rejection before the target (prereject.go) *)

Record preRejectIn := {
  pi_levels : list Level; pi_price : Z; pi_move : Z; pi_entry : Z; pi_sign : Z; pi_targetMove : Z; pi_tol : Z; pi_rej : Z;
  pi_breakN : Z; pi_adx : float64; pi_close : Z; pi_closeTS : Time; pi_now : Time; pi_m : WatchModel }.

Definition pi_moveOf (price : Z) (i : preRejectIn) : Z := (price -! pi_entry i) *! pi_sign i.

(** The first strong level past the entry and not behind the price, unless
    the target is too near it. *)
Fixpoint pick_from (i : preRejectIn) (room : Z) (ls : list Level) : option Level :=
  match ls with
  | [] => None
  | l :: ls =>
      let p := wm_Params (pi_m i) in
      let lm := pi_moveOf (xl_Price l) i in
      if negb (xl_Strong l) || negb (qualifies (pr_PreRejectSources p) (pr_PreRejectMinTouches p) l) then pick_from i room ls
      else if (lm <? pi_move i -! pi_tol i) || (lm <? pi_tol i) then pick_from i room ls
      else if pi_targetMove i -! lm <? room then None
      else Some l
  end.

Definition pick (i : preRejectIn) : option Level :=
  let room := f64_to_int (pr_PreRejectMinRoomPct (wm_Params (pi_m i)) ⊗ #(pi_targetMove i)) in
  pick_from i room (if 0 <? pi_sign i then pi_levels i else reverse (pi_levels i)).

Definition side_word (sign : Z) (up down : string) : string := if 0 <? sign then up else down.

Definition preReject_text (i : preRejectIn) (level : Level) (peak : Z) : string :=
  let tags := if String.eqb (xl_Tags level) "" then xl_Type level else xl_Tags level in
  "rejected at " +:+ (if pi_sign i <? 0 then "support" else "resistance") +:+ " " +:+ pts (xl_Price level) +:+ " (" +:+ tags +:+
  ") before target " +:+ pts (pi_entry i +! pi_sign i *! pi_targetMove i) +:+ ", pulled back " +:+ pts (peak -! pi_move i) +:+
  " pts" +:+ (if 0 <? xl_Touches level then " touches=" +:+ format_int (xl_Touches level) else "") +:+
  (if f64_zero <. pi_adx i then " adx=" +:+ format_fixed 1 (pi_adx i) else "").

(** [preReject.step]: the new state and, once, the text of a rejection. *)
Definition preReject_step (i : preRejectIn) (r : preReject) : option string * preReject :=
  let p := wm_Params (pi_m i) in
  if (f64_zero <. pr_PreRejectMaxADX p) && f64_leb (pr_PreRejectMaxADX p) (pi_adx i) then (None, r)
  else
    let nowNs := t_unix_nano (pi_now i) in
    let r := if pj_touched r then r else r <| pj_level := pick i |> in
    match pj_level r with
    | None => (None, r)
    | Some level =>
        let lm := pi_moveOf (xl_Price level) i in
        let dist := lm -! pi_move i in
        if negb (pj_touched r) && ((pi_tol i <? dist) || (pi_move i <? pr_PreRejectMinMovePaise p)) then (None, r)
        else
          let r := if pj_touched r then r
                   else r <| pj_touched := true |> <| pj_touchNs := nowNs |> <| pj_peak := pi_move i |>
                          <| pj_beyondSince := 0 |> in
          let r := r <| pj_peak := Z.max (pj_peak r) (pi_move i) |> in
          if dist <? -! pi_tol i then
            let r := if pj_beyondSince r =? 0 then r <| pj_beyondSince := nowNs |> else r in
            (None, if pi_breakN i <=? nowNs -! pj_beyondSince r
                   then r <| pj_touched := false |> <| pj_level := None |> <| pj_beyondSince := 0 |> else r)
          else
            let r := r <| pj_beyondSince := 0 |> in
            let unconfirmed :=
              pr_PreRejectConfirmClose p &&
              (t_is_zero (pi_closeTS i) || (t_unix_nano (t_add (pi_closeTS i) Minute) <=? pj_touchNs r) ||
               (lm -! pi_tol i <=? pi_moveOf (pi_close i) i)) in
            if (pj_peak r -! pi_move i <? pi_rej i) || unconfirmed then (None, r)
            else (Some (preReject_text i level (pj_peak r)), r)
    end.

(** ** Texts and effects of a tracker *)

Definition aheadWord (t : Tracker) : string := side_word (tr_sign t) "resistance" "support".
Definition behindWord (t : Tracker) : string := side_word (tr_sign t) "support" "resistance".

Definition levelTolFor (m : WatchModel) (atr : Z) : Z :=
  Z.max (f64_to_int (#atr ⊗ pr_LevelTolATR (wm_Params m))) (pr_LevelTolMinPaise (wm_Params m)).
Definition rejectPtsFor (m : WatchModel) (atr : Z) : Z :=
  Z.max (f64_to_int (#atr ⊗ pr_RejectATR (wm_Params m))) (pr_RejectMinPaise (wm_Params m)).
Definition levelTol (t : Tracker) : Z := levelTolFor (tr_m t) (tr_atr t).
Definition rejectPts (t : Tracker) : Z := rejectPtsFor (tr_m t) (tr_atr t).

Definition book_levels (b : option book_view) : list Level := match b with Some b => bv_levels b | None => [] end.
Definition trendADX (b : option book_view) : float64 := match b with Some b => bv_adx b | None => f64_zero end.

Definition emit (action reason text : string) (t : Tracker) : Tracker :=
  t <| tr_events := tr_events t ++ [{| ev_Action := action; ev_Reason := reason; ev_Text := text |}] |>.

Definition latchExit (reason text : string) (t : Tracker) : Tracker :=
  t <| tr_dec := latch reason (tr_dec t) |> <| tr_exitText := text |>.

Definition upd_run (f : runner → runner) (t : Tracker) : Tracker := t <| tr_run := f (tr_run t) |>.

Definition level_text (l : Level) : string := pts (xl_Price l) +:+ " (" +:+ xl_Type l +:+ ")".

(** ** The runner (runner.go) *)

(** The tick that reaches the target: hold towards the next level, or take
    the target. *)
Definition momentum_strong (s : Snapshot) : bool :=
  (negb (sn_Present s FVelocity) || (sn_Z s FVelocity <. f64_frac 5 10)) &&
  (negb (sn_Present s FImbalance) || f64_leb f64_zero (sn_Raw s FImbalance)) &&
  (negb (sn_Present s FWick) || (sn_Z s FWick <. f64_frac 5 10)).

Definition room_ok (next : option Level) (t : Tracker) : bool :=
  match next with
  | Some l => f64_leb (pr_RunnerMinRoomPct (params t) ⊗ #(tr_targetMove t)) #(moveOf (xl_Price l) t -! tr_lastMove t)
  | None => true
  end.

Definition next_text (word : string) (next : option Level) (t : Tracker) : string :=
  match next with Some l => word +:+ aheadWord t +:+ " " +:+ level_text l | None => "no level ahead, trail" end.

Definition start_runner (now : Time) (b : option book_view) (next : option Level) (t : Tracker) : Tracker :=
  let mv := tr_lastMove t in
  let t := upd_run (λ r, {|
    rn_phase := PhaseRunner; rn_decided := rn_decided r; rn_start := now;
    rn_lockMove := f64_to_int (pr_RunnerLockPct (params t) ⊗ #(tr_targetMove t)); rn_next := next; rn_runPeak := mv;
    rn_pbLow := mv; rn_touched := rn_touched r; rn_beyondSince := rn_beyondSince r;
    rn_bookVer := match b with Some b => bv_version b | None => rn_bookVer r end; rn_micro := rn_micro r |}) t in
  emit ActionWatchHold "TARGET_RUN"
    ("target hit, momentum strong: " +:+ next_text "hold to next " next t +:+ ", lock=" +:+
     pts (levelPrice (rn_lockMove (tr_run t)) t)) t.

Definition target_step (s : Snapshot) (now : Time) (b : option book_view) (t : Tracker) : Tracker :=
  let t := upd_run (λ r, r <| rn_phase := PhaseNormal |>) t in
  if rn_decided (tr_run t) || (tr_lastMove t <? tr_targetMove t) then t
  else
    let t := upd_run (λ r, r <| rn_decided := true |>) t in
    let next := nextLevel (book_levels b) (tr_idxLTP t) (tr_sign t) (levelTol t) in
    if momentum_strong s && room_ok next t then start_runner now b next t
    else
      let why := if momentum_strong s
                 then "next " +:+ aheadWord t +:+ " " +:+ level_text (default zero_Level next) +:+ " too close"
                 else "momentum weak" in
      latchExit ReasonTargetTake ("target hit, " +:+ why +:+ ": take target") t.

(** A higher lock, from a level behind the price. *)
Definition raise_lock (lock : Z) (l : Level) (t : Tracker) : Tracker :=
  let t := upd_run (λ r, r <| rn_lockMove := lock |>) t in
  emit ActionWatchHold "NEW_LEVEL"
    ("new " +:+ behindWord t +:+ " " +:+ level_text l +:+ " formed, lock raised to " +:+
     pts (levelPrice (rn_lockMove (tr_run t)) t)) t.

(** Peak and pullback: a new peak after a pullback makes its low a support. *)
Definition micro_level (now : Time) (t : Tracker) : Level :=
  zero_Level <| xl_Price := levelPrice (rn_pbLow (tr_run t)) t |>
    <| xl_Type := if tr_sign t <? 0 then LevelMicroHigh else LevelMicroLow |> <| xl_Since := now |>.

Definition peak_step (now : Time) (t : Tracker) : Tracker :=
  let r := tr_run t in
  let mv := tr_lastMove t in
  let tol := levelTol t in
  if rn_runPeak r <? mv then
    let t :=
      if (rejectPts t <=? rn_runPeak r -! rn_pbLow r) && (rn_lockMove r <? rn_pbLow r -! tol) then
        let l := micro_level now t in
        raise_lock (rn_pbLow r -! tol) l (upd_run (λ r, r <| rn_micro := rn_micro r ++ [l] |>) t)
      else t in
    upd_run (λ r, r <| rn_runPeak := mv |> <| rn_pbLow := mv |>) t
  else if mv <? rn_pbLow r then upd_run (λ r, r <| rn_pbLow := mv |>) t
  else t.

(** A closer level ahead becomes the next one. *)
Definition closer_level (ls : list Level) (t : Tracker) : Tracker :=
  match nextLevel ls (tr_idxLTP t) (tr_sign t) (levelTol t) with
  | Some cand =>
      if match rn_next (tr_run t) with Some l => moveOf (xl_Price cand) t <? moveOf (xl_Price l) t | None => true end then
        let t := upd_run (λ r, r <| rn_next := Some cand |> <| rn_touched := false |> <| rn_beyondSince := 0 |>) t in
        emit ActionWatchHold "NEW_LEVEL" ("new " +:+ aheadWord t +:+ " " +:+ level_text cand +:+ " ahead") t
      else t
  | None => t
  end.

(** The furthest level formed during the run between the lock and the price,
    a tolerance away from each. *)
Definition best_behind (ls : list Level) (t : Tracker) : option (Level * Z) :=
  let r := tr_run t in
  let tol := levelTol t in
  foldl (λ best l,
    let bestMove := match best with Some (_, m) => m | None => rn_lockMove r +! tol end in
    let lm := moveOf (xl_Price l) t in
    if is_type [LevelDayHigh; LevelDayLow] (xl_Type l) || t_before (xl_Since l) (rn_start r) then best
    else if (bestMove <? lm) && (lm <? tr_lastMove t -! tol) then Some (l, lm) else best) None ls.

Definition onNewLevels (ls : list Level) (t : Tracker) : Tracker :=
  let t := closer_level ls t in
  match best_behind ls t with
  | Some (best, bestMove) => raise_lock (bestMove -! levelTol t) best t
  | None => t
  end.

Definition levels_step (b : option book_view) (t : Tracker) : Tracker :=
  match b with
  | Some b =>
      if bv_version b =? rn_bookVer (tr_run t) then t
      else onNewLevels (bv_levels b) (upd_run (λ r, r <| rn_bookVer := bv_version b |>) t)
  | None => t
  end.

(** Touching the next level, and breaking through it. *)
Definition break_level (ls : list Level) (broken : Level) (t : Tracker) : Tracker :=
  let l := moveOf (xl_Price broken) t -! levelTol t in
  let next := nextLevel ls (tr_idxLTP t) (tr_sign t) (levelTol t) in
  let t := upd_run (λ r, r <| rn_lockMove := Z.max (rn_lockMove r) l |> <| rn_next := next |> <| rn_touched := false |>
                           <| rn_beyondSince := 0 |>) t in
  emit ActionWatchHold "SR_BREAK"
    ("broke " +:+ aheadWord t +:+ " " +:+ level_text broken +:+ ", " +:+ next_text "next " next t +:+ ", lock=" +:+
     pts (levelPrice (rn_lockMove (tr_run t)) t)) t.

Definition ladder_step (now : Time) (b : option book_view) (t : Tracker) : Tracker :=
  match rn_next (tr_run t) with
  | None => t
  | Some l =>
      let dist := moveOf (xl_Price l) t -! tr_lastMove t in
      let tol := levelTol t in
      let t := if dist <=? tol then upd_run (λ r, r <| rn_touched := true |>) t else t in
      if dist <? -! tol then
        let nowNs := t_unix_nano now in
        let t := upd_run (λ r, if rn_beyondSince r =? 0 then r <| rn_beyondSince := nowNs |> else r) t in
        if wm_breakN (tr_m t) <=? nowNs -! rn_beyondSince (tr_run t) then break_level (book_levels b) l t else t
      else upd_run (λ r, r <| rn_beyondSince := 0 |>) t
  end.

Definition exit_step (t : Tracker) : Tracker :=
  let r := tr_run t in
  let mv := tr_lastMove t in
  let ext := rn_runPeak r -! tr_targetMove t in
  let back := rn_runPeak r -! mv in
  if mv <=? rn_lockMove r then latchExit ReasonLock ("gave back to lock " +:+ pts (levelPrice (rn_lockMove r) t)) t
  else if rn_touched r && (rejectPts t <=? back) then
    latchExit ReasonSRReject
      ("rejected at " +:+ aheadWord t +:+ " " +:+ level_text (default zero_Level (rn_next r)) +:+ ", pulled back " +:+ pts back +:+
       " pts") t
  else if (rejectPts t <=? ext) && f64_leb (pr_RunnerGiveback (params t) ⊗ #ext) #back then
    latchExit ReasonRunTrail ("gave back " +:+ pts back +:+ " of " +:+ pts ext +:+ " pts run past target") t
  else t.

Definition runnerStep (s : Snapshot) (now : Time) (b : option book_view) (t : Tracker) : Tracker :=
  if dc_latched (tr_dec t) then t
  else if run_phase_normal t then target_step s now b t
  else exit_step (ladder_step now b (levels_step b (peak_step now t))).

(** Up to three levels ahead and two behind, nearest first. *)
Definition nearLevels (ls : list Level) (t : Tracker) : list Level :=
  let p := tr_idxLTP t in
  if 0 <? tr_sign t then
    take 3 (filter (λ l, p < xl_Price l) ls) ++ take 2 (filter (λ l, xl_Price l <= p) (reverse ls))
  else
    take 3 (filter (λ l, xl_Price l < p) (reverse ls)) ++ take 2 (filter (λ l, p <= xl_Price l) ls).

(** ** The assessment (tracker.go) *)

Record Assessment := {
  as_Position : PositionContext; as_P : float64; as_Decision : Decision; as_ExitReason : string; as_Latched : bool;
  as_Reasons : list string; as_SuggestedStop : Z; as_IndexLTP : Z; as_PremiumLTP : Z; as_TS : Time; as_Snapshot : Snapshot;
  as_Phase : Phase; as_ExitText : string; as_NextLevel : option Level; as_LockLevel : Z; as_PreLevel : option Level;
  as_Levels : list Level }.

Definition preRejectActive (t : Tracker) : bool :=
  pr_PreRejectEnabled (params t) && negb (dc_latched (tr_dec t)) && negb (tr_ghost t) && negb (rn_decided (tr_run t)) &&
  run_phase_normal t.

Definition preReject_in (now : Time) (b : option book_view) (t : Tracker) : preRejectIn := {|
  pi_levels := book_levels b; pi_price := tr_idxLTP t; pi_move := tr_lastMove t; pi_entry := pc_IndexEntry (tr_pos t);
  pi_sign := tr_sign t; pi_targetMove := tr_targetMove t; pi_tol := levelTol t; pi_rej := rejectPts t;
  pi_breakN := wm_breakN (tr_m t); pi_adx := trendADX b; pi_close := tr_lastClose t; pi_closeTS := tr_lastCloseTS t;
  pi_now := now; pi_m := tr_m t |}.

Definition preRejectStep (now : Time) (b : option book_view) (t : Tracker) : Tracker :=
  if preRejectActive t then
    let '(exit, pre) := preReject_step (preReject_in now b t) (tr_pre t) in
    let t := t <| tr_pre := pre |> in
    match exit with Some text => latchExit ReasonPreReject text t | None => t end
  else t.

(** [Duration.Round(time.Second)] of a duration that is not negative. *)
Definition round_second (d : Duration) : Duration :=
  let r := d %! Second in
  if r +! r <? Second then d - r else if d + (Second - r) <=? max_i64 then d + (Second - r) else max_i64.

Definition signedPts (p : Z) : string := if p <? 0 then "-" +:+ pts (-! p) else "+" +:+ pts p.

Definition earlyFailStep (now : Time) (t : Tracker) : Tracker :=
  let p := params t in
  if tr_earlyFailSent t || (pr_EarlyFailWindowSec p <=? 0) || t_is_zero (pc_EntryTS (tr_pos t)) then t
  else
    let age := t_sub now (pc_EntryTS (tr_pos t)) in
    if (age <? 0) || (pr_EarlyFailWindowSec p *! Second <? age) then t
    else
      let risk := (pc_IndexEntry (tr_pos t) -! pc_StopLevel (tr_pos t)) *! tr_sign t in
      let need := Z.max (f64_to_int (#risk ⊗ pr_EarlyFailRiskPct p)) (pr_EarlyFailMinPaise p) in
      if (-! need <? tr_lastMove t) || (pr_EarlyFailMaxPeakPaise p <=? tr_peakMove t) then t
      else
        emit ActionWatchExit ReasonEarlyFail
          ("-" +:+ pts (-! tr_lastMove t) +:+ " pts in " +:+ format_duration (round_second age) +:+ ", best " +:+
           signedPts (tr_peakMove t) +:+ "; stop " +:+ pts (pc_StopLevel (tr_pos t)) +:+
           (if 0 <? risk then " (-" +:+ pts risk +:+ " pts from entry)" else "")) (t <| tr_earlyFailSent := true |>).

Definition premium_ok (t : Tracker) : bool :=
  if (0 <? tr_prem t) && (0 <? pc_FNOEntryPrice (tr_pos t)) then
    f64_leb (#(pc_FNOEntryPrice (tr_pos t)) ⊗ (#1 ⊖ pr_PremiumBufferPct (params t))) #(tr_prem t)
  else 0 <? tr_lastMove t.

(** A reversal score that fires at the runner's level is a rejection. *)
Definition score_at_level (why : string) (t : Tracker) : string * Tracker :=
  match rn_next (tr_run t) with
  | Some l =>
      if String.eqb why "SCORE" && negb (String.eqb (rn_phase (tr_run t)) PhaseNormal) && String.eqb (tr_exitText t) "" &&
         (moveOf (xl_Price l) t -! tr_lastMove t <=? 2 *! levelTol t)
      then (ReasonSRReject, latchExit ReasonSRReject ("reversal at " +:+ aheadWord t +:+ " " +:+ level_text l) t)
      else (why, t)
  | None => (why, t)
  end.

(** What one evaluation finds. *)
Record verdict := { vd_dec : Decision; vd_why : string; vd_P : float64; vd_top : list Feature; vd_snap : Snapshot }.

Section evaluate.
Context `{ME : MathExp}.

Definition judge (now : Time) (b : option book_view) (t : Tracker) : option (verdict * Tracker) :=
  s ← features now t;
  let t := earlyFailStep now t in
  let '(p, top) := score (tr_m t) s in
  let premOK := premium_ok t in
  let t := runnerStep s now b (preRejectStep now b t) in
  let '(dec, why, d) := decide_step (tr_m t) s p premOK (t_unix_nano now) (tr_dec t) in
  let '(why, t) := score_at_level why (t <| tr_dec := d |>) in
  Some ({| vd_dec := dec; vd_why := why; vd_P := p; vd_top := top; vd_snap := s |}, t).

Definition blank_assessment (now : Time) (t : Tracker) : Assessment := {|
  as_Position := tr_pos t; as_P := f64_zero; as_Decision := DecisionHold; as_ExitReason := ""; as_Latched := false;
  as_Reasons := []; as_SuggestedStop := 0; as_IndexLTP := tr_idxLTP t; as_PremiumLTP := tr_prem t; as_TS := now;
  as_Snapshot := zero_Snapshot; as_Phase := ""; as_ExitText := ""; as_NextLevel := None; as_LockLevel := 0;
  as_PreLevel := None; as_Levels := [] |}.

Definition assess (now : Time) (b : option book_view) (v : verdict) (t : Tracker) : Assessment := {|
  as_Position := tr_pos t; as_P := vd_P v; as_Decision := vd_dec v; as_ExitReason := vd_why v;
  as_Latched := dc_latched (tr_dec t); as_Reasons := featureName <$> vd_top v;
  as_SuggestedStop :=
    if String.eqb (vd_dec v) DecisionTighten && (0 <? tr_peakMove t)
    then pc_IndexEntry (tr_pos t) +! tr_sign t *! f64_to_int (#(tr_peakMove t) ⊗ pr_TightenKeepPct (params t)) else 0;
  as_IndexLTP := tr_idxLTP t; as_PremiumLTP := tr_prem t; as_TS := now; as_Snapshot := vd_snap v;
  as_Phase := tracker_Phase t; as_ExitText := tr_exitText t;
  as_NextLevel := if InRunner t then rn_next (tr_run t) else None;
  as_LockLevel := if InRunner t then levelPrice (rn_lockMove (tr_run t)) t else 0;
  as_PreLevel := if preRejectActive t then pj_level (tr_pre t) else None;
  as_Levels := nearLevels (book_levels b) t |}.

(** [Tracker.Evaluate]. *)
Definition tracker_Evaluate (now : Time) (b : option book_view) (t : Tracker) : option (Assessment * Tracker) :=
  if negb (tr_haveIdx t) then Some (blank_assessment now t, t)
  else
    '(v, t) ← judge now b t;
    Some (assess now b v t, t).
End evaluate.

(** [DrainEvents]. *)
Definition DrainEvents (t : Tracker) : list Event * Tracker := (tr_events t, t <| tr_events := [] |>).
