(* ===== verification/ExitRuns.v ===== *)
(** What holds of an exit-watch tracker over any run of it: its ring buffers
    are the recent end of the ticks' history, an EXIT is final, a runner's
    lock only rises, and nothing panics on ticks in order. *)
From Stdlib Require Import Sorted.
From S2P Require Import Prelude Float64 GoText Model MarketHours Indicators RangeContext ExitLevels ExitScore ExitTracker ExitRunner.
#[local] Open Scope Z_scope.
#[local] Open Scope go_scope.

(** ** The history of a tracker's index ticks, newest first *)

Record history := { hy_bars : list microBar; hy_dirs : list tickDir; hy_moves : list Z }.

Definition no_history : history := {| hy_bars := []; hy_dirs := []; hy_moves := [] |}.

(** One second's bar: its high, low and last move. *)
Definition add_second (sec mv : Z) (bars : list microBar) : list microBar :=
  match bars with
  | b :: older =>
      if mb_sec b =? sec
      then {| mb_sec := sec; mb_hi := Z.max (mb_hi b) mv; mb_lo := Z.min (mb_lo b) mv; mb_close := mv |} :: older
      else {| mb_sec := sec; mb_hi := mv; mb_lo := mv; mb_close := mv |} :: bars
  | [] => [{| mb_sec := sec; mb_hi := mv; mb_lo := mv; mb_close := mv |}]
  end.

Definition history_tick (now mv : Z) (h : history) : history := {|
  hy_bars := add_second (now /! Second) mv (hy_bars h);
  hy_dirs := match hy_moves h with
             | last :: _ => if mv =? last then hy_dirs h
                            else {| td_ts := now; td_dir := if mv <? last then -1 else 1 |} :: hy_dirs h
             | [] => hy_dirs h
             end;
  hy_moves := mv :: hy_moves h |}.

Definition max_move (moves : list Z) : Z := match moves with m :: ms => foldr Z.max m ms | [] => 0 end.

(** The tracker keeps the newest end of the history. *)
Record tracks (h : history) (t : Tracker) : Prop := {
  tk_bars_wf : ring_wf barRing (tr_bars t);
  tk_dirs_wf : ring_wf dirRing (tr_dirs t);
  tk_bars : ring_recent barRing (tr_bars t) = take (Z.to_nat barRing) (hy_bars h);
  tk_dirs : ring_recent dirRing (tr_dirs t) = take (Z.to_nat dirRing) (hy_dirs h);
  tk_have : tr_haveIdx t = negb (bool_decide (hy_moves h = []));
  tk_last : hy_moves h ≠ [] → head (hy_moves h) = Some (tr_lastMove t);
  tk_peak : hy_moves h ≠ [] → tr_peakMove t = max_move (hy_moves h) }.

Lemma max_move_cons m ms : ms ≠ [] → max_move (m :: ms) = Z.max m (max_move ms).
Proof.
  destruct ms as [|m' ms]; [done|]. intros _. simpl. revert m m'. induction ms as [|x ms IH]; intros m m'; simpl; [lia|].
  pose proof (IH m m'). lia.
Qed.

Lemma take_alter_head {A} (f : A → A) n l : take n (alter f 0%nat l) = alter f 0%nat (take n l).
Proof. destruct n, l; done. Qed.

Lemma note_bar_bars now mv t :
  tr_bars (note_bar now mv t) =
    if match head (ring_recent barRing (tr_bars t)) with Some b => mb_sec b =? now /! Second | None => false end
    then ring_alter (λ b, {| mb_sec := mb_sec b; mb_hi := Z.max (mb_hi b) mv; mb_lo := Z.min (mb_lo b) mv; mb_close := mv |})
           (tr_bars t)
    else ring_push barRing {| mb_sec := now /! Second; mb_hi := mv; mb_lo := mv; mb_close := mv |} (tr_bars t).
Proof. unfold note_bar. by destruct (match head _ with Some _ => _ | None => _ end). Qed.

Lemma note_bar_recent now mv t h :
  ring_wf barRing (tr_bars t) → ring_recent barRing (tr_bars t) = take (Z.to_nat barRing) h →
  ring_wf barRing (tr_bars (note_bar now mv t)) ∧
  ring_recent barRing (tr_bars (note_bar now mv t)) = take (Z.to_nat barRing) (add_second (now /! Second) mv h).
Proof.
  intros Hwf Hr. rewrite note_bar_bars, Hr. change (Z.to_nat barRing) with 128%nat in *.
  destruct h as [|b h]; cbn [head take add_second]; [|destruct (mb_sec b =? now /! Second) eqn:Hs; cbv iota].
  - split; [by apply ring_push_wf|]. by rewrite ring_push_recent, Hr.
  - apply Z.eqb_eq in Hs as <-. split; [by apply ring_alter_wf|]. by rewrite ring_alter_recent, Hr.
  - split; [by apply ring_push_wf|]. rewrite ring_push_recent, Hr by done.
    change (Z.to_nat barRing) with 128%nat. cbn [take]. f_equal. by rewrite take_take.
Qed.

Lemma note_dir_recent now mv t h :
  tracks h t → ring_wf dirRing (tr_dirs (note_dir now mv t)) ∧
  ring_recent dirRing (tr_dirs (note_dir now mv t)) = take (Z.to_nat dirRing) (hy_dirs (history_tick now mv h)).
Proof.
  intros [_ Hwf _ Hd Hhave Hlast _]. unfold note_dir, history_tick. rewrite Hhave. cbn [hy_dirs].
  destruct (hy_moves h) as [|l ms] eqn:Hm; [done|].
  assert (tr_lastMove t = l) as -> by (specialize (Hlast ltac:(done)); simpl in Hlast; congruence).
  rewrite bool_decide_eq_false_2 by done. destruct (mv =? l); [done|]. cbn [negb andb].
  change (tr_dirs (t <| tr_dirs := ?d |>)) with d.
  split; [by apply ring_push_wf|]. rewrite ring_push_recent, Hd by done.
  change (Z.to_nat dirRing) with 1024%nat. cbn [take]. f_equal. by rewrite take_take.
Qed.

Lemma note_minute_frame now mv t :
  ∃ m o h l c, note_minute now mv t =
    t <| tr_minute := m |> <| tr_mOpen := o |> <| tr_mHi := h |> <| tr_mLo := l |> <| tr_mClose := c |>.
Proof.
  exists (tr_minute (note_minute now mv t)), (tr_mOpen (note_minute now mv t)), (tr_mHi (note_minute now mv t)),
    (tr_mLo (note_minute now mv t)), (tr_mClose (note_minute now mv t)).
  unfold note_minute. destruct t. by destruct (_ =? _).
Qed.

Lemma note_dir_frame now mv t : note_dir now mv t = t <| tr_dirs := tr_dirs (note_dir now mv t) |>.
Proof. unfold note_dir. destruct t. by destruct (_ && _). Qed.

Lemma note_bar_frame now mv t : note_bar now mv t = t <| tr_bars := tr_bars (note_bar now mv t) |>.
Proof. unfold note_bar. destruct t. by destruct (match head _ with Some _ => _ | None => _ end). Qed.

(** The fields an index tick sets, and those it leaves. *)
Definition same_trade (t t' : Tracker) : Prop :=
  tr_pos t' = tr_pos t ∧ tr_m t' = tr_m t ∧ tr_sign t' = tr_sign t ∧ tr_targetMove t' = tr_targetMove t ∧
  tr_dec t' = tr_dec t ∧ tr_run t' = tr_run t ∧ tr_exitText t' = tr_exitText t ∧ tr_ghost t' = tr_ghost t ∧
  tr_events t' = tr_events t ∧ tr_atr t' = tr_atr t.

Lemma OnIndexTick_fields price ts t :
  let now := t_unix_nano ts in let mv := moveOf price t in let t' := OnIndexTick price ts t in
  tr_bars t' = tr_bars (note_bar now mv t) ∧ tr_dirs t' = tr_dirs (note_dir now mv t) ∧ tr_haveIdx t' = true ∧
  tr_lastMove t' = mv ∧ tr_peakMove t' = (if negb (tr_haveIdx t) || (tr_peakMove t <? mv) then mv else tr_peakMove t) ∧
  same_trade t t'.
Proof.
  cbv zeta. unfold OnIndexTick, same_trade. set (now := t_unix_nano ts). set (mv := moveOf price t).
  rewrite note_dir_frame. generalize (tr_dirs (note_dir now mv t)). intros dirs.
  change (negb (tr_haveIdx (t <| tr_dirs := dirs |>)) || (tr_peakMove (t <| tr_dirs := dirs |>) <? mv))
    with (negb (tr_haveIdx t) || (tr_peakMove t <? mv)).
  rewrite note_bar_frame. edestruct note_minute_frame as (? & ? & ? & ? & ? & ->).
  rewrite !note_bar_bars. destruct (_ || _); repeat split; reflexivity.
Qed.

Lemma history_tick_bars now mv h : hy_bars (history_tick now mv h) = add_second (now /! Second) mv (hy_bars h).
Proof. done. Qed.

Lemma OnIndexTick_tracks price ts t h :
  tracks h t → tracks (history_tick (t_unix_nano ts) (moveOf price t) h) (OnIndexTick price ts t).
Proof.
  intros Ht. destruct (OnIndexTick_fields price ts t) as (Hb & Hd & Hh & Hl & Hp & _).
  destruct (note_bar_recent (t_unix_nano ts) (moveOf price t) t (hy_bars h)) as [Hbw Hbr]; [apply Ht..|].
  destruct (note_dir_recent (t_unix_nano ts) (moveOf price t) t h Ht) as [Hdw Hdr].
  constructor; rewrite ?Hb, ?Hd, ?Hh, ?Hl, ?Hp; [done|done|done|done|done|done|].
  intros _. rewrite (tk_have h t Ht). unfold history_tick. cbn [hy_moves]. destruct (hy_moves h) as [|m ms] eqn:Hm; [done|].
  rewrite bool_decide_eq_false_2 by done. cbn [negb orb]. rewrite max_move_cons by done.
  rewrite (tk_peak h t Ht), Hm by (by rewrite Hm). destruct (Z.ltb_spec (max_move (m :: ms)) (moveOf price t)); lia.
Qed.

Lemma NewTracker_spec pos m t :
  NewTracker pos m = Some t →
  tracks no_history t ∧ tr_pos t = pos ∧ tr_m t = m ∧ tr_dec t = zero_decider ∧ tr_run t = zero_runner ∧ tr_events t = [] ∧
  tr_sign t = (if String.eqb (pc_Side pos) "CALL" then 1 else -1) ∧ 0 < tr_targetMove t.
Proof.
  unfold NewTracker. destruct (String.eqb _ "CALL") eqn:Hc; [|destruct (String.eqb _ "PUT"); [|done]]; cbn [mbind option_bind];
    match goal with |- context [?tm <=? 0] => destruct (Z.leb_spec tm 0) end; intros [= <-]; cbn in *;
    repeat split; try done; try (apply ring_new_wf; done).
Qed.

Definition feed (ticks : list (Z * Time)) (t : Tracker) : Tracker := foldl (λ t '(price, ts), OnIndexTick price ts t) t ticks.
Definition history_of (entry sign : Z) (ticks : list (Z * Time)) : history :=
  foldl (λ h '(price, ts), history_tick (t_unix_nano ts) ((price -! entry) *! sign) h) no_history ticks.

Lemma feed_tracks ticks t h :
  tracks h t → tracks (foldl (λ h '(price, ts), history_tick (t_unix_nano ts) (moveOf price t) h) h ticks) (feed ticks t).
Proof.
  revert t h. induction ticks as [|[price ts] ticks IH]; intros t h Ht; [done|]. cbn [foldl feed].
  pose proof (OnIndexTick_tracks price ts t h Ht) as Ht'. apply IH in Ht'.
  destruct (OnIndexTick_fields price ts t) as (_ & _ & _ & _ & _ & Hpos & _ & Hsign & _).
  unfold moveOf in *. by rewrite Hpos, Hsign in Ht'.
Qed.

Lemma history_moves (f : Z → Z) ticks h :
  ticks ≠ [] → hy_moves (foldl (λ h '(price, ts), history_tick (t_unix_nano ts) (f price) h) h ticks) ≠ [].
Proof.
  destruct ticks as [|[p ts] ticks _] using rev_ind; [done|]. rewrite foldl_app. by cbn.
Qed.

(** Whatever index ticks a tracker has seen, its two ring buffers hold
    the newest 128 one-second bars and the newest 1024 direction changes of
    the whole history, newest first, its last move is the last tick's and its
    peak the highest move of all.  So a feature computed over the rings is
    computed over the recent history, with no slot stale or lost. *)
Theorem rings_are_recent_history pos m t0 ticks :
  NewTracker pos m = Some t0 → ticks ≠ [] →
  let t := feed ticks t0 in let h := history_of (pc_IndexEntry pos) (tr_sign t0) ticks in
  ring_recent barRing (tr_bars t) = take 128 (hy_bars h) ∧ ring_recent dirRing (tr_dirs t) = take 1024 (hy_dirs h) ∧
  head (hy_moves h) = Some (tr_lastMove t) ∧ tr_peakMove t = max_move (hy_moves h).
Proof.
  intros (Ht & Hpos & _)%NewTracker_spec Hne. apply (feed_tracks ticks) in Ht. subst pos.
  pose proof (history_moves (λ p, moveOf p t0) ticks no_history Hne) as Hm. cbv zeta.
  split; [apply Ht|]. split; [apply Ht|]. split; [by apply Ht|by apply Ht].
Qed.

Definition sample_position : PositionContext := {|
  pc_Strategy := "NIFTY50_SR"; pc_Side := "CALL"; pc_IndexToken := "99926000"; pc_IndexEntry := 2500000;
  pc_TargetLevel := 2506000; pc_StopLevel := 2497000; pc_FNOToken := "43000"; pc_FNOEntryPrice := 12000;
  pc_EntryTS := zero_time |}.
Definition sample_tracker : Tracker :=
  {| tr_pos := sample_position; tr_m := Compile DefaultParams; tr_sign := 1; tr_targetMove := 6000; tr_haveIdx := false;
     tr_idxLTP := 0; tr_lastMove := 0; tr_peakMove := 0; tr_peakTS := 0; tr_bars := ring_new barRing zero_microBar;
     tr_dirs := ring_new dirRing zero_tickDir; tr_minute := 0; tr_mOpen := 0; tr_mHi := 0; tr_mLo := 0; tr_mClose := 0;
     tr_prem := 0; tr_peakPrem := 0; tr_spread := 0; tr_spreadAvg := f64_zero; tr_oi := 0; tr_oiFirst := 0; tr_atr := 0;
     tr_dec := zero_decider; tr_run := zero_runner; tr_events := []; tr_exitText := ""; tr_ghost := false;
     tr_earlyFailSent := false; tr_pre := zero_preReject; tr_lastClose := 0; tr_lastCloseTS := zero_time |}.

Lemma sample_tracked : NewTracker sample_position (Compile DefaultParams) = Some sample_tracker.
Proof. reflexivity. Qed.

Lemma rings_are_recent_history_witness :
  let t := feed [(2500100, 1 * Second); (2500300, 1 * Second + 5); (2500200, 2 * Second)] sample_tracker in
  (mb_hi <$> ring_recent barRing (tr_bars t)) = [200; 300] ∧ tr_peakMove t = 300.
Proof.
  destruct (rings_are_recent_history sample_position (Compile DefaultParams) sample_tracker
    [(2500100, 1 * Second); (2500300, 1 * Second + 5); (2500200, 2 * Second)] sample_tracked ltac:(discriminate))
    as (Hb & _ & _ & Hp).
  cbv zeta. rewrite Hb, Hp. split; reflexivity.
Defined.

(** ** Runs *)

Inductive tracker_op :=
  | OpIndexTick (price : Z) (ts : Time)
  | OpOptionTick (price bid ask oi : Z)
  | OpMinuteClose (close : Z) (ts : Time)
  | OpModel (m : WatchModel)
  | OpATR (atr : Z)
  | OpPosition (p : PositionContext)
  | OpGhost
  | OpDrain
  | OpEvaluate (now : Time) (b : option book_view).

Section runs.
Context `{ME : MathExp}.

Definition apply_op (o : tracker_op) (t : Tracker) : option Tracker :=
  match o with
  | OpIndexTick price ts => Some (OnIndexTick price ts t)
  | OpOptionTick price bid ask oi => Some (OnOptionTick price bid ask oi t)
  | OpMinuteClose close ts => Some (OnMinuteClose close ts t)
  | OpModel m => Some (SetModel m t)
  | OpATR atr => Some (SetATR atr t)
  | OpPosition p => Some (t <| tr_pos := p |>)
  | OpGhost => Some (t <| tr_ghost := true |>)
  | OpDrain => Some (DrainEvents t).2
  | OpEvaluate now b => snd <$> tracker_Evaluate now b t
  end.

Definition run_ops (os : list tracker_op) (t : Tracker) : option Tracker :=
  foldl (λ ot o, t ← ot; apply_op o t) (Some t) os.

Lemma run_ops_cons o os t : run_ops (o :: os) t = t' ← apply_op o t; run_ops os t'.
Proof.
  unfold run_ops. cbn [foldl mbind option_bind]. destruct (apply_op o t); [done|].
  induction os as [|o' os IH]; [done|]. exact IH.
Qed.

(** An invariant of every operation holds along a run. *)
Lemma run_ops_inv (P : Tracker → Prop) os t t' :
  (∀ o t t', P t → apply_op o t = Some t' → P t') → P t → run_ops os t = Some t' → P t'.
Proof.
  intros Hstep. revert t. induction os as [|o os IH]; intros t Hp.
  - by intros [= <-].
  - rewrite run_ops_cons. destruct (apply_op o t) as [t1|] eqn:Ho; [|done]. cbn. apply IH. by eapply Hstep.
Qed.

Lemma evaluation_or_not o : (∃ now b, o = OpEvaluate now b) ∨ (∀ now b, o ≠ OpEvaluate now b).
Proof. destruct o; (right; congruence) || (left; eauto). Qed.

(** An operation other than an evaluation leaves the decision and the runner. *)
Definition decided_by (t : Tracker) : decider * runner * string := (tr_dec t, tr_run t, tr_exitText t).

Lemma OnOptionTick_keeps price bid ask oi t :
  decided_by (OnOptionTick price bid ask oi t) = decided_by t ∧ tr_haveIdx (OnOptionTick price bid ask oi t) = tr_haveIdx t ∧
  tr_bars (OnOptionTick price bid ask oi t) = tr_bars t.
Proof. unfold OnOptionTick. destruct (0 <? price), ((0 <? bid) && (bid <? ask)), (0 <? oi); done. Qed.

Lemma apply_op_keeps o t t' :
  (∀ now b, o ≠ OpEvaluate now b) → apply_op o t = Some t' →
  decided_by t' = decided_by t ∧ (tr_haveIdx t = true → tr_haveIdx t' = true).
Proof.
  intros Hne. destruct o; try (by edestruct Hne); intros [= <-]; try done.
  - destruct (OnIndexTick_fields price ts t) as (_ & _ & Hh & _ & _ & _ & _ & _ & _ & Hd & Hr & Hx & _).
    unfold decided_by. by rewrite Hd, Hr, Hx.
  - destruct (OnOptionTick_keeps price bid ask oi t) as (-> & -> & _). done.
  - unfold OnMinuteClose. by destruct (t_after _ _).
Qed.

(** ** An EXIT is final *)

Lemma decide_step_spec m s p ok now d dec why d' :
  decide_step m s p ok now d = (dec, why, d') →
  (dec = DecisionExit ↔ dc_latched d' = true) ∧ (dc_latched d' = true → why = dc_reason d') ∧
  (dc_latched d' = false → why = "") ∧ (dc_latched d = true → d' = d).
Proof.
  unfold decide_step. destruct (dc_latched d) eqn:Hl; [intros [= <- <- <-]; by rewrite Hl|].
  destruct (_ && _); [by intros [= <- <- <-]|].
  assert (∀ d0, dc_latched d0 = false → (if f64_leb (pr_TightenP (wm_Params m)) p then (DecisionTighten, "", d0)
    else (DecisionHold, "", d0)) = (dec, why, d') →
    (dec = DecisionExit ↔ dc_latched d' = true) ∧ (dc_latched d' = true → why = dc_reason d') ∧
    (dc_latched d' = false → why = "") ∧ (false = true → d' = d)) as Hadv.
  { intros d0 Hd0. destruct (f64_leb _ _); intros [= <- <- <-]; rewrite Hd0; done. }
  destruct (f64_leb (pr_ExitP _) p); [|by apply Hadv]. destruct (_ && _); [by intros [= <- <- <-]|by apply Hadv].
Qed.

Lemma score_at_level_spec why t why' t' :
  score_at_level why t = (why', t') → (dc_latched (tr_dec t) = true → why = dc_reason (tr_dec t)) →
  (why = "SCORE" → dc_latched (tr_dec t) = true) →
  dc_latched (tr_dec t') = dc_latched (tr_dec t) ∧ (dc_latched (tr_dec t) = true → why' = dc_reason (tr_dec t')) ∧
  tr_run t' = tr_run t ∧ tr_haveIdx t' = tr_haveIdx t ∧
  (tr_dec t' = tr_dec t ∨ dc_reason (tr_dec t) = "SCORE" ∧ dc_reason (tr_dec t') = ReasonSRReject).
Proof.
  unfold score_at_level. intros H Hwhy Hscore. destruct (rn_next (tr_run t)) as [l|]; [|injection H as <- <-; by auto 10].
  destruct (_ && _) eqn:Hc; injection H as <- <-; [|by auto 10]. bool_prop. subst why. specialize (Hscore eq_refl).
  cbn. rewrite Hscore. split; [done|]. split; [done|]. split; [done|]. split; [done|]. right.
  by rewrite <-(Hwhy Hscore).
Qed.

Lemma earlyFailStep_frame now t :
  earlyFailStep now t =
    t <| tr_events := tr_events (earlyFailStep now t) |> <| tr_earlyFailSent := tr_earlyFailSent (earlyFailStep now t) |>.
Proof.
  unfold earlyFailStep, emit. destruct t. destruct (_ || _); [done|]. destruct (_ || _); [done|]. by destruct (_ || _).
Qed.

Lemma earlyFailStep_keeps now t :
  decided_by (earlyFailStep now t) = decided_by t ∧ tr_haveIdx (earlyFailStep now t) = tr_haveIdx t.
Proof. by rewrite earlyFailStep_frame. Qed.

Lemma latched_steps s now b t : dc_latched (tr_dec t) = true → runnerStep s now b (preRejectStep now b t) = t.
Proof.
  intros Hl. unfold preRejectStep, preRejectActive. rewrite Hl. cbn [negb]. rewrite andb_false_r. cbn [andb].
  unfold runnerStep. by rewrite Hl.
Qed.

Lemma judge_spec now b t v t' :
  judge now b t = Some (v, t') →
  (vd_dec v = DecisionExit ↔ dc_latched (tr_dec t') = true) ∧ (dc_latched (tr_dec t') = true → vd_why v = dc_reason (tr_dec t')) ∧
  (dc_latched (tr_dec t) = true → dc_latched (tr_dec t') = true ∧ tr_run t' = tr_run t ∧
     (tr_dec t' = tr_dec t ∨ dc_reason (tr_dec t) = "SCORE" ∧ dc_reason (tr_dec t') = ReasonSRReject)).
Proof.
  unfold judge. destruct (features now t) as [s|]; [|done]. cbn [mbind option_bind].
  destruct (earlyFailStep_keeps now t) as [Hkeep _]. set (t1 := earlyFailStep now t) in *.
  destruct (score (tr_m t1) s) as [p top]. set (t2 := runnerStep s now b (preRejectStep now b t1)).
  destruct (decide_step _ _ _ _ _ _) as [[dec why] d] eqn:Hd. apply decide_step_spec in Hd as (Hexit & Hwhy & Hnone & Hlatch).
  destruct (score_at_level why _) as [why' t3] eqn:Hs. intros [= <- <-]. cbn [vd_dec vd_why].
  apply score_at_level_spec in Hs as (Hl3 & Hw3 & Hr3 & _ & Hd3); [|done|].
  2:{ intros ->. cbn. destruct (dc_latched d) eqn:E; [done|by specialize (Hnone eq_refl)]. }
  cbn in Hl3, Hw3, Hr3, Hd3. rewrite Hl3. split; [done|]. split; [done|].
  intros Hl. assert (dc_latched (tr_dec t1) = true) as Hl1 by (unfold decided_by in Hkeep; congruence).
  assert (t2 = t1) as E by (by apply latched_steps). rewrite E in *. rewrite (Hlatch Hl1) in *.
  unfold decided_by in Hkeep. split; [done|]. split; [congruence|]. injection Hkeep as <- _ _. done.
Qed.

(** What deciding never touches. *)
Definition market (t : Tracker) :=
  (tr_pos t, tr_m t, tr_sign t, tr_targetMove t, tr_haveIdx t, tr_idxLTP t, tr_lastMove t, tr_peakMove t, tr_atr t, tr_ghost t,
   tr_bars t, tr_dirs t).

Lemma market_emit a r x t : market (emit a r x t) = market t.
Proof. done. Qed.
Lemma market_upd_run f t : market (upd_run f t) = market t.
Proof. done. Qed.
Lemma market_latchExit r x t : market (latchExit r x t) = market t.
Proof. done. Qed.
Lemma market_raise_lock lock l t : market (raise_lock lock l t) = market t.
Proof. done. Qed.

Lemma market_target_step s now b t : market (target_step s now b t) = market t.
Proof. unfold target_step. destruct (_ || _); [done|]. by destruct (_ && _). Qed.

Lemma market_peak_step now t : market (peak_step now t) = market t.
Proof. unfold peak_step. destruct (_ <? _); [by destruct (_ && _)|by destruct (_ <? _)]. Qed.

Lemma market_closer_level ls t : market (closer_level ls t) = market t.
Proof. unfold closer_level. destruct (nextLevel _ _ _ _); [|done]. by destruct (match rn_next _ with Some _ => _ | None => _ end). Qed.

Lemma market_levels_step b t : market (levels_step b t) = market t.
Proof.
  unfold levels_step, onNewLevels. destruct b as [b|]; [|done]. destruct (_ =? _); [done|].
  set (t1 := closer_level _ _). assert (market t1 = market t) as <- by (unfold t1; by rewrite market_closer_level).
  by destruct (best_behind _ t1) as [[]|].
Qed.

Lemma market_ladder_step now b t : market (ladder_step now b t) = market t.
Proof.
  unfold ladder_step, break_level. destruct (rn_next _); [|done]. destruct (_ <=? _), (_ <? _); try done; by destruct (_ <=? _).
Qed.

Lemma market_exit_step t : market (exit_step t) = market t.
Proof. unfold exit_step. destruct (_ <=? _); [done|]. destruct (_ && _); [done|]. by destruct (_ && _). Qed.

Lemma market_runnerStep s now b t : market (runnerStep s now b t) = market t.
Proof.
  unfold runnerStep. destruct (dc_latched _); [done|]. destruct (run_phase_normal t); [apply market_target_step|].
  by rewrite market_exit_step, market_ladder_step, market_levels_step, market_peak_step.
Qed.

Lemma market_preRejectStep now b t : market (preRejectStep now b t) = market t.
Proof. unfold preRejectStep. destruct (preRejectActive t); [|done]. by destruct (preReject_step _ _) as [[]]. Qed.

Lemma market_judge now b t v t' : judge now b t = Some (v, t') → market t' = market t.
Proof.
  unfold judge. destruct (features now t) as [s|]; [|done]. cbn [mbind option_bind].
  assert (market (earlyFailStep now t) = market t) as He by (by rewrite earlyFailStep_frame).
  destruct (score _ s) as [p top]. set (t2 := runnerStep s now b (preRejectStep now b (earlyFailStep now t))).
  assert (market t2 = market t) as H2 by (unfold t2; by rewrite market_runnerStep, market_preRejectStep).
  destruct (decide_step _ _ _ _ _ _) as [[dec why] d]. unfold score_at_level.
  destruct (rn_next _); [destruct (_ && _)|]; by intros [= _ <-].
Qed.

Lemma evaluate_cases now b t a t' :
  tracker_Evaluate now b t = Some (a, t') →
  (tr_haveIdx t = false ∧ t' = t ∧ a = blank_assessment now t) ∨
  (tr_haveIdx t = true ∧ ∃ v, judge now b t = Some (v, t') ∧ a = assess now b v t').
Proof.
  unfold tracker_Evaluate. destruct (tr_haveIdx t); cbn [negb]; [|intros [= <- <-]; by left].
  destruct (judge now b t) as [[v t1]|]; [|done]. cbn. intros [= <- <-]. right. eauto.
Qed.

(** Only a tracker that has seen the index is latched. *)
Definition latch_ok (t : Tracker) : Prop := dc_latched (tr_dec t) = true → tr_haveIdx t = true.

Lemma apply_op_latch_ok o t t' : latch_ok t → apply_op o t = Some t' → latch_ok t'.
Proof.
  intros Hok Ho. destruct (evaluation_or_not o) as [(now & b & ->)|Hne].
  - cbn in Ho. destruct (tracker_Evaluate now b t) as [[a t1]|] eqn:He; [|done]. injection Ho as <-.
    apply evaluate_cases in He as [(_ & -> & _)|(Hh & v & Hj & _)]; [done|]. intros _.
    apply market_judge in Hj. unfold market in Hj. cbn. congruence.
  - apply apply_op_keeps in Ho as [Hd Hh]; [|done]. intros Hl. apply Hh, Hok. unfold decided_by in Hd. congruence.
Qed.

(** An EXIT's reason stays, but for a score that becomes a rejection. *)
Definition reason_kept (r r' : string) : Prop := r' = r ∨ r = "SCORE" ∧ r' = ReasonSRReject.

Lemma apply_op_latched run0 r0 o t t' :
  dc_latched (tr_dec t) = true ∧ tr_run t = run0 ∧ reason_kept r0 (dc_reason (tr_dec t)) → apply_op o t = Some t' →
  dc_latched (tr_dec t') = true ∧ tr_run t' = run0 ∧ reason_kept r0 (dc_reason (tr_dec t')).
Proof.
  intros (Hl & Hr & Hk) Ho. destruct (evaluation_or_not o) as [(now & b & ->)|Hne].
  - cbn in Ho. destruct (tracker_Evaluate now b t) as [[a t1]|] eqn:He; [|done]. injection Ho as <-.
    apply evaluate_cases in He as [(_ & -> & _)|(_ & v & Hj & _)]; [done|].
    apply judge_spec in Hj as (_ & _ & Hj). destruct (Hj Hl) as (Hl' & Hr' & Hd). cbn. split; [done|]. split; [congruence|].
    destruct Hd as [->|[Hs Hs']]; [done|]. destruct Hk as [Hk|[_ Hk]]; [right; split; congruence|].
    rewrite Hs in Hk. discriminate.
  - apply apply_op_keeps in Ho as [Hd _]; [|done]. unfold decided_by in Hd. injection Hd as -> -> _. done.
Qed.

(** C23: an EXIT is final.  Whatever a tracker sees after an evaluation said
    EXIT (ticks, closes, new tuning, a moved stop, more evaluations in any
    order), every later evaluation says EXIT, the runner it froze never moves
    again, and the reason stays, except that a score's exit may be renamed a
    rejection at the runner's level. *)
Theorem exit_is_final pos m t0 os1 t1 now b a t2 os2 t3 now' b' a' t4 :
  NewTracker pos m = Some t0 → run_ops os1 t0 = Some t1 →
  tracker_Evaluate now b t1 = Some (a, t2) → as_Decision a = DecisionExit →
  run_ops os2 t2 = Some t3 → tracker_Evaluate now' b' t3 = Some (a', t4) →
  as_Decision a' = DecisionExit ∧ as_Latched a' = true ∧ tr_run t4 = tr_run t2 ∧
  reason_kept (as_ExitReason a) (as_ExitReason a').
Proof.
  intros (_ & _ & _ & Hd0 & _)%NewTracker_spec Hrun1 He1 Hexit Hrun2 He2.
  apply evaluate_cases in He1 as [(_ & -> & ->)|(Hh & v & Hj & ->)]; [discriminate|]. cbn in Hexit.
  pose proof (market_judge _ _ _ _ _ Hj) as Hm. apply judge_spec in Hj as (Hj & Hwhy & _). apply Hj in Hexit. clear Hj.
  assert (latch_ok t2) as Hok2 by (intros _; unfold market in Hm; congruence).
  pose proof (run_ops_inv latch_ok os2 t2 t3 apply_op_latch_ok Hok2 Hrun2) as Hok3.
  destruct (run_ops_inv _ os2 t2 t3 (apply_op_latched (tr_run t2) (dc_reason (tr_dec t2)))
    ltac:(split; [done|split; [done|by left]]) Hrun2) as (Hl3 & Hr3 & Hk3).
  apply evaluate_cases in He2 as [(Hno & _)|(_ & v' & Hj & ->)]; [by rewrite Hok3 in Hno|].
  assert (apply_op (OpEvaluate now' b') t3 = Some t4) as Ho.
  { cbn. unfold tracker_Evaluate. rewrite (Hok3 Hl3). cbn [negb]. by rewrite Hj. }
  destruct (apply_op_latched _ _ _ _ _ (conj Hl3 (conj Hr3 Hk3)) Ho) as (Hl4 & Hr4 & Hk4).
  apply judge_spec in Hj as (Hj & Hwhy' & _). cbn. rewrite Hl4, (Hwhy Hexit), (Hwhy' Hl4). split; [by apply Hj|]. done.
Qed.
(** ** A runner's lock only rises *)

Definition lock (t : Tracker) : Z := rn_lockMove (tr_run t).

(** Moves and tolerances far from overflow. *)
Definition small (z : Z) : Prop := - 2 ^ 61 <= z <= 2 ^ 61.
Definition moves_in_range (t : Tracker) : Prop :=
  0 <= levelTol t <= 2 ^ 61 ∧ small (lock t) ∧ small (rn_pbLow (tr_run t)) ∧ small (tr_lastMove t).

Lemma InRunner_phase t : InRunner t = true → run_phase_normal t = false ∧ rn_phase (tr_run t) = PhaseRunner.
Proof. unfold InRunner, run_phase_normal. intros Hr. apply String.eqb_eq in Hr. by rewrite Hr. Qed.

Lemma market_levelTol t t' : market t' = market t → levelTol t' = levelTol t ∧ rejectPts t' = rejectPts t ∧ tr_lastMove t' = tr_lastMove t.
Proof. unfold market, levelTol, rejectPts. intros [=]. by repeat split; congruence. Qed.

Lemma peak_step_lock now t :
  moves_in_range t → InRunner (peak_step now t) = InRunner t ∧ lock t <= lock (peak_step now t) ∧ small (lock (peak_step now t)).
Proof.
  intros (Htol & Hl & Hpb & _). unfold small, lock in *. unfold peak_step. destruct (rn_runPeak _ <? _); [|by destruct (_ <? _)].
  destruct (_ && _) eqn:Hc; [|done]. apply andb_true_iff in Hc as [_ Hc]. apply Z.ltb_lt in Hc.
  split; [done|]. cbn. split; [lia|]. rewrite i64_id in * by (i64_unfold; lia). lia.
Qed.

Lemma best_behind_bounds ls t l m : best_behind ls t = Some (l, m) → lock t +! levelTol t < m < tr_lastMove t -! levelTol t.
Proof.
  unfold best_behind. cbv zeta. set (f := λ best l, _).
  assert (∀ ls best, (∀ l m, best = Some (l, m) → lock t +! levelTol t < m < tr_lastMove t -! levelTol t) →
    ∀ l m, foldl f best ls = Some (l, m) → lock t +! levelTol t < m < tr_lastMove t -! levelTol t) as Hgen; [|by apply Hgen].
  clear. induction ls as [|x ls IH]; intros best Hb; [done|]. cbn [foldl]. apply IH. intros l m. unfold f at 1.
  destruct (_ || _); [by apply Hb|]. destruct (_ && _) eqn:Hc; [|by apply Hb]. intros [= <- <-]. bool_prop.
  split; [|done]. destruct best as [[l' m']|]; [|done]. specialize (Hb _ _ eq_refl). lia.
Qed.

Lemma closer_level_lock ls t : InRunner (closer_level ls t) = InRunner t ∧ lock (closer_level ls t) = lock t.
Proof.
  unfold closer_level. destruct (nextLevel _ _ _ _); [|done]. by destruct (match rn_next _ with Some _ => _ | None => _ end).
Qed.

Lemma levels_step_lock b t :
  0 <= levelTol t <= 2 ^ 61 → small (lock t) → small (tr_lastMove t) →
  InRunner (levels_step b t) = InRunner t ∧ lock t <= lock (levels_step b t).
Proof.
  intros Htol Hl Hmv. unfold levels_step, onNewLevels. destruct b as [b|]; [|by split; [|lia]]. destruct (_ =? _); [by split; [|lia]|].
  set (t0 := upd_run _ t). set (t1 := closer_level _ t0). destruct (closer_level_lock (bv_levels b) t0) as [Hr1 Hl1]. fold t1 in Hr1, Hl1.
  destruct (market_levelTol t t1) as (Ht & _ & Hm); [unfold t1; by rewrite market_closer_level|].
  change (InRunner t0) with (InRunner t) in Hr1. change (lock t0) with (lock t) in Hl1.
  destruct (best_behind _ t1) as [[l m]|] eqn:Hb; [|split; [done|lia]].
  apply best_behind_bounds in Hb. rewrite Ht, Hm, Hl1 in Hb. split; [exact Hr1|]. cbn. rewrite Ht. unfold small in *.
  rewrite i64_id in Hb by (i64_unfold; lia). rewrite (i64_id (tr_lastMove t - _)) in Hb by (i64_unfold; lia).
  rewrite i64_id by (i64_unfold; lia). lia.
Qed.

Lemma ladder_step_lock now b t :
  InRunner (ladder_step now b t) = InRunner t ∧ lock t <= lock (ladder_step now b t).
Proof.
  unfold ladder_step, break_level. destruct (rn_next _) as [l|]; [|split; [done|lia]].
  set (t1 := if _ <=? _ then upd_run _ t else t). assert (InRunner t1 = InRunner t ∧ lock t1 = lock t) as [<- <-] by (unfold t1; by destruct (_ <=? _)).
  clearbody t1. destruct (_ <? _); [|split; [done|apply Z.le_refl]]. set (t2 := upd_run _ t1).
  assert (InRunner t2 = InRunner t1 ∧ lock t2 = lock t1) as [<- <-] by (unfold t2, lock, InRunner, upd_run; cbn; by destruct (_ =? _)).
  clearbody t2. destruct (_ <=? _); [|split; [done|lia]]. split; [done|]. apply Z.le_max_l.
Qed.

Lemma exit_step_lock t : tr_run (exit_step t) = tr_run t ∧ (dc_latched (tr_dec (exit_step t)) = false → lock t < tr_lastMove t).
Proof.
  unfold exit_step, lock. destruct (Z.leb_spec (tr_lastMove t) (rn_lockMove (tr_run t))); [done|].
  destruct (_ && _); [by split|]. by destruct (_ && _).
Qed.

Lemma runnerStep_lock s now b t :
  InRunner t = true → moves_in_range t →
  InRunner (runnerStep s now b t) = true ∧ lock t <= lock (runnerStep s now b t) ∧
  (dc_latched (tr_dec (runnerStep s now b t)) = false → lock (runnerStep s now b t) < tr_lastMove t).
Proof.
  intros Hr Hrange. unfold runnerStep. destruct (dc_latched (tr_dec t)) eqn:Hl; [rewrite Hl; repeat split; [done|lia|done]|].
  rewrite (proj1 (InRunner_phase t Hr)).
  destruct (peak_step_lock now t Hrange) as (Hr1 & Hl1 & Hs1). destruct (market_levelTol t (peak_step now t)) as (Ht1 & _ & Hm1);
    [apply market_peak_step|].
  destruct (levels_step_lock b (peak_step now t)) as (Hr2 & Hl2); [rewrite Ht1; apply Hrange|done|rewrite Hm1; apply Hrange|].
  set (t2 := levels_step b (peak_step now t)) in *. destruct (ladder_step_lock now b t2) as (Hr3 & Hl3).
  set (t3 := ladder_step now b t2) in *. destruct (exit_step_lock t3) as (Hrun & Hex).
  assert (tr_lastMove t3 = tr_lastMove t) as Hm3.
  { apply market_levelTol. unfold t3, t2. by rewrite market_ladder_step, market_levels_step, market_peak_step. }
  unfold InRunner, lock in *. rewrite Hrun. split; [congruence|]. split; [lia|]. intros Hno. specialize (Hex Hno). lia.
Qed.

Lemma judge_lock now b t v t' :
  InRunner t = true → moves_in_range t → judge now b t = Some (v, t') →
  InRunner t' = true ∧ lock t <= lock t' ∧ (dc_latched (tr_dec t') = false → lock t' < tr_lastMove t').
Proof.
  intros Hr Hrange Hj. pose proof (market_judge _ _ _ _ _ Hj) as Hm. revert Hj.
  unfold judge. destruct (features now t) as [s|]; [|done]. cbn [mbind option_bind].
  rewrite (earlyFailStep_frame now t). set (t1 := t <| tr_events := _ |> <| tr_earlyFailSent := _ |>).
  assert (preRejectStep now b t1 = t1) as ->.
  { unfold preRejectStep, preRejectActive. change (run_phase_normal t1) with (run_phase_normal t).
    by rewrite (proj1 (InRunner_phase t Hr)), andb_false_r. }
  destruct (runnerStep_lock s now b t1 Hr Hrange) as (Hr2 & Hl2 & Hx2). set (t2 := runnerStep s now b t1) in *.
  destruct (score _ s) as [p top]. destruct (decide_step _ _ _ _ _ _) as [[dec why] d] eqn:Hd.
  apply decide_step_spec in Hd as (_ & Hwhy & Hnone & Hkeep).
  destruct (score_at_level why _) as [why' t3] eqn:Hs. apply score_at_level_spec in Hs as (Hl3 & _ & Hr3 & _); [|done|].
  2:{ intros ->. cbn. destruct (dc_latched d) eqn:E; [done|by specialize (Hnone eq_refl)]. }
  intros [= <- <-]. unfold InRunner, lock in *. rewrite Hr3. cbn in *. split; [done|]. split; [done|]. intros Hno. rewrite Hl3 in Hno.
  assert (tr_lastMove t3 = tr_lastMove t) as -> by (apply market_levelTol; done). apply Hx2.
  destruct (dc_latched (tr_dec t2)) eqn:E; [|done]. rewrite (Hkeep eq_refl) in Hno. congruence.
Qed.

(** A run every state of which is in range. *)
Inductive run_in_range : Tracker → Tracker → Prop :=
  | rir_refl t : run_in_range t t
  | rir_step o t t' t'' : moves_in_range t → apply_op o t = Some t' → run_in_range t' t'' → run_in_range t t''.

Lemma apply_op_runner o t t' :
  InRunner t = true → tr_haveIdx t = true → moves_in_range t → apply_op o t = Some t' →
  InRunner t' = true ∧ tr_haveIdx t' = true ∧ lock t <= lock t'.
Proof.
  intros Hr Hh Hrange Ho. destruct (evaluation_or_not o) as [(now & b & ->)|Hne].
  - cbn in Ho. destruct (tracker_Evaluate now b t) as [[a t1]|] eqn:He; [|done]. injection Ho as <-.
    apply evaluate_cases in He as [(Hno & _)|(_ & v & Hj & _)]; [congruence|]. pose proof (market_judge _ _ _ _ _ Hj) as Hm.
    destruct (judge_lock _ _ _ _ _ Hr Hrange Hj) as (? & ? & _). unfold market in Hm. cbn. split; [done|]. split; [congruence|done].
  - apply apply_op_keeps in Ho as [Hd Hh']; [|done]. unfold decided_by, InRunner, lock in *. injection Hd as _ -> _. auto with lia.
Qed.

(** A position past its target is held only above its lock, and the lock
    only rises.  From a state in the runner, over any run of ticks, closes,
    new levels, tuning and evaluations with moves far from overflow, the
    position stays in the runner, the lock is never lower than it was, and
    an evaluation that does not say EXIT leaves the price strictly above
    it. *)
Theorem runner_held_above_lock t t1 now b a t2 :
  InRunner t = true → tr_haveIdx t = true → run_in_range t t1 → moves_in_range t1 →
  tracker_Evaluate now b t1 = Some (a, t2) →
  InRunner t2 = true ∧ lock t <= lock t2 ∧ (as_Decision a ≠ DecisionExit → lock t2 < tr_lastMove t2).
Proof.
  intros Hr Hh Hrun Hrange He.
  assert (InRunner t1 = true ∧ tr_haveIdx t1 = true ∧ lock t <= lock t1) as (Hr1 & Hh1 & Hl1).
  { clear He Hrange. induction Hrun as [t|o t t' t'' Hrange Ho _ IH]; [by auto with lia|].
    destruct (apply_op_runner _ _ _ Hr Hh Hrange Ho) as (Hr' & Hh' & Hl'). destruct (IH Hr' Hh') as (? & ? & ?). auto with lia. }
  apply evaluate_cases in He as [(Hno & _)|(_ & v & Hj & ->)]; [congruence|].
  destruct (judge_lock _ _ _ _ _ Hr1 Hrange Hj) as (Hr2 & Hl2 & Hx). apply judge_spec in Hj as (Hj & _ & _).
  split; [done|]. split; [lia|]. intros Hno. apply Hx. destruct (dc_latched (tr_dec t2)); [|done]. by destruct Hno; apply Hj.
Qed.
End runs.

(** A rise to two thirds of the target that gives back three quarters. *)
Definition unit_exp : MathExp := λ _, f64_of_int 1.
Definition rise_and_fall : list tracker_op :=
  [OpIndexTick 2504000 (100 * Second); OpIndexTick 2501000 (101 * Second)].
Definition after_exit : list tracker_op := [OpIndexTick 2507000 (103 * Second); OpModel (Compile DefaultParams)].

(** A run, an evaluation, another run and another evaluation. *)
Definition two_verdicts `{ME : MathExp} (os1 : list tracker_op) (now : Time) (os2 : list tracker_op) (now' : Time) (t : Tracker) :
    option (Assessment * Assessment) :=
  t1 ← run_ops os1 t;
  '(a, t2) ← tracker_Evaluate now None t1;
  t3 ← run_ops os2 t2;
  '(a', _) ← tracker_Evaluate now' None t3;
  Some (a, a').

Lemma two_verdicts_inv `{ME : MathExp} os1 now os2 now' t a a' :
  two_verdicts os1 now os2 now' t = Some (a, a') →
  ∃ t1 t2 t3 t4, run_ops os1 t = Some t1 ∧ tracker_Evaluate now None t1 = Some (a, t2) ∧ run_ops os2 t2 = Some t3 ∧
    tracker_Evaluate now' None t3 = Some (a', t4).
Proof.
  unfold two_verdicts. destruct (run_ops os1 t) as [t1|]; [|done]. cbn [mbind option_bind].
  destruct (tracker_Evaluate now None t1) as [[a1 t2]|] eqn:E2; [|done]. cbn [mbind option_bind].
  destruct (run_ops os2 t2) as [t3|] eqn:E3; [|done]. cbn [mbind option_bind].
  destruct (tracker_Evaluate now' None t3) as [[a2 t4]|] eqn:E4; [|done]. intros [= <- <-]. eauto 10.
Qed.

Lemma exit_is_final_witness :
  ∃ a a', two_verdicts (ME := unit_exp) rise_and_fall (102 * Second) after_exit (104 * Second) sample_tracker = Some (a, a') ∧
    as_Decision a = DecisionExit ∧ as_Decision a' = DecisionExit.
Proof.
  pose (vs := two_verdicts (ME := unit_exp) rise_and_fall (102 * Second) after_exit (104 * Second) sample_tracker).
  assert ((λ aa, as_Decision aa.1) <$> vs = Some DecisionExit) as Hexit by (vm_compute; reflexivity).
  destruct vs as [[a a']|] eqn:E; [|discriminate]. injection Hexit as Ha. exists a, a'. split; [exact E|]. split; [exact Ha|].
  destruct (two_verdicts_inv (ME := unit_exp) _ _ _ _ _ _ _ E) as (t1 & t2 & t3 & t4 & E1 & E2 & E3 & E4).
  apply (exit_is_final (ME := unit_exp) _ _ _ _ _ _ _ _ _ _ _ _ _ _ _ sample_tracked E1 E2 Ha E3 E4).
Defined.

(** Past the target, held, and higher still. *)
Definition held : Tracker :=
  default sample_tracker (run_ops (ME := unit_exp) [OpIndexTick 2506200 (100 * Second); OpEvaluate (101 * Second) None] sample_tracker).
Definition higher : Tracker := OnIndexTick 2506900 (102 * Second) held.

Lemma runner_held_above_lock_witness :
  lock held = 4200 ∧ ∃ a t2, tracker_Evaluate (ME := unit_exp) (103 * Second) None higher = Some (a, t2) ∧ 4200 <= lock t2 < 6900.
Proof.
  assert (lock held = 4200) as Hl by (vm_compute; reflexivity). split; [exact Hl|].
  pose (r := tracker_Evaluate (ME := unit_exp) (103 * Second) None higher).
  assert ((λ at2, (String.eqb (as_Decision at2.1) DecisionExit, tr_lastMove at2.2)) <$> r = Some (false, 6900)) as Hr
    by (vm_compute; reflexivity).
  destruct r as [[a t2]|] eqn:E; [|discriminate]. injection Hr as Hd Hm. exists a, t2. split; [exact E|].
  destruct (runner_held_above_lock (ME := unit_exp) held higher (103 * Second) None a t2) as (_ & H1 & H2).
  - vm_compute. reflexivity.
  - vm_compute. reflexivity.
  - apply (rir_step (ME := unit_exp) (OpIndexTick 2506900 (102 * Second)) held higher higher).
    + z_compute.
    + reflexivity.
    + apply rir_refl.
  - z_compute.
  - exact E.
  - rewrite Hl in H1. rewrite Hm in H2. split; [exact H1|]. apply H2. intros He. rewrite He in Hd. discriminate.
Defined.

(** ** Ticks in order never panic *)

Section panic.
Context `{ME : MathExp}.

(** Index ticks carry times that do not go back. *)
Fixpoint ticks_in_order (since : Time) (os : list tracker_op) : Prop :=
  match os with
  | [] => True
  | OpIndexTick _ ts :: os => since <= ts <= max_i64 ∧ ticks_in_order ts os
  | _ :: os => ticks_in_order since os
  end.

(** The bars kept are in order, none after a time. *)
Definition bars_in_order (upto : Time) (t : Tracker) : Prop :=
  ring_wf barRing (tr_bars t) ∧
  Forall (λ b, 0 <= mb_sec b <= upto /! Second) (ring_recent barRing (tr_bars t)) ∧
  StronglySorted (λ a b, mb_sec b <= mb_sec a) (ring_recent barRing (tr_bars t)).

Lemma sorted_take {A} (R : A → A → Prop) n l : StronglySorted R l → StronglySorted R (take n l).
Proof. intros Hs. revert n. induction Hs as [|x l _ IH Hx]; intros [|n]; constructor; [apply IH|by apply Forall_take]. Qed.

Lemma block_highs_total latest bars hi :
  Forall (λ b, 0 <= mb_sec b <= latest) bars → in_i64 latest → is_Some (block_highs latest bars hi).
Proof.
  intros Hall Hr. revert hi. induction Hall as [|b bars Hb _ IH]; intros hi; [by eexists|]. cbn [block_highs].
  destruct (6 <=? _); [by eexists|]. i64_simpl. rewrite i64_id; [|i64_unfold; unfold lowerHighBlock; rewrite Z.quot_div_nonneg by lia;
    pose proof (Z.div_pos (latest - mb_sec b) 5); pose proof (Z.div_le_upper_bound (latest - mb_sec b) 5 (latest - mb_sec b)); lia].
  destruct (Z.ltb_spec (Z.quot (latest - mb_sec b) lowerHighBlock) 0) as [Hlt|_]; [|apply IH].
  unfold lowerHighBlock in Hlt. rewrite Z.quot_div_nonneg in Hlt by lia. pose proof (Z.div_pos (latest - mb_sec b) 5). lia.
Qed.

Lemma lowerHighs_total upto t : bars_in_order upto t → is_Some (lowerHighs t).
Proof.
  intros (Hwf & Hall & Hs). unfold lowerHighs. destruct (ring_recent _ _) as [|latest bars]; [by eexists|].
  destruct (block_highs_total (mb_sec latest) (latest :: bars) (replicate 6 None)) as [hi ->]; [| |by eexists].
  - inversion Hs as [|? ? _ Hle]; subst. inversion Hall as [|? ? Hl Hb]; subst. constructor; [lia|].
    rewrite Forall_forall in Hle, Hb |- *. intros x Hx. specialize (Hle x Hx). specialize (Hb x Hx). cbn in Hb. lia.
  - inversion Hall; subst. pose proof (i64_range (Z.quot upto Second)). i64_unfold. lia.
Qed.

Lemma features_total upto now t : bars_in_order upto t → is_Some (features now t).
Proof.
  intros Hb. unfold features, momentum_features. destruct (lowerHighs_total upto t Hb) as [lh ->]. cbn [mbind option_bind].
  destruct (_ <=? _); by eexists.
Qed.

Lemma evaluate_total upto now b t : bars_in_order upto t → is_Some (tracker_Evaluate now b t).
Proof.
  intros Hb. unfold tracker_Evaluate. destruct (negb _); [by eexists|]. unfold judge.
  destruct (features_total upto now t Hb) as [s ->]. cbn [mbind option_bind]. destruct (score _ s).
  destruct (decide_step _ _ _ _ _ _) as [[dec why] d]. destruct (score_at_level _ _). by eexists.
Qed.

Lemma OnIndexTick_in_order upto price ts t :
  0 <= upto <= ts → ts <= max_i64 → bars_in_order upto t → bars_in_order ts (OnIndexTick price ts t).
Proof.
  intros Hle Hmax (Hwf & Hall & Hs). destruct (OnIndexTick_fields price ts t) as (Hb & _). unfold bars_in_order. rewrite Hb.
  assert (t_unix_nano ts = ts) as -> by (unfold t_unix_nano; apply i64_id; i64_unfold; lia).
  assert (0 <= upto /! Second <= ts /! Second) as Hsec.
  { pose proof (Z.quot_le_mono upto ts Second). pose proof (Z.quot_pos upto Second). pose proof (Z.quot_le_upper_bound ts Second max_i64).
    unfold Second in *. i64_simpl. lia. }
  rewrite note_bar_bars. destruct (ring_recent barRing (tr_bars t)) as [|b bars] eqn:Hr.
  - cbn [head]. split; [by apply ring_push_wf|]. rewrite ring_push_recent, Hr by done. change (Z.to_nat barRing) with 128%nat. cbn [take].
    split; repeat constructor; cbn [mb_sec]; lia.
  - cbn [head]. inversion Hs as [|? ? Hs' Hhd]; subst. inversion Hall as [|? ? Hb0 Hall']; subst.
    assert (Forall (λ b, 0 <= mb_sec b <= ts /! Second) bars) as Hup by (eapply Forall_impl; [exact Hall'|]; cbn; lia).
    destruct (Z.eqb_spec (mb_sec b) (ts /! Second)).
    + split; [by apply ring_alter_wf|]. rewrite ring_alter_recent, Hr by done. cbn.
      split; [constructor; [cbn; lia|done]|constructor; [done|]]. eapply Forall_impl; [exact Hhd|]. done.
    + split; [by apply ring_push_wf|]. rewrite ring_push_recent, Hr by done. change (Z.to_nat barRing) with 128%nat. cbn [take].
      split; [constructor; [cbn; lia|constructor; [lia|by apply Forall_take]]|].
      constructor; [constructor; [by apply sorted_take|by apply Forall_take]|].
      constructor; [cbn; lia|]. apply Forall_take. eapply Forall_impl; [exact Hall'|]. cbn. lia.
Qed.

Lemma tick_or_not o : (∃ price ts, o = OpIndexTick price ts) ∨ (∀ price ts, o ≠ OpIndexTick price ts).
Proof. destruct o; (right; congruence) || (left; eauto). Qed.

Lemma apply_op_in_order upto o t :
  (∀ price ts, o ≠ OpIndexTick price ts) → bars_in_order upto t → ∃ t', apply_op o t = Some t' ∧ bars_in_order upto t'.
Proof.
  intros Hne Hb. destruct o; try (by edestruct Hne); cbn [apply_op]; try (eexists; split; [reflexivity|]; try exact Hb).
  - unfold bars_in_order. destruct (OnOptionTick_keeps price bid ask oi t) as (_ & _ & ->). exact Hb.
  - unfold OnMinuteClose. by destruct (t_after _ _).
  - destruct (evaluate_total upto now b t Hb) as [[a t'] He]. rewrite He. eexists. split; [reflexivity|]. cbn.
    apply evaluate_cases in He as [(_ & -> & _)|(_ & v & Hj & _)]; [done|]. apply market_judge in Hj. unfold market in Hj.
    unfold bars_in_order. by replace (tr_bars t') with (tr_bars t) by congruence.
Qed.

Lemma run_total os upto t : ticks_in_order upto os → bars_in_order upto t → 0 <= upto → is_Some (run_ops os t).
Proof.
  revert upto t. induction os as [|o os IH]; intros upto t Hos Hb H0; [by eexists|]. rewrite run_ops_cons.
  destruct (tick_or_not o) as [(p & ts & ->)|Hne].
  - cbn [apply_op mbind option_bind]. destruct Hos as [[Hle Hmax] Hos]. apply (IH ts); [done| |lia].
    by apply (OnIndexTick_in_order upto).
  - destruct (apply_op_in_order upto o t) as (t' & -> & Hb'); [done|done|]. cbn [mbind option_bind].
    apply (IH upto); [|done|done]. destruct o; naive_solver.
Qed.

(** A tracker fed index ticks whose times do not go back never panics,
    whatever else happens: every run of ticks, closes, tuning, levels and
    evaluations returns.  (The block highs of the lower-high count are indexed
    by the seconds since each bar, which an old tick makes negative.) *)
Theorem tracker_never_panics pos m t0 os :
  NewTracker pos m = Some t0 → ticks_in_order 0 os → is_Some (run_ops os t0).
Proof.
  intros (Ht & _)%NewTracker_spec Hos. assert (bars_in_order 0 t0) as Hb.
  { split; [apply Ht|]. rewrite (tk_bars _ _ Ht). split; constructor. }
  by apply (run_total os 0).
Qed.
End panic.

(** Ten seconds of ticks, then one six seconds older: an evaluation panics. *)
Definition ten_ticks : list tracker_op :=
  (λ i, OpIndexTick (2500000 + 10 * Z.of_nat i) ((100 + Z.of_nat i) * Second)) <$> seq 0 10.

Lemma tracker_never_panics_witness :
  is_Some (run_ops (ME := unit_exp) (ten_ticks ++ [OpEvaluate (110 * Second) None]) sample_tracker).
Proof.
  apply (tracker_never_panics (ME := unit_exp) _ _ _ _ sample_tracked). vm_compute. repeat split; discriminate.
Defined.

Example old_tick_panics :
  run_ops (ME := unit_exp) (ten_ticks ++ [OpIndexTick 2500050 (103 * Second); OpEvaluate (110 * Second) None]) sample_tracker = None.
Proof. vm_compute. reflexivity. Qed.
