(* ===== verification/ExitWatch.v ===== *)
(** The exit watch's engine (internal/exitwatch/engine.go): every tracked
    position and the level books, driven by positions, ticks, candles, levels
    and a timer from one goroutine.  What it sends to its sink is a list.

    [None] is a panic of a tracker.  A tracker and the engine share a level
    book: a slot names its book, and assessing it rebuilds the book in the
    engine's map.  The models scaled per underlying, which the code caches,
    are a function of the tuning and the environment.  [wall] is the wall
    clock when a handler runs.  Signals carry their time as an instant, not
    as text. *)
From S2P Require Import Prelude Float64 GoText Model MarketHours Underlying Indicators RangeContext ExitLevels ExitScore ExitTracker ExitRunner.
#[local] Open Scope Z_scope.
#[local] Open Scope go_scope.

(** [View]: what an assessment publishes. *)
Record View := {
  vw_Strategy : string; vw_Side : string; vw_FNOToken : string; vw_IndexEntry : Z; vw_TargetLevel : Z; vw_StopLevel : Z;
  vw_FNOEntryPrice : Z; vw_P : float64; vw_Decision : Decision; vw_ExitReason : string; vw_ExitText : string;
  vw_Latched : bool; vw_Reasons : list string; vw_SuggestedStop : Z; vw_IndexLTP : Z; vw_PremiumLTP : Z; vw_Progress : float64;
  vw_PeakProgress : float64; vw_Phase : Phase; vw_NextLevel : option Level; vw_LockLevel : Z; vw_PreLevel : option Level;
  vw_Levels : list Level; vw_Features : gmap string float64; vw_TS : Time }.

Definition newView (a : Assessment) : View :=
  let p := as_Position a in let s := as_Snapshot a in {|
  vw_Strategy := pc_Strategy p; vw_Side := pc_Side p; vw_FNOToken := pc_FNOToken p; vw_IndexEntry := pc_IndexEntry p;
  vw_TargetLevel := pc_TargetLevel p; vw_StopLevel := pc_StopLevel p; vw_FNOEntryPrice := pc_FNOEntryPrice p; vw_P := as_P a;
  vw_Decision := as_Decision a; vw_ExitReason := as_ExitReason a; vw_ExitText := as_ExitText a; vw_Latched := as_Latched a;
  vw_Reasons := as_Reasons a; vw_SuggestedStop := as_SuggestedStop a; vw_IndexLTP := as_IndexLTP a;
  vw_PremiumLTP := as_PremiumLTP a; vw_Progress := sn_Progress s; vw_PeakProgress := sn_PeakProgress s; vw_Phase := as_Phase a;
  vw_NextLevel := as_NextLevel a; vw_LockLevel := as_LockLevel a; vw_PreLevel := as_PreLevel a; vw_Levels := as_Levels a;
  vw_Features := foldl (λ m f, if sn_Present s f then <[featureName f := sn_Raw s f]> m else m) ∅ all_features;
  vw_TS := as_TS a |}.

Record Payload := { pay_Shadow : bool; pay_Positions : list View; pay_TS : Time }.

(** [Qty] is never set. *)
Record SignalEvent := {
  se_StrategyName : string; se_Action : string; se_Side : string; se_Token : string; se_Exchange : string; se_Price : Z;
  se_EntryFNOPrice : Z; se_CurrentFNOPrice : Z; se_Reason : string; se_FNOToken : string; se_OrderMode : string; se_at : Time }.

(** What the engine tells its sink. *)
Inductive output :=
  | Publish (p : Payload)
  | RecordDecision (v : View)
  | RecordFeatures (v : View)
  | SignalOut (ev : SignalEvent)
  | ExitRequestOut (r : ExitRequest).

Definition publishEvery : Duration := 500 * Millisecond.
Definition tightenRepeat : Duration := 60 * Second.
Definition exitATRPeriod : Z := 14.

Record slot := {
  sl_tr : Tracker; sl_book : string; sl_last : Assessment; sl_lastDec : Decision; sl_lastFeat : Z; sl_lastTighten : Time;
  sl_ghostSince : Time; sl_closeMove : Z }.

#[export] Instance slot_settable : Settable slot := λ s, {|
  sl_tr := sl_tr s; sl_book := sl_book s; sl_last := sl_last s; sl_lastDec := sl_lastDec s; sl_lastFeat := sl_lastFeat s;
  sl_lastTighten := sl_lastTighten s; sl_ghostSince := sl_ghostSince s; sl_closeMove := sl_closeMove s |}.

Record Engine := {
  en_model : WatchModel; en_shadow : bool; en_auto : gset string; en_slots : gmap string slot; en_atr : gmap string Z;
  en_books : gmap string LevelBook; en_exch : gmap string string; en_lastPub : Time; en_dirty : bool; en_evTS : Time;
  en_evWall : Time; en_nowTS : Time }.

#[export] Instance Engine_settable : Settable Engine := λ e, {|
  en_model := en_model e; en_shadow := en_shadow e; en_auto := en_auto e; en_slots := en_slots e; en_atr := en_atr e;
  en_books := en_books e; en_exch := en_exch e; en_lastPub := en_lastPub e; en_dirty := en_dirty e; en_evTS := en_evTS e;
  en_evWall := en_evWall e; en_nowTS := en_nowTS e |}.

Definition NewEngine (m : WatchModel) (shadow : bool) : Engine := {|
  en_model := m; en_shadow := shadow; en_auto := ∅; en_slots := ∅; en_atr := ∅; en_books := ∅; en_exch := ∅;
  en_lastPub := zero_time; en_dirty := false; en_evTS := zero_time; en_evWall := zero_time; en_nowTS := zero_time |}.

Definition zero_Position : PositionContext := {|
  pc_Strategy := ""; pc_Side := ""; pc_IndexToken := ""; pc_IndexEntry := 0; pc_TargetLevel := 0; pc_StopLevel := 0;
  pc_FNOToken := ""; pc_FNOEntryPrice := 0; pc_EntryTS := zero_time |}.
Definition zero_Assessment : Assessment := {|
  as_Position := zero_Position; as_P := f64_zero; as_Decision := ""; as_ExitReason := ""; as_Latched := false; as_Reasons := [];
  as_SuggestedStop := 0; as_IndexLTP := 0; as_PremiumLTP := 0; as_TS := zero_time; as_Snapshot := zero_Snapshot; as_Phase := "";
  as_ExitText := ""; as_NextLevel := None; as_LockLevel := 0; as_PreLevel := None; as_Levels := [] |}.

Definition new_slot (tr : Tracker) (book : string) : slot := {|
  sl_tr := tr; sl_book := book; sl_last := zero_Assessment; sl_lastDec := ""; sl_lastFeat := 0; sl_lastTighten := zero_time;
  sl_ghostSince := zero_time; sl_closeMove := 0 |}.

Definition is_ghost (s : slot) : bool := negb (t_is_zero (sl_ghostSince s)).
Definition slot_position (s : slot) : PositionContext := tr_pos (sl_tr s).
Definition upd_tracker (f : Tracker → Tracker) (s : slot) : slot := s <| sl_tr := f (sl_tr s) |>.

(** The strategies whose EXIT closes the position. *)
Definition SetAutoExit (strategies : list string) (e : Engine) : Engine :=
  e <| en_auto := list_to_set (filter (λ s, s ≠ "" ∧ s ≠ RealOrderStrategy) strategies) |>.
Definition autoExit (strategy : string) (e : Engine) : bool := bool_decide (strategy ∈ en_auto e).

Definition SetExchange (indexToken exchange : string) (e : Engine) : Engine :=
  e <| en_exch := <[indexToken := exchange]> (en_exch e) |>.

(** ** Texts and signals *)

Definition extraText (s : slot) : string :=
  let d := tr_lastMove (sl_tr s) -! sl_closeMove s in
  "extra=" +:+ (if d <? 0 then "-" +:+ pts (-! d) else "+" +:+ pts d) +:+ " pts vs strategy exit".

Definition exitText (s : slot) (a : Assessment) : string :=
  (if String.eqb (as_ExitText a) "" then
     "p=" +:+ format_fixed 2 (as_P a) +:+ (if as_Reasons a then "" else " [" +:+ str_join " " (as_Reasons a) +:+ "]")
   else as_ExitText a) +:+
  (if is_ghost s then "; " +:+ extraText s else "").

(** [Engine.signal]: a WATCH_EXIT is priced at the option's premium. *)
Definition signal (s : slot) (ev : Event) (now : Time) (e : Engine) : output :=
  let t := sl_tr s in let p := tr_pos t in
  let exch := default "" (en_exch e !! pc_IndexToken p) in
  let mode := if negb (en_shadow e) || autoExit (pc_Strategy p) e then "AUTO" else "SHADOW" in
  let phase := if String.eqb (tracker_Phase t) PhaseNormal then "" else " " +:+ tracker_Phase t in
  let priced := String.eqb (ev_Action ev) ActionWatchExit && (0 <? tr_prem t) in
  let text := ev_Text ev +:+
    (if priced then " entry=" +:+ pts (pc_FNOEntryPrice p) +:+ " idx=" +:+ pts (tr_idxLTP t) else "") in
  SignalOut {|
    se_StrategyName := pc_Strategy p; se_Action := ev_Action ev; se_Side := pc_Side p; se_Token := pc_IndexToken p;
    se_Exchange := if String.eqb exch "" then "NSE" else exch; se_Price := if priced then tr_prem t else tr_idxLTP t;
    se_EntryFNOPrice := pc_FNOEntryPrice p; se_CurrentFNOPrice := tr_prem t;
    se_Reason := "EXITWATCH " +:+ mode +:+ phase +:+ " " +:+ ev_Reason ev +:+ ": " +:+ text; se_FNOToken := pc_FNOToken p;
    se_OrderMode := mode; se_at := now |}.

Section engine.
Context (getenv : string → string).
Context `{ME : MathExp} `{SS : SliceSort} `{MO : MapOrder}.

(** ** Tuning *)

(** The NIFTY-sized paise floors converted to an underlying. *)
Definition scaleModel (m : WatchModel) (p : Profile) : WatchModel :=
  let pr := wm_Params m in {|
  wm_Params :=
    pr <| pr_RejectMinPaise := Scale p (pr_RejectMinPaise pr) |> <| pr_LevelTolMinPaise := Scale p (pr_LevelTolMinPaise pr) |>
       <| pr_EarlyFailMinPaise := Scale p (pr_EarlyFailMinPaise pr) |>
       <| pr_EarlyFailMaxPeakPaise := Scale p (pr_EarlyFailMaxPeakPaise pr) |>
       <| pr_LevelMergeTolPaise := Scale p (pr_LevelMergeTolPaise pr) |>
       <| pr_PreRejectMinMovePaise := Scale p (pr_PreRejectMinMovePaise pr) |>;
  wm_W := wm_W m; wm_confirmN := wm_confirmN m; wm_breakN := wm_breakN m |}.

Definition modelFor (indexToken : string) (m : WatchModel) : WatchModel :=
  match ByIndexToken getenv indexToken with
  | Some p => if String.eqb (p_Key p) (p_Key (Primary getenv)) then m else scaleModel m p
  | None => m
  end.

Definition book_tuning (indexToken : string) (m : WatchModel) : BookTuning := tuning_of (wm_Params (modelFor indexToken m)).

(** [Engine.SetModel]. *)
Definition engine_SetModel (m : WatchModel) (e : Engine) : Engine :=
  e <| en_model := m |>
    <| en_slots := (λ s, upd_tracker (SetModel (modelFor (pc_IndexToken (slot_position s)) m)) s) <$> en_slots e |>
    <| en_books := map_imap (λ tok b, Some (configure (book_tuning tok m) b)) (en_books e) |>.

(** ** Books *)

(** [Book]: the level book of an index, created when it is first asked for. *)
Definition Book (tok : string) (e : Engine) : LevelBook * Engine :=
  match en_books e !! tok with
  | Some b => (b, e)
  | None => let b := NewLevelBook (book_tuning tok (en_model e)) in (b, e <| en_books := <[tok := b]> (en_books e) |>)
  end.

Definition upd_book (tok : string) (f : LevelBook → LevelBook) (e : Engine) : Engine :=
  let '(b, e) := Book tok e in e <| en_books := <[tok := f b]> (en_books e) |>.

Definition upd_slots (f : slot → slot) (e : Engine) : Engine := e <| en_slots := f <$> en_slots e |>.

Definition on_index (tok : string) (f : Tracker → Tracker) (s : slot) : slot :=
  if String.eqb (pc_IndexToken (slot_position s)) tok then upd_tracker f s else s.

Definition engine_SetATR (tok : string) (atr : Z) (e : Engine) : Engine :=
  upd_slots (on_index tok (SetATR atr)) (e <| en_atr := <[tok := atr]> (en_atr e) |>).

(** [Engine.OnCandle]. *)
Definition engine_candle (c : TFCandle) (e : Engine) : Engine :=
  let tok := tfc_Token c in
  if negb (tfc_TF c =? 0) && negb (tfc_TF c =? 60) then upd_book tok (OnHTFCandle c) e
  else
    let e := upd_book tok (book_candle c) e in
    let e := if tfc_Forming c then e else upd_slots (on_index tok (OnMinuteClose (tfc_Close c) (tfc_TS c))) e in
    let bars := match en_books e !! tok with Some b => lb_bars b | None => [] end in
    let bars := drop (length bars - Z.to_nat (exitATRPeriod + 1)) bars in
    match computeATR bars with Some atr => engine_SetATR tok atr e | None => e end.

Definition SetAnalystLevels (tok : string) (ls : list Level) : Engine → Engine := upd_book tok (SetAnalyst ls).
Definition SetOurSRLevels (tok : string) (ls : list Level) : Engine → Engine := upd_book tok (SetOurSR ls).
Definition SetTrendADX (tok : string) (adx : float64) : Engine → Engine := upd_book tok (SetTrend adx).

(** ** Publishing *)

Definition flush (now : Time) (force : bool) (e : Engine) : list output * Engine :=
  if negb force && negb (en_dirty e) &&
     (bool_decide (en_slots e = ∅) || (t_sub now (en_lastPub e) <? publishEvery)) then ([], e)
  else
    let views := omap (λ '(_, s), if as_IndexLTP (sl_last s) =? 0 then None else Some (newView (sl_last s))) (range (en_slots e)) in
    ([Publish {| pay_Shadow := en_shadow e; pay_Positions := views; pay_TS := now |}],
     e <| en_lastPub := now |> <| en_dirty := false |>).

(** ** Positions *)

(** One position of the open set: its tracker is kept, or made. *)
Definition add_position (p : PositionContext) (e : Engine) : Engine :=
  let k := PositionContext_Key p in
  let fresh :=
    match NewTracker p (modelFor (pc_IndexToken p) (en_model e)) with
    | None => e
    | Some tr =>
        let tok := pc_IndexToken p in
        let tr := SetATR (default 0 (en_atr e !! tok)) tr in
        let e := (Book tok e).2 in
        e <| en_slots := <[k := new_slot tr tok]> (en_slots e) |>
    end in
  match en_slots e !! k with
  | Some s =>
      if is_ghost s then fresh
      else
        let a := sl_last s in
        let s := upd_tracker (λ t, t <| tr_pos := p |>) s in
        let s := s <| sl_last := {|
          as_Position := p; as_P := as_P a; as_Decision := as_Decision a; as_ExitReason := as_ExitReason a;
          as_Latched := as_Latched a; as_Reasons := as_Reasons a; as_SuggestedStop := as_SuggestedStop a;
          as_IndexLTP := as_IndexLTP a; as_PremiumLTP := as_PremiumLTP a; as_TS := as_TS a; as_Snapshot := as_Snapshot a;
          as_Phase := as_Phase a; as_ExitText := as_ExitText a; as_NextLevel := as_NextLevel a; as_LockLevel := as_LockLevel a;
          as_PreLevel := as_PreLevel a; as_Levels := as_Levels a |} |> in
        e <| en_slots := <[k := s]> (en_slots e) |>
  | None => fresh
  end.

(** A tracked position no longer in the set: a ghost when it was being held
    past its target, otherwise dropped. *)
Definition drop_position (seen : list string) (now : Time) (ks : string * slot) (acc : list output * Engine) : list output * Engine :=
  let '(k, s) := ks in let '(outs, e) := acc in
  if bool_decide (k ∈ seen) || is_ghost s then (outs, e)
  else if InRunner (sl_tr s) && negb (as_Latched (sl_last s)) then
    let s := upd_tracker (λ t, t <| tr_ghost := true |>) s in
    let s := s <| sl_ghostSince := now |> <| sl_closeMove := tr_lastMove (sl_tr s) |> in
    let ev := {| ev_Action := ActionWatchHold; ev_Reason := "GHOST";
      ev_Text := "strategy closed at " +:+ pts (tr_idxLTP (sl_tr s)) +:+ "; following runner to measure the hold" |} in
    (outs ++ [signal s ev now e], e <| en_slots := <[k := s]> (en_slots e) |>)
  else (outs, e <| en_slots := delete k (en_slots e) |> <| en_dirty := true |>).

Definition SetPositions (ps : list PositionContext) (now : Time) (e : Engine) : list output * Engine :=
  let e := foldl (λ e p, add_position p e) e ps in
  let '(outs, e) := foldl (λ acc ks, drop_position (PositionContext_Key <$> ps) now ks acc) ([], e) (range (en_slots e)) in
  let '(published, e) := flush now true e in
  (outs ++ published, e).

(** ** Evaluation *)

Definition view_of_book (b : LevelBook) : book_view := {|
  bv_levels := lb_merged b; bv_version := lb_version b; bv_adx := lb_adx b |}.

(** A slot's tracker against its book, which the first read rebuilds.  A
    tracker that has seen no tick reads no book. *)
Definition assess_slot (now wall : Time) (s : slot) (e : Engine) : option (Assessment * slot * Engine) :=
  let e := if tr_haveIdx (sl_tr s) then e <| en_books := alter (rebuild wall) (sl_book s) (en_books e) |> else e in
  '(a, t) ← tracker_Evaluate now (view_of_book <$> en_books e !! sl_book s) (sl_tr s);
  Some (a, s <| sl_tr := t |> <| sl_last := a |>, e).

Definition exit_request (s : slot) (a : Assessment) (now : Time) : ExitRequest :=
  let p := slot_position s in {|
  er_Strategy := pc_Strategy p; er_Side := pc_Side p; er_IndexToken := pc_IndexToken p; er_FNOToken := pc_FNOToken p;
  er_Reason := "EXITWATCH " +:+ as_ExitReason a +:+ ": " +:+ exitText s a; er_TS := now |}.

(** A decision that changed: its record, and its signal. *)
Definition on_decision (now : Time) (a : Assessment) (s : slot) (e : Engine) : list output * slot :=
  if String.eqb (as_Decision a) (sl_lastDec s) then ([], s)
  else
    let '(outs, s) :=
      if String.eqb (as_Decision a) DecisionExit then
        let ev := {| ev_Action := ActionWatchExit; ev_Reason := as_ExitReason a; ev_Text := exitText s a |} in
        (signal s ev now e ::
         (if negb (is_ghost s) && autoExit (pc_Strategy (slot_position s)) e then [ExitRequestOut (exit_request s a now)] else []), s)
      else if String.eqb (as_Decision a) DecisionTighten &&
              (t_is_zero (sl_lastTighten s) || (tightenRepeat <=? t_sub now (sl_lastTighten s))) then
        let s := s <| sl_lastTighten := now |> in
        let txt := "reversal risk rising" +:+
          (if as_SuggestedStop a =? 0 then "" else ", suggested stop " +:+ pts (as_SuggestedStop a)) in
        ([signal s {| ev_Action := ActionWatchTighten; ev_Reason := "TIGHTEN"; ev_Text := txt |} now e], s)
      else ([], s) in
    (RecordDecision (newView a) :: outs, s <| sl_lastDec := as_Decision a |>).

Definition on_second (now : Time) (a : Assessment) (s : slot) : list output * slot :=
  if sl_lastFeat s <? t_unix now then ([RecordFeatures (newView a)], s <| sl_lastFeat := t_unix now |>) else ([], s).

Definition ghostExpired (s : slot) (now : Time) (e : Engine) : bool :=
  let p := wm_Params (en_model e) in
  ((0 <? pr_GhostMaxMin p) && (pr_GhostMaxMin p *! Minute <=? t_sub now (sl_ghostSince s))) ||
  ((0 <? pr_GhostEndMin p) && (pr_GhostEndMin p <=? minutesIST now)).

(** Whether a ghost is done, and its last signal. *)
Definition ghost_over (now : Time) (a : Assessment) (s : slot) (e : Engine) : list output * bool :=
  if negb (is_ghost s) then ([], false)
  else if as_Latched a then ([], true)
  else if ghostExpired s now e then
    ([signal s {| ev_Action := ActionWatchExit; ev_Reason := "GHOST_END"; ev_Text := "ghost window over; " +:+ extraText s |} now e],
     true)
  else ([], false).

(** One slot of an evaluation; the flag says something changed. *)
Definition eval_slot (now wall : Time) (ks : string * slot) (e : Engine) : option (list output * bool * Engine) :=
  let '(k, s) := ks in
  '(a, s, e) ← assess_slot now wall s e;
  let '(evs, t) := DrainEvents (sl_tr s) in
  let s := s <| sl_tr := t |> in
  let signals := (λ ev, signal s ev now e) <$> evs in
  let keep s e := e <| en_slots := <[k := s]> (en_slots e) |> in
  if as_IndexLTP a =? 0 then Some (signals, false, keep s e)
  else
    let decided := negb (String.eqb (as_Decision a) (sl_lastDec s)) in
    let '(o1, s) := on_decision now a s e in
    let '(o2, s) := on_second now a s in
    let '(o3, over) := ghost_over now a s e in
    Some (signals ++ o1 ++ o2 ++ o3, decided || over,
          if over then e <| en_slots := delete k (en_slots e) |> else keep s e).

Definition eval_slots (now wall : Time) (slots : list (string * slot)) (e : Engine) : option (list output * bool * Engine) :=
  foldl (λ acc ks,
    '(outs, changed, e) ← acc;
    '(outs', changed', e) ← eval_slot now wall ks e;
    Some (outs ++ outs', changed || changed', e)) (Some ([], false, e)) slots.

(** [Engine.Evaluate]. *)
Definition engine_Evaluate (now wall : Time) (e : Engine) : option (list output * Engine) :=
  let now := if t_before now (en_nowTS e) then en_nowTS e else now in
  let e := e <| en_nowTS := now |> in
  '(outs, changed, e) ← eval_slots now wall (range (en_slots e)) e;
  let '(published, e) := flush now changed e in
  Some (outs ++ published, e).

(** ** Ticks and the timer *)

(** A slot's own part of a tick. *)
Definition slot_tick (t : Tick) (s : slot) : slot :=
  let ts := CanonicalTS t in
  if String.eqb (tick_Token t) (pc_IndexToken (slot_position s)) then upd_tracker (OnIndexTick (tick_Price t) ts) s
  else if String.eqb (tick_Token t) (pc_FNOToken (slot_position s)) then
    upd_tracker (OnOptionTick (tick_Price t) (tick_BestBid t) (tick_BestAsk t) (tick_OI t)) s
  else s.

Definition slot_wants (token : string) (s : slot) : bool :=
  String.eqb token (pc_IndexToken (slot_position s)) || String.eqb token (pc_FNOToken (slot_position s)).

Definition Wants (token : string) (e : Engine) : bool := existsb (λ ks, slot_wants token ks.2) (map_to_list (en_slots e)).

(** [Engine.OnTick]. *)
Definition engine_tick (t : Tick) (wall : Time) (e : Engine) : option (list output * Engine) :=
  let ts := CanonicalTS t in
  let e := e <| en_evTS := ts |> <| en_evWall := wall |> <| en_books := alter (book_tick (tick_Price t) ts) (tick_Token t) (en_books e) |> in
  let hit := Wants (tick_Token t) e in
  let e := upd_slots (slot_tick t) e in
  if hit then engine_Evaluate ts wall e else Some ([], e).

Definition ClockAt (wall : Time) (e : Engine) : Time :=
  if t_is_zero (en_evTS e) then wall else t_add (en_evTS e) (t_sub wall (en_evWall e)).

(** [Engine.Tick]. *)
Definition engine_timer (wall : Time) (e : Engine) : option (list output * Engine) := engine_Evaluate (ClockAt wall e) wall e.

Definition Tokens (e : Engine) : gset string :=
  list_to_set (concat ((λ ks, let p := slot_position ks.2 in
    pc_IndexToken p :: (if String.eqb (pc_FNOToken p) "" then [] else [pc_FNOToken p])) <$> map_to_list (en_slots e))).
End engine.
