(* ===== verification/ExitWatchOk.v ===== *)
(** What the exit watch asks for: over any run of the engine it asks for the
    exit of a position at most once, only for strategies set to close by
    themselves, and never for the real one. *)
From S2P Require Import Prelude Float64 GoText Model MarketHours Underlying Indicators RangeContext ExitLevels ExitScore ExitTracker ExitRunner ExitRuns ExitWatch.
#[local] Open Scope Z_scope.
#[local] Open Scope go_scope.

Inductive engine_op :=
  | EPositions (ps : list PositionContext) (now : Time)
  | ETick (t : Tick) (wall : Time)
  | ETimer (wall : Time)
  | ECandle (c : TFCandle)
  | EModel (m : WatchModel)
  | EAuto (strategies : list string)
  | EAnalyst (tok : string) (ls : list Level)
  | EOurSR (tok : string) (ls : list Level) (adx : float64)
  | EExchange (tok exchange : string).

Section engine_runs.
Context (getenv : string → string).
Context `{ME : MathExp} `{SS : SliceSort} `{MO : MapOrder}.

Definition quiet (e : Engine) : option (list output * Engine) := Some ([], e).

(** One message to the engine's goroutine. *)
Definition engine_step (o : engine_op) (e : Engine) : option (list output * Engine) :=
  match o with
  | EPositions ps now => Some (SetPositions getenv ps now e)
  | ETick t wall => engine_tick t wall e
  | ETimer wall => engine_timer wall e
  | ECandle c => quiet (engine_candle getenv c e)
  | EModel m => quiet (engine_SetModel getenv m e)
  | EAuto l => quiet (SetAutoExit l e)
  | EAnalyst tok ls => quiet (SetAnalystLevels getenv tok ls e)
  | EOurSR tok ls adx => quiet (SetTrendADX getenv tok adx (SetOurSRLevels getenv tok ls e))
  | EExchange tok ex => quiet (SetExchange tok ex e)
  end.

Fixpoint engine_run (os : list engine_op) (e : Engine) : option (list output * Engine) :=
  match os with
  | [] => Some ([], e)
  | o :: os => '(outs, e) ← engine_step o e; '(outs', e) ← engine_run os e; Some (outs ++ outs', e)
  end.

(** ** Requests *)

Definition request_of (o : output) : option ExitRequest := match o with ExitRequestOut r => Some r | _ => None end.
Definition requests (outs : list output) : list ExitRequest := omap request_of outs.
Definition request_key (r : ExitRequest) : string := er_Strategy r +:+ "|" +:+ er_Side r +:+ "|" +:+ er_FNOToken r.
Definition asked (k : string) (outs : list output) : nat := length (filter (λ r, request_key r = k) (requests outs)).

Lemma requests_app o1 o2 : requests (o1 ++ o2) = requests o1 ++ requests o2.
Proof. apply omap_app. Qed.
Lemma asked_app k o1 o2 : asked k (o1 ++ o2) = (asked k o1 + asked k o2)%nat.
Proof. unfold asked. by rewrite requests_app, filter_app, length_app. Qed.
Lemma requests_signals s now e evs : requests ((λ ev, signal s ev now e) <$> evs) = [].
Proof. by induction evs. Qed.

(** A slot is filed under its position, and only a latched tracker's last
    decision is EXIT. *)
Definition slot_ok (k : string) (s : slot) : Prop :=
  PositionContext_Key (slot_position s) = k ∧
  (sl_lastDec s = DecisionExit → dc_latched (tr_dec (sl_tr s)) = true ∧ tr_haveIdx (sl_tr s) = true).

Definition engine_ok (e : Engine) : Prop := ∀ k s, en_slots e !! k = Some s → slot_ok k s.

Definition allowed (e : Engine) (r : ExitRequest) : Prop := er_Strategy r ∈ en_auto e.

(** The position is not a ghost (or not tracked yet). *)
Definition live (k : string) (e : Engine) : Prop := ∀ s, en_slots e !! k = Some s → is_ghost s = false.

(** How often the engine may still ask for a position's exit. *)
Definition budget (k : string) (e : Engine) : nat :=
  match en_slots e !! k with
  | Some s => if String.eqb (sl_lastDec s) DecisionExit then 0%nat else 1%nat
  | None => 1%nat
  end.

(** What a step keeps, for one position. *)
Definition step_ok (k : string) (e : Engine) (outs : list output) (e' : Engine) : Prop :=
  engine_ok e →
  engine_ok e' ∧ Forall (allowed e) (requests outs) ∧
  (live k e → live k e' ∧ (asked k outs + budget k e' <= budget k e)%nat).

Lemma step_ok_trans k e1 o1 e2 o2 e3 :
  en_auto e2 = en_auto e1 → step_ok k e1 o1 e2 → step_ok k e2 o2 e3 → step_ok k e1 (o1 ++ o2) e3.
Proof.
  intros Hauto H1 H2 Hok. destruct (H1 Hok) as (Hok2 & Ha & Hb). destruct (H2 Hok2) as (Hok3 & Ha' & Hb').
  split; [done|]. split.
  - rewrite requests_app. apply Forall_app. split; [done|]. unfold allowed in *. by rewrite <-Hauto.
  - intros Hlive. destruct (Hb Hlive) as [Hlive2 ?]. destruct (Hb' Hlive2). split; [done|]. rewrite asked_app. lia.
Qed.

(** Changing the slots one by one, decisions kept. *)
Definition same_decisions (s s' : slot) : Prop :=
  sl_lastDec s' = sl_lastDec s ∧ sl_ghostSince s' = sl_ghostSince s ∧
  PositionContext_Key (slot_position s') = PositionContext_Key (slot_position s) ∧
  tr_dec (sl_tr s') = tr_dec (sl_tr s) ∧ (tr_haveIdx (sl_tr s) = true → tr_haveIdx (sl_tr s') = true).

Lemma step_ok_fmap k (f : slot → slot) e e' :
  (∀ s, same_decisions s (f s)) → en_slots e' = f <$> en_slots e → step_ok k e [] e'.
Proof.
  intros Hf He Hok. split; [|split; [constructor|intros Hlive; split]].
  - intros k' s'. rewrite He, lookup_fmap, fmap_Some. intros (s & Hs & ->). destruct (Hok _ _ Hs) as [Hk Hl].
    destruct (Hf s) as (Hd & _ & Hk' & Ht & Hh). split; [congruence|]. rewrite Hd, Ht. naive_solver.
  - intros s'. rewrite He, lookup_fmap, fmap_Some. intros (s & Hs & ->). destruct (Hf s) as (_ & Hg & _). unfold is_ghost. rewrite Hg.
    by apply Hlive.
  - unfold budget. rewrite He, lookup_fmap. destruct (en_slots e !! k) as [s|]; cbn; [|lia]. destruct (Hf s) as (-> & _). lia.
Qed.

Lemma same_decisions_refl s : same_decisions s s.
Proof. by repeat split. Qed.

Lemma step_ok_same k e e' : en_slots e' = en_slots e → step_ok k e [] e'.
Proof. intros He. apply (step_ok_fmap k id); [apply same_decisions_refl|]. by rewrite map_fmap_id. Qed.

(** ** Quiet steps *)

Lemma same_decisions_tracker f s :
  tr_pos (f (sl_tr s)) = tr_pos (sl_tr s) → tr_dec (f (sl_tr s)) = tr_dec (sl_tr s) →
  (tr_haveIdx (sl_tr s) = true → tr_haveIdx (f (sl_tr s)) = true) → same_decisions s (upd_tracker f s).
Proof. intros Hp Hd Hh. unfold same_decisions, slot_position. cbn. by rewrite Hp. Qed.

Lemma OnMinuteClose_keeps c ts t :
  tr_pos (OnMinuteClose c ts t) = tr_pos t ∧ tr_dec (OnMinuteClose c ts t) = tr_dec t ∧
  tr_haveIdx (OnMinuteClose c ts t) = tr_haveIdx t.
Proof. unfold OnMinuteClose. by destruct (t_after _ _). Qed.

Lemma on_index_decisions tok f s :
  same_decisions s (upd_tracker f s) → same_decisions s (on_index tok f s).
Proof. unfold on_index. destruct (String.eqb _ _); [done|]. intros _. apply same_decisions_refl. Qed.

Lemma slot_tick_decisions t s : same_decisions s (slot_tick t s).
Proof.
  unfold slot_tick. destruct (String.eqb _ _); [|destruct (String.eqb _ _); [|apply same_decisions_refl]].
  - destruct (OnIndexTick_fields (tick_Price t) (CanonicalTS t) (sl_tr s)) as (_ & _ & Hh & _ & _ & Hp & _ & _ & _ & Hd & _).
    by apply same_decisions_tracker.
  - set (f := OnOptionTick _ _ _ _). assert (tr_pos (f (sl_tr s)) = tr_pos (sl_tr s) ∧ tr_dec (f (sl_tr s)) = tr_dec (sl_tr s) ∧
      tr_haveIdx (f (sl_tr s)) = tr_haveIdx (sl_tr s)) as (Hp & Hd & Hh).
    { unfold f, OnOptionTick. destruct (0 <? _), (_ && _), (0 <? _); done. }
    apply same_decisions_tracker; [done|done|by rewrite Hh].
Qed.

Lemma upd_book_slots tok f e : en_slots (upd_book getenv tok f e) = en_slots e ∧ en_auto (upd_book getenv tok f e) = en_auto e.
Proof. unfold upd_book, Book. by destruct (en_books e !! tok). Qed.

Lemma candle_slots c e :
  (∃ f, (∀ s, same_decisions s (f s)) ∧ en_slots (engine_candle getenv c e) = f <$> en_slots e) ∧
  en_auto (engine_candle getenv c e) = en_auto e.
Proof.
  unfold engine_candle. destruct (_ && _).
  - destruct (upd_book_slots (tfc_Token c) (OnHTFCandle c) e) as [-> ->]. split; [|done]. exists id.
    split; [apply same_decisions_refl|by rewrite map_fmap_id].
  - set (e1 := upd_book getenv _ _ e). destruct (upd_book_slots (tfc_Token c) (book_candle c) e) as [Hs Ha]. fold e1 in Hs, Ha.
    set (e2 := if tfc_Forming c then e1 else _).
    assert ((∃ f, (∀ s, same_decisions s (f s)) ∧ en_slots e2 = f <$> en_slots e) ∧ en_auto e2 = en_auto e) as [(f & Hf & Hf2) Ha2].
    { unfold e2. destruct (tfc_Forming c).
      - rewrite Hs, Ha. split; [|done]. exists id. split; [apply same_decisions_refl|by rewrite map_fmap_id].
      - cbn. rewrite Hs, Ha. split; [|done]. eexists. split; [|reflexivity]. intros s. apply on_index_decisions.
        destruct (OnMinuteClose_keeps (tfc_Close c) (tfc_TS c) (sl_tr s)) as (? & ? & ?). apply same_decisions_tracker; congruence. }
    destruct (computeATR _) as [atr|]; [|by eauto]. cbn. rewrite Hf2, Ha2. split; [|done].
    exists (λ s, on_index (tfc_Token c) (SetATR atr) (f s)). split; [|by rewrite <-map_fmap_compose].
    intros s. specialize (Hf s). assert (same_decisions (f s) (on_index (tfc_Token c) (SetATR atr) (f s))) as Hn
      by (by apply on_index_decisions, same_decisions_tracker).
    unfold same_decisions in *. naive_solver congruence.
Qed.

Lemma flush_spec now force e :
  let '(outs, e') := flush now force e in en_slots e' = en_slots e ∧ en_auto e' = en_auto e ∧ requests outs = [].
Proof. unfold flush. by destruct (_ && _). Qed.

(** ** An evaluation *)

(** What one slot's outputs ask for. *)
Definition asks (e : Engine) (k : string) (s s' : slot) (outs : list output) : Prop :=
  (requests outs = [] ∧ (sl_lastDec s = DecisionExit → sl_lastDec s' = DecisionExit)) ∨
  (∃ r, requests outs = [r] ∧ request_key r = k ∧ sl_lastDec s ≠ DecisionExit ∧ sl_lastDec s' = DecisionExit ∧ allowed e r).

Lemma step_ok_slot k0 k s s' e e' outs :
  en_slots e !! k = Some s → en_slots e' = <[k := s']> (en_slots e) → slot_ok k s' → sl_ghostSince s' = sl_ghostSince s →
  asks e k s s' outs → step_ok k0 e outs e'.
Proof.
  intros Hs He Hs' Hg Hasks Hok. split; [|split; [|intros Hlive; split]].
  - intros k1 s1. rewrite He, lookup_insert_Some. intros [[<- <-]|[_ H]]; [done|by apply Hok].
  - destruct Hasks as [[-> _]|(r & -> & _ & _ & _ & Hr)]; [constructor|by constructor].
  - intros s1. rewrite He, lookup_insert_Some. intros [[<- <-]|[_ H]]; [|by apply Hlive].
    unfold is_ghost. rewrite Hg. by apply Hlive.
  - unfold budget, asked. rewrite He. destruct (decide (k = k0)) as [<-|Hne].
    + rewrite lookup_insert_eq, Hs. destruct Hasks as [[-> Hd]|(r & -> & Hr & Hd & Hd' & _)].
      * cbn. destruct (String.eqb_spec (sl_lastDec s) DecisionExit) as [Hx|]; [|destruct (String.eqb _ _); lia].
        rewrite (Hd Hx). done.
      * rewrite Hd'. apply String.eqb_neq in Hd. rewrite Hd. cbn. rewrite decide_True by done. cbn. lia.
    + rewrite lookup_insert_ne by done.
      assert (filter (λ r, request_key r = k0) (requests outs) = []) as ->; [|cbn; lia].
      destruct Hasks as [[-> _]|(r & -> & Hr & _)]; [done|]. cbn. by rewrite decide_False by congruence.
Qed.

Lemma step_ok_delete k0 k s e e' outs :
  en_slots e !! k = Some s → is_ghost s = true → en_slots e' = delete k (en_slots e) → requests outs = [] → step_ok k0 e outs e'.
Proof.
  intros Hs Hg He Hr Hok. split; [|split; [by rewrite Hr|intros Hlive]].
  - intros k1 s1. rewrite He, lookup_delete_Some. intros [_ H]. by apply Hok.
  - assert (k ≠ k0) as Hne by (intros ->; specialize (Hlive _ Hs); congruence). split.
    + intros s1. rewrite He, lookup_delete_ne by done. by apply Hlive.
    + unfold budget, asked. by rewrite He, Hr, lookup_delete_ne by done.
Qed.

Lemma assess_slot_spec now wall k s e a s' e' :
  slot_ok k s → assess_slot now wall s e = Some (a, s', e') →
  en_slots e' = en_slots e ∧ en_auto e' = en_auto e ∧ slot_position s' = slot_position s ∧ sl_lastDec s' = sl_lastDec s ∧
  sl_ghostSince s' = sl_ghostSince s ∧
  (as_Decision a = DecisionExit → dc_latched (tr_dec (sl_tr s')) = true ∧ tr_haveIdx (sl_tr s') = true) ∧
  (sl_lastDec s = DecisionExit → as_Decision a = DecisionExit).
Proof.
  intros [_ Hok]. unfold assess_slot. set (e1 := if tr_haveIdx _ then _ else e).
  assert (en_slots e1 = en_slots e ∧ en_auto e1 = en_auto e) as [Hs Ha] by (unfold e1; by destruct (tr_haveIdx _)).
  clearbody e1. destruct (tracker_Evaluate now _ _) as [[a1 t1]|] eqn:He; [|done]. cbn [mbind option_bind]. intros [= <- <- <-].
  split; [done|]. split; [done|]. cbn. apply evaluate_cases in He as [(Hno & -> & ->)|(Hh & v & Hj & ->)].
  - repeat split; try done. intros Hd. destruct (Hok Hd). congruence.
  - pose proof (market_judge _ _ _ _ _ Hj) as Hm. unfold market in Hm. injection Hm as Hpos _ _ _ Hh' _ _ _ _ _ _ _.
    apply judge_spec in Hj as (Hx & _ & Hl). unfold slot_position. cbn. split; [done|]. repeat split; try done.
    + by apply Hx.
    + congruence.
    + intros Hd. apply Hx, Hl. by apply Hok.
Qed.

Lemma on_decision_spec now a k s e o s' :
  PositionContext_Key (slot_position s) = k → on_decision now a s e = (o, s') →
  sl_lastDec s' = as_Decision a ∧ sl_tr s' = sl_tr s ∧ sl_ghostSince s' = sl_ghostSince s ∧
  (requests o = [] ∨ is_ghost s = false ∧ ∃ r, requests o = [r] ∧ request_key r = k ∧ sl_lastDec s ≠ DecisionExit ∧
     as_Decision a = DecisionExit ∧ allowed e r).
Proof.
  intros Hk. unfold on_decision. destruct (String.eqb_spec (as_Decision a) (sl_lastDec s)) as [Heq|Hne].
  - intros [= <- <-]. auto.
  - destruct (String.eqb_spec (as_Decision a) DecisionExit) as [Hx|_].
    + intros [= <- <-]. cbn. split; [done|]. split; [done|]. split; [done|]. destruct (_ && _) eqn:Hc; [|by left]. right.
      bool_prop. split; [done|]. eexists. split; [reflexivity|]. split; [done|]. split; [congruence|]. split; [done|].
      unfold allowed, autoExit in *. by apply bool_decide_eq_true in H0.
    + destruct (_ && _); intros [= <- <-]; cbn; auto.
Qed.

Lemma ghost_over_spec now a s e :
  requests (ghost_over now a s e).1 = [] ∧ (is_ghost s = false → (ghost_over now a s e).2 = false).
Proof. unfold ghost_over. destruct (is_ghost s); [|done]. destruct (as_Latched a); [done|]. by destruct (ghostExpired _ _ _). Qed.

Lemma eval_slot_ok now wall k s e outs ch e' :
  engine_ok e → en_slots e !! k = Some s → eval_slot now wall (k, s) e = Some (outs, ch, e') →
  en_auto e' = en_auto e ∧ (∀ k', k' ≠ k → en_slots e' !! k' = en_slots e !! k') ∧ ∀ k0, step_ok k0 e outs e'.
Proof.
  intros Hok Hs. unfold eval_slot. destruct (assess_slot now wall s e) as [[[a s1] e1]|] eqn:Ha; [|done]. cbn [mbind option_bind].
  pose proof (Hok _ _ Hs) as Hs_ok. apply (assess_slot_spec _ _ k) in Ha as (Hes & Hea & Hpos & Hld & Hg & Hexit & Hstay); [|done].
  cbn [DrainEvents]. set (s2 := s1 <| sl_tr := _ |>). set (sigs := _ <$> _).
  assert (requests sigs = []) as Hsigs by apply requests_signals. clearbody sigs.
  assert (PositionContext_Key (slot_position s2) = k) as Hk by (change (slot_position s2) with (slot_position s1); rewrite Hpos; apply Hs_ok).
  change (sl_lastDec s1) with (sl_lastDec s2) in *. change (sl_ghostSince s1) with (sl_ghostSince s2) in Hg.
  change (dc_latched (tr_dec (sl_tr s1))) with (dc_latched (tr_dec (sl_tr s2))) in Hexit.
  change (tr_haveIdx (sl_tr s1)) with (tr_haveIdx (sl_tr s2)) in Hexit. clearbody s2.
  destruct (as_IndexLTP a =? 0).
  - intros [= <- <- <-]. split; [done|]. cbn. rewrite Hes. split; [intros; by rewrite lookup_insert_ne|]. intros k0.
    eapply step_ok_slot; [exact Hs|reflexivity| |done|left; split; [done|congruence]].
    split; [done|]. rewrite Hld. intros Hd. apply Hexit. by apply Hstay.
  - destruct (on_decision now a s2 e1) as [o1 s3] eqn:H1. apply (on_decision_spec _ _ k) in H1 as (Hd3 & Ht3 & Hg3 & Hreq); [|done].
    destruct (on_second now a s3) as [o2 s4] eqn:H2.
    assert (requests o2 = [] ∧ sl_lastDec s4 = sl_lastDec s3 ∧ sl_tr s4 = sl_tr s3 ∧ sl_ghostSince s4 = sl_ghostSince s3) as (Hr2 & Hd4 & Ht4 & Hg4)
      by (unfold on_second in H2; destruct (_ <? _); injection H2 as <- <-; done).
    destruct (ghost_over_spec now a s4 e1) as [Hr3 Hno]. destruct (ghost_over now a s4 e1) as [o3 over]. cbn [fst snd] in Hr3, Hno.
    intros [= <- _ <-].
    assert (requests (sigs ++ o1 ++ o2 ++ o3) = requests o1) as Hreqs by (by rewrite !requests_app, Hsigs, Hr2, Hr3, app_nil_r).
    assert (is_ghost s4 = is_ghost s ∧ is_ghost s2 = is_ghost s) as [Hg_s4 Hg_s2] by (unfold is_ghost; by rewrite Hg4, Hg3, Hg).
    destruct over.
    + split; [done|]. cbn. rewrite Hes. split; [intros; by rewrite lookup_delete_ne|]. intros k0.
      assert (is_ghost s = true) as Hgs by (rewrite <-Hg_s4; destruct (is_ghost s4); [done|by specialize (Hno eq_refl)]).
      eapply step_ok_delete; [exact Hs|done|reflexivity|]. rewrite Hreqs. destruct Hreq as [|[Hf _]]; [done|congruence].
    + split; [done|]. cbn. rewrite Hes. split; [intros; by rewrite lookup_insert_ne|]. intros k0.
      eapply step_ok_slot; [exact Hs|reflexivity| |congruence|].
      * unfold slot_ok, slot_position. rewrite Ht4, Ht3, Hd4, Hd3. split; [done|]. exact Hexit.
      * unfold asks. rewrite Hreqs, Hd4, Hd3. destruct Hreq as [Hr|(_ & r & Hr & Hrk & Hnd & Hx & Hal)]; [left; auto|].
        right. exists r. repeat split; try done; [congruence|]. unfold allowed in *. by rewrite <-Hea.
Qed.

Lemma eval_slots_ok k0 now wall l e outs ch e' :
  engine_ok e → NoDup l.*1 → (∀ k s, (k, s) ∈ l → en_slots e !! k = Some s) → eval_slots now wall l e = Some (outs, ch, e') →
  en_auto e' = en_auto e ∧ step_ok k0 e outs e'.
Proof.
  unfold eval_slots. set (F := λ acc ks, _).
  assert (∀ l e1 outs1 ch1, engine_ok e1 → en_auto e1 = en_auto e → step_ok k0 e outs1 e1 → NoDup l.*1 →
    (∀ k s, (k, s) ∈ l → en_slots e1 !! k = Some s) → foldl F (Some (outs1, ch1, e1)) l = Some (outs, ch, e') →
    en_auto e' = en_auto e ∧ step_ok k0 e outs e') as Hgen.
  { clear l. induction l as [|[k s] l IH]; intros e1 outs1 ch1 Hok1 Ha1 Hst1 Hnd Hin; [by intros [= <- _ <-]|].
    cbn [foldl F mbind option_bind]. destruct (eval_slot now wall (k, s) e1) as [[[o2 ch2] e2]|] eqn:He.
    2:{ cbn [mbind option_bind]. assert (foldl F None l = None) as -> by (clear; induction l; done). done. }
    cbn [mbind option_bind]. apply eval_slot_ok in He as (Ha2 & Hf2 & Hst2); [|done|apply Hin; by left].
    apply NoDup_cons in Hnd as [Hk Hnd]. apply IH.
    - by apply (Hst2 k0).
    - congruence.
    - by eapply step_ok_trans.
    - done.
    - intros k' s' Hks. rewrite Hf2; [apply Hin; by right|]. intros ->. apply Hk. apply list_elem_of_fmap. by exists (k, s'). }
  intros Hok Hnd Hin. apply Hgen; [done|done|by apply step_ok_same|done|done].
Qed.

Lemma engine_Evaluate_ok k0 now wall e outs e' :
  engine_ok e → engine_Evaluate now wall e = Some (outs, e') → en_auto e' = en_auto e ∧ step_ok k0 e outs e'.
Proof.
  intros Hok. unfold engine_Evaluate. cbv zeta. set (n := if t_before _ _ then _ else _). set (e1 := e <| en_nowTS := n |>).
  destruct (eval_slots _ _ _ e1) as [[[o1 ch] e2]|] eqn:He; [|done]. cbn [mbind option_bind].
  apply (eval_slots_ok k0) in He as [Ha2 Hst]; [|done|apply range_nodup_keys|intros k s Hks; by apply elem_of_range in Hks].
  pose proof (flush_spec n ch e2) as Hfl. destruct (flush n ch e2) as [o2 e3]. destruct Hfl as (Hs3 & Ha3 & Hr3). intros [= <- <-].
  split; [rewrite Ha3; exact Ha2|]. eapply step_ok_trans; [|exact Hst|]; [exact Ha2|].
  intros Hok2. destruct (step_ok_same k0 e2 e3 Hs3 Hok2) as (? & _ & Hb). split; [done|]. rewrite Hr3. split; [constructor|].
  intros Hl. destruct (Hb Hl). split; [done|]. unfold asked in *. by rewrite Hr3.
Qed.

(** ** The open set *)

(** A slot filed anew: its position was not tracked, or was a ghost. *)
Lemma step_ok_fresh k0 k s e e' :
  (en_slots e !! k = None ∨ ∃ s0, en_slots e !! k = Some s0 ∧ is_ghost s0 = true) →
  en_slots e' = <[k := s]> (en_slots e) → slot_ok k s → sl_lastDec s ≠ DecisionExit → is_ghost s = false → step_ok k0 e [] e'.
Proof.
  intros Hs He Hok Hd Hg Hok_e. split; [|split; [constructor|intros Hlive; split]].
  - intros k1 s1. rewrite He, lookup_insert_Some. intros [[<- <-]|[_ H]]; [done|by apply Hok_e].
  - intros s1. rewrite He, lookup_insert_Some. intros [[<- <-]|[_ H]]; [done|by apply Hlive].
  - unfold budget. rewrite He. destruct (decide (k = k0)) as [->|Hne].
    + rewrite lookup_insert_eq. destruct Hs as [->|(s0 & Hs0 & Hg0)]; [cbn; destruct (String.eqb _ _); lia|].
      specialize (Hlive _ Hs0). congruence.
    + by rewrite lookup_insert_ne.
Qed.

Lemma add_position_ok k0 p e : en_auto (add_position getenv p e) = en_auto e ∧ step_ok k0 e [] (add_position getenv p e).
Proof.
  unfold add_position. set (k := PositionContext_Key p). set (fresh := match NewTracker _ _ with Some _ => _ | None => e end).
  assert ((en_slots e !! k = None ∨ ∃ s0, en_slots e !! k = Some s0 ∧ is_ghost s0 = true) →
    en_auto fresh = en_auto e ∧ step_ok k0 e [] fresh) as Hfresh.
  { intros Hs. unfold fresh. destruct (NewTracker _ _) as [tr|] eqn:Ht; [|split; [done|by apply step_ok_same]].
    assert (tr_pos tr = p) as Hp by (by apply NewTracker_spec in Ht as (_ & ? & _)).
    assert (en_slots (Book getenv (pc_IndexToken p) e).2 = en_slots e ∧ en_auto (Book getenv (pc_IndexToken p) e).2 = en_auto e) as [Hbs Hba]
      by (unfold Book; by destruct (en_books e !! _)).
    split; [exact Hba|]. eapply (step_ok_fresh k0 k); [done|cbn; by rewrite Hbs| |done|done].
    split; [|done]. unfold slot_position. cbn. by rewrite Hp. }
  destruct (en_slots e !! k) as [s|] eqn:Hs; [|apply Hfresh; by left].
  destruct (is_ghost s) eqn:Hg; [apply Hfresh; eauto|]. split; [done|]. intros Hok.
  eapply (step_ok_slot k0 k s); [exact Hs|reflexivity| |done|by left|exact Hok]. destruct (Hok _ _ Hs) as [_ Hd]. split; [done|]. exact Hd.
Qed.

Lemma drop_position_ok k0 seen now k s outs e :
  k0 ∈ seen → engine_ok e → en_slots e !! k = Some s → requests outs = [] →
  let '(outs', e') := drop_position seen now (k, s) (outs, e) in
  en_auto e' = en_auto e ∧ requests outs' = [] ∧ (∀ k', k' ≠ k → en_slots e' !! k' = en_slots e !! k') ∧ step_ok k0 e [] e'.
Proof.
  intros Hseen Hok Hs Hr. unfold drop_position. destruct (_ || _) eqn:Hc; [split; [done|split; [done|split; [done|by apply step_ok_same]]]|].
  bool_prop. assert (k ≠ k0) as Hne by congruence. destruct (_ && _).
  - cbn. split; [done|]. rewrite requests_app, Hr. split; [done|]. split; [intros; by rewrite lookup_insert_ne|].
    intros Hok'. split; [|split; [constructor|]].
    + intros k1 s1. cbn. rewrite lookup_insert_Some. intros [[<- <-]|[_ Hin]]; [|by apply Hok]. exact (Hok _ _ Hs).
    + intros Hlive. split; [intros s1; cbn; rewrite lookup_insert_ne by done; apply Hlive|].
      unfold budget. cbn. by rewrite lookup_insert_ne.
  - cbn. split; [done|]. split; [done|]. split; [intros; by rewrite lookup_delete_ne|].
    intros Hok'. split; [|split; [constructor|]].
    + intros k1 s1. cbn. rewrite lookup_delete_Some. intros [_ Hin]. by apply Hok.
    + intros Hlive. split; [intros s1; cbn; rewrite lookup_delete_ne by done; apply Hlive|].
      unfold budget. cbn. by rewrite lookup_delete_ne.
Qed.

Lemma SetPositions_ok k0 ps now e :
  k0 ∈ PositionContext_Key <$> ps → engine_ok e →
  let '(outs, e') := SetPositions getenv ps now e in en_auto e' = en_auto e ∧ step_ok k0 e outs e'.
Proof.
  intros Hk Hok. unfold SetPositions. set (e1 := foldl _ e ps).
  assert (en_auto e1 = en_auto e ∧ step_ok k0 e [] e1) as [Ha1 Hst1].
  { unfold e1. clear Hk e1. revert e Hok. induction ps as [|p ps IH]; intros e Hok; [split; [done|by apply step_ok_same]|].
    cbn [foldl]. destruct (add_position_ok k0 p e) as [Ha Hst]. destruct (IH (add_position getenv p e)) as [Ha' Hst']; [by apply Hst|].
    split; [congruence|]. by apply (step_ok_trans k0 e [] (add_position getenv p e) []). }
  set (seen := PositionContext_Key <$> ps) in *. clearbody seen.
  assert (∀ l outs2 e2, NoDup l.*1 → (∀ k s, (k, s) ∈ l → en_slots e2 !! k = Some s) → requests outs2 = [] → en_auto e2 = en_auto e →
    step_ok k0 e [] e2 →
    let '(o, e') := foldl (λ acc ks, drop_position seen now ks acc) (outs2, e2) l in
    en_auto e' = en_auto e ∧ requests o = [] ∧ step_ok k0 e [] e') as Hdrop.
  { induction l as [|[k s] l IH]; intros outs2 e2 Hnd Hin Hr Ha Hst; [done|]. cbn [foldl].
    pose proof (drop_position_ok k0 seen now k s outs2 e2 Hk) as Hd. destruct (Hst Hok) as (Hok2 & _).
    specialize (Hd Hok2 ltac:(apply Hin; by left) Hr). destruct (drop_position _ _ _ _) as [o3 e3]. destruct Hd as (Ha3 & Hr3 & Hf3 & Hst3).
    apply NoDup_cons in Hnd as [Hnk Hnd]. apply IH; [done| |done|congruence|].
    - intros k' s' Hks. rewrite Hf3; [apply Hin; by right|]. intros ->. apply Hnk. apply list_elem_of_fmap. by exists (k, s').
    - by apply (step_ok_trans k0 e [] e2 []). }
  specialize (Hdrop (range (en_slots e1)) [] e1 (range_nodup_keys _)).
  destruct (foldl _ ([], e1) _) as [o2 e2]. destruct Hdrop as (Ha2 & Hr2 & Hst2); [intros k s; by apply elem_of_range|done|done|done|].
  pose proof (flush_spec now true e2) as Hfl. destruct (flush now true e2) as [o3 e3]. destruct Hfl as (Hs3 & Ha3 & Hr3).
  split; [congruence|]. intros _. destruct (Hst2 Hok) as (Hok2 & _ & Hb2). destruct (step_ok_same k0 e2 e3 Hs3 Hok2) as (Hok3 & _ & Hb3).
  rewrite requests_app, Hr2, Hr3. split; [done|]. split; [constructor|]. intros Hl. destruct (Hb2 Hl) as [Hl2 Hc2].
  destruct (Hb3 Hl2) as [Hl3 Hc3]. split; [done|]. unfold asked in *. rewrite requests_app, Hr2, Hr3. cbn in *. lia.
Qed.

Lemma drop_position_wf seen now k s outs e :
  engine_ok e → en_slots e !! k = Some s → requests outs = [] →
  let '(outs', e') := drop_position seen now (k, s) (outs, e) in
  engine_ok e' ∧ requests outs' = [] ∧ en_auto e' = en_auto e ∧ ∀ k', k' ≠ k → en_slots e' !! k' = en_slots e !! k'.
Proof.
  intros Hok Hs Hr. unfold drop_position. destruct (_ || _); [done|].
  destruct (_ && _); cbn; (split; [|split; [rewrite ?requests_app, ?Hr; done|split; [done|]]]).
  - intros k1 s1. cbn. rewrite lookup_insert_Some. intros [[<- <-]|[_ Hin]]; [exact (Hok _ _ Hs)|by apply Hok].
  - intros k' Hne. by rewrite lookup_insert_ne.
  - intros k1 s1. cbn. rewrite lookup_delete_Some. intros [_ Hin]. by apply Hok.
  - intros k' Hne. by rewrite lookup_delete_ne.
Qed.

Lemma SetPositions_wf ps now e :
  engine_ok e → let '(outs, e') := SetPositions getenv ps now e in engine_ok e' ∧ requests outs = [] ∧ en_auto e' = en_auto e.
Proof.
  intros Hok. unfold SetPositions. set (e1 := foldl _ e ps).
  assert (en_auto e1 = en_auto e ∧ engine_ok e1) as [Ha1 Hok1].
  { unfold e1. clear e1. revert e Hok. induction ps as [|p ps IH]; intros e Hok; [done|]. cbn [foldl].
    destruct (add_position_ok "" p e) as [<- Hst]. apply IH. by apply Hst. }
  set (seen := PositionContext_Key <$> ps).
  assert (∀ l outs2 e2, NoDup l.*1 → (∀ k s, (k, s) ∈ l → en_slots e2 !! k = Some s) →
    engine_ok e2 ∧ requests outs2 = [] ∧ en_auto e2 = en_auto e →
    let '(o, e') := foldl (λ acc ks, drop_position seen now ks acc) (outs2, e2) l in
    engine_ok e' ∧ requests o = [] ∧ en_auto e' = en_auto e) as Hdrop.
  { induction l as [|[k s] l IH]; intros outs2 e2 Hnd Hin (Hok2 & Hr2 & Ha2); [done|]. cbn [foldl].
    pose proof (drop_position_wf seen now k s outs2 e2 Hok2 ltac:(apply Hin; by left) Hr2) as Hd.
    destruct (drop_position _ _ _ _) as [o3 e3]. destruct Hd as (Hok3 & Hr3 & Ha3 & Hf3).
    apply NoDup_cons in Hnd as [Hnk Hnd]. apply IH; [done| |split; [done|split; [done|congruence]]].
    intros k' s' Hks. rewrite Hf3; [apply Hin; by right|]. intros ->. apply Hnk. apply list_elem_of_fmap. by exists (k, s'). }
  specialize (Hdrop (range (en_slots e1)) [] e1 (range_nodup_keys _)).
  destruct (foldl _ ([], e1) _) as [o2 e2]. destruct Hdrop as (Hok2 & Hr2 & Ha2); [intros k s; by apply elem_of_range|done|].
  pose proof (flush_spec now true e2) as Hfl. destruct (flush now true e2) as [o3 e3]. destruct Hfl as (Hs3 & Ha3 & Hr3).
  split; [|split; [by rewrite requests_app, Hr2, Hr3|congruence]]. intros k s. rewrite Hs3. apply Hok2.
Qed.

(** ** Any step, any run *)

(** A message that keeps a position in the open set. *)
Definition keeps_open (k : string) (o : engine_op) : Prop :=
  match o with EPositions ps _ => k ∈ PositionContext_Key <$> ps | _ => True end.

(** The strategies a run sets to close by themselves. *)
Definition auto_of (o : engine_op) : list string := match o with EAuto l => l | _ => [] end.
Definition autos (os : list engine_op) : list string := concat (auto_of <$> os).

Lemma timed_ok k0 now wall f e outs e' :
  (∀ s, same_decisions s (f s)) → engine_ok e → en_slots e' = f <$> en_slots e → en_auto e' = en_auto e →
  ∀ e2, engine_Evaluate now wall e' = Some (outs, e2) → en_auto e2 = en_auto e ∧ step_ok k0 e outs e2.
Proof.
  intros Hf Hok Hs Ha e2 He. pose proof (step_ok_fmap k0 f e e' Hf Hs) as H1. destruct (H1 Hok) as (Hok' & _).
  apply (engine_Evaluate_ok k0) in He as [Ha2 H2]; [|done]. split; [congruence|].
  by apply (step_ok_trans k0 e [] e').
Qed.

Lemma engine_tick_ok k0 t wall e outs e' :
  engine_ok e → engine_tick t wall e = Some (outs, e') → en_auto e' = en_auto e ∧ step_ok k0 e outs e'.
Proof.
  intros Hok. unfold engine_tick. cbv zeta. destruct (Wants _ _).
  - eapply timed_ok; [apply (slot_tick_decisions t)|done|reflexivity|reflexivity].
  - intros [= <- <-]. split; [done|]. eapply step_ok_fmap; [apply (slot_tick_decisions t)|reflexivity].
Qed.

Lemma engine_timer_ok k0 wall e outs e' :
  engine_ok e → engine_timer wall e = Some (outs, e') → en_auto e' = en_auto e ∧ step_ok k0 e outs e'.
Proof.
  intros Hok. unfold engine_timer. eapply timed_ok; [apply same_decisions_refl|done|by rewrite map_fmap_id|done].
Qed.

(** The strategies an engine closes for: those set last. *)
Definition auto_after (o : engine_op) (e : Engine) : gset string :=
  match o with EAuto l => en_auto (SetAutoExit l e) | _ => en_auto e end.

Lemma quiet_slots k0 f e e' :
  (∀ s, same_decisions s (f s)) → en_slots e' = f <$> en_slots e → engine_ok e → engine_ok e' ∧ step_ok k0 e [] e'.
Proof. intros Hf Hs Hok. pose proof (step_ok_fmap k0 f e e' Hf Hs) as H. split; [by apply H|exact H]. Qed.

Lemma quiet_same k0 e e' : en_slots e' = en_slots e → engine_ok e → engine_ok e' ∧ step_ok k0 e [] e'.
Proof. intros Hs. apply (quiet_slots k0 id); [apply same_decisions_refl|by rewrite map_fmap_id]. Qed.

Lemma engine_step_ok k0 o e outs e' :
  engine_ok e → engine_step o e = Some (outs, e') →
  engine_ok e' ∧ en_auto e' = auto_after o e ∧ Forall (allowed e) (requests outs) ∧ (keeps_open k0 o → step_ok k0 e outs e').
Proof.
  intros Hok He.
  assert (en_auto e' = auto_after o e → step_ok k0 e outs e' → engine_ok e' ∧ en_auto e' = auto_after o e ∧
    Forall (allowed e) (requests outs) ∧ (keeps_open k0 o → step_ok k0 e outs e')) as Hst.
  { intros Ha Hs. destruct (Hs Hok) as (? & ? & _). done. }
  destruct o; cbn [engine_step auto_after] in *.
  - injection He as He. pose proof (SetPositions_wf ps now e Hok) as Hwf. rewrite He in Hwf. destruct Hwf as (Hok' & Hr & Ha).
    split; [done|]. split; [done|]. split; [by rewrite Hr|]. intros Hk.
    pose proof (SetPositions_ok k0 ps now e Hk Hok) as Hs. rewrite He in Hs. apply Hs.
  - apply (engine_tick_ok k0) in He as [Ha Hs]; [|done]. by apply Hst.
  - apply (engine_timer_ok k0) in He as [Ha Hs]; [|done]. by apply Hst.
  - injection He as <- <-. destruct (candle_slots c e) as [(f & Hf & Hs) Ha]. apply Hst; [done|]. by apply (quiet_slots k0 f).
  - injection He as <- <-. apply Hst; [done|]. eapply quiet_slots; [|reflexivity|done]. intros s. by apply same_decisions_tracker.
  - injection He as <- <-. apply Hst; [done|]. by apply quiet_same.
  - injection He as <- <-. destruct (upd_book_slots tok (SetAnalyst ls) e) as [Hs Ha]. apply Hst; [done|]. by apply quiet_same.
  - injection He as <- <-. unfold SetTrendADX, SetOurSRLevels in *. set (e1 := upd_book getenv tok (SetOurSR ls) e) in *.
    destruct (upd_book_slots tok (SetTrend adx) e1) as [Hs Ha]. destruct (upd_book_slots tok (SetOurSR ls) e) as [Hs1 Ha1]. fold e1 in Hs1, Ha1.
    apply Hst; [congruence|]. apply quiet_same; [congruence|done].
  - injection He as <- <-. apply Hst; [done|]. by apply quiet_same.
Qed.

Definition auto_within (l : list string) (e : Engine) : Prop :=
  ∀ x, x ∈ en_auto e → x ∈ l ∧ x ≠ RealOrderStrategy.

Lemma auto_after_within l o e e' : auto_within l e → en_auto e' = auto_after o e → auto_within (l ++ auto_of o) e'.
Proof.
  intros Hw He x. rewrite He. destruct o; cbn [auto_after auto_of]; rewrite ?app_nil_r; try apply Hw.
  cbn. rewrite elem_of_list_to_set, list_elem_of_filter. intros [[_ Hne] Hin]. split; [by apply elem_of_app; right|done].
Qed.

Lemma engine_run_ok k0 l os e outs e' :
  engine_ok e → auto_within l e → engine_run os e = Some (outs, e') →
  engine_ok e' ∧ auto_within (l ++ autos os) e' ∧
  Forall (λ r, er_Strategy r ∈ l ++ autos os ∧ er_Strategy r ≠ RealOrderStrategy) (requests outs) ∧
  (Forall (keeps_open k0) os → live k0 e → (asked k0 outs + budget k0 e' <= budget k0 e)%nat).
Proof.
  revert l e outs. induction os as [|o os IH]; intros l e outs Hok Hw.
  - intros [= <- <-]. unfold autos. cbn. rewrite app_nil_r. split; [done|]. split; [exact Hw|]. split; [constructor|]. by cbn.
  - cbn [engine_run]. destruct (engine_step o e) as [[o1 e1]|] eqn:H1; [|done]. cbn [mbind option_bind].
    destruct (engine_run os e1) as [[o2 e2]|] eqn:H2; [|done]. cbn [mbind option_bind]. intros [= <- <-].
    apply (engine_step_ok k0) in H1 as (Hok1 & Ha1 & Hall1 & Hst1); [|done]. pose proof (auto_after_within l o e e1 Hw Ha1) as Hw1.
    apply (IH (l ++ auto_of o)) in H2 as (Hok2 & Hw2 & Hall2 & Hb2); [|done|done].
    change (autos (o :: os)) with (auto_of o ++ autos os). rewrite app_assoc. split; [done|]. split; [done|]. split.
    + rewrite requests_app. apply Forall_app. split; [|done]. eapply Forall_impl; [exact Hall1|]. intros r Hr. destruct (Hw _ Hr) as [Hin Hne].
      split; [|done]. by do 2 (apply elem_of_app; left).
    + intros Hk Hlive. inversion Hk as [|? ? Hk1 Hk2]; subst. destruct (Hst1 Hk1 Hok) as (_ & _ & Hb1). destruct (Hb1 Hlive) as [Hlive1 Hc1].
      specialize (Hb2 Hk2 Hlive1). rewrite asked_app. lia.
Qed.

(** C22: the exit watch closes a position at most once, and only where it may.
    From the moment an open position is seen by the engine, for as long as
    the strategy keeps listing it, and whatever else the engine is fed, at
    most one request to close it goes out; every request is for a strategy
    set to close by itself, which the real-order strategy can never be. *)
Theorem exit_requested_at_most_once m shadow os0 outs0 e os outs e' k :
  engine_run os0 (NewEngine m shadow) = Some (outs0, e) → live k e → Forall (keeps_open k) os →
  engine_run os e = Some (outs, e') →
  (asked k outs <= 1)%nat ∧
  Forall (λ r, er_Strategy r ∈ autos (os0 ++ os) ∧ er_Strategy r ≠ RealOrderStrategy) (requests outs).
Proof.
  intros H0 Hlive Hk Hrun. apply (engine_run_ok k []) in H0 as (Hok & Hw & _); [|intros ? ?; cbn; by rewrite lookup_empty|intros ? ?; cbn; set_solver].
  apply (engine_run_ok k (autos os0)) in Hrun as (_ & _ & Hall & Hb); [|done|done]. specialize (Hb Hk Hlive). split.
  - unfold budget in Hb. destruct (en_slots e !! k); [destruct (String.eqb _ _)|]; lia.
  - unfold autos in *. by rewrite fmap_app, concat_app.
Qed.
End engine_runs.

(** A position that rises two thirds of its way and gives most of it back. *)
Definition index_tick (price : Z) (ts : Time) : Tick := {|
  tick_Token := "99926000"; tick_Exchange := "NSE"; tick_Price := price; tick_Qty := 0; tick_DayVolume := 0; tick_TickTS := ts;
  tick_EventTS := ts; tick_BestBid := 0; tick_BestAsk := 0; tick_OI := 0; tick_QuoteTS := ts |}.
Definition no_env : string → string := λ _, "".
Definition sample_key : string := PositionContext_Key sample_position.
Definition tracked_ops : list engine_op :=
  [EAuto ["NIFTY50_SR"; RealOrderStrategy]; EPositions [sample_position] (100 * Second);
   ETick (index_tick 2504000 (101 * Second)) 0].
Definition exit_ops : list engine_op :=
  [ETick (index_tick 2501000 (102 * Second)) 0; EPositions [sample_position] (103 * Second);
   ETick (index_tick 2503000 (104 * Second)) 0; ETimer (2 * Second)].
Definition sample_engine_run (os : list engine_op) (e : Engine) : option (list output * Engine) :=
  engine_run (ME := unit_exp) (SS := insertion_sort) (MO := canonical_order) no_env os e.

Lemma exit_requested_at_most_once_witness :
  ∃ outs0 e outs e', sample_engine_run tracked_ops (NewEngine (Compile DefaultParams) true) = Some (outs0, e) ∧
    sample_engine_run exit_ops e = Some (outs, e') ∧ length (requests outs) = 1%nat ∧ (asked sample_key outs <= 1)%nat.
Proof.
  pose (r0 := sample_engine_run tracked_ops (NewEngine (Compile DefaultParams) true)).
  assert ((λ oe, is_ghost <$> (en_slots oe.2 !! sample_key)) <$> r0 = Some (Some false)) as Hg by (vm_compute; reflexivity).
  assert ((r ← r0; length ∘ requests ∘ fst <$> sample_engine_run exit_ops r.2) = Some 1%nat) as Hn by (vm_compute; reflexivity).
  destruct r0 as [[outs0 e]|] eqn:E0; [|discriminate]. cbn [mbind option_bind fst snd] in Hn. injection Hg as Hg.
  destruct (sample_engine_run exit_ops e) as [[outs e']|] eqn:E1; [|discriminate]. injection Hn as Hn.
  exists outs0, e, outs, e'. split; [exact E0|]. split; [exact E1|]. split; [exact Hn|].
  apply (exit_requested_at_most_once no_env (ME := unit_exp) (SS := insertion_sort) (MO := canonical_order)
    (Compile DefaultParams) true tracked_ops outs0 e exit_ops outs e' sample_key); [exact E0| | |exact E1].
  - intros s Hs. rewrite Hs in Hg. injection Hg as Hg. exact Hg.
  - repeat constructor.
Defined.
