(* ===== verification/ExitWatchTotal.v ===== *)
(** The exit watch's engine never panics while index ticks come in order:
    the trackers' theorem carried through positions that come and go, ghosts,
    candles, tuning and timers. *)
From S2P Require Import Prelude Float64 GoText Model MarketHours Underlying Indicators RangeContext ExitLevels ExitScore ExitTracker ExitRunner ExitRuns ExitWatch ExitWatchOk.
#[local] Open Scope Z_scope.
#[local] Open Scope go_scope.

Section total.
Context (getenv : string → string).
Context `{ME : MathExp} `{SS : SliceSort} `{MO : MapOrder}.

(** Ticks whose times do not go back. *)
Fixpoint engine_ticks_in_order (since : Time) (os : list engine_op) : Prop :=
  match os with
  | [] => True
  | ETick t _ :: os => since <= CanonicalTS t <= max_i64 ∧ engine_ticks_in_order (CanonicalTS t) os
  | _ :: os => engine_ticks_in_order since os
  end.

Definition slots_in_order (upto : Time) (e : Engine) : Prop :=
  map_Forall (λ _ s, bars_in_order upto (sl_tr s)) (en_slots e).

Definition same_bars (s s' : slot) : Prop := tr_bars (sl_tr s') = tr_bars (sl_tr s).

Lemma same_bars_in_order upto s s' : same_bars s s' → bars_in_order upto (sl_tr s) → bars_in_order upto (sl_tr s').
Proof. unfold same_bars, bars_in_order. by intros ->. Qed.

Lemma slots_in_order_eq upto e e' : en_slots e' = en_slots e → slots_in_order upto e → slots_in_order upto e'.
Proof. unfold slots_in_order. by intros ->. Qed.

Lemma slots_in_order_fmap upto upto' f e e' :
  (∀ s, bars_in_order upto (sl_tr s) → bars_in_order upto' (sl_tr (f s))) → en_slots e' = f <$> en_slots e →
  slots_in_order upto e → slots_in_order upto' e'.
Proof. intros Hf Hs He. unfold slots_in_order. rewrite Hs. intros k s (s0 & <- & Hs0)%lookup_fmap_Some. by eapply Hf, He. Qed.

Lemma slots_in_order_insert upto k s e e' :
  en_slots e' = <[k := s]> (en_slots e) → bars_in_order upto (sl_tr s) → slots_in_order upto e → slots_in_order upto e'.
Proof. intros Hs Hb He. unfold slots_in_order. rewrite Hs. by apply map_Forall_insert_2. Qed.

Lemma slots_in_order_delete upto k e e' :
  en_slots e' = delete k (en_slots e) → slots_in_order upto e → slots_in_order upto e'.
Proof. intros Hs He. unfold slots_in_order. rewrite Hs. by apply map_Forall_delete. Qed.

(** ** An evaluation *)

Lemma assess_slot_total upto now wall s e :
  bars_in_order upto (sl_tr s) → ∃ a s' e', assess_slot now wall s e = Some (a, s', e') ∧ en_slots e' = en_slots e ∧ same_bars s s'.
Proof.
  intros Hb. unfold assess_slot. set (e1 := if tr_haveIdx _ then _ else e).
  assert (en_slots e1 = en_slots e) as Hs by (unfold e1; by destruct (tr_haveIdx _)). clearbody e1.
  destruct (evaluate_total upto now (view_of_book <$> en_books e1 !! sl_book s) (sl_tr s) Hb) as [[a t] He]. rewrite He.
  cbn [mbind option_bind]. do 3 eexists. split; [reflexivity|]. split; [done|].
  unfold same_bars. cbn. apply evaluate_cases in He as [(_ & -> & _)|(_ & v & Hj & _)]; [done|].
  apply market_judge in Hj. unfold market in Hj. congruence.
Qed.

Lemma on_decision_bars now a s e : same_bars s (on_decision now a s e).2.
Proof. unfold on_decision, same_bars. destruct (String.eqb _ _); [done|]. destruct (String.eqb _ _); [done|]. by destruct (_ && _). Qed.

Lemma eval_slot_total upto now wall k s e :
  bars_in_order upto (sl_tr s) → slots_in_order upto e →
  ∃ outs ch e', eval_slot now wall (k, s) e = Some (outs, ch, e') ∧ slots_in_order upto e'.
Proof.
  intros Hb He. unfold eval_slot. destruct (assess_slot_total upto now wall s e Hb) as (a & s1 & e1 & -> & Hs1 & Hb1).
  cbn [mbind option_bind DrainEvents]. set (s2 := s1 <| sl_tr := _ |>).
  assert (bars_in_order upto (sl_tr s2)) as Hb2 by (exact (same_bars_in_order _ _ _ Hb1 Hb)). clearbody s2.
  pose proof (slots_in_order_eq upto e e1 Hs1 He) as He1. destruct (as_IndexLTP a =? 0).
  - do 3 eexists. split; [reflexivity|]. by eapply slots_in_order_insert.
  - pose proof (on_decision_bars now a s2 e1) as Hb3. destruct (on_decision now a s2 e1) as [o1 s3].
    apply (same_bars_in_order _ _ _ Hb3) in Hb2. destruct (on_second now a s3) as [o2 s4] eqn:H2.
    assert (sl_tr s4 = sl_tr s3) as Ht by (unfold on_second in H2; destruct (_ <? _); by injection H2 as <- <-).
    destruct (ghost_over now a s4 e1) as [o3 over]. do 3 eexists. split; [reflexivity|].
    destruct over; [by eapply slots_in_order_delete|]. eapply slots_in_order_insert; [reflexivity|by rewrite Ht|done].
Qed.

Lemma eval_slots_total upto now wall l e :
  (∀ k s, (k, s) ∈ l → bars_in_order upto (sl_tr s)) → slots_in_order upto e →
  ∃ outs ch e', eval_slots now wall l e = Some (outs, ch, e') ∧ slots_in_order upto e'.
Proof.
  unfold eval_slots. generalize (@nil output), false. revert e.
  induction l as [|[k s] l IH]; intros e outs ch Hl He; [by do 3 eexists|]. cbn [foldl mbind option_bind].
  destruct (eval_slot_total upto now wall k s e) as (o & c & e1 & -> & He1); [apply (Hl k); by left|done|].
  cbn [mbind option_bind]. apply IH; [|done]. intros k' s' Hin. apply (Hl k'). by right.
Qed.

Lemma engine_Evaluate_total upto now wall e :
  slots_in_order upto e → ∃ outs e', engine_Evaluate now wall e = Some (outs, e') ∧ slots_in_order upto e'.
Proof.
  intros He. unfold engine_Evaluate. cbv zeta. set (n := if t_before _ _ then _ else _). set (e1 := e <| en_nowTS := n |>).
  destruct (eval_slots_total upto n wall (range (en_slots e1)) e1) as (o & ch & e2 & -> & He2);
    [intros k s Hin; apply elem_of_range in Hin; by eapply He|done|].
  cbn [mbind option_bind]. pose proof (flush_spec n ch e2) as Hf. destruct (flush n ch e2) as [o3 e3]. destruct Hf as (Hs & _ & _).
  do 2 eexists. split; [reflexivity|]. by eapply slots_in_order_eq.
Qed.

(** ** Positions *)

Lemma bars_in_order_new pos m t upto : 0 <= upto → NewTracker pos m = Some t → bars_in_order upto t.
Proof.
  intros H0 (Ht & _)%NewTracker_spec. split; [apply Ht|]. rewrite (tk_bars _ _ Ht). split; constructor.
Qed.

Lemma add_position_total upto p e : 0 <= upto → slots_in_order upto e → slots_in_order upto (add_position getenv p e).
Proof.
  intros H0 He. unfold add_position. set (k := PositionContext_Key p). set (fresh := match NewTracker _ _ with Some _ => _ | None => e end).
  assert (slots_in_order upto fresh) as Hf.
  { unfold fresh. destruct (NewTracker _ _) as [tr|] eqn:Ht; [|done].
    eapply (slots_in_order_insert upto k); [reflexivity|exact (bars_in_order_new _ _ _ _ H0 Ht)|].
    eapply slots_in_order_eq; [|exact He]. unfold Book. by destruct (en_books e !! _). }
  destruct (en_slots e !! k) as [s|] eqn:Hs; [|done]. destruct (is_ghost s); [done|].
  eapply (slots_in_order_insert upto k); [reflexivity| |done]. exact (He _ _ Hs).
Qed.

Lemma drop_position_total upto seen now k s outs e :
  bars_in_order upto (sl_tr s) → slots_in_order upto e → slots_in_order upto (drop_position seen now (k, s) (outs, e)).2.
Proof.
  intros Hb He. unfold drop_position. destruct (_ || _); [done|]. destruct (_ && _).
  - by eapply slots_in_order_insert.
  - by eapply slots_in_order_delete.
Qed.

Lemma SetPositions_total upto ps now e :
  0 <= upto → slots_in_order upto e → slots_in_order upto (SetPositions getenv ps now e).2.
Proof.
  intros H0 He. unfold SetPositions. set (e1 := foldl _ e ps).
  assert (slots_in_order upto e1) as He1.
  { unfold e1. clear e1. revert e He. induction ps as [|p ps IH]; intros e He; [done|]. cbn [foldl]. by apply IH, add_position_total. }
  assert (∀ l acc, (∀ k s, (k, s) ∈ l → bars_in_order upto (sl_tr s)) → slots_in_order upto acc.2 →
    slots_in_order upto (foldl (λ acc ks, drop_position (PositionContext_Key <$> ps) now ks acc) acc l).2) as Hd.
  { induction l as [|[k s] l IH]; intros [o e2] Hl He2; [done|]. cbn [foldl]. apply IH; [intros k' s' Hin; apply (Hl k'); by right|].
    apply drop_position_total; [apply (Hl k); by left|done]. }
  specialize (Hd (range (en_slots e1)) ([], e1) ltac:(intros k s Hin; apply elem_of_range in Hin; by eapply He1) He1).
  destruct (foldl _ ([], e1) _) as [o2 e2]. pose proof (flush_spec now true e2) as Hf. destruct (flush now true e2) as [o3 e3].
  by apply (slots_in_order_eq upto e2); [apply Hf|].
Qed.

(** ** Any run *)

Lemma same_bars_fmap upto f e e' :
  (∀ s, same_bars s (f s)) → en_slots e' = f <$> en_slots e → slots_in_order upto e → slots_in_order upto e'.
Proof. intros Hf. apply slots_in_order_fmap. intros s. by apply same_bars_in_order. Qed.

Lemma slot_tick_in_order upto t s :
  0 <= upto <= CanonicalTS t → CanonicalTS t <= max_i64 → bars_in_order upto (sl_tr s) →
  bars_in_order (CanonicalTS t) (sl_tr (slot_tick t s)).
Proof.
  intros Hle Hmax Hb. unfold slot_tick. assert (bars_in_order (CanonicalTS t) (sl_tr s)) as Hb'.
  { destruct Hb as (Hwf & Hall & Hs). split; [done|]. split; [|done]. eapply Forall_impl; [exact Hall|]. cbn. intros b Hbs.
    pose proof (Z.quot_le_mono upto (CanonicalTS t) Second). pose proof (Z.quot_pos upto Second).
    pose proof (Z.quot_le_upper_bound (CanonicalTS t) Second max_i64). unfold Second in *. i64_simpl. lia. }
  destruct (String.eqb _ _); [by apply (OnIndexTick_in_order upto)|]. destruct (String.eqb _ _); [|done].
  eapply same_bars_in_order; [|exact Hb']. apply OnOptionTick_keeps.
Qed.

Lemma on_index_bars tok f s : tr_bars (f (sl_tr s)) = tr_bars (sl_tr s) → same_bars s (on_index tok f s).
Proof. unfold on_index. by destruct (String.eqb _ _). Qed.

Lemma candle_bars c e : ∃ f, (∀ s, same_bars s (f s)) ∧ en_slots (engine_candle getenv c e) = f <$> en_slots e.
Proof.
  unfold engine_candle. destruct (_ && _).
  - exists id. split; [done|]. rewrite map_fmap_id. apply upd_book_slots.
  - set (e1 := upd_book getenv _ _ e). assert (en_slots e1 = en_slots e) as Hs by apply upd_book_slots.
    set (e2 := if tfc_Forming c then e1 else _).
    assert (∃ f, (∀ s, same_bars s (f s)) ∧ en_slots e2 = f <$> en_slots e) as (f & Hf & Hf2).
    { unfold e2. destruct (tfc_Forming c).
      - exists id. split; [done|]. by rewrite map_fmap_id.
      - cbn. rewrite Hs. eexists. split; [|reflexivity]. intros s. apply on_index_bars. unfold OnMinuteClose. by destruct (t_after _ _). }
    destruct (computeATR _) as [atr|]; [|by eauto]. cbn. rewrite Hf2.
    exists (λ s, on_index (tfc_Token c) (SetATR atr) (f s)). split; [|by rewrite <-map_fmap_compose].
    intros s. etransitivity; [|apply Hf]. by apply on_index_bars.
Qed.

Definition op_time (upto : Time) (o : engine_op) : Time := match o with ETick t _ => CanonicalTS t | _ => upto end.

Lemma engine_step_total upto o e :
  0 <= upto → (∀ t wall, o = ETick t wall → upto <= CanonicalTS t <= max_i64) → slots_in_order upto e →
  ∃ outs e', engine_step getenv o e = Some (outs, e') ∧ slots_in_order (op_time upto o) e'.
Proof.
  intros H0 Ht He. destruct o; cbn [engine_step op_time].
  - pose proof (SetPositions_total upto ps now e H0 He). destruct (SetPositions getenv ps now e) as [o e']. eauto.
  - destruct (Ht t wall eq_refl) as [Hle Hmax]. unfold engine_tick. cbv zeta.
    match goal with |- context [if _ then engine_Evaluate _ _ ?e1 else _] => assert (slots_in_order (CanonicalTS t) e1) as He1 end.
    { eapply (slots_in_order_fmap upto); [|reflexivity|exact He]. intros s. by apply slot_tick_in_order. }
    destruct (Wants _ _); [by apply engine_Evaluate_total|]. do 2 eexists. split; [reflexivity|done].
  - by apply engine_Evaluate_total.
  - destruct (candle_bars c e) as (f & Hf & Hs). do 2 eexists. split; [reflexivity|]. by eapply same_bars_fmap.
  - do 2 eexists. split; [reflexivity|]. by eapply same_bars_fmap; [|reflexivity|].
  - do 2 eexists. split; [reflexivity|]. done.
  - do 2 eexists. split; [reflexivity|]. eapply slots_in_order_eq; [apply upd_book_slots|done].
  - do 2 eexists. split; [reflexivity|]. eapply slots_in_order_eq; [apply upd_book_slots|].
    eapply slots_in_order_eq; [apply upd_book_slots|done].
  - do 2 eexists. split; [reflexivity|]. done.
Qed.

Lemma engine_run_total upto os e :
  0 <= upto → engine_ticks_in_order upto os → slots_in_order upto e → is_Some (engine_run getenv os e).
Proof.
  revert upto e. induction os as [|o os IH]; intros upto e H0 Hos He; [by eexists|]. cbn [engine_run].
  assert (upto <= op_time upto o ∧ (∀ t wall, o = ETick t wall → upto <= CanonicalTS t <= max_i64) ∧
    engine_ticks_in_order (op_time upto o) os) as (Hle & Ht & Hos').
  { destruct o; cbn in *; try (split; [lia|split; [done|done]]). destruct Hos as [Hr Hos]. split; [lia|]. split; [|done].
    by intros ? ? [= <- <-]. }
  destruct (engine_step_total upto o e H0 Ht He) as (o1 & e1 & -> & He1). cbn [mbind option_bind].
  destruct (IH (op_time upto o) e1) as [[o2 e2] ->]; [lia|done|done|by eexists].
Qed.

(** C24: the exit watch never panics while its ticks come in order: whatever
    positions come and go, are followed as ghosts or reopened, and whatever
    candles, levels, tuning and timers arrive between, every message is
    handled, so long as no tick is older than the one before it. *)
Theorem exit_watch_never_panics m shadow os : engine_ticks_in_order 0 os → is_Some (engine_run getenv os (NewEngine m shadow)).
Proof. intros Hos. by apply (engine_run_total 0); [|done|apply map_Forall_empty]. Qed.
End total.

Lemma exit_watch_never_panics_witness :
  is_Some (sample_engine_run (tracked_ops ++ exit_ops) (NewEngine (Compile DefaultParams) true)).
Proof.
  apply (exit_watch_never_panics no_env (ME := unit_exp) (SS := insertion_sort) (MO := canonical_order)).
  vm_compute. repeat split; discriminate.
Defined.

(** Ten seconds of ticks, then one six seconds older: the evaluation it causes
    panics. *)
Example old_tick_panics_engine :
  sample_engine_run
    (tracked_ops ++ ((λ i, ETick (index_tick 2504010 ((102 + Z.of_nat i) * Second)) 0) <$> seq 0 10) ++
     [ETick (index_tick 2504000 (104 * Second)) 0]) (NewEngine (Compile DefaultParams) true) = None.
Proof. vm_compute. reflexivity. Qed.
