(* ===== verification/ExitReplay.v ===== *)
(** The pre-target rejection rule over closed minutes, as the backtest runs it
    (internal/exitwatch/replay.go): its own level book, fed with minutes and
    with the five-minute and hourly bars it builds from them, and the rule
    stepped over four prices of each minute. *)
From S2P Require Import Prelude Float64 GoText Model MarketHours Indicators RangeContext ExitLevels ExitScore ExitTracker ExitRunner ExitWatch.
#[local] Open Scope Z_scope.
#[local] Open Scope go_scope.

Definition replay_TFs : list Z := [300; 3600].

Definition zero_TFCandle : TFCandle := {|
  tfc_Token := ""; tfc_Exchange := ""; tfc_TF := 0; tfc_TS := zero_time; tfc_Open := 0; tfc_High := 0; tfc_Low := 0;
  tfc_Close := 0; tfc_Volume := 0; tfc_Count := 0; tfc_Forming := false |}.

Record PreRejectReplay := {
  pp_m : WatchModel; pp_book : LevelBook; pp_agg : gmap Z TFCandle; pp_bars : list TFCandle; pp_open : bool; pp_r : preReject;
  pp_entry : Z; pp_sign : Z; pp_targetMove : Z; pp_prevClose : TFCandle }.

#[export] Instance PreRejectReplay_settable : Settable PreRejectReplay := λ p, {|
  pp_m := pp_m p; pp_book := pp_book p; pp_agg := pp_agg p; pp_bars := pp_bars p; pp_open := pp_open p; pp_r := pp_r p;
  pp_entry := pp_entry p; pp_sign := pp_sign p; pp_targetMove := pp_targetMove p; pp_prevClose := pp_prevClose p |}.

Definition NewPreRejectReplay (p : Params) : PreRejectReplay := {|
  pp_m := Compile p; pp_book := NewLevelBook (tuning_of p); pp_agg := ∅; pp_bars := []; pp_open := false; pp_r := zero_preReject;
  pp_entry := 0; pp_sign := 0; pp_targetMove := 0; pp_prevClose := zero_TFCandle |}.

(** The forming bar of [c]'s bucket with [c] in it. *)
Definition grow_bar (c f : TFCandle) : TFCandle := {|
  tfc_Token := tfc_Token f; tfc_Exchange := tfc_Exchange f; tfc_TF := tfc_TF f; tfc_TS := tfc_TS f; tfc_Open := tfc_Open f;
  tfc_High := if tfc_High f <? tfc_High c then tfc_High c else tfc_High f;
  tfc_Low := if tfc_Low c <? tfc_Low f then tfc_Low c else tfc_Low f; tfc_Close := tfc_Close c;
  tfc_Volume := tfc_Volume f; tfc_Count := tfc_Count f; tfc_Forming := tfc_Forming f |}.

Definition new_bar (tf : Z) (start : Time) (c : TFCandle) : TFCandle := {|
  tfc_Token := tfc_Token c; tfc_Exchange := tfc_Exchange c; tfc_TF := tf; tfc_TS := start; tfc_Open := tfc_Open c;
  tfc_High := tfc_High c; tfc_Low := tfc_Low c; tfc_Close := tfc_Close c; tfc_Volume := 0; tfc_Count := 0; tfc_Forming := false |}.

Definition bar_start (tf : Z) (c : TFCandle) : Time := t_of_unix (TFBucket (t_unix (tfc_TS c)) tf).

(** One timeframe's bar: a bar of an earlier bucket goes to the book. *)
Definition replay_htf (c : TFCandle) (tf : Z) (p : PreRejectReplay) : PreRejectReplay :=
  let start := bar_start tf c in
  let '(f, book) :=
    match pp_agg p !! tf with
    | Some f => if tfc_TS f =? start then (f, pp_book p) else (new_bar tf start c, OnHTFCandle f (pp_book p))
    | None => (new_bar tf start c, pp_book p)
    end in
  p <| pp_book := book |> <| pp_agg := <[tf := grow_bar c f]> (pp_agg p) |>.

(** [OnBar]. *)
Definition replay_OnBar (c : TFCandle) (p : PreRejectReplay) : PreRejectReplay :=
  let p := p <| pp_book := book_candle c (pp_book p) |> in
  let p := foldl (λ p tf, replay_htf c tf p) p replay_TFs in
  let bars := pp_bars p ++ [c] in
  let p := p <| pp_bars := drop (length bars - Z.to_nat (exitATRPeriod + 1)) bars |> in
  if pp_open p then p <| pp_prevClose := c |> else p.

(** [Open] and [Close]. *)
Definition replay_Open (side : string) (entry targetMove : Z) (p : PreRejectReplay) : PreRejectReplay :=
  p <| pp_open := 0 <? targetMove |> <| pp_r := zero_preReject |> <| pp_prevClose := zero_TFCandle |> <| pp_entry := entry |>
    <| pp_targetMove := targetMove |> <| pp_sign := if String.eqb side "PUT" then -1 else 1 |>.
Definition replay_Close (p : PreRejectReplay) : PreRejectReplay := p <| pp_open := false |>.

(** The four prices of a bar, with their times in it. *)
Definition bar_path (c : TFCandle) : list (Z * Duration) :=
  let '(near, far) := if tfc_Open c <=? tfc_Close c then (tfc_Low c, tfc_High c) else (tfc_High c, tfc_Low c) in
  [(tfc_Open c, 0); (near, 15 * Second); (far, 30 * Second); (tfc_Close c, 59 * Second)].

Definition step_in (c : TFCandle) (levels : list Level) (atr price off : Z) (p : PreRejectReplay) : preRejectIn :=
  let closed := if off =? 59 * Second then c else pp_prevClose p in
  {| pi_levels := levels; pi_price := price; pi_move := (price -! pp_entry p) *! pp_sign p; pi_entry := pp_entry p;
     pi_sign := pp_sign p; pi_targetMove := pp_targetMove p; pi_tol := levelTolFor (pp_m p) atr;
     pi_rej := rejectPtsFor (pp_m p) atr; pi_breakN := wm_breakN (pp_m p); pi_adx := lb_adx (pp_book p);
     pi_close := tfc_Close closed; pi_closeTS := tfc_TS closed; pi_now := t_add (tfc_TS c) off; pi_m := pp_m p |}.

Fixpoint walk (c : TFCandle) (levels : list Level) (atr : Z) (path : list (Z * Duration)) (p : PreRejectReplay) :
    option string * PreRejectReplay :=
  match path with
  | [] => (None, p)
  | (price, off) :: path =>
      if pp_targetMove p <=? (price -! pp_entry p) *! pp_sign p then (None, p <| pp_open := false |>)
      else
        let '(exit, r) := preReject_step (step_in c levels atr price off p) (pp_r p) in
        let p := p <| pp_r := r |> in
        match exit with
        | Some text => (Some text, p <| pp_open := false |>)
        | None => walk c levels atr path p
        end
  end.

Section replay.
Context `{SS : SliceSort}.

(** [Step]. *)
Definition replay_Step (wall : Time) (c : TFCandle) (p : PreRejectReplay) : option string * PreRejectReplay :=
  if negb (pp_open p) then (None, p)
  else
    let atr := default 0 (computeATR (pp_bars p)) in
    let '(levels, book) := Levels wall (pp_book p) in
    walk c levels atr (bar_path c) (p <| pp_book := book |>).
End replay.

(** ** At most one rejection per trade *)

Inductive replay_op :=
  | ReplayBar (c : TFCandle) | ReplayStep (wall : Time) (c : TFCandle)
  | ReplayOpen (side : string) (entry targetMove : Z) | ReplayClose.

Section replay_runs.
Context `{SS : SliceSort}.

Definition replay_do (o : replay_op) (p : PreRejectReplay) : option string * PreRejectReplay :=
  match o with
  | ReplayBar c => (None, replay_OnBar c p)
  | ReplayStep wall c => replay_Step wall c p
  | ReplayOpen side entry move => (None, replay_Open side entry move p)
  | ReplayClose => (None, replay_Close p)
  end.

Fixpoint replay_run (ops : list replay_op) (p : PreRejectReplay) : list string :=
  match ops with
  | [] => []
  | o :: ops => let '(exit, p) := replay_do o p in option_list exit ++ replay_run ops p
  end.

Definition opens_trade (o : replay_op) : bool := match o with ReplayOpen _ _ _ => true | _ => false end.

Lemma walk_open c levels atr path : ∀ p,
  pp_open p = true → (∃ text, (walk c levels atr path p).1 = Some text) → pp_open (walk c levels atr path p).2 = false.
Proof.
  induction path as [|[price off] path IH]; intros p Hp [text Hw]; [done|]. cbn [walk] in *.
  destruct (_ <=? _); [done|]. destruct (preReject_step _ _) as [[x|] r]; [done|]. apply IH; [done|by exists text].
Qed.

Lemma OnBar_open c p : pp_open (replay_OnBar c p) = pp_open p.
Proof.
  unfold replay_OnBar. set (p1 := p <| pp_book := _ |>). set (p2 := foldl _ _ _).
  assert (pp_open p2 = pp_open p) as <-.
  { unfold p2, replay_TFs. cbn [foldl]. unfold replay_htf. repeat (case_match; try done). }
  clearbody p2. cbn. by destruct (pp_open p2) eqn:E.
Qed.

(** What a step says: a rejection while open, never open after. *)
Lemma replay_do_spec o p :
  let '(exit, p') := replay_do o p in
  (length (option_list exit) + Nat.b2n (pp_open p') <= Nat.b2n (opens_trade o) + Nat.b2n (pp_open p))%nat.
Proof.
  destruct o as [c|wall c|side entry move|]; cbn [replay_do opens_trade].
  - rewrite OnBar_open. cbn. lia.
  - unfold replay_Step. destruct (pp_open p) eqn:Hp; cbn [negb]; [|cbn; by rewrite Hp].
    destruct (Levels wall (pp_book p)) as [levels book].
    match goal with |- context [walk ?c ?ls ?atr ?path ?p1] =>
      pose proof (walk_open c ls atr path p1 Hp) as Hw; destruct (walk c ls atr path p1) as [[text|] p'] end.
    + specialize (Hw (ex_intro _ text eq_refl)). cbn [fst snd] in Hw. rewrite Hw. cbn. lia.
    + destruct (pp_open p'); cbn; lia.
  - cbn. destruct (_ <? _), (pp_open p); cbn; lia.
  - cbn. lia.
Qed.

(** A run gives at most one rejection per trade opened. *)
Theorem replay_rejects_once ops : ∀ p,
  (length (replay_run ops p) <= length (filter (λ o, opens_trade o = true) ops) + Nat.b2n (pp_open p))%nat.
Proof.
  induction ops as [|o ops IH]; intros p; [cbn; lia|]. cbn [replay_run]. pose proof (replay_do_spec o p) as Hs.
  destruct (replay_do o p) as [exit p']. rewrite length_app, filter_cons. specialize (IH p').
  destruct (opens_trade o); [rewrite decide_True by done|rewrite decide_False by done]; cbn in *; lia.
Qed.
End replay_runs.
