(* ===== verification/TgSignal.v ===== *)
(** Telegram calls: the messages (internal/model/tgsignal.go, tgfollowup.go)
    and the strategy that trades them (internal/strategy/telegram_signal.go):
    it waits for a call's trigger or its caller's "Active", buys, and follows
    the trade with the call's stop, a ladder of the caller's targets and the
    caller's replies.

    The mutex is held for a whole method, so a method is one step.  What the
    two callbacks are told is part of a method's result, in order; a callback
    that is not set hears nothing.  [wall] is [time.Now()]. *)
From S2P Require Import Prelude GoText Model.
#[local] Open Scope Z_scope.
#[local] Open Scope go_scope.

(** ** Calls *)

Record TGSignal := {
  tg_ChatID : Z; tg_MsgID : Z; tg_Underlying : string; tg_Strike : Z; tg_OptionType : string; tg_TriggerPaise : Z; tg_SLPaise : Z;
  tg_SLDefault : bool; tg_Targets : list Z; tg_Text : string; tg_ReceivedAt : Time; tg_SentAt : Time; tg_ReadMS : Z;
  tg_PublishedAt : Time; tg_Edited : bool; tg_Source : string }.

#[export] Instance TGSignal_settable : Settable TGSignal := λ c, {|
  tg_ChatID := tg_ChatID c; tg_MsgID := tg_MsgID c; tg_Underlying := tg_Underlying c; tg_Strike := tg_Strike c;
  tg_OptionType := tg_OptionType c; tg_TriggerPaise := tg_TriggerPaise c; tg_SLPaise := tg_SLPaise c;
  tg_SLDefault := tg_SLDefault c; tg_Targets := tg_Targets c; tg_Text := tg_Text c; tg_ReceivedAt := tg_ReceivedAt c;
  tg_SentAt := tg_SentAt c; tg_ReadMS := tg_ReadMS c; tg_PublishedAt := tg_PublishedAt c; tg_Edited := tg_Edited c;
  tg_Source := tg_Source c |}.

Definition TGMsgKey (chatID msgID : Z) : string := format_int chatID +:+ ":" +:+ format_int msgID.
Definition call_Key (c : TGSignal) : string := TGMsgKey (tg_ChatID c) (tg_MsgID c).
Definition call_Side (c : TGSignal) : PositionSide := if String.eqb (tg_OptionType c) "PE" then SidePut else SideCall.

(** The error, if any. *)
Definition call_Validate (c : TGSignal) : option string :=
  if String.eqb (tg_Underlying c) "" then Some "no underlying"
  else if tg_Strike c <=? 0 then Some "no strike"
  else if negb (String.eqb (tg_OptionType c) "CE") && negb (String.eqb (tg_OptionType c) "PE") then
    Some ("option type " +:+ format_q (tg_OptionType c))
  else if tg_TriggerPaise c <=? 0 then Some "no entry price"
  else if tg_SLPaise c <=? 0 then Some "no stop loss"
  else if tg_TriggerPaise c <=? tg_SLPaise c then
    Some ("stop " +:+ format_int (tg_SLPaise c) +:+ " not below entry " +:+ format_int (tg_TriggerPaise c))
  else match tg_Targets c with
       | t :: _ => if t <=? tg_TriggerPaise c
                   then Some ("target " +:+ format_int t +:+ " not above entry " +:+ format_int (tg_TriggerPaise c)) else None
       | [] => None
       end.

Definition TGFollowUpAction := string.
Definition TGExit : TGFollowUpAction := "exit".
Definition TGSLHit : TGFollowUpAction := "sl_hit".
Definition TGTargetHit : TGFollowUpAction := "target_hit".
Definition TGMoveSL : TGFollowUpAction := "move_sl".
Definition TGCancel : TGFollowUpAction := "cancel".
Definition TGActivate : TGFollowUpAction := "activate".

Record TGFollowUp := {
  fu_ChatID : Z; fu_MsgID : Z; fu_ReplyToMsgID : Z; fu_Action : TGFollowUpAction; fu_NewSLPaise : Z; fu_Strike : Z;
  fu_OptionType : string; fu_Text : string; fu_ReceivedAt : Time }.

Definition CallKey (f : TGFollowUp) : string :=
  if fu_ReplyToMsgID f =? 0 then "" else TGMsgKey (fu_ChatID f) (fu_ReplyToMsgID f).
Definition followup_Key (f : TGFollowUp) : string := TGMsgKey (fu_ChatID f) (fu_MsgID f).
Definition followup_Validate (f : TGFollowUp) : option string :=
  if existsb (String.eqb (fu_Action f)) [TGExit; TGSLHit; TGTargetHit; TGCancel; TGActivate] then None
  else if String.eqb (fu_Action f) TGMoveSL then (if fu_NewSLPaise f <=? 0 then Some "move_sl without a stop" else None)
  else Some ("action " +:+ format_q (fu_Action f)).

(** ** The strategy's state *)

Definition TelegramSignalName : string := "TELEGRAM_SIGNAL".
Definition TelegramChannelPrefix : string := "TG_".
Definition IsTelegramStrategy (name : string) : bool :=
  String.eqb name TelegramSignalName || has_prefix TelegramChannelPrefix name.

Record TelegramSignalConfig := {
  tc_TargetPct : Z; tc_MaxChasePct : Z; tc_MaxPriceGapPct : Z; tc_ArmFor : Duration; tc_LadderTrailPct : Z; tc_WaitActive : bool }.

#[export] Instance TelegramSignalConfig_settable : Settable TelegramSignalConfig := λ c, {|
  tc_TargetPct := tc_TargetPct c; tc_MaxChasePct := tc_MaxChasePct c; tc_MaxPriceGapPct := tc_MaxPriceGapPct c;
  tc_ArmFor := tc_ArmFor c; tc_LadderTrailPct := tc_LadderTrailPct c; tc_WaitActive := tc_WaitActive c |}.

Record TGArm := {
  ta_Call : TGSignal; ta_IndexToken : string; ta_IndexExchange : string; ta_FNOExchange : string; ta_FNOToken : string;
  ta_FNOSymbol : string; ta_Qty : Z; ta_ArmedAt : Time; ta_Active : bool; ta_Last : Z; ta_AboveSL : bool; ta_Seen : bool;
  ta_Ticked : bool }.

#[export] Instance TGArm_settable : Settable TGArm := λ a, {|
  ta_Call := ta_Call a; ta_IndexToken := ta_IndexToken a; ta_IndexExchange := ta_IndexExchange a;
  ta_FNOExchange := ta_FNOExchange a; ta_FNOToken := ta_FNOToken a; ta_FNOSymbol := ta_FNOSymbol a; ta_Qty := ta_Qty a;
  ta_ArmedAt := ta_ArmedAt a; ta_Active := ta_Active a; ta_Last := ta_Last a; ta_AboveSL := ta_AboveSL a; ta_Seen := ta_Seen a;
  ta_Ticked := ta_Ticked a |}.

Definition arm_key (a : TGArm) : string := ta_FNOExchange a +:+ ":" +:+ ta_FNOToken a.

Record TGPosition := {
  tp_Arm : TGArm; tp_Entry : Z; tp_SL : Z; tp_Target : Z; tp_Last : Z; tp_Best : Z; tp_Targets : list Z; tp_EnteredTS : Time;
  tp_ManualSL : bool }.

#[export] Instance TGPosition_settable : Settable TGPosition := λ p, {|
  tp_Arm := tp_Arm p; tp_Entry := tp_Entry p; tp_SL := tp_SL p; tp_Target := tp_Target p; tp_Last := tp_Last p;
  tp_Best := tp_Best p; tp_Targets := tp_Targets p; tp_EnteredTS := tp_EnteredTS p; tp_ManualSL := tp_ManualSL p |}.

Definition TGArmed : string := "ARMED".
Definition TGReplaced : string := "REPLACED".
Definition TGSLRaised : string := "SL_RAISED".
Definition TGEditIgnored : string := "EDIT_IGNORED".
Definition TGLevelsSet : string := "LEVELS_SET".
Definition TGFirstTick : string := "FIRST_TICK".

Record TelegramSignal := {
  ts_name : string; ts_qty : Z; ts_cfg : TelegramSignalConfig; ts_arms : list TGArm; ts_pos : option TGPosition }.

#[export] Instance TelegramSignal_settable : Settable TelegramSignal := λ s, {|
  ts_name := ts_name s; ts_qty := ts_qty s; ts_cfg := ts_cfg s; ts_arms := ts_arms s; ts_pos := ts_pos s |}.

Definition NewTelegramSignal (name : string) (qty : Z) (cfg : TelegramSignalConfig) : TelegramSignal := {|
  ts_name := if String.eqb name "" then TelegramSignalName else name; ts_qty := qty;
  ts_cfg := if tc_ArmFor cfg <=? 0 then cfg <| tc_ArmFor := 30 * Minute |> else cfg; ts_arms := []; ts_pos := None |}.

(** What the callbacks are told. *)
Inductive tg_note :=
  | OnEvent (callKey event detail : string)
  | OnDrop (a : TGArm) (reason : string).

Definition note_event (c : TGSignal) (event detail : string) : list tg_note := [OnEvent (call_Key c) event detail].
Definition note_drop (reason : string) (a : TGArm) : list tg_note := note_event (ta_Call a) "DROPPED" reason ++ [OnDrop a reason].

Definition qtyOf (s : TelegramSignal) (a : TGArm) : Z := if 0 <? ta_Qty a then ta_Qty a else ts_qty s.

Definition set_arm (i : nat) (f : TGArm → TGArm) (s : TelegramSignal) : TelegramSignal :=
  s <| ts_arms := alter f i (ts_arms s) |>.
Definition remove_arm (i : nat) (s : TelegramSignal) : TelegramSignal := s <| ts_arms := delete i (ts_arms s) |>.

(** ** Entering and leaving *)

Definition fmt_kv (k : string) (v : Z) : string := k +:+ "=" +:+ format_int v.

Definition enter (a : TGArm) (price : Z) (now : Time) (s : TelegramSignal) : Signal * list tg_note * TelegramSignal :=
  let c := ta_Call a in
  let target := if 0 <? tc_TargetPct (ts_cfg s) then price *! (100 +! tc_TargetPct (ts_cfg s)) /! 100 else 0 in
  let p := {| tp_Arm := a; tp_Entry := price; tp_SL := tg_SLPaise c; tp_Target := target; tp_Last := price; tp_Best := price;
              tp_Targets := tg_Targets c; tp_EnteredTS := now; tp_ManualSL := false |} in
  let levels := fmt_kv "premium" price +:+ " " +:+ fmt_kv "sl" (tp_SL p) +:+ " " +:+ fmt_kv "target" target in
  (zero_Signal <| sig_StrategyName := ts_name s |> <| sig_Action := ActionBuy |> <| sig_Side := call_Side c |>
     <| sig_Token := ta_IndexToken a |> <| sig_Exchange := ta_IndexExchange a |> <| sig_Qty := qtyOf s a |>
     <| sig_Price := price |> <| sig_FNOToken := ta_FNOToken a |> <| sig_FNOSymbol := ta_FNOSymbol a |>
     <| sig_Strike := tg_Strike c |>
     <| sig_Reason := "TG ENTRY " +:+ tg_Underlying c +:+ " " +:+ format_int (tg_Strike c) +:+ tg_OptionType c +:+ " " +:+
          fmt_kv "trigger" (tg_TriggerPaise c) +:+ " " +:+ levels +:+ " msg=" +:+ call_Key c +:+ " src=" +:+ tg_Source c |>
     <| sig_SignalTS := now |>,
   note_event c "ENTERED" (ta_FNOSymbol a +:+ " " +:+ levels),
   s <| ts_pos := Some p |> <| ts_arms := [] |>).

(** [exit], of the open trade. *)
Definition tg_exit (reason : string) (p : TGPosition) (s : TelegramSignal) : Signal * TelegramSignal :=
  let a := tp_Arm p in
  (zero_Signal <| sig_StrategyName := ts_name s |> <| sig_Action := ActionExit |> <| sig_Side := call_Side (ta_Call a) |>
     <| sig_Token := ta_IndexToken a |> <| sig_Exchange := ta_IndexExchange a |> <| sig_Qty := qtyOf s a |>
     <| sig_EntryFNOPrice := tp_Entry p |> <| sig_FNOToken := ta_FNOToken a |> <| sig_FNOSymbol := ta_FNOSymbol a |>
     <| sig_Reason := reason |>,
   s <| ts_pos := None |>).

(** An exit with its event. *)
Definition exit_reported (reason : string) (p : TGPosition) (s : TelegramSignal) : Signal * list tg_note * TelegramSignal :=
  let '(sig, s) := tg_exit reason p s in (sig, note_event (ta_Call (tp_Arm p)) "EXIT" reason, s).

(** The result text, the error, the events. *)
Definition raiseSL (p : TGPosition) (sl : Z) (why : string) (s : TelegramSignal) :
    string * option string * list tg_note * TelegramSignal :=
  if sl <=? tp_SL p then
    (TGEditIgnored, Some (why +:+ ": stop " +:+ format_int sl +:+ " not above current " +:+ format_int (tp_SL p)), [], s)
  else if (0 <? tp_Last p) && (tp_Last p <=? sl) then
    (TGEditIgnored, Some (why +:+ ": stop " +:+ format_int sl +:+ " not below premium " +:+ format_int (tp_Last p)), [], s)
  else
    (TGSLRaised, None,
     note_event (ta_Call (tp_Arm p)) TGSLRaised
       (why +:+ ": stop " +:+ format_int (tp_SL p) +:+ " → " +:+ format_int sl),
     s <| ts_pos := Some (p <| tp_SL := sl |> <| tp_ManualSL := false |>) |>).

(** [Arm]. *)
Definition tg_Arm (a : TGArm) (s : TelegramSignal) : string * option string * list tg_note * TelegramSignal :=
  match call_Validate (ta_Call a) with
  | Some err => ("", Some err, [], s)
  | None =>
      if String.eqb (ta_FNOToken a) "" || String.eqb (ta_FNOExchange a) "" then ("", Some "no contract", [], s)
      else
        match ts_pos s with
        | Some p =>
            if tg_Edited (ta_Call a) && String.eqb (call_Key (ta_Call (tp_Arm p))) (call_Key (ta_Call a))
            then raiseSL p (tg_SLPaise (ta_Call a)) "edited call" s
            else ("", Some ("position open in " +:+ ta_FNOSymbol (tp_Arm p)), [], s)
        | None =>
            match list_find (λ b, call_Key (ta_Call b) = call_Key (ta_Call a) ∨ arm_key b = arm_key a) (ts_arms s) with
            | Some (i, _) => (TGReplaced, None, [], set_arm i (λ _, a) s)
            | None => (TGArmed, None, [], s <| ts_arms := ts_arms s ++ [a] |>)
            end
        end
  end.

(** ** Ticks *)

Definition gapPct (price ref : Z) : Z :=
  let d := price -! ref in let d := if d <? 0 then -! d else d in d *! 100 /! ref.

(** The rungs reached: at the first target the entry, at a later one the
    target before.  [i] is the number of targets before. *)
Fixpoint ladder_rungs (best entry : Z) (i : Z) (prev : option Z) (targets : list Z) (acc : Z * string) : Z * string :=
  match targets with
  | [] => acc
  | t :: targets =>
      if best <? t then acc
      else
        ladder_rungs best entry (i + 1) (Some t) targets
          match prev with
          | None => (entry, "T1 " +:+ format_int t +:+ " reached: cost")
          | Some prev => (prev, "T" +:+ format_int (i + 1) +:+ " " +:+ format_int t +:+ " reached: stop to T" +:+ format_int i)
          end
  end.

Definition ladderStop (p : TGPosition) (s : TelegramSignal) : Z * string :=
  let trail := tc_LadderTrailPct (ts_cfg s) in
  if trail <=? 0 then (0, "")
  else
    let targets := match tp_Targets p with [] => [tp_Entry p *! (100 +! trail) /! 100] | ts => ts end in
    let best := tp_Best p in
    let '(stop, rung) := ladder_rungs best (tp_Entry p) 0 None targets (0, "") in
    if default 0 (last targets) <=? best then
      let t := best *! (100 -! trail) /! 100 in
      if stop <? t then (t, "past last target, trail " +:+ format_int trail +:+ "% below best " +:+ format_int best)
      else (stop, rung)
    else (stop, rung).

(** The held trade's premium and, at a new best, its ladder. *)
Definition ladder_step (price : Z) (p : TGPosition) (s : TelegramSignal) : TGPosition * list tg_note :=
  let p := p <| tp_Last := price |> in
  if tp_Best p <? price then
    let p := p <| tp_Best := price |> in
    let '(stop, rung) := ladderStop p s in
    if (tp_SL p <? stop) && (stop <? price) then
      (p <| tp_SL := stop |> <| tp_ManualSL := false |>,
       note_event (ta_Call (tp_Arm p)) TGSLRaised
         (rung +:+ " → stop " +:+ format_int stop +:+ " (was " +:+ format_int (tp_SL p) +:+ ")"))
    else (p, [])
  else (p, []).

Definition exit_reason (price : Z) (p : TGPosition) : option string :=
  let stopped := fmt_kv "premium" price +:+ " " +:+ fmt_kv "stop" (tp_SL p) +:+ " " +:+ fmt_kv "entry" (tp_Entry p) +:+ " " +:+
                 fmt_kv "best" (tp_Best p) in
  if (price <=? tp_SL p) && tp_ManualSL p then Some ("TG MANUAL STOP " +:+ stopped)
  else if (price <=? tp_SL p) && (tg_SLPaise (ta_Call (tp_Arm p)) <? tp_SL p) then Some ("TG RAISED STOP " +:+ stopped)
  else if price <=? tp_SL p then
    Some ("TG SL " +:+ fmt_kv "premium" price +:+ " " +:+ fmt_kv "sl" (tp_SL p) +:+ " " +:+ fmt_kv "entry" (tp_Entry p))
  else if (0 <? tp_Target p) && (tp_Target p <=? price) then
    Some ("TG TARGET " +:+ fmt_kv "premium" price +:+ " " +:+ fmt_kv "target" (tp_Target p) +:+ " " +:+ fmt_kv "entry" (tp_Entry p))
  else None.

Definition tick_key (t : Tick) : string := tick_Exchange t +:+ ":" +:+ tick_Token t.

Definition held_tick (t : Tick) (p : TGPosition) (s : TelegramSignal) : option Signal * list tg_note * TelegramSignal :=
  if negb (String.eqb (tick_key t) (arm_key (tp_Arm p))) then (None, [], s)
  else
    let '(p, raised) := ladder_step (tick_Price t) p s in
    let s := s <| ts_pos := Some p |> in
    match exit_reason (tick_Price t) p with
    | None => (None, raised, s)
    | Some reason =>
        let '(sig, notes, s) := exit_reported reason p s in (Some sig, raised ++ notes, s)
    end.

Definition expired (now : Time) (s : TelegramSignal) (a : TGArm) : bool := tc_ArmFor (ts_cfg s) <? t_sub now (ta_ArmedAt a).

Definition expire (now : Time) (s : TelegramSignal) : list tg_note * TelegramSignal :=
  (concat ((λ a, note_drop ("expired: no entry " +:+ format_int (tg_TriggerPaise (ta_Call a)) +:+ " within " +:+
                              format_duration (tc_ArmFor (ts_cfg s))) a)
             <$> filter (λ a, expired now s a = true) (ts_arms s)),
   s <| ts_arms := filter (λ a, expired now s a = false) (ts_arms s) |>).

Definition past_chase (price : Z) (c : TGSignal) (s : TelegramSignal) : bool :=
  tg_TriggerPaise c *! (100 +! tc_MaxChasePct (ts_cfg s)) <? price *! 100.

Definition dropped (i : nat) (a : TGArm) (reason : string) (s : TelegramSignal) : option Signal * list tg_note * TelegramSignal :=
  (None, note_drop reason a, remove_arm i s).

Definition entered (a : TGArm) (price : Z) (now : Time) (s : TelegramSignal) : option Signal * list tg_note * TelegramSignal :=
  let '(sig, notes, s) := enter a price now s in (Some sig, notes, s).

(** An activated call at a price: bought, dropped, or still below a stop it
    was never above. *)
Definition tryActiveEntry (i : nat) (a : TGArm) (price : Z) (now : Time) (s : TelegramSignal) :
    option Signal * list tg_note * TelegramSignal :=
  let c := ta_Call a in
  if (price <=? tg_SLPaise c) && ta_AboveSL a then
    dropped i a ("premium " +:+ format_int price +:+ " at stop " +:+ format_int (tg_SLPaise c) +:+ " when Active") s
  else if price <=? tg_SLPaise c then (None, [], set_arm i (λ a, a <| ta_Seen := true |> <| ta_Last := price |>) s)
  else if past_chase price c s then
    dropped i a ("missed: premium " +:+ format_int price +:+ " more than " +:+ format_int (tc_MaxChasePct (ts_cfg s)) +:+
                 "% above entry " +:+ format_int (tg_TriggerPaise c) +:+ " when Active") s
  else entered a price now s.

Definition firstTickDetail (t : Tick) : string :=
  fmt_kv "premium" (tick_Price t) +:+
  (if negb (t_is_zero (tick_EventTS t)) && negb (t_is_zero (tick_TickTS t))
   then " feed lag " +:+ format_int (d_milliseconds (t_sub (tick_TickTS t) (tick_EventTS t))) +:+ "ms" else "").

(** A tick of the contract of the call waiting at [i]. *)
Definition arm_tick (t : Tick) (i : nat) (a : TGArm) (s : TelegramSignal) : option Signal * list tg_note * TelegramSignal :=
  let price := tick_Price t in
  let cfg := ts_cfg s in
  let c := ta_Call a in
  if negb (ta_Seen a) && (0 <? tc_MaxPriceGapPct cfg) && (tc_MaxPriceGapPct cfg <? gapPct price (tg_TriggerPaise c)) then
    dropped i a ("premium " +:+ format_int price +:+ " is more than " +:+ format_int (tc_MaxPriceGapPct cfg) +:+ "% from entry " +:+
                 format_int (tg_TriggerPaise c) +:+ " — call misread or wrong contract") s
  else if tc_WaitActive cfg && ta_Active a then tryActiveEntry i a price (CanonicalTS t) s
  else if (price <=? tg_SLPaise c) && ta_AboveSL a then
    dropped i a ("premium " +:+ format_int price +:+ " hit stop " +:+ format_int (tg_SLPaise c) +:+ " before entry " +:+
                 format_int (tg_TriggerPaise c)) s
  else if (price <=? tg_SLPaise c) || (price <? tg_TriggerPaise c) || tc_WaitActive cfg then
    (None, [], set_arm i (λ a, a <| ta_Seen := true |> <| ta_Last := price |>
                                 <| ta_AboveSL := (tg_SLPaise c <? price) || ta_AboveSL a |>) s)
  else if past_chase price c s then
    dropped i a ("missed: premium " +:+ format_int price +:+ " more than " +:+ format_int (tc_MaxChasePct cfg) +:+ "% above entry " +:+
                 format_int (tg_TriggerPaise c)) s
  else entered a price (CanonicalTS t) s.

(** [OnTick]. *)
Definition tg_OnTick (t : Tick) (s : TelegramSignal) : option Signal * list tg_note * TelegramSignal :=
  if tick_Price t <=? 0 then (None, [], s)
  else
    match ts_pos s with
    | Some p => held_tick t p s
    | None =>
        let '(gone, s) := expire (CanonicalTS t) s in
        match list_find (λ a, arm_key a = tick_key t) (ts_arms s) with
        | None => (None, gone, s)
        | Some (i, a) =>
            let first := if ta_Ticked a then [] else note_event (ta_Call a) TGFirstTick (firstTickDetail t) in
            let a := a <| ta_Ticked := true |> in
            let '(sig, notes, s) := arm_tick t i a (set_arm i (λ _, a) s) in
            (sig, gone ++ first ++ notes, s)
        end
    end.

(** [OnTFCandle]: candles are ignored. *)
Definition tg_OnTFCandle (c : TFCandle) (s : TelegramSignal) : option Signal := None.

(** ** The caller's messages *)

(** Held, or the index of a waiting call; or the error. *)
Inductive tg_link := LinkHeld (p : TGPosition) | LinkArm (i : nat) (a : TGArm) | Unlinked (err : string).

Definition strike_text (strike : Z) (opt : string) : string := format_int strike +:+ opt.

Definition names_call (f : TGFollowUp) (c : TGSignal) : bool :=
  negb ((fu_Strike f =? 0) || negb (fu_Strike f =? tg_Strike c) ||
        (negb (String.eqb (fu_OptionType f) "") && negb (String.eqb (fu_OptionType f) (tg_OptionType c)))).

Definition linkFollowUp (f : TGFollowUp) (s : TelegramSignal) : tg_link :=
  let key := CallKey f in
  if negb (String.eqb key "") then
    match (match ts_pos s with Some p => if String.eqb (call_Key (ta_Call (tp_Arm p))) key then Some p else None | None => None end) with
    | Some p => LinkHeld p
    | None =>
        match list_find (λ a, call_Key (ta_Call a) = key) (ts_arms s) with
        | Some (i, a) => LinkArm i a
        | None => Unlinked ("UNLINKED: reply to " +:+ key +:+ ", which is neither held nor waiting")
        end
    end
  else
    let unnamed c := Unlinked ("UNLINKED: not a reply and names " +:+ strike_text (fu_Strike f) (fu_OptionType f) +:+
                               ", open call is " +:+ strike_text (tg_Strike c) (tg_OptionType c)) in
    let many n := Unlinked ("UNLINKED: not a reply and " +:+ format_int n +:+ " calls open") in
    match ts_pos s, ts_arms s with
    | Some p, [] => if names_call f (ta_Call (tp_Arm p)) then LinkHeld p else unnamed (ta_Call (tp_Arm p))
    | None, [a] => if names_call f (ta_Call a) then LinkArm 0 a else unnamed (ta_Call a)
    | Some _, arms => many (Z.of_nat (length arms) + 1)
    | None, arms => many (Z.of_nat (length arms))
    end.

(** A follow-up's answer: the signal, the result, the error. *)
Record tg_answer := { an_sig : option Signal; an_result : string; an_err : option string }.
Definition refused (err : string) : tg_answer := {| an_sig := None; an_result := ""; an_err := Some err |}.
Definition did (result : string) : tg_answer := {| an_sig := None; an_result := result; an_err := None |}.

(** [activate], of a waiting call. *)
Definition activate (wall : Time) (f : TGFollowUp) (i : nat) (a : TGArm) (s : TelegramSignal) : tg_answer * list tg_note * TelegramSignal :=
  let a := a <| ta_Active := true |> in
  let s := set_arm i (λ _, a) s in
  let told := note_event (ta_Call a) "ACTIVE" ("caller " +:+ followup_Key f) in
  if ta_Last a <=? 0 then (did "ACTIVE", told, s)
  else
    let n := length (ts_arms s) in
    let '(sig, notes, s) := tryActiveEntry i a (ta_Last a) wall s in
    (match sig with
     | Some sig => {| an_sig := Some sig; an_result := "ENTERED"; an_err := None |}
     | None => if (length (ts_arms s) <? n)%nat then did "DROPPED" else did "ACTIVE"
     end, told ++ notes, s).

Definition caller_reason (f : TGFollowUp) : string :=
  "TG CALLER " +:+ to_upper (fu_Action f) +:+ " msg=" +:+ followup_Key f.

Definition followup_held (f : TGFollowUp) (p : TGPosition) (s : TelegramSignal) : tg_answer * list tg_note * TelegramSignal :=
  if String.eqb (fu_Action f) TGActivate then
    (refused (if tc_WaitActive (ts_cfg s) then "call already held" else ts_name s +:+ " buys on price, not on Active"), [], s)
  else if String.eqb (fu_Action f) TGMoveSL then
    let '(res, err, notes, s) := raiseSL p (fu_NewSLPaise f) ("caller " +:+ followup_Key f) s in
    ({| an_sig := None; an_result := res; an_err := err |}, notes, s)
  else
    let '(sig, notes, s) := exit_reported (caller_reason f) p s in
    ({| an_sig := Some sig; an_result := "EXIT"; an_err := None |}, notes, s).

Definition followup_waiting (wall : Time) (f : TGFollowUp) (i : nat) (a : TGArm) (s : TelegramSignal) :
    tg_answer * list tg_note * TelegramSignal :=
  let c := ta_Call a in
  if String.eqb (fu_Action f) TGActivate then
    if tc_WaitActive (ts_cfg s) then activate wall f i a s
    else (refused (ts_name s +:+ " buys on price, not on Active"), [], s)
  else if String.eqb (fu_Action f) TGMoveSL then
    if (fu_NewSLPaise f <=? tg_SLPaise c) || (tg_TriggerPaise c <=? fu_NewSLPaise f) then
      (refused ("stop " +:+ format_int (fu_NewSLPaise f) +:+ " not between current " +:+ format_int (tg_SLPaise c) +:+
                " and entry " +:+ format_int (tg_TriggerPaise c)), [], s)
    else
      (did TGSLRaised, note_event c TGSLRaised ("waiting call, caller " +:+ followup_Key f),
       set_arm i (λ a, a <| ta_Call := (ta_Call a) <| tg_SLPaise := fu_NewSLPaise f |> |>) s)
  else (did "DROPPED", note_drop (caller_reason f) a, remove_arm i s).

(** [FollowUp]. *)
Definition tg_FollowUp (wall : Time) (f : TGFollowUp) (s : TelegramSignal) : tg_answer * list tg_note * TelegramSignal :=
  match followup_Validate f with
  | Some err => (refused err, [], s)
  | None =>
      match linkFollowUp f s with
      | Unlinked err => (refused err, [], s)
      | LinkHeld p => followup_held f p s
      | LinkArm i a => followup_waiting wall f i a s
      end
  end.

(** ** Hand edits, refusals and exits from outside *)

(** The open trade, on this side. *)
Definition held_side (side : PositionSide) (s : TelegramSignal) : option TGPosition :=
  match ts_pos s with Some p => if String.eqb (call_Side (ta_Call (tp_Arm p))) side then Some p else None | None => None end.

(** Whether the trade is not in the contract named. *)
Definition tg_other_contract (fnoToken : string) (p : TGPosition) : bool :=
  let held := ta_FNOToken (tp_Arm p) in
  negb (String.eqb fnoToken "") && negb (String.eqb held fnoToken) && negb (has_suffix (":" +:+ held) fnoToken).

Definition check_premium_edit (e : LevelEdit) (p : TGPosition) : option string :=
  if (0 <? le_FNOSL e) || (0 <? le_FNOTarget e) then
    if tp_Last p <=? 0 then Some "no option price yet"
    else if (0 <? le_FNOSL e) && (tp_Last p <=? le_FNOSL e) then
      Some ("premium stop " +:+ format_int (le_FNOSL e) +:+ " is not below LTP " +:+ format_int (tp_Last p))
    else if (0 <? le_FNOTarget e) && (le_FNOTarget e <=? tp_Last p) then
      Some ("premium target " +:+ format_int (le_FNOTarget e) +:+ " is not above LTP " +:+ format_int (tp_Last p))
    else None
  else None.

Definition tg_SetLevels (side : PositionSide) (fnoToken : string) (e : LevelEdit) (s : TelegramSignal) :
    option string * list tg_note * TelegramSignal :=
  if negb (le_IndexStop e =? 0) || negb (le_IndexTarget e =? 0) || negb (le_IndexTrail e =? 0) then
    (Some (ts_name s +:+ " levels are option premiums, not index"), [], s)
  else
    match held_side side s with
    | None => (Some ("no open " +:+ ts_name s +:+ " " +:+ side +:+ " position"), [], s)
    | Some p =>
        if tg_other_contract fnoToken p then
          (Some ("position holds " +:+ ta_FNOToken (tp_Arm p) +:+ ", not " +:+ fnoToken), [], s)
        else
          match check_premium_edit e p with
          | Some err => (Some err, [], s)
          | None =>
              let p := if 0 <? le_FNOSL e then p <| tp_SL := le_FNOSL e |> <| tp_ManualSL := true |> else p in
              let p := p <| tp_Target := if 0 <? le_FNOTarget e then le_FNOTarget e
                                         else if le_FNOTarget e <? 0 then 0 else tp_Target p |> in
              (None,
               note_event (ta_Call (tp_Arm p)) TGLevelsSet
                 ("by hand: stop " +:+ format_int (tp_SL p) +:+ " target " +:+ format_int (tp_Target p)),
               s <| ts_pos := Some p |>)
          end
    end.

(** [Restore]: a trade saved before a restart. *)
Definition tg_Restore (p : TGPosition) (s : TelegramSignal) : TelegramSignal := s <| ts_pos := Some p |> <| ts_arms := [] |>.

Definition tg_CancelEntry (side : PositionSide) (reason : string) (s : TelegramSignal) : list tg_note * TelegramSignal :=
  match held_side side s with
  | Some p => (note_event (ta_Call (tp_Arm p)) "ENTRY_REFUSED" reason, s <| ts_pos := None |>)
  | None => ([], s)
  end.

Definition tg_ForceExitAll (reason : string) (s : TelegramSignal) : list Signal * list tg_note * TelegramSignal :=
  let drops := concat (note_drop reason <$> ts_arms s) in
  let s := s <| ts_arms := [] |> in
  match ts_pos s with
  | None => ([], drops, s)
  | Some p => let '(sig, notes, s) := exit_reported reason p s in ([sig], drops ++ notes, s)
  end.

Definition tg_ExitRequested (side : PositionSide) (fnoToken reason : string) (s : TelegramSignal) :
    option Signal * list tg_note * TelegramSignal :=
  match held_side side s with
  | None => (None, [], s)
  | Some p =>
      if tg_other_contract fnoToken p then (None, [], s)
      else let '(sig, notes, s) := exit_reported reason p s in (Some sig, notes, s)
  end.
