(* ===== verification/TgRuns.v ===== *)
(** What holds of the Telegram strategy over any run: its signals follow its
    position, it buys only what its calls and its configuration allow, and a
    held trade's stop only rises (hand edits apart) and is obeyed. *)
From S2P Require Import Prelude GoText Model TgSignal.
#[local] Open Scope Z_scope.
#[local] Open Scope go_scope.

Inductive tg_op :=
  | TArm (a : TGArm)
  | TTick (t : Tick)
  | TFollowUp (wall : Time) (f : TGFollowUp)
  | TLevels (side : PositionSide) (fnoToken : string) (e : LevelEdit)
  | TRestore (p : TGPosition)
  | TCancel (side : PositionSide) (reason : string)
  | TForceExit (reason : string)
  | TExit (side : PositionSide) (fnoToken reason : string).

(** The signals a method returns, and the state after it. *)
Definition tg_step (o : tg_op) (s : TelegramSignal) : list Signal * TelegramSignal :=
  match o with
  | TArm a => ([], (tg_Arm a s).2)
  | TTick t => let '(sig, _, s) := tg_OnTick t s in (option_list sig, s)
  | TFollowUp wall f => let '(an, _, s) := tg_FollowUp wall f s in (option_list (an_sig an), s)
  | TLevels side tok e => ([], (tg_SetLevels side tok e s).2)
  | TRestore p => ([], tg_Restore p s)
  | TCancel side reason => ([], (tg_CancelEntry side reason s).2)
  | TForceExit reason => let '(sigs, _, s) := tg_ForceExitAll reason s in (sigs, s)
  | TExit side tok reason => let '(sig, _, s) := tg_ExitRequested side tok reason s in (option_list sig, s)
  end.

(** ** What one step does to the position *)

(** The signals of a trade in [a]: for its contract, in its size. *)
Definition for_arm (s : TelegramSignal) (a : TGArm) (sig : Signal) : Prop :=
  sig_StrategyName sig = ts_name s ∧ sig_Side sig = call_Side (ta_Call a) ∧ sig_FNOToken sig = ta_FNOToken a ∧
  sig_FNOSymbol sig = ta_FNOSymbol a ∧ sig_Qty sig = qtyOf s a.

Definition opens (s : TelegramSignal) (p : TGPosition) (sig : Signal) : Prop :=
  sig_Action sig = ActionBuy ∧ for_arm s (tp_Arm p) sig ∧ sig_Price sig = tp_Entry p.
Definition closes (s : TelegramSignal) (p : TGPosition) (sig : Signal) : Prop :=
  sig_Action sig = ActionExit ∧ for_arm s (tp_Arm p) sig ∧ sig_EntryFNOPrice sig = tp_Entry p.

(** The same trade, later. *)
Definition same_trade (p p' : TGPosition) : Prop :=
  tp_Arm p' = tp_Arm p ∧ tp_Entry p' = tp_Entry p ∧ tp_EnteredTS p' = tp_EnteredTS p ∧ tp_Targets p' = tp_Targets p.

(** What no operation changes. *)
Definition same_strategy (s s' : TelegramSignal) : Prop := ts_name s' = ts_name s ∧ ts_qty s' = ts_qty s ∧ ts_cfg s' = ts_cfg s.

(** A step with no position: nothing, or a BUY. *)
Definition flat_step (s : TelegramSignal) (sigs : list Signal) (s' : TelegramSignal) : Prop :=
  same_strategy s s' ∧
  ((sigs = [] ∧ ts_pos s' = None) ∨ ∃ sig p, sigs = [sig] ∧ ts_pos s' = Some p ∧ opens s p sig).

(** A step that holds [p]: it is kept, or closed. *)
Definition held_step (s : TelegramSignal) (p : TGPosition) (sigs : list Signal) (s' : TelegramSignal) : Prop :=
  same_strategy s s' ∧
  ((sigs = [] ∧ ∃ p', ts_pos s' = Some p' ∧ same_trade p p' ∧ tp_SL p <= tp_SL p') ∨
   ∃ sig, sigs = [sig] ∧ ts_pos s' = None ∧ closes s p sig).

Lemma same_strategy_refl s : same_strategy s s.
Proof. done. Qed.

Lemma flat_quiet s s' : same_strategy s s' → ts_pos s' = None → flat_step s [] s'.
Proof. intros. split; [done|by left]. Qed.

Lemma held_quiet s p : ts_pos s = Some p → held_step s p [] s.
Proof. intros Hp. split; [done|]. left. split; [done|]. exists p. split; [done|]. split; [done|lia]. Qed.

Lemma exit_reported_closes s p reason : held_step s p [(exit_reported reason p s).1.1] (exit_reported reason p s).2.
Proof. split; [done|]. right. eexists. by repeat split. Qed.

Lemma entered_opens s a price now : flat_step s (option_list (entered a price now s).1.1) (entered a price now s).2.
Proof. split; [done|]. right. do 2 eexists. by repeat split. Qed.

Lemma raiseSL_held s p sl why : ts_pos s = Some p → held_step s p [] (raiseSL p sl why s).2.
Proof.
  intros Hp. unfold raiseSL. destruct (Z.leb_spec sl (tp_SL p)); [by apply held_quiet|].
  destruct (_ && _); [by apply held_quiet|]. split; [done|]. left. split; [done|]. eexists. split; [reflexivity|].
  split; [done|]. cbn. lia.
Qed.

(** ** Ticks *)

Lemma ladder_step_spec price p s :
  let p' := (ladder_step price p s).1 in
  same_trade p p' ∧ tp_SL p <= tp_SL p' ∧ tp_Last p' = price ∧ tp_Target p' = tp_Target p ∧
  (tp_SL p' ≠ tp_SL p → tp_SL p' < price) ∧ tp_Best p' = Z.max (tp_Best p) price.
Proof.
  unfold ladder_step. cbv zeta. change (tp_Best (p <| tp_Last := price |>)) with (tp_Best p). destruct (Z.ltb_spec (tp_Best p) price).
  - destruct (ladderStop _ s) as [stop rung]. destruct (_ && _) eqn:Hc; cbn; repeat split; try done; try lia.
    all: bool_prop; cbn in *; lia.
  - cbn. repeat split; try done; lia.
Qed.

Lemma held_tick_step t p s :
  ts_pos s = Some p → held_step s p (option_list (held_tick t p s).1.1) (held_tick t p s).2.
Proof.
  intros Hp. unfold held_tick. destruct (negb _); [by apply held_quiet|].
  destruct (ladder_step_spec (tick_Price t) p s) as (Hsame & Hsl & _). destruct (ladder_step (tick_Price t) p s) as [p' raised].
  cbn [fst] in Hsame, Hsl. destruct (exit_reason _ p') as [reason|]; cbn.
  - split; [done|]. right. eexists. split; [reflexivity|]. split; [done|]. destruct Hsame as (Ha & He & _).
    unfold closes, for_arm, qtyOf. cbn. by rewrite Ha, He.
  - split; [done|]. left. split; [done|]. by exists p'.
Qed.

(** A tick of the contract at or below the stop closes the trade. *)
Lemma held_tick_stops t p s :
  tick_key t = arm_key (tp_Arm p) → tick_Price t <= tp_SL p → ts_pos (held_tick t p s).2 = None.
Proof.
  intros Hk Hle. unfold held_tick. rewrite Hk, String.eqb_refl. cbn [negb].
  destruct (ladder_step_spec (tick_Price t) p s) as (_ & Hsl & _). destruct (ladder_step (tick_Price t) p s) as [p' raised].
  cbn [fst] in Hsl. unfold exit_reason. rewrite (proj2 (Z.leb_le _ _)) by lia.
  by destruct (tp_ManualSL p'); [|destruct (_ <? _)].
Qed.

(** A tick that does not close it leaves the stop below the price. *)
Lemma held_tick_above t p p' s :
  tick_key t = arm_key (tp_Arm p) → ts_pos (held_tick t p s).2 = Some p' → tp_SL p' < tick_Price t.
Proof.
  intros Hk. unfold held_tick. rewrite Hk, String.eqb_refl. cbn [negb].
  destruct (ladder_step (tick_Price t) p s) as [p1 raised]. destruct (exit_reason _ p1) eqn:Hx; [done|]. cbn. intros [= <-].
  revert Hx. unfold exit_reason. destruct (Z.leb_spec (tick_Price t) (tp_SL p1)); [|done].
  by destruct (tp_ManualSL p1); [|destruct (_ <? _)].
Qed.

Lemma held_tick_below_target t p p' s :
  tick_key t = arm_key (tp_Arm p) → ts_pos (held_tick t p s).2 = Some p' → 0 < tp_Target p' → tick_Price t < tp_Target p'.
Proof.
  intros Hk. unfold held_tick. rewrite Hk, String.eqb_refl. cbn [negb].
  destruct (ladder_step (tick_Price t) p s) as [p1 raised]. destruct (exit_reason _ p1) eqn:Hx; [done|]. cbn. intros [= <-].
  revert Hx. unfold exit_reason. destruct (_ <=? tp_SL p1); [by destruct (tp_ManualSL p1); [|destruct (_ <? _)]|].
  destruct (Z.ltb_spec 0 (tp_Target p1)); [|lia]. destruct (Z.leb_spec (tp_Target p1) (tick_Price t)); [done|lia].
Qed.

(** ** Every operation *)

Lemma tryActiveEntry_flat i a price now s :
  ts_pos s = None → flat_step s (option_list (tryActiveEntry i a price now s).1.1) (tryActiveEntry i a price now s).2.
Proof.
  intros Hp. unfold tryActiveEntry. do 3 (case_match; [by apply flat_quiet|]). apply entered_opens.
Qed.

Lemma arm_tick_flat t i a s :
  ts_pos s = None → flat_step s (option_list (arm_tick t i a s).1.1) (arm_tick t i a s).2.
Proof.
  intros Hp. unfold arm_tick. case_match; [by apply flat_quiet|].
  case_match; [by apply tryActiveEntry_flat|]. do 3 (case_match; [by apply flat_quiet|]). apply entered_opens.
Qed.

(** A step from a state that differs in the waiting calls only. *)
Lemma flat_step_from s s0 sigs s' : same_strategy s s0 → flat_step s0 sigs s' → flat_step s sigs s'.
Proof.
  intros (Hn & Hq & Hc) ((Hn' & Hq' & Hc') & H). split; [by repeat split; congruence|].
  destruct H as [?|(sig & p & -> & Hp & Ha & Harm & Hpr)]; [by left|]. right. exists sig, p. split; [done|]. split; [done|].
  split; [done|]. split; [|done]. destruct Harm as (? & ? & ? & ? & Hqty). unfold for_arm, qtyOf in *. by rewrite <-Hn, <-Hq.
Qed.

Lemma activate_flat wall f i a s :
  ts_pos s = None → flat_step s (option_list (an_sig (activate wall f i a s).1.1)) (activate wall f i a s).2.
Proof.
  intros Hp. unfold activate. case_match; [by apply flat_quiet|].
  assert (Hstep := tryActiveEntry_flat i (a <| ta_Active := true |>) (ta_Last (a <| ta_Active := true |>)) wall
                     (set_arm i (λ _, a <| ta_Active := true |>) s) Hp).
  destruct (tryActiveEntry _ _ _ _ _) as [[sig notes] s']. cbn in *.
  eapply flat_step_from in Hstep; [|by apply (same_strategy_refl s)].
  destruct sig; [done|]. by case_match.
Qed.

Lemma followup_waiting_flat wall f i a s :
  ts_pos s = None → flat_step s (option_list (an_sig (followup_waiting wall f i a s).1.1)) (followup_waiting wall f i a s).2.
Proof.
  intros Hp. unfold followup_waiting. case_match.
  - case_match; [by apply activate_flat|by apply flat_quiet].
  - case_match; [case_match|]; by apply flat_quiet.
Qed.

Lemma linkFollowUp_held f s p : linkFollowUp f s = LinkHeld p → ts_pos s = Some p.
Proof. unfold linkFollowUp. intros H. repeat (case_match; simplify_eq; try done). Qed.

Lemma linkFollowUp_arm f s i a : linkFollowUp f s = LinkArm i a → ts_arms s !! i = Some a.
Proof.
  unfold linkFollowUp. intros H. repeat (case_match; simplify_eq; try done).
  all: match goal with Hf : list_find _ _ = Some _ |- _ => by apply list_find_Some in Hf as (? & _) end.
Qed.

Definition restores (o : tg_op) : bool := match o with TRestore _ => true | _ => false end.

Lemma tg_Arm_flat a s : ts_pos s = None → flat_step s [] (tg_Arm a s).2.
Proof.
  intros Hp. unfold tg_Arm. case_match; [by apply flat_quiet|]. case_match; [by apply flat_quiet|]. rewrite Hp.
  case_match; [case_match|]; by apply flat_quiet.
Qed.

Lemma tg_Arm_held a s p : ts_pos s = Some p → held_step s p [] (tg_Arm a s).2.
Proof.
  intros Hp. unfold tg_Arm. case_match; [by apply held_quiet|]. case_match; [by apply held_quiet|]. rewrite Hp.
  case_match; [by apply raiseSL_held|by apply held_quiet].
Qed.

Lemma tg_OnTick_flat t s :
  ts_pos s = None → flat_step s (option_list (tg_OnTick t s).1.1) (tg_OnTick t s).2.
Proof.
  intros Hp. unfold tg_OnTick. case_match; [by apply flat_quiet|]. rewrite Hp. unfold expire.
  set (s0 := s <| ts_arms := _ |>). destruct (list_find _ _) as [[i a]|]; [|by apply flat_quiet].
  assert (Hstep := arm_tick_flat t i (a <| ta_Ticked := true |>) (set_arm i (λ _, a <| ta_Ticked := true |>) s0) Hp).
  destruct (arm_tick _ _ _ _) as [[sig notes] s']. eapply flat_step_from; [|exact Hstep]. done.
Qed.

Lemma tg_OnTick_held t s p :
  ts_pos s = Some p → held_step s p (option_list (tg_OnTick t s).1.1) (tg_OnTick t s).2.
Proof.
  intros Hp. unfold tg_OnTick. case_match; [by apply held_quiet|]. rewrite Hp. by apply held_tick_step.
Qed.

Lemma tg_FollowUp_flat wall f s :
  ts_pos s = None → flat_step s (option_list (an_sig (tg_FollowUp wall f s).1.1)) (tg_FollowUp wall f s).2.
Proof.
  intros Hp. unfold tg_FollowUp. case_match; [by apply flat_quiet|]. destruct (linkFollowUp f s) as [p|i a|err] eqn:Hl.
  - apply linkFollowUp_held in Hl. congruence.
  - by apply followup_waiting_flat.
  - by apply flat_quiet.
Qed.

(** ** The invariant *)

(** A call worth waiting for, on a known contract. *)
Definition arm_ok (a : TGArm) : Prop := call_Validate (ta_Call a) = None ∧ ta_FNOToken a ≠ "" ∧ ta_FNOExchange a ≠ "".

(** One trade at a time: nothing waits while one is open; what waits is a
    valid call; a call waits for a limited time. *)
Record tg_wf (s : TelegramSignal) : Prop := {
  wf_one : ts_pos s = None ∨ ts_arms s = [];
  wf_arms : Forall arm_ok (ts_arms s);
  wf_for : 0 < tc_ArmFor (ts_cfg s) }.

Lemma NewTelegramSignal_wf name qty cfg : tg_wf (NewTelegramSignal name qty cfg).
Proof. split; [by left|constructor|]. cbn. by destruct (Z.leb_spec (tc_ArmFor cfg) 0). Qed.

(** Waiting calls changed, at most, into valid ones; or a trade opened or
    closed. *)
Lemma wf_arms_changed s s' : tg_wf s → same_strategy s s' → ts_pos s' = None → Forall arm_ok (ts_arms s') → tg_wf s'.
Proof. intros [_ _ Hf] (_ & _ & Hc) Hp Ha. split; [by left|done|by rewrite Hc]. Qed.
Lemma wf_no_arms s s' : tg_wf s → same_strategy s s' → ts_arms s' = [] → tg_wf s'.
Proof. intros [_ _ Hf] (_ & _ & Hc) Ha. split; [by right|by rewrite Ha; constructor|by rewrite Hc]. Qed.

Lemma Forall_set_arm i f s :
  Forall arm_ok (ts_arms s) → (∀ a, ts_arms s !! i = Some a → arm_ok (f a)) → Forall arm_ok (ts_arms (set_arm i f s)).
Proof.
  intros Ha Hf. cbn. apply Forall_lookup. intros j b Hj. destruct (decide (j = i)) as [->|Hne].
  - rewrite list_lookup_alter_eq in Hj. apply fmap_Some in Hj as (a & Hi & ->). by apply Hf.
  - rewrite list_lookup_alter_ne in Hj by done. by eapply Forall_lookup_1.
Qed.

Lemma Forall_remove_arm i s : Forall arm_ok (ts_arms s) → Forall arm_ok (ts_arms (remove_arm i s)).
Proof. intros Ha. cbn. rewrite list.delete_take_drop. apply Forall_app. split; [by apply Forall_take|by apply Forall_drop]. Qed.

Lemma entered_wf a price now s : tg_wf s → tg_wf (entered a price now s).2.
Proof. intros Hw. by apply (wf_no_arms s). Qed.

Lemma dropped_wf i a reason s : tg_wf s → ts_pos s = None → tg_wf (dropped i a reason s).2.
Proof. intros Hw Hp. apply (wf_arms_changed s); [done..|]. apply Forall_remove_arm, Hw. Qed.

Lemma set_arm_wf i f s :
  tg_wf s → ts_pos s = None → (∀ a, ts_arms s !! i = Some a → arm_ok a → arm_ok (f a)) → tg_wf (set_arm i f s).
Proof.
  intros Hw Hp Hf. apply (wf_arms_changed s); [done..|]. apply Forall_set_arm; [apply Hw|]. intros a Hi.
  apply Hf; [done|]. eapply Forall_lookup_1; [apply Hw|done].
Qed.

(** A premium seen changes no call. *)
Lemma seen_ok a b : ta_Call b = ta_Call a → ta_FNOToken b = ta_FNOToken a → ta_FNOExchange b = ta_FNOExchange a → arm_ok a → arm_ok b.
Proof. unfold arm_ok. by intros -> -> ->. Qed.

Lemma tryActiveEntry_wf i a price now s : tg_wf s → ts_pos s = None → tg_wf (tryActiveEntry i a price now s).2.
Proof.
  intros Hw Hp. unfold tryActiveEntry. case_match; [by apply dropped_wf|].
  case_match; [apply set_arm_wf; [done..|]; intros b _; by apply seen_ok|].
  case_match; [by apply dropped_wf|by apply entered_wf].
Qed.

Lemma arm_tick_wf t i a s : tg_wf s → ts_pos s = None → tg_wf (arm_tick t i a s).2.
Proof.
  intros Hw Hp. unfold arm_tick. case_match; [by apply dropped_wf|]. case_match; [by apply tryActiveEntry_wf|].
  case_match; [by apply dropped_wf|].
  case_match; [apply set_arm_wf; [done..|]; intros b _; by apply seen_ok|].
  case_match; [by apply dropped_wf|by apply entered_wf].
Qed.

Lemma expire_wf now s : tg_wf s → ts_pos s = None → tg_wf (expire now s).2.
Proof.
  intros Hw Hp. apply (wf_arms_changed s); [done..|]. cbn [expire snd]. apply Forall_forall. intros a Ha.
  apply list_elem_of_filter in Ha as [_ Ha]. exact (proj1 (Forall_forall _ _) (wf_arms s Hw) a Ha).
Qed.

Lemma tg_Arm_wf a s : tg_wf s → tg_wf (tg_Arm a s).2.
Proof.
  intros Hw. unfold tg_Arm. destruct (call_Validate (ta_Call a)) eqn:Hv; [done|].
  destruct (_ || _) eqn:Hc; [done|]. apply orb_false_iff in Hc as [Ht%String.eqb_neq He%String.eqb_neq].
  assert (Ha : arm_ok a) by done.
  destruct (ts_pos s) as [p|] eqn:Hp.
  - case_match; [|done]. unfold raiseSL. do 2 (case_match; [done|]). apply (wf_no_arms s); [done..|].
    by destruct (wf_one s Hw); [congruence|].
  - case_match; [case_match; by apply set_arm_wf|]. apply (wf_arms_changed s); [done..|]. apply Forall_app.
    split; [apply Hw|by constructor].
Qed.

Lemma held_tick_wf t p s : tg_wf s → ts_pos s = Some p → tg_wf (held_tick t p s).2.
Proof.
  intros Hw Hp. assert (Ha : ts_arms s = []) by (by destruct (wf_one s Hw); [congruence|]). unfold held_tick.
  case_match; [done|]. destruct (ladder_step _ _ _) as [p' notes]. case_match; by apply (wf_no_arms s).
Qed.

Lemma tg_OnTick_wf t s : tg_wf s → tg_wf (tg_OnTick t s).2.
Proof.
  intros Hw. unfold tg_OnTick. case_match; [done|]. destruct (ts_pos s) as [p|] eqn:Hp; [by apply held_tick_wf|].
  assert (He := expire_wf (CanonicalTS t) s Hw Hp). assert (Hep : ts_pos (expire (CanonicalTS t) s).2 = None) by done.
  destruct (expire _ s) as [gone s0]. cbn [snd] in He, Hep. destruct (list_find _ _) as [[i a]|] eqn:Hf; [|done].
  apply list_find_Some in Hf as (Hi & _).
  assert (Hs := arm_tick_wf t i (a <| ta_Ticked := true |>) (set_arm i (λ _, a <| ta_Ticked := true |>) s0)).
  destruct (arm_tick _ _ _ _) as [[sig notes] s']. apply Hs; [|done]. apply set_arm_wf; [done..|]. intros b Hb. rewrite Hi in Hb. injection Hb as <-.
  by apply seen_ok.
Qed.

Lemma activate_wf wall f i a s : tg_wf s → ts_pos s = None → ts_arms s !! i = Some a → tg_wf (activate wall f i a s).2.
Proof.
  intros Hw Hp Hi. unfold activate. assert (Hs : tg_wf (set_arm i (λ _, a <| ta_Active := true |>) s)).
  { apply set_arm_wf; [done..|]. intros b Hb. rewrite Hi in Hb. injection Hb as <-. by apply seen_ok. }
  case_match; [done|]. assert (Ht := tryActiveEntry_wf i (a <| ta_Active := true |>) (ta_Last (a <| ta_Active := true |>)) wall _ Hs Hp).
  by destruct (tryActiveEntry _ _ _ _ _) as [[sig notes] s'].
Qed.

(** A waiting call's stop raised, still below its trigger. *)
Lemma moved_ok a sl :
  tg_SLPaise (ta_Call a) < sl < tg_TriggerPaise (ta_Call a) → arm_ok a →
  arm_ok (a <| ta_Call := (ta_Call a) <| tg_SLPaise := sl |> |>).
Proof.
  intros Hsl (Hv & Ht & He). split; [|done]. revert Hv. unfold call_Validate. cbn.
  repeat (case_match; [done|]). destruct (Z.leb_spec sl 0); bool_prop; [lia|].
  destruct (Z.leb_spec (tg_TriggerPaise (ta_Call a)) sl); [lia|]. done.
Qed.

Lemma followup_waiting_wf wall f i a s :
  tg_wf s → ts_pos s = None → ts_arms s !! i = Some a → tg_wf (followup_waiting wall f i a s).2.
Proof.
  intros Hw Hp Hi. unfold followup_waiting. case_match; [case_match; [by apply activate_wf|done]|].
  case_match; [|by apply (dropped_wf i a (caller_reason f))]. case_match; [done|]. apply set_arm_wf; [done..|].
  intros b Hb. rewrite Hi in Hb. injection Hb as <-. apply moved_ok. bool_prop. lia.
Qed.

Lemma raiseSL_wf p sl why s : tg_wf s → ts_pos s = Some p → tg_wf (raiseSL p sl why s).2.
Proof.
  intros Hw Hp. assert (Ha : ts_arms s = []) by (by destruct (wf_one s Hw); [congruence|]). unfold raiseSL.
  do 2 (case_match; [done|]). by apply (wf_no_arms s).
Qed.

Lemma followup_held_wf f p s : tg_wf s → ts_pos s = Some p → tg_wf (followup_held f p s).2.
Proof.
  intros Hw Hp. unfold followup_held. case_match; [done|]. case_match.
  - assert (Hr := raiseSL_wf p (fu_NewSLPaise f) ("caller " +:+ followup_Key f) s Hw Hp).
    by destruct (raiseSL _ _ _ _) as [[[res err] notes] s'].
  - apply (wf_arms_changed s); [done..|]. apply Hw.
Qed.

Lemma tg_FollowUp_wf wall f s : tg_wf s → tg_wf (tg_FollowUp wall f s).2.
Proof.
  intros Hw. unfold tg_FollowUp. case_match; [done|]. destruct (linkFollowUp f s) as [p|i a|err] eqn:Hl; [| |done].
  - by apply followup_held_wf, (linkFollowUp_held f).
  - apply linkFollowUp_arm in Hl. apply followup_waiting_wf; [done| |done]. destruct (wf_one s Hw) as [?|Ha]; [done|].
    by rewrite Ha in Hl.
Qed.

Lemma held_side_held side s p : held_side side s = Some p → ts_pos s = Some p ∧ call_Side (ta_Call (tp_Arm p)) = side.
Proof. unfold held_side. case_match; [|done]. case_match eqn:Hs; [|done]. intros [= <-]. split; [done|]. by apply String.eqb_eq. Qed.

Lemma tg_step_wf o s : tg_wf s → tg_wf (tg_step o s).2.
Proof.
  intros Hw. assert (Hheld : ∀ p, ts_pos s = Some p → ts_arms s = []) by (intros p Hp; by destruct (wf_one s Hw); [congruence|]).
  destruct o as [a|t|wall f|side tok e|p|side reason|reason|side tok reason]; cbn [tg_step].
  - by apply tg_Arm_wf.
  - assert (H := tg_OnTick_wf t s Hw). by destruct (tg_OnTick t s) as [[sig notes] s'].
  - assert (H := tg_FollowUp_wf wall f s Hw). by destruct (tg_FollowUp wall f s) as [[an notes] s'].
  - unfold tg_SetLevels. case_match; [done|]. case_match eqn:Hh; [|done]. apply held_side_held in Hh as [Hp _].
    do 2 (case_match; [done|]). apply (wf_no_arms s); [done..|]. by eapply Hheld.
  - by apply (wf_no_arms s).
  - unfold tg_CancelEntry. case_match eqn:Hh; [|done]. apply (wf_arms_changed s); [done..|]. apply Hw.
  - unfold tg_ForceExitAll. destruct (ts_pos s) eqn:Hp; cbn; rewrite Hp; by apply (wf_no_arms s).
  - unfold tg_ExitRequested. destruct (held_side side s); [|done]. destruct (tg_other_contract _ _); [done|].
    apply (wf_arms_changed s); [done..|]. apply Hw.
Qed.

Definition cancels (o : tg_op) : bool := match o with TCancel _ _ => true | _ => false end.
Definition sets_levels (o : tg_op) : bool := match o with TLevels _ _ _ => true | _ => false end.

Lemma tg_step_flat o s :
  ts_pos s = None → restores o = false → flat_step s (tg_step o s).1 (tg_step o s).2.
Proof.
  intros Hp Hr. destruct o as [a|t|wall f|side tok e|p|side reason|reason|side tok reason]; cbn [tg_step]; try done.
  - by apply tg_Arm_flat.
  - assert (H := tg_OnTick_flat t s Hp). by destruct (tg_OnTick t s) as [[sig notes] s'].
  - assert (H := tg_FollowUp_flat wall f s Hp). by destruct (tg_FollowUp wall f s) as [[an notes] s'].
  - unfold tg_SetLevels, held_side. rewrite Hp. case_match; by apply flat_quiet.
  - unfold tg_CancelEntry, held_side. rewrite Hp. by apply flat_quiet.
  - unfold tg_ForceExitAll. cbn. rewrite Hp. by apply flat_quiet.
  - unfold tg_ExitRequested, held_side. rewrite Hp. by apply flat_quiet.
Qed.

Lemma tg_step_held o s p :
  tg_wf s → ts_pos s = Some p → restores o = false → cancels o = false → sets_levels o = false →
  held_step s p (tg_step o s).1 (tg_step o s).2.
Proof.
  intros Hw Hp Hr Hc Hl. destruct o as [a|t|wall f|side tok e|q|side reason|reason|side tok reason]; cbn [tg_step]; try done.
  - by apply tg_Arm_held.
  - assert (H := tg_OnTick_held t s p Hp). by destruct (tg_OnTick t s) as [[sig notes] s'].
  - assert (held_step s p (option_list (an_sig (tg_FollowUp wall f s).1.1)) (tg_FollowUp wall f s).2); [|by destruct (tg_FollowUp _ _ _) as [[??]?]].
    unfold tg_FollowUp. case_match; [by apply held_quiet|]. destruct (linkFollowUp f s) as [q|i a|err] eqn:Hlink; [| |by apply held_quiet].
    + apply linkFollowUp_held in Hlink. rewrite Hp in Hlink. injection Hlink as <-. unfold followup_held. case_match; [by apply held_quiet|].
      case_match; [|by apply exit_reported_closes].
      assert (Hs := raiseSL_held s p (fu_NewSLPaise f) ("caller " +:+ followup_Key f) Hp).
      by destruct (raiseSL _ _ _ _) as [[[res err] notes] s'].
    + apply linkFollowUp_arm in Hlink. destruct (wf_one s Hw) as [?|Ha]; [congruence|]. by rewrite Ha in Hlink.
  - unfold tg_ForceExitAll. cbn. rewrite Hp. cbn. split; [done|]. right. eexists. by repeat split.
  - unfold tg_ExitRequested. destruct (held_side side s) as [q|] eqn:Hh; [|by apply held_quiet].
    apply held_side_held in Hh as [Hq _]. rewrite Hp in Hq. injection Hq as <-.
    destruct (tg_other_contract _ _); [by apply held_quiet|]. by apply (exit_reported_closes s p reason).
Qed.

(** A hand edit moves the levels only; a refused entry forgets the trade of
    its side. *)
Lemma tg_levels_held side tok e s p :
  ts_pos s = Some p → same_strategy s (tg_SetLevels side tok e s).2 ∧
  ∃ p', ts_pos (tg_SetLevels side tok e s).2 = Some p' ∧ same_trade p p'.
Proof.
  intros Hp. unfold tg_SetLevels. case_match; [split; [done|by exists p]|].
  destruct (held_side side s) as [q|] eqn:Hh; [|split; [done|by exists p]]. apply held_side_held in Hh as [Hq _].
  rewrite Hp in Hq. injection Hq as <-. do 2 (case_match; [split; [done|by exists p]|]). split; [done|]. eexists.
  split; [reflexivity|]. by destruct (0 <? le_FNOSL e).
Qed.

Lemma tg_cancel_held side reason s p :
  ts_pos s = Some p → same_strategy s (tg_CancelEntry side reason s).2 ∧
  ts_pos (tg_CancelEntry side reason s).2 = if String.eqb (call_Side (ta_Call (tp_Arm p))) side then None else Some p.
Proof. intros Hp. unfold tg_CancelEntry, held_side. rewrite Hp. by destruct (String.eqb _ side). Qed.

(** ** Signals follow the position *)

Fixpoint tg_run (ops : list tg_op) (s : TelegramSignal) : list (tg_op * list Signal) * TelegramSignal :=
  match ops with
  | [] => ([], s)
  | o :: ops => let '(sigs, s) := tg_step o s in let '(tr, s) := tg_run ops s in ((o, sigs) :: tr, s)
  end.

(** A trade as its signals name it: strategy, side, contract, size, entry. *)
Record open_trade := {
  ot_Name : string; ot_Side : PositionSide; ot_FNOToken : string; ot_FNOSymbol : string; ot_Qty : Z; ot_Entry : Z }.

Definition bought_trade (b : Signal) : open_trade := {|
  ot_Name := sig_StrategyName b; ot_Side := sig_Side b; ot_FNOToken := sig_FNOToken b; ot_FNOSymbol := sig_FNOSymbol b;
  ot_Qty := sig_Qty b; ot_Entry := sig_Price b |}.

(** A saved trade, taken back after a restart by the strategy [name], whose
    own size fills in for a call without one. *)
Definition restored_trade (name : string) (qty : Z) (p : TGPosition) : open_trade := {|
  ot_Name := name; ot_Side := call_Side (ta_Call (tp_Arm p)); ot_FNOToken := ta_FNOToken (tp_Arm p);
  ot_FNOSymbol := ta_FNOSymbol (tp_Arm p); ot_Qty := (if 0 <? ta_Qty (tp_Arm p) then ta_Qty (tp_Arm p) else qty);
  ot_Entry := tp_Entry p |}.

(** An exit of exactly that trade. *)
Definition exit_of (b : open_trade) (sig : Signal) : Prop :=
  sig_Action sig = ActionExit ∧ sig_StrategyName sig = ot_Name b ∧ sig_Side sig = ot_Side b ∧
  sig_FNOToken sig = ot_FNOToken b ∧ sig_FNOSymbol sig = ot_FNOSymbol b ∧ sig_Qty sig = ot_Qty b ∧
  sig_EntryFNOPrice sig = ot_Entry b.

(** What a step without a signal does to the open trade: a restart takes back
    a saved one, a refused entry takes its BUY back, no other step changes it. *)
Definition quietly (name : string) (qty : Z) (o : tg_op) (open : option open_trade) : option open_trade :=
  match o, open with
  | TRestore p, _ => Some (restored_trade name qty p)
  | TCancel side _, Some b => if String.eqb (ot_Side b) side then None else open
  | _, _ => open
  end.

(** Each step gives at most one signal: a BUY when no trade is open, else an
    exit of the open one. *)
Fixpoint signals_follow (name : string) (qty : Z) (open : option open_trade) (tr : list (tg_op * list Signal)) : Prop :=
  match tr with
  | [] => True
  | (o, sigs) :: tr =>
      match sigs, open with
      | [], _ => signals_follow name qty (quietly name qty o open) tr
      | [sig], None => sig_Action sig = ActionBuy ∧ sig_StrategyName sig = name ∧ signals_follow name qty (Some (bought_trade sig)) tr
      | [sig], Some b => exit_of b sig ∧ signals_follow name qty None tr
      | _, _ => False
      end
  end.

Definition trade_of (s : TelegramSignal) (p : TGPosition) : open_trade := restored_trade (ts_name s) (ts_qty s) p.

Lemma opens_trade s p sig : opens s p sig → bought_trade sig = trade_of s p ∧ sig_Action sig = ActionBuy ∧ sig_StrategyName sig = ts_name s.
Proof.
  intros (Ha & (Hn & Hs & Ht & Hy & Hq) & Hpr). unfold bought_trade, trade_of, restored_trade.
  by rewrite Hn, Hs, Ht, Hy, Hq, Hpr.
Qed.

Lemma closes_exit_of s p sig : closes s p sig → exit_of (trade_of s p) sig.
Proof. intros (Ha & (? & ? & ? & ? & ?) & ?). by repeat split. Qed.

Lemma trade_later s s' p p' : same_strategy s s' → same_trade p p' → trade_of s' p' = trade_of s p.
Proof. intros (Hn & Hq & _) (Ha & He & _). unfold trade_of, restored_trade. by rewrite Ha, He, Hn, Hq. Qed.

(** One step, from the trade the strategy holds to the one it holds next. *)
Lemma tg_step_follows o s :
  tg_wf s →
  let open := trade_of s <$> ts_pos s in let s' := (tg_step o s).2 in let open' := trade_of s' <$> ts_pos s' in
  same_strategy s s' ∧
  match (tg_step o s).1, open with
  | [], _ => open' = quietly (ts_name s) (ts_qty s) o open
  | [sig], None => sig_Action sig = ActionBuy ∧ sig_StrategyName sig = ts_name s ∧ open' = Some (bought_trade sig)
  | [sig], Some b => exit_of b sig ∧ open' = None
  | _, _ => False
  end.
Proof.
  intros Hw. cbn zeta. destruct (restores o) eqn:Hr; [by destruct o|]. destruct (ts_pos s) as [p|] eqn:Hp.
  2:{ destruct (tg_step_flat o s Hp Hr) as (Hsame & Hstep). destruct (tg_step o s) as [sigs s']. cbn [fst snd] in *.
      split; [done|]. destruct Hstep as [[-> ->]|(sig & p & -> & -> & Hop)]; [by destruct o|]. cbn.
      apply opens_trade in Hop as (-> & ? & ?). by rewrite (trade_later s s' p p). }
  destruct (cancels o) eqn:Hc; [|destruct (sets_levels o) eqn:Hl].
  - destruct o as [| | | | |side reason| |]; try done. destruct (tg_cancel_held side reason s p Hp) as [Hsame Hp'].
    cbn [tg_step fst snd]. split; [done|]. rewrite Hp'. cbn. case_match; [done|]. cbn. by rewrite (trade_later s _ p p Hsame).
  - destruct o as [| | |side tok e| | | |]; try done. destruct (tg_levels_held side tok e s p Hp) as (Hsame & p' & Hp' & Hst).
    cbn [tg_step fst snd]. split; [done|]. rewrite Hp'. cbn. by rewrite (trade_later s _ p p' Hsame Hst).
  - destruct (tg_step_held o s p Hw Hp Hr Hc Hl) as (Hsame & Hstep).
    destruct (tg_step o s) as [sigs s']. cbn [fst snd] in *. split; [done|].
    destruct Hstep as [(-> & p' & -> & Hst & _)|(sig & -> & -> & Hcl)].
    + cbn. rewrite (trade_later s s' p p' Hsame Hst). by destruct o.
    + split; [by apply closes_exit_of|done].
Qed.

Lemma tg_run_follows ops : ∀ s, tg_wf s → signals_follow (ts_name s) (ts_qty s) (trade_of s <$> ts_pos s) (tg_run ops s).1.
Proof.
  induction ops as [|o ops IH]; intros s Hw; [done|]. cbn [tg_run].
  assert (Hw' := tg_step_wf o s Hw). destruct (tg_step_follows o s Hw) as ((Hn & Hq & _) & Hstep).
  destruct (tg_step o s) as [sigs s']. cbn [fst snd] in *. specialize (IH s' Hw'). rewrite Hn, Hq in IH.
  destruct (tg_run ops s') as [tr s'']. cbn [fst signals_follow] in *.
  destruct sigs as [|sig sigs]; [by rewrite <-Hstep|]. destruct sigs; [|by destruct (ts_pos s)].
  destruct (ts_pos s); cbn in *.
  - destruct Hstep as (He & Ho). rewrite Ho in IH. by split.
  - destruct Hstep as (Ha & Hs & Ho). rewrite Ho in IH. by split.
Qed.

(** C25: over any run of the Telegram strategy, restarts that take back a
    saved trade included, its signals follow its position: one trade at a
    time, an exit always of the strategy, contract, side, size and entry price
    last bought or restored, no second BUY before that exit or the refusal of
    its entry, and none while a restored trade is held. *)
Theorem tg_signals_follow_position name qty cfg ops :
  let s := NewTelegramSignal name qty cfg in signals_follow (ts_name s) (ts_qty s) None (tg_run ops s).1.
Proof. apply (tg_run_follows ops (NewTelegramSignal name qty cfg)), NewTelegramSignal_wf. Qed.

(** ** What it buys *)

(** A BUY of [a] at a price of it: above its stop, not past the chase. *)
Definition bought (s : TelegramSignal) (a : TGArm) (price : Z) (sig : Signal) : Prop :=
  sig_Action sig = ActionBuy ∧ for_arm s a sig ∧ sig_Price sig = price ∧ tg_SLPaise (ta_Call a) < price ∧
  past_chase price (ta_Call a) s = false.

(** What let it: a tick of the contract in time, at the trigger or, where
    calls wait for the caller, with the caller's word; or that word itself. *)
Definition may_buy (o : tg_op) (s : TelegramSignal) (a : TGArm) (price : Z) : Prop :=
  match o with
  | TTick t =>
      price = tick_Price t ∧ tick_key t = arm_key a ∧ expired (CanonicalTS t) s a = false ∧
      if tc_WaitActive (ts_cfg s) then ta_Active a = true else tg_TriggerPaise (ta_Call a) <= price
  | TFollowUp _ f => price = ta_Last a ∧ 0 < price ∧ tc_WaitActive (ts_cfg s) = true ∧ fu_Action f = TGActivate
  | _ => False
  end.

Lemma bought_touched s a b price sig :
  ta_Call b = ta_Call a → ta_FNOToken b = ta_FNOToken a → ta_FNOSymbol b = ta_FNOSymbol a → ta_Qty b = ta_Qty a →
  bought s b price sig → bought s a price sig.
Proof. unfold bought, for_arm, qtyOf. by intros -> -> -> ->. Qed.

Lemma entered_bought a price now s sig :
  tg_SLPaise (ta_Call a) < price → past_chase price (ta_Call a) s = false →
  (entered a price now s).1.1 = Some sig → bought s a price sig.
Proof. intros Hsl Hc [= <-]. by repeat split. Qed.

Lemma tryActiveEntry_bought i a price now s sig :
  (tryActiveEntry i a price now s).1.1 = Some sig → bought s a price sig.
Proof.
  unfold tryActiveEntry. destruct (Z.leb_spec price (tg_SLPaise (ta_Call a))) as [|Hsl]; [by destruct (ta_AboveSL a)|].
  rewrite andb_false_l. destruct (past_chase _ _ _) eqn:Hc; [done|]. by apply entered_bought.
Qed.

Lemma arm_tick_bought t i a s sig :
  (arm_tick t i a s).1.1 = Some sig →
  bought s a (tick_Price t) sig ∧
  if tc_WaitActive (ts_cfg s) then ta_Active a = true else tg_TriggerPaise (ta_Call a) <= tick_Price t.
Proof.
  unfold arm_tick. destruct (_ && _ && _); [done|]. destruct (_ && ta_Active a) eqn:Ha.
  - apply andb_true_iff in Ha as [-> Ha]. intros Hs%tryActiveEntry_bought. done.
  - destruct (Z.leb_spec (tick_Price t) (tg_SLPaise (ta_Call a))) as [|Hsl]; [by destruct (ta_AboveSL a)|].
    rewrite andb_false_l, orb_false_l. destruct (Z.ltb_spec (tick_Price t) (tg_TriggerPaise (ta_Call a))); [done|]. rewrite orb_false_l.
    destruct (tc_WaitActive (ts_cfg s)); [done|]. destruct (past_chase _ _ _) eqn:Hc; [done|]. intros Hs. split; [|done].
    by apply entered_bought in Hs.
Qed.

Lemma tg_OnTick_bought t s sig :
  ts_pos s = None → (tg_OnTick t s).1.1 = Some sig →
  ∃ a, a ∈ ts_arms s ∧ bought s a (tick_Price t) sig ∧ may_buy (TTick t) s a (tick_Price t).
Proof.
  intros Hp. unfold tg_OnTick. destruct (_ <=? 0); [done|]. rewrite Hp. unfold expire.
  set (s0 := s <| ts_arms := _ |>). destruct (list_find _ _) as [[i a]|] eqn:Hf; [|done].
  apply list_find_Some in Hf as (Hi & Hkey & _). apply list_elem_of_lookup_2, list_elem_of_filter in Hi as [Hexp Hin].
  intros Hs. assert ((arm_tick t i (a <| ta_Ticked := true |>) (set_arm i (λ _, a <| ta_Ticked := true |>) s0)).1.1 = Some sig) as H
    by (by destruct (arm_tick _ _ _ _) as [[? ?] ?]). apply arm_tick_bought in H as [Hb Hc].
  exists a. split; [done|]. split; [exact Hb|]. by repeat split.
Qed.

Lemma tg_FollowUp_bought wall f s sig :
  ts_pos s = None → an_sig (tg_FollowUp wall f s).1.1 = Some sig →
  ∃ a, a ∈ ts_arms s ∧ bought s a (ta_Last a) sig ∧ may_buy (TFollowUp wall f) s a (ta_Last a).
Proof.
  intros Hp. unfold tg_FollowUp. destruct (followup_Validate f); [done|]. destruct (linkFollowUp f s) as [q|i a|err] eqn:Hl; [| |done].
  - apply linkFollowUp_held in Hl. congruence.
  - apply linkFollowUp_arm, list_elem_of_lookup_2 in Hl. unfold followup_waiting.
    destruct (String.eqb_spec (fu_Action f) TGActivate) as [Hact|]; [|by destruct (String.eqb _ TGMoveSL); [destruct (_ || _)|]].
    destruct (tc_WaitActive (ts_cfg s)) eqn:Hwa; [|done]. unfold activate. cbn [ta_Last].
    change (ta_Last (a <| ta_Active := true |>)) with (ta_Last a). destruct (Z.leb_spec (ta_Last a) 0); [done|]. intros Hs.
    assert ((tryActiveEntry i (a <| ta_Active := true |>) (ta_Last a) wall (set_arm i (λ _, a <| ta_Active := true |>) s)).1.1 = Some sig)
      as Hb%tryActiveEntry_bought by (destruct (tryActiveEntry _ _ _ _ _) as [[[sg|] ?] ?]; [done|by destruct (_ <? _)%nat]).
    exists a. split; [done|]. split; [exact Hb|]. done.
Qed.

Lemma tg_run_wf ops : ∀ s, tg_wf s → tg_wf (tg_run ops s).2.
Proof.
  induction ops as [|o ops IH]; intros s Hw; [done|]. cbn [tg_run]. assert (Hw' := tg_step_wf o s Hw).
  destruct (tg_step o s) as [sigs s']. specialize (IH s' Hw'). by destruct (tg_run ops s').
Qed.

Lemma tg_step_buys o s sig :
  tg_wf s → sig ∈ (tg_step o s).1 → sig_Action sig = ActionBuy → ts_pos s = None ∧ restores o = false.
Proof.
  intros Hw Hin Hact. destruct o; try (by apply not_elem_of_nil in Hin).
  all: destruct (ts_pos s) as [p|] eqn:Hp; [exfalso|done].
  all: match type of Hin with _ ∈ (tg_step ?o _).1 => destruct (tg_step_held o s p Hw Hp) as (_ & [[Hsigs _]|(sg & Hsigs & _ & Hc & _)]) end; try done.
  all: rewrite Hsigs in Hin.
  all: try (by apply not_elem_of_nil in Hin).
  all: apply list_elem_of_singleton in Hin as ->; by rewrite Hc in Hact.
Qed.

Lemma tg_step_bought o s sig :
  tg_wf s → sig ∈ (tg_step o s).1 → sig_Action sig = ActionBuy →
  ∃ a, a ∈ ts_arms s ∧ bought s a (sig_Price sig) sig ∧ may_buy o s a (sig_Price sig).
Proof.
  intros Hw Hin Hact. destruct (tg_step_buys o s sig Hw Hin Hact) as [Hp _].
  assert (H : ∃ a price, a ∈ ts_arms s ∧ bought s a price sig ∧ may_buy o s a price).
  { destruct o as [a|t|wall f|side tok e|p|side reason|reason|side tok reason]; cbn [tg_step] in Hin; try (by apply not_elem_of_nil in Hin).
    - destruct (tg_OnTick_bought t s sig Hp) as (a & Ha); [|by exists a, (tick_Price t)].
      destruct (tg_OnTick t s) as [[[sg|] ?] ?]; [by apply list_elem_of_singleton in Hin as ->|by apply not_elem_of_nil in Hin].
    - destruct (tg_FollowUp_bought wall f s sig Hp) as (a & Ha); [|by exists a, (ta_Last a)].
      destruct (tg_FollowUp wall f s) as [[[[sg|] ? ?] ?] ?]; [by apply list_elem_of_singleton in Hin as ->|by apply not_elem_of_nil in Hin].
    - unfold tg_ForceExitAll in Hin. cbn in Hin. rewrite Hp in Hin. by apply not_elem_of_nil in Hin.
    - unfold tg_ExitRequested, held_side in Hin. rewrite Hp in Hin. by apply not_elem_of_nil in Hin. }
  destruct H as (a & price & Ha & Hb & Hm). exists a. assert (sig_Price sig = price) as -> by apply Hb. done.
Qed.

(** C26: whatever the messages and ticks before, a BUY is of a valid call
    that waits while no trade is open: above the call's stop, at most the
    chase above its trigger, on a tick of its contract in time and at the
    trigger or, where calls wait for the caller, on the caller's word. *)
Theorem tg_buys_within_limits name qty cfg ops o sig :
  let s := (tg_run ops (NewTelegramSignal name qty cfg)).2 in
  sig ∈ (tg_step o s).1 → sig_Action sig = ActionBuy →
  ts_pos s = None ∧
  ∃ a, a ∈ ts_arms s ∧ arm_ok a ∧ for_arm s a sig ∧ may_buy o s a (sig_Price sig) ∧
    let trigger := tg_TriggerPaise (ta_Call a) in let chase := tc_MaxChasePct (ts_cfg s) in
    tg_SLPaise (ta_Call a) < sig_Price sig ∧
    (in_i64 (sig_Price sig * 100) → in_i64 (100 + chase) → in_i64 (trigger * (100 + chase)) →
     sig_Price sig * 100 <= trigger * (100 + chase)).
Proof.
  intros s Hin Hact. assert (Hw : tg_wf s) by apply tg_run_wf, NewTelegramSignal_wf. clearbody s.
  destruct (tg_step_buys o s sig Hw Hin Hact) as [Hp _]. split; [done|].
  destruct (tg_step_bought o s sig Hw Hin Hact) as (a & Ha & (_ & Harm & _ & Hsl & Hc) & Hm). exists a.
  split; [done|]. split; [exact (proj1 (Forall_forall _ _) (wf_arms s Hw) a Ha)|]. do 3 (split; [done|]).
  intros H1 H2 H3. revert Hc. unfold past_chase. rewrite (i64_id (100 + _)), !i64_id by done. by intros ?%Z.ltb_ge.
Qed.

(** ** The stop *)

Lemma raiseSL_below s p p' sl why :
  ts_pos s = Some p → ts_pos (raiseSL p sl why s).2 = Some p' →
  tp_SL p' ≠ tp_SL p → 0 < tp_Last p' → tp_SL p' < tp_Last p'.
Proof.
  intros Hp. unfold raiseSL. destruct (_ <=? tp_SL p); [cbn; rewrite Hp; by intros [= <-]|].
  destruct (Z.ltb_spec 0 (tp_Last p)), (Z.leb_spec (tp_Last p) sl); cbn; try rewrite Hp; intros [= <-] ? ?; done || cbn in *; lia.
Qed.

Lemma held_tick_below t p p' s :
  ts_pos s = Some p → ts_pos (held_tick t p s).2 = Some p' → tp_SL p' ≠ tp_SL p → 0 < tp_Last p' → tp_SL p' < tp_Last p'.
Proof.
  intros Hp. unfold held_tick. destruct (negb _); [cbn; rewrite Hp; by intros [= <-]|].
  destruct (ladder_step_spec (tick_Price t) p s) as (_ & _ & Hlast & _ & Hraise & _).
  destruct (ladder_step _ p s) as [p1 notes]. cbn [fst] in *. destruct (exit_reason _ p1); [done|].
  intros [= <-] Hne _. rewrite Hlast. by apply Hraise.
Qed.

(** Whatever raises the stop leaves it below the premium last seen. *)
Lemma tg_step_stop_below o s p p' :
  tg_wf s → ts_pos s = Some p → restores o = false → sets_levels o = false → ts_pos (tg_step o s).2 = Some p' →
  tp_SL p' ≠ tp_SL p → 0 < tp_Last p' → tp_SL p' < tp_Last p'.
Proof.
  intros Hw Hp Hr Hl. assert (Hsame : ts_pos s = Some p' → tp_SL p' ≠ tp_SL p → 0 < tp_Last p' → tp_SL p' < tp_Last p')
    by (rewrite Hp; by intros [= <-]).
  destruct o as [a|t|wall f|side tok e|q|side reason|reason|side tok reason]; cbn [tg_step]; try done.
  - unfold tg_Arm. destruct (call_Validate _); [done|]. destruct (_ || _); [done|]. rewrite Hp.
    destruct (_ && _); [by apply raiseSL_below|done].
  - unfold tg_OnTick. destruct (_ <=? 0); [done|]. rewrite Hp. pose proof (held_tick_below t p p' s Hp) as H.
    by destruct (held_tick t p s) as [[? ?] ?].
  - unfold tg_FollowUp. destruct (followup_Validate f); [done|]. destruct (linkFollowUp f s) as [q|i a|err] eqn:Hlink; [| |done].
    + apply linkFollowUp_held in Hlink. rewrite Hp in Hlink. injection Hlink as <-. unfold followup_held.
      destruct (String.eqb _ TGActivate); [done|]. destruct (String.eqb _ TGMoveSL); [|done].
      pose proof (raiseSL_below s p p' (fu_NewSLPaise f) ("caller " +:+ followup_Key f) Hp) as H.
      by destruct (raiseSL _ _ _ _) as [[[res err] notes] s'].
    + apply linkFollowUp_arm in Hlink. destruct (wf_one s Hw) as [?|Ha]; [congruence|]. by rewrite Ha in Hlink.
  - cbn [snd]. destruct (tg_cancel_held side reason s p Hp) as [_ ->]. destruct (String.eqb _ side); [done|]. by rewrite <-Hp.
  - unfold tg_ForceExitAll. cbn. by rewrite Hp.
  - unfold tg_ExitRequested. destruct (held_side side s) eqn:Hh; [|done]. destruct (tg_other_contract _ _); [done|]. done.
Qed.

(** The stop never falls unless by hand. *)
Lemma tg_step_stop_rises o s p p' :
  tg_wf s → ts_pos s = Some p → restores o = false → sets_levels o = false → ts_pos (tg_step o s).2 = Some p' →
  tp_SL p <= tp_SL p'.
Proof.
  intros Hw Hp Hr Hl Hp'. destruct (cancels o) eqn:Hc.
  - destruct o as [| | | | |side reason| |]; try done. cbn [tg_step snd] in Hp'. destruct (tg_cancel_held side reason s p Hp) as [_ H].
    rewrite H in Hp'. destruct (String.eqb _ side); [done|]. injection Hp' as <-. lia.
  - destruct (tg_step_held o s p Hw Hp Hr Hc Hl) as (_ & [(_ & q & Hq & _ & Hle)|(_ & _ & Hn & _)]); [|congruence].
    rewrite Hp' in Hq. by injection Hq as <-.
Qed.

(** C27: while a Telegram trade is held, its stop only rises, and only to
    below the premium, but for a hand edit; a tick of its contract at or
    below the stop closes it in full, one that leaves it open is above the
    stop and below the target. *)
Theorem tg_stop_discipline name qty cfg ops o p :
  let s := (tg_run ops (NewTelegramSignal name qty cfg)).2 in
  ts_pos s = Some p → restores o = false →
  (∀ p', sets_levels o = false → ts_pos (tg_step o s).2 = Some p' →
     tp_SL p <= tp_SL p' ∧ (tp_SL p' ≠ tp_SL p → 0 < tp_Last p' → tp_SL p' < tp_Last p')) ∧
  (∀ t, o = TTick t → 0 < tick_Price t → tick_key t = arm_key (tp_Arm p) →
     (tick_Price t <= tp_SL p → ∃ sig, (tg_step o s).1 = [sig] ∧ closes s p sig) ∧
     (∀ p', ts_pos (tg_step o s).2 = Some p' → tp_SL p' < tick_Price t ∧ (0 < tp_Target p' → tick_Price t < tp_Target p'))).
Proof.
  intros s Hp Hr. assert (Hw : tg_wf s) by apply tg_run_wf, NewTelegramSignal_wf. clearbody s. split.
  - intros p' Hl Hp'. split; [by apply (tg_step_stop_rises o s)|]. by apply (tg_step_stop_below o s).
  - intros t -> Hpos Hk. assert (tg_step (TTick t) s = (option_list (held_tick t p s).1.1, (held_tick t p s).2)) as ->.
    { cbn [tg_step]. unfold tg_OnTick. rewrite (proj2 (Z.leb_gt _ _)), Hp by lia. by destruct (held_tick t p s) as [[? ?] ?]. }
    cbn [fst snd]. split.
    + intros Hle. assert (Hn := held_tick_stops t p s Hk Hle).
      destruct (held_tick_step t p s Hp) as (_ & [(_ & p' & Hp' & _)|(sig & Hsig & _ & Hcl)]); [congruence|by exists sig].
    + intros p' Hp'. split; [by apply (held_tick_above t p p' s)|]. revert Hp'. by apply held_tick_below_target.
Qed.

(** ** A run *)

Definition demo_config (wait : bool) : TelegramSignalConfig := {|
  tc_TargetPct := 0; tc_MaxChasePct := 5; tc_MaxPriceGapPct := 30; tc_ArmFor := 0; tc_LadderTrailPct := 10; tc_WaitActive := wait |}.

Definition demo_call (msg trigger sl : Z) : TGSignal := {|
  tg_ChatID := 7; tg_MsgID := msg; tg_Underlying := "SENSEX"; tg_Strike := 80000; tg_OptionType := "CE"; tg_TriggerPaise := trigger;
  tg_SLPaise := sl; tg_SLDefault := false; tg_Targets := [14000; 15000]; tg_Text := ""; tg_ReceivedAt := 0; tg_SentAt := 0;
  tg_ReadMS := 0; tg_PublishedAt := 0; tg_Edited := false; tg_Source := "" |}.

Definition demo_arm (msg : Z) (fno : string) (at_ : Time) : TGArm := {|
  ta_Call := demo_call msg 13000 12000; ta_IndexToken := "51"; ta_IndexExchange := "BSE"; ta_FNOExchange := "BFO"; ta_FNOToken := fno;
  ta_FNOSymbol := "SX80000CE"; ta_Qty := 20; ta_ArmedAt := at_; ta_Active := false; ta_Last := 0; ta_AboveSL := false;
  ta_Seen := false; ta_Ticked := false |}.

Definition demo_tick (price : Z) (at_ : Time) : Tick := {|
  tick_Token := "900"; tick_Exchange := "BFO"; tick_Price := price; tick_Qty := 1; tick_DayVolume := 0; tick_TickTS := at_; tick_EventTS := at_;
  tick_BestBid := 0; tick_BestAsk := 0; tick_OI := 0; tick_QuoteTS := 0 |}.

Definition demo_run : list tg_op :=
  [TArm (demo_arm 1 "900" Hour); TTick (demo_tick 12900 (Hour + Second)); TTick (demo_tick 13100 (Hour + 2 * Second));
   TTick (demo_tick 14100 (Hour + 3 * Second)); TTick (demo_tick 13050 (Hour + 4 * Second))].

(** A trade bought and exited; after a restart, a saved trade taken back. *)
Definition demo_saved : TGPosition := {|
  tp_Arm := demo_arm 2 "900" Hour; tp_Entry := 13100; tp_SL := 12000; tp_Target := 15000; tp_Last := 13100; tp_Best := 13100;
  tp_Targets := [14000; 15000]; tp_EnteredTS := Hour; tp_ManualSL := false |}.
Definition demo_restart : list tg_op :=
  demo_run ++ [TRestore demo_saved; TArm (demo_arm 3 "901" (2 * Hour)); TTick (demo_tick 11900 (2 * Hour + Second))].

(** Only the exit of the saved trade follows the restart: the call that came
    while it was held bought nothing. *)
Lemma demo_restart_signals :
  let tr := (tg_run demo_restart (NewTelegramSignal "" 1 (demo_config false))).1 in
  map (λ x, map sig_Action x.2) tr = [[]; []; [ActionBuy]; []; [ActionExit]; []; []; [ActionExit]].
Proof. vm_compute. reflexivity. Qed.

Lemma tg_buys_within_limits_witness :
  let s := (tg_run (take 2 demo_run) (NewTelegramSignal "" 1 (demo_config false))).2 in
  ∃ sig a, sig_Price sig = 13100 ∧ sig_Qty sig = 20 ∧ a ∈ ts_arms s ∧ for_arm s a sig ∧ tg_SLPaise (ta_Call a) < sig_Price sig.
Proof.
  pose (o := TTick (demo_tick 13100 (Hour + 2 * Second))).
  pose (sig := default zero_Signal ((tg_step o (tg_run (take 2 demo_run) (NewTelegramSignal "" 1 (demo_config false))).2).1 !! 0%nat)).
  destruct (tg_buys_within_limits "" 1 (demo_config false) (take 2 demo_run) o sig) as (_ & a & Ha & _ & Harm & _ & Hsl & _).
  - apply (list_elem_of_lookup_2 _ 0). vm_compute. reflexivity.
  - vm_compute. reflexivity.
  - exists sig, a. split; [vm_compute; reflexivity|]. split; [vm_compute; reflexivity|]. split; [exact Ha|]. split; [exact Harm|exact Hsl].
Defined.

(** After 14100, the first target is reached: the stop is the entry. *)
Lemma tg_stop_discipline_witness :
  let s := (tg_run (take 4 demo_run) (NewTelegramSignal "" 1 (demo_config false))).2 in
  ∃ p sig, ts_pos s = Some p ∧ tp_SL p = 13100 ∧ (tg_step (TTick (demo_tick 13050 (Hour + 4 * Second))) s).1 = [sig] ∧ closes s p sig.
Proof.
  pose (t := demo_tick 13050 (Hour + 4 * Second)).
  pose (r := ts_pos (tg_run (take 4 demo_run) (NewTelegramSignal "" 1 (demo_config false))).2).
  pose (p := default {| tp_Arm := demo_arm 0 "" 0; tp_Entry := 0; tp_SL := 0; tp_Target := 0; tp_Last := 0; tp_Best := 0;
                        tp_Targets := []; tp_EnteredTS := 0; tp_ManualSL := false |} r).
  assert (Hp : r = Some p) by (vm_compute; reflexivity). assert (Hsl : tp_SL p = 13100) by (vm_compute; reflexivity).
  destruct (tg_stop_discipline "" 1 (demo_config false) (take 4 demo_run) (TTick t) p Hp eq_refl) as [_ H].
  assert (Hpos : 0 < tick_Price t) by reflexivity. assert (Hk : tick_key t = arm_key (tp_Arm p)) by (vm_compute; reflexivity).
  destruct (H t eq_refl Hpos Hk) as [[sig Hsig] _]; [rewrite Hsl; vm_compute; discriminate|].
  exists p, sig. split; [exact Hp|]. split; [exact Hsl|exact Hsig].
Defined.

(** [Arm] replaces the first waiting call that matches by message or by
    contract, so a message edited onto the contract of another leaves two
    calls waiting on one contract. *)
Example edit_duplicates_contract :
  let ops := [TArm (demo_arm 1 "900" Hour); TArm (demo_arm 2 "901" Hour); TArm (demo_arm 1 "901" (Hour + Second))] in
  (λ a, (tg_MsgID (ta_Call a), arm_key a)) <$> ts_arms (tg_run ops (NewTelegramSignal "" 1 (demo_config false))).2 =
    [(1, "BFO:901"%string); (2, "BFO:901"%string)].
Proof. vm_compute. reflexivity. Qed.

(** The time a call may wait is checked on ticks alone: the caller's word
    hours later buys at the last premium seen. *)
Example late_word_buys :
  let f := {| fu_ChatID := 7; fu_MsgID := 2; fu_ReplyToMsgID := 1; fu_Action := TGActivate; fu_NewSLPaise := 0; fu_Strike := 0;
              fu_OptionType := ""; fu_Text := ""; fu_ReceivedAt := 5 * Hour |} in
  let ops := [TArm (demo_arm 1 "900" Hour); TTick (demo_tick 13100 (Hour + Second)); TFollowUp (5 * Hour) f] in
  flat_map (λ x, map (λ sig, (sig_Action sig, sig_Price sig)) x.2) (tg_run ops (NewTelegramSignal "" 1 (demo_config true))).1 =
    [(ActionBuy, 13100)].
Proof. vm_compute. reflexivity. Qed.
