(* ===== verification/Regex.v ===== *)
(** Package regexp, as far as the source uses it: a backtracking matcher with
    the leftmost-first preference of Go's engine, over runes.  Word boundaries
    and the classes of the patterns are ASCII; letters outside ASCII are a
    parameter ([UnicodeTables]).  The matcher is shown to
    find a match exactly when the text has one. *)
From Stdlib Require Import ssreflect.
From S2P Require Import Prelude GoText.
#[local] Open Scope Z_scope.

(** ** Runes *)

(** The continuation byte [c], its lowest value raised to [lo] or its highest
    lowered to [hi]. *)
Definition cont_byte (lo hi : Z) (c : ascii) : option Z :=
  let b := Z.of_N (N_of_ascii c) in if (lo <=? b) && (b <=? hi) then Some (b - 128) else None.

Definition rune_error : Z := 65533.

(** Decoding UTF-8: the rune that [c] starts, and what follows it.  A byte
    that starts no rune is U+FFFD. *)
Definition decode_rune (c : ascii) (s : list ascii) : Z * list ascii :=
  let b := Z.of_N (N_of_ascii c) in
  let bad := (rune_error, s) in
  if b <? 128 then (b, s)
  else if (194 <=? b) && (b <=? 223) then
    match s with
    | c1 :: s1 => match cont_byte 128 191 c1 with Some x => ((b - 192) * 64 + x, s1) | None => bad end
    | _ => bad
    end
  else if (224 <=? b) && (b <=? 239) then
    match s with
    | c1 :: c2 :: s2 =>
        match cont_byte (if b =? 224 then 160 else 128) (if b =? 237 then 159 else 191) c1, cont_byte 128 191 c2 with
        | Some x, Some y => ((b - 224) * 4096 + x * 64 + y, s2)
        | _, _ => bad
        end
    | _ => bad
    end
  else if (240 <=? b) && (b <=? 244) then
    match s with
    | c1 :: c2 :: c3 :: s3 =>
        match cont_byte (if b =? 240 then 144 else 128) (if b =? 244 then 143 else 191) c1, cont_byte 128 191 c2, cont_byte 128 191 c3 with
        | Some x, Some y, Some z => ((b - 240) * 262144 + x * 4096 + y * 64 + z, s3)
        | _, _, _ => bad
        end
    | _ => bad
    end
  else bad.

Fixpoint runes_fuel (n : nat) (s : list ascii) : list Z :=
  match n, s with
  | S n, c :: s => let '(r, s) := decode_rune c s in r :: runes_fuel n s
  | _, _ => []
  end.

Definition runes (s : string) : list Z := runes_fuel (String.length s) (String.list_ascii_of_string s).

(** The bytes of a rune, and of a text. *)
Definition byte (z : Z) : ascii := ascii_of_N (Z.to_N z).
Definition encode_rune (r : Z) : list ascii :=
  if r <? 128 then [byte r]
  else if r <? 2048 then [byte (192 + r / 64); byte (128 + r mod 64)]
  else if r <? 65536 then [byte (224 + r / 4096); byte (128 + r / 64 mod 64); byte (128 + r mod 64)]
  else [byte (240 + r / 262144); byte (128 + r / 4096 mod 64); byte (128 + r / 64 mod 64); byte (128 + r mod 64)].
Definition text_of (rs : list Z) : string := String.string_of_list_ascii (r ← rs; encode_rune r).

Example runes_round : text_of (runes "SL ₹182 🔥") = "SL ₹182 🔥"%string ∧ length (runes "SL ₹182 🔥") = 9%nat.
Proof. vm_compute. done. Qed.

(** Package unicode's tables for runes outside ASCII. *)
Class UnicodeTables := { unicode_letter : Z → bool; unicode_upper : Z → Z }.

Definition rune_between (lo hi : Z) (r : Z) : bool := (lo <=? r) && (r <=? hi).
Definition rune_digit : Z → bool := rune_between 48 57.
Definition rune_ascii_letter (r : Z) : bool := rune_between 65 90 r || rune_between 97 122 r.
Definition rune_letter `{UT : UnicodeTables} (r : Z) : bool := if r <? 128 then rune_ascii_letter r else unicode_letter r.
Definition rune_word (r : Z) : bool := rune_digit r || rune_ascii_letter r || (r =? 95).
Definition rune_space (r : Z) : bool := existsb (Z.eqb r) [9; 10; 12; 13; 32].
Definition rune_upper `{UT : UnicodeTables} (r : Z) : Z :=
  if r <? 128 then (if rune_between 97 122 r then r - 32 else r) else unicode_upper r.

(** Case folding towards an ASCII letter: besides its other case, [s] has
    U+017F and [k] the Kelvin sign.  Under (?i) the classes fold too: the
    letters gain U+0345. *)
Definition rune_fold (r : Z) : Z :=
  if rune_between 65 90 r then r + 32 else if r =? 383 then 115 else if r =? 8490 then 107 else r.
Definition rune_word_i (r : Z) : bool := rune_word (rune_fold r).
Definition rune_letter_i `{UT : UnicodeTables} (r : Z) : bool := rune_letter r || (r =? 837).

(** strings.ToUpper. *)
Definition upper_runes `{UT : UnicodeTables} (s : list Z) : list Z := rune_upper <$> s.

(** ** Patterns *)

Inductive re :=
  | RChar (p : Z → bool)
  | REps
  | RSeq (a b : re)
  | RAlt (a b : re)
  | RStar (a : re)
  | RGroup (n : nat) (a : re)
  | RWordB
  | RBegin
  | REnd.

Declare Scope re_scope.
Delimit Scope re_scope with re.
Bind Scope re_scope with re.
Infix "·" := RSeq (at level 40, left associativity) : re_scope.
Infix "∥" := RAlt (at level 50, left associativity) : re_scope.
#[local] Open Scope re_scope.

Definition ROpt (a : re) : re := a ∥ REps.
Definition RPlus (a : re) : re := a · RStar a.
(** Between [n] and [n + k] times, the more the better. *)
Fixpoint RUpTo (k : nat) (a : re) : re := match k with O => REps | S k => ROpt (a · RUpTo k a) end.
Fixpoint RRep (n : nat) (a : re) : re := match n with O => REps | S n => a · RRep n a end.
Definition RRange (n k : nat) (a : re) : re := RRep n a · RUpTo k a.

(** A literal, and one matched in either case. *)
Definition RLit (s : string) : re := foldr (λ c r, RChar (Z.eqb c) · r) REps (runes s).
Definition RLitI (s : string) : re := foldr (λ c r, RChar (λ x, rune_fold x =? rune_fold c) · r) REps (runes s).
Fixpoint RAny (rs : list re) : re := match rs with [] => RChar (λ _, false) | [r] => r | r :: rs => r ∥ RAny rs end.
Definition RWords (ss : list string) : re := RAny (RLit <$> ss).
Definition RWordsI (ss : list string) : re := RAny (RLitI <$> ss).
Definition RDigit : re := RChar rune_digit.
Definition RSpace : re := RChar rune_space.
Definition RSpaces : re := RStar RSpace.

(** ** Matching *)

(** Where a match stands: the rune before, the position, what is left. *)
Record cursor := { cu_prev : option Z; cu_pos : nat; cu_rest : list Z }.
Definition cursor_at (s : list Z) : cursor := {| cu_prev := None; cu_pos := 0; cu_rest := s |}.

(** The groups matched, with where they start and end. *)
Definition captures := gmap nat (nat * nat).

Definition word_before (prev : option Z) : bool := match prev with Some r => rune_word r | None => false end.
Definition word_after (rest : list Z) : bool := match rest with r :: _ => rune_word r | [] => false end.
Definition at_boundary (prev : option Z) (rest : list Z) : bool := negb (Bool.eqb (word_before prev) (word_after rest)).

(** [body] over and over, each time on some text, then [k]; more of [body] is
    tried first. *)
Fixpoint star_loop {X} (body : cursor → captures → (cursor → captures → option X) → option X) (k : cursor → captures → option X)
    (n : nat) (c : cursor) (g : captures) : option X :=
  match n with
  | O => k c g
  | S n =>
      match body c g (λ c' g, if (cu_pos c' =? cu_pos c)%nat then None else star_loop body k n c' g) with
      | Some x => Some x
      | None => k c g
      end
  end.

(** [k] says what comes after; the first way to get through both wins. *)
Fixpoint backtrack {X} (r : re) (c : cursor) (g : captures) (k : cursor → captures → option X) : option X :=
  match r with
  | RChar p =>
      match cu_rest c with
      | x :: rest => if p x then k {| cu_prev := Some x; cu_pos := S (cu_pos c); cu_rest := rest |} g else None
      | [] => None
      end
  | REps => k c g
  | RSeq a b => backtrack a c g (λ c g, backtrack b c g k)
  | RAlt a b => match backtrack a c g k with Some x => Some x | None => backtrack b c g k end
  | RStar a => star_loop (backtrack a) k (length (cu_rest c)) c g
  | RGroup n a => backtrack a c g (λ c' g, k c' (<[n := (cu_pos c, cu_pos c')]> g))
  | RWordB => if at_boundary (cu_prev c) (cu_rest c) then k c g else None
  | RBegin => match cu_prev c with None => k c g | Some _ => None end
  | REnd => match cu_rest c with [] => k c g | _ :: _ => None end
  end.

(** A match: where it starts, the cursor at its end, its groups. *)
Record rmatch := { rm_start : nat; rm_end : cursor; rm_groups : captures }.

Definition match_here (r : re) (c : cursor) : option rmatch :=
  backtrack r c ∅ (λ c' g, Some {| rm_start := cu_pos c; rm_end := c'; rm_groups := g |}).

(** The leftmost match. *)
Fixpoint find_from (r : re) (prev : option Z) (pos : nat) (rest : list Z) : option rmatch :=
  match match_here r {| cu_prev := prev; cu_pos := pos; cu_rest := rest |} with
  | Some m => Some m
  | None => match rest with [] => None | x :: rest => find_from r (Some x) (S pos) rest end
  end.

Definition find_match (r : re) (s : list Z) : option rmatch := find_from r None 0 s.
Definition match_string (r : re) (s : list Z) : bool := bool_decide (is_Some (find_match r s)).

(** All matches, one after the other, for a pattern that never matches the
    empty text. *)
Fixpoint find_all_fuel (n : nat) (r : re) (c : cursor) : list rmatch :=
  match n with
  | O => []
  | S n =>
      match find_from r (cu_prev c) (cu_pos c) (cu_rest c) with
      | Some m => m :: (if (cu_pos (rm_end m) =? rm_start m)%nat then [] else find_all_fuel n r (rm_end m))
      | None => []
      end
  end.
Definition find_all (r : re) (s : list Z) : list rmatch := find_all_fuel (S (length s)) r (cursor_at s).

Definition slice (s : list Z) (a b : nat) : list Z := take (b - a) (drop a s).
(** The text of a match, and of one of its groups ("" if it took no part). *)
Definition match_text (s : list Z) (m : rmatch) : list Z := slice s (rm_start m) (cu_pos (rm_end m)).
Definition group_text (s : list Z) (m : rmatch) (n : nat) : list Z :=
  match rm_groups m !! n with Some (a, b) => slice s a b | None => [] end.

(** The text before a match, and where a text has another's first occurrence. *)
Definition text_before (s : list Z) (m : rmatch) : list Z := take (rm_start m) s.
Definition text_after (m : rmatch) : list Z := cu_rest (rm_end m).
Fixpoint rune_index (sub s : list Z) : option nat :=
  if bool_decide (sub = take (length sub) s) then Some 0%nat
  else match s with [] => None | _ :: s => S <$> rune_index sub s end.

(** All matches replaced by [by_]. *)
Fixpoint splice (s : list Z) (from : nat) (by_ : list Z) (ms : list rmatch) : list Z :=
  match ms with
  | [] => drop from s
  | m :: ms => slice s from (rm_start m) ++ by_ ++ splice s (cu_pos (rm_end m)) by_ ms
  end.
Definition replace_all (r : re) (by_ : list Z) (s : list Z) : list Z := splice s 0 by_ (find_all r s).

Example words_in_order :
  let s := runes "SL 15 pts, SL 182" in
  (λ m, text_of (match_text s m)) <$> find_all (RLit "SL" · RSpaces · RPlus RDigit) s = ["SL 15"; "SL 182"].
Proof. vm_compute. reflexivity. Qed.

(** ** What a match is *)

Definition last_rune (prev : option Z) (w : list Z) : option Z := match last w with Some x => Some x | None => prev end.
Definition advance (c : cursor) (w after : list Z) : cursor :=
  {| cu_prev := last_rune (cu_prev c) w; cu_pos := cu_pos c + length w; cu_rest := after |}.

(** [matches r prev w after]: after the rune [prev] and before the text
    [after], [r] matches [w]. *)
Inductive matches : re → option Z → list Z → list Z → Prop :=
  | M_char p x prev after : p x = true → matches (RChar p) prev [x] after
  | M_eps prev after : matches REps prev [] after
  | M_seq a b prev u v after :
      matches a prev u (v ++ after) → matches b (last_rune prev u) v after → matches (a · b) prev (u ++ v) after
  | M_left a b prev w after : matches a prev w after → matches (a ∥ b) prev w after
  | M_right a b prev w after : matches b prev w after → matches (a ∥ b) prev w after
  | M_star_done a prev after : matches (RStar a) prev [] after
  | M_star_more a prev u v after :
      matches a prev u (v ++ after) → matches (RStar a) (last_rune prev u) v after → matches (RStar a) prev (u ++ v) after
  | M_group n a prev w after : matches a prev w after → matches (RGroup n a) prev w after
  | M_word prev after : at_boundary prev after = true → matches RWordB prev [] after
  | M_begin after : matches RBegin None [] after
  | M_end prev : matches REnd prev [] [].

#[export] Hint Constructors matches : regex.

Lemma last_rune_nil prev : last_rune prev [] = prev.
Proof. reflexivity. Qed.

Lemma last_rune_app prev u v : last_rune prev (u ++ v) = last_rune (last_rune prev u) v.
Proof. rewrite /last_rune last_app. by destruct (last v). Qed.

Lemma advance_nil c : advance c [] (cu_rest c) = c.
Proof. destruct c. rewrite /advance /=. f_equal; lia. Qed.

Lemma advance_app c u v after : advance (advance c u (v ++ after)) v after = advance c (u ++ v) after.
Proof. rewrite /advance /= last_rune_app length_app. f_equal; lia. Qed.


(** ** The matcher finds a match exactly when there is one *)

(** Where the matcher got to before it asked [k]. *)
Definition got_to {X} (r : re) (c : cursor) (k : cursor → captures → option X) (x : X) : Prop :=
  ∃ w after g', cu_rest c = w ++ after ∧ matches r (cu_prev c) w after ∧ k (advance c w after) g' = Some x.

Lemma star_loop_sound {X} a (k : cursor → captures → option X) x :
  (∀ c g k', backtrack a c g k' = Some x → got_to a c k' x) →
  ∀ n c g, star_loop (backtrack a) k n c g = Some x → got_to (RStar a) c k x.
Proof.
  intros Ha. induction n as [|n IH]; intros c g; simpl; intros Hx.
  - exists [], (cu_rest c), g. rewrite advance_nil. auto with regex.
  - destruct (backtrack a c g _) as [y|] eqn:E.
    + injection Hx as ->. apply Ha in E as (u & mid & g1 & Hr & Hm & Hk).
      destruct (Nat.eqb_spec (cu_pos (advance c u mid)) (cu_pos c)); [done|].
      apply IH in Hk as (v & after & g2 & Hr2 & Hm2 & Hk). simpl in Hr2, Hm2. subst mid.
      exists (u ++ v), after, g2. rewrite -advance_app -app_assoc. auto with regex.
    + exists [], (cu_rest c), g. rewrite advance_nil. auto with regex.
Qed.

Lemma backtrack_sound {X} r : ∀ c g (k : cursor → captures → option X) x, backtrack r c g k = Some x → got_to r c k x.
Proof.
  induction r as [p| |a IHa b IHb|a IHa b IHb|a IHa|n a IHa| | |]; intros c g k x; simpl; intros Hx.
  - destruct (cu_rest c) as [|y rest] eqn:Hr; [done|]. destruct (p y) eqn:Hp; [|done].
    exists [y], rest, g. rewrite /advance /= Nat.add_1_r. auto with regex.
  - exists [], (cu_rest c), g. rewrite advance_nil. auto with regex.
  - apply IHa in Hx as (u & mid & g1 & Hr & Hm & Hx). apply IHb in Hx as (v & after & g2 & Hr2 & Hm2 & Hx).
    simpl in Hr2, Hm2. subst mid. exists (u ++ v), after, g2. rewrite -advance_app -app_assoc. auto with regex.
  - destruct (backtrack a c g k) eqn:E; [injection Hx as ->; apply IHa in E|apply IHb in Hx].
    + destruct E as (w & after & g1 & ? & ? & ?). exists w, after, g1. auto with regex.
    + destruct Hx as (w & after & g1 & ? & ? & ?). exists w, after, g1. auto with regex.
  - eapply star_loop_sound; [|done]. intros. by eapply IHa.
  - apply IHa in Hx as (w & after & g1 & ? & ? & ?). exists w, after, (<[n := (cu_pos c, cu_pos (advance c w after))]> g1). auto with regex.
  - destruct (at_boundary _ _) eqn:E; [|done]. exists [], (cu_rest c), g. rewrite advance_nil. auto with regex.
  - destruct (cu_prev c) eqn:E; [done|]. exists [], (cu_rest c), g. rewrite advance_nil E. auto with regex.
  - destruct (cu_rest c) eqn:E; [|done]. pose proof (advance_nil c) as Ha. rewrite E in Ha.
    exists [], [], g. rewrite Ha. auto with regex.
Qed.

(** A repetition can leave out its empty rounds. *)
Inductive star_rounds (a : re) : option Z → list Z → list Z → Prop :=
  | Rounds_done prev after : star_rounds a prev [] after
  | Rounds_more prev u v after :
      u ≠ [] → matches a prev u (v ++ after) → star_rounds a (last_rune prev u) v after → star_rounds a prev (u ++ v) after.

Lemma star_has_rounds a prev w after : matches (RStar a) prev w after → star_rounds a prev w after.
Proof.
  intros Hm. remember (RStar a) as r eqn:Hr. induction Hm; simplify_eq.
  - constructor.
  - destruct u as [|y u]; [by apply IHHm2|]. constructor; auto.
Qed.

(** The matcher gets to wherever [r] can get, if [k] has an answer there. *)
Definition gets_to (r : re) : Prop :=
  ∀ X c g (k : cursor → captures → option X) w after,
    cu_rest c = w ++ after → matches r (cu_prev c) w after → (∀ g', is_Some (k (advance c w after) g')) → is_Some (backtrack r c g k).

Lemma star_loop_complete a : gets_to a →
  ∀ X n c g (k : cursor → captures → option X) w after,
    (length w ≤ n)%nat → cu_rest c = w ++ after → star_rounds a (cu_prev c) w after →
    (∀ g', is_Some (k (advance c w after) g')) → is_Some (star_loop (backtrack a) k n c g).
Proof.
  intros Ha X. induction n as [|n IH]; intros c g k w after Hn Hr Hm Hk; simpl.
  - destruct w; [|simpl in Hn; lia]. simpl in Hr. rewrite -Hr advance_nil in Hk. apply Hk.
  - destruct (backtrack a c g _) eqn:E; [done|]. inversion Hm; simplify_eq.
    + simpl in Hr. rewrite -Hr advance_nil in Hk. apply Hk.
    + exfalso. rewrite -app_assoc in Hr. eapply eq_None_not_Some; [exact E|]. eapply Ha; [exact Hr|done|]. intros g'. simpl.
      rewrite length_app in Hn. assert (0 < length u)%nat by (destruct u; [done|simpl; lia]).
      destruct (Nat.eqb_spec (cu_pos c + length u) (cu_pos c)); [lia|].
      eapply (IH (advance c u (v ++ after)) g' k v after); [lia|done|done|]. intros g2. rewrite advance_app. apply Hk.
Qed.

Lemma backtrack_complete r : gets_to r.
Proof.
  induction r as [p| |a IHa b IHb|a IHa b IHb|a IHa|n a IHa| | |]; intros X c g k w after Hr Hm Hk; simpl.
  - inversion Hm; simplify_eq. rewrite Hr /=. case_match; [|done]. specialize (Hk g). by rewrite /advance /= Nat.add_1_r in Hk.
  - inversion Hm; simplify_eq. simpl in Hr. rewrite -Hr advance_nil in Hk. apply Hk.
  - inversion Hm; simplify_eq. rewrite -app_assoc in Hr. eapply IHa; [exact Hr|done|]. intros g'.
    eapply (IHb X (advance c u (v ++ after)) g' k v after); [done|done|]. intros g2. rewrite advance_app. apply Hk.
  - inversion Hm; simplify_eq.
    + destruct (backtrack a c g k) eqn:E; [done|]. exfalso. eapply eq_None_not_Some; [exact E|]. by eapply IHa.
    + destruct (backtrack a c g k) eqn:E; [done|]. by eapply IHb.
  - apply star_has_rounds in Hm. eapply star_loop_complete; [done| |done|done|done]. rewrite Hr length_app. lia.
  - inversion Hm; simplify_eq. eapply IHa; [done|done|]. intros g'. apply Hk.
  - inversion Hm; simplify_eq. simpl in Hr. rewrite Hr. case_match; [|done]. rewrite -Hr advance_nil in Hk. apply Hk.
  - inversion Hm; simplify_eq. destruct (cu_prev c) eqn:E; [done|]. simpl in Hr. rewrite -Hr advance_nil in Hk. apply Hk.
  - inversion Hm; simplify_eq. simpl in Hr. pose proof (advance_nil c) as Ha. rewrite Hr in Ha |- *.
    rewrite Ha in Hk. apply Hk.
Qed.

(** A match the matcher reports is one. *)
Lemma match_here_sound r c m : match_here r c = Some m →
  rm_start m = cu_pos c ∧ ∃ w, cu_rest c = w ++ cu_rest (rm_end m) ∧ cu_pos (rm_end m) = (cu_pos c + length w)%nat ∧
    matches r (cu_prev c) w (cu_rest (rm_end m)).
Proof.
  intros (w & after & g & Hr & Hm & [= <-])%backtrack_sound. split; [done|]. by exists w.
Qed.

Lemma match_here_exact r c :
  is_Some (match_here r c) ↔ ∃ w after, cu_rest c = w ++ after ∧ matches r (cu_prev c) w after.
Proof.
  split.
  - intros [m (_ & w & ? & _ & ?)%match_here_sound]. by exists w, (cu_rest (rm_end m)).
  - intros (w & after & Hr & Hm). by eapply backtrack_complete.
Qed.

Lemma find_from_sound r prev pos rest m : find_from r prev pos rest = Some m →
  ∃ before w, rest = before ++ w ++ text_after m ∧ rm_start m = (pos + length before)%nat ∧
    cu_pos (rm_end m) = (rm_start m + length w)%nat ∧ matches r (last_rune prev before) w (text_after m).
Proof.
  revert prev pos. induction rest as [|x rest IH]; intros prev pos; simpl;
    destruct (match_here r _) as [m'|] eqn:E; intros Hm; simplify_eq.
  - apply match_here_sound in E as (Hs & w & Hr & He & Hm). exists [], w. rewrite Hs /=. split_and!; [done|lia|done|done].
  - apply match_here_sound in E as (Hs & w & Hr & He & Hm). exists [], w. rewrite Hs /=. split_and!; [done|lia|done|done].
  - apply IH in Hm as (before & w & -> & Hs & He & Hm). exists (x :: before), w.
    split_and!; [done|simpl; lia|done|]. change (x :: before) with ([x] ++ before). by rewrite last_rune_app.
Qed.

Lemma find_from_exact r prev pos rest :
  is_Some (find_from r prev pos rest) ↔ ∃ before w after, rest = before ++ w ++ after ∧ matches r (last_rune prev before) w after.
Proof.
  split; [intros [m (before & w & ? & _ & _ & ?)%find_from_sound]; by exists before, w, (text_after m)|].
  intros (before & w & after & -> & Hm). revert prev pos Hm. induction before as [|x before IH]; intros prev pos Hm; simpl.
  - assert (is_Some (match_here r {| cu_prev := prev; cu_pos := pos; cu_rest := w ++ after |})) as [m E]
      by (apply match_here_exact; by exists w, after).
    destruct (w ++ after); simpl; by rewrite E.
  - case_match; [done|]. apply IH. change (x :: before) with ([x] ++ before) in Hm. by rewrite last_rune_app in Hm.
Qed.

(** A text matches when some part of it does. *)
Theorem match_string_exact r s :
  match_string r s = true ↔ ∃ before w after, s = before ++ w ++ after ∧ matches r (last before) w after.
Proof.
  rewrite /match_string bool_decide_eq_true /find_match find_from_exact.
  assert (∀ before, last_rune None before = last before) as Hl by (intros before; rewrite /last_rune; by destruct (last before)).
  split; intros (before & w & after & ? & ?); exists before, w, after; [rewrite -Hl|rewrite Hl]; done.
Qed.
