(* ===== verification/TgParse.v ===== *)
(** Reading a call from a Telegram message (internal/tgsignal: parser.go,
    defaultsl.go; the message tests of explain.go, llm.go, tradectx.go and
    router.go).  A text is its runes; the patterns are [Regex]'s. *)
From S2P Require Import Prelude GoText Model TgSignal Regex.
#[local] Open Scope Z_scope.
#[local] Open Scope go_scope.
#[local] Open Scope re_scope.

Definition zero_TGSignal : TGSignal := {|
  tg_ChatID := 0; tg_MsgID := 0; tg_Underlying := ""; tg_Strike := 0; tg_OptionType := ""; tg_TriggerPaise := 0; tg_SLPaise := 0;
  tg_SLDefault := false; tg_Targets := []; tg_Text := ""; tg_ReceivedAt := zero_time; tg_SentAt := zero_time; tg_ReadMS := 0;
  tg_PublishedAt := zero_time; tg_Edited := false; tg_Source := "" |}.

Definition zero_TGFollowUp : TGFollowUp := {|
  fu_ChatID := 0; fu_MsgID := 0; fu_ReplyToMsgID := 0; fu_Action := ""; fu_NewSLPaise := 0; fu_Strike := 0; fu_OptionType := "";
  fu_Text := ""; fu_ReceivedAt := zero_time |}.

#[export] Instance TGFollowUp_settable : Settable TGFollowUp := λ f, {|
  fu_ChatID := fu_ChatID f; fu_MsgID := fu_MsgID f; fu_ReplyToMsgID := fu_ReplyToMsgID f; fu_Action := fu_Action f;
  fu_NewSLPaise := fu_NewSLPaise f; fu_Strike := fu_Strike f; fu_OptionType := fu_OptionType f; fu_Text := fu_Text f;
  fu_ReceivedAt := fu_ReceivedAt f |}.

(** ** Patterns *)

Definition b_word : re := RWordB.
(** [\d+(?:\.\d+)?], a price. *)
Definition reNumber : re := RPlus RDigit · ROpt (RLit "." · RPlus RDigit).
Definition rePrice : re := reNumber.

Definition reBuy : re := b_word · RLit "BUY" · b_word.
Definition reUnderlying : re :=
  b_word · RGroup 1 (RWords ["BANKNIFTY"; "FINNIFTY"; "MIDCPNIFTY"; "NIFTY"; "SENSEX"; "BANKEX"]) · b_word.
Definition re_option : re := RWords ["CE"; "PE"; "CALL"; "PUT"].
Definition reContract : re :=
  b_word · RGroup 1 (RRange 4 2 RDigit) · RSpaces · RGroup 2 re_option · b_word
  ∥ b_word · RGroup 3 re_option · RSpaces · RGroup 4 (RRange 4 2 RDigit) · b_word.
Definition reTrigger : re :=
  b_word · (RWords ["ENTRY"; "ABOVE"; "NEAR"; "AROUND"] ∥ RLit "BUY" · RPlus RSpace · RLit "AT") · b_word ∥ RLit "@".
Definition re_stop : re := RLit "SL" ∥ RLit "STOP" · RSpaces · RLit "LOSS" ∥ RLit "STOPLOSS".
Definition reSL : re := b_word · re_stop · b_word.
Definition re_targets : re := RLit "TARGET" · ROpt (RLit "S") ∥ RLit "TGT" · ROpt (RLit "S").
Definition reTarget : re := b_word · re_targets · b_word.
Definition reTargetN : re :=
  b_word · re_targets · RSpaces · RDigit · b_word · RStar (RChar (λ x, negb (rune_digit x || (x =? 10)))) · RGroup 1 reNumber.
Definition reEntry : re := b_word · RLit "ENTRY" · b_word.
Definition reSLPoints : re :=
  b_word · re_stop · b_word · RSpaces · ROpt (RChar (λ x, existsb (Z.eqb x) (runes ":=-"))) · RSpaces · ROpt (RLit "₹") · RSpaces ·
  RGroup 1 reNumber · RSpaces · (RLit "POINT" · ROpt (RLit "S") ∥ RLit "PT" · ROpt (RLit "S") ∥ RLit "POINT") · b_word.
Definition reOrdinal : re := b_word · RPlus RDigit · RSpaces · RWords ["ST"; "ND"; "RD"; "TH"] · b_word.

(** explain.go, tradectx.go, router.go: the caller's replies. *)
Definition re_nonword : re := RChar (λ x, negb (rune_word_i x)).
Definition reActive : re :=
  RBegin · RStar re_nonword · RLitI "active" · ROpt (RPlus RSpace · RLitI "now") · RStar re_nonword · REnd.
Definition re_other `{UT : UnicodeTables} (letter : Z → bool) : re := RStar (RChar (λ x, negb (letter x || rune_digit x))).
Definition rePricePost `{UT : UnicodeTables} : re := RBegin · re_other rune_letter · RGroup 1 reNumber · re_other rune_letter · REnd.
Definition reFastExit `{UT : UnicodeTables} : re :=
  RBegin · re_other rune_letter_i ·
  (RLitI "exit" · ROpt (RLitI " now" ∥ RLitI " kar" · ROpt (RLit " ") · RLitI "do" ∥ RLitI " karo")
   ∥ RLitI "ctc exit" ∥ RLitI "exit at cost"
   ∥ ROpt (RLitI "jaldi ") · RLitI "niklo" · ROpt (RLitI " bhai")
   ∥ RLitI "nikal jao" · ROpt (RLitI " abhi")
   ∥ ROpt (RLitI "trailing ") · RLitI "sl hit"
   ∥ RLitI "all target" · ROpt (RLitI "s") · RLitI " done") ·
  re_other rune_letter_i · REnd.
Definition reSaysSLHit : re := b_word · RLitI "sl hit" · b_word.
Definition reSaysTgtHit : re := b_word · RLitI "target" · ROpt (RLitI "s") · RLitI " done" · b_word.
Definition reCtxWords : re := b_word · RLitI "active" · b_word.

(** llm.go: the words worth an LLM call. *)
Definition llmKeywords : re :=
  b_word · RWordsI ["buy"; "sell"; "nifty"; "sensex"; "target"; "tgt"; "sl"; "stop"; "stoploss"; "exit"; "book"; "cost"; "ctc"; "trail";
                    "trailing"; "cancel"; "avoid"; "hit"; "done"; "close"; "square"] · b_word
  ∥ b_word · RRange 4 2 RDigit · RSpaces · RWordsI ["ce"; "pe"] · b_word
  ∥ b_word · RWordsI ["ce"; "pe"] · RSpaces · RRange 4 2 RDigit · b_word.

(** ** Prices *)

(** "120" or "120.5" in paise; a whole part past an int64 is 0. *)
Definition toPaise (s : string) : Z :=
  let '(whole, frac, _) := cut_at "." s in
  match parse_int whole with
  | None => 0
  | Some r => r *! 100 +! default 0 (parse_int (str_take 2 (frac +:+ "00")))
  end.

(** "172.00"; handler.go. *)
Definition rupees (p : Z) : string := format_int (p /! 100) +:+ "." +:+ format_02d (p %! 100).

Definition cleanPrice (s : string) : string :=
  let rs := runes s in match find_match rePrice rs with Some m => text_of (match_text rs m) | None => "" end.

(** The first line of a text. *)
Fixpoint first_line (s : list Z) : list Z :=
  match s with [] => [] | x :: s => if x =? 10 then [] else x :: first_line s end.

Inductive price_key := KeyTrigger | KeySL | KeyTarget.
#[export] Instance price_key_eq_dec : EqDecision price_key.
Proof. solve_decision. Defined.
Definition key_re (k : price_key) : re := match k with KeyTrigger => reTrigger | KeySL => reSL | KeyTarget => reTarget end.

Definition cut_before (r : re) (s : list Z) : list Z := match find_match r s with Some m => text_before s m | None => s end.

Definition numbersAfter (text : list Z) (key : price_key) : list Z :=
  match find_match (key_re key) text with
  | None => []
  | Some m =>
      let line := first_line (text_after m) in
      let line := foldl (λ line other, if decide (other = key) then line else cut_before (key_re other) line) line
                    [KeyTrigger; KeySL; KeyTarget] in
      let line := replace_all reOrdinal (runes " ") line in
      (λ n, toPaise (text_of (match_text line n))) <$> find_all reNumber line
  end.

(** ** Parse *)

Inductive parse_error := ErrNotACall | ErrNoSL | ErrRefused (why : string).
#[export] Instance parse_error_eq_dec : EqDecision parse_error.
Proof. solve_decision. Defined.

Definition parse_error_text (e : parse_error) : string :=
  match e with ErrNotACall => "not a buy call" | ErrNoSL => "no stop loss" | ErrRefused why => why end.

Definition supported (underlying : string) : bool := String.eqb underlying "NIFTY" || String.eqb underlying "SENSEX".

(** The strike and side of the contract named. *)
Definition contract_fields (up : list Z) (c : rmatch) : string * string :=
  match group_text up c 1 with
  | [] => (text_of (group_text up c 4), text_of (group_text up c 3))
  | strike => (text_of strike, text_of (group_text up c 2))
  end.

(** What follows the first occurrence of the contract's text. *)
Definition after_contract (up : list Z) (c : rmatch) : list Z :=
  let w := match_text up c in drop (default 0%nat (rune_index w up) + length w) up.

(** The entry, the stop and the targets named after the contract. *)
Definition read_levels (rest : list Z) (sig : TGSignal) : TGSignal :=
  let sig := match numbersAfter rest KeyTrigger with n :: _ => sig <| tg_TriggerPaise := n |> | [] => sig end in
  let sig := match find_match reSLPoints rest with
             | Some m => if 0 <? tg_TriggerPaise sig
                         then sig <| tg_SLPaise := tg_TriggerPaise sig -! toPaise (text_of (group_text rest m 1)) |> else sig
             | None => match numbersAfter rest KeySL with n :: _ => sig <| tg_SLPaise := n |> | [] => sig end
             end in
  match find_all reTargetN rest with
  | [] => sig <| tg_Targets := numbersAfter rest KeyTarget |>
  | ms => sig <| tg_Targets := (λ m, toPaise (text_of (group_text rest m 1))) <$> ms |>
  end.

Definition check_call (sig : TGSignal) : option parse_error :=
  if tg_SLPaise sig =? 0
  then Some (match call_Validate (sig <| tg_SLPaise := 1 |>) with Some why => ErrRefused why | None => ErrNoSL end)
  else ErrRefused <$> call_Validate sig.

Definition Parse `{UT : UnicodeTables} (text : string) : TGSignal * option parse_error :=
  let up := upper_runes (runes text) in
  let none := zero_TGSignal in
  if negb (match_string reBuy up) && negb (match_string reEntry up && match_string reTarget up) then (none, Some ErrNotACall)
  else match find_match reContract up with
  | None => (none, Some ErrNotACall)
  | Some c =>
      let n := Z.of_nat (length (find_all reContract up)) in
      if 1 <? n then (none, Some (ErrRefused (format_int n +:+ " contracts in one message")))
      else match find_match reUnderlying up with
      | None => (none, Some (ErrRefused "no index named"))
      | Some u =>
          let und := text_of (group_text up u 1) in
          if negb (supported und) then (none, Some (ErrRefused (und +:+ " not supported")))
          else
            let '(strike, opt) := contract_fields up c in
            let sig := none <| tg_Underlying := und |> <| tg_Strike := default 0 (parse_int strike) |>
                         <| tg_OptionType := if String.eqb opt "PE" || String.eqb opt "PUT" then "PE" else "CE" |> in
            let sig := read_levels (after_contract up c) sig <| tg_Text := text |> in
            (sig, check_call sig)
      end
  end.

Definition isCall `{UT : UnicodeTables} (text : string) : bool :=
  match snd (Parse text) with None | Some ErrNoSL => true | Some _ => false end.

(** ** A default stop *)

Definition defaultSL (trigger pct : Z) : Z := trigger *! (100 -! pct) /! 100.

Definition withDefaultSL (rx : TGSignal) (rxErr : option parse_error) (pct : Z) : TGSignal * option parse_error :=
  if (pct <=? 0) || bool_decide (rxErr ≠ Some ErrNoSL) then (rx, rxErr)
  else
    let rx := rx <| tg_SLPaise := defaultSL (tg_TriggerPaise rx) pct |> <| tg_SLDefault := true |> in
    (rx, ErrRefused <$> call_Validate rx).

(** ** Messages *)

(** The premium of a bare price post, 0 if the text is not one. *)
Definition pricePost `{UT : UnicodeTables} (text : string) : Z :=
  let rs := runes text in
  match find_match rePricePost rs with Some m => toPaise (text_of (group_text rs m 1)) | None => 0 end.

Definition fastExitAction (text : string) : TGFollowUpAction :=
  if match_string reSaysSLHit (runes text) then TGSLHit
  else if match_string reSaysTgtHit (runes text) then TGTargetHit
  else TGExit.

Definition needsLLM `{UT : UnicodeTables} (text : string) (replyToCall : bool) : bool :=
  let rs := runes text in
  if Z.of_nat (length (filter (λ r, rune_letter r = true) rs)) <? 3 then false else replyToCall || match_string llmKeywords rs.

(** ** Real messages *)

#[local] Instance ascii_tables : UnicodeTables := {| unicode_letter := λ _, false; unicode_upper := λ r, r |}.

Definition nl : string := String "010"%char EmptyString.
Definition read_as (p : TGSignal * option parse_error) : option (string * Z * string * Z * Z * list Z) :=
  match p with
  | (s, None) => Some (tg_Underlying s, tg_Strike s, tg_OptionType s, tg_TriggerPaise s, tg_SLPaise s, tg_Targets s)
  | _ => None
  end.

Example parse_intraday_call :
  read_as (Parse ("F&O | ⚡ INTRADAY" +:+ nl +:+ nl +:+ "🟢 BUY NIFTY PE 22750" +:+ nl +:+ nl +:+ "💰 Entry: Near Above 191.00" +:+ nl +:+
    "🎯 Target:1st: ₹202.00 , 2ND:221 " +:+ nl +:+ "🛑 Stop Loss: ₹182.00" +:+ nl +:+ nl +:+ "Wait for entry "))
  = Some ("NIFTY", 22750, "PE", 19100, 18200, [20200; 22100])%string.
Proof. vm_compute. reflexivity. Qed.

Example parse_points_stop :
  read_as (Parse "BUY NIFTY 24250 CE above 90 SL 15 point target 100") = Some ("NIFTY", 24250, "CE", 9000, 7500, [10000])%string.
Proof. vm_compute. reflexivity. Qed.

Example parse_expiry :
  read_as (Parse ("🔥 BUY SENSEX 28 OCT 81000 CE 🔥" +:+ nl +:+ "Near : 210" +:+ nl +:+ "SL: 180" +:+ nl +:+ "Target: 240, 270, 300+"))
  = Some ("SENSEX", 81000, "CE", 21000, 18000, [24000; 27000; 30000])%string.
Proof. vm_compute. reflexivity. Qed.

Example parse_refusals :
  snd (Parse "TARGET 1 DONE 140 🎯") = Some ErrNotACall ∧
  snd (Parse "BUY NIFTY 24500 CE ABOVE 120 TARGET 140") = Some ErrNoSL ∧
  snd (Parse "BUY NIFTY 24500 CE ABOVE 120 SL 130") = Some (ErrRefused "stop 13000 not below entry 12000") ∧
  snd (Parse "BUY BANKNIFTY 52000 CE ABOVE 300 SL 250") = Some (ErrRefused "BANKNIFTY not supported").
Proof. vm_compute. done. Qed.

Example replies :
  pricePost "➡️280🔥🔥🔥" = 28000 ∧ match_string reActive (runes "Active 🔥🔥") = true ∧
  match_string reActive (runes "Active hone ka wait karna") = false ∧ match_string reFastExit (runes "🛑 Exit kar do !!") = true ∧
  fastExitAction "Trailing SL hit" = TGSLHit ∧ needsLLM "193🔥🔥" false = false ∧ needsLLM "Sl ctc kar lena" false = true.
Proof. vm_compute. done. Qed.
