(* ===== verification/TgPrompt.v ===== *)
(** The language model's instructions (internal/tgsignal/llm.go) and what a
    request is expected to cost.  Prompts are the code's raw strings, a
    backquote standing for each double quote. *)
From S2P Require Import Prelude GoText Model TgSignal Regex TgParse.
#[local] Open Scope Z_scope.

Fixpoint raw (s : string) : string :=
  match s with
  | EmptyString => EmptyString
  | String c s => String (if Ascii.eqb c "`" then "034" else c) (raw s)
  end.

Definition promptHead : string := raw "Extract trade instructions from an Indian options Telegram group (Hinglish) as JSON.
First write `english`: the message in plain English, at most 15 words. Then decide every other field from that English meaning.".
Definition promptNewCall : string := raw "kind new_call: a NEW option buy, even if it also says `Wait for entry`, `Candle closing ka wait karna` or has a disclaimer. `BUY NIFTY PE 22750` = strike 22750, PE (CALL=CE, PUT=PE). `Near Above 191`/`above 191`/`@191` -> trigger `191`. `Stop Loss ₹182`/`SL 182` -> sl `182`; `SL 15 point` -> sl = trigger-15. targets: all target prices in order, skip 1st/2nd words. Prices are premiums, never the strike. `ENTRY PRICE ➖ 50` -> trigger `50` (a call even without the word BUY). `Stoploss : PAID`/`SL paid` (stop kept for paid members) -> sl `` and does not lower confidence; numbered `Target 1 60, Target 2 80` -> targets [`60`,`80`]. Two different contracts, levels for tomorrow, or a missing entry -> confidence `low`.".
Definition promptNewCallShort : string := raw "kind new_call: only a message that posts a NEW contract with its own entry: fill underlying, strike, option_type (CALL=CE, PUT=PE), trigger, sl, targets (premiums, never the strike).".
Definition promptFollowUp : string := raw "kind follow_up: about an earlier call (reply text or trade context given).
- activate: the caller says the call is live now: `Active`, `Active 🔥`, `entry active`, `entry done`, `abhi le lo`, `entry le lo`. Not: `active hone ka wait karna`, `abi active nhi hua`, `wait for entry` (those are noise).
- exit: `exit`, `ctc exit`, `close`, `book full profit`, `niklo`, `jaldi niklo`, `nikal jao`, `bahar aa jao`, `exit kar do`. An exit needs no price: English `get out`/`exit`/`close` about the call = exit.
- sl_hit: `Sl hit`, `Trailing sl hit`
- target_hit: `All target done`
- move_sl: `Sl ctc kar lena`/`SL cost` -> new_sl = the call's entry; `sl 112 par le aao` -> new_sl `112`; no price -> new_sl ``
- cancel: `avoid`, `cancel`, `skip`".
Definition promptFollowUpShort : string := raw "kind follow_up: a message about an earlier call (exit, stop moved, target hit, cancel).".
Definition promptNoise : string := raw "kind noise: messages with no call or follow-up: price ticks `193🔥`/`55 ✅`, result recaps `280 To 400`/`70 ➜ 150 Target HIT`, a lone `wait for entry`, `not active yet`, `First target done`, `Abi ctc h`, partial booking `Kuchh profit book kar lena`, optional advice `Safe trader exit kar sakte h`/`Only risky traders`, promotions, gold/forex.".
Definition promptContext : string := raw "Trade context: it shows the call, our state and the earlier messages about it. Read the new message in that context. about_call: true if the new message is about that call, false if about something else (another contract, promotion, chat).".
Definition promptTail : string := raw "about_call: false when no trade context is given.
Unused: `` strings, 0 strike, [] targets, action `none`. confidence `high` only if every needed field is explicit. reason: few words.".

Definition joinPrompt (parts : list string) : string := str_join (nl +:+ nl) parts.
Definition llmSystemPrompt : string := joinPrompt [promptHead; promptNewCall; promptFollowUp; promptNoise; promptContext; promptTail].
Definition llmCallPrompt : string := joinPrompt [promptHead; promptNewCall; promptFollowUpShort; promptNoise; promptTail].
Definition llmContextPrompt : string :=
  joinPrompt [promptHead; promptNewCallShort; promptFollowUp; promptNoise; promptContext; promptTail].

(** The start of a trade context (tradectx.go). *)
Definition ctxHeader : string := "Trade context".

Definition systemPromptFor `{UT : UnicodeTables} (text contextText : string) : string :=
  if has_prefix ctxHeader contextText then llmContextPrompt
  else if String.eqb contextText "" && isCall text then llmCallPrompt
  else llmSystemPrompt.

Definition llmMaxTokens : Z := 200.

(** A request's tokens: a quarter of its bytes and the longest reply; llmsched.go. *)
Definition str_len (s : string) : Z := Z.of_nat (String.length s).
Definition estimate `{UT : UnicodeTables} (text ctxText : string) : Z :=
  (str_len (systemPromptFor text ctxText) + str_len text + str_len ctxText) / 4 + llmMaxTokens.

(** FNV-1a over the text, a zero byte and the context; llmsched.go. *)
Definition fnv_byte (h : Z) (c : ascii) : Z := Z.lxor h (Z.of_N (N_of_ascii c)) * 1099511628211 mod 2 ^ 64.
Fixpoint fnv_write (h : Z) (s : string) : Z := match s with EmptyString => h | String c s => fnv_write (fnv_byte h c) s end.
Definition fnv_basis : Z := 14695981039346656037.
Definition promptKey (text ctxText : string) : Z := fnv_write (fnv_byte (fnv_write fnv_basis text) zero) ctxText.

(** The published test vector for "a". *)
Example fnv_a : fnv_write fnv_basis "a" = 12638187200555641996.
Proof. vm_compute. reflexivity. Qed.

(** A smaller prompt is smaller. *)
Example prompt_sizes :
  (str_len llmCallPrompt <? str_len llmSystemPrompt) && (str_len llmContextPrompt <? str_len llmSystemPrompt) = true.
Proof. vm_compute. reflexivity. Qed.
