(* ===== verification/TgDecide.v ===== *)
(** What to do with one Telegram message (internal/tgsignal: handler.go's
    decisions, the readings of llm.go, defaultsl.go, explain.go): the regular
    expressions' reading and the language model's are combined by code, and
    any conflict between them is no trade.

    The model's reply is data: [LLMResult] is what came back, [read_error] why
    nothing did.

    A decision has a call only when the two readings agree, or on the one
    that exists; such a call can be traded; and a default stop survives its
    trip through text.  What the router publishes is TgPublished.v's. *)
From Stdlib Require Import ssreflect.
From S2P Require Import Prelude GoText Model TgSignal Regex TgParse.
#[local] Open Scope Z_scope.
#[local] Open Scope go_scope.

(** ** Readings *)

Record Usage := { us_Prompt : Z; us_Completion : Z; us_Total : Z }.
Definition no_Usage : Usage := {| us_Prompt := 0; us_Completion := 0; us_Total := 0 |}.
Record rateInfo := { ri_ok : bool; ri_remainingTokens : Z; ri_reset : Duration }.
Definition no_rate : rateInfo := {| ri_ok := false; ri_remainingTokens := 0; ri_reset := 0 |}.

(** [RateError] is a *rateError: the provider refuses for now. *)
Inductive read_error :=
  | ErrLLMStale
  | RateError (wait : Duration) (rate : rateInfo) (text : string)
  | ReadError (text : string).

Definition read_error_text (e : read_error) : string :=
  match e with
  | ErrLLMStale => "LLM read not started before its deadline"
  | RateError _ _ t | ReadError t => t
  end.

Record LLMResult := {
  lr_English : string; lr_Kind : string; lr_Underlying : string; lr_Strike : Z; lr_OptionType : string; lr_Trigger : string;
  lr_SL : string; lr_Targets : list string; lr_Action : string; lr_NewSL : string; lr_AboutCall : bool; lr_Confidence : string;
  lr_Reason : string; lr_Usage : Usage; lr_rate : rateInfo; lr_slDefault : bool }.

Definition zero_LLMResult : LLMResult := {|
  lr_English := ""; lr_Kind := ""; lr_Underlying := ""; lr_Strike := 0; lr_OptionType := ""; lr_Trigger := ""; lr_SL := "";
  lr_Targets := []; lr_Action := ""; lr_NewSL := ""; lr_AboutCall := false; lr_Confidence := ""; lr_Reason := ""; lr_Usage := no_Usage;
  lr_rate := no_rate; lr_slDefault := false |}.

#[export] Instance LLMResult_settable : Settable LLMResult := λ r, {|
  lr_English := lr_English r; lr_Kind := lr_Kind r; lr_Underlying := lr_Underlying r; lr_Strike := lr_Strike r;
  lr_OptionType := lr_OptionType r; lr_Trigger := lr_Trigger r; lr_SL := lr_SL r; lr_Targets := lr_Targets r;
  lr_Action := lr_Action r; lr_NewSL := lr_NewSL r; lr_AboutCall := lr_AboutCall r; lr_Confidence := lr_Confidence r;
  lr_Reason := lr_Reason r; lr_Usage := lr_Usage r; lr_rate := lr_rate r; lr_slDefault := lr_slDefault r |}.

(** strings.TrimSpace and strings.ToUpper, outside ASCII too. *)
Definition unicode_space (r : Z) : bool :=
  rune_between 9 13 r || rune_between 8192 8202 r || existsb (Z.eqb r) [32; 133; 160; 5760; 8232; 8233; 8239; 8287; 12288].
Fixpoint drop_spaces (s : list Z) : list Z :=
  match s with [] => [] | x :: s' => if unicode_space x then drop_spaces s' else s end.
Definition trim_runes (s : list Z) : list Z := reverse (drop_spaces (reverse (drop_spaces s))).
Definition upper_text `{UT : UnicodeTables} (s : string) : string := text_of (upper_runes (runes s)).

Definition llm_price (s : string) : Z := toPaise (cleanPrice s).

Definition Call `{UT : UnicodeTables} (r : LLMResult) : TGSignal :=
  zero_TGSignal <| tg_Underlying := text_of (upper_runes (trim_runes (runes (lr_Underlying r)))) |> <| tg_Strike := lr_Strike r |>
    <| tg_OptionType := upper_text (lr_OptionType r) |> <| tg_TriggerPaise := llm_price (lr_Trigger r) |>
    <| tg_SLPaise := llm_price (lr_SL r) |> <| tg_SLDefault := lr_slDefault r |>
    <| tg_Targets := filter (λ p, 0 < p) (llm_price <$> lr_Targets r) |>.

Definition FollowUp `{UT : UnicodeTables} (r : LLMResult) : TGFollowUp :=
  zero_TGFollowUp <| fu_Action := lr_Action r |> <| fu_NewSLPaise := llm_price (lr_NewSL r) |> <| fu_Strike := lr_Strike r |>
    <| fu_OptionType := upper_text (lr_OptionType r) |>.

Definition llmWithDefaultSL (r : LLMResult) (pct : Z) : LLMResult :=
  if (pct <=? 0) || negb (String.eqb (lr_Kind r) "new_call") || (0 <? llm_price (lr_SL r)) then r
  else
    let trig := llm_price (lr_Trigger r) in
    if trig <=? 0 then r
    else r <| lr_SL := rupees (defaultSL trig pct) |> <| lr_slDefault := true |>.

(** ** Decisions *)

Definition VerdictSent : string := "SENT".
Definition VerdictDisagree : string := "DISAGREE".
Definition VerdictRefused : string := "REFUSED".
Definition VerdictFollowUp : string := "FOLLOW_UP".
Definition VerdictNoise : string := "NOISE".
Definition VerdictSkipped : string := "SKIPPED".
Definition VerdictOld : string := "OLD".
Definition VerdictError : string := "ERROR".
Definition VerdictContext : string := "CONTEXT".
Definition VerdictStale : string := "LLM_STALE".
Definition VerdictAuditDisagree : string := "AUDIT_DISAGREE".

Record decision := { de_verdict : string; de_reason : string; de_call : option TGSignal; de_followUp : option TGFollowUp; de_callMsgID : Z }.

#[export] Instance decision_settable : Settable decision := λ d, {|
  de_verdict := de_verdict d; de_reason := de_reason d; de_call := de_call d; de_followUp := de_followUp d;
  de_callMsgID := de_callMsgID d |}.

(** Nothing to publish. *)
Definition verdict (v why : string) : decision :=
  {| de_verdict := v; de_reason := why; de_call := None; de_followUp := None; de_callMsgID := 0 |}.

Definition activateReply : decision :=
  verdict VerdictFollowUp "caller says Active" <| de_followUp := Some (zero_TGFollowUp <| fu_Action := TGActivate |>) |>.

Definition confirmed (callMsgID : Z) (why : string) : decision :=
  verdict VerdictFollowUp why <| de_callMsgID := callMsgID |> <| de_followUp := Some (zero_TGFollowUp <| fu_Action := TGActivate |>) |>.

Definition decideRegex (rx : TGSignal) (rxErr : option parse_error) : decision :=
  match rxErr with
  | Some ErrNotACall => verdict VerdictNoise "regex: not a call"
  | Some e => verdict VerdictRefused ("regex: " +:+ parse_error_text e)
  | None => verdict VerdictSent "regex" <| de_call := Some (rx <| tg_Source := "REGEX" |>) |>
  end.

Definition diff_field (name : string) (same : bool) (x y : string) : string :=
  if same then "" else name +:+ " " +:+ x +:+ "≠" +:+ y +:+ " ".
Definition diff_text (name x y : string) : string := diff_field name (String.eqb x y) x y.
Definition diff_int (name : string) (x y : Z) : string := diff_field name (x =? y) (format_int x) (format_int y).

(** The fields two readings disagree on. *)
Definition callDiff (a b : TGSignal) : string :=
  diff_text "underlying" (tg_Underlying a) (tg_Underlying b) +:+ diff_int "strike" (tg_Strike a) (tg_Strike b) +:+
  diff_text "type" (tg_OptionType a) (tg_OptionType b) +:+ diff_int "entry" (tg_TriggerPaise a) (tg_TriggerPaise b) +:+
  diff_int "sl" (tg_SLPaise a) (tg_SLPaise b).

Definition decide_new_call `{UT : UnicodeTables} (rx : TGSignal) (rxErr : option parse_error) (llm : LLMResult) : decision :=
  let lc := Call llm in
  match rxErr with
  | None =>
      let diff := callDiff rx lc in
      if String.eqb diff "" then
        verdict VerdictSent ("regex + LLM agree: " +:+ lr_Reason llm) <| de_call := Some (rx <| tg_Source := "AGREE" |>) |>
      else verdict VerdictDisagree ("regex and LLM differ: " +:+ diff)
  | Some e =>
      if negb (supported (tg_Underlying lc)) then verdict VerdictRefused ("LLM: " +:+ format_q (tg_Underlying lc) +:+ " not supported")
      else match call_Validate lc with
           | Some why => verdict VerdictRefused ("LLM call: " +:+ why)
           | None =>
               if negb (String.eqb (lr_Confidence llm) "high") then
                 verdict VerdictRefused ("LLM-only call with " +:+ lr_Confidence llm +:+ " confidence: " +:+ lr_Reason llm)
               else verdict VerdictSent ("LLM only (regex: " +:+ parse_error_text e +:+ "): " +:+ lr_Reason llm)
                      <| de_call := Some (lc <| tg_Source := "LLM_ONLY" |>) |>
           end
  end.

Definition decide_follow_up `{UT : UnicodeTables} (rxErr : option parse_error) (llm : LLMResult) : decision :=
  match rxErr with
  | None => verdict VerdictDisagree ("regex read a call, LLM a follow-up: " +:+ lr_Reason llm)
  | Some _ =>
      let f := FollowUp llm in
      match followup_Validate f with
      | Some why => verdict VerdictRefused ("follow-up: " +:+ why)
      | None => verdict VerdictFollowUp (lr_Reason llm) <| de_followUp := Some f |>
      end
  end.

Definition decide_noise (rxErr : option parse_error) (llm : LLMResult) : decision :=
  match rxErr with
  | None => verdict VerdictDisagree ("regex read a call, LLM says noise: " +:+ lr_Reason llm)
  | Some _ => verdict VerdictNoise (lr_Reason llm)
  end.

(** No reading: the regular expressions decide. *)
Definition decide_unread (rx : TGSignal) (rxErr : option parse_error) (e : read_error) : decision :=
  let d := decideRegex rx rxErr in
  d <| de_reason := "LLM unavailable (" +:+ read_error_text e +:+ "); " +:+ de_reason d |>
    <| de_verdict := if String.eqb (de_verdict d) VerdictNoise then VerdictError else de_verdict d |>.

(** The model's reading, or why there is none. *)
Definition reading : Type := LLMResult * option read_error.

Definition decide `{UT : UnicodeTables} (rx : TGSignal) (rxErr : option parse_error) (r : reading) : decision :=
  let '(llm, llmErr) := r in
  match llmErr with
  | Some e => decide_unread rx rxErr e
  | None =>
      if String.eqb (lr_Kind llm) "new_call" then decide_new_call rx rxErr llm
      else if String.eqb (lr_Kind llm) "follow_up" then decide_follow_up rxErr llm
      else decide_noise rxErr llm
  end.

(** What was read, in a line. *)
Definition what (d : decision) : string :=
  match de_call d, de_followUp d with
  | Some c, _ =>
      "BUY " +:+ tg_Underlying c +:+ " " +:+ format_int (tg_Strike c) +:+ tg_OptionType c +:+ " above " +:+ rupees (tg_TriggerPaise c) +:+
      " SL " +:+ rupees (tg_SLPaise c) +:+ (if tg_SLDefault c then " default" else "") +:+ " (" +:+ tg_Source c +:+ ")"
  | None, Some f => if String.eqb (fu_Action f) TGMoveSL then "move stop to " +:+ rupees (fu_NewSLPaise f) else fu_Action f
  | None, None => ""
  end.

Definition summary (d : decision) : string :=
  let s := what d in
  if negb (de_callMsgID d =? 0) && negb (String.eqb s "") then "call " +:+ format_int (de_callMsgID d) +:+ ": " +:+ s else s.

(** Explain's decision on one message, out of any trade context; [read] is
    what a reader would answer. *)
Definition Explain `{UT : UnicodeTables} (reader : option reading) (text replyText : string) (isReply : bool) (slPct : Z) : decision :=
  let '(rx, rxErr) := Parse text in
  let '(rx, rxErr) := withDefaultSL rx rxErr slPct in
  if isReply && match_string reActive (runes text) && isCall replyText then activateReply
  else match reader with
  | None => decideRegex rx rxErr
  | Some r =>
      if negb (needsLLM text (isReply && negb (String.eqb replyText "") && isCall replyText)) then verdict VerdictSkipped "no trade words"
      else decide rx rxErr (llmWithDefaultSL (fst r) slPct, snd r)
  end.

(** ** Text in ASCII *)

Definition is_ascii (c : ascii) : bool := (N_of_ascii c <? 128)%N.
Definition code (c : ascii) : Z := Z.of_N (N_of_ascii c).
Definition codes (s : string) : list Z := code <$> String.list_ascii_of_string s.

Lemma runes_ascii s : str_all is_ascii s = true → runes s = codes s.
Proof.
  rewrite /runes /codes. induction s as [|c s IH]; [done|]. cbn [str_all String.length String.list_ascii_of_string runes_fuel].
  move => /andb_true_iff [Hc Hs]. rewrite /decode_rune. apply N.ltb_lt in Hc.
  destruct (Z.ltb_spec (Z.of_N (N_of_ascii c)) 128); [|lia]. rewrite fmap_cons. f_equal. by apply IH.
Qed.

Lemma text_of_codes s : str_all is_ascii s = true → text_of (codes s) = s.
Proof.
  rewrite /text_of /codes. induction s as [|c s IH]; [done|]. cbn [str_all String.list_ascii_of_string].
  move => /andb_true_iff [/N.ltb_lt Hc Hs]. rewrite fmap_cons bind_cons.
  rewrite /encode_rune /code. destruct (Z.ltb_spec (Z.of_N (N_of_ascii c)) 128); [|lia].
  rewrite /byte N2Z.id ascii_N_embedding. cbn. f_equal. by apply IH.
Qed.

Lemma codes_app a b : codes (a +:+ b) = codes a ++ codes b.
Proof. rewrite /codes -fmap_app. f_equal. induction a as [|c a IH]; [done|]. exact (f_equal (cons c) IH). Qed.

Lemma codes_digits s : str_all is_digit s = true → Forall (λ r, rune_digit r = true) (codes s).
Proof.
  rewrite /codes. induction s as [|c s IH]; [constructor|]. cbn [str_all String.list_ascii_of_string].
  move => /andb_true_iff [/is_digit_range Hc Hs]. rewrite fmap_cons. constructor; [|by apply IH].
  rewrite /rune_digit /rune_between /code. apply andb_true_iff. split; apply Z.leb_le; lia.
Qed.

Lemma digit_is_ascii c : is_digit c = true → is_ascii c = true.
Proof. move => /is_digit_range ?. apply N.ltb_lt. lia. Qed.

(** ** The longest run of digits *)

Lemma star_digit {X} n c d rest g (k : cursor → captures → option X) : cu_rest c = d :: rest →
  star_loop (backtrack RDigit) k (S n) c g =
  match (if rune_digit d then star_loop (backtrack RDigit) k n (advance c [d] rest) g else None) with Some x => Some x | None => k c g end.
Proof.
  intros Hr. cbn [star_loop]. rewrite {1}/RDigit. cbn [backtrack]. rewrite Hr. destruct (rune_digit d); [|done].
  cbn [cu_pos]. destruct (Nat.eqb_spec (S (cu_pos c)) (cu_pos c)); [lia|]. by rewrite /advance /= Nat.add_1_r.
Qed.

Lemma digits_run {X} ds : ∀ n c rest g (k : cursor → captures → option X) x,
  Forall (λ r, rune_digit r = true) ds → cu_rest c = ds ++ rest → (length ds ≤ n)%nat →
  (∀ r, head rest = Some r → rune_digit r = false) →
  k (advance c ds rest) g = Some x → star_loop (backtrack RDigit) k n c g = Some x.
Proof.
  induction ds as [|d ds IH]; intros n c rest g k x Hd Hr Hn Hrest Hk.
  - simpl in Hr. rewrite -Hr advance_nil in Hk. destruct n as [|n]; [done|].
    destruct (cu_rest c) as [|r rest'] eqn:Hc; [by cbn [star_loop backtrack RDigit]; rewrite Hc|].
    rewrite (star_digit _ _ r rest') // (Hrest r) //. by rewrite -Hr.
  - apply Forall_cons in Hd as [Hd Hds]. destruct n as [|n]; [simpl in Hn; lia|].
    rewrite (star_digit _ _ d (ds ++ rest)) // Hd.
    rewrite (IH n _ rest g k x) //; [simpl in Hn; lia|].
    rewrite advance_app. done.
Qed.

Lemma plus_digits {X} d ds c rest g (k : cursor → captures → option X) x :
  Forall (λ r, rune_digit r = true) (d :: ds) → cu_rest c = (d :: ds) ++ rest →
  (∀ r, head rest = Some r → rune_digit r = false) →
  k (advance c (d :: ds) rest) g = Some x → backtrack (RPlus RDigit) c g k = Some x.
Proof.
  intros [Hd Hds]%Forall_cons Hr Hrest Hk. rewrite /RPlus. cbn [backtrack]. rewrite {1}/RDigit. cbn [backtrack].
  rewrite Hr /= Hd. apply (digits_run ds _ _ rest); [done|done|rewrite /= length_app; lia|done|].
  rewrite -Hk. change (d :: ds) with ([d] ++ ds). rewrite -advance_app. by rewrite /advance /= Nat.add_1_r.
Qed.

(** A printed price is read whole: the pattern takes all of its digits. *)
Lemma match_price ds d fs : Forall (λ r, rune_digit r = true) (d :: ds) → Forall (λ r, rune_digit r = true) fs → fs ≠ [] →
  let s := (d :: ds) ++ 46 :: fs in ∃ m, find_match rePrice s = Some m ∧ match_text s m = s.
Proof.
  intros Hd Hfs Hne s. destruct fs as [|f fs]; [done|].
  set c := cursor_at s. set e := advance (advance c ((d :: ds) ++ [46]) (f :: fs)) (f :: fs) [].
  set m := {| rm_start := 0; rm_end := e; rm_groups := ∅ |}. exists m. split.
  - assert (match_here rePrice c = Some m) as Hm.
    { rewrite /match_here /rePrice /reNumber. cbn [backtrack]. apply (plus_digits d ds c (46 :: f :: fs)); [done|done|by intros r [= <-]|].
      change (RLit ".") with (RChar (Z.eqb 46) · REps)%re. rewrite /ROpt. cbn [backtrack advance cu_rest]. rewrite Z.eqb_refl.
      rewrite (plus_digits f fs _ [] _ _ m) //; [by rewrite app_nil_r|].
      rewrite /m /e -(advance_app c (d :: ds) [46] (f :: fs)). do 3 f_equal. rewrite /advance. f_equal. simpl. lia. }
    rewrite /find_match. change (find_from rePrice None 0 s) with (match match_here rePrice c with Some m => Some m
      | None => find_from rePrice (Some d) 1 (ds ++ 46 :: f :: fs) end). by rewrite Hm.
  - rewrite /match_text /slice /m. cbn [rm_start rm_end]. rewrite Nat.sub_0_r drop_0. apply take_ge.
    rewrite /e /advance /s /= !length_app /=. lia.
Qed.

(** ** Prices as text *)

Lemma str_all_count sep a : str_all (λ c, negb (Ascii.eqb c sep)) a = true → count_char sep a = 0%nat.
Proof.
  induction a as [|c a IH]; [done|]. cbn [str_all count_char]. rewrite Ascii.eqb_sym.
  move => /andb_true_iff [/negb_true_iff -> Ha]. by apply IH.
Qed.

(** Two digits of paise are read back. *)
Lemma format_02d_back r : 0 <= r < 100 →
  str_all is_digit (format_02d r) = true ∧ codes (format_02d r) ≠ [] ∧ parse_int (str_take 2 (format_02d r +:+ "00")) = Some r.
Proof.
  intros Hr.
  assert (forallb (λ i, let r := Z.of_nat i in str_all is_digit (format_02d r) && negb (String.eqb (format_02d r) "") &&
                        bool_decide (parse_int (str_take 2 (format_02d r +:+ "00")) = Some r)) (seq 0 100) = true) as Ha by (vm_compute; reflexivity).
  rewrite forallb_forall in Ha. specialize (Ha (Z.to_nat r)). rewrite Z2Nat.id in Ha; [lia|].
  apply andb_true_iff in Ha as [[H1 H2]%andb_true_iff H3%bool_decide_eq_true]; [|apply in_seq; lia].
  split_and!; [done| |done]. by destruct (format_02d r).
Qed.

Lemma rupees_parts p : 0 <= p → in_i64 p → rupees p = format_int (p / 100) +:+ String "." (format_02d (p mod 100)) ∧ in_i64 (p / 100).
Proof.
  intros Hp Hr. rewrite /rupees Z.quot_div_nonneg // Z.rem_mod_nonneg //.
  assert (in_i64 (p / 100)) as Hq. { i64_unfold. pose proof (Z.div_pos p 100). pose proof (Z.div_le_upper_bound p 100 p). lia. }
  by rewrite i64_id.
Qed.

Lemma toPaise_rupees p : 0 <= p → in_i64 p → toPaise (rupees p) = p.
Proof.
  intros Hp Hr. destruct (rupees_parts p Hp Hr) as [-> Hq]. pose proof (Z.div_pos p 100). pose proof (Z.mod_pos_bound p 100).
  destruct (format_int_digits (p / 100)) as [Hd _]; [lia|].
  rewrite /toPaise cut_at_app.
  { apply str_all_count. eapply str_all_impl; [|done]. intros c Hc%is_digit_range. apply negb_true_iff, Ascii.eqb_neq. intros ->. by destruct Hc as [Hc _]. }
  rewrite parse_format_int //. destruct (format_02d_back (p mod 100)) as (_ & _ & ->); [lia|]. cbn [default].
  rewrite i64_add_l /id. replace (p / 100 * 100 + p mod 100) with p by (pose proof (Z.div_mod p 100); lia). by apply i64_id.
Qed.

Lemma cleanPrice_rupees p : 0 <= p → in_i64 p → cleanPrice (rupees p) = rupees p.
Proof.
  intros Hp Hr. destruct (rupees_parts p Hp Hr) as [-> Hq]. pose proof (Z.div_pos p 100). pose proof (Z.mod_pos_bound p 100).
  destruct (format_int_digits (p / 100)) as [Hd Hne]; [lia|]. destruct (format_02d_back (p mod 100)) as (Hf & Hfn & _); [lia|].
  move: (format_int (p / 100)) (format_02d (p mod 100)) Hd Hne Hf Hfn => q f Hd Hne Hf Hfn.
  assert (str_all is_ascii (q +:+ String "." f) = true) as Ha.
  { rewrite str_all_app. cbn [str_all]. rewrite (str_all_impl is_digit is_ascii q) // ?(str_all_impl is_digit is_ascii f) //; apply digit_is_ascii. }
  rewrite /cleanPrice (runes_ascii _ Ha) codes_app.
  destruct q as [|c q]; [done|]. apply codes_digits in Hd, Hf.
  destruct (match_price (codes q) (code c) (codes f) Hd Hf Hfn) as (m & Hm & Ht).
  change (codes (String c q) ++ codes (String "." f)) with ((code c :: codes q) ++ 46 :: codes f). rewrite Hm Ht.
  change ((code c :: codes q) ++ 46 :: codes f) with (codes (String c q) ++ codes (String "." f)).
  by rewrite -codes_app text_of_codes.
Qed.

Lemma price_back p : 0 <= p → in_i64 p → llm_price (rupees p) = p.
Proof. intros. rewrite /llm_price cleanPrice_rupees // toPaise_rupees //. Qed.

(** ** Agreement *)

(** The two readings name the same contract, entry and stop. *)
Definition same_call (a b : TGSignal) : Prop :=
  tg_Underlying a = tg_Underlying b ∧ tg_Strike a = tg_Strike b ∧ tg_OptionType a = tg_OptionType b ∧
  tg_TriggerPaise a = tg_TriggerPaise b ∧ tg_SLPaise a = tg_SLPaise b.

Lemma str_app_empty a b : a +:+ b = "" ↔ a = "" ∧ b = "".
Proof. destruct a; simpl; [tauto|]. split; [done|by intros [? _]]. Qed.

Lemma diff_text_empty name x y : name ≠ "" → diff_text name x y = "" ↔ x = y.
Proof.
  intros Hn. rewrite /diff_text /diff_field. destruct (String.eqb_spec x y); [done|]. rewrite !str_app_empty. tauto.
Qed.

Lemma diff_int_empty name x y : name ≠ "" → diff_int name x y = "" ↔ x = y.
Proof.
  intros Hn. rewrite /diff_int /diff_field. destruct (Z.eqb_spec x y); [done|]. rewrite !str_app_empty. tauto.
Qed.

Lemma callDiff_empty a b : callDiff a b = "" ↔ same_call a b.
Proof. rewrite /callDiff !str_app_empty !diff_text_empty // !diff_int_empty //. Qed.

Lemma same_call_refl c : same_call c c.
Proof. done. Qed.

(** ** What is decided *)

(** Why a decision has a call. *)
Definition agreed `{UT : UnicodeTables} (rx : TGSignal) (rxErr : option parse_error) (r : reading) (c : TGSignal) : Prop :=
  rxErr = None ∧ snd r = None ∧ lr_Kind (fst r) = "new_call"%string ∧ same_call rx (Call (fst r)) ∧ c = rx <| tg_Source := "AGREE" |>.
Definition read_alone `{UT : UnicodeTables} (rxErr : option parse_error) (r : reading) (c : TGSignal) : Prop :=
  is_Some rxErr ∧ snd r = None ∧ lr_Kind (fst r) = "new_call"%string ∧ lr_Confidence (fst r) = "high"%string ∧
  supported (tg_Underlying (Call (fst r))) = true ∧ call_Validate (Call (fst r)) = None ∧
  c = Call (fst r) <| tg_Source := "LLM_ONLY" |>.
Definition unread (rx : TGSignal) (rxErr : option parse_error) (r : reading) (c : TGSignal) : Prop :=
  rxErr = None ∧ is_Some (snd r) ∧ c = rx <| tg_Source := "REGEX" |>.

(** A decision has a call in these cases and no other; which of them the
    router publishes is in TgPublished.v. *)
Lemma publication_cases `{UT : UnicodeTables} rx rxErr r c :
  de_call (decide rx rxErr r) = Some c ↔ agreed rx rxErr r c ∨ read_alone rxErr r c ∨ unread rx rxErr r c.
Proof.
  destruct r as [llm [e|]]; rewrite /agreed /read_alone /unread /decide /=.
  - rewrite /decide_unread /decideRegex /=. destruct rxErr as [[]|]; simpl; naive_solver.
  - destruct (String.eqb_spec (lr_Kind llm) "new_call") as [Hk|Hk].
    + rewrite /decide_new_call. destruct rxErr as [e|]; simpl.
      * destruct (supported _); simpl; [|naive_solver]. destruct (call_Validate _); simpl; [naive_solver|].
        destruct (String.eqb_spec (lr_Confidence llm) "high"); simpl; naive_solver.
      * destruct (String.eqb_spec (callDiff rx (Call llm)) "") as [Hd|Hd]; rewrite callDiff_empty in Hd; simpl; naive_solver.
    + destruct (String.eqb_spec (lr_Kind llm) "follow_up"); rewrite /decide_follow_up /decide_noise;
        destruct rxErr; simpl; repeat case_match; naive_solver.
Qed.

(** ** What is decided can be traded *)

Definition tradeable (c : TGSignal) : Prop :=
  supported (tg_Underlying c) = true ∧ call_Validate c = None.

Lemma tradeable_source c src : tradeable c → tradeable (c <| tg_Source := src |>).
Proof. destruct c. intros [Hs Hv]. split; [exact Hs|exact Hv]. Qed.

Lemma read_levels_keeps rest sig : tg_Underlying (read_levels rest sig) = tg_Underlying sig.
Proof. rewrite /read_levels. repeat case_match; done. Qed.

(** A call that is refused for its stop alone, or not at all, is on a traded
    index. *)
Lemma Parse_index `{UT : UnicodeTables} text sig e : Parse text = (sig, e) → e = None ∨ e = Some ErrNoSL →
  supported (tg_Underlying sig) = true.
Proof.
  rewrite /Parse. intros Hp He. case_match; [simplify_eq; naive_solver|].
  destruct (find_match reContract _) as [c|]; [|simplify_eq; naive_solver].
  case_match; [simplify_eq; naive_solver|].
  destruct (find_match reUnderlying _) as [u|]; [|simplify_eq; naive_solver].
  destruct (supported _) eqn:Hs; simpl in Hp; [|simplify_eq; naive_solver].
  destruct (contract_fields _ c) as [strike opt]. injection Hp as <- _.
  change (supported (tg_Underlying (read_levels (after_contract (upper_runes (runes text)) c)
    (zero_TGSignal <| tg_Underlying := text_of (group_text (upper_runes (runes text)) u 1) |> <| tg_Strike := default 0 (parse_int strike) |>
       <| tg_OptionType := if String.eqb opt "PE" || String.eqb opt "PUT" then "PE" else "CE" |>)) ) = true).
  by rewrite read_levels_keeps.
Qed.

Lemma Parse_checked `{UT : UnicodeTables} text sig e : Parse text = (sig, e) → e = None ∨ e = Some ErrNoSL → check_call sig = e.
Proof.
  rewrite /Parse. intros Hp He. case_match; [simplify_eq; naive_solver|].
  destruct (find_match reContract _) as [c|]; [|simplify_eq; naive_solver].
  case_match; [simplify_eq; naive_solver|].
  destruct (find_match reUnderlying _) as [u|]; [|simplify_eq; naive_solver].
  destruct (supported _); simpl in Hp; [|simplify_eq; naive_solver].
  destruct (contract_fields _ c) as [strike opt]. by injection Hp as <- <-.
Qed.

Lemma check_call_ok sig : check_call sig = None → call_Validate sig = None.
Proof. rewrite /check_call. case_match; [by case_match|]. by destruct (call_Validate sig). Qed.

Lemma check_call_no_stop sig : check_call sig = Some ErrNoSL → tg_SLPaise sig = 0 ∧ call_Validate (sig <| tg_SLPaise := 1 |>) = None.
Proof.
  rewrite /check_call. destruct (Z.eqb_spec (tg_SLPaise sig) 0) as [Hs|Hs]; [|by destruct (call_Validate sig)].
  destruct (call_Validate (sig <| tg_SLPaise := 1 |>)); [done|]. done.
Qed.

(** What the service reads from a text with its patterns. *)
Definition read_text `{UT : UnicodeTables} (text : string) (pct : Z) : TGSignal * option parse_error :=
  let '(rx, e) := Parse text in withDefaultSL rx e pct.

Lemma read_text_tradeable `{UT : UnicodeTables} text pct rx : read_text text pct = (rx, None) → tradeable rx.
Proof.
  rewrite /read_text. destruct (Parse text) as [sig e] eqn:Hp. rewrite /withDefaultSL. case_match eqn:Hd.
  - intros [= -> ->]. split; [by apply (Parse_index text _ None); auto|]. apply check_call_ok. by apply (Parse_checked text _ None); auto.
  - apply orb_false_iff in Hd as [_ Hd%bool_decide_eq_false]. apply dec_stable in Hd as ->.
    intros [= <- Hv]. split; [by apply (Parse_index text sig (Some ErrNoSL)); auto|]. by destruct (call_Validate _).
Qed.

(** Whatever the text and whatever the model answers, a decided call
    is complete and on a traded index: a strike, a side, an entry, a stop
    below it and targets above it. *)
Theorem published_calls_tradeable `{UT : UnicodeTables} text pct r c :
  de_call (decide (fst (read_text text pct)) (snd (read_text text pct)) r) = Some c → tradeable c.
Proof.
  destruct (read_text text pct) as [rx e] eqn:Ht. simpl. intros Hc. apply publication_cases in Hc.
  destruct Hc as [(-> & _ & _ & _ & ->)|[(_ & _ & _ & _ & Hs & Hv & ->)|(-> & _ & ->)]]; apply tradeable_source;
    [by eapply read_text_tradeable|by split|by eapply read_text_tradeable].
Qed.

(** A default stop is below the entry; from a rupee on it is a price. *)
Lemma defaultSL_below trig pct : 0 < pct < 100 → 0 < trig <= max_i64 / 100 →
  defaultSL trig pct = trig * (100 - pct) / 100 ∧ 0 <= defaultSL trig pct < trig ∧ (100 <= trig → 0 < defaultSL trig pct).
Proof.
  intros Hp Ht. assert (defaultSL trig pct = trig * (100 - pct) / 100) as ->.
  { rewrite /defaultSL (i64_id (100 - pct)); [i64_unfold; lia|].
    assert (max_i64 / 100 = 92233720368547758) as Hm by reflexivity.
    assert (0 <= trig * (100 - pct) <= 92233720368547758 * 100) as Hb by nia.
    rewrite (i64_id (trig * _)); [i64_unfold; lia|]. rewrite Z.quot_div_nonneg; [lia|lia|]. apply i64_id. i64_unfold.
    pose proof (Z.div_pos (trig * (100 - pct)) 100). pose proof (Z.div_le_upper_bound (trig * (100 - pct)) 100 (92233720368547758 * 100)). lia. }
  pose proof (Z.div_mod (trig * (100 - pct)) 100). pose proof (Z.mod_pos_bound (trig * (100 - pct)) 100). nia.
Qed.

Lemma Validate_stop sig s d : call_Validate (sig <| tg_SLPaise := 1 |>) = None → 0 < s < tg_TriggerPaise sig →
  call_Validate (sig <| tg_SLPaise := s |> <| tg_SLDefault := d |>) = None.
Proof.
  destruct sig. rewrite /call_Validate. simpl. intros Hv Hs. repeat (case_match; [done|]).
  destruct (Z.leb_spec s 0); [lia|]. destruct (Z.leb_spec tg_TriggerPaise s); [lia|]. done.
Qed.

Lemma Call_default_stop `{UT : UnicodeTables} llm pct : 0 < pct < 100 → lr_Kind llm = "new_call"%string → llm_price (lr_SL llm) = 0 →
  0 < tg_TriggerPaise (Call llm) <= max_i64 / 100 →
  Call (llmWithDefaultSL llm pct) =
    Call llm <| tg_SLPaise := defaultSL (tg_TriggerPaise (Call llm)) pct |> <| tg_SLDefault := true |> ∧
  lr_Kind (llmWithDefaultSL llm pct) = lr_Kind llm.
Proof.
  intros Hp Hk Hs Ht. change (tg_TriggerPaise (Call llm)) with (llm_price (lr_Trigger llm)) in *.
  destruct (defaultSL_below _ _ Hp Ht) as (_ & Hd & _). rewrite /llmWithDefaultSL Hk Hs.
  destruct (Z.leb_spec pct 0); [lia|]. destruct (Z.leb_spec (llm_price (lr_Trigger llm)) 0); [lia|]. simpl. split; [|exact Hk].
  assert (in_i64 (defaultSL (llm_price (lr_Trigger llm)) pct)) as Hr.
  { i64_unfold. assert ((2 ^ 63 - 1) / 100 = 92233720368547758) by reflexivity. lia. }
  pose proof (price_back (defaultSL (llm_price (lr_Trigger llm)) pct) (proj1 Hd) Hr) as Hb.
  unfold Call. cbn [lr_SL lr_slDefault]. destruct llm. cbn in *. by rewrite Hb.
Qed.

Lemma same_call_stop a b s d : same_call (a <| tg_SLPaise := 0 |>) b →
  same_call (a <| tg_SLPaise := s |> <| tg_SLDefault := d |>) (b <| tg_SLPaise := s |> <| tg_SLDefault := d |>).
Proof. destruct a, b. rewrite /same_call. simpl. tauto. Qed.

(** a call posted without its stop ("SL : PAID") gets the same default stop
    in both readings, so the two still agree: with a stop [pct]% below an entry
    of a rupee or more, the call goes out when the model reads the rest as the
    pattern does. *)
Theorem default_stop_agrees `{UT : UnicodeTables} text sig llm pct :
  Parse text = (sig, Some ErrNoSL) → 0 < pct < 100 → 100 <= tg_TriggerPaise sig <= max_i64 / 100 →
  lr_Kind llm = "new_call"%string → llm_price (lr_SL llm) = 0 →
  same_call (sig <| tg_SLPaise := 0 |>) (Call llm) →
  let c := sig <| tg_SLPaise := defaultSL (tg_TriggerPaise sig) pct |> <| tg_SLDefault := true |> <| tg_Source := "AGREE" |> in
  de_call (decide (fst (read_text text pct)) (snd (read_text text pct)) (llmWithDefaultSL llm pct, None)) = Some c ∧ 0 < tg_SLPaise c < tg_TriggerPaise c.
Proof.
  intros Hp Hpct Ht Hk Hsl Hsame. rewrite /read_text Hp /withDefaultSL.
  rewrite bool_decide_eq_false_2; [by intros Hn; apply Hn|]. cbn [fst snd]. destruct (Z.leb_spec pct 0); [lia|]. cbn [orb].
  assert (tg_TriggerPaise (Call llm) = tg_TriggerPaise sig) as Htr by (symmetry; exact (proj1 (proj2 (proj2 (proj2 Hsame))))).
  destruct (Call_default_stop llm pct) as [HC HK]; [lia|done|done|lia|]. rewrite Htr in HC.
  destruct (defaultSL_below (tg_TriggerPaise sig) pct) as (_ & Hb & Hpos); [lia|lia|].
  destruct (check_call_no_stop sig) as [_ Hv]; [by eapply Parse_checked; [done|right]|].
  rewrite (Validate_stop sig _ true Hv); [lia|].
  split; [|split; [exact (Hpos (proj1 Ht))|exact (proj2 Hb)]].
  apply publication_cases. left. split; [done|]. split; [done|]. cbn [fst]. rewrite HK HC. split; [done|].
  split; [by apply same_call_stop|done].
Qed.

(** A real shape: "SL : PAID" with an entry of 120 and 20% default. *)
Section witness.
#[local] Instance ascii_only : UnicodeTables := {| unicode_letter := λ _, false; unicode_upper := λ r, r |}.
Definition paid_text : string := "BUY NIFTY 24500 CE ABOVE 120 STOPLOSS : PAID TARGET 140".
Definition paid_reading : LLMResult :=
  zero_LLMResult <| lr_Kind := "new_call" |> <| lr_Underlying := "Nifty" |> <| lr_Strike := 24500 |> <| lr_OptionType := "CE" |>
    <| lr_Trigger := "120" |> <| lr_Targets := ["140"] |>.

Lemma default_stop_agrees_witness :
  ∃ c, de_call (decide (fst (read_text paid_text 20)) (snd (read_text paid_text 20)) (llmWithDefaultSL paid_reading 20, None)) = Some c ∧
       0 < tg_SLPaise c < tg_TriggerPaise c.
Proof.
  eexists. apply (default_stop_agrees paid_text (fst (Parse paid_text)) paid_reading 20).
  - vm_compute. reflexivity.
  - lia.
  - vm_compute. split; discriminate.
  - reflexivity.
  - vm_compute. reflexivity.
  - vm_compute. repeat split.
Defined.

(** The model reads another stop: no trade; it reads the same call: a trade. *)
Definition posted_text : string := "BUY NIFTY 24500 CE ABOVE 120 SL 100 TARGET 140".
Definition posted_reading (sl : string) : LLMResult :=
  paid_reading <| lr_SL := sl |>.

Lemma published_calls_tradeable_witness :
  let decided sl := de_call (decide (fst (read_text posted_text 20)) (snd (read_text posted_text 20)) (posted_reading sl, None)) in
  decided "90"%string = None ∧ ∃ c, decided "100"%string = Some c ∧ tradeable c.
Proof.
  split; [vm_compute; reflexivity|]. eexists.
  match goal with |- ?P ∧ _ => assert P as Hc by (vm_compute; reflexivity) end.
  split; [exact Hc|]. exact (published_calls_tradeable posted_text 20 (posted_reading "100", None) _ Hc).
Defined.
End witness.
