(* ===== verification/TgContexts.v ===== *)
(** Trade contexts (internal/tgsignal/tradectx.go): one published call, the
    later messages about it and what became of it.

    A *tradeCtx is shared by the chat's list and by the messages on their way:
    it is a place in a store.  The methods of [contexts] hold its mutex
    throughout, so each is one step on the store.  Texts are valid UTF-8. *)
From S2P Require Import Prelude GoText Model TgSignal Regex TgParse TgPrompt TgDecide.
#[local] Open Scope Z_scope.
#[local] Open Scope go_scope.

(** The local time zone, [fmt]'s [%q] and the model's JSON. *)
Class LocalZone := local_offset : Time → Duration.
Class GoQuote := go_quote : string → string.
Class ReadingJSON := parse_reading : string → option LLMResult.

(** handler.go *)
Record inMsg := {
  im_ChatID : Z; im_MsgID : Z; im_ReplyTo : Z; im_Text : string; im_Sent : Time; im_Posted : Time; im_Edited : bool }.

Record ctxMsg := { cm_At : Time; cm_Text : string; cm_Read : string }.

Record tradeCtx := {
  tc_call : TGSignal; tc_msgs : list ctxMsg; tc_prices : list Z; tc_msgIDs : gset Z; tc_active : bool; tc_held : bool; tc_closed : bool;
  tc_closeAt : Time; tc_confirmSent : bool; tc_state : string; tc_verified : bool; tc_version : Z; tc_queued : list inMsg }.

#[export] Instance tradeCtx_settable : Settable tradeCtx := λ t, {|
  tc_call := tc_call t; tc_msgs := tc_msgs t; tc_prices := tc_prices t; tc_msgIDs := tc_msgIDs t; tc_active := tc_active t;
  tc_held := tc_held t; tc_closed := tc_closed t; tc_closeAt := tc_closeAt t; tc_confirmSent := tc_confirmSent t; tc_state := tc_state t;
  tc_verified := tc_verified t; tc_version := tc_version t; tc_queued := tc_queued t |}.

Definition newTradeCtx (c : TGSignal) (verified : bool) : tradeCtx := {|
  tc_call := c; tc_msgs := []; tc_prices := []; tc_msgIDs := {[tg_MsgID c]}; tc_active := false; tc_held := false; tc_closed := false;
  tc_closeAt := zero_time; tc_confirmSent := false; tc_state := ""; tc_verified := verified; tc_version := 0; tc_queued := [] |}.

Definition ctxMsgsKept : nat := 10.
Definition closedCtxKept : Duration := Hour.

(** The contexts, and each chat's by id, oldest first. *)
Record contexts := { cx_store : gmap nat tradeCtx; cx_next : nat; cx_byChat : gmap Z (list nat) }.
#[export] Instance contexts_settable : Settable contexts := λ c, {|
  cx_store := cx_store c; cx_next := cx_next c; cx_byChat := cx_byChat c |}.

Definition newContexts : contexts := {| cx_store := ∅; cx_next := 0; cx_byChat := ∅ |}.

Definition chat_ids (chat : Z) (cs : contexts) : list nat := default [] (cx_byChat cs !! chat).
Definition at_ctx (id : nat) (f : tradeCtx → tradeCtx) (cs : contexts) : contexts := cs <| cx_store := alter f id (cx_store cs) |>.
Definition ctx_is (P : tradeCtx → bool) (cs : contexts) (id : nat) : bool := from_option P false (cx_store cs !! id).

Definition forgotten (now : Time) (tc : tradeCtx) : bool := tc_closed tc && (closedCtxKept <? t_sub now (tc_closeAt tc)).
Definition prune (chat : Z) (now : Time) (cs : contexts) : contexts :=
  cs <| cx_byChat := <[chat := filter (λ id, ctx_is (forgotten now) cs id = false) (chat_ids chat cs)]> (cx_byChat cs) |>.

(** The context of the call, and which version of the call it is. *)
Definition open (c : TGSignal) (verified : bool) (now : Time) (cs : contexts) : nat * Z * contexts :=
  let cs := prune (tg_ChatID c) now cs in
  match filter (λ id, ctx_is (λ tc, tg_MsgID (tc_call tc) =? tg_MsgID c) cs id = true) (chat_ids (tg_ChatID c) cs) with
  | id :: _ =>
      let edit (tc : tradeCtx) :=
        tc <| tc_call := c |> <| tc_version := tc_version tc +! 1 |> <| tc_verified := if tc_held tc then tc_verified tc else verified |> in
      let cs := at_ctx id edit cs in (id, from_option tc_version 0 (cx_store cs !! id), cs)
  | [] =>
      let id := cx_next cs in
      (id, 0, cs <| cx_store := <[id := newTradeCtx c verified]> (cx_store cs) |> <| cx_next := S id |>
                 <| cx_byChat := <[tg_ChatID c := chat_ids (tg_ChatID c) cs ++ [id]]> (cx_byChat cs) |>)
  end.

Definition isVerified (id : nat) (cs : contexts) : bool := ctx_is tc_verified cs id.
Definition isHeld (id : nat) (cs : contexts) : bool := ctx_is (λ tc, tc_held tc && negb (tc_closed tc)) cs id.
Definition isClosed (id : nat) (cs : contexts) : bool := ctx_is tc_closed cs id.

Definition hold (id : nat) (m : inMsg) : contexts → contexts := at_ctx id (λ tc, tc <| tc_queued := tc_queued tc ++ [m] |>).

(** The held confirmations to send; [None]: another version, or closed. *)
Definition verify (id : nat) (ver : Z) (cs : contexts) : option (list inMsg) * contexts :=
  match cx_store cs !! id with
  | Some tc =>
      if negb (ver =? tc_version tc) || tc_closed tc then (None, cs)
      else (Some (tc_queued tc), at_ctx id (λ tc, tc <| tc_verified := true |> <| tc_queued := [] |>) cs)
  | None => (None, cs)
  end.

Definition cancel (id : nat) (ver : Z) (now : Time) (cs : contexts) : bool * contexts :=
  match cx_store cs !! id with
  | Some tc =>
      let sent := tc_confirmSent tc && bool_decide (tc_queued tc = []) in
      if negb (ver =? tc_version tc) || tc_held tc || tc_active tc || tc_closed tc || sent then (false, cs)
      else
        (true, at_ctx id (λ tc, tc <| tc_closed := true |> <| tc_closeAt := now |> <| tc_queued := [] |> <| tc_state := "CANCELLED" |>) cs)
  | None => (false, cs)
  end.

Inductive ctxLink := linkReply | linkOnly.
#[export] Instance ctxLink_eq_dec : EqDecision ctxLink.
Proof. solve_decision. Defined.

(** The message's context: by what it replies to, else the chat's only open
    one. *)
Definition link (m : inMsg) (now : Time) (cs : contexts) : option (nat * ctxLink) * contexts :=
  let cs := prune (im_ChatID m) now cs in
  let ids := chat_ids (im_ChatID m) cs in
  let found :=
    if negb (im_ReplyTo m =? 0) then
      match filter (λ id, ctx_is (λ tc, bool_decide (im_ReplyTo m ∈ tc_msgIDs tc)) cs id = true) ids with
      | id :: _ => Some (id, linkReply)
      | [] => None
      end
    else
      match filter (λ id, ctx_is (λ tc, negb (tc_closed tc)) cs id = true) ids with
      | [id] => Some (id, linkOnly)
      | _ => None
      end in
  (found, cs).

Definition note_msg (m : inMsg) (read : string) (tc : tradeCtx) : tradeCtx :=
  tc <| tc_msgIDs := {[im_MsgID m]} ∪ tc_msgIDs tc |>
     <| tc_msgs := tc_msgs tc ++ [{| cm_At := im_Sent m; cm_Text := im_Text m; cm_Read := read |}] |>.

Definition add (id : nat) (m : inMsg) (read : string) : contexts → contexts := at_ctx id (note_msg m read).

Definition canActivate (tc : tradeCtx) : bool :=
  negb (tc_confirmSent tc) && negb (tc_active tc) && negb (tc_held tc) && negb (tc_closed tc).

(** Whether the caller's price confirms the call. *)
Definition addPrice (id : nat) (m : inMsg) (price : Z) (cs : contexts) : bool * contexts :=
  let confirm := ctx_is (λ tc, (tg_TriggerPaise (tc_call tc) <=? price) && canActivate tc) cs id in
  let read := "price " +:+ rupees price +:+ (if confirm then " → activate" else "") in
  (confirm, at_ctx id (λ tc,
     let tc := note_msg m read (tc <| tc_prices := tc_prices tc ++ [price] |>) in
     if confirm then tc <| tc_confirmSent := true |> else tc) cs).

Definition claimActivate (id : nat) (cs : contexts) : bool * contexts :=
  if ctx_is canActivate cs id then (true, at_ctx id (λ tc, tc <| tc_confirmSent := true |>) cs) else (false, cs).

(** ** What stratengine reports *)

Definition TGEventArmed : string := "ARMED".
Definition TGEventActive : string := "ACTIVE".
Definition TGEventEntered : string := "ENTERED".
Definition TGEventFilled : string := "FILLED".
Definition TGEventExit : string := "EXIT".
Definition TGEventDropped : string := "DROPPED".
Definition TGEventRefused : string := "REFUSED".
Definition TGEventEntryRefused : string := "ENTRY_REFUSED".
Definition TGEventFollowUpIgnored : string := "FOLLOW_UP_IGNORED".
Definition TGEventFirstTick : string := "FIRST_TICK".

Definition one_of (e : string) (es : list string) : bool := existsb (String.eqb e) es.

(** [tradeCtx.apply]. *)
Definition apply_event (event : string) (now : Time) (tc : tradeCtx) : tradeCtx :=
  if String.eqb event TGEventFirstTick then tc
  else
    (if String.eqb event TGEventActive then tc <| tc_active := true |>
     else if one_of event [TGEventEntered; TGEventFilled] then tc <| tc_held := true |>
     else if one_of event [TGEventExit; TGEventDropped; TGEventRefused; TGEventEntryRefused] then
       (if tc_closed tc then tc else tc <| tc_closed := true |> <| tc_closeAt := now |>)
     else if String.eqb event TGEventFollowUpIgnored then tc <| tc_confirmSent := false |>
     else tc) <| tc_state := event |>.

(** service.go *)
Definition splitCallKey (k : string) : option (Z * Z) :=
  match cut_at ":" k with
  | (a, b, true) => chat ← parse_int a; id ← parse_int b; Some (chat, id)
  | _ => None
  end.

(** The chat's context of the call, if any. *)
Definition outcome_ctx (callKey : string) (cs : contexts) : option nat :=
  '(chat, id) ← splitCallKey callKey;
  head (filter (λ x, ctx_is (λ tc, tg_MsgID (tc_call tc) =? id) cs x = true) (chat_ids chat cs)).

Definition ctx_outcome (callKey event : string) (now : Time) (cs : contexts) : contexts :=
  match outcome_ctx callKey cs with Some id => at_ctx id (apply_event event now) cs | None => cs end.

(** ** The model's view of a call *)

Definition format_2d_of (sec unit limit : Z) : string := format_02d (sec / unit mod limit).
Definition hhmm `{LZ : LocalZone} (t : Time) : string :=
  if t_is_zero t then "--:--"
  else let sec := (t + local_offset t) / Second in format_2d_of sec 3600 24 +:+ ":" +:+ format_2d_of sec 60 60.

(** The words of a text. *)
Fixpoint fields (s : list Z) : list (list Z) :=
  match s with
  | [] => []
  | x :: s =>
      if unicode_space x then fields s
      else match s with
           | y :: _ => if unicode_space y then [x] :: fields s
                       else match fields s with w :: ws => (x :: w) :: ws | [] => [[x]] end
           | [] => [[x]]
           end
  end.
Definition text_fields (s : string) : list string := text_of <$> fields (runes s).

Definition clip (s : string) (n : nat) : string :=
  let s := str_join " " (text_fields s) in
  if (n <? length (runes s))%nat then text_of (take n (runes s)) +:+ "…" else s.

Definition stateText (tc : tradeCtx) : string :=
  if tc_closed tc then "closed (" +:+ tc_state tc +:+ ")"
  else if tc_held tc then "bought, position open"
  else if tc_active tc || tc_confirmSent tc then "confirmed, buying"
  else "waiting for the caller to confirm the entry".

Definition pricesText (p : list Z) : string :=
  match p with
  | [] => "none"
  | [x] => rupees x
  | x :: _ => rupees x +:+ " … " +:+ rupees (List.last p 0) +:+ " (" +:+ format_int (Z.of_nat (length p)) +:+ " posts)"
  end.

Definition prompt_msg `{LZ : LocalZone, GQ : GoQuote} (m : ctxMsg) : string :=
  hhmm (cm_At m) +:+ " " +:+ go_quote (clip (cm_Text m) 160) +:+ " → " +:+ cm_Read m +:+ nl.

Definition prompt_text `{LZ : LocalZone, GQ : GoQuote} (l : ctxLink) (tc : tradeCtx) : string :=
  let c := tc_call tc in
  let msgs := drop (length (tc_msgs tc) - ctxMsgsKept) (tc_msgs tc) in
  ctxHeader +:+ nl +:+
  "Call " +:+ hhmm (tg_SentAt c) +:+ " (msg " +:+ format_int (tg_MsgID c) +:+ "): BUY " +:+ tg_Underlying c +:+ " " +:+ format_int (tg_Strike c) +:+
  " " +:+ tg_OptionType c +:+ " above " +:+ rupees (tg_TriggerPaise c) +:+ " SL " +:+ rupees (tg_SLPaise c) +:+
  (if tg_SLDefault c then " (our default)" else "") +:+
  match tg_Targets c with [] => "" | ts => " targets " +:+ str_join "," (rupees <$> ts) end +:+
  nl +:+ "Our state: " +:+ stateText tc +:+ nl +:+ "Caller price posts: " +:+ pricesText (tc_prices tc) +:+ nl +:+
  match msgs with [] => "" | _ => "Earlier messages:" +:+ nl +:+ str_join "" (prompt_msg <$> msgs) end +:+
  match l with
  | linkReply => "The new message replies to this call's thread."
  | linkOnly => "The new message replies to nothing; it may or may not be about this call."
  end.

Definition prompt `{LZ : LocalZone, GQ : GoQuote} (id : nat) (l : ctxLink) (cs : contexts) : string :=
  from_option (prompt_text l) "" (cx_store cs !! id).

(** ** After a restart *)

Record journalRow := {
  jr_msgID : Z; jr_replyTo : Z; jr_sent : Time; jr_text : string; jr_llm : string; jr_verdict : string; jr_outcome : string }.

(** [strings.Split] at [" | "]. *)
Fixpoint split_bars (n : nat) (acc s : string) : list string :=
  match n, s with
  | S n, String c s' =>
      match cut_prefix " | " s with
      | Some rest => acc :: split_bars n "" rest
      | None => split_bars n (acc +:+ String c "") s'
      end
  | _, _ => [acc]
  end.

Definition outcomeEvents (outcome : string) : list string :=
  omap (λ line, match text_fields line with _ :: ev :: _ => Some (trim_suffix ":" ev) | _ => None end)
    (split_bars (String.length outcome) "" outcome).

Definition reopen (outcome : string) : bool :=
  let evs := outcomeEvents outcome in
  existsb (λ e, one_of e [TGEventArmed; "REPLACED"; TGEventEntered; TGEventActive]) evs &&
  negb (existsb (λ e, one_of e [TGEventExit; TGEventDropped; TGEventRefused; TGEventEntryRefused]) evs).

(** [journalRow.call]: the published call of a row. *)
Definition row_call `{UT : UnicodeTables, RJ : ReadingJSON} (chat slPct : Z) (r : journalRow) : option TGSignal :=
  let '(rx, err) := Parse (jr_text r) in
  let '(c, err) := withDefaultSL rx err slPct in
  let of_llm := match err with
                | Some _ => if String.eqb (jr_llm r) "" then None
                            else res ← parse_reading (jr_llm r); if String.eqb (lr_Kind res) "new_call" then Some res else None
                | None => None
                end in
  let c := match of_llm with Some res => Call (llmWithDefaultSL res slPct) | None => c end in
  let ok := match of_llm with Some _ => bool_decide (call_Validate c = None) | None => bool_decide (err = None) end in
  if ok then Some (c <| tg_ChatID := chat |> <| tg_MsgID := jr_msgID r |> <| tg_SentAt := jr_sent r |> <| tg_Text := jr_text r |>) else None.

Definition row_msg `{UT : UnicodeTables} (r : journalRow) (tc : tradeCtx) : tradeCtx :=
  let p := pricePost (jr_text r) in
  let tc := tc <| tc_msgIDs := {[jr_msgID r]} ∪ tc_msgIDs tc |> <| tc_prices := if 0 <? p then tc_prices tc ++ [p] else tc_prices tc |> in
  tc <| tc_msgs := tc_msgs tc ++
    [{| cm_At := jr_sent r; cm_Text := jr_text r; cm_Read := if 0 <? p then "price " +:+ rupees p else to_lower (jr_verdict r) |}] |>.

(** The first of the reopened calls the row replies into. *)
Fixpoint thread_row `{UT : UnicodeTables} (r : journalRow) (tcs : list tradeCtx) : list tradeCtx :=
  match tcs with
  | [] => []
  | tc :: tcs =>
      if negb (jr_replyTo r =? 0) && bool_decide (jr_replyTo r ∈ tc_msgIDs tc) then row_msg r tc :: tcs else tc :: thread_row r tcs
  end.

Definition load_row `{UT : UnicodeTables, RJ : ReadingJSON} (chat slPct : Z) (now : Time) (tcs : list tradeCtx) (r : journalRow) : list tradeCtx :=
  if String.eqb (jr_verdict r) VerdictSent then
    match row_call chat slPct r with
    | Some c => if reopen (jr_outcome r)
                then tcs ++ [foldl (λ tc ev, apply_event ev now tc) (newTradeCtx c true) (outcomeEvents (jr_outcome r))] else tcs
    | None => tcs
    end
  else thread_row r tcs.

Definition add_ctx (chat : Z) (cs : contexts) (tc : tradeCtx) : contexts :=
  let id := cx_next cs in
  cs <| cx_store := <[id := tc]> (cx_store cs) |> <| cx_next := S id |> <| cx_byChat := <[chat := chat_ids chat cs ++ [id]]> (cx_byChat cs) |>.

(** [load]: the chat's rows of today, oldest first. *)
Definition load_chat `{UT : UnicodeTables, RJ : ReadingJSON} (slPct : Z) (now : Time) (cs : contexts) (chat_rows : Z * list journalRow) : contexts :=
  foldl (add_ctx chat_rows.1) cs (foldl (load_row chat_rows.1 slPct now) [] chat_rows.2).
Definition load `{UT : UnicodeTables, RJ : ReadingJSON} (slPct : Z) (now : Time) (rows : list (Z * list journalRow)) (cs : contexts) : contexts :=
  foldl (load_chat slPct now) cs rows.

Example events_of_outcome : outcomeEvents "09:20:01 ARMED: qty 75 | 09:21:07 ACTIVE +12ms: x | 09:25:00 EXIT: sl" = ["ARMED"; "ACTIVE"; "EXIT"] ∧
  reopen "09:20:01 ARMED: qty 75" = true.
Proof. vm_compute. done. Qed.
Example clip_example : clip "  jaldi   niklo bhai" 9 = "jaldi nik…".
Proof. vm_compute. reflexivity. Qed.
