(* ===== verification/LlmScheduler.v ===== *)
(** The queue of language-model reads (internal/tgsignal/llmsched.go): six
    priorities, a token and a request budget per provider, failover between
    providers, and one request for identical prompts.

    A job is shared: the queues, the [queued] map and a worker's hands name it
    by its id in a store.  The scheduler's methods run under its mutex, so each
    is one step; a worker's loop is the steps between them ([worker]), and
    [world] is the scheduler with its workers.  Answering ([done]) only posts to
    a mailbox: it happens in the step that decides it, and is a value of the
    result.  The cache and its list are one list, the freshest first.  The
    [wall] of a step is [time.Now()] as the breaker reads it. *)
From Stdlib Require Import SpecFloat.
From S2P Require Import Prelude GoText Float64 Model TgSignal Regex TgParse TgPrompt TgDecide CircuitBreaker.
#[local] Open Scope Z_scope.
#[local] Open Scope go_scope.

(** ** Budgets *)

(** Go's [min] and [max] on floats. *)
Definition fmin (a b : float64) : float64 :=
  if f64_is_nan a || f64_is_nan b then S754_nan
  else match a, b with
       | S754_zero sa, S754_zero sb => S754_zero (sa || sb)
       | _, _ => if b <. a then b else a
       end.
Definition fmax (a b : float64) : float64 :=
  if f64_is_nan a || f64_is_nan b then S754_nan
  else match a, b with
       | S754_zero sa, S754_zero sb => S754_zero (sa && sb)
       | _, _ => if a <. b then b else a
       end.
(** [Duration.Seconds]. *)
Definition d_seconds (d : Duration) : float64 := #(Z.quot d Second) ⊕ #(Z.rem d Second) ⊘ #1000000000.

Record tokenBucket := { tb_cap : float64; tb_level : float64; tb_perSec : float64; tb_last : Time }.
#[export] Instance tokenBucket_settable : Settable tokenBucket := λ b, {|
  tb_cap := tb_cap b; tb_level := tb_level b; tb_perSec := tb_perSec b; tb_last := tb_last b |}.

Definition newBucket (perMinute : Z) : tokenBucket :=
  {| tb_cap := #perMinute; tb_level := #perMinute; tb_perSec := #perMinute ⊘ #60; tb_last := zero_time |}.

Definition unlimited (b : tokenBucket) : bool := f64_eqb (tb_cap b) f64_zero.

Definition refill (now : Time) (b : tokenBucket) : tokenBucket :=
  if unlimited b then b
  else
    let level := if t_is_zero (tb_last b) then tb_level b
                 else fmin (tb_cap b) (tb_level b ⊕ d_seconds (t_sub now (tb_last b)) ⊗ tb_perSec b) in
    b <| tb_level := level |> <| tb_last := now |>.

Definition bucket_wait (n : float64) (b : tokenBucket) : Duration :=
  if unlimited b then 0
  else
    let n := fmin n (tb_cap b) in
    if f64_leb n (tb_level b) then 0 else f64_to_int ((n ⊖ tb_level b) ⊘ tb_perSec b ⊗ #Second).

Definition bucket_take (n : float64) (b : tokenBucket) : tokenBucket :=
  if f64_zero <. tb_cap b then b <| tb_level := tb_level b ⊖ fmin n (tb_cap b) |> else b.

(** ** Providers *)

Record llmProvider := { pr_name : string; pr_cb : CircuitBreaker; pr_tokens : tokenBucket; pr_reqs : tokenBucket; pr_blocked : Time }.
#[export] Instance llmProvider_settable : Settable llmProvider := λ p, {|
  pr_name := pr_name p; pr_cb := pr_cb p; pr_tokens := pr_tokens p; pr_reqs := pr_reqs p; pr_blocked := pr_blocked p |}.

Definition newProvider (name : string) (tpm rpm : Z) : llmProvider := {|
  pr_name := name; pr_cb := NewCircuitBreaker 3 (30 * Second); pr_tokens := newBucket tpm; pr_reqs := newBucket rpm;
  pr_blocked := zero_time |}.

(** Budgets as of [now]. *)
Definition refill_provider (now : Time) (p : llmProvider) : llmProvider :=
  p <| pr_tokens := refill now (pr_tokens p) |> <| pr_reqs := refill now (pr_reqs p) |>.

(** How long until a refilled provider can take a request of [cost]. *)
Definition provider_wait (now : Time) (cost : Z) (p : llmProvider) : Duration :=
  Z.max (Z.max (Z.max (t_sub (pr_blocked p) now) (bucket_wait #cost (pr_tokens p))) (bucket_wait #1 (pr_reqs p))) 0.

Definition take_provider (cost : Z) (p : llmProvider) : llmProvider :=
  p <| pr_tokens := bucket_take #cost (pr_tokens p) |> <| pr_reqs := bucket_take #1 (pr_reqs p) |>.

(** ** Jobs *)

Definition prioExit : nat := 0.
Definition prioConfirm : nat := 1.
Definition prioVerify : nat := 2.
Definition prioNew : nat := 3.
Definition prioAudit : nat := 4.
Definition prioNoise : nat := 5.
Definition numPrios : nat := 6.
Definition prioNames : list string := ["exit"; "confirm"; "verify"; "new"; "audit"; "noise"].

Definition llmMaxTries : Z := 3.
Definition llmCacheSize : nat := 512.

Section scheduler.
(** [D] is what a [done] callback is to the caller. *)
Context {D : Type}.

Record llmJob := {
  lj_prio : nat; lj_text : string; lj_ctxText : string; lj_deadline : Time; lj_done : D; lj_key : Z; lj_cost : Z; lj_tries : Z;
  lj_waiters : list D }.

#[export] Instance llmJob_settable : Settable llmJob := λ j, {|
  lj_prio := lj_prio j; lj_text := lj_text j; lj_ctxText := lj_ctxText j; lj_deadline := lj_deadline j; lj_done := lj_done j;
  lj_key := lj_key j; lj_cost := lj_cost j; lj_tries := lj_tries j; lj_waiters := lj_waiters j |}.

Record cacheEntry := { ce_key : Z; ce_res : LLMResult; ce_at : Time }.

Record llmScheduler := {
  sc_queues : list (list nat); sc_jobs : gmap nat llmJob; sc_nextID : nat; sc_queued : gmap Z nat; sc_cache : list cacheEntry;
  sc_providers : list llmProvider; sc_workers : Z; sc_running : Z; sc_lastUsed : string; sc_cacheTTL : Duration }.

#[export] Instance llmScheduler_settable : Settable llmScheduler := λ s, {|
  sc_queues := sc_queues s; sc_jobs := sc_jobs s; sc_nextID := sc_nextID s; sc_queued := sc_queued s; sc_cache := sc_cache s;
  sc_providers := sc_providers s; sc_workers := sc_workers s; sc_running := sc_running s; sc_lastUsed := sc_lastUsed s;
  sc_cacheTTL := sc_cacheTTL s |}.

Definition newLLMScheduler (workers : Z) (cacheTTL : Duration) : llmScheduler := {|
  sc_queues := replicate numPrios []; sc_jobs := ∅; sc_nextID := 0; sc_queued := ∅; sc_cache := []; sc_providers := [];
  sc_workers := if workers <=? 0 then 4 else workers; sc_running := 0; sc_lastUsed := ""; sc_cacheTTL := cacheTTL |}.

Definition addProvider (p : llmProvider) (s : llmScheduler) : llmScheduler := s <| sc_providers := sc_providers s ++ [p] |>.

(** ** Answers *)

Record answer := { an_done : D; an_res : LLMResult; an_err : option read_error }.

(** A job's own caller, and those that asked the same meanwhile: their
    tokens were counted once. *)
Definition finish_job (res : LLMResult) (err : option read_error) (j : llmJob) : list answer :=
  {| an_done := lj_done j; an_res := res; an_err := err |} ::
  ((λ w, {| an_done := w; an_res := res <| lr_Usage := no_Usage |>; an_err := err |}) <$> lj_waiters j).
Definition finishAll (js : list llmJob) (res : LLMResult) (err : option read_error) : list answer := js ≫= finish_job res err.

(** ** Submitting *)

Record request := { rq_prio : nat; rq_text : string; rq_ctxText : string; rq_deadline : Time; rq_done : D }.

Definition new_job `{UT : UnicodeTables} (r : request) : llmJob := {|
  lj_prio := rq_prio r; lj_text := rq_text r; lj_ctxText := rq_ctxText r; lj_deadline := rq_deadline r; lj_done := rq_done r;
  lj_key := promptKey (rq_text r) (rq_ctxText r); lj_cost := estimate (rq_text r) (rq_ctxText r); lj_tries := 0; lj_waiters := [] |}.

Definition enqueue (prio id : nat) (s : llmScheduler) : llmScheduler := s <| sc_queues := alter (λ q, q ++ [id]) prio (sc_queues s) |>.
Definition requeue (prio id : nat) (s : llmScheduler) : llmScheduler := s <| sc_queues := alter (cons id) prio (sc_queues s) |>.

Fixpoint remove_first (id : nat) (q : list nat) : list nat :=
  match q with [] => [] | x :: q => if (x =? id)%nat then q else x :: remove_first id q end.

(** Out of its queue; [None] if the job is running. *)
Definition unqueue (id prio : nat) (s : llmScheduler) : option llmScheduler :=
  if bool_decide (id ∈ default [] (sc_queues s !! prio)) then Some (s <| sc_queues := alter (remove_first id) prio (sc_queues s) |>)
  else None.

Definition cache_find (key : Z) (s : llmScheduler) : option cacheEntry :=
  match filter (λ e, ce_key e = key) (sc_cache s) with e :: _ => Some e | [] => None end.
Definition cache_without (key : Z) (l : list cacheEntry) : list cacheEntry := filter (λ e, ce_key e ≠ key) l.

(** [r] asks what job [id] asks. *)
Definition join_job (id : nat) (old : llmJob) (r : request) (s : llmScheduler) : llmScheduler :=
  let old := old <| lj_waiters := lj_waiters old ++ [rq_done r] |> in
  let old := if t_after (rq_deadline r) (lj_deadline old) then old <| lj_deadline := rq_deadline r |> else old in
  let put (j : llmJob) (s : llmScheduler) := s <| sc_jobs := <[id := j]> (sc_jobs s) |> in
  if (rq_prio r <? lj_prio old)%nat then
    match unqueue id (lj_prio old) s with
    | Some s => enqueue (rq_prio r) id (put (old <| lj_prio := rq_prio r |>) s)
    | None => put old s
    end
  else put old s.

Definition add_job (j : llmJob) (s : llmScheduler) : llmScheduler :=
  let id := sc_nextID s in
  enqueue (lj_prio j) id
    (s <| sc_jobs := <[id := j]> (sc_jobs s) |> <| sc_nextID := S id |> <| sc_queued := <[lj_key j := id]> (sc_queued s) |>).

Inductive submitted := Answered (a : answer) | Joined | Added (spawn : bool).

Definition submit `{UT : UnicodeTables} (now : Time) (r : request) (s : llmScheduler) : submitted * llmScheduler :=
  let j := new_job r in
  let hit := match cache_find (lj_key j) s with
             | Some e => if t_sub now (ce_at e) <? sc_cacheTTL s then Some e else None
             | None => None
             end in
  match hit with
  | Some e =>
      (Answered {| an_done := rq_done r; an_res := ce_res e <| lr_Usage := no_Usage |>; an_err := None |},
       s <| sc_cache := e :: cache_without (lj_key j) (sc_cache s) |>)
  | None =>
      let s := s <| sc_cache := cache_without (lj_key j) (sc_cache s) |> in
      match sc_queued s !! lj_key j ≫= λ id, (λ old, (id, old)) <$> sc_jobs s !! id with
      | Some (id, old) => (Joined, join_job id old r s)
      | None =>
          let s := add_job j s in
          if sc_running s <? sc_workers s then (Added true, s <| sc_running := sc_running s +! 1 |>) else (Added false, s)
      end
  end.

(** ** Choosing *)

Definition delete_job (id : nat) (j : llmJob) (s : llmScheduler) : llmScheduler :=
  s <| sc_jobs := delete id (sc_jobs s) |> <| sc_queued := delete (lj_key j) (sc_queued s) |>.

Definition is_stale (now : Time) (s : llmScheduler) (id : nat) : bool :=
  match sc_jobs s !! id with Some j => t_after now (lj_deadline j) | None => false end.

(** Jobs past their deadline leave the queues. *)
Definition drop_stale (now : Time) (s : llmScheduler) : list llmJob * llmScheduler :=
  let late := concat (filter (λ id, is_stale now s id = true) <$> sc_queues s) in
  let kept := filter (λ id, is_stale now s id = false) <$> sc_queues s in
  (omap (λ id, sc_jobs s !! id) late,
   foldl (λ s id, match sc_jobs s !! id with Some j => delete_job id j s | None => s end) (s <| sc_queues := kept |>) late).

(** The first provider that can take the request now, with the providers
    looked at; else the shortest wait, -1 with no provider. *)
Fixpoint pick_provider (now wall : Time) (cost : Z) (wait : Duration) (i : nat) (ps : list llmProvider)
    : (nat + Duration) * list llmProvider :=
  match ps with
  | [] => (inr wait, [])
  | p :: ps =>
      let '(ok, cb, _) := Allow wall (pr_cb p) in
      let p := p <| pr_cb := cb |> in
      if negb ok then
        let wait := if (wait <? 0) || (Second <? wait) then Second else wait in
        let '(r, ps) := pick_provider now wall cost wait (S i) ps in (r, p :: ps)
      else
        let p := refill_provider now p in
        let w := provider_wait now cost p in
        if w =? 0 then (inl i, take_provider cost p :: ps)
        else
          let wait := if (wait <? 0) || (w <? wait) then w else wait in
          let '(r, ps) := pick_provider now wall cost wait (S i) ps in (r, p :: ps)
  end.

(** The most urgent queue with a job: its priority and its first job. *)
Fixpoint head_job (prio : nat) (qs : list (list nat)) : option (nat * nat) :=
  match qs with
  | [] => None
  | [] :: qs => head_job (S prio) qs
  | (id :: _) :: _ => Some (prio, id)
  end.

Inductive chosen := NoJob | Wait (d : Duration) | Run (id pr : nat).

Definition pop (prio : nat) (s : llmScheduler) : llmScheduler := s <| sc_queues := alter tail prio (sc_queues s) |>.

Definition next (now wall : Time) (s : llmScheduler) : chosen * list llmJob * llmScheduler :=
  let '(stale, s) := drop_stale now s in
  match head_job 0 (sc_queues s) ≫= λ '(prio, id), (λ j, (prio, id, j)) <$> sc_jobs s !! id with
  | None => (NoJob, stale, s)
  | Some (prio, id, j) =>
      let '(r, ps) := pick_provider now wall (lj_cost j) (-1) 0 (sc_providers s) in
      let s := s <| sc_providers := ps |> in
      match r with
      | inl i => (Run id i, stale, pop prio s)
      | inr wait => (Wait (Z.max (if wait <=? 0 then Second else wait) (5 * Millisecond)), stale, s)
      end
  end.

(** ** Settling *)

Definition store (key : Z) (res : LLMResult) (now : Time) (s : llmScheduler) : llmScheduler :=
  if sc_cacheTTL s <=? 0 then s
  else s <| sc_cache := take llmCacheSize ({| ce_key := key; ce_res := res; ce_at := now |} :: cache_without key (sc_cache s)) |>.

(** The budget corrected by what the request used, then by the provider's
    own count. *)
Definition settle_budget (cost : Z) (res : LLMResult) (b : tokenBucket) : tokenBucket :=
  let b := if 0 <? us_Total (lr_Usage res)
           then b <| tb_level := fmin (tb_level b ⊕ #(cost -! us_Total (lr_Usage res))) (tb_cap b) |> else b in
  if ri_ok (lr_rate res) && (f64_zero <. tb_cap b)
  then b <| tb_level := fmin (tb_level b) #(ri_remainingTokens (lr_rate res)) |> else b.

Definition block_provider (now : Time) (wait : Duration) (rate : rateInfo) (p : llmProvider) : llmProvider :=
  p <| pr_blocked := if ri_ok rate && (wait <? ri_reset rate) then t_add now (ri_reset rate) else t_add now wait |>.

Definition on_provider (i : nat) (f : llmProvider → llmProvider) (s : llmScheduler) : llmScheduler :=
  s <| sc_providers := alter f i (sc_providers s) |>.

(** Job [id] got [res], [err] from provider [i]. *)
Definition settle (now : Time) (id i : nat) (res : LLMResult) (err : option read_error) (s : llmScheduler)
    : list answer * llmScheduler :=
  match sc_jobs s !! id with
  | None => ([], s)
  | Some j =>
      let s := s <| sc_lastUsed := from_option pr_name "" (sc_providers s !! i) |> in
      let finish (s : llmScheduler) := (finishAll [j] res err, delete_job id j s) in
      match err with
      | None =>
          finish (store (lj_key j) res now (on_provider i (λ p, p <| pr_tokens := settle_budget (lj_cost j) res (pr_tokens p) |>) s))
      | Some (RateError wait rate _) =>
          let s := on_provider i (block_provider now wait rate) s in
          let j := j <| lj_tries := lj_tries j +! 1 |> in
          let s := s <| sc_jobs := <[id := j]> (sc_jobs s) |> in
          if lj_tries j <? llmMaxTries *! Z.of_nat (length (sc_providers s)) then ([], requeue (lj_prio j) id s)
          else finish s
      | Some _ => finish s
      end
  end.

(** ** Workers *)

Inductive worker :=
  | Loop                                   (* about to ask for a job *)
  | Waiting                                (* for a poke or a timer *)
  | Taken (id pr : nat)                    (* before the breaker *)
  | Reading (id pr : nat)                  (* the request is out *)
  | ReadDone (id pr : nat) (res : LLMResult) (err : option read_error).

Record world := { wo_sched : llmScheduler; wo_workers : list worker }.
#[export] Instance world_settable : Settable world := λ w, {| wo_sched := wo_sched w; wo_workers := wo_workers w |}.

Definition is_rate_error (err : option read_error) : bool := match err with Some (RateError _ _ _) => true | _ => false end.

(** What happens next; a worker is named by its place. *)
Inductive event :=
  | EvSubmit (now : Time) (r : request)
  | EvNext (w : nat) (now wall : Time)
  | EvWake (w : nat)
  | EvAdmit (w : nat) (wall : Time)
  | EvReply (w : nat) (wall : Time) (res : LLMResult) (err : option read_error)
  | EvSettle (w : nat) (now : Time).

Definition set_worker (w : nat) (x : worker) (o : world) : world := o <| wo_workers := <[w := x]> (wo_workers o) |>.
Definition set_cb (i : nat) (cb : CircuitBreaker) : llmScheduler → llmScheduler := on_provider i (λ p, p <| pr_cb := cb |>).
Definition provider_cb (i : nat) (s : llmScheduler) : CircuitBreaker :=
  from_option pr_cb (NewCircuitBreaker 3 (30 * Second)) (sc_providers s !! i).

Definition world_submit `{UT : UnicodeTables} (now : Time) (r : request) (o : world) : list answer * world :=
  match submit now r (wo_sched o) with
  | (Answered a, s) => ([a], o <| wo_sched := s |>)
  | (Added true, s) => ([], {| wo_sched := s; wo_workers := wo_workers o ++ [Loop] |})
  | (_, s) => ([], o <| wo_sched := s |>)
  end.

(** A worker at the top of its loop.  One that leaves is taken off the list. *)
Definition worker_next (w : nat) (now wall : Time) (o : world) : list answer * world :=
  let '(c, stale, s) := next now wall (wo_sched o) in
  let answers := finishAll stale zero_LLMResult (Some ErrLLMStale) in
  match c with
  | NoJob => (answers, {| wo_sched := s <| sc_running := sc_running s -! 1 |>; wo_workers := delete w (wo_workers o) |})
  | Wait _ => (answers, set_worker w Waiting (o <| wo_sched := s |>))
  | Run id i => (answers, set_worker w (Taken id i) (o <| wo_sched := s |>))
  end.

(** An event that cannot happen changes nothing. *)
Definition world_step `{UT : UnicodeTables} (ev : event) (o : world) : list answer * world :=
  match ev with
  | EvSubmit now r => world_submit now r o
  | EvNext w now wall => match wo_workers o !! w with Some Loop => worker_next w now wall o | _ => ([], o) end
  | EvWake w => match wo_workers o !! w with Some Waiting => ([], set_worker w Loop o) | _ => ([], o) end
  | EvAdmit w wall =>
      match wo_workers o !! w with
      | Some (Taken id i) =>
          let '(ok, cb, _) := execute_begin wall (provider_cb i (wo_sched o)) in
          let o := o <| wo_sched := set_cb i cb (wo_sched o) |> in
          ([], set_worker w (if ok then Reading id i else ReadDone id i zero_LLMResult None) o)
      | _ => ([], o)
      end
  | EvReply w wall res err =>
      match wo_workers o !! w with
      | Some (Reading id i) =>
          let '(cb, _) := execute_end wall (is_rate_error err) (provider_cb i (wo_sched o)) in
          ([], set_worker w (ReadDone id i res err) (o <| wo_sched := set_cb i cb (wo_sched o) |>))
      | _ => ([], o)
      end
  | EvSettle w now =>
      match wo_workers o !! w with
      | Some (ReadDone id i res err) =>
          let '(answers, s) := settle now id i res err (wo_sched o) in (answers, set_worker w Loop (o <| wo_sched := s |>))
      | _ => ([], o)
      end
  end.

Fixpoint world_run `{UT : UnicodeTables} (evs : list event) (o : world) : list answer * world :=
  match evs with
  | [] => ([], o)
  | ev :: evs => let '(a, o) := world_step ev o in let '(a', o) := world_run evs o in (a ++ a', o)
  end.

Definition start (workers : Z) (cacheTTL : Duration) (ps : list llmProvider) : world :=
  {| wo_sched := foldl (λ s p, addProvider p s) (newLLMScheduler workers cacheTTL) ps; wo_workers := [] |}.

(** ** The dashboard's view *)

Record llmQueueStats := { qs_Queue : gmap string Z; qs_Running : Z; qs_Budget : Z; qs_Provider : string; qs_Providers : Z }.

Definition queue_counts (s : llmScheduler) : gmap string Z :=
  list_to_map (filter (λ '(_, n), n ≠ 0) (zip prioNames ((λ q, Z.of_nat (length q)) <$> sc_queues s))).

Definition stats_step (now : Time) (budget : Z) (p : llmProvider) : Z * llmProvider :=
  if unlimited (pr_tokens p) then (budget, p)
  else
    let p := p <| pr_tokens := refill now (pr_tokens p) |> in
    (Z.max budget 0 +! f64_to_int (fmax (tb_level (pr_tokens p)) f64_zero), p).

Fixpoint stats_budget (now : Time) (budget : Z) (ps : list llmProvider) : Z * list llmProvider :=
  match ps with
  | [] => (budget, [])
  | p :: ps => let '(budget, p) := stats_step now budget p in let '(budget, ps) := stats_budget now budget ps in (budget, p :: ps)
  end.

Definition stats (now : Time) (s : llmScheduler) : llmQueueStats * llmScheduler :=
  let '(budget, ps) := stats_budget now (-1) (sc_providers s) in
  ({| qs_Queue := queue_counts s; qs_Running := sc_running s; qs_Budget := budget; qs_Provider := sc_lastUsed s;
      qs_Providers := Z.of_nat (length (sc_providers s)) |}, s <| sc_providers := ps |>).

End scheduler.
Arguments llmJob : clear implicits.
Arguments llmScheduler : clear implicits.
Arguments answer : clear implicits.
Arguments request : clear implicits.
Arguments world : clear implicits.
Arguments event : clear implicits.
