(* ===== verification/LlmSchedulerOk.v ===== *)
(** The read queue keeps its promises: every read is answered once, none is
    left without a worker, the most urgent runs first, and no job is sent more
    than three times per provider. *)
From Stdlib Require Import ssreflect.
From S2P Require Import Prelude GoText Float64 Model TgSignal Regex TgParse TgPrompt TgDecide CircuitBreaker LlmScheduler.
#[local] Open Scope Z_scope.

Section scheduler.
Context {D : Type} `{UT : UnicodeTables}.
Implicit Types (s : llmScheduler D) (o : world D) (j : llmJob D) (m : gmap nat (llmJob D)).

(** ** Who waits for an answer *)

Definition dones (j : llmJob D) : list D := lj_done j :: lj_waiters j.
Definition pending (m : gmap nat (llmJob D)) : list D := map_to_list m ≫= λ p, dones p.2.

Lemma pending_insert m id j : m !! id = None → pending (<[id := j]> m) ≡ₚ dones j ++ pending m.
Proof. intros Hm. by rewrite /pending map_to_list_insert. Qed.

Lemma pending_delete m id j : m !! id = Some j → pending m ≡ₚ dones j ++ pending (delete id m).
Proof. intros Hm. by rewrite /pending -{1}(map_to_list_delete m id j Hm). Qed.

Lemma pending_update m id j j' extra : m !! id = Some j → dones j' ≡ₚ dones j ++ extra →
  pending (<[id := j']> m) ≡ₚ extra ++ pending m.
Proof.
  intros Hm Hj. rewrite -insert_delete_eq pending_insert ?lookup_delete_eq // Hj (pending_delete m id j Hm).
  rewrite !app_assoc. f_equiv. by rewrite Permutation_app_comm.
Qed.

Lemma pending_same m id j j' : m !! id = Some j → dones j' = dones j → pending (<[id := j']> m) ≡ₚ pending m.
Proof. intros Hm Hj. apply (pending_update m id j j' [] Hm). by rewrite Hj app_nil_r. Qed.

Lemma finish_job_dones res err j : an_done <$> finish_job res err j = dones j.
Proof. rewrite /finish_job /dones fmap_cons -list_fmap_compose /=. f_equal. by rewrite list_fmap_id. Qed.

Lemma finishAll_dones res err (js : list (llmJob D)) : an_done <$> finishAll js res err = js ≫= dones.
Proof.
  induction js as [|j js IH]; [done|]. rewrite /finishAll bind_cons fmap_app finish_job_dones bind_cons. f_equal. exact IH.
Qed.

(** ** The queues and the store *)

(** [hands] are the jobs the workers hold. *)
Record sched_ok (hands : list nat) s : Prop := {
  so_len : length (sc_queues s) = numPrios;
  so_nodup : NoDup (concat (sc_queues s) ++ hands);
  so_live : ∀ id, id ∈ concat (sc_queues s) ++ hands ↔ is_Some (sc_jobs s !! id);
  so_prio : ∀ id j, sc_jobs s !! id = Some j → (lj_prio j < numPrios)%nat;
  so_queue : ∀ p q id j, sc_queues s !! p = Some q → id ∈ q → sc_jobs s !! id = Some j → lj_prio j = p;
  so_next : ∀ id, is_Some (sc_jobs s !! id) → (id < sc_nextID s)%nat;
  so_keys : ∀ key id, sc_queued s !! key = Some id ↔ ∃ j, sc_jobs s !! id = Some j ∧ lj_key j = key }.

Lemma concat_alter {A} (f : list A → list A) (qs : list (list A)) : ∀ p q, qs !! p = Some q →
  ∃ before after, concat qs = before ++ q ++ after ∧ concat (alter f p qs) = before ++ f q ++ after.
Proof.
  induction qs as [|q0 qs IH]; intros [|p] q Hq; [done|done| |].
  - injection Hq as ->. by exists [], (concat qs).
  - apply IH in Hq as (before & after & H1 & H2). exists (q0 ++ before), after. rewrite - !app_assoc -H1 -H2. done.
Qed.

Lemma concat_filter_split {A} (P : A → Prop) `{!∀ x, Decision (P x)} (qs : list (list A)) :
  concat (filter P <$> qs) ++ concat (filter (λ x, ¬ P x) <$> qs) ≡ₚ concat qs.
Proof.
  induction qs as [|q qs IH]; [done|]. rewrite !fmap_cons /= -IH.
  assert (filter P q ++ filter (λ x, ¬ P x) q ≡ₚ q) as Hq.
  { clear IH. induction q as [|x q IHq]; [done|]. rewrite !filter_cons. destruct (base.decide (P x)); destruct (base.decide (¬ P x)); try tauto; simpl.
    - by rewrite IHq.
    - by rewrite -Permutation_middle IHq. }
  rewrite -{3}Hq - !app_assoc. f_equiv. rewrite !app_assoc. f_equiv. by rewrite Permutation_app_comm.
Qed.

(** The same jobs, filed otherwise. *)
Lemma sched_ok_refile hands hands' s s' :
  sched_ok hands s → sc_jobs s' = sc_jobs s → sc_nextID s' = sc_nextID s → sc_queued s' = sc_queued s →
  length (sc_queues s') = numPrios → concat (sc_queues s') ++ hands' ≡ₚ concat (sc_queues s) ++ hands →
  (∀ p q id j, sc_queues s' !! p = Some q → id ∈ q → sc_jobs s !! id = Some j → lj_prio j = p) →
  sched_ok hands' s'.
Proof.
  intros [Hl Hn Hv Hp Hq Hx Hk] Hj Hi Hd Hl' Hperm Hq'. split; rewrite ?Hj ?Hi ?Hd //.
  - by rewrite Hperm.
  - intros id. by rewrite Hperm.
Qed.

(** Only what the answers say, the budgets and the cache changed. *)
Lemma sched_ok_same hands s s' :
  sched_ok hands s → sc_jobs s' = sc_jobs s → sc_nextID s' = sc_nextID s → sc_queued s' = sc_queued s → sc_queues s' = sc_queues s →
  sched_ok hands s'.
Proof.
  intros Hok Hj Hi Hd Hq. destruct Hok. eapply sched_ok_refile; [by split|done..| | |]; rewrite ?Hq //.
Qed.

Lemma sched_ok_hands hands hands' s : hands ≡ₚ hands' → sched_ok hands s → sched_ok hands' s.
Proof.
  intros Hp Hok. pose proof Hok as [Hl Hn Hv Hpr Hq Hx Hk]. eapply sched_ok_refile; [exact Hok|done..| |exact Hq]. by rewrite Hp.
Qed.

(** A job leaves. *)
Lemma delete_job_ok id hands s j : sched_ok (id :: hands) s → sc_jobs s !! id = Some j → sched_ok hands (delete_job id j s).
Proof.
  intros [Hl Hn Hv Hp Hq Hx Hk] Hj. 
  assert (concat (sc_queues s) ++ id :: hands ≡ₚ id :: concat (sc_queues s) ++ hands) as Hm by (by rewrite Permutation_middle).
  rewrite Hm in Hn. apply NoDup_cons in Hn as [Hni Hn].
  assert (∀ i, i = id ∨ i ∈ concat (sc_queues s) ++ hands ↔ is_Some (sc_jobs s !! i)) as Hv'
    by (intros i; by rewrite -Hv Hm elem_of_cons).
  split; rewrite /delete_job; simpl.
  - exact Hl.
  - exact Hn.
  - intros i. destruct (base.decide (i = id)) as [->|Hne].
    + rewrite lookup_delete_eq. split; [by intros ?%Hni|by intros []].
    + rewrite lookup_delete_ne // -Hv'. naive_solver.
  - intros i j' Hi. apply lookup_delete_Some in Hi as [_ Hi]. eauto.
  - intros p q i j' Hpq Hi Hj'. apply lookup_delete_Some in Hj' as [_ Hj']. eauto.
  - intros i [j' Hi]. apply lookup_delete_Some in Hi as [_ Hi]. eauto.
  - intros key i. rewrite lookup_delete_Some Hk. split.
    + intros [Hne (j' & Hj' & <-)]. exists j'. split; [|done]. apply lookup_delete_Some. split; [|done]. intros <-. simplify_eq.
    + intros (j' & Hj' & <-). apply lookup_delete_Some in Hj' as [Hne Hj']. split; [|eauto]. intros He.
      apply Hne. assert (sc_queued s !! lj_key j = Some id) as H1 by (apply Hk; eauto).
      assert (sc_queued s !! lj_key j = Some i) as H2 by (apply Hk; rewrite He; eauto). congruence.
Qed.

Lemma elem_of_concat_at {A} (x : A) (qs : list (list A)) p q : qs !! p = Some q → x ∈ q → x ∈ concat qs.
Proof. intros Hp Hx. destruct (concat_alter id qs p q Hp) as (b & a & -> & _). rewrite !elem_of_app. tauto. Qed.

Lemma queue_at hands s p : sched_ok hands s → (p < numPrios)%nat → ∃ q, sc_queues s !! p = Some q.
Proof. intros [Hl _ _ _ _ _ _] Hp. apply lookup_lt_is_Some. by rewrite Hl. Qed.

(** A job changes, but not its question; its priority only in a worker's
    hands. *)
Lemma update_job_ok hands s id j j' : sched_ok hands s → sc_jobs s !! id = Some j → lj_key j' = lj_key j → (lj_prio j' < numPrios)%nat →
  lj_prio j' = lj_prio j ∨ id ∈ hands → sched_ok hands (s <| sc_jobs := <[id := j']> (sc_jobs s) |>).
Proof.
  intros [Hl Hn Hv Hp Hq Hx Hk] Hj Hkey Hlt Hprio. split; simpl; try done.
  - intros i. rewrite Hv lookup_insert_is_Some'. split; [by right|]. intros [<-|?]; [by exists j|done].
  - intros i ji [[<- <-]|[_ Hi]]%lookup_insert_Some; eauto.
  - intros p q i ji Hpq Hi [[<- <-]|[_ Hji]]%lookup_insert_Some; [|eauto]. destruct Hprio as [->|Hh]; [eauto|].
    apply NoDup_app in Hn as (_ & Hn & _). exfalso. eapply Hn; [|exact Hh]. by eapply elem_of_concat_at.
  - intros i [<-|Hi]%lookup_insert_is_Some'; [apply Hx; by exists j|by apply Hx].
  - intros key i. rewrite Hk. split.
    + intros (ji & Hji & <-). destruct (base.decide (id = i)) as [->|Hne].
      * exists j'. rewrite lookup_insert_eq. split; [done|]. rewrite Hkey. by simplify_eq.
      * exists ji. by rewrite lookup_insert_ne.
    + intros (ji & [[<- <-]|[_ Hji]]%lookup_insert_Some & <-); eauto.
Qed.

(** A job goes back to its queue, at either end. *)
Lemma refile_job_ok f hands s id j : (∀ q, f q ≡ₚ id :: q) → sched_ok (id :: hands) s → sc_jobs s !! id = Some j →
  sched_ok hands (s <| sc_queues := alter f (lj_prio j) (sc_queues s) |>).
Proof.
  intros Hf Hok Hj. destruct (queue_at _ _ (lj_prio j) Hok) as [q Hq]; [by eapply so_prio|].
  destruct (concat_alter f _ _ _ Hq) as (b & a & H1 & H2). eapply sched_ok_refile; [exact Hok|done..| | |].
  - simpl. rewrite length_alter. apply Hok.
  - simpl. rewrite H2 H1 Hf /=. by rewrite -(Permutation_middle (b ++ q ++ a)) -(Permutation_middle b).
  - intros p q' i ji Hp Hi Hji. simpl in Hp. destruct (base.decide (lj_prio j = p)) as [<-|Hne].
    + rewrite list_lookup_alter_eq Hq in Hp. injection Hp as <-. rewrite Hf elem_of_cons in Hi.
      destruct Hi as [->|Hi]; [by simplify_eq|]. by eapply so_queue.
    + rewrite list_lookup_alter_ne // in Hp. by eapply so_queue.
Qed.

(** A job leaves its queue for a worker's hands. *)
Lemma take_job_ok f hands s id p q : sc_queues s !! p = Some q → q ≡ₚ id :: f q → sched_ok hands s →
  sched_ok (id :: hands) (s <| sc_queues := alter f p (sc_queues s) |>).
Proof.
  intros Hq Hf Hok. destruct (concat_alter f _ _ _ Hq) as (b & a & H1 & H2). eapply sched_ok_refile; [exact Hok|done..| | |].
  - simpl. rewrite length_alter. apply Hok.
  - simpl. rewrite H2 H1 {2}Hf /=. by rewrite -(Permutation_middle (b ++ f q ++ a)) -(Permutation_middle b).
  - intros p' q' i ji Hp Hi Hji. simpl in Hp. destruct (base.decide (p = p')) as [<-|Hne].
    + rewrite list_lookup_alter_eq Hq in Hp. injection Hp as <-. eapply so_queue; [exact Hok|exact Hq| |exact Hji].
      rewrite Hf elem_of_cons. by right.
    + rewrite list_lookup_alter_ne // in Hp. by eapply so_queue.
Qed.

Lemma remove_first_perm id q : id ∈ q → q ≡ₚ id :: remove_first id q.
Proof.
  induction q as [|x q IH]; [by intros ?%elem_of_nil|]. simpl. destruct (Nat.eqb_spec x id) as [->|Hne]; [done|].
  intros [->|Hi]%elem_of_cons; [done|]. rewrite {1}(IH Hi). constructor.
Qed.

(** ** Submitting *)

(** A job as often sent as [n] providers allow. *)
Definition tries_ok (n : nat) (m : gmap nat (llmJob D)) : Prop :=
  map_Forall (λ _ j, 0 <= lj_tries j < Z.max 1 (llmMaxTries * Z.of_nat n)) m.

Definition frame s : Z * Z * list llmProvider := (sc_running s, sc_workers s, sc_providers s).

(** [s'] is [s] with one more caller waiting. *)
Record one_more (hands : list nat) (d : D) s s' : Prop := {
  om_ok : sched_ok hands s';
  om_pending : pending (sc_jobs s') ≡ₚ d :: pending (sc_jobs s);
  om_tries : ∀ n, tries_ok n (sc_jobs s) → tries_ok n (sc_jobs s');
  om_frame : frame s' = frame s }.

(** The job with one more caller. *)
Definition joined (old : llmJob D) (r : request D) : llmJob D :=
  let old := old <| lj_waiters := lj_waiters old ++ [rq_done r] |> in
  if t_after (rq_deadline r) (lj_deadline old) then old <| lj_deadline := rq_deadline r |> else old.

Lemma joined_keeps old r : lj_key (joined old r) = lj_key old ∧ lj_prio (joined old r) = lj_prio old ∧ lj_tries (joined old r) = lj_tries old ∧
  dones (joined old r) = dones old ++ [rq_done r].
Proof. rewrite /joined. case_match; done. Qed.

Lemma insert_one_more m id old j d : m !! id = Some old → lj_tries j = lj_tries old → dones j = dones old ++ [d] →
  pending (<[id := j]> m) ≡ₚ d :: pending m ∧ ∀ n, tries_ok n m → tries_ok n (<[id := j]> m).
Proof.
  intros Hm Ht Hd. split; [apply (pending_update m id old j [d] Hm); by rewrite Hd|].
  intros n Hn. apply map_Forall_insert_2; [|done]. rewrite Ht. by apply (Hn id).
Qed.

Lemma join_job_ok hands id old r s : sched_ok hands s → sc_jobs s !! id = Some old → (rq_prio r < numPrios)%nat →
  one_more hands (rq_done r) s (join_job id old r s).
Proof.
  intros Hok Hold Hr. destruct (joined_keeps old r) as (Hk & Hp & Ht & Hd).
  assert ((lj_prio old < numPrios)%nat) as Hlt by (by eapply so_prio).
  rewrite /join_job. fold (joined old r).
  assert (one_more hands (rq_done r) s (s <| sc_jobs := <[id := joined old r]> (sc_jobs s) |>)) as Hput.
  { destruct (insert_one_more _ _ _ _ _ Hold Ht Hd) as [Hpend Htr]. split; [|exact Hpend|exact Htr|done].
    eapply update_job_ok; [done|exact Hold|done|by rewrite Hp|by left]. }
  destruct (Nat.ltb_spec (rq_prio r) (lj_prio (joined old r))); [|exact Hput].
  rewrite /unqueue Hp. case_bool_decide as Hin; [|exact Hput].
  destruct (queue_at _ _ _ Hok Hlt) as [q Hq]. rewrite Hq /= in Hin.
  set s1 := s <| sc_queues := alter (remove_first id) (lj_prio old) (sc_queues s) |>.
  set j := joined old r <| lj_prio := rq_prio r |>.
  assert (sched_ok (id :: hands) s1) as H1 by (eapply take_job_ok; [exact Hq|by apply remove_first_perm|done]).
  assert (sched_ok (id :: hands) (s1 <| sc_jobs := <[id := j]> (sc_jobs s1) |>)) as H2
    by (eapply update_job_ok; [exact H1|exact Hold|exact Hk|exact Hr|right; by left]).
  destruct (insert_one_more (sc_jobs s) id old j (rq_done r) Hold) as [Hpend Htr]; [exact Ht|exact Hd|].
  split; [|exact Hpend|exact Htr|done].
  eapply (refile_job_ok (λ q, q ++ [id]) hands _ id j); [|exact H2|apply lookup_insert_eq].
  intros q'. by rewrite Permutation_app_comm.
Qed.

Lemma add_job_ok hands s j : sched_ok hands s → sc_queued s !! lj_key j = None → (lj_prio j < numPrios)%nat → lj_tries j = 0 →
  lj_waiters j = [] → one_more hands (lj_done j) s (add_job j s).
Proof.
  intros Hok Hkey Hlt Ht Hw. set id := sc_nextID s.
  assert (sc_jobs s !! id = None) as Hnew.
  { destruct (sc_jobs s !! id) eqn:E; [|done]. pose proof (so_next _ _ Hok id (ltac:(by eexists))). lia. }
  set s1 := s <| sc_jobs := <[id := j]> (sc_jobs s) |> <| sc_nextID := S id |> <| sc_queued := <[lj_key j := id]> (sc_queued s) |>.
  assert (sched_ok (id :: hands) s1) as H1.
  { destruct Hok as [Hl Hn Hv Hp Hq Hx Hk].
    assert (id ∉ concat (sc_queues s) ++ hands) as Hni by (rewrite Hv Hnew; by intros []).
    assert (concat (sc_queues s) ++ id :: hands ≡ₚ id :: concat (sc_queues s) ++ hands) as Hm by (by rewrite Permutation_middle).
    split; rewrite /s1; simpl.
    - exact Hl.
    - rewrite Hm. by constructor.
    - intros i. rewrite Hm elem_of_cons lookup_insert_is_Some' Hv. naive_solver.
    - intros i ji [[<- <-]|[_ Hi]]%lookup_insert_Some; eauto.
    - intros p q i ji Hpq Hi [[<- <-]|[_ Hji]]%lookup_insert_Some; [|eauto]. exfalso. apply Hni. apply elem_of_app. left. by eapply elem_of_concat_at.
    - intros i [<-|Hi]%lookup_insert_is_Some'; [lia|]. apply Hx in Hi. rewrite /id. lia.
    - intros key i. rewrite lookup_insert_Some Hk. split.
      + intros [[<- <-]|[Hne (ji & Hji & <-)]]; [exists j; by rewrite lookup_insert_eq|].
        exists ji. rewrite lookup_insert_ne //. by intros <-; simplify_eq.
      + intros (ji & [[<- <-]|[Hne Hji]]%lookup_insert_Some & <-); [by left|]. right. split; [|eauto].
        intros He. rewrite He in Hkey. assert (sc_queued s !! lj_key ji = Some i) by (apply Hk; eauto). congruence. }
  split.
  - eapply (refile_job_ok (λ q, q ++ [id]) hands s1 id j); [|exact H1|apply lookup_insert_eq]. intros q'. by rewrite Permutation_app_comm.
  - change (sc_jobs (add_job j s)) with (<[id := j]> (sc_jobs s)). rewrite pending_insert // /dones Hw. done.
  - intros n Hn. change (sc_jobs (add_job j s)) with (<[id := j]> (sc_jobs s)). apply map_Forall_insert_2; [rewrite Ht; lia|done].
  - done.
Qed.

Lemma submit_ok hands now r s : sched_ok hands s → (rq_prio r < numPrios)%nat →
  match submit now r s with
  | (Answered a, s') => an_done a = rq_done r ∧ sched_ok hands s' ∧ sc_jobs s' = sc_jobs s ∧ frame s' = frame s ∧ sc_queues s' = sc_queues s
  | (Joined, s') => one_more hands (rq_done r) s s' ∧ ∃ id, is_Some (sc_jobs s !! id)
  | (Added spawn, s') =>
      spawn = (sc_running s <? sc_workers s) ∧ ∃ s1, one_more hands (rq_done r) s s1 ∧
      s' = if spawn then s1 <| sc_running := sc_running s1 +! 1 |> else s1
  end.
Proof.
  intros Hok Hr. rewrite /submit. destruct (match cache_find _ s with Some _ => _ | None => _ end) as [e|].
  { split; [done|]. split; [|done]. by eapply sched_ok_same. }
  set s0 := s <| sc_cache := _ |>. assert (sched_ok hands s0) as H0 by (by eapply sched_ok_same).
  set j := new_job r. change (sc_queued s0) with (sc_queued s). change (sc_jobs s0) with (sc_jobs s).
  destruct (sc_queued s !! lj_key j) as [id|] eqn:Hq; simpl.
  - apply (so_keys _ _ Hok) in Hq as Hj. destruct Hj as (old & Hold & _). rewrite Hold /=.
    change (sc_jobs s) with (sc_jobs s0) in Hold. destruct (join_job_ok hands id old r s0 H0 Hold Hr) as [H1 H2 H3 H4].
    split; [by split|by exists id, old].
  - change (sc_running s) with (sc_running (add_job j s0)). change (sc_workers s) with (sc_workers (add_job j s0)).
    assert (one_more hands (rq_done r) s (add_job j s0)) as Ha.
    { destruct (add_job_ok hands s0 j H0 Hq Hr eq_refl eq_refl) as [H1 H2 H3 H4]. by split. }
    destruct (_ <? _) eqn:Hlt; (split; [done|]; exists (add_job j s0); by split).
Qed.

(** ** Choosing *)

(** [js] left. *)
Record without (hands : list nat) (js : list (llmJob D)) s s' : Prop := {
  wi_ok : sched_ok hands s';
  wi_pending : (js ≫= dones) ++ pending (sc_jobs s') ≡ₚ pending (sc_jobs s);
  wi_jobs : sc_jobs s' ⊆ sc_jobs s;
  wi_frame : frame s' = frame s;
  wi_queues : sc_queues s' = sc_queues s }.

Lemma delete_all_ok hands ids : ∀ s, sched_ok (ids ++ hands) s →
  without hands (omap (λ id, sc_jobs s !! id) ids) s
    (foldl (λ s id, match sc_jobs s !! id with Some j => delete_job id j s | None => s end) s ids).
Proof.
  induction ids as [|id ids IH]; intros s Hok; simpl.
  - by split.
  - assert (is_Some (sc_jobs s !! id)) as [j Hj] by (apply (so_live _ _ Hok), elem_of_app; right; by left).
    rewrite Hj /=. pose proof (delete_job_ok id (ids ++ hands) s j Hok Hj) as H1. destruct (IH _ H1) as [H2 H3 H4 H5 H6].
    assert (omap (λ i, sc_jobs (delete_job id j s) !! i) ids = omap (λ i, sc_jobs s !! i) ids) as Hsame.
    { pose proof (so_nodup _ _ Hok) as Hn. apply NoDup_app in Hn as (_ & _ & [Hni _]%NoDup_cons).
      apply list_omap_ext, Forall_Forall2_diag, Forall_forall. intros i Hi. apply lookup_delete_ne. intros <-.
      by apply Hni, elem_of_app; left. }
    split; [exact H2| | |exact H5|exact H6].
    + rewrite Hsame in H3. rewrite bind_cons -app_assoc. rewrite H3. symmetry. by apply pending_delete.
    + etrans; [exact H4|]. apply delete_subseteq.
Qed.

Lemma tries_ok_mono n m m' : m' ⊆ m → tries_ok n m → tries_ok n m'.
Proof. intros Hs Hm i j Hj. eapply Hm. by eapply lookup_weaken. Qed.

Lemma drop_stale_ok hands now s : sched_ok hands s →
  sched_ok hands (drop_stale now s).2 ∧ ((drop_stale now s).1 ≫= dones) ++ pending (sc_jobs (drop_stale now s).2) ≡ₚ pending (sc_jobs s) ∧
  sc_jobs (drop_stale now s).2 ⊆ sc_jobs s ∧ frame (drop_stale now s).2 = frame s ∧
  sc_queues (drop_stale now s).2 = filter (λ id, is_stale now s id = false) <$> sc_queues s.
Proof.
  intros Hok. rewrite /drop_stale. set late := concat _. set kept := fmap _ _.
  set s1 := s <| sc_queues := kept |>.
  assert (late ++ concat kept ≡ₚ concat (sc_queues s)) as Hsplit.
  { rewrite -(concat_filter_split (λ id, is_stale now s id = true) (sc_queues s)) /late /kept.
    rewrite (list_fmap_ext (filter (λ id, is_stale now s id = false)) (filter (λ id, ¬ is_stale now s id = true)) (sc_queues s)); [|done].
    intros _ q _. apply list_filter_iff. intros id. by destruct (is_stale now s id). }
  assert (sched_ok (late ++ hands) s1) as H1.
  { eapply sched_ok_refile; [exact Hok|done..| | |].
    - rewrite /s1 /kept /= length_fmap. apply Hok.
    - rewrite /s1 /=. by rewrite app_assoc (Permutation_app_comm (concat kept)) Hsplit.
    - intros p q id j Hp Hi Hj. rewrite /s1 /kept /= list_lookup_fmap in Hp. destruct (sc_queues s !! p) as [q0|] eqn:Hq; [|done].
      injection Hp as <-. apply list_elem_of_filter in Hi as [_ Hi]. by eapply so_queue. }
  destruct (delete_all_ok hands late s1 H1) as [H2 H3 H4 H5 H6]. done.
Qed.

Lemma head_job_found qs : ∀ p0 p id, head_job p0 qs = Some (p, id) →
  ∃ i q, p = (p0 + i)%nat ∧ qs !! i = Some (id :: q) ∧ ∀ i', (i' < i)%nat → qs !! i' = Some [].
Proof.
  induction qs as [|[|x q] qs IH]; intros p0 p id; simpl; [done| |].
  - intros (i & q & -> & Hq & Hb)%IH. exists (S i), q. split; [lia|]. split; [done|]. intros [|i'] Hi; [done|]. apply Hb. lia.
  - intros [= <- <-]. exists 0%nat, q. split; [lia|]. split; [done|]. intros i' Hi. lia.
Qed.

Lemma head_job_none qs : ∀ p0, head_job p0 qs = None → concat qs = [].
Proof. induction qs as [|[|x q] qs IH]; intros p0; simpl; [done| |done]. apply IH. Qed.

Lemma pick_provider_length now wall cost ps : ∀ wait i, length (pick_provider now wall cost wait i ps).2 = length ps.
Proof.
  induction ps as [|p ps IH]; intros wait i; simpl; [done|]. destruct (Allow wall (pr_cb p)) as [[ok cb] ch].
  case_match; [|case_match; [simpl; lia|]]; (match goal with |- context [pick_provider _ _ _ ?w ?i ps] => specialize (IH w i); destruct (pick_provider now wall cost w i ps) end; simpl in *; lia).
Qed.

(** What a step leaves alone. *)
Definition sizes s : Z * Z * nat := (sc_running s, sc_workers s, length (sc_providers s)).

Lemma pop_ok hands s id p q : sc_queues s !! p = Some (id :: q) → sched_ok hands s → sched_ok (id :: hands) (pop p s).
Proof. intros Hq Hok. by apply (take_job_ok tail hands s id p (id :: q)). Qed.

Lemma next_ok hands now wall s : sched_ok hands s →
  let '(c, stale, s') := next now wall s in
  (stale ≫= dones) ++ pending (sc_jobs s') ≡ₚ pending (sc_jobs s) ∧ sc_jobs s' ⊆ sc_jobs s ∧ sizes s' = sizes s ∧
  match c with
  | NoJob => sched_ok hands s' ∧ concat (sc_queues s') = []
  | Wait _ => sched_ok hands s'
  | Run id _ => sched_ok (id :: hands) s'
  end.
Proof.
  intros Hok. rewrite /next. destruct (drop_stale_ok hands now s Hok) as (H1 & H2 & H3 & H4 & _).
  destruct (drop_stale now s) as [stale s1]. simpl in *. injection H4 as Hr Hw Hp.
  destruct (head_job 0 (sc_queues s1)) as [[prio id]|] eqn:Hh; simpl.
  - destruct (head_job_found _ _ _ _ Hh) as (i & q & -> & Hq & _).
    assert (is_Some (sc_jobs s1 !! id)) as [j Hj].
    { apply (so_live _ _ H1), elem_of_app. left. eapply elem_of_concat_at; [exact Hq|by left]. }
    rewrite Hj /=. pose proof (pick_provider_length now wall (lj_cost j) (sc_providers s1) (-1) 0) as Hl.
    destruct (pick_provider _ _ _ _ _ _) as [[pr|wait] ps]; simpl in Hl.
    + split; [exact H2|]. split; [exact H3|]. split; [rewrite /sizes /= Hl Hr Hw Hp //|].
      eapply pop_ok; [exact Hq|]. by eapply sched_ok_same.
    + split; [exact H2|]. split; [exact H3|]. split; [rewrite /sizes /= Hl Hr Hw Hp //|]. by eapply sched_ok_same.
  - split; [exact H2|]. split; [exact H3|]. split; [rewrite /sizes /= Hr Hw Hp //|]. split; [done|]. by eapply head_job_none.
Qed.

(** ** Settling *)

Lemma settle_finish hands id j s s1 res err : sched_ok (id :: hands) s → sc_jobs s !! id = Some j →
  sched_ok (id :: hands) s1 → pending (sc_jobs s1) ≡ₚ pending (sc_jobs s) → (∃ j', sc_jobs s1 !! id = Some j' ∧ dones j' = dones j ∧ lj_key j' = lj_key j) →
  sched_ok hands (delete_job id j s1) ∧
  (an_done <$> finishAll [j] res err) ++ pending (sc_jobs (delete_job id j s1)) ≡ₚ pending (sc_jobs s).
Proof.
  intros Hok Hj H1 Hp (j' & Hj' & Hd & Hk). split.
  - pose proof (delete_job_ok id hands s1 j' H1 Hj') as H2. rewrite /delete_job in H2. rewrite /delete_job. by rewrite Hk in H2.
  - rewrite finishAll_dones bind_cons /= app_nil_r -Hp (pending_delete _ _ _ Hj') Hd. done.
Qed.

Lemma settle_ok hands now id i res err s n : sched_ok (id :: hands) s → length (sc_providers s) = n → 3 * Z.of_nat n <= max_i64 →
  tries_ok n (sc_jobs s) →
  let '(answers, s') := settle now id i res err s in
  sched_ok hands s' ∧ (an_done <$> answers) ++ pending (sc_jobs s') ≡ₚ pending (sc_jobs s) ∧ sizes s' = sizes s ∧ tries_ok n (sc_jobs s').
Proof.
  intros Hok Hn Hmax Ht. assert (is_Some (sc_jobs s !! id)) as [j Hj] by (apply (so_live _ _ Hok), elem_of_app; right; by left).
  rewrite /settle Hj. set s0 := s <| sc_lastUsed := _ |>.
  assert (sched_ok (id :: hands) s0) as H0 by (by eapply sched_ok_same).
  destruct err as [[|wait rate t|t]|].
  - destruct (settle_finish hands id j s s0 res (Some ErrLLMStale) Hok Hj H0) as [H1 H2]; [done|by exists j|].
    split; [exact H1|]. split; [exact H2|]. split; [done|]. eapply tries_ok_mono; [|exact Ht]. apply delete_subseteq.
  - set s1 := on_provider i (block_provider now wait rate) s0. set j1 := j <| lj_tries := lj_tries j +! 1 |>.
    assert (sched_ok (id :: hands) s1) as H1 by (by eapply sched_ok_same).
    assert (sched_ok (id :: hands) (s1 <| sc_jobs := <[id := j1]> (sc_jobs s1) |>)) as H2.
    { eapply update_job_ok; [exact H1|exact Hj|done| |by left]. exact (so_prio _ _ Hok id j Hj). }
    assert (pending (<[id := j1]> (sc_jobs s)) ≡ₚ pending (sc_jobs s)) as Hpend by (by eapply pending_same).
    assert (length (sc_providers s1) = n) as Hl by (by rewrite /s1 /= length_alter).
    destruct (Z.ltb_spec (lj_tries j1) (llmMaxTries *! Z.of_nat (length (sc_providers (s1 <| sc_jobs := <[id := j1]> (sc_jobs s1) |>))))) as [Hlt|_].
    + split; [by eapply (refile_job_ok (cons id) hands _ id j1); [|exact H2|apply lookup_insert_eq]|]. split; [exact Hpend|].
      split; [rewrite /sizes /= length_alter //|]. apply map_Forall_insert_2; [|exact Ht].
      pose proof (Ht id j Hj) as Hb. simpl in Hb. change (sc_providers (s1 <| sc_jobs := _ |>)) with (sc_providers s1) in Hlt. rewrite Hl in Hlt.
      rewrite /llmMaxTries in Hb, Hlt |- *. change (lj_tries j1) with (i64 (lj_tries j + 1)) in *.
      assert (i64 (3 * Z.of_nat n) = 3 * Z.of_nat n) as H3 by (apply i64_id; i64_unfold; lia).
      assert (i64 (lj_tries j + 1) = lj_tries j + 1) as He by (apply i64_id; i64_unfold; lia). rewrite H3 He in Hlt. rewrite He. lia.
    + destruct (settle_finish hands id j s (s1 <| sc_jobs := <[id := j1]> (sc_jobs s1) |>) res (Some (RateError wait rate t)) Hok Hj H2) as [H3 H4];
        [exact Hpend|exists j1; split; [apply lookup_insert_eq|done]|].
      split; [exact H3|]. split; [exact H4|]. split; [rewrite /sizes /= length_alter //|].
      change (tries_ok n (delete id (<[id := j1]> (sc_jobs s)))). rewrite delete_insert_eq. eapply tries_ok_mono; [|exact Ht]. apply delete_subseteq.
  - destruct (settle_finish hands id j s s0 res (Some (ReadError t)) Hok Hj H0) as [H1 H2]; [done|by exists j|].
    split; [exact H1|]. split; [exact H2|]. split; [done|]. eapply tries_ok_mono; [|exact Ht]. apply delete_subseteq.
  - set s1 := store _ _ _ _. assert (sc_jobs s1 = sc_jobs s ∧ sc_queues s1 = sc_queues s ∧ sc_queued s1 = sc_queued s ∧ sc_nextID s1 = sc_nextID s ∧ sizes s1 = sizes s) as (Ej & Eq & Ed & En & Es).
    { rewrite /s1 /store. case_match; rewrite /sizes /= length_alter; done. }
    assert (sched_ok (id :: hands) s1) as H1 by (by eapply sched_ok_same).
    destruct (settle_finish hands id j s s1 res None Hok Hj H1) as [H2 H3]; [by rewrite Ej|exists j; by rewrite Ej|].
    split; [exact H2|]. split; [exact H3|]. split; [exact Es|]. change (tries_ok n (delete id (sc_jobs s1))). rewrite Ej.
    eapply tries_ok_mono; [|exact Ht]. apply delete_subseteq.
Qed.

(** ** Workers *)

Definition worker_job (x : worker) : option nat :=
  match x with Taken id _ | Reading id _ | ReadDone id _ _ _ => Some id | Loop | Waiting => None end.
Definition hands (o : world D) : list nat := omap worker_job (wo_workers o).

(** [n] providers; every job in a queue or in a worker's hands; no queued job
    without a worker. *)
Record world_ok (n : nat) (o : world D) : Prop := {
  wk_sched : sched_ok (hands o) (wo_sched o);
  wk_running : sc_running (wo_sched o) = Z.of_nat (length (wo_workers o));
  wk_workers : Z.of_nat (length (wo_workers o)) <= sc_workers (wo_sched o);
  wk_some : 0 < sc_workers (wo_sched o) <= max_i64;
  wk_staffed : concat (sc_queues (wo_sched o)) ≠ [] → wo_workers o ≠ [];
  wk_providers : length (sc_providers (wo_sched o)) = n;
  wk_tries : tries_ok n (sc_jobs (wo_sched o)) }.

Definition jobs (o : world D) : gmap nat (llmJob D) := sc_jobs (wo_sched o).

Lemma worker_at (l : list worker) w x : l !! w = Some x →
  ∃ l1 l2, l = l1 ++ x :: l2 ∧ (∀ y, <[w := y]> l = l1 ++ y :: l2) ∧ delete w l = l1 ++ l2.
Proof.
  intros Hw. exists (take w l), (drop (S w) l). pose proof (lookup_lt_Some _ _ _ Hw).
  split; [by rewrite take_drop_middle|]. split; [|apply delete_take_drop]. intros y. by rewrite insert_take_drop.
Qed.

(** Worker [w] goes on as [y], with the scheduler changed. *)
Lemma set_worker_ok n w x y s o : world_ok n o → wo_workers o !! w = Some x →
  (∀ rest, hands o ≡ₚ option_list (worker_job x) ++ rest → sched_ok (option_list (worker_job y) ++ rest) s) →
  sizes s = sizes (wo_sched o) → tries_ok n (sc_jobs s) → world_ok n (set_worker w y (o <| wo_sched := s |>)).
Proof.
  intros [Hok Hr Hw Hs Hst Hp Ht] Hx Hsched Hsz Htr. injection Hsz as Esz1 Esz2 Esz3.
  destruct (worker_at _ _ _ Hx) as (l1 & l2 & Hl & Hi & _). rewrite /set_worker. split; simpl; rewrite ?length_insert ?Esz1 ?Esz2 ?Esz3 //.
  - rewrite /hands /= Hi omap_app. change (y :: l2) with ([y] ++ l2). rewrite omap_app.
    apply (sched_ok_hands (option_list (worker_job y) ++ omap worker_job l1 ++ omap worker_job l2)).
    + rewrite !app_assoc. f_equiv. rewrite Permutation_app_comm. f_equiv. simpl. by destruct (worker_job y).
    + apply Hsched. rewrite /hands Hl omap_app. change (x :: l2) with ([x] ++ l2). rewrite omap_app.
      rewrite !app_assoc. f_equiv. rewrite Permutation_app_comm. f_equiv. simpl. by destruct (worker_job x).
  - intros _ He. apply (f_equal length) in He. rewrite length_insert in He. apply lookup_lt_Some in Hx. simpl in *. lia.
Qed.

(** ** Every step answers what it takes *)

(** The caller an event adds. *)
Definition submitted_by (ev : event D) : list D := match ev with EvSubmit _ r => [rq_done r] | _ => [] end.
Definition event_ok (ev : event D) : Prop := match ev with EvSubmit _ r => (rq_prio r < numPrios)%nat | _ => True end.

Definition step_good (n : nat) (added : list D) o (r : list (answer D) * world D) : Prop :=
  world_ok n r.2 ∧ (an_done <$> r.1) ++ pending (jobs r.2) ≡ₚ added ++ pending (jobs o).

Lemma step_good_idle n o : world_ok n o → step_good n [] o ([], o).
Proof. by split. Qed.

Lemma live_staffed n o id : world_ok n o → is_Some (jobs o !! id) → wo_workers o ≠ [].
Proof.
  intros [Hs _ _ _ Hst _ _] [Hi|Hi]%(so_live _ _ Hs)%elem_of_app.
  - apply Hst. intros He. rewrite He in Hi. by apply elem_of_nil in Hi.
  - intros He. rewrite /hands He in Hi. by apply elem_of_nil in Hi.
Qed.

Lemma world_submit_good n now r o : world_ok n o → (rq_prio r < numPrios)%nat → step_good n [rq_done r] o (world_submit now r o).
Proof.
  intros Hok Hr. pose proof Hok as [Hs Hrun Hw Hsome Hst Hp Ht]. pose proof (submit_ok (hands o) now r (wo_sched o) Hs Hr) as Hsub.
  rewrite /world_submit. destruct (submit now r (wo_sched o)) as [[a| |spawn] s].
  - destruct Hsub as (Hd & H1 & H2 & H3 & H4). injection H3 as E1 E2 E3.
    split; [split; rewrite /= ?E1 ?E2 ?E3 ?H2 ?H4 //|]. rewrite /= /jobs /= Hd H2. done.
  - destruct Hsub as [[H1 H2 H3 H4] [id Hid]]. injection H4 as E1 E2 E3.
    split; [split; rewrite /= ?E1 ?E2 ?E3 //; [intros _; by eapply live_staffed|by apply H3]|exact H2].
  - destruct Hsub as [-> (s1 & [H1 H2 H3 H4] & ->)]. injection H4 as E1 E2 E3.
    destruct (Z.ltb_spec (sc_running (wo_sched o)) (sc_workers (wo_sched o))); (split; [|exact H2]).
    + split; rewrite /= ?E1 ?E2 ?E3 ?length_app /=; [|rewrite i64_id; [i64_unfold|]; lia|lia|lia| |done|by apply H3].
      * rewrite /hands omap_app /= app_nil_r. by eapply sched_ok_same.
      * intros _. by destruct (wo_workers o).
    + split; rewrite /= ?E1 ?E2 ?E3 //; [intros _; destruct (wo_workers o); [simpl in *; lia|done]|by apply H3].
Qed.

Lemma worker_next_good n w now wall o : world_ok n o → wo_workers o !! w = Some Loop → step_good n [] o (worker_next w now wall o).
Proof.
  intros Hok Hw. pose proof Hok as [Hs Hrun Hlen Hsome Hst Hp Ht]. pose proof (next_ok (hands o) now wall (wo_sched o) Hs) as Hn.
  rewrite /worker_next. destruct (next now wall (wo_sched o)) as [[c stale] s]. destruct Hn as (H1 & H2 & H3 & H4).
  assert (tries_ok n (sc_jobs s)) as Ht' by (by eapply tries_ok_mono).
  destruct c as [|d|id i]; (split; [|rewrite /= finishAll_dones; exact H1]).
  - destruct H4 as [H4 H5]. destruct (worker_at _ _ _ Hw) as (l1 & l2 & Hl & _ & Hd). injection H3 as E1 E2 E3.
    assert (length (wo_workers o) = S (length (delete w (wo_workers o)))) as Hlen'.
    { rewrite Hd Hl !length_app /=. lia. }
    split; rewrite /= ?E2 ?E3 //.
    + apply (sched_ok_hands (hands o)); [|by eapply sched_ok_same]. rewrite /hands /= Hd Hl. change (Loop :: l2) with ([Loop] ++ l2).
      by rewrite !omap_app.
    + rewrite E1 Hrun i64_id; [i64_unfold; lia|lia].
    + lia.
  - apply (set_worker_ok n w Loop); [done|done| |done|done]. intros rest Hrest. simpl in *. by eapply sched_ok_hands.
  - apply (set_worker_ok n w Loop); [done|done| |done|done]. intros rest Hrest. simpl in *. eapply sched_ok_hands; [|exact H4]. by rewrite Hrest.
Qed.

Lemma set_cb_same hands s i cb : sched_ok hands s → sched_ok hands (set_cb i cb s) ∧ sizes (set_cb i cb s) = sizes s.
Proof. intros Hok. split; [by eapply sched_ok_same|]. rewrite /sizes /= length_alter //. Qed.

Lemma world_step_good n ev o : 3 * Z.of_nat n <= max_i64 → world_ok n o → event_ok ev → step_good n (submitted_by ev) o (world_step ev o).
Proof.
  intros Hmax Hok Hev. destruct ev as [now r|w now wall|w|w wall|w wall res err|w now]; simpl.
  - by apply world_submit_good.
  - destruct (wo_workers o !! w) as [[]|] eqn:Hw; try by apply step_good_idle. by apply worker_next_good.
  - destruct (wo_workers o !! w) as [[]|] eqn:Hw; try by apply step_good_idle. split; [|done].
    pose proof (set_worker_ok n w Waiting Loop (wo_sched o) o Hok Hw) as Hset. destruct o as [s ws]. apply Hset; [|done|by apply Hok].
    intros rest Hrest. simpl in *. eapply sched_ok_hands; [|apply Hok]. by rewrite Hrest.
  - destruct (wo_workers o !! w) as [[| |id i| |]|] eqn:Hw; try by apply step_good_idle.
    destruct (execute_begin _ _) as [[ok cb] ch]. destruct (set_cb_same (hands o) (wo_sched o) i cb (wk_sched _ _ Hok)) as [H1 H2].
    split; [|done]. apply (set_worker_ok n w (Taken id i)); [done|done| |done|by apply Hok].
    intros rest Hrest. eapply sched_ok_hands; [|exact H1]. rewrite Hrest. by destruct ok.
  - destruct (wo_workers o !! w) as [[| | |id i|]|] eqn:Hw; try by apply step_good_idle.
    destruct (execute_end _ _ _) as [cb ch]. destruct (set_cb_same (hands o) (wo_sched o) i cb (wk_sched _ _ Hok)) as [H1 H2].
    split; [|done]. apply (set_worker_ok n w (Reading id i)); [done|done| |done|by apply Hok].
    intros rest Hrest. eapply sched_ok_hands; [|exact H1]. by rewrite Hrest.
  - destruct (wo_workers o !! w) as [[| | | |id i res err]|] eqn:Hw; try by apply step_good_idle.
    destruct (worker_at _ _ _ Hw) as (l1 & l2 & Hl & _ & _).
    set rest := omap worker_job l1 ++ omap worker_job l2.
    assert (hands o ≡ₚ id :: rest) as Hh.
    { rewrite /hands Hl omap_app /=. by rewrite -Permutation_middle. }
    pose proof (settle_ok rest now id i res err (wo_sched o) n (sched_ok_hands _ _ _ Hh (wk_sched _ _ Hok)) (wk_providers _ _ Hok) Hmax (wk_tries _ _ Hok)) as Hset.
    destruct (settle _ _ _ _ _ _) as [answers s]. destruct Hset as (H1 & H2 & H3 & H4). split; [|exact H2].
    apply (set_worker_ok n w (ReadDone id i res err)); [done|done| |done|done].
    intros rest' Hrest. simpl in *. eapply sched_ok_hands; [|exact H1]. rewrite Hh in Hrest. by eapply Permutation_cons_inv.
Qed.

Lemma world_run_good n evs : 3 * Z.of_nat n <= max_i64 → Forall event_ok evs → ∀ o, world_ok n o →
  step_good n (evs ≫= submitted_by) o (world_run evs o).
Proof.
  intros Hmax. induction 1 as [|ev evs Hev _ IH]; intros o Hok; simpl; [by apply step_good_idle|].
  destruct (world_step_good n ev o Hmax Hok Hev) as [H1 H2]. destruct (world_step ev o) as [a o1].
  destruct (IH o1 H1) as [H3 H4]. destruct (world_run evs o1) as [a' o2]. simpl in *. split; [done|]. simpl.
  rewrite fmap_app -app_assoc H4. rewrite (app_assoc (an_done <$> a)) (Permutation_app_comm (an_done <$> a)) - !app_assoc H2.
  rewrite !app_assoc. f_equiv. by rewrite Permutation_app_comm.
Qed.

Lemma started_ok workers ttl ps : workers <= max_i64 → world_ok (length ps) (start (D:=D) workers ttl ps).
Proof.
  intros Hw. rewrite /start. set s := foldl _ _ _.
  assert (sc_queues s = replicate numPrios [] ∧ sc_jobs s = ∅ ∧ sc_nextID s = 0%nat ∧ sc_queued s = ∅ ∧ sc_running s = 0 ∧
          sc_workers s = (if workers <=? 0 then 4 else workers) ∧ sc_providers s = ps) as (E1 & E2 & E3 & E4 & E5 & E6 & E7).
  { rewrite /s. clear. assert (∀ (s0 : llmScheduler D) qs, sc_providers s0 = qs →
      let s := foldl (λ s p, addProvider p s) s0 ps in
      sc_queues s = sc_queues s0 ∧ sc_jobs s = sc_jobs s0 ∧ sc_nextID s = sc_nextID s0 ∧ sc_queued s = sc_queued s0 ∧ sc_running s = sc_running s0 ∧
      sc_workers s = sc_workers s0 ∧ sc_providers s = qs ++ ps) as Hfold.
    { induction ps as [|p ps IH]; intros s0 qs Hq; simpl; [by rewrite app_nil_r|].
      destruct (IH (addProvider p s0) (qs ++ [p])) as (H1 & H2 & H3 & H4 & H5 & H6 & H7); [by rewrite /= Hq|].
      rewrite -app_assoc in H7. done. }
    by destruct (Hfold (newLLMScheduler workers ttl) [] eq_refl) as (H1 & H2 & H3 & H4 & H5 & H6 & H7). }
  clearbody s. split; rewrite /hands /= ?E1 ?E2 ?E3 ?E4 ?E5 ?E6 ?E7 //.
  - split; rewrite ?E1 ?E2 ?E3 ?E4 //=.
    + constructor.
    + intros id. rewrite lookup_empty. split; [by intros ?%elem_of_nil|by intros []].
    + intros id. rewrite lookup_empty. by intros [].
    + intros key id. rewrite lookup_empty. split; [done|]. by intros (? & ? & _).
  - destruct (Z.leb_spec workers 0); lia.
  - destruct (Z.leb_spec workers 0); i64_unfold; lia.
Qed.

Lemma reached workers ttl ps evs : workers <= max_i64 → 3 * Z.of_nat (length ps) <= max_i64 → Forall event_ok evs →
  step_good (length ps) (evs ≫= submitted_by) (start (D:=D) workers ttl ps) (world_run evs (start workers ttl ps)).
Proof. intros Hw Hmax Hevs. apply world_run_good; [done|done|]. by apply started_ok. Qed.

Lemma start_nothing_pending workers ttl ps : pending (jobs (start (D:=D) workers ttl ps)) = [].
Proof.
  rewrite /start /jobs /=. assert (∀ s0 : llmScheduler D, sc_jobs (foldl (λ s p, addProvider p s) s0 ps) = sc_jobs s0) as ->; [|done].
  induction ps as [|p ps IH]; intros s0; [done|]. simpl. by rewrite IH.
Qed.

(** C32: whatever the providers answer and however the workers interleave, each
    read asked for is answered exactly once or still waits; while one waits
    there is a worker to take it, never more of them than configured; and no
    job has been sent three times per provider. *)
Theorem reads_answered_once workers ttl ps evs :
  workers <= max_i64 → 3 * Z.of_nat (length ps) <= max_i64 → Forall event_ok evs →
  let '(answers, o) := world_run evs (start (D:=D) workers ttl ps) in
  (an_done <$> answers) ++ pending (jobs o) ≡ₚ evs ≫= submitted_by ∧
  (pending (jobs o) ≠ [] → wo_workers o ≠ []) ∧
  Z.of_nat (length (wo_workers o)) <= sc_workers (wo_sched o) ∧
  ∀ id j, jobs o !! id = Some j → 0 <= lj_tries j < Z.max 1 (3 * Z.of_nat (length ps)).
Proof.
  intros Hw Hmax Hevs. destruct (reached workers ttl ps evs Hw Hmax Hevs) as [H1 H2]. destruct (world_run _ _) as [answers o].
  rewrite start_nothing_pending app_nil_r in H2. split; [done|]. split; [|split; [apply H1|apply H1]].
  intros Hp He. apply Hp. assert (jobs o = ∅) as ->; [|done]. apply map_empty. intros id. destruct (jobs o !! id) eqn:Hj; [|done].
  exfalso. by eapply live_staffed; [exact H1|eexists; exact Hj|].
Qed.

(** ** Nothing is stuck *)

Lemma world_run_app (evs1 evs2 : list (event D)) o :
  world_run (evs1 ++ evs2) o =
  let '(a1, o1) := world_run evs1 o in let '(a2, o2) := world_run evs2 o1 in (a1 ++ a2, o2).
Proof.
  revert o. induction evs1 as [|ev evs1 IH]; intros o; simpl; [by destruct (world_run evs2 o)|].
  destruct (world_step ev o) as [a o1]. rewrite IH. destruct (world_run evs1 o1) as [a1 o2]. destruct (world_run evs2 o2) as [a2 o3].
  by rewrite app_assoc.
Qed.

(** Worker [w] is done with what it does: its request, if any, fails. *)
Definition wind_up (w : nat) : list (event D) :=
  [EvWake w; EvAdmit w zero_time; EvReply w zero_time zero_LLMResult (Some (ReadError "")); EvSettle w zero_time].

(** How far a worker is from its loop. *)
Definition far (x : worker) : nat :=
  match x with Loop => 0 | ReadDone _ _ _ _ => 1 | Reading _ _ => 2 | Taken _ _ => 3 | Waiting => 4 end.

Definition only_moves (w : nat) (k : nat) (l : list worker) o : Prop := ∃ x, wo_workers o = <[w := x]> l ∧ (far x <= k)%nat.

Lemma wind_up_step w l o ev k : (w < length l)%nat → only_moves w (S k) l o →
  (ev, k) ∈ [(EvWake w, 3); (EvAdmit w zero_time, 2); (EvReply w zero_time zero_LLMResult (Some (ReadError "")), 1); (EvSettle w zero_time, 0)]%nat →
  only_moves w k l (world_step ev o).2.
Proof.
  intros Hw (x & Hl & Hx) Hev. assert (wo_workers o !! w = Some x) as Hat by (rewrite Hl; by apply list_lookup_insert_eq).
  assert (∀ y s, (far y <= k)%nat → only_moves w k l (set_worker w y (o <| wo_sched := s |>))) as Hset.
  { intros y s Hy. exists y. split; [|done]. by rewrite /set_worker /= Hl list_insert_insert_eq. }
  assert ((far x <= k)%nat → only_moves w k l o) as Hstay by (by exists x).
  rewrite !elem_of_cons elem_of_nil in Hev. destruct Hev as [[= -> ->]|[[= -> ->]|[[= -> ->]|[[= -> ->]|[]]]]]; cbn [world_step]; rewrite Hat.
  - destruct x; simpl in Hx; try (apply Hstay; simpl; lia). apply (Hset Loop (wo_sched o)). simpl. lia.
  - destruct x as [| |id i| |]; simpl in Hx; try (apply Hstay; simpl; lia); try lia.
    destruct (execute_begin _ _) as [[ok cb] ch]. apply Hset. destruct ok; simpl; lia.
  - destruct x as [| | |id i|]; simpl in Hx; try (apply Hstay; simpl; lia); try lia. destruct (execute_end _ _ _) as [cb ch]. apply Hset. simpl. lia.
  - destruct x as [| | | |id i res err]; simpl in Hx; try (apply Hstay; simpl; lia); try lia. destruct (settle _ _ _ _ _ _) as [a s]. apply Hset. simpl. lia.
Qed.

Lemma wind_up_loop w o : (w < length (wo_workers o))%nat → wo_workers (world_run (wind_up w) o).2 = <[w := Loop]> (wo_workers o).
Proof.
  intros Hw. apply lookup_lt_is_Some in Hw as [x Hx]. pose proof (lookup_lt_Some _ _ _ Hx) as Hw.
  assert (only_moves w 4 (wo_workers o) o) as H4 by (exists x; split; [by rewrite list_insert_id|by destruct x; simpl; lia]).
  rewrite /wind_up. cbn [world_run].
  destruct (world_step (EvWake w) o) as [a1 o1] eqn:E1. pose proof (wind_up_step w _ o _ 3 Hw H4 ltac:(left)) as H3. rewrite E1 in H3.
  destruct (world_step (EvAdmit w zero_time) o1) as [a2 o2] eqn:E2.
  pose proof (wind_up_step w _ o1 _ 2 Hw H3 ltac:(right; left)) as H2. rewrite E2 in H2.
  destruct (world_step (EvReply w zero_time zero_LLMResult (Some (ReadError ""))) o2) as [a3 o3] eqn:E3.
  pose proof (wind_up_step w _ o2 _ 1 Hw H2 ltac:(right; right; left)) as H1. rewrite E3 in H1.
  destruct (world_step (EvSettle w zero_time) o3) as [a4 o4] eqn:E4.
  pose proof (wind_up_step w _ o3 _ 0 Hw H1 ltac:(right; right; right; left)) as H0. rewrite E4 in H0.
  destruct H0 as (y & Hy & Hf). simpl in *. rewrite Hy. by destruct y; simpl in Hf; try lia.
Qed.

Lemma wind_up_all k : ∀ o, (k <= length (wo_workers o))%nat →
  wo_workers (world_run (seq 0 k ≫= wind_up) o).2 = replicate k Loop ++ drop k (wo_workers o).
Proof.
  induction k as [|k IH]; intros o Hk; [done|]. rewrite seq_S bind_app world_run_app. specialize (IH o ltac:(lia)).
  destruct (world_run (seq 0 k ≫= wind_up) o) as [a1 o1]. simpl in IH.
  change ([(0 + k)%nat] ≫= wind_up) with (wind_up k). pose proof (wind_up_loop k o1) as Hu.
  destruct (world_run (wind_up k) o1) as [a2 o2]. cbn [fst snd] in *.
  rewrite Hu IH; [rewrite length_app length_replicate length_drop; lia|].
  destruct (lookup_lt_is_Some_2 (wo_workers o) k) as [x Hx]; [lia|]. rewrite (drop_S _ x k Hx).
  rewrite insert_app_r_alt ?length_replicate // Nat.sub_diag. cbn [insert list_insert].
  by rewrite replicate_S_end -app_assoc.
Qed.

(** After every deadline. *)
Definition after_all (m : gmap nat (llmJob D)) : Time := foldr Z.max 0 ((λ p, lj_deadline p.2) <$> map_to_list m) + 1.

Lemma after_all_late m id j : m !! id = Some j → lj_deadline j < after_all m.
Proof.
  intros Hj%elem_of_map_to_list. rewrite /after_all. induction (map_to_list m) as [|p l IH]; [by apply elem_of_nil in Hj|].
  rewrite fmap_cons /=. apply elem_of_cons in Hj as [<-|Hj]; simpl; [lia|]. specialize (IH Hj). lia.
Qed.

Lemma hands_loops k : omap worker_job (replicate k Loop) = [].
Proof. induction k; [done|]. simpl. done. Qed.

(** With every worker at its loop and every deadline over, one look at the
    queues answers everything. *)
Lemma next_clears now s : sched_ok [] s → (∀ id j, sc_jobs s !! id = Some j → lj_deadline j < now) →
  sc_jobs (drop_stale now s).2 = ∅.
Proof.
  intros Hok Hlate. destruct (drop_stale_ok [] now s Hok) as (H1 & _ & _ & _ & H5). apply map_empty. intros id.
  destruct (sc_jobs (drop_stale now s).2 !! id) as [j|] eqn:Hj; [|done]. exfalso.
  assert (id ∈ concat (sc_queues (drop_stale now s).2) ++ []) as Hin by (apply (so_live _ _ H1); by exists j).
  rewrite app_nil_r H5 in Hin. apply list_elem_of_In, in_concat in Hin as (q & Hq & Hin).
  apply list_elem_of_In, list_elem_of_fmap in Hq as (q0 & -> & Hq0). apply list_elem_of_In, list_elem_of_filter in Hin as [Hst Hin].
  assert (is_Some (sc_jobs s !! id)) as [j0 Hj0].
  { apply (so_live _ _ Hok). rewrite app_nil_r. apply list_elem_of_In, in_concat. exists q0. by split; apply list_elem_of_In. }
  rewrite /is_stale Hj0 /t_after in Hst. apply Z.ltb_ge in Hst. specialize (Hlate id j0 Hj0). lia.
Qed.

Lemma next_answers_all w o : wo_workers o !! w = Some Loop → sched_ok [] (wo_sched o) →
  jobs (world_step (EvNext w (after_all (jobs o)) zero_time) o).2 = ∅.
Proof.
  intros Hw Hok. cbn [world_step]. rewrite Hw /worker_next /next.
  pose proof (next_clears (after_all (jobs o)) (wo_sched o) Hok (after_all_late (jobs o))) as Hclear.
  destruct (drop_stale _ _) as [stale s]. cbn [snd] in Hclear.
  destruct (head_job 0 (sc_queues s)) as [[prio id]|]; cbn [mbind option_bind]; [|exact Hclear].
  rewrite Hclear lookup_empty. exact Hclear.
Qed.

Definition no_submit (ev : event D) : Prop := match ev with EvSubmit _ _ => False | _ => True end.

Lemma wind_up_no_submit k : Forall no_submit (seq 0 k ≫= wind_up).
Proof. apply Forall_bind, Forall_forall. intros w _. by repeat constructor. Qed.

Lemma no_submit_adds_none evs : Forall no_submit evs → Forall event_ok evs ∧ evs ≫= submitted_by = [].
Proof.
  induction 1 as [|ev evs Hev _ [IH1 IH2]]; [by split|]. rewrite bind_cons IH2. destruct ev; try done; (split; [by constructor|done]).
Qed.

(** C33: nothing gets stuck: from wherever the queue got to, the workers can go
    on, without another request, to a state in which every read has been
    answered exactly once. *)
Theorem every_read_can_finish workers ttl ps evs :
  workers <= max_i64 → 3 * Z.of_nat (length ps) <= max_i64 → Forall event_ok evs →
  ∃ more, Forall no_submit more ∧
    let '(answers, o) := world_run (evs ++ more) (start (D:=D) workers ttl ps) in
    an_done <$> answers ≡ₚ evs ≫= submitted_by ∧ jobs o = ∅.
Proof.
  intros Hw Hmax Hevs. destruct (reached workers ttl ps evs Hw Hmax Hevs) as [H1 _].
  set o := (world_run evs (start workers ttl ps)).2 in H1. set k := length (wo_workers o).
  set o1 := (world_run (seq 0 k ≫= wind_up) o).2.
  assert (wo_workers o1 = replicate k Loop) as Hloop.
  { rewrite /o1 wind_up_all // drop_ge // app_nil_r //. }
  destruct (no_submit_adds_none _ (wind_up_no_submit k)) as [Hu1 _].
  destruct (world_run_good _ _ Hmax Hu1 o H1) as [H2 _]. fold o1 in H2.
  set more := (seq 0 k ≫= wind_up) ++ [EvNext 0 (after_all (jobs o1)) zero_time].
  assert (Forall no_submit more) as Hmore by (apply Forall_app; split; [apply wind_up_no_submit|by repeat constructor]).
  exists more. split; [done|]. destruct (no_submit_adds_none more Hmore) as [Hm1 Hm2].
  destruct (reached workers ttl ps (evs ++ more) Hw Hmax) as [_ H3]; [by apply Forall_app|].
  assert (jobs (world_run (evs ++ more) (start workers ttl ps)).2 = ∅) as He.
  { rewrite world_run_app. subst o. destruct (world_run evs _) as [a o]. cbn [snd] in *. rewrite /more world_run_app. subst o1.
    destruct (world_run (seq 0 k ≫= wind_up) o) as [a1 o1]. cbn [snd] in *. cbn [world_run].
    destruct (world_step (EvNext 0 (after_all (jobs o1)) zero_time) o1) as [a2 o2] eqn:E. cbn [snd].
    assert (o2 = (world_step (EvNext 0 (after_all (jobs o1)) zero_time) o1).2) as -> by (by rewrite E).
    destruct k as [|k'] eqn:Ek.
    - assert (jobs o1 = ∅) as Hj.
      { apply map_empty. intros id. destruct (jobs o1 !! id) eqn:Hj; [|done]. exfalso. eapply live_staffed; [exact H2|by eexists|exact Hloop]. }
      cbn [world_step]. by rewrite Hloop.
    - apply next_answers_all; [by rewrite Hloop|]. pose proof (wk_sched _ _ H2) as Hs. by rewrite /hands Hloop hands_loops in Hs. }
  destruct (world_run (evs ++ more) _) as [answers o2]. cbn [fst snd] in *. split; [|done].
  rewrite He start_nothing_pending !app_nil_r bind_app Hm2 app_nil_r in H3. done.
Qed.

(** ** The most urgent first *)

(** Provider [p] can take a request of [cost] now. *)
Definition ready (now wall : Time) (cost : Z) (p : llmProvider) : Prop :=
  (Allow wall (pr_cb p)).1.1 = true ∧ provider_wait now cost (refill_provider now p) = 0.

Lemma pick_first_ready now wall cost ps : ∀ wait k i ps', pick_provider now wall cost wait k ps = (inl i, ps') →
  ∃ e p, i = (k + e)%nat ∧ ps !! e = Some p ∧ ready now wall cost p ∧ ∀ e' p', (e' < e)%nat → ps !! e' = Some p' → ¬ ready now wall cost p'.
Proof.
  induction ps as [|p ps IH]; intros wait k i ps'; cbn [pick_provider]; [done|].
  assert (∀ w i ps', pick_provider now wall cost w (S k) ps = (inl i, ps') → ¬ ready now wall cost p →
    ∃ e p0, i = (k + e)%nat ∧ (p :: ps) !! e = Some p0 ∧ ready now wall cost p0 ∧
            ∀ e' p', (e' < e)%nat → (p :: ps) !! e' = Some p' → ¬ ready now wall cost p') as Hlater.
  { intros w i0 ps0 (e & p0 & -> & Hp & Hr & Hb)%IH Hn. exists (S e), p0. split; [lia|]. split; [done|]. split; [done|].
    intros [|e'] p' Hm Hp'; [by injection Hp' as <-|]. apply (Hb e'); [lia|done]. }
  destruct (Allow wall (pr_cb p)) as [[ok cb] ch] eqn:Ha. destruct ok; cbn [negb].
  - destruct (Z.eqb_spec (provider_wait now cost (refill_provider now (p <| pr_cb := cb |>))) 0) as [Hw|Hw].
    + intros [= <- _]. exists 0%nat, p. split; [lia|]. split; [done|]. split; [by rewrite /ready Ha|]. intros e' p' Hlt'. lia.
    + match goal with |- context [pick_provider now wall cost ?w (S k) ps] => destruct (pick_provider now wall cost w (S k) ps) as [r ps1] eqn:E end.
      intros [= -> _]. eapply Hlater; [exact E|]. intros [_ Hr]. by apply Hw.
  - match goal with |- context [pick_provider now wall cost ?w (S k) ps] => destruct (pick_provider now wall cost w (S k) ps) as [r ps1] eqn:E end.
    intros [= -> _]. eapply Hlater; [exact E|]. rewrite /ready Ha. by intros [? _].
Qed.

(** A worker takes the oldest live job of the most urgent queue that has
    one, and sends it to the first provider whose breaker, block and budgets
    let it through: everything more urgent is past its deadline, and so is
    everything before it in its queue. *)
Theorem next_runs_most_urgent hands now wall s id i stale s' :
  sched_ok hands s → next now wall s = (Run id i, stale, s') →
  ∃ q j p, sc_jobs s !! id = Some j ∧ now <= lj_deadline j ∧ sc_queues s !! lj_prio j = Some q ∧
    head (filter (λ x, is_stale now s x = false) q) = Some id ∧
    (∀ p' q' x, (p' < lj_prio j)%nat → sc_queues s !! p' = Some q' → x ∈ q' → is_stale now s x = true) ∧
    sc_providers s !! i = Some p ∧ ready now wall (lj_cost j) p ∧
    ∀ i' p', (i' < i)%nat → sc_providers s !! i' = Some p' → ¬ ready now wall (lj_cost j) p'.
Proof.
  intros Hok. rewrite /next. destruct (drop_stale_ok hands now s Hok) as (H1 & _ & H3 & H4 & H5).
  destruct (drop_stale now s) as [stale1 s1]. cbn [fst snd] in *. injection H4 as _ _ Hprov.
  destruct (head_job 0 (sc_queues s1)) as [[prio id1]|] eqn:Hh; cbn [mbind option_bind]; [|done].
  destruct (sc_jobs s1 !! id1) as [j|] eqn:Hj; cbn [fmap option_fmap option_map]; [|done].
  destruct (pick_provider _ _ _ _ _ _) as [[i1|wait] ps] eqn:Hpick; [|done]. intros [= <- <- _ _].
  destruct (head_job_found _ _ _ _ Hh) as (k & q1 & Hk & Hq1 & Hbefore). rewrite Nat.add_0_l in Hk. subst k.
  assert (lj_prio j = prio) as Hprio by (eapply so_queue; [exact H1|exact Hq1|by left|exact Hj]).
  rewrite H5 list_lookup_fmap in Hq1. destruct (sc_queues s !! prio) as [q|] eqn:Hq; [|done]. injection Hq1 as Hq1.
  pose proof (lookup_weaken _ _ _ _ Hj H3) as Hj0. destruct (pick_first_ready _ _ _ _ _ _ _ _ Hpick) as (m & p & -> & Hp & Hr & Hb).
  rewrite Hprov in Hp Hb. exists q, j, p. split; [done|].
  assert (id1 ∈ filter (λ x, is_stale now s x = false) q) as [Hst _]%list_elem_of_filter by (rewrite Hq1; by left).
  split; [rewrite /is_stale Hj0 /t_after in Hst; by apply Z.ltb_ge in Hst|].
  split; [by rewrite Hprio|]. split; [by rewrite Hq1|]. split; [|by split; [|split]].
  intros p' q' x Hlt Hq' Hx. rewrite Hprio in Hlt. specialize (Hbefore p' Hlt). rewrite H5 list_lookup_fmap Hq' in Hbefore. injection Hbefore as Hnil.
  destruct (is_stale now s x) eqn:Hs; [done|]. exfalso. assert (x ∈ filter (λ x, is_stale now s x = false) q') as Hf by (by apply list_elem_of_filter).
  rewrite Hnil in Hf. by apply elem_of_nil in Hf.
Qed.

End scheduler.

(** ** Examples *)

Section examples.
#[local] Instance plain_tables : UnicodeTables := {| unicode_letter := λ _, false; unicode_upper := λ r, r |}.

Definition ask (prio : nat) (text : string) (who : nat) : event nat :=
  EvSubmit zero_time {| rq_prio := prio; rq_text := text; rq_ctxText := ""; rq_deadline := zero_time + Minute; rq_done := who |}.
Definition free_api : llmProvider := newProvider "api" 0 0.
Definition busy_err : option read_error := Some (RateError Second no_rate "HTTP 429").

(** Two callers with one question are answered by one request; the urgent
    read goes first. *)
Definition demo_run : list (event nat) :=
  [ask prioNoise "hello bhai" 0; ask prioExit "jaldi niklo" 1; ask prioVerify "jaldi niklo" 2; EvNext 0 zero_time zero_time; EvAdmit 0 zero_time;
   EvReply 0 zero_time (zero_LLMResult <| lr_Kind := "follow_up" |>) None; EvSettle 0 zero_time].

Lemma reads_answered_once_witness :
  let '(answers, o) := world_run demo_run (start 1 0 [free_api]) in
  (an_done <$> answers) ++ pending (jobs o) ≡ₚ [0; 1; 2]%nat ∧ (an_done <$> answers) = [1; 2]%nat.
Proof.
  pose proof (reads_answered_once 1 0 [free_api] demo_run) as H.
  assert ((an_done <$> (world_run demo_run (start 1 0 [free_api])).1) = [1; 2]%nat) as Ha by (vm_compute; reflexivity).
  destruct (world_run demo_run (start 1 0 [free_api])) as [answers o]. split; [|exact Ha].
  destruct H as [Hp _]; [i64_unfold; lia|i64_unfold; simpl; lia|repeat constructor|exact Hp].
Defined.

Lemma every_read_can_finish_witness :
  ∃ more, Forall (no_submit (D:=nat)) more ∧
    let '(answers, o) := world_run (demo_run ++ more) (start 1 0 [free_api]) in
    an_done <$> answers ≡ₚ [0; 1; 2]%nat ∧ jobs o = ∅.
Proof.
  apply (every_read_can_finish 1 0 [free_api] demo_run); [i64_unfold; lia|i64_unfold; simpl; lia|repeat constructor].
Defined.

Definition demo_sched : llmScheduler nat := wo_sched (world_run (take 3 demo_run) (start 1 0 [free_api])).2.

Lemma next_runs_most_urgent_witness : ∃ j, sc_jobs demo_sched !! 1%nat = Some j ∧ lj_prio j = prioExit ∧ zero_time <= lj_deadline j.
Proof.
  assert (sched_ok [] demo_sched) as Hok.
  { destruct (reached (D:=nat) 1 0 [free_api] (take 3 demo_run)) as [[Hs _ _ _ _ _ _] _];
      [i64_unfold; lia|i64_unfold; simpl; lia|repeat constructor|].
    assert (hands (world_run (take 3 demo_run) (start 1 0 [free_api])).2 = []) as Hh by (vm_compute; reflexivity).
    rewrite Hh in Hs. exact Hs. }
  assert ((next zero_time zero_time demo_sched).1.1 = Run 1 0) as Hr by (vm_compute; reflexivity).
  destruct (next zero_time zero_time demo_sched) as [[c stale] s'] eqn:E. cbn [fst] in Hr. subst c.
  destruct (next_runs_most_urgent [] zero_time zero_time demo_sched 1 0 stale s' Hok E) as (q & j & p & Hj & Hd & _).
  exists j. split; [exact Hj|]. split; [|exact Hd].
  assert (lj_prio <$> sc_jobs demo_sched !! 1%nat = Some prioExit) as Hp by (vm_compute; reflexivity).
  rewrite Hj in Hp. by injection Hp.
Defined.

(** Three failures elsewhere open the breaker between a worker's look at it
    and its request: the request is refused without being sent, and the read
    ends as a success with an empty reading, which is cached for the next
    caller too. *)
Definition breaker_race : list (event nat) :=
  [ask prioVerify "BUY one" 0; ask prioVerify "BUY two" 1; ask prioVerify "BUY three" 2; ask prioVerify "BUY four" 3] ++
  ((λ w, EvNext w zero_time zero_time) <$> [0; 1; 2; 3]%nat) ++ ((λ w, EvAdmit w zero_time) <$> [0; 1; 2]%nat) ++
  ((λ w, EvReply w zero_time zero_LLMResult busy_err) <$> [0; 1; 2]%nat) ++ [EvAdmit 3 zero_time; EvSettle 3 zero_time; ask prioVerify "BUY four" 4].

Example open_breaker_reads_nothing :
  (λ a, (an_done a, lr_Kind (an_res a), an_err a)) <$> (world_run breaker_race (start 4 Minute [free_api])).1 =
    [(3%nat, "", None); (4%nat, "", None)]%string.
Proof. vm_compute. reflexivity. Qed.
End examples.
