(* ===== verification/TgRouter.v ===== *)
(** The router of Telegram messages (internal/tgsignal: router.go, handler.go,
    the message log of journal.go): each message goes to the mailbox of its
    call or of its chat, a model's reading comes back as a mailbox item, and
    what answers a message being read waits for the reading.

    Goroutines interleave between critical sections.  A handler is a program
    ([prog]): a sequence of actions, each one critical section, one message
    published or one row written, with the clock and the fate of a publish as
    its environment.  A mailbox runs one closure at a time; its closures, and
    the callbacks of the reads under way, are data ([task], [read]).  The reads
    are a bag: the scheduler answers each once, in any order (LlmScheduler).
    The dashboard's copy of a message and log lines are left out.  Three things
    are there for the proofs alone: [origin], the context on whose behalf a
    follow-up is published, and the lists of the messages taken and finished
    ([busy] counts their difference). *)
From S2P Require Import Prelude GoText Model TgSignal Regex TgParse TgPrompt TgDecide TgContexts LlmScheduler.
#[local] Open Scope Z_scope.
#[local] Open Scope go_scope.

(** ** Messages on their way *)

Inductive llm_entry := NoReading | StaleReading | FailedReading (text : string) | Read_as (res : LLMResult).

(** journal.go; the pattern's reading is kept as data. *)
Record Entry := {
  en_ChatID : Z; en_MsgID : Z; en_ReplyTo : Z; en_Edited : bool; en_SentAt : Time; en_Text : string;
  en_Regex : option (TGSignal * option parse_error); en_LLM : llm_entry; en_Verdict : string; en_Reason : string; en_ReceivedAt : Time;
  en_ReadMS : Z }.
#[export] Instance Entry_settable : Settable Entry := λ e, {|
  en_ChatID := en_ChatID e; en_MsgID := en_MsgID e; en_ReplyTo := en_ReplyTo e; en_Edited := en_Edited e; en_SentAt := en_SentAt e;
  en_Text := en_Text e; en_Regex := en_Regex e; en_LLM := en_LLM e; en_Verdict := en_Verdict e; en_Reason := en_Reason e;
  en_ReceivedAt := en_ReceivedAt e; en_ReadMS := en_ReadMS e |}.

Record item := {
  it_m : inMsg; it_now : Time; it_start : Time; it_entry : Entry; it_rx : TGSignal; it_rxErr : option parse_error; it_call : bool }.
#[export] Instance item_settable : Settable item := λ i, {|
  it_m := it_m i; it_now := it_now i; it_start := it_start i; it_entry := it_entry i; it_rx := it_rx i; it_rxErr := it_rxErr i;
  it_call := it_call i |}.

Inductive chatPath := pathSkip | pathActive | pathRegex | pathCall | pathLLM.
#[export] Instance chatPath_eq_dec : EqDecision chatPath.
Proof. solve_decision. Defined.

(** A closure in a mailbox. *)
Inductive task :=
  | InChat (it : item) (path : chatPath) (replyCall : bool)
  | ChatRead (it : item) (r : reading)
  | InContext (tc : nat) (l : ctxLink) (it : item)
  | Verified (tc : nat) (ver : Z) (it : item) (r : reading)
  | ContextRead (tc : nat) (seq : Z) (l : ctxLink) (it : item) (r : reading).

(** A read under way: what its callback knows. *)
Inductive read :=
  | ReadChat (it : item)
  | ReadVerify (tc : nat) (ver : Z) (it : item)
  | ReadContext (tc : nat) (seq : Z) (l : ctxLink) (it : item)
  | ReadAudit (chat msg : Z).

Record llmRead := { rd_prio : nat; rd_text : string; rd_ctxText : string; rd_deadline : Time; rd_done : read }.

(** ctxWorker: the readings of a call's messages, applied in the order of the
    messages. *)
Record ctxWorker := { cw_box : list task; cw_nextSeq : Z; cw_applySeq : Z; cw_ready : gmap Z (ctxLink * item * reading) }.
#[export] Instance ctxWorker_settable : Settable ctxWorker := λ w, {|
  cw_box := cw_box w; cw_nextSeq := cw_nextSeq w; cw_applySeq := cw_applySeq w; cw_ready := cw_ready w |}.
Definition newCtxWorker : ctxWorker := {| cw_box := []; cw_nextSeq := 0; cw_applySeq := 0; cw_ready := ∅ |}.

Inductive published := PubCall (c : TGSignal) | PubFollowUp (origin : option nat) (f : TGFollowUp).

Record row := { rw_entry : Entry; rw_outcome : list string }.

Record handler := {
  hd_chats : gset Z; hd_maxAge : Duration; hd_slPct : Z; hd_sched : bool; hd_journal : bool }.

Record rstate := {
  rs_ctxs : contexts; rs_pending : gmap string (list item); rs_chats : gmap Z (list task); rs_workers : gmap nat ctxWorker;
  rs_reads : list llmRead; rs_rows : list row; rs_seen : gmap string Time; rs_busy : Z; rs_out : list published;
  rs_taken : list inMsg; rs_finished : list (item * string) }.
#[export] Instance rstate_settable : Settable rstate := λ s, {|
  rs_ctxs := rs_ctxs s; rs_pending := rs_pending s; rs_chats := rs_chats s; rs_workers := rs_workers s; rs_reads := rs_reads s;
  rs_rows := rs_rows s; rs_seen := rs_seen s; rs_busy := rs_busy s; rs_out := rs_out s; rs_taken := rs_taken s;
  rs_finished := rs_finished s |}.

Definition newRouter : rstate := {|
  rs_ctxs := newContexts; rs_pending := ∅; rs_chats := ∅; rs_workers := ∅; rs_reads := []; rs_rows := []; rs_seen := ∅; rs_busy := 0;
  rs_out := []; rs_taken := []; rs_finished := [] |}.

(** ** Programs *)

(** The clock, and the error of a publish or of a write, if it fails. *)
Record env := { ev_now : Time; ev_err : option string }.

Inductive prog (A : Type) : Type :=
  | Ret (a : A)
  | Act (B : Type) (f : env → rstate → B * rstate) (k : B → prog A).
Arguments Ret {A} a.
Arguments Act {A B} f k.

Fixpoint pbind {A B} (p : prog A) (k : A → prog B) : prog B :=
  match p with Ret a => k a | Act f k' => Act f (λ b, pbind (k' b) k) end.
Declare Scope prog_scope.
Delimit Scope prog_scope with prog.
Notation "'let*' x ':=' p 'in' q" := (pbind p (λ x, q)) (at level 200, x name, p at level 100, q at level 200) : prog_scope.
Notation "p ';;' q" := (pbind p (λ _, q)) (at level 100, q at level 200, right associativity) : prog_scope.
#[local] Open Scope prog_scope.

Definition act {A} (f : env → rstate → A * rstate) : prog A := Act f Ret.
Definition reading_of {A} (f : rstate → A) : prog A := act (λ _ s, (f s, s)).
Definition change (f : rstate → rstate) : prog unit := act (λ _ s, (tt, f s)).
Definition clock : prog Time := act (λ e s, (ev_now e, s)).
Definition on_ctxs {A} (f : contexts → A * contexts) : prog A :=
  act (λ _ s, let '(a, cs) := f (rs_ctxs s) in (a, s <| rs_ctxs := cs |>)).
Definition ctxs_do (f : contexts → contexts) : prog unit := change (λ s, s <| rs_ctxs := f (rs_ctxs s) |>).

Fixpoint for_each {A} (l : list A) (f : A → prog unit) : prog unit :=
  match l with [] => Ret tt | x :: l => f x ;; for_each l f end.

Definition worker_of (tc : nat) (s : rstate) : ctxWorker := default newCtxWorker (rs_workers s !! tc).
Definition set_ctxWorker (tc : nat) (w : ctxWorker) (s : rstate) : rstate := s <| rs_workers := <[tc := w]> (rs_workers s) |>.

(** [mailbox.push]. *)
Definition push_ctx (tc : nat) (t : task) (s : rstate) : rstate :=
  let w := worker_of tc s in set_ctxWorker tc (w <| cw_box := cw_box w ++ [t] |>) s.
Definition push_chat (chat : Z) (t : task) (s : rstate) : rstate :=
  s <| rs_chats := <[chat := default [] (rs_chats s !! chat) ++ [t]]> (rs_chats s) |>.

Section router.
Context `{UT : UnicodeTables, LZ : LocalZone, GQ : GoQuote} (h : handler).

(** ** The message log *)

Definition row_of (chat msg : Z) (r : row) : bool := (en_ChatID (rw_entry r) =? chat) && (en_MsgID (rw_entry r) =? msg).

(** The latest text of a message, "" if unknown. *)
Definition TextOf (chat msg : Z) (s : rstate) : string :=
  match filter (λ r, row_of chat msg r = true) (reverse (rs_rows s)) with r :: _ => en_Text (rw_entry r) | [] => "" end.

Definition record (e : Entry) : prog unit :=
  act (λ env s, (tt, if hd_journal h && bool_decide (ev_err env = None)
                     then s <| rs_rows := rs_rows s ++ [{| rw_entry := e; rw_outcome := [] |}] |> else s)).

(** The latest row of the message gets a line. *)
Fixpoint add_outcome (chat msg : Z) (line : string) (rows : list row) : list row :=
  match rows with
  | [] => []
  | r :: rows =>
      if row_of chat msg r && negb (existsb (row_of chat msg) rows)
      then {| rw_entry := rw_entry r; rw_outcome := rw_outcome r ++ [line] |} :: rows
      else r :: add_outcome chat msg line rows
  end.

Definition hhmmss (t : Time) : string :=
  let sec := (t + local_offset t) / Second in
  format_2d_of sec 3600 24 +:+ ":" +:+ format_2d_of sec 60 60 +:+ ":" +:+ format_02d (sec mod 60).

Definition noteOutcome (chat msg : Z) (line : string) : prog unit :=
  let* now := clock in
  act (λ env s, (tt, if hd_journal h && bool_decide (ev_err env = None)
                     then s <| rs_rows := add_outcome chat msg (hhmmss now +:+ " " +:+ line) (rs_rows s) |> else s)).

Definition replyText (m : inMsg) : prog string :=
  reading_of (λ s, if (im_ReplyTo m =? 0) || negb (hd_journal h) then "" else TextOf (im_ChatID m) (im_ReplyTo m) s).

Definition replyToCall (m : inMsg) : prog bool :=
  reading_of (λ s, if (im_ReplyTo m =? 0) || negb (hd_journal h) then false else isCall (TextOf (im_ChatID m) (im_ReplyTo m) s)).

(** ** Ending a message *)

Definition finish (it : item) (d : decision) (english : string) : prog unit :=
  let* now := clock in
  record (it_entry it <| en_Verdict := de_verdict d |> <| en_Reason := de_reason d |>
            <| en_ReadMS := Z.quot (t_sub now (it_start it)) Millisecond |>) ;;
  change (λ s, s <| rs_busy := rs_busy s - 1 |> <| rs_finished := rs_finished s ++ [(it, de_verdict d)] |>).

(** ** Publishing *)

Definition send (p : published) : prog (option string) :=
  act (λ env s, (ev_err env, match ev_err env with None => s <| rs_out := rs_out s ++ [p] |> | Some _ => s end)).

Definition publishCall (it : item) (c : TGSignal) (verified : bool) : prog (string + nat * Z) :=
  let m := it_m it in
  let* t1 := clock in
  let* t2 := clock in
  let c := c <| tg_ChatID := im_ChatID m |> <| tg_MsgID := im_MsgID m |> <| tg_ReceivedAt := it_now it |> <| tg_Text := im_Text m |>
             <| tg_Edited := im_Edited m |> <| tg_SentAt := im_Sent m |>
             <| tg_ReadMS := Z.quot (t_sub t1 (it_start it)) Millisecond |> <| tg_PublishedAt := t2 |> in
  let* err := send (PubCall c) in
  match err with
  | Some e => Ret (inl e)
  | None => let* tv := on_ctxs (λ cs, let '(tc, ver, cs) := open c verified (it_now it) cs in ((tc, ver), cs)) in Ret (inr tv)
  end.

Definition publish_error (e : string) (d : decision) : decision :=
  d <| de_verdict := VerdictError |> <| de_reason := "publish: " +:+ e |>.

Definition publish (origin : option nat) (it : item) (d : decision) : prog decision :=
  let m := it_m it in
  match de_call d, de_followUp d with
  | Some c, _ => let* r := publishCall it c true in Ret (match r with inl e => publish_error e d | inr _ => d end)
  | None, Some f =>
      let f := f <| fu_ChatID := im_ChatID m |> <| fu_MsgID := im_MsgID m |>
                 <| fu_ReplyToMsgID := if de_callMsgID d =? 0 then im_ReplyTo m else de_callMsgID d |>
                 <| fu_ReceivedAt := it_now it |> <| fu_Text := im_Text m |> in
      let* err := send (PubFollowUp origin f) in Ret (match err with Some e => publish_error e d | None => d end)
  | None, None => Ret d
  end.

(** ** Asking the model *)

Definition submit_read (prio : nat) (text ctxText : string) (ttl : Duration) (done : read) : prog unit :=
  let* now := clock in
  change (λ s, s <| rs_reads := rs_reads s ++
    [{| rd_prio := prio; rd_text := text; rd_ctxText := ctxText; rd_deadline := t_add now ttl; rd_done := done |}] |>).

Definition ask_read (prio : nat) (it : item) (ctxText : string) (done : read) : prog unit :=
  submit_read prio (im_Text (it_m it)) ctxText (if (prioAudit <=? prio)%nat then 5 * Minute else hd_maxAge h) done.

(** The reading on the message's log entry; its English. *)
Definition readDone (it : item) (r : reading) : item * string :=
  let note (l : llm_entry) := it <| it_entry := it_entry it <| en_LLM := l |> |> in
  match r with
  | (_, Some ErrLLMStale) => (note StaleReading, "")
  | (_, Some e) => (note (FailedReading (read_error_text e)), "")
  | (res, None) => (note (Read_as res), lr_English res)
  end.

Definition stale_decision : decision := verdict VerdictStale (read_error_text ErrLLMStale).

(** What the two readings of a message come to. *)
Definition judge (it : item) (r : reading) : decision := decide (it_rx it) (it_rxErr it) (llmWithDefaultSL r.1 (hd_slPct h), r.2).
Definition judge_fresh (it : item) (r : reading) : decision :=
  match r.2 with Some ErrLLMStale => stale_decision | _ => judge it r end.

(** ** Routing *)

Definition msgKey (m : inMsg) : string := TGMsgKey (im_ChatID m) (im_MsgID m).

(** The read [m] must wait for. *)
Definition heldBy (m : inMsg) (s : rstate) : option string :=
  let has k := bool_decide (is_Some (rs_pending s !! k)) in
  let reply := TGMsgKey (im_ChatID m) (im_ReplyTo m) in
  if negb (im_ReplyTo m =? 0) && has reply then Some reply
  else if im_Edited m && has (msgKey m) then Some (msgKey m)
  else None.

Definition chatPath_of (it : item) (replyCall : bool) : chatPath :=
  let text := im_Text (it_m it) in
  if match_string reActive (runes text) && replyCall then pathActive
  else if negb (hd_sched h) then pathRegex
  else if it_call it && bool_decide (it_rxErr it = None) then pathCall
  else if negb (needsLLM text replyCall) then pathSkip
  else pathLLM.

Inductive routed := RoutedHeld | RoutedContext (tc : nat) (l : ctxLink) | RoutedChat (path : chatPath).

(** Under the router's lock. *)
Definition route_step (it : item) (replyCall : bool) (s : rstate) : routed * rstate :=
  let m := it_m it in
  match heldBy m s with
  | Some k => (RoutedHeld, s <| rs_pending := <[k := default [] (rs_pending s !! k) ++ [it]]> (rs_pending s) |>)
  | None =>
      let '(found, cs) := link m (it_now it) (rs_ctxs s) in
      let s := s <| rs_ctxs := cs |> in
      match found with
      | Some (tc, l) => if it_call it then (RoutedChat (chatPath_of it replyCall), s) else (RoutedContext tc l, s)
      | None => (RoutedChat (chatPath_of it replyCall), s)
      end
  end.

(** A message that is being read, and may become a call, is pending. *)
Definition becomes_pending (it : item) (path : chatPath) : bool :=
  match path with pathCall | pathLLM => true | pathRegex => it_call it | _ => false end.

Definition mark_pending (it : item) (path : chatPath) (s : rstate) : rstate :=
  let s := if becomes_pending it path && bool_decide (rs_pending s !! msgKey (it_m it) = None)
           then s <| rs_pending := <[msgKey (it_m it) := []]> (rs_pending s) |> else s in
  s <| rs_chats := <[im_ChatID (it_m it) := default [] (rs_chats s !! im_ChatID (it_m it))]> (rs_chats s) |>.

Definition route (it : item) : prog unit :=
  let m := it_m it in
  let* replyCall := (if im_ReplyTo m =? 0 then Ret false else replyToCall m) in
  let* to := act (λ _ s, let '(to, s) := route_step it replyCall s in
                         (to, match to with RoutedChat path => mark_pending it path s | _ => s end)) in
  match to with
  | RoutedHeld => Ret tt
  | RoutedContext tc l => change (push_ctx tc (InContext tc l it))
  | RoutedChat path => change (push_chat (im_ChatID m) (InChat it path replyCall))
  end.

Definition release (m : inMsg) : prog unit :=
  let* held := act (λ _ s, (default [] (rs_pending s !! msgKey m), s <| rs_pending := delete (msgKey m) (rs_pending s) |>)) in
  for_each held route.

(** ** Outside every context *)

Definition armFirst (it : item) : prog unit :=
  let* r := publishCall it (it_rx it <| tg_Source := "REGEX_FIRST" |>) false in
  match r with
  | inl e => finish it (verdict VerdictError ("publish: " +:+ e)) "" ;; release (it_m it)
  | inr (tc, ver) =>
      release (it_m it) ;;
      let* reply := replyText (it_m it) in
      ask_read prioVerify it reply (ReadVerify tc ver it)
  end.

Definition inChat (it : item) (path : chatPath) (replyCall : bool) : prog unit :=
  match path with
  | pathSkip =>
      let d := match it_rxErr it with
               | None => decideRegex (it_rx it) None
               | Some _ => verdict VerdictSkipped "no trade words"
               end in
      let* d := publish None it d in finish it d ""
  | pathActive => let* d := publish None it activateReply in finish it d ""
  | pathRegex => let* d := publish None it (decideRegex (it_rx it) (it_rxErr it)) in finish it d "" ;; release (it_m it)
  | pathCall => armFirst it
  | pathLLM =>
      let prio := if replyCall then prioConfirm
                  else if match_string reContract (upper_runes (runes (im_Text (it_m it)))) then prioNew else prioNoise in
      let* reply := replyText (it_m it) in
      ask_read prio it reply (ReadChat it)
  end.

Definition chatRead (it : item) (r : reading) : prog unit :=
  let '(it, english) := readDone it r in
  let* d := publish None it (judge_fresh it r) in
  finish it d english ;; release (it_m it).

(** ** A call armed on the pattern, checked by the model *)

(** The call's message id, as the handler reads it off the context. *)
Definition call_id (tc : nat) : prog Z := reading_of (λ s, from_option (λ t, tg_MsgID (tc_call t)) 0 (cx_store (rs_ctxs s) !! tc)).

Definition sendActivate (tc : nat) (why : string) (m : inMsg) : prog unit :=
  let* callMsgID := call_id tc in
  let* now := clock in
  let f := zero_TGFollowUp <| fu_ChatID := im_ChatID m |> <| fu_MsgID := im_MsgID m |> <| fu_ReplyToMsgID := callMsgID |>
             <| fu_Action := TGActivate |> <| fu_ReceivedAt := now |> <| fu_Text := im_Text m |> in
  let* err := send (PubFollowUp (Some tc) f) in
  match err with Some _ => Ret tt | None => noteOutcome (im_ChatID m) (im_MsgID m) ("ACTIVATE_SENT: " +:+ why) end.

Definition agrees (d : decision) (r : reading) : bool :=
  match r.2, de_call d with None, Some c => String.eqb (tg_Source c) "AGREE" | _, _ => false end.

Definition verified_ok (tc : nat) (ver : Z) (it : item) (d : decision) (english : string) : prog unit :=
  let d := d <| de_call := (λ c, c <| tg_Source := "REGEX_FIRST" |>) <$> de_call d |> <| de_reason := "armed on regex, " +:+ de_reason d |> in
  let* queued := on_ctxs (verify tc ver) in
  match queued with
  | Some q => for_each q (sendActivate tc "held confirmation, call verified")
  | None => Ret tt
  end ;;
  finish it d english.

(** The verdict and the reason of a check that failed. *)
Definition verify_failed (d : decision) (r : reading) : string * string :=
  match r.2 with
  | Some e => (VerdictError, "LLM: " +:+ read_error_text e)
  | None => (if existsb (String.eqb (de_verdict d)) [VerdictSent; VerdictFollowUp; VerdictNoise] then VerdictDisagree else de_verdict d, de_reason d)
  end.

Definition cancel_followUp (it : item) : TGFollowUp :=
  let m := it_m it in
  zero_TGFollowUp <| fu_ChatID := im_ChatID m |> <| fu_MsgID := im_MsgID m |> <| fu_ReplyToMsgID := im_MsgID m |> <| fu_Action := TGCancel |>
    <| fu_ReceivedAt := it_now it |> <| fu_Text := im_Text m |>.

Definition verified_not (tc : nat) (ver : Z) (it : item) (d : decision) (r : reading) (english : string) : prog unit :=
  let '(v, why) := verify_failed d r in
  let* now := clock in
  let* cancelled := on_ctxs (cancel tc ver now) in
  if (cancelled : bool) then
    let* _err := send (PubFollowUp None (cancel_followUp it)) in
    finish it (verdict v ("armed on regex, cancelled: " +:+ why)) english
  else finish it (verdict v ("armed on regex, not cancelled (held, closed or edited since): " +:+ why)) english.

Definition verified (tc : nat) (ver : Z) (it : item) (r : reading) : prog unit :=
  let '(it, english) := readDone it r in
  let d := judge it r in
  if agrees d r then verified_ok tc ver it d english else verified_not tc ver it d r english.

(** ** In a call's context *)

Definition activateAs (tc : nat) (it : item) (d : decision) (english : string) : prog unit :=
  let* ok := reading_of (λ s, isVerified tc (rs_ctxs s)) in
  if negb ok then
    ctxs_do (hold tc (it_m it)) ;;
    let* id := call_id tc in
    finish it (verdict VerdictContext (de_reason d +:+ "; held until the LLM checks the call") <| de_callMsgID := id |>) english
  else let* d := publish (Some tc) it d in finish it d english.

Definition activate (tc : nat) (it : item) (why : string) : prog unit :=
  let* id := call_id tc in activateAs tc it (confirmed id why) "".

Definition fastExit (tc : nat) (it : item) : prog unit :=
  let* id := call_id tc in
  let f := zero_TGFollowUp <| fu_Action := fastExitAction (im_Text (it_m it)) |> in
  let d := verdict VerdictFollowUp "fast exit (LLM audits)" <| de_callMsgID := id |> <| de_followUp := Some f |> in
  ctxs_do (add tc (it_m it) (fu_Action f +:+ " (fast)")) ;;
  let* d := publish (Some tc) it d in
  finish it d "" ;;
  if negb (hd_sched h) then Ret tt
  else
    change (λ s, s <| rs_busy := rs_busy s + 1 |>) ;;
    let* ctxText := reading_of (λ s, prompt tc linkReply (rs_ctxs s)) in
    submit_read prioAudit (im_Text (it_m it)) ctxText (5 * Minute) (ReadAudit (im_ChatID (it_m it)) (im_MsgID (it_m it))).

(** A reply in the thread of a call that is over. *)
Definition closed_reply (tc : nat) (it : item) (id : Z) : prog unit :=
  ctxs_do (add tc (it_m it) "call closed") ;;
  finish it (verdict VerdictContext ("call " +:+ format_int id +:+ " is closed")) "".

Definition price_reply (tc : nat) (it : item) (id price : Z) : prog unit :=
  let* confirm := on_ctxs (addPrice tc (it_m it) price) in
  if (confirm : bool) then
    let* trigger := reading_of (λ s, from_option (λ t, tg_TriggerPaise (tc_call t)) 0 (cx_store (rs_ctxs s) !! tc)) in
    activate tc it ("caller's price " +:+ rupees price +:+ " reached entry " +:+ rupees trigger)
  else finish it (verdict VerdictContext ("caller's price " +:+ rupees price) <| de_callMsgID := id |>) "".

Definition active_reply (tc : nat) (it : item) (id : Z) : prog unit :=
  let* claimed := on_ctxs (claimActivate tc) in
  if negb claimed then
    ctxs_do (add tc (it_m it) "active (already confirmed)") ;;
    finish it (verdict VerdictContext "Active: call already confirmed, held or closed" <| de_callMsgID := id |>) ""
  else
    ctxs_do (add tc (it_m it) "activate") ;;
    activate tc it "caller says Active".

(** The words go to the model with the call's context, in their turn. *)
Definition ask_context (tc : nat) (l : ctxLink) (it : item) : prog unit :=
  let* held := reading_of (λ s, isHeld tc (rs_ctxs s)) in
  let* seq := act (λ _ s, let w := worker_of tc s in (cw_nextSeq w, set_ctxWorker tc (w <| cw_nextSeq := cw_nextSeq w + 1 |>) s)) in
  let* ctxText := reading_of (λ s, prompt tc l (rs_ctxs s)) in
  ask_read (if (held : bool) then prioExit else prioConfirm) it ctxText (ReadContext tc seq l it).

Definition is_reply (l : ctxLink) : bool := bool_decide (l = linkReply).

Definition context_words (tc : nat) (l : ctxLink) (it : item) (id : Z) : prog unit :=
  let text := im_Text (it_m it) in
  if negb (hd_sched h) then let* d := publish None it (decideRegex (it_rx it) (it_rxErr it)) in finish it d ""
  else if negb (is_reply l) && negb (needsLLM text false) && negb (match_string reCtxWords (runes text)) then
    finish it (verdict VerdictSkipped "no trade words") ""
  else if negb (needsLLM text true) then
    ctxs_do (add tc (it_m it) "none") ;;
    finish it (verdict VerdictContext "no words" <| de_callMsgID := id |>) ""
  else ask_context tc l it.

Definition inContext (tc : nat) (l : ctxLink) (it : item) : prog unit :=
  let text := im_Text (it_m it) in
  let price := pricePost text in
  let* id := call_id tc in
  let* closed := (if is_reply l then reading_of (λ s, isClosed tc (rs_ctxs s)) else Ret false) in
  if (closed : bool) then closed_reply tc it id
  else if is_reply l && (0 <? price) then price_reply tc it id price
  else if is_reply l && match_string reActive (runes text) then active_reply tc it id
  else
    let* held := (if is_reply l && match_string reFastExit (runes text) then reading_of (λ s, isHeld tc (rs_ctxs s)) else Ret false) in
    if (held : bool) then fastExit tc it else context_words tc l it id.

(** What a reading means in the call's context, and whether it confirms. *)
Definition context_decision (tc : nat) (l : ctxLink) (id : Z) (d : decision) (res : LLMResult) : prog (decision * bool) :=
  match de_followUp d with
  | None => Ret (d, false)
  | Some f =>
      if negb (is_reply l) && negb (lr_AboutCall res) then
        Ret (verdict VerdictNoise ("not about call " +:+ format_int id +:+ ": " +:+ lr_Reason res) <| de_callMsgID := id |>, false)
      else if String.eqb (fu_Action f) TGActivate then
        let* claimed := on_ctxs (claimActivate tc) in
        Ret (if (claimed : bool) then (d <| de_callMsgID := id |>, true)
             else (verdict VerdictContext ("activate: call already confirmed, held or closed: " +:+ lr_Reason res) <| de_callMsgID := id |>, false))
      else Ret (d <| de_callMsgID := id |>, false)
  end.

Definition contextRead (tc : nat) (l : ctxLink) (it : item) (r : reading) : prog unit :=
  let* id := call_id tc in
  let '(it, english) := readDone it r in
  let* da := context_decision tc l id (judge_fresh it r) r.1 in
  let '(d, confirms) := da in
  let read := if String.eqb (what d) "" then "none" else what d in
  (if bool_decide (is_Some (de_followUp d)) || is_reply l || lr_AboutCall r.1 then ctxs_do (add tc (it_m it) read) else Ret tt) ;;
  if (confirms : bool) then activateAs tc it d english
  else let* d := publish None it d in finish it d english.

(** ctxWorker.apply: the reading waits for its turn, and lets on those that
    waited for it. *)
Definition put_ready (tc : nat) (seq : Z) (l : ctxLink) (it : item) (r : reading) (s : rstate) : nat * rstate :=
  let w := worker_of tc s in
  let w := w <| cw_ready := <[seq := (l, it, r)]> (cw_ready w) |> in
  (size (cw_ready w), set_ctxWorker tc w s).

Definition take_ready (tc : nat) (s : rstate) : option (ctxLink * item * reading) * rstate :=
  let w := worker_of tc s in
  match cw_ready w !! cw_applySeq w with
  | Some x => (Some x, set_ctxWorker tc (w <| cw_ready := delete (cw_applySeq w) (cw_ready w) |> <| cw_applySeq := cw_applySeq w + 1 |>) s)
  | None => (None, s)
  end.

Fixpoint apply_ready (n : nat) (tc : nat) : prog unit :=
  match n with
  | O => Ret tt
  | S n =>
      let* x := act (λ _, take_ready tc) in
      match x with
      | Some (l, it, r) => contextRead tc l it r ;; apply_ready n tc
      | None => Ret tt
      end
  end.

Definition worker_apply (tc : nat) (seq : Z) (l : ctxLink) (it : item) (r : reading) : prog unit :=
  let* n := act (λ _, put_ready tc seq l it r) in apply_ready (S n) tc.

Definition run_task (t : task) : prog unit :=
  match t with
  | InChat it path replyCall => inChat it path replyCall
  | ChatRead it r => chatRead it r
  | InContext tc l it => inContext tc l it
  | Verified tc ver it r => verified tc ver it r
  | ContextRead tc seq l it r => worker_apply tc seq l it r
  end.

(** A read's callback. *)
Definition audit_line (res : LLMResult) : string :=
  if String.eqb (lr_Kind res) "follow_up" && one_of (lr_Action res) ["exit"; "sl_hit"; "target_hit"]
  then "AUDIT_OK: LLM reads " +:+ lr_Action res
  else VerdictAuditDisagree +:+ ": LLM reads " +:+ lr_Kind res +:+ "/" +:+ lr_Action res +:+ ": " +:+ lr_Reason res.

Definition read_callback (d : read) (r : reading) : prog unit :=
  match d with
  | ReadChat it => change (push_chat (im_ChatID (it_m it)) (ChatRead it r))
  | ReadVerify tc ver it => change (push_ctx tc (Verified tc ver it r))
  | ReadContext tc seq l it => change (push_ctx tc (ContextRead tc seq l it r))
  | ReadAudit chat msg =>
      match r.2 with Some _ => Ret tt | None => noteOutcome chat msg (audit_line r.1) end ;;
      change (λ s, s <| rs_busy := rs_busy s - 1 |>)
  end.

(** ** Taking a message *)

Definition hex_digit (n : Z) : ascii := ascii_of_N (Z.to_N (if n <? 10 then 48 + n else 87 + n)).
Fixpoint format_hex_fuel (k : nat) (n : Z) (acc : string) : string :=
  match k with
  | O => acc
  | S k => let acc := String (hex_digit (n mod 16)) acc in if n / 16 =? 0 then acc else format_hex_fuel k (n / 16) acc
  end.
Definition seenKey (m : inMsg) : string :=
  msgKey m +:+ if im_Edited m then "#" +:+ format_hex_fuel 16 (fnv_write fnv_basis (im_Text m)) "" else "".

Definition firstSeen (key : string) (now : Time) : prog bool :=
  act (λ _ s,
    if bool_decide (is_Some (rs_seen s !! key)) then (false, s)
    else (true, s <| rs_seen := <[key := now]> (filter (λ p, t_sub now p.2 <= 24 * Hour) (rs_seen s)) |>)).

(** [Duration.Round], halves away from zero. *)
Definition d_round (d m : Duration) : Duration :=
  let r := Z.abs (Z.rem d m) in
  if d <? 0 then (if 2 * r <? m then d + r else Z.max min_i64 (d - m + r))
  else if 2 * r <? m then d - r else Z.min max_i64 (d + m - r).

Definition maxEditAge : Duration := 30 * Minute.

Definition new_entry (m : inMsg) (now : Time) : Entry := {|
  en_ChatID := im_ChatID m; en_MsgID := im_MsgID m; en_ReplyTo := im_ReplyTo m; en_Edited := im_Edited m; en_SentAt := im_Sent m;
  en_Text := im_Text m; en_Regex := None; en_LLM := NoReading; en_Verdict := ""; en_Reason := ""; en_ReceivedAt := now; en_ReadMS := 0 |}.

Definition old_entry (why : string) (e : Entry) : Entry := e <| en_Verdict := VerdictOld |> <| en_Reason := why |>.

Definition new_item (m : inMsg) (now start : Time) : item :=
  let '(rx, rxErr) := Parse (im_Text m) in
  let '(rx, rxErr) := withDefaultSL rx rxErr (hd_slPct h) in
  {| it_m := m; it_now := now; it_start := start; it_entry := new_entry m now <| en_Regex := Some (rx, rxErr) |>; it_rx := rx;
     it_rxErr := rxErr; it_call := isCall (im_Text m) |}.

Definition dispatch (m : inMsg) (now : Time) : prog unit :=
  let e := new_entry m now in
  let age := t_sub now (im_Sent m) in
  if negb (bool_decide (im_ChatID m ∈ hd_chats h)) || String.eqb (im_Text m) "" then Ret tt
  else if hd_maxAge h <? age then record (old_entry (format_duration (d_round age Second) +:+ " old") e)
  else if im_Edited m && negb (t_is_zero (im_Posted m)) && (maxEditAge <? t_sub now (im_Posted m)) then
    record (old_entry ("edit of a message posted " +:+ format_duration (d_round (t_sub now (im_Posted m)) Minute) +:+ " ago") e)
  else
    let* fresh := firstSeen (seenKey m) now in
    if negb fresh then Ret tt
    else
      let* start := clock in
      change (λ s, s <| rs_busy := rs_busy s + 1 |> <| rs_taken := rs_taken s ++ [m] |>) ;;
      route (new_item m now start).

(** ** Everything at once *)

Inductive mailbox := ChatBox (chat : Z) | CtxBox (tc : nat).
#[export] Instance mailbox_eq_dec : EqDecision mailbox.
Proof. solve_decision. Defined.

(** The goroutines under way; a mailbox has at most one. *)
Record rworld := { rw_state : rstate; rw_threads : list (option mailbox * prog unit) }.

Definition box_tasks (b : mailbox) (s : rstate) : list task :=
  match b with ChatBox chat => default [] (rs_chats s !! chat) | CtxBox tc => cw_box (worker_of tc s) end.
Definition set_box (b : mailbox) (ts : list task) (s : rstate) : rstate :=
  match b with
  | ChatBox chat => s <| rs_chats := <[chat := ts]> (rs_chats s) |>
  | CtxBox tc => set_ctxWorker tc (worker_of tc s <| cw_box := ts |>) s
  end.

Inductive revent :=
  | RvMessage (m : inMsg) (now : Time)
  | RvTask (b : mailbox)
  | RvAnswer (i : nat) (r : reading)
  | RvOutcome (callKey event : string) (now : Time)
  | RvStep (i : nat) (e : env).

Definition spawn (b : option mailbox) (p : prog unit) (w : rworld) : rworld :=
  {| rw_state := rw_state w; rw_threads := rw_threads w ++ [(b, p)] |}.

Definition rworld_step (ev : revent) (w : rworld) : rworld :=
  let s := rw_state w in
  match ev with
  | RvMessage m now => spawn None (dispatch m now) w
  | RvTask b =>
      match box_tasks b s with
      | t :: ts =>
          if existsb (λ th, bool_decide (th.1 = Some b)) (rw_threads w) then w
          else spawn (Some b) (run_task t) {| rw_state := set_box b ts s; rw_threads := rw_threads w |}
      | [] => w
      end
  | RvAnswer i r =>
      match rs_reads s !! i with
      | Some rd => spawn None (read_callback (rd_done rd) r)
                     {| rw_state := s <| rs_reads := delete i (rs_reads s) |>; rw_threads := rw_threads w |}
      | None => w
      end
  | RvOutcome k event now => {| rw_state := s <| rs_ctxs := ctx_outcome k event now (rs_ctxs s) |>; rw_threads := rw_threads w |}
  | RvStep i e =>
      match rw_threads w !! i with
      | Some (b, Act f k) => let '(x, s) := f e s in {| rw_state := s; rw_threads := <[i := (b, k x)]> (rw_threads w) |}
      | Some (_, Ret _) => {| rw_state := s; rw_threads := delete i (rw_threads w) |}
      | None => w
      end
  end.

Definition rworld_run (evs : list revent) (w : rworld) : rworld := foldl (λ w ev, rworld_step ev w) w evs.
Definition rstart : rworld := {| rw_state := newRouter; rw_threads := [] |}.

End router.
