(* ===== verification/TgRouterOk.v ===== *)
(** No message is lost by the router: what was taken is finished once, and
    when nothing is under way everything taken has been finished.

    Each goroutine carries [token]s: the messages it owes an end to, the held
    messages it has to release, the turn of a reading it carries, the mailbox
    it runs.  [settled] relates the tokens of the state and of the goroutines to
    what was taken; [wp] says a program keeps it, whatever the others do in
    between. *)
From Stdlib Require Import ssreflect.
From S2P Require Import Prelude GoText Model TgSignal Regex TgParse TgPrompt TgDecide TgContexts TgRouter.
#[local] Open Scope Z_scope.
#[local] Open Scope prog_scope.

#[local] Instance inMsg_eq_dec : EqDecision inMsg.
Proof. solve_decision. Defined.

(** [Box tc fuel]: the mailbox of [tc] is being run, with at most [fuel]
    readings to let on if it is letting them on. *)
Inductive token := Owe (m : inMsg) | Rel (k : string) | Seq (tc : nat) (n : Z) | Box (tc : nat) (fuel : option nat).
#[local] Instance token_eq_dec : EqDecision token.
Proof. solve_decision. Defined.

(** ** Permutations by counting *)

Section count.
Context {A : Type} {dec : EqDecision A}.
Definition cnt (x : A) (l : list A) : nat := count_occ dec l x.
Lemma cnt_app x l k : cnt x (l ++ k) = (cnt x l + cnt x k)%nat.
Proof. apply count_occ_app. Qed.
Lemma cnt_cons x y l : cnt x (y :: l) = (cnt x [y] + cnt x l)%nat.
Proof. change (y :: l) with ([y] ++ l). apply cnt_app. Qed.
Lemma cnt_nil x : cnt x [] = 0%nat.
Proof. done. Qed.
Lemma perm_cnt l k : l ≡ₚ k ↔ ∀ x, cnt x l = cnt x k.
Proof. apply Permutation_count_occ. Qed.
End count.

(** Permutations of concatenations, from those assumed. *)
Ltac perm :=
  apply perm_cnt; let x := fresh "x" in intros x;
  repeat match goal with H : ?l ≡ₚ ?k |- _ => let H' := fresh in pose proof (proj1 (perm_cnt l k) H x) as H'; clear H end;
  repeat match goal with
    | H : context [cnt x (?l ++ ?k)] |- _ => rewrite (cnt_app x l k) in H
    | |- context [cnt x (?l ++ ?k)] => rewrite (cnt_app x l k)
    | H : context [cnt x (?y :: ?l)] |- _ => lazymatch l with [] => fail | _ => rewrite (cnt_cons x y l) in H end
    | |- context [cnt x (?y :: ?l)] => lazymatch l with [] => fail | _ => rewrite (cnt_cons x y l) end
    | H : context [cnt x []] |- _ => rewrite (cnt_nil x) in H
    | |- context [cnt x []] => rewrite (cnt_nil x)
    end; lia.

(** ** Tokens of the state *)

Definition task_tokens (t : task) : list token :=
  match t with
  | InChat it path _ => Owe (it_m it) :: (if becomes_pending it path then [Rel (msgKey (it_m it))] else [])
  | ChatRead it _ => [Owe (it_m it); Rel (msgKey (it_m it))]
  | InContext _ _ it | Verified _ _ it _ => [Owe (it_m it)]
  | ContextRead tc seq _ it _ => [Owe (it_m it); Seq tc seq]
  end.

Definition read_tokens (d : read) : list token :=
  match d with
  | ReadChat it => [Owe (it_m it); Rel (msgKey (it_m it))]
  | ReadVerify _ _ it => [Owe (it_m it)]
  | ReadContext tc seq _ it => [Owe (it_m it); Seq tc seq]
  | ReadAudit _ _ => []
  end.

Definition items_tokens (its : list item) : list token := (λ it, Owe (it_m it)) <$> its.
Definition tasks_tokens (ts : list task) : list token := ts ≫= task_tokens.
Definition ready_tokens (m : gmap Z (ctxLink * item * reading)) : list token := map_to_list m ≫= λ p, [Owe (it_m p.2.1.2)].
Definition worker_tokens (w : ctxWorker) : list token := tasks_tokens (cw_box w) ++ ready_tokens (cw_ready w).
Definition reads_tokens (rs : list llmRead) : list token := rs ≫= λ r, read_tokens (rd_done r).

(** The tokens of a map's values. *)
Definition map_tokens `{Countable K} {V} (f : V → list token) (m : gmap K V) : list token := map_to_list m ≫= λ p, f p.2.

Lemma map_tokens_at `{Countable K} {V} (f : V → list token) (m : gmap K V) k v :
  m !! k = Some v → map_tokens f m ≡ₚ f v ++ map_tokens f (delete k m).
Proof. intros Hk. by rewrite /map_tokens -{1}(map_to_list_delete m k v Hk). Qed.

Lemma map_tokens_new `{Countable K} {V} (f : V → list token) (m : gmap K V) k v :
  m !! k = None → map_tokens f (<[k := v]> m) ≡ₚ f v ++ map_tokens f m.
Proof. intros Hk. by rewrite /map_tokens map_to_list_insert. Qed.

Lemma map_tokens_insert `{Countable K} {V} (f : V → list token) (m : gmap K V) k v :
  map_tokens f (<[k := v]> m) ++ from_option f [] (m !! k) ≡ₚ map_tokens f m ++ f v.
Proof.
  destruct (m !! k) as [v0|] eqn:Hk; simpl.
  - pose proof (map_tokens_at f m k v0 Hk). pose proof (map_tokens_new f (delete k m) k v (lookup_delete_eq m k)) as Hn.
    rewrite insert_delete_eq in Hn. perm.
  - pose proof (map_tokens_new f m k v Hk). perm.
Qed.

Lemma map_tokens_delete `{Countable K} {V} (f : V → list token) (m : gmap K V) k :
  map_tokens f (delete k m) ++ from_option f [] (m !! k) ≡ₚ map_tokens f m.
Proof.
  destruct (m !! k) as [v|] eqn:Hk; simpl; [|by rewrite delete_id // app_nil_r].
  pose proof (map_tokens_at f m k v Hk). perm.
Qed.

Definition state_tokens (s : rstate) : list token :=
  map_tokens items_tokens (rs_pending s) ++ map_tokens tasks_tokens (rs_chats s) ++ map_tokens worker_tokens (rs_workers s) ++
  reads_tokens (rs_reads s).

Definition owed (T : list token) : list inMsg := omap (λ t, match t with Owe m => Some m | _ => None end) T.
Definition seqs (tc : nat) (T : list token) : list Z :=
  omap (λ t, match t with Seq tc' n => if bool_decide (tc' = tc) then Some n else None | _ => None end) T.
Definition boxes (T : list token) : list nat := omap (λ t, match t with Box tc _ => Some tc | _ => None end) T.

(** A reading's turn is kept in its own call's mailbox. *)
Definition placed (tc : nat) (t : task) : Prop := match t with ContextRead tc' _ _ _ _ => tc' = tc | _ => True end.
Definition not_placed (t : task) : Prop := match t with ContextRead _ _ _ _ _ => False | _ => True end.

Definition finished_msgs (s : rstate) : list inMsg := (λ p, it_m p.1) <$> rs_finished s.

(** The turns of a call's readings, its tokens being [T]: each number given
    and not yet applied is carried by someone or waits in [ready]. *)
Record turns (tc : nat) (w : ctxWorker) (T : list token) : Prop := {
  tn_order : cw_applySeq w <= cw_nextSeq w;
  tn_all : seqs tc T ++ (map_to_list (cw_ready w)).*1 ≡ₚ seqZ (cw_applySeq w) (cw_nextSeq w - cw_applySeq w);
  tn_next : is_Some (cw_ready w !! cw_applySeq w) → ∃ n, Box tc (Some n) ∈ T;
  tn_fuel : ∀ n, Box tc (Some n) ∈ T → (size (cw_ready w) <= n)%nat }.

(** The goroutines' tokens are [D]. *)
Record settled (s : rstate) (D : list token) : Prop := {
  st_msgs : finished_msgs s ++ owed (state_tokens s ++ D) ≡ₚ rs_taken s;
  st_rel : ∀ k, is_Some (rs_pending s !! k) → Rel k ∈ state_tokens s ++ D;
  st_turns : ∀ tc, turns tc (worker_of tc s) (state_tokens s ++ D);
  st_boxes : NoDup (boxes D);
  st_ctx : ∀ tc w, rs_workers s !! tc = Some w → Forall (placed tc) (cw_box w);
  st_chat : ∀ chat ts, rs_chats s !! chat = Some ts → Forall not_placed ts }.

Lemma state_no_box tc n s : Box tc n ∉ state_tokens s.
Proof.
  rewrite /state_tokens /map_tokens /reads_tokens /items_tokens /worker_tokens /tasks_tokens /ready_tokens.
  rewrite !elem_of_app !list_elem_of_bind. intros [(p & Hp & _)|[(p & Hp & _)|[(p & Hp & _)|(r & Hr & _)]]].
  - apply list_elem_of_fmap in Hp as (it & ? & _). done.
  - apply list_elem_of_bind in Hp as (t & Ht & _). destruct t; simpl in Ht; repeat case_match; set_solver.
  - apply elem_of_app in Hp as [(t & Ht & _)%list_elem_of_bind|(e & He & _)%list_elem_of_bind].
    + destruct t; simpl in Ht; repeat case_match; set_solver.
    + set_solver.
  - destruct (rd_done r); simpl in Hr; set_solver.
Qed.

Lemma perm_settled s D D' : D ≡ₚ D' → settled s D → settled s D'.
Proof.
  intros HD [H1 H2 H3 H4 H5 H6]. assert (state_tokens s ++ D ≡ₚ state_tokens s ++ D') as HT by (by rewrite HD).
  split; [|..|done|done].
  - rewrite -H1. f_equiv. rewrite /owed. by rewrite HT.
  - intros k. rewrite -HT. apply H2.
  - intros tc. destruct (H3 tc) as [A1 A2 A3 A4]. split; [done|..].
    + rewrite -A2. f_equiv. rewrite /seqs. by rewrite HT.
    + intros [n Hn]%A3. exists n. by rewrite -HT.
    + intros n. rewrite -HT. apply A4.
  - rewrite /boxes -HD. exact H4.
Qed.

(** ** Steps that only move tokens *)

Lemma owed_app T T' : owed (T ++ T') = owed T ++ owed T'.
Proof. apply omap_app. Qed.
Lemma seqs_app tc T T' : seqs tc (T ++ T') = seqs tc T ++ seqs tc T'.
Proof. apply omap_app. Qed.
Lemma boxes_app T T' : boxes (T ++ T') = boxes T ++ boxes T'.
Proof. apply omap_app. Qed.

(** What [settled] reads of a worker besides its mailbox. *)
Definition turn_of (w : ctxWorker) : Z * Z * gmap Z (ctxLink * item * reading) := (cw_nextSeq w, cw_applySeq w, cw_ready w).

Lemma turns_same tc w w' T T' : turn_of w' = turn_of w → T ≡ₚ T' → turns tc w T → turns tc w' T'.
Proof.
  intros Ht HT [A1 A2 A3 A4]. injection Ht as E1 E2 E3. split; rewrite ?E1 ?E2 ?E3 //.
  - rewrite -A2. f_equiv. rewrite /seqs. by rewrite HT.
  - intros [n Hn]%A3. exists n. by rewrite -HT.
  - intros n. rewrite -HT. apply A4.
Qed.

Lemma settled_move s s' D D' : settled s D →
  state_tokens s' ++ D' ≡ₚ state_tokens s ++ D → rs_finished s' = rs_finished s → rs_taken s' = rs_taken s →
  (∀ k, is_Some (rs_pending s' !! k) → is_Some (rs_pending s !! k)) →
  (∀ tc, turn_of (worker_of tc s') = turn_of (worker_of tc s)) → boxes D' ≡ₚ boxes D →
  (∀ tc w, rs_workers s' !! tc = Some w → Forall (placed tc) (cw_box w)) →
  (∀ chat ts, rs_chats s' !! chat = Some ts → Forall not_placed ts) → settled s' D'.
Proof.
  intros [H1 H2 H3 H4 H5 H6] HT Hf Ht Hk Hw Hb Hc Hch. split; [..|done|done].
  - rewrite Ht -H1 /finished_msgs Hf. f_equiv. rewrite /owed. by rewrite HT.
  - intros k Hp. rewrite HT. by apply H2, Hk.
  - intros tc. eapply turns_same; [apply Hw| |apply H3]. by rewrite HT.
  - by rewrite Hb.
Qed.

(** What [settled] reads of the state. *)
Definition core (s : rstate) := (rs_pending s, rs_chats s, rs_workers s, rs_reads s, rs_taken s, rs_finished s).

Lemma settled_core s s' D : core s' = core s → settled s D → settled s' D.
Proof.
  intros Hc Hs. injection Hc as E1 E2 E3 E4 E5 E6. pose proof Hs as [H1 H2 H3 H4 H5 H6].
  eapply settled_move; [exact Hs|..]; rewrite /state_tokens /worker_of ?E1 ?E2 ?E3 ?E4 ?E5 ?E6 //.
Qed.

Lemma box_insert {K} `{Countable K} (P : K → task → Prop) (m : gmap K (list task)) k ts :
  (∀ k ts, m !! k = Some ts → Forall (P k) ts) → Forall (P k) ts → ∀ k' ts', <[k := ts]> m !! k' = Some ts' → Forall (P k') ts'.
Proof. intros Hm Hk k' ts' [[<- <-]|[_ ?]]%lookup_insert_Some; eauto. Qed.

Lemma default_box {K} `{Countable K} (P : K → task → Prop) (m : gmap K (list task)) k :
  (∀ k ts, m !! k = Some ts → Forall (P k) ts) → Forall (P k) (default [] (m !! k)).
Proof. intros Hm. destruct (m !! k) eqn:E; simpl; [by apply Hm|constructor]. Qed.

Lemma map_tokens_grow {K V} `{Countable K} (f : V → list token) (m : gmap K V) k v d (extra : list token) :
  f d = [] → f v ≡ₚ f (default d (m !! k)) ++ extra → map_tokens f (<[k := v]> m) ≡ₚ map_tokens f m ++ extra.
Proof.
  intros Hd Hv. pose proof (map_tokens_insert f m k v) as Hi. destruct (m !! k); simpl in *; [perm|]. rewrite Hd in Hv. perm.
Qed.

Lemma tasks_tokens_app ts ts' : tasks_tokens (ts ++ ts') = tasks_tokens ts ++ tasks_tokens ts'.
Proof. apply bind_app. Qed.
Lemma tasks_tokens_one t : tasks_tokens [t] = task_tokens t.
Proof. rewrite /tasks_tokens bind_cons /=. apply app_nil_r. Qed.

Lemma settled_push_chat s D t chat : not_placed t → settled s (task_tokens t ++ D) → settled (push_chat chat t s) D.
Proof.
  intros Hp Hs. pose proof Hs as [H1 H2 H3 H4 H5 H6].
  assert (map_tokens tasks_tokens (<[chat := default [] (rs_chats s !! chat) ++ [t]]> (rs_chats s)) ≡ₚ map_tokens tasks_tokens (rs_chats s) ++ task_tokens t) as Hm.
  { apply (map_tokens_grow _ _ _ _ []); [done|]. by rewrite tasks_tokens_app tasks_tokens_one. }
  eapply settled_move; [exact Hs|..]; try done.
  - rewrite /state_tokens /=. perm.
  - rewrite boxes_app. assert (boxes (task_tokens t) = []) as ->; [|done]. destruct t; simpl; try done. by destruct (becomes_pending _ _).
  - apply (box_insert (λ _, not_placed)); [done|]. apply Forall_app. split; [by apply (default_box (λ _, not_placed))|by constructor].
Qed.

Lemma worker_of_set tc tc' w s : worker_of tc (set_ctxWorker tc' w s) = if bool_decide (tc' = tc) then w else worker_of tc s.
Proof.
  rewrite /worker_of /set_ctxWorker /=. case_bool_decide as He; [subst; by rewrite lookup_insert_eq|by rewrite lookup_insert_ne].
Qed.

Lemma worker_tokens_new : worker_tokens newCtxWorker = [].
Proof. done. Qed.

Lemma worker_box_placed s tc : (∀ tc w, rs_workers s !! tc = Some w → Forall (placed tc) (cw_box w)) → Forall (placed tc) (cw_box (worker_of tc s)).
Proof. intros Hw. rewrite /worker_of. destruct (rs_workers s !! tc) eqn:E; simpl; [by apply Hw|constructor]. Qed.

(** A mailbox's list replaced. *)
Lemma settled_set_worker s D D' tc w : settled s D → turn_of w = turn_of (worker_of tc s) → boxes D' ≡ₚ boxes D →
  Forall (placed tc) (cw_box w) → tasks_tokens (cw_box w) ++ D' ≡ₚ tasks_tokens (cw_box (worker_of tc s)) ++ D →
  settled (set_ctxWorker tc w s) D'.
Proof.
  intros Hs Ht Hb Hp Htok. pose proof Hs as [H1 H2 H3 H4 H5 H6]. injection Ht as E1 E2 E3.
  pose proof (map_tokens_insert worker_tokens (rs_workers s) tc w) as Hm.
  assert (from_option worker_tokens [] (rs_workers s !! tc) = worker_tokens (worker_of tc s)) as Ho
    by (rewrite /worker_of; destruct (rs_workers s !! tc); done).
  rewrite Ho /worker_tokens E3 in Hm. fold worker_tokens in Hm.
  eapply settled_move; [exact Hs|..]; try done.
  - rewrite /state_tokens /=. change (λ w, tasks_tokens (cw_box w) ++ ready_tokens (cw_ready w)) with worker_tokens in Hm. perm.
  - intros tc'. rewrite worker_of_set. case_bool_decide as He; [|done]. subst. rewrite /turn_of E1 E2 E3. done.
  - rewrite /set_ctxWorker /=. intros tc' w' [[<- <-]|[_ Hw]]%lookup_insert_Some; eauto.
Qed.

Lemma settled_push_ctx s D t tc : placed tc t → settled s (task_tokens t ++ D) → settled (push_ctx tc t s) D.
Proof.
  intros Hp Hs. apply (settled_set_worker s (task_tokens t ++ D)); [done|done| | |].
  - rewrite boxes_app. assert (boxes (task_tokens t) = []) as ->; [|done]. destruct t; simpl; try done. by destruct (becomes_pending _ _).
  - apply Forall_app. split; [apply worker_box_placed, Hs|by constructor].
  - simpl. rewrite tasks_tokens_app tasks_tokens_one. perm.
Qed.

Lemma settled_read s D rd : settled s (read_tokens (rd_done rd) ++ D) → settled (s <| rs_reads := rs_reads s ++ [rd] |>) D.
Proof.
  intros Hs. eapply settled_move; [exact Hs|..]; try done; try apply Hs.
  - rewrite /state_tokens /reads_tokens /= bind_app bind_cons /= app_nil_r. fold (reads_tokens (rs_reads s)). perm.
  - rewrite boxes_app. assert (boxes (read_tokens (rd_done rd)) = []) as ->; [|done]. by destruct (rd_done rd).
Qed.

Lemma items_tokens_app its its' : items_tokens (its ++ its') = items_tokens its ++ items_tokens its'.
Proof. apply fmap_app. Qed.

Lemma settled_hold s D it k : is_Some (rs_pending s !! k) → settled s (Owe (it_m it) :: D) →
  settled (s <| rs_pending := <[k := default [] (rs_pending s !! k) ++ [it]]> (rs_pending s) |>) D.
Proof.
  intros Hk Hs. eapply settled_move; [exact Hs|..]; try done; try apply Hs.
  - assert (map_tokens items_tokens (<[k := default [] (rs_pending s !! k) ++ [it]]> (rs_pending s)) ≡ₚ map_tokens items_tokens (rs_pending s) ++ [Owe (it_m it)]) as Hm.
    { apply (map_tokens_grow _ _ _ _ []); [done|]. by rewrite items_tokens_app. }
    rewrite /state_tokens /=. perm.
  - simpl. intros k' [<-|?]%lookup_insert_is_Some'; done.
Qed.

(** ** Steps that change what is owed *)

Lemma owed_cons m T : owed (Owe m :: T) = m :: owed T.
Proof. done. Qed.

Lemma owed_items its : owed (items_tokens its) = it_m <$> its.
Proof. induction its as [|it its IH]; [done|]. rewrite /items_tokens fmap_cons owed_cons fmap_cons. f_equal. exact IH. Qed.

Lemma elem_perm {A} (x : A) l k : l ≡ₚ k → x ∈ l → x ∈ k.
Proof. by intros ->. Qed.

(** The tokens that [turns] reads, apart from order. *)
Definition same_turns (T T' : list token) : Prop :=
  ∀ tc, seqs tc T' ≡ₚ seqs tc T ∧ ∀ n, Box tc (Some n) ∈ T' ↔ Box tc (Some n) ∈ T.

Lemma turns_tokens tc w w' T T' : same_turns T T' → turn_of w' = turn_of w → turns tc w T → turns tc w' T'.
Proof.
  intros Hs Ht [A1 A2 A3 A4]. injection Ht as E1 E2 E3. destruct (Hs tc) as [S1 S2]. split; rewrite ?E1 ?E2 ?E3 //.
  - by rewrite S1.
  - intros [n Hn]%A3. exists n. by apply S2.
  - intros n Hn%S2. by apply A4.
Qed.

Lemma same_turns_cons t T : match t with Owe _ | Rel _ => True | _ => False end → same_turns T (t :: T).
Proof. intros Ht tc. destruct t; try done; (split; [done|]); intros n; rewrite elem_of_cons; naive_solver. Qed.

Lemma same_turns_perm T T' T'' : T' ≡ₚ T'' → same_turns T T' → same_turns T T''.
Proof. intros HT Hs tc. destruct (Hs tc) as [S1 S2]. split; [rewrite -S1 /seqs; by rewrite HT|]. intros n. by rewrite -HT. Qed.

Lemma same_turns_refl T : same_turns T T.
Proof. done. Qed.
Lemma same_turns_sym T T' : same_turns T T' → same_turns T' T.
Proof. intros Hs tc. destruct (Hs tc) as [S1 S2]. split; [by rewrite S1|]. intros n. by rewrite S2. Qed.

(** A change that leaves the workers alone. *)
Lemma settled_change s s' D D' : settled s D → rs_workers s' = rs_workers s → rs_chats s' = rs_chats s → same_turns (state_tokens s ++ D) (state_tokens s' ++ D') →
  boxes D' ≡ₚ boxes D →
  finished_msgs s' ++ owed (state_tokens s' ++ D') ++ rs_taken s ≡ₚ finished_msgs s ++ owed (state_tokens s ++ D) ++ rs_taken s' →
  (∀ k, is_Some (rs_pending s' !! k) → Rel k ∈ state_tokens s' ++ D') → settled s' D'.
Proof.
  intros [H1 H2 H3 H4 H5 H6] Hw Hc Hturns Hb Hm Hr. split; rewrite ?Hw ?Hc //.
  - perm.
  - intros tc. eapply turns_tokens; [exact Hturns|by rewrite /worker_of Hw|apply H3].
  - by rewrite Hb.
Qed.

Lemma state_tokens_same s s' : rs_pending s' = rs_pending s → rs_chats s' = rs_chats s → rs_workers s' = rs_workers s → rs_reads s' = rs_reads s →
  state_tokens s' = state_tokens s.
Proof. rewrite /state_tokens. by intros -> -> -> ->. Qed.

Lemma settled_finish s D it v : settled s (Owe (it_m it) :: D) →
  settled (s <| rs_busy := rs_busy s - 1 |> <| rs_finished := rs_finished s ++ [(it, v)] |>) D.
Proof.
  intros Hs. eapply settled_change; [exact Hs|done|done|..].
  - rewrite (state_tokens_same s) //. apply same_turns_sym. eapply same_turns_perm, (same_turns_cons (Owe (it_m it))); [|done]. perm.
  - done.
  - rewrite (state_tokens_same s) // !owed_app owed_cons /finished_msgs /= fmap_app /=. perm.
  - intros k Hk. apply (st_rel _ _ Hs) in Hk. rewrite (state_tokens_same s) //. set_solver.
Qed.

Lemma settled_take s D m : settled s D → settled (s <| rs_busy := rs_busy s + 1 |> <| rs_taken := rs_taken s ++ [m] |>) (Owe m :: D).
Proof.
  intros Hs. eapply settled_change; [exact Hs|done|done|..].
  - rewrite (state_tokens_same s) //. eapply same_turns_perm, (same_turns_cons (Owe m)); [|done]. perm.
  - done.
  - rewrite (state_tokens_same s) // !owed_app owed_cons /finished_msgs /=. perm.
  - intros k Hk. apply (st_rel _ _ Hs) in Hk. rewrite (state_tokens_same s) //. set_solver.
Qed.

Lemma settled_mark s D k : rs_pending s !! k = None → settled s D → settled (s <| rs_pending := <[k := []]> (rs_pending s) |>) (Rel k :: D).
Proof.
  intros Hk Hs. set s' := s <| rs_pending := _ |>. assert (state_tokens s' ++ Rel k :: D ≡ₚ Rel k :: state_tokens s ++ D) as HT.
  { pose proof (map_tokens_new items_tokens (rs_pending s) k [] Hk) as Hn. change (items_tokens []) with (@nil token) in Hn.
    rewrite /state_tokens /=. perm. }
  eapply settled_change; [exact Hs|done|done|..].
  - eapply same_turns_perm; [symmetry; exact HT|]. by apply (same_turns_cons (Rel k)).
  - done.
  - assert (owed (state_tokens s' ++ Rel k :: D) ≡ₚ owed (state_tokens s ++ D)) as -> by (by rewrite /owed HT). done.
  - intros k' Hk'. rewrite HT. rewrite /s' /= in Hk'. apply lookup_insert_is_Some' in Hk' as [<-|Hk']; [by left|].
    right. by apply (st_rel _ _ Hs).
Qed.

(** The held messages go to whoever releases them. *)
Lemma settled_release s D R k : R = [Rel k] ∨ R = [] → settled s (R ++ D) →
  settled (s <| rs_pending := delete k (rs_pending s) |>) (items_tokens (default [] (rs_pending s !! k)) ++ D).
Proof.
  intros HR Hs. set its := default [] (rs_pending s !! k). set s' := s <| rs_pending := _ |>.
  assert (state_tokens s' ++ items_tokens its ≡ₚ state_tokens s) as HT.
  { pose proof (map_tokens_delete items_tokens (rs_pending s) k) as Hd. rewrite /state_tokens /=.
    assert (from_option items_tokens [] (rs_pending s !! k) = items_tokens its) as He by (rewrite /its; by destruct (rs_pending s !! k)).
    rewrite He in Hd. perm. }
  assert (state_tokens s' ++ items_tokens its ++ D ≡ₚ state_tokens s ++ D) as HT' by perm.
  eapply settled_change; [exact Hs|done|done|..].
  - eapply same_turns_perm; [symmetry; exact HT'|]. destruct HR as [->| ->]; [|done].
    apply same_turns_sym. eapply same_turns_perm, (same_turns_cons (Rel k)); [|done]. perm.
  - rewrite !boxes_app. assert (boxes (items_tokens its) = []) as ->; [|by destruct HR as [->| ->]]. clear. by induction its.
  - assert (owed (state_tokens s' ++ items_tokens its ++ D) ≡ₚ owed (state_tokens s ++ D)) as Ho by (by rewrite /owed HT').
    rewrite Ho. destruct HR as [->| ->]; [|done]. rewrite !owed_app /=. done.
  - simpl. intros k' Hk'. apply lookup_delete_is_Some in Hk' as [Hne Hk']. apply (st_rel _ _ Hs) in Hk'.
    rewrite HT'. destruct HR as [->| ->]; [|done]. set_solver.
Qed.

(** ** Turns *)

Lemma seqZ_last a b : a <= b → seqZ a (b + 1 - a) = seqZ a (b - a) ++ [b].
Proof.
  intros Hab. replace (b + 1 - a) with ((b - a) + 1) by lia. rewrite seqZ_app; [lia|lia|]. f_equal.
  replace (a + (b - a)) with b by lia. done.
Qed.

Lemma seqZ_first a b : a < b → seqZ a (b - a) = a :: seqZ (a + 1) (b - (a + 1)).
Proof. intros Hab. rewrite seqZ_cons; [lia|]. f_equal. f_equal; lia. Qed.

Lemma seqs_cons tc t T : seqs tc (t :: T) = seqs tc [t] ++ seqs tc T.
Proof. exact (seqs_app tc [t] T). Qed.
Lemma seqs_one tc tc' n : seqs tc [Seq tc' n] = if bool_decide (tc' = tc) then [n] else [].
Proof. rewrite /seqs /=. by case_bool_decide. Qed.

(** Worker [tc] goes on, the others stay. *)
Lemma settled_worker s D D' tc w : settled s D → boxes D' ≡ₚ boxes D → Forall (placed tc) (cw_box w) →
  finished_msgs s ++ owed (state_tokens (set_ctxWorker tc w s) ++ D') ≡ₚ finished_msgs s ++ owed (state_tokens s ++ D) →
  (∀ k, Rel k ∈ state_tokens s ++ D → Rel k ∈ state_tokens (set_ctxWorker tc w s) ++ D') →
  turns tc w (state_tokens (set_ctxWorker tc w s) ++ D') →
  (∀ tc', tc' ≠ tc → seqs tc' (state_tokens (set_ctxWorker tc w s) ++ D') ≡ₚ seqs tc' (state_tokens s ++ D) ∧
     ∀ n, Box tc' (Some n) ∈ state_tokens (set_ctxWorker tc w s) ++ D' ↔ Box tc' (Some n) ∈ state_tokens s ++ D) →
  settled (set_ctxWorker tc w s) D'.
Proof.
  intros [H1 H2 H3 H4 H5 H6] Hb Hp Hm Hr Ht Ho. split; [|..|done].
  - rewrite -H1. exact Hm.
  - intros k Hk. apply Hr, H2, Hk.
  - intros tc'. rewrite worker_of_set. case_bool_decide as He; [by subst|]. destruct (Ho tc' (not_eq_sym He)) as [O1 O2]. destruct (H3 tc') as [A1 A2 A3 A4].
    split; [done|by rewrite O1| |].
    + intros [n Hn]%A3. exists n. by apply O2.
    + intros n Hn%O2. by apply A4.
  - by rewrite Hb.
  - rewrite /set_ctxWorker /=. intros tc' w' [[<- <-]|[_ Hw]]%lookup_insert_Some; eauto.
Qed.

Lemma state_tokens_worker s tc w :
  state_tokens (set_ctxWorker tc w s) ++ worker_tokens (worker_of tc s) ≡ₚ state_tokens s ++ worker_tokens w.
Proof.
  pose proof (map_tokens_insert worker_tokens (rs_workers s) tc w) as Hm.
  assert (from_option worker_tokens [] (rs_workers s !! tc) = worker_tokens (worker_of tc s)) as Ho
    by (rewrite /worker_of; destruct (rs_workers s !! tc); done).
  rewrite Ho in Hm. rewrite /state_tokens /=. perm.
Qed.

Lemma seqs_other tc tc' n T : tc' ≠ tc → seqs tc' (Seq tc n :: T) = seqs tc' T.
Proof. intros Hne. rewrite seqs_cons seqs_one. case_bool_decide; [by subst|done]. Qed.
Lemma seqs_skip tc t T : match t with Seq _ _ => False | _ => True end → seqs tc (t :: T) = seqs tc T.
Proof. by destruct t. Qed.

(** A message takes the next turn. *)
Lemma settled_nextSeq s D tc : settled s D →
  settled (set_ctxWorker tc (worker_of tc s <| cw_nextSeq := cw_nextSeq (worker_of tc s) + 1 |>) s) (Seq tc (cw_nextSeq (worker_of tc s)) :: D).
Proof.
  intros Hs. set w := worker_of tc s. set w' := w <| cw_nextSeq := _ |>.
  assert (state_tokens (set_ctxWorker tc w' s) ++ Seq tc (cw_nextSeq w) :: D ≡ₚ Seq tc (cw_nextSeq w) :: state_tokens s ++ D) as HT.
  { pose proof (state_tokens_worker s tc w') as Hm. change (worker_tokens w') with (worker_tokens w) in Hm. fold w in Hm. perm. }
  destruct (st_turns _ _ Hs tc) as [A1 A2 A3 A4]. fold w in A1, A2, A3, A4.
  apply (settled_worker s D); [done|done|apply worker_box_placed, Hs|..].
  - f_equiv. rewrite /owed. by rewrite HT.
  - intros k Hk. rewrite HT. by right.
  - split; simpl; [lia| | |].
    + assert (seqs tc (state_tokens (set_ctxWorker tc w' s) ++ Seq tc (cw_nextSeq w) :: D) ≡ₚ cw_nextSeq w :: seqs tc (state_tokens s ++ D)) as ->.
      { rewrite /seqs HT. fold (seqs tc (Seq tc (cw_nextSeq w) :: state_tokens s ++ D)). rewrite seqs_cons seqs_one bool_decide_eq_true_2 //. }
      rewrite -app_comm_cons A2 seqZ_last //. perm.
    + intros [n Hn]%A3. exists n. rewrite HT. by right.
    + intros n Hn. apply A4. rewrite HT in Hn. by apply elem_of_cons in Hn as [?|?].
  - intros tc' Hne. split.
    + rewrite /seqs HT. fold (seqs tc' (Seq tc (cw_nextSeq w) :: state_tokens s ++ D)). by rewrite seqs_other.
    + intros n. rewrite HT elem_of_cons. naive_solver.
Qed.

Lemma box_unique tc o n T : NoDup (boxes (Box tc o :: T)) → Box tc n ∉ T.
Proof.
  change (boxes (Box tc o :: T)) with (tc :: boxes T). intros [Hn _]%NoDup_cons Hb. apply Hn, list_elem_of_omap. by exists (Box tc n).
Qed.

Lemma ready_tokens_insert m seq (x : ctxLink * item * reading) : m !! seq = None →
  ready_tokens (<[seq := x]> m) ≡ₚ Owe (it_m x.1.2) :: ready_tokens m.
Proof. intros Hm. by rewrite /ready_tokens map_to_list_insert. Qed.

Lemma ready_tokens_delete m seq (x : ctxLink * item * reading) : m !! seq = Some x →
  ready_tokens m ≡ₚ Owe (it_m x.1.2) :: ready_tokens (delete seq m).
Proof. intros Hm. rewrite -{1}(insert_delete_id m seq x Hm) ready_tokens_insert // lookup_delete_eq //. Qed.

(** A reading is put where its turn will find it. *)
Lemma settled_put_ready s D tc seq l it r :
  settled s (Owe (it_m it) :: Seq tc seq :: Box tc None :: D) →
  settled (put_ready tc seq l it r s).2 (Box tc (Some (put_ready tc seq l it r s).1) :: D).
Proof.
  intros Hs. set w := worker_of tc s. set w' := w <| cw_ready := <[seq := (l, it, r)]> (cw_ready w) |>.
  change (settled (set_ctxWorker tc w' s) (Box tc (Some (size (cw_ready w'))) :: D)).
  destruct (st_turns _ _ Hs tc) as [A1 A2 A3 A4]. fold w in A1, A2, A3, A4.
  set D0 := Owe (it_m it) :: Seq tc seq :: Box tc None :: D in Hs, A2, A3, A4.
  assert (seqs tc (state_tokens s ++ D0) ≡ₚ seq :: seqs tc (state_tokens s ++ D)) as Hseq.
  { rewrite /D0 !seqs_app (seqs_skip _ (Owe _)) // seqs_cons seqs_one bool_decide_eq_true_2 // (seqs_skip _ (Box _ _)) //. perm. }
  assert (cw_ready w !! seq = None) as Hnew.
  { destruct (cw_ready w !! seq) as [x|] eqn:E; [|done]. exfalso.
    assert (NoDup (seqs tc (state_tokens s ++ D0) ++ (map_to_list (cw_ready w)).*1)) as Hn by (rewrite A2; apply NoDup_seqZ).
    rewrite Hseq in Hn. apply NoDup_cons in Hn as [Hn _]. apply Hn, elem_of_app. right. apply list_elem_of_fmap.
    exists (seq, x). split; [done|]. by apply elem_of_map_to_list. }
  assert (state_tokens (set_ctxWorker tc w' s) ≡ₚ Owe (it_m it) :: state_tokens s) as HT.
  { pose proof (state_tokens_worker s tc w') as Hm. fold w in Hm. pose proof (ready_tokens_insert (cw_ready w) seq (l, it, r) Hnew) as Hr.
    rewrite /worker_tokens /= in Hm. simpl in Hr. perm. }
  pose proof (st_boxes _ _ Hs) as Hbox. change (boxes D0) with (boxes (Box tc None :: D)) in Hbox.
  assert (∀ n, Box tc n ∈ state_tokens (set_ctxWorker tc w' s) ++ Box tc (Some (size (cw_ready w'))) :: D → n = Some (size (cw_ready w'))) as Honly.
  { intros n [Hn|Hn]%elem_of_app; [by apply state_no_box in Hn|]. apply elem_of_cons in Hn as [[= ->]|Hn]; [done|]. by eapply box_unique in Hn. }
  apply (settled_worker s D0); [done|done|apply worker_box_placed, Hs|..].
  - f_equiv. rewrite /owed HT. rewrite /D0. fold (owed ((Owe (it_m it) :: state_tokens s) ++ Box tc (Some (size (cw_ready w'))) :: D)).
    fold (owed (state_tokens s ++ Owe (it_m it) :: Seq tc seq :: Box tc None :: D)).
    rewrite (owed_app (Owe _ :: _)) (owed_app (state_tokens s)) owed_cons.
    change (owed (Box tc (Some (size (cw_ready w'))) :: D)) with (owed D). change (owed (Owe (it_m it) :: Seq tc seq :: Box tc None :: D)) with (it_m it :: owed D). perm.
  - intros k Hk. rewrite HT. rewrite /D0 in Hk. set_solver.
  - split; [exact A1| | |].
    + assert (seqs tc (state_tokens (set_ctxWorker tc w' s) ++ Box tc (Some (size (cw_ready w'))) :: D) ≡ₚ seqs tc (state_tokens s ++ D)) as ->.
      { rewrite /seqs HT. fold (seqs tc ((Owe (it_m it) :: state_tokens s) ++ Box tc (Some (size (cw_ready w'))) :: D)).
        fold (seqs tc (state_tokens s ++ D)). rewrite -app_comm_cons seqs_skip // !seqs_app seqs_skip //. }
      rewrite Hseq in A2. rewrite -A2 /= (map_to_list_insert (cw_ready w) seq (l, it, r) Hnew) fmap_cons /=. perm.
    + intros _. exists (size (cw_ready w')). apply elem_of_app. right. by left.
    + intros n Hn. apply Honly in Hn as [= ->]. done.
  - intros tc' Hne. split.
    + rewrite /seqs HT. fold (seqs tc' ((Owe (it_m it) :: state_tokens s) ++ Box tc (Some (size (cw_ready w'))) :: D)).
      fold (seqs tc' (state_tokens s ++ D0)). rewrite /D0 -app_comm_cons (seqs_skip _ (Owe _)) // (seqs_app _ (state_tokens s)) (seqs_skip _ (Box _ _)) //
        (seqs_app _ (state_tokens s)) (seqs_skip _ (Owe _)) // seqs_other // (seqs_skip _ (Box _ _)) //.
    + intros n. rewrite HT /D0. generalize (state_tokens s) as T0. set_solver.
Qed.

(** The next reading is let on; [n] more may wait. *)
Lemma settled_take_ready s D tc n x : settled s (Box tc (Some n) :: D) → cw_ready (worker_of tc s) !! cw_applySeq (worker_of tc s) = Some x →
  ∃ n', n = S n' ∧ settled (take_ready tc s).2 (Owe (it_m x.1.2) :: Box tc (Some n') :: D) ∧ (take_ready tc s).1 = Some x.
Proof.
  intros Hs Hx. set w := worker_of tc s in Hx. destruct (st_turns _ _ Hs tc) as [A1 A2 A3 A4]. fold w in A1, A2, A3, A4.
  assert (size (cw_ready w) ≠ 0)%nat as Hsz by (intros Hz%map_size_empty_iff; by rewrite Hz in Hx).
  pose proof (A4 n ltac:(apply elem_of_app; right; by left)) as Hn. destruct n as [|n']; [lia|]. exists n'. split; [done|].
  set w' := w <| cw_ready := delete (cw_applySeq w) (cw_ready w) |> <| cw_applySeq := cw_applySeq w + 1 |>.
  assert (take_ready tc s = (Some x, set_ctxWorker tc w' s)) as -> by (rewrite /take_ready; fold w; by rewrite Hx). split; [|done]. cbn [snd].
  assert (state_tokens s ≡ₚ Owe (it_m x.1.2) :: state_tokens (set_ctxWorker tc w' s)) as HT.
  { pose proof (state_tokens_worker s tc w') as Hm. fold w in Hm. pose proof (ready_tokens_delete _ _ _ Hx) as Hr.
    rewrite /worker_tokens /= in Hm. perm. }
  assert (state_tokens (set_ctxWorker tc w' s) ++ Owe (it_m x.1.2) :: Box tc (Some n') :: D ≡ₚ Box tc (Some n') :: (state_tokens s ++ D)) as HT1 by perm.
  assert (state_tokens s ++ Box tc (Some (S n')) :: D ≡ₚ Box tc (Some (S n')) :: (state_tokens s ++ D)) as HT2 by perm.
  pose proof (st_boxes _ _ Hs) as Hbox.
  assert (cw_applySeq w < cw_nextSeq w) as Hlt.
  { assert (cw_applySeq w ∈ seqs tc (state_tokens s ++ Box tc (Some (S n')) :: D) ++ (map_to_list (cw_ready w)).*1) as Hin.
    { apply elem_of_app. right. apply list_elem_of_fmap. exists (cw_applySeq w, x). split; [done|]. by apply elem_of_map_to_list. }
    rewrite A2 elem_of_seqZ in Hin. lia. }
  apply (settled_worker s (Box tc (Some (S n')) :: D)); [done|done|apply worker_box_placed, Hs|..].
  - f_equiv. rewrite /owed HT1 HT2. done.
  - intros k. rewrite HT1 HT2. set_solver.
  - split; simpl; [lia| | |].
    + rewrite /seqs HT1. fold (seqs tc (Box tc (Some n') :: state_tokens s ++ D)). rewrite seqs_skip //.
      rewrite /seqs HT2 in A2. fold (seqs tc (Box tc (Some (S n')) :: state_tokens s ++ D)) in A2. rewrite seqs_skip // in A2.
      rewrite seqZ_first // in A2. apply (Permutation_cons_inv (a := cw_applySeq w)). rewrite -A2.
      assert (map_to_list (cw_ready w) ≡ₚ (cw_applySeq w, x) :: map_to_list (delete (cw_applySeq w) (cw_ready w))) as ->.
      { by rewrite map_to_list_delete. }
      rewrite fmap_cons /=. perm.
    + intros _. exists n'. apply elem_of_app. right. right. by left.
    + intros k. rewrite HT1. intros [[= ->]|Hk]%elem_of_cons.
      * rewrite map_size_delete_Some; [by rewrite Hx|]. lia.
      * exfalso. apply elem_of_app in Hk as [Hk|Hk]; [by apply state_no_box in Hk|]. by eapply box_unique in Hk.
  - intros tc' Hne. split.
    + rewrite /seqs HT1 HT2. done.
    + intros k. rewrite HT1 HT2 !elem_of_cons. naive_solver.
Qed.

(** Nothing to let on: the mailbox is free again. *)
Lemma settled_ready_done s D tc o : settled s (Box tc o :: D) → cw_ready (worker_of tc s) !! cw_applySeq (worker_of tc s) = None →
  settled s (Box tc None :: D).
Proof.
  intros [H1 H2 H3 H4 H5 H6] Hx.
  assert (state_tokens s ++ Box tc o :: D ≡ₚ Box tc o :: state_tokens s ++ D) as HT1 by perm.
  assert (state_tokens s ++ Box tc None :: D ≡ₚ Box tc None :: state_tokens s ++ D) as HT2 by perm.
  split; [..|done|done].
  - rewrite -H1. f_equiv. by rewrite /owed HT1 HT2.
  - intros k Hk%H2. rewrite HT1 in Hk. rewrite HT2. set_solver.
  - intros tc'. destruct (H3 tc') as [A1 A2 A3 A4]. split; [done| | |].
    + rewrite -A2 /seqs HT1 HT2. done.
    + destruct (base.decide (tc' = tc)) as [->|Hne]; [rewrite Hx; by intros []|]. intros [n Hn]%A3. exists n.
      rewrite HT1 in Hn. rewrite HT2. apply elem_of_cons in Hn as [[= <- _]|Hn]; [done|]. by right.
    + intros n. rewrite HT2. intros [?|Hn]%elem_of_cons; [done|]. apply A4. rewrite HT1. by right.
  - exact H4.
Qed.

Lemma settled_free_box s D tc : settled s (Box tc None :: D) → settled s D.
Proof.
  intros [H1 H2 H3 H4 H5 H6]. assert (state_tokens s ++ Box tc None :: D ≡ₚ Box tc None :: state_tokens s ++ D) as HT by perm.
  split; [..|done|done].
  - rewrite -H1. f_equiv. by rewrite /owed HT.
  - intros k Hk%H2. rewrite HT in Hk. set_solver.
  - intros tc'. destruct (H3 tc') as [A1 A2 A3 A4]. split; [done| | |].
    + rewrite -A2 /seqs HT. done.
    + intros [n Hn]%A3. exists n. rewrite HT in Hn. by apply elem_of_cons in Hn as [?|Hn].
    + intros n Hn. apply A4. rewrite HT. by right.
  - by apply NoDup_cons in H4 as [_ H4].
Qed.

Lemma settled_take_box s D tc : tc ∉ boxes D → settled s D → settled s (Box tc None :: D).
Proof.
  intros Hn [H1 H2 H3 H4 H5 H6]. assert (state_tokens s ++ Box tc None :: D ≡ₚ Box tc None :: state_tokens s ++ D) as HT by perm.
  split; [..|done|done].
  - rewrite -H1. f_equiv. by rewrite /owed HT.
  - intros k Hk%H2. rewrite HT. by right.
  - intros tc'. destruct (H3 tc') as [A1 A2 A3 A4]. split; [done| | |].
    + rewrite -A2 /seqs HT. done.
    + intros [n Hn']%A3. exists n. rewrite HT. by right.
    + intros n. rewrite HT. intros [?|Hn']%elem_of_cons; [done|]. by apply A4.
  - by constructor.
Qed.

(** A mailbox's first closure starts. *)
Lemma settled_pop s D b t ts : box_tasks b s = t :: ts → settled s D → settled (set_box b ts s) (task_tokens t ++ D).
Proof.
  intros Hb Hs. assert (boxes (task_tokens t ++ D) ≡ₚ boxes D) as Hbox.
  { rewrite boxes_app. assert (boxes (task_tokens t) = []) as ->; [|done]. destruct t; simpl; try done. by destruct (becomes_pending _ _). }
  destruct b as [chat|tc]; simpl in Hb |- *.
  - destruct (rs_chats s !! chat) as [ts0|] eqn:Hc; [|done]. simpl in Hb. subst ts0.
    pose proof (map_tokens_insert tasks_tokens (rs_chats s) chat ts) as Hm. rewrite Hc /= in Hm.
    eapply settled_move; [exact Hs|..]; try done; try apply Hs.
    + rewrite /state_tokens /=. change (tasks_tokens (t :: ts)) with (task_tokens t ++ tasks_tokens ts) in Hm. perm.
    + apply (box_insert (λ _, not_placed)); [apply Hs|]. pose proof (st_chat _ _ Hs _ _ Hc) as Hp. by apply Forall_cons in Hp as [_ Hp].
  - apply (settled_set_worker s D); [done|done|done| |].
    + pose proof (worker_box_placed s tc (st_ctx _ _ Hs)) as Hp. rewrite Hb in Hp. by apply Forall_cons in Hp as [_ Hp].
    + simpl. rewrite Hb. change (tasks_tokens (t :: ts)) with (task_tokens t ++ tasks_tokens ts). perm.
Qed.

(** A read's answer arrives. *)
Lemma settled_answer s D i rd : rs_reads s !! i = Some rd → settled s D →
  settled (s <| rs_reads := delete i (rs_reads s) |>) (read_tokens (rd_done rd) ++ D).
Proof.
  intros Hi Hs. eapply settled_move; [exact Hs|..]; try done; try apply Hs.
  - assert (reads_tokens (rs_reads s) ≡ₚ read_tokens (rd_done rd) ++ reads_tokens (delete i (rs_reads s))) as Hr.
    { rewrite delete_take_drop -{1}(take_drop_middle _ _ _ Hi) /reads_tokens !bind_app bind_cons. perm. }
    rewrite /state_tokens /=. perm.
  - rewrite boxes_app. assert (boxes (read_tokens (rd_done rd)) = []) as ->; [|done]. by destruct (rd_done rd).
Qed.

(** ** Programs keep it *)

(** From the tokens [D], [p] keeps [settled] at every action, whatever the
    others ([F]) hold then, and ends with [Q]. *)
Fixpoint wp {A} (p : prog A) (D : list token) (Q : A → list token → Prop) : Prop :=
  match p with
  | Ret a => Q a D
  | Act f k => ∀ e s F, settled s (D ++ F) →
      match f e s with (b, s') => ∃ D', boxes D' ≡ₚ boxes D ∧ settled s' (D' ++ F) ∧ wp (k b) D' Q end
  end.

Lemma prog_wp_bind {A B} (p : prog A) (k : A → prog B) Q D : wp p D (λ a D', wp (k a) D' Q) → wp (pbind p k) D Q.
Proof.
  revert D. induction p as [a|C f k' IH]; intros D; simpl; [done|]. intros Hp e s F Hs. specialize (Hp e s F Hs).
  destruct (f e s) as [b s']. destruct Hp as (D' & Hb & Hs' & Hp). exists D'. split; [done|]. split; [done|]. by apply IH.
Qed.

Lemma prog_wp_mono {A} (p : prog A) Q Q' D : (∀ a D', Q a D' → Q' a D') → wp p D Q → wp p D Q'.
Proof.
  intros HQ. revert D. induction p as [a|C f k' IH]; intros D; simpl; [apply HQ|]. intros Hp e s F Hs. specialize (Hp e s F Hs).
  destruct (f e s) as [b s']. destruct Hp as (D' & Hb & Hs' & Hp). exists D'. split; [done|]. split; [done|]. by apply IH.
Qed.

Lemma wp_perm {A} (p : prog A) Q D D' : (∀ a D D', D ≡ₚ D' → Q a D → Q a D') → D ≡ₚ D' → wp p D Q → wp p D' Q.
Proof.
  intros HQ HD. destruct p as [a|C f k']; simpl; [by apply HQ|]. intros Hp e s F Hs.
  specialize (Hp e s F (perm_settled _ _ _ (Permutation_app_tail F (symmetry HD)) Hs)).
  destruct (f e s) as [b s']. destruct Hp as (D2 & Hb & Hp). exists D2. split; [|done]. rewrite Hb /boxes HD. done.
Qed.

(** All of [p]'s debts are paid but [D]. *)
Definition ends {A} (D : list token) (_ : A) (D' : list token) : Prop := D' ≡ₚ D.

Lemma ends_perm {A} D0 (a : A) D D' : D ≡ₚ D' → ends D0 a D → ends D0 a D'.
Proof. rewrite /ends. by intros ->. Qed.

Lemma wp_neutral {A B} (f : env → rstate → B * rstate) (k : B → prog A) Q D :
  (∀ e s, core (f e s).2 = core s) → (∀ b, wp (k b) D Q) → wp (Act f k) D Q.
Proof.
  intros Hf Hk e s F Hs. specialize (Hf e s). destruct (f e s) as [b s'] eqn:E. exists D. split; [done|]. split; [|apply Hk].
  by eapply settled_core.
Qed.

(** A program that does not touch what [settled] reads. *)
Definition quiet {A} (p : prog A) : Prop := ∀ D, wp p D (λ _ D', D' = D).

Lemma quiet_ret {A} (a : A) : quiet (Ret a).
Proof. by intros D. Qed.

Lemma quiet_act {A} (f : env → rstate → A * rstate) : (∀ e s, core (f e s).2 = core s) → quiet (act f).
Proof. intros Hf D. by apply wp_neutral. Qed.

Lemma quiet_bind {A B} (p : prog A) (k : A → prog B) : quiet p → (∀ a, quiet (k a)) → quiet (pbind p k).
Proof. intros Hp Hk D. apply prog_wp_bind. eapply prog_wp_mono; [|apply Hp]. intros a D' ->. apply Hk. Qed.

Lemma quiet_for_each {A} (l : list A) f : (∀ x, quiet (f x)) → quiet (for_each l f).
Proof. intros Hf. induction l as [|x l IH]; simpl; [apply quiet_ret|]. by apply quiet_bind. Qed.

Lemma wp_quiet {A B} (p : prog A) (k : A → prog B) D Q : quiet p → (∀ a, wp (k a) D Q) → wp (pbind p k) D Q.
Proof. intros Hp Hk. apply prog_wp_bind. eapply prog_wp_mono; [|apply Hp]. intros a D' ->. apply Hk. Qed.

Lemma wp_then {A B} (p : prog A) (q : prog B) D D1 D2 : wp p D (ends D1) → wp q D1 (ends D2) → wp (pbind p (λ _, q)) D (ends D2).
Proof.
  intros Hp Hq. apply prog_wp_bind. eapply prog_wp_mono; [|exact Hp]. intros a D' HD. eapply wp_perm; [apply ends_perm|symmetry; exact HD|done].
Qed.

Lemma wp_quiet_end {A} (p : prog A) D : quiet p → wp p D (ends D).
Proof. intros Hp. eapply prog_wp_mono; [|apply Hp]. intros a D' ->. by rewrite /ends. Qed.

Lemma wp_reorder {A} (p : prog A) D D' D2 : D' ≡ₚ D → wp p D' (ends D2) → wp p D (ends D2).
Proof. intros HD Hp. eapply wp_perm; [apply ends_perm|exact HD|done]. Qed.

Lemma quiet_reading_of {A} (f : rstate → A) : quiet (reading_of f).
Proof. by apply quiet_act. Qed.
Lemma quiet_clock : quiet clock.
Proof. by apply quiet_act. Qed.
Lemma quiet_on_ctxs {A} (f : contexts → A * contexts) : quiet (on_ctxs f).
Proof. apply quiet_act. intros e s. by destruct (f (rs_ctxs s)). Qed.
Lemma quiet_ctxs_do f : quiet (ctxs_do f).
Proof. by apply quiet_act. Qed.
Lemma quiet_send p : quiet (send p).
Proof. apply quiet_act. intros e s. simpl. by destruct (ev_err e). Qed.
#[local] Hint Resolve quiet_ret quiet_reading_of quiet_clock quiet_on_ctxs quiet_ctxs_do quiet_send : quiet.

Section programs.
Context `{UT : UnicodeTables, LZ : LocalZone, GQ : GoQuote} (h : handler).

Lemma quiet_record e : quiet (record h e).
Proof. apply quiet_act. intros env s. simpl. by case_match. Qed.
Lemma quiet_noteOutcome chat msg line : quiet (noteOutcome h chat msg line).
Proof. apply quiet_bind; [auto with quiet|]. intros t. apply quiet_act. intros env s. simpl. by case_match. Qed.
Lemma quiet_replyText m : quiet (replyText h m).
Proof. apply quiet_reading_of. Qed.
Lemma quiet_replyToCall m : quiet (replyToCall h m).
Proof. apply quiet_reading_of. Qed.
Lemma quiet_call_id tc : quiet (call_id tc).
Proof. apply quiet_reading_of. Qed.

Lemma quiet_publishCall it c v : quiet (publishCall it c v).
Proof.
  do 2 (apply quiet_bind; [auto with quiet|intros ?]). apply quiet_bind; [auto with quiet|]. intros [e|]; [auto with quiet|].
  apply quiet_bind; auto with quiet.
Qed.

Lemma quiet_publish o it d : quiet (publish o it d).
Proof.
  rewrite /publish. destruct (de_call d); [apply quiet_bind; [apply quiet_publishCall|auto with quiet]|].
  destruct (de_followUp d); [apply quiet_bind; auto with quiet|auto with quiet].
Qed.

Lemma quiet_sendActivate tc why m : quiet (sendActivate h tc why m).
Proof.
  apply quiet_bind; [apply quiet_call_id|intros id]. apply quiet_bind; [auto with quiet|intros t]. apply quiet_bind; [auto with quiet|].
  intros [e|]; [auto with quiet|apply quiet_noteOutcome].
Qed.

Lemma quiet_context_decision tc l id d res : quiet (context_decision tc l id d res).
Proof.
  rewrite /context_decision. destruct (de_followUp d); [|auto with quiet]. destruct (negb (is_reply l) && _); [auto with quiet|].
  destruct (String.eqb _ TGActivate); [|auto with quiet]. apply quiet_bind; auto with quiet.
Qed.
#[local] Hint Resolve quiet_record quiet_noteOutcome quiet_replyText quiet_replyToCall quiet_call_id quiet_publishCall quiet_publish
  quiet_sendActivate quiet_context_decision : quiet.

Lemma wp_act {A B} (f : env → rstate → B * rstate) (k : B → prog A) D Q :
  (∀ e s F, settled s (D ++ F) → ∃ D', boxes D' ≡ₚ boxes D ∧ settled (f e s).2 (D' ++ F) ∧ wp (k (f e s).1) D' Q) → wp (Act f k) D Q.
Proof. intros Hf e s F Hs. specialize (Hf e s F Hs). by destruct (f e s). Qed.

(** An action that moves the tokens [R] into the state. *)
Lemma wp_change f R D : boxes R = [] → (∀ s F, settled s (R ++ F) → settled (f s) F) → wp (change f) (R ++ D) (ends D).
Proof.
  intros HR Hf. apply wp_act. intros e s F Hs. exists D. split; [by rewrite boxes_app HR|]. split; [|by apply Permutation_refl].
  simpl. apply Hf. by rewrite app_assoc.
Qed.

Lemma finish_ok it d en D : wp (finish h it d en) (Owe (it_m it) :: D) (ends D).
Proof.
  apply wp_quiet; [auto with quiet|intros t]. apply wp_quiet; [auto with quiet|intros _].
  apply (wp_change _ [Owe (it_m it)]); [done|]. intros s F Hs. by apply settled_finish.
Qed.

Lemma task_no_boxes t : boxes (task_tokens t) = [].
Proof. destruct t; simpl; try done. by destruct (becomes_pending _ _). Qed.
Lemma read_no_boxes d : boxes (read_tokens d) = [].
Proof. by destruct d. Qed.

Lemma push_chat_ok chat t D : not_placed t → wp (change (push_chat chat t)) (task_tokens t ++ D) (ends D).
Proof. intros Hp. apply wp_change; [apply task_no_boxes|]. intros s F. by apply settled_push_chat. Qed.

Lemma push_ctx_ok tc t D : placed tc t → wp (change (push_ctx tc t)) (task_tokens t ++ D) (ends D).
Proof. intros Hp. apply wp_change; [apply task_no_boxes|]. intros s F. by apply settled_push_ctx. Qed.

Lemma submit_read_ok prio text ctxText ttl done D : wp (submit_read prio text ctxText ttl done) (read_tokens done ++ D) (ends D).
Proof.
  apply wp_quiet; [auto with quiet|intros t]. apply wp_change; [apply read_no_boxes|]. intros s F Hs. by apply settled_read.
Qed.

(** ** Routing *)

Definition rel_tokens (it : item) (path : chatPath) : list token := if becomes_pending it path then [Rel (msgKey (it_m it))] else [].

Lemma settled_rel s D k : settled s D → settled s (Rel k :: D).
Proof.
  intros Hs. eapply settled_change; [exact Hs|done|done|..].
  - eapply same_turns_perm, (same_turns_cons (Rel k)); [|done]. perm.
  - done.
  - assert (owed (state_tokens s ++ Rel k :: D) ≡ₚ owed (state_tokens s ++ D)) as ->; [|done].
    assert (state_tokens s ++ Rel k :: D ≡ₚ Rel k :: state_tokens s ++ D) as HT by perm. by rewrite /owed HT.
  - intros k' Hk'. apply (st_rel _ _ Hs) in Hk'. set_solver.
Qed.

Lemma settled_chat_box s D chat : settled s D → settled (s <| rs_chats := <[chat := default [] (rs_chats s !! chat)]> (rs_chats s) |>) D.
Proof.
  intros Hs. eapply settled_move; [exact Hs|..]; try done; try apply Hs.
  - assert (map_tokens tasks_tokens (<[chat := default [] (rs_chats s !! chat)]> (rs_chats s)) ≡ₚ map_tokens tasks_tokens (rs_chats s) ++ []) as Hm.
    { apply (map_tokens_grow _ _ _ _ []); [done|]. by rewrite app_nil_r. }
    rewrite /state_tokens /=. perm.
  - apply (box_insert (λ _, not_placed)); [apply Hs|]. apply (default_box (λ _, not_placed)), Hs.
Qed.

Lemma settled_mark_pending s D it path : settled s D → settled (mark_pending it path s) (rel_tokens it path ++ D).
Proof.
  intros Hs. rewrite /mark_pending /rel_tokens. destruct (becomes_pending it path); simpl; [|by apply settled_chat_box].
  case_bool_decide as Hk; apply settled_chat_box; [by apply settled_mark|by apply settled_rel].
Qed.

Lemma heldBy_pending m s k : heldBy m s = Some k → is_Some (rs_pending s !! k).
Proof.
  rewrite /heldBy. case_match eqn:E1; [|case_match eqn:E2; [|done]]; intros [= <-].
  - by apply andb_true_iff in E1 as [_ ?%bool_decide_eq_true].
  - by apply andb_true_iff in E2 as [_ ?%bool_decide_eq_true].
Qed.

Lemma route_ok it D : wp (route h it) (Owe (it_m it) :: D) (ends D).
Proof.
  rewrite /route. apply wp_quiet; [case_match; auto with quiet|]. intros reply.
  apply wp_act. intros e s F Hs. rewrite /route_step. destruct (heldBy (it_m it) s) as [k|] eqn:Hk; cbn beta iota zeta.
  - exists D. split; [done|]. split; [|by apply Permutation_refl]. apply settled_hold; [by eapply heldBy_pending|done].
  - destruct (link (it_m it) (it_now it) (rs_ctxs s)) as [found cs]. cbn beta iota zeta.
    assert (settled (s <| rs_ctxs := cs |>) (Owe (it_m it) :: D ++ F)) as Hs'.
    { apply (settled_core s); [done|exact Hs]. }
    assert (∀ path, ∃ D', boxes D' ≡ₚ boxes D ∧ settled (mark_pending it path (s <| rs_ctxs := cs |>)) (D' ++ F) ∧
      wp (change (push_chat (im_ChatID (it_m it)) (InChat it path reply))) D' (ends D)) as Hchat.
    { intros path. exists (task_tokens (InChat it path reply) ++ D). split; [by rewrite boxes_app task_no_boxes|].
      split; [|by apply push_chat_ok]. eapply perm_settled; [|apply (settled_mark_pending _ _ it path Hs')]. simpl. fold (rel_tokens it path). perm. }
    destruct found as [[tc l]|]; [|apply Hchat]. destruct (it_call it); [apply Hchat|].
    exists (Owe (it_m it) :: D). split; [done|]. split; [exact Hs'|]. by apply (push_ctx_ok tc (InContext tc l it)).
Qed.

Lemma routes_ok its D : wp (for_each its (route h)) (items_tokens its ++ D) (ends D).
Proof.
  induction its as [|it its IH]; simpl; [by apply Permutation_refl|]. eapply wp_then; [|exact IH].
  apply route_ok.
Qed.

Lemma release_ok m R D : R = [Rel (msgKey m)] ∨ R = [] → wp (release h m) (R ++ D) (ends D).
Proof.
  intros HR. rewrite /release. apply wp_act. intros e s F Hs. simpl.
  exists (items_tokens (default [] (rs_pending s !! msgKey m)) ++ D). split.
  - rewrite !boxes_app. assert (boxes R = []) as -> by (by destruct HR as [->| ->]).
    assert (∀ its, boxes (items_tokens its) = []) as ->; [|done]. intros its. by induction its.
  - split; [|apply routes_ok]. rewrite -app_assoc. eapply settled_release; [exact HR|]. by rewrite app_assoc.
Qed.

Lemma ask_read_ok prio it ctxText done D : wp (ask_read h prio it ctxText done) (read_tokens done ++ D) (ends D).
Proof. apply submit_read_ok. Qed.

(** A message is published on, and ends. *)
Lemma publish_finish_ok o it d en D : wp (let* d := publish o it d in finish h it d en) (Owe (it_m it) :: D) (ends D).
Proof. apply wp_quiet; [auto with quiet|intros ?]. apply finish_ok. Qed.

(** ** The chat's mailbox *)

Lemma armFirst_ok it D : wp (armFirst h it) (Owe (it_m it) :: Rel (msgKey (it_m it)) :: D) (ends D).
Proof.
  rewrite /armFirst. apply wp_quiet; [auto with quiet|]. intros [e|[tc ver]].
  - eapply wp_then; [apply finish_ok|]. by apply (release_ok _ [_]); left.
  - eapply (wp_then _ _ _ (Owe (it_m it) :: D)).
    + eapply wp_reorder; [|by apply (release_ok (it_m it) [Rel (msgKey (it_m it))]); left]. perm.
    + apply wp_quiet; [auto with quiet|intros reply]. apply (ask_read_ok _ _ _ (ReadVerify tc ver it)).
Qed.

Lemma inChat_ok it path reply D : wp (inChat h it path reply) (task_tokens (InChat it path reply) ++ D) (ends D).
Proof.
  destruct path; cbn [inChat task_tokens becomes_pending].
  - apply publish_finish_ok.
  - apply publish_finish_ok.
  - apply wp_quiet; [auto with quiet|intros d]. eapply wp_then; [apply finish_ok|].
    destruct (it_call it); [by apply (release_ok _ [_]); left|by apply (release_ok _ []); right].
  - apply armFirst_ok.
  - apply wp_quiet; [auto with quiet|intros text]. apply (ask_read_ok _ _ _ (ReadChat it)).
Qed.

Lemma readDone_same it r : it_m (readDone it r).1 = it_m it.
Proof. by destruct r as [res [[| |]|]]. Qed.

Lemma chatRead_ok it r D : wp (chatRead h it r) (task_tokens (ChatRead it r) ++ D) (ends D).
Proof.
  rewrite /chatRead. pose proof (readDone_same it r) as Hm. destruct (readDone it r) as [it' en]. simpl in Hm. cbn [task_tokens].
  rewrite -Hm. apply wp_quiet; [auto with quiet|intros d]. eapply wp_then; [apply finish_ok|]. by apply (release_ok _ [_]); left.
Qed.

(** ** The call's mailbox *)

Lemma verified_ok' tc ver it r D : wp (verified h tc ver it r) (Owe (it_m it) :: D) (ends D).
Proof.
  rewrite /verified. pose proof (readDone_same it r) as Hm. destruct (readDone it r) as [it' en]. simpl in Hm. rewrite -Hm.
  destruct (agrees _ r).
  - apply wp_quiet; [auto with quiet|intros queued]. eapply wp_then; [|apply finish_ok]. apply wp_quiet_end.
    destruct queued; [apply quiet_for_each; auto with quiet|auto with quiet].
  - rewrite /verified_not. destruct (verify_failed _ r) as [v why]. do 2 (apply wp_quiet; [auto with quiet|intros ?]).
    case_match; [|apply finish_ok]. apply wp_quiet; [auto with quiet|intros ?]. apply finish_ok.
Qed.

Lemma activateAs_ok tc it d en D : wp (activateAs h tc it d en) (Owe (it_m it) :: D) (ends D).
Proof.
  rewrite /activateAs. apply wp_quiet; [auto with quiet|intros ok]. destruct (negb ok); [|apply publish_finish_ok].
  do 2 (apply wp_quiet; [auto with quiet|intros ?]). apply finish_ok.
Qed.

Lemma activate_ok tc it why D : wp (activate h tc it why) (Owe (it_m it) :: D) (ends D).
Proof. rewrite /activate. apply wp_quiet; [auto with quiet|intros id]. apply activateAs_ok. Qed.

Lemma fastExit_ok tc it D : wp (fastExit h tc it) (Owe (it_m it) :: D) (ends D).
Proof.
  rewrite /fastExit. do 3 (apply wp_quiet; [auto with quiet|intros ?]). eapply wp_then; [apply finish_ok|].
  case_match; [by apply wp_quiet_end, quiet_ret|]. apply wp_quiet; [by apply quiet_act|intros _].
  apply wp_quiet; [auto with quiet|intros text]. apply (submit_read_ok _ _ _ _ (ReadAudit _ _)).
Qed.

Lemma ask_context_ok tc l it D : wp (ask_context h tc l it) (Owe (it_m it) :: D) (ends D).
Proof.
  rewrite /ask_context. apply wp_quiet; [auto with quiet|intros held]. apply wp_act. intros e s F Hs. cbn [fst snd].
  exists (Owe (it_m it) :: Seq tc (cw_nextSeq (worker_of tc s)) :: D). split; [done|]. split.
  - eapply perm_settled; [|apply (settled_nextSeq s _ tc Hs)]. perm.
  - apply wp_quiet; [auto with quiet|intros text]. apply (ask_read_ok _ _ _ (ReadContext tc _ l it)).
Qed.

Lemma context_words_ok tc l it id D : wp (context_words h tc l it id) (Owe (it_m it) :: D) (ends D).
Proof.
  rewrite /context_words. case_match; [apply publish_finish_ok|]. case_match; [apply finish_ok|].
  case_match; [|apply ask_context_ok]. apply wp_quiet; [auto with quiet|intros ?]. apply finish_ok.
Qed.

Lemma price_reply_ok tc it id price D : wp (price_reply h tc it id price) (Owe (it_m it) :: D) (ends D).
Proof.
  rewrite /price_reply. apply wp_quiet; [auto with quiet|intros []]; [|apply finish_ok].
  apply wp_quiet; [auto with quiet|intros t]. apply activate_ok.
Qed.

Lemma active_reply_ok tc it id D : wp (active_reply h tc it id) (Owe (it_m it) :: D) (ends D).
Proof.
  rewrite /active_reply. apply wp_quiet; [auto with quiet|intros []]; cbn [negb]; (apply wp_quiet; [auto with quiet|intros ?]).
  - apply activate_ok.
  - apply finish_ok.
Qed.

Lemma inContext_ok tc l it D : wp (inContext h tc l it) (Owe (it_m it) :: D) (ends D).
Proof.
  rewrite /inContext. apply wp_quiet; [auto with quiet|intros id]. apply wp_quiet; [case_match; auto with quiet|intros []].
  { rewrite /closed_reply. apply wp_quiet; [auto with quiet|intros ?]. apply finish_ok. }
  destruct (is_reply l && _); [apply price_reply_ok|]. destruct (is_reply l && _); [apply active_reply_ok|].
  apply wp_quiet; [case_match; auto with quiet|intros []]; [apply fastExit_ok|apply context_words_ok].
Qed.

Lemma contextRead_ok tc l it r D : wp (contextRead h tc l it r) (Owe (it_m it) :: D) (ends D).
Proof.
  rewrite /contextRead. apply wp_quiet; [auto with quiet|intros id].
  pose proof (readDone_same it r) as Hm. destruct (readDone it r) as [it' en]. simpl in Hm. rewrite -Hm.
  apply wp_quiet; [auto with quiet|intros [d confirms]]. apply wp_quiet; [case_match; auto with quiet|intros ?].
  destruct confirms; [apply activateAs_ok|apply publish_finish_ok].
Qed.

(** Readings are let on in their turn until the next one is missing. *)
Lemma apply_ready_ok tc n D : wp (apply_ready h (S n) tc) (Box tc (Some n) :: D) (ends (Box tc None :: D)).
Proof.
  revert D. induction n as [|n IH]; intros D; cbn [apply_ready].
  - apply wp_act. intros e s F Hs. rewrite /take_ready. destruct (cw_ready (worker_of tc s) !! cw_applySeq (worker_of tc s)) as [x|] eqn:Hx.
    + exfalso. destruct (settled_take_ready s (D ++ F) tc 0 x Hs Hx) as (n' & ? & _). done.
    + cbn [fst snd]. exists (Box tc None :: D). split; [done|]. split; [by eapply settled_ready_done|by apply Permutation_refl].
  - apply wp_act. intros e s F Hs. destruct (cw_ready (worker_of tc s) !! cw_applySeq (worker_of tc s)) as [[[l it] r]|] eqn:Hx.
    + destruct (settled_take_ready s (D ++ F) tc (S n) _ Hs Hx) as (n' & [= <-] & Hs' & Hr). rewrite Hr. 
      exists (Owe (it_m it) :: Box tc (Some n) :: D). split; [done|]. split; [exact Hs'|]. cbn [pbind].
      eapply wp_then; [apply contextRead_ok|]. apply IH.
    + rewrite /take_ready Hx. cbn [fst snd]. exists (Box tc None :: D). split; [done|]. split; [by eapply settled_ready_done|by apply Permutation_refl].
Qed.

Lemma worker_apply_ok tc seq l it r D :
  wp (worker_apply h tc seq l it r) (Owe (it_m it) :: Seq tc seq :: Box tc None :: D) (ends (Box tc None :: D)).
Proof.
  rewrite /worker_apply. apply wp_act. intros e s F Hs. exists (Box tc (Some (put_ready tc seq l it r s).1) :: D).
  split; [done|]. split; [by apply settled_put_ready|]. apply apply_ready_ok.
Qed.

(** What a goroutine of a mailbox holds besides. *)
Definition box_token (b : option mailbox) : list token := match b with Some (CtxBox tc) => [Box tc None] | _ => [] end.
Definition in_box (b : mailbox) (t : task) : Prop := match b with ChatBox _ => not_placed t | CtxBox tc => placed tc t end.

Lemma run_task_ok b t : in_box b t → wp (run_task h t) (task_tokens t ++ box_token (Some b)) (ends (box_token (Some b))).
Proof.
  intros Hb. destruct t as [it path reply|it r|tc l it|tc ver it r|tc seq l it r]; cbn [run_task task_tokens].
  - apply inChat_ok.
  - apply chatRead_ok.
  - apply inContext_ok.
  - apply verified_ok'.
  - destruct b as [chat|tc']; simpl in Hb; [done|]. subst tc'. apply worker_apply_ok.
Qed.

Lemma read_callback_ok d r : wp (read_callback h d r) (read_tokens d) (ends []).
Proof.
  rewrite -(app_nil_r (read_tokens d)). destruct d as [it|tc ver it|tc seq l it|chat msg]; cbn [read_callback].
  - by apply (push_chat_ok _ (ChatRead it r)).
  - by apply (push_ctx_ok _ (Verified tc ver it r)).
  - by apply (push_ctx_ok _ (ContextRead tc seq l it r)).
  - eapply wp_then; [apply wp_quiet_end; case_match; auto with quiet|]. apply wp_quiet_end. by apply quiet_act.
Qed.

Lemma dispatch_ok m now : wp (dispatch h m now) [] (ends []).
Proof.
  rewrite /dispatch. case_match; [by apply wp_quiet_end, quiet_ret|]. case_match; [by apply wp_quiet_end, quiet_record|].
  case_match; [by apply wp_quiet_end, quiet_record|].
  apply wp_quiet; [apply quiet_act; intros e s; by case_match|]. intros []; cbn [negb]; [|by apply wp_quiet_end, quiet_ret].
  apply wp_quiet; [auto with quiet|intros start]. apply wp_act. intros e s F Hs. exists [Owe m]. split; [done|].
  split; [by apply settled_take|]. assert (it_m (new_item h m now start) = m) as Hm.
  { rewrite /new_item. destruct (Parse _) as [rx e1]. by destruct (withDefaultSL rx e1 (hd_slPct h)). }
  pose proof (route_ok (new_item h m now start) []) as Hr. rewrite Hm in Hr. exact Hr.
Qed.

(** ** Every interleaving *)

Definition thread_ok (th : option mailbox * prog unit) (d : list token) : Prop :=
  wp th.2 d (ends (box_token th.1)) ∧ boxes d ≡ₚ boxes (box_token th.1).

Definition rworld_ok (w : rworld) : Prop := ∃ debts, Forall2 thread_ok (rw_threads w) debts ∧ settled (rw_state w) (concat debts).

Lemma spawn_ok b p d w s debts : Forall2 thread_ok (rw_threads w) debts → thread_ok (b, p) d → settled s (d ++ concat debts) →
  rworld_ok (spawn b p {| rw_state := s; rw_threads := rw_threads w |}).
Proof.
  intros Hf Ht Hs. exists (debts ++ [d]). split; [by apply Forall2_app; [|constructor]|].
  simpl. rewrite concat_app /= app_nil_r. eapply perm_settled; [|exact Hs]. perm.
Qed.

Lemma box_held ths debts tc : Forall2 thread_ok ths debts → tc ∈ boxes (concat debts) → existsb (λ th : option mailbox * prog unit, bool_decide (th.1 = Some (CtxBox tc))) ths = true.
Proof.
  induction 1 as [|th d ths debts [_ Hb] _ IH]; simpl; [by intros ?%elem_of_nil|]. rewrite boxes_app elem_of_app Hb.
  intros [Hin|Hin]; [|rewrite IH //; apply orb_true_r].
  destruct th as [[[chat|tc']|] p]; simpl in Hin; try by apply elem_of_nil in Hin. apply list_elem_of_singleton in Hin as ->.
  simpl. by rewrite bool_decide_eq_true_2.
Qed.

Lemma settled_box_tokens s D b : settled s D → (∀ tc, b = CtxBox tc → tc ∉ boxes D) → settled s (box_token (Some b) ++ D).
Proof. intros Hs Hb. destruct b as [chat|tc]; simpl; [done|]. apply settled_take_box; [by apply Hb|done]. Qed.

Lemma box_first s D b t ts : settled s D → box_tasks b s = t :: ts → in_box b t.
Proof.
  intros Hs Hb. destruct b as [chat|tc]; simpl in *.
  - destruct (rs_chats s !! chat) as [ts0|] eqn:Hc; [|done]. simpl in Hb. subst ts0. pose proof (st_chat _ _ Hs _ _ Hc) as Hp.
    by apply Forall_cons in Hp as [Hp _].
  - pose proof (worker_box_placed s tc (st_ctx _ _ Hs)) as Hp. rewrite Hb in Hp. by apply Forall_cons in Hp as [Hp _].
Qed.

Lemma thread_at ths debts i th : Forall2 thread_ok ths debts → ths !! i = Some th →
  ∃ d l1 l2 k1 k2, debts = k1 ++ d :: k2 ∧ thread_ok th d ∧ Forall2 thread_ok l1 k1 ∧ Forall2 thread_ok l2 k2 ∧
    (∀ th', <[i := th']> ths = l1 ++ th' :: l2) ∧ delete i ths = l1 ++ l2.
Proof.
  intros Hf Hi. pose proof (take_drop_middle ths i th Hi) as Hsplit. rewrite -Hsplit in Hf.
  apply Forall2_app_inv_l in Hf as (k1 & k & H1 & Hf & ->). apply Forall2_cons_inv_l in Hf as (d & k2 & Ht & H2 & ->).
  exists d, (take i ths), (drop (S i) ths), k1, k2. split; [done|]. split; [done|]. split; [done|]. split; [done|].
  split; [|apply delete_take_drop]. intros th'. rewrite insert_take_drop; [by eapply lookup_lt_Some|done].
Qed.

Lemma rworld_step_ok ev w : rworld_ok w → rworld_ok (rworld_step h ev w).
Proof.
  intros (debts & Hf & Hs). destruct ev as [m now|b|i r|k event now|i e]; cbn [rworld_step].
  - destruct w as [s ths]. apply (spawn_ok None (dispatch h m now) [] {| rw_state := s; rw_threads := ths |} s debts Hf); [|done].
    split; [apply dispatch_ok|done].
  - destruct (box_tasks b (rw_state w)) as [|t ts] eqn:Hb; [by exists debts|].
    destruct (existsb _ (rw_threads w)) eqn:Hex; [by exists debts|].
    apply (spawn_ok (Some b) (run_task h t) (task_tokens t ++ box_token (Some b)) w _ debts Hf).
    + split; [by apply run_task_ok; eapply box_first|]. by rewrite boxes_app task_no_boxes.
    + eapply perm_settled; [|apply (settled_pop _ (box_token (Some b) ++ concat debts) b t ts Hb); apply settled_box_tokens; [exact Hs|]].
      * perm.
      * intros tc -> Hin. apply (box_held _ _ _ Hf) in Hin. by rewrite Hex in Hin.
  - destruct (rs_reads (rw_state w) !! i) as [rd|] eqn:Hi; [|by exists debts].
    apply (spawn_ok None _ (read_tokens (rd_done rd)) w _ debts Hf).
    + split; [apply read_callback_ok|]. by rewrite read_no_boxes.
    + by apply settled_answer.
  - exists debts. split; [done|]. apply (settled_core (rw_state w)); [done|exact Hs].
  - destruct (rw_threads w !! i) as [[b p]|] eqn:Hi; [|by exists debts].
    destruct (thread_at _ _ _ _ Hf Hi) as (d & l1 & l2 & k1 & k2 & -> & [Ht Hb] & H1 & H2 & Hins & Hdel).
    assert (concat (k1 ++ d :: k2) ≡ₚ d ++ concat k1 ++ concat k2) as HD by (rewrite concat_app /=; perm).
    pose proof (perm_settled _ _ _ HD Hs) as Hs'. destruct p as [[]|B f k]; simpl in Ht.
    + exists (k1 ++ k2). rewrite /= Hdel. split; [by apply Forall2_app|]. rewrite concat_app.
      assert (d ≡ₚ box_token b) as Hd by exact Ht.
      assert (d ++ concat k1 ++ concat k2 ≡ₚ box_token b ++ concat k1 ++ concat k2) as HD2 by (by rewrite Hd).
      apply (perm_settled _ _ _ HD2) in Hs'. destruct b as [[chat|tc]|]; [done| |done]. by apply settled_free_box in Hs'.
    + specialize (Ht e (rw_state w) (concat k1 ++ concat k2) Hs'). destruct (f e (rw_state w)) as [x s'].
      destruct Ht as (d' & Hb' & Hs2 & Hw). exists (k1 ++ d' :: k2). rewrite /= Hins. split.
      * apply Forall2_app; [done|]. constructor; [|done]. split; [exact Hw|]. by rewrite Hb'.
      * eapply perm_settled; [|exact Hs2]. rewrite concat_app /=. perm.
Qed.

Lemma rstart_ok : rworld_ok rstart.
Proof.
  exists []. split; [constructor|]. split; try done.
  - intros k. simpl. rewrite lookup_empty. by intros [].
  - intros tc. split; rewrite /worker_of /= ?lookup_empty //.
    intros n _. simpl. rewrite map_size_empty. lia.
  - constructor.
Qed.

Lemma rworld_run_ok evs w : rworld_ok w → rworld_ok (rworld_run h evs w).
Proof. revert w. induction evs as [|ev evs IH]; intros w Hw; [done|]. apply IH. by apply rworld_step_ok. Qed.

(** Nothing under way: no goroutine, no closure in a mailbox, no read. *)
Definition idle (w : rworld) : Prop := rw_threads w = [] ∧ (∀ b, box_tasks b (rw_state w) = []) ∧ rs_reads (rw_state w) = [].

Lemma idle_token w x : idle w → x ∈ state_tokens (rw_state w) →
  (∃ k its it, rs_pending (rw_state w) !! k = Some its ∧ x = Owe (it_m it)) ∨
  (∃ tc seq e, cw_ready (worker_of tc (rw_state w)) !! seq = Some e ∧ x = Owe (it_m e.1.2)).
Proof.
  intros (_ & Hb & Hr). rewrite /state_tokens Hr !elem_of_app. intros [Hx|[Hx|[Hx|Hx]]].
  - left. apply list_elem_of_bind in Hx as ([k its] & Hx & Hp). apply elem_of_map_to_list in Hp.
    apply list_elem_of_fmap in Hx as (it & -> & _). by exists k, its, it.
  - exfalso. apply list_elem_of_bind in Hx as ([chat ts] & Hx & Hp). apply elem_of_map_to_list in Hp.
    specialize (Hb (ChatBox chat)). simpl in Hb, Hx. rewrite Hp in Hb. simpl in Hb. subst ts. by apply elem_of_nil in Hx.
  - right. apply list_elem_of_bind in Hx as ([tc wk] & Hx & Hp). apply elem_of_map_to_list in Hp.
    specialize (Hb (CtxBox tc)). simpl in Hb, Hx. assert (worker_of tc (rw_state w) = wk) as Hwk by (by rewrite /worker_of Hp).
    rewrite Hwk in Hb. rewrite /worker_tokens Hb /= in Hx. apply list_elem_of_bind in Hx as ([seq e] & Hx & He).
    apply elem_of_map_to_list in He. apply list_elem_of_singleton in Hx as ->. exists tc, seq, e. by rewrite Hwk.
  - by apply elem_of_nil in Hx.
Qed.

Lemma idle_settled w : rworld_ok w → idle w → rs_pending (rw_state w) = ∅ ∧ (∀ tc, cw_ready (worker_of tc (rw_state w)) = ∅) ∧
  finished_msgs (rw_state w) ≡ₚ rs_taken (rw_state w).
Proof.
  intros (debts & Hf & Hs) [Hth Hi]. rewrite Hth in Hf. apply Forall2_nil_inv_l in Hf as ->.
  assert (idle w) as Hidle by (by split). simpl in Hs.
  assert (∀ x, x ∈ state_tokens (rw_state w) ++ [] → ∃ m, x = Owe m) as Hno.
  { intros x. rewrite app_nil_r. intros [(k & its & it & _ & ->)|(tc & seq & e & _ & ->)]%(idle_token w); eauto. }
  assert (rs_pending (rw_state w) = ∅) as Hp.
  { apply map_empty. intros k. destruct (rs_pending (rw_state w) !! k) eqn:Hk; [|done]. exfalso.
    destruct (Hno (Rel k)) as [m Hm]; [|done]. apply (st_rel _ _ Hs). by eexists. }
  assert (∀ tc, cw_ready (worker_of tc (rw_state w)) = ∅) as Hr.
  { intros tc. destruct (st_turns _ _ Hs tc) as [A1 A2 A3 _]. set wk := worker_of tc (rw_state w) in A1 A2 A3 |- *.
    assert (seqs tc (state_tokens (rw_state w) ++ []) = []) as Hseqs.
    { apply elem_of_nil_inv. intros n Hn. apply list_elem_of_omap in Hn as (t & Ht & Hn). destruct (Hno t Ht) as [m ->]. done. }
    rewrite Hseqs /= in A2. destruct (base.decide (cw_applySeq wk < cw_nextSeq wk)) as [Hlt|Hge].
    - exfalso. assert (cw_applySeq wk ∈ (map_to_list (cw_ready wk)).*1) as Hin.
      { rewrite A2. apply elem_of_seqZ. lia. }
      apply list_elem_of_fmap in Hin as ([n e] & Hn & He). simpl in Hn. subst n. apply elem_of_map_to_list in He.
      destruct A3 as [k Hk]; [by eexists|]. destruct (Hno _ Hk) as [m Hm]. done.
    - rewrite seqZ_nil in A2; [lia|]. apply Permutation_nil_r, fmap_nil_inv in A2. by apply map_to_list_empty_iff. }
  split; [done|]. split; [done|]. rewrite -(st_msgs _ _ Hs).
  assert (state_tokens (rw_state w) = []) as ->; [|by rewrite /= app_nil_r].
  apply elem_of_nil_inv. intros x [(k & its & it & Hk & _)|(tc & seq & e & He & _)]%(idle_token w _ Hidle).
  - by rewrite Hp lookup_empty in Hk.
  - by rewrite Hr lookup_empty in He.
Qed.

(** C30: the router loses no message and ends none twice, however its
    goroutines, the readings and the reports interleave: at any time the
    messages finished are among those taken, each as often; and once nothing is
    under way all of them are finished, no message is left behind another's
    read, and no reading waits for its turn. *)
Theorem messages_settled_once evs :
  let w := rworld_run h evs rstart in
  (∃ rest, finished_msgs (rw_state w) ++ rest ≡ₚ rs_taken (rw_state w)) ∧
  (idle w → finished_msgs (rw_state w) ≡ₚ rs_taken (rw_state w) ∧ rs_pending (rw_state w) = ∅ ∧
            ∀ tc, cw_ready (worker_of tc (rw_state w)) = ∅).
Proof.
  intros w. assert (rworld_ok w) as Hok by apply rworld_run_ok, rstart_ok. split.
  - destruct Hok as (debts & _ & Hs). eexists. apply (st_msgs _ _ Hs).
  - intros Hi. by destruct (idle_settled w Hok Hi) as (? & ? & ?).
Qed.
End programs.

(** ** An example *)

Section example.
#[local] Instance demo_tables : UnicodeTables := {| unicode_letter := λ _, false; unicode_upper := λ r, r |}.
#[local] Instance demo_zone : LocalZone := λ _, 0.
#[local] Instance demo_quote : GoQuote := format_q.

Definition demo_handler : handler :=
  {| hd_chats := {[7]}; hd_maxAge := Minute; hd_slPct := 0; hd_sched := true; hd_journal := true |}.
Definition demo_msg (id reply : Z) (text : string) : inMsg :=
  {| im_ChatID := 7; im_MsgID := id; im_ReplyTo := reply; im_Text := text; im_Sent := 1000 * Second; im_Posted := zero_time; im_Edited := false |}.
Definition demo_call : inMsg := demo_msg 1 0 "BUY NIFTY 24500 CE ABOVE 120 SL 100 TGT 150".
Definition demo_env : env := {| ev_now := 1001 * Second; ev_err := None |}.
Definition steps (n : nat) : list revent := replicate n (RvStep 0 demo_env).
Definition agreeing : reading :=
  (zero_LLMResult <| lr_Kind := "new_call" |> <| lr_Underlying := "NIFTY" |> <| lr_Strike := 24500 |> <| lr_OptionType := "CE" |>
     <| lr_Trigger := "120" |> <| lr_SL := "100" |>, None).

(** A call, armed on the pattern; the caller's price while the model checks
    it; the check agrees, and only then the confirmation goes out. *)
Definition demo_events : list revent :=
  [RvMessage demo_call (1001 * Second)] ++ steps 10 ++ [RvTask (ChatBox 7)] ++ steps 20 ++
  [RvMessage (demo_msg 2 1 "➡️121🔥") (1001 * Second)] ++ steps 10 ++ [RvTask (CtxBox 0)] ++ steps 20 ++
  [RvAnswer 0 agreeing] ++ steps 5 ++ [RvTask (CtxBox 0)] ++ steps 20.

Definition demo_out (p : published) : string :=
  match p with PubCall c => tg_Source c | PubFollowUp _ f => fu_Action f end.

Example confirmed_after_check :
  let w := rworld_run demo_handler demo_events rstart in
  demo_out <$> rs_out (rw_state w) = ["REGEX_FIRST"; "activate"]%string ∧ snd <$> rs_finished (rw_state w) = ["CONTEXT"; "SENT"]%string.
Proof. vm_compute. done. Qed.

(** The call is checked, then edited to another contract.  The edit is
    published between the look at [verified] and the publishing of the caller's
    word: the word confirms the edited call, which nothing has checked. *)
Definition slip_events : list revent :=
  [RvMessage demo_call (1001 * Second)] ++ steps 10 ++ [RvTask (ChatBox 7)] ++ steps 20 ++
  [RvAnswer 0 agreeing] ++ steps 5 ++ [RvTask (CtxBox 0)] ++ steps 20 ++
  [RvMessage (demo_msg 2 1 "➡️121🔥") (1001 * Second)] ++ steps 10 ++
  [RvMessage {| im_ChatID := 7; im_MsgID := 1; im_ReplyTo := 0; im_Text := "BUY NIFTY 24600 PE ABOVE 90 SL 80 TGT 150";
                im_Sent := 1001 * Second; im_Posted := 1000 * Second; im_Edited := true |} (1001 * Second)] ++ steps 10 ++
  [RvTask (CtxBox 0)] ++ steps 6 ++ [RvTask (ChatBox 7)] ++ replicate 20 (RvStep 1 demo_env) ++ steps 20.

Example edit_slips_past_check :
  let w := rworld_run demo_handler slip_events rstart in
  demo_out <$> rs_out (rw_state w) = ["REGEX_FIRST"; "REGEX_FIRST"; "activate"]%string ∧
  ((λ tc, (tg_Strike (tc_call tc), tc_verified tc)) <$> cx_store (rs_ctxs (rw_state w)) !! 0%nat) = Some (24600, false).
Proof. vm_compute. done. Qed.

Lemma messages_settled_once_witness :
  let w := rworld_run demo_handler demo_events rstart in
  finished_msgs (rw_state w) ≡ₚ rs_taken (rw_state w) ∧ im_MsgID <$> finished_msgs (rw_state w) = [2; 1].
Proof.
  split; [|vm_compute; reflexivity].
  pose proof (messages_settled_once demo_handler demo_events) as H. cbv zeta in H. destruct H as [_ H].
  destruct H as [H _]; [|exact H]. split; [vm_compute; reflexivity|]. split; [|vm_compute; reflexivity].
  assert (rs_chats (rw_state (rworld_run demo_handler demo_events rstart)) = {[7 := []]}) as Hc by (vm_compute; reflexivity).
  assert (((λ p, (p.1, cw_box p.2)) <$> map_to_list (rs_workers (rw_state (rworld_run demo_handler demo_events rstart)))) = [(0%nat, [])]) as Hw
    by (vm_compute; reflexivity).
  revert Hc Hw. generalize (rw_state (rworld_run demo_handler demo_events rstart)). intros s Hc Hw [chat|tc]; cbn [box_tasks].
  - rewrite Hc. destruct (base.decide (chat = 7)) as [->|Hn]; [by rewrite lookup_singleton_eq|by rewrite lookup_singleton_ne].
  - rewrite /worker_of. destruct (rs_workers s !! tc) as [wk|] eqn:E; [|done]. simpl.
    apply elem_of_map_to_list, (list_elem_of_fmap_2 (λ p, (p.1, cw_box p.2))) in E. rewrite Hw in E.
    by apply list_elem_of_singleton in E as [= _ ->].
Defined.

End example.
