(* ===== verification/TgPublished.v ===== *)
(** Which calls the Telegram router publishes, and as what (internal/tgsignal:
    router.go's armFirst, publish and publishCall over handler.go's decide):
    an invariant of every interleaving of its goroutines.

    What is published as a call comes from a message of a followed chat that
    was received in time.  With a model to ask, a call its pattern reads goes
    out at once, before any reading, and a call its pattern does not read only
    on a sure and complete reading of the model; with none, a call goes out
    on the pattern.  The check that follows the first kind, and its cancel, are
    TgRouter's [verified]. *)
From Stdlib Require Import ssreflect.
From S2P Require Import Prelude GoText Model TgSignal Regex TgParse TgPrompt TgDecide TgContexts LlmScheduler TgRouter.
#[local] Open Scope Z_scope.
#[local] Open Scope prog_scope.

Section published.
Context `{UT : UnicodeTables, LZ : LocalZone, GQ : GoQuote} (h : handler) (evs : list revent).

(** ** What may be published *)

Definition answered (r : reading) : Prop := ∃ i, RvAnswer i r ∈ evs.

(** A message taken: of a followed chat, with a text, not too old. *)
Definition received (m : inMsg) (now : Time) : Prop :=
  RvMessage m now ∈ evs ∧ im_ChatID m ∈ hd_chats h ∧ t_sub now (im_Sent m) <= hd_maxAge h.

(** The call a text may go out as. *)
Definition call_of (text : string) (c : TGSignal) : Prop :=
  let '(rx, rxErr) := read_text text (hd_slPct h) in
  match rxErr with
  | None => c = rx <| tg_Source := if hd_sched h then "REGEX_FIRST" else "REGEX" |>
  | Some _ => hd_sched h = true ∧ ∃ r, answered r ∧ read_alone rxErr (llmWithDefaultSL r.1 (hd_slPct h), r.2) c
  end.

(** [c] with the marks of its message and of its delivery. *)
Definition delivered (m : inMsg) (now : Time) (ms : Z) (at_ : Time) (c : TGSignal) : TGSignal :=
  c <| tg_ChatID := im_ChatID m |> <| tg_MsgID := im_MsgID m |> <| tg_ReceivedAt := now |> <| tg_Text := im_Text m |>
    <| tg_Edited := im_Edited m |> <| tg_SentAt := im_Sent m |> <| tg_ReadMS := ms |> <| tg_PublishedAt := at_ |>.

Definition out_ok (p : published) : Prop :=
  match p with
  | PubCall p => ∃ m now c ms at_, received m now ∧ call_of (im_Text m) c ∧ p = delivered m now ms at_ c
  | PubFollowUp _ _ => True
  end.

Lemma delivered_tradeable m now ms at_ c : tradeable c → tradeable (delivered m now ms at_ c).
Proof. destruct c. intros [Hs Hv]. split; [exact Hs|exact Hv]. Qed.

Lemma call_of_tradeable text c : call_of text c → tradeable c.
Proof.
  rewrite /call_of. destruct (read_text text _) as [rx [e|]] eqn:Ht.
  - intros (_ & r & _ & _ & _ & _ & _ & Hs & Hv & ->). apply tradeable_source. by split.
  - intros ->. apply tradeable_source. by eapply read_text_tradeable.
Qed.

(** ** What the router holds *)

Definition item_ok (it : item) : Prop :=
  received (it_m it) (it_now it) ∧ it_call it = isCall (im_Text (it_m it)) ∧
  (it_rx it, it_rxErr it) = read_text (im_Text (it_m it)) (hd_slPct h).

(** Its pattern reads no call, and there is a model to ask. *)
Definition unread_item (it : item) : Prop := item_ok it ∧ is_Some (it_rxErr it) ∧ hd_sched h = true.

Definition path_ok (it : item) (path : chatPath) : Prop :=
  match path with
  | pathActive => True
  | pathRegex => hd_sched h = false
  | pathCall => it_rxErr it = None ∧ hd_sched h = true
  | pathSkip | pathLLM => is_Some (it_rxErr it) ∧ hd_sched h = true
  end.

Definition task_ok (t : task) : Prop :=
  match t with
  | InChat it path _ => item_ok it ∧ path_ok it path
  | InContext _ _ it => item_ok it ∧ is_Some (it_rxErr it)
  | ChatRead it r | ContextRead _ _ _ it r => unread_item it ∧ answered r
  | Verified _ _ _ _ => True
  end.

Definition read_ok (d : read) : Prop :=
  match d with ReadChat it | ReadContext _ _ _ it => unread_item it | _ => True end.

Definition worker_ok (w : ctxWorker) : Prop :=
  Forall task_ok (cw_box w) ∧ map_Forall (λ _ e, unread_item e.1.2 ∧ answered e.2) (cw_ready w).

Record holds (s : rstate) : Prop := {
  ho_pending : map_Forall (λ _, Forall item_ok) (rs_pending s);
  ho_chats : map_Forall (λ _, Forall task_ok) (rs_chats s);
  ho_workers : map_Forall (λ _, worker_ok) (rs_workers s);
  ho_reads : Forall (λ r, read_ok (rd_done r)) (rs_reads s);
  ho_out : Forall out_ok (rs_out s) }.

(** What [holds] reads of the state. *)
Definition held_parts (s : rstate) := (rs_pending s, rs_chats s, rs_workers s, rs_reads s, rs_out s).

Lemma holds_same s s' : held_parts s' = held_parts s → holds s → holds s'.
Proof. intros He [H1 H2 H3 H4 H5]. injection He as E1 E2 E3 E4 E5. split; by rewrite ?E1 ?E2 ?E3 ?E4 ?E5. Qed.

(** ** Programs that keep it, whatever the others do in between *)

Fixpoint safe {A} (p : prog A) (Q : A → Prop) : Prop :=
  match p with
  | Ret a => Q a
  | Act f k => ∀ e s, holds s → holds (f e s).2 ∧ safe (k (f e s).1) Q
  end.
Notation fine p := (safe p (λ _, True)).

Lemma safe_bind {A B} (p : prog A) (k : A → prog B) Q : safe p (λ a, safe (k a) Q) → safe (pbind p k) Q.
Proof. induction p as [a|C f k' IH]; simpl; [done|]. intros H e s Hs. destruct (H e s Hs). split; [done|]. by apply IH. Qed.

Lemma safe_mono {A} (p : prog A) (P Q : A → Prop) : (∀ a, P a → Q a) → safe p P → safe p Q.
Proof. intros HPQ. induction p as [a|C f k IH]; simpl; [apply HPQ|]. intros H e s Hs. destruct (H e s Hs). split; [done|by apply IH]. Qed.

Lemma safe_seq {A B} (p : prog A) (k : A → prog B) Q : fine p → (∀ a, safe (k a) Q) → safe (pbind p k) Q.
Proof. intros Hp Hk. apply safe_bind. eapply safe_mono; [|exact Hp]. intros a _. apply Hk. Qed.

Lemma safe_act {A} (f : env → rstate → A * rstate) (Q : A → Prop) :
  (∀ e s, holds s → holds (f e s).2 ∧ Q (f e s).1) → safe (act f) Q.
Proof. done. Qed.

(** Actions on the rest of the state. *)
Lemma fine_act {A} (f : env → rstate → A * rstate) : (∀ e s, held_parts (f e s).2 = held_parts s) → fine (act f).
Proof. intros Hf. apply safe_act. intros e s Hs. split; [|done]. by eapply holds_same; [apply Hf|]. Qed.
Lemma fine_change f : (∀ s, held_parts (f s) = held_parts s) → fine (change f).
Proof. intros Hf. by apply fine_act. Qed.
Lemma fine_reading {A} (f : rstate → A) : fine (reading_of f).
Proof. by apply fine_act. Qed.
Lemma fine_clock : fine clock.
Proof. by apply fine_act. Qed.
Lemma fine_ctxs {A} (f : contexts → A * contexts) : fine (on_ctxs f).
Proof. apply fine_act. intros e s. by destruct (f (rs_ctxs s)). Qed.
Lemma fine_ctxs_do f : fine (ctxs_do f).
Proof. by apply fine_change. Qed.
Lemma fine_record e : fine (record h e).
Proof. apply fine_act. intros env s. by case_match. Qed.
Lemma fine_outcome chat msg line : fine (noteOutcome h chat msg line).
Proof. apply safe_seq; [apply fine_clock|]. intros now. apply fine_act. intros env s. by case_match. Qed.
Lemma fine_finish it d english : fine (finish h it d english).
Proof. apply safe_seq; [apply fine_clock|]. intros now. apply safe_seq; [apply fine_record|]. intros _. by apply fine_change. Qed.
Lemma fine_replyText m : fine (replyText h m).
Proof. apply fine_reading. Qed.
Lemma fine_call_id tc : fine (call_id tc).
Proof. apply fine_reading. Qed.
Lemma fine_for_each {A} (l : list A) f : (∀ x, x ∈ l → fine (f x)) → fine (for_each l f).
Proof.
  induction l as [|x l IH]; intros Hf; [done|]. apply safe_seq; [apply Hf; set_solver|]. intros _. apply IH. intros y Hy. apply Hf. set_solver.
Qed.

Lemma fine_send p : out_ok p → fine (send p).
Proof.
  intros Hp. apply safe_act. intros e s [H1 H2 H3 H4 H5]. split; [|done]. simpl. destruct (ev_err e); split; try done.
  apply Forall_app. split; [done|by constructor].
Qed.

Lemma fine_push_chat chat t : task_ok t → fine (change (push_chat chat t)).
Proof.
  intros Ht. apply safe_act. intros e s [H1 H2 H3 H4 H5]. split; [|done]. split; try done. simpl. apply map_Forall_insert_2; [|done].
  apply Forall_app. split; [|by constructor]. destruct (rs_chats s !! chat) eqn:Hc; simpl; [by apply (H2 chat)|constructor].
Qed.

Lemma worker_of_ok tc s : holds s → worker_ok (worker_of tc s).
Proof.
  intros Hs. rewrite /worker_of. destruct (rs_workers s !! tc) as [w|] eqn:Hw; [by apply (ho_workers s Hs tc)|].
  split; [constructor|apply map_Forall_empty].
Qed.

Lemma set_ctxWorker_ok tc w s : worker_ok w → holds s → holds (set_ctxWorker tc w s).
Proof. intros Hw [H1 H2 H3 H4 H5]. split; try done. simpl. by apply map_Forall_insert_2. Qed.

Lemma fine_push_ctx tc t : task_ok t → fine (change (push_ctx tc t)).
Proof.
  intros Ht. apply safe_act. intros e s Hs. split; [|done]. destruct (worker_of_ok tc s Hs) as [Hb Hr].
  apply set_ctxWorker_ok; [|done]. split; [|done]. apply Forall_app. split; [done|by constructor].
Qed.

Lemma fine_submit prio text ctx ttl d : read_ok d → fine (submit_read prio text ctx ttl d).
Proof.
  intros Hd. apply safe_seq; [apply fine_clock|]. intros now. apply safe_act. intros e s [H1 H2 H3 H4 H5]. split; [|done]. split; try done.
  simpl. apply Forall_app. split; [done|]. by constructor.
Qed.
Lemma fine_ask prio it ctx d : read_ok d → fine (ask_read h prio it ctx d).
Proof. apply fine_submit. Qed.

#[local] Hint Resolve fine_reading fine_clock fine_ctxs fine_ctxs_do fine_record fine_outcome fine_finish fine_replyText fine_call_id : fine.

(** A sequence, a choice, a known program. *)
Ltac fine_step :=
  first
    [ solve [eauto 2 with fine]
    | match goal with
      | |- safe (Ret _) _ => exact I
      | |- safe (pbind _ _) _ => apply safe_seq; [|intros ?]
      | |- safe (let '_ := ?x in _) _ => destruct x
      | |- safe (match ?x with _ => _ end) _ => destruct x eqn:?
      | |- safe (if ?x then _ else _) _ => destruct x eqn:?
      end ].
Ltac fine_auto := repeat fine_step.

(** ** Publishing *)

Lemma fine_publishCall it c v : item_ok it → call_of (im_Text (it_m it)) c → fine (publishCall it c v).
Proof.
  intros (Hm & _) Hc. rewrite /publishCall. apply safe_seq; [apply fine_clock|intros t1]. apply safe_seq; [apply fine_clock|intros t2].
  apply safe_seq; [|intros err; fine_auto]. apply fine_send. by exists (it_m it), (it_now it), c, (Z.quot (t_sub t1 (it_start it)) Millisecond), t2.
Qed.

(** What [d] would publish as a call is one the item may go out as. *)
Definition fits (it : item) (d : decision) : Prop := ∀ c, de_call d = Some c → call_of (im_Text (it_m it)) c.

Lemma fine_publish origin it d : item_ok it → fits it d → fine (publish origin it d).
Proof.
  intros Hit Hd. rewrite /publish. destruct (de_call d) as [c|] eqn:Hc.
  - apply safe_seq; [|by intros r]. by apply fine_publishCall; [|apply Hd].
  - destruct (de_followUp d); [|done]. apply safe_seq; [by apply fine_send|by intros err].
Qed.

Lemma fits_none it d : de_call d = None → fits it d.
Proof. intros Hd c. by rewrite Hd. Qed.

Lemma fits_regex it : item_ok it → is_Some (it_rxErr it) ∨ hd_sched h = false → fits it (decideRegex (it_rx it) (it_rxErr it)).
Proof.
  intros (_ & _ & Hr) Hs c. rewrite /decideRegex /call_of -Hr. destruct (it_rxErr it) as [[]|]; try done.
  intros [= <-]. destruct Hs as [[? ?]| ->]; done.
Qed.

Lemma fits_judge it r : unread_item it → answered r → fits it (judge_fresh h it r).
Proof.
  intros ((_ & _ & Hr) & [e He] & Hsched) Ha c. rewrite /judge_fresh /call_of -Hr He. intros Hc. split; [done|]. exists r. split; [done|].
  assert (de_call (judge h it r) = Some c) as Hj by (by destruct (r.2) as [[]|]). rewrite /judge in Hj. apply publication_cases in Hj.
  rewrite He in Hj. destruct Hj as [(? & _)|[Hj|(? & _)]]; done.
Qed.

Lemma item_ok_read it r : item_ok it → item_ok (readDone it r).1.
Proof. destruct r as [res [[]|]]; done. Qed.
Lemma unread_item_read it r : unread_item it → unread_item (readDone it r).1.
Proof. destruct r as [res [[]|]]; done. Qed.

(** The pattern reads a call only where there may be one. *)
Lemma no_call_no_reading it : item_ok it → it_call it = false → is_Some (it_rxErr it).
Proof.
  intros (_ & Hcall & Hr). rewrite Hcall /isCall /read_text in Hr |- *. destruct (Parse _) as [rx e]. simpl.
  destruct e as [[]|]; try done; rewrite /withDefaultSL bool_decide_eq_true_2 // orb_true_r in Hr; intros _; injection Hr as _ Hx; by rewrite Hx.
Qed.

(** ** Routing *)

Lemma chatPath_ok it replyCall : item_ok it → path_ok it (chatPath_of h it replyCall).
Proof.
  intros Hit. rewrite /chatPath_of. destruct (_ && replyCall); [done|]. destruct (hd_sched h) eqn:Hs; [|done]. cbn [negb].
  destruct (it_call it) eqn:Hc; cbn [andb].
  - case_bool_decide as Hx; [done|]. assert (is_Some (it_rxErr it)) by (by destruct (it_rxErr it)). by destruct (negb _).
  - pose proof (no_call_no_reading it Hit Hc). by destruct (negb _).
Qed.

Lemma fine_route it : item_ok it → fine (route h it).
Proof.
  intros Hit. rewrite /route. apply safe_seq; [case_match; [done|apply fine_reading]|]. intros replyCall. apply safe_bind, safe_act.
  intros e s Hs. pose proof Hs as [H1 H2 H3 H4 H5]. rewrite /route_step. destruct (heldBy _ s) as [k|]; cbn [fst snd].
  - split; [|done]. split; try done. simpl. apply map_Forall_insert_2; [|done]. apply Forall_app. split; [|by constructor].
    destruct (rs_pending s !! k) eqn:Hk; simpl; [by apply (H1 k)|constructor].
  - destruct (link _ _ _) as [found cs].
    assert (∀ path, path_ok it path → holds (mark_pending it path (s <| rs_ctxs := cs |>)) ∧ fine (change (push_chat (im_ChatID (it_m it)) (InChat it path replyCall)))) as Hchat.
    { intros path Hp. split; [|by apply fine_push_chat]. rewrite /mark_pending. set b := _ && _.
      split; try done; destruct b; simpl; try done; try (by apply map_Forall_insert_2).
      all: apply map_Forall_insert_2; [|done]; destruct (rs_chats s !! im_ChatID (it_m it)) eqn:Hc; simpl; [by eapply (H2 (im_ChatID (it_m it)))|constructor]. }
    pose proof (chatPath_ok it replyCall Hit) as Hp. destruct found as [[tc l]|]; [|by apply Hchat]. destruct (it_call it) eqn:Hc; [by apply Hchat|].
    split; [by eapply holds_same|]. apply fine_push_ctx. split; [done|]. by apply no_call_no_reading.
Qed.

Lemma fine_release m : fine (release h m).
Proof.
  apply safe_bind, safe_act. intros e s [H1 H2 H3 H4 H5]. simpl. split.
  - split; try done. simpl. by apply map_Forall_delete.
  - apply fine_for_each. intros it Hit. apply fine_route. destruct (rs_pending s !! msgKey m) as [its|] eqn:Hk; [|by apply elem_of_nil in Hit].
    specialize (H1 _ _ Hk). rewrite Forall_forall in H1. by apply H1.
Qed.
#[local] Hint Resolve fine_release : fine.

(** ** The handlers *)

Lemma fine_armFirst it : item_ok it → path_ok it pathCall → fine (armFirst h it).
Proof.
  intros Hit [Hrx Hs]. rewrite /armFirst. apply safe_seq; [|intros r; fine_auto; by apply fine_ask].
  apply fine_publishCall; [done|]. destruct Hit as (_ & _ & Hr). by rewrite /call_of -Hr Hrx Hs.
Qed.

Lemma fine_inChat it path replyCall : item_ok it → path_ok it path → fine (inChat h it path replyCall).
Proof.
  intros Hit Hp. destruct path; cbn [inChat].
  - destruct Hp as [[e He] Hs]. rewrite He. apply safe_seq; [by apply fine_publish, fits_none|]. intros d. fine_auto.
  - apply safe_seq; [by apply fine_publish, fits_none|]. intros d. fine_auto.
  - apply safe_seq; [apply fine_publish, fits_regex; auto|]. intros d. fine_auto.
  - by apply fine_armFirst.
  - apply safe_seq; [apply fine_replyText|]. intros reply. apply fine_ask. by destruct Hp.
Qed.

Lemma fine_chatRead it r : unread_item it → answered r → fine (chatRead h it r).
Proof.
  intros Hit Ha. rewrite /chatRead. pose proof (unread_item_read it r Hit) as Hit'. destruct (readDone it r) as [it' english]. simpl in Hit'.
  apply safe_seq; [apply fine_publish; [apply Hit'|by apply fits_judge]|]. intros d. fine_auto.
Qed.

Lemma fine_sendActivate tc why m : fine (sendActivate h tc why m).
Proof. rewrite /sendActivate. fine_auto. by apply fine_send. Qed.

Lemma fine_verified tc ver it r : fine (verified h tc ver it r).
Proof.
  rewrite /verified. destruct (readDone it r) as [it' english]. destruct (agrees _ _).
  - rewrite /verified_ok. fine_auto. apply fine_for_each. intros q _. apply fine_sendActivate.
  - rewrite /verified_not. destruct (verify_failed _ _). fine_auto. by apply fine_send.
Qed.

Lemma fine_activateAs tc it d english : item_ok it → fits it d → fine (activateAs h tc it d english).
Proof. intros Hit Hd. rewrite /activateAs. fine_auto. by apply fine_publish. Qed.

Lemma fine_inContext tc l it : item_ok it → is_Some (it_rxErr it) → fine (inContext h tc l it).
Proof.
  intros Hit He. assert (Hact : ∀ why, fine (activate h tc it why)).
  { intros why. rewrite /activate. apply safe_seq; [apply fine_call_id|]. intros id. by apply fine_activateAs, fits_none. }
  rewrite /inContext. apply safe_seq; [apply fine_call_id|]. intros id.
  apply safe_seq; [fine_auto|]. intros closed. destruct closed; [rewrite /closed_reply; fine_auto|].
  destruct (_ && (0 <? _)); [rewrite /price_reply; fine_auto; apply Hact|].
  destruct (_ && _); [rewrite /active_reply; fine_auto; apply Hact|].
  apply safe_seq; [fine_auto|]. intros held. destruct held.
  - rewrite /fastExit. fine_auto.
    + by apply fine_publish, fits_none.
    + by apply fine_change.
    + by apply fine_submit.
  - rewrite /context_words. destruct (hd_sched h) eqn:Hsched; cbn [negb]; fine_auto; [|by apply fine_publish, fits_regex; auto].
    rewrite /ask_context. apply safe_seq; [apply fine_reading|]. intros held. apply safe_seq.
    + apply safe_act. intros e s Hs. split; [|done]. pose proof (worker_of_ok tc s Hs) as [Hb Hr]. apply set_ctxWorker_ok; [by split|done].
    + intros seq. apply safe_seq; [apply fine_reading|]. intros ctxText. apply fine_ask. done.
Qed.

Lemma fine_contextRead tc l it r : unread_item it → answered r → fine (contextRead h tc l it r).
Proof.
  intros Hit Ha. rewrite /contextRead. apply safe_seq; [apply fine_call_id|]. intros id.
  pose proof (unread_item_read it r Hit) as Hit'. destruct (readDone it r) as [it' english]. simpl in Hit'.
  assert (Hj := fits_judge it' r Hit' Ha). apply safe_bind. apply (safe_mono _ (λ da, fits it' da.1)).
  - intros [d confirms] Hd. simpl in Hd. apply safe_seq; [fine_auto|]. intros _. destruct Hit' as (Hit' & _).
    destruct confirms; [by apply fine_activateAs|]. apply safe_seq; [by apply fine_publish|]. intros d'. fine_auto.
  - rewrite /context_decision. destruct (de_followUp _); [|done]. destruct (_ && _); [by apply fits_none|].
    destruct (String.eqb _ _); [|exact Hj]. apply safe_seq; [apply fine_ctxs|]. intros claimed. destruct claimed; [exact Hj|by apply fits_none].
Qed.

Lemma fine_apply_ready n tc : fine (apply_ready h n tc).
Proof.
  induction n as [|n IH]; [done|]. cbn [apply_ready]. apply safe_bind, safe_act. intros e s Hs. rewrite /take_ready.
  destruct (worker_of_ok tc s Hs) as [Hb Hr]. destruct (cw_ready _ !! _) as [[[l it] r]|] eqn:Hx; cbn [fst snd]; [|by split].
  destruct (Hr _ _ Hx) as [Hit Ha]. split; [|apply safe_seq; [by apply fine_contextRead|by intros _]].
  apply set_ctxWorker_ok; [|done]. split; [done|]. by apply map_Forall_delete.
Qed.

Lemma fine_run_task t : task_ok t → fine (run_task h t).
Proof.
  destruct t as [it path replyCall|it r|tc l it|tc ver it r|tc seq l it r]; cbn [run_task task_ok]; intros Ht.
  - by apply fine_inChat; apply Ht.
  - by apply fine_chatRead; apply Ht.
  - by apply fine_inContext; apply Ht.
  - apply fine_verified.
  - apply safe_seq; [|intros n; apply fine_apply_ready]. apply safe_act. intros e s Hs. split; [|done].
    destruct (worker_of_ok tc s Hs) as [Hb Hr]. apply set_ctxWorker_ok; [|done]. split; [done|]. by apply map_Forall_insert_2.
Qed.

Lemma fine_read_callback d r : read_ok d → answered r → fine (read_callback h d r).
Proof.
  destruct d as [it|tc ver it|tc seq l it|chat msg]; cbn [read_callback read_ok]; intros Hd Ha.
  - by apply fine_push_chat.
  - by apply fine_push_ctx.
  - by apply fine_push_ctx.
  - fine_auto. by apply fine_change.
Qed.

Lemma fine_dispatch m now : RvMessage m now ∈ evs → fine (dispatch h m now).
Proof.
  intros Hev. rewrite /dispatch. destruct (_ || _) eqn:Hc; [done|]. apply orb_false_iff in Hc as [Hc%negb_false_iff%bool_decide_eq_true _].
  destruct (Z.ltb_spec (hd_maxAge h) (t_sub now (im_Sent m))) as [|Hage]; [apply fine_record|].
  destruct (_ && _ && _); [apply fine_record|]. apply safe_seq; [apply fine_act; intros e s; by case_bool_decide|]. intros fresh.
  destruct fresh; [cbn [negb]|done]. apply safe_seq; [apply fine_clock|]. intros start. apply safe_seq; [by apply fine_change|]. intros _.
  apply fine_route. rewrite /new_item /item_ok /read_text. destruct (Parse (im_Text m)) as [rx e] eqn:Hp.
  destruct (withDefaultSL rx e _) as [rx' e'] eqn:Hd. split; [by split|]. split; [done|]. cbn [it_m it_rx it_rxErr]. by rewrite Hp Hd.
Qed.

(** ** Everything at once *)

Definition world_ok (w : rworld) : Prop := holds (rw_state w) ∧ Forall (λ th, fine th.2) (rw_threads w).

Lemma spawn_fine b p w : fine p → world_ok w → world_ok (spawn b p w).
Proof. intros Hp [Hs Ht]. split; [done|]. apply Forall_app. split; [done|by constructor]. Qed.

Lemma box_tasks_ok b s : holds s → Forall task_ok (box_tasks b s).
Proof.
  intros Hs. destruct b as [chat|tc]; simpl; [|by apply worker_of_ok].
  destruct (rs_chats s !! chat) eqn:Hc; simpl; [by apply (ho_chats s Hs chat)|constructor].
Qed.

Lemma set_box_ok b ts s : Forall task_ok ts → holds s → holds (set_box b ts s).
Proof.
  intros Hts Hs. destruct b as [chat|tc]; simpl.
  - destruct Hs as [H1 H2 H3 H4 H5]. split; try done. simpl. by apply map_Forall_insert_2.
  - destruct (worker_of_ok tc s Hs). by apply set_ctxWorker_ok.
Qed.

Lemma step_fine ev w : ev ∈ evs → world_ok w → world_ok (rworld_step h ev w).
Proof.
  intros Hev Hw. pose proof Hw as [Hs Ht]. destruct ev as [m now|b|i r|k event now|i e]; cbn [rworld_step].
  - apply spawn_fine; [by apply fine_dispatch|done].
  - pose proof (box_tasks_ok b _ Hs) as Hb. destruct (box_tasks b _) as [|t ts]; [done|]. inversion_clear Hb.
    destruct (existsb _ _); [done|]. apply spawn_fine; [by apply fine_run_task|]. split; [by apply set_box_ok|done].
  - destruct (rs_reads (rw_state w) !! i) as [rd|] eqn:Hi; [|done]. destruct Hs as [H1 H2 H3 H4 H5]. apply spawn_fine.
    + apply fine_read_callback; [|by exists i]. by apply (Forall_lookup_1 _ _ _ _ H4 Hi).
    + split; [|done]. split; try done. simpl. by apply Forall_delete.
  - split; [|done]. by eapply holds_same; [|exact Hs].
  - destruct (rw_threads w !! i) as [[b [u|B f k]]|] eqn:Hi; [| |done].
    + split; [done|]. by apply Forall_delete.
    + pose proof (Forall_lookup_1 _ _ _ _ Ht Hi e (rw_state w) Hs) as [Hs' Hk]. destruct (f e (rw_state w)) as [x s]. split; [done|].
      by apply Forall_insert.
Qed.

Lemma run_fine l : ∀ w, (∀ ev, ev ∈ l → ev ∈ evs) → world_ok w → world_ok (rworld_run h l w).
Proof.
  induction l as [|ev l IH]; intros w Hl Hw; [done|]. apply (IH (rworld_step h ev w)); [set_solver|]. apply step_fine; [set_solver|done].
Qed.

Lemma rstart_fine : world_ok rstart.
Proof. split; [|constructor]. split; try apply map_Forall_empty; constructor. Qed.
End published.

(** C31: over every interleaving of the router, a call is published only for a
    message received from a followed chat and not too old, and as one thing:
    with a model to ask, the complete reading of the pattern, at once
    (REGEX_FIRST), or, where the pattern reads no call, the complete reading
    of a traded index that the model answered and is sure of (LLM_ONLY); with
    no model, the pattern's (REGEX).  It carries its message's marks and can be
    traded.  No call goes out for a text that neither reads. *)
Theorem calls_published `{UT : UnicodeTables, LZ : LocalZone, GQ : GoQuote} h evs p :
  PubCall p ∈ rs_out (rw_state (rworld_run h evs rstart)) →
  ∃ m now c ms at_, received h evs m now ∧ call_of h evs (im_Text m) c ∧ p = delivered m now ms at_ c ∧ tradeable p.
Proof.
  intros Hp. destruct (run_fine h evs evs rstart (λ ev H, H) (rstart_fine h evs)) as [Hs _].
  assert (Ho := ho_out _ _ _ Hs). rewrite Forall_forall in Ho. destruct (Ho _ Hp) as (m & now & c & ms & at_ & Hm & Hc & ->).
  exists m, now, c, ms, at_. do 3 (split; [done|]). by eapply delivered_tradeable, call_of_tradeable.
Qed.

(** ** An example *)

Section example.
#[local] Instance demo_tables : UnicodeTables := {| unicode_letter := λ c, rune_between 65 90 c || rune_between 97 122 c; unicode_upper := λ r, r |}.
#[local] Instance demo_zone : LocalZone := λ _, 0.
#[local] Instance demo_quote : GoQuote := format_q.

Definition demo_handler : handler :=
  {| hd_chats := {[7]}; hd_maxAge := Minute; hd_slPct := 0; hd_sched := true; hd_journal := true |}.
Definition demo_msg (id : Z) (text : string) : inMsg :=
  {| im_ChatID := 7; im_MsgID := id; im_ReplyTo := 0; im_Text := text; im_Sent := 1000 * Second; im_Posted := zero_time; im_Edited := false |}.
Definition demo_env : env := {| ev_now := 1001 * Second; ev_err := None |}.
Definition steps (n : nat) : list revent := replicate n (RvStep 0 demo_env).
Definition sure : reading :=
  (zero_LLMResult <| lr_Kind := "new_call" |> <| lr_Underlying := "NIFTY" |> <| lr_Strike := 24500 |> <| lr_OptionType := "CE" |>
     <| lr_Trigger := "120" |> <| lr_SL := "100" |> <| lr_Confidence := "high" |>, None).

(** A call in words the pattern does not read, and one it reads. *)
Definition demo_events : list revent :=
  [RvMessage (demo_msg 1 "buy kar lo nifty 24500 call wala 120 ke upar stoploss 100") (1001 * Second)] ++ steps 10 ++
  [RvTask (ChatBox 7)] ++ steps 20 ++ [RvAnswer 0 sure] ++ steps 5 ++ [RvTask (ChatBox 7)] ++ steps 20 ++
  [RvMessage (demo_msg 2 "BUY NIFTY 24600 CE ABOVE 120 SL 100 TGT 150") (1001 * Second)] ++ steps 10 ++ [RvTask (ChatBox 7)] ++ steps 20.

Example demo_published :
  omap (λ p, match p with PubCall c => Some (tg_MsgID c, tg_Source c) | _ => None end)
    (rs_out (rw_state (rworld_run demo_handler demo_events rstart))) = [(1, "LLM_ONLY"%string); (2, "REGEX_FIRST"%string)].
Proof. vm_compute. done. Qed.

(** The first of them was read by the model alone. *)
Lemma calls_published_witness :
  ∃ p m now c, tg_Source p = "LLM_ONLY"%string ∧ tradeable p ∧ received demo_handler demo_events m now ∧
    call_of demo_handler demo_events (im_Text m) c ∧ tg_TriggerPaise p = 12000.
Proof.
  pose (out := rs_out (rw_state (rworld_run demo_handler demo_events rstart))).
  pose (p := match out with PubCall p :: _ => p | _ => zero_TGSignal end).
  destruct (calls_published demo_handler demo_events p) as (m & now & c & ms & at_ & Hm & Hc & _ & Ht).
  - assert (Hh : out !! 0%nat = Some (PubCall p)) by (vm_compute; reflexivity). exact (list_elem_of_lookup_2 _ _ _ Hh).
  - exists p, m, now, c. split; [vm_compute; reflexivity|]. split; [exact Ht|]. split; [exact Hm|]. split; [exact Hc|].
    vm_compute. reflexivity.
Defined.
End example.
