(* ===== verification/StrategyEngine.v ===== *)
(** The strategy engines (internal/strategy/engine.go): strategies get candles
    and ticks, their signals go into one channel, exits before entries.  An
    entry that finds the channel full is dropped, an exit waits and is
    reported when its wait runs out.

    The goroutines that emit (Run, RunTicks, callers of SendSignal) are
    numbered workers that interleave: one strategy's answer and one send are
    single steps, and the consumer may take a signal between any two.  How
    long an exit waits is not modelled: its time may run out at any step.
    The channel has a buffer (stratengine makes it for 1000 signals).

    The timeframe engine loses no signal silently: over any interleaving of
    its workers and its consumer every signal is sent, still to send, a
    dropped entry or a reported exit, in its worker's order; and strategies
    that keep their own invariant never bring it down. *)
From S2P Require Import Prelude Model Nifty50SrState Nifty50Sr Nifty50SrRuns TgSignal TgRuns.
#[local] Open Scope Z_scope.
#[local] Open Scope go_scope.

(** ** Strategies *)

(** The interface of one-second strategies. *)
Class Strategy (St : Type) := {
  strategy_Name : St → string;
  OnCandle : Candle → St → option (option Signal * St);
  strategy_OnTick : Tick → St → option St }.

(** The interface of timeframe strategies. *)
Class TFStrategy (St : Type) := {
  tf_Name : St → string;
  tf_OnTFCandle : TFCandle → St → option (option Signal * St);
  tf_OnTick : Tick → St → option (option Signal * St) }.

(** A strategy that keeps its own invariant never panics. *)
Class TFStrategyLaws (St : Type) `{TFStrategy St} := {
  tf_safe : St → Prop;
  tf_candle_safe c s : tf_safe s → ∃ sig s', tf_OnTFCandle c s = Some (sig, s') ∧ tf_safe s';
  tf_tick_safe t s : tf_safe s → ∃ sig s', tf_OnTick t s = Some (sig, s') ∧ tf_safe s' }.

#[export] Instance TelegramSignal_TFStrategy : TFStrategy TelegramSignal := {|
  tf_Name := ts_name;
  tf_OnTFCandle := λ c s, Some (tg_OnTFCandle c s, s);
  tf_OnTick := λ t s, let '(sig, _, s) := tg_OnTick t s in Some (sig, s) |}.

#[export] Instance Nifty50SR_TFStrategy `{MO : MapOrder} : TFStrategy Nifty50SR := {|
  tf_Name := λ s, sr_Name (sr_cfg s);
  tf_OnTFCandle := OnTFCandle;
  tf_OnTick := λ t s, Some (Nifty50Sr.OnTick t s) |}.

(** A registered strategy, whatever its state. *)
Record registered := Registered { reg_St : Type; reg_TF : TFStrategy reg_St; reg_state : reg_St }.

(** ** One-second strategies *)

Record reg1s := Reg1s { r1_St : Type; r1_S : Strategy r1_St; r1_state : r1_St }.
Record Engine := { en_strategies : list reg1s; en_signalCh : chan Signal }.

#[export] Instance Engine_settable : Settable Engine := λ e,
  {| en_strategies := en_strategies e; en_signalCh := en_signalCh e |}.

Definition NewEngine (size : nat) : Engine := {| en_strategies := []; en_signalCh := Chan size [] |}.
Definition Register (s : reg1s) (e : Engine) : Engine := e <| en_strategies := en_strategies e ++ [s] |>.

Definition send_or_drop (sig : Signal) (c : chan Signal) : chan Signal := default c (try_send c sig).

(** [Run], for one candle, with nothing taken meanwhile. *)
Fixpoint run_1s (c : Candle) (ss : list reg1s) (ch : chan Signal) : option (list reg1s * chan Signal) :=
  match ss with
  | [] => Some ([], ch)
  | s :: ss =>
      '(sig, st) ← OnCandle (Strategy := r1_S s) c (r1_state s);
      '(ss, ch) ← run_1s c ss (match sig with Some sig => send_or_drop sig ch | None => ch end);
      Some (Reg1s (r1_St s) (r1_S s) st :: ss, ch)
  end.

Definition engine_Run1 (c : Candle) (e : Engine) : option Engine :=
  '(ss, ch) ← run_1s c (en_strategies e) (en_signalCh e);
  Some {| en_strategies := ss; en_signalCh := ch |}.

(** ** Timeframe strategies *)

(** [sortSignals]: a stable sort. *)
Definition exit_rank (sig : Signal) : Z := if String.eqb (sig_Action sig) ActionExit then 0 else 1.
Definition sortSignals (batch : list Signal) : list Signal := foldr (sorted_insert exit_rank) [] batch.

Definition is_entry (sig : Signal) : bool := String.eqb (sig_Action sig) ActionBuy || String.eqb (sig_Action sig) ActionWatchBuy.

(** What a worker is given, and what it does with it: the strategy it asks
    next and the signals so far; or the signals still to send, the first of
    which may wait for room. *)
Inductive work := TFCandleIn (c : TFCandle) | TickIn (t : Tick) | SendIn (sig : Signal).
Inductive worker :=
  | Evaluating (w : work) (next : nat) (batch : list Signal)
  | Emitting (batch : list Signal) (waiting : bool).

Record TFEngine := {
  te_strategies : list registered; te_signalCh : chan Signal; te_dropped : Z; te_workers : gmap nat worker;
  (* what was emitted and sent, by which worker; what was dropped; what
     [OnExitDropped] was told; what the consumer took *)
  te_emitted : list (nat * Signal); te_sent : list (nat * Signal); te_refused : list (nat * Signal); te_exits_lost : list (nat * Signal);
  te_taken : list Signal }.

#[export] Instance TFEngine_settable : Settable TFEngine := λ e, {|
  te_strategies := te_strategies e; te_signalCh := te_signalCh e; te_dropped := te_dropped e; te_workers := te_workers e;
  te_emitted := te_emitted e; te_sent := te_sent e; te_refused := te_refused e; te_exits_lost := te_exits_lost e;
  te_taken := te_taken e |}.

Definition NewTFEngine (size : nat) : TFEngine := {|
  te_strategies := []; te_signalCh := Chan size []; te_dropped := 0; te_workers := ∅;
  te_emitted := []; te_sent := []; te_refused := []; te_exits_lost := []; te_taken := [] |}.

Definition tf_Register (s : registered) (e : TFEngine) : TFEngine := e <| te_strategies := te_strategies e ++ [s] |>.
Definition DroppedSignals (e : TFEngine) : Z := te_dropped e.

Definition set_worker (i : nat) (w : worker) (e : TFEngine) : TFEngine := e <| te_workers := <[i := w]> (te_workers e) |>.
Definition idle (i : nat) (e : TFEngine) : TFEngine := e <| te_workers := delete i (te_workers e) |>.

(** A worker takes something: a forming candle goes no further. *)
Definition start (w : work) : option worker :=
  match w with
  | TFCandleIn c => if tfc_Forming c then None else Some (Evaluating w 0 [])
  | TickIn _ => Some (Evaluating w 0 [])
  | SendIn sig => Some (Emitting [sig] false)
  end.

(** The time stamp_signal of a signal that has none. *)
Definition work_ts (w : work) : Time :=
  match w with
  | TFCandleIn c => t_add (tfc_TS c) (tfc_TF c *! Second)
  | TickIn t => CanonicalTS t
  | SendIn sig => sig_SignalTS sig
  end.
Definition stamp_signal (w : work) (sig : Signal) : Signal :=
  if t_is_zero (sig_SignalTS sig) then sig <| sig_SignalTS := work_ts w |> else sig.

Definition ask_strategy (w : work) (s : registered) : option (option Signal * registered) :=
  let back '(sig, st) := (sig, Registered (reg_St s) (reg_TF s) st) in
  match w with
  | TFCandleIn c => back <$> tf_OnTFCandle (TFStrategy := reg_TF s) c (reg_state s)
  | TickIn t => back <$> tf_OnTick (TFStrategy := reg_TF s) t (reg_state s)
  | SendIn _ => Some (None, s)
  end.

(** The next strategy's answer, or the batch sorted. *)
Definition evaluate_next (i : nat) (w : work) (next : nat) (batch : list Signal) (e : TFEngine) : option TFEngine :=
  match te_strategies e !! next with
  | Some s =>
      '(sig, s) ← ask_strategy w s;
      Some (set_worker i (Evaluating w (S next) (batch ++ option_list (stamp_signal w <$> sig)))
              (e <| te_strategies := <[next := s]> (te_strategies e) |>))
  | None =>
      match batch with
      | [] => Some (idle i e)
      | _ => Some (set_worker i (Emitting (sortSignals batch) false) e <| te_emitted := te_emitted e ++ (pair i <$> sortSignals batch) |>)
      end
  end.

Definition set_rest (i : nat) (rest : list Signal) (e : TFEngine) : TFEngine :=
  match rest with [] => idle i e | _ => set_worker i (Emitting rest false) e end.

(** [emit], up to the wait: sent, dropped, or waiting from now on. *)
Definition emit_step (i : nat) (sig : Signal) (rest : list Signal) (e : TFEngine) : TFEngine :=
  match try_send (te_signalCh e) sig with
  | Some ch => set_rest i rest (e <| te_signalCh := ch |> <| te_sent := te_sent e ++ [(i, sig)] |>)
  | None =>
      if is_entry sig then set_rest i rest (e <| te_dropped := te_dropped e +! 1 |> <| te_refused := te_refused e ++ [(i, sig)] |>)
      else set_worker i (Emitting (sig :: rest) true) e
  end.

(** The timer of a waiting exit fires. *)
Definition emit_timeout (i : nat) (sig : Signal) (rest : list Signal) (e : TFEngine) : TFEngine :=
  set_rest i rest (e <| te_dropped := te_dropped e +! 1 |> <| te_exits_lost := te_exits_lost e ++ [(i, sig)] |>).

Inductive te_op := Take | Start (i : nat) (w : work) | Work (i : nat) | Timeout (i : nat).

(** One step; [None] is a panic of a strategy.  A step that cannot be taken
    now changes nothing. *)
Definition te_step (o : te_op) (e : TFEngine) : option TFEngine :=
  match o with
  | Take =>
      match ch_buf (te_signalCh e) with
      | [] => Some e
      | sig :: buf => Some (e <| te_signalCh := Chan (ch_cap (te_signalCh e)) buf |> <| te_taken := te_taken e ++ [sig] |>)
      end
  | Start i w =>
      match te_workers e !! i, start w with
      | None, Some wk =>
          Some (set_worker i wk e <| te_emitted := te_emitted e ++ match wk with Emitting b _ => pair i <$> b | _ => [] end |>)
      | _, _ => Some e
      end
  | Work i =>
      match te_workers e !! i with
      | Some (Evaluating w next batch) => evaluate_next i w next batch e
      | Some (Emitting (sig :: rest) _) => Some (emit_step i sig rest e)
      | _ => Some e
      end
  | Timeout i =>
      match te_workers e !! i with
      | Some (Emitting (sig :: rest) true) => Some (emit_timeout i sig rest e)
      | _ => Some e
      end
  end.

Fixpoint te_run (ops : list te_op) (e : TFEngine) : option TFEngine :=
  match ops with [] => Some e | o :: ops => e ← te_step o e; te_run ops e end.

(** ** Batches *)

Definition is_exit (sig : Signal) : Prop := sig_Action sig = ActionExit.
#[export] Instance is_exit_dec sig : Decision (is_exit sig).
Proof. unfold is_exit. apply _. Defined.

Lemma exit_rank_exit sig : is_exit sig → exit_rank sig = 0.
Proof. unfold exit_rank. intros ->. done. Qed.
Lemma exit_rank_other sig : ¬ is_exit sig → exit_rank sig = 1.
Proof. unfold exit_rank, is_exit. intros H. by apply String.eqb_neq in H as ->. Qed.

Lemma sorted_insert_exit sig l : is_exit sig → sorted_insert exit_rank sig l = sig :: l.
Proof.
  intros Hx. destruct l as [|y l]; [done|]. cbn. rewrite (exit_rank_exit sig Hx). unfold exit_rank.
  by destruct (String.eqb _ _).
Qed.

Lemma sorted_insert_other sig l m :
  ¬ is_exit sig → Forall is_exit l → Forall (λ x, ¬ is_exit x) m → sorted_insert exit_rank sig (l ++ m) = l ++ sig :: m.
Proof.
  intros Hx Hl Hm. induction Hl as [|y l Hy Hl IH].
  - destruct Hm as [|y m Hy Hm]; [done|]. cbn. by rewrite !exit_rank_other by done.
  - cbn. rewrite (exit_rank_exit y), (exit_rank_other sig) by done. cbn. by f_equal.
Qed.

(** A batch of simultaneous signals leaves with its exits first, both
    parts in the order the strategies gave them. *)
Theorem exits_before_entries (batch : list Signal) :
  sortSignals batch = filter is_exit batch ++ filter (λ sig, ¬ is_exit sig) batch.
Proof.
  induction batch as [|sig batch IH]; [done|]. cbn [sortSignals foldr]. fold (sortSignals batch). rewrite IH, !filter_cons.
  destruct (decide (is_exit sig)) as [Hx|Hx].
  - rewrite decide_False by tauto. by apply sorted_insert_exit.
  - rewrite decide_True by done. apply sorted_insert_other; [done|apply Forall_forall..].
    + intros y Hy. by apply list_elem_of_filter in Hy as [Hy _].
    + intros y Hy. by apply list_elem_of_filter in Hy as [Hy _].
Qed.

(** ** Accounts *)

Definition by_worker (i : nat) (l : list (nat * Signal)) : list Signal := (filter (λ x, x.1 = i) l).*2.

Definition pending (i : nat) (e : TFEngine) : list Signal :=
  match te_workers e !! i with Some (Emitting batch _) => batch | _ => [] end.

Lemma by_worker_app i l m : by_worker i (l ++ m) = by_worker i l ++ by_worker i m.
Proof. unfold by_worker. by rewrite filter_app, fmap_app. Qed.

Lemma by_worker_batch i j batch : by_worker i (pair j <$> batch) = if decide (j = i) then batch else [].
Proof.
  unfold by_worker. induction batch as [|sig batch IH]; [by case_decide|]. rewrite fmap_cons, filter_cons. cbn [fst].
  case_decide; [rewrite fmap_cons; by f_equal|done].
Qed.

Lemma by_worker_one i j sig : by_worker i [(j, sig)] = if decide (j = i) then [sig] else [].
Proof. apply (by_worker_batch i j [sig]). Qed.

(** Where the signals of a worker are, in its order. *)
Definition worker_accounts (i : nat) (e : TFEngine) : Prop :=
  by_worker i (te_emitted e) ≡ₚ
    by_worker i (te_sent e) ++ by_worker i (te_refused e) ++ by_worker i (te_exits_lost e) ++ pending i e ∧
  by_worker i (te_sent e) ++ pending i e `sublist_of` by_worker i (te_emitted e).

Definition waits_rightly (w : worker) : Prop :=
  match w with Emitting (sig :: _) true => is_entry sig = false | _ => True end.

Lemma fresh_waits batch : waits_rightly (Emitting batch false).
Proof. by destruct batch. Qed.

Record te_ok (e : TFEngine) : Prop := {
  ok_workers : ∀ i, worker_accounts i e;
  ok_taken : (te_sent e).*2 = te_taken e ++ ch_buf (te_signalCh e);
  ok_room : (length (ch_buf (te_signalCh e)) <= ch_cap (te_signalCh e))%nat;
  ok_refused : Forall (λ x, is_entry x.2 = true) (te_refused e);
  ok_lost : Forall (λ x, is_entry x.2 = false) (te_exits_lost e);
  ok_dropped : te_dropped e = i64 (Z.of_nat (length (te_refused e) + length (te_exits_lost e)));
  ok_waiting : map_Forall (λ _, waits_rightly) (te_workers e) }.

Lemma pending_set i w e j :
  pending j (set_worker i w e) = if decide (i = j) then (match w with Emitting b _ => b | _ => [] end) else pending j e.
Proof. unfold pending. cbn. case_decide; [subst; by rewrite lookup_insert_eq|by rewrite lookup_insert_ne]. Qed.

Lemma pending_idle i e j : pending j (idle i e) = if decide (i = j) then [] else pending j e.
Proof. unfold pending. cbn. case_decide; [subst; by rewrite lookup_delete_eq|by rewrite lookup_delete_ne]. Qed.

Lemma pending_rest i rest e j : pending j (set_rest i rest e) = if decide (i = j) then rest else pending j e.
Proof. destruct rest; [apply pending_idle|apply pending_set]. Qed.

(** A batch emitted by worker [i], which had nothing to send. *)
Lemma accounts_emit i batch e e' :
  (∀ j, worker_accounts j e) → pending i e = [] →
  te_emitted e' = te_emitted e ++ (pair i <$> batch) → te_sent e' = te_sent e → te_refused e' = te_refused e →
  te_exits_lost e' = te_exits_lost e → (∀ j, pending j e' = if decide (i = j) then batch else pending j e) →
  ∀ j, worker_accounts j e'.
Proof.
  intros Hall Hi He Hs Hr Hx Hp j. destruct (Hall j) as [Hperm Hsub]. unfold worker_accounts.
  rewrite He, Hs, Hr, Hx, Hp, by_worker_app, by_worker_batch. destruct (decide (i = j)) as [<-|Hne].
  - rewrite Hi, !app_nil_r in *. split; [rewrite Hperm; by rewrite <-!app_assoc|by apply sublist_app].
  - by rewrite app_nil_r.
Qed.

(** The first of worker [i]'s signals sent, dropped or given up. *)
Lemma accounts_move i sig rest e e' :
  (∀ j, worker_accounts j e) → pending i e = sig :: rest →
  te_emitted e' = te_emitted e → (∀ j, pending j e' = if decide (i = j) then rest else pending j e) →
  (te_sent e' = te_sent e ++ [(i, sig)] ∧ te_refused e' = te_refused e ∧ te_exits_lost e' = te_exits_lost e ∨
   te_sent e' = te_sent e ∧ te_refused e' = te_refused e ++ [(i, sig)] ∧ te_exits_lost e' = te_exits_lost e ∨
   te_sent e' = te_sent e ∧ te_refused e' = te_refused e ∧ te_exits_lost e' = te_exits_lost e ++ [(i, sig)]) →
  ∀ j, worker_accounts j e'.
Proof.
  intros Hall Hi He Hp Hmove j. destruct (Hall j) as [Hperm Hsub]. unfold worker_accounts. rewrite He, Hp.
  assert (Hone := by_worker_one j i sig). destruct (decide (i = j)) as [<-|Hne].
  - rewrite Hi in *. destruct Hmove as [(-> & -> & ->)|[(-> & -> & ->)|(-> & -> & ->)]]; rewrite by_worker_app, Hone.
    all: split; [rewrite Hperm; solve_Permutation|].
    + by rewrite <-app_assoc.
    + etrans; [|exact Hsub]. apply sublist_app; [done|by apply sublist_cons].
    + etrans; [|exact Hsub]. apply sublist_app; [done|by apply sublist_cons].
  - destruct Hmove as [(-> & -> & ->)|[(-> & -> & ->)|(-> & -> & ->)]]; by rewrite by_worker_app, Hone, app_nil_r.
Qed.

(** Nothing to send before or after. *)
Lemma accounts_same e e' :
  (∀ j, worker_accounts j e) → te_emitted e' = te_emitted e → te_sent e' = te_sent e → te_refused e' = te_refused e →
  te_exits_lost e' = te_exits_lost e → (∀ j, pending j e' = pending j e) → ∀ j, worker_accounts j e'.
Proof. intros Hall He Hs Hr Hx Hp j. unfold worker_accounts. rewrite He, Hs, Hr, Hx, Hp. apply Hall. Qed.

Lemma set_rest_waiting i rest e :
  map_Forall (λ _, waits_rightly) (te_workers e) → map_Forall (λ _, waits_rightly) (te_workers (set_rest i rest e)).
Proof.
  intros Hw. destruct rest; cbn; [by apply map_Forall_delete|]. by apply map_Forall_insert_2.
Qed.

Lemma set_rest_fields i rest e : let e' := set_rest i rest e in
  te_emitted e' = te_emitted e ∧ te_sent e' = te_sent e ∧ te_refused e' = te_refused e ∧ te_exits_lost e' = te_exits_lost e ∧
  te_taken e' = te_taken e ∧ te_signalCh e' = te_signalCh e ∧ te_dropped e' = te_dropped e.
Proof. by destruct rest. Qed.

Lemma emit_step_ok i sig rest waiting e :
  te_ok e → te_workers e !! i = Some (Emitting (sig :: rest) waiting) → te_ok (emit_step i sig rest e).
Proof.
  intros [Hacc Htaken Hroom Href Hlost Hdrop Hwait] Hi.
  assert (Hpend : pending i e = sig :: rest) by (unfold pending; by rewrite Hi).
  unfold emit_step. destruct (try_send (te_signalCh e) sig) as [ch|] eqn:Hsend; [|destruct (is_entry sig) eqn:Hentry].
  - set (e1 := e <| te_signalCh := ch |> <| te_sent := _ |>). destruct (set_rest_fields i rest e1) as (Hem & Hs & Hr & Hx & Ht & Hc & Hd).
    destruct (try_send_spec _ _ _ Hsend) as [Hcap Hbuf].
    split; [|rewrite Hs, Ht, Hc|rewrite Hc|by rewrite Hr|by rewrite Hx|by rewrite Hd, Hr, Hx|by apply set_rest_waiting].
    + apply (accounts_move i sig rest e); [done|done|by rewrite Hem|intros j; by rewrite pending_rest|]. left. by rewrite Hs, Hr, Hx.
    + cbn. rewrite fmap_app, Htaken, Hbuf. cbn. by rewrite app_assoc.
    + cbn. revert Hsend. unfold try_send. case_decide; [|done]. intros [= <-]. cbn. rewrite length_app. cbn. lia.
  - set (e1 := e <| te_dropped := _ |> <| te_refused := _ |>). destruct (set_rest_fields i rest e1) as (Hem & Hs & Hr & Hx & Ht & Hc & Hd).
    split; [|by rewrite Hs, Ht, Hc|by rewrite Hc|rewrite Hr|by rewrite Hx|rewrite Hd, Hr, Hx|by apply set_rest_waiting].
    + apply (accounts_move i sig rest e); [done|done|by rewrite Hem|intros j; by rewrite pending_rest|]. right. left. by rewrite Hs, Hr, Hx.
    + cbn. apply Forall_app. split; [done|by repeat constructor].
    + cbn. rewrite Hdrop, i64_add_l. f_equal. rewrite length_app. cbn. lia.
  - split; try done.
    + apply (accounts_same e); try done. intros j. rewrite pending_set. case_decide; [|done]. by subst.
    + cbn. by apply map_Forall_insert_2.
Qed.

Lemma emit_timeout_ok i sig rest e :
  te_ok e → te_workers e !! i = Some (Emitting (sig :: rest) true) → te_ok (emit_timeout i sig rest e).
Proof.
  intros [Hacc Htaken Hroom Href Hlost Hdrop Hwait] Hi.
  assert (Hpend : pending i e = sig :: rest) by (unfold pending; by rewrite Hi).
  assert (Hentry : is_entry sig = false) by apply (Hwait i _ Hi). unfold emit_timeout.
  set (e1 := e <| te_dropped := _ |> <| te_exits_lost := _ |>). destruct (set_rest_fields i rest e1) as (Hem & Hs & Hr & Hx & Ht & Hc & Hd).
  split; [|by rewrite Hs, Ht, Hc|by rewrite Hc|by rewrite Hr|rewrite Hx|rewrite Hd, Hr, Hx|by apply set_rest_waiting].
  - apply (accounts_move i sig rest e); [done|done|by rewrite Hem|intros j; by rewrite pending_rest|]. right. right. by rewrite Hs, Hr, Hx.
  - cbn. apply Forall_app. split; [done|by repeat constructor].
  - cbn. rewrite Hdrop, i64_add_l. f_equal. rewrite length_app. cbn. lia.
Qed.

(** ** Strategies that keep their invariant *)

Definition reg_safe (s : registered) : Prop :=
  ∃ P : reg_St s → Prop, P (reg_state s) ∧
    (∀ c st, P st → ∃ sig st', tf_OnTFCandle (TFStrategy := reg_TF s) c st = Some (sig, st') ∧ P st') ∧
    (∀ t st, P st → ∃ sig st', tf_OnTick (TFStrategy := reg_TF s) t st = Some (sig, st') ∧ P st').

Lemma law_safe {St} `{L : TFStrategyLaws St} (s : St) : tf_safe s → reg_safe (Registered St _ s).
Proof. intros Hs. exists tf_safe. split; [done|]. split; [apply tf_candle_safe|apply tf_tick_safe]. Qed.

#[export] Program Instance TelegramSignal_laws : TFStrategyLaws TelegramSignal := {| tf_safe := λ _, True |}.
Next Obligation. by intros; eexists _, _. Qed.
Next Obligation. intros t s _. cbn. destruct (tg_OnTick t s) as [[sig notes] s']. by eexists _, _. Qed.

#[export] Program Instance Nifty50SR_laws `{MO : MapOrder} : TFStrategyLaws Nifty50SR := {| tf_safe := strat_ok |}.
Next Obligation. intros MO c s Hs. destruct (OnTFCandle_ok c s Hs) as (x & s' & He & Hst). exists x, s'. split; [done|]. apply Hst. Qed.
Next Obligation.
  intros MO t s Hs. cbn. destruct (OnTick t s) as [x s'] eqn:He. exists x, s'. split; [done|].
  by apply (st_ok _ _ _ (OnTick_ok t s x s' Hs He)).
Qed.

Lemma ask_safe w s : reg_safe s → ∃ sig s', ask_strategy w s = Some (sig, s') ∧ reg_safe s'.
Proof.
  intros (P & Hs & Hc & Ht). destruct w as [c|t|sig]; cbn [ask_strategy].
  - destruct (Hc c _ Hs) as (sig & st & -> & Hst). eexists _, _. split; [reflexivity|]. by exists P.
  - destruct (Ht t _ Hs) as (sig & st & -> & Hst). eexists _, _. split; [reflexivity|]. by exists P.
  - eexists _, _. split; [reflexivity|]. by exists P.
Qed.

(** ** Steps *)

Lemma evaluate_next_ok i w next batch e :
  te_ok e → Forall reg_safe (te_strategies e) → te_workers e !! i = Some (Evaluating w next batch) →
  ∃ e', evaluate_next i w next batch e = Some e' ∧ te_ok e' ∧ Forall reg_safe (te_strategies e').
Proof.
  intros [Hacc Htaken Hroom Href Hlost Hdrop Hwait] Hsafe Hi. assert (Hpend : pending i e = []) by (unfold pending; by rewrite Hi).
  unfold evaluate_next. destruct (te_strategies e !! next) as [s|] eqn:Hs.
  - destruct (ask_safe w s) as (sig & s' & -> & Hs'); [by eapply Forall_lookup_1|]. eexists. split; [reflexivity|]. split.
    + split; try done; [|cbn; by apply map_Forall_insert_2]. apply (accounts_same e); try done. intros j. rewrite pending_set.
      case_decide; [by subst|done].
    + cbn. by apply Forall_insert.
  - destruct batch as [|x batch]; eexists; (split; [reflexivity|]; split; [|done]).
    + split; try done; [|cbn; by apply map_Forall_delete]. apply (accounts_same e); try done. intros j. rewrite pending_idle.
      case_decide; [by subst|done].
    + split; try done; [|cbn; apply map_Forall_insert_2; [apply fresh_waits|done]].
      apply (accounts_emit i (sortSignals (x :: batch)) e); try done. intros j. by apply (pending_set i).
Qed.

Lemma start_ok i w wk e :
  te_ok e → te_workers e !! i = None → start w = Some wk →
  te_ok (set_worker i wk e <| te_emitted := te_emitted e ++ match wk with Emitting b _ => pair i <$> b | _ => [] end |>).
Proof.
  intros [Hacc Htaken Hroom Href Hlost Hdrop Hwait] Hi Hst. assert (Hpend : pending i e = []) by (unfold pending; by rewrite Hi).
  assert (Hwk : wk = Emitting (match wk with Emitting b _ => b | _ => [] end) false ∨ ∃ w, wk = Evaluating w 0 []).
  { destruct w as [c|t|sig]; cbn in Hst; [destruct (tfc_Forming c); [done|]|..]; injection Hst as <-; [right|right|left]; by eauto. }
  split; try done; [|cbn; apply map_Forall_insert_2; [destruct Hwk as [->|[w' ->]]; [apply fresh_waits|done]|done]].
  apply (accounts_emit i (match wk with Emitting b _ => b | _ => [] end) e); try done; [by destruct wk|].
  intros j. etrans; [apply (pending_set i wk e)|]. by destruct wk.
Qed.

Lemma te_step_ok o e :
  te_ok e → Forall reg_safe (te_strategies e) →
  ∃ e', te_step o e = Some e' ∧ te_ok e' ∧ Forall reg_safe (te_strategies e').
Proof.
  intros Hok Hsafe. assert (Hstay : ∃ e', Some e = Some e' ∧ te_ok e' ∧ Forall reg_safe (te_strategies e')) by by exists e.
  assert (Hrest : ∀ i rest e0, te_strategies (set_rest i rest e0) = te_strategies e0) by (intros i rest e0; by destruct rest).
  destruct o as [|i w|i|i]; cbn [te_step].
  - destruct (ch_buf (te_signalCh e)) as [|sig buf] eqn:Hbuf; [done|]. eexists. split; [reflexivity|]. split; [|done].
    destruct Hok as [Hacc Htaken Hroom Href Hlost Hdrop Hwait]. split; try done.
    + cbn. rewrite Htaken, Hbuf. by rewrite <-app_assoc.
    + cbn. rewrite Hbuf in Hroom. cbn in Hroom. lia.
  - destruct (te_workers e !! i) eqn:Hi; [done|]. destruct (start w) as [wk|] eqn:Hst; [|done]. eexists. split; [reflexivity|].
    split; [by eapply start_ok|done].
  - destruct (te_workers e !! i) as [[w next batch|[|sig rest] waiting]|] eqn:Hi; [by apply evaluate_next_ok|done| |done].
    eexists. split; [reflexivity|]. split; [by eapply emit_step_ok|]. unfold emit_step.
    destruct (try_send _ _); [by rewrite Hrest|]. destruct (is_entry sig); [by rewrite Hrest|done].
  - destruct (te_workers e !! i) as [[|[|sig rest] [|]]|] eqn:Hi; try done. eexists. split; [reflexivity|].
    split; [by eapply emit_timeout_ok|]. unfold emit_timeout. by rewrite Hrest.
Qed.

Definition engine_of (size : nat) (ss : list registered) : TFEngine := foldl (λ e s, tf_Register s e) (NewTFEngine size) ss.

Lemma engine_of_spec size ss : te_strategies (engine_of size ss) = ss ∧ te_ok (engine_of size ss).
Proof.
  unfold engine_of. induction ss as [|s ss [IHs IHok]] using rev_ind.
  - split; [done|]. split; cbn; [|done|lia|constructor|constructor|done|apply map_Forall_empty].
    intros i. unfold worker_accounts, pending. cbn. by rewrite lookup_empty.
  - rewrite foldl_app. cbn. split; [by rewrite IHs|by destruct IHok].
Qed.

Lemma te_run_ok ops : ∀ e, te_ok e → Forall reg_safe (te_strategies e) → ∃ e', te_run ops e = Some e' ∧ te_ok e'.
Proof.
  induction ops as [|o ops IH]; intros e Hok Hsafe; [by exists e|]. cbn [te_run].
  destruct (te_step_ok o e Hok Hsafe) as (e1 & -> & Hok1 & Hsafe1). by apply IH.
Qed.

(** Whatever the interleaving of candles, ticks, sends, timeouts and the
    consumer, the engine runs on, and every signal a worker emitted is sent,
    a dropped entry, an exit reported as lost, or still its to send; what was
    sent, in its order; what the consumer took and what waits for it is what
    was sent; only entries are dropped, only exits reported, and the counter
    counts both. *)
Theorem engine_accounts_for_signals size ss ops :
  Forall reg_safe ss →
  ∃ e, te_run ops (engine_of size ss) = Some e ∧
    (∀ i, by_worker i (te_emitted e) ≡ₚ
            by_worker i (te_sent e) ++ by_worker i (te_refused e) ++ by_worker i (te_exits_lost e) ++ pending i e ∧
          by_worker i (te_sent e) ++ pending i e `sublist_of` by_worker i (te_emitted e)) ∧
    (te_sent e).*2 = te_taken e ++ ch_buf (te_signalCh e) ∧
    (length (ch_buf (te_signalCh e)) <= ch_cap (te_signalCh e))%nat ∧
    Forall (λ x, is_entry x.2 = true) (te_refused e) ∧ Forall (λ x, is_entry x.2 = false) (te_exits_lost e) ∧
    DroppedSignals e = i64 (Z.of_nat (length (te_refused e) + length (te_exits_lost e))).
Proof.
  intros Hsafe. destruct (engine_of_spec size ss) as [Hss Hok].
  destruct (te_run_ok ops (engine_of size ss) Hok) as (e & He & [Hacc Htaken Hroom Href Hlost Hdrop _]); [by rewrite Hss|].
  by exists e.
Qed.

(** Both strategies of the repository: the telegram strategy's BUY fills a
    channel of one, the next entry is dropped, its exit waits for room. *)
Definition demo_engine : list registered :=
  [Registered Nifty50SR (Nifty50SR_TFStrategy (MO := canonical_order)) (NewNifty50SR 75 quick_cfg);
   Registered TelegramSignal _ (tg_Arm (demo_arm 1 "900" Hour) (NewTelegramSignal "" 1 (demo_config false))).2].

Definition demo_entry : Signal := zero_Signal <| sig_Action := ActionBuy |> <| sig_SignalTS := 1 |>.

Definition demo_steps : list te_op :=
  let tick price at_ := [Start 1 (TickIn (demo_tick price at_)); Work 1; Work 1; Work 1; Work 1] in
  tick 13100 (Hour + Second) ++ [Start 2 (SendIn demo_entry); Work 2] ++ tick 11900 (Hour + 2 * Second) ++ [Take; Work 1].

Lemma engine_accounts_for_signals_witness :
  ∃ e, te_run demo_steps (engine_of 1 demo_engine) = Some e ∧
    map (λ x, (x.1, sig_Action x.2)) (te_sent e) = [(1%nat, ActionBuy); (1%nat, ActionExit)] ∧
    map snd (te_refused e) = [demo_entry] ∧ (te_sent e).*2 = te_taken e ++ ch_buf (te_signalCh e) ∧
    Forall (λ x, is_entry x.2 = true) (te_refused e).
Proof.
  destruct (engine_accounts_for_signals 1 demo_engine demo_steps) as (e & He & _ & Htaken & _ & Href & _).
  - constructor; [|constructor; [|constructor]].
    + apply (law_safe (L := Nifty50SR_laws (MO := canonical_order)) (NewNifty50SR 75 quick_cfg)). apply new_strat_ok, quick_cfg_ok.
    + by apply (law_safe (L := TelegramSignal_laws)).
  - exists e. split; [exact He|]. split; [|split; [|split; [exact Htaken|exact Href]]].
    + pose (r := te_run demo_steps (engine_of 1 demo_engine)).
      assert (Hr : (λ e, map (λ x, (x.1, sig_Action x.2)) (te_sent e)) <$> r = Some [(1%nat, ActionBuy); (1%nat, ActionExit)])
        by (vm_compute; reflexivity).
      change (r = Some e) in He. clearbody r. rewrite He in Hr. injection Hr as Hr. exact Hr.
    + pose (r := te_run demo_steps (engine_of 1 demo_engine)).
      assert (Hr : (λ e, map snd (te_refused e)) <$> r = Some [demo_entry]) by (vm_compute; reflexivity).
      change (r = Some e) in He. clearbody r. rewrite He in Hr. injection Hr as Hr. exact Hr.
Defined.
