(* ===== verification/OptionMath.v ===== *)
(** Black-Scholes prices and greeks, and the implied volatility by bisection
    (internal/optionmath/bs.go).  [math.Exp], [math.Log] and [math.Erfc] are
    parameters, so what is proved holds for any of them. *)
From Stdlib Require Import SpecFloat.
From S2P Require Import Prelude Float64 MarketHours.
#[local] Open Scope Z_scope.
#[local] Open Scope go_scope.

(** [math.Sqrt2] and [math.Pi], rounded. *)
Definition math_Sqrt2 : float64 := S754_finite false 6369051672525773 (-52).
Definition math_2Pi : float64 := S754_finite false 7074237752028440 (-50).

(** [Duration.Hours]. *)
Definition d_hours (d : Duration) : float64 := #(Z.quot d Hour) ⊕ #(Z.rem d Hour) ⊘ #(3600 * 1000000000).

Record Greeks := { gr_Delta : float64; gr_Gamma : float64; gr_Theta : float64; gr_Vega : float64 }.

(** [YearsTo]: to 15:30 IST of the expiry's day. *)
Definition YearsTo (expiry now : Time) : float64 :=
  let d := t_sub (ist_date (ist_day expiry) 15 30) now in
  if d <=? 0 then f64_zero else d_hours d ⊘ #(365 * 24).

Section black_scholes.
Context `{ME : MathExp} `{ML : MathLog} `{MC : MathErfc}.

Definition normCDF (x : float64) : float64 := f64_frac 1 2 ⊗ math_erfc (f64_neg x ⊘ math_Sqrt2).
Definition normPDF (x : float64) : float64 := math_exp (f64_neg x ⊗ x ⊘ #2) ⊘ f64_sqrt math_2Pi.

(** The two arguments of the normal distribution. *)
Definition d1_d2 (spot strike years iv rate : float64) : float64 * float64 :=
  let sq := iv ⊗ f64_sqrt years in
  let d1 := (math_log (spot ⊘ strike) ⊕ (rate ⊕ iv ⊗ iv ⊘ #2) ⊗ years) ⊘ sq in
  (d1, d1 ⊖ sq).

Definition expired_or_flat (years iv : float64) : bool := f64_leb years f64_zero || f64_leb iv f64_zero.

Definition Price (spot strike years iv rate : float64) (call : bool) : float64 :=
  if expired_or_flat years iv then
    if call then f64_max (spot ⊖ strike) f64_zero else f64_max (strike ⊖ spot) f64_zero
  else
    let '(d1, d2) := d1_d2 spot strike years iv rate in
    let disc := math_exp (f64_neg rate ⊗ years) in
    if call then spot ⊗ normCDF d1 ⊖ strike ⊗ disc ⊗ normCDF d2
    else strike ⊗ disc ⊗ normCDF (f64_neg d2) ⊖ spot ⊗ normCDF (f64_neg d1).

Definition GreeksAt (spot strike years iv rate : float64) (call : bool) : Greeks :=
  if expired_or_flat years iv then
    let itm := if call then strike <. spot else spot <. strike in
    let d := if itm then #1 else f64_zero in
    {| gr_Delta := if call then d else f64_neg d; gr_Gamma := f64_zero; gr_Theta := f64_zero; gr_Vega := f64_zero |}
  else
    let sqT := f64_sqrt years in
    let sq := iv ⊗ sqT in
    let '(d1, d2) := d1_d2 spot strike years iv rate in
    let pdf := normPDF d1 in
    let disc := strike ⊗ math_exp (f64_neg rate ⊗ years) in
    let decay := f64_neg spot ⊗ pdf ⊗ iv ⊘ (#2 ⊗ sqT) in
    {| gr_Delta := if call then normCDF d1 else normCDF d1 ⊖ #1;
       gr_Gamma := pdf ⊘ (spot ⊗ sq);
       gr_Theta := (if call then decay ⊖ rate ⊗ disc ⊗ normCDF d2 else decay ⊕ rate ⊗ disc ⊗ normCDF (f64_neg d2)) ⊘ #365;
       gr_Vega := spot ⊗ pdf ⊗ sqT ⊘ #100 |}.

(** ** Implied volatility *)

Definition iv_lo0 : float64 := f64_frac 1 1000.
Definition iv_hi0 : float64 := #5.
Definition iv_width : float64 := f64_frac 1 10000000.

Definition iv_price (spot strike years rate : float64) (call : bool) (iv : float64) : float64 := Price spot strike years iv rate call.

(** The bisection, for at most [n] rounds, of a price as a function of iv. *)
Fixpoint bisect (f : float64 → float64) (price : float64) (n : nat) (lo hi : float64) : float64 * float64 :=
  match n with
  | O => (lo, hi)
  | S n =>
      if iv_width <. hi ⊖ lo then
        let mid := (lo ⊕ hi) ⊘ #2 in
        if f mid <. price then bisect f price n mid hi else bisect f price n lo mid
      else (lo, hi)
  end.

Definition ImpliedVol (price spot strike years rate : float64) (call : bool) : option float64 :=
  let f := iv_price spot strike years rate call in
  if f64_leb price f64_zero || f64_leb spot f64_zero || f64_leb strike f64_zero || f64_leb years f64_zero then None
  else if (price <. f iv_lo0) || (f iv_hi0 <. price) then None
  else let '(lo, hi) := bisect f price 100 iv_lo0 iv_hi0 in Some ((lo ⊕ hi) ⊘ #2).

(** ** The bracket *)

(** The price is not below that of [lo], nor above that of [hi]. *)
Definition brackets (f : float64 → float64) (price lo hi : float64) : Prop := (price <. f lo) = false ∧ (f hi <. price) = false.

Lemma bisect_spec f price n : ∀ lo hi,
  brackets f price lo hi →
  let '(lo', hi') := bisect f price n lo hi in brackets f price lo' hi'.
Proof.
  induction n as [|n IH]; intros lo hi [Hlo Hhi]; [done|]. cbn [bisect].
  destruct (iv_width <. hi ⊖ lo); [|done]. destruct (f ((lo ⊕ hi) ⊘ #2) <. price) eqn:Hmid; apply IH; (split; [|done]).
  - by apply f64_ltb_asym.
  - done.
Qed.

(** An implied volatility is the middle of a bracket whose ends still
    straddle the price, for positive inputs that the range can price. *)
Theorem implied_vol_brackets price spot strike years rate call v :
  ImpliedVol price spot strike years rate call = Some v →
  let f := iv_price spot strike years rate call in
  ∃ lo hi, v = (lo ⊕ hi) ⊘ #2 ∧ brackets f price lo hi ∧ brackets f price iv_lo0 iv_hi0 ∧
    Forall (λ x, f64_leb x f64_zero = false) [price; spot; strike; years].
Proof.
  unfold ImpliedVol. cbv zeta. set (f := iv_price _ _ _ _ _). destruct (_ || f64_leb years _) eqn:Hpos; [done|].
  destruct (_ || (f iv_hi0 <. price)) eqn:Hr; [done|]. apply orb_false_iff in Hr as [Hlo Hhi].
  assert (Hb : brackets f price iv_lo0 iv_hi0) by (by split). bool_prop.
  pose proof (bisect_spec f price 100 _ _ Hb) as Hfin. destruct (bisect f price 100 iv_lo0 iv_hi0) as [lo hi]. intros [= <-].
  exists lo, hi. split; [done|]. split; [done|]. split; [done|]. by rewrite !Forall_cons, Forall_nil.
Qed.
End black_scholes.
