(* ===== verification/OptionPicker.v ===== *)
(** Choosing an option contract (internal/optionpicker): the chain kept by the
    background loader, the quotes of the feed, the universe of streamed
    contracts, the rules, and the picker over them.

    A day is its number, not its text.  The resolver, the broker's search and
    the chain loader are arguments; what the universe asks the feed to stream
    is part of its operations' results.  A lock held for a whole operation
    makes it one step; the search for a contract, which releases the lock while
    the broker answers, is two ([search_begin], [search_end]).

    What the option picker promises: the pick is tradable now, on the nearest
    allowed expiry, and no tradable contract there ranks above it; the universe
    asks for each contract once a session and loses none of its ladder. *)
From Stdlib Require Import SpecFloat.
From stdpp Require Import lexico.
From S2P Require Import Prelude Float64 GoText Model MarketHours OptionMath.
#[local] Open Scope Z_scope.
#[local] Open Scope go_scope.

(** ** Data (types.go) *)

Record Contract := {
  oc_Token : string; oc_Symbol : string; oc_Strike : Z; oc_Option : string; oc_Expiry : Time; oc_IV : float64; oc_Liquidity : float64 }.

#[export] Instance Contract_settable : Settable Contract := λ c, {|
  oc_Token := oc_Token c; oc_Symbol := oc_Symbol c; oc_Strike := oc_Strike c; oc_Option := oc_Option c; oc_Expiry := oc_Expiry c;
  oc_IV := oc_IV c; oc_Liquidity := oc_Liquidity c |}.

Record Quote := { oq_LTP : Z; oq_Bid : Z; oq_Ask : Z; oq_OI : Z; oq_At : Time }.

#[export] Instance Quote_settable : Settable Quote := λ q, {|
  oq_LTP := oq_LTP q; oq_Bid := oq_Bid q; oq_Ask := oq_Ask q; oq_OI := oq_OI q; oq_At := oq_At q |}.

Definition zero_Quote : Quote := {| oq_LTP := 0; oq_Bid := 0; oq_Ask := 0; oq_OI := 0; oq_At := zero_time |}.

Definition Mid (q : Quote) : Z :=
  if (oq_Bid q <=? 0) || (oq_Ask q <=? 0) then 0 else (oq_Bid q +! oq_Ask q) /! 2.

Record Rules := {
  ru_MaxSpreadPct : float64; ru_MaxQuoteAge : Duration; ru_MaxChainAge : Duration; ru_GammaDTE : Z; ru_MaxBuyIV : float64;
  ru_MinLiquidity : float64; ru_CostMultiple : Z; ru_RatePct : float64; ru_Rank : string; ru_HoldMinutes : float64 }.

Definition RankDelta : string := "delta".
Definition RankReturn : string := "return".

Record SingleIntent := {
  si_Strategy : string; si_Option : string; si_DeltaMin : float64; si_DeltaMax : float64; si_MinDTE : Z; si_TargetMove : Z;
  si_MaxThetaPct : float64; si_ThetaMaxGainPct : float64; si_MaxGamma : float64 }.

Record Pick := {
  pk_Contract : Contract; pk_Delta : float64; pk_Gamma : float64; pk_Theta : float64; pk_Vega : float64; pk_Quote : Quote;
  pk_DTE : Z; pk_Score : float64; pk_Waived : list string }.

#[export] Instance Pick_settable : Settable Pick := λ p, {|
  pk_Contract := pk_Contract p; pk_Delta := pk_Delta p; pk_Gamma := pk_Gamma p; pk_Theta := pk_Theta p; pk_Vega := pk_Vega p;
  pk_Quote := pk_Quote p; pk_DTE := pk_DTE p; pk_Score := pk_Score p; pk_Waived := pk_Waived p |}.

Definition Rejects := gmap string Z.
Definition count_reject (rule : string) (r : Rejects) : Rejects := <[rule := default 0 (r !! rule) +! 1]> r.
Definition reject_order : list string :=
  ["not streamed"; "quote stale"; "crossed"; "spread"; "no iv"; "delta"; "theta"; "gamma"; "iv"; "liquidity"; "cost"].
Definition Rejects_String (r : Rejects) : string :=
  let parts := omap (λ k, let n := default 0 (r !! k) in if 0 <? n then Some (k +:+ " " +:+ format_int n) else None) reject_order in
  match parts with [] => "none" | _ => str_join ", " parts end.

Record Refusal := { rf_Reason : string; rf_Rejects : Rejects }.

(** ** Selection (selector.go) *)

Record PickEnv := { pe_Spot : Z; pe_Now : Time; pe_ChainAt : Time; pe_Quote : string → option Quote }.

(** IST days between two instants. *)
Definition DaysBetween (now expiry : Time) : Z :=
  f64_to_int (d_hours (t_sub (ist_date (ist_day expiry) 0 0) (ist_date (ist_day now) 0 0)) ⊘ #24).

Definition truncate_second (d : Duration) : Duration := d -! d %! Second.

Definition checkEnv (r : Rules) (env : PickEnv) : option string :=
  if pe_Spot env <=? 0 then Some "no spot"
  else
    let age := t_sub (pe_Now env) (pe_ChainAt env) in
    if t_is_zero (pe_ChainAt env) || (ru_MaxChainAge r <? age) then
      Some ("greeks stale " +:+ format_duration (truncate_second age)) else None.

Definition min_days (minDTE : Z) : Z := if minDTE <? 1 then 1 else minDTE.

(** The nearest expiry at least so many days out; [None] is the zero time. *)
Definition pickExpiry (chain : list Contract) (opt : string) (now : Time) (minDTE : Z) : option Time :=
  foldl (λ best c,
    if negb (String.eqb (oc_Option c) opt) || t_is_zero (oc_Expiry c) || (DaysBetween now (oc_Expiry c) <? min_days minDTE) then best
    else match best with
         | None => Some (oc_Expiry c)
         | Some b => if t_before (oc_Expiry c) b then Some (oc_Expiry c) else best
         end) None chain.

Definition spreadOK (q : Quote) (r : Rules) : bool :=
  f64_leb (ru_MaxSpreadPct r) f64_zero || f64_leb (#(oq_Ask q -! oq_Bid q) ⊗ #100) (#(Mid q) ⊗ ru_MaxSpreadPct r).
Definition liquidityOK (p : Pick) (r : Rules) : bool :=
  f64_leb (ru_MinLiquidity r) f64_zero ||
  f64_leb (ru_MinLiquidity r) (f64_max #(oq_OI (pk_Quote p)) (oc_Liquidity (pk_Contract p))).

Definition tradingMinutesPerDay : Z := 375.

Definition thetaGainOK (p : Pick) (i : SingleIntent) (r : Rules) : bool :=
  if f64_leb (si_ThetaMaxGainPct i) f64_zero || f64_leb (ru_HoldMinutes r) f64_zero || (si_TargetMove i <=? 0) then true
  else
    let decay := f64_abs (pk_Theta p) ⊗ ru_HoldMinutes r ⊘ #tradingMinutesPerDay in
    let gain := f64_abs (pk_Delta p) ⊗ #(si_TargetMove i) ⊘ #100 in
    f64_leb (decay ⊗ #100) (gain ⊗ si_ThetaMaxGainPct i).

(** The rules a tradable pick breaks. *)
Definition buyFailures (p : Pick) (i : SingleIntent) (r : Rules) : list string :=
  let d := f64_abs (pk_Delta p) in
  let q := pk_Quote p in
  let premium := #(Mid q) ⊘ #100 in
  (if negb (spreadOK q r) then ["spread"] else []) ++
  (if (d <. si_DeltaMin i) || (si_DeltaMax i <. d) then ["delta"] else []) ++
  (if ((f64_zero <. si_MaxThetaPct i) && (premium ⊗ si_MaxThetaPct i <. f64_abs (pk_Theta p) ⊗ #100)) || negb (thetaGainOK p i r)
   then ["theta"] else []) ++
  (if (f64_zero <. si_MaxGamma i) && (pk_DTE p <=? ru_GammaDTE r) && (si_MaxGamma i <. pk_Gamma p) then ["gamma"] else []) ++
  (if (f64_zero <. ru_MaxBuyIV r) && (ru_MaxBuyIV r <. oc_IV (pk_Contract p)) then ["iv"] else []) ++
  (if negb (liquidityOK p r) then ["liquidity"] else []) ++
  (if (0 <? ru_CostMultiple r) && (0 <? si_TargetMove i) &&
      (si_TargetMove i *! f64_to_int (f64_round (d ⊗ #1000)) /! 1000 <? ru_CostMultiple r *! (oq_Ask q -! oq_Bid q))
   then ["cost"] else []).

(** The expected return on the premium for an index move. *)
Definition expectedReturn (p : Pick) (move : Z) (holdMin : float64) : float64 :=
  let q := pk_Quote p in
  let ask := #(oq_Ask q) ⊘ #100 in
  if (move <=? 0) || f64_leb ask f64_zero then f64_zero
  else
    let m := #move ⊘ #100 in
    let gain := f64_abs (pk_Delta p) ⊗ m ⊕ f64_frac 1 2 ⊗ pk_Gamma p ⊗ m ⊗ m
                ⊖ f64_abs (pk_Theta p) ⊗ holdMin ⊘ #tradingMinutesPerDay ⊖ #(oq_Ask q -! oq_Bid q) ⊘ #100 in
    gain ⊘ ask.

(** How far |delta| is outside the band, and from its middle. *)
Definition outside_band (i : SingleIntent) (p : Pick) : float64 :=
  let d := f64_abs (pk_Delta p) in f64_max f64_zero (f64_max (si_DeltaMin i ⊖ d) (d ⊖ si_DeltaMax i)).
Definition from_middle (i : SingleIntent) (p : Pick) : float64 :=
  f64_abs (f64_abs (pk_Delta p) ⊖ (si_DeltaMin i ⊕ si_DeltaMax i) ⊘ #2).
Definition spread (p : Pick) : Z := oq_Ask (pk_Quote p) -! oq_Bid (pk_Quote p).

Definition betterBuy (p best : Pick) (i : SingleIntent) (r : Rules) : bool :=
  let np := Z.of_nat (length (pk_Waived p)) in
  let nb := Z.of_nat (length (pk_Waived best)) in
  if negb (np =? nb) then np <? nb
  else if negb (f64_eqb (outside_band i p) (outside_band i best)) then outside_band i p <. outside_band i best
  else if String.eqb (ru_Rank r) RankReturn && (0 <? si_TargetMove i) && negb (f64_eqb (pk_Score p) (pk_Score best))
  then pk_Score best <. pk_Score p
  else
    (from_middle i p <. from_middle i best) ||
    (f64_eqb (from_middle i p) (from_middle i best) && (spread p <? spread best)).

Section selector.
Context `{ME : MathExp} `{ML : MathLog} `{MC : MathErfc}.

(** A tradable pick, or the rule the contract failed. *)
Definition baseCheck (c : Contract) (dte : Z) (r : Rules) (env : PickEnv) : string + Pick :=
  if String.eqb (oc_Token c) "" then inl "not streamed"
  else
    match pe_Quote env (oc_Token c) with
    | None => inl "quote stale"
    | Some q =>
        if (oq_Bid q <=? 0) || (oq_Ask q <=? 0) || (ru_MaxQuoteAge r <? t_sub (pe_Now env) (oq_At q)) then inl "quote stale"
        else if oq_Ask q <? oq_Bid q then inl "crossed"
        else if f64_leb (oc_IV c) f64_zero then inl "no iv"
        else
          let g := GreeksAt (#(pe_Spot env) ⊘ #100) #(oc_Strike c) (YearsTo (oc_Expiry c) (pe_Now env)) (oc_IV c ⊘ #100)
                     (ru_RatePct r ⊘ #100) (String.eqb (oc_Option c) "CE") in
          inr {| pk_Contract := c; pk_Delta := gr_Delta g; pk_Gamma := gr_Gamma g; pk_Theta := gr_Theta g; pk_Vega := gr_Vega g;
                 pk_Quote := q; pk_DTE := dte; pk_Score := f64_zero; pk_Waived := [] |}
    end.

(** A tradable contract with the rules it breaks and its score. *)
Definition candidate (c : Contract) (dte : Z) (i : SingleIntent) (r : Rules) (env : PickEnv) : string + Pick :=
  match baseCheck c dte r env with
  | inl failed => inl failed
  | inr p =>
      let p := p <| pk_Waived := buyFailures p i r |> in
      inr (p <| pk_Score := expectedReturn p (si_TargetMove i) (ru_HoldMinutes r) |>)
  end.

Definition at_expiry (i : SingleIntent) (now expiry : Time) (c : Contract) : bool :=
  String.eqb (oc_Option c) (si_Option i) && (DaysBetween now (oc_Expiry c) =? DaysBetween now expiry) && (oc_Expiry c =? expiry).

(** One contract of the chain. *)
Definition consider (i : SingleIntent) (r : Rules) (env : PickEnv) (expiry : Time) (acc : Rejects * option Pick) (c : Contract) :
    Rejects * option Pick :=
  let '(rej, best) := acc in
  if negb (at_expiry i (pe_Now env) expiry c) then acc
  else
    match candidate c (DaysBetween (pe_Now env) expiry) i r env with
    | inl failed => (count_reject failed rej, best)
    | inr p =>
        (foldl (λ rej f, count_reject f rej) rej (pk_Waived p),
         match best with
         | None => Some p
         | Some b => if betterBuy p b i r then Some p else best
         end)
    end.

Definition SelectSingle (chain : list Contract) (i : SingleIntent) (r : Rules) (env : PickEnv) : Rejects * (Refusal + Pick) :=
  match checkEnv r env with
  | Some reason => (∅, inl {| rf_Reason := reason; rf_Rejects := ∅ |})
  | None =>
      match pickExpiry chain (si_Option i) (pe_Now env) (si_MinDTE i) with
      | None =>
          (∅, inl {| rf_Reason := "no " +:+ si_Option i +:+ " expiry " +:+ format_int (min_days (si_MinDTE i)) +:+ "+ days out";
                     rf_Rejects := ∅ |})
      | Some expiry =>
          let '(rej, best) := foldl (consider i r env expiry) (∅, None) chain in
          (rej,
           match best with
           | Some p => inr p
           | None =>
               inl {| rf_Reason := "no " +:+ si_Option i +:+ " tradable (dte " +:+ format_int (DaysBetween (pe_Now env) expiry) +:+
                                   "; rejected " +:+ Rejects_String rej +:+ ")";
                      rf_Rejects := rej |}
           end)
      end
  end.
End selector.

(** ** The chain (chaincache.go) *)

Record ChainCache := {
  cc_every : Duration; cc_backoff : Duration; cc_contracts : list Contract; cc_at : Time; cc_lastErr : option string }.

#[export] Instance ChainCache_settable : Settable ChainCache := λ c, {|
  cc_every := cc_every c; cc_backoff := cc_backoff c; cc_contracts := cc_contracts c; cc_at := cc_at c; cc_lastErr := cc_lastErr c |}.

Definition NewChainCache (every backoff : Duration) : ChainCache := {|
  cc_every := every; cc_backoff := backoff; cc_contracts := []; cc_at := zero_time; cc_lastErr := None |}.

(** [Refresh] with what the source loaded, or its error: the wait until the
    next one. *)
Definition chain_Refresh (now : Time) (loaded : string + list Contract) (c : ChainCache) : Duration * ChainCache :=
  match loaded with
  | inl err => (if contains "exceeding access rate" err then cc_backoff c else cc_every c, c <| cc_lastErr := Some err |>)
  | inr out => (cc_every c, c <| cc_contracts := out |> <| cc_at := now |> <| cc_lastErr := None |>)
  end.

Definition chain_Snapshot (c : ChainCache) : list Contract * Time := (cc_contracts c, cc_at c).
Definition LastError (c : ChainCache) : option string := cc_lastErr c.

(** One round of [Run]: the next wait. *)
Definition chain_round (now : Time) (active : bool) (loaded : string + list Contract) (c : ChainCache) : Duration * ChainCache :=
  if negb active then (cc_every c, c) else chain_Refresh now loaded c.

(** ** Quotes (quotebook.go) *)

Record QuoteBook := { qb_maxAge : Duration; qb_q : gmap string Quote }.
#[export] Instance QuoteBook_settable : Settable QuoteBook := λ b, {| qb_maxAge := qb_maxAge b; qb_q := qb_q b |}.

Definition NewQuoteBook (maxAge : Duration) : QuoteBook := {| qb_maxAge := maxAge; qb_q := ∅ |}.

Definition quote_Update (t : Tick) (b : QuoteBook) : QuoteBook :=
  let q := default zero_Quote (qb_q b !! tick_Token t) in
  let q := if 0 <? tick_Price t then q <| oq_LTP := tick_Price t |> else q in
  let q := if t_is_zero (tick_QuoteTS t) then q
           else q <| oq_Bid := tick_BestBid t |> <| oq_Ask := tick_BestAsk t |> <| oq_At := tick_QuoteTS t |> in
  let q := if 0 <? tick_OI t then q <| oq_OI := tick_OI t |> else q in
  b <| qb_q := <[tick_Token t := q]> (qb_q b) |>.

Definition quote_Get (b : QuoteBook) (token : string) : option Quote := qb_q b !! token.

(** A fresh quote with both sides, not crossed: bid and ask. *)
Definition BidAsk (token : string) (now : Time) (b : QuoteBook) : option (Z * Z) :=
  q ← quote_Get b token;
  if (oq_Bid q <=? 0) || (oq_Ask q <=? 0) || (oq_Ask q <? oq_Bid q) || (qb_maxAge b <? t_sub now (oq_At q)) then None
  else Some (oq_Bid q, oq_Ask q).

(** ** The universe of streamed contracts (universe.go) *)

(** An expiry's day, a strike and an option type; a token and a symbol. *)
Definition ukey : Type := Z * Z * string.
Definition uval : Type := string * string.

Record Universe := {
  un_strikes : Z; un_step : Z; un_tokens : gmap ukey uval; un_subscribed : gset string; un_atm : Z; un_expKey : list Z;
  un_pending : list ukey; un_pendingSet : gset ukey; un_expiries : gmap Z Time; un_curDays : gset Z }.

#[export] Instance Universe_settable : Settable Universe := λ u, {|
  un_strikes := un_strikes u; un_step := un_step u; un_tokens := un_tokens u; un_subscribed := un_subscribed u; un_atm := un_atm u;
  un_expKey := un_expKey u; un_pending := un_pending u; un_pendingSet := un_pendingSet u; un_expiries := un_expiries u;
  un_curDays := un_curDays u |}.

Definition NewUniverse (strikes step : Z) : Universe := {|
  un_strikes := strikes; un_step := step; un_tokens := ∅; un_subscribed := ∅; un_atm := 0; un_expKey := []; un_pending := [];
  un_pendingSet := ∅; un_expiries := ∅; un_curDays := ∅ |}.

Definition universe_NewSession (u : Universe) : Universe :=
  u <| un_subscribed := ∅ |> <| un_pending := [] |> <| un_pendingSet := ∅ |> <| un_atm := 0 |> <| un_expKey := [] |>.

Definition abs64 (x : Z) : Z := if x <? 0 then -! x else x.

(** The strike nearest the spot. *)
Definition atm_strike (spot step : Z) : Z := (spot /! 100 +! step /! 2) /! step *! step.

(** The ladder: every expiry, the strikes around the money, both options. *)
Definition ladder (atm step strikes : Z) (expiries : list Time) : list (Time * ukey) :=
  e ← expiries; i ← seqZ (- strikes) (2 * strikes + 1); opt ← ["CE"; "PE"];
  [(e, (ist_day e, atm +! i *! step, opt))].

Section resolver.
(** The offline resolver: token and symbol. *)
Variable Lookup : Time → Z → string → option uval.

(** One contract of the ladder: [fresh] are the tokens to subscribe. *)
Definition want (acc : Universe * list string) (ek : Time * ukey) : Universe * list string :=
  let '(u, fresh) := acc in
  let '(e, k) := ek in
  match match un_tokens u !! k with Some v => Some v | None => Lookup e k.1.2 k.2 end with
  | None =>
      (if bool_decide (k ∈ un_pendingSet u) then u
       else u <| un_pendingSet := {[k]} ∪ un_pendingSet u |> <| un_pending := un_pending u ++ [k] |>, fresh)
  | Some v =>
      let u := u <| un_tokens := <[k := v]> (un_tokens u) |> in
      if bool_decide (v.1 ∈ un_subscribed u) then (u, fresh)
      else (u <| un_subscribed := {[v.1]} ∪ un_subscribed u |>, fresh ++ [v.1])
  end.

(** [Refresh]: the tokens it subscribes.  [None]: the step is zero. *)
Definition universe_Refresh (spot : Z) (expiries : list Time) (u : Universe) : option (list string * Universe) :=
  if (spot <=? 0) || bool_decide (expiries = []) then Some ([], u)
  else if un_step u =? 0 then None
  else
    let atm := atm_strike spot (un_step u) in
    let days := foldr (sorted_insert id) [] (ist_day <$> expiries) in
    let moved := (un_atm u =? 0) || (2 *! un_step u <=? abs64 (atm -! un_atm u)) in
    if negb moved && bool_decide (days = un_expKey u) then Some ([], u)
    else
      let u := u <| un_atm := atm |> <| un_expKey := days |> <| un_curDays := list_to_set days |>
                 <| un_expiries := foldl (λ m e, <[ist_day e := e]> m) (un_expiries u) expiries |> in
      let '(u, fresh) := foldl want (u, []) (ladder atm (un_step u) (un_strikes u) expiries) in
      Some (fresh, u).
End resolver.

Definition universe_Token (expiry : Time) (strike : Z) (opt : string) (u : Universe) : option uval :=
  un_tokens u !! (ist_day expiry, strike, opt).
Definition universe_Size (u : Universe) : Z := Z.of_nat (size (un_subscribed u)).

(** One tick of [RunSearch], up to the broker's search: the contract to
    search, with its expiry. *)
Definition search_begin (u : Universe) : option (ukey * Time) * Universe :=
  match un_pending u with
  | [] => (None, u)
  | k :: pending =>
      let u := u <| un_pending := pending |> <| un_pendingSet := un_pendingSet u ∖ {[k]} |> in
      let stale := (un_strikes u *! un_step u <? abs64 (k.1.2 -! un_atm u)) || bool_decide (k.1.1 ∉ un_curDays u) in
      (if stale then None else Some (k, default zero_time (un_expiries u !! k.1.1)), u)
  end.

(** And with the broker's answer: the tokens it subscribes. *)
Definition search_end (k : ukey) (found : option uval) (u : Universe) : list string * Universe :=
  match found with
  | None => ([], u)
  | Some v =>
      (if bool_decide (v.1 ∈ un_subscribed u) then [] else [v.1],
       u <| un_tokens := <[k := v]> (un_tokens u) |> <| un_subscribed := {[v.1]} ∪ un_subscribed u |>)
  end.

(** ** The picker (picker.go) *)

Definition NiftySpotToken : string := "99926000".

Record PickerConfig := {
  pf_SpotToken : string; pf_Rules : Rules; pf_LadderStrikes : Z; pf_StrikeStep : Z; pf_ChainEvery : Duration; pf_ChainBackoff : Duration;
  pf_SearchEvery : Duration }.

Record Picker := {
  pc_cfg : PickerConfig; pc_chain : ChainCache; pc_quotes : QuoteBook; pc_univ : Universe; pc_spot : Z; pc_lastDay : option Z }.

#[export] Instance Picker_settable : Settable Picker := λ p, {|
  pc_cfg := pc_cfg p; pc_chain := pc_chain p; pc_quotes := pc_quotes p; pc_univ := pc_univ p; pc_spot := pc_spot p;
  pc_lastDay := pc_lastDay p |}.

Definition NewPicker (cfg : PickerConfig) : Picker := {|
  pc_cfg := cfg; pc_chain := NewChainCache (pf_ChainEvery cfg) (pf_ChainBackoff cfg); pc_quotes := NewQuoteBook (ru_MaxQuoteAge (pf_Rules cfg));
  pc_univ := NewUniverse (pf_LadderStrikes cfg) (pf_StrikeStep cfg); pc_spot := 0; pc_lastDay := None |}.

Definition spotToken (p : Picker) : string :=
  if String.eqb (pf_SpotToken (pc_cfg p)) "" then NiftySpotToken else pf_SpotToken (pc_cfg p).

Definition picker_OnTick (t : Tick) (p : Picker) : Picker :=
  if String.eqb (tick_Token t) (spotToken p) then
    if 0 <? tick_Price t then p <| pc_spot := tick_Price t |> else p
  else p <| pc_quotes := quote_Update t (pc_quotes p) |>.

Definition picker_NewSession (now : Time) (p : Picker) : Picker :=
  p <| pc_univ := universe_NewSession (pc_univ p) |> <| pc_lastDay := Some (ist_day now) |>.

(** The chain's expiries, one per day: the last of each day. *)
Definition chain_expiries (contracts : list Contract) : gmap Z Time :=
  foldl (λ m c, if t_is_zero (oc_Expiry c) then m else <[ist_day (oc_Expiry c) := oc_Expiry c]> m) ∅ contracts.

(** The order of ranging over the days. *)
Class DayOrder := {
  range_days : gmap Z Time → list (Z * Time);
  range_days_perm m : range_days m ≡ₚ map_to_list m }.

Definition canonical_days : DayOrder := {| range_days := map_to_list; range_days_perm := λ m, Permutation_refl _ |}.

Definition refreshUniverseAt `{DO : DayOrder} (Lookup : Time → Z → string → option uval) (now : Time) (p : Picker) :
    option (list string * Picker) :=
  let day := ist_day now in
  let newSession := match pc_lastDay p with Some last => negb (last =? day) | None => false end in
  let u := if newSession then universe_NewSession (pc_univ p) else pc_univ p in
  '(fresh, u) ← universe_Refresh Lookup (pc_spot p) ((range_days (chain_expiries (cc_contracts (pc_chain p)))).*2) u;
  Some (fresh, p <| pc_lastDay := Some day |> <| pc_univ := u |>).

(** The chain joined with the universe's tokens. *)
Definition join_token (u : Universe) (c : Contract) : Contract :=
  let '(tok, sym) := default ("", "") (universe_Token (oc_Expiry c) (oc_Strike c) (oc_Option c) u) in
  c <| oc_Token := tok |> <| oc_Symbol := sym |>.
Definition picker_candidates (p : Picker) : list Contract * Time :=
  let '(contracts, at_) := chain_Snapshot (pc_chain p) in (join_token (pc_univ p) <$> contracts, at_).

Definition picker_env (now chainAt : Time) (p : Picker) : PickEnv :=
  {| pe_Spot := pc_spot p; pe_Now := now; pe_ChainAt := chainAt; pe_Quote := quote_Get (pc_quotes p) |}.

Definition PickSingle `{ME : MathExp} `{ML : MathLog} `{MC : MathErfc} (i : SingleIntent) (now : Time) (p : Picker) : Rejects * (Refusal + Pick) :=
  let '(c, at_) := picker_candidates p in SelectSingle c i (pf_Rules (pc_cfg p)) (picker_env now at_ p).

Record PickerStatus := { pst_ChainAt : Time; pst_ChainErr : string; pst_Streamed : Z; pst_Spot : Z }.
Definition picker_Status (p : Picker) : PickerStatus := {|
  pst_ChainAt := cc_at (pc_chain p); pst_ChainErr := default "" (LastError (pc_chain p)); pst_Streamed := universe_Size (pc_univ p);
  pst_Spot := pc_spot p |}.

(** ** The nearest expiry *)

Definition allowed_expiry (opt : string) (now : Time) (minDTE : Z) (c : Contract) : bool :=
  String.eqb (oc_Option c) opt && negb (t_is_zero (oc_Expiry c)) && (min_days minDTE <=? DaysBetween now (oc_Expiry c)).

Lemma pickExpiry_spec chain opt now minDTE :
  match pickExpiry chain opt now minDTE with
  | Some e => (∃ c, c ∈ chain ∧ allowed_expiry opt now minDTE c = true ∧ oc_Expiry c = e) ∧
              ∀ c, c ∈ chain → allowed_expiry opt now minDTE c = true → e <= oc_Expiry c
  | None => ∀ c, c ∈ chain → allowed_expiry opt now minDTE c = false
  end.
Proof.
  unfold pickExpiry. induction chain as [|c chain IH] using rev_ind; [by intros c Hc%not_elem_of_nil|]. rewrite foldl_app. cbn [foldl].
  set (best := foldl _ _ _) in *. clearbody best.
  assert (Hall : allowed_expiry opt now minDTE c =
    negb (negb (String.eqb (oc_Option c) opt) || t_is_zero (oc_Expiry c) || (DaysBetween now (oc_Expiry c) <? min_days minDTE))).
  { unfold allowed_expiry. rewrite !negb_orb, negb_involutive. f_equal. by rewrite Z.leb_antisym. }
  destruct (_ || _ || _); cbn [negb] in Hall.
  - destruct best as [e|].
    + destruct IH as [(c0 & Hin & Hc0) Hmin]. split; [exists c0; split; [|done]; set_solver|].
      intros c' [Hc'| ->%list_elem_of_singleton]%elem_of_app Ha; [by apply Hmin|congruence].
    + intros c' [Hc'| ->%list_elem_of_singleton]%elem_of_app; [by apply IH|done].
  - destruct best as [e|].
    + destruct IH as [(c0 & Hin & Hc0) Hmin]. unfold t_before. destruct (Z.ltb_spec (oc_Expiry c) e).
      * split; [exists c; split; [set_solver|done]|]. intros c' [Hc'| ->%list_elem_of_singleton]%elem_of_app Ha; [|done].
        specialize (Hmin c' Hc' Ha). lia.
      * split; [exists c0; split; [|done]; set_solver|]. intros c' [Hc'| ->%list_elem_of_singleton]%elem_of_app Ha; [by apply Hmin|done].
    + split; [exists c; split; [set_solver|done]|]. intros c' [Hc'| ->%list_elem_of_singleton]%elem_of_app Ha; [|done].
      rewrite IH in Ha; done.
Qed.

(** ** The order of picks *)

(** The figures a pick is ranked by are numbers. *)
Definition sane (i : SingleIntent) (p : Pick) : Prop :=
  f64_is_nan (outside_band i p) = false ∧ f64_is_nan (from_middle i p) = false ∧ f64_is_nan (pk_Score p) = false.

(** The key of a pick: smaller is better. *)
Definition rank (i : SingleIntent) (r : Rules) (p : Pick) : Z * ((Z * (Z * Z)) * ((Z * (Z * Z)) * ((Z * (Z * Z)) * Z))) :=
  (Z.of_nat (length (pk_Waived p)),
   (f64_key (outside_band i p),
    ((if String.eqb (ru_Rank r) RankReturn && (0 <? si_TargetMove i) then f64_key (f64_neg (pk_Score p)) else (0, (0, 0))),
     (f64_key (from_middle i p), spread p)))).

Lemma lexico_pair {A B} `{Lexico A, Lexico B} (a c : A) (b d : B) :
  lexico (a, b) (c, d) ↔ lexico a c ∨ a = c ∧ lexico b d.
Proof. done. Qed.

Lemma f64_neg_key f : f64_key (f64_neg f) = if f64_is_nan f then f64_key f else
  (- (f64_key f).1, (- (f64_key f).2.1, - (f64_key f).2.2)).
Proof. destruct f as [|[]| |[] m e]; cbn; try done; by rewrite ?Z.opp_involutive. Qed.

Lemma f64_neg_nan f : f64_is_nan (f64_neg f) = f64_is_nan f.
Proof. by destruct f. Qed.

Lemma neg_lexico f g : f64_is_nan f = false → f64_is_nan g = false →
  lexico (f64_key (f64_neg f)) (f64_key (f64_neg g)) ↔ lexico (f64_key g) (f64_key f).
Proof.
  intros Hf Hg. rewrite !f64_neg_key, Hf, Hg. destruct (f64_key f) as (a & b & c), (f64_key g) as (x & y & z). cbn [fst snd].
  rewrite !lexico3. lia.
Qed.

Lemma neg_key_eq f g : f64_is_nan f = false → f64_is_nan g = false →
  f64_key (f64_neg f) = f64_key (f64_neg g) ↔ f64_key f = f64_key g.
Proof.
  intros Hf Hg. rewrite !f64_neg_key, Hf, Hg. destruct (f64_key f) as (a & b & c), (f64_key g) as (x & y & z). cbn [fst snd].
  split; intros [= ???]; repeat f_equal; lia.
Qed.

(** One float of the ranking: equal, or decided by it. *)
Lemma rank_float f g (b : bool) (P : Prop) :
  f64_is_nan f = false → f64_is_nan g = false → (b = true ↔ P) →
  (if negb (f64_eqb f g) then f <. g else b) = true ↔ lexico (f64_key f) (f64_key g) ∨ f64_key f = f64_key g ∧ P.
Proof.
  intros Hf Hg Hb. pose proof (f64_eqb_key f g Hf Hg) as He. pose proof (f64_ltb_key f g Hf Hg) as Hl.
  destruct (f64_eqb f g); cbn [negb].
  - destruct He as [He _]. specialize (He eq_refl). rewrite Hb. split; [by right|]. intros [Hx|[_ ?]]; [|done].
    rewrite He in Hx. exfalso. by apply (irreflexivity lexico (f64_key g)).
  - rewrite Hl. split; [by left|]. intros [?|[Hx _]]; [done|]. by apply He in Hx.
Qed.

Lemma betterBuy_rank p best i r : sane i p → sane i best → betterBuy p best i r = true ↔ lexico (rank i r p) (rank i r best).
Proof.
  intros (Hop & Hmp & Hsp) (Hob & Hmb & Hsb). unfold betterBuy, rank. cbv zeta. rewrite !lexico_pair.
  assert (Hlast : (from_middle i p <. from_middle i best) || (f64_eqb (from_middle i p) (from_middle i best) && (spread p <? spread best)) = true ↔
    lexico (f64_key (from_middle i p)) (f64_key (from_middle i best)) ∨
    f64_key (from_middle i p) = f64_key (from_middle i best) ∧ lexico (spread p) (spread best)).
  { rewrite orb_true_iff, andb_true_iff, f64_ltb_key, f64_eqb_key, Z.ltb_lt by done. done. }
  destruct (Z.eqb_spec (Z.of_nat (length (pk_Waived p))) (Z.of_nat (length (pk_Waived best)))) as [He|Hne]; cbn [negb].
  - rewrite He. etrans; [|symmetry; apply or_r; by apply irreflexivity; apply _].
    assert (∀ P : Prop, P ↔ Z.of_nat (length (pk_Waived best)) = Z.of_nat (length (pk_Waived best)) ∧ P) as <- by tauto.
    apply rank_float; [done..|]. destruct (String.eqb (ru_Rank r) RankReturn && (0 <? si_TargetMove i)); cbn [andb].
    + rewrite neg_lexico, neg_key_eq by done. rewrite <-Hlast.
      pose proof (rank_float (pk_Score best) (pk_Score p) ((from_middle i p <. from_middle i best) || (f64_eqb (from_middle i p) (from_middle i best) && (spread p <? spread best))) _ Hsb Hsp (reflexivity _)) as Hr.
      assert (f64_eqb (pk_Score p) (pk_Score best) = f64_eqb (pk_Score best) (pk_Score p)) as ->.
      { apply eq_true_iff_eq. rewrite !f64_eqb_key by done. done. }
      rewrite Hr. by assert (∀ Q, f64_key (pk_Score best) = f64_key (pk_Score p) ∧ Q ↔ f64_key (pk_Score p) = f64_key (pk_Score best) ∧ Q) as -> by (intros; split; intros [??]; done).
    + rewrite Hlast. split; [by right|]. intros [Hx|[_ ?]]; [|done]. exfalso. by apply (irreflexivity lexico ((0, (0, 0)) : Z * (Z * Z))) in Hx.
  - rewrite Z.ltb_lt. split; [by left|]. intros [?|[? _]]; done.
Qed.

Lemma betterBuy_waived p b i r : 
  (betterBuy p b i r = true → (length (pk_Waived p) <= length (pk_Waived b))%nat) ∧
  (betterBuy p b i r = false → (length (pk_Waived b) <= length (pk_Waived p))%nat).
Proof.
  unfold betterBuy. cbv zeta. destruct (Z.eqb_spec (Z.of_nat (length (pk_Waived p))) (Z.of_nat (length (pk_Waived b)))); cbn [negb].
  - split; intros _; lia.
  - destruct (Z.ltb_spec (Z.of_nat (length (pk_Waived p))) (Z.of_nat (length (pk_Waived b)))); split; intros ?; done || lia.
Qed.

Lemma betterBuy_irrefl p i r : sane i p → betterBuy p p i r = false.
Proof.
  intros Hp. apply not_true_is_false. rewrite betterBuy_rank by done. apply (irreflexivity lexico).
Qed.

Lemma betterBuy_trans a b c i r : sane i a → sane i b → sane i c →
  betterBuy a b i r = true → betterBuy b c i r = true → betterBuy a c i r = true.
Proof. intros Ha Hb Hc. rewrite !betterBuy_rank by done. intros ??. by etrans. Qed.

(** ** The selection *)

Section selection.
Context `{ME : MathExp} `{ML : MathLog} `{MC : MathErfc}.

(** [c], as the pick [p], can be traded on this expiry. *)
Definition tradable (i : SingleIntent) (r : Rules) (env : PickEnv) (expiry : Time) (c : Contract) (p : Pick) : Prop :=
  at_expiry i (pe_Now env) expiry c = true ∧ candidate c (DaysBetween (pe_Now env) expiry) i r env = inr p.

(** The best of the contracts seen. *)
Definition best_of (i : SingleIntent) (r : Rules) (env : PickEnv) (expiry : Time) (seen : list Contract) (best : option Pick) : Prop :=
  match best with
  | None => ∀ c p, c ∈ seen → ¬ tradable i r env expiry c p
  | Some b =>
      (∃ c, c ∈ seen ∧ tradable i r env expiry c b) ∧
      ∀ c p, c ∈ seen → tradable i r env expiry c p →
        (length (pk_Waived b) <= length (pk_Waived p))%nat ∧
        ((∀ c p, c ∈ seen → tradable i r env expiry c p → sane i p) → betterBuy p b i r = false)
  end.

Lemma consider_best i r env expiry seen : best_of i r env expiry seen (foldl (consider i r env expiry) (∅, None) seen).2.
Proof.
  induction seen as [|c seen IH] using rev_ind; [by intros c p Hc%not_elem_of_nil|]. rewrite foldl_app. cbn [foldl].
  destruct (foldl _ _ seen) as [rej best]. cbn [snd] in IH. unfold consider.
  assert (Hnot : (∀ p, ¬ tradable i r env expiry c p) → best_of i r env expiry (seen ++ [c]) best).
  { intros Hn. destruct best as [b|]; cbn in IH |- *.
    - destruct IH as [(c0 & Hc0 & Ht) Hall]. split; [exists c0; split; [set_solver|done]|].
      intros c' p [Hc'| ->%list_elem_of_singleton]%elem_of_app Hp; [|by apply Hn in Hp].
      destruct (Hall c' p Hc' Hp) as [Hlen Hb]. split; [done|]. intros Hs. apply Hb. intros c1 p1 Hc1. apply Hs. set_solver.
    - intros c' p [Hc'| ->%list_elem_of_singleton]%elem_of_app; [by apply IH|by apply Hn]. }
  destruct (at_expiry i (pe_Now env) expiry c) eqn:Hat; cbn [negb]; [|apply Hnot; by intros p [Hp _]; congruence].
  destruct (candidate c _ i r env) as [failed|p] eqn:Hcand; [apply Hnot; by intros p [_ Hp]; congruence|]. clear Hnot.
  assert (Hp : tradable i r env expiry c p) by done.
  assert (Hself : ∀ c' p', c' ∈ [c] → tradable i r env expiry c' p' → p' = p) by (intros c' p' ->%list_elem_of_singleton [_ H]; congruence).
  cbn [snd]. destruct best as [b|].
  - destruct IH as [(c0 & Hc0 & Htb) Hall]. destruct (betterBuy p b i r) eqn:Hbetter; destruct (betterBuy_waived p b i r) as [Ht Hf].
    + split; [exists c; split; [set_solver|done]|]. intros c' p' [Hc'|Hc']%elem_of_app Hp'.
      * destruct (Hall c' p' Hc' Hp') as [Hlen Hb]. specialize (Ht Hbetter). split; [lia|]. intros Hs.
        assert (Hs' : ∀ c p, c ∈ seen → tradable i r env expiry c p → sane i p) by (intros c1 p1 Hc1; apply Hs; set_solver).
        specialize (Hb Hs'). apply not_true_is_false. intros Hbp. apply not_true_iff_false in Hb. apply Hb.
        apply (betterBuy_trans p' p b); try done; [by apply (Hs' c' p')|eapply Hs; [|exact Hp]; set_solver|by apply (Hs' c0 b)].
      * rewrite (Hself c' p' Hc' Hp'). split; [done|]. intros Hs. apply betterBuy_irrefl. eapply Hs; [|exact Hp]. set_solver.
    + split; [exists c0; split; [set_solver|done]|]. intros c' p' [Hc'|Hc']%elem_of_app Hp'.
      * destruct (Hall c' p' Hc' Hp') as [Hlen Hb]. split; [done|]. intros Hs. apply Hb. intros c1 p1 Hc1. apply Hs. set_solver.
      * rewrite (Hself c' p' Hc' Hp'). split; [by apply Hf|done].
  - split; [exists c; split; [set_solver|done]|]. intros c' p' [Hc'|Hc']%elem_of_app Hp'; [by apply IH in Hp'|].
    rewrite (Hself c' p' Hc' Hp'). split; [done|]. intros Hs. apply betterBuy_irrefl. eapply Hs; [|exact Hp]. set_solver.
Qed.

(** What a pick is. *)
Lemma candidate_quote c dte i r env p :
  candidate c dte i r env = inr p →
  pk_Contract p = c ∧ oc_Token c ≠ "" ∧ pe_Quote env (oc_Token c) = Some (pk_Quote p) ∧
  0 < oq_Bid (pk_Quote p) <= oq_Ask (pk_Quote p) ∧ t_sub (pe_Now env) (oq_At (pk_Quote p)) <= ru_MaxQuoteAge r ∧
  pk_DTE p = dte ∧ pk_Waived p = buyFailures p i r.
Proof.
  unfold candidate, baseCheck. destruct (String.eqb_spec (oc_Token c) ""); [done|].
  destruct (pe_Quote env (oc_Token c)) as [q|] eqn:Hq; [|done].
  destruct (Z.leb_spec (oq_Bid q) 0); [done|]. destruct (Z.leb_spec (oq_Ask q) 0); [done|].
  destruct (Z.ltb_spec (ru_MaxQuoteAge r) (t_sub (pe_Now env) (oq_At q))); [done|]. cbn [orb].
  destruct (Z.ltb_spec (oq_Ask q) (oq_Bid q)); [done|]. destruct (f64_leb (oc_IV c) f64_zero); [done|].
  intros [= <-]. cbn. repeat split; try done; lia.
Qed.

Lemma SelectSingle_spec chain i r env :
  match (SelectSingle chain i r env).2 with
  | inr b =>
      checkEnv r env = None ∧ ∃ expiry, pickExpiry chain (si_Option i) (pe_Now env) (si_MinDTE i) = Some expiry ∧
        best_of i r env expiry chain (Some b)
  | inl _ =>
      is_Some (checkEnv r env) ∨ pickExpiry chain (si_Option i) (pe_Now env) (si_MinDTE i) = None ∨
      ∃ expiry, pickExpiry chain (si_Option i) (pe_Now env) (si_MinDTE i) = Some expiry ∧ best_of i r env expiry chain None
  end.
Proof.
  unfold SelectSingle. destruct (checkEnv r env); [by left|]. destruct (pickExpiry _ _ _ _) as [expiry|]; [|by right; left].
  pose proof (consider_best i r env expiry chain) as Hb. destruct (foldl _ _ chain) as [rej [b|]]; cbn [snd] in *.
  - split; [done|]. by exists expiry.
  - right. right. by exists expiry.
Qed.

Lemma checkEnv_fresh r env : checkEnv r env = None → 0 < pe_Spot env ∧ t_sub (pe_Now env) (pe_ChainAt env) <= ru_MaxChainAge r.
Proof.
  unfold checkEnv. destruct (Z.leb_spec (pe_Spot env) 0); [done|]. destruct (t_is_zero _); [done|]. cbn [orb].
  destruct (Z.ltb_spec (ru_MaxChainAge r) (t_sub (pe_Now env) (pe_ChainAt env))); [done|]. done.
Qed.
End selection.

(** ** The picker *)

Section picker.
Context `{ME : MathExp} `{ML : MathLog} `{MC : MathErfc}.

(** C28: a pick is a streamed contract of the chain on the nearest allowed
    expiry, never today's, from a fresh chain and a fresh two-sided quote; no
    tradable contract of that expiry breaks fewer rules and, where the figures
    are numbers, none ranks above it.  The picker refuses only without a spot,
    with a stale chain, with no allowed expiry, or with nothing tradable. *)
Theorem pick_is_best i now p :
  let r := pf_Rules (pc_cfg p) in
  let chain := (picker_candidates p).1 in
  let env := picker_env now (cc_at (pc_chain p)) p in
  let allowed := allowed_expiry (si_Option i) now (si_MinDTE i) in
  match (PickSingle i now p).2 with
  | inr b =>
      let c := pk_Contract b in
      let q := pk_Quote b in
      c ∈ chain ∧ allowed c = true ∧ (∀ c', c' ∈ chain → allowed c' = true → oc_Expiry c <= oc_Expiry c') ∧
      0 < pc_spot p ∧ t_sub now (cc_at (pc_chain p)) <= ru_MaxChainAge r ∧
      oc_Token c ≠ "" ∧ quote_Get (pc_quotes p) (oc_Token c) = Some q ∧ 0 < oq_Bid q <= oq_Ask q ∧
      t_sub now (oq_At q) <= ru_MaxQuoteAge r ∧ pk_Waived b = buyFailures b i r ∧
      ∀ c' b', c' ∈ chain → tradable i r env (oc_Expiry c) c' b' →
        (length (pk_Waived b) <= length (pk_Waived b'))%nat ∧
        ((∀ c b', c ∈ chain → tradable i r env (oc_Expiry (pk_Contract b)) c b' → sane i b') → betterBuy b' b i r = false)
  | inl _ =>
      is_Some (checkEnv r env) ∨ (∀ c, c ∈ chain → allowed c = false) ∨
      ∃ expiry, pickExpiry chain (si_Option i) now (si_MinDTE i) = Some expiry ∧ ∀ c b, c ∈ chain → ¬ tradable i r env expiry c b
  end.
Proof.
  cbv zeta. unfold PickSingle, picker_candidates, chain_Snapshot. cbn [fst].
  set (chain := join_token _ <$> _). set (r := pf_Rules _). set (env := picker_env _ _ _).
  pose proof (SelectSingle_spec chain i r env) as H. change now with (pe_Now env).
  destruct (SelectSingle chain i r env).2 as [f|b].
  - destruct H as [?|[H|(e & He & H)]]; [by left|right; left|right; right; by exists e].
    pose proof (pickExpiry_spec chain (si_Option i) (pe_Now env) (si_MinDTE i)) as Hs. by rewrite H in Hs.
  - destruct H as (Henv & expiry & He & (c & Hc & Hat & Hcand) & Hbest). apply checkEnv_fresh in Henv as [Hspot Hage].
    destruct (candidate_quote _ _ _ _ _ _ Hcand) as (-> & Htok & Hq & Hba & Hqa & _ & Hw).
    unfold at_expiry in Hat. apply andb_true_iff in Hat as [Hat Hexp%Z.eqb_eq]. apply andb_true_iff in Hat as [Hopt Hdays].
    pose proof (pickExpiry_spec chain (si_Option i) (pe_Now env) (si_MinDTE i)) as Hs. rewrite He in Hs.
    destruct Hs as [(c0 & Hc0 & Ha0 & He0) Hmin]. rewrite Hexp. split; [done|]. split.
    { unfold allowed_expiry in *. apply andb_true_iff in Ha0 as [Ha0 Hd0]. apply andb_true_iff in Ha0 as [_ Hz0].
      rewrite He0 in Hd0, Hz0. by rewrite Hopt, Hexp, Hz0, Hd0. }
    split; [done|]. split; [done|]. split; [done|]. split; [done|]. split; [done|]. split; [done|]. split; [done|]. split; [done|].
    exact Hbest.
Qed.
End picker.

(** ** The universe *)

Inductive un_op :=
  | UnRefresh (Lookup : Time → Z → string → option uval) (spot : Z) (expiries : list Time)
  | UnSearchBegin
  | UnSearchEnd (k : ukey) (found : option uval)
  | UnSession.

(** The tokens an operation subscribes, and the universe after it. *)
Definition un_do (o : un_op) (u : Universe) : option (list string * Universe) :=
  match o with
  | UnRefresh L spot expiries => universe_Refresh L spot expiries u
  | UnSearchBegin => Some ([], (search_begin u).2)
  | UnSearchEnd k found => Some (search_end k found u)
  | UnSession => Some ([], universe_NewSession u)
  end.

Fixpoint un_run (ops : list un_op) (u : Universe) : option (list string * Universe) :=
  match ops with
  | [] => Some ([], u)
  | o :: ops => '(toks, u) ← un_do o u; '(rest, u) ← un_run ops u; Some (toks ++ rest, u)
  end.

(** The queue holds each contract once, and its set says which. *)
Record un_ok (u : Universe) : Prop := {
  un_nodup : NoDup (un_pending u);
  un_set : un_pendingSet u = list_to_set (un_pending u);
  un_step_ok : un_step u ≠ 0 }.

(** Tokens asked for, none twice or already streaming. *)
Definition asks_once (u : Universe) (toks : list string) (u' : Universe) : Prop :=
  NoDup toks ∧ (∀ t, t ∈ toks → t ∉ un_subscribed u) ∧ un_subscribed u' = un_subscribed u ∪ list_to_set toks.

Lemma asks_none u u' : un_subscribed u' = un_subscribed u → asks_once u [] u'.
Proof. intros H. split; [constructor|]. split; [by intros t Ht%not_elem_of_nil|]. rewrite H. set_solver. Qed.

Lemma asks_app u toks u1 toks1 u2 : asks_once u toks u1 → asks_once u1 toks1 u2 → asks_once u (toks ++ toks1) u2.
Proof.
  intros (Hn & Hd & Hs) (Hn1 & Hd1 & Hs1). split; [|split].
  - apply NoDup_app. split; [done|]. split; [|done]. intros t Ht Ht1. apply (Hd1 t Ht1). rewrite Hs. set_solver.
  - intros t [Ht|Ht]%elem_of_app; [by apply Hd|]. intros Hin. apply (Hd1 t Ht). rewrite Hs. set_solver.
  - rewrite Hs1, Hs, list_to_set_app_L. set_solver.
Qed.

Definition covered (u : Universe) (k : ukey) : Prop :=
  (∃ v, un_tokens u !! k = Some v ∧ v.1 ∈ un_subscribed u) ∨ k ∈ un_pending u.

(** What no contract of the ladder undoes. *)
Definition grows (u u' : Universe) : Prop :=
  (∀ k v, un_tokens u !! k = Some v → un_tokens u' !! k = Some v) ∧ un_subscribed u ⊆ un_subscribed u' ∧
  (∀ k, k ∈ un_pending u → k ∈ un_pending u').

Lemma grows_covered u u' k : grows u u' → covered u k → covered u' k.
Proof. intros (Ht & Hs & Hp) [(v & Hv & Hin)|Hk]; [left; exists v; split; [by apply Ht|set_solver]|right; by apply Hp]. Qed.

Instance grows_preorder : PreOrder grows.
Proof.
  split; [by intros u; split; [|split]|]. intros u1 u2 u3 (Ht & Hs & Hp) (Ht' & Hs' & Hp'). split; [|split]; [auto|set_solver|auto].
Qed.

Lemma want_spec L u fresh ek :
  un_ok u →
  let '(u', fresh') := want L (u, fresh) ek in
  un_ok u' ∧ grows u u' ∧ covered u' ek.2 ∧ ∃ toks, fresh' = fresh ++ toks ∧ asks_once u toks u'.
Proof.
  intros [Hn Hs Hst]. destruct ek as [e k]. unfold want. cbn [snd].
  destruct (match un_tokens u !! k with Some v => Some v | None => L e k.1.2 k.2 end) as [v|] eqn:Hv.
  - assert (Hgrow : ∀ k' v', un_tokens u !! k' = Some v' → <[k := v]> (un_tokens u) !! k' = Some v').
    { intros k' v' Hk'. destruct (decide (k = k')) as [->|Hne]; [|by rewrite lookup_insert_ne]. rewrite lookup_insert_eq. by rewrite Hk' in Hv. }
    change (un_subscribed (u <| un_tokens := _ |>)) with (un_subscribed u). case_bool_decide as Hin.
    + split; [done|]. split; [by split|]. split; [left; exists v; cbn; by rewrite lookup_insert_eq|].
      exists []. rewrite app_nil_r. split; [done|by apply asks_none].
    + split; [done|]. split; [split; [done|split; [cbn; set_solver|done]]|].
      split; [left; exists v; cbn; rewrite lookup_insert_eq; split; [done|set_solver]|]. exists [v.1]. split; [done|].
      split; [by apply NoDup_singleton|]. split; [by intros t ->%list_elem_of_singleton|]. cbn. set_solver.
  - case_bool_decide as Hin.
    + split; [done|]. split; [done|]. split; [right; rewrite Hs in Hin; set_solver|]. exists []. rewrite app_nil_r. split; [done|by apply asks_none].
    + split; [split; cbn; [|rewrite Hs, list_to_set_app_L; set_solver|done]|].
      { apply NoDup_app. split; [done|]. split; [|by apply NoDup_singleton]. intros k' Hk' ->%list_elem_of_singleton. apply Hin. rewrite Hs. set_solver. }
      split; [split; [done|split; [done|cbn; set_solver]]|]. split; [right; cbn; set_solver|]. exists []. rewrite app_nil_r.
      split; [done|by apply asks_none].
Qed.

Lemma wants_spec L eks : ∀ u fresh,
  un_ok u →
  let '(u', fresh') := foldl (want L) (u, fresh) eks in
  un_ok u' ∧ grows u u' ∧ (∀ ek, ek ∈ eks → covered u' ek.2) ∧ ∃ toks, fresh' = fresh ++ toks ∧ asks_once u toks u'.
Proof.
  induction eks as [|ek eks IH]; intros u fresh Hok.
  - cbn. split; [done|]. split; [done|]. split; [by intros ek Hek%not_elem_of_nil|]. exists []. rewrite app_nil_r.
    split; [done|by apply asks_none].
  - cbn [foldl]. pose proof (want_spec L u fresh ek Hok) as Hw. destruct (want L (u, fresh) ek) as [u1 fresh1].
    destruct Hw as (Hok1 & Hg1 & Hc1 & toks1 & -> & Ha1). specialize (IH u1 (fresh ++ toks1) Hok1).
    destruct (foldl (want L) _ eks) as [u2 fresh2]. destruct IH as (Hok2 & Hg2 & Hc2 & toks2 & -> & Ha2).
    split; [done|]. split; [by etrans|]. split.
    + intros ek' [->|Hin]%elem_of_cons; [by eapply grows_covered|by apply Hc2].
    + exists (toks1 ++ toks2). split; [by rewrite app_assoc|by eapply asks_app].
Qed.

(** When a refresh takes effect: the ladder moved, or the expiries changed. *)
Definition refreshes (spot : Z) (expiries : list Time) (u : Universe) : bool :=
  (0 <? spot) && negb (bool_decide (expiries = [])) &&
  ((un_atm u =? 0) || (2 *! un_step u <=? abs64 (atm_strike spot (un_step u) -! un_atm u)) ||
   negb (bool_decide (foldr (sorted_insert id) [] (ist_day <$> expiries) = un_expKey u))).

Lemma universe_Refresh_spec L spot expiries u :
  un_ok u →
  ∃ toks u', universe_Refresh L spot expiries u = Some (toks, u') ∧ un_ok u' ∧ asks_once u toks u' ∧
    (refreshes spot expiries u = false → toks = [] ∧ u' = u) ∧
    (refreshes spot expiries u = true →
     ∀ e k, (e, k) ∈ ladder (atm_strike spot (un_step u)) (un_step u) (un_strikes u) expiries → covered u' k).
Proof.
  intros Hok. unfold universe_Refresh, refreshes. rewrite Z.ltb_antisym.
  destruct (spot <=? 0); cbn [orb negb andb].
  { exists [], u. split; [done|]. split; [done|]. split; [by apply asks_none|done]. }
  destruct (bool_decide (expiries = [])); cbn [orb negb andb].
  { exists [], u. split; [done|]. split; [done|]. split; [by apply asks_none|done]. }
  rewrite (proj2 (Z.eqb_neq _ _)) by apply Hok. set (days := foldr _ _ _).
  destruct ((un_atm u =? 0) || _) eqn:Hmoved; cbn [negb orb andb].
  2: destruct (bool_decide (days = un_expKey u)) eqn:Hkey; cbn [negb].
  2: { exists [], u. split; [done|]. split; [done|]. split; [by apply asks_none|done]. }
  all: set (u1 := u <| un_atm := _ |> <| un_expKey := _ |> <| un_curDays := _ |> <| un_expiries := _ |>).
  all: assert (Hok1 : un_ok u1) by (by destruct Hok; split).
  all: pose proof (wants_spec L (ladder (atm_strike spot (un_step u)) (un_step u) (un_strikes u) expiries) u1 [] Hok1) as H.
  all: change (un_step u1) with (un_step u) in *; change (un_strikes u1) with (un_strikes u) in *.
  all: destruct (foldl (want L) (u1, []) _) as [u2 fresh]; destruct H as (Hok2 & _ & Hc & toks & -> & Ha).
  all: exists toks, u2; split; [done|]; split; [done|]; split; [exact Ha|]; split; [done|]; intros _ e k Hek; exact (Hc (e, k) Hek).
Qed.

Lemma search_begin_ok u : un_ok u → un_ok (search_begin u).2 ∧ asks_once u [] (search_begin u).2.
Proof.
  intros [Hn Hs Hst]. unfold search_begin. destruct (un_pending u) as [|k pending] eqn:Hp.
  - cbn [snd]. split; [split; [by rewrite Hp|by rewrite Hp|done]|by apply asks_none].
  - apply NoDup_cons in Hn as [Hk Hn]. split; [split; [done| |done]|by apply asks_none]. cbn. rewrite Hs. set_solver.
Qed.

Lemma search_end_ok k found u : un_ok u → un_ok (search_end k found u).2 ∧ asks_once u (search_end k found u).1 (search_end k found u).2.
Proof.
  intros [Hn Hs Hst]. destruct found as [v|]; cbn; [|split; [done|by apply asks_none]]. split; [done|]. case_bool_decide as Hin.
  - apply asks_none. cbn. set_solver.
  - split; [by apply NoDup_singleton|]. split; [by intros t ->%list_elem_of_singleton|]. cbn. set_solver.
Qed.

Lemma un_do_ok o u : un_ok u → ∃ toks u', un_do o u = Some (toks, u') ∧ un_ok u' ∧ (o ≠ UnSession → asks_once u toks u').
Proof.
  intros Hok. destruct o as [L spot expiries| |k found|]; cbn [un_do].
  - destruct (universe_Refresh_spec L spot expiries u Hok) as (toks & u' & He & Hok' & Ha & _). by exists toks, u'.
  - destruct (search_begin_ok u Hok) as [Hok' Ha]. by eexists _, _.
  - destruct (search_end_ok k found u Hok) as [Hok' Ha]. destruct (search_end k found u) as [toks u']. by eexists _, _.
  - eexists _, _. split; [done|]. split; [|done]. destruct Hok. by split; [constructor| |].
Qed.

Lemma un_run_ok ops : ∀ u, un_ok u → ∃ toks u', un_run ops u = Some (toks, u') ∧ un_ok u'.
Proof.
  induction ops as [|o ops IH]; intros u Hok; [by exists [], u|]. destruct (un_do_ok o u Hok) as (toks & u1 & He & Hok1 & _).
  destruct (IH u1 Hok1) as (rest & u2 & Hr & Hok2). exists (toks ++ rest), u2. cbn [un_run]. rewrite He. cbn [mbind option_bind].
  by rewrite Hr.
Qed.

Lemma un_run_once ops : ∀ u toks u',
  un_ok u → Forall (λ o, o ≠ UnSession) ops → un_run ops u = Some (toks, u') → asks_once u toks u'.
Proof.
  induction ops as [|o ops IH]; intros u toks u' Hok Hops; [intros [= <- <-]; by apply asks_none|].
  inversion Hops as [|?? Ho Hops']; subst. destruct (un_do_ok o u Hok) as (toks1 & u1 & He & Hok1 & Ha). cbn [un_run]. rewrite He.
  cbn [mbind option_bind]. destruct (un_run ops u1) as [[rest u2]|] eqn:Hr; [|done]. intros [= <- <-].
  eapply asks_app; [by apply Ha|by eapply IH].
Qed.

Lemma NewUniverse_ok strikes step : step ≠ 0 → un_ok (NewUniverse strikes step).
Proof. intros Hs. split; [constructor|done|done]. Qed.

(** Over any interleaving of refreshes and searches the universe never
    fails, asks the feed for no token twice in a session, and after a refresh
    that takes effect every contract of the ladder is streamed or queued for a
    search. *)
Theorem universe_asks_once_and_covers strikes step ops ops' :
  step ≠ 0 → Forall (λ o, o ≠ UnSession) ops' →
  ∃ toks u toks' u', un_run ops (NewUniverse strikes step) = Some (toks, u) ∧
    un_run ops' (universe_NewSession u) = Some (toks', u') ∧
    NoDup toks' ∧ un_subscribed u' = list_to_set toks' ∧
    ∀ L spot expiries, refreshes spot expiries u' = true →
      ∃ fresh u'', universe_Refresh L spot expiries u' = Some (fresh, u'') ∧
        ∀ e k, (e, k) ∈ ladder (atm_strike spot (un_step u')) (un_step u') (un_strikes u') expiries → covered u'' k.
Proof.
  intros Hs Hops. destruct (un_run_ok ops _ (NewUniverse_ok strikes step Hs)) as (toks & u & Hr & Hok).
  assert (Hok0 : un_ok (universe_NewSession u)) by (destruct Hok; by split; [constructor| |]).
  destruct (un_run_ok ops' _ Hok0) as (toks' & u' & Hr' & Hok'). exists toks, u, toks', u'. split; [done|]. split; [done|].
  destruct (un_run_once ops' _ _ _ Hok0 Hops Hr') as (Hn & _ & Hsub). split; [done|]. split; [rewrite Hsub; cbn; set_solver|].
  intros L spot expiries Hrf. destruct (universe_Refresh_spec L spot expiries u' Hok') as (fresh & u'' & He & _ & _ & _ & Hc).
  exists fresh, u''. split; [done|]. by apply Hc.
Qed.

(** ** The queue of searches empties *)

Definition is_search (o : un_op) : bool := match o with UnSearchBegin | UnSearchEnd _ _ => true | _ => false end.
Definition begins (o : un_op) : bool := match o with UnSearchBegin => true | _ => false end.

Lemma un_run_pending ops : ∀ u,
  Forall (λ o, is_search o = true) ops →
  ∃ toks u', un_run ops u = Some (toks, u') ∧ un_pending u' = drop (length (filter (λ o, begins o = true) ops)) (un_pending u).
Proof.
  induction ops as [|o ops IH]; intros u Hops; [by exists [], u|]. inversion Hops as [|?? Ho Hops']; subst.
  assert (Hstep : ∃ toks u1, un_do o u = Some (toks, u1) ∧ un_pending u1 = drop (Nat.b2n (begins o)) (un_pending u)).
  { destruct o as [| |k found|]; try done; cbn.
    - eexists _, _. split; [reflexivity|]. unfold search_begin. by destruct (un_pending u) eqn:Hp.
    - by destruct found; eexists _, _. }
  destruct Hstep as (toks & u1 & He & Hp1). destruct (IH u1 Hops') as (rest & u2 & Hr & Hp2). exists (toks ++ rest), u2. cbn [un_run].
  rewrite He. cbn [mbind option_bind]. rewrite Hr. split; [done|]. rewrite Hp2, Hp1, drop_drop, filter_cons. f_equal.
  destruct (begins o); [rewrite decide_True by done|rewrite decide_False by done]; cbn; lia.
Qed.

(** C29: the queue of searches empties: without a refresh, as many ticks as it
    holds contracts take each of them once, whatever the broker answers. *)
Theorem searches_end ops u :
  Forall (λ o, is_search o = true) ops → (length (un_pending u) <= length (filter (λ o, begins o = true) ops))%nat →
  ∃ toks u', un_run ops u = Some (toks, u') ∧ un_pending u' = [] ∧ search_begin u' = (None, u').
Proof.
  intros Hops Hlen. destruct (un_run_pending ops u Hops) as (toks & u' & Hr & Hp). exists toks, u'. split; [done|].
  rewrite drop_ge in Hp by done. split; [done|]. unfold search_begin. by rewrite Hp.
Qed.

(** ** A concrete universe and pick *)

Definition demo_lookup (e : Time) (strike : Z) (opt : string) : option uval :=
  if strike =? 24500 then Some (opt +:+ format_int strike, opt) else None.
Definition demo_expiry : Time := ist_date 20600 15 30.

Lemma universe_asks_once_and_covers_witness :
  let ops := [UnRefresh demo_lookup 2450000 [demo_expiry]; UnSearchBegin] in
  let ops' := [UnRefresh demo_lookup 2450000 [demo_expiry]; UnSearchBegin; UnSearchEnd (20600, 24450, "CE") (Some ("77", "X"))] in
  ∃ toks u toks' u', un_run ops (NewUniverse 1 50) = Some (toks, u) ∧ un_run ops' (universe_NewSession u) = Some (toks', u') ∧
    NoDup toks' ∧ toks' = ["CE24500"; "PE24500"; "77"].
Proof.
  intros ops ops'.
  destruct (universe_asks_once_and_covers 1 50 ops ops') as (toks & u & toks' & u' & Hr & Hr' & Hn & _).
  - discriminate.
  - repeat (constructor; [discriminate|]). constructor.
  - exists toks, u, toks', u'. split; [exact Hr|]. split; [exact Hr'|]. split; [exact Hn|].
    assert (H : match un_run ops (NewUniverse 1 50) with Some (_, u) => fst <$> un_run ops' (universe_NewSession u) | None => None end =
                Some ["CE24500"; "PE24500"; "77"]) by (vm_compute; reflexivity).
    rewrite Hr in H. rewrite Hr' in H. by injection H.
Defined.

Lemma searches_end_witness :
  let u := default (NewUniverse 1 50) (snd <$> un_run [UnRefresh demo_lookup 2450000 [demo_expiry]] (NewUniverse 1 50)) in
  length (un_pending u) = 4%nat ∧ ∃ toks u', un_run (replicate 4 UnSearchBegin) u = Some (toks, u') ∧ un_pending u' = [].
Proof.
  intros u. split; [vm_compute; reflexivity|].
  destruct (searches_end (replicate 4 UnSearchBegin) u) as (toks & u' & Hr & Hp & _).
  - repeat (constructor; [reflexivity|]). constructor.
  - vm_compute. repeat constructor.
  - exists toks, u'. split; [exact Hr|exact Hp].
Defined.

Definition demo_contract (strike : Z) : Contract := {|
  oc_Token := ""; oc_Symbol := ""; oc_Strike := strike; oc_Option := "CE"; oc_Expiry := demo_expiry; oc_IV := #14; oc_Liquidity := #1000 |}.

Definition demo_rules : Rules := {|
  ru_MaxSpreadPct := #2; ru_MaxQuoteAge := 5 * Second; ru_MaxChainAge := Minute; ru_GammaDTE := 0; ru_MaxBuyIV := f64_zero;
  ru_MinLiquidity := f64_zero; ru_CostMultiple := 0; ru_RatePct := f64_zero; ru_Rank := ""; ru_HoldMinutes := f64_zero |}.

Definition demo_intent : SingleIntent := {|
  si_Strategy := "SR"; si_Option := "CE"; si_DeltaMin := f64_frac 4 10; si_DeltaMax := f64_frac 6 10; si_MinDTE := 0; si_TargetMove := 0;
  si_MaxThetaPct := f64_zero; si_ThetaMaxGainPct := f64_zero; si_MaxGamma := f64_zero |}.

Definition demo_now : Time := ist_date 20598 10 0.

Definition demo_picker : Picker :=
  let cfg := {| pf_SpotToken := ""; pf_Rules := demo_rules; pf_LadderStrikes := 1; pf_StrikeStep := 50; pf_ChainEvery := Minute;
                pf_ChainBackoff := Minute; pf_SearchEvery := Second |} in
  let tick token price bid ask := {|
    tick_Token := token; tick_Exchange := ""; tick_Price := price; tick_Qty := 0; tick_DayVolume := 0; tick_TickTS := demo_now;
    tick_EventTS := demo_now; tick_BestBid := bid; tick_BestAsk := ask; tick_OI := 5000; tick_QuoteTS := demo_now |} in
  let p := NewPicker cfg in
  let p := p <| pc_chain := (chain_Refresh demo_now (inr [demo_contract 24450; demo_contract 24500]) (pc_chain p)).2 |> in
  let p := picker_OnTick (tick NiftySpotToken 2450000 0 0) p in
  let find e strike opt := Some ((opt +:+ format_int strike)%string, opt) in
  let p := default p (snd <$> refreshUniverseAt (DO := canonical_days) find demo_now p) in
  picker_OnTick (tick "CE24500" 12000 11990 12010) (picker_OnTick (tick "CE24450" 14000 13000 14000) p).

(** Of two tradable contracts the one with the narrow spread. *)
Example demo_pick :
  let r := PickSingle (ME := λ _, #1) (ML := λ _, f64_zero) (MC := λ _, #1) demo_intent demo_now demo_picker in
  (r.1 !! "spread"%string, match r.2 with inr p => (oc_Token (pk_Contract p), pk_Waived p, pk_DTE p) | inl f => (rf_Reason f, [], 0) end) =
    (Some 1, ("CE24500"%string, [], 2)).
Proof. vm_compute. reflexivity. Qed.
