(* ===== verification/SrView.v ===== *)
(** The dashboard's picture of the SR strategy (internal/strategy/sr_view.go),
    read-only: the regime and levels it sees, what it waits for, and why its
    last entry bar was refused.  The backtest reads the levels of it. *)
From S2P Require Import Prelude Float64 GoText Model RangeContext SrContext Nifty50SrState Nifty50Sr.
#[local] Open Scope Z_scope.
#[local] Open Scope go_scope.

Record SRView := {
  vw_Strategy : string; vw_Key : string; vw_TS : Time;
  vw_Regime : string; vw_ADX : float64; vw_RSI5 : float64; vw_ATR15 : Z; vw_VWAP : Z; vw_EMAFast : Z; vw_EMASlow : Z;
  vw_ORHigh : Z; vw_ORLow : Z; vw_DayOpen : Z; vw_DayHigh : Z; vw_DayLow : Z; vw_PrevDayHigh : Z; vw_PrevDayLow : Z;
  vw_Close : Z; vw_Levels : list SRLevel;
  vw_PendingSide : string; vw_PendingLevel : Z; vw_PendingLeft : Z;
  vw_Side : string; vw_Kind : string; vw_Entry : Z; vw_Stop : Z; vw_Target : Z; vw_Manual : bool; vw_Trail : Z; vw_Strike : Z;
  vw_Block : string; vw_LastReject : string; vw_LastRejectTS : Time; vw_Rejects : gmap string Z;
  vw_TradesToday : Z; vw_MaxTrades : Z; vw_ConsecLosses : Z; vw_DayPnLPts : Z; vw_CooldownLeft : Z;
  vw_EntryTF : Z; vw_EntryFromMin : Z; vw_EntryToMin : Z; vw_MinConfirms : Z; vw_Fade : bool; vw_Retest : bool; vw_Pullback : bool;
  vw_DayExtremePct : Z; vw_DayRunPts : Z; vw_DayExtremePuts : bool;
  vw_BoxPts : Z; vw_BoxLimit : Z; vw_BoxBars : Z; vw_BoxFrom : Time; vw_BoxTo : Time; vw_BoxHigh : Z; vw_BoxLow : Z; vw_Boxed : bool;
  vw_Warn : list string; vw_Warns : gmap string Z; vw_GateMode : string;
  vw_Sweeps : list SRSweep; vw_SweepWarnMin : Z }.

(** The box of the last bars: its size and limit, its first and last time, its
    high and low, and whether it boxes the price in. *)
Record box_view := {
  bx_pts : Z; bx_limit : Z; bx_bars : Z; bx_from : Time; bx_to : Time; bx_high : Z; bx_low : Z; bx_boxed : bool }.
Definition no_box : box_view := {|
  bx_pts := 0; bx_limit := 0; bx_bars := 0; bx_from := zero_time; bx_to := zero_time; bx_high := 0; bx_low := 0; bx_boxed := false |}.

Section view.
Context (cfg : Nifty50SRConfig).

Definition view_box (st : nifty50SRState) (ss : SRState) : box_view :=
  let '(box, boxed) := sideways cfg st ss in
  if box <=? 0 then no_box
  else
    let bars := rc_bars5 (sc_rc (n5_ctx st)) in
    match drop (length bars - Z.to_nat (nc_BoxBars cfg)) bars with
    | [] => no_box
    | first :: rest => {|
        bx_pts := box; bx_limit := rs_ATR15 (ss_Range ss) *! nc_BoxATRPct cfg /! 100; bx_bars := nc_BoxBars cfg;
        bx_from := tb_TS first; bx_to := t_add (tb_TS (List.last rest first)) (5 * Minute);
        bx_high := foldl (λ hi b, Z.max hi (b_High (tb_bar b))) (b_High (tb_bar first)) rest;
        bx_low := foldl (λ lo b, Z.min lo (b_Low (tb_bar b))) (b_Low (tb_bar first)) rest; bx_boxed := boxed |}
    end.

(** What an entry on [side] would be flagged with now. *)
Definition side_warnings (st : nifty50SRState) (ss : SRState) (side : PositionSide) : list string :=
  let ws := situationWarnings cfg st ss side SRKindPullback (dayPosition ss (n5_LastClose st)) (minutesIST (n5_LastCloseTS st) +! 1) in
  let w := sweepWarning cfg st side (n5_LastCloseTS st) in
  (λ w, to_lower side +:+ ":" +:+ w) <$> (ws ++ if String.eqb w "" then [] else [w]).

Definition view_warn (st : nifty50SRState) (ss : SRState) : list string :=
  if 0 <? n5_LastClose st then side_warnings st ss SideCall ++ side_warnings st ss SidePut else [].

Definition flat_side (side : PositionSide) : bool := String.eqb side SideNone || String.eqb side "".
End view.

(** [View]: nothing before the first candle. *)
Definition View (key : string) (s : Nifty50SR) : option SRView :=
  let cfg := sr_cfg s in
  match sr_instruments s !! key with
  | None => None
  | Some st =>
      if t_is_zero (n5_LastCloseTS st) then None
      else
        let ss := sc_state (n5_ctx st) in
        let p := n5_pos st in
        let box := view_box cfg st ss in
        let swept := bool_decide (n5_Sweeps st ≠ []) in
        let pending := negb (flat_side (n5_PendingSide st)) in
        let flat := flat_side (ps_Side p) in
        Some {|
          vw_Strategy := sr_Name cfg; vw_Key := key; vw_TS := n5_LastCloseTS st;
          vw_Regime := if String.eqb (ss_Regime ss) SRRegimeNone then "WARMING" else ss_Regime ss;
          vw_ADX := rs_ADX (ss_Range ss); vw_RSI5 := rs_RSI5 (ss_Range ss); vw_ATR15 := rs_ATR15 (ss_Range ss);
          vw_VWAP := ss_VWAP ss; vw_EMAFast := ss_EMAFast ss; vw_EMASlow := ss_EMASlow ss; vw_ORHigh := ss_ORHigh ss; vw_ORLow := ss_ORLow ss;
          vw_DayOpen := ss_DayOpen ss; vw_DayHigh := ss_DayHigh ss; vw_DayLow := ss_DayLow ss;
          vw_PrevDayHigh := ss_PrevDayHigh ss; vw_PrevDayLow := ss_PrevDayLow ss;
          vw_Close := n5_LastClose st; vw_Levels := ss_Levels ss;
          vw_PendingSide := if pending then n5_PendingSide st else ""; vw_PendingLevel := if pending then n5_PendingLevel st else 0;
          vw_PendingLeft := if pending then n5_PendingLeft st else 0;
          vw_Side := if flat then SideNone else ps_Side p; vw_Kind := ps_Kind p; vw_Entry := ps_IndexEntry p; vw_Stop := ps_StopLevel p;
          vw_Target := ps_TargetLevel p; vw_Manual := ps_ManualLevels p; vw_Trail := ps_TrailDist p; vw_Strike := ps_Strike p;
          vw_Block := if flat then entryBlock cfg st (minutesIST (n5_LastCloseTS st) +! 1) else "";
          vw_LastReject := tl_lastReject (sr_tally s); vw_LastRejectTS := tl_lastRejectTS (sr_tally s); vw_Rejects := tl_dayRejects (sr_tally s);
          vw_TradesToday := n5_TradesToday st; vw_MaxTrades := nc_MaxTradesPerDay cfg; vw_ConsecLosses := n5_ConsecLosses st;
          vw_DayPnLPts := n5_DayPnLPts st; vw_CooldownLeft := n5_CooldownLeft st;
          vw_EntryTF := entryTF cfg; vw_EntryFromMin := nc_EntryFromMin cfg; vw_EntryToMin := nc_EntryToMin cfg;
          vw_MinConfirms := nc_MinConfirmations cfg; vw_Fade := nc_FadeEnabled cfg; vw_Retest := nc_RetestEnabled cfg;
          vw_Pullback := nc_PullbackEnabled cfg;
          vw_DayExtremePct := nc_DayExtremePct cfg; vw_DayRunPts := nc_DayRunPts cfg; vw_DayExtremePuts := nc_DayExtremePuts cfg;
          vw_BoxPts := bx_pts box; vw_BoxLimit := bx_limit box; vw_BoxBars := bx_bars box; vw_BoxFrom := bx_from box; vw_BoxTo := bx_to box;
          vw_BoxHigh := bx_high box; vw_BoxLow := bx_low box; vw_Boxed := bx_boxed box;
          vw_Warn := view_warn cfg st ss; vw_Warns := tl_dayWarns (sr_tally s); vw_GateMode := nc_GateMode cfg;
          vw_Sweeps := n5_Sweeps st; vw_SweepWarnMin := if swept then nc_SweepWarnMin cfg else 0 |}
  end.
