(* ===== verification/OptionModel.v ===== *)
(** Modeled option premiums for backtests (internal/backtest/optionmodel.go):
    Black-Scholes on the index and an implied volatility, with paper slippage.
    India's calendar is a fixed offset from UTC (MarketHours). *)
From Stdlib Require Import SpecFloat.
From S2P Require Import Prelude Float64 GoText Model MarketHours OptionMath Nifty50SrState.
#[local] Open Scope Z_scope.
#[local] Open Scope go_scope.

Record OptionModel := {
  om_Enabled : bool; om_IVPct : float64; om_RatePct : float64; om_PremiumSLPct : Z; om_SlippageBps : Z; om_SlippageMinPsa : Z;
  om_StrikeStep : Z; om_MinEntryPremium : Z; om_MinEntryDTE : Z; om_ExpiryMinDTE : Z }.

Definition expiry_time (day : Z) : Time := ist_date day 15 30.

(** The Tuesday after today. *)
Definition weeklyExpiry (ts : Time) : Time :=
  let d := (2 - Weekday ts + 7) mod 7 in
  expiry_time (ist_day ts + if d =? 0 then 7 else d).

Definition sameDayExpiry (ts : Time) : Time := expiry_time (ist_day ts).

Definition years_until (expiry ts : Time) : float64 := d_hours (t_sub expiry ts) ⊘ #(24 * 365).

(** Paper slippage: a buy pays more, a sale gets less, a tick at least. *)
Definition slip (m : OptionModel) (buy : bool) (p : Z) : Z :=
  let s := p *! om_SlippageBps m /! 10000 in
  let s := if s <? om_SlippageMinPsa m then om_SlippageMinPsa m else s in
  if buy then p +! s else if 5 <? p -! s then p -! s else 5.

Definition strike_step (m : OptionModel) : Z := if om_StrikeStep m <=? 0 then 50 else om_StrikeStep m.

(** [None]: a step whose paise wrap to zero divides by zero. *)
Definition model_atmStrike (m : OptionModel) (spotPaise : Z) : option Z :=
  let step := strike_step m in
  let unit := step *! 100 in
  if unit =? 0 then None else Some ((spotPaise +! unit /! 2) /! unit *! step).

Section pricing.
Context `{ME : MathExp} `{ML : MathLog} `{MC : MathErfc}.

Definition premiumTo (m : OptionModel) (side : PositionSide) (strikePts spotPaise : Z) (ts : Time) (ivPct : float64) (expiry : Time) : Z :=
  if (spotPaise <=? 0) || (strikePts <=? 0) then 0
  else
    let ivPct := if f64_leb ivPct f64_zero then om_IVPct m else ivPct in
    let p := Price (#spotPaise ⊘ #100) #strikePts (years_until expiry ts) (ivPct ⊘ #100) (om_RatePct m ⊘ #100) (String.eqb side SideCall) in
    let paise := f64_to_int (f64_round (p ⊗ #100)) in
    if paise <? 5 then 5 else paise.

Definition premium (m : OptionModel) (side : PositionSide) (strikePts spotPaise : Z) (ts : Time) (ivPct : float64) : Z :=
  premiumTo m side strikePts spotPaise ts ivPct (weeklyExpiry ts).
End pricing.

(** ** A sale never gets more than a purchase pays *)

Lemma slip_spread m p : in_i64 p → 5 <= p → 0 <= om_SlippageBps m <= 10000 → 0 <= om_SlippageMinPsa m → p * 10000 <= max_i64 →
  p + om_SlippageMinPsa m <= max_i64 → 5 <= slip m false p <= p ∧ p <= slip m true p.
Proof.
  intros Hr Hp Hb Hm Hc Hd. unfold slip. rewrite (i64_id (p * _)) by (i64_unfold; nia).
  assert (0 <= Z.quot (p * om_SlippageBps m) 10000 <= p) as Hq.
  { rewrite Z.quot_div_nonneg by nia. split; [apply Z.div_pos; nia|]. apply Z.div_le_upper_bound; nia. }
  rewrite (i64_id (Z.quot _ _)) by (i64_unfold; lia). set (s := Z.quot _ _) in *.
  destruct (Z.ltb_spec s (om_SlippageMinPsa m)).
  - rewrite (i64_id (p + _)) by (i64_unfold; lia). rewrite (i64_id (p - _)) by (i64_unfold; lia).
    destruct (Z.ltb_spec 5 (p - om_SlippageMinPsa m)); lia.
  - assert (p * 2 <= max_i64) by (i64_unfold; lia).
    rewrite (i64_id (p + _)) by (i64_unfold; lia). rewrite (i64_id (p - _)) by (i64_unfold; lia).
    destruct (Z.ltb_spec 5 (p - s)); lia.
Qed.

(** The weekly expiry is a Tuesday, after today, within the week. *)
Lemma weeklyExpiry_spec ts :
  Weekday (weeklyExpiry ts) = 2 ∧ ist_day ts < ist_day (weeklyExpiry ts) <= ist_day ts + 7.
Proof.
  assert (∀ d, ist_day (expiry_time d) = d) as Hd.
  { intros d. unfold expiry_time, ist_date, ist_day. replace (_ + ist_offset) with (d * day_ns + (15 * Hour + 30 * Minute)) by lia.
    rewrite Z.div_add_l by (unfold day_ns, Hour; lia). rewrite Z.div_small; [lia|unfold day_ns, Hour, Minute; lia]. }
  unfold weeklyExpiry, Weekday. rewrite !Hd. pose proof (Z.mod_pos_bound (ist_day ts + 4) 7 ltac:(lia)) as Hw.
  set (w := (ist_day ts + 4) mod 7) in *. pose proof (Z.mod_pos_bound (2 - w + 7) 7 ltac:(lia)).
  pose proof (Z.div_mod (ist_day ts + 4) 7 ltac:(lia)) as He. fold w in He. pose proof (Z.div_mod (2 - w + 7) 7 ltac:(lia)) as Hf.
  destruct (Z.eqb_spec ((2 - w + 7) mod 7) 0) as [H0|H0]; (split; [|lia]).
  - rewrite H0 in Hf. replace (ist_day ts + 7 + 4) with (2 + (1 + (ist_day ts + 4) / 7 + (if 2 <? w then 1 else 0)) * 7).
    + rewrite Z.mod_add by lia. reflexivity.
    + destruct (Z.ltb_spec 2 w); lia.
  - replace (ist_day ts + (2 - w + 7) mod 7 + 4) with (2 + ((ist_day ts + 4) / 7 + 1 - (2 - w + 7) / 7) * 7) by lia.
    rewrite Z.mod_add by lia. reflexivity.
Qed.

(** ** A step that is not absurd *)

Lemma strike_step_pos m : 0 < strike_step m.
Proof. unfold strike_step. destruct (Z.leb_spec (om_StrikeStep m) 0); lia. Qed.

Lemma atm_total m spot : strike_step m <= 10 ^ 15 → ∃ k, model_atmStrike m spot = Some k.
Proof.
  intros Hs. pose proof (strike_step_pos m) as Hp. unfold model_atmStrike. rewrite i64_id by (i64_unfold; lia).
  destruct (Z.eqb_spec (strike_step m * 100) 0); [lia|by eexists].
Qed.
