(* ===== verification/Backtest.v ===== *)
(** The backtest engine (internal/backtest: engine.go, exit_policy.go,
    exitwatch.go): index minutes replayed through a strategy, with the option
    priced by the model, the exit policy and the pre-target rejection rule
    stepped as they are live.

    The candles' tables (loadCandles, loadFNOCandles, loadVIX) are the engine's
    data here.  Each candle comes with the wall clock's reading while it is
    replayed, which the level book looks at.  A day is its number, not its
    text.  [None] is a panic. *)
From Stdlib Require Import SpecFloat.
From S2P Require Import Prelude Float64 GoText Model MarketHours OptionMath RangeContext SrContext ExitPolicy ExitLevels ExitScore ExitTracker ExitRunner ExitWatch ExitReplay Nifty50SrState Nifty50Sr SrView OptionModel.
#[local] Open Scope Z_scope.
#[local] Open Scope go_scope.

(** ** Strategies *)

(** [backtestStrategy], and the interfaces the engine asks for by type
    assertion: [None] where the strategy does not have one. *)
Record premiumTicks (St : Type) := {
  pt_SetPositionToken : string → St → St; pt_SetFNOEntryPrice : Z → St → St; pt_PremiumExitsOnTicks : St → bool }.
Arguments pt_SetPositionToken {St}.
Arguments pt_SetFNOEntryPrice {St}.
Arguments pt_PremiumExitsOnTicks {St}.

Class backtestStrategy (St : Type) := {
  bs_OnTFCandle : TFCandle → St → option (option Signal * St);
  bs_OnTick : Tick → St → option Signal * St;
  bs_ResetPositions : St → St;
  bs_CancelEntry : option (PositionSide → string → St → St);
  bs_ExitRequested : option (PositionSide → string → string → St → option Signal * St);
  bs_ProtectArmed : option (PositionSide → St → bool);
  bs_View : option (string → St → option SRView);
  bs_premiumTicks : option (premiumTicks St) }.

#[export] Instance Nifty50SR_backtest `{MO : MapOrder} : backtestStrategy Nifty50SR := {|
  bs_OnTFCandle := Nifty50Sr.OnTFCandle;
  bs_OnTick := Nifty50Sr.OnTick;
  bs_ResetPositions := Nifty50Sr.ResetPositions;
  bs_CancelEntry := Some (λ side _, Nifty50Sr.CancelEntry side);
  bs_ExitRequested := Some Nifty50Sr.ExitRequested;
  bs_ProtectArmed := Some Nifty50Sr.ProtectArmed;
  bs_View := Some View;
  bs_premiumTicks := Some {| pt_SetPositionToken := SetPositionToken; pt_SetFNOEntryPrice := SetFNOEntryPrice;
                             pt_PremiumExitsOnTicks := λ _, true |} |}.

(** ** Data *)

Record BTConfig := {
  bc_Exchange : string; bc_Token : string; bc_Qty : Z; bc_StrategyType : string; bc_StrategyCfgSR : option Nifty50SRConfig;
  bc_CandleTF : Z; bc_Option : OptionModel; bc_PickHoldMinutes : float64; bc_ExitPolicy : option StrategyConfig;
  bc_PreReject : option Params }.

Record Trade := {
  tr_ID : Z; tr_Side : PositionSide; tr_EntryTime : Time; tr_ExitTime : Time; tr_EntryPrice : Z; tr_ExitPrice : Z;
  tr_EntryReason : string; tr_ExitReason : string; tr_FNOEntryPrice : Z; tr_FNOExitPrice : Z; tr_Strike : Z; tr_SameDay : bool;
  tr_TargetMove : Z; tr_modelMid : Z; tr_ShadowExit : string; tr_ShadowExitTime : Time; tr_ShadowExitFNO : Z }.

#[export] Instance Trade_settable : Settable Trade := λ t, {|
  tr_ID := tr_ID t; tr_Side := tr_Side t; tr_EntryTime := tr_EntryTime t; tr_ExitTime := tr_ExitTime t; tr_EntryPrice := tr_EntryPrice t;
  tr_ExitPrice := tr_ExitPrice t; tr_EntryReason := tr_EntryReason t; tr_ExitReason := tr_ExitReason t;
  tr_FNOEntryPrice := tr_FNOEntryPrice t; tr_FNOExitPrice := tr_FNOExitPrice t; tr_Strike := tr_Strike t; tr_SameDay := tr_SameDay t;
  tr_TargetMove := tr_TargetMove t; tr_modelMid := tr_modelMid t; tr_ShadowExit := tr_ShadowExit t;
  tr_ShadowExitTime := tr_ShadowExitTime t; tr_ShadowExitFNO := tr_ShadowExitFNO t |}.

Definition PnLPaise (t : Trade) : Z :=
  let call := String.eqb (tr_Side t) SideCall in
  let put := String.eqb (tr_Side t) SidePut in
  if (0 <? tr_FNOEntryPrice t) && (0 <? tr_FNOExitPrice t)
  then if call || put then tr_FNOExitPrice t -! tr_FNOEntryPrice t else 0
  else if call then tr_ExitPrice t -! tr_EntryPrice t
  else if put then tr_EntryPrice t -! tr_ExitPrice t
  else 0.

Definition PnLRupees (t : Trade) : float64 := #(PnLPaise t) ⊘ #100.
Definition trade_Duration (t : Trade) : Duration := t_sub (tr_ExitTime t) (tr_EntryTime t).

(** The engine: its configuration, the prices it loaded, and how many entries
    its gate has refused. *)
Record BTEngine := { be_cfg : BTConfig; be_callPrices : gmap Z Z; be_putPrices : gmap Z Z; be_vix : gmap Z Z; be_skipped : Z }.

Definition New_BTEngine (cfg : BTConfig) : BTEngine := {|
  be_cfg := cfg; be_callPrices := ∅; be_putPrices := ∅; be_vix := ∅; be_skipped := 0 |}.

Definition Skipped (e : BTEngine) : Z := be_skipped e.

Definition lookupFNOPrice (e : BTEngine) (side : PositionSide) (tsUnix : Z) : Z :=
  if String.eqb side SideCall then default 0 (be_callPrices e !! tsUnix)
  else if String.eqb side SidePut then default 0 (be_putPrices e !! tsUnix)
  else 0.

(** ** Candles *)

(** A bucket of minutes as one candle, stamped with its last minute. *)
Definition merge_minutes (outTFSec : Z) (first : TFCandle) (rest : list TFCandle) : TFCandle :=
  let agg := foldl (λ agg c, {|
    tfc_Token := tfc_Token agg; tfc_Exchange := tfc_Exchange agg; tfc_TF := tfc_TF agg; tfc_TS := tfc_TS agg; tfc_Open := tfc_Open agg;
    tfc_High := if tfc_High agg <? tfc_High c then tfc_High c else tfc_High agg;
    tfc_Low := if tfc_Low c <? tfc_Low agg then tfc_Low c else tfc_Low agg;
    tfc_Close := tfc_Close c; tfc_Volume := tfc_Volume agg +! tfc_Volume c; tfc_Count := tfc_Count agg; tfc_Forming := tfc_Forming agg |})
    first rest in {|
  tfc_Token := tfc_Token agg; tfc_Exchange := tfc_Exchange agg; tfc_TF := outTFSec; tfc_TS := tfc_TS (List.last rest first);
  tfc_Open := tfc_Open agg; tfc_High := tfc_High agg; tfc_Low := tfc_Low agg; tfc_Close := tfc_Close agg; tfc_Volume := tfc_Volume agg;
  tfc_Count := tfc_Count agg; tfc_Forming := tfc_Forming agg |}.

Definition flush_bucket (outTFSec : Z) (bucket : list TFCandle) : list TFCandle :=
  match bucket with [] => [] | first :: rest => [merge_minutes outTFSec first rest] end.

Fixpoint aggregate_loop (n outTFSec : Z) (bucket candles : list TFCandle) : list TFCandle :=
  match candles with
  | [] => flush_bucket outTFSec bucket
  | c :: candles =>
      let bucket := bucket ++ [c] in
      if n <=? Z.of_nat (length bucket) then flush_bucket outTFSec bucket ++ aggregate_loop n outTFSec [] candles
      else aggregate_loop n outTFSec bucket candles
  end.

Definition aggregateCandles (candles : list TFCandle) (nMinutes outTFSec : Z) : list TFCandle :=
  if nMinutes <=? 1 then candles else aggregate_loop nMinutes outTFSec [] candles.

Definition rupeeToPaise (r : float64) : Z := f64_to_int (f64_round (r ⊗ #100)).

(** [loadCandles], after the table is read. *)
Definition prepare_candles (tfMin : Z) (raw : list TFCandle) : list TFCandle :=
  if tfMin <=? 1 then raw else aggregateCandles raw tfMin (tfMin *! 60).

(** ** The option model *)

Section engine.
Context `{ME : MathExp} `{ML : MathLog} `{MC : MathErfc} `{MO : MapOrder} `{SS : SliceSort}.

(** India VIX at the nearest earlier minute within half an hour. *)
Definition vixAt (e : BTEngine) (ts : Time) : float64 :=
  let m := t_unix (truncate_minute ts) in
  match omap (λ i, v ← be_vix e !! (m - i * 60); if 0 <? v then Some v else None) (seqZ 0 30) with
  | v :: _ => #v ⊘ #100
  | [] => f64_zero
  end.

Definition daysTo (from to : Time) : Z :=
  f64_to_int (d_hours (t_sub (ist_date (ist_day to) 0 0) (ist_date (ist_day from) 0 0)) ⊘ #24).

Definition expiryFor (e : BTEngine) (t : Trade) (ts : Time) : Time :=
  if tr_SameDay t then sameDayExpiry (tr_EntryTime t)
  else
    let exp := weeklyExpiry ts in
    let n := om_ExpiryMinDTE (bc_Option (be_cfg e)) in
    if (0 <? n) && (daysTo (tr_EntryTime t) exp <? n) then t_add exp (7 * day_ns) else exp.

Definition model_of (e : BTEngine) : OptionModel := bc_Option (be_cfg e).

(** The model's price of a trade's contract. *)
Definition price_at (e : BTEngine) (t : Trade) (spot : Z) (ts : Time) : Z :=
  premiumTo (model_of e) (tr_Side t) (tr_Strike t) spot ts (vixAt e ts) (expiryFor e t ts).

Definition modelMidAt (e : BTEngine) (t : Trade) (c : TFCandle) : Z := price_at e t (tfc_Close c) (tfc_TS c).

Definition modelEntry (e : BTEngine) (t : Trade) (strike : Z) (ts : Time) : option Trade :=
  if negb (om_Enabled (model_of e)) then Some t
  else
    strike ← (if strike <=? 0 then model_atmStrike (model_of e) (tr_EntryPrice t) else Some strike);
    let t := t <| tr_Strike := strike |> in
    let t := t <| tr_modelMid := price_at e t (tr_EntryPrice t) ts |> in
    Some (t <| tr_FNOEntryPrice := slip (model_of e) true (tr_modelMid t) |>).

Definition exitFNO (e : BTEngine) (t : Trade) (ts : Time) : Z :=
  if negb (om_Enabled (model_of e)) || (tr_Strike t =? 0) then lookupFNOPrice e (tr_Side t) (t_unix ts)
  else slip (model_of e) false (price_at e t (tr_ExitPrice t) ts).

Definition premiumStopHit (e : BTEngine) (t : Trade) (c : TFCandle) : bool :=
  let m := model_of e in
  if negb (om_Enabled m) || (om_PremiumSLPct m <=? 0) || (tr_modelMid t <=? 0) then false
  else modelMidAt e t c *! 100 <=? tr_modelMid t *! (100 -! om_PremiumSLPct m).

(** The reason an entry is refused. *)
Definition entry_refusal (e : BTEngine) (sig : Signal) (c : TFCandle) : option (option string) :=
  let m := model_of e in
  if negb (om_Enabled m) || ((om_MinEntryPremium m <=? 0) && (om_MinEntryDTE m <=? 0)) || sig_SameDayExpiry sig then Some None
  else
    let expiry := weeklyExpiry (tfc_TS c) in
    let dte := daysTo (tfc_TS c) expiry in
    if (0 <? om_MinEntryDTE m) && (dte <? om_MinEntryDTE m)
    then Some (Some ("expiry " +:+ format_int dte +:+ " day(s) out < " +:+ format_int (om_MinEntryDTE m)))
    else if 0 <? om_MinEntryPremium m then
      strike ← (if sig_Strike sig <=? 0 then model_atmStrike m (tfc_Close c) else Some (sig_Strike sig));
      let p := premiumTo m (sig_Side sig) strike (tfc_Close c) (tfc_TS c) (vixAt e (tfc_TS c)) expiry in
      Some (if p <? om_MinEntryPremium m
            then Some ("premium ₹" +:+ format_fixed 2 (#p ⊘ #100) +:+ " < ₹" +:+ format_fixed 2 (#(om_MinEntryPremium m) ⊘ #100))
            else None)
    else Some None.

(** ** The exit policy on the replay's one trade (exit_policy.go) *)

Definition btPolicyKey : string := "BT".
Record btPolicy := { bp_arb : Arbiter; bp_plan : Plan }.

Definition newBTPolicy (e : BTEngine) : option btPolicy :=
  match bc_ExitPolicy (be_cfg e) with
  | None => None
  | Some sc =>
      if String.eqb (sc_Mode sc) ModeOff || String.eqb (sc_Mode sc) "" || negb (om_Enabled (model_of e)) then None
      else Some {| bp_arb := NewArbiter; bp_plan := StrategyConfig_Plan sc |}
  end.

Definition modelGreeks (e : BTEngine) (t : Trade) (c : TFCandle) : Greeks :=
  let m := model_of e in
  let iv := vixAt e (tfc_TS c) in
  let iv := if f64_leb iv f64_zero then om_IVPct m else iv in
  GreeksAt (#(tfc_Close c) ⊘ #100) #(tr_Strike t) (years_until (expiryFor e t (tfc_TS c)) (tfc_TS c)) (iv ⊘ #100) (om_RatePct m ⊘ #100)
    (String.eqb (tr_Side t) SideCall).

Definition policy_position (e : BTEngine) (t : Trade) (c : TFCandle) (targetMove : Z) : ExitPolicy.Position :=
  let g := modelGreeks e t c in {|
  po_Key := btPolicyKey; po_Strategy := "BACKTEST"; po_Side := tr_Side t; po_IndexToken := "INDEX"; po_FNOToken := "MODEL";
  po_EntryTS := t_add (tfc_TS c) Minute; po_IndexEntry := tfc_Close c; po_PremEntry := tr_modelMid t;
  po_Greeks := NewEntryGreeks (gr_Delta g) (gr_Theta g) targetMove |}.

Definition policy_open (e : BTEngine) (t : Trade) (c : TFCandle) (targetMove : Z) (p : btPolicy) : btPolicy :=
  if tr_modelMid t <=? 0 then p
  else {| bp_arb := ExitPolicy.Open (policy_position e t c targetMove) (bp_plan p) (bp_arb p); bp_plan := bp_plan p |}.

Definition policy_step (e : BTEngine) (armed : ExitPolicy.Position → bool) (t : Trade) (c : TFCandle) (p : btPolicy) :
    option (option ExitPolicy.Decision * btPolicy) :=
  let a := ExitPolicy.OnTick "INDEX" (tfc_Close c) (bp_arb p) in
  let a := ExitPolicy.OnTick "MODEL" (modelMidAt e t c) a in
  match ExitPolicy.OnMinute (t_add (tfc_TS c) Minute) (Some armed) a with
  | Some (ds, a) => Some (head ds, {| bp_arb := a; bp_plan := bp_plan p |})
  | None => None
  end.

(** ** The rejection rule (exitwatch.go) *)

Record btPreReject := { br_r : PreRejectReplay; br_key : string; br_prev : option TFCandle }.

Definition newBTPreReject (e : BTEngine) : option btPreReject :=
  (λ p, {| br_r := NewPreRejectReplay p; br_key := bc_Exchange (be_cfg e) +:+ ":" +:+ bc_Token (be_cfg e); br_prev := None |})
    <$> bc_PreReject (be_cfg e).

Definition pre_advance (b : btPreReject) : btPreReject :=
  match br_prev b with
  | Some c => {| br_r := replay_OnBar c (br_r b); br_key := br_key b; br_prev := None |}
  | None => b
  end.
Definition pre_pend (c : TFCandle) (b : btPreReject) : btPreReject := {| br_r := br_r b; br_key := br_key b; br_prev := Some c |}.
Definition pre_open (t : Trade) (c : TFCandle) (targetMove : Z) (b : btPreReject) : btPreReject :=
  {| br_r := replay_Open (tr_Side t) (tfc_Close c) targetMove (br_r b); br_key := br_key b; br_prev := br_prev b |}.

(** The strategy's levels go to the book before the rule is stepped. *)
Definition take_view (v : SRView) (r : PreRejectReplay) : PreRejectReplay :=
  r <| pp_book := SetTrend (vw_ADX v)
         (SetOurSR ((λ l, OurSRLevel (lv_Price l) (lv_Source l) (lv_Touches l)) <$> vw_Levels v) (pp_book r)) |>.

Definition pre_step (view : string → option SRView) (wall : Time) (c : TFCandle) (b : btPreReject) : option string * btPreReject :=
  let r := from_option (λ v, take_view v (br_r b)) (br_r b) (view (br_key b)) in
  let '(exit, r) := replay_Step wall c r in
  (exit, {| br_r := r; br_key := br_key b; br_prev := br_prev b |}).

(** ** The replay *)

Context {St : Type} `{BS : backtestStrategy St} (e : BTEngine).

Record btState := {
  bt_strat : St; bt_trades : list Trade; bt_open : option Trade; bt_id : Z; bt_day : option Z; bt_pol : option btPolicy;
  bt_pre : option btPreReject; bt_skipped : Z }.
#[export] Instance btState_settable : Settable btState := λ s, {|
  bt_strat := bt_strat s; bt_trades := bt_trades s; bt_open := bt_open s; bt_id := bt_id s; bt_day := bt_day s; bt_pol := bt_pol s;
  bt_pre := bt_pre s; bt_skipped := bt_skipped s |}.

Definition bt_start (strat : St) : btState := {|
  bt_strat := strat; bt_trades := []; bt_open := None; bt_id := 0; bt_day := None; bt_pol := newBTPolicy e; bt_pre := newBTPreReject e;
  bt_skipped := be_skipped e |}.

Definition closed_trade (t : Trade) (ts : Time) (price : Z) (reason : string) : Trade :=
  let t := t <| tr_ExitTime := ts |> <| tr_ExitPrice := price |> in
  t <| tr_FNOExitPrice := exitFNO e t ts |> <| tr_ExitReason := reason |>.

(** The open trade is over. *)
Definition close_open (ts : Time) (price : Z) (reason : string) (s : btState) : btState :=
  match bt_open s with
  | Some t => s <| bt_trades := bt_trades s ++ [closed_trade t ts price reason] |> <| bt_open := None |>
  | None => s
  end.
Definition close_at (c : TFCandle) (reason : string) (s : btState) : btState := close_open (tfc_TS c) (tfc_Close c) reason s.

Definition set_strat (f : St → St) (s : btState) : btState := s <| bt_strat := f (bt_strat s) |>.

(** The strategy sees the candle; what it says is not acted on. *)
Definition feed (c : TFCandle) (s : btState) : option btState :=
  '(_, strat) ← bs_OnTFCandle c (bt_strat s); Some (s <| bt_strat := strat |>).

(** A new day closes what the last one left. *)
Definition roll_day (c : TFCandle) (s : btState) : btState :=
  let day := ist_day (tfc_TS c) in
  let stale := match bt_day s with Some d => negb (d =? day) | None => false end in
  let s := if stale && bool_decide (is_Some (bt_open s))
           then set_strat bs_ResetPositions (close_open (tfc_TS c) (tfc_Open c) "end of day (forced close)" s) else s in
  s <| bt_day := Some day |>.

Definition in_session (ts : Time) : bool := (ist_date (ist_day ts) 9 15 <=? ts) && (ts <=? ist_date (ist_day ts) 15 30).
Definition at_close (ts : Time) : bool := ist_date (ist_day ts) 15 29 <=? ts.

Definition plain_tick (token exchange : string) (price : Z) (ts : Time) : Tick := {|
  tick_Token := token; tick_Exchange := exchange; tick_Price := price; tick_Qty := 0; tick_DayVolume := 0; tick_TickTS := ts;
  tick_EventTS := zero_time; tick_BestBid := 0; tick_BestAsk := 0; tick_OI := 0; tick_QuoteTS := zero_time |}.

(** The low, then the high, as ticks of the index. *)
Definition checkCandleStoplossTF (c : TFCandle) (strat : St) : option Signal * St :=
  let tick price := plain_tick (tfc_Token c) (tfc_Exchange c) price (tfc_TS c) in
  match bs_OnTick (tick (tfc_Low c)) strat with
  | (Some sig, strat) => (Some sig, strat)
  | (None, strat) => bs_OnTick (tick (tfc_High c)) strat
  end.

Definition modelTicks (s : btState) : bool :=
  match bs_premiumTicks with Some p => om_Enabled (model_of e) && pt_PremiumExitsOnTicks p (bt_strat s) | None => false end.

Definition armModelTicks (t : Trade) (s : btState) : btState :=
  match bs_premiumTicks with
  | Some p =>
      if negb (modelTicks s) || (tr_modelMid t <=? 0) then s
      else set_strat (λ st, pt_SetFNOEntryPrice p (tr_modelMid t) (pt_SetPositionToken p "NFO:MODEL" st)) s
  | None => s
  end.

(** What a check made of the candle: done with it, or go on. *)
Inductive outcome := Done (s : btState) | GoOn (s : btState).

Definition stop_check (c : TFCandle) (s : btState) : outcome :=
  match bt_open s with
  | None => GoOn s
  | Some _ =>
      let '(sig, strat) := checkCandleStoplossTF c (bt_strat s) in
      let s := s <| bt_strat := strat |> in
      match sig with Some sig => Done (close_at c (sig_Reason sig) s) | None => GoOn s end
  end.

Definition premium_tick_check (c : TFCandle) (s : btState) : option outcome :=
  match bt_open s with
  | Some t =>
      if negb (modelTicks s) then Some (GoOn s)
      else
        let '(sig, strat) := bs_OnTick (plain_tick "MODEL" "NFO" (modelMidAt e t c) zero_time) (bt_strat s) in
        let s := s <| bt_strat := strat |> in
        match sig with
        | Some ex => if String.eqb (sig_Action ex) ActionExit then Done <$> feed c (close_at c (sig_Reason ex) s) else Some (GoOn s)
        | None => Some (GoOn s)
        end
  | None => Some (GoOn s)
  end.

Definition premium_stop_check (c : TFCandle) (s : btState) : option outcome :=
  match bt_open s with
  | Some t =>
      if negb (modelTicks s) && premiumStopHit e t c
      then Done <$> feed c (set_strat bs_ResetPositions
             (close_at c ("MODEL PREMIUM SL " +:+ format_int (om_PremiumSLPct (model_of e)) +:+ "%") s))
      else Some (GoOn s)
  | None => Some (GoOn s)
  end.

(** The strategy is asked to leave; it says whether it held the position. *)
Definition request_exit (c : TFCandle) (t : Trade) (reason : string) (s : btState) : option outcome :=
  match bs_ExitRequested with
  | None => Some (GoOn s)
  | Some ask =>
      let '(sig, strat) := ask (tr_Side t) "" reason (bt_strat s) in
      let s := s <| bt_strat := strat |> in
      match sig with Some _ => Done <$> feed c (close_at c reason s) | None => Some (GoOn s) end
  end.

Definition protect_armed (s : btState) (p : ExitPolicy.Position) : bool :=
  match bs_ProtectArmed with Some f => f (po_Side p) (bt_strat s) | None => false end.

Definition policy_check (c : TFCandle) (s : btState) : option outcome :=
  match bt_open s, bt_pol s with
  | Some t, Some p =>
      '(d, p) ← policy_step e (protect_armed s) t c p;
      let s := s <| bt_pol := Some p |> in
      match d with
      | None => Some (GoOn s)
      | Some d =>
          if de_Shadow d
          then Some (GoOn (s <| bt_open := Some (t <| tr_ShadowExit := de_Text d |> <| tr_ShadowExitTime := tfc_TS c |>
                               <| tr_ShadowExitFNO := slip (model_of e) false (modelMidAt e t c) |>) |>))
          else request_exit c t (de_Text d) s
      end
  | _, _ => Some (GoOn s)
  end.

Definition view_of (s : btState) (key : string) : option SRView :=
  match bs_View with Some f => f key (bt_strat s) | None => None end.

Definition reject_check (wall : Time) (c : TFCandle) (s : btState) : option outcome :=
  match bt_open s, bt_pre s with
  | Some t, Some b =>
      let '(exit, b) := pre_step (view_of s) wall c b in
      let s := s <| bt_pre := Some b |> in
      match exit with Some text => request_exit c t ("EXITWATCH SR_REJECT_PRE: " +:+ text) s | None => Some (GoOn s) end
  | _, _ => Some (GoOn s)
  end.

Definition new_trade (id : Z) (side : PositionSide) (c : TFCandle) (reason : string) (sameDay : bool) (targetMove : Z) : Trade := {|
  tr_ID := id; tr_Side := side; tr_EntryTime := tfc_TS c; tr_ExitTime := zero_time; tr_EntryPrice := tfc_Close c; tr_ExitPrice := 0;
  tr_EntryReason := reason; tr_ExitReason := ""; tr_FNOEntryPrice := lookupFNOPrice e side (t_unix (tfc_TS c)); tr_FNOExitPrice := 0;
  tr_Strike := 0; tr_SameDay := sameDay; tr_TargetMove := targetMove; tr_modelMid := 0; tr_ShadowExit := ""; tr_ShadowExitTime := zero_time;
  tr_ShadowExitFNO := 0 |}.

(** A BUY, unless the gate refuses it. *)
Definition take_entry (sig : Signal) (c : TFCandle) (s : btState) : option btState :=
  refusal ← entry_refusal e sig c;
  match refusal with
  | Some why =>
      let s := s <| bt_skipped := bt_skipped s +! 1 |> in
      Some (match bs_CancelEntry with Some f => set_strat (f (sig_Side sig) why) s | None => s end)
  | None =>
      let s := close_at c "replaced by new entry" s in
      let id := bt_id s +! 1 in
      t ← modelEntry e (new_trade id (sig_Side sig) c (sig_Reason sig) (sig_SameDayExpiry sig) (sig_TargetMove sig)) (sig_Strike sig) (tfc_TS c);
      let s := armModelTicks t (s <| bt_id := id |> <| bt_open := Some t |>) in
      Some (s <| bt_pol := policy_open e t c (sig_TargetMove sig) <$> bt_pol s |> <| bt_pre := pre_open t c (sig_TargetMove sig) <$> bt_pre s |>)
  end.

(** A reversing exit opens the other side at once. *)
Definition take_exit (sig : Signal) (c : TFCandle) (s : btState) : option btState :=
  let s := close_at c (sig_Reason sig) s in
  let side := sig_ReverseTo sig in
  if String.eqb side SideCall || String.eqb side SidePut then
    let id := bt_id s +! 1 in
    t ← modelEntry e (new_trade id side c ("REVERSE: " +:+ sig_Reason sig) false 0) (sig_Strike sig) (tfc_TS c);
    Some (s <| bt_id := id |> <| bt_open := Some t |> <| bt_pol := policy_open e t c 0 <$> bt_pol s |>)
  else Some s.

Definition take_signal (sig : option Signal) (c : TFCandle) (s : btState) : option btState :=
  match sig with
  | None => Some s
  | Some sig =>
      if String.eqb (sig_Action sig) ActionBuy then take_entry sig c s
      else if String.eqb (sig_Action sig) ActionExit then take_exit sig c s
      else Some s
  end.

Definition and_then (o : outcome) (f : btState → option outcome) : option outcome :=
  match o with Done s => Some (Done s) | GoOn s => f s end.

(** The checks of an open trade, in their order. *)
Definition checks (wall : Time) (c : TFCandle) (s : btState) : option outcome :=
  o ← premium_tick_check c s;
  o ← and_then o (premium_stop_check c);
  o ← and_then o (policy_check c);
  and_then o (reject_check wall c).

Definition session_candle (wall : Time) (c : TFCandle) (s : btState) : option btState :=
  if at_close (tfc_TS c) then feed c (close_at c "end of day (15:29 close)" s)
  else
    o ← and_then (stop_check c s) (checks wall c);
    match o with
    | Done s => Some s
    | GoOn s => '(sig, strat) ← bs_OnTFCandle c (bt_strat s); take_signal sig c (s <| bt_strat := strat |>)
    end.

Definition replay_candle (s : btState) (cw : TFCandle * Time) : option btState :=
  let '(c, wall) := cw in
  let s := roll_day c s in
  if negb (in_session (tfc_TS c)) then Some s
  else session_candle wall c (s <| bt_pre := (λ b, pre_pend c (pre_advance b)) <$> bt_pre s |>).

Fixpoint replay_loop (candles : list (TFCandle * Time)) (s : btState) : option btState :=
  match candles with
  | [] => Some s
  | cw :: candles => s ← replay_candle s cw; replay_loop candles s
  end.

(** What is still open ends with the data. *)
Definition replay_end (candles : list (TFCandle * Time)) (s : btState) : btState :=
  match last candles with Some (c, _) => close_at c "end of data" s | None => s end.

Definition replayStrategy (strat : St) (candles : list (TFCandle * Time)) : option btState :=
  replay_end candles <$> replay_loop candles (bt_start strat).
End engine.
Arguments btState St : clear implicits.

(** The strategy a run of the service's own type replays. *)
Definition sr_for_run (cfg : BTConfig) : Nifty50SR :=
  NewNifty50SR (bc_Qty cfg) (default DefaultNifty50SRConfig (bc_StrategyCfgSR cfg) <| nc_IndexToken := bc_Exchange cfg +:+ ":" +:+ bc_Token cfg |>).
