(* ===== verification/BacktestOk.v ===== *)
(** What holds of any backtest, whatever the strategy: its trades follow one
    another, each from one candle's close to a later candle, none is carried
    past the close of its day but to the first candle of another day, and each
    is bought and sold at what the model, or the recorded prices, say of its
    contract. *)
From Stdlib Require Import SpecFloat ssreflect.
From S2P Require Import Prelude Float64 GoText Model MarketHours OptionMath RangeContext SrContext ExitPolicy ExitLevels ExitScore ExitTracker ExitRunner ExitWatch ExitReplay Nifty50SrState Nifty50Sr SrView OptionModel Backtest.
#[local] Open Scope Z_scope.
#[local] Open Scope go_scope.

Section backtest.
Context `{ME : MathExp} `{ML : MathLog} `{MC : MathErfc} `{MO : MapOrder} `{SS : SliceSort}.
Context {St : Type} `{BS : backtestStrategy St} (e : BTEngine) (cs : list (TFCandle * Time)).
Implicit Types (s : btState St) (t : Trade) (c : TFCandle).

(** ** The books *)

(** Candle [k] is over without closing anything of [day]. *)
Definition quiet (day : Z) (i lim : nat) : Prop :=
  ∀ k c w, (i < k < lim)%nat → cs !! k = Some (c, w) →
  ist_day (tfc_TS c) = day ∧ (in_session (tfc_TS c) = true → at_close (tfc_TS c) = false).

(** What paper slippage takes of a premium. *)
Definition slippage (p : Z) : Z := Z.max (om_SlippageMinPsa (model_of e)) (p *! om_SlippageBps (model_of e) /! 10000).

(** The model's premium of a contract, with the volatility of the time. *)
Definition premium_of (side : PositionSide) (strike : Z) (expiry : Time) (spot : Z) (at_ : Time) : Z :=
  premiumTo (model_of e) side strike spot at_ (vixAt e at_) expiry.

(** The expiry of the contract bought. *)
Definition bought_expiry (t : Trade) : Time := expiryFor e t (tr_EntryTime t).

(** With a model, the contract costs its premium and the slippage; without,
    its recorded price. *)
Definition bought_at_premium (t : Trade) : Prop :=
  if om_Enabled (model_of e) then
    tr_modelMid t = premium_of (tr_Side t) (tr_Strike t) (bought_expiry t) (tr_EntryPrice t) (tr_EntryTime t) ∧
    tr_FNOEntryPrice t = tr_modelMid t +! slippage (tr_modelMid t)
  else tr_FNOEntryPrice t = lookupFNOPrice e (tr_Side t) (t_unix (tr_EntryTime t)).

(** ... and gives the premium less the slippage, a tick at least. *)
Definition sold_at_premium (t : Trade) (expiry : Time) : Prop :=
  if om_Enabled (model_of e) && negb (tr_Strike t =? 0) then
    let p := premium_of (tr_Side t) (tr_Strike t) expiry (tr_ExitPrice t) (tr_ExitTime t) in
    tr_FNOExitPrice t = Z.max 5 (p -! slippage p)
  else tr_FNOExitPrice t = lookupFNOPrice e (tr_Side t) (t_unix (tr_ExitTime t)).

(** The [id]th trade was entered at the close of candle [i]. *)
Definition entered (id : nat) (t : Trade) (i : nat) : Prop :=
  ∃ c w, cs !! i = Some (c, w) ∧ in_session (tfc_TS c) = true ∧ at_close (tfc_TS c) = false ∧
         tr_ID t = i64 (Z.of_nat id) ∧ tr_EntryTime t = tfc_TS c ∧ tr_EntryPrice t = tfc_Close c ∧ bought_at_premium t.

(** It was left at candle [j]: on its own day, at the candle's close, and the
    contract sold is the one bought; or at the open of a candle of another
    day, with the expiry the model then gives (see [expiry_moves]). *)
Definition left_at (t : Trade) (j : nat) : Prop :=
  ∃ c w, cs !! j = Some (c, w) ∧ tr_ExitTime t = tfc_TS c ∧
         if ist_day (tfc_TS c) =? ist_day (tr_EntryTime t)
         then tr_ExitPrice t = tfc_Close c ∧ sold_at_premium t (bought_expiry t)
         else tr_ExitPrice t = tfc_Open c ∧ sold_at_premium t (expiryFor e t (tr_ExitTime t)).

(** The trades, in order, all left before candle [lim]. *)
Inductive booked : nat → list Trade → Prop :=
  | booked_nil lim : booked lim []
  | booked_snoc lim ts t i j :
      booked (S i) ts → entered (S (length ts)) t i → (i <= j < lim)%nat → quiet (ist_day (tr_EntryTime t)) i j → left_at t j →
      booked lim (ts ++ [t]).

Lemma booked_mono lim lim' ts : (lim <= lim')%nat → booked lim ts → booked lim' ts.
Proof. move => Hle Hb. destruct Hb; [constructor|econstructor; eauto; lia]. Qed.

(** The open trade of a state, entered before candle [lim]. *)
Definition holds (lim : nat) (s : btState St) (t : Trade) : Prop :=
  ∃ i, (i < lim)%nat ∧ booked (S i) (bt_trades s) ∧ entered (S (length (bt_trades s))) t i ∧ quiet (ist_day (tr_EntryTime t)) i lim ∧
       bt_id s = i64 (Z.of_nat (S (length (bt_trades s)))).

Definition flat (lim : nat) (s : btState St) : Prop :=
  bt_open s = None ∧ booked lim (bt_trades s) ∧ bt_id s = i64 (Z.of_nat (length (bt_trades s))).

(** Between two candles. *)
Definition book_inv (lim : nat) (s : btState St) : Prop :=
  flat lim s ∨ ∃ t, bt_open s = Some t ∧ holds lim s t ∧ bt_day s = Some (ist_day (tr_EntryTime t)).

(** While candle [n] of day [day] is replayed. *)
Definition mid (n : nat) (day : Z) (s : btState St) : Prop :=
  bt_day s = Some day ∧ (flat (S n) s ∨ ∃ t, bt_open s = Some t ∧ holds n s t ∧ day = ist_day (tr_EntryTime t)).

Definition same_book (s s' : btState St) : Prop :=
  bt_trades s' = bt_trades s ∧ bt_open s' = bt_open s ∧ bt_id s' = bt_id s ∧ bt_day s' = bt_day s.

Lemma mid_same n day s s' : same_book s s' → mid n day s → mid n day s'.
Proof. move => [Ht [Ho [Hi Hd]]]. by rewrite /mid /flat /holds Ht Ho Hi Hd. Qed.

Lemma flat_same lim s s' : same_book s s' → flat lim s → flat lim s'.
Proof. move => [Ht [Ho [Hi Hd]]]. by rewrite /flat Ht Ho Hi. Qed.

Lemma same_book_trans s1 s2 s3 : same_book s1 s2 → same_book s2 s3 → same_book s1 s3.
Proof. rewrite /same_book. intuition congruence. Qed.

Lemma set_strat_same f s : same_book s (set_strat f s).
Proof. by destruct s. Qed.

Lemma feed_same c s s' : feed c s = Some s' → same_book s s'.
Proof. rewrite /feed. destruct (bs_OnTFCandle c (bt_strat s)) as [[sig st]|]; [|done]. move => [= <-]. by destruct s. Qed.

(** ** Closing *)

(** What a trade keeps from its entry on. *)
Definition entry_part (t : Trade) :=
  (tr_ID t, tr_EntryTime t, tr_EntryPrice t, tr_Side t, tr_Strike t, tr_SameDay t, tr_modelMid t, tr_FNOEntryPrice t).

Lemma closed_trade_entry t ts price reason : entry_part (closed_trade e t ts price reason) = entry_part t.
Proof. by destruct t. Qed.

Lemma closed_trade_exit t ts price reason :
  let t' := closed_trade e t ts price reason in
  tr_ExitTime t' = ts ∧ tr_ExitPrice t' = price ∧ tr_FNOExitPrice t' = exitFNO e t' ts.
Proof. by destruct t. Qed.

Lemma entered_same id t t' i : entry_part t' = entry_part t → entered id t i → entered id t' i.
Proof.
  rewrite /entry_part. move => [E1 E2 E3 E4 E5 E6 E7 E8] [c [w H]]. exists c, w. move: H.
  by rewrite /bought_at_premium /bought_expiry /expiryFor E1 E2 E3 E4 E5 E6 E7 E8.
Qed.

Lemma slip_buys p : slip (model_of e) true p = p +! slippage p.
Proof. rewrite /slip /slippage. destruct (Z.ltb_spec (p *! om_SlippageBps (model_of e) /! 10000) (om_SlippageMinPsa (model_of e))); do 2 f_equal; lia. Qed.

Lemma slip_sells p : slip (model_of e) false p = Z.max 5 (p -! slippage p).
Proof.
  rewrite /slip /slippage. set s := _ /! _. set d := om_SlippageMinPsa _.
  assert ((if s <? d then d else s) = Z.max d s) as -> by (destruct (Z.ltb_spec s d); lia).
  destruct (Z.ltb_spec 5 (p -! Z.max d s)); lia.
Qed.

Lemma exit_sold t : tr_FNOExitPrice t = exitFNO e t (tr_ExitTime t) → sold_at_premium t (expiryFor e t (tr_ExitTime t)).
Proof.
  rewrite /exitFNO /sold_at_premium. destruct (om_Enabled _), (_ =? 0); cbn [negb orb andb]; try done. by rewrite slip_sells.
Qed.

(** On one day the model's expiry does not move. *)
Lemma expiry_of_day t ts : ist_day ts = ist_day (tr_EntryTime t) → expiryFor e t ts = bought_expiry t.
Proof. move => Hd. by rewrite /bought_expiry /expiryFor /weeklyExpiry /Weekday Hd. Qed.

Lemma close_books n lim c w s t price reason :
  (n <= lim <= S n)%nat → cs !! n = Some (c, w) → bt_open s = Some t → holds lim s t →
  price = (if ist_day (tfc_TS c) =? ist_day (tr_EntryTime t) then tfc_Close c else tfc_Open c) →
  flat (S n) (close_open e (tfc_TS c) price reason s).
Proof.
  move => Hlim Hc Ho [i [Hi [Hb [He [Hq Hid]]]]] Hp. rewrite /close_open Ho.
  assert (E2 : tr_EntryTime (closed_trade e t (tfc_TS c) price reason) = tr_EntryTime t) by done.
  destruct (closed_trade_exit t (tfc_TS c) price reason) as (X1 & X2 & X3).
  split; [by destruct s|]. split; [|destruct s; simpl in *; by rewrite Hid length_app Nat.add_comm].
  assert (bt_trades (s <| bt_trades := bt_trades s ++ [closed_trade e t (tfc_TS c) price reason] |> <| bt_open := None |>) =
          bt_trades s ++ [closed_trade e t (tfc_TS c) price reason]) as -> by (by destruct s).
  apply (booked_snoc _ _ _ i n); [done|by eapply entered_same; [apply closed_trade_entry|]|lia|rewrite E2; move => k c' w' Hk; apply Hq; lia|].
  exists c, w. split; [done|]. split; [done|]. rewrite E2 X2. move: Hp.
  assert (Hs := exit_sold _ (eq_trans X3 (f_equal _ (eq_sym X1)))). destruct (Z.eqb_spec (ist_day (tfc_TS c)) (ist_day (tr_EntryTime t))) as [Hd|Hd] => Hp; [|by split].
  split; [done|]. move: Hs. by rewrite X1 expiry_of_day ?E2.
Qed.

Lemma close_flat n c w s reason : cs !! n = Some (c, w) → mid n (ist_day (tfc_TS c)) s → flat (S n) (close_at e c reason s).
Proof.
  move => Hc [_ [Hf|[t [Ho [Hh Hd]]]]]; [|apply (close_books n n c w s t); [lia|done|done|done|by rewrite -Hd Z.eqb_refl]].
  by rewrite /close_at /close_open (proj1 Hf).
Qed.

Lemma close_day c reason s : bt_day (close_at e c reason s) = bt_day s.
Proof. rewrite /close_at /close_open. destruct s as [? ? [t|]]; done. Qed.

Lemma flat_mid n day s : bt_day s = Some day → flat (S n) s → mid n day s.
Proof. split; [done|by left]. Qed.

(** ** The checks *)

Section candle.
Context (n : nat) (c : TFCandle) (w : Time) (Hc : cs !! n = Some (c, w)).
Let day := ist_day (tfc_TS c).

Definition done_ok (s : btState St) : Prop := flat (S n) s ∧ bt_day s = Some day.
Definition outcome_ok (o : outcome) : Prop := match o with Done s => done_ok s | GoOn s => mid n day s end.

Lemma done_same s s' : same_book s s' → done_ok s → done_ok s'.
Proof. move => Hs [H1 H2]. split; [by eapply flat_same|]. by destruct Hs as (_ & _ & _ & ->). Qed.

Lemma close_done reason s : mid n day s → done_ok (close_at e c reason s).
Proof. move => Hm. split; [by eapply close_flat|]. by rewrite close_day (proj1 Hm). Qed.

Lemma close_feed reason f s o : mid n day s → Done <$> feed c (set_strat f (close_at e c reason s)) = Some o → outcome_ok o.
Proof.
  move => Hm. destruct (feed c _) as [s'|] eqn:Hf; [|done]. move => [= <-]. eapply done_same; [|by apply (close_done reason)].
  eapply same_book_trans; [apply set_strat_same|by eapply feed_same].
Qed.

Lemma close_feed_id reason s o : mid n day s → Done <$> feed c (close_at e c reason s) = Some o → outcome_ok o.
Proof.
  move => Hm. destruct (feed c _) as [s'|] eqn:Hf; [|done]. move => [= <-]. eapply done_same; [|by apply (close_done reason)].
  by eapply feed_same.
Qed.

Lemma with_strat_same st s : same_book s (s <| bt_strat := st |>).
Proof. by destruct s. Qed.

Lemma stop_check_ok s : mid n day s → outcome_ok (stop_check e c s).
Proof.
  move => Hm. rewrite /stop_check. destruct (bt_open s); [|done].
  destruct (checkCandleStoplossTF c (bt_strat s)) as [[sig|] st]; simpl.
  - apply close_done. eapply mid_same; [apply with_strat_same|done].
  - eapply mid_same; [apply with_strat_same|done].
Qed.

Lemma premium_tick_ok s o : mid n day s → premium_tick_check e c s = Some o → outcome_ok o.
Proof.
  move => Hm. rewrite /premium_tick_check. destruct (bt_open s) as [t|]; [|by move => [= <-]].
  destruct (modelTicks e s); simpl; [|by move => [= <-]].
  destruct (bs_OnTick _ _) as [[sig|] st]; [|by move => [= <-]; eapply mid_same; [apply with_strat_same|]].
  destruct (String.eqb _ _); [|by move => [= <-]; eapply mid_same; [apply with_strat_same|]].
  apply close_feed_id. eapply mid_same; [apply with_strat_same|done].
Qed.

Lemma premium_stop_ok s o : mid n day s → premium_stop_check e c s = Some o → outcome_ok o.
Proof.
  move => Hm. rewrite /premium_stop_check. destruct (bt_open s) as [t|]; [|by move => [= <-]].
  destruct (_ && _); [by apply close_feed|by move => [= <-]].
Qed.

Lemma request_ok t reason s o : mid n day s → request_exit e c t reason s = Some o → outcome_ok o.
Proof.
  move => Hm. rewrite /request_exit. destruct bs_ExitRequested as [ask|]; [|by move => [= <-]].
  destruct (ask _ _ _ _) as [[sig|] st]; [|by move => [= <-]; eapply mid_same; [apply with_strat_same|]].
  apply close_feed_id. eapply mid_same; [apply with_strat_same|done].
Qed.

Lemma with_pol_same p s : same_book s (s <| bt_pol := p |>).
Proof. by destruct s. Qed.
Lemma with_pre_same p s : same_book s (s <| bt_pre := p |>).
Proof. by destruct s. Qed.

Lemma with_both_same p b s : same_book s (s <| bt_pol := p |> <| bt_pre := b |>).
Proof. by destruct s. Qed.

(** A note on the open trade's shadow exit. *)
Lemma mid_noted t x y z s : bt_open s = Some t → mid n day s →
  mid n day (s <| bt_open := Some (t <| tr_ShadowExit := x |> <| tr_ShadowExitTime := y |> <| tr_ShadowExitFNO := z |>) |>).
Proof.
  move => Ho [Hd [[Hn _]|[t' [Ho' [[i [Hi [Hb [He [Hq Hid]]]]] Hday]]]]]; [by rewrite Ho in Hn|].
  rewrite Ho in Ho'. injection Ho' as <-. destruct s; simpl in *. split; [done|]. right. eexists. split; [done|].
  split; [|by destruct t]. exists i. split; [done|]. split; [done|]. split; [by eapply entered_same; [..|exact He]; destruct t|].
  split; [by destruct t|done].
Qed.

Lemma policy_ok s o : mid n day s → policy_check e c s = Some o → outcome_ok o.
Proof.
  move => Hm. rewrite /policy_check. destruct (bt_open s) as [t|] eqn:Ho; [|by move => [= <-]].
  destruct (bt_pol s) as [p|]; [|by move => [= <-]].
  destruct (policy_step e _ t c p) as [[d p']|]; [|done]. cbn [mbind option_bind].
  assert (mid n day (s <| bt_pol := Some p' |>)) as Hm' by (eapply mid_same; [apply with_pol_same|done]).
  destruct d as [d|]; [|by move => [= <-]]. destruct (de_Shadow d); [|by apply request_ok].
  move => [= <-]. apply mid_noted; [by destruct s|done].
Qed.

Lemma reject_ok wall s o : mid n day s → reject_check e wall c s = Some o → outcome_ok o.
Proof.
  move => Hm. rewrite /reject_check. destruct (bt_open s) as [t|]; [|by move => [= <-]].
  destruct (bt_pre s) as [b|]; [|by move => [= <-]]. destruct (pre_step _ _ _ _) as [exit b'].
  assert (mid n day (s <| bt_pre := Some b' |>)) as Hm' by (eapply mid_same; [apply with_pre_same|done]).
  destruct exit as [text|]; [by apply request_ok|by move => [= <-]].
Qed.

Lemma and_then_ok o f o' : outcome_ok o → (∀ s o', mid n day s → f s = Some o' → outcome_ok o') → and_then o f = Some o' → outcome_ok o'.
Proof. destruct o as [s|s]; simpl; [by move => H _ [= <-]|]. move => H Hf. by apply Hf. Qed.

Lemma checks_ok wall s o : mid n day s → checks e wall c s = Some o → outcome_ok o.
Proof.
  move => Hm. rewrite /checks. destruct (premium_tick_check e c s) as [o1|] eqn:H1; [|done]. cbn [mbind option_bind].
  apply premium_tick_ok in H1; [|done]. destruct (and_then o1 _) as [o2|] eqn:H2; [|done]. cbn [mbind option_bind].
  apply and_then_ok in H2; [|done|exact premium_stop_ok]. destruct (and_then o2 _) as [o3|] eqn:H3; [|done]. cbn [mbind option_bind].
  apply and_then_ok in H3; [|done|exact policy_ok]. apply and_then_ok; [done|]. move => ? ?. apply reject_ok.
Qed.

(** ** Signals *)

Lemma expiry_same t t' ts : tr_SameDay t' = tr_SameDay t → tr_EntryTime t' = tr_EntryTime t → expiryFor e t ts = expiryFor e t' ts.
Proof. by rewrite /expiryFor => -> ->. Qed.

Lemma price_premium t spot ts : price_at e t spot ts = premium_of (tr_Side t) (tr_Strike t) (expiryFor e t ts) spot ts.
Proof. reflexivity. Qed.

(** What the model makes of a new trade. *)
Lemma modelEntry_entry t strike ts t' : modelEntry e t strike ts = Some t' → ts = tr_EntryTime t →
  tr_FNOEntryPrice t = lookupFNOPrice e (tr_Side t) (t_unix ts) →
  (tr_ID t', tr_EntryTime t', tr_EntryPrice t') = (tr_ID t, tr_EntryTime t, tr_EntryPrice t) ∧ bought_at_premium t'.
Proof.
  rewrite /modelEntry /bought_at_premium. move => Hm Hts Hl. subst ts. move: Hm. destruct (om_Enabled (model_of e)); cbn [negb]; [|by move => [= <-]].
  destruct (if strike <=? 0 then _ else _) as [k|]; [|done]. move => [= <-]. split; [done|].
  destruct t. cbn -[slip price_at premium_of slippage expiryFor]. split; [|exact (slip_buys _)].
  rewrite price_premium. apply (f_equal (λ x, premium_of _ _ x _ _)). by apply expiry_same.
Qed.

Lemma armModelTicks_same t s : same_book s (armModelTicks e t s).
Proof. rewrite /armModelTicks. destruct bs_premiumTicks; [|done]. by destruct (_ || _); [|apply set_strat_same]. Qed.

Hypothesis (Hin : in_session (tfc_TS c) = true) (Hbefore : at_close (tfc_TS c) = false).

(** A candle that leaves the state as it is, is quiet. *)
Lemma mid_after s : mid n day s → book_inv (S n) s.
Proof.
  move => [Hd [Hf|[t [Ho [[i [Hi [Hb [He [Hq Hid]]]]] Hday]]]]]; [by left|]. right. exists t. split; [done|].
  split; [|by rewrite Hd Hday]. exists i. split; [lia|]. split; [done|]. split; [done|]. split; [|done].
  move => k c' w' Hk Hlk. destruct (base.decide (k = n)) as [->|Hne]; [|apply (Hq k c' w'); [lia|done]].
  rewrite Hc in Hlk. by injection Hlk as <- <-.
Qed.

(** A trade opened on a flat book at this candle. *)
Lemma opened s t reason id side sameDay tm strike s' :
  done_ok s → id = bt_id s +! 1 → modelEntry e (new_trade e id side c reason sameDay tm) strike (tfc_TS c) = Some t →
  same_book (s <| bt_id := id |> <| bt_open := Some t |>) s' → book_inv (S n) s'.
Proof.
  move => [[_ [Hb Hid]] Hd] -> Hm [H1 [H2 [H3 H4]]].
  destruct (modelEntry_entry _ _ _ _ Hm eq_refl eq_refl) as ([= E1 E2 E3] & Hp).
  right. exists t. split; [by rewrite H2; destruct s|]. split; [|rewrite H4 E2 /=; by destruct s].
  assert (bt_trades s' = bt_trades s) as Ht by (by rewrite H1; destruct s).
  assert (bt_id s' = i64 (Z.of_nat (S (length (bt_trades s))))) as Hi.
  { rewrite H3. destruct s; simpl in *. rewrite Hid i64_add_l. f_equal. lia. }
  exists n. rewrite Ht. split; [lia|]. split; [done|]. split; [|split; [|done]].
  - exists c, w. split; [done|]. split; [done|]. split; [done|]. rewrite E1 E2 E3. split; [|done]. cbn [new_trade tr_ID].
    rewrite Hid i64_add_l. f_equal. lia.
  - move => k c' w' Hk. lia.
Qed.

Lemma take_entry_ok sig s s' : mid n day s → take_entry e sig c s = Some s' → book_inv (S n) s'.
Proof.
  move => Hm. rewrite /take_entry. destruct (entry_refusal e sig c) as [[why|]|]; [| |done]; cbn [mbind option_bind].
  - move => [= <-]. apply mid_after. assert (mid n day (s <| bt_skipped := bt_skipped s +! 1 |>)) as Hm' by (eapply mid_same; [|done]; by destruct s).
    destruct bs_CancelEntry; [|done]. by eapply mid_same; [apply set_strat_same|].
  - set (s0 := close_at e c "replaced by new entry" s). assert (done_ok s0) as H0 by (by apply close_done).
    destruct (modelEntry e _ _ _) as [t|] eqn:He; [|done]. cbn [mbind option_bind]. move => [= <-].
    eapply (opened s0); [done|reflexivity|exact He|]. eapply same_book_trans; [apply armModelTicks_same|].
    apply with_both_same.
Qed.

Lemma take_exit_ok sig s s' : mid n day s → take_exit e sig c s = Some s' → book_inv (S n) s'.
Proof.
  move => Hm. rewrite /take_exit. set (s0 := close_at e c (sig_Reason sig) s). assert (done_ok s0) as H0 by (by apply close_done).
  destruct (_ || _); [|move => [= <-]; by left; apply H0].
  destruct (modelEntry e _ _ _) as [t|] eqn:He; [|done]. cbn [mbind option_bind]. move => [= <-].
  eapply (opened s0); [done|reflexivity|exact He|]. by destruct s0.
Qed.

Lemma take_signal_ok sig s s' : mid n day s → take_signal e sig c s = Some s' → book_inv (S n) s'.
Proof.
  move => Hm. rewrite /take_signal. destruct sig as [sig|]; [|move => [= <-]; by apply mid_after].
  destruct (String.eqb _ _); [by apply take_entry_ok|]. destruct (String.eqb _ _); [by apply take_exit_ok|].
  move => [= <-]. by apply mid_after.
Qed.

Lemma session_candle_ok wall s s' : mid n day s → session_candle e wall c s = Some s' → book_inv (S n) s'.
Proof.
  move => Hm. rewrite /session_candle Hbefore. destruct (and_then _ _) as [o|] eqn:Ho; [|done]. cbn [mbind option_bind].
  apply and_then_ok in Ho; [|by apply stop_check_ok|move => ? ?; apply checks_ok].
  destruct o as [s1|s1]; [move => [= <-]; by left; apply Ho|]. destruct (bs_OnTFCandle c (bt_strat s1)) as [[sig st]|]; [|done].
  cbn [mbind option_bind]. apply take_signal_ok. by eapply mid_same; [apply with_strat_same|].
Qed.
End candle.

(** ** Whole runs *)

Lemma flat_rolled lim f d s : flat lim s → flat lim (set_strat f s <| bt_day := d |>).
Proof. by destruct s. Qed.

Lemma bt_roll_day_ok n c w s : cs !! n = Some (c, w) → book_inv n s → mid n (ist_day (tfc_TS c)) (roll_day e c s).
Proof.
  move => Hc [Hf|[t [Ho [Hh Hd]]]].
  - assert (bt_open (roll_day e c s) = None ∧ bt_trades (roll_day e c s) = bt_trades s ∧ bt_id (roll_day e c s) = bt_id s ∧
            bt_day (roll_day e c s) = Some (ist_day (tfc_TS c))) as (E1 & E2 & E3 & E4).
    { rewrite /roll_day (proj1 Hf) bool_decide_eq_false_2; [by destruct 1|]. rewrite andb_false_r. destruct Hf as [Hn _]. by destruct s. }
    split; [done|]. left. destruct Hf as (_ & Hb & Hi). rewrite /flat E1 E2 E3. split; [done|]. split; [|done].
    eapply booked_mono; [|done]. lia.
  - rewrite /roll_day Ho Hd. rewrite (bool_decide_eq_true_2 (is_Some (Some t))); [by eexists|]. rewrite andb_true_r.
    destruct (Z.eqb_spec (ist_day (tr_EntryTime t)) (ist_day (tfc_TS c))) as [He|He]; cbn [negb].
    + split; [by destruct s|]. right. exists t. split; [by destruct s|]. split; [|done]. by destruct s.
    + split; [by destruct s|]. left.
      apply flat_rolled, (close_books n n c w s t); [lia|done|done|done|].
      by destruct (Z.eqb_spec (ist_day (tfc_TS c)) (ist_day (tr_EntryTime t))) as [Hx|]; [symmetry in Hx|].
Qed.

Lemma replay_candle_ok n s s' cw : cs !! n = Some cw → book_inv n s → replay_candle e s cw = Some s' → book_inv (S n) s'.
Proof.
  destruct cw as [c w]. move => Hc Hi. pose proof (bt_roll_day_ok _ _ _ _ Hc Hi) as Hm. rewrite /replay_candle.
  destruct (in_session (tfc_TS c)) eqn:Hin; cbn [negb].
  - set (s1 := roll_day e c s <| bt_pre := _ |>).
    assert (mid n (ist_day (tfc_TS c)) s1) as Hm1 by (eapply mid_same; [apply with_pre_same|done]). clearbody s1.
    destruct (at_close (tfc_TS c)) eqn:Ha.
    + rewrite /session_candle Ha. move => Hf. left. eapply flat_same; [by eapply feed_same|]. by eapply close_flat.
    + by apply (session_candle_ok _ _ _ Hc Hin Ha).
  - move => [= <-]. destruct Hm as [Hd [Hf|[t [Ho [[i [Hi' [Hb [He [Hq Hid]]]]] Hday]]]]]; [by left|]. right. exists t. split; [done|].
    split; [|by rewrite Hd Hday]. exists i. split; [lia|]. split; [done|]. split; [done|]. split; [|done].
    move => k c' w' Hk Hlk. destruct (base.decide (k = n)) as [->|Hne]; [|apply (Hq k c' w'); [lia|done]].
    rewrite Hc in Hlk. injection Hlk as <- <-. split; [done|]. by rewrite Hin.
Qed.

Lemma replay_loop_ok rest : ∀ n s s', drop n cs = rest → book_inv n s → replay_loop e rest s = Some s' → book_inv (n + length rest) s'.
Proof.
  induction rest as [|cw rest IH]; move => n s s' Hd Hi; [move => [= <-]; by rewrite Nat.add_0_r|]. cbn [replay_loop length].
  assert (cs !! n = Some cw) as Hc by (rewrite -(Nat.add_0_r n) -lookup_drop Hd //).
  destruct (replay_candle e s cw) as [s1|] eqn:H1; [|done]. cbn [mbind option_bind]. rewrite Nat.add_succ_r -Nat.add_succ_l.
  apply IH; [|by eapply replay_candle_ok]. by rewrite -Nat.add_1_r -drop_drop Hd.
Qed.

(** An open trade is of the day of the last candle. *)
Lemma held_day lim n c w s t : cs !! n = Some (c, w) → holds lim s t → S n = lim → ist_day (tfc_TS c) = ist_day (tr_EntryTime t).
Proof.
  move => Hc [i [Hi [_ [[c' [w' [Hc' [_ [_ [_ [Ht _]]]]]]] [Hq _]]]]] Hn. destruct (base.decide (i = n)) as [->|Hne].
  - rewrite Hc in Hc'. injection Hc' as <- <-. by rewrite Ht.
  - by apply (Hq n c w); [lia|].
Qed.

Lemma replay_books strat s :
  replayStrategy e strat cs = Some s → booked (length cs) (bt_trades s) ∧ bt_open s = None.
Proof.
  rewrite /replayStrategy. destruct (replay_loop e cs (bt_start e strat)) as [s1|] eqn:Hl; [|done]. move => [= <-].
  assert (book_inv 0 (bt_start e strat)) as H0 by (left; split; [done|split; [constructor|done]]).
  pose proof (replay_loop_ok cs 0 _ _ (drop_0 _) H0 Hl) as [Hf|[t [Ho [Hh Hd]]]].
  - assert (replay_end e cs s1 = s1) as ->; [|by destruct Hf as (? & ? & _)].
    rewrite /replay_end. destruct (last cs) as [[c w]|]; [|done]. by rewrite /close_at /close_open (proj1 Hf).
  - destruct (last cs) as [[c w]|] eqn:Hlast; [|apply last_None in Hlast as ->; destruct Hh as (i & Hi & _); simpl in Hi; lia].
    assert (cs !! pred (length cs) = Some (c, w)) as Hc by (by rewrite -last_lookup).
    assert (0 < length cs)%nat by (destruct cs; [done|simpl; lia]).
    pose proof (close_books (pred (length cs)) (length cs) c w s1 t (tfc_Close c) "end of data" ltac:(lia) Hc Ho Hh) as Hf.
    rewrite (held_day _ _ _ _ _ _ Hc Hh) ?Z.eqb_refl in Hf; [lia|]. specialize (Hf eq_refl).
    rewrite /replay_end Hlast. rewrite (Nat.lt_succ_pred 0) in Hf; [done|]. by destruct Hf as (? & ? & _).
Qed.

(** C34: whatever the strategy, the trades of a backtest follow one another and
    are numbered from one.  Each is bought at the close of a session candle
    before 15:29, for the model's premium of its contract then plus the
    slippage.  It is left at a candle [j], that one or a later one, every
    candle between being of the same day and none of the session's closing
    minutes: if [j] is of that day too, at its close, for the model's premium
    of the very contract bought less the slippage, a tick at least; if the day
    ran out before, at the open of [j], the first candle of another day, with
    the expiry the model gives then.  Without a model the recorded prices take
    the place of the premiums.  Nothing is left open. *)
Theorem backtest_trades_in_order strat s :
  replayStrategy e strat cs = Some s → booked (length cs) (bt_trades s) ∧ bt_open s = None.
Proof. apply replay_books. Qed.
End backtest.

(** ** A day of trades *)

(** A strategy that says what its script says, a line a candle. *)
#[local] Instance scripted : backtestStrategy (list (option Signal)) := {|
  bs_OnTFCandle := λ _ script, Some (match script with [] => (None, []) | sig :: script => (sig, script) end);
  bs_OnTick := λ _ script, (None, script); bs_ResetPositions := λ script, script;
  bs_CancelEntry := None; bs_ExitRequested := None; bs_ProtectArmed := None; bs_View := None; bs_premiumTicks := None |}.

Definition demo_model : OptionModel := {|
  om_Enabled := true; om_IVPct := #12; om_RatePct := #6; om_PremiumSLPct := 0; om_SlippageBps := 10; om_SlippageMinPsa := 5; om_StrikeStep := 50;
  om_MinEntryPremium := 0; om_MinEntryDTE := 0; om_ExpiryMinDTE := 0 |}.
Definition demo_engine : BTEngine := {|
  be_cfg := {| bc_Exchange := "NSE"; bc_Token := "99926000"; bc_Qty := 75; bc_StrategyType := "SR"; bc_StrategyCfgSR := None; bc_CandleTF := 1;
    bc_Option := demo_model; bc_PickHoldMinutes := f64_zero; bc_ExitPolicy := None; bc_PreReject := None |};
  be_callPrices := ∅; be_putPrices := ∅; be_vix := ∅; be_skipped := 0 |}.

Definition demo_candle (day h m open close : Z) : TFCandle * Time := ({|
  tfc_Token := "99926000"; tfc_Exchange := "NSE"; tfc_TF := 60; tfc_TS := ist_date day h m; tfc_Open := open; tfc_High := Z.max open close;
  tfc_Low := Z.min open close; tfc_Close := close; tfc_Volume := 0; tfc_Count := 1; tfc_Forming := false |}, ist_date day h m).
Definition demo_candles : list (TFCandle * Time) :=
  [demo_candle 20000 10 0 2500000 2500500; demo_candle 20000 10 1 2500500 2501000; demo_candle 20000 10 2 2501000 2502000;
   demo_candle 20000 15 29 2502000 2498000; demo_candle 20001 9 15 2490000 2491000; demo_candle 20002 9 15 2488000 2489000].

Definition demo_signal (action side reverse : string) : option Signal :=
  Some (zero_Signal <| sig_Action := action |> <| sig_Side := side |> <| sig_ReverseTo := reverse |>).
Definition demo_script : list (option Signal) :=
  [demo_signal ActionBuy SideCall ""; None; demo_signal ActionExit SideCall SidePut; None; demo_signal ActionBuy SideCall ""; None].

Definition demo_run : option (btState (list (option Signal))) :=
  replayStrategy (ME := λ _, #1) (ML := λ _, f64_zero) (MC := λ _, #1) (MO := canonical_order) (SS := insertion_sort)
    demo_engine demo_script demo_candles.

(** Bought on a Monday, left at Tuesday's open: the contract that expires that
    Tuesday is sold as the next week's. *)
Example expiry_moves :
  let t := new_trade demo_engine 1 SideCall (demo_candle 20003 15 0 2500000 2500500).1 "" false 0 in
  bought_expiry demo_engine t = ist_date 20004 15 30 ∧ expiryFor demo_engine t (ist_date 20004 9 15) = ist_date 20011 15 30.
Proof. vm_compute. done. Qed.

(** Bought at 10:00 and reversed at 10:02; the put is sold at 15:29; the next
    day's call is still there the day after, and is sold at its open. *)
Lemma backtest_trades_in_order_witness :
  ∃ s, demo_run = Some s ∧
    (λ t, (tr_ID t, tr_Side t, tr_EntryPrice t, tr_ExitPrice t)) <$> bt_trades s =
      [(1, SideCall, 2500500, 2502000); (2, SidePut, 2502000, 2498000); (3, SideCall, 2491000, 2488000)] ∧
    booked (ME := λ _, #1) (ML := λ _, f64_zero) (MC := λ _, #1) demo_engine demo_candles 6 (bt_trades s).
Proof.
  eexists. split; [vm_compute; reflexivity|]. split; [vm_compute; reflexivity|].
  apply (backtest_trades_in_order (MO := canonical_order) (SS := insertion_sort) demo_engine demo_candles demo_script). vm_compute. reflexivity.
Defined.
