(* ===== verification/BacktestTotal.v ===== *)
(** A backtest of the SR strategy runs to its end: the strategy's laws, the
    arbiter of the one open trade, and the replay over them. *)
From Stdlib Require Import SpecFloat ssreflect.
From S2P Require Import Prelude Float64 GoText Model MarketHours OptionMath RangeContext SrContext ExitPolicy ExitLevels ExitScore ExitTracker ExitRunner ExitWatch ExitReplay Nifty50SrState Nifty50Sr Nifty50SrEntry Nifty50SrExit Nifty50SrTrading Nifty50SrRuns SrView OptionModel Backtest BacktestOk.
#[local] Open Scope Z_scope.
#[local] Open Scope go_scope.

(** A strategy that keeps its own invariant never panics, and buys a side. *)
Class backtestLaws (St : Type) `{backtestStrategy St} := {
  bl_safe : St → Prop;
  bl_candle c s : bl_safe s → ∃ sig s', bs_OnTFCandle c s = Some (sig, s') ∧ bl_safe s' ∧
    ∀ sg, sig = Some sg → sig_Action sg = ActionBuy → sig_Side sg ≠ SideNone;
  bl_tick t s : bl_safe s → bl_safe (bs_OnTick t s).2;
  bl_reset s : bl_safe s → bl_safe (bs_ResetPositions s);
  bl_cancel f side why s : bs_CancelEntry = Some f → bl_safe s → bl_safe (f side why s);
  bl_exit f side token why s : bs_ExitRequested = Some f → side ≠ SideNone → bl_safe s → bl_safe (f side token why s).2;
  bl_token p token s : bs_premiumTicks = Some p → bl_safe s → bl_safe (pt_SetPositionToken p token s);
  bl_price p price s : bs_premiumTicks = Some p → bl_safe s → bl_safe (pt_SetFNOEntryPrice p price s) }.

#[export] Instance Nifty50SR_backtest_laws `{MO : MapOrder} : backtestLaws Nifty50SR.
Proof.
  refine {| bl_safe := strat_ok |}.
  - move => c s Hs. destruct (OnTFCandle_ok c s Hs) as (x & s' & He & Hst). exists x, s'. split; [done|]. split; [apply Hst|].
    move => sg Hx Ha Hn. subst x. pose proof (st_follows _ _ _ Hst (signal_key sg)) as Hf.
    rewrite /trade_signals /= filter_cons_True // filter_nil /= /trade_signal Ha Hn /= in Hf.
    by destruct (String.eqb _ _).
  - move => t s Hs. cbn [bs_OnTick Nifty50SR_backtest]. destruct (Nifty50Sr.OnTick t s) as [x s'] eqn:E. by eapply OnTick_ok.
  - move => s Hs. by apply ResetPositions_ok.
  - move => f side why s [= <-] Hs. by apply CancelEntry_ok.
  - move => f side token why s [= <-] Hn Hs. destruct (ExitRequested side token why s) as [x s'] eqn:E. by eapply ExitRequested_ok.
  - move => p token s [= <-] Hs. by apply (SetPositionToken_ok token s).
  - move => p price s [= <-] Hs. by apply (SetFNOEntryPrice_ok price s).
Defined.

(** ** The arbiter of the replay *)

Definition theta_rules (rules : list ExitPolicy.Rule) : Prop := ∃ c, rules = [ThetaRule c].

Definition tracked_ok (t : ExitPolicy.tracked) : Prop :=
  theta_rules (pl_Rules (ExitPolicy.tk_plan t)) ∧ po_PremEntry (ExitPolicy.tk_pos t) <= 10 ^ 15 ∧ ExitPolicy.tk_premBest t <= 10 ^ 15.
Definition arbiter_ok (a : Arbiter) : Prop := map_Forall (λ _, tracked_ok) (ar_pos a).

Lemma arbiter_open p plan a : theta_rules (pl_Rules plan) → po_PremEntry p <= 10 ^ 15 → arbiter_ok a → arbiter_ok (ExitPolicy.Open p plan a).
Proof.
  move => Hr Hp Ha. rewrite /ExitPolicy.Open. destruct (_ || _); [by apply map_Forall_delete|].
  apply map_Forall_insert_2; [by split|by apply map_Forall_delete].
Qed.

Lemma arbiter_tick token price a : price <= 10 ^ 15 → arbiter_ok a → arbiter_ok (ExitPolicy.OnTick token price a).
Proof.
  move => Hp Ha. rewrite /ExitPolicy.OnTick. destruct (price <=? 0); [done|]. move => k t /=.
  move => /lookup_fmap_Some [t0 [<- Hk]]. destruct (Ha _ _ Hk) as (H1 & H2 & H3). split; [done|]. split; [done|]. simpl.
  by destruct (_ && _).
Qed.

Lemma bt_evaluate_total now armed t : tracked_ok t → ∃ d t', evaluate_tracked now armed t = Some (d, t') ∧ tracked_ok t'.
Proof.
  move => [[c Hr] [Hp Hb]]. rewrite /evaluate_tracked. set (t1 := see_best now t).
  assert (pl_Rules (ExitPolicy.tk_plan t1) = [ThetaRule c]) as Hr1 by done. rewrite Hr1. cbn [eval_rules].
  destruct (theta_evaluate c (ExitPolicy.tk_pos t1) (snapshot_of now armed t1)) as [fired|] eqn:He.
  - cbn [Evaluate ThetaRule]. rewrite He. cbn [mbind option_bind].
    destruct fired as [d|]; [|eexists _, _; split; [reflexivity|]; split; [by exists c|by split]].
    destruct (_ <? _); (eexists _, _; split; [reflexivity|]; split; [by exists c|by split]).
  - exfalso. pose proof (theta_safe c (ExitPolicy.tk_pos t1)) as Hs. apply (proj1 (Forall_singleton _ _) Hs (snapshot_of now armed t1)); [|exact He].
    simpl. change (ExitPolicy.tk_premBest t1) with (ExitPolicy.tk_premBest t). change (ExitPolicy.tk_pos t1) with (ExitPolicy.tk_pos t). lia.
Qed.

Lemma minute_eval_total now armed snaps : ∀ a, arbiter_ok a → ∃ out a', minute_eval now armed snaps a = Some (out, a') ∧ arbiter_ok a'.
Proof.
  induction snaps as [|[id p] snaps IH] => a Ha; [by exists [], a|]. cbn [minute_eval].
  destruct (ar_pos a !! po_Key p) as [t|] eqn:Hk; [|by apply IH]. destruct (Nat.eqb _ _); [|by apply IH].
  destruct (bt_evaluate_total now (armed p) t (Ha _ _ Hk)) as (d & t' & -> & Ht'). cbn [mbind option_bind].
  destruct (IH {| ar_pos := <[po_Key p := t']> (ar_pos a); ar_opened := ar_opened a |}) as (out & a' & -> & Ha');
    [by apply map_Forall_insert_2|]. by eexists _, _.
Qed.

(** ** The replay *)

Section total.
Context `{ME : MathExp} `{ML : MathLog} `{MC : MathErfc} `{MO : MapOrder} `{SS : SliceSort}.
Context {St : Type} `{BL : backtestLaws St} (e : BTEngine).
Implicit Types (s : btState St) (t : Trade) (c : TFCandle).

(** What the configuration must be: a strike step that is not absurd, index
    prices and modeled premiums the arbiter can add up. *)
Record bt_ok (cs : list (TFCandle * Time)) : Prop := {
  bo_step : strike_step (model_of e) <= 10 ^ 15;
  bo_premium : om_Enabled (model_of e) = true → ∀ t c w, (c, w) ∈ cs → price_at e t (tfc_Close c) (tfc_TS c) <= 10 ^ 15;
  bo_close : ∀ c w, (c, w) ∈ cs → tfc_Close c <= 10 ^ 15 }.

(** A policy is there only with the model. *)
Definition pol_ok (p : btPolicy) : Prop := om_Enabled (model_of e) = true ∧ arbiter_ok (bp_arb p) ∧ theta_rules (pl_Rules (bp_plan p)).

Definition total_inv (s : btState St) : Prop :=
  bl_safe (bt_strat s) ∧ (∀ t, bt_open s = Some t → tr_Side t ≠ SideNone) ∧
  (∀ p, bt_pol s = Some p → pol_ok p).

Lemma inv_closed c reason s : total_inv s → total_inv (close_at e c reason s).
Proof.
  move => [H1 [H2 H3]]. rewrite /close_at /close_open. destruct (bt_open s) eqn:Ho; [|by split; [|split; [rewrite Ho|]]].
  destruct s; simpl in *. by split.
Qed.

Lemma inv_strat st s : bl_safe st → total_inv s → total_inv (s <| bt_strat := st |>).
Proof. move => Hst [H1 [H2 H3]]. destruct s; simpl in *. by split. Qed.

Lemma inv_feed c s : total_inv s → ∃ s', feed c s = Some s' ∧ total_inv s'.
Proof.
  move => Hi. rewrite /feed. destruct (bl_candle c (bt_strat s) (proj1 Hi)) as (sig & st & -> & Hst & _). cbn [mbind option_bind].
  eexists. split; [done|]. by apply inv_strat.
Qed.

Definition out_ok (o : outcome) : Prop := match o with Done s | GoOn s => total_inv s end.

Lemma feed_done c s : total_inv s → ∃ o, Done <$> feed c s = Some o ∧ out_ok o.
Proof. move => Hi. destruct (inv_feed c s Hi) as (s' & -> & Hs'). by eexists. Qed.

Lemma go_on s : total_inv s → ∃ o, Some (GoOn s) = Some o ∧ out_ok o.
Proof. by eexists. Qed.

Lemma stop_total c s : total_inv s → out_ok (stop_check e c s).
Proof.
  move => Hi. rewrite /stop_check. destruct (bt_open s); [|done]. rewrite /checkCandleStoplossTF.
  pose proof (bl_tick (plain_tick (tfc_Token c) (tfc_Exchange c) (tfc_Low c) (tfc_TS c)) _ (proj1 Hi)) as H1.
  destruct (bs_OnTick _ _) as [[sig|] st]; [by apply inv_closed, inv_strat|]. simpl in H1.
  pose proof (bl_tick (plain_tick (tfc_Token c) (tfc_Exchange c) (tfc_High c) (tfc_TS c)) _ H1) as H2.
  destruct (bs_OnTick _ _) as [[sig|] st2]; [by apply inv_closed, inv_strat|by apply inv_strat].
Qed.

Lemma premium_tick_total c s : total_inv s → ∃ o, premium_tick_check e c s = Some o ∧ out_ok o.
Proof.
  move => Hi. rewrite /premium_tick_check. destruct (bt_open s) as [t|]; [|by eexists]. destruct (modelTicks e s); cbn [negb]; [|by eexists].
  pose proof (bl_tick (plain_tick "MODEL" "NFO" (modelMidAt e t c) zero_time) _ (proj1 Hi)) as H1.
  destruct (bs_OnTick _ _) as [[sig|] st]; [|by apply go_on, inv_strat].
  destruct (String.eqb _ _); [|by apply go_on, inv_strat]. by apply feed_done, inv_closed, inv_strat.
Qed.

Lemma premium_stop_total c s : total_inv s → ∃ o, premium_stop_check e c s = Some o ∧ out_ok o.
Proof.
  move => Hi. rewrite /premium_stop_check. destruct (bt_open s) as [t|]; [|by eexists]. destruct (_ && _); [|by eexists].
  apply feed_done. rewrite /set_strat. apply inv_strat; [|by apply inv_closed]. apply bl_reset. by apply inv_closed.
Qed.

Lemma request_total c t reason s : total_inv s → tr_Side t ≠ SideNone → ∃ o, request_exit e c t reason s = Some o ∧ out_ok o.
Proof.
  move => Hi Hn. rewrite /request_exit. destruct bs_ExitRequested as [ask|] eqn:Ha; [|by eexists].
  pose proof (bl_exit ask (tr_Side t) "" reason _ Ha Hn (proj1 Hi)) as H1.
  destruct (ask _ _ _ _) as [[sig|] st]; [|by apply go_on, inv_strat]. by apply feed_done, inv_closed, inv_strat.
Qed.

Lemma inv_pol p s : (∀ q, p = Some q → pol_ok q) → total_inv s → total_inv (s <| bt_pol := p |>).
Proof. move => Hp [H1 [H2 H3]]. destruct s; simpl in *. by split. Qed.
Lemma inv_pre b s : total_inv s → total_inv (s <| bt_pre := b |>).
Proof. move => [H1 [H2 H3]]. destruct s; simpl in *. by split. Qed.
Lemma inv_open t s : tr_Side t ≠ SideNone → total_inv s → total_inv (s <| bt_open := Some t |>).
Proof. move => Hn [H1 [H2 H3]]. destruct s; simpl in *. split; [done|]. split; [by move => ? [= <-]|done]. Qed.
Lemma inv_id n s : total_inv s → total_inv (s <| bt_id := n |>).
Proof. move => [H1 [H2 H3]]. destruct s; simpl in *. by split. Qed.
Lemma inv_skipped n s : total_inv s → total_inv (s <| bt_skipped := n |>).
Proof. move => [H1 [H2 H3]]. destruct s; simpl in *. by split. Qed.
Lemma inv_day d s : total_inv s → total_inv (s <| bt_day := d |>).
Proof. move => [H1 [H2 H3]]. destruct s; simpl in *. by split. Qed.

Section candle.
Context (cs : list (TFCandle * Time)) (Hok : bt_ok cs) (c : TFCandle) (w : Time) (Hc : (c, w) ∈ cs).

Lemma policy_total s : total_inv s → ∃ o, policy_check e c s = Some o ∧ out_ok o.
Proof.
  move => Hi. rewrite /policy_check. destruct (bt_open s) as [t|] eqn:Ho; [|by eexists]. destruct (bt_pol s) as [p|] eqn:Hp; [|by eexists].
  destruct Hi as (H1 & H2 & H3). destruct (H3 _ Hp) as (He & Ha & Hr). rewrite /policy_step /ExitPolicy.OnMinute.
  set (a := ExitPolicy.OnTick "MODEL" _ _).
  assert (arbiter_ok a) as Ha' by (apply arbiter_tick; [by eapply bo_premium|]; apply arbiter_tick; [by eapply bo_close|done]).
  destruct (minute_eval_total (t_add (tfc_TS c) Minute) (default (λ _, false) (Some (protect_armed s))) (minute_collect a) a Ha')
    as (out & a' & -> & Ha''). cbn [mbind option_bind].
  assert (total_inv (s <| bt_pol := Some {| bp_arb := a'; bp_plan := bp_plan p |} |>)) as Hi' by (apply inv_pol; [by move => q [= <-]|by split]).
  destruct (head out.*2) as [d|]; [|by eexists]. destruct (de_Shadow d).
  - eexists. split; [done|]. apply inv_open; [|done]. pose proof (H2 _ Ho). by destruct t.
  - apply request_total; [done|by apply H2].
Qed.

Lemma reject_total wall s : total_inv s → ∃ o, reject_check e wall c s = Some o ∧ out_ok o.
Proof.
  move => Hi. rewrite /reject_check. destruct (bt_open s) as [t|] eqn:Ho; [|by eexists]. destruct (bt_pre s) as [b|]; [|by eexists].
  destruct (pre_step _ _ _ _) as [exit b']. destruct exit as [text|]; [|by apply go_on, inv_pre].
  apply request_total; [by apply inv_pre|]. by apply Hi.
Qed.

Lemma and_then_total o f : out_ok o → (∀ s, total_inv s → ∃ o, f s = Some o ∧ out_ok o) → ∃ o', and_then o f = Some o' ∧ out_ok o'.
Proof. destruct o as [s|s]; simpl; [by eexists|]. move => Hi Hf. by apply Hf. Qed.

Lemma checks_total wall s : total_inv s → ∃ o, checks e wall c s = Some o ∧ out_ok o.
Proof.
  move => Hi. rewrite /checks. destruct (premium_tick_total c s Hi) as (o1 & -> & H1). cbn [mbind option_bind].
  destruct (and_then_total o1 _ H1 (premium_stop_total c)) as (o2 & -> & H2). cbn [mbind option_bind].
  destruct (and_then_total o2 _ H2 policy_total) as (o3 & -> & H3). cbn [mbind option_bind]. apply and_then_total; [done|apply reject_total].
Qed.

Lemma refusal_total sig : ∃ r, entry_refusal e sig c = Some r.
Proof.
  rewrite /entry_refusal. destruct (_ || _ || _); [by eexists|]. destruct (_ && _); [by eexists|]. destruct (0 <? _); [|by eexists].
  destruct (sig_Strike sig <=? 0); [|by eexists]. destruct (atm_total (model_of e) (tfc_Close c) (bo_step _ Hok)) as [k ->]. by eexists.
Qed.

(** A trade entered at this candle's close. *)
Lemma modelEntry_total id side reason sameDay tm strike :
  ∃ t, modelEntry e (new_trade e id side c reason sameDay tm) strike (tfc_TS c) = Some t ∧ tr_Side t = side ∧ tr_modelMid t <= 10 ^ 15.
Proof.
  rewrite /modelEntry. destruct (om_Enabled (model_of e)) eqn:He; cbn [negb]; [|by eexists].
  assert (∃ k, (if strike <=? 0 then model_atmStrike (model_of e) (tr_EntryPrice (new_trade e id side c reason sameDay tm)) else Some strike) = Some k)
    as [k ->] by (destruct (strike <=? 0); [apply atm_total, Hok|by eexists]). cbn [mbind option_bind].
  eexists. split; [done|]. split; [done|]. by apply (bo_premium _ Hok He _ c w).
Qed.

Lemma inv_policy_open t tm s : tr_modelMid t <= 10 ^ 15 → total_inv s → total_inv (s <| bt_pol := policy_open e t c tm <$> bt_pol s |>).
Proof.
  move => Ht Hi. apply inv_pol; [|done]. move => q /fmap_Some [p [Hp ->]]. destruct Hi as (_ & _ & H3). destruct (H3 _ Hp) as (He & Ha & Hr).
  rewrite /policy_open. destruct (tr_modelMid t <=? 0); [done|]. split; [done|]. split; [by apply arbiter_open|done].
Qed.

(** The same, on a state whose policy is still the old one's. *)
Lemma inv_pol_set t tm (Hm : tr_modelMid t <= 10 ^ 15) s pol : total_inv s → bt_pol s = pol → total_inv (s <| bt_pol := policy_open e t c tm <$> pol |>).
Proof. move => Hi <-. by apply inv_policy_open. Qed.

Lemma inv_armed t s : total_inv s → total_inv (armModelTicks e t s).
Proof.
  move => Hi. rewrite /armModelTicks. destruct bs_premiumTicks as [p|] eqn:Hp; [|done]. destruct (_ || _); [done|].
  rewrite /set_strat. apply inv_strat; [|done]. apply (bl_price p); [done|]. apply (bl_token p); [done|apply Hi].
Qed.

Lemma entry_total sig s : total_inv s → sig_Side sig ≠ SideNone → ∃ s', take_entry e sig c s = Some s' ∧ total_inv s'.
Proof.
  move => Hi Hn. rewrite /take_entry. destruct (refusal_total sig) as [[why|] ->]; cbn [mbind option_bind].
  - eexists. split; [done|]. assert (total_inv (s <| bt_skipped := bt_skipped s +! 1 |>)) as H1 by (by apply inv_skipped).
    destruct bs_CancelEntry as [f|] eqn:Hf; [|done]. rewrite /set_strat. apply inv_strat; [|done]. apply (bl_cancel f); [done|apply H1].
  - set (s0 := close_at e c "replaced by new entry" s). assert (total_inv s0) as H0 by (by apply inv_closed).
    destruct (modelEntry_total (bt_id s0 +! 1) (sig_Side sig) (sig_Reason sig) (sig_SameDayExpiry sig) (sig_TargetMove sig) (sig_Strike sig))
      as (t & -> & Ht & Hm). cbn [mbind option_bind]. eexists. split; [done|]. apply inv_pre, inv_policy_open; [done|]. apply inv_armed.
    apply inv_open; [by rewrite Ht|]. by apply inv_id.
Qed.

Lemma exit_total sig s : total_inv s → ∃ s', take_exit e sig c s = Some s' ∧ total_inv s'.
Proof.
  move => Hi. rewrite /take_exit. set (s0 := close_at e c (sig_Reason sig) s). assert (total_inv s0) as H0 by (by apply inv_closed). clearbody s0.
  destruct (String.eqb (sig_ReverseTo sig) SideCall || String.eqb (sig_ReverseTo sig) SidePut) eqn:Hr; [|by eexists].
  destruct (modelEntry_total (bt_id s0 +! 1) (sig_ReverseTo sig) ("REVERSE: " +:+ sig_Reason sig) false 0 (sig_Strike sig)) as (t & -> & Ht & Hm).
  cbn [mbind option_bind]. assert (tr_Side t ≠ SideNone) as Hn by (rewrite Ht; apply orb_true_iff in Hr as [->%String.eqb_eq | ->%String.eqb_eq]; done).
  eexists. split; [done|]. apply (inv_pol_set t 0 Hm); [|done]. by apply inv_open, inv_id.
Qed.

Lemma session_total wall s : total_inv s → ∃ s', session_candle e wall c s = Some s' ∧ total_inv s'.
Proof.
  move => Hi. rewrite /session_candle. destruct (at_close _); [by apply inv_feed, inv_closed|].
  destruct (and_then_total (stop_check e c s) (checks e wall c) (stop_total c s Hi) (checks_total wall)) as (o & -> & Ho). cbn [mbind option_bind].
  destruct o as [s1|s1]; [by eexists|]. destruct (bl_candle c (bt_strat s1) (proj1 Ho)) as (sig & st & -> & Hst & Hside). cbn [mbind option_bind].
  assert (total_inv (s1 <| bt_strat := st |>)) as H1 by (by apply inv_strat). rewrite /take_signal. destruct sig as [sg|]; [|by eexists].
  destruct (String.eqb_spec (sig_Action sg) ActionBuy) as [Ha|_]; [by apply entry_total; [|apply Hside]|].
  destruct (String.eqb _ _); [by apply exit_total|by eexists].
Qed.

Lemma candle_total s : total_inv s → ∃ s', replay_candle e s (c, w) = Some s' ∧ total_inv s'.
Proof.
  move => Hi. rewrite /replay_candle.
  assert (total_inv (roll_day e c s)) as H1.
  { rewrite /roll_day. apply inv_day. destruct (_ && _); [|done]. rewrite /set_strat.
    assert (total_inv (close_open e (tfc_TS c) (tfc_Open c) "end of day (forced close)" s)) as H1.
    { destruct Hi as (Ha & Hb & Hd). rewrite /close_open. destruct (bt_open s) eqn:Ho; [|by split; [|split; [rewrite Ho|]]].
      destruct s; simpl in *. by split. }
    apply inv_strat; [|done]. apply bl_reset, H1. }
  destruct (in_session _); cbn [negb]; [|by eexists]. by apply session_total, inv_pre.
Qed.
End candle.

Lemma loop_total cs rest : bt_ok cs → (∀ x, x ∈ rest → x ∈ cs) → ∀ s, total_inv s → ∃ s', replay_loop e rest s = Some s' ∧ total_inv s'.
Proof.
  move => Hok. induction rest as [|[c w] rest IH] => Hin s Hi; [by eexists|]. cbn [replay_loop].
  destruct (candle_total cs Hok c w (Hin _ (list_elem_of_here _ _)) s Hi) as (s1 & -> & H1). cbn [mbind option_bind].
  apply IH; [|done]. move => x Hx. apply Hin. by right.
Qed.

Lemma replay_total cs strat : bt_ok cs → bl_safe strat → ∃ s, replayStrategy e strat cs = Some s.
Proof.
  move => Hok Hs. rewrite /replayStrategy.
  assert (total_inv (bt_start e strat)) as H0.
  { split; [done|]. split; [done|]. rewrite /bt_start /newBTPolicy. cbn [bt_pol]. move => p.
    destruct (bc_ExitPolicy (be_cfg e)) as [sc|]; [|done]. destruct (om_Enabled (model_of e)) eqn:He; [|by rewrite orb_true_r].
    destruct (_ || _); [done|]. move => [= <-]. split; [done|]. split; [by move => ? ?|by eexists]. }
  destruct (loop_total cs cs Hok (λ _ H, H) _ H0) as (s1 & -> & _). by eexists.
Qed.
End total.

(** A backtest of the SR strategy, with the exit policy or without, on any
    candles of sane prices, runs to its end without a panic, and its trades are
    booked in order. *)
Theorem sr_backtest_completes `{ME : MathExp} `{ML : MathLog} `{MC : MathErfc} `{MO : MapOrder} `{SS : SliceSort} (e : BTEngine) cs :
  strat_cfg_ok (sr_cfg (sr_for_run (be_cfg e))) → bt_ok e cs →
  ∃ s, replayStrategy e (sr_for_run (be_cfg e)) cs = Some s ∧ bt_open s = None ∧ booked e cs (length cs) (bt_trades s).
Proof.
  move => Hcfg Hok. destruct (replay_total e cs (sr_for_run (be_cfg e)) Hok) as [s Hs]; [by apply new_strat_ok|].
  exists s. split; [done|]. by destruct (replay_books e cs _ _ Hs).
Qed.
