(* ===== verification/BacktestStats.v ===== *)
(** The figures of a backtest (internal/backtest/engine.go): the metrics of its
    trades, its days, its equity curve, and a run over loaded candles. *)
From Stdlib Require Import SpecFloat.
From S2P Require Import Prelude Float64 GoText Model MarketHours OptionMath Nifty50SrState Nifty50Sr OptionModel Backtest.
#[local] Open Scope Z_scope.
#[local] Open Scope go_scope.

(** ** Dates and durations *)

(** "2006-01-02" of a day of the years 1 to 9999. *)
Definition date_text (day : Z) : string :=
  let doe := (day + 719468) mod 146097 in
  let yoe := (doe - doe / 1460 + doe / 36524 - doe / 146096) / 365 in
  let doy := doe - (365 * yoe + yoe / 4 - yoe / 100) in
  let mp := (5 * doy + 2) / 153 in
  zero_pad 4 (format_int (year_of_day day)) +:+ "-" +:+ zero_pad 2 (format_int (if mp <? 10 then mp + 3 else mp - 9)) +:+ "-" +:+
  zero_pad 2 (format_int (doy - (153 * mp + 2) / 5 + 1)).

Example date_text_leap : date_text 19782 = "2024-02-29".
Proof. vm_compute. reflexivity. Qed.

Definition trade_date (t : Trade) : string := date_text (ist_day (tr_EntryTime t)).

Definition dur_seconds (d : Duration) : float64 := #(Z.quot d Second) ⊕ #(Z.rem d Second) ⊘ #1000000000.
Definition dur_minutes (d : Duration) : float64 := #(Z.quot d Minute) ⊕ #(Z.rem d Minute) ⊘ #(60 * 1000000000).

Definition formatDuration (d : Duration) : string :=
  if d <? Minute then format_int (f64_to_int (dur_seconds d)) +:+ "s"
  else if d <? Hour then
    format_int (f64_to_int (dur_minutes d)) +:+ "m " +:+ format_int (Z.rem (f64_to_int (dur_seconds d)) 60) +:+ "s"
  else format_int (f64_to_int (d_hours d)) +:+ "h " +:+ format_int (Z.rem (f64_to_int (dur_minutes d)) 60) +:+ "m".

(** ** The metrics *)

Definition round2 (f : float64) : float64 := f64_round (f ⊗ #100) ⊘ #100.

(** A trade's profit in rupees, of the whole quantity. *)
Definition trade_pnl (qty : Z) (t : Trade) : float64 := PnLRupees t ⊗ #qty.

Record Metrics := {
  me_TotalTrades : Z; me_CallTrades : Z; me_PutTrades : Z; me_Wins : Z; me_Losses : Z; me_WinRate : float64; me_NetPnL : float64;
  me_GrossProfit : float64; me_GrossLoss : float64; me_ProfitFactor : float64; me_BestTrade : float64; me_WorstTrade : float64;
  me_AvgWin : float64; me_AvgLoss : float64; me_MaxDrawdown : float64; me_SharpeRatio : float64; me_AvgDuration : string;
  me_TotalDays : Z }.

Definition zero_Metrics : Metrics := {|
  me_TotalTrades := 0; me_CallTrades := 0; me_PutTrades := 0; me_Wins := 0; me_Losses := 0; me_WinRate := f64_zero; me_NetPnL := f64_zero;
  me_GrossProfit := f64_zero; me_GrossLoss := f64_zero; me_ProfitFactor := f64_zero; me_BestTrade := f64_zero; me_WorstTrade := f64_zero;
  me_AvgWin := f64_zero; me_AvgLoss := f64_zero; me_MaxDrawdown := f64_zero; me_SharpeRatio := f64_zero; me_AvgDuration := "";
  me_TotalDays := 0 |}.

(** What the loop over the trades accumulates; counts of trades do not wrap. *)
Record tally := {
  ta_wins : Z; ta_losses : Z; ta_call : Z; ta_put : Z; ta_grossProfit : float64; ta_grossLoss : float64; ta_best : float64; ta_worst : float64;
  ta_totalWin : float64; ta_totalLoss : float64; ta_duration : Duration; ta_days : gset string }.

Definition no_tally : tally := {|
  ta_wins := 0; ta_losses := 0; ta_call := 0; ta_put := 0; ta_grossProfit := f64_zero; ta_grossLoss := f64_zero; ta_best := f64_zero;
  ta_worst := f64_zero; ta_totalWin := f64_zero; ta_totalLoss := f64_zero; ta_duration := 0; ta_days := ∅ |}.

Definition is_win (qty : Z) (t : Trade) : bool := f64_leb f64_zero (trade_pnl qty t).

Definition tally_trade (qty : Z) (a : tally) (t : Trade) : tally :=
  let pnl := trade_pnl qty t in
  let win := is_win qty t in
  let call := String.eqb (tr_Side t) SideCall in
  let put := negb call && String.eqb (tr_Side t) SidePut in {|
  ta_wins := if win then ta_wins a + 1 else ta_wins a;
  ta_losses := if win then ta_losses a else ta_losses a + 1;
  ta_call := if call then ta_call a + 1 else ta_call a;
  ta_put := if put then ta_put a + 1 else ta_put a;
  ta_grossProfit := if win then ta_grossProfit a ⊕ pnl else ta_grossProfit a;
  ta_grossLoss := if win then ta_grossLoss a else ta_grossLoss a ⊕ pnl;
  ta_best := if win && (ta_best a <. pnl) then pnl else ta_best a;
  ta_worst := if negb win && (pnl <. ta_worst a) then pnl else ta_worst a;
  ta_totalWin := if win then ta_totalWin a ⊕ pnl else ta_totalWin a;
  ta_totalLoss := if win then ta_totalLoss a else ta_totalLoss a ⊕ pnl;
  ta_duration := ta_duration a +! trade_Duration t;
  ta_days := {[ trade_date t ]} ∪ ta_days a |}.

(** The curve's running sum, its peak and its worst fall below it. *)
Record drawdown := { dw_cum : float64; dw_peak : float64; dw_max : float64 }.
Definition no_drawdown : drawdown := {| dw_cum := f64_zero; dw_peak := f64_zero; dw_max := f64_zero |}.
Definition draw (d : drawdown) (pnl : float64) : drawdown :=
  let cum := dw_cum d ⊕ pnl in
  let peak := if dw_peak d <. cum then cum else dw_peak d in
  let dd := cum ⊖ peak in
  {| dw_cum := cum; dw_peak := peak; dw_max := if dd <. dw_max d then dd else dw_max d |}.

Definition computeMaxDrawdown (trades : list Trade) (qty : Z) : float64 :=
  dw_max (foldl draw no_drawdown (trade_pnl qty <$> trades)).

Section sharpe.
Context `{MO : MapOrder}.

(** The days' profits, in the order the map is ranged over. *)
Definition day_pnl (trades : list Trade) (qty : Z) : gmap string float64 :=
  foldl (λ m t, <[trade_date t := default f64_zero (m !! trade_date t) ⊕ trade_pnl qty t]> m) ∅ trades.

Definition computeSharpeRatio (trades : list Trade) (qty : Z) : float64 :=
  if Z.of_nat (length trades) <? 2 then f64_zero
  else
    let returns := (range (day_pnl trades qty)).*2 in
    let n := Z.of_nat (length returns) in
    if n <? 2 then f64_zero
    else
      let mean := foldl f64_add f64_zero returns ⊘ #n in
      let variance := foldl (λ v r, let diff := r ⊖ mean in v ⊕ diff ⊗ diff) f64_zero returns ⊘ #(n - 1) in
      let stddev := f64_sqrt variance in
      if f64_eqb stddev f64_zero then f64_zero else (mean ⊘ stddev) ⊗ f64_sqrt #252.

Definition computeMetrics (trades : list Trade) (qty : Z) : Metrics :=
  match trades with
  | [] => zero_Metrics
  | _ :: _ =>
      let a := foldl (tally_trade qty) no_tally trades in
      let n := Z.of_nat (length trades) in {|
      me_TotalTrades := n; me_CallTrades := ta_call a; me_PutTrades := ta_put a; me_Wins := ta_wins a; me_Losses := ta_losses a;
      me_WinRate := f64_round (#(ta_wins a) ⊘ #n ⊗ #100 ⊗ #10) ⊘ #10;
      me_NetPnL := round2 (ta_grossProfit a ⊕ ta_grossLoss a);
      me_GrossProfit := round2 (ta_grossProfit a); me_GrossLoss := round2 (ta_grossLoss a);
      me_ProfitFactor := round2 (if f64_eqb (ta_grossLoss a) f64_zero then f64_zero else ta_grossProfit a ⊘ f64_abs (ta_grossLoss a));
      me_BestTrade := round2 (ta_best a); me_WorstTrade := round2 (ta_worst a);
      me_AvgWin := round2 (if 0 <? ta_wins a then ta_totalWin a ⊘ #(ta_wins a) else f64_zero);
      me_AvgLoss := round2 (if 0 <? ta_losses a then ta_totalLoss a ⊘ #(ta_losses a) else f64_zero);
      me_MaxDrawdown := round2 (computeMaxDrawdown trades qty); me_SharpeRatio := round2 (computeSharpeRatio trades qty);
      me_AvgDuration := formatDuration (ta_duration a /! n); me_TotalDays := Z.of_nat (size (ta_days a)) |}
  end.
End sharpe.

Fixpoint equity_loop (qty : Z) (cum : float64) (trades : list Trade) : list float64 :=
  match trades with
  | [] => []
  | t :: trades => let cum := cum ⊕ trade_pnl qty t in round2 cum :: equity_loop qty cum trades
  end.
Definition computeEquityCurve (trades : list Trade) (qty : Z) : list float64 := equity_loop qty f64_zero trades.

(** ** The days *)

Record DaySummary := {
  dy_Date : string; dy_Trades : Z; dy_Wins : Z; dy_Losses : Z; dy_PnL : float64; dy_CumPnL : float64; dy_MaxDrawdown : float64 }.

Record dayData := { dd_date : string; dd_trades : Z; dd_wins : Z; dd_losses : Z; dd_pnl : float64 }.
Definition new_day (day : string) : dayData := {| dd_date := day; dd_trades := 0; dd_wins := 0; dd_losses := 0; dd_pnl := f64_zero |}.

Definition day_add (qty : Z) (d : dayData) (t : Trade) : dayData := {|
  dd_date := dd_date d; dd_trades := dd_trades d + 1;
  dd_wins := if is_win qty t then dd_wins d + 1 else dd_wins d; dd_losses := if is_win qty t then dd_losses d else dd_losses d + 1;
  dd_pnl := dd_pnl d ⊕ trade_pnl qty t |}.

(** The days in the order they come up, and what each adds up to. *)
Definition group_trade (qty : Z) (g : list string * gmap string dayData) (t : Trade) : list string * gmap string dayData :=
  let '(order, days) := g in
  let day := trade_date t in
  match days !! day with
  | Some d => (order, <[day := day_add qty d t]> days)
  | None => (order ++ [day], <[day := day_add qty (new_day day) t]> days)
  end.

Definition summary_of (w : drawdown) (d : dayData) : DaySummary := {|
  dy_Date := dd_date d; dy_Trades := dd_trades d; dy_Wins := dd_wins d; dy_Losses := dd_losses d; dy_PnL := round2 (dd_pnl d);
  dy_CumPnL := round2 (dw_cum w); dy_MaxDrawdown := round2 (dw_max w) |}.

Fixpoint summarise (w : drawdown) (days : list dayData) : list DaySummary :=
  match days with
  | [] => []
  | d :: days => let w := draw w (dd_pnl d) in summary_of w d :: summarise w days
  end.

Definition computeDaySummaries (trades : list Trade) (qty : Z) : list DaySummary :=
  let '(order, days) := foldl (group_trade qty) ([], ∅) trades in
  summarise no_drawdown (omap (λ day, days !! day) order).

(** ** A run over loaded candles *)

Record BTResult := {
  bs_TotalCandles : Z; bs_Trades : list Trade; bs_DaySummaries : list DaySummary; bs_Metrics : Metrics; bs_EquityCurve : list float64 }.

(** The strategy types a run takes. *)
Definition known_strategy (cfg : BTConfig) : bool :=
  let ty := to_lower (trim_space (bc_StrategyType cfg)) in String.eqb ty "" || String.eqb ty "nifty50_sr".

Section run.
Context `{ME : MathExp} `{ML : MathLog} `{MC : MathErfc} `{MO : MapOrder} `{SS : SliceSort}.

(** [RunWithCandles]: the result and the engine after it; an unknown strategy
    replays nothing. *)
Definition RunWithCandles (e : BTEngine) (candles : list (TFCandle * Time)) : option (BTResult * BTEngine) :=
  match candles with
  | [] => Some ({| bs_TotalCandles := 0; bs_Trades := []; bs_DaySummaries := []; bs_Metrics := zero_Metrics; bs_EquityCurve := [] |}, e)
  | _ :: _ =>
      '(trades, skipped) ←
        (if known_strategy (be_cfg e)
         then (λ s, (bt_trades s, bt_skipped s)) <$> replayStrategy e (sr_for_run (be_cfg e)) candles
         else Some ([], be_skipped e));
      let qty := bc_Qty (be_cfg e) in
      Some ({| bs_TotalCandles := Z.of_nat (length candles); bs_Trades := trades; bs_DaySummaries := computeDaySummaries trades qty;
               bs_Metrics := computeMetrics trades qty; bs_EquityCurve := computeEquityCurve trades qty |},
            {| be_cfg := be_cfg e; be_callPrices := be_callPrices e; be_putPrices := be_putPrices e; be_vix := be_vix e; be_skipped := skipped |})
  end.

(** [Run], after the tables are read: an unknown strategy is refused, by name. *)
Definition Run (e : BTEngine) (candles : list (TFCandle * Time)) : option (string + BTResult * BTEngine) :=
  if known_strategy (be_cfg e) then inr <$> RunWithCandles e candles else Some (inl (bc_StrategyType (be_cfg e))).
End run.

(** ** What adds up *)

Section stats.
Context (qty : Z).
Implicit Types (trades : list Trade) (t : Trade).

(** The days of the trades, each once, in the order they come up. *)
Definition trading_days trades : list string := (foldl (group_trade qty) ([], ∅) trades).1.

(** What a day's own trades come to, added up one by one. *)
Definition day_of trades (day : string) : dayData := foldl (day_add qty) (new_day day) (filter (λ t, trade_date t = day) trades).

Lemma day_add_date ts d : dd_date (foldl (day_add qty) d ts) = dd_date d.
Proof. revert d. induction ts as [|t ts IH]; intros d; [done|]. simpl. by rewrite IH. Qed.

Lemma day_of_snoc trades t day :
  day_of (trades ++ [t]) day = if bool_decide (trade_date t = day) then day_add qty (day_of trades day) t else day_of trades day.
Proof.
  unfold day_of. rewrite filter_app, foldl_app. case_bool_decide as Hd.
  - rewrite filter_cons_True by done. by rewrite filter_nil.
  - rewrite filter_cons_False by done. by rewrite filter_nil.
Qed.

Lemma day_of_none trades day : (∀ t, t ∈ trades → trade_date t ≠ day) → day_of trades day = new_day day.
Proof.
  intros Hno. unfold day_of. induction trades as [|t trades IH]; [done|]. rewrite filter_cons_False by (apply Hno; by left).
  apply IH. intros t' Ht'. apply Hno. by right.
Qed.

(** The map holds exactly the listed days, each with its own trades. *)
Lemma group_spec trades :
  let g := foldl (group_trade qty) ([], ∅) trades in
  NoDup g.1 ∧ (∀ day, day ∈ g.1 ↔ ∃ t, t ∈ trades ∧ trade_date t = day) ∧
  (∀ day, g.2 !! day = if bool_decide (day ∈ g.1) then Some (day_of trades day) else None).
Proof.
  induction trades as [|t trades IH] using rev_ind; cbv zeta in *.
  { split; [constructor|]. split; [|by intros day; simpl; rewrite lookup_empty].
    intros day. simpl. split; [by intros ?%not_elem_of_nil|]. by intros (t & ?%not_elem_of_nil & _). }
  rewrite foldl_app. destruct (foldl (group_trade qty) ([], ∅) trades) as [order days] eqn:E. cbn [fst snd foldl] in *.
  destruct IH as (Hnd & Hin & Hmap). unfold group_trade. specialize (Hmap (trade_date t)) as Ht.
  destruct (days !! trade_date t) as [d|] eqn:Hd; cbn [fst snd].
  - case_bool_decide as Hmem; [|done]. injection Ht as ->. split; [done|]. split.
    + intros day. rewrite Hin. setoid_rewrite elem_of_app. setoid_rewrite list_elem_of_singleton. split; [naive_solver|].
      intros (t' & [Ht'| ->] & Hday); [by exists t'|]. subst day. by apply Hin.
    + intros day. rewrite day_of_snoc. destruct (base.decide (trade_date t = day)) as [<-|Hne].
      * rewrite lookup_insert, !bool_decide_eq_true_2 by done. by case_decide.
      * rewrite lookup_insert_ne, (bool_decide_eq_false_2 (trade_date t = day)) by done. apply Hmap.
  - case_bool_decide as Hmem; [done|]. split; [|split].
    + apply NoDup_app. split; [done|]. split; [|by apply NoDup_singleton]. by intros x Hx ->%list_elem_of_singleton.
    + intros day. rewrite elem_of_app, Hin, list_elem_of_singleton. setoid_rewrite elem_of_app.
      setoid_rewrite list_elem_of_singleton. naive_solver.
    + intros day. rewrite day_of_snoc. destruct (base.decide (trade_date t = day)) as [<-|Hne].
      * rewrite lookup_insert. case_decide; [|done]. rewrite bool_decide_eq_true_2 by (apply elem_of_app; right; by left).
        rewrite bool_decide_eq_true_2 by done. f_equal. f_equal. symmetry. apply day_of_none. intros t' Ht' Heq.
        apply Hmem, Hin. by exists t'.
      * rewrite lookup_insert_ne, (bool_decide_eq_false_2 (trade_date t = day)) by done. rewrite Hmap.
        repeat case_bool_decide; set_solver.
Qed.

Definition total (l : list Z) : Z := foldr Z.add 0 l.
Definition count (P : Trade → bool) trades : Z := total ((λ t, if P t then 1 else 0) <$> trades).

Lemma total_cons x l : total (x :: l) = x + total l.
Proof. done. Qed.

Lemma total_app l k : total (l ++ k) = total l + total k.
Proof. induction l as [|x l IH]; simpl; [done|]. rewrite IH. lia. Qed.

Lemma count_snoc P trades t : count P (trades ++ [t]) = count P trades + if P t then 1 else 0.
Proof. unfold count. rewrite fmap_app, total_app. simpl. lia. Qed.

Lemma total_add {A} (f g : A → Z) l : total ((λ x, f x + g x) <$> l) = total (f <$> l) + total (g <$> l).
Proof. induction l as [|x l IH]; [done|]. rewrite !fmap_cons, !total_cons, IH. lia. Qed.

Lemma total_zero {A} (f : A → Z) l : (∀ x, x ∈ l → f x = 0) → total (f <$> l) = 0.
Proof.
  intros Hz. induction l as [|x l IH]; [done|]. rewrite fmap_cons, total_cons, Hz by (by left). rewrite IH; [done|]. intros y Hy. apply Hz. by right.
Qed.

(** One day of a list without repetition is counted once. *)
Lemma total_one (days : list string) day n : NoDup days → day ∈ days → total ((λ d, if bool_decide (day = d) then n else 0) <$> days) = n.
Proof.
  induction 1 as [|d days Hd Hnd IH]; intros Hin; [by apply not_elem_of_nil in Hin|]. rewrite fmap_cons, total_cons. case_bool_decide as Heq.
  - subst d. rewrite total_zero; [lia|]. intros x Hx. rewrite bool_decide_eq_false_2; [done|]. by intros ->.
  - rewrite IH; [lia|]. by apply elem_of_cons in Hin as [|].
Qed.

(** What is counted day by day adds up to what is counted at once. *)
Lemma count_by_day P trades : count P trades = total ((λ day, count P (filter (λ t, trade_date t = day) trades)) <$> trading_days trades).
Proof.
  destruct (group_spec trades) as (Hnd & Hin & _). fold (trading_days trades) in Hnd, Hin.
  assert (∀ t, t ∈ trades → trade_date t ∈ trading_days trades) as Hcov by (intros t Ht; apply Hin; by exists t).
  clear Hin. revert Hnd Hcov. generalize (trading_days trades) as days. intros days Hnd. induction trades as [|t trades IH]; intros Hcov.
  - symmetry. by apply total_zero.
  - unfold count at 1. rewrite fmap_cons, total_cons. fold (count P trades). rewrite IH by (intros t' Ht'; apply Hcov; by right).
    rewrite <-(total_one days (trade_date t) (if P t then 1 else 0)) by (done || apply Hcov; by left). rewrite <-total_add.
    f_equal. apply list_fmap_ext. intros _ day _. case_bool_decide as Hd.
    + by rewrite filter_cons_True.
    + by rewrite filter_cons_False.
Qed.

Definition any_trade (t : Trade) : bool := true.
Lemma count_all trades : count any_trade trades = Z.of_nat (length trades).
Proof. induction trades as [|t trades IH] using rev_ind; [done|]. rewrite count_snoc, IH, length_app. simpl. lia. Qed.

(** A day's counts are those of its trades. *)
Lemma day_counts ts day :
  let d := foldl (day_add qty) (new_day day) ts in
  dd_trades d = count any_trade ts ∧ dd_wins d = count (is_win qty) ts ∧ dd_losses d = count (λ t, negb (is_win qty t)) ts.
Proof.
  induction ts as [|t ts IH] using rev_ind; [done|]. cbv zeta in *. rewrite foldl_app, !count_snoc. simpl.
  destruct IH as (-> & -> & ->). by destruct (is_win qty t); simpl; lia.
Qed.

(** The loop's counts are those of the trades. *)
Lemma tally_counts trades :
  let a := foldl (tally_trade qty) no_tally trades in
  ta_wins a = count (is_win qty) trades ∧ ta_losses a = count (λ t, negb (is_win qty t)) trades ∧
  ta_call a = count (λ t, String.eqb (tr_Side t) SideCall) trades ∧
  ta_put a = count (λ t, negb (String.eqb (tr_Side t) SideCall) && String.eqb (tr_Side t) SidePut) trades ∧
  ta_days a = list_to_set (trading_days trades).
Proof.
  induction trades as [|t trades IH] using rev_ind; [done|]. cbv zeta in *. rewrite foldl_app, !count_snoc. simpl.
  destruct IH as (-> & -> & -> & -> & ->). split; [destruct (is_win qty t); lia|]. split; [destruct (is_win qty t); simpl; lia|].
  split; [destruct (String.eqb (tr_Side t) SideCall); lia|]. split; [destruct (negb _ && _); lia|].
  destruct (group_spec (trades ++ [t])) as (_ & H1 & _), (group_spec trades) as (_ & H0 & _). fold (trading_days trades) in H0.
  fold (trading_days (trades ++ [t])) in H1. apply set_eq. intros day.
  rewrite elem_of_union, elem_of_singleton, !elem_of_list_to_set, H0, H1. setoid_rewrite elem_of_app. setoid_rewrite list_elem_of_singleton.
  naive_solver.
Qed.

Lemma summaries_spec trades :
  computeDaySummaries trades qty = summarise no_drawdown (day_of trades <$> trading_days trades).
Proof.
  destruct (group_spec trades) as (_ & _ & Hmap). unfold computeDaySummaries, trading_days.
  destruct (foldl (group_trade qty) ([], ∅) trades) as [order days]. cbn [fst snd] in *. f_equal.
  assert (∀ l, (∀ day, day ∈ l → day ∈ order) → omap (λ day, days !! day) l = (day_of trades <$> l : list dayData)) as Hl; [|by apply Hl].
  intros l. induction l as [|day l IH]; intros Hin; [done|]. simpl. rewrite Hmap, bool_decide_eq_true_2 by (apply Hin; by left).
  f_equal. apply IH. intros d Hd. apply Hin. by right.
Qed.

Lemma summarise_fields w days :
  dy_Date <$> summarise w days = dd_date <$> days ∧ dy_Trades <$> summarise w days = dd_trades <$> days ∧
  dy_Wins <$> summarise w days = dd_wins <$> days ∧ dy_Losses <$> summarise w days = dd_losses <$> days.
Proof. revert w. induction days as [|d days IH]; intros w; [done|]. cbn [summarise]. rewrite !fmap_cons. by destruct (IH (draw w (dd_pnl d))) as (-> & -> & -> & ->). Qed.

(** The figures of a backtest agree with one another and with its trades. *)
Record figures_agree trades (m : Metrics) (ds : list DaySummary) : Prop := {
  fa_trades : me_TotalTrades m = Z.of_nat (length trades);
  fa_decided : me_Wins m + me_Losses m = me_TotalTrades m;
  fa_days : me_TotalDays m = Z.of_nat (length ds);
  fa_dates : NoDup (dy_Date <$> ds);
  fa_day_trades : total (dy_Trades <$> ds) = me_TotalTrades m;
  fa_day_wins : total (dy_Wins <$> ds) = me_Wins m;
  fa_day_losses : total (dy_Losses <$> ds) = me_Losses m }.

Lemma metrics_counts `{MO : MapOrder} trades :
  let m := computeMetrics trades qty in let a := foldl (tally_trade qty) no_tally trades in
  me_TotalTrades m = Z.of_nat (length trades) ∧ me_Wins m = ta_wins a ∧ me_Losses m = ta_losses a ∧
  me_TotalDays m = Z.of_nat (size (ta_days a)).
Proof. by destruct trades. Qed.

Lemma figures_hold `{MO : MapOrder} trades : figures_agree trades (computeMetrics trades qty) (computeDaySummaries trades qty).
Proof.
  rewrite summaries_spec. destruct (summarise_fields no_drawdown (day_of trades <$> trading_days trades)) as (Hd & Ht & Hw & Hl).
  destruct (tally_counts trades) as (T1 & T2 & _ & _ & T5).
  assert (∀ (f : dayData → Z) P, (∀ day, f (day_of trades day) = count P (filter (λ t, trade_date t = day) trades)) →
    total (f <$> (day_of trades <$> trading_days trades)) = count P trades) as Hsum.
  { intros f P Hf. rewrite (count_by_day P), <-list_fmap_compose. f_equal. apply list_fmap_ext. intros _ day _. apply Hf. }
  assert (count (is_win qty) trades + count (λ t, negb (is_win qty t)) trades = Z.of_nat (length trades)) as Hwl.
  { rewrite <-count_all. unfold count. rewrite <-total_add. f_equal. apply list_fmap_ext. intros _ t _. by destruct (is_win qty t). }
  destruct (group_spec trades) as (Hnd & _ & _). fold (trading_days trades) in Hnd.
  assert (length (summarise no_drawdown (day_of trades <$> trading_days trades)) = length (trading_days trades)) as Hlen.
  { rewrite <-(length_fmap dy_Date), Hd, !length_fmap. done. }
  assert (dd_date <$> (day_of trades <$> trading_days trades) = trading_days trades) as Hdates.
  { rewrite <-list_fmap_compose. etransitivity; [|apply list_fmap_id]. apply list_fmap_ext. intros _ day _. apply day_add_date. }
  destruct (metrics_counts trades) as (M1 & M2 & M3 & M4).
  split; rewrite ?M1, ?M2, ?M3, ?M4, ?Hd, ?Ht, ?Hw, ?Hl, ?T1, ?T2, ?T5, ?Hlen, ?Hdates; try done.
  - by rewrite size_list_to_set.
  - rewrite (Hsum dd_trades any_trade), count_all; [done|]. intros day. apply day_counts.
  - rewrite (Hsum dd_wins (is_win qty)); [done|]. intros day. apply day_counts.
  - rewrite (Hsum dd_losses (λ t, negb (is_win qty t))); [done|]. intros day. apply day_counts.
Qed.

Lemma equity_length cum trades : length (equity_loop qty cum trades) = length trades.
Proof. revert cum. induction trades as [|t trades IH]; intros cum; [done|]. simpl. by rewrite IH. Qed.

(** the figures of a backtest agree: every trade is a win or a loss and is
    counted in one day's summary; there is one summary a day, in the order the
    days come up, made of exactly that day's trades one after the other; the
    days' trades, wins and losses add up to the metrics'; and the equity curve
    has a point for every trade. *)
Theorem backtest_figures_agree `{MO : MapOrder} trades :
  figures_agree trades (computeMetrics trades qty) (computeDaySummaries trades qty) ∧
  computeDaySummaries trades qty = summarise no_drawdown (day_of trades <$> trading_days trades) ∧
  (∀ day, day ∈ trading_days trades ↔ ∃ t, t ∈ trades ∧ trade_date t = day) ∧
  length (computeEquityCurve trades qty) = length trades.
Proof.
  split; [apply figures_hold|]. split; [apply summaries_spec|]. split; [apply group_spec|apply equity_length].
Qed.
End stats.

(** ** A day's report *)

Definition demo_trade (side : string) (day entry exit : Z) : Trade := {|
  tr_ID := 1; tr_Side := side; tr_EntryTime := ist_date day 10 0; tr_ExitTime := ist_date day 11 30; tr_EntryPrice := entry;
  tr_ExitPrice := exit; tr_EntryReason := ""; tr_ExitReason := ""; tr_FNOEntryPrice := 0; tr_FNOExitPrice := 0; tr_Strike := 0;
  tr_SameDay := false; tr_TargetMove := 0; tr_modelMid := 0; tr_ShadowExit := ""; tr_ShadowExitTime := zero_time; tr_ShadowExitFNO := 0 |}.

(** Two days: 50 points won, 20 lost, 10 won, with a quantity of 2. *)
Example two_days :
  let trades := [demo_trade SideCall 19782 2500000 2505000; demo_trade SidePut 19782 2500000 2502000;
                 demo_trade SidePut 19783 2500000 2499000] in
  let m := computeMetrics (MO := canonical_order) trades 2 in
  (f64_to_int (me_NetPnL m), f64_to_int (me_WorstTrade m), f64_to_int (me_MaxDrawdown m), me_AvgDuration m, me_TotalDays m) =
    (80, -40, -40, "1h 30m", 2) ∧
  (λ d, (dy_Date d, dy_Trades d, f64_to_int (dy_PnL d), f64_to_int (dy_CumPnL d))) <$> computeDaySummaries trades 2 =
    [("2024-02-29", 2, 60, 60); ("2024-03-01", 1, 20, 80)] ∧
  f64_to_int <$> computeEquityCurve trades 2 = [100; 60; 80].
Proof. vm_compute. repeat split. Qed.

(** A run leaves the engine its configuration and prices. *)
Lemma run_keeps_engine `{ME : MathExp} `{ML : MathLog} `{MC : MathErfc} `{MO : MapOrder} `{SS : SliceSort} e candles res e' :
  RunWithCandles e candles = Some (res, e') → be_cfg e' = be_cfg e ∧ be_vix e' = be_vix e ∧ bs_TotalCandles res = Z.of_nat (length candles).
Proof.
  destruct candles as [|c candles]; [by intros [= <- <-]|]. unfold RunWithCandles.
  match goal with |- context [if ?b then ?x else ?y] => destruct (if b then x else y) as [[trades skipped]|] end; [|done].
  by intros [= <- <-].
Qed.
