(* ===== verification/StrikeCompare.v ===== *)
(** The strike comparison of a backtest (internal/backtest/strike_compare.go):
    the same trades priced at the strike the strategy asked for and at the two
    the live option picker would choose from a modeled chain. *)
From Stdlib Require Import SpecFloat OrderedTypeEx.
From S2P Require Import Prelude Float64 GoText Model MarketHours OptionMath OptionPicker Nifty50SrState OptionModel Backtest BacktestStats.
#[local] Open Scope Z_scope.
#[local] Open Scope go_scope.

(** One strike choice over the trades; no refusals is a nil map. *)
Record StrikeVariant := {
  sv_Name : string; sv_Trades : Z; sv_Refused : Z; sv_Wins : Z; sv_PnLPaise : Z; sv_AvgStrike : float64; sv_SignalPnLOnPriced : Z;
  sv_SignalPnLOnRefused : Z; sv_RefusedBy : gmap string Z }.

#[export] Instance StrikeVariant_settable : Settable StrikeVariant := λ v, {|
  sv_Name := sv_Name v; sv_Trades := sv_Trades v; sv_Refused := sv_Refused v; sv_Wins := sv_Wins v; sv_PnLPaise := sv_PnLPaise v;
  sv_AvgStrike := sv_AvgStrike v; sv_SignalPnLOnPriced := sv_SignalPnLOnPriced v; sv_SignalPnLOnRefused := sv_SignalPnLOnRefused v;
  sv_RefusedBy := sv_RefusedBy v |}.

Definition new_variant (name : string) : StrikeVariant := {|
  sv_Name := name; sv_Trades := 0; sv_Refused := 0; sv_Wins := 0; sv_PnLPaise := 0; sv_AvgStrike := f64_zero; sv_SignalPnLOnPriced := 0;
  sv_SignalPnLOnRefused := 0; sv_RefusedBy := ∅ |}.

Definition variant_WinRate (v : StrikeVariant) : float64 := if sv_Trades v =? 0 then f64_zero else #(sv_Wins v) ⊘ #(sv_Trades v).

Definition variant_add (pnl : Z) (v : StrikeVariant) : StrikeVariant :=
  v <| sv_Trades := sv_Trades v + 1 |> <| sv_PnLPaise := sv_PnLPaise v +! pnl |>
    <| sv_Wins := if 0 <? pnl then sv_Wins v + 1 else sv_Wins v |>.

Definition compareStrikes : Z := 8.
Definition defaultPickHoldMinutes : float64 := #240.

Definition pickHoldMinutes (e : BTEngine) : float64 :=
  if f64_zero <. bc_PickHoldMinutes (be_cfg e) then bc_PickHoldMinutes (be_cfg e) else defaultPickHoldMinutes.

(** The delta band, the theta cap and the gamma cap of a live intent. *)
Definition pickBand (e : BTEngine) (t : Trade) (atm step : Z) : float64 * float64 * float64 * float64 :=
  if String.eqb (bc_StrategyType (be_cfg e)) "nifty50_sr" then (f64_frac 45 100, f64_frac 60 100, #25, f64_frac 5 1000)
  else
    let d := tr_Strike t -! atm in
    let d := if String.eqb (tr_Side t) SidePut then i64 (- d) else d in
    let otm := if 0 <? d then d /! step else 0 in
    (f64_frac 40 100 ⊖ f64_frac 10 100 ⊗ #otm, f64_frac 60 100 ⊖ f64_frac 10 100 ⊗ #otm, f64_zero, f64_zero).

(** The largest finite float64. *)
Definition max_float64 : float64 := S754_finite false 9007199254740991 971.

(** The rule that dropped the most candidates, out-of-band strikes aside; the
    least name of the rules that dropped as many. *)
Definition better_cause (top : string * Z) (kc : string * Z) : string * Z :=
  let '(k, c) := kc in
  if String.eqb k "delta" then top
  else if (top.2 <? c) || ((c =? top.2) && String.ltb k top.1) then (k, c) else top.

Definition refusal_cause (rejects : list (string * Z)) : string :=
  let top := (foldl better_cause ("", 0) rejects).1 in if String.eqb top "" then "delta" else top.

Section compare.
Context `{ME : MathExp} `{ML : MathLog} `{MC : MathErfc} `{MO : MapOrder}.
Context (e : BTEngine).

(** A round trip at a strike, with slippage both ways. *)
Definition strikePnL (t : Trade) (strike : Z) : Z :=
  let m := model_of e in
  let price spot ts := premiumTo m (tr_Side t) strike spot ts (vixAt e ts) (expiryFor e t ts) in
  slip m false (price (tr_ExitPrice t) (tr_ExitTime t)) -! slip m true (price (tr_EntryPrice t) (tr_EntryTime t)).

Definition option_name (t : Trade) : string := if String.eqb (tr_Side t) SidePut then "PE" else "CE".
Definition entry_iv (t : Trade) : float64 :=
  let iv := vixAt e (tr_EntryTime t) in if f64_leb iv f64_zero then om_IVPct (model_of e) else iv.

(** The modeled chain: eight strikes either side of the money, each quoted at
    its modeled price less and plus slippage. *)
Definition chain_strike (atm step i : Z) : Z := atm +! i *! step.
Definition chain_contract (t : Trade) (k : Z) : Contract :=
  let tok := format_int k +:+ option_name t in {|
  oc_Token := tok; oc_Symbol := tok; oc_Strike := k; oc_Option := option_name t; oc_Expiry := expiryFor e t (tr_EntryTime t);
  oc_IV := entry_iv t; oc_Liquidity := max_float64 |}.
Definition chain_quote (t : Trade) (k : Z) : Quote :=
  let m := model_of e in
  let mid := premiumTo m (tr_Side t) k (tr_EntryPrice t) (tr_EntryTime t) (entry_iv t) (expiryFor e t (tr_EntryTime t)) in {|
  oq_LTP := mid; oq_Bid := slip m false mid; oq_Ask := slip m true mid; oq_OI := 0; oq_At := tr_EntryTime t |}.
Definition chain_strikes (atm step : Z) : list Z :=
  chain_strike atm step <$> seqZ (- compareStrikes) (2 * compareStrikes + 1).

(** What the picker is asked, with what rules, and what it sees. *)
Definition pick_intent (t : Trade) (atm step : Z) : SingleIntent :=
  let '(lo, hi, thetaGain, maxGamma) := pickBand e t atm step in {|
  si_Strategy := bc_StrategyType (be_cfg e); si_Option := option_name t; si_DeltaMin := lo; si_DeltaMax := hi; si_MinDTE := 1;
  si_TargetMove := tr_TargetMove t; si_MaxThetaPct := f64_zero; si_ThetaMaxGainPct := thetaGain; si_MaxGamma := maxGamma |}.
Definition pick_rules (rank : string) : Rules := {|
  ru_MaxSpreadPct := #2; ru_MaxQuoteAge := Minute; ru_MaxChainAge := Minute; ru_GammaDTE := 1; ru_MaxBuyIV := #25; ru_MinLiquidity := f64_zero;
  ru_CostMultiple := 3; ru_RatePct := om_RatePct (model_of e); ru_Rank := rank; ru_HoldMinutes := pickHoldMinutes e |}.
Definition pick_env (t : Trade) (ks : list Z) : PickEnv :=
  let quotes := foldl (λ m k, <[format_int k +:+ option_name t := chain_quote t k]> m) (∅ : gmap string Quote) ks in {|
  pe_Spot := tr_EntryPrice t; pe_Now := tr_EntryTime t; pe_ChainAt := tr_EntryTime t; pe_Quote := λ tok, quotes !! tok |}.

(** [pickStrike]: the strike, or the refusing rule; [None] is a panic. *)
Definition pickStrike (t : Trade) (rank : string) : option (string + Z) :=
  atm ← model_atmStrike (model_of e) (tr_EntryPrice t);
  let step := strike_step (model_of e) in
  let ks := chain_strikes atm step in
  Some (match SelectSingle (chain_contract t <$> ks) (pick_intent t atm step) (pick_rules rank) (pick_env t ks) with
        | (rej, inl _) => inl (refusal_cause (range rej))
        | (_, inr p) => inr (oc_Strike (pk_Contract p))
        end).

(** A picker's variant with the sum of its strikes, over one more trade. *)
Definition refuse_trade (pnl : Z) (rule : string) (v : StrikeVariant) : StrikeVariant :=
  v <| sv_Refused := sv_Refused v + 1 |> <| sv_SignalPnLOnRefused := sv_SignalPnLOnRefused v +! pnl |>
    <| sv_RefusedBy := <[rule := default 0 (sv_RefusedBy v !! rule) + 1]> (sv_RefusedBy v) |>.

Definition variant_step (t : Trade) (pnl : Z) (rank : string) (vs : StrikeVariant * float64) : option (StrikeVariant * float64) :=
  let '(v, sum) := vs in
  pick ← pickStrike t rank;
  Some (match pick with
        | inl rule => (refuse_trade pnl rule v, sum)
        | inr strike =>
            (variant_add (strikePnL t strike) (v <| sv_SignalPnLOnPriced := sv_SignalPnLOnPriced v +! pnl |>), sum ⊕ #strike)
        end).

Record comparison := {
  co_signal : StrikeVariant * float64; co_delta : StrikeVariant * float64; co_return : StrikeVariant * float64 }.

Definition compared (t : Trade) : bool := negb ((tr_Strike t =? 0) || t_is_zero (tr_ExitTime t) || tr_SameDay t).

Definition compare_trade (co : comparison) (t : Trade) : option comparison :=
  if negb (compared t) then Some co
  else
    let pnl := strikePnL t (tr_Strike t) in
    delta ← variant_step t pnl RankDelta (co_delta co);
    ret ← variant_step t pnl RankReturn (co_return co);
    Some {| co_signal := (variant_add pnl (co_signal co).1, (co_signal co).2 ⊕ #(tr_Strike t)); co_delta := delta; co_return := ret |}.

Fixpoint compare_loop (co : comparison) (trades : list Trade) : option comparison :=
  match trades with
  | [] => Some co
  | t :: trades => co ← compare_trade co t; compare_loop co trades
  end.

Definition averaged (vs : StrikeVariant * float64) : StrikeVariant :=
  let '(v, sum) := vs in if 0 <? sv_Trades v then v <| sv_AvgStrike := sum ⊘ #(sv_Trades v) |> else v.

Definition new_comparison : comparison := {|
  co_signal := (new_variant "signal strike (index price)", f64_zero); co_delta := (new_variant "picker: delta", f64_zero);
  co_return := (new_variant "picker: expected return", f64_zero) |}.

(** [inl]: an error; [None]: a panic. *)
Definition CompareStrikes (trades : list Trade) : option (string + list StrikeVariant) :=
  if negb (om_Enabled (model_of e)) then Some (inl "strike comparison needs -option-model")
  else
    co ← compare_loop new_comparison trades;
    Some (inr [averaged (co_signal co); averaged (co_delta co); averaged (co_return co)]).
End compare.

(** ** The cause of a refusal does not depend on the order of the rules *)

Lemma ltb_lt a b : String.ltb a b = true ↔ String_as_OT.lt a b.
Proof.
  rewrite <-String_as_OT.cmp_lt. unfold String.ltb, String_as_OT.cmp. by destruct (String.compare a b).
Qed.

Definition beats (x y : string * Z) : bool := (y.2 <? x.2) || ((x.2 =? y.2) && String.ltb x.1 y.1).

Lemma beats_spec x y : beats x y = true ↔ y.2 < x.2 ∨ x.2 = y.2 ∧ String_as_OT.lt x.1 y.1.
Proof. unfold beats. by rewrite orb_true_iff, andb_true_iff, Z.ltb_lt, Z.eqb_eq, ltb_lt. Qed.

Lemma beats_trans x y z : beats x y = true → beats y z = true → beats x z = true.
Proof.
  rewrite !beats_spec. intros [|[Hxy Hl]] [|[Hyz Hr]]; [left; lia..|]. right. split; [lia|]. by eapply String_as_OT.lt_trans.
Qed.

Lemma beats_irrefl x : beats x x = false.
Proof. apply not_true_is_false. rewrite beats_spec. intros [|[_ H]]; [lia|]. by apply String_as_OT.lt_not_eq in H. Qed.

Lemma beats_total x y : x ≠ y → beats x y = negb (beats y x).
Proof.
  intros Hne. destruct (beats y x) eqn:Hyx; simpl.
  - apply not_true_is_false. intros Hxy. pose proof (beats_irrefl x) as Hi. by rewrite (beats_trans x y x) in Hi.
  - apply beats_spec. destruct (Z.lt_trichotomy x.2 y.2) as [H|[H|H]]; [|right|by left].
    + exfalso. rewrite <-not_true_iff_false, beats_spec in Hyx. apply Hyx. by left.
    + split; [done|]. destruct (String_as_OT.compare x.1 y.1) as [Hl|He|Hg]; [done| |].
      * exfalso. apply Hne. destruct x, y; simpl in *. by rewrite He, H.
      * exfalso. rewrite <-not_true_iff_false, beats_spec in Hyx. apply Hyx. by right.
Qed.

Lemma better_cause_comm top a b : better_cause (better_cause top a) b = better_cause (better_cause top b) a.
Proof.
  assert (∀ t x, better_cause t x = if String.eqb x.1 "delta" then t else if beats x t then x else t) as Hb by (by intros t [k c]).
  rewrite !Hb. destruct (String.eqb a.1 "delta"), (String.eqb b.1 "delta"); [done..|].
  destruct (beats a top) eqn:Ha, (beats b top) eqn:Hc; rewrite ?Ha, ?Hc; [| | |done].
  - destruct (base.decide (a = b)) as [->|Hne]; [done|]. rewrite (beats_total a b) by done. by destruct (beats b a).
  - destruct (beats b a) eqn:Hba; [|done]. by rewrite (beats_trans b a top) in Hc.
  - destruct (beats a b) eqn:Hab; [|done]. by rewrite (beats_trans a b top) in Ha.
Qed.

Lemma refusal_cause_perm l k : l ≡ₚ k → refusal_cause l = refusal_cause k.
Proof.
  intros Hp. unfold refusal_cause. generalize ("", 0) as top. induction Hp as [|x l k Hp IH|x y l|l k m H1 IH1 H2 IH2]; intros top; simpl.
  - done.
  - apply IH.
  - by rewrite better_cause_comm.
  - by rewrite IH1.
Qed.

(** ** The comparison's accounts *)

Definition map_total (m : gmap string Z) : Z := map_fold (λ _ n acc, n + acc) 0 m.

Lemma map_total_insert k n m : m !! k = None → map_total (<[k := n]> m) = n + map_total m.
Proof. intros Hk. unfold map_total. apply (map_fold_insert_L (λ _ n acc, n + acc)); [intros; lia|done]. Qed.

Lemma map_total_bump k m : map_total (<[k := default 0 (m !! k) + 1]> m) = map_total m + 1.
Proof.
  destruct (m !! k) as [n|] eqn:Hk; simpl; [|rewrite map_total_insert by done; lia].
  rewrite <-(insert_delete_id m k n) at 2 by done. rewrite <-insert_delete_eq, !map_total_insert by apply lookup_delete_eq. lia.
Qed.

(** A picker's variant beside the signal's, over the same trades. *)
Record accounts (s v : StrikeVariant) : Prop := {
  ac_trades : sv_Trades v + sv_Refused v = sv_Trades s;
  ac_pnl : sv_SignalPnLOnPriced v +! sv_SignalPnLOnRefused v = sv_PnLPaise s;
  ac_refused : map_total (sv_RefusedBy v) = sv_Refused v;
  ac_wins : 0 <= sv_Wins v <= sv_Trades v }.

Section accounts.
Context `{ME : MathExp} `{ML : MathLog} `{MC : MathErfc}.
Context (e : BTEngine).

Lemma pickStrike_order (MO MO' : MapOrder) t rank : pickStrike (MO := MO) e t rank = pickStrike (MO := MO') e t rank.
Proof.
  unfold pickStrike. destruct (model_atmStrike _ _) as [atm|]; [|done]. simpl. destruct (SelectSingle _ _ _ _) as [rej [f|p]]; [|done].
  do 2 f_equal. apply refusal_cause_perm. by rewrite !range_perm.
Qed.

Lemma compare_order (MO MO' : MapOrder) trades : CompareStrikes (MO := MO) e trades = CompareStrikes (MO := MO') e trades.
Proof.
  assert (∀ t pnl rank vs, variant_step (MO := MO) e t pnl rank vs = variant_step (MO := MO') e t pnl rank vs) as Hv.
  { intros t pnl rank [v sum]. unfold variant_step. by rewrite (pickStrike_order MO MO'). }
  assert (∀ co t, compare_trade (MO := MO) e co t = compare_trade (MO := MO') e co t) as Hc.
  { intros co t. unfold compare_trade. by rewrite !Hv. }
  unfold CompareStrikes. destruct (negb _); [done|]. f_equal. generalize new_comparison as co.
  induction trades as [|t trades IH]; intros co; [done|]. simpl. rewrite Hc. destruct (compare_trade _ _ _); [apply IH|done].
Qed.

Context `{MO : MapOrder}.

(** What the picker picks is a strike of the chain. *)
Lemma pickStrike_in_chain t rank k : pickStrike e t rank = Some (inr k) →
  ∃ atm i, model_atmStrike (model_of e) (tr_EntryPrice t) = Some atm ∧ - compareStrikes <= i <= compareStrikes ∧
           k = chain_strike atm (strike_step (model_of e)) i.
Proof.
  unfold pickStrike. destruct (model_atmStrike _ _) as [atm|]; [|done]. simpl. set (step := strike_step (model_of e)).
  pose proof (SelectSingle_spec (chain_contract e t <$> chain_strikes atm step) (pick_intent e t atm step) (pick_rules e rank)
    (pick_env e t (chain_strikes atm step))) as Hs.
  destruct (SelectSingle _ _ _ _) as [rej [f|p]]; [done|]. cbn [snd] in Hs. intros [= <-].
  destruct Hs as (_ & expiry & _ & Hb). destruct Hb as [(c & Hc & _ & Hcand) _]. apply list_elem_of_fmap in Hc as (k & -> & Hk).
  apply candidate_quote in Hcand as (-> & _). apply list_elem_of_fmap in Hk as (i & -> & Hi%elem_of_seqZ). exists atm, i. split; [done|]. unfold compareStrikes in *. split; [lia|done].
Qed.

Lemma variant_step_accounts s v sum t pnl rank : strike_step (model_of e) <= 10 ^ 15 → accounts s v →
  ∃ v' sum', variant_step e t pnl rank (v, sum) = Some (v', sum') ∧ accounts (variant_add pnl s) v'.
Proof.
  intros Hstep [H1 H2 H3 H4]. unfold variant_step, pickStrike.
  destruct (atm_total (model_of e) (tr_EntryPrice t) Hstep) as [atm ->]. simpl. 
  destruct (SelectSingle _ _ _ _) as [rej [f|p]]; eexists _, _; (split; [reflexivity|]).
  - destruct v, s; simpl in *. split; simpl; [lia| |by rewrite map_total_bump, H3|done]. rewrite <-H2, !i64_add_l, ?i64_add_r. f_equal. lia.
  - destruct v, s; simpl in *. split; simpl; [lia| |done|case_match; lia]. rewrite <-H2, !i64_add_l, ?i64_add_r. f_equal. lia.
Qed.

Lemma accounts_avg s v x : accounts s v → accounts (averaged (s, x)) v.
Proof. intros [H1 H2 H3 H4]. unfold averaged. destruct (0 <? sv_Trades s); [|done]. by destruct s. Qed.

Lemma averaged_accounts s v x : accounts s v → accounts s (averaged (v, x)).
Proof. intros [H1 H2 H3 H4]. unfold averaged. destruct (0 <? sv_Trades v); [|done]. by destruct v. Qed.

Lemma averaged_trades v x : sv_Trades (averaged (v, x)) = sv_Trades v.
Proof. unfold averaged. destruct (0 <? sv_Trades v); [|done]. by destruct v. Qed.

Definition balanced (co : comparison) : Prop :=
  accounts (co_signal co).1 (co_delta co).1 ∧ accounts (co_signal co).1 (co_return co).1.

Lemma compare_loop_balanced trades : strike_step (model_of e) <= 10 ^ 15 → ∀ co, balanced co →
  ∃ co', compare_loop e co trades = Some co' ∧ balanced co' ∧
    sv_Trades (co_signal co').1 = sv_Trades (co_signal co).1 + Z.of_nat (length (filter (λ t, compared t = true) trades)).
Proof.
  intros Hstep. induction trades as [|t trades IH]; intros co [Hd Hr]; [exists co; by rewrite Z.add_0_r|]. cbn [compare_loop].
  unfold compare_trade. destruct (compared t) eqn:Hc; cbn [negb].
  - destruct co as [[s x] [d y] [r z]]. cbn [co_signal co_delta co_return fst snd] in *. set (pnl := strikePnL e t (tr_Strike t)).
    destruct (variant_step_accounts s d y t pnl RankDelta Hstep Hd) as (d' & y' & -> & Hd'). cbn [mbind option_bind].
    destruct (variant_step_accounts s r z t pnl RankReturn Hstep Hr) as (r' & z' & -> & Hr'). cbn [mbind option_bind].
    destruct (IH {| co_signal := (variant_add pnl s, x ⊕ #(tr_Strike t)); co_delta := (d', y'); co_return := (r', z') |}) as (co' & -> & Hb & Hn);
      [done|]. exists co'. split; [done|]. split; [done|]. rewrite Hn, filter_cons_True by done. destruct s; simpl in *. lia.
  - cbn [mbind option_bind]. destruct (IH co) as (co' & -> & Hb & Hn); [done|]. exists co'. split; [done|]. split; [done|].
    rewrite Hn, filter_cons_False; [done|]. by rewrite Hc.
Qed.

(** the comparison of strikes accounts for every trade: with the option
    model on it never fails; each picker either prices a trade or refuses it,
    for one counted rule, and the signal strike's profit on the trades it
    priced and on those it refused add up to the signal strike's profit; and
    no figure depends on the order the refusing rules are ranged over. *)
Theorem strike_comparison_accounts trades :
  om_Enabled (model_of e) = true → strike_step (model_of e) <= 10 ^ 15 →
  ∃ s d r, CompareStrikes e trades = Some (inr [s; d; r]) ∧
    sv_Trades s = Z.of_nat (length (filter (λ t, compared t = true) trades)) ∧ accounts s d ∧ accounts s r ∧
    ∀ MO' : MapOrder, CompareStrikes (MO := MO') e trades = CompareStrikes e trades.
Proof.
  intros He Hstep. destruct (compare_loop_balanced trades Hstep new_comparison) as (co & Hl & [Hd Hr] & Hn); [by split|].
  destruct co as [[s x] [d y] [r z]]. cbn [co_signal co_delta co_return fst snd] in *. exists (averaged (s, x)), (averaged (d, y)), (averaged (r, z)).
  split; [unfold CompareStrikes; by rewrite He, Hl|]. split; [by rewrite averaged_trades, Hn|].
  split; [by apply accounts_avg, averaged_accounts|]. split; [by apply accounts_avg, averaged_accounts|].
  intros MO'. apply compare_order.
Qed.
End accounts.

(** ** Two trades compared *)

Definition sample_engine (strategyType : string) : BTEngine := New_BTEngine {|
  bc_Exchange := "NSE"; bc_Token := "99926000"; bc_Qty := 75; bc_StrategyType := strategyType; bc_StrategyCfgSR := None; bc_CandleTF := 1;
  bc_Option := {| om_Enabled := true; om_IVPct := #12; om_RatePct := #6; om_PremiumSLPct := 0; om_SlippageBps := 10; om_SlippageMinPsa := 5;
    om_StrikeStep := 50; om_MinEntryPremium := 0; om_MinEntryDTE := 0; om_ExpiryMinDTE := 0 |};
  bc_PickHoldMinutes := f64_zero; bc_ExitPolicy := None; bc_PreReject := None |}.

(** A call of a day, bought and sold at these prices of the index. *)
Definition sample_trade (day entry exit : Z) : Trade := {|
  tr_ID := 1; tr_Side := SideCall; tr_EntryTime := ist_date day 10 0; tr_ExitTime := ist_date day 11 30; tr_EntryPrice := entry;
  tr_ExitPrice := exit; tr_EntryReason := ""; tr_ExitReason := ""; tr_FNOEntryPrice := 0; tr_FNOExitPrice := 0; tr_Strike := 25000;
  tr_SameDay := false; tr_TargetMove := 8000; tr_modelMid := 0; tr_ShadowExit := ""; tr_ShadowExitTime := zero_time; tr_ShadowExitFNO := 0 |}.

(** The second has no spot to pick a contract by, and is refused by both. *)
Definition sample_trades : list Trade := [sample_trade 20000 2500000 2505000; sample_trade 20003 0 2505000].

Lemma strike_comparison_accounts_witness :
  ∃ s d r, CompareStrikes (ME := λ _, #1) (ML := λ _, f64_zero) (MC := λ _, #1) (MO := canonical_order) (sample_engine "nifty50_sr") sample_trades
             = Some (inr [s; d; r]) ∧
    sv_Trades s = 2 ∧ accounts s d ∧ accounts s r ∧ (sv_Trades d, sv_Refused d, sv_Refused r) = (1, 1, 1).
Proof.
  destruct (strike_comparison_accounts (ME := λ _, #1) (ML := λ _, f64_zero) (MC := λ _, #1) (MO := canonical_order)
    (sample_engine "nifty50_sr") sample_trades) as (s & d & r & Hc & Hn & Hd & Hr & _); [reflexivity|vm_compute; discriminate|].
  exists s, d, r. split; [exact Hc|]. split; [exact Hn|]. split; [exact Hd|]. split; [exact Hr|].
  vm_compute in Hc. injection Hc as <- <- <-. reflexivity.
Defined.

(** The strategy type a run defaults to is not the one whose band is picked. *)
Example default_type_band :
  known_strategy (be_cfg (sample_engine "")) = true ∧ known_strategy (be_cfg (sample_engine "NIFTY50_SR")) = true ∧
  pickBand (sample_engine "") (sample_trade 20000 2500000 2505000) 25000 50 ≠
  pickBand (sample_engine "nifty50_sr") (sample_trade 20000 2500000 2505000) 25000 50 ∧
  pickBand (sample_engine "NIFTY50_SR") (sample_trade 20000 2500000 2505000) 25000 50 =
  pickBand (sample_engine "") (sample_trade 20000 2500000 2505000) 25000 50.
Proof. vm_compute. repeat split. discriminate. Qed.
