(* ===== verification/PnlLedger.v ===== *)
(** The P&L trade ledger (internal/stratengine/pnl_ledger.go over
    internal/pnlstore/store.go): the open entries in memory, the rows of the
    closed trades, and the queue of store writes between the order goroutine
    and the one writer.

    A stored time is the time itself: its text keeps the nanosecond, and the
    empty text is the zero time.  A SQL statement is atomic and may fail. *)
From stdpp Require Import sorting.
From S2P Require Import Prelude.
#[local] Open Scope Z_scope.

(** ** The store (pnlstore) *)

Record Entry := {
  le_PosKey : string; le_Strategy : string; le_Underlying : string; le_Side : string; le_Leg : string; le_Short : bool; le_Exchange : string;
  le_Token : string; le_FNOSymbol : string; le_Qty : Z; le_Price : Z; le_At : Time; le_Real : bool }.
#[export] Instance Entry_settable : Settable Entry := λ e, {|
  le_PosKey := le_PosKey e; le_Strategy := le_Strategy e; le_Underlying := le_Underlying e; le_Side := le_Side e; le_Leg := le_Leg e;
  le_Short := le_Short e; le_Exchange := le_Exchange e; le_Token := le_Token e; le_FNOSymbol := le_FNOSymbol e; le_Qty := le_Qty e;
  le_Price := le_Price e; le_At := le_At e; le_Real := le_Real e |}.

Definition entry_Key (e : Entry) : string :=
  if String.eqb (le_PosKey e) "" then le_Strategy e +:+ "|" +:+ le_Exchange e +:+ ":" +:+ le_Token e +:+ "|" +:+ le_Leg e else le_PosKey e.

Record LedgerTrade := {
  lt_ID : Z; lt_Strategy : string; lt_Underlying : string; lt_Side : string; lt_Leg : string; lt_Short : bool; lt_Exchange : string;
  lt_Token : string; lt_FNOSymbol : string; lt_Qty : Z; lt_EntryPrice : Z; lt_ExitPrice : Z; lt_Realized : Z; lt_EntryAt : Time;
  lt_ExitAt : Time; lt_ExitReason : string; lt_Real : bool }.
#[export] Instance LedgerTrade_settable : Settable LedgerTrade := λ t, {|
  lt_ID := lt_ID t; lt_Strategy := lt_Strategy t; lt_Underlying := lt_Underlying t; lt_Side := lt_Side t; lt_Leg := lt_Leg t;
  lt_Short := lt_Short t; lt_Exchange := lt_Exchange t; lt_Token := lt_Token t; lt_FNOSymbol := lt_FNOSymbol t; lt_Qty := lt_Qty t;
  lt_EntryPrice := lt_EntryPrice t; lt_ExitPrice := lt_ExitPrice t; lt_Realized := lt_Realized t; lt_EntryAt := lt_EntryAt t;
  lt_ExitAt := lt_ExitAt t; lt_ExitReason := lt_ExitReason t; lt_Real := lt_Real t |}.

(** The two tables; the rows of trades in the order of their ids. *)
Record PnlStore := { ps_entries : gmap string Entry; ps_trades : list LedgerTrade }.
Definition empty_store : PnlStore := {| ps_entries := ∅; ps_trades := [] |}.

(** The row's key is read back as the entry's. *)
Definition store_PutEntry (e : Entry) (s : PnlStore) : PnlStore :=
  {| ps_entries := <[entry_Key e := e <| le_PosKey := entry_Key e |>]> (ps_entries s); ps_trades := ps_trades s |}.
Definition store_DeleteEntry (key : string) (s : PnlStore) : PnlStore :=
  {| ps_entries := delete key (ps_entries s); ps_trades := ps_trades s |}.
Definition store_AddTrade (t : LedgerTrade) (s : PnlStore) : PnlStore :=
  {| ps_entries := ps_entries s; ps_trades := ps_trades s ++ [t <| lt_ID := Z.of_nat (S (length (ps_trades s))) |>] |}.

(** Every open entry. *)
Definition store_Entries (s : PnlStore) : list Entry := (map_to_list (ps_entries s)).*2.

(** The trades that exited in [from, to), by exit time and id. *)
Definition exit_order (a b : LedgerTrade) : Prop := lt_ExitAt a < lt_ExitAt b ∨ lt_ExitAt a = lt_ExitAt b ∧ lt_ID a <= lt_ID b.
#[export] Instance exit_order_dec : RelDecision exit_order.
Proof. intros a b. unfold exit_order. apply _. Defined.

Definition in_span (from to : Time) (strategy : string) (t : LedgerTrade) : bool :=
  (from <=? lt_ExitAt t) && (lt_ExitAt t <? to) && (String.eqb strategy "" || String.eqb (lt_Strategy t) strategy).

Definition store_Trades (from to : Time) (strategy : string) (s : PnlStore) : list LedgerTrade :=
  merge_sort exit_order (filter (λ t, in_span from to strategy t = true) (ps_trades s)).

Definition FirstExit (s : PnlStore) : option Time :=
  match ps_trades s with
  | [] => None
  | t :: ts => let first := foldl (λ m t, Z.min m (lt_ExitAt t)) (lt_ExitAt t) ts in if t_is_zero first then None else Some first
  end.

(** ** The ledger *)

Inductive ledger_op := PutEntry (e : Entry) | DeleteEntry (key : string) | AddTrade (t : LedgerTrade).

Definition store_op (op : ledger_op) : PnlStore → PnlStore :=
  match op with PutEntry e => store_PutEntry e | DeleteEntry key => store_DeleteEntry key | AddTrade t => store_AddTrade t end.

Definition ledgerQueue : nat := 1024.

(** The open entries, the queued writes, whether the queue is closed, and the
    writes a full queue dropped (each is logged). *)
Record pnlLedger := { pl_entries : gmap string Entry; pl_ops : list ledger_op; pl_closed : bool; pl_dropped : list ledger_op }.

Definition newPNLLedger (open : list Entry) : pnlLedger := {|
  pl_entries := foldl (λ m e, <[entry_Key e := e]> m) ∅ open; pl_ops := []; pl_closed := false; pl_dropped := [] |}.

(** [enqueue]; sending on a closed channel panics. *)
Definition enqueue (op : ledger_op) (l : pnlLedger) : option pnlLedger :=
  if pl_closed l then None
  else if (length (pl_ops l) <? ledgerQueue)%nat
  then Some {| pl_entries := pl_entries l; pl_ops := pl_ops l ++ [op]; pl_closed := false; pl_dropped := pl_dropped l |}
  else Some {| pl_entries := pl_entries l; pl_ops := pl_ops l; pl_closed := false; pl_dropped := pl_dropped l ++ [op] |}.

Record fillInfo := {
  fi_key : string; fi_opening : bool; fi_strategy : string; fi_underlying : string; fi_side : string; fi_leg : string; fi_short : bool;
  fi_exchange : string; fi_token : string; fi_symbol : string; fi_qty : Z; fi_price : Z; fi_realized : Z; fi_reason : string; fi_real : bool;
  fi_at : Time }.

Definition set_entry (key : string) (e : Entry) (l : pnlLedger) : pnlLedger := {|
  pl_entries := <[key := e]> (pl_entries l); pl_ops := pl_ops l; pl_closed := pl_closed l; pl_dropped := pl_dropped l |}.
Definition drop_entry (key : string) (l : pnlLedger) : pnlLedger := {|
  pl_entries := delete key (pl_entries l); pl_ops := pl_ops l; pl_closed := pl_closed l; pl_dropped := pl_dropped l |}.

Definition fill_entry (f : fillInfo) : Entry := {|
  le_PosKey := fi_key f; le_Strategy := fi_strategy f; le_Underlying := fi_underlying f; le_Side := fi_side f; le_Leg := fi_leg f;
  le_Short := fi_short f; le_Exchange := fi_exchange f; le_Token := fi_token f; le_FNOSymbol := fi_symbol f; le_Qty := fi_qty f;
  le_Price := fi_price f; le_At := fi_at f; le_Real := fi_real f |}.

(** The entry after an opening fill: an open position's is averaged. *)
Definition opened_entry (f : fillInfo) (old : option Entry) : option Entry :=
  e ← match old with
      | Some e =>
          if 0 <? le_Qty e then
            let qty := le_Qty e +! fi_qty f in
            if qty =? 0 then None
            else Some (e <| le_Price := (le_Price e *! le_Qty e +! fi_price f *! fi_qty f) /! qty |> <| le_Qty := qty |>)
          else Some (fill_entry f)
      | None => Some (fill_entry f)
      end;
  Some (e <| le_Real := le_Real e || fi_real f |>).

(** The row of a closing fill: the entry knows the contract and the side. *)
Definition closing_trade (f : fillInfo) (old : option Entry) : LedgerTrade :=
  let t := {|
    lt_ID := 0; lt_Strategy := fi_strategy f; lt_Underlying := fi_underlying f; lt_Side := fi_side f; lt_Leg := fi_leg f; lt_Short := fi_short f;
    lt_Exchange := fi_exchange f; lt_Token := fi_token f; lt_FNOSymbol := fi_symbol f; lt_Qty := fi_qty f; lt_EntryPrice := 0;
    lt_ExitPrice := fi_price f; lt_Realized := fi_realized f; lt_EntryAt := zero_time; lt_ExitAt := fi_at f; lt_ExitReason := fi_reason f;
    lt_Real := fi_real f |} in
  match old with
  | None => t
  | Some e =>
      t <| lt_Underlying := le_Underlying e |> <| lt_Side := le_Side e |> <| lt_Exchange := le_Exchange e |> <| lt_Token := le_Token e |>
        <| lt_FNOSymbol := le_FNOSymbol e |> <| lt_EntryPrice := le_Price e |> <| lt_EntryAt := le_At e |> <| lt_Real := le_Real e || fi_real f |>
  end.

(** [record]: one fill is booked; [None] is a panic. *)
Definition record (f : fillInfo) (l : pnlLedger) : option pnlLedger :=
  let old := pl_entries l !! fi_key f in
  if fi_opening f then
    e ← opened_entry f old;
    enqueue (PutEntry e) (set_entry (fi_key f) e l)
  else
    l ← match old with
        | Some e =>
            let left := le_Qty e -! fi_qty f in
            if 0 <? left then
              let e := e <| le_Qty := left |> in enqueue (PutEntry e) (set_entry (fi_key f) e l)
            else enqueue (DeleteEntry (fi_key f)) (drop_entry (fi_key f) l)
        | None => Some l
        end;
    enqueue (AddTrade (closing_trade f old)) l.

(** ** The order goroutine and the writer *)

(** The write the writer took is [lw_writing]; a write that failed is logged. *)
Record ledger_world := { lw_ledger : pnlLedger; lw_store : PnlStore; lw_writing : option ledger_op; lw_failed : list ledger_op }.

Inductive ledger_step := LRecord (f : fillInfo) | LTake | LWrite (ok : bool) | LClose.

Definition ledger_do (step : ledger_step) (w : ledger_world) : option ledger_world :=
  let l := lw_ledger w in
  match step with
  | LRecord f =>
      l ← record f l; Some {| lw_ledger := l; lw_store := lw_store w; lw_writing := lw_writing w; lw_failed := lw_failed w |}
  | LTake =>
      Some (match lw_writing w, pl_ops l with
            | None, op :: ops => {|
                lw_ledger := {| pl_entries := pl_entries l; pl_ops := ops; pl_closed := pl_closed l; pl_dropped := pl_dropped l |};
                lw_store := lw_store w; lw_writing := Some op; lw_failed := lw_failed w |}
            | _, _ => w
            end)
  | LWrite ok =>
      Some (match lw_writing w with
            | Some op => {|
                lw_ledger := l; lw_store := if ok then store_op op (lw_store w) else lw_store w; lw_writing := None;
                lw_failed := if ok then lw_failed w else lw_failed w ++ [op] |}
            | None => w
            end)
  | LClose => Some {|
      lw_ledger := {| pl_entries := pl_entries l; pl_ops := pl_ops l; pl_closed := true; pl_dropped := pl_dropped l |};
      lw_store := lw_store w; lw_writing := lw_writing w; lw_failed := lw_failed w |}
  end.

Fixpoint ledger_run (steps : list ledger_step) (w : ledger_world) : option ledger_world :=
  match steps with
  | [] => Some w
  | step :: steps => w ← ledger_do step w; ledger_run steps w
  end.

(** The process starts: the open entries are read. *)
Definition ledger_start (s : PnlStore) : ledger_world := {|
  lw_ledger := newPNLLedger (store_Entries s); lw_store := s; lw_writing := None; lw_failed := [] |}.

(** The writer has nothing left to do. *)
Definition drained (w : ledger_world) : Prop := lw_writing w = None ∧ pl_ops (lw_ledger w) = [].

(** ** The ledger a store would be without the queue *)

(** A fill booked straight into the tables. *)
Definition book (f : fillInfo) (s : PnlStore) : option PnlStore :=
  let old := ps_entries s !! fi_key f in
  if fi_opening f then e ← opened_entry f old; Some (store_PutEntry e s)
  else
    let s := match old with
             | Some e =>
                 let left := le_Qty e -! fi_qty f in
                 if 0 <? left then store_PutEntry (e <| le_Qty := left |>) s else store_DeleteEntry (fi_key f) s
             | None => s
             end in
    Some (store_AddTrade (closing_trade f old) s).

Fixpoint book_all (fs : list fillInfo) (s : PnlStore) : option PnlStore :=
  match fs with [] => Some s | f :: fs => s ← book f s; book_all fs s end.

Definition fills (steps : list ledger_step) : list fillInfo :=
  omap (λ step, match step with LRecord f => Some f | _ => None end) steps.

(** Every row is under its entry's key. *)
Definition store_ok (s : PnlStore) : Prop := ∀ k e, ps_entries s !! k = Some e → k ≠ "" ∧ le_PosKey e = k.

Lemma entry_Key_pos e : le_PosKey e ≠ "" → entry_Key e = le_PosKey e.
Proof. intros Hk. unfold entry_Key. by destruct (String.eqb_spec (le_PosKey e) ""). Qed.

Lemma put_entry e k s : le_PosKey e = k → k ≠ "" → store_PutEntry e s = {| ps_entries := <[k := e]> (ps_entries s); ps_trades := ps_trades s |}.
Proof. intros <- Hk. unfold store_PutEntry. rewrite entry_Key_pos by done. by destruct e. Qed.

Lemma store_ok_insert k e s ts : k ≠ "" → le_PosKey e = k → store_ok s → store_ok {| ps_entries := <[k := e]> (ps_entries s); ps_trades := ts |}.
Proof.
  intros Hk He Hs k' e'. simpl. destruct (base.decide (k = k')) as [<-|Hne]; [rewrite lookup_insert_eq; by intros [= <-]|].
  rewrite lookup_insert_ne by done. apply Hs.
Qed.

Lemma store_ok_delete k s ts : store_ok s → store_ok {| ps_entries := delete k (ps_entries s); ps_trades := ts |}.
Proof. intros Hs k' e'. simpl. intros [_ Hk]%lookup_delete_Some. by apply Hs. Qed.

Lemma entry_opened_key f old e : (∀ e0, old = Some e0 → le_PosKey e0 = fi_key f) → opened_entry f old = Some e → le_PosKey e = fi_key f.
Proof.
  intros Hold. unfold opened_entry. destruct old as [e0|]; simpl; [|by intros [= <-]].
  specialize (Hold e0 eq_refl). destruct (0 <? le_Qty e0); [|by intros [= <-]]. case_match; [done|]. intros [= <-]. by destruct e0.
Qed.

Lemma enqueue_kept op l l' : enqueue op l = Some l' → pl_dropped l' = [] →
  pl_dropped l = [] ∧ pl_ops l' = pl_ops l ++ [op] ∧ pl_entries l' = pl_entries l.
Proof.
  unfold enqueue. destruct (pl_closed l); [done|]. case_match; intros [= <-]; simpl; [done|]. by intros [_ ?]%app_eq_nil.
Qed.

Definition store_ops (ops : list ledger_op) (s : PnlStore) : PnlStore := foldl (λ s op, store_op op s) s ops.

(** What a fill queues is what booking it writes. *)
Lemma record_books f l l' s :
  record f l = Some l' → pl_dropped l' = [] → fi_key f ≠ "" → store_ok s → ps_entries s = pl_entries l →
  pl_dropped l = [] ∧ ∃ ops s', pl_ops l' = pl_ops l ++ ops ∧ book f s = Some s' ∧ store_ops ops s = s' ∧ store_ok s' ∧
    ps_entries s' = pl_entries l'.
Proof.
  intros Hr Hd Hk Hs He. unfold record in Hr. unfold book. rewrite He.
  assert (∀ e0, pl_entries l !! fi_key f = Some e0 → le_PosKey e0 = fi_key f) as Hold by (intros e0; rewrite <-He; apply Hs).
  destruct (fi_opening f).
  - destruct (opened_entry f _) as [e|] eqn:Ho; [|done]. simpl in *. apply entry_opened_key in Ho; [|done].
    apply enqueue_kept in Hr as (H1 & H2 & H3); [|done]. split; [done|]. exists [PutEntry e], (store_PutEntry e s). split; [done|].
    split; [done|]. split; [done|]. rewrite (put_entry e (fi_key f)) by done. split; [by apply store_ok_insert|]. simpl. by rewrite H3, He.
  - destruct (pl_entries l !! fi_key f) as [e|] eqn:Hl; simpl in Hr.
    + specialize (Hold e eq_refl). destruct (0 <? _).
      * destruct (enqueue _ _) as [l1|] eqn:H1; [|done]. simpl in Hr. apply enqueue_kept in Hr as (D1 & O1 & E1); [|done].
        apply enqueue_kept in H1 as (D2 & O2 & E2); [|done]. split; [done|]. eexists [_; _], _. split; [by rewrite O1, O2, <-app_assoc|].
        split; [reflexivity|]. split; [reflexivity|]. rewrite (put_entry _ (fi_key f)) by (done || by destruct e).
        split; [apply (store_ok_insert _ _ s); [done|by destruct e|done]|]. simpl. by rewrite E1, E2, He.
      * destruct (enqueue _ _) as [l1|] eqn:H1; [|done]. simpl in Hr. apply enqueue_kept in Hr as (D1 & O1 & E1); [|done].
        apply enqueue_kept in H1 as (D2 & O2 & E2); [|done]. split; [done|]. eexists [_; _], _. split; [by rewrite O1, O2, <-app_assoc|].
        split; [reflexivity|]. split; [reflexivity|]. split; [by apply (store_ok_delete _ s)|]. simpl. by rewrite E1, E2, He.
    + apply enqueue_kept in Hr as (D1 & O1 & E1); [|done]. split; [done|]. eexists [_], _. split; [done|]. split; [reflexivity|].
      split; [reflexivity|]. split; [apply Hs|]. simpl. by rewrite E1, He.
Qed.

(** ** Restarts *)

Lemma load_lookup (l : list (string * Entry)) (m : gmap string Entry) k :
  (∀ k e, (k, e) ∈ l → entry_Key e = k) → NoDup l.*1 →
  foldl (λ m e, <[entry_Key e := e]> m) m l.*2 !! k = match (list_to_map l : gmap string Entry) !! k with Some e => Some e | None => m !! k end.
Proof.
  revert m. induction l as [|[k0 e0] l IH]; intros m Hk Hnd; [done|]. rewrite fmap_cons in Hnd. apply NoDup_cons in Hnd as [Hn Hnd].
  rewrite fmap_cons, list_to_map_cons. cbn [foldl snd]. rewrite IH; [|intros k' e' Hin; apply Hk; by right|done].
  rewrite (Hk k0 e0) by (by left).
  destruct (base.decide (k0 = k)) as [->|Hne].
  - rewrite !lookup_insert_eq. by rewrite (not_elem_of_list_to_map_1 l k).
  - by rewrite !lookup_insert_ne.
Qed.

Lemma restart_entries s : store_ok s → pl_entries (newPNLLedger (store_Entries s)) = ps_entries s.
Proof.
  intros Hs. unfold newPNLLedger, store_Entries. cbn [pl_entries]. apply map_eq. intros k. rewrite load_lookup.
  - rewrite list_to_map_to_list. by destruct (ps_entries s !! k).
  - intros k' e Hin%elem_of_map_to_list. destruct (Hs _ _ Hin) as [Hk He]. by rewrite entry_Key_pos, He by congruence.
  - apply NoDup_fst_map_to_list.
Qed.

(** ** Runs *)

(** Nothing was dropped and nothing failed. *)
Definition clean (w : ledger_world) : Prop := pl_dropped (lw_ledger w) = [] ∧ lw_failed w = [].

Lemma record_clean f l l' : record f l = Some l' → pl_dropped l' = [] → pl_dropped l = [].
Proof.
  assert (∀ op l l', enqueue op l = Some l' → pl_dropped l' = [] → pl_dropped l = []) as He by (intros ? ? ? ? ?; by eapply enqueue_kept).
  unfold record. intros Hr Hd. destruct (fi_opening f).
  - destruct (opened_entry f _); [|done]. by eapply He in Hr.
  - destruct (pl_entries l !! fi_key f) as [e|]; simpl in Hr; [|by eapply He in Hr].
    destruct (0 <? _).
    + destruct (enqueue _ _) as [l1|] eqn:H1; [|done]. simpl in Hr. eapply He in Hr; [|done]. by eapply He in H1.
    + destruct (enqueue _ _) as [l1|] eqn:H1; [|done]. simpl in Hr. eapply He in Hr; [|done]. by eapply He in H1.
Qed.

Lemma step_clean step w w' : ledger_do step w = Some w' → clean w' → clean w.
Proof.
  destruct step as [f| |ok|]; simpl.
  - destruct (record f (lw_ledger w)) as [l|] eqn:Hr; [|done]. intros [= <-] [Hd Hf]. split; [by eapply record_clean|done].
  - intros [= <-]. destruct (lw_writing w), (pl_ops (lw_ledger w)); by intros [? ?].
  - intros [= <-]. destruct (lw_writing w); [|done]. intros [Hd Hf]. split; [done|]. destruct ok; [done|]. by apply app_eq_nil in Hf as [_ ?].
  - intros [= <-]. by intros [? ?].
Qed.

(** The writes still to come. *)
Definition pending (w : ledger_world) : list ledger_op := option_list (lw_writing w) ++ pl_ops (lw_ledger w).

(** Once they are made the store is [s], whose entries are those in memory. *)
Definition in_step (w : ledger_world) (s : PnlStore) : Prop :=
  store_ops (pending w) (lw_store w) = s ∧ store_ok s ∧ ps_entries s = pl_entries (lw_ledger w).

Lemma step_in_step step w w' s : ledger_do step w = Some w' → clean w' → (∀ f, step = LRecord f → fi_key f ≠ "") → in_step w s →
  ∃ s', book_all (fills [step]) s = Some s' ∧ in_step w' s'.
Proof.
  intros Hd [Hc Hf] Hkey (Hp & Hs & He). destruct step as [f| |ok|]; simpl in Hd.
  - destruct (record f (lw_ledger w)) as [l|] eqn:Hr; [|done]. injection Hd as <-.
    destruct (record_books f _ _ s Hr Hc (Hkey f eq_refl) Hs He) as (_ & ops & s' & Ho & Hb & Hw & Hs' & He').
    exists s'. simpl. rewrite Hb. split; [done|]. split; [|done]. unfold pending, store_ops in *. simpl. rewrite Ho, app_assoc, foldl_app, Hp. done.
  - exists s. injection Hd as <-. split; [done|]. destruct w as [l st [op|] fl]; [by split|]. destruct l as [m [|op ops] cl dr]; by split.
  - exists s. injection Hd as <-. split; [done|]. destruct w as [l st [op|] fl]; [|by split]. destruct ok; [by split|].
    by apply app_eq_nil in Hf as [_ ?].
  - exists s. injection Hd as <-. by split.
Qed.

Lemma book_all_app fs gs s : book_all (fs ++ gs) s = book_all fs s ≫= book_all gs.
Proof. revert s. induction fs as [|f fs IH]; intros s; [done|]. simpl. destruct (book f s); [apply IH|done]. Qed.

Lemma run_in_step steps : ∀ w w' s, ledger_run steps w = Some w' → clean w' → Forall (λ f, fi_key f ≠ "") (fills steps) → in_step w s →
  ∃ s', book_all (fills steps) s = Some s' ∧ in_step w' s'.
Proof.
  induction steps as [|step steps IH]; intros w w' s Hr Hc Hk Hi; [injection Hr as <-; by exists s|]. simpl in Hr.
  destruct (ledger_do step w) as [w1|] eqn:Hd; [|done]. simpl in Hr. change (step :: steps) with ([step] ++ steps) in *.
  unfold fills in *. rewrite omap_app, Forall_app in *. destruct Hk as [Hk1 Hk2].
  assert (clean w1) as Hc1.
  { clear -Hr Hc. revert w1 Hr. induction steps as [|st steps IH]; intros w1 Hr; [by injection Hr as ->|]. simpl in Hr.
    destruct (ledger_do st w1) as [w2|] eqn:Hd; [|done]. eapply step_clean; [exact Hd|]. by apply IH. }
  destruct (step_in_step step w w1 s Hd Hc1) as (s1 & H1 & Hi1); [|done|].
  { intros f ->. by inversion Hk1. }
  destruct (IH w1 w' s1 Hr Hc Hk2 Hi1) as (s2 & H2 & Hi2). exists s2. rewrite book_all_app. unfold fills in H1. by rewrite H1.
Qed.

(** C35: the ledger is its store with the writes still to come: whatever the
    interleaving of fills and writes, if the queue dropped nothing and no write
    failed, then the tables once the queue is drained are those of booking the
    same fills one by one straight into the tables the process started with,
    and a process that starts again reads back exactly the open entries that
    were in memory. *)
Theorem ledger_survives_restart s0 steps w :
  store_ok s0 → Forall (λ f, fi_key f ≠ "") (fills steps) →
  ledger_run steps (ledger_start s0) = Some w → clean w →
  ∃ s, book_all (fills steps) s0 = Some s ∧ store_ops (pending w) (lw_store w) = s ∧
       (drained w → lw_store w = s ∧ lw_ledger (ledger_start (lw_store w)) = newPNLLedger (store_Entries s) ∧
                    pl_entries (lw_ledger (ledger_start (lw_store w))) = pl_entries (lw_ledger w)).
Proof.
  intros Hs Hk Hr Hc. destruct (run_in_step steps _ _ s0 Hr Hc Hk) as (s & Hb & Hp & Hs' & He).
  { split; [done|]. split; [done|]. symmetry. by apply restart_entries. }
  exists s. split; [done|]. split; [done|]. intros [Hw Ho]. assert (lw_store w = s) as -> by (rewrite <-Hp; unfold pending; by rewrite Hw, Ho).
  split; [done|]. split; [done|]. change (pl_entries (newPNLLedger (store_Entries s)) = pl_entries (lw_ledger w)). by rewrite restart_entries.
Qed.

(** ** Averages *)

(** Adding to a position puts its price between the old one and the fill's. *)
Lemma averaged_between f e e' :
  opened_entry f (Some e) = Some e' → 0 < le_Qty e → 0 < fi_qty f → 0 <= le_Price e → 0 <= fi_price f → le_Qty e + fi_qty f <= max_i64 →
  Z.max (le_Price e) (fi_price f) * (le_Qty e + fi_qty f) <= max_i64 →
  Z.min (le_Price e) (fi_price f) <= le_Price e' <= Z.max (le_Price e) (fi_price f) ∧ le_Qty e' = le_Qty e + fi_qty f.
Proof.
  intros Ho Hq Hf Hp Hg Hr Hc. unfold opened_entry in Ho. destruct (Z.ltb_spec 0 (le_Qty e)); [|lia]. simpl in Ho.
  rewrite (i64_id (le_Qty e + fi_qty f)) in Ho by (i64_unfold; lia). destruct (Z.eqb_spec (le_Qty e + fi_qty f) 0); [lia|]. simpl in Ho.
  rewrite (i64_id (le_Price e * le_Qty e)), (i64_id (fi_price f * fi_qty f)), (i64_id (_ + fi_price f * fi_qty f)) in Ho by (i64_unfold; nia).
  assert (Z.min (le_Price e) (fi_price f) <= Z.quot (le_Price e * le_Qty e + fi_price f * fi_qty f) (le_Qty e + fi_qty f) <=
          Z.max (le_Price e) (fi_price f)) as Hb.
  { rewrite Z.quot_div_nonneg by nia. split; [apply Z.div_le_lower_bound; nia|apply Z.div_le_upper_bound; nia]. }
  injection Ho as <-. rewrite i64_id by (i64_unfold; nia). by destruct e.
Qed.

(** A fill that comes after [close] panics: its queue is closed. *)
Lemma record_after_close f w : ledger_run [LClose; LRecord f] w = None.
Proof.
  unfold ledger_run, ledger_do, record. simpl. destruct (fi_opening f).
  - by destruct (opened_entry f _).
  - destruct (pl_entries (lw_ledger w) !! fi_key f); [|done]. by destruct (0 <? _).
Qed.

(** ** A morning's fills *)

Definition sample_fill (opening : bool) (qty price realized : Z) (at_ : Time) : fillInfo := {|
  fi_key := "NIFTY50_SR|NSE:99926000|"; fi_opening := opening; fi_strategy := "NIFTY50_SR"; fi_underlying := "NSE:99926000"; fi_side := "CALL";
  fi_leg := ""; fi_short := false; fi_exchange := "NFO"; fi_token := "57709"; fi_symbol := "NIFTY06OCT2625000CE"; fi_qty := qty;
  fi_price := price; fi_realized := realized; fi_reason := ""; fi_real := true; fi_at := at_ |}.

(** Bought twice, half sold while the first write is still under way. *)
Definition sample_steps : list ledger_step :=
  [LRecord (sample_fill true 75 10000 0 1); LTake; LRecord (sample_fill true 75 11000 0 2); LWrite true;
   LRecord (sample_fill false 50 12000 75000 3); LTake; LWrite true; LTake; LWrite true; LTake; LWrite true].

Lemma ledger_survives_restart_witness :
  ∃ w, ledger_run sample_steps (ledger_start empty_store) = Some w ∧ drained w ∧
    (λ t, (lt_Qty t, lt_EntryPrice t, lt_Realized t)) <$> ps_trades (lw_store w) = [(50, 10500, 75000)] ∧
    (λ ke : string * Entry, (ke.1, le_Qty ke.2, le_Price ke.2)) <$> map_to_list (pl_entries (lw_ledger (ledger_start (lw_store w)))) =
      [("NIFTY50_SR|NSE:99926000|", 100, 10500)] ∧
    pl_entries (lw_ledger (ledger_start (lw_store w))) = pl_entries (lw_ledger w).
Proof.
  destruct (ledger_run sample_steps (ledger_start empty_store)) as [w|] eqn:Hr; [|vm_compute in Hr; discriminate].
  destruct (ledger_survives_restart empty_store sample_steps w) as (s & _ & _ & Hd).
  - intros k e He. vm_compute in He. discriminate.
  - repeat constructor; discriminate.
  - exact Hr.
  - vm_compute in Hr. injection Hr as <-. split; reflexivity.
  - exists w. split; [reflexivity|]. assert (drained w) as Hw by (vm_compute in Hr; injection Hr as <-; split; reflexivity).
    split; [exact Hw|]. destruct (Hd Hw) as (_ & _ & He). split; [|split; [|exact He]]; vm_compute in Hr; injection Hr as <-; reflexivity.
Defined.
