(* ===== verification/Analyst.v ===== *)
(** The market analyst (internal/analyst): a vote of five indicators on the
    market's state (market_state.go), support and resistance levels
    (sr_detector.go), breakouts of them (breakout_detector.go), the engine that
    feeds all three (engine.go) and what the service publishes of a candle
    (service.go).  Counts of candles and touches do not wrap; the indicator
    engine's panics are [None].

    What the analyst promises: its levels stay few, fresh, apart and graded; a
    breakout runs its course within twelve candles; and it is only ever
    reported close to its level. *)
From Stdlib Require Import SpecFloat.
From S2P Require Import Prelude Float64 GoText Model Indicators IndicatorEngine.
#[local] Open Scope Z_scope.
#[local] Open Scope go_scope.

(** ** The market's state (market_state.go) *)

Inductive MarketState := TrendingUp | TrendingDown | Sideways | Choppy | Mixed.
#[export] Instance MarketState_eq_dec : EqDecision MarketState.
Proof. solve_decision. Defined.

Record IndicatorVote := { iv_Name : string; iv_State : MarketState; iv_Value : float64 }.

Record MarketStateEvent := {
  mse_State : MarketState; mse_Confluence : Z; mse_Direction : string; mse_Votes : list IndicatorVote; mse_Token : string; mse_Exchange : string;
  mse_TF : Z; mse_TS : Time; mse_PreviousState : MarketState; mse_StateChangedAt : Time }.

Record IndicatorValues := {
  sn_ADX : float64; sn_PlusDI : float64; sn_MinusDI : float64; sn_ATR : float64; sn_Close : Z; sn_RSI : float64; sn_PrevRSI : float64;
  sn_EMA9 : float64; sn_EMA21 : float64; sn_VWAP : float64 }.

Record MarketStateDetector := { md_prevState : MarketState; md_stateChangedAt : Time }.
Definition NewMarketStateDetector : MarketStateDetector := {| md_prevState := Mixed; md_stateChangedAt := zero_time |}.

Definition voteADX (adx : float64) : MarketState :=
  if #25 <. adx then TrendingUp else if f64_leb #15 adx then Sideways else Choppy.
Definition voteATRPct (atrPct : float64) : MarketState :=
  if f64_frac 80 100 <. atrPct then TrendingUp else if f64_leb (f64_frac 30 100) atrPct then Sideways else Choppy.
Definition voteRSI (rsi slope : float64) : MarketState :=
  if f64_leb #40 rsi && f64_leb rsi #60 && (f64_abs slope <. f64_frac 1 2) then Choppy
  else if (#55 <. rsi) && (f64_frac 3 10 <. slope) then TrendingUp
  else if (rsi <. #45) && (slope <. f64_neg (f64_frac 3 10)) then TrendingDown
  else Sideways.
Definition voteEMASpread (spread : float64) : MarketState :=
  if f64_frac 10 100 <. spread then TrendingUp else if spread <. f64_neg (f64_frac 10 100) then TrendingDown else Sideways.
Definition voteVWAPDev (dev : float64) : MarketState :=
  if f64_frac 15 100 <. dev then TrendingUp else if dev <. f64_neg (f64_frac 15 100) then TrendingDown else Sideways.

Definition calcATRPct (atr : float64) (closePaise : Z) : float64 := if closePaise <=? 0 then f64_zero else atr ⊘ #closePaise ⊗ #100.
Definition calcEMASpread (ema9 ema21 : float64) : float64 :=
  if f64_eqb ema21 f64_zero then f64_zero else (ema9 ⊖ ema21) ⊘ ema21 ⊗ #100.
Definition calcVWAPDev (close vwap : float64) : float64 := if f64_eqb vwap f64_zero then f64_zero else (close ⊖ vwap) ⊘ vwap ⊗ #100.

Definition max4 (a b c d : Z) : Z :=
  let m := a in let m := if m <? b then b else m in let m := if m <? c then c else m in if m <? d then d else m.

Definition votes_of (snap : IndicatorValues) : list IndicatorVote :=
  let atrPct := calcATRPct (sn_ATR snap) (sn_Close snap) in
  let rsiSlope := sn_RSI snap ⊖ sn_PrevRSI snap in
  let emaSpread := calcEMASpread (sn_EMA9 snap) (sn_EMA21 snap) in
  let vwapDev := calcVWAPDev #(sn_Close snap) (sn_VWAP snap) in
  [{| iv_Name := "ADX"; iv_State := voteADX (sn_ADX snap); iv_Value := sn_ADX snap |};
   {| iv_Name := "ATR_PCT"; iv_State := voteATRPct atrPct; iv_Value := atrPct |};
   {| iv_Name := "RSI_SLOPE"; iv_State := voteRSI (sn_RSI snap) rsiSlope; iv_Value := rsiSlope |};
   {| iv_Name := "EMA_SPREAD"; iv_State := voteEMASpread emaSpread; iv_Value := emaSpread |};
   {| iv_Name := "VWAP_DEV"; iv_State := voteVWAPDev vwapDev; iv_Value := vwapDev |}].

Definition count_votes (st : MarketState) (votes : list IndicatorVote) : Z :=
  Z.of_nat (length (filter (λ v, iv_State v = st) votes)).

(** The state, how many agree on it, and its direction. *)
Definition decide_state (bullish bearish sideways choppy : Z) : MarketState * Z * string :=
  if 3 <=? bullish + bearish then
    if bearish <=? bullish then (TrendingUp, bullish, "BULLISH") else (TrendingDown, bearish, "BEARISH")
  else if 3 <=? sideways then (Sideways, sideways, "NEUTRAL")
  else if 3 <=? choppy then (Choppy, choppy, "NEUTRAL")
  else (Mixed, max4 bullish bearish sideways choppy, "NEUTRAL").

Definition Detect (snap : IndicatorValues) (token exchange : string) (tf : Z) (ts : Time) (d : MarketStateDetector) :
    MarketStateEvent * MarketStateDetector :=
  let votes := votes_of snap in
  let '(state, confluence, direction) :=
    decide_state (count_votes TrendingUp votes) (count_votes TrendingDown votes) (count_votes Sideways votes) (count_votes Choppy votes) in
  let changedAt := if bool_decide (state = md_prevState d) then md_stateChangedAt d else ts in
  ({| mse_State := state; mse_Confluence := confluence; mse_Direction := direction; mse_Votes := votes; mse_Token := token;
      mse_Exchange := exchange; mse_TF := tf; mse_TS := ts; mse_PreviousState := md_prevState d; mse_StateChangedAt := changedAt |},
   {| md_prevState := state; md_stateChangedAt := changedAt |}).

(** ** Levels (sr_detector.go) *)

Inductive LevelStrength := Strong | Medium | Weak.

(** Every level of the detector is horizontal. *)
Record AnalystLevel := {
  al_Price : Z; al_Strength : LevelStrength; al_TouchCount : Z; al_IsResistance : bool; al_IsRoundNumber : bool; al_HasHTF : bool;
  al_HasVolSpike : bool; al_LastTouchBar : Z; al_CreatedAt : Time }.
#[export] Instance AnalystLevel_settable : Settable AnalystLevel := λ l, {|
  al_Price := al_Price l; al_Strength := al_Strength l; al_TouchCount := al_TouchCount l; al_IsResistance := al_IsResistance l;
  al_IsRoundNumber := al_IsRoundNumber l; al_HasHTF := al_HasHTF l; al_HasVolSpike := al_HasVolSpike l;
  al_LastTouchBar := al_LastTouchBar l; al_CreatedAt := al_CreatedAt l |}.

Definition srTolerance : Z := 500.
Definition srMaxLevels : nat := 50.
Definition srStaleBarThreshold : Z := 30.
Definition srVolumeWindow : nat := 10.
Definition srSwingWindow : nat := 1.
Definition srCandleHistorySize : nat := 50.

Record SRDetector := { sd_levels : list AnalystLevel; sd_candles : list TFCandle; sd_barIdx : Z; sd_volumes : list Z }.
Definition NewSRDetector : SRDetector := {| sd_levels := []; sd_candles := []; sd_barIdx := 0; sd_volumes := [] |}.
Definition set_levels (f : list AnalystLevel → list AnalystLevel) (d : SRDetector) : SRDetector := {|
  sd_levels := f (sd_levels d); sd_candles := sd_candles d; sd_barIdx := sd_barIdx d; sd_volumes := sd_volumes d |}.

Definition abs64 (x : Z) : Z := if x <? 0 then i64 (- x) else x.
Definition isRoundNumber (price : Z) : bool := (Z.rem price 10000 =? 0) || (Z.rem price 5000 =? 0).

(** A sliding window takes one more. *)
Definition slide {A} (n : nat) (l : list A) (x : A) : list A := let l := l ++ [x] in if (n <? length l)%nat then drop 1 l else l.

Definition avgVolume (volumes : list Z) : float64 :=
  if Nat.eqb (length volumes) 0 then f64_zero else #(foldl (λ s v, s +! v) 0 volumes) ⊘ #(Z.of_nat (length volumes)).
Definition isVolumeSpike (volumes : list Z) (vol : Z) : bool :=
  if (length volumes <? 2)%nat then false
  else let avg := avgVolume volumes in (f64_zero <. avg) && (avg ⊗ f64_frac 3 2 <. #vol).

Definition weak_score (l : AnalystLevel) : Z :=
  let score := al_TouchCount l in
  let score := if al_HasHTF l then score + 10 else score in
  if al_IsRoundNumber l then score + 5 else score.

(** The index of the first of the least scores. *)
Fixpoint weakest_loop (i weakIdx : nat) (weakScore : Z) (levels : list AnalystLevel) : nat :=
  match levels with
  | [] => weakIdx
  | l :: levels =>
      if weak_score l <? weakScore then weakest_loop (S i) i (weak_score l) levels else weakest_loop (S i) weakIdx weakScore levels
  end.
Definition findWeakestLevel (levels : list AnalystLevel) : nat := weakest_loop 0 0 2147483647 levels.

Definition at_level (price : Z) (l : AnalystLevel) : bool := abs64 (al_Price l -! price) <=? srTolerance.
Definition touch (barIdx : Z) (l : AnalystLevel) : AnalystLevel :=
  l <| al_TouchCount := al_TouchCount l + 1 |> <| al_LastTouchBar := barIdx |>.

(** The first level at the price is touched. *)
Fixpoint touch_first (price barIdx : Z) (levels : list AnalystLevel) : option (list AnalystLevel) :=
  match levels with
  | [] => None
  | l :: levels => if at_level price l then Some (touch barIdx l :: levels) else cons l <$> touch_first price barIdx levels
  end.

Definition addOrUpdateLevel (price : Z) (isResistance : bool) (ts : Time) (d : SRDetector) : SRDetector :=
  set_levels (λ levels,
    match touch_first price (sd_barIdx d) levels with
    | Some levels => levels
    | None =>
        let level := {|
          al_Price := price; al_Strength := Weak; al_TouchCount := 1; al_IsResistance := isResistance; al_IsRoundNumber := isRoundNumber price;
          al_HasHTF := false; al_HasVolSpike := false; al_LastTouchBar := sd_barIdx d; al_CreatedAt := ts |} in
        if (srMaxLevels <=? length levels)%nat then <[findWeakestLevel levels := level]> levels else levels ++ [level]
    end) d.

(** The candle is lower (higher) on both sides, over the swing's window. *)
Definition is_swing (value : TFCandle → Z) (beyond : Z → Z → bool) (candles : list TFCandle) (mid : nat) (m : TFCandle) : bool :=
  forallb (λ i, match candles !! (mid - i)%nat, candles !! (mid + i)%nat with
                | Some a, Some b => negb (beyond (value a) (value m) || beyond (value b) (value m))
                | _, _ => false
                end) (seq 1 srSwingWindow).

Definition detectSwing (high : bool) (mid : nat) (d : SRDetector) : SRDetector :=
  let candles := sd_candles d in
  if (mid <? srSwingWindow)%nat || (length candles - srSwingWindow <=? mid)%nat then d
  else
    match candles !! mid with
    | Some m =>
        let value := if high then tfc_High else tfc_Low in
        let beyond a b := if high then b <=? a else a <=? b in
        if is_swing value beyond candles mid m then addOrUpdateLevel (value m) high (tfc_TS m) d else d
    | None => d
    end.
Definition detectSwingHigh : nat → SRDetector → SRDetector := detectSwing true.
Definition detectSwingLow : nat → SRDetector → SRDetector := detectSwing false.

(** A level after a candle: [None] once the whole body is past it. *)
Definition clean_break (tfc : TFCandle) (l : AnalystLevel) : bool :=
  if al_IsResistance l then al_Price l +! srTolerance <? Z.min (tfc_Open tfc) (tfc_Close tfc)
  else Z.max (tfc_Open tfc) (tfc_Close tfc) <? al_Price l -! srTolerance.
Definition check_level (volSpike : bool) (barIdx : Z) (tfc : TFCandle) (l : AnalystLevel) : option AnalystLevel :=
  if clean_break tfc l then None
  else if (al_Price l -! srTolerance <=? tfc_High tfc) && (tfc_Low tfc <=? al_Price l +! srTolerance)
  then Some (touch barIdx l <| al_HasVolSpike := volSpike || al_HasVolSpike l |>)
  else Some l.
Definition checkTouches (tfc : TFCandle) (d : SRDetector) : SRDetector :=
  set_levels (omap (check_level (isVolumeSpike (sd_volumes d) (tfc_Volume tfc)) (sd_barIdx d) tfc)) d.

Definition fresh_level (barIdx : Z) (l : AnalystLevel) : bool := barIdx - al_LastTouchBar l <=? srStaleBarThreshold.
Definition invalidateLevels (d : SRDetector) : SRDetector := set_levels (filter (λ l, fresh_level (sd_barIdx d) l = true)) d.

Definition strength_of (l : AnalystLevel) : LevelStrength :=
  let score := (if 3 <=? al_TouchCount l then 2 else if 2 <=? al_TouchCount l then 1 else 0) + (if al_HasHTF l then 1 else 0) +
               (if al_IsRoundNumber l then 1 else 0) + (if al_HasVolSpike l then 1 else 0) in
  if 3 <=? score then Strong else if 2 <=? score then Medium else Weak.
Definition classifyStrengths (d : SRDetector) : SRDetector := set_levels (fmap (λ l, l <| al_Strength := strength_of l |>)) d.

Definition sr_Update (tfc : TFCandle) (d : SRDetector) : SRDetector :=
  let d := {|
    sd_levels := sd_levels d; sd_candles := slide srCandleHistorySize (sd_candles d) tfc; sd_barIdx := sd_barIdx d + 1;
    sd_volumes := slide srVolumeWindow (sd_volumes d) (tfc_Volume tfc) |} in
  let d := if (2 * srSwingWindow + 1 <=? length (sd_candles d))%nat
           then let mid := (length (sd_candles d) - 1 - srSwingWindow)%nat in detectSwingLow mid (detectSwingHigh mid d)
           else d in
  classifyStrengths (invalidateLevels (checkTouches tfc d)).

Definition ActiveLevels (d : SRDetector) : list AnalystLevel := sd_levels d.

(** ** Breakouts (breakout_detector.go) *)

Inductive BreakoutStage := StageCompression | StageBreak | StageRetest | StageConfirmed | StageFailed.

Record BreakoutEvent := {
  be_Stage : BreakoutStage; be_Level : Z; be_Direction : string; be_BreakPrice : Z; be_BreakVolume : Z; be_AvgVolume : float64;
  be_VolumeRatio : float64; be_ADXValue : float64; be_ADXRising : bool; be_MeasuredMove : Z; be_RangeHeight : Z; be_BarsSinceBreak : Z;
  be_Token : string; be_Exchange : string; be_TF : Z; be_TS : Time }.

Definition boVolumeMultiplier : float64 := #2.
Definition boADXThreshold : float64 := #20.
Definition boCandleBodyWindow : nat := 5.
Definition boRetestBars : Z := 10.
Definition boFailureBars : Z := 3.
Definition boBBWSqueezeWindow : nat := 20.

Record activeBreakout := {
  ab_level : Z; ab_direction : string; ab_breakPrice : Z; ab_breakVolume : Z; ab_avgVolume : float64; ab_rangeHeight : Z; ab_measuredMove : Z;
  ab_barsSince : Z; ab_adxAtBreak : float64; ab_adxRising : bool; ab_retested : bool; ab_retestCandle : bool }.
#[export] Instance activeBreakout_settable : Settable activeBreakout := λ b, {|
  ab_level := ab_level b; ab_direction := ab_direction b; ab_breakPrice := ab_breakPrice b; ab_breakVolume := ab_breakVolume b;
  ab_avgVolume := ab_avgVolume b; ab_rangeHeight := ab_rangeHeight b; ab_measuredMove := ab_measuredMove b; ab_barsSince := ab_barsSince b;
  ab_adxAtBreak := ab_adxAtBreak b; ab_adxRising := ab_adxRising b; ab_retested := ab_retested b; ab_retestCandle := ab_retestCandle b |}.

Record BreakoutDetector := {
  bo_active : option activeBreakout; bo_recentBodies : list Z; bo_recentBBW : list float64; bo_prevADX : float64 }.
Definition NewBreakoutDetector : BreakoutDetector := {| bo_active := None; bo_recentBodies := []; bo_recentBBW := []; bo_prevADX := f64_zero |}.
Definition bo_Reset (_ : BreakoutDetector) : BreakoutDetector := NewBreakoutDetector.
Definition HasActiveBreakout (bd : BreakoutDetector) : bool := bool_decide (is_Some (bo_active bd)).
Definition ActiveBreakoutLevel (bd : BreakoutDetector) : Z := from_option ab_level 0 (bo_active bd).
Definition set_active (ab : option activeBreakout) (bd : BreakoutDetector) : BreakoutDetector := {|
  bo_active := ab; bo_recentBodies := bo_recentBodies bd; bo_recentBBW := bo_recentBBW bd; bo_prevADX := bo_prevADX bd |}.

Definition candle_body (tfc : TFCandle) : Z := abs64 (tfc_Close tfc -! tfc_Open tfc).
Definition avgCandleBody (bodies : list Z) : float64 :=
  if Nat.eqb (length bodies) 0 then f64_zero else #(foldl (λ s b, s +! b) 0 bodies) ⊘ #(Z.of_nat (length bodies)).
Definition estimateRangeHeight (bodies : list Z) : Z :=
  if Nat.eqb (length bodies) 0 then 0 else f64_to_int (avgCandleBody bodies ⊗ #(Z.of_nat boCandleBodyWindow)).

Definition isCompressing (recentBBW : list float64) (bbw atrPct : float64) : bool :=
  if (length recentBBW <? boBBWSqueezeWindow)%nat then false
  else forallb (λ prev, negb (f64_leb prev bbw)) (take (length recentBBW - 1) recentBBW) && (atrPct <. f64_frac 30 100).

Definition isRejectionCandle (tfc : TFCandle) (direction : string) : bool :=
  let totalRange := tfc_High tfc -! tfc_Low tfc in
  if totalRange =? 0 then false
  else if f64_frac 30 100 <. #(candle_body tfc) ⊘ #totalRange then false
  else if String.eqb direction "UP" then
    f64_frac 1 2 <. #(Z.min (tfc_Open tfc) (tfc_Close tfc) -! tfc_Low tfc) ⊘ #totalRange
  else f64_frac 1 2 <. #(tfc_High tfc -! Z.max (tfc_Open tfc) (tfc_Close tfc)) ⊘ #totalRange.

(** The direction in which the whole body is past the level. *)
Definition break_direction (tfc : TFCandle) (l : AnalystLevel) : option string :=
  if al_IsResistance l
  then if al_Price l <? Z.min (tfc_Open tfc) (tfc_Close tfc) then Some "UP" else None
  else if Z.max (tfc_Open tfc) (tfc_Close tfc) <? al_Price l then Some "DOWN" else None.

Definition checkBreakout (tfc : TFCandle) (l : AnalystLevel) (adx : float64) (adxRising : bool) (avgVol : float64) (bd : BreakoutDetector) :
    option (BreakoutEvent * BreakoutDetector) :=
  direction ← break_direction tfc l;
  let volRatio := if f64_zero <. avgVol then #(tfc_Volume tfc) ⊘ avgVol else f64_zero in
  if volRatio <. boVolumeMultiplier then None
  else if adx <. boADXThreshold then None
  else
    let avgBody := avgCandleBody (bo_recentBodies bd) in
    if (f64_zero <. avgBody) && (candle_body tfc <? f64_to_int avgBody) then None
    else
      let rangeHeight := estimateRangeHeight (bo_recentBodies bd) in
      let measuredMove := if String.eqb direction "UP" then al_Price l +! rangeHeight else al_Price l -! rangeHeight in
      Some ({| be_Stage := StageBreak; be_Level := al_Price l; be_Direction := direction; be_BreakPrice := tfc_Close tfc;
               be_BreakVolume := tfc_Volume tfc; be_AvgVolume := avgVol; be_VolumeRatio := volRatio; be_ADXValue := adx;
               be_ADXRising := adxRising; be_MeasuredMove := measuredMove; be_RangeHeight := rangeHeight; be_BarsSinceBreak := 0;
               be_Token := tfc_Token tfc; be_Exchange := tfc_Exchange tfc; be_TF := tfc_TF tfc; be_TS := tfc_TS tfc |},
            set_active (Some {| ab_level := al_Price l; ab_direction := direction; ab_breakPrice := tfc_Close tfc;
               ab_breakVolume := tfc_Volume tfc; ab_avgVolume := avgVol; ab_rangeHeight := rangeHeight; ab_measuredMove := measuredMove;
               ab_barsSince := 0; ab_adxAtBreak := adx; ab_adxRising := adxRising; ab_retested := false; ab_retestCandle := false |}) bd).

(** The event of an active breakout. *)
Definition track_event (stage : BreakoutStage) (tfc : TFCandle) (adx : float64) (adxRising : bool) (ab : activeBreakout) : BreakoutEvent := {|
  be_Stage := stage; be_Level := ab_level ab; be_Direction := ab_direction ab; be_BreakPrice := ab_breakPrice ab;
  be_BreakVolume := ab_breakVolume ab; be_AvgVolume := ab_avgVolume ab; be_VolumeRatio := f64_zero; be_ADXValue := adx;
  be_ADXRising := adxRising; be_MeasuredMove := ab_measuredMove ab; be_RangeHeight := ab_rangeHeight ab; be_BarsSinceBreak := ab_barsSince ab;
  be_Token := tfc_Token tfc; be_Exchange := tfc_Exchange tfc; be_TF := tfc_TF tfc; be_TS := tfc_TS tfc |}.

Definition back_inside (tfc : TFCandle) (ab : activeBreakout) : bool :=
  (ab_barsSince ab <=? boFailureBars) &&
  ((String.eqb (ab_direction ab) "UP" && (tfc_Close tfc <? ab_level ab)) ||
   (String.eqb (ab_direction ab) "DOWN" && (ab_level ab <? tfc_Close tfc))).
Definition adx_collapsed (adx : float64) (adxRising : bool) (ab : activeBreakout) : bool :=
  (2 <? ab_barsSince ab) && negb adxRising && (adx <. ab_adxAtBreak ab ⊖ #5).
Definition retesting (tfc : TFCandle) (ab : activeBreakout) : bool :=
  if String.eqb (ab_direction ab) "UP" then (tfc_Low tfc <=? ab_level ab +! srTolerance) && (ab_level ab <? tfc_Close tfc)
  else (ab_level ab -! srTolerance <=? tfc_High tfc) && (tfc_Close tfc <? ab_level ab).

(** The event, if any, and the breakout, if it is still watched. *)
Definition trackActiveBreakout (tfc : TFCandle) (adx : float64) (adxRising : bool) (ab : activeBreakout) :
    option BreakoutEvent * option activeBreakout :=
  let ab := ab <| ab_barsSince := ab_barsSince ab + 1 |> in
  let event stage := Some (track_event stage tfc adx adxRising ab) in
  if back_inside tfc ab || adx_collapsed adx adxRising ab then (event StageFailed, None)
  else if negb (ab_retested ab) && retesting tfc ab
  then (event StageRetest, Some (ab <| ab_retested := true |> <| ab_retestCandle := isRejectionCandle tfc (ab_direction ab) |>))
  else if (ab_retested ab && ab_retestCandle ab) || (boRetestBars <? ab_barsSince ab) then (event StageConfirmed, None)
  else (None, Some ab).

Definition compression_event (tfc : TFCandle) (adx : float64) (adxRising : bool) : BreakoutEvent := {|
  be_Stage := StageCompression; be_Level := 0; be_Direction := ""; be_BreakPrice := 0; be_BreakVolume := 0; be_AvgVolume := f64_zero;
  be_VolumeRatio := f64_zero; be_ADXValue := adx; be_ADXRising := adxRising; be_MeasuredMove := 0; be_RangeHeight := 0; be_BarsSinceBreak := 0;
  be_Token := tfc_Token tfc; be_Exchange := tfc_Exchange tfc; be_TF := tfc_TF tfc; be_TS := tfc_TS tfc |}.

(** The first level that breaks. *)
Fixpoint first_break (tfc : TFCandle) (levels : list AnalystLevel) (adx : float64) (adxRising : bool) (avgVol : float64)
    (bd : BreakoutDetector) : option (BreakoutEvent * BreakoutDetector) :=
  match levels with
  | [] => None
  | l :: levels =>
      match checkBreakout tfc l adx adxRising avgVol bd with
      | Some r => Some r
      | None => first_break tfc levels adx adxRising avgVol bd
      end
  end.

Definition bo_Update (tfc : TFCandle) (levels : list AnalystLevel) (adx atrPct bbw avgVol : float64) (bd : BreakoutDetector) :
    option BreakoutEvent * BreakoutDetector :=
  let adxRising := bo_prevADX bd <. adx in
  let bd := {|
    bo_active := bo_active bd; bo_recentBodies := slide boCandleBodyWindow (bo_recentBodies bd) (candle_body tfc);
    bo_recentBBW := slide boBBWSqueezeWindow (bo_recentBBW bd) bbw; bo_prevADX := adx |} in
  match bo_active bd with
  | Some ab => let '(event, ab) := trackActiveBreakout tfc adx adxRising ab in (event, set_active ab bd)
  | None =>
      if isCompressing (bo_recentBBW bd) bbw atrPct then (Some (compression_event tfc adx adxRising), bd)
      else
        match first_break tfc levels adx adxRising avgVol bd with
        | Some (event, bd) => (Some event, bd)
        | None => (None, bd)
        end
  end.

(** ** The engine (engine.go) *)

Record LevelUpdateEvent := {
  lue_Levels : list AnalystLevel; lue_Token : string; lue_Exchange : string; lue_TF : Z; lue_TS : Time }.
Record AnalysisResult := { ar_State : MarketStateEvent; ar_Levels : LevelUpdateEvent; ar_Breakout : option BreakoutEvent }.

Record AnalystEngine := {
  ae_indEngine : IndicatorEngine.Engine; ae_msd : MarketStateDetector; ae_srd : SRDetector; ae_bod : BreakoutDetector;
  ae_rsiHistory : list float64; ae_rsiCount : Z; ae_last : option AnalysisResult }.

Definition analyst_configs : list TFIndicatorConfig :=
  [{| tc_TF := 60; tc_Indicators :=
      [{| ic_Type := "ADX"; ic_Period := 14 |}; {| ic_Type := "ATR"; ic_Period := 14 |}; {| ic_Type := "RSI"; ic_Period := 14 |};
       {| ic_Type := "EMA"; ic_Period := 9 |}; {| ic_Type := "EMA"; ic_Period := 21 |}; {| ic_Type := "VWAP"; ic_Period := 0 |};
       {| ic_Type := "BOLLINGER"; ic_Period := 20 |}] |}].

(** No result yet is the zero result of the code. *)
Definition NewAnalystEngine : AnalystEngine := {|
  ae_indEngine := IndicatorEngine.NewEngine analyst_configs; ae_msd := NewMarketStateDetector; ae_srd := NewSRDetector;
  ae_bod := NewBreakoutDetector; ae_rsiHistory := [f64_zero; f64_zero; f64_zero; f64_zero]; ae_rsiCount := 0; ae_last := None |}.

(** One result read into the snapshot; the RSI's history goes with it. *)
Definition read_result (acc : IndicatorValues * (list float64 * Z)) (r : IndicatorResult) : IndicatorValues * (list float64 * Z) :=
  let '(s, (hist, n)) := acc in
  let set adx atr rsi prevRSI ema9 ema21 vwap := {|
    sn_ADX := adx; sn_PlusDI := sn_PlusDI s; sn_MinusDI := sn_MinusDI s; sn_ATR := atr; sn_Close := sn_Close s; sn_RSI := rsi;
    sn_PrevRSI := prevRSI; sn_EMA9 := ema9; sn_EMA21 := ema21; sn_VWAP := vwap |} in
  let v := ir_Value r in
  if negb (ir_Ready r) then acc
  else if String.eqb (ir_Name r) "ADX_14" then (set v (sn_ATR s) (sn_RSI s) (sn_PrevRSI s) (sn_EMA9 s) (sn_EMA21 s) (sn_VWAP s), (hist, n))
  else if String.eqb (ir_Name r) "ATR_14" then (set (sn_ADX s) v (sn_RSI s) (sn_PrevRSI s) (sn_EMA9 s) (sn_EMA21 s) (sn_VWAP s), (hist, n))
  else if String.eqb (ir_Name r) "RSI_14" then
    let hist := <[Z.to_nat (n mod 4) := v]> hist in
    let n := n + 1 in
    let prev := if 4 <=? n then default f64_zero (hist !! Z.to_nat ((n - 3) mod 4)) else v in
    (set (sn_ADX s) (sn_ATR s) v prev (sn_EMA9 s) (sn_EMA21 s) (sn_VWAP s), (hist, n))
  else if String.eqb (ir_Name r) "EMA_9" then (set (sn_ADX s) (sn_ATR s) (sn_RSI s) (sn_PrevRSI s) v (sn_EMA21 s) (sn_VWAP s), (hist, n))
  else if String.eqb (ir_Name r) "EMA_21" then (set (sn_ADX s) (sn_ATR s) (sn_RSI s) (sn_PrevRSI s) (sn_EMA9 s) v (sn_VWAP s), (hist, n))
  else if String.eqb (ir_Name r) "VWAP_0" then (set (sn_ADX s) (sn_ATR s) (sn_RSI s) (sn_PrevRSI s) (sn_EMA9 s) (sn_EMA21 s) v, (hist, n))
  else acc.

Definition no_values (close : Z) : IndicatorValues := {|
  sn_ADX := f64_zero; sn_PlusDI := f64_zero; sn_MinusDI := f64_zero; sn_ATR := f64_zero; sn_Close := close; sn_RSI := f64_zero;
  sn_PrevRSI := f64_zero; sn_EMA9 := f64_zero; sn_EMA21 := f64_zero; sn_VWAP := f64_zero |}.

Definition extractSnapshot (results : list IndicatorResult) (tfc : TFCandle) (hist : list float64) (n : Z) :
    IndicatorValues * (list float64 * Z) := foldl read_result (no_values (tfc_Close tfc), (hist, n)) results.

(** The band width: twice the ATR over the middle band, as a percentage; from
    the first ready band that is positive, if there is a ready ATR. *)
Definition ready_value (name : string) (results : list IndicatorResult) : option float64 :=
  ir_Value <$> head (filter (λ r, String.eqb (ir_Name r) name && ir_Ready r = true) results).
Definition extractBBW (results : list IndicatorResult) : float64 :=
  default f64_zero
    (middle ← head (filter (λ v, (f64_zero <. v) = true)
                (ir_Value <$> filter (λ r, String.eqb (ir_Name r) "BB_20" && ir_Ready r = true) results));
     atr ← ready_value "ATR_14" results;
     Some (#2 ⊗ atr ⊘ middle ⊗ #100)).

Definition analyst_Process (tfc : TFCandle) (e : AnalystEngine) : option (option AnalysisResult * AnalystEngine) :=
  if IsReplay tfc (ae_indEngine e)
  then Some ((λ r, {| ar_State := ar_State r; ar_Levels := ar_Levels r; ar_Breakout := None |}) <$> ae_last e, e)
  else
    '(results, ind) ← IndicatorEngine.Process tfc (ae_indEngine e);
    let '(snap, (hist, n)) := extractSnapshot results tfc (ae_rsiHistory e) (ae_rsiCount e) in
    let '(state, msd) := Detect snap (tfc_Token tfc) (tfc_Exchange tfc) (tfc_TF tfc) (tfc_TS tfc) (ae_msd e) in
    let srd := sr_Update tfc (ae_srd e) in
    let levels := ActiveLevels srd in
    let atrPct := calcATRPct (sn_ATR snap) (sn_Close snap) in
    let '(breakout, bod) := bo_Update tfc levels (sn_ADX snap) atrPct (extractBBW results) (avgVolume (sd_volumes srd)) (ae_bod e) in
    let last := Some {|
      ar_State := state;
      ar_Levels := {| lue_Levels := levels; lue_Token := tfc_Token tfc; lue_Exchange := tfc_Exchange tfc; lue_TF := tfc_TF tfc;
                      lue_TS := tfc_TS tfc |};
      ar_Breakout := breakout |} in
    Some (last, {| ae_indEngine := ind; ae_msd := msd; ae_srd := srd; ae_bod := bod; ae_rsiHistory := hist; ae_rsiCount := n; ae_last := last |}).

(** ** What the service publishes (service.go) *)

Inductive publication := PublishState (r : option AnalysisResult) | PublishLevels (r : option AnalysisResult) | PublishBreakout (e : BreakoutEvent)
  | PublishSummary (r : option AnalysisResult).

Definition publish_result (r : option AnalysisResult) : list publication :=
  [PublishState r; PublishLevels r] ++ from_option (λ e, [PublishBreakout e]) [] (r ≫= ar_Breakout) ++ [PublishSummary r].

(** One turn of [processLoop]: only finalised one-minute candles. *)
Definition process_candle (tfc : TFCandle) (e : AnalystEngine) : option (list publication * AnalystEngine) :=
  if tfc_Forming tfc || negb (tfc_TF tfc =? 60) then Some ([], e)
  else '(r, e) ← analyst_Process tfc e; Some (publish_result r, e).

Fixpoint process_loop (candles : list TFCandle) (e : AnalystEngine) : option (list publication * AnalystEngine) :=
  match candles with
  | [] => Some ([], e)
  | c :: candles =>
      '(out, e) ← process_candle c e;
      '(outs, e) ← process_loop candles e;
      Some (out ++ outs, e)
  end.

(** A stream's history on start: its last result is published. *)
Fixpoint warm_loop (candles : list TFCandle) (last : option (option AnalysisResult)) (e : AnalystEngine) :
    option (option (option AnalysisResult) * AnalystEngine) :=
  match candles with
  | [] => Some (last, e)
  | c :: candles =>
      if tfc_Forming c then warm_loop candles last e
      else '(r, e) ← analyst_Process c e; warm_loop candles (Some r) e
  end.
Definition warmupIndicators (candles : list TFCandle) (e : AnalystEngine) : option (list publication * AnalystEngine) :=
  '(last, e) ← warm_loop candles None e; Some (from_option publish_result [] last, e).

(** ** Lists apart *)

Definition far (p q : Z) : Prop := srTolerance < Z.abs (p - q).

Fixpoint apart (l : list Z) : Prop :=
  match l with [] => True | p :: l => Forall (far p) l ∧ apart l end.

Lemma far_sym p q : far p q → far q p.
Proof. unfold far. lia. Qed.

Lemma apart_perm l k : l ≡ₚ k → apart l → apart k.
Proof.
  induction 1 as [|x l k Hp IH|x y l|l k m H1 IH1 H2 IH2]; simpl; [done|..].
  - intros [Hf Ha]. split; [by rewrite <-Hp|by apply IH].
  - intros [[Hxy Hx]%Forall_cons [Hy Ha]]. split; [|done]. constructor; [by apply far_sym|done].
  - naive_solver.
Qed.

Lemma forall_sublist {A} (P : A → Prop) (l k : list A) : l `sublist_of` k → Forall P k → Forall P l.
Proof. induction 1; [done|..]; intros [? ?]%Forall_cons; [constructor|]; auto. Qed.

Lemma apart_sublist l k : l `sublist_of` k → apart k → apart l.
Proof.
  induction 1 as [|x l k Hs IH|x l k Hs IH]; simpl; [done|..].
  - intros [Hf Ha]. split; [|by apply IH]. by eapply forall_sublist.
  - intros [_ Ha]. by apply IH.
Qed.

Lemma apart_insert i x l : Forall (far x) l → apart l → apart (<[i:=x]> l).
Proof.
  intros Hx Ha. destruct (l !! i) as [y|] eqn:Hy; [|by rewrite list_insert_ge by by apply lookup_ge_None].
  rewrite insert_take_drop by (by eapply lookup_lt_Some). apply (apart_perm (x :: (take i l ++ drop (S i) l))); [by rewrite Permutation_middle|].
  assert (take i l ++ drop (S i) l `sublist_of` l) as Hs.
  { rewrite <-(take_drop_middle l i y Hy) at 3. apply sublist_app; [done|]. by constructor. }
  split; [by eapply forall_sublist|by eapply apart_sublist].
Qed.

(** ** Levels *)

Definition max_price : Z := 10 ^ 15.
Definition price_ok (p : Z) : Prop := 0 <= p <= max_price.

(** A level as it is kept: graded up to the last classification. *)
Record level_ok (barIdx : Z) (l : AnalystLevel) : Prop := {
  lo_price : price_ok (al_Price l);
  lo_touches : 1 <= al_TouchCount l;
  lo_last : al_LastTouchBar l <= barIdx }.

Record sr_ok (d : SRDetector) : Prop := {
  so_bar : 0 <= sd_barIdx d;
  so_count : (length (sd_levels d) <= srMaxLevels)%nat;
  so_levels : Forall (level_ok (sd_barIdx d)) (sd_levels d);
  so_apart : apart (al_Price <$> sd_levels d) }.

Definition candle_ok (c : TFCandle) : Prop := price_ok (tfc_High c) ∧ price_ok (tfc_Low c).

Lemma price_diff p q : price_ok p → price_ok q → abs64 (p -! q) = Z.abs (p - q).
Proof.
  unfold price_ok, max_price. intros Hp Hq. rewrite i64_id by (i64_unfold; lia). unfold abs64.
  destruct (Z.ltb_spec (p - q) 0); [rewrite i64_id by (i64_unfold; lia)|]; lia.
Qed.

Lemma touch_level_ok b l : level_ok b l → level_ok b (touch b l).
Proof. intros [H1 H2 H3]. destruct l; simpl in *. split; simpl; [done|lia..]. Qed.

Lemma touch_first_spec price b levels : price_ok price → Forall (level_ok b) levels →
  match touch_first price b levels with
  | Some levels' => Forall (level_ok b) levels' ∧ al_Price <$> levels' = al_Price <$> levels
  | None => Forall (far price) (al_Price <$> levels)
  end.
Proof.
  intros Hp. induction levels as [|l levels IH]; intros Hl; [constructor|]. apply Forall_cons in Hl as [Hl Hls]. cbn [touch_first].
  unfold at_level. rewrite price_diff by (done || apply Hl). destruct (Z.leb_spec (Z.abs (al_Price l - price)) srTolerance).
  - split; [|by destruct l]. constructor; [by apply touch_level_ok|done].
  - specialize (IH Hls). destruct (touch_first price b levels) as [levels'|]; cbn [fmap option_fmap option_map].
    + destruct IH as [H1 H2]. split; [by constructor|]. by rewrite !fmap_cons, H2.
    + constructor; [unfold far; lia|done].
Qed.

Lemma addOrUpdateLevel_ok price res ts d : price_ok price → sr_ok d → sr_ok (addOrUpdateLevel price res ts d).
Proof.
  intros Hp [H1 H2 H3 H4]. unfold addOrUpdateLevel, set_levels. pose proof (touch_first_spec price (sd_barIdx d) (sd_levels d) Hp H3) as Ht.
  destruct (touch_first _ _ _) as [levels|].
  - destruct Ht as [Ht1 Ht2]. split; simpl; [done| |done|by rewrite Ht2]. by rewrite <-(length_fmap al_Price), Ht2, length_fmap.
  - set (new := {| al_Price := price |}). assert (level_ok (sd_barIdx d) new) as Hn by (by split).
    split; cbn [sd_levels sd_barIdx]; [done|..]; destruct (Nat.leb_spec srMaxLevels (length (sd_levels d))).
    + by rewrite length_insert.
    + rewrite length_app. simpl. lia.
    + by apply Forall_insert.
    + apply Forall_app. by split; [|constructor].
    + rewrite list_fmap_insert. by apply apart_insert.
    + rewrite fmap_app. apply (apart_perm (price :: (al_Price <$> sd_levels d))); [by rewrite Permutation_app_comm|]. by split.
Qed.

Lemma detectSwing_ok high mid d : Forall candle_ok (sd_candles d) → sr_ok d → sr_ok (detectSwing high mid d).
Proof.
  intros Hc Hd. unfold detectSwing. destruct (_ || _); [done|]. destruct (sd_candles d !! mid) as [m|] eqn:Hm; [|done].
  destruct (is_swing _ _ _ _ _); [|done]. apply addOrUpdateLevel_ok; [|done]. rewrite Forall_lookup in Hc. destruct (Hc _ _ Hm). by destruct high.
Qed.

Lemma check_level_ok v b c l l' : level_ok b l → check_level v b c l = Some l' → level_ok b l' ∧ al_Price l' = al_Price l.
Proof.
  intros Hl. unfold check_level. destruct (clean_break c l); [done|]. destruct (_ && _); intros [= <-]; [|done].
  pose proof (touch_level_ok b l Hl) as [H1 H2 H3]. destruct l; by split.
Qed.

Lemma omap_prices (f : AnalystLevel → option AnalystLevel) levels : (∀ l l', l ∈ levels → f l = Some l' → al_Price l' = al_Price l) →
  al_Price <$> omap f levels `sublist_of` al_Price <$> levels.
Proof.
  induction levels as [|l levels IH]; intros Hf; [constructor|]. simpl.
  assert (al_Price <$> omap f levels `sublist_of` al_Price <$> levels) as Hs by (apply IH; intros; apply Hf; [by right|done]).
  destruct (f l) as [l'|] eqn:Hl; [|by constructor]. simpl. rewrite (Hf l l') by (done || by left). by constructor.
Qed.

Lemma checkTouches_ok c d : sr_ok d → sr_ok (checkTouches c d).
Proof.
  intros [H1 H2 H3 H4]. unfold checkTouches, set_levels. set (f := check_level _ _ _). rewrite Forall_forall in H3.
  assert (∀ l l', l ∈ sd_levels d → f l = Some l' → level_ok (sd_barIdx d) l' ∧ al_Price l' = al_Price l) as Hf
    by (intros l l' Hl; apply check_level_ok; by apply H3).
  assert (al_Price <$> omap f (sd_levels d) `sublist_of` al_Price <$> sd_levels d) as Hs by (apply omap_prices; intros l l' Hl He; by apply Hf).
  split; simpl; [done| | |by eapply apart_sublist].
  - apply sublist_length in Hs. rewrite !length_fmap in Hs. lia.
  - apply Forall_forall. intros l' (l & Hl & He)%list_elem_of_omap. by eapply Hf.
Qed.

Lemma keep_ok (P : AnalystLevel → Prop) `{∀ l, Decision (P l)} d : sr_ok d → sr_ok (set_levels (filter P) d).
Proof.
  intros [H1 H2 H3 H4]. split; simpl; [done|..].
  - etrans; [apply length_filter|done].
  - eapply forall_sublist; [apply sublist_filter|done].
  - eapply apart_sublist; [|exact H4]. apply (fmap_sublist _ _ _ (sublist_filter P (sd_levels d))).
Qed.

Lemma classify_ok d : sr_ok d → sr_ok (classifyStrengths d).
Proof.
  intros [H1 H2 H3 H4]. split; simpl; [done|by rewrite length_fmap| |].
  - apply Forall_fmap. eapply Forall_impl; [exact H3|]. intros l [L1 L2 L3]. by destruct l.
  - by rewrite <-list_fmap_compose, (list_fmap_ext _ al_Price) by (intros _ l _; by destruct l).
Qed.

Lemma slide_in {A} n (l : list A) x (P : A → Prop) : Forall P l → P x → Forall P (slide n l x) ∧ (length (slide n l x) <= S (length l))%nat.
Proof.
  intros Hl Hx. assert (Forall P (l ++ [x])) as Hlx by (apply Forall_app; by split; [|constructor]). unfold slide.
  rewrite !length_app. destruct (_ <? _)%nat; [|rewrite length_app; simpl; split; [done|lia]].
  split; [by apply Forall_drop|]. rewrite length_drop, length_app. simpl. lia.
Qed.

Lemma slide_length {A} n (l : list A) x : (length l <= n)%nat → (length (slide n l x) <= n)%nat.
Proof.
  intros Hl. unfold slide. destruct (Nat.ltb_spec n (length (l ++ [x]))); [|done]. rewrite length_drop, length_app in *. simpl in *. lia.
Qed.

(** Every level was touched within the last thirty candles and is graded by
    its touches; the windows are no longer than they should be. *)
Record levels_ok (d : SRDetector) : Prop := {
  lv_sr : sr_ok d;
  lv_fresh : Forall (λ l, sd_barIdx d - al_LastTouchBar l <= srStaleBarThreshold ∧ al_Strength l = strength_of l) (sd_levels d);
  lv_windows : (length (sd_candles d) <= srCandleHistorySize)%nat ∧ (length (sd_volumes d) <= srVolumeWindow)%nat;
  lv_candles : Forall candle_ok (sd_candles d) }.

Lemma swing_fields high mid d : sd_candles (detectSwing high mid d) = sd_candles d ∧ sd_volumes (detectSwing high mid d) = sd_volumes d ∧
  sd_barIdx (detectSwing high mid d) = sd_barIdx d.
Proof. unfold detectSwing. destruct (_ || _); [done|]. destruct (_ !! _); [|done]. by destruct (is_swing _ _ _ _ _). Qed.

Lemma update_ok c d : candle_ok c → levels_ok d → levels_ok (sr_Update c d).
Proof.
  intros Hc [Hsr _ [Hw1 Hw2] Hcs]. unfold sr_Update. set (d0 := {| sd_levels := sd_levels d |}).
  assert (sr_ok d0) as H0.
  { destruct Hsr as [H1 H2 H3 H4]. split; simpl; [lia|done| |done]. eapply Forall_impl; [exact H3|]. intros l [L1 L2 L3]. split; [done|done|lia]. }
  assert (Forall candle_ok (sd_candles d0)) as Hc0 by (by apply slide_in).
  assert ((length (sd_candles d0) <= srCandleHistorySize)%nat ∧ (length (sd_volumes d0) <= srVolumeWindow)%nat) as Hw0
    by (split; by apply slide_length).
  clearbody d0. set (d1 := if (_ <=? _)%nat then _ else d0).
  assert (sr_ok d1 ∧ sd_candles d1 = sd_candles d0 ∧ sd_volumes d1 = sd_volumes d0) as (H1 & E1 & E2).
  { subst d1. destruct (_ <=? _)%nat; [|done]. unfold detectSwingLow, detectSwingHigh. set (mid := (_ - _)%nat).
    destruct (swing_fields true mid d0) as (S1 & S2 & _). destruct (swing_fields false mid (detectSwing true mid d0)) as (S3 & S4 & _).
    split; [|split; congruence]. apply detectSwing_ok; [by rewrite S1|]. by apply detectSwing_ok. }
  clearbody d1. assert (sr_ok (classifyStrengths (invalidateLevels (checkTouches c d1)))) as H2
    by (apply classify_ok, keep_ok, checkTouches_ok, H1).
  split; [done| |by simpl; rewrite E1, E2|by simpl; rewrite E1]. simpl. apply Forall_fmap, Forall_forall.
  intros l [Hf _]%list_elem_of_filter. unfold fresh_level in Hf. simpl in Hf. apply Z.leb_le in Hf. by destruct l.
Qed.

Lemma no_levels_ok : levels_ok NewSRDetector.
Proof. split; [split; [done|simpl; lia|constructor|done]|constructor|simpl; lia|constructor]. Qed.

(** Whatever the candles, the analyst holds at most fifty levels, no two of
    them within the tolerance of five rupees of each other, each touched at
    least once and within the last thirty candles, and graded by its touches,
    its roundness and its volume. *)
Theorem analyst_levels_well_formed cs : Forall candle_ok cs → levels_ok (foldl (λ d c, sr_Update c d) NewSRDetector cs).
Proof.
  pose proof no_levels_ok as H0.
  revert H0. generalize NewSRDetector as d. induction cs as [|c cs IH]; intros d Hd Hcs; [done|]. apply Forall_cons in Hcs as [Hc Hcs].
  apply IH; [by apply update_ok|done].
Qed.

(** ** The course of a breakout *)

(** Nothing watched, or a break of a level, so many candles ago, retested or not. *)
Inductive phase := Idle | Watching (level : Z) (direction : string) (since : Z) (retested : bool).

(** What a candle may report in a phase, and the phase it leaves. *)
Inductive phase_step : phase → option BreakoutEvent → phase → Prop :=
  | idle_quiet : phase_step Idle None Idle
  | idle_squeeze ev : be_Stage ev = StageCompression → phase_step Idle (Some ev) Idle
  | idle_break ev : be_Stage ev = StageBreak → phase_step Idle (Some ev) (Watching (be_Level ev) (be_Direction ev) 0 false)
  | watch_quiet l d n r : n < boRetestBars → phase_step (Watching l d n r) None (Watching l d (n + 1) r)
  | watch_retest l d n ev : n <= boRetestBars → be_Stage ev = StageRetest → be_Level ev = l → be_Direction ev = d → be_BarsSinceBreak ev = n + 1 →
      phase_step (Watching l d n false) (Some ev) (Watching l d (n + 1) true)
  | watch_failed l d n r ev : n <= boRetestBars + 1 → be_Stage ev = StageFailed → be_Level ev = l → be_Direction ev = d →
      be_BarsSinceBreak ev = n + 1 → phase_step (Watching l d n r) (Some ev) Idle
  | watch_confirmed l d n r ev : r = true ∨ n = boRetestBars → n <= boRetestBars + 1 → be_Stage ev = StageConfirmed → be_Level ev = l →
      be_Direction ev = d → be_BarsSinceBreak ev = n + 1 → phase_step (Watching l d n r) (Some ev) Idle.

Inductive phase_run : phase → list (option BreakoutEvent) → phase → Prop :=
  | run_nil p : phase_run p [] p
  | run_cons p ev q evs r : phase_step p ev q → phase_run q evs r → phase_run p (ev :: evs) r.

Definition phase_of (bd : BreakoutDetector) : phase :=
  match bo_active bd with
  | None => Idle
  | Some ab => Watching (ab_level ab) (ab_direction ab) (ab_barsSince ab) (ab_retested ab)
  end.

(** A break not retested is watched for ten candles, a retested one for one more. *)
Definition watch_ok (bd : BreakoutDetector) : Prop :=
  match bo_active bd with
  | None => True
  | Some ab => 0 <= ab_barsSince ab <= boRetestBars + (if ab_retested ab then 1 else 0)
  end.

Lemma track_ok tfc adx rising ab bd : watch_ok (set_active (Some ab) bd) →
  let '(ev, ab') := trackActiveBreakout tfc adx rising ab in
  phase_step (phase_of (set_active (Some ab) bd)) ev (phase_of (set_active ab' bd)) ∧ watch_ok (set_active ab' bd).
Proof.
  unfold watch_ok, phase_of, trackActiveBreakout, boRetestBars. destruct ab as [l d bp bv av rh mm n ax ar r rc].
  cbn [set_active bo_active ab_level ab_direction ab_barsSince ab_retested ab_retestCandle].
  set (ab1 := _ <| ab_barsSince := _ |>). assert (ab_level ab1 = l ∧ ab_direction ab1 = d ∧ ab_barsSince ab1 = n + 1 ∧ ab_retested ab1 = r ∧
    ab_retestCandle ab1 = rc) as (E1 & E2 & E3 & E4 & E5) by done. intros Hn.
  destruct (_ || _); [split; [|done]; apply watch_failed; unfold boRetestBars; destruct r; simpl; try done; lia|].
  rewrite E4. destruct r; cbn [negb andb].
  - destruct (ab_retestCandle ab1 || (10 <? ab_barsSince ab1)) eqn:Hc.
    + split; [|done]. apply watch_confirmed; unfold boRetestBars; try done; [by left|lia].
    + rewrite E5, E3, orb_false_iff in Hc. destruct Hc as [_ Hc%Z.ltb_ge]. cbn [orb andb]. rewrite E1, E2, E3, E4. split; [apply watch_quiet; unfold boRetestBars; lia|lia].
  - destruct (retesting tfc ab1).
    + cbn [bo_active]. split; [|simpl; lia]. apply watch_retest; unfold boRetestBars; simpl; try done. lia.
    + destruct (Z.ltb_spec 10 (ab_barsSince ab1)) as [Hc|Hc].
      * split; [|done]. apply watch_confirmed; unfold boRetestBars; simpl; try done; [right|]; lia.
      * cbn [orb andb]. rewrite E1, E2, E3, E4. split; [apply watch_quiet; unfold boRetestBars; lia|lia].
Qed.

Lemma checkBreakout_event tfc l adx rising avg bd ev bd' : checkBreakout tfc l adx rising avg bd = Some (ev, bd') →
  be_Stage ev = StageBreak ∧ be_Level ev = al_Price l ∧ break_direction tfc l = Some (be_Direction ev) ∧ be_VolumeRatio ev <. boVolumeMultiplier = false ∧
  adx <. boADXThreshold = false ∧ ∃ ab, bo_active bd' = Some ab ∧ ab_level ab = be_Level ev ∧ ab_direction ab = be_Direction ev ∧
  ab_barsSince ab = 0 ∧ ab_retested ab = false.
Proof.
  unfold checkBreakout. destruct (break_direction tfc l) as [d|]; [|done]. cbn [mbind option_bind].
  destruct (_ <. boVolumeMultiplier) eqn:Hv; [done|]. destruct (adx <. boADXThreshold) eqn:Ha; [done|].
  destruct (_ && _); [done|]. intros [= <- <-]. split; [done|]. split; [done|]. split; [done|]. split; [done|]. split; [done|].
  by eexists.
Qed.

Lemma first_break_event tfc levels adx rising avg bd ev bd' : first_break tfc levels adx rising avg bd = Some (ev, bd') →
  ∃ l, l ∈ levels ∧ checkBreakout tfc l adx rising avg bd = Some (ev, bd').
Proof.
  induction levels as [|l levels IH]; [done|]. simpl. destruct (checkBreakout tfc l adx rising avg bd) as [r|] eqn:Hl.
  - intros [= ->]. exists l. split; [by left|done].
  - intros Hb. destruct (IH Hb) as (l' & Hin & Hc). exists l'. split; [by right|done].
Qed.

(** One candle of the detector is one step of the course. *)
Lemma bo_Update_step tfc levels adx atr bbw avg bd : watch_ok bd →
  let '(ev, bd') := bo_Update tfc levels adx atr bbw avg bd in phase_step (phase_of bd) ev (phase_of bd') ∧ watch_ok bd'.
Proof.
  intros Hw. unfold bo_Update. set (bd0 := {| bo_active := bo_active bd |}). cbn [bo_active].
  assert (phase_of bd = phase_of bd0) as -> by done. assert (watch_ok bd0) as H0 by done.
  destruct (bo_active bd) as [ab|] eqn:Ha.
  - assert (bd0 = set_active (Some ab) bd0) as E by (subst bd0; by rewrite ?Ha).
    rewrite E in H0. pose proof (track_ok tfc adx (bo_prevADX bd <. adx) ab bd0 H0) as Ht. rewrite <-E in Ht.
    assert (bo_active bd0 = Some ab) as -> by done. by destruct (trackActiveBreakout _ _ _ _) as [ev ab2].
  - assert (phase_of bd0 = Idle) as Hi by (subst bd0; unfold phase_of; by rewrite ?Ha).
    assert (bo_active bd0 = None) as -> by done.
    destruct (isCompressing _ _ _); [rewrite Hi; by split; [apply idle_squeeze|]|].
    destruct (first_break _ _ _ _ _ _) as [[ev bd']|] eqn:Hf; [|rewrite Hi; by split; [apply idle_quiet|]].
    apply first_break_event in Hf as (l & _ & Hc). apply checkBreakout_event in Hc as (Hs & _ & _ & _ & _ & ab & Hab & E1 & E2 & E3 & E4).
    rewrite Hi. unfold phase_of, watch_ok. rewrite Hab, E1, E2, E3, E4. split; [by apply idle_break|unfold boRetestBars; lia].
Qed.

(** What a run of the course can last: a watched break is settled within twelve
    candles. *)
Lemma phase_settles p evs q : phase_run p evs q → ∀ l d n r, p = Watching l d n r → boRetestBars + 2 - n <= Z.of_nat (length evs) → n <= boRetestBars + 1 →
  ∃ ev, Some ev ∈ evs ∧ (be_Stage ev = StageFailed ∨ be_Stage ev = StageConfirmed) ∧ be_Level ev = l ∧ be_Direction ev = d.
Proof.
  induction 1 as [p|p ev q evs r0 Hs Hr IH]; intros l d n r -> Hn Hp.
  - simpl in Hn. lia.
  - inversion Hs; subst.
    + destruct (IH l d (n + 1) r) as (ev & Hin & Hev); [done|simpl in Hn; lia|lia|]. exists ev. split; [by right|done].
    + destruct (IH (be_Level ev0) (be_Direction ev0) (n + 1) true) as (ev & Hin & Hev); [done|simpl in Hn; lia|lia|]. exists ev. split; [by right|done].
    + exists ev0. split; [by left|]. split; [by left|done].
    + exists ev0. split; [by left|]. split; [by right|done].
Qed.

Record bo_input := {
  bi_candle : TFCandle; bi_levels : list AnalystLevel; bi_adx : float64; bi_atr : float64; bi_bbw : float64; bi_avg : float64 }.

Fixpoint bo_run (ins : list bo_input) (bd : BreakoutDetector) : list (option BreakoutEvent) * BreakoutDetector :=
  match ins with
  | [] => ([], bd)
  | i :: ins =>
      let '(ev, bd) := bo_Update (bi_candle i) (bi_levels i) (bi_adx i) (bi_atr i) (bi_bbw i) (bi_avg i) bd in
      let '(evs, bd) := bo_run ins bd in (ev :: evs, bd)
  end.

Lemma bo_run_course ins : ∀ bd, watch_ok bd → phase_run (phase_of bd) (bo_run ins bd).1 (phase_of (bo_run ins bd).2).
Proof.
  induction ins as [|i ins IH]; intros bd Hw; [constructor|]. cbn [bo_run].
  pose proof (bo_Update_step (bi_candle i) (bi_levels i) (bi_adx i) (bi_atr i) (bi_bbw i) (bi_avg i) bd Hw) as Hs.
  destruct (bo_Update _ _ _ _ _ _ bd) as [ev bd1]. destruct Hs as [Hs Hw1]. specialize (IH bd1 Hw1).
  destruct (bo_run ins bd1) as [evs bd2]. by econstructor.
Qed.

Lemma phase_run_app p evs gs q : phase_run p (evs ++ gs) q → ∃ m, phase_run p evs m ∧ phase_run m gs q.
Proof.
  revert p. induction evs as [|ev evs IH]; intros p Hr; [exists p; by split; [constructor|]|]. simpl in Hr. inversion Hr as [|? ? m ? ? Hs Hr']; subst.
  destruct (IH _ Hr') as (m' & H1 & H2). exists m'. split; [by econstructor|done].
Qed.

(** C37: whatever the candles, levels and indicators, what the breakout detector
    reports follows the course of one breakout at a time: while none is
    watched, a squeeze or a break; then at most one retest; then its failure,
    or, after a retest or ten candles, its confirmation, each with the level
    and the direction of the break and the candles since; and a break with
    twelve candles after it is settled among those twelve. *)
Theorem breakouts_run_their_course ins :
  let evs := (bo_run ins NewBreakoutDetector).1 in
  phase_run Idle evs (phase_of (bo_run ins NewBreakoutDetector).2) ∧
  ∀ before ev after, evs = before ++ Some ev :: after → be_Stage ev = StageBreak → (12 <= length after)%nat →
    ∃ ev', Some ev' ∈ take 12 after ∧ (be_Stage ev' = StageFailed ∨ be_Stage ev' = StageConfirmed) ∧
           be_Level ev' = be_Level ev ∧ be_Direction ev' = be_Direction ev.
Proof.
  cbv zeta. assert (phase_run Idle (bo_run ins NewBreakoutDetector).1 (phase_of (bo_run ins NewBreakoutDetector).2)) as Hr
    by (by apply (bo_run_course ins NewBreakoutDetector)).
  split; [done|]. intros before ev after He Hst Hlen. rewrite He in Hr. apply phase_run_app in Hr as (m & _ & Hr).
  inversion Hr as [|? ? q ? ? Hs Hr']; subst. rewrite <-(take_drop 12 after) in Hr'. apply phase_run_app in Hr' as (m' & Hr' & _).
  assert (q = Watching (be_Level ev) (be_Direction ev) 0 false) as Hq by (inversion Hs; subst; by (done || congruence)).
  apply (phase_settles q (take 12 after) m' Hr' _ _ 0 false Hq); [|unfold boRetestBars; lia]. rewrite length_take. unfold boRetestBars. lia.
Qed.

(** ** Breaks and their levels *)

Lemma updated_not_broken c d l : l ∈ sd_levels (sr_Update c d) → clean_break c l = false.
Proof.
  unfold sr_Update. generalize (if (2 * srSwingWindow + 1 <=? length (slide srCandleHistorySize (sd_candles d) c))%nat then
    detectSwingLow (length (slide srCandleHistorySize (sd_candles d) c) - 1 - srSwingWindow)
      (detectSwingHigh (length (slide srCandleHistorySize (sd_candles d) c) - 1 - srSwingWindow)
        {| sd_levels := sd_levels d; sd_candles := slide srCandleHistorySize (sd_candles d) c; sd_barIdx := sd_barIdx d + 1;
           sd_volumes := slide srVolumeWindow (sd_volumes d) (tfc_Volume c) |}) else
    {| sd_levels := sd_levels d; sd_candles := slide srCandleHistorySize (sd_candles d) c; sd_barIdx := sd_barIdx d + 1;
       sd_volumes := slide srVolumeWindow (sd_volumes d) (tfc_Volume c) |}) as d1.
  intros d1. simpl. intros (l1 & -> & [_ (l0 & _ & Hl)%list_elem_of_omap]%list_elem_of_filter)%list_elem_of_fmap.
  assert (clean_break c l1 = clean_break c l0 ∧ clean_break c l0 = false) as [<- Hb].
  { unfold check_level in Hl. destruct (clean_break c l0) eqn:Hb; [done|]. split; [|done]. destruct (_ && _); injection Hl as <-; [|done].
    rewrite <-Hb. by destruct l0. }
  rewrite <-Hb. by destruct l1.
Qed.

(** A whole body past the level, by no more than the tolerance. *)
Definition close_break (c : TFCandle) (level : Z) (direction : string) : Prop :=
  direction = "UP" ∧ level < Z.min (tfc_Open c) (tfc_Close c) <= level + srTolerance ∨
  direction = "DOWN" ∧ level - srTolerance <= Z.max (tfc_Open c) (tfc_Close c) < level.

Lemma break_is_close c l dir : price_ok (al_Price l) → clean_break c l = false → break_direction c l = Some dir → close_break c (al_Price l) dir.
Proof.
  unfold clean_break, break_direction, close_break, price_ok, max_price. intros Hp. unfold srTolerance.
  destruct (al_IsResistance l); rewrite i64_id by (i64_unfold; lia).
  - intros Hc%Z.ltb_ge. destruct (Z.ltb_spec (al_Price l) (Z.min (tfc_Open c) (tfc_Close c))); [|done]. intros [= <-]. left. split; [done|lia].
  - intros Hc%Z.ltb_ge. destruct (Z.ltb_spec (Z.max (tfc_Open c) (tfc_Close c)) (al_Price l)); [|done]. intros [= <-]. right. split; [done|lia].
Qed.

Lemma track_no_break tfc adx rising ab ev : (trackActiveBreakout tfc adx rising ab).1 = Some ev → be_Stage ev ≠ StageBreak.
Proof. unfold trackActiveBreakout. repeat (destruct (_ || _) || destruct (_ && _)); by intros [= <-]. Qed.

Lemma bo_break tfc levels adx atr bbw avg bd ev : (bo_Update tfc levels adx atr bbw avg bd).1 = Some ev → be_Stage ev = StageBreak →
  ∃ l, l ∈ levels ∧ be_Level ev = al_Price l ∧ break_direction tfc l = Some (be_Direction ev) ∧ be_VolumeRatio ev <. boVolumeMultiplier = false ∧
       adx <. boADXThreshold = false.
Proof.
  unfold bo_Update. destruct (bo_active _) as [ab|].
  - destruct (trackActiveBreakout _ _ _ _) as [ev0 ab'] eqn:Ht. simpl. intros -> Hs. exfalso. eapply track_no_break; [|exact Hs]. by rewrite Ht.
  - destruct (isCompressing _ _ _); [by intros [= <-]|]. destruct (first_break _ _ _ _ _ _) as [[ev0 bd']|] eqn:Hf; [|done]. intros [= <-] _.
    apply first_break_event in Hf as (l & Hl & Hc). apply checkBreakout_event in Hc as (_ & H1 & H2 & H3 & H4 & _). by exists l.
Qed.

(** What a published break is, for the candle that made it. *)
Definition break_ok (c : TFCandle) (ev : BreakoutEvent) : Prop :=
  close_break c (be_Level ev) (be_Direction ev) ∧ be_VolumeRatio ev <. boVolumeMultiplier = false.

Lemma process_break c e r e' : candle_ok c → levels_ok (ae_srd e) → analyst_Process c e = Some (r, e') →
  levels_ok (ae_srd e') ∧ ∀ ev, r ≫= ar_Breakout = Some ev → be_Stage ev = StageBreak → break_ok c ev.
Proof.
  intros Hc Hl. unfold analyst_Process. destruct (IsReplay _ _); [intros [= <- <-]; split; [done|]; by destruct (ae_last e)|].
  destruct (IndicatorEngine.Process c (ae_indEngine e)) as [[results ind]|]; [|done]. cbn [mbind option_bind].
  destruct (extractSnapshot _ _ _ _) as [snap [hist n]]. destruct (Detect _ _ _ _ _ _) as [state msd].
  destruct (bo_Update _ _ _ _ _ _ _) as [breakout bod] eqn:Hb. intros [= <- <-]. cbn [ae_srd].
  assert (levels_ok (sr_Update c (ae_srd e))) as Hu by (by apply update_ok). split; [done|]. intros ev Hev Hs. simpl in Hev. subst breakout.
  destruct (bo_break c (ActiveLevels (sr_Update c (ae_srd e))) (sn_ADX snap) _ _ _ _ ev ltac:(by rewrite Hb) Hs) as (l & Hin & E1 & E2 & E3 & E4).
  split; [|done]. rewrite E1. apply break_is_close; [|by apply (updated_not_broken c (ae_srd e))|done].
  destruct Hu as [[_ _ Hls _] _ _ _]. rewrite Forall_forall in Hls. by apply (lo_price _ _ (Hls _ Hin)).
Qed.

Lemma loop_breaks candles : ∀ e out e', Forall candle_ok candles → levels_ok (ae_srd e) → process_loop candles e = Some (out, e') →
  ∀ ev, PublishBreakout ev ∈ out → be_Stage ev = StageBreak → ∃ c, c ∈ candles ∧ break_ok c ev.
Proof.
  induction candles as [|c candles IH]; intros e out e' Hc Hl; [by intros [= <- <-] ev ?%not_elem_of_nil|]. apply Forall_cons in Hc as [Hc Hcs].
  cbn [process_loop]. destruct (process_candle c e) as [[out1 e1]|] eqn:H1; [|done]. cbn [mbind option_bind].
  destruct (process_loop candles e1) as [[outs e2]|] eqn:H2; [|done]. intros [= <- <-] ev [Hin|Hin]%elem_of_app Hs.
  - unfold process_candle in H1. destruct (_ || _); [injection H1 as <- <-; by apply not_elem_of_nil in Hin|].
    destruct (analyst_Process c e) as [[r e3]|] eqn:Hp; [|done]. injection H1 as <- <-.
    destruct (process_break c e r e3 Hc Hl Hp) as [_ Hb]. exists c. split; [by left|]. apply Hb; [|done].
    unfold publish_result in Hin. rewrite !elem_of_app, elem_of_cons, !list_elem_of_singleton in Hin.
    destruct Hin as [[?|?]|[Hin|?]]; [done..| |done]. destruct (r ≫= ar_Breakout) as [ev'|]; simpl in Hin; [|by apply not_elem_of_nil in Hin].
    by apply list_elem_of_singleton in Hin as [= ->].
  - assert (levels_ok (ae_srd e1)) as Hl1.
    { unfold process_candle in H1. destruct (_ || _); [by injection H1 as <- <-|].
      destruct (analyst_Process c e) as [[r e3]|] eqn:Hp; [|done]. injection H1 as <- <-. by destruct (process_break c e r e3 Hc Hl Hp). }
    destruct (IH e1 outs e2 Hcs Hl1 H2 ev Hin Hs) as (c' & Hc' & Hb). exists c'. split; [by right|done].
Qed.

(** ** The analysis never panics *)

(** Only the moving average and the band can panic, on an index out of range. *)
Definition ind_good (a : AnyIndicator) : Prop :=
  match a with
  | AnySMA _ => False
  | AnyBollinger b => bb_period b = 20 ∧ length (bb_buf b) = 20%nat ∧ 0 <= bb_idx b < 20
  | _ => True
  end.

Lemma any_update_good c a : ind_good a → ∃ a', any_update c a = Some a' ∧ ind_good a'.
Proof.
  destruct a as [i|i|i|i|i|i|i|b]; simpl; [done|intros _; eexists; split; [reflexivity|done]..|]. intros (Hp & Hl & Hi). unfold Bollinger_Update.
  assert (at_index (bb_buf b) (bb_idx b) = bb_buf b !! Z.to_nat (bb_idx b)) as ->
    by (unfold at_index; by rewrite (proj2 (Z.ltb_ge (bb_idx b) 0)) by lia).
  destruct (bb_buf b !! Z.to_nat (bb_idx b)) as [old|] eqn:Ho; [|apply lookup_ge_None in Ho; lia].
  assert (set_index (bb_buf b) (bb_idx b) #(c_Close c) = Some (<[Z.to_nat (bb_idx b) := #(c_Close c)]> (bb_buf b))) as Hset
    by (unfold set_index; by rewrite (proj2 (Z.ltb_ge (bb_idx b) 0)), (proj2 (Z.leb_gt _ _)) by lia).
  cbn [mbind option_bind]. rewrite Hset. cbn [mbind option_bind]. rewrite Hp, (proj2 (Z.eqb_neq 20 0)) by lia.
  assert (0 <= Z.rem (i64 (bb_idx b + 1)) 20 < 20) as Hr by (rewrite i64_id by (i64_unfold; lia); apply Z.rem_bound_pos; lia).
  destruct (_ <? 20); (eexists; split; [reflexivity|]); simpl; by rewrite length_insert.
Qed.

Lemma slots_update_good c ti : Forall (λ s, ind_good (sl_ind s)) ti →
  ∃ r ti', slots_update c ti = Some (r, ti') ∧ Forall (λ s, ind_good (sl_ind s)) ti'.
Proof.
  intros Hti. unfold slots_update.
  enough (∃ l, mapM (slot_update c) ti = Some l ∧ Forall (λ s, ind_good (sl_ind s)) l.*2) as (l & -> & Hl) by (by eexists _, _).
  induction Hti as [|s ti Hs _ (l & Hm & Hl)]; [by exists []|]. assert (∃ r s', slot_update c s = Some (r, s') ∧ ind_good (sl_ind s')) as (r & s' & Hs1 & Hs2).
  { unfold slot_update. destruct (slot_replay (tfc_TS c) s); [by eexists _, _|].
    destruct (any_update_good (candle_of c) (sl_ind s) Hs) as (a & -> & Ha). by eexists _, _. }
  exists ((r, s') :: l). simpl. rewrite Hs1. simpl. rewrite Hm. split; [done|]. by constructor.
Qed.

(** The analyst's own indicator engine, and its tokens. *)
Record ind_ok (e : IndicatorEngine.Engine) : Prop := {
  io_configs : en_configs e = analyst_configs;
  io_index : en_tfIndex e = tf_index analyst_configs;
  io_tokens : ∀ k ti, tf_state 0 e !! k = Some ti → Forall (λ s, ind_good (sl_ind s)) ti }.

Lemma analyst_index tf i : tf_index analyst_configs !! tf = Some i → i = 0%nat.
Proof.
  change (tf_index analyst_configs) with (<[60 := 0%nat]> (∅ : gmap Z nat)). by intros [[_ <-]|[_ ?%lookup_empty_Some]]%lookup_insert_Some.
Qed.

Lemma ind_process c e : ind_ok e → ∃ r e', IndicatorEngine.Process c e = Some (r, e') ∧ ind_ok e'.
Proof.
  intros [H1 H2 H3]. unfold IndicatorEngine.Process. destruct (en_tfIndex e !! tfc_TF c) as [i|] eqn:Hi; [|by eexists _, _].
  rewrite H2 in Hi. apply analyst_index in Hi as ->.
  assert (∃ ti, match tf_state 0 e !! TFCandle_Key c with Some ti => Some ti | None => cfg ← en_configs e !! 0%nat; createTokenIndicators cfg end
    = Some ti ∧ Forall (λ s, ind_good (sl_ind s)) ti) as (ti & -> & Hti).
  { destruct (tf_state 0 e !! TFCandle_Key c) as [ti|] eqn:Ht; [by eexists; split; [|eapply H3]|]. rewrite H1. eexists. split; [vm_compute; reflexivity|].
    by repeat constructor. }
  cbn [mbind option_bind]. destruct (slots_update_good c ti Hti) as (r & ti' & -> & Hti'). eexists _, _. split; [reflexivity|].
  split; [done|done|]. intros k ti0. unfold tf_state. simpl. destruct (en_state e) as [|m ms] eqn:He; [intros Hk; by apply (lookup_empty_Some k ti0) in Hk|]. simpl.
  intros [[_ <-]|[_ Hk]]%lookup_insert_Some; [done|]. apply (H3 k). unfold tf_state. by rewrite He.
Qed.

Lemma analyst_loop_total candles : ∀ e, ind_ok (ae_indEngine e) → ∃ out e', process_loop candles e = Some (out, e').
Proof.
  assert (∀ c e, ind_ok (ae_indEngine e) → ∃ out e', process_candle c e = Some (out, e') ∧ ind_ok (ae_indEngine e')) as Hc.
  { intros c e He. unfold process_candle, analyst_Process. destruct (_ || _); [by eexists _, _|]. destruct (IsReplay _ _); [by eexists _, _|].
    destruct (ind_process c _ He) as (r & e' & -> & He'). cbn [mbind option_bind]. destruct (extractSnapshot _ _ _ _) as [snap [hist n]].
    destruct (Detect _ _ _ _ _ _) as [state msd]. destruct (bo_Update _ _ _ _ _ _ _) as [breakout bod]. by eexists _, _. }
  induction candles as [|c candles IH]; intros e He; [by eexists _, _|]. cbn [process_loop]. destruct (Hc c e He) as (out & e1 & -> & H1).
  cbn [mbind option_bind]. destruct (IH e1 H1) as (outs & e2 & ->). by eexists _, _.
Qed.

(** C36: the analyst never panics, and a break it publishes is close to its
    level: the whole body of one of the candles is past the level, and by no
    more than the tolerance of five rupees, and its volume is not under twice
    the average.  (A candle that clears the level by more removes it before the
    breakout is looked for, so the strongest breaks are never published.) *)
Theorem breaks_are_published_near_levels candles : Forall candle_ok candles →
  ∃ out e', process_loop candles NewAnalystEngine = Some (out, e') ∧
    ∀ ev, PublishBreakout ev ∈ out → be_Stage ev = StageBreak → ∃ c, c ∈ candles ∧ break_ok c ev.
Proof.
  intros Hc. destruct (analyst_loop_total candles NewAnalystEngine) as (out & e' & Hr).
  { split; [done|done|]. intros k ti Hk. by apply (lookup_empty_Some k ti) in Hk. }
  exists out, e'. split; [done|]. by apply (loop_breaks candles NewAnalystEngine out e' Hc no_levels_ok Hr).
Qed.

(** ** A morning of candles *)

Definition demo_bar (token : string) (i o h l c v : Z) : TFCandle := {|
  tfc_Token := token; tfc_Exchange := "NSE"; tfc_TF := 60; tfc_TS := (1000 + i) * Minute; tfc_Open := o; tfc_High := h; tfc_Low := l;
  tfc_Close := c; tfc_Volume := v; tfc_Count := 1; tfc_Forming := false |}.
Definition nifty_bar : Z → Z → Z → Z → Z → Z → TFCandle := demo_bar "99926000".

(** A rise, a spike that becomes a level, and a candle past it. *)
Definition rise : list TFCandle :=
  ((λ i, let p := 2500000 + 300 * i in nifty_bar i p (p + 400) (p - 100) (p + 300) 100) <$> seqZ 0 35) ++
  [nifty_bar 35 2510500 2512000 2510400 2510800 100; nifty_bar 36 2510800 2511200 2510700 2511100 100].
Definition weak_break : TFCandle := nifty_bar 37 2512100 2512500 2512000 2512450 1000.
Definition strong_break : TFCandle := nifty_bar 37 2512600 2513500 2512550 2513400 1000.
Definition pullback : TFCandle := nifty_bar 38 2512400 2512600 2511900 2512500 200.

Definition breakouts_of (out : list publication) : list (BreakoutStage * Z * string * Z) :=
  omap (λ p, match p with PublishBreakout ev => Some (be_Stage ev, be_Level ev, be_Direction ev, be_BarsSinceBreak ev) | _ => None end) out.
Definition tokens_of (out : list publication) : list string :=
  omap (λ p, match p with PublishState (Some r) => Some (mse_Token (ar_State r)) | _ => None end) out.
Definition published_breakouts (candles : list TFCandle) : option (list (BreakoutStage * Z * string * Z)) :=
  option_map (breakouts_of ∘ fst) (process_loop candles NewAnalystEngine).

(** A body a rupee past the level is a breakout; one six rupees past is none. *)
Example breaks_of_the_spike :
  published_breakouts (rise ++ [weak_break; pullback]) = Some [(StageBreak, 2512000, "UP", 0); (StageRetest, 2512000, "UP", 1)] ∧
  published_breakouts (rise ++ [strong_break; pullback]) = Some [].
Proof. vm_compute. split; reflexivity. Qed.

Lemma breaks_are_published_near_levels_witness :
  published_breakouts (rise ++ [weak_break]) = Some [(StageBreak, 2512000, "UP", 0)] ∧
  ∃ out e', process_loop (rise ++ [weak_break]) NewAnalystEngine = Some (out, e') ∧
    ∀ ev, PublishBreakout ev ∈ out → be_Stage ev = StageBreak → ∃ c, c ∈ rise ++ [weak_break] ∧ break_ok c ev.
Proof.
  split; [vm_compute; reflexivity|]. apply (breaks_are_published_near_levels (rise ++ [weak_break])).
  apply Forall_forall. intros c Hc. vm_compute in Hc. repeat (apply elem_of_cons in Hc as [->|Hc]; [vm_compute; repeat split; discriminate|]).
  by apply not_elem_of_nil in Hc.
Defined.

Lemma analyst_levels_well_formed_witness :
  let d := foldl (λ d c, sr_Update c d) NewSRDetector rise in
  (λ l, (al_Price l, al_TouchCount l)) <$> sd_levels d = [(2512000, 1)] ∧ levels_ok d.
Proof.
  split; [vm_compute; reflexivity|]. apply (analyst_levels_well_formed rise). apply Forall_forall. intros c Hc. vm_compute in Hc.
  repeat (apply elem_of_cons in Hc as [->|Hc]; [vm_compute; repeat split; discriminate|]). by apply not_elem_of_nil in Hc.
Defined.

(** A strong trend down is voted up: the ADX and the ATR can only vote up, and
    two up and two down is up. *)
Example downtrend_voted_up :
  let snap := {| sn_ADX := #40; sn_PlusDI := #5; sn_MinusDI := #45; sn_ATR := #30000; sn_Close := 2500000; sn_RSI := #50; sn_PrevRSI := #49;
                 sn_EMA9 := #2500000; sn_EMA21 := #2520000; sn_VWAP := #2520000 |} in
  let ev := (Detect snap "99926000" "NSE" 60 0 NewMarketStateDetector).1 in
  (iv_State <$> mse_Votes ev, mse_State ev, mse_Direction ev, mse_Confluence ev) =
  ([TrendingUp; TrendingUp; Sideways; TrendingDown; TrendingDown], TrendingUp, "BULLISH", 2).
Proof. vm_compute. reflexivity. Qed.

(** The RSI's slope reaches two candles back, not three. *)
Example slope_over_two :
  let rsi v := {| ir_Name := "RSI_14"; ir_Token := ""; ir_Exchange := ""; ir_TF := 60; ir_Value := #v; ir_TS := 0; ir_Ready := true; ir_Live := false |} in
  let read acc v := (read_result (no_values 0, acc.2) (rsi v)) in
  sn_PrevRSI (foldl read (no_values 0, (ae_rsiHistory NewAnalystEngine, 0)) [41; 42; 43; 44; 45]).1 = #43.
Proof. vm_compute. reflexivity. Qed.

(** One engine analyses every instrument: a candle seen again is answered with
    the last result of whatever instrument came last. *)
Example replay_of_another_instrument :
  let bank := demo_bar "99926009" 0 5400000 5401000 5399000 5400500 100 in
  let nifty := nifty_bar 0 2500000 2501000 2499000 2500500 100 in
  option_map (tokens_of ∘ fst) (process_loop [nifty; bank; nifty] NewAnalystEngine) = Some ["99926000"; "99926009"; "99926009"].
Proof. vm_compute. reflexivity. Qed.
